(* ===== verification/_CoqProject ===== *)
-Q . S2P
Prelude.v
PyStr.v
PyDict.v
PyGroup.v
Regex.v
Schemas.v
Catalog.v
ExactCache.v
Domain.v
UnionFind.v
Reconcile.v
Ledger.v
Json.v
Base64.v
InventoryStore.v
InventoryReads.v
Identity.v
Policy.v
Guards.v
Extractor.v
Breaker.v
Resilience.v
Sanitize.v
OpenRouter.v
Fireworks.v
Inventory.v
Pricing.v
Benchmarks.v
Registry.v
BenchStore.v
Ingest.v
Scores.v
Labels.v
Classify.v
Prompts.v
Smart.v
Candidates.v
Hydration.v
Budgets.v
Trajectory.v
Trace.v
Effects.v
TotoClient.v
OpenAIWire.v
Credentials.v
Platform.v
Inspect.v
Streaming.v
Knn.v
Driver.v
TaskRouting.v
DriverRun.v
Gateway.v
Dispatch.v
AuthPolicies.v
AuthStore.v
AuthSso.v
AuthHistory.v
RequireAuth.v
Claims.v
Runs.v
Egress.v
Canvas.v
Adoption.v
