(* ===== verification/Prelude.v ===== *)
(** * toto-router: a verification development

    The program (under [src/toto_gateway/]) is an OpenAI-compatible gateway that chooses a model
    for every request under a data policy (the routing plane), a driver that decomposes a query
    into tasks and runs them (the driver plane), and a platform that discovers what models the
    providers offer with whose credential and keeps the routing index in step with it (the
    inventory plane).  In front of them stands the access plane: who calls, for which organisation
    and under which stored policy, and the runs a caller starts.  The development translates the
    code of the four planes into executable definitions and proves what makes them right.  A
    definition has the name of the method or field it translates where the two languages allow it.

    ** The parts and how they interact

    A request enters [Dispatch.complete] or [Dispatch.stream_request] ([gateway.py]).
    [Gateway.intake] asks the guard ([Guards], over the matcher of [Regex]), the extractor
    ([Extractor]) and, for an auto model, the smart router ([Smart], with the label table of
    [Labels] and the scores of [Benchmarks]); [Gateway.plan] applies the caller's policy
    ([Policy], over the identity of [Identity]) and resolves the model in the static [Catalog] or
    in the discovered candidates of [Candidates]; [Gateway.apply_budget] may downgrade it
    ([Budgets]); [Dispatch.candidates] then tries the model and its fallbacks ([Resilience]) under
    the breaker ([Breaker]) through the runner ([OpenAIWire]), charges the answer ([Pricing]),
    caches it ([ExactCache]) and writes one provenance row ([Trace]).  [Trajectory] scores the
    conversation for the row.

    Every request first passes [RequireAuth.require_auth] ([routes/deps.py]): a header or a cookie
    names a credential of [AuthStore] ([auth/tokens.py], [auth/tenancy.py], issued by password, by
    the sign-in of [AuthSso] or by an administrator), whose membership gives the organisation, whose
    overlays ([AuthPolicies], of which [Adoption] writes the adopted models and the prices) fill the
    identity of [Identity]; [Credentials.load_byok] adds the keys.  The requests of the
    HTTP client, and mail, pass the check of [Egress].  The objects a user keeps on the canvas are [Canvas], in the
    store of the runs.

    A query enters [DriverRun.run] ([driver/core.py], [driver/graph.py]): the nodes triage,
    decompose, gate and dispatch. [TaskRouting.dispatch_one] routes a task by guard, residency,
    [Classify], labels, the experience proposer of [Knn] and a pin, and executes it by the
    adapters and calls of [Driver], streamed by [Streaming]; [Runs.execute_run] launches it for a
    stored session and publishes its events, once per idempotency key ([Claims]); [TotoClient] is
    the only conduit to Toto, [Prompts] builds the messages and parses the answers.

    An administrator's intent enters [Platform.compile] and [Platform.submit]
    ([benchmarking/platform.py]): [Credentials] chooses the key of every provider, [Ledger] keeps
    the operation, and [Platform.run_refresh] claims it, discovers with the adapters [OpenRouter]
    and [Fireworks] (behind the credential boundary of [Sanitize]), reconciles the offers with the
    known identities ([Reconcile] over [UnionFind]) and commits them ([Inventory], [InventoryStore],
    the records of [Domain]); [Hydration] brings the index of [Candidates] in step with what
    [InventoryReads] gives, and [Inspect] pages through it.  The benchmark facts have their own path:
    [Ingest] maps and stores what the sources report ([Registry], [BenchStore]) and [Scores]
    turns it into the table of [Benchmarks].

    ** Files

    Shared: this file (notations, automation, results, lists, sorting, rationals); [PyStr],
    [PyDict], [PyGroup] (strings, dicts, grouping as Python has them); [Regex] (a matcher with
    Python's order, proved equivalent to a relation); [Json] and [Base64] (the reader and writer
    of JSON, base64 and UTF-8); [Effects] (the state and exception monad with its [keeps]
    relation).

    - [Schemas]: [schemas.py], [tokens.py].  [Catalog]: [catalog.py].  [Identity]: the attributes of
      a caller that the gateway reads ([routes/deps.py], [gateway.py]).  [Policy]: [routing/policy.py], [routing/decision.py].
      [Guards], [Extractor]: [signals/].  [Breaker]: [breaker.py].  [Resilience]: [resilience.py].
      [Pricing]: [pricing.py].  [ExactCache]: [cache/exact.py].  [Benchmarks]: [benchmarks.py].
      [Labels], [Smart], [Candidates], [Trajectory]: the files of that name in [routing/].
      [Budgets]: [budgets.py].  [Trace]: [trace.py].  [OpenAIWire]: [runners/openai.py],
      [runners/base.py].  [Gateway], [Dispatch]: [gateway.py], with the defaults of [pipeline.py].
    - [Classify], [Prompts], [TotoClient], [Streaming]: the files of that name in [driver/].
      [Knn]: [embeddings.py], [driver/knn.py].  [Driver]: [driver/contracts.py],
      [driver/adapters.py] and the calls of [driver/core.py].  [TaskRouting]: [driver/dispatch.py],
      [artifacts.py].  [DriverRun]: the nodes of [driver/core.py], [driver/graph.py], [persona.py].
    - [Domain], [Sanitize]: [benchmarking/domain.py], [benchmarking/providers/base.py].
      [OpenRouter], [Fireworks]: [benchmarking/providers/].  [UnionFind], [Reconcile]:
      [benchmarking/identity.py].  [Inventory]: [benchmarking/inventory.py].  [Ledger],
      [InventoryStore], [InventoryReads]: [benchmarking/platform_store.py].  [Hydration], [Platform],
      [Inspect]: [benchmarking/platform.py].  [Credentials]: [credentials.py],
      [auth/provider_keys.py], [routes/credentials.py], [routes/provider_keys.py].
    - [Registry], [BenchStore], [Ingest], [Scores]: [benchmarking/registry.py], [store.py],
      [ingest.py], [aggregate.py].
    - [AuthPolicies]: [auth/policies.py].  [AuthStore]: [auth/users.py], [auth/tokens.py],
      [auth/tenancy.py].  [AuthSso]: [auth/sso.py], [auth/vocab.py].  [AuthHistory]: what holds over
      any sequence of their calls.  [RequireAuth]: [routes/deps.py] from [Identity] to
      [require_read_role].  [Claims]: [runs/claims.py] and the [Idem] guard of [routes/deps.py].
      [Runs]: [runs/sessions.py], [runs/events.py], [runs/scoping.py], [sessions_service.py], the
      reaper of [app/background.py], the rate limiter of [db.py].
    - [Egress]: [egress.py] and its installation in [app/factory.py].  [Canvas]: [runs/canvas.py] and the
      cleanup of [runs/store.py].  [Adoption]: [routes/admin_catalog_adoptions.py], [freshness.py], and
      the cache of [runners/registry.py].

    ** What is shown

    - Confinement: every call on the wire is one the policy, the guard, the residency class and
      the caller's catalog allow, in the gateway ([Gateway.plan_permits],
      [Gateway.local_only_stays_local], [Dispatch.wire_calls_confined]) and in the driver
      ([TaskRouting.task_confined], [DriverRun.run_confined]); what cannot be decided is refused
      ([Policy.effective_policy_fail_closed], [Dispatch.classifier_down_fails_closed],
      [Dispatch.open_breaker_fails_closed]).
    - Accounting: a served answer and every refusal leave exactly their row, with the cost of the
      model that answered ([Dispatch.served_honestly], [Dispatch.refusals_are_audited]); a
      zero-retention request leaves nothing in the cache ([Dispatch.nothing_stored]); a stream
      passes on what the provider sent ([Dispatch.stream_faithful]).
    - Refinements: the breaker implements a specification over the history of outcomes
      ([Breaker.breaker_refines_history]); the incremental candidate load implements the full one
      under any interleaving with commits ([Hydration.index_refines_full_load]).
    - Equivalences with reference definitions: [Knn.vote_exact], [Reconcile.components_exact],
      [Scores.aggregate_exact], [Inspect.inspect_pages_complete].
    - The inventory from intent to index: who may act ([Platform.authorize_exact]), a plan that
      survives its process ([Platform.plan_survives_restart]), a claimed operation that always comes
      to an end ([Platform.run_settles]) and whose models are then routable
      ([Platform.refresh_reaches_routing]); the bounds of a discovery ([Fireworks.walk_bounded]);
      no text value kept of what a provider sent mentions the credential
      ([Inventory.refresh_hides_credential]).
    - Keys: whose key goes on the wire ([Credentials.dispatch_precedence]), from the route that
      saved it, across a rotation ([Credentials.saved_key_dispatched]).
    - Invariants by induction on every sequence of calls: [InventoryStore.store_invariant],
      [Ledger.lease_exclusive], [DriverRun.dispatch_settles], [Reconcile.reconcile_justified].
    - Termination and error paths: [DriverRun.run_complete], [Smart.smart_route_resolves],
      [Ingest.refresh_isolated], [Driver.call_exact].
    - Who calls: a caller that passes the gate is the operator or the owner of a live credential, in
      an organisation they belong to ([RequireAuth.authenticated_by_credential]); the policy the
      gateway then enforces is the stored one ([RequireAuth.stored_policy_governs]); an outage of
      the tenancy tables changes nobody's identity ([RequireAuth.outages_never_authenticate]).
    - The auth store over any sequence of calls, as rules of a step relation: an organisation keeps
      an owner, a secret that is gone stays gone, a token keeps its user, organisations do not see
      each other's administration ([AuthHistory.owner_remains],
      [AuthHistory.dead_secret_stays_dead], [AuthHistory.token_keeps_user],
      [AuthHistory.organisations_isolated]); what deprovisioning removes
      ([AuthHistory.deactivate_exact]).
    - Runs and retries: one effect for a key however many requests race ([Claims.one_effect_per_key]);
      a launched run always ends ([Runs.run_always_ends]); a subscriber gets its events exactly once
      ([Runs.subscribe_exact]); a user reads only what is theirs ([Runs.user_reads_own]); the window
      of turns keeps the prefix a provider has cached ([Runs.window_stable]).
    - Around them: a host is allowed exactly when some source of the configuration names it, and a refused
      one is audited once an hour ([Egress.egress_exact], [Egress.one_row_per_hour]); what a user has on
      the canvas no other user's call changes, and while users place only what is theirs no position
      outlives its object ([Canvas.canvas_isolated], [Canvas.positions_backed]); an adopted model is what its provider
      listed under an id of its own, and is routable by its scope ([Adoption.adoptions_honest],
      [Adoption.adopted_routable]); a refresh reports exactly what changed ([Adoption.refresh_exact]).

    Each of these has a witness, a closed instance on concrete data, where it has hypotheses.
    Small theorems named for a surprising behaviour ([Smart.memo_skips_taxonomy],
    [Streaming.brace_already_out], [Ingest.unreadable_value_wipes_source], ...) record what
    modelling found.

    ** Conventions

    A Python [float] is an exact rational and an [int] an integer of any size, so rounding of
    binary floats is not modelled (the explicit [round] calls are).  A [str] is a string of
    characters with code points below 256.  [None] is [None]; a [dict] is an association list in
    insertion order without repeated keys.  An exception is a value: [Err] of the result type
    [res], the errors [GwError], [StoreError], [PlatformError] and so on, and in the monad of
    [Effects] it keeps the state it was raised in.  An SQL table is a dict by primary key, a
    statement a function on it; both dialects issue the same statements, and a transaction that
    raises leaves the store as it was.  What is not code of the repository is a parameter or a
    field of a record of operations: providers, Toto, Redis, Vault, the environment, the cipher
    and hashes, UUIDs, clock readings, float printing, square root and exponential, the parse of
    IP addresses.  Where a theorem needs a fact of one of them it is a named hypothesis or a class
    of laws ([FernetLaws], [ExpLaws] and the like), and the witness instantiates it.

    Tasks that the code runs concurrently are modelled by explicit interleaving points: the calls
    that others make between the reads of a candidate load ([Hydration.Meanwhile]), the ledger
    events of other workers during a run ([Platform.RunTimes]), an arbitrary history of calls
    before a theorem's state, requests with one idempotency key that race ([Claims.race_step]), the
    readings of a subscriber between the writes of all replicas ([Runs.subscribe]).  A [gather] over tasks whose state is their own runs them one after
    the other.  Backoff sleeps, latencies and observers are not state.

    ** Fuel and bounds

    Fuel is always computed from the input and proved or seen to be enough: a star of [Regex] and
    the scans of [findall] and [sub] take the length of the text, since an iteration consumes;
    [UnionFind.find] the number of nodes ([UnionFind] proves it reaches the root);
    [Json.loads] twice the length of the text and one ([Json] proves that more changes nothing);
    [Fireworks.walk] the page limit of the code; [DriverRun.walk] four nodes
    ([DriverRun.run_complete]); [expandvars], [replace_all] and [nat_digits] the length of their
    argument.  The retries of a call and the two turns of a candidate load are the code's own
    counts.

    ** Not modelled

    - I/O and glue: the HTTP application and its routes (those that store keys apart), the SDK
      client, connection pools, schema migrations, metering and analytics roll-ups, Prometheus,
      mail, settings, the console, scripts and tests.
    - asyncio task control: the heartbeat that renews a lease and the cancellation it causes when
      a renewal fails, the concurrency semaphore of the gateway, [wait] and [wait_all].
    - The recomposition of the catalog and the best-effort refresh after a key is saved; the
      sinks of the provenance row; checkpointing of driver runs; the export to an external
      tracer; the prompt texts.
    - Interleavings of two requests in one gateway process: a method of the gateway and a call of the
      auth store run to their end (one interleaving of the store is shown to break its invariant,
      [AuthHistory.interleaved_demotions_orphan]).
    - Of the access plane: the audit trail and its export, password hashing, the columns of the
      Google sign-in, the pre-warm flag and the storage connector; advisory locks, cancellation
      flags, the partitions of PostgreSQL; the companion and learning signals; the fetchers of the
      provider libraries ([catalog_sync.py]), which [Adoption] takes as a parameter.  A call of
      the auth store that raises leaves the tables as they were, although the code may have
      committed a first statement of [scim_provision] or [mint_token] by then.
    - JSON texts with [NaN], infinities or code points above 255. *)

From Stdlib Require Export Ascii QArith Qround Lqa Lia Sorted.
From stdpp Require Export base numbers strings gmap list.
#[global] Open Scope string_scope.
#[global] Open Scope list_scope.
#[global] Open Scope nat_scope.

(** ** Notations *)

Declare Scope py_scope.
Delimit Scope py_scope with py.
#[global] Open Scope py_scope.

(** Python's [==] on a type with decidable equality. *)
Notation "x ≡? y" := (bool_decide (x = y)) (at level 70, no associativity) : py_scope.

(** Python's [x in xs] on a list, tuple or set of decidable values. *)
Notation "x ∈? l" := (bool_decide (x ∈ l)) (at level 70, no associativity) : py_scope.

(** Python's [a or b] on optional values. *)
Notation "a 'orelse' b" := (match a with Some v => Some v | None => b end)
  (at level 60, right associativity) : py_scope.

(** ** Exceptions as values *)

(** A Python call that either returns or raises. *)
Inductive res (E A : Type) : Type :=
  | Ok (a : A)
  | Err (e : E).
Arguments Ok {E A} a.
Arguments Err {E A} e.

Definition res_bind {E A B} (m : res E A) (k : A → res E B) : res E B :=
  match m with Ok a => k a | Err e => Err e end.

Notation "'try!' x ':=' m 'in' k" := (res_bind m (λ x, k))
  (at level 10, x name, m at level 100, k at level 200) : py_scope.

Definition is_ok {E A} (m : res E A) : bool := match m with Ok _ => true | Err _ => false end.


#[export] Instance Ok_inj {E A} : Inj (=) (=) (@Ok E A).
Proof. by intros x y [= ->]. Qed.

Lemma res_bind_ok {E A B} (m : res E A) (k : A → res E B) b :
  res_bind m k = Ok b ↔ ∃ a, m = Ok a ∧ k a = Ok b.
Proof.
  destruct m as [a|e]; cbn; [|by split; [|intros (?&?&?)]].
  split; [eauto|by intros (?&[= ->]&?)].
Qed.

(** ** Tactics and hint databases *)

(** [py] holds the lemmas that turn boolean tests into propositions. *)
Create HintDb py discriminated.

(** Case analysis on every boolean test, match and [if] of the goal and context. *)
Ltac py_cases :=
  repeat first
    [ progress simplify_eq/=
    | case_bool_decide
    | case_match ].

(** Turns conjunctions, disjunctions and negations of [bool]s into [Prop]s. *)
Ltac bool_to_prop :=
  repeat match goal with
  | H : _ && _ = true |- _ => apply andb_true_iff in H as [??]
  | H : _ || _ = false |- _ => apply orb_false_iff in H as [??]
  | H : negb _ = true |- _ => apply negb_true_iff in H
  | H : negb _ = false |- _ => apply negb_false_iff in H
  | H : bool_decide _ = true |- _ => apply bool_decide_eq_true in H
  | H : bool_decide _ = false |- _ => apply bool_decide_eq_false in H
  end.

(** Decides a closed decidable proposition by computation. *)
Ltac vm_decide := apply (bool_decide_unpack _); vm_compute; exact I.

(** Membership in literal lists, decided; and a literal list taken apart. *)
Ltac literal := first [by apply (bool_decide_unpack _); vm_compute | by intros []%elem_of_nil].
Tactic Notation "each" ident(H) "by" tactic(t) :=
  repeat (apply elem_of_cons in H as [->|H]; [by t|]); by apply elem_of_nil in H.

(** ** Numbers *)

(** A Python [float] is modelled by an exact rational; [Qltb] is Python's [<]. *)
Definition Qleb (x y : Q) : bool := Qle_bool x y.
Definition Qltb (x y : Q) : bool := negb (Qle_bool y x).

Lemma Qleb_true x y : Qleb x y = true ↔ (x <= y)%Q.
Proof. apply Qle_bool_iff. Qed.

Lemma Qleb_false x y : Qleb x y = false ↔ (y < x)%Q.
Proof.
  rewrite <- not_true_iff_false, Qleb_true. split; [apply Qnot_le_lt | apply Qlt_not_le].
Qed.

Lemma Qltb_true x y : Qltb x y = true ↔ (x < y)%Q.
Proof. unfold Qltb. rewrite negb_true_iff. apply Qleb_false. Qed.

Lemma Qltb_false x y : Qltb x y = false ↔ (y <= x)%Q.
Proof. unfold Qltb. rewrite negb_false_iff. apply Qleb_true. Qed.

(** Rewrites every [Qleb]/[Qltb] test of the context into an inequality. *)
Ltac q_to_prop :=
  repeat match goal with
  | H : Qleb _ _ = true |- _ => apply Qleb_true in H
  | H : Qleb _ _ = false |- _ => apply Qleb_false in H
  | H : Qltb _ _ = true |- _ => apply Qltb_true in H
  | H : Qltb _ _ = false |- _ => apply Qltb_false in H
  end.

(** Decides a goal about [Qleb]/[Qltb] by linear arithmetic. *)
Ltac q_solve :=
  q_to_prop;
  try match goal with
  | |- Qleb _ _ = true => apply Qleb_true
  | |- Qleb _ _ = false => apply Qleb_false
  | |- Qltb _ _ = true => apply Qltb_true
  | |- Qltb _ _ = false => apply Qltb_false
  end;
  lra.

Definition Qmaxb (x y : Q) : Q := if Qltb x y then y else x.
Definition Qminb (x y : Q) : Q := if Qltb y x then y else x.

Lemma Qmaxb_ub x y : (x <= Qmaxb x y)%Q ∧ (y <= Qmaxb x y)%Q.
Proof. unfold Qmaxb. case_match; q_to_prop; lra. Qed.

Lemma Qminb_lb x y : (Qminb x y <= x)%Q ∧ (Qminb x y <= y)%Q.
Proof. unfold Qminb. case_match; q_to_prop; lra. Qed.

Definition Qz (z : Z) : Q := inject_Z z.

(** Python's [round]: to the nearest integer, ties to the even one. *)
Definition round_half_even (q : Q) : Z :=
  let f := Qfloor q in
  let d := (q - Qz f)%Q in
  if Qltb d (1 # 2) then f
  else if Qltb (1 # 2) d then (f + 1)%Z
  else if Z.even f then f else (f + 1)%Z.

(** [round(q, n)]. *)
Definition py_round (n : nat) (q : Q) : Q :=
  let s := Qz (10 ^ Z.of_nat n) in (Qz (round_half_even (q * s)) / s)%Q.

Lemma round_half_even_nonneg q : (0 <= q)%Q → (0 <= round_half_even q)%Z.
Proof.
  intros Hq. assert (0 <= Qfloor q)%Z as Hf.
  { replace 0%Z with (Qfloor 0) by reflexivity. by apply Qfloor_resp_le. }
  unfold round_half_even. repeat case_match; lia.
Qed.

Lemma round_half_even_near q : (Qz (round_half_even q) - (1 # 2) <= q <= Qz (round_half_even q) + (1 # 2))%Q.
Proof.
  pose proof (Qfloor_le q) as Hlo. pose proof (Qlt_floor q) as Hhi.
  unfold round_half_even, Qz in *. rewrite inject_Z_plus in Hhi.
  change (inject_Z 1) with 1%Q in Hhi.
  repeat case_match; q_to_prop; rewrite ?inject_Z_plus; change (inject_Z 1) with 1%Q; lra.
Qed.

(** ** Lists *)

Fixpoint map_res {E A B} (f : A → res E B) (l : list A) : res E (list B) :=
  match l with
  | [] => Ok []
  | x :: l => try! y := f x in try! ys := map_res f l in Ok (y :: ys)
  end.

Lemma map_res_forall {E A B} (f : A → res E B) l out :
  map_res f l = Ok out → Forall2 (λ x y, f x = Ok y) l out.
Proof.
  revert out. induction l as [|x l IH]; intros out; cbn; [intros [= <-]; constructor|].
  intros (y & Hy & (ys & Hys & [= <-])%res_bind_ok)%res_bind_ok. constructor; [done|by apply IH].
Qed.

(** The first element of [l] on which [f] holds: a Python [for] loop with an early
    [return], or [next(x for x in l if f(x))]. *)
Abbreviation first_such := List.find.

Lemma first_such_some {A} (f : A → bool) l x :
  first_such f l = Some x → x ∈ l ∧ f x = true.
Proof. intros H%List.find_some. by rewrite list_elem_of_In. Qed.

Lemma first_such_none {A} (f : A → bool) l :
  first_such f l = None ↔ ∀ x, x ∈ l → f x = false.
Proof.
  split; [intros H x Hx%list_elem_of_In; by eapply List.find_none|].
  induction l as [|a l IH]; intros H; [done|]. cbn.
  rewrite (H a) by left. apply IH. intros x Hx. apply H. by right.
Qed.

Lemma first_such_is_some {A} (f : A → bool) l x :
  x ∈ l → f x = true → ∃ y, first_such f l = Some y.
Proof.
  intros Hx Hf. destruct (first_such f l) eqn:E; [eauto|].
  rewrite first_such_none in E. rewrite E in Hf by done. done.
Qed.

Lemma elem_of_flat_map {A B} (f : A → list B) l y :
  y ∈ flat_map f l ↔ ∃ x, x ∈ l ∧ y ∈ f x.
Proof.
  rewrite list_elem_of_In, in_flat_map.
  split; intros (x & ? & ?); exists x; by rewrite ?list_elem_of_In in *.
Qed.

Lemma elem_of_bfilter {A} (f : A → bool) l x : x ∈ List.filter f l ↔ x ∈ l ∧ f x = true.
Proof. by rewrite !list_elem_of_In, filter_In. Qed.

Lemma NoDup_bfilter {A} (f : A → bool) (l : list A) : NoDup l → NoDup (List.filter f l).
Proof.
  induction 1 as [|x l Hx Hl IH]; cbn; [constructor|]. destruct (f x); [|done].
  constructor; [|done]. by intros [? _]%elem_of_bfilter.
Qed.

(** A split of a filtered list comes from a split of the list. *)
Lemma filter_split {A} (f : A → bool) l f1 x f2 :
  List.filter f l = f1 ++ x :: f2 →
  ∃ l1 l2, l = l1 ++ x :: l2 ∧ List.filter f l1 = f1.
Proof.
  revert f1. induction l as [|a l IH]; intros f1; cbn; [by destruct f1|].
  destruct (f a) eqn:Ea.
  - destruct f1 as [|b f1]; cbn; intros [= -> H]; [by exists [], l|].
    destruct (IH f1 H) as (l1 & l2 & -> & Hf). exists (b :: l1), l2. split; [done|].
    cbn. by rewrite Ea, Hf.
  - intros H. destruct (IH f1 H) as (l1 & l2 & -> & Hf). exists (a :: l1), l2. split; [done|].
    cbn. by rewrite Ea.
Qed.

(** A boolean comparison that is a strict weak order. *)
Class StrictWeak {A} (better : A → A → bool) : Prop := {
  better_irrefl x : better x x = false;
  better_trans x y z : better x y = true → better y z = true → better x z = true;
  better_split x y z : better x z = true → better x y = true ∨ better y z = true;
}.

Lemma better_asym {A} (better : A → A → bool) `{!StrictWeak better} x y :
  better x y = true → better y x = false.
Proof.
  intros H. destruct (better y x) eqn:E; [|done].
  pose proof (better_trans (better:=better) x y x H E) as C.
  by rewrite better_irrefl in C.
Qed.

(** Python's [min]/[max] with a key: the first element no other element beats.
    [better x best] is "x replaces the best element so far". *)
Fixpoint pick_from {A} (better : A → A → bool) (best : A) (l : list A) : A :=
  match l with
  | [] => best
  | x :: l => pick_from better (if better x best then x else best) l
  end.

Definition pick_first {A} (better : A → A → bool) (l : list A) : option A :=
  match l with [] => None | x :: l => Some (pick_from better x l) end.

Definition min_by {A} (key : A → Q) : list A → option A :=
  pick_first (λ x best, Qltb (key x) (key best)).

Definition max_by {A} (key : A → Q) : list A → option A :=
  pick_first (λ x best, Qltb (key best) (key x)).

#[export] Instance strict_weak_min {A} (key : A → Q) :
  StrictWeak (λ x best, Qltb (key x) (key best)).
Proof.
  split; intros; q_to_prop; [q_solve|q_solve|].
  destruct (Qltb (key x) (key y)) eqn:E; [by left|right; q_solve].
Qed.

#[export] Instance strict_weak_max {A} (key : A → Q) :
  StrictWeak (λ x best, Qltb (key best) (key x)).
Proof.
  split; intros; q_to_prop; [q_solve|q_solve|].
  destruct (Qltb (key y) (key x)) eqn:E; [by left|right; q_solve].
Qed.

Section pick.
Context {A : Type} (better : A → A → bool) `{!StrictWeak better}.

Lemma pick_from_spec best l :
  ∃ l1 l2, best :: l = l1 ++ pick_from better best l :: l2 ∧
    (∀ y, y ∈ best :: l → better y (pick_from better best l) = false) ∧
    (∀ y, y ∈ l1 → better (pick_from better best l) y = true).
Proof.
  revert best. induction l as [|x l IH]; intros best; cbn [pick_from].
  { exists [], []. split; [done|]. split; [|by intros y ?%elem_of_nil].
    intros y ->%list_elem_of_singleton. apply better_irrefl. }
  destruct (better x best) eqn:E.
  - destruct (IH x) as (l1 & l2 & Heq & Hub & Hlt). set (r := pick_from better x l) in *.
    assert (better r best = true) as Hr.
    { destruct (better_split (better:=better) x r best E) as [H|H]; [|done].
      rewrite (Hub x) in H by left. done. }
    exists (best :: l1), l2. split; [cbn; by rewrite <- Heq|]. split.
    + intros y [->|Hy]%elem_of_cons; [by apply better_asym|by apply Hub].
    + intros y [->|Hy]%elem_of_cons; auto.
  - destruct (IH best) as (l1 & l2 & Heq & Hub & Hlt). set (r := pick_from better best l) in *.
    destruct l1 as [|b l1]; injection Heq as Hb Hl.
    + exists [], (x :: l2). rewrite <- Hb, Hl. split; [done|]. split; [|by intros y ?%elem_of_nil].
      intros y [->|[->|Hy]%elem_of_cons]%elem_of_cons; [apply better_irrefl|done|].
      rewrite Hb. apply Hub. rewrite Hl. by right.
    + subst b. exists (best :: x :: l1), l2. split; [cbn; by rewrite Hl|].
      assert (better r best = true) as Hrb by (apply Hlt; left).
      assert (better r x = true) as Hrx.
      { destruct (better_split (better:=better) r x best Hrb) as [?|?]; congruence. }
      split.
      * intros y [->|[->|Hy]%elem_of_cons]%elem_of_cons;
          [by apply better_asym|by apply better_asym|]. apply Hub. by right.
      * intros y [->|[->|Hy]%elem_of_cons]%elem_of_cons; [done|done|].
        apply Hlt. by right.
Qed.

Lemma pick_first_spec l r :
  pick_first better l = Some r →
  ∃ l1 l2, l = l1 ++ r :: l2 ∧
    (∀ y, y ∈ l → better y r = false) ∧ (∀ y, y ∈ l1 → better r y = true).
Proof. destruct l as [|x l]; [done|]. intros [= <-]. apply pick_from_spec. Qed.

Lemma pick_first_elem l r : pick_first better l = Some r → r ∈ l.
Proof.
  intros (l1 & l2 & -> & _)%pick_first_spec. rewrite elem_of_app, elem_of_cons. auto.
Qed.

Lemma pick_first_none l : pick_first better l = None ↔ l = [].
Proof. by destruct l. Qed.
End pick.

Lemma min_by_spec {A} (key : A → Q) l r :
  min_by key l = Some r → r ∈ l ∧ ∀ y, y ∈ l → (key r <= key y)%Q.
Proof.
  intros H. split; [by apply (pick_first_elem _ _ _ H)|].
  destruct (pick_first_spec _ _ _ H) as (l1 & l2 & _ & Hub & _).
  intros y Hy. specialize (Hub y Hy). cbn in Hub. q_solve.
Qed.

Lemma max_by_spec {A} (key : A → Q) l r :
  max_by key l = Some r → r ∈ l ∧ ∀ y, y ∈ l → (key y <= key r)%Q.
Proof.
  intros H. split; [by apply (pick_first_elem _ _ _ H)|].
  destruct (pick_first_spec _ _ _ H) as (l1 & l2 & _ & Hub & _).
  intros y Hy. specialize (Hub y Hy). cbn in Hub. q_solve.
Qed.

(** Python's [sorted(l, key=...)]: stable, ascending for [leb]. *)
Fixpoint insert_by {A} (leb : A → A → bool) (x : A) (l : list A) : list A :=
  match l with
  | [] => [x]
  | y :: l' => if leb x y then x :: y :: l' else y :: insert_by leb x l'
  end.

Definition sort_by {A} (leb : A → A → bool) (l : list A) : list A :=
  foldr (insert_by leb) [] l.

Section sort.
Context {A : Type} (leb : A → A → bool).

Lemma insert_by_perm x l : insert_by leb x l ≡ₚ x :: l.
Proof.
  induction l as [|y l IH]; cbn; [done|]. case_match; [done|].
  rewrite IH. apply Permutation_swap.
Qed.

Lemma sort_by_perm l : sort_by leb l ≡ₚ l.
Proof. induction l as [|x l IH]; cbn; [done|]. by rewrite insert_by_perm, IH. Qed.

Lemma elem_of_sort_by x l : x ∈ sort_by leb l ↔ x ∈ l.
Proof. by rewrite sort_by_perm. Qed.

Lemma length_sort_by l : length (sort_by leb l) = length l.
Proof. by rewrite sort_by_perm. Qed.

Context (leb_total : ∀ x y, leb x y = true ∨ leb y x = true).
Context (leb_trans : ∀ x y z, leb x y = true → leb y z = true → leb x z = true).

Lemma insert_by_sorted x l :
  StronglySorted (λ x y, leb x y = true) l →
  StronglySorted (λ x y, leb x y = true) (insert_by leb x l).
Proof using leb_total leb_trans.
  induction 1 as [|y l Hl IH Hy]; cbn; [by repeat constructor|].
  destruct (leb x y) eqn:E.
  - constructor; [by constructor|]. constructor; [done|].
    eapply Forall_impl; [exact Hy|]. cbn. eauto.
  - constructor; [done|]. destruct (leb_total x y) as [?|Hyx]; [congruence|].
    apply Forall_forall. intros z Hz. rewrite insert_by_perm in Hz.
    apply elem_of_cons in Hz as [->|Hz]; [done|]. rewrite Forall_forall in Hy. auto.
Qed.

Lemma sort_by_sorted l : StronglySorted (λ x y, leb x y = true) (sort_by leb l).
Proof using leb_total leb_trans.
  induction l as [|x l IH]; cbn; [constructor|by apply insert_by_sorted].
Qed.
End sort.

Lemma Qleb_total x y : Qleb x y = true ∨ Qleb y x = true.
Proof. destruct (Qleb x y) eqn:E; [by left|right; q_solve]. Qed.

Lemma Qleb_trans x y z : Qleb x y = true → Qleb y z = true → Qleb x z = true.
Proof. intros; q_solve. Qed.

Lemma omap_short {A B} (f : A → option B) l : length (omap f l) ≤ length l.
Proof. induction l as [|x l IH]; cbn; [lia|]. destruct (f x); cbn; lia. Qed.

(** [l[:n]] and [l[-n:]] for a non-negative [n]. *)
Definition take_last {A} (n : nat) (l : list A) : list A := drop (length l - n) l.

Lemma take_last_sub {A} n (l : list A) x : x ∈ take_last n l → x ∈ l.
Proof. intros H. rewrite <- (take_drop (length l - n) l), elem_of_app. by right. Qed.

Create Rewrite HintDb py_rw.
#[export] Hint Rewrite Qleb_true Qleb_false Qltb_true Qltb_false : py_rw.
#[export] Hint Resolve better_asym list_elem_of_here list_elem_of_further : py.
