(* ===== verification/PyStr.v ===== *)
(** * Python strings

    A Python [str] is modelled by a [string] of (8-bit) characters; [lower], [strip]
    and the character classes are those of the ASCII range.  The file holds the
    operations the router uses: substring test, [startswith], [lower], [strip],
    [split], [join], slices, [str(int)], [repr] and the code-point order. *)

From stdpp Require Import sorting.
From S2P Require Import Prelude.

(** ** Characters *)

Definition code (c : ascii) : nat := nat_of_ascii c.

Definition in_range (lo hi : ascii) (c : ascii) : bool :=
  (code lo <=? code c) && (code c <=? code hi).

Definition is_upper (c : ascii) : bool := in_range "A" "Z" c.
Definition is_lower (c : ascii) : bool := in_range "a" "z" c.
Definition is_digit (c : ascii) : bool := in_range "0" "9" c.

(** [c.lower()] *)
Definition lower_char (c : ascii) : ascii :=
  if is_upper c then ascii_of_nat (code c + 32) else c.

(** [c.isspace()] on ASCII: tab..carriage return, the separators 28..31, and space. *)
Definition is_space (c : ascii) : bool :=
  ((9 <=? code c) && (code c <=? 13)) || ((28 <=? code c) && (code c <=? 32)).

(** ** Strings *)

Fixpoint map_str (f : ascii → ascii) (s : string) : string :=
  match s with EmptyString => EmptyString | String c s => String (f c) (map_str f s) end.

Definition lower (s : string) : string := map_str lower_char s.

(** [s.startswith(p)] *)
Fixpoint startswith (p s : string) : bool :=
  match p, s with
  | EmptyString, _ => true
  | String a p, String b s => (a ≡? b) && startswith p s
  | String _ _, EmptyString => false
  end.

(** [p in s] *)
Fixpoint contains (p s : string) : bool :=
  startswith p s || match s with EmptyString => false | String _ s => contains p s end.

(** [any(p in s for p in ps)] *)
Definition contains_any (ps : list string) (s : string) : bool :=
  existsb (λ p, contains p s) ps.

Fixpoint lstrip (s : string) : string :=
  match s with String c s' => if is_space c then lstrip s' else s | EmptyString => "" end.

Fixpoint rev_str (s acc : string) : string :=
  match s with EmptyString => acc | String c s => rev_str s (String c acc) end.

(** [s.strip()] *)
Definition strip (s : string) : string := rev_str (lstrip (rev_str (lstrip s) "")) "".

(** [s.rstrip(c)] for one character. *)
Fixpoint ldrop (c : ascii) (s : string) : string :=
  match s with String d s' => if d ≡? c then ldrop c s' else s | EmptyString => s end.

Definition rstrip_char (c : ascii) (s : string) : string := rev_str (ldrop c (rev_str s "")) "".

(** [s.strip(chars)] *)
Fixpoint lstrip_of (chars : list ascii) (s : string) : string :=
  match s with String c s' => if c ∈? chars then lstrip_of chars s' else s | EmptyString => "" end.

Definition strip_of (chars : list ascii) (s : string) : string :=
  rev_str (lstrip_of chars (rev_str (lstrip_of chars s) "")) "".

(** [s[:n]] *)
Fixpoint str_take (n : nat) (s : string) : string :=
  match n, s with S n, String c s => String c (str_take n s) | _, _ => "" end.

(** [s[n:]] *)
Fixpoint str_drop (n : nat) (s : string) : string :=
  match n, s with S n, String _ s => str_drop n s | _, _ => s end.

(** [len(s)] *)
Fixpoint str_len (s : string) : nat :=
  match s with EmptyString => 0 | String _ s => S (str_len s) end.

(** [sep.join(l)] *)
Fixpoint join (sep : string) (l : list string) : string :=
  match l with
  | [] => ""
  | [s] => s
  | s :: l => s +:+ sep +:+ join sep l
  end.

(** [s.split(c)] for a one-character separator: never empty. *)
Fixpoint split_on (c : ascii) (s : string) : list string :=
  match s with
  | EmptyString => [""]
  | String a s =>
      if a ≡? c then "" :: split_on c s
      else match split_on c s with
           | w :: ws => String a w :: ws
           | [] => [String a ""]
           end
  end.

(** [s.replace(a, b)] for single characters. *)
Definition replace_char (a b : ascii) (s : string) : string :=
  map_str (λ c, if c ≡? a then b else c) s.

(** Code-point order: Python's [<=] on strings, the order [sorted] uses. *)
Fixpoint str_leb (s t : string) : bool :=
  match s, t with
  | EmptyString, _ => true
  | String _ _, EmptyString => false
  | String a s, String b t =>
      if code a <? code b then true else if code b <? code a then false else str_leb s t
  end.

Definition sorted_strs (l : list string) : list string := sort_by str_leb l.

(** ** Printing *)

Definition digit_char (n : nat) : ascii := ascii_of_nat (48 + n).

Fixpoint nat_digits (fuel n : nat) (acc : string) : string :=
  match fuel with
  | O => acc
  | S fuel =>
      let acc := String (digit_char (n mod 10)) acc in
      if n <? 10 then acc else nat_digits fuel (n / 10) acc
  end.

Definition str_of_nat (n : nat) : string := nat_digits (S n) n "".

(** [str(z)] *)
Definition str_of_Z (z : Z) : string :=
  if (z <? 0)%Z then "-" +:+ str_of_nat (Z.abs_nat z) else str_of_nat (Z.abs_nat z).

Definition hex_char (n : nat) : ascii :=
  if n <? 10 then digit_char n else ascii_of_nat (87 + n).

Definition backslash : ascii := "\"%char.
Definition squote : ascii := "'"%char.
Definition dquote : ascii := ascii_of_nat 34.

(** The escape of one character inside [repr], under the chosen quote. *)
Definition repr_char (q c : ascii) : string :=
  if (c ≡? backslash) || (c ≡? q) then String backslash (String c "")
  else if code c =? 10 then String backslash "n"
  else if code c =? 13 then String backslash "r"
  else if code c =? 9 then String backslash "t"
  else if (code c <? 32) || (127 <=? code c) then
    String backslash (String "x" (String (hex_char (code c / 16))
                                         (String (hex_char (code c mod 16)) "")))
  else String c "".

Fixpoint str_elem (c : ascii) (s : string) : bool :=
  match s with EmptyString => false | String a s => (a ≡? c) || str_elem c s end.

Fixpoint concat_map_str (f : ascii → string) (s : string) : string :=
  match s with EmptyString => "" | String c s => f c +:+ concat_map_str f s end.

(** [repr(s)] of a string: single quotes unless it has one and no double quote. *)
Definition repr (s : string) : string :=
  let q := if str_elem squote s && negb (str_elem dquote s) then dquote else squote in
  String q (concat_map_str (repr_char q) s +:+ String q "").

(** [repr(l)] of a list of strings. *)
Definition repr_list (l : list string) : string := "[" +:+ join ", " (repr <$> l) +:+ "]".

(** ** Facts *)

Lemma startswith_spec p s : startswith p s = true ↔ ∃ t, s = p +:+ t.
Proof.
  revert s. induction p as [|a p IH]; intros s; cbn.
  - split; [by exists s|done].
  - destruct s as [|b s]; [split; [done|by intros [? ?]]|].
    rewrite andb_true_iff, bool_decide_eq_true, IH. split.
    + intros [-> [t ->]]. by exists t.
    + intros [t [= -> ->]]. eauto.
Qed.

(** [p in s] holds exactly when [s] splits around [p]. *)
Lemma contains_spec p s : contains p s = true ↔ ∃ a b, s = a +:+ p +:+ b.
Proof.
  induction s as [|c s IH]; cbn [contains].
  - rewrite orb_true_iff, startswith_spec. split.
    + intros [[t ->]|]; [by exists "", t|done].
    + intros (a & b & H). left. destruct a; [by exists b|done].
  - rewrite orb_true_iff, startswith_spec, IH. split.
    + intros [[t ->]|(a & b & ->)]; [by exists "", t|by exists (String c a), b].
    + intros ([|x a] & b & H); [left; by exists b|].
      injection H as -> ->. right. eauto.
Qed.

Lemma contains_any_spec ps s :
  contains_any ps s = true ↔ ∃ p, p ∈ ps ∧ contains p s = true.
Proof.
  unfold contains_any. rewrite existsb_exists.
  split; intros (p & Hp & ?); exists p; (split; [|done]); by apply list_elem_of_In.
Qed.

Lemma str_app_cons c (s t : string) : String c s +:+ t = String c (s +:+ t).
Proof. done. Qed.

Lemma str_app_assoc (a b c : string) : a +:+ (b +:+ c) = (a +:+ b) +:+ c.
Proof. induction a as [|x a IH]; [done|]. by rewrite !str_app_cons, IH. Qed.

Lemma str_app_nil_l (s : string) : "" +:+ s = s.
Proof. done. Qed.

Lemma str_app_nil_r (s : string) : s +:+ "" = s.
Proof. induction s as [|c s IH]; [done|]. by rewrite str_app_cons, IH. Qed.

(** A longer text contains whatever its part contains. *)
Lemma contains_app_l p a s b : contains p s = true → contains p (a +:+ s +:+ b) = true.
Proof.
  rewrite !contains_spec. intros (x & y & ->). exists (a +:+ x), (y +:+ b).
  by rewrite !str_app_assoc.
Qed.

Lemma lower_char_idem c : lower_char (lower_char c) = lower_char c.
Proof. by destruct c as [[] [] [] [] [] [] [] []]. Qed.

Lemma lower_idem s : lower (lower s) = lower s.
Proof.
  unfold lower. induction s as [|c s IH]; cbn; [done|]. by rewrite IH, lower_char_idem.
Qed.

Lemma lower_app s t : lower (s +:+ t) = lower s +:+ lower t.
Proof.
  unfold lower. induction s as [|c s IH]; [done|].
  rewrite str_app_cons. cbn. by rewrite IH.
Qed.

Lemma str_leb_total s t : str_leb s t = true ∨ str_leb t s = true.
Proof.
  revert t. induction s as [|a s IH]; intros [|b t]; cbn [str_leb]; [auto..|].
  destruct (Nat.ltb_spec (code a) (code b)), (Nat.ltb_spec (code b) (code a));
    try lia; auto; apply IH.
Qed.

Lemma str_leb_trans s t u : str_leb s t = true → str_leb t u = true → str_leb s u = true.
Proof.
  revert t u. induction s as [|a s IH]; intros [|b t] [|c u]; cbn [str_leb]; try done.
  destruct (Nat.ltb_spec (code a) (code b)), (Nat.ltb_spec (code b) (code a)); try done;
  destruct (Nat.ltb_spec (code b) (code c)), (Nat.ltb_spec (code c) (code b)); try done;
  destruct (Nat.ltb_spec (code a) (code c)), (Nat.ltb_spec (code c) (code a));
    try done; try lia. apply IH.
Qed.

Lemma code_inj a b : code a = code b → a = b.
Proof.
  unfold code. intros H. rewrite <- (ascii_nat_embedding a), H. apply ascii_nat_embedding.
Qed.

Lemma str_leb_antisym s t : str_leb s t = true → str_leb t s = true → s = t.
Proof.
  revert t. induction s as [|a s IH]; intros [|b t]; cbn [str_leb]; try done.
  destruct (Nat.ltb_spec (code a) (code b)), (Nat.ltb_spec (code b) (code a)); try done; try lia.
  intros. f_equal; [apply code_inj; lia|auto].
Qed.

Lemma elem_of_sorted_strs x l : x ∈ sorted_strs l ↔ x ∈ l.
Proof. apply elem_of_sort_by. Qed.

(** Sorting a vocabulary forgets the order it was written in. *)
Lemma sorted_strs_perm l1 l2 : l1 ≡ₚ l2 → sorted_strs l1 = sorted_strs l2.
Proof.
  intros Hp. apply (StronglySorted_unique_strong (λ x y, str_leb x y = true)).
  - intros; by apply str_leb_antisym.
  - apply sort_by_sorted; [apply str_leb_total|apply str_leb_trans].
  - apply sort_by_sorted; [apply str_leb_total|apply str_leb_trans].
  - unfold sorted_strs. by rewrite !sort_by_perm.
Qed.

Lemma str_len_take n s : str_len (str_take n s) ≤ n.
Proof. revert s. induction n as [|n IH]; intros [|c s]; cbn; try lia. specialize (IH s). lia. Qed.

(** ** Stripping *)

Fixpoint str_all (f : ascii → bool) (s : string) : bool :=
  match s with EmptyString => true | String c s => f c && str_all f s end.

Lemma str_all_app f s t : str_all f (s +:+ t) = str_all f s && str_all f t.
Proof.
  induction s as [|c s IH]; [done|]. rewrite str_app_cons. cbn. by rewrite IH, andb_assoc.
Qed.

Lemma str_all_rev f s acc : str_all f (rev_str s acc) = str_all f s && str_all f acc.
Proof.
  revert acc. induction s as [|c s IH]; intros acc; [done|]. cbn. rewrite IH. cbn.
  by destruct (f c), (str_all f s).
Qed.

Lemma rev_str_nil s acc : rev_str s acc = "" ↔ s = "" ∧ acc = "".
Proof.
  revert acc. induction s as [|c s IH]; intros acc; cbn; [tauto|]. rewrite IH. naive_solver.
Qed.

Lemma lstrip_nil s : lstrip s = "" ↔ str_all is_space s = true.
Proof. induction s as [|c s IH]; cbn; [done|]. by destruct (is_space c). Qed.

Lemma lstrip_all s : str_all is_space (lstrip s) = true ↔ str_all is_space s = true.
Proof. induction s as [|c s IH]; cbn; [done|]. destruct (is_space c) eqn:E; cbn; [done|]. by rewrite E. Qed.

(** [not s.strip()] tests whether every character is a space. *)
Lemma strip_nil s : strip s = "" ↔ str_all is_space s = true.
Proof.
  unfold strip. rewrite rev_str_nil, lstrip_nil, str_all_rev. cbn.
  rewrite andb_true_r, lstrip_all. tauto.
Qed.

(** A separator that occurs in neither prefix splits a text in one way. *)
Lemma split_unique c (s t x y : string) :
  str_elem c s = false → str_elem c t = false →
  s +:+ String c "" +:+ x = t +:+ String c "" +:+ y → s = t ∧ x = y.
Proof.
  revert t. induction s as [|a s IH]; intros [|b t]; cbn [str_elem];
    rewrite ?orb_false_iff, ?str_app_nil_l, ?str_app_cons, ?str_app_nil_l; intros Hs Ht Heq.
  - by injection Heq as ->.
  - injection Heq as -> _. destruct Ht as [Hb _]. by rewrite bool_decide_eq_true_2 in Hb.
  - injection Heq as -> _. destruct Hs as [Hb _]. by rewrite bool_decide_eq_true_2 in Hb.
  - injection Heq as -> Heq. destruct (IH t) as [-> ->]; [tauto..| |done]. by rewrite ?str_app_cons.
Qed.

(** ** Slices and joins *)

Lemma str_len_app s t : str_len (s +:+ t) = str_len s + str_len t.
Proof. induction s as [|c s IH]; [done|]. rewrite str_app_cons. cbn. by rewrite IH. Qed.

Lemma str_take_drop n s : str_take n s +:+ str_drop n s = s.
Proof. revert s. induction n as [|n IH]; intros [|c s]; cbn; [done..|]. rewrite str_app_cons. by rewrite IH. Qed.

Lemma str_take_app s t : str_take (str_len s) (s +:+ t) = s.
Proof. induction s as [|c s IH]; cbn; [by destruct t|]. rewrite str_app_cons. cbn. by rewrite IH. Qed.

Lemma str_drop_app s t : str_drop (str_len s) (s +:+ t) = t.
Proof. induction s as [|c s IH]; [done|]. rewrite str_app_cons. cbn. exact IH. Qed.

(** The text up to [m], cut at [n] on the way. *)
Lemma str_take_split n m s :
  n ≤ m → str_take n s +:+ str_drop n (str_take m s) = str_take m s.
Proof.
  revert m s. induction n as [|n IH]; intros [|m] [|c s] Hle; cbn; try done; try lia.
  rewrite str_app_cons. f_equal. apply IH. lia.
Qed.

(** [''.join(l)] *)
Lemma concat_cons a l : join "" (a :: l) = a +:+ join "" l.
Proof. destruct l; [by rewrite str_app_nil_r|done]. Qed.

Lemma concat_app l1 l2 : join "" (l1 ++ l2) = join "" l1 +:+ join "" l2.
Proof.
  induction l1 as [|a l1 IH]; [done|]. cbn [app]. by rewrite !concat_cons, IH, str_app_assoc.
Qed.

Lemma concat_singleton a : join "" [a] = a.
Proof. done. Qed.

(** Whatever a prefix contains, the text contains. *)
Lemma contains_prefix p a b : contains p a = true → contains p (a +:+ b) = true.
Proof. exact (contains_app_l p "" a b). Qed.
