(* ===== verification/PyDict.v ===== *)
(** * Python dictionaries

    A [dict] (or [OrderedDict]) is modelled by its list of items in insertion order,
    because the router evicts by that order ([next(iter(d))], [popitem(last=False)]).
    Re-assigning a present key keeps its place; [move_to_end] and [pop] change it. *)

From S2P Require Import Prelude.

Section dict.
Context {K V : Type} `{EqDecision K}.
Implicit Types (d : list (K * V)) (k : K) (v : V).

Definition dkeys d : list K := d.*1.

(** [d.get(k)] *)
Fixpoint dget d k : option V :=
  match d with
  | [] => None
  | (k', v) :: d => if decide (k = k') then Some v else dget d k
  end.

(** [k in d] *)
Definition dmem d k : bool := match dget d k with Some _ => true | None => false end.

(** [d[k] = v] *)
Fixpoint dset d k v : list (K * V) :=
  match d with
  | [] => [(k, v)]
  | (k', v') :: d => if decide (k = k') then (k, v) :: d else (k', v') :: dset d k v
  end.

(** [d.pop(k, None)] *)
Definition dpop d k : list (K * V) := filter (λ kv, kv.1 ≠ k) d.

(** [d.pop(next(iter(d)))] and [d.popitem(last=False)] on a non-empty [d]. *)
Definition dpop_first d : list (K * V) := tail d.

(** [d.setdefault(k, v)] *)
Definition dsetdefault d k v : list (K * V) := if dmem d k then d else dset d k v.

(** [d.move_to_end(k)] on a present key. *)
Definition dmove_to_end d k : list (K * V) :=
  match dget d k with Some v => dpop d k ++ [(k, v)] | None => d end.

(** ** Laws *)

Lemma dget_dset_eq d k v : dget (dset d k v) k = Some v.
Proof.
  induction d as [|[k' v'] d IH]; cbn; [by rewrite decide_True|].
  case_decide as H; cbn; [by rewrite decide_True|]. by rewrite decide_False.
Qed.

Lemma dget_dset_ne d k k' v : k' ≠ k → dget (dset d k v) k' = dget d k'.
Proof.
  intros Hne. induction d as [|[k2 v2] d IH]; cbn; [by rewrite decide_False|].
  destruct (decide (k = k2)) as [<-|]; cbn; [by rewrite !decide_False|].
  by case_decide.
Qed.

Lemma dget_dpop_eq d k : dget (dpop d k) k = None.
Proof.
  unfold dpop. induction d as [|[k' v'] d IH]; [done|].
  rewrite filter_cons. case_decide as H; cbn in *; [|done]. by rewrite decide_False by congruence.
Qed.

Lemma dget_dpop_ne d k k' : k' ≠ k → dget (dpop d k) k' = dget d k'.
Proof.
  intros Hne. unfold dpop. induction d as [|[k2 v2] d IH]; [done|].
  rewrite filter_cons. case_decide as H; cbn in *; [by rewrite IH|].
  destruct (decide (k2 = k)) as [->|]; [by rewrite decide_False|tauto].
Qed.

Lemma dget_app d1 d2 k :
  dget (d1 ++ d2) k = match dget d1 k with Some v => Some v | None => dget d2 k end.
Proof. induction d1 as [|[k' v'] d1 IH]; cbn; [done|]. by case_decide. Qed.

Lemma dget_dmove_to_end d k k' : dget (dmove_to_end d k) k' = dget d k'.
Proof.
  unfold dmove_to_end. destruct (dget d k) as [v|] eqn:E; [|done].
  rewrite dget_app. cbn. destruct (decide (k' = k)) as [->|Hne].
  - by rewrite dget_dpop_eq.
  - rewrite dget_dpop_ne by done. by destruct (dget d k').
Qed.

Lemma dget_elem d k v : dget d k = Some v → (k, v) ∈ d.
Proof.
  induction d as [|[k' v'] d IH]; cbn; [done|].
  case_decide as H; [intros [= ->]; subst; left|right; auto].
Qed.

Lemma dget_none d k : dget d k = None ↔ k ∉ dkeys d.
Proof.
  unfold dkeys. induction d as [|[k' v'] d IH]; cbn.
  { split; [intros _ ?%elem_of_nil|]; done. }
  rewrite not_elem_of_cons. case_decide as H; [naive_solver|]. rewrite IH. naive_solver.
Qed.

Lemma dmem_spec d k : dmem d k = true ↔ k ∈ dkeys d.
Proof.
  unfold dmem. destruct (dget d k) as [v|] eqn:E.
  - split; [intros _|done]. apply dget_elem in E. unfold dkeys. by apply (list_elem_of_fmap_2 fst) in E.
  - split; [done|]. by intros ?%dget_none.
Qed.

Lemma dkeys_dset d k v : dkeys (dset d k v) = if dmem d k then dkeys d else dkeys d ++ [k].
Proof.
  unfold dmem, dkeys. induction d as [|[k' v'] d IH]; cbn; [done|].
  case_decide as H; cbn; [by subst|]. rewrite IH. by destruct (dget d k).
Qed.

Lemma elem_of_dset d k v k' v' : (k', v') ∈ dset d k v → (k' = k ∧ v' = v) ∨ (k', v') ∈ d.
Proof.
  induction d as [|[k0 v0] d IH]; cbn.
  - intros [= -> ->]%list_elem_of_singleton. by left.
  - destruct (decide (k = k0)); rewrite !elem_of_cons; [intros [ [= -> ->]|?]|intros [?|[?|?]%IH]]; auto.
Qed.

Lemma NoDup_dset d k v : NoDup (dkeys d) → NoDup (dkeys (dset d k v)).
Proof.
  intros Hnd. rewrite dkeys_dset. destruct (dmem d k) eqn:E; [done|].
  apply NoDup_app. split; [done|]. split; [|apply NoDup_singleton].
  intros x Hx ->%list_elem_of_singleton. apply dmem_spec in Hx. congruence.
Qed.

Lemma dset_fresh d k v : dget d k = None → dset d k v = d ++ [(k, v)].
Proof.
  induction d as [|[k' v'] d IH]; cbn; [done|]. case_decide; [done|]. intros H2. by rewrite IH.
Qed.

Lemma dget_split l1 l2 k v : NoDup (dkeys (l1 ++ (k, v) :: l2)) → dget (l1 ++ (k, v) :: l2) k = Some v.
Proof.
  intros Hnd. rewrite dget_app. cbn. rewrite decide_True by done.
  destruct (dget l1 k) as [v'|] eqn:E; [|done]. exfalso.
  unfold dkeys in Hnd. rewrite fmap_app in Hnd. apply NoDup_app in Hnd as (_ & Hd & _).
  apply (Hd k); [|left]. apply dget_elem in E. by apply (list_elem_of_fmap_2 fst) in E.
Qed.

Lemma elem_dget d k v : NoDup (dkeys d) → (k, v) ∈ d → dget d k = Some v.
Proof. intros Hnd (l1 & l2 & ->)%list_elem_of_split. by apply dget_split. Qed.

Lemma dkeys_dpop d k : dkeys (dpop d k) = filter (λ k', k' ≠ k) (dkeys d).
Proof.
  unfold dkeys, dpop. induction d as [|[k' v'] d IH]; [done|].
  cbn [fmap list_fmap]. rewrite !filter_cons. cbn. case_decide; cbn; by rewrite IH.
Qed.

Lemma NoDup_dpop d k : NoDup (dkeys d) → NoDup (dkeys (dpop d k)).
Proof. rewrite dkeys_dpop. apply NoDup_filter. Qed.

Lemma NoDup_dpop_first d : NoDup (dkeys d) → NoDup (dkeys (dpop_first d)).
Proof. destruct d; [done|]. cbn. by intros [_ ?]%NoDup_cons. Qed.

Lemma length_dpop d k : length (dpop d k) ≤ length d.
Proof. apply length_filter. Qed.

Lemma length_dset d k v :
  length (dset d k v) = if dmem d k then length d else S (length d).
Proof.
  rewrite <- !(length_fmap fst). fold (dkeys (dset d k v)). rewrite dkeys_dset.
  destruct (dmem d k); unfold dkeys; [done|]. rewrite length_app. cbn. lia.
Qed.

(** Evicting the oldest item never makes a lookup succeed with another value. *)
Lemma dget_dpop_first d k v :
  NoDup (dkeys d) → dget (dpop_first d) k = Some v → dget d k = Some v.
Proof.
  destruct d as [|[k' v'] d]; [done|]. cbn. intros [Hni _]%NoDup_cons Hg.
  rewrite decide_False; [done|]. intros ->. apply Hni.
  apply dmem_spec. unfold dmem. by rewrite Hg.
Qed.

Lemma length_dpop_lt d k v : dget d k = Some v → length (dpop d k) < length d.
Proof.
  unfold dpop. induction d as [|[k' v'] d IH]; [done|]. cbn [dget]. rewrite filter_cons.
  case_decide as H; cbn.
  - intros _. subst. rewrite decide_False by tauto. pose proof (length_filter (λ kv, kv.1 ≠ k') d). lia.
  - intros Hd%IH. rewrite decide_True by congruence. cbn. lia.
Qed.

Lemma length_dmove_to_end d k : length (dmove_to_end d k) ≤ length d.
Proof.
  unfold dmove_to_end. destruct (dget d k) as [v|] eqn:E; [|done].
  rewrite length_app. pose proof (length_dpop_lt _ _ _ E). cbn. lia.
Qed.

Lemma NoDup_dmove_to_end d k : NoDup (dkeys d) → NoDup (dkeys (dmove_to_end d k)).
Proof.
  intros Hnd. unfold dmove_to_end. destruct (dget d k) as [v|]; [|done].
  unfold dkeys. rewrite fmap_app. cbn. apply NoDup_app. split; [by apply NoDup_dpop|].
  split; [|apply NoDup_singleton]. intros x Hx ->%list_elem_of_singleton.
  pose proof (dget_dpop_eq d k) as Hn%dget_none. by apply Hn.
Qed.

(** A bounded dict stays within its bound when a full one evicts before inserting. *)
Lemma length_evict_dset max d k v :
  0 < max → length d ≤ max →
  length (dset (if max <=? length d then dpop_first d else d) k v) ≤ max.
Proof.
  intros Hmax Hlen. rewrite length_dset.
  destruct (Nat.leb_spec max (length d)).
  - destruct d; cbn in *; [lia|]. destruct (dmem _ _); lia.
  - destruct (dmem _ _); lia.
Qed.
End dict.

#[export] Hint Resolve NoDup_dset NoDup_dpop NoDup_dpop_first NoDup_dmove_to_end : py.
#[export] Hint Rewrite @dget_dset_eq @dget_dpop_eq @dget_dmove_to_end : py_rw.

(** [d.update(l)] *)
Definition dupdate {K V} `{EqDecision K} (d l : list (K * V)) : list (K * V) :=
  fold_left (λ d kv, dset d kv.1 kv.2) l d.

Lemma dget_dupdate {K V} `{EqDecision K} (d l : list (K * V)) k :
  NoDup (dkeys l) → dget (dupdate d l) k = match dget l k with Some v => Some v | None => dget d k end.
Proof.
  unfold dupdate. revert d. induction l as [|[k' v'] l IH]; intros d Hnd; [done|].
  apply NoDup_cons in Hnd as [Hk Hnd]. cbn [fold_left]. rewrite IH by done. cbn [dget fst snd]. case_decide as Ek.
  - cbn in Ek, Hk. subst. apply dget_none in Hk. by rewrite Hk, dget_dset_eq.
  - by rewrite dget_dset_ne.
Qed.

Lemma NoDup_dupdate {K V} `{EqDecision K} (d l : list (K * V)) : NoDup (dkeys d) → NoDup (dkeys (dupdate d l)).
Proof. unfold dupdate. revert d. induction l as [|kv l IH]; intros d Hd; [done|]. apply IH. by apply NoDup_dset. Qed.

(** A filter keeps the keys of a dict apart. *)
Lemma dkeys_bfilter {K V} (f : K * V → bool) (t : list (K * V)) : NoDup (dkeys t) → NoDup (dkeys (List.filter f t)).
Proof.
  unfold dkeys. induction t as [|kv t IH]; [done|]. intros Hnd. inversion Hnd as [|? ? Hk Hnd']; subst.
  cbn [List.filter]. destruct (f kv); [|auto]. constructor; [|auto].
  intros (x & Hx & [? _]%elem_of_bfilter)%list_elem_of_fmap. apply Hk.
  apply list_elem_of_fmap. eauto.
Qed.

(** A filter does not see a write to rows that it drops. *)
Section filter_other.
Context {K V : Type} `{EqDecision K} (f : K * V → bool).

Lemma bfilter_dset_other (d : list (K * V)) k v :
  f (k, v) = false → (∀ w, dget d k = Some w → f (k, w) = false) → List.filter f (dset d k v) = List.filter f d.
Proof.
  intros Hv. induction d as [|[k' w] d IH]; cbn; intros Hw; [by rewrite Hv|].
  case_decide as E; cbn; [subst k'; by rewrite Hv, (Hw w eq_refl)|]. by rewrite IH.
Qed.

Lemma bfilter_dpop_other (d : list (K * V)) k : (∀ w, (k, w) ∈ d → f (k, w) = false) → List.filter f (dpop d k) = List.filter f d.
Proof.
  unfold dpop. induction d as [|[k' w] d IH]; intros Hw; [done|]. rewrite filter_cons. cbn in *. case_decide as E; cbn.
  - rewrite IH; [done|]. intros w' Hin. apply Hw. by right.
  - destruct (decide (k' = k)) as [->|]; [|tauto]. rewrite (Hw w) by left. apply IH. intros w' Hin. apply Hw. by right.
Qed.
End filter_other.
