(* ===== verification/PyGroup.v ===== *)
(** * Grouping into a dict

    [defaultdict] idioms: every element of a list updates the entry of its key, and the
    dict keeps its keys in the order of their first element.  [accumulate] is the loop;
    what a key ends up with depends only on the elements that carry the key. *)

From S2P Require Import Prelude PyDict.

Section accumulate.
Context {K V X : Type} `{!EqDecision K} (key : X → K) (dflt : V) (f : V → X → V).

(** [d[key(x)] = f(d[key(x)], x)] on a [defaultdict] *)
Definition touch (d : list (K * V)) (x : X) : list (K * V) :=
  dset d (key x) (f (match dget d (key x) with Some v => v | None => dflt end) x).

Definition accumulate (l : list X) : list (K * V) := fold_left touch l [].

(** The elements that carry a key, in order. *)
Definition having (k : K) (l : list X) : list X := List.filter (λ x, key x ≡? k) l.

Lemma having_app k l1 l2 : having k (l1 ++ l2) = having k l1 ++ having k l2.
Proof. apply List.filter_app. Qed.

Lemma elem_of_having k l x : x ∈ having k l ↔ x ∈ l ∧ key x = k.
Proof. unfold having. rewrite elem_of_bfilter, bool_decide_eq_true. done. Qed.

Lemma accumulate_snoc l x : accumulate (l ++ [x]) = touch (accumulate l) x.
Proof. unfold accumulate. by rewrite fold_left_app. Qed.

Lemma dget_accumulate l k :
  dget (accumulate l) k =
  match having k l with [] => None | xs => Some (fold_left f xs dflt) end.
Proof.
  induction l as [|x l IH] using rev_ind; [done|].
  rewrite accumulate_snoc, having_app. unfold touch. cbn [having List.filter].
  case_bool_decide as E.
  - subst k. rewrite dget_dset_eq, IH. unfold having.
    destruct (List.filter _ l) as [|y ys]; cbn; [done|]. by rewrite fold_left_app.
  - rewrite dget_dset_ne by done. rewrite IH, app_nil_r. done.
Qed.

Lemma elem_of_accumulate_keys l k : k ∈ dkeys (accumulate l) ↔ ∃ x, x ∈ l ∧ key x = k.
Proof.
  rewrite <- dmem_spec. unfold dmem. rewrite dget_accumulate.
  destruct (having k l) as [|y ys] eqn:E; split; try done.
  - intros (x & Hx & Hk). assert (x ∈ having k l) as H by by apply elem_of_having.
    rewrite E in H. by apply elem_of_nil in H.
  - intros _. exists y. apply elem_of_having. rewrite E. left.
Qed.

Lemma NoDup_accumulate l : NoDup (dkeys (accumulate l)).
Proof.
  induction l as [|x l IH] using rev_ind; [constructor|].
  rewrite accumulate_snoc. by apply NoDup_dset.
Qed.

(** An entry is what its elements make of the default, and some element made it. *)
Lemma elem_of_accumulate l k v :
  (k, v) ∈ accumulate l ↔ having k l ≠ [] ∧ v = fold_left f (having k l) dflt.
Proof.
  split.
  - intros H%elem_dget; [|apply NoDup_accumulate]. rewrite dget_accumulate in H.
    destruct (having k l); [done|]. by simplify_eq.
  - intros [Hne ->]. apply dget_elem. rewrite dget_accumulate. by destruct (having k l).
Qed.
End accumulate.

(** [defaultdict(list)]: the values of a key's elements, in order. *)
Definition grouped {K V X} `{!EqDecision K} (key : X → K) (val : X → V) : list X → list (K * list V) :=
  accumulate key [] (λ vs x, vs ++ [val x]).

Lemma fold_left_snoc {V X} (val : X → V) l acc :
  fold_left (λ vs x, vs ++ [val x]) l acc = acc ++ (val <$> l).
Proof.
  revert acc. induction l as [|x l IH]; intros acc; cbn [fold_left]; [by rewrite app_nil_r|].
  rewrite IH. by rewrite <- app_assoc.
Qed.

Section grouped.
Context {K V X : Type} `{!EqDecision K} (key : X → K) (val : X → V).

Lemma dget_grouped l k :
  dget (grouped key val l) k =
  match having key k l with [] => None | xs => Some (val <$> xs) end.
Proof. unfold grouped. rewrite dget_accumulate. destruct (having key k l); [done|]. by rewrite fold_left_snoc. Qed.

Lemma elem_of_grouped l k vs :
  (k, vs) ∈ grouped key val l ↔ having key k l ≠ [] ∧ vs = val <$> having key k l.
Proof. unfold grouped. rewrite elem_of_accumulate, fold_left_snoc. done. Qed.

Lemma elem_of_grouped_keys l k : k ∈ dkeys (grouped key val l) ↔ ∃ x, x ∈ l ∧ key x = k.
Proof. apply elem_of_accumulate_keys. Qed.

Lemma NoDup_grouped l : NoDup (dkeys (grouped key val l)).
Proof. apply NoDup_accumulate. Qed.

(** What a lookup of the group of a key may be read as, absent keys included. *)
Lemma grouped_values l k :
  match dget (grouped key val l) k with Some vs => vs | None => [] end = val <$> having key k l.
Proof. rewrite dget_grouped. by destruct (having key k l). Qed.
End grouped.

#[export] Hint Resolve NoDup_accumulate NoDup_grouped : py.
