(* ===== verification/Regex.v ===== *)
(** * The regular expressions of the guard, the extractor and the trajectory scorer

    A backtracking matcher for the part of Python's [re] the router uses: character
    classes, sequence, ordered alternation, greedy repetition and word boundaries.
    [ends r p] lists, in backtracking order, the positions at which a match of [r]
    started at [p] may end, so its head is the match Python reports.  The matcher is
    proved equivalent to the declarative relation [Match]. *)

From S2P Require Import Prelude PyStr.

(** A position: the character before it and the text after it. *)
Definition pos : Type := option ascii * string.

Inductive re : Type :=
  | REps
  | RChr (f : ascii → bool)
  | RSeq (a b : re)
  | RAlt (a b : re)
  | RStar (a : re)
  | RLook (f : pos → bool).

(** [\w] and [\b] on ASCII. *)
Definition is_word (c : ascii) : bool :=
  is_upper c || is_lower c || is_digit c || (code c =? 95).

Definition boundary (p : pos) : bool :=
  let before := match p.1 with Some c => is_word c | None => false end in
  let after := match p.2 with String c _ => is_word c | EmptyString => false end in
  xorb before after.

(** [^] and [$]: the start of the text; its end, or just before a final newline. *)
Definition at_start (p : pos) : bool := match p.1 with None => true | Some _ => false end.

Definition at_end (p : pos) : bool :=
  match p.2 with
  | EmptyString => true
  | String c EmptyString => code c =? 10
  | String _ _ => false
  end.

Definition shorter (q p : pos) : bool := str_len q.2 <? str_len p.2.

(** One greedy repetition with [n] units of fuel; an iteration must consume. *)
Fixpoint star_ends (step : pos → list pos) (n : nat) (p : pos) : list pos :=
  match n with
  | O => [p]
  | S n => flat_map (star_ends step n) (List.filter (λ q, shorter q p) (step p)) ++ [p]
  end.

Fixpoint ends (r : re) (p : pos) : list pos :=
  match r with
  | REps => [p]
  | RChr f =>
      match p.2 with
      | String c s => if f c then [(Some c, s)] else []
      | EmptyString => []
      end
  | RSeq a b => flat_map (ends b) (ends a p)
  | RAlt a b => ends a p ++ ends b p
  | RStar a => star_ends (ends a) (str_len p.2) p
  | RLook f => if f p then [p] else []
  end.

(** Every position of a text, from the left. *)
Fixpoint starts (prev : option ascii) (s : string) : list pos :=
  (prev, s) :: match s with String c s' => starts (Some c) s' | EmptyString => [] end.

(** [pat.match(s, p) is not None] *)
Definition hits_at (r : re) (p : pos) : bool := match ends r p with [] => false | _ => true end.

(** [pat.search(s) is not None] *)
Definition search (r : re) (s : string) : bool := existsb (hits_at r) (starts None s).

(** [pat.findall(s)] for a pattern whose whole match is reported; every pattern of the
    router consumes, so an empty match never arises. *)
Fixpoint findall_from (fuel : nat) (r : re) (p : pos) : list string :=
  match fuel with
  | O => []
  | S n =>
      match ends r p, p.2 with
      | q :: _, EmptyString => []
      | q :: _, String c s =>
          if shorter q p then str_take (str_len p.2 - str_len q.2) p.2 :: findall_from n r q
          else findall_from n r (Some c, s)
      | [], String c s => findall_from n r (Some c, s)
      | [], EmptyString => []
      end
  end.

Definition findall (r : re) (s : string) : list string :=
  findall_from (S (str_len s)) r (None, s).

(** [pat.sub(repl, s)], under the same reading of empty matches. *)
Fixpoint sub_from (fuel : nat) (r : re) (repl : string) (p : pos) : string :=
  match fuel with
  | O => p.2
  | S n =>
      match p.2 with
      | EmptyString => ""
      | String c s =>
          match ends r p with
          | q :: _ => if shorter q p then repl +:+ sub_from n r repl q
                      else String c (sub_from n r repl (Some c, s))
          | [] => String c (sub_from n r repl (Some c, s))
          end
      end
  end.

Definition sub (r : re) (repl s : string) : string := sub_from (S (str_len s)) r repl (None, s).

(** The text between two positions of one text. *)
Definition between (p q : pos) : string := str_take (str_len p.2 - str_len q.2) p.2.

(** [re.search(pre (g) post, s).group(1)]: the candidates of one start, in backtracking
    order, and the first start that has one. *)
Definition group_ends (pre g post : re) (p : pos) : list string :=
  flat_map (λ q, between q <$> List.filter (hits_at post) (ends g q)) (ends pre p).

Definition group1 (pre g post : re) (s : string) : option string :=
  head (flat_map (group_ends pre g post) (starts None s)).

(** ** Building blocks *)

(** [\b], [^] and [$] as patterns. *)
Abbreviation RBound := (RLook boundary).
Abbreviation RStart := (RLook at_start).
Abbreviation REnd := (RLook at_end).

Definition one_of (l : list ascii) : re := RChr (λ c, c ∈? l).
Definition ropt (a : re) : re := RAlt a REps.
Definition rplus (a : re) : re := RSeq a (RStar a).
Fixpoint rep (n : nat) (a : re) : re := match n with O => REps | S n => RSeq a (rep n a) end.

(** [a{0,n}], greedy. *)
Fixpoint rep_upto (n : nat) (a : re) : re :=
  match n with O => REps | S n => ropt (RSeq a (rep_upto n a)) end.

(** [a{m,n}] and [a{m,}] *)
Definition rep_range (m n : nat) (a : re) : re := RSeq (rep m a) (rep_upto (n - m) a).
Definition rep_min (m : nat) (a : re) : re := RSeq (rep m a) (RStar a).

(** A literal text, exactly or up to case ([re.IGNORECASE]). *)
Fixpoint lit (s : string) : re :=
  match s with EmptyString => REps | String a s => RSeq (RChr (λ c, c ≡? a)) (lit s) end.

Fixpoint lit_i (s : string) : re :=
  match s with
  | EmptyString => REps
  | String a s => RSeq (RChr (λ c, lower_char c ≡? lower_char a)) (lit_i s)
  end.

Fixpoint alts (l : list re) : re :=
  match l with [] => RChr (λ _, false) | [r] => r | r :: l => RAlt r (alts l) end.

Definition rdigit : re := RChr is_digit.
Definition rspace : re := RChr is_space.
Definition seqs (l : list re) : re := foldr RSeq REps l.

(** ** The declarative relation *)

Inductive Match : re → pos → pos → Prop :=
  | MEps p : Match REps p p
  | MChr f prev c s : f c = true → Match (RChr f) (prev, String c s) (Some c, s)
  | MSeq a b p q r : Match a p q → Match b q r → Match (RSeq a b) p r
  | MAltL a b p q : Match a p q → Match (RAlt a b) p q
  | MAltR a b p q : Match b p q → Match (RAlt a b) p q
  | MStarEnd a p : Match (RStar a) p p
  | MStarStep a p q r : Match a p q → Match (RStar a) q r → Match (RStar a) p r
  | MLook f p : f p = true → Match (RLook f) p p.

#[export] Hint Constructors Match : py.

(** A match either stays in place or consumes text. *)
Lemma Match_advance r p q : Match r p q → q = p ∨ str_len q.2 < str_len p.2.
Proof.
  induction 1 as [|f prev c s _|a b p q r _ IH1 _ IH2| | | |a p q r _ IH1 _ IH2|];
    cbn; auto with lia.
  - destruct IH1 as [->|], IH2 as [->|]; auto with lia.
  - destruct IH1 as [->|], IH2 as [->|]; auto with lia.
Qed.

Lemma star_ends_mono step n m p q : n ≤ m → q ∈ star_ends step n p → q ∈ star_ends step m p.
Proof.
  revert m p. induction n as [|n IH]; intros [|m] p Hle; cbn; try done; try lia.
  - intros ->%list_elem_of_singleton. rewrite elem_of_app. right. by apply list_elem_of_singleton.
  - rewrite !elem_of_app, !elem_of_flat_map. intros [ (x & Hx & Hq) | ?]; [left|by right].
    exists x. split; [done|]. apply IH; [lia|done].
Qed.

Lemma star_ends_sound a n p q :
  (∀ p q, q ∈ ends a p → Match a p q) → q ∈ star_ends (ends a) n p → Match (RStar a) p q.
Proof.
  intros Ha. revert p. induction n as [|n IH]; intros p; cbn.
  - intros ->%list_elem_of_singleton. constructor.
  - rewrite elem_of_app, elem_of_flat_map.
    intros [ (x & Hx & Hq) | ->%list_elem_of_singleton ]; [|constructor].
    apply elem_of_bfilter in Hx as [Hx _]. econstructor; eauto.
Qed.

Lemma star_ends_complete a p q :
  (∀ p q, Match a p q → q ∈ ends a p) →
  Match (RStar a) p q → q ∈ star_ends (ends a) (str_len p.2) p.
Proof.
  intros Ha. remember (RStar a) as r eqn:Er. induction 1 as [| | | | |b p|b p q r Hm _ _ IH|];
    simplify_eq.
  - destruct (str_len p.2); cbn; [|rewrite elem_of_app; right]; by apply list_elem_of_singleton.
  - specialize (IH eq_refl). destruct (Match_advance _ _ _ Hm) as [->|Hlt]; [done|].
    destruct (str_len p.2) as [|n] eqn:Ep; [lia|]. cbn.
    rewrite elem_of_app, elem_of_flat_map. left. exists q. split.
    + apply elem_of_bfilter. split; [by apply Ha|]. unfold shorter. apply Nat.ltb_lt. lia.
    + eapply star_ends_mono; [|exact IH]. lia.
Qed.

(** The matcher computes exactly the declarative relation. *)
Lemma ends_spec r p q : q ∈ ends r p ↔ Match r p q.
Proof.
  split.
  - revert p q. induction r as [|f|a IHa b IHb|a IHa b IHb|a IHa|f]; intros p q; cbn [ends].
    + intros ->%list_elem_of_singleton. constructor.
    + destruct p as [prev [|c s]]; cbn; [by intros ?%elem_of_nil|].
      destruct (f c) eqn:E; [|by intros ?%elem_of_nil].
      intros ->%list_elem_of_singleton. by constructor.
    + intros (x & ? & ?)%elem_of_flat_map. eauto with py.
    + rewrite elem_of_app. intros [?|?]; eauto with py.
    + by apply star_ends_sound.
    + destruct (f p) eqn:E; [|by intros ?%elem_of_nil].
      intros ->%list_elem_of_singleton. by constructor.
  - revert p q. induction r as [|f|a IHa b IHb|a IHa b IHb|a IHa|f]; intros p q H; cbn [ends].
    + inversion H; subst. by apply list_elem_of_singleton.
    + inversion H as [|? ? ? ? Hf| | | | | |]; subst. cbn. rewrite Hf.
      by apply list_elem_of_singleton.
    + inversion H; subst. apply elem_of_flat_map. eauto.
    + rewrite elem_of_app. inversion H; subst; auto.
    + by apply star_ends_complete.
    + inversion H as [| | | | | | |? ? Hb]; subst. rewrite Hb. by apply list_elem_of_singleton.
Qed.

(** [search] succeeds exactly when some position of the text starts a match. *)
Lemma search_spec r s :
  search r s = true ↔ ∃ p q, p ∈ starts None s ∧ Match r p q.
Proof.
  unfold search, hits_at. rewrite existsb_exists. split.
  - intros (p & Hp & H). destruct (ends r p) as [|q l] eqn:E; [done|].
    exists p, q. rewrite list_elem_of_In. split; [done|]. apply ends_spec. rewrite E. left.
  - intros (p & q & Hp & H%ends_spec). exists p. rewrite <- list_elem_of_In. split; [done|].
    destruct (ends r p); [by apply elem_of_nil in H|done].
Qed.

(** ** Where a match starts *)

(** [pat.search(s).start()], counted from [i]. *)
Fixpoint start_from (r : re) (i : nat) (prev : option ascii) (s : string) : option nat :=
  match ends r (prev, s) with
  | _ :: _ => Some i
  | [] => match s with String c s => start_from r (S i) (Some c) s | EmptyString => None end
  end.

Definition search_start (r : re) (s : string) : option nat := start_from r 0 None s.

(** A pattern without zero-width tests reads only the text it consumes. *)
Fixpoint plain (r : re) : bool :=
  match r with
  | RLook _ => false
  | RSeq a b | RAlt a b => plain a && plain b
  | RStar a => plain a
  | REps | RChr _ => true
  end.

Lemma Match_extend r p q w :
  plain r = true → Match r p q → Match r (p.1, p.2 +:+ w) (q.1, q.2 +:+ w).
Proof.
  intros Hp H. induction H; cbn in *; bool_to_prop; eauto with py; done.
Qed.

Lemma existsb_starts_app r prev a b :
  plain r = true →
  existsb (hits_at r) (starts prev a) = true →
  existsb (hits_at r) (starts prev (a +:+ b)) = true.
Proof.
  intros Hp. revert prev.
  assert (∀ prev a, hits_at r (prev, a) = true → hits_at r (prev, a +:+ b) = true) as Hext.
  { unfold hits_at. intros prev a' H. destruct (ends r (prev, a')) as [|q l] eqn:E; [done|].
    assert (Match r (prev, a') q) as Hm by (apply ends_spec; rewrite E; left).
    apply (Match_extend _ _ _ b Hp), ends_spec in Hm. cbn in Hm.
    destruct (ends r (prev, a' +:+ b)); [by apply elem_of_nil in Hm|done]. }
  induction a as [|c a IH]; intros prev; cbn [starts existsb].
  - rewrite orb_false_r. intros H. apply (Hext prev "") in H. rewrite str_app_nil_l in H |- *.
    destruct b; cbn [starts existsb]; by rewrite H.
  - rewrite str_app_cons. cbn [starts existsb]. rewrite !orb_true_iff.
    intros [H|H]; [left; by apply (Hext prev (String c a))|right; by apply IH].
Qed.

(** A match in a prefix is a match in the text. *)
Lemma search_prefix r a b : plain r = true → search r a = true → search r (a +:+ b) = true.
Proof. apply existsb_starts_app. Qed.

(** Cut at the start of its first match, the text has no match. *)
Lemma start_from_cut r i prev s n :
  plain r = true → (∀ prev, ends r (prev, "") = []) → start_from r i prev s = Some n →
  i ≤ n ∧ existsb (hits_at r) (starts prev (str_take (n - i) s)) = false.
Proof.
  intros Hp Hne. revert i prev. induction s as [|c s IH]; intros i prev; cbn [start_from].
  - rewrite Hne. done.
  - destruct (ends r (prev, String c s)) as [|q l] eqn:E.
    + intros (Hle & Hex)%IH. split; [lia|]. replace (n - i) with (S (n - S i)) by lia.
      cbn [str_take starts existsb]. rewrite Hex, orb_false_r. unfold hits_at.
      destruct (ends r (prev, String c (str_take (n - S i) s))) as [|q l] eqn:F; [done|].
      exfalso. assert (Match r (prev, String c (str_take (n - S i) s)) q) as Hm.
      { apply ends_spec. rewrite F. left. }
      apply (Match_extend _ _ _ (str_drop (n - S i) s) Hp), ends_spec in Hm. cbn in Hm.
      rewrite str_app_cons, str_take_drop, E in Hm. by apply elem_of_nil in Hm.
    + intros [= ->]. split; [lia|]. rewrite Nat.sub_diag. cbn. unfold hits_at. by rewrite Hne.
Qed.

Lemma search_start_cut r s n :
  plain r = true → (∀ prev, ends r (prev, "") = []) →
  search_start r s = Some n → search r (str_take n s) = false.
Proof.
  intros Hp Hne H. destruct (start_from_cut r 0 None s n Hp Hne H) as [_ Hex].
  by rewrite Nat.sub_0_r in Hex.
Qed.

Lemma search_start_none r s : search_start r s = None ↔ search r s = false.
Proof.
  unfold search_start, search. generalize (@None ascii) as prev. generalize 0 as i.
  induction s as [|c s IH]; intros i prev; cbn [start_from starts existsb].
  - unfold hits_at. by destruct (ends r (prev, "")).
  - unfold hits_at at 1. destruct (ends r (prev, String c s)); [exact (IH (S i) (Some c))|done].
Qed.
