(* ===== verification/Schemas.v ===== *)
(** * Requests, messages and responses ([schemas.py], [tokens.py])

    The OpenAI-shaped values that cross the gateway, with the two operations that read
    them: flattening a message to text and estimating tokens. *)

From S2P Require Import Prelude PyStr PyDict.

(** ** JSON values *)

(** A decoded JSON value; a float carries its value and the text Python prints for it. *)
#[warnings="-register-all"]
Inductive json : Type :=
  | JNull
  | JBool (b : bool)
  | JInt (z : Z)
  | JFloat (q : Q) (printed : string)
  | JStr (s : string)
  | JList (l : list json)
  | JObj (d : list (string * json)).

(** [bool(v)] *)
Definition truthy (v : json) : bool :=
  match v with
  | JNull => false
  | JBool b => b
  | JInt z => negb (z =? 0)%Z
  | JFloat q _ => negb (Qeq_bool q 0)
  | JStr s => negb (s ≡? "")
  | JList l => match l with [] => false | _ => true end
  | JObj d => match d with [] => false | _ => true end
  end.

Definition type_name (v : json) : string :=
  match v with
  | JNull => "NoneType" | JBool _ => "bool" | JInt _ => "int" | JFloat _ _ => "float"
  | JStr _ => "str" | JList _ => "list" | JObj _ => "dict"
  end.

(** [repr(v)], and [str(v)], which differs on strings only. *)
Fixpoint json_repr (v : json) : string :=
  match v with
  | JNull => "None"
  | JBool b => if b then "True" else "False"
  | JInt z => str_of_Z z
  | JFloat _ p => p
  | JStr s => repr s
  | JList l => "[" +:+ join ", " (map json_repr l) +:+ "]"
  | JObj d => "{" +:+ join ", " (map (λ kv, repr kv.1 +:+ ": " +:+ json_repr kv.2) d) +:+ "}"
  end.

Definition json_str (v : json) : string := match v with JStr s => s | _ => json_repr v end.

(** ** Messages *)

(** [str | list[dict] | None] *)
Inductive content : Type :=
  | CText (s : string)
  | CParts (parts : list (list (string * json)))
  | CNone.

Record Message := { role : string; content_of : content; name : option string }.

(** [part.get("type") in (None, "text")] *)
Definition is_text_part (part : list (string * json)) : bool :=
  match dget part "type" with
  | None | Some JNull => true
  | Some (JStr t) => t ≡? "text"
  | Some _ => false
  end.

Definition part_text (part : list (string * json)) : json :=
  match dget part "text" with Some v => v | None => JStr "" end.

(** [''.join(l)] over arbitrary values: raises [TypeError] at the first non-string. *)
Fixpoint join_values (i : nat) (l : list json) : res string string :=
  match l with
  | [] => Ok ""
  | JStr s :: l => try! t := join_values (S i) l in Ok (s +:+ t)
  | v :: _ => Err ("sequence item " +:+ str_of_nat i +:+ ": expected str instance, "
                   +:+ type_name v +:+ " found")
  end.

(** [Message.text]: the text of a plain message, of the text parts of an array, or
    nothing.  [Err] is the [TypeError] a non-string ["text"] raises. *)
Definition text (m : Message) : res string string :=
  match content_of m with
  | CText s => Ok s
  | CParts parts => join_values 0 (part_text <$> List.filter is_text_part parts)
  | CNone => Ok ""
  end.

(** [[m.text() for m in messages]] *)
Fixpoint texts (ms : list Message) : res string (list string) :=
  match ms with
  | [] => Ok []
  | m :: ms => try! t := text m in try! ts := texts ms in Ok (t :: ts)
  end.

(** ** Requests *)

Record StreamOptions := { include_usage : bool }.

(** The auto-inject knobs the gateway stamps for the runners. *)
Record CachePrefs := { auto_inject : bool; auto_inject_min_messages : Z }.

Record ChatCompletionRequest := {
  model : string;
  messages : list Message;
  stream : bool;
  stream_options : option StreamOptions;
  temperature : option Q;
  top_p : option Q;
  max_tokens : option Z;
  stop : option json;
  n_choices : option Z;
  user : option string;
  conversation_key : option string;
  cache_prefs : option CachePrefs;
  model_extra : list (string * json);
}.

(** [Message(role=..., content=...)] and [ChatCompletionRequest(model=..., messages=...)]. *)
Definition say (r s : string) : Message := {| role := r; content_of := CText s; name := None |}.

Definition request_of (m : string) (ms : list Message) : ChatCompletionRequest :=
  {| model := m; messages := ms; stream := false; stream_options := None; temperature := None;
     top_p := None; max_tokens := None; stop := None; n_choices := None; user := None;
     conversation_key := None; cache_prefs := None; model_extra := [] |}.

(** [req.model_copy(update={"model": ...})] *)
Definition with_model (req : ChatCompletionRequest) (id : string) : ChatCompletionRequest :=
  {| model := id; messages := messages req; stream := stream req;
     stream_options := stream_options req; temperature := temperature req;
     top_p := top_p req; max_tokens := max_tokens req; stop := stop req; n_choices := n_choices req;
     user := user req; conversation_key := conversation_key req;
     cache_prefs := cache_prefs req; model_extra := model_extra req |}.

(** [req.model_copy(update={"conversation_key": ..., "cache_prefs": ...})] *)
Definition with_stamps (req : ChatCompletionRequest) (key : option string) (prefs : CachePrefs)
    : ChatCompletionRequest :=
  {| model := model req; messages := messages req; stream := stream req;
     stream_options := stream_options req; temperature := temperature req;
     top_p := top_p req; max_tokens := max_tokens req; stop := stop req; n_choices := n_choices req;
     user := user req; conversation_key := key;
     cache_prefs := Some prefs; model_extra := model_extra req |}.

Definition present {A} (o : option A) : bool := match o with Some _ => true | None => false end.

(** The keys of [req.model_dump(exclude_none=True)]: the declared fields that are set,
    then the extra fields that are not null. *)
Definition dump_keys (req : ChatCompletionRequest) : list string :=
  ["model"; "messages"; "stream"]
  ++ List.filter (λ k,
       match k with
       | "stream_options" => present (stream_options req)
       | "temperature" => present (temperature req)
       | "top_p" => present (top_p req)
       | "max_tokens" => present (max_tokens req)
       | "stop" => present (stop req)
       | "n" => present (n_choices req)
       | "user" => present (user req)
       | "conversation_key" => present (conversation_key req)
       | _ => present (cache_prefs req)
       end)
     ["stream_options"; "temperature"; "top_p"; "max_tokens"; "stop"; "n"; "user";
      "conversation_key"; "cache_prefs"]
  ++ (fst <$> List.filter (λ kv, negb (match kv.2 with JNull => true | _ => false end))
                          (model_extra req)).

Definition control_fields : list string :=
  ["model"; "messages"; "stream"; "stream_options"; "conversation_key"; "cache_prefs";
   "extra_headers"; "extra_query"; "extra_body"; "timeout"].

(** The keys [passthrough_params] forwards upstream. *)
Definition passthrough_params (req : ChatCompletionRequest) : list string :=
  List.filter (λ k, negb (startswith "extra_" k))
    (List.filter (λ k, negb (k ∈? control_fields)) (dump_keys req)).

(** [bool(req.model_dump(exclude_none=True).get("tools"))] *)
Definition has_tools_field (req : ChatCompletionRequest) : bool :=
  match dget (model_extra req) "tools" with Some v => truthy v | None => false end.

(** ** Usage and responses *)

Record Usage := {
  prompt_tokens : Z;
  completion_tokens : Z;
  total_tokens : Z;
  tokens_cached : Z;
  tokens_cache_write : Z;
  cost_upstream : option Q;
}.

(** [Usage.of] *)
Definition usage_of (prompt completion cached : Z) (cost : option Q) (write : Z) : Usage :=
  {| prompt_tokens := prompt; completion_tokens := completion;
     total_tokens := prompt + completion; tokens_cached := cached;
     tokens_cache_write := write; cost_upstream := cost |}.

Record Choice := {
  choice_index : Z;
  msg_content : option string;
  msg_tool_calls : option (list json);
  finish_reason : option string;
}.

Record ChatCompletionResponse := {
  resp_model : string;
  choices : list Choice;
  usage : Usage;
}.

Definition with_usage (r : ChatCompletionResponse) (u : Usage) : ChatCompletionResponse :=
  {| resp_model := resp_model r; choices := choices r; usage := u |}.

(** [resp.choices[0].message.content if resp.choices else ""], then [or ""]. *)
Definition first_content (r : ChatCompletionResponse) : string :=
  match choices r with
  | c :: _ => match msg_content c with Some s => s | None => "" end
  | [] => ""
  end.

(** ** Token estimates *)

Definition CHARS_PER_TOKEN : Z := 4.

(** [estimate_tokens] *)
Definition estimate_tokens (s : string) : Z :=
  if s ≡? "" then 0%Z
  else Z.max 1 (round_half_even (Qz (Z.of_nat (str_len s)) / Qz CHARS_PER_TOKEN)).

(** [estimate_prompt_tokens]: text, role and three framing tokens per message. *)
Fixpoint estimate_prompt_tokens (ms : list Message) : res string Z :=
  match ms with
  | [] => Ok 0%Z
  | m :: ms =>
      try! t := text m in
      try! rest := estimate_prompt_tokens ms in
      Ok (estimate_tokens t + estimate_tokens (role m) + 3 + rest)%Z
  end.

(** ** Facts *)

(** No internal or request-control field ever reaches an upstream provider. *)
Lemma passthrough_params_strips req k :
  k ∈ passthrough_params req → (k ∉ control_fields) ∧ startswith "extra_" k = false.
Proof.
  unfold passthrough_params. rewrite !elem_of_bfilter, !negb_true_iff.
  intros [[_ Hc%bool_decide_eq_false] He]. done.
Qed.

Lemma estimate_tokens_nonneg s : (0 <= estimate_tokens s)%Z.
Proof. unfold estimate_tokens. case_bool_decide; lia. Qed.

Lemma estimate_tokens_pos s : s ≠ "" → (1 <= estimate_tokens s)%Z.
Proof. intros. unfold estimate_tokens. rewrite bool_decide_eq_false_2 by done. lia. Qed.

Lemma estimate_prompt_tokens_lower ms z :
  estimate_prompt_tokens ms = Ok z → (3 * Z.of_nat (length ms) <= z)%Z.
Proof.
  revert z. induction ms as [|m ms IH]; intros z; [intros [= <-]; cbn; lia|].
  cbn [estimate_prompt_tokens]. intros (t & _ & (r & Hr & [= <-])%res_bind_ok)%res_bind_ok.
  specialize (IH r Hr). pose proof (estimate_tokens_nonneg t).
  pose proof (estimate_tokens_nonneg (role m)). cbn [length]. lia.
Qed.

Lemma texts_ok_prompt_tokens ms ts : texts ms = Ok ts → ∃ z, estimate_prompt_tokens ms = Ok z.
Proof.
  revert ts. induction ms as [|m ms IH]; intros ts; [by eexists|]. cbn.
  intros (t & -> & (r & Hr & _)%res_bind_ok)%res_bind_ok.
  destruct (IH r Hr) as [z ->]. by eexists.
Qed.
