(* ===== verification/Catalog.v ===== *)
(** * The model catalog ([catalog.py])

    Entries with their lane, residency and price, the lookups every plane goes through,
    the composition of catalog files, and the caller's effective catalog (adoptions and
    price overrides layered on the base). *)

From S2P Require Import Prelude PyStr PyDict.

(** ** Data *)

Inductive Lane : Type := economy | frontier | fake | provider_lane.
Inductive Residency : Type := in_perimeter | cloud.
Inductive PriceSource : Type := yaml | discovered | manual.
Inductive ScopeKind : Type := platform | organization | user_scope.

#[export] Instance Lane_eq_dec : EqDecision Lane.
Proof. solve_decision. Defined.
#[export] Instance Residency_eq_dec : EqDecision Residency.
Proof. solve_decision. Defined.
#[export] Instance ScopeKind_eq_dec : EqDecision ScopeKind.
Proof. solve_decision. Defined.

(** The literals the source compares against. *)
Definition lane_str (l : Lane) : string :=
  match l with
  | economy => "economy" | frontier => "frontier" | fake => "fake" | provider_lane => "provider"
  end.

Definition residency_str (r : Residency) : string :=
  match r with in_perimeter => "in_perimeter" | cloud => "cloud" end.

Definition kind_str (k : ScopeKind) : string :=
  match k with platform => "platform" | organization => "organization" | user_scope => "user" end.

(** [CredentialScopeRef]: whose credential a provider route runs on. *)
Record CredentialScopeRef := { kind : ScopeKind; scope_id : string }.

#[export] Instance CredentialScopeRef_eq_dec : EqDecision CredentialScopeRef.
Proof. solve_decision. Defined.

Record Price := {
  prompt : Q;
  completion : Q;
  cache_read_multiplier : Q;
  cache_write_multiplier : Q;
}.

(** [Price()] *)
Definition default_price : Price :=
  {| prompt := 0; completion := 0; cache_read_multiplier := 1 # 10; cache_write_multiplier := 1 |}.

Record CatalogEntry := {
  id : string;
  aliases : list string;
  lane : Lane;
  endpoint : string;
  residency_class : Residency;
  price_usd_per_1k : Price;
  context_window : Z;
  cache_ttl_s : option Z;
  upstream_model : option string;
  base_url : option string;
  api_key_env : string;
  tools : bool;
  identity_id : option string;
  offer_id : option string;
  provider : option string;
  credential_scope : option CredentialScopeRef;
  modalities : list string;
  supported_parameters : list string;
  max_output_tokens : option Z;
  snapshot_completed_at : option Q;
  snapshot_expires_at : option Q;
  capability_residency : list string;
  source : option string;
  price_source : PriceSource;
}.

(** [entry.effective_upstream_model]: an empty upstream falls back to the id, too. *)
Definition effective_upstream_model (e : CatalogEntry) : string :=
  match upstream_model e with
  | Some m => if m ≡? "" then id e else m
  | None => id e
  end.

(** [entry.credential_scope_label] *)
Definition credential_scope_label (e : CatalogEntry) : option string :=
  (λ s, kind_str (kind s) +:+ ":" +:+ scope_id s) <$> credential_scope e.

Definition with_source (e : CatalogEntry) (s : string) : CatalogEntry :=
  {| id := id e; aliases := aliases e; lane := lane e; endpoint := endpoint e;
     residency_class := residency_class e; price_usd_per_1k := price_usd_per_1k e;
     context_window := context_window e; cache_ttl_s := cache_ttl_s e;
     upstream_model := upstream_model e; base_url := base_url e;
     api_key_env := api_key_env e; tools := tools e; identity_id := identity_id e;
     offer_id := offer_id e; provider := provider e; credential_scope := credential_scope e;
     modalities := modalities e; supported_parameters := supported_parameters e;
     max_output_tokens := max_output_tokens e;
     snapshot_completed_at := snapshot_completed_at e;
     snapshot_expires_at := snapshot_expires_at e;
     capability_residency := capability_residency e; source := Some s;
     price_source := price_source e |}.

Definition with_price (e : CatalogEntry) (p : Price) (ps : PriceSource) : CatalogEntry :=
  {| id := id e; aliases := aliases e; lane := lane e; endpoint := endpoint e;
     residency_class := residency_class e; price_usd_per_1k := p;
     context_window := context_window e; cache_ttl_s := cache_ttl_s e;
     upstream_model := upstream_model e; base_url := base_url e;
     api_key_env := api_key_env e; tools := tools e; identity_id := identity_id e;
     offer_id := offer_id e; provider := provider e; credential_scope := credential_scope e;
     modalities := modalities e; supported_parameters := supported_parameters e;
     max_output_tokens := max_output_tokens e;
     snapshot_completed_at := snapshot_completed_at e;
     snapshot_expires_at := snapshot_expires_at e;
     capability_residency := capability_residency e; source := source e;
     price_source := ps |}.

(** [CatalogEntry(id=..., lane=..., endpoint=..., residency_class=...)]: every other
    field at its declared default. *)
Definition entry_of (i : string) (l : Lane) (ep : string) (r : Residency) : CatalogEntry :=
  {| id := i; aliases := []; lane := l; endpoint := ep; residency_class := r;
     price_usd_per_1k := default_price; context_window := 8192; cache_ttl_s := None;
     upstream_model := None; base_url := None; api_key_env := "OPENAI_API_KEY";
     tools := true; identity_id := None; offer_id := None; provider := None;
     credential_scope := None; modalities := []; supported_parameters := [];
     max_output_tokens := None; snapshot_completed_at := None; snapshot_expires_at := None;
     capability_residency := []; source := None; price_source := yaml |}.

(** A cloud entry and an in-perimeter one. *)
Definition demo_cloud : CatalogEntry := entry_of "gpt" frontier "openai" cloud.
Definition demo_local : CatalogEntry := entry_of "local" economy "openai" in_perimeter.
Definition demo_catalog : list CatalogEntry := [demo_cloud; demo_local].

(** ** Ids *)

(** The closed table of ids retired by the 2026-07-09 rename. *)
Definition LEGACY_MODEL_IDS : list (string * string) :=
  [("or-economy", "or-qwen3-coder-flash");
   ("or-economy-general", "or-sonnet-4.6");
   ("or-flash", "or-gemini-2.5-flash");
   ("or-haiku", "or-haiku-4.5");
   ("or-frontier", "or-sonnet-4.6");
   ("claude-frontier", "claude-sonnet-4.6");
   ("gpt-frontier", "gpt-4o");
   ("fw-economy", "fw-glm-5.2");
   ("fw-economy-general", "fw-deepseek-v4-pro")].

Definition normalize_legacy_id (model_id : string) : string :=
  match dget LEGACY_MODEL_IDS model_id with Some v => v | None => model_id end.

Definition BANNED_TIER_WORDS : gset string :=
  list_to_set ["economy"; "frontier"; "flagship"; "premium"; "value"; "balanced";
               "general"; "smart"; "cheap"; "fast"; "best"].

(** [set(model_id.replace(".", "-").split("-")) & BANNED_TIER_WORDS] *)
Definition id_tier_words (model_id : string) : gset string :=
  list_to_set (split_on "-"%char (replace_char "."%char "-"%char model_id)) ∩ BANNED_TIER_WORDS.

(** ** Lookups *)

(** [Catalog.models] *)
Abbreviation Catalog := (list CatalogEntry).

Record UnknownModel := { unknown_id : string; known_ids : string }.

Definition catalog_get (models : Catalog) (model_id : string) : option CatalogEntry :=
  first_such (λ e, id e ≡? model_id) models.

Definition frontier_reference (models : Catalog) : option CatalogEntry :=
  first_such (λ e, lane e ≡? frontier) models
  orelse first_such (λ e, residency_class e ≡? cloud) models.

Definition require (models : Catalog) (model_id : string) : res UnknownModel CatalogEntry :=
  match catalog_get models model_id with
  | Some e => Ok e
  | None => Err {| unknown_id := model_id; known_ids := join ", " (id <$> models) |}
  end.

(** ** Loading *)

Inductive LoadError : Type :=
  | EmptyPath
  | NoModelsKey (path : string).

(** [Path(p).name] of a path without a trailing slash. *)
Definition path_name (p : string) : string := List.last (split_on "/"%char p) "".

(** [[p.strip() for p in path.split(",") if p.strip()]] *)
Definition split_paths (path : string) : list string :=
  List.filter (λ p, negb (p ≡? "")) (strip <$> split_on ","%char path).

Section load.
(** The parsed ["models"] list of a YAML file, [None] when the key is missing: file
    access and the YAML parser are outside the source. *)
Variable read_models : string → option (list CatalogEntry).

(** The items of [merged] after one file: re-assigning a present id keeps its place. *)
Definition merge_file (merged : list (string * CatalogEntry)) (p : string)
    (ms : list CatalogEntry) : list (string * CatalogEntry) :=
  foldl (λ acc m, dset acc (id m) (with_source m (path_name p))) merged ms.

Fixpoint merge_files (merged : list (string * CatalogEntry)) (paths : list string)
    : res LoadError (list (string * CatalogEntry)) :=
  match paths with
  | [] => Ok merged
  | p :: ps =>
      match read_models p with
      | None => Err (NoModelsKey p)
      | Some ms => merge_files (merge_file merged p ms) ps
      end
  end.

(** [Catalog.load] *)
Definition load (path : string) : res LoadError Catalog :=
  match split_paths path with
  | [] => Err EmptyPath
  | paths => try! merged := merge_files [] paths in Ok merged.*2
  end.
End load.

(** ** The caller's effective catalog *)

(** A stored price override; a missing read multiplier inherits the entry's. *)
Record PriceRow := {
  prompt_usd_per_1k : Q;
  completion_usd_per_1k : Q;
  row_cache_read_multiplier : option Q;
}.

(** [adoptions]: the caller's adopted entries, [None] for a member that is not a mapping. *)
Definition adopted_entries (models : Catalog) (adoptions : list (option CatalogEntry)) : Catalog :=
  omap (λ o, match o with
             | Some e => if id e ∈? (id <$> models) then None else Some (with_source e "adopted")
             | None => None
             end) adoptions.

Definition apply_override (overrides : gmap string PriceRow) (e : CatalogEntry) : CatalogEntry :=
  match overrides !! id e with
  | None => e
  | Some row =>
      let old := price_usd_per_1k e in
      with_price e
        {| prompt := prompt_usd_per_1k row;
           completion := completion_usd_per_1k row;
           cache_read_multiplier :=
             match row_cache_read_multiplier row with
             | None => cache_read_multiplier old
             | Some q => q
             end;
           cache_write_multiplier := cache_write_multiplier old |}
        manual
  end.

Definition effective_catalog (base : Catalog) (adoptions : list (option CatalogEntry))
    (overrides : gmap string PriceRow) : Catalog :=
  apply_override overrides <$> (base ++ adopted_entries base adoptions).

(** ** Facts *)

Lemma catalog_get_some c i e : catalog_get c i = Some e → e ∈ c ∧ id e = i.
Proof. intros [? H]%first_such_some. by apply bool_decide_eq_true in H. Qed.

Lemma catalog_get_elem c e : e ∈ c → ∃ e', catalog_get c (id e) = Some e' ∧ id e' = id e.
Proof.
  intros He. destruct (first_such_is_some (λ e', id e' ≡? id e) c e He) as [e' He'].
  { by apply bool_decide_eq_true. }
  exists e'. split; [done|]. by apply catalog_get_some in He' as [_ ?].
Qed.

Lemma catalog_get_none c i : catalog_get c i = None ↔ i ∉ id <$> c.
Proof.
  unfold catalog_get. rewrite first_such_none. setoid_rewrite bool_decide_eq_false.
  rewrite list_elem_of_fmap. naive_solver.
Qed.

Lemma catalog_get_app c1 c2 i :
  catalog_get (c1 ++ c2) i =
  match catalog_get c1 i with Some e => Some e | None => catalog_get c2 i end.
Proof. induction c1 as [|e c1 IH]; cbn; [done|]. by case_bool_decide. Qed.

Lemma require_ok c i e : require c i = Ok e ↔ catalog_get c i = Some e.
Proof. unfold require. destruct (catalog_get c i); naive_solver. Qed.

(** With distinct ids, an entry is found under its own id. *)
Lemma catalog_get_nodup c e : NoDup (id <$> c) → e ∈ c → catalog_get c (id e) = Some e.
Proof.
  intros Hnd He. induction c as [|a c IH]; [by apply elem_of_nil in He|].
  cbn in *. apply NoDup_cons in Hnd as [Ha Hnd]. apply elem_of_cons in He as [->|He].
  { by rewrite bool_decide_eq_true_2. }
  rewrite bool_decide_eq_false_2; [by apply IH|].
  intros Heq. apply Ha. rewrite Heq. by apply list_elem_of_fmap_2.
Qed.

(** Overrides touch only the price and its provenance. *)
Lemma apply_override_id o e : id (apply_override o e) = id e.
Proof. unfold apply_override. by destruct (o !! id e). Qed.

Lemma apply_override_keeps o e :
  residency_class (apply_override o e) = residency_class e ∧
  lane (apply_override o e) = lane e ∧
  endpoint (apply_override o e) = endpoint e ∧
  tools (apply_override o e) = tools e.
Proof. unfold apply_override. by destruct (o !! id e). Qed.

Lemma catalog_get_override o c i :
  catalog_get (apply_override o <$> c) i = apply_override o <$> catalog_get c i.
Proof.
  induction c as [|e c IH]; [done|]. cbn. rewrite apply_override_id.
  by case_bool_decide.
Qed.

Lemma adopted_fresh base ads e : e ∈ adopted_entries base ads → id e ∉ id <$> base.
Proof.
  unfold adopted_entries. rewrite list_elem_of_omap. intros ([a|] & _ & H); [|done].
  case_bool_decide; [done|]. by injection H as <-.
Qed.

(** The base wins on an id collision: its entry is found, re-priced at most. *)
Lemma effective_catalog_base_wins base ads o i e :
  catalog_get base i = Some e →
  catalog_get (effective_catalog base ads o) i = Some (apply_override o e).
Proof. intros H. unfold effective_catalog. by rewrite catalog_get_override, catalog_get_app, H. Qed.

Lemma effective_catalog_empty base : effective_catalog base [] ∅ = base.
Proof.
  unfold effective_catalog, adopted_entries. cbn. rewrite app_nil_r.
  induction base as [|e base IH]; [done|]. cbn. by rewrite IH.
Qed.

#[export] Hint Resolve apply_override_id : py.
