(* ===== verification/ExactCache.v ===== *)
(** * The exact-match response cache ([cache/exact.py])

    The normalised key, the bounded in-memory dict with its recency order, and the SQLite
    write-through tier.  The hash and the float printer of the standard library and the
    response (de)serialiser of pydantic are parameters; where a theorem needs it, the hash
    is collision-free and the serialiser round-trips. *)

From S2P Require Import Prelude PyStr PyDict Schemas.

(** ** [json.dumps(v, sort_keys=True, separators=(",", ":"))] *)

Definition hex4 (n : nat) : string :=
  String "0" (String "0" (String (hex_char (n / 16)) (String (hex_char (n mod 16)) ""))).

(** The escape of one character under [ensure_ascii]. *)
Definition json_char (c : ascii) : string :=
  let esc (d : ascii) := String backslash (String d "") in
  if c ≡? dquote then esc dquote
  else if c ≡? backslash then esc backslash
  else if code c =? 10 then esc "n"%char
  else if code c =? 13 then esc "r"%char
  else if code c =? 9 then esc "t"%char
  else if code c =? 12 then esc "f"%char
  else if code c =? 8 then esc "b"%char
  else if (code c <? 32) || (127 <=? code c)
       then String backslash (String "u" (hex4 (code c)))
  else String c "".

Definition json_quote (s : string) : string :=
  String dquote (concat_map_str json_char s +:+ String dquote "").

Definition key_leb (a b : string * string) : bool := str_leb a.1 b.1.

Fixpoint dumps (v : json) : string :=
  match v with
  | JNull => "null"
  | JBool b => if b then "true" else "false"
  | JInt z => str_of_Z z
  | JFloat _ p => p
  | JStr s => json_quote s
  | JList l => "[" +:+ join "," (map dumps l) +:+ "]"
  | JObj d =>
      "{" +:+ join "," ((λ kv, json_quote kv.1 +:+ ":" +:+ kv.2) <$>
                        sort_by key_leb (map (λ kv, (kv.1, dumps kv.2)) d)) +:+ "}"
  end.

(** [_tenant_of] *)
Definition tenant_of (req : ChatCompletionRequest) : string :=
  match dget (model_extra req) "tenant" with Some v => json_str v | None => "default" end.

(** ** The cache *)

(** [_mem] in recency order, oldest first, and the rows of the SQLite table. *)
Record ExactCache := {
  max_entries : nat;
  mem : list (string * string);
  db : option (gmap string string);
}.

Definition new_cache (persistent : bool) (max : nat) : ExactCache :=
  {| max_entries := max; mem := []; db := if persistent then Some ∅ else None |}.

Definition with_mem (c : ExactCache) (m : list (string * string)) : ExactCache :=
  {| max_entries := max_entries c; mem := m; db := db c |}.

(** [_mem_set]: a present key is only promoted; [popitem] on an empty dict raises. *)
Definition mem_set (c : ExactCache) (key raw : string) : res string ExactCache :=
  if dmem (mem c) key then Ok (with_mem c (dmove_to_end (mem c) key))
  else if max_entries c <=? length (mem c) then
    match mem c with
    | [] => Err "dictionary is empty"
    | _ => Ok (with_mem c (dset (dpop_first (mem c)) key raw))
    end
  else Ok (with_mem c (dset (mem c) key raw)).

Section cache.
(** [hashlib.sha256(...).hexdigest()] and [float.__repr__]. *)
Context (sha256 : string → string) (float_repr : Q → string).
(** Responses are opaque to the cache, but for [resp.model_dump_json()] and
    [ChatCompletionResponse.model_validate_json]. *)
Context {Response : Type} (dump_json : Response → string).
Context (validate_json : string → res string Response).

Definition opt_json {A} (f : A → json) (o : option A) : json :=
  match o with Some x => f x | None => JNull end.

Fixpoint message_rows (ms : list Message) : res string (list json) :=
  match ms with
  | [] => Ok []
  | m :: ms =>
      try! t := text m in
      try! rest := message_rows ms in
      Ok (JObj [("role", JStr (role m)); ("content", JStr t)] :: rest)
  end.

(** [_normalize], before [json.dumps]: only a non-null ["tools"] field survives the
    [exclude_none] dump. *)
Definition normal_form (req : ChatCompletionRequest) (tenant : string) : res string json :=
  try! rows := message_rows (messages req) in
  Ok (JObj ([("tenant", JStr tenant);
             ("model", JStr (model req));
             ("messages", JList rows);
             ("temperature", opt_json (λ q, JFloat q (float_repr q)) (temperature req));
             ("max_tokens", opt_json JInt (max_tokens req))]
            ++ match dget (model_extra req) "tools" with
               | Some JNull | None => []
               | Some v => [("tools", v)]
               end)).

Definition normalize (req : ChatCompletionRequest) (tenant : string) : res string string :=
  try! v := normal_form req tenant in Ok (dumps v).

(** [_key] *)
Definition cache_key (req : ChatCompletionRequest) : res string string :=
  let tenant := tenant_of req in
  try! body := normalize req tenant in
  Ok (sha256 (tenant +:+ ":" +:+ body)).

(** [get]: the answer and the cache after it. *)
Definition get (c : ExactCache) (req : ChatCompletionRequest)
    : res string (option Response * ExactCache) :=
  try! key := cache_key req in
  match dget (mem c) key with
  | Some raw =>
      try! r := validate_json raw in
      Ok (Some r, with_mem c (dmove_to_end (mem c) key))
  | None =>
      match db c with
      | Some rows =>
          match rows !! key with
          | Some raw =>
              try! c := mem_set c key raw in
              try! r := validate_json raw in
              Ok (Some r, c)
          | None => Ok (None, c)
          end
      | None => Ok (None, c)
      end
  end.

Definition put (c : ExactCache) (req : ChatCompletionRequest) (resp : Response)
    : res string ExactCache :=
  try! key := cache_key req in
  let raw := dump_json resp in
  try! c := mem_set c key raw in
  Ok {| max_entries := max_entries c; mem := mem c; db := (λ rows, <[key := raw]> rows) <$> db c |}.

(** ** Operation sequences *)

Inductive CacheOp : Type :=
  | OpGet (req : ChatCompletionRequest)
  | OpPut (req : ChatCompletionRequest) (resp : Response).

Definition apply_op (c : ExactCache) (op : CacheOp) : res string ExactCache :=
  match op with
  | OpGet req => try! r := get c req in Ok r.2
  | OpPut req resp => put c req resp
  end.

Fixpoint run_ops (c : ExactCache) (ops : list CacheOp) : res string ExactCache :=
  match ops with
  | [] => Ok c
  | op :: ops => try! c := apply_op c op in run_ops c ops
  end.

(** ** Facts *)

(** The in-memory tier is within its bound and holds each key once. *)
Record cache_inv (c : ExactCache) : Prop := {
  inv_bound : length (mem c) ≤ max_entries c;
  inv_nodup : NoDup (dkeys (mem c));
  inv_max : 0 < max_entries c;
}.

Lemma new_cache_inv p n : 0 < n → cache_inv (new_cache p n).
Proof. split; cbn; [lia|apply NoDup_nil_2|done]. Qed.

Lemma with_mem_inv c m :
  cache_inv c → length m ≤ max_entries c → NoDup (dkeys m) → cache_inv (with_mem c m).
Proof. intros [_ _ ?]. by split. Qed.

(** [_mem_set] never raises on a valid cache, keeps it valid and answers for its key. *)
Lemma mem_set_spec c key raw :
  cache_inv c →
  ∃ c', mem_set c key raw = Ok c' ∧ cache_inv c' ∧ db c' = db c ∧
    max_entries c' = max_entries c ∧
    dget (mem c') key = Some (default raw (dget (mem c) key)) ∧
    (∀ k v, k ≠ key → dget (mem c') k = Some v → dget (mem c) k = Some v).
Proof.
  intros Hc. pose proof Hc as [Hb Hnd Hm]. unfold mem_set, dmem.
  destruct (dget (mem c) key) as [old|] eqn:E.
  - eexists. split; [done|]. split.
    { apply with_mem_inv; [done| |by apply NoDup_dmove_to_end].
      pose proof (length_dmove_to_end (mem c) key). lia. }
    cbn. rewrite dget_dmove_to_end. do 3 (split; [done|]). intros k v _. by rewrite dget_dmove_to_end.
  - pose proof (length_evict_dset (max_entries c) (mem c) key raw Hm Hb) as Hlen.
    destruct (max_entries c <=? length (mem c)) eqn:Hfull.
    + destruct (mem c) as [|kv m] eqn:Em; [apply Nat.leb_le in Hfull; cbn in *; lia|].
      eexists. split; [done|]. split.
      { apply with_mem_inv; [done|done|]. apply NoDup_dset, NoDup_dpop_first. done. }
      cbn [mem db max_entries with_mem]. rewrite dget_dset_eq. do 3 (split; [done|]).
      intros k v Hk. rewrite dget_dset_ne by done. by apply dget_dpop_first.
    + eexists. split; [done|]. split; [by apply with_mem_inv, NoDup_dset|].
      cbn. rewrite dget_dset_eq. do 3 (split; [done|]).
      intros k v Hk. by rewrite dget_dset_ne.
Qed.

Lemma put_spec c req resp key :
  cache_inv c → cache_key req = Ok key →
  ∃ c', put c req resp = Ok c' ∧ cache_inv c' ∧ max_entries c' = max_entries c ∧
    db c' = (λ rows, <[key := dump_json resp]> rows) <$> db c ∧
    dget (mem c') key = Some (default (dump_json resp) (dget (mem c) key)) ∧
    (∀ k v, k ≠ key → dget (mem c') k = Some v → dget (mem c) k = Some v).
Proof.
  intros Hc Hk. unfold put. rewrite Hk. cbn [res_bind].
  destruct (mem_set_spec c key (dump_json resp) Hc) as (c' & -> & [Hb Hnd Hm] & Hdb & Hmax & Hg & Ho).
  cbn. eexists. split; [done|]. split; [by split|]. cbn. by rewrite Hdb.
Qed.

Lemma mem_set_max c key raw c' : mem_set c key raw = Ok c' → max_entries c' = max_entries c.
Proof. unfold mem_set. repeat case_match; by intros [= <-]. Qed.

Lemma get_max c req a c' : get c req = Ok (a, c') → max_entries c' = max_entries c.
Proof.
  intros (key & _ & Hget)%res_bind_ok. destruct (dget (mem c) key).
  { by apply res_bind_ok in Hget as (r & _ & [= _ <-]). }
  destruct (db c) as [rows|]; [|by injection Hget as _ <-].
  destruct (rows !! key); [|by injection Hget as _ <-].
  apply res_bind_ok in Hget as (c1 & Hset & (r & _ & [= _ <-])%res_bind_ok). by eapply mem_set_max.
Qed.

Lemma apply_op_max c op c' : apply_op c op = Ok c' → max_entries c' = max_entries c.
Proof.
  destruct op as [req|req resp]; cbn.
  - intros ([a c1] & Hget & [= <-])%res_bind_ok. by eapply get_max.
  - intros (key & _ & (c1 & Hset & [= <-])%res_bind_ok)%res_bind_ok.
    cbn. by eapply mem_set_max.
Qed.

Lemma run_ops_max ops c c' : run_ops c ops = Ok c' → max_entries c' = max_entries c.
Proof.
  revert c. induction ops as [|op ops IH]; intros c; [by intros [= <-]|]. cbn.
  intros (c1 & Hop & Hrun)%res_bind_ok. rewrite (IH _ Hrun). by apply apply_op_max in Hop.
Qed.

Context (Hjson : ∀ r, validate_json (dump_json r) = Ok r).

(** What is put under a key not in memory is what the next lookup of that key
    returns, and the put itself cannot fail. *)
Theorem get_after_put c req resp key :
  cache_inv c → cache_key req = Ok key → dget (mem c) key = None →
  ∃ c' c'', put c req resp = Ok c' ∧ get c' req = Ok (Some resp, c'').
Proof using Hjson.
  intros Hc Hk Hfresh. destruct (put_spec c req resp key Hc Hk) as (c' & Hput & _ & _ & _ & Hg & _).
  rewrite Hfresh in Hg. cbn in Hg. exists c', (with_mem c' (dmove_to_end (mem c') key)).
  split; [done|]. unfold get. rewrite Hk. cbn. rewrite Hg. by rewrite Hjson.
Qed.

(** Re-putting a key still in memory does not replace its answer there: the next
    lookup returns the old response, while the persistent tier holds the new one. *)
Theorem put_keeps_old_answer c req old new key :
  cache_inv c → cache_key req = Ok key → dget (mem c) key = Some (dump_json old) →
  ∃ c' c'', put c req new = Ok c' ∧ get c' req = Ok (Some old, c'') ∧
    (∀ rows, db c = Some rows → ∃ rows', db c' = Some rows' ∧ rows' !! key = Some (dump_json new)).
Proof using Hjson.
  intros Hc Hk Hold. destruct (put_spec c req new key Hc Hk) as (c' & Hput & _ & _ & Hdb & Hg & _).
  rewrite Hold in Hg. cbn in Hg. exists c', (with_mem c' (dmove_to_end (mem c') key)).
  split; [done|]. split.
  - unfold get. rewrite Hk. cbn. rewrite Hg. by rewrite Hjson.
  - intros rows Hr. rewrite Hr in Hdb. eexists. split; [exact Hdb|]. apply lookup_insert_eq.
Qed.

(** Every stored text was put under its key by one of [ops]. *)
Definition stored_by (ops : list CacheOp) (c : ExactCache) : Prop :=
  ∀ key raw,
    dget (mem c) key = Some raw ∨ (∃ rows, db c = Some rows ∧ rows !! key = Some raw) →
    ∃ req resp, OpPut req resp ∈ ops ∧ cache_key req = Ok key ∧ raw = dump_json resp.

Lemma mem_set_stored ops c key raw c' :
  cache_inv c → stored_by ops c → mem_set c key raw = Ok c' →
  (∃ req resp, OpPut req resp ∈ ops ∧ cache_key req = Ok key ∧ raw = dump_json resp) →
  cache_inv c' ∧ stored_by ops c'.
Proof.
  intros Hc Hs Hset Hraw.
  destruct (mem_set_spec c key raw Hc) as (c2 & Hset' & Hc' & Hdb & _ & Hg & Ho).
  rewrite Hset in Hset'. injection Hset' as <-. split; [done|].
  intros k v [Hv|(rows & Hr & Hv)].
  - destruct (decide (k = key)) as [->|Hne]; [|eapply Hs; eauto].
    rewrite Hg in Hv. injection Hv as <-.
    destruct (dget (mem c) key) as [old|] eqn:E; [|done]. cbn. eapply Hs; eauto.
  - apply Hs. right. rewrite Hdb in Hr. eauto.
Qed.

Lemma promote_stored ops c key :
  cache_inv c → stored_by ops c →
  cache_inv (with_mem c (dmove_to_end (mem c) key)) ∧
  stored_by ops (with_mem c (dmove_to_end (mem c) key)).
Proof.
  intros Hc Hs. split.
  - apply with_mem_inv; [done| |apply NoDup_dmove_to_end; by destruct Hc].
    pose proof (length_dmove_to_end (mem c) key). pose proof (inv_bound c Hc). lia.
  - intros k v H. apply Hs. cbn in H. by rewrite dget_dmove_to_end in H.
Qed.

(** One lookup keeps the cache valid and answers with a response stored under its key. *)
Lemma get_stored ops c req a c' :
  cache_inv c → stored_by ops c → get c req = Ok (a, c') →
  cache_inv c' ∧ stored_by ops c' ∧
  (∀ r, a = Some r → ∃ req', OpPut req' r ∈ ops ∧ cache_key req' = cache_key req).
Proof using Hjson.
  intros Hc Hs (key & Hk & Hget)%res_bind_ok.
  assert (∀ raw, (∃ req' resp, OpPut req' resp ∈ ops ∧ cache_key req' = Ok key ∧ raw = dump_json resp) →
    ∀ r, validate_json raw = Ok r → ∃ req', OpPut req' r ∈ ops ∧ cache_key req' = cache_key req) as Hval.
  { intros raw (q & p & Hin & Hq & ->) r Hr. rewrite Hjson in Hr. injection Hr as <-.
    exists q. split; [done|]. congruence. }
  destruct (dget (mem c) key) as [raw|] eqn:E.
  - apply res_bind_ok in Hget as (r & Hr & [= <- <-]).
    destruct (promote_stored ops c key Hc Hs) as [??]. do 2 (split; [done|]).
    intros r' [= <-]. apply (Hval raw); [|done]. apply Hs. auto.
  - destruct (db c) as [rows|] eqn:Edb; [|injection Hget as <- <-; by repeat split; try apply Hc].
    destruct (rows !! key) as [raw|] eqn:Erow; [|injection Hget as <- <-; by repeat split; try apply Hc].
    apply res_bind_ok in Hget as (c1 & Hset & (r & Hr & [= <- <-])%res_bind_ok).
    assert (∃ req' resp, OpPut req' resp ∈ ops ∧ cache_key req' = Ok key ∧ raw = dump_json resp) as Hsrc.
    { apply Hs. right. eauto. }
    destruct (mem_set_stored ops c key raw c1 Hc Hs Hset Hsrc) as [??]. do 2 (split; [done|]).
    intros r' [= <-]. by apply (Hval raw).
Qed.

Lemma put_stored ops c req resp c' :
  cache_inv c → stored_by ops c → OpPut req resp ∈ ops → put c req resp = Ok c' →
  cache_inv c' ∧ stored_by ops c'.
Proof.
  intros Hc Hs Hin Hput. pose proof Hput as (key & Hk & _)%res_bind_ok.
  destruct (put_spec c req resp key Hc Hk) as (c2 & Hput' & Hc' & _ & Hdb & Hg & Ho).
  rewrite Hput in Hput'. injection Hput' as <-. split; [done|].
  intros k v [Hv|(rows & Hr & Hv)]; (destruct (decide (k = key)) as [->|Hne]).
  - rewrite Hg in Hv. injection Hv as <-. destruct (dget (mem c) key) as [old|] eqn:E; cbn; eauto.
  - eapply Hs; eauto.
  - destruct (db c) as [rows0|]; [|by rewrite Hdb in Hr]. rewrite Hdb in Hr. injection Hr as <-.
    rewrite lookup_insert_eq in Hv. injection Hv as <-. eauto.
  - destruct (db c) as [rows0|] eqn:E; [|by rewrite Hdb in Hr]. rewrite Hdb in Hr. injection Hr as <-.
    rewrite lookup_insert_ne in Hv by done. apply Hs. right. eauto.
Qed.

Lemma run_ops_stored all ops c c' :
  cache_inv c → stored_by all c → (∀ op, op ∈ ops → op ∈ all) → run_ops c ops = Ok c' →
  cache_inv c' ∧ stored_by all c'.
Proof using Hjson.
  revert c. induction ops as [|op ops IH]; intros c Hc Hs Hsub; [by intros [= <-]|].
  cbn. intros (c1 & Hop & Hrun)%res_bind_ok.
  assert (cache_inv c1 ∧ stored_by all c1) as [Hc1 Hs1].
  { destruct op as [req|req resp]; cbn in Hop.
    - apply res_bind_ok in Hop as ([a c2] & Hget & [= <-]).
      by destruct (get_stored all c req a c2 Hc Hs Hget) as (? & ? & _).
    - eapply put_stored; [done|done| |done]. apply Hsub. left. }
  apply (IH c1); try done. intros o Ho. apply Hsub. by right.
Qed.

(** In every reachable cache — memory, persistence, eviction and promotion in any
    order — a hit is a response some earlier put stored under the very same key, and
    the in-memory tier never exceeds its bound. *)
Theorem get_sound p n ops c req r c' :
  0 < n → run_ops (new_cache p n) ops = Ok c → get c req = Ok (Some r, c') →
  (∃ req', OpPut req' r ∈ ops ∧ cache_key req' = cache_key req) ∧
  length (mem c) ≤ n ∧ length (mem c') ≤ n.
Proof using Hjson.
  intros Hn Hrun Hget.
  destruct (run_ops_stored ops ops (new_cache p n) c) as [Hc Hs]; [by apply new_cache_inv| |done|done|].
  { intros k v [[=]|(rows & Hr & Hv)]. destruct p; [|done]. injection Hr as <-.
    by rewrite lookup_empty in Hv. }
  destruct (get_stored ops c req (Some r) c' Hc Hs Hget) as (Hc' & _ & Hr). split; [by apply Hr|].
  rewrite <- (run_ops_max ops (new_cache p n) c Hrun : _ = n). split; [apply Hc|].
  rewrite <- (get_max c req (Some r) c' Hget). apply Hc'.
Qed.

(** The entry of [key] holds [v] with at most [j] more recent entries. *)
Definition recent (j : nat) (key v : string) (d : list (string * string)) : Prop :=
  ∃ l1 l2, d = l1 ++ (key, v) :: l2 ∧ length l2 ≤ j.

Lemma recent_weaken j key v d : recent j key v d → recent (S j) key v d.
Proof. intros (l1 & l2 & -> & ?). exists l1, l2. split; [done|lia]. Qed.

Lemma recent_get j key v d : NoDup (dkeys d) → recent j key v d → dget d key = Some v.
Proof. intros Hnd (l1 & l2 & -> & _). by apply dget_split. Qed.

Lemma dmove_to_end_recent key v d : dget d key = Some v → recent 0 key v (dmove_to_end d key).
Proof. intros H. unfold dmove_to_end. rewrite H. by exists (dpop d key), []. Qed.

Lemma promote_recent j key v k d :
  k ≠ key → recent j key v d → recent (S j) key v (dmove_to_end d k).
Proof.
  intros Hne Hrec. unfold dmove_to_end. destruct (dget d k) as [w|]; [|by apply recent_weaken].
  destruct Hrec as (l1 & l2 & -> & Hl). exists (dpop l1 k), (dpop l2 k ++ [(k, w)]). split.
  - unfold dpop. rewrite filter_app, filter_cons. cbn. rewrite decide_True by congruence.
    by rewrite <- app_assoc.
  - rewrite length_app. pose proof (length_dpop l2 k). cbn. lia.
Qed.

Lemma mem_set_recent j c key v k raw c' :
  k ≠ key → S j < max_entries c → recent j key v (mem c) → mem_set c k raw = Ok c' →
  recent (S j) key v (mem c').
Proof.
  intros Hne Hj Hrec. unfold mem_set, dmem. destruct (dget (mem c) k) as [w|] eqn:E.
  { intros [= <-]. by apply promote_recent. }
  destruct Hrec as (l1 & l2 & Hm & Hl). rewrite Hm in *.
  destruct (Nat.leb_spec (max_entries c) (length (l1 ++ (key, v) :: l2))) as [Hfull|_].
  - rewrite length_app in Hfull. cbn in Hfull. destruct l1 as [|x l1]; [cbn in *; lia|].
    cbn. intros [= <-]. cbn [mem with_mem]. cbn in E. destruct x as [kx vx].
    case_decide; [done|]. rewrite dset_fresh by done. exists l1, (l2 ++ [(k, raw)]).
    rewrite <- app_assoc, length_app. cbn. split; [done|lia].
  - intros [= <-]. cbn [mem with_mem]. rewrite dset_fresh by done. exists l1, (l2 ++ [(k, raw)]).
    rewrite <- app_assoc, length_app. cbn. split; [done|lia].
Qed.

Definition op_key (op : CacheOp) : res string string :=
  match op with OpGet req | OpPut req _ => cache_key req end.

Lemma apply_op_recent j c key v op c' :
  op_key op ≠ Ok key → S j < max_entries c → recent j key v (mem c) → apply_op c op = Ok c' →
  recent (S j) key v (mem c').
Proof.
  intros Hk Hj Hrec. destruct op as [req|req resp]; cbn in *.
  - intros ([a c1] & (k & Hkey & Hget)%res_bind_ok & [= <-])%res_bind_ok.
    assert (k ≠ key) as Hne by congruence. cbn in *.
    destruct (dget (mem c) k).
    { apply res_bind_ok in Hget as (r & _ & [= <- <-]). by apply promote_recent. }
    destruct (db c) as [rows|]; [|injection Hget as <- <-; by apply recent_weaken].
    destruct (rows !! k); [|injection Hget as <- <-; by apply recent_weaken].
    apply res_bind_ok in Hget as (c2 & Hset & (r & _ & [= <- <-])%res_bind_ok).
    by eapply mem_set_recent.
  - intros (k & Hkey & (c1 & Hset & [= <-])%res_bind_ok)%res_bind_ok. cbn.
    eapply mem_set_recent; [|done|done|done]. congruence.
Qed.

Lemma run_ops_recent ops j c key v c' :
  (∀ op, op ∈ ops → op_key op ≠ Ok key) → j + length ops < max_entries c →
  recent j key v (mem c) → run_ops c ops = Ok c' → recent (j + length ops) key v (mem c').
Proof.
  revert j c. induction ops as [|op ops IH]; intros j c Hk Hj Hrec; cbn.
  { intros [= <-]. by rewrite Nat.add_0_r. }
  intros (c1 & Hop & Hrun)%res_bind_ok. rewrite Nat.add_succ_r. cbn in Hj.
  apply (IH (S j) c1); [| | |done].
  - intros o Ho. apply Hk. by right.
  - rewrite (apply_op_max _ _ _ Hop). lia.
  - apply (apply_op_recent j c key v op c1); [|lia|done|done]. apply Hk. left.
Qed.

(** Eviction is by recency: an answer just served stays available, unchanged,
    through any sequence of fewer than [max_entries] operations on other keys. *)
Theorem hit_survives c req r c1 ops c2 key :
  cache_inv c → get c req = Ok (Some r, c1) → cache_key req = Ok key →
  run_ops c1 ops = Ok c2 → cache_inv c2 →
  (∀ op, op ∈ ops → op_key op ≠ Ok key) → length ops < max_entries c →
  ∃ c3, get c2 req = Ok (Some r, c3).
Proof.
  intros Hc Hget Hk Hrun Hc2 Hops Hlen.
  assert (∃ v, recent 0 key v (mem c1) ∧ validate_json v = Ok r) as (v & Hrec & Hv).
  { unfold get in Hget. rewrite Hk in Hget. cbn in Hget.
    destruct (dget (mem c) key) as [raw|] eqn:E.
    - apply res_bind_ok in Hget as (r' & Hr & [= -> <-]). exists raw. split; [|done].
      by apply dmove_to_end_recent.
    - destruct (db c) as [rows|]; [|done]. destruct (rows !! key) as [raw|]; [|done].
      apply res_bind_ok in Hget as (c' & Hset & (r' & Hr & [= -> <-])%res_bind_ok).
      exists raw. split; [|done]. unfold mem_set, dmem in Hset. rewrite E in Hset.
      assert (dget (dpop_first (mem c)) key = None) as E'.
      { destruct (dget (dpop_first (mem c)) key) as [w|] eqn:Ew; [|done].
        apply dget_dpop_first in Ew; [congruence|apply Hc]. }
      destruct (_ <=? _); [destruct (mem c) as [|x m]; [done|]|]; injection Hset as <-; cbn [mem with_mem].
      + rewrite dset_fresh by done. by eexists _, [].
      + rewrite dset_fresh by done. by eexists _, []. }
  eexists. unfold get. rewrite Hk. cbn.
  rewrite (recent_get (length ops) key v); [cbn; by rewrite Hv|apply Hc2|].
  apply (run_ops_recent ops 0 c1 key v c2); try done. cbn. by rewrite (get_max _ _ _ _ Hget).
Qed.

(** The request with other sampling controls and other extra fields. *)
Definition resampled (req : ChatCompletionRequest) (tp : option Q) (st : option json)
    (n : option Z) (u : option string) (extra : list (string * json)) : ChatCompletionRequest :=
  {| model := model req; messages := messages req; stream := stream req;
     stream_options := stream_options req; temperature := temperature req; top_p := tp;
     max_tokens := max_tokens req; stop := st; n_choices := n; user := u;
     conversation_key := conversation_key req; cache_prefs := cache_prefs req;
     model_extra := extra |}.

(** The key covers model, message roles and texts, temperature, token limit, tools
    and tenant, and nothing else: requests that differ in [top_p], [stop], [n] or any
    other extra field ([response_format], [seed], [tool_choice], ...) share a key, so
    one is answered with the other's response. *)
Theorem key_ignores_sampling req tp st n u extra :
  dget extra "tools" = dget (model_extra req) "tools" →
  dget extra "tenant" = dget (model_extra req) "tenant" →
  cache_key (resampled req tp st n u extra) = cache_key req.
Proof. intros Htools Htenant. unfold cache_key, normalize, normal_form, tenant_of. cbn. by rewrite Htools, Htenant. Qed.

(** Tenants never share an answer: under a collision-free hash, two requests with
    the same key have the same tenant, for tenant names without a colon. *)
Theorem tenants_isolated req1 req2 key :
  (∀ x y, sha256 x = sha256 y → x = y) →
  str_elem ":"%char (tenant_of req1) = false → str_elem ":"%char (tenant_of req2) = false →
  cache_key req1 = Ok key → cache_key req2 = Ok key →
  tenant_of req1 = tenant_of req2 ∧
  normalize req1 (tenant_of req1) = normalize req2 (tenant_of req2).
Proof.
  intros Hinj H1 H2 (b1 & Hb1 & [= Hk1])%res_bind_ok (b2 & Hb2 & [= Hk2])%res_bind_ok.
  rewrite Hb1, Hb2. rewrite <- Hk2 in Hk1. apply Hinj in Hk1.
  apply split_unique in Hk1 as [-> ->]; done.
Qed.
End cache.

(** ** Witnesses: a one-character hash, responses that are their own serialisation *)

Fixpoint xor_code (s : string) : N :=
  match s with EmptyString => 0%N | String c s => N.lxor (N_of_ascii c) (xor_code s) end.

Definition demo_hash (s : string) : string := String (ascii_of_N (xor_code s)) "".

Abbreviation demo_get := (get demo_hash (λ _, "1.0") (λ s : string, Ok s)).
Abbreviation demo_put := (put demo_hash (λ _, "1.0") (λ s : string, s)).
Abbreviation demo_run := (run_ops demo_hash (λ _, "1.0") (λ s : string, s) (λ s : string, Ok s)).
Abbreviation demo_key := (cache_key demo_hash (λ _, "1.0")).

Section demo.
Definition ask (q : string) : ChatCompletionRequest := request_of "gpt" [say "user" q].
Definition key_of (q : string) : string := match demo_key (ask q) with Ok k => k | Err e => e end.
Definition key_a : string := Eval vm_compute in key_of "a".
Definition demo_ops : list (CacheOp (Response:=string)) :=
  [OpPut (ask "a") "1"; OpPut (ask "b") "2"; OpGet (ask "a"); OpPut (ask "c") "3"].
Definition cache_after (ops : list (CacheOp (Response:=string))) : ExactCache :=
  match demo_run (new_cache true 2) ops with Ok c => c | Err _ => new_cache true 2 end.
Definition cache_old : ExactCache := Eval vm_compute in cache_after [OpPut (ask "a") "old"].
Definition cache_2 : ExactCache := Eval vm_compute in cache_after (firstn 2 demo_ops).
Definition cache_3 : ExactCache := Eval vm_compute in cache_after (firstn 3 demo_ops).
Definition cache_4 : ExactCache := Eval vm_compute in cache_after demo_ops.
End demo.

Lemma get_after_put_witness :
  ∃ c' c'', demo_put (new_cache true 2) (ask "a") "yes" = Ok c' ∧
    demo_get c' (ask "a") = Ok (Some "yes", c'').
Proof.
  apply (get_after_put demo_hash (λ _, "1.0") (λ s : string, s) (λ s : string, Ok s) (λ _, eq_refl)
           (new_cache true 2) (ask "a") "yes" key_a);
    [apply new_cache_inv; lia|vm_compute; reflexivity|vm_compute; reflexivity].
Defined.

Lemma put_keeps_old_answer_witness :
  ∃ c' c'', demo_put cache_old (ask "a") "new" = Ok c' ∧
    demo_get c' (ask "a") = Ok (Some "old", c'').
Proof.
  destruct (put_keeps_old_answer demo_hash (λ _, "1.0") (λ s : string, s) (λ s : string, Ok s)
    (λ _, eq_refl) cache_old (ask "a") "old" "new" key_a)
    as (c' & c'' & ? & ? & _).
  - split; [vm_compute; lia|vm_decide|vm_compute; lia].
  - vm_compute. reflexivity.
  - vm_compute. reflexivity.
  - by exists c', c''.
Defined.

Lemma get_sound_witness :
  (∃ req', OpPut req' "1" ∈ demo_ops ∧ demo_key req' = demo_key (ask "a")) ∧
  length (mem cache_4) ≤ 2.
Proof.
  destruct (get_sound demo_hash (λ _, "1.0") (λ s : string, s) (λ s : string, Ok s) (λ _, eq_refl)
    true 2 demo_ops cache_4 (ask "a") "1"
    (match demo_get cache_4 (ask "a") with Ok r => r.2 | Err _ => new_cache true 2 end))
    as (? & ? & _).
  - lia.
  - vm_compute. reflexivity.
  - vm_compute. reflexivity.
  - done.
Defined.

Lemma hit_survives_witness :
  ∃ c3, demo_get cache_4 (ask "a") = Ok (Some "1", c3).
Proof.
  apply (hit_survives demo_hash (λ _, "1.0") (λ s : string, s) (λ s : string, Ok s)
    cache_2 (ask "a") "1" cache_3
    [OpPut (ask "c") "3"] cache_4 key_a).
  - split; [vm_compute; lia|vm_decide|vm_compute; lia].
  - vm_compute. reflexivity.
  - vm_compute. reflexivity.
  - vm_compute. reflexivity.
  - split; [vm_compute; lia|vm_decide|vm_compute; lia].
  - intros op ->%list_elem_of_singleton. vm_compute. discriminate.
  - vm_compute. lia.
Defined.

Lemma key_ignores_sampling_witness :
  demo_key (resampled (ask "a") (Some (1 # 2)) None (Some 3%Z) None [("seed", JInt 7)])
  = demo_key (ask "a").
Proof.
  apply (key_ignores_sampling demo_hash (λ _, "1.0") (ask "a") (Some (1 # 2)) None (Some 3%Z) None
           [("seed", JInt 7)]); reflexivity.
Defined.

Lemma tenants_isolated_witness :
  tenant_of (ask "a") = "default" ∧ tenant_of (ask "a") = tenant_of (resampled (ask "a") None None None None []).
Proof.
  split; [reflexivity|].
  apply (tenants_isolated (λ s, s) (λ _, "1.0") (ask "a") (resampled (ask "a") None None None None [])
           (match cache_key (λ s, s) (λ _, "1.0") (ask "a") with Ok k => k | Err e => e end)); [done|vm_compute; reflexivity..].
Defined.
