(* ===== verification/Domain.v ===== *)
(** * Provider-inventory records ([benchmarking/domain.py], [benchmarking/providers/base.py])

    The immutable records discovery, storage and routing share, their stable ids, and the
    screen that keeps credentials out of retained metadata and error texts. *)

From S2P Require Import Prelude PyStr PyDict Regex Schemas Catalog ExactCache.

(** ** Providers and scopes *)

Inductive ProviderName : Type := openrouter | fireworks.

#[export] Instance ProviderName_eq_dec : EqDecision ProviderName.
Proof. solve_decision. Defined.

Definition provider_str (p : ProviderName) : string :=
  match p with
  | openrouter => "openrouter" | fireworks => "fireworks"
  end.

Lemma provider_str_inj p q : provider_str p = provider_str q → p = q.
Proof. by destruct p, q. Qed.

(** [Actor] *)
Record Actor := { actor_id : string; actor_org : option string; actor_kind : string }.

(** ** Records *)

Record OfferCapabilities := {
  cap_context_window : option Z;
  cap_max_output_tokens : option Z;
  cap_modalities : list string;
  cap_supported : list string;
  cap_residency : list string;
}.

Record OfferPricing := {
  offer_prompt : option Q;
  offer_completion : option Q;
  offer_request : option Q;
  offer_image : option Q;
}.

Record ModelIdentity := {
  mi_id : string;
  mi_vendor : string;
  mi_family : string;
  mi_release : option string;
  mi_reasoning : option string;
  mi_quantization : option string;
  mi_fine_tune : option string;
  mi_context : option string;
  mi_display : string;
  mi_provisional : bool;
  mi_created_at : Q;
}.

Record IdentityAliasDecision := {
  ad_id : string;
  ad_provider : string;
  ad_source_id : string;
  ad_identity : string;
  ad_method : string;
  ad_confidence : Q;
  ad_evidence : list (string * json);
  ad_reviewer : option string;
  ad_decided_at : Q;
  ad_superseded_at : option Q;
}.

Record ProviderOffer := {
  po_snapshot_offer_id : string;
  po_offer_id : string;
  po_identity : string;
  po_route : string;
  po_provider : ProviderName;
  po_upstream : string;
  po_base_url : string;
  po_scope : CredentialScopeRef;
  po_capabilities : OfferCapabilities;
  po_pricing : OfferPricing;
  po_revision : string;
  po_raw : list (string * json);
}.

Inductive InventoryStatus : Type := success | partial | failed | stale.

#[export] Instance InventoryStatus_eq_dec : EqDecision InventoryStatus.
Proof. solve_decision. Defined.

Record InventorySnapshot := {
  sn_id : string;
  sn_provider : ProviderName;
  sn_scope : CredentialScopeRef;
  sn_status : InventoryStatus;
  sn_started_at : Q;
  sn_completed_at : Q;
  sn_expires_at : Q;
  sn_pagination_complete : bool;
  sn_revision : string;
  sn_metadata : list (string * json);
  sn_error : option string;
  sn_offers : list ProviderOffer;
}.

Record RoutingCandidate := {
  c_snapshot : string;
  c_completed_at : Q;
  c_expires_at : Q;
  c_snapshot_offer_id : string;
  c_offer_id : string;
  c_identity_id : string;
  route_id : string;
  c_provider : ProviderName;
  upstream_model_id : string;
  c_base_url : string;
  c_scope : CredentialScopeRef;
  capabilities : OfferCapabilities;
  pricing : OfferPricing;
  c_revision : string;
  c_raw : list (string * json);
}.

(** [IdentityHint], [DiscoveredOffer] and [DiscoveryResult] of a provider adapter. *)
Record IdentityHint := {
  ih_vendor : string;
  ih_family : string;
  ih_release : option string;
  ih_reasoning : option string;
  ih_quantization : option string;
  ih_fine_tune : option string;
  ih_context : option string;
  ih_display : string;
  ih_canonical : option string;
  ih_hugging_face : option string;
}.

Record DiscoveredOffer := {
  do_provider : ProviderName;
  do_upstream : string;
  do_base_url : string;
  do_scope : CredentialScopeRef;
  do_identity : IdentityHint;
  do_capabilities : OfferCapabilities;
  do_pricing : OfferPricing;
  do_raw : list (string * json);
}.

Record DiscoveryResult := {
  dr_provider : ProviderName;
  dr_revision : string;
  dr_status : InventoryStatus;
  dr_complete : bool;
  dr_offers : list DiscoveredOffer;
  dr_metadata : list (string * json);
  dr_error : option string;
}.

(** ** Stable ids *)

Section ids.
(** [hashlib.sha256(text.encode()).hexdigest()[:24]] *)
Context (digest24 : string → string).

Definition stable_id (prefix : string) (parts : list string) : string :=
  prefix +:+ "_" +:+ digest24 (dumps (JList (JStr <$> parts))).

Definition stable_offer_id (p : ProviderName) (upstream : string) : string :=
  stable_id "offer" [provider_str p; upstream].

Definition stable_snapshot_offer_id (snapshot offer : string) : string :=
  stable_id "snapshot_offer" [snapshot; offer].
End ids.

(** [stable_route_id] *)
Definition stable_route_id (p : ProviderName) (upstream : string) : res string string :=
  if (upstream ≡? "") || negb (upstream ≡? strip upstream)
  then Err "upstream_model_id must be non-empty without surrounding whitespace"
  else Ok (provider_str p +:+ "/" +:+ upstream).

(** ** Secrets in metadata *)

Definition SENSITIVE_KEY_WORDS : list string :=
  ["auth"; "authorization"; "bearer"; "credential"; "key"; "password"; "secret"; "token"].

Definition SENSITIVE_KEY_FRAGMENTS : list string :=
  ["authorization"; "credential"; "password"; "secret"; "cipher"; "encrypt"].

Definition SAFE_METADATA_KEYS : list string := ["key_id"].

(** [re.sub(r"([a-z0-9])([A-Z])", r"\1_\2", s)] *)
Fixpoint camel_split (s : string) : string :=
  match s with
  | EmptyString => ""
  | String a s' =>
      match s' with
      | String b _ =>
          if (is_lower a || is_digit a) && is_upper b then String a (String "_" (camel_split s'))
          else String a (camel_split s')
      | EmptyString => String a ""
      end
  end.

Definition non_alnum : re := RChr (λ c, negb (is_lower c || is_digit c)).

Definition normalized_metadata_key (key : string) : string :=
  strip_of ["_"%char] (sub (rplus non_alnum) "_" (lower (camel_split (strip key)))).

Definition endswith (p s : string) : bool := startswith (rev_str p "") (rev_str s "").

Definition is_sensitive_metadata_key (key : string) : bool :=
  let normalized := normalized_metadata_key key in
  if normalized ∈? SAFE_METADATA_KEYS then false
  else
    let words := List.filter (λ w, negb (w ≡? "")) (split_on "_" normalized) in
    let compact := join "" words in
    existsb (λ w, w ∈? SENSITIVE_KEY_WORDS) words
    || existsb (λ f, contains f compact) SENSITIVE_KEY_FRAGMENTS
    || endswith "key" compact || endswith "token" compact || endswith "auth" compact.

Definition is_alpha (c : ascii) : bool := is_lower c || is_upper c.
Definition is_alnum (c : ascii) : bool := is_alpha c || is_digit c.

Fixpoint str_exists (f : ascii → bool) (s : string) : bool :=
  match s with EmptyString => false | String c s => f c || str_exists f s end.

Definition is_fireworks_credential (value : string) : bool :=
  let suffix := if startswith "fw_" value then str_drop 3 value else "" in
  (16 <=? str_len suffix) && str_all is_alnum suffix && str_exists is_lower suffix
  && str_exists is_upper suffix && str_exists is_digit suffix.

Definition token_char (c : ascii) : bool := is_alnum c || (c ∈? ["_"; "-"]%char).

(** [_SECRET_VALUE_PATTERNS] *)
Definition BEARER_RE : re :=
  seqs [RBound; lit_i "bearer"; rplus rspace; rplus (RChr (λ c, negb (is_space c)))].

Definition SK_RE : re :=
  seqs [RBound; lit_i "sk"; one_of ["-"; "_"]%char; RChr is_alnum; rep_min 5 (RChr token_char)].

Definition FERNET_RE : re := seqs [RBound; lit "gAAAA"; rep_min 12 (RChr token_char)].

Definition SECRET_VALUE_PATTERNS : list re := [BEARER_RE; SK_RE; FERNET_RE].

Definition FIREWORKS_VALUE_RE : re :=
  seqs [RBound; lit "fw_"; rep_min 16 (RChr (λ c, is_alnum c || (c ≡? "_"%char))); RBound].

Definition contains_secret_value (value : string) : bool :=
  existsb (λ r, search r value) SECRET_VALUE_PATTERNS
  || existsb is_fireworks_credential (findall FIREWORKS_VALUE_RE value).

(** [_assert_safe_metadata]; the error names the path of the first offender. *)
Definition secret_key_error (path : string) : string := "secret-bearing metadata key at " +:+ path.
Definition secret_value_error (path : string) : string := "secret-bearing metadata value at " +:+ path.

Fixpoint assert_safe_metadata (value : json) (path : string) : res string unit :=
  match value with
  | JObj d =>
      (fix items (d : list (string * json)) : res string unit :=
         match d with
         | [] => Ok tt
         | (key, child) :: d =>
             let path' := path +:+ "." +:+ key in
             if is_sensitive_metadata_key key then Err (secret_key_error path')
             else try! _ := assert_safe_metadata child path' in items d
         end) d
  | JList l =>
      (fix items (index : nat) (l : list json) : res string unit :=
         match l with
         | [] => Ok tt
         | child :: l =>
             try! _ := assert_safe_metadata child (path +:+ "[" +:+ str_of_nat index +:+ "]") in
             items (S index) l
         end) 0 l
  | JStr s => if contains_secret_value s then Err (secret_value_error path) else Ok tt
  | _ => Ok tt
  end.

(** ** Error summaries *)

(** [pat.sub(lambda m: f(m.group()), s)] *)
Fixpoint sub_fun_from (fuel : nat) (r : re) (f : string → string) (p : pos) : string :=
  match fuel with
  | O => p.2
  | S n =>
      match p.2 with
      | EmptyString => ""
      | String c s =>
          match ends r p with
          | q :: _ => if shorter q p then f (between p q) +:+ sub_fun_from n r f q
                      else String c (sub_fun_from n r f (Some c, s))
          | [] => String c (sub_fun_from n r f (Some c, s))
          end
      end
  end.

Definition sub_fun (r : re) (f : string → string) (s : string) : string :=
  sub_fun_from (S (str_len s)) r f (None, s).

(** The substitution that keeps the group of [pre (g) post]. *)
Fixpoint sub_group_from (fuel : nat) (pre g post : re) (f : string → string) (p : pos) : string :=
  match fuel with
  | O => p.2
  | S n =>
      match p.2 with
      | EmptyString => ""
      | String c s =>
          match flat_map (λ q, flat_map (λ r, (λ e, (between q r, e)) <$> ends post r) (ends g q)) (ends pre p) with
          | (m, q) :: _ => if shorter q p then f m +:+ sub_group_from n pre g post f q
                           else String c (sub_group_from n pre g post f (Some c, s))
          | [] => String c (sub_group_from n pre g post f (Some c, s))
          end
      end
  end.

Definition sub_group (pre g post : re) (f : string → string) (s : string) : string :=
  sub_group_from (S (str_len s)) pre g post f (None, s).

(** The names [_ERROR_ASSIGNMENT_RE] redacts the value of. *)
Definition dash_under : re := ropt (one_of ["-"; "_"]%char).

Definition ASSIGNED_NAME_RE : re :=
  alts [lit_i "authorization"; seqs [lit_i "access"; dash_under; lit_i "token"];
        seqs [lit_i "api"; dash_under; lit_i "key"];
        seqs [lit_i "credential"; ropt (seqs [dash_under; rplus (RChr is_alnum)])];
        seqs [lit_i "encrypted"; dash_under; lit_i "key"]; seqs [lit_i "cipher"; ropt (lit_i "text")];
        lit_i "password"; lit_i "secret"; lit_i "token"].

Definition ASSIGNMENT_TAIL_RE : re :=
  seqs [RStar rspace; one_of [":"; "="]%char; RStar rspace;
        rplus (RChr (λ c, negb (is_space c) && negb (c ∈? [";"; ","]%char)))].

Definition REDACTED : string := "[REDACTED]".
Definition MAX_ERROR_SUMMARY_LENGTH : nat := 512.

Definition sanitize_error_summary (value : string) : string :=
  let s := fold_left (λ s r, sub r REDACTED s) SECRET_VALUE_PATTERNS value in
  let s := sub_fun FIREWORKS_VALUE_RE (λ m, if is_fireworks_credential m then REDACTED else m) s in
  let s := sub_group RBound ASSIGNED_NAME_RE ASSIGNMENT_TAIL_RE (λ m, m +:+ "=" +:+ REDACTED) s in
  str_take MAX_ERROR_SUMMARY_LENGTH s.

(** ** Validated records *)

(** The longest prefix of characters with a property, and the rest. *)
Fixpoint span (f : ascii → bool) (s : string) : string * string :=
  match s with
  | String c s' => if f c then let '(a, b) := span f s' in (String c a, b) else ("", s)
  | EmptyString => ("", "")
  end.

Fixpoint str_filter (f : ascii → bool) (s : string) : string :=
  match s with
  | String c s' => if f c then String c (str_filter f s') else str_filter f s'
  | EmptyString => ""
  end.

(** [urllib.parse.urlsplit] *)
Record SplitUrl := { u_scheme : string; u_netloc : string; u_path : string; u_query : string; u_fragment : string }.

Definition scheme_char (c : ascii) : bool := is_alnum c || (c ∈? ["+"; "-"; "."]%char).

Definition has_char (c : ascii) (s : string) : bool := str_exists (λ x, x ≡? c) s.

(** What follows the first [c], [""] without one. *)
Definition after_char (c : ascii) (s : string) : string := str_drop 1 (span (λ x, negb (x ≡? c)) s).2.

(** The content of a bracketed host is checked by [ipaddress]. *)
Definition urlsplit (ip_host : string → bool) (url : string) : option SplitUrl :=
  let url := (span (λ c, code c <=? 32) url).2 in
  let url := str_filter (λ c, negb ((code c =? 9) || (code c =? 10) || (code c =? 13))) url in
  let '(pre, rest) := span (λ c, negb (c ≡? ":"%char)) url in
  let '(scheme, url) :=
    match rest, pre with
    | String _ rest', String c _ =>
        if is_alpha c && str_all scheme_char pre then (lower pre, rest') else ("", url)
    | _, _ => ("", url)
    end in
  let '(netloc, url) :=
    if startswith "//" url then span (λ c, negb (c ∈? ["/"; "?"; "#"]%char)) (str_drop 2 url) else ("", url) in
  if negb (eqb (has_char "[" netloc) (has_char "]" netloc)) || (has_char "[" netloc && negb (ip_host netloc))
  then None
  else
    let '(body, _) := span (λ c, negb (c ≡? "#"%char)) url in
    Some {| u_scheme := scheme; u_netloc := netloc; u_path := (span (λ c, negb (c ≡? "?"%char)) body).1;
            u_query := after_char "?" body; u_fragment := after_char "#" url |}.

(** [netloc.rpartition("@")[0]]: user name and password, [""] without an at sign. *)
Definition userinfo (netloc : string) : string :=
  rev_str (after_char "@" (rev_str netloc "")) "".

(** [base_url_cannot_embed_credentials]; [None] is a validation error. *)
Definition check_base_url (ip_host : string → bool) (value : string) : option string :=
  match urlsplit ip_host value with
  | None => None
  | Some u =>
      if negb (u_scheme u ∈? ["http"; "https"]) || (u_netloc u ≡? "") then None
      else
        let '(username, _) := span (λ c, negb (c ≡? ":"%char)) (userinfo (u_netloc u)) in
        let password := after_char ":" (userinfo (u_netloc u)) in
        if negb (username ≡? "") || negb (password ≡? "") || negb (u_query u ≡? "") || negb (u_fragment u ≡? "")
        then None
        else Some (rstrip_char "/" value)
  end.

Definition opt_all {A} (f : A → bool) (o : option A) : bool := match o with Some a => f a | None => true end.

Definition Qnonneg (q : Q) : bool := Qleb 0 q.

Definition check_scope (s : CredentialScopeRef) : bool := negb (scope_id s ≡? "").

Definition check_capabilities (c : OfferCapabilities) : bool :=
  opt_all (λ z, (0 <? z)%Z) (cap_context_window c) && opt_all (λ z, (0 <? z)%Z) (cap_max_output_tokens c).

Definition check_pricing (p : OfferPricing) : bool :=
  opt_all Qnonneg (offer_prompt p) && opt_all Qnonneg (offer_completion p) && opt_all Qnonneg (offer_request p)
  && opt_all Qnonneg (offer_image p).

(** [ModelIdentity.model_validate] *)
Definition check_identity (i : ModelIdentity) : bool :=
  negb (mi_id i ≡? "") && negb (mi_vendor i ≡? "") && negb (mi_family i ≡? "") && negb (mi_display i ≡? "").

(** [IdentityAliasDecision.model_validate] *)
Definition check_decision (d : IdentityAliasDecision) : bool :=
  negb (ad_id d ≡? "") && negb (ad_provider d ≡? "") && negb (ad_source_id d ≡? "") && negb (ad_identity d ≡? "")
  && negb (ad_method d ≡? "") && Qleb 0 (ad_confidence d) && Qleb (ad_confidence d) 1
  && is_ok (assert_safe_metadata (JObj (ad_evidence d)) "evidence")
  && opt_all (λ t, Qleb (ad_decided_at d) t) (ad_superseded_at d).

Definition with_base_url (u : string) (o : ProviderOffer) : ProviderOffer :=
  {| po_snapshot_offer_id := po_snapshot_offer_id o; po_offer_id := po_offer_id o; po_identity := po_identity o;
     po_route := po_route o; po_provider := po_provider o; po_upstream := po_upstream o; po_base_url := u;
     po_scope := po_scope o; po_capabilities := po_capabilities o; po_pricing := po_pricing o;
     po_revision := po_revision o; po_raw := po_raw o |}.

(** [ProviderOffer.model_validate]: [ids_match_provider_route] raises on an unusable id too. *)
Definition check_offer (digest24 : string → string) (ip_host : string → bool) (o : ProviderOffer)
    : option ProviderOffer :=
  match check_base_url ip_host (po_base_url o) with
  | None => None
  | Some url =>
      if check_scope (po_scope o) && check_capabilities (po_capabilities o) && check_pricing (po_pricing o)
         && is_ok (assert_safe_metadata (JObj (po_raw o)) "raw_metadata")
         && (po_offer_id o ≡? stable_offer_id digest24 (po_provider o) (po_upstream o))
         && match stable_route_id (po_provider o) (po_upstream o) with Ok r => po_route o ≡? r | Err _ => false end
      then Some (with_base_url url o) else None
  end.

Definition with_error (e : option string) (s : InventorySnapshot) : InventorySnapshot :=
  {| sn_id := sn_id s; sn_provider := sn_provider s; sn_scope := sn_scope s; sn_status := sn_status s;
     sn_started_at := sn_started_at s; sn_completed_at := sn_completed_at s; sn_expires_at := sn_expires_at s;
     sn_pagination_complete := sn_pagination_complete s; sn_revision := sn_revision s; sn_metadata := sn_metadata s;
     sn_error := e; sn_offers := sn_offers s |}.

(** [InventorySnapshot.model_validate], the offers it carries apart. *)
Definition check_snapshot (s : InventorySnapshot) : option InventorySnapshot :=
  if negb (sn_id s ≡? "") && check_scope (sn_scope s) && negb (sn_revision s ≡? "")
     && is_ok (assert_safe_metadata (JObj (sn_metadata s)) "source_metadata")
     && Qleb (sn_started_at s) (sn_completed_at s) && Qleb (sn_completed_at s) (sn_expires_at s)
     && (negb (sn_status s ≡? success) || sn_pagination_complete s)
  then Some (with_error (match sn_error s with Some e => Some (sanitize_error_summary e) | None => None end) s)
  else None.

(** ** Facts *)

Example base_urls :
  check_base_url (λ _, true) <$> ["https://openrouter.ai/api/v1/"; "http://u:p@h/x"; "http://@h/x"; "ftp://h"; "https://h?x=1";
                                 "https://h#f"; "https:/h"; "HTTPS://h"; "http://u@h@k"; "https://[::1"]
  = [Some "https://openrouter.ai/api/v1"; None; Some "http://@h/x"; None; None; None; None; Some "HTTPS://h"; None; None].
Proof. vm_compute. reflexivity. Qed.


(** Induction on JSON values, through lists and objects. *)
Lemma json_ind_nested (P : json → Prop) :
  P JNull → (∀ b, P (JBool b)) → (∀ z, P (JInt z)) → (∀ q p, P (JFloat q p)) → (∀ s, P (JStr s)) →
  (∀ l, Forall P l → P (JList l)) → (∀ d, Forall (λ kv, P kv.2) d → P (JObj d)) → ∀ v, P v.
Proof.
  intros H1 H2 H3 H4 H5 Hl Hd. fix IH 1. intros [|b|z|q p|s|l|d];
    [exact H1|apply H2|apply H3|apply H4|apply H5|..].
  - apply Hl. induction l as [|x l IHl]; constructor; [apply IH|exact IHl].
  - apply Hd. induction d as [|[k x] d IHd]; constructor; [apply IH|exact IHd].
Qed.

(** Somewhere below, a key names a secret or a text carries one. *)
Inductive Offends : json → Prop :=
  | OffKey d k v : (k, v) ∈ d → is_sensitive_metadata_key k = true → Offends (JObj d)
  | OffEntry d k v : (k, v) ∈ d → Offends v → Offends (JObj d)
  | OffItem l v : v ∈ l → Offends v → Offends (JList l)
  | OffText s : contains_secret_value s = true → Offends (JStr s).

Lemma res_seq_ok {E A B} (m : res E A) (k : res E B) :
  is_ok (res_bind m (λ _, k)) = is_ok m && is_ok k.
Proof. by destruct m. Qed.

(** nothing secret-shaped is retained: metadata passes the screen exactly when no key
    at any depth names a credential and no text at any depth carries one. *)
Theorem safe_metadata_exact v path : is_ok (assert_safe_metadata v path) = false ↔ Offends v.
Proof.
  revert path. induction v as [|b|z|q p|s|l IH|d IH] using json_ind_nested; intros path;
    try (cbn; split; [done|by inversion 1]).
  - cbn. destruct (contains_secret_value s) eqn:E; split; try done; [by constructor|].
    inversion 1. congruence.
  - cbn [assert_safe_metadata]. generalize 0 as i.
    assert (∀ i, is_ok ((fix items (index : nat) (l : list json) : res string unit :=
         match l with
         | [] => Ok tt
         | child :: l =>
             try! _ := assert_safe_metadata child (path +:+ "[" +:+ str_of_nat index +:+ "]") in
             items (S index) l
         end) i l) = false ↔ ∃ v, v ∈ l ∧ Offends v) as H.
    { induction IH as [|x l Hx _ IHl]; intros i.
      - split; [done|]. by intros (v & ?%elem_of_nil & _).
      - rewrite res_seq_ok, andb_false_iff, Hx, IHl. setoid_rewrite elem_of_cons. naive_solver. }
    intros i. rewrite H. split; [intros (v & ? & ?); by econstructor|]. inversion 1; eauto.
  - cbn [assert_safe_metadata].
    assert (is_ok ((fix items (d : list (string * json)) : res string unit :=
         match d with
         | [] => Ok tt
         | (key, child) :: d =>
             let path' := path +:+ "." +:+ key in
             if is_sensitive_metadata_key key then Err (secret_key_error path')
             else try! _ := assert_safe_metadata child path' in items d
         end) d) = false ↔ ∃ k v, (k, v) ∈ d ∧ (is_sensitive_metadata_key k = true ∨ Offends v)) as H.
    { induction IH as [|[k x] d Hx _ IHd].
      - split; [done|]. by intros (k & v & ?%elem_of_nil & _).
      - cbn beta iota zeta. destruct (is_sensitive_metadata_key k) eqn:Ek.
        { split; [|done]. intros _. exists k, x. split; [left|auto]. }
        rewrite res_seq_ok, andb_false_iff, Hx, IHd. setoid_rewrite elem_of_cons. split.
        + intros [?|(k' & v & ? & ?)]; [exists k, x|exists k', v]; auto.
        + intros (k' & v & [ [= -> ->]|Hv] & [?|?]); [congruence|by left|eauto 6..]. }
    rewrite H. split.
    + intros (k & v & ? & [?|?]); [by eapply OffKey|by eapply OffEntry].
    + inversion 1; subst; eauto 10.
Qed.

(** The keys and values the screen is made for. *)
Example sensitive_keys :
  is_sensitive_metadata_key <$> ["apiKey"; "X-Auth-Token"; "key_id"; "Key-Id"; "monkey"; "context_length"; "cipherText"]
  = [true; true; false; false; true; false; true].
Proof. vm_compute. reflexivity. Qed.

Example secret_values :
  contains_secret_value <$> ["Bearer abc"; "sk-or-v1-123456"; "task-force"; "fw_Abcdefgh12345678";
                             "fw_abcdefgh12345678"; "plain"]
  = [true; true; false; true; false; false].
Proof. vm_compute. reflexivity. Qed.

Example summary_redacted :
  sanitize_error_summary "401: api_key = hunter2; Authorization: Bearer abcdef, retry"
  = "401: api_key=[REDACTED]; Authorization=[REDACTED] retry".
Proof. vm_compute. reflexivity. Qed.

Lemma sanitize_error_summary_bounded v : str_len (sanitize_error_summary v) ≤ MAX_ERROR_SUMMARY_LENGTH.
Proof. apply str_len_take. Qed.
