(* ===== verification/UnionFind.v ===== *)
(** * Union-find with path halving ([find] and [union] of [benchmarking/identity.py])

    The parent list the reconciler keeps, its two closures, and their correctness: [find]
    always reaches the root within as many turns as there are nodes and changes no node's
    root, [union] joins exactly the two trees it is given. *)

From S2P Require Import Prelude.

(** [parent[i]]; the indices of the program are in range. *)
Definition up (p : list nat) (i : nat) : nat := match p !! i with Some j => j | None => i end.

(** [find]: the loop halves the path as it climbs. *)
Fixpoint find_fuel (fuel : nat) (p : list nat) (i : nat) : list nat * nat :=
  match fuel with
  | O => (p, i)
  | S n =>
      if up p i =? i then (p, i)
      else let k := up p (up p i) in find_fuel n (<[i := k]> p) k
  end.

Definition find (p : list nat) (i : nat) : list nat * nat := find_fuel (length p) p i.

(** [union] *)
Definition union (p : list nat) (left right : nat) : list nat :=
  let '(p, left_root) := find p left in
  let '(p, right_root) := find p right in
  if left_root =? right_root then p else <[right_root := left_root]> p.

(** ** Roots *)

(** [i] reaches the root [r] in [n] steps. *)
Inductive Climb (p : list nat) : nat → nat → nat → Prop :=
  | ClimbRoot i : up p i = i → Climb p i i 0
  | ClimbUp i r n : up p i ≠ i → Climb p (up p i) r n → Climb p i r (S n).

Definition Root (p : list nat) (i r : nat) : Prop := ∃ n, Climb p i r n.

(** A forest: parents are in range and climb a height. *)
Record forest (p : list nat) (h : nat → nat) : Prop := {
  fo_range i : i < length p → up p i < length p;
  fo_climb i : up p i ≠ i → h i < h (up p i);
}.

Lemma up_out p i : length p ≤ i → up p i = i.
Proof. intros H. unfold up. by rewrite lookup_ge_None_2. Qed.

Lemma up_insert_eq p i v : i < length p → up (<[i := v]> p) i = v.
Proof. intros H. unfold up. by rewrite list_lookup_insert_eq. Qed.

Lemma up_insert_ne p i v x : x ≠ i → up (<[i := v]> p) x = up p x.
Proof. intros H. unfold up. by rewrite list_lookup_insert_ne. Qed.

Lemma Climb_det p i r1 n1 r2 n2 : Climb p i r1 n1 → Climb p i r2 n2 → r1 = r2 ∧ n1 = n2.
Proof.
  intros H. revert r2 n2. induction H as [i Hi|i r n Hi _ IH]; intros r2 n2 H2; inversion H2; subst; try done.
  by edestruct IH as [-> ->].
Qed.

Lemma Root_det p i r1 r2 : Root p i r1 → Root p i r2 → r1 = r2.
Proof. intros [n1 H1] [n2 H2]. by destruct (Climb_det _ _ _ _ _ _ H1 H2). Qed.

Lemma Climb_root p i r n : Climb p i r n → up p r = r.
Proof. by induction 1. Qed.

Section forest.
Context (p : list nat) (h : nat → nat) (Hf : forest p h).

Lemma Climb_height i r n : Climb p i r n → h i ≤ h r.
Proof using Hf.
  induction 1 as [|i r n Hi _ IH]; [done|]. pose proof (fo_climb _ _ Hf i Hi). lia.
Qed.

(** A path never meets a node twice, so it is shorter than the list. *)
Lemma Climb_path i r n :
  i < length p → Climb p i r n →
  ∃ l, length l = S n ∧ NoDup l ∧ (∀ x, x ∈ l → x < length p ∧ h i ≤ h x) ∧ r < length p.
Proof using Hf.
  intros Hi H. induction H as [i Hr|i r n Hne _ IH].
  - exists [i]. split_and!; [done|apply NoDup_singleton| |done]. by intros x ->%list_elem_of_singleton.
  - pose proof (fo_climb _ _ Hf i Hne) as Hh. destruct IH as (l & Hl & Hnd & Hx & Hr).
    { by apply (fo_range _ _ Hf). }
    exists (i :: l). split_and!; [cbn; lia| | |done].
    + constructor; [|done]. intros Hin. apply Hx in Hin. lia.
    + intros x [->|Hin]%elem_of_cons; [done|]. apply Hx in Hin. lia.
Qed.

Lemma NoDup_below (l : list nat) m : NoDup l → (∀ x, x ∈ l → x < m) → length l ≤ m.
Proof.
  intros Hnd Hlt. trans (length (seq 0 m)); [|by rewrite length_seq]. apply NoDup_incl_length; [by apply NoDup_ListNoDup|].
  intros x Hx. apply in_seq. apply list_elem_of_In in Hx. apply Hlt in Hx. lia.
Qed.

Lemma Climb_short i r n : i < length p → Climb p i r n → n < length p ∧ r < length p.
Proof using Hf.
  intros Hi H. destruct (Climb_path i r n Hi H) as (l & Hl & Hnd & Hx & Hr). split; [|done].
  pose proof (NoDup_below l (length p) Hnd (λ x Hin, proj1 (Hx x Hin))). lia.
Qed.

Lemma root_exists i : i < length p → ∃ r, Root p i r.
Proof using Hf.
  intros Hi. remember (list_max (h <$> seq 0 (length p)) - h i) as m eqn:Hm.
  revert i Hi Hm. induction m as [m IH] using lt_wf_ind. intros i Hi Hm.
  destruct (decide (up p i = i)) as [E|E]; [exists i, 0; by constructor|].
  pose proof (fo_climb _ _ Hf i E) as Hh. pose proof (fo_range _ _ Hf i Hi) as Hr.
  assert (∀ x, x < length p → h x ≤ list_max (h <$> seq 0 (length p))) as Hmax.
  { intros x Hx. pose proof (proj1 (list_max_le (h <$> seq 0 (length p)) _) (Nat.le_refl _)) as Hall.
    rewrite Forall_forall in Hall. apply Hall, list_elem_of_fmap. exists x. split; [done|].
    apply list_elem_of_In, in_seq. lia. }
  pose proof (Hmax i Hi). pose proof (Hmax (up p i) Hr).
  edestruct (IH (list_max (h <$> seq 0 (length p)) - h (up p i))) as (r & n & Hc); [lia|exact Hr|done|].
  exists r, (S n). by constructor.
Qed.

(** ** Halving one node *)

Definition halve (i : nat) : list nat := <[i := up p (up p i)]> p.

Lemma length_halve i : length (halve i) = length p.
Proof. apply length_insert. Qed.

Lemma halve_forest i : i < length p → forest (halve i) h.
Proof using Hf.
  intros Hi. unfold halve. split.
  - intros x. rewrite length_insert. intros Hx. destruct (decide (x = i)) as [->|Hne].
    + rewrite up_insert_eq by done. by do 2 apply (fo_range _ _ Hf).
    + rewrite up_insert_ne by done. by apply (fo_range _ _ Hf).
  - intros x. destruct (decide (x = i)) as [->|Hne].
    + rewrite up_insert_eq by done. intros H.
      destruct (decide (up p i = i)) as [E|E]; [by rewrite !E in H|].
      pose proof (fo_climb _ _ Hf i E). destruct (decide (up p (up p i) = up p i)) as [E'|E']; [by rewrite E'|].
      pose proof (fo_climb _ _ Hf (up p i) E'). lia.
    + rewrite up_insert_ne by done. apply (fo_climb _ _ Hf).
Qed.

Lemma Climb_halve i x r n :
  i < length p → Climb p x r n → ∃ m, m ≤ n ∧ Climb (halve i) x r m.
Proof using Hf.
  intros Hi. revert x. induction n as [n IH] using lt_wf_ind. intros x H.
  destruct (decide (x = i)) as [->|Hne].
  - inversion H as [? Hr|? ? n' Hne H1]; subst.
    + exists 0. split; [done|]. constructor. unfold halve. by rewrite up_insert_eq, !Hr by done.
    + inversion H1 as [? Hr|? ? n'' Hne' H2]; subst.
      * exists 1. split; [lia|]. constructor; unfold halve; rewrite up_insert_eq, Hr by done; [done|].
        constructor. rewrite up_insert_ne by done. done.
      * destruct (IH n'' ltac:(lia) _ H2) as (m & Hm & Hc). exists (S m). split; [lia|].
        constructor; unfold halve; rewrite up_insert_eq by done; [|done].
        pose proof (fo_climb _ _ Hf i Hne). pose proof (fo_climb _ _ Hf _ Hne'). intros E. rewrite E in *. lia.
  - inversion H as [? Hr|? ? n' Hu H1]; subst.
    + exists 0. split; [done|]. constructor. unfold halve. by rewrite up_insert_ne.
    + destruct (IH n' ltac:(lia) _ H1) as (m & Hm & Hc). exists (S m). split; [lia|].
      constructor; unfold halve; by rewrite up_insert_ne.
Qed.

Lemma Root_halve i x r : i < length p → x < length p → Root (halve i) x r ↔ Root p x r.
Proof using Hf.
  intros Hi Hx. assert (∀ r, Root p x r → Root (halve i) x r) as H.
  { intros r' [n Hc]. destruct (Climb_halve i x r' n Hi Hc) as (m & _ & ?). by exists m. }
  split; [|apply H]. intros Hr. destruct (root_exists x Hx) as (r' & Hr').
  by rewrite (Root_det _ _ _ _ Hr (H _ Hr')).
Qed.
End forest.

(** ** [find] *)

Lemma find_fuel_ok fuel p h i r n :
  forest p h → i < length p → Climb p i r n → n < fuel →
  let '(p', r') := find_fuel fuel p i in
  r' = r ∧ length p' = length p ∧ forest p' h ∧ ∀ x s, x < length p → Root p' x s ↔ Root p x s.
Proof.
  revert p i n. induction fuel as [|fuel IH]; intros p i n Hf Hi Hc Hn; [lia|]. cbn [find_fuel].
  destruct (Nat.eqb_spec (up p i) i) as [E|E].
  - inversion Hc; subst; [|done]. done.
  - set (k := up p (up p i)). change (<[i := k]> p) with (halve p i).
    pose proof (halve_forest p h Hf i Hi) as Hf'.
    assert (k < length p) as Hk by by do 2 apply (fo_range _ _ Hf).
    assert (∃ m, m < n ∧ Climb p k r m) as (m & Hm & Hck).
    { inversion Hc as [|? ? n' _ H1]; subst; [done|]. inversion H1 as [? Hr|? ? n'' _ H2]; subst.
      - exists 0. split; [lia|]. unfold k. rewrite Hr. by constructor.
      - exists n''. split; [lia|done]. }
    destruct (Climb_halve p h Hf i k r m Hi Hck) as (m' & Hm' & Hc').
    specialize (IH (halve p i) k m' Hf'). rewrite length_halve in IH.
    specialize (IH Hk Hc' ltac:(lia)). destruct (find_fuel fuel (halve p i) k) as [p' r'].
    destruct IH as (-> & Hl & Hf'' & Hroot). split_and!; [done|done|done|].
    intros x s Hx. rewrite Hroot by done. by apply (Root_halve p h).
Qed.

(** [find] reaches the root whatever the shape of the forest, and keeps every root. *)
Lemma find_ok p h i :
  forest p h → i < length p →
  let '(p', r) := find p i in
  Root p i r ∧ r < length p ∧ length p' = length p ∧ forest p' h ∧ ∀ x s, x < length p → Root p' x s ↔ Root p x s.
Proof.
  intros Hf Hi. destruct (root_exists p h Hf i Hi) as (r & n & Hc).
  destruct (Climb_short p h Hf i r n Hi Hc) as [Hn Hr]. unfold find.
  pose proof (find_fuel_ok (length p) p h i r n Hf Hi Hc Hn) as H. destruct (find_fuel _ p i) as [p' r'].
  destruct H as (-> & ? & ? & ?). split; [by exists n|done].
Qed.

(** ** [union] *)

Definition same_root (p : list nat) (x y : nat) : Prop := ∃ r, Root p x r ∧ Root p y r.

(** Linking the root [b] below the root [a] moves exactly the nodes of [b]. *)
Lemma link_ok p h a b :
  forest p h → a < length p → b < length p → up p a = a → up p b = b → a ≠ b →
  let p' := <[b := a]> p in
  (∃ h', forest p' h') ∧
  ∀ x r, x < length p → Root p' x r ↔ (Root p x r ∧ r ≠ b) ∨ (Root p x b ∧ r = a).
Proof.
  intros Hf Ha Hb Hra Hrb Hab p'.
  assert (∀ x, up p' x = if decide (x = b) then a else up p x) as Hup.
  { intros x. unfold p'. destruct (decide (x = b)) as [->|?]; [by apply up_insert_eq|by apply up_insert_ne]. }
  assert (Climb p' a a 0) as Hca by (constructor; rewrite Hup; by rewrite decide_False).
  assert (∀ x r n, Climb p x r n → Root p' x (if decide (r = b) then a else r)) as Hfwd.
  { intros x r n H. induction H as [x Hx|x r n Hx _ [m Hm] ].
    - destruct (decide (x = b)) as [->|Hne].
      + exists 1. constructor; rewrite Hup, decide_True by done; [done|exact Hca].
      + exists 0. constructor. rewrite Hup. by rewrite decide_False.
    - assert (x ≠ b) as Hne by (intros ->; done).
      exists (S m). constructor; rewrite Hup, decide_False by done; done. }
  assert (∀ x, x < length p → Root p x (find p x).2) as Hfind.
  { intros x Hx. pose proof (find_ok p h x Hf Hx) as H. destruct (find p x). by destruct H. }
  split.
  - exists (λ x, h x + if (find p x).2 =? a then S (h b) else 0). split.
    + intros x. unfold p'. rewrite length_insert. intros Hx. fold p'. rewrite Hup.
      destruct (decide (x = b)); [done|by apply (fo_range _ _ Hf)].
    + intros x. rewrite Hup. destruct (decide (x = b)) as [->|Hne].
      * intros _. pose proof (Hfind b Hb) as Hrt. pose proof (Hfind a Ha) as Hrt'.
        assert (Root p b b) as Hbb by (exists 0; by constructor).
        assert (Root p a a) as Haa by (exists 0; by constructor).
        rewrite (Root_det _ _ _ _ Hrt Hbb), (Root_det _ _ _ _ Hrt' Haa), Nat.eqb_refl.
        destruct (Nat.eqb_spec b a); [by subst|lia].
      * intros Hx. pose proof (fo_climb _ _ Hf x Hx) as Hh.
        assert (x < length p) as Hlt.
        { destruct (decide (x < length p)); [done|]. destruct Hx. apply up_out. lia. }
        pose proof (Hfind x Hlt) as H1. pose proof (Hfind (up p x) (fo_range _ _ Hf x Hlt)) as [n H2].
        assert (Root p x (find p (up p x)).2) as H3 by (exists (S n); by constructor).
        rewrite (Root_det _ _ _ _ H1 H3). lia.
  - intros x r Hx. destruct (root_exists p h Hf x Hx) as (s & n & Hs).
    pose proof (Hfwd _ _ _ Hs) as H'. split.
    + intros Hr. rewrite (Root_det _ _ _ _ Hr H'). destruct (decide (s = b)) as [->|?].
      * right. split; [by exists n|done].
      * left. split; [by exists n|done].
    + intros [ [Hr Hne]|[Hr ->] ]; rewrite (Root_det p x s _ (ex_intro _ n Hs) Hr) in H'.
      * by rewrite decide_False in H'.
      * by rewrite decide_True in H'.
Qed.

(** [union] keeps a forest and joins exactly the trees of its two arguments. *)
Lemma union_ok p h l r :
  forest p h → l < length p → r < length p →
  length (union p l r) = length p ∧ (∃ h', forest (union p l r) h') ∧
  ∀ x y, x < length p → y < length p →
    same_root (union p l r) x y ↔
    same_root p x y ∨ (same_root p x l ∧ same_root p r y) ∨ (same_root p x r ∧ same_root p l y).
Proof.
  intros Hf Hl Hr. unfold union. pose proof (find_ok p h l Hf Hl) as H1.
  destruct (find p l) as [p1 a]. destruct H1 as (Hra & Ha & Hlen1 & Hf1 & Heq1).
  pose proof (find_ok p1 h r Hf1 ltac:(lia)) as H2.
  destruct (find p1 r) as [p2 b]. destruct H2 as (Hrb & Hb & Hlen2 & Hf2 & Heq2).
  apply Heq1 in Hrb; [|done].
  assert (∀ x s, x < length p → Root p2 x s ↔ Root p x s) as Heq.
  { intros x s Hx. rewrite Heq2 by lia. by apply Heq1. }
  assert (∀ x y s, x < length p → Root p y s → same_root p x y ↔ Root p x s) as Hsame.
  { intros x y s Hx Hy. split.
    - intros (t & Hxt & Hyt). by rewrite <- (Root_det _ _ _ _ Hyt Hy).
    - intros ?. by exists s. }
  assert (∀ x y, same_root p x y ↔ same_root p y x) as Hsym
    by (intros x y; split; intros (s & ? & ?); by exists s).
  destruct (Nat.eqb_spec a b) as [->|Hab].
  - split_and!; [lia|by exists h|]. intros x y Hx Hy.
    assert (same_root p2 x y ↔ same_root p x y) as ->.
    { unfold same_root. split; intros (s & Hs1 & Hs2); exists s; by rewrite ?Heq in * by done. }
    split; [by left|]. intros [?|[ [H1 H2]|[H1 H2] ] ]; [done|..].
    + apply (Hsame x l b Hx Hra) in H1. rewrite Hsym in H2. apply (Hsame y r b Hy Hrb) in H2. by exists b.
    + apply (Hsame x r b Hx Hrb) in H1. rewrite Hsym in H2. apply (Hsame y l b Hy Hra) in H2. by exists b.
  - destruct (link_ok p2 h a b Hf2 ltac:(lia) ltac:(lia)) as [Hf3 Heq3]; [..|done|].
    { apply Heq in Hra as [n Hn]; [|done]. by eapply Climb_root. }
    { apply Heq in Hrb as [n Hn]; [|done]. by eapply Climb_root. }
    rewrite length_insert. split_and!; [lia|exact Hf3|]. intros x y Hx Hy.
    assert (∀ z s, z < length p → Root (<[b:=a]> p2) z s ↔ (Root p z s ∧ s ≠ b) ∨ (Root p z b ∧ s = a)) as Hnew.
    { intros z s Hz. rewrite Heq3 by lia. by rewrite !Heq. }
    rewrite (Hsame x l a Hx Hra), (Hsame x r b Hx Hrb), (Hsym r y), (Hsym l y),
      (Hsame y r b Hy Hrb), (Hsame y l a Hy Hra).
    destruct (root_exists p h Hf x Hx) as (sx & Hsx), (root_exists p h Hf y Hy) as (sy & Hsy).
    assert (∀ z s t, Root p z s → Root p z t ↔ t = s) as Hdet.
    { intros z s t Hz. split; [|by intros ->]. intros Ht. by apply (Root_det p z). }
    unfold same_root. setoid_rewrite Hnew; [|done..].
    setoid_rewrite (Hdet x sx _ Hsx). setoid_rewrite (Hdet y sy _ Hsy). split.
    + intros (s & [ [-> ?]|[? ->] ] & [ [? ?]|[? ?] ]); subst; naive_solver.
    + intros [(s & -> & ->)|[ [<- <-]|[<- <-] ] ].
      * destruct (decide (sy = b)) as [->|?]; [exists a|exists sy]; naive_solver.
      * exists a. naive_solver.
      * exists a. naive_solver.
Qed.

(** The initial list: everyone is alone. *)
Lemma forest_seq n : forest (seq 0 n) (λ _, 0) ∧ ∀ x y, same_root (seq 0 n) x y ↔ x = y.
Proof.
  assert (∀ x, up (seq 0 n) x = x) as Hup.
  { intros x. unfold up. destruct (seq 0 n !! x) as [y|] eqn:E; [|done]. by apply lookup_seq in E as [-> _]. }
  split; [split|].
  - intros x ?. by rewrite Hup.
  - intros x Hx. by rewrite Hup in Hx.
  - intros x y. split.
    + intros (r & [nx Hx] & [ny Hy]). inversion Hx; [|congruence]. inversion Hy; [|congruence]. congruence.
    + intros ->. exists y. split; exists 0; by constructor.
Qed.
