(* ===== verification/Reconcile.v ===== *)
(** * Conservative identity reconciliation ([benchmarking/identity.py])

    Provider offers are given model identities: by an approved alias, by a shared public
    identifier under an equal behaviour fingerprint (a union-find over the offers), by an
    exact fingerprint, or provisionally.  The hash and the clock are parameters. *)

From S2P Require Import Prelude PyStr PyDict PyGroup Regex Schemas Catalog ExactCache Domain UnionFind.

(** ** Names *)

Definition or_empty (o : option string) : string := match o with Some s => s | None => "" end.
Definition nonempty (o : option string) : option string := match o with Some "" | None => None | Some s => Some s end.
Definition or_str (s d : string) : string := if s ≡? "" then d else s.

(** [_normalized] *)
Definition normalized (value : string) : string := strip_of ["-"%char] (sub (rplus non_alnum) "-" (lower value)).

Definition HF_PREFIX : string := "https://huggingface.co/".

(** [_hugging_face_id] *)
Definition hugging_face_id (value : option string) : string :=
  match nonempty value with
  | None => ""
  | Some v =>
      let text := rstrip_char "/" (strip v) in
      if startswith HF_PREFIX (lower text) then str_drop (str_len HF_PREFIX) text else text
  end.

(** [_normalized_identifier] *)
Definition normalized_identifier (value : option string) : string :=
  match nonempty value with
  | None => ""
  | Some v => strip_of ["/"%char] (lower (hugging_face_id (Some v)))
  end.

Definition VENDOR_PREFIXES : list (string * string) :=
  [("qwen", "qwen"); ("llama", "meta-llama"); ("deepseek", "deepseek"); ("mistral", "mistral");
   ("mixtral", "mistral"); ("gemma", "google")].

(** [_vendor_from_model] *)
Definition vendor_from_model (model : string) : string :=
  match first_such (λ pv, startswith pv.1 (lower model)) VENDOR_PREFIXES with Some pv => pv.2 | None => "" end.

(** [_vendor_and_model] *)
Definition vendor_and_model (source : string) : string * string :=
  let parts := split_on "/" (strip_of ["/"%char] source) in
  match rev parts with
  | [] => ("unknown", "")
  | [m] => (or_str (vendor_from_model m) "unknown", m)
  | m :: d :: _ =>
      if (4 <=? length parts) && (d ∈? ["models"; "deployments"])
      then (or_str (vendor_from_model m) (nth 1 parts ""), m)
      else (d, m)
  end.

(** ** Variants *)

(** [_join_variants] *)
Definition join_variants (values : list (option string)) : option string :=
  nonempty (Some (join "+" (sorted_strs (remove_dups (normalized <$> omap nonempty values))))).

(** A pattern with one group: what precedes it, the group, what follows. *)
Abbreviation Pattern := (re * re * re)%type.

(** [_first_match] *)
Fixpoint first_match (value : string) (patterns : list Pattern) : option string :=
  match patterns with
  | [] => None
  | (pre, g, post) :: ps => group1 pre g post value orelse first_match value ps
  end.

Definition variant_from_sources (sources : list string) (patterns : list Pattern) : option string :=
  join_variants ((λ s, first_match s patterns) <$> sources).

Definition dash : re := one_of ["-"; "_"]%char.
Definition dash_gap : re := one_of ["-"; "_"; " "]%char.
Definition dash_gap_colon : re := one_of ["-"; "_"; " "; ":"]%char.
Definition before (sep : re) : re := alts [RStart; sep].
Definition after (sep : re) : re := alts [REnd; sep].

Definition EFFORT : re :=
  alts [seqs [ropt (lit_i "x"); lit_i "high"]; lit_i "medium"; lit_i "low"; lit_i "minimal"; lit_i "none"].

Definition REASONING_PATTERNS : list Pattern :=
  [(before dash, seqs [lit_i "reasoning"; dash; EFFORT], after dash);
   (before dash, seqs [EFFORT; dash; lit_i "reasoning"], after dash);
   (before dash, lit_i "thinking", after dash)].

Definition QUANTIZATION_PATTERNS : list Pattern :=
  [(before dash,
    alts [seqs [alts [lit_i "int"; lit_i "fp"]; rplus rdigit]; lit_i "bf16"; lit_i "awq"; lit_i "gptq";
          lit_i "gguf"; seqs [lit_i "bnb"; ropt dash; lit_i "4bit"]], after dash)].

Definition alnum_i : re := RChr is_alnum.

Definition FINE_TUNE_PATTERNS : list Pattern :=
  [(before dash_gap_colon,
    seqs [lit_i "fine"; ropt dash_gap; lit_i "tune"; RStar (seqs [dash_gap; rplus alnum_i])], after dash_gap_colon);
   (before dash_gap_colon, seqs [lit_i "ft"; dash; alnum_i; RStar (RChr token_char)], after dash_gap_colon)].

Definition CONTEXT_PATTERNS : list Pattern :=
  [(before dash, seqs [rplus rdigit; alts [lit_i "k"; lit_i "m"]; ropt (seqs [dash; lit_i "context"])], after dash)].

Definition RELEASE_RE : re := seqs [lit "20"; rep 2 rdigit; dash; rep 2 rdigit; dash; rep 2 rdigit].

(** [infer_identity_hint] *)
Definition infer_identity_hint (upstream display : string)
    (canonical hugging_face fine_tune quantization context : option string) : IdentityHint :=
  let hf_id := hugging_face_id hugging_face in
  let source := or_str hf_id (or_str (or_empty canonical) upstream) in
  let sources := List.filter (λ s, negb (s ≡? "")) [upstream; or_empty canonical; hf_id; display] in
  let '(vendor, model) := vendor_and_model source in
  let release := join_variants (Some <$> ((λ m, replace_char "_" "-" m) <$> flat_map (findall RELEASE_RE) sources)) in
  let reasoning := variant_from_sources sources REASONING_PATTERNS in
  let inferred_quantization := variant_from_sources sources QUANTIZATION_PATTERNS in
  let inferred_fine_tune := variant_from_sources sources FINE_TUNE_PATTERNS in
  let inferred_context := variant_from_sources sources CONTEXT_PATTERNS in
  let family := fold_left (λ f v, match v with Some v => sub (lit_i v) "-" f | None => f end)
                  [release; reasoning; inferred_quantization; inferred_fine_tune; inferred_context] model in
  let family := or_str (strip_of ["-"%char] (sub (rplus dash) "-" family)) model in
  {| ih_vendor := or_str (normalized vendor) "unknown"; ih_family := or_str (normalized family) "model";
     ih_release := release; ih_reasoning := reasoning;
     ih_quantization := join_variants [quantization; inferred_quantization];
     ih_fine_tune := join_variants [fine_tune; inferred_fine_tune];
     ih_context := join_variants [context; inferred_context];
     ih_display := or_str display model; ih_canonical := canonical; ih_hugging_face := Some hf_id |}.

(** ** Fingerprints *)

Definition norm_opt (o : option string) : string := match o with Some v => normalized v | None => "" end.

Definition hint_fingerprint (h : IdentityHint) : list string :=
  [normalized (ih_vendor h); normalized (ih_family h); norm_opt (ih_release h); norm_opt (ih_reasoning h);
   norm_opt (ih_quantization h); norm_opt (ih_fine_tune h); norm_opt (ih_context h)].

Definition identity_fingerprint (i : ModelIdentity) : list string :=
  [normalized (mi_vendor i); normalized (mi_family i); norm_opt (mi_release i); norm_opt (mi_reasoning i);
   norm_opt (mi_quantization i); norm_opt (mi_fine_tune i); norm_opt (mi_context i)].

Definition behavior_fingerprint (h : IdentityHint) : list string :=
  [norm_opt (ih_release h); norm_opt (ih_reasoning h); norm_opt (ih_quantization h); norm_opt (ih_fine_tune h);
   norm_opt (ih_context h)].

Definition usable_fingerprint (f : list string) : bool :=
  let v := nth 0 f "" in
  negb (v ≡? "") && negb (v ≡? "unknown") && negb (nth 1 f "" ≡? "").

(** ** Components *)

Definition behavior (offers : list DiscoveredOffer) (i : nat) : list string :=
  match offers !! i with Some o => behavior_fingerprint (do_identity o) | None => [] end.

(** The normalized public identifiers of an offer. *)
Definition identifiers_of (o : DiscoveredOffer) : list string :=
  List.filter (λ s, negb (s ≡? ""))
    [normalized_identifier (ih_canonical (do_identity o)); normalized_identifier (ih_hugging_face (do_identity o))].

(** [identifiers[normalized].append(index)] *)
Definition identifier_index (offers : list DiscoveredOffer) : list (string * list nat) :=
  grouped fst snd (concat (imap (λ i o, (λ s, (s, i)) <$> identifiers_of o) offers)).

(** [for left_pos, left in enumerate(l): for right in l[left_pos + 1:]] *)
Fixpoint pairs {A} (l : list A) : list (A * A) :=
  match l with [] => [] | x :: l => ((λ y, (x, y)) <$> l) ++ pairs l end.

Definition add_shared (shared : list (nat * list string)) (i : nat) (s : string) : list (nat * list string) :=
  let ids := match dget shared i with Some l => l | None => [] end in
  dset shared i (if s ∈? ids then ids else ids ++ [s]).

Definition join_pair (offers : list DiscoveredOffer) (identifier : string)
    (st : list nat * list (nat * list string)) (lr : nat * nat) : list nat * list (nat * list string) :=
  let '(parent, shared) := st in
  let '(l, r) := lr in
  if behavior offers l ≡? behavior offers r
  then (union parent l r, add_shared (add_shared shared l identifier) r identifier)
  else st.

Definition join_identifier (offers : list DiscoveredOffer) (st : list nat * list (nat * list string))
    (entry : string * list nat) : list nat * list (nat * list string) :=
  fold_left (join_pair offers entry.1) (pairs entry.2) st.

Definition joined (offers : list DiscoveredOffer) : list nat * list (nat * list string) :=
  fold_left (join_identifier offers) (identifier_index offers) (seq 0 (length offers), []).

(** The closing loop: every index below its root, with the identifiers it shares. *)
Definition collect (shared : list (nat * list string)) (st : list nat * list (nat * (list nat * list string))) (i : nat)
    : list nat * list (nat * (list nat * list string)) :=
  let '(parent, comps) := st in
  let '(parent, root) := find parent i in
  let '(c, ids) := match dget comps root with Some v => v | None => ([], []) end in
  (parent, dset comps root (c ++ [i], ids ++ match dget shared i with Some l => l | None => [] end)).

(** [_identifier_components] *)
Definition identifier_components (offers : list DiscoveredOffer) : list (list nat * string) :=
  let '(parent, shared) := joined offers in
  omap (λ rc : nat * (list nat * list string),
    let '(_, (component, ids)) := rc in
    match sorted_strs ids with
    | s :: _ => if 2 <=? length component then Some (component, s) else None
    | [] => None
    end) (fold_left (collect shared) (seq 0 (length offers)) (parent, [])).2.

(** ** Reconciliation *)

Record Assignment := { as_identity : string; as_method : string; as_confidence : Q }.

Record ReconciledOffer := { rc_discovered : DiscoveredOffer; rc_assignment : Assignment }.

Definition assign (i m : string) (c : Q) : Assignment := {| as_identity := i; as_method := m; as_confidence := c |}.

Section reconcile.
Context (digest24 : string → string) (now : Q).

(** [_identity_id] *)
Definition identity_id_of (parts : list string) : string := stable_id digest24 "identity" parts.

(** [_identity_from_hint] *)
Definition identity_from_hint (h : IdentityHint) (i : string) (provisional : bool) : ModelIdentity :=
  {| mi_id := i; mi_vendor := ih_vendor h; mi_family := ih_family h; mi_release := ih_release h;
     mi_reasoning := ih_reasoning h; mi_quantization := ih_quantization h; mi_fine_tune := ih_fine_tune h;
     mi_context := ih_context h; mi_display := ih_display h; mi_provisional := provisional; mi_created_at := now |}.

(** The assignments by index and the identities created. *)
Record RState := { rs_assigned : list (nat * Assignment); rs_created : list (string * ModelIdentity) }.

Definition assigned (st : RState) (i : nat) : option Assignment := dget (rs_assigned st) i.

Definition set_assigned (i : nat) (a : Assignment) (st : RState) : RState :=
  {| rs_assigned := dset (rs_assigned st) i a; rs_created := rs_created st |}.

Definition add_created (m : ModelIdentity) (st : RState) : RState :=
  {| rs_assigned := rs_assigned st; rs_created := dset (rs_created st) (mi_id m) m |}.

(** The set of identities already assigned to some indexes. *)
Definition targets (st : RState) (indexes : list nat) : list string :=
  remove_dups (as_identity <$> omap (assigned st) indexes).

Section offers.
Context (offers : list DiscoveredOffer) (known : list ModelIdentity) (approved : list IdentityAliasDecision).

Definition hint_at (i : nat) : option IdentityHint := match offers !! i with Some o => Some (do_identity o) | None => None end.

(** [active_aliases]: a later alias of the same key replaces an earlier one. *)
Definition active_aliases : list (string * string * IdentityAliasDecision) :=
  fold_left (λ d a, dset d (ad_provider a, ad_source_id a) a)
    (List.filter (λ a, match ad_superseded_at a with None => true | Some _ => false end) approved) [].

Definition alias_of (o : DiscoveredOffer) : option IdentityAliasDecision :=
  dget active_aliases (provider_str (do_provider o), do_upstream o).

Definition alias_phase : RState :=
  {| rs_assigned := omap (λ io : nat * DiscoveredOffer,
       match alias_of io.2 with Some a => Some (io.1, assign (ad_identity a) "approved_alias" 1) | None => None end)
       (imap pair offers);
     rs_created := [] |}.

(** Every unassigned member of a component takes its identity. *)
Definition settle_component (i : string) (st : RState) (component : list nat) : RState :=
  fold_left (λ st idx, match assigned st idx with
                       | Some _ => st
                       | None => set_assigned idx (assign i "provider_canonical_id" (98 # 100)) st
                       end) component st.

Definition component_phase (st : RState) (cs : list nat * string) : RState :=
  let '(component, shared) := cs in
  if length component <? 2 then st
  else match targets st component with
  | _ :: _ :: _ => st
  | [i] => settle_component i st component
  | [] =>
      match hint_at (nth 0 component 0) with
      | Some h =>
          let m := identity_from_hint h (identity_id_of ("provider-id" :: shared :: behavior_fingerprint h)) false in
          settle_component (mi_id m) (add_created m st) component
      | None => st
      end
  end.

(** [known_by_fingerprint] and [offers_by_fingerprint] *)
Definition known_by_fingerprint : list (list string * list ModelIdentity) :=
  grouped identity_fingerprint (λ i, i) known.

Definition offers_by_fingerprint : list (list string * list nat) :=
  grouped fst snd
    (List.filter (λ fi : list string * nat, usable_fingerprint fi.1)
       (imap (λ i o, (hint_fingerprint (do_identity o), i)) offers)).

Definition fingerprint_phase (st : RState) (entry : list string * list nat) : RState :=
  let '(fingerprint, indexes) := entry in
  let unresolved := List.filter (λ i, match assigned st i with None => true | Some _ => false end) indexes in
  match unresolved with
  | [] => st
  | first :: rest =>
      let ts := remove_dups ((as_identity <$> omap (assigned st) indexes) ++
                  (mi_id <$> match dget known_by_fingerprint fingerprint with Some l => l | None => [] end)) in
      let settle i st := fold_left (λ st idx, set_assigned idx (assign i "exact_fingerprint" (95 # 100)) st) unresolved st in
      match ts, rest with
      | [i], _ => settle i st
      | [], _ :: _ =>
          match hint_at first with
          | Some h =>
              let m := identity_from_hint h (identity_id_of ("fingerprint" :: fingerprint)) false in
              settle (mi_id m) (add_created m st)
          | None => st
          end
      | _, _ => st
      end
  end.

Definition provisional_phase (st : RState) (io : nat * DiscoveredOffer) : RState :=
  let '(i, o) := io in
  match assigned st i with
  | Some _ => st
  | None =>
      let m := identity_from_hint (do_identity o)
                 (identity_id_of ["provisional"; provider_str (do_provider o); do_upstream o]) true in
      set_assigned i (assign (mi_id m) "provisional" (4 # 10)) (add_created m st)
  end.

Definition final_state : RState :=
  let st := fold_left component_phase (identifier_components offers) alias_phase in
  let st := fold_left fingerprint_phase offers_by_fingerprint st in
  fold_left provisional_phase (imap pair offers) st.

(** [reconcile] *)
Definition reconcile : list ModelIdentity * list ReconciledOffer :=
  ((rs_created final_state).*2,
   omap (λ io : nat * DiscoveredOffer,
     match assigned final_state io.1 with
     | Some a => Some {| rc_discovered := io.2; rc_assignment := a |}
     | None => None
     end) (imap pair offers)).
End offers.
End reconcile.

(** ** The hint of a provider id *)

Example hint_of_ids :
  let h := infer_identity_hint "accounts/fireworks/models/qwen3-32b-fp8-high-reasoning-2025-07-01-128k" "Qwen3 32B"
             None (Some "https://huggingface.co/Qwen/Qwen3-32B/") None None None in
  (ih_vendor h, ih_family h, ih_release h, ih_reasoning h, ih_quantization h, ih_context h, ih_hugging_face h)
  = ("qwen", "qwen3-32b", Some "2025-07-01", Some "high-reasoning", Some "fp8", Some "128k", Some "Qwen/Qwen3-32B").
Proof. vm_compute. reflexivity. Qed.

(** ** The components are the classes of the link relation *)

(** Two offers share a public identifier and behave alike. *)
Definition linked (offers : list DiscoveredOffer) (i j : nat) : Prop :=
  ∃ oi oj s, offers !! i = Some oi ∧ offers !! j = Some oj ∧
    s ∈ identifiers_of oi ∧ s ∈ identifiers_of oj ∧
    behavior_fingerprint (do_identity oi) = behavior_fingerprint (do_identity oj).

Lemma linked_sym offers i j : linked offers i j → linked offers j i.
Proof. intros (oi & oj & s & ? & ? & ? & ? & ?). by exists oj, oi, s. Qed.

(** Adding one edge to an equivalence closure joins two classes. *)
Lemma rtsc_add {A} (R : relation A) l r x y :
  rtsc (λ a b, R a b ∨ (a = l ∧ b = r)) x y ↔
  rtsc R x y ∨ (rtsc R x l ∧ rtsc R r y) ∨ (rtsc R x r ∧ rtsc R l y).
Proof.
  assert (∀ a b, rtsc R a b → rtsc (λ a b, R a b ∨ (a = l ∧ b = r)) a b) as Hmono.
  { intros a b. apply rtc_subrel. intros c d [?|?]; [left|right]; by left. }
  assert (rtsc (λ a b, R a b ∨ (a = l ∧ b = r)) l r) as Hlr by (apply rtc_once; left; by right).
  assert (∀ a b, rtsc (λ a b, R a b ∨ (a = l ∧ b = r)) a b → rtsc (λ a b, R a b ∨ (a = l ∧ b = r)) b a) as Hs
    by (intros a b ?; by symmetry).
  split.
  - induction 1 as [x|x z y [ [Hxz|[-> ->]]|[Hxz|[-> ->]] ] _ IH].
    + left. reflexivity.
    + assert (rtsc R x z) by (apply rtc_once; by left).
      destruct IH as [?|[ [? ?]|[? ?] ] ]; [left|right; left|right; right]; repeat split; try done; by etrans.
    + destruct IH as [?|[ [? ?]|[? ?] ] ]; [right; left; by split|right; left; by split|left; done].
    + assert (rtsc R x z) by (apply rtc_once; by right).
      destruct IH as [?|[ [? ?]|[? ?] ] ]; [left|right; left|right; right]; repeat split; try done; by etrans.
    + destruct IH as [?|[ [? ?]|[? ?] ] ]; [right; right; by split|left; done|right; right; by split].
  - intros [?|[ [? ?]|[? ?] ] ]; [by apply Hmono|..].
    + trans l; [by apply Hmono|]. trans r; [done|by apply Hmono].
    + trans r; [by apply Hmono|]. trans l; [by apply Hs|by apply Hmono].
Qed.

Lemma elem_of_pairs {A} (l : list A) x y : (x, y) ∈ pairs l → x ∈ l ∧ y ∈ l.
Proof.
  induction l as [|a l IH]; cbn; [by intros ?%elem_of_nil|].
  rewrite elem_of_app, list_elem_of_fmap, !elem_of_cons. intros [(b & [= -> ->] & ?)|[? ?]%IH]; auto.
Qed.

Lemma pairs_complete {A} (l : list A) x y : x ∈ l → y ∈ l → x ≠ y → (x, y) ∈ pairs l ∨ (y, x) ∈ pairs l.
Proof.
  induction l as [|a l IH]; [by intros ?%elem_of_nil|]. cbn. rewrite !elem_of_app, !list_elem_of_fmap, !elem_of_cons.
  intros [->|Hx] [->|Hy] Hne; [done|left; left; eauto|right; left; eauto|]. destruct (IH Hx Hy Hne); auto.
Qed.

Section components.
Context (offers : list DiscoveredOffer).
#[local] Abbreviation n := (length offers).

(** The pairs the two nested loops visit, in order. *)
Definition visits : list (string * (nat * nat)) :=
  flat_map (λ e : string * list nat, (λ lr, (e.1, lr)) <$> pairs e.2) (identifier_index offers).

Definition visit (st : list nat * list (nat * list string)) (v : string * (nat * nat)) :=
  join_pair offers v.1 st v.2.

Lemma joined_visits : joined offers = fold_left visit visits (seq 0 n, []).
Proof.
  unfold joined, visits. generalize (seq 0 n, @nil (nat * list string)) as st.
  induction (identifier_index offers) as [|[s l] es IH]; intros st; [done|].
  cbn [fold_left flat_map]. rewrite fold_left_app, IH. f_equal. unfold join_identifier. cbn [fst snd].
  generalize st. clear. induction (pairs l) as [|lr ps IH]; intros st; [done|]. cbn. by rewrite IH.
Qed.

Lemma elem_of_index s l :
  (s, l) ∈ identifier_index offers →
  ∀ i, i ∈ l ↔ ∃ o, offers !! i = Some o ∧ s ∈ identifiers_of o.
Proof.
  intros [_ ->]%elem_of_grouped i. rewrite list_elem_of_fmap. split.
  - intros ([s' i'] & -> & [Hin Hs]%elem_of_having). cbn in Hs. subst s'.
    apply list_elem_of_In, in_concat in Hin as (l & Hl & Hin).
    apply list_elem_of_In, elem_of_lookup_imap in Hl as (j & o & -> & Hj).
    apply list_elem_of_In, list_elem_of_fmap in Hin as (s' & [= -> ->] & Hin). eauto.
  - intros (o & Ho & Hs). exists (s, i). split; [done|]. apply elem_of_having. split; [|done].
    apply list_elem_of_In, in_concat. exists ((λ s, (s, i)) <$> identifiers_of o).
    rewrite <- !list_elem_of_In. split; [|apply list_elem_of_fmap; eauto].
    apply elem_of_lookup_imap. eauto.
Qed.

Lemma index_complete s i o :
  offers !! i = Some o → s ∈ identifiers_of o → ∃ l, (s, l) ∈ identifier_index offers.
Proof.
  intros Ho Hs. assert (s ∈ dkeys (identifier_index offers)) as Hk.
  { unfold identifier_index. apply elem_of_grouped_keys. exists (s, i). split; [|done].
    apply list_elem_of_In, in_concat. exists ((λ s, (s, i)) <$> identifiers_of o).
    rewrite <- !list_elem_of_In. split; [|apply list_elem_of_fmap; eauto].
    apply elem_of_lookup_imap. eauto. }
  apply list_elem_of_fmap in Hk as ([s' l] & -> & Hin). eauto.
Qed.

(** The pairs that were joined. *)
Definition Edge (vs : list (string * (nat * nat))) (x y : nat) : Prop :=
  ∃ s, (s, (x, y)) ∈ vs ∧ behavior offers x = behavior offers y.

Lemma behavior_at i o : offers !! i = Some o → behavior offers i = behavior_fingerprint (do_identity o).
Proof. unfold behavior. by intros ->. Qed.

Lemma edge_linked x y : Edge visits x y → linked offers x y.
Proof.
  intros (s & Hin & Hb). unfold visits in Hin. apply elem_of_flat_map in Hin as ([s' l] & Hl & Hin).
  apply list_elem_of_fmap in Hin as (lr & [= -> <-] & [Hx Hy]%elem_of_pairs). cbn in *.
  apply (elem_of_index _ _ Hl) in Hx as (ox & Hox & ?). apply (elem_of_index _ _ Hl) in Hy as (oy & Hoy & ?).
  exists ox, oy, s'. rewrite (behavior_at _ _ Hox), (behavior_at _ _ Hoy) in Hb. done.
Qed.

Lemma linked_edge x y : linked offers x y → x ≠ y → Edge visits x y ∨ Edge visits y x.
Proof.
  intros (ox & oy & s & Hox & Hoy & Hsx & Hsy & Hb) Hne.
  destruct (index_complete s x ox Hox Hsx) as (l & Hl).
  assert (x ∈ l) as Hx by (apply (elem_of_index _ _ Hl); eauto).
  assert (y ∈ l) as Hy by (apply (elem_of_index _ _ Hl); eauto).
  assert (∀ a b, (a, b) ∈ pairs l → (s, (a, b)) ∈ visits) as Hv.
  { intros a b Hab. apply elem_of_flat_map. exists (s, l). split; [done|]. apply list_elem_of_fmap. eauto. }
  destruct (pairs_complete l x y Hx Hy Hne) as [H|H]; [left|right]; exists s; (split; [by apply Hv|]);
    rewrite (behavior_at _ _ Hox), (behavior_at _ _ Hoy); congruence.
Qed.

Lemma rtsc_edge_linked x y : rtsc (Edge visits) x y ↔ rtc (linked offers) x y.
Proof.
  split.
  - apply rtc_subrel. intros a b [?%edge_linked|?%edge_linked]; [done|by apply linked_sym].
  - induction 1 as [|x z y Hxz _ IH]; [reflexivity|]. destruct (decide (x = z)) as [->|Hne]; [done|].
    destruct (linked_edge _ _ Hxz Hne) as [?|?]; (trans z; [apply rtc_once|done]); [by left|by right].
Qed.

(** The state of the union-find loop after some visits. *)
Record joined_ok (vs : list (string * (nat * nat))) (st : list nat * list (nat * list string)) : Prop := {
  jo_length : length st.1 = n;
  jo_forest : ∃ h, forest st.1 h;
  jo_same x y : x < n → y < n → same_root st.1 x y ↔ rtsc (Edge vs) x y;
  jo_shared x y : Edge vs x y →
    (∃ s l, dget st.2 x = Some (s :: l)) ∧ (∃ s l, dget st.2 y = Some (s :: l));
}.

Lemma visits_range v : v ∈ visits → v.2.1 < n ∧ v.2.2 < n.
Proof.
  destruct v as [s [x y] ]. intros ([s' l] & Hl & Hin)%elem_of_flat_map.
  apply list_elem_of_fmap in Hin as (lr & [= -> <-] & [Hx Hy]%elem_of_pairs). cbn in *.
  apply (elem_of_index _ _ Hl) in Hx as (ox & Hox & _), Hy as (oy & Hoy & _).
  split; by eapply lookup_lt_Some.
Qed.

Lemma add_shared_some shared i s j :
  (∃ s0 l, dget shared j = Some (s0 :: l)) ∨ j = i → ∃ s0 l, dget (add_shared shared i s) j = Some (s0 :: l).
Proof.
  unfold add_shared. intros H. destruct (decide (j = i)) as [->|Hne].
  - rewrite dget_dset_eq. destruct (dget shared i) as [ids|]; case_bool_decide as E.
    + destruct ids; [by apply elem_of_nil in E|eauto].
    + destruct ids; cbn; eauto.
    + by apply elem_of_nil in E.
    + cbn. eauto.
  - rewrite dget_dset_ne by done. naive_solver.
Qed.

Lemma visit_ok vs st v : joined_ok vs st → v.2.1 < n → v.2.2 < n → joined_ok (vs ++ [v]) (visit st v).
Proof.
  destruct st as [p sh], v as [s [l r] ]. intros [Hlen [h Hf] Hsame Hsh] Hl Hr. cbn in *.
  assert (∀ x y, Edge (vs ++ [(s, (l, r))]) x y ↔
            Edge vs x y ∨ (x = l ∧ y = r ∧ behavior offers l = behavior offers r)) as HE.
  { intros x y. unfold Edge. setoid_rewrite elem_of_app. setoid_rewrite list_elem_of_singleton. naive_solver. }
  unfold visit. cbn [fst snd join_pair]. case_bool_decide as Eb.
  - destruct (union_ok p h l r Hf ltac:(lia) ltac:(lia)) as (Hlen' & Hf' & Hu). constructor; cbn [fst snd].
    + lia.
    + done.
    + intros x y Hx Hy. rewrite Hu by lia. rewrite !Hsame by done.
      rewrite <- rtsc_add. split; apply rtc_subrel; intros a b Hab; unfold sc in *; rewrite !HE in *; naive_solver.
    + intros x y [H|(-> & -> & _)]%HE.
      * destruct (Hsh x y H). split; by do 2 (apply add_shared_some; left).
      * split; [apply add_shared_some; left|]; apply add_shared_some; by right.
  - constructor; cbn [fst snd]; [done|by exists h| |].
    + intros x y Hx Hy. rewrite Hsame by done.
      split; apply rtc_subrel; intros a b Hab; unfold sc in *; rewrite !HE in *; naive_solver.
    + intros x y [H|(-> & -> & ?)]%HE; [by apply Hsh|done].
Qed.

Lemma joined_is_ok : joined_ok visits (joined offers).
Proof.
  rewrite joined_visits. destruct (forest_seq n) as [Hf Hs].
  assert (joined_ok [] (seq 0 n, [])) as H0.
  { constructor; cbn.
    - apply length_seq.
    - by eexists.
    - intros x y _ _. rewrite Hs. split; [intros ->; reflexivity|].
      induction 1 as [|x z y [ (s & ?%elem_of_nil & _)|(s & ?%elem_of_nil & _)] _ _]; done.
    - by intros x y (s & ?%elem_of_nil & _). }
  assert (∀ vs done_ st, joined_ok done_ st → (∀ v, v ∈ vs → v.2.1 < n ∧ v.2.2 < n) →
            joined_ok (done_ ++ vs) (fold_left visit vs st)) as H.
  { induction vs as [|v vs IH]; intros dn st Hst Hv; [by rewrite app_nil_r|]. cbn [fold_left].
    replace (dn ++ v :: vs) with ((dn ++ [v]) ++ vs) by by rewrite <- app_assoc.
    destruct (Hv v ltac:(left)). apply IH; [by apply visit_ok|]. intros w ?. apply Hv. by right. }
  apply (H visits [] _ H0). apply visits_range.
Qed.
End components.

(** *** The closing loop *)

Section collect.
Context (p0 : list nat) (h0 : nat → nat) (Hf0 : forest p0 h0) (shared : list (nat * list string)).

Definition root_of (i : nat) : nat := (find p0 i).2.

Definition shared_of (i : nat) : list string := match dget shared i with Some l => l | None => [] end.

Lemma root_of_spec i : i < length p0 → Root p0 i (root_of i).
Proof using Hf0.
  intros Hi. pose proof (find_ok p0 h0 i Hf0 Hi) as H. unfold root_of. destruct (find p0 i). by destruct H.
Qed.

(** Whatever [find] does to the parents on the way, the loop groups the indexes by root. *)
Lemma collect_groups l p comps :
  forest p h0 → length p = length p0 → (∀ x s, x < length p0 → Root p x s ↔ Root p0 x s) →
  (∀ i, i ∈ l → i < length p0) →
  (fold_left (collect shared) l (p, comps)).2 =
  fold_left (touch root_of ([], []) (λ v i, (v.1 ++ [i], v.2 ++ shared_of i))) l comps.
Proof using Hf0.
  revert p comps. induction l as [|i l IH]; intros p comps Hf Hlen Hroot Hl; [done|]. cbn [fold_left].
  assert (i < length p0) as Hi by (apply Hl; left).
  pose proof (find_ok p h0 i Hf ltac:(lia)) as H. unfold collect at 2. destruct (find p i) as [p' r] eqn:E.
  destruct H as (Hr & _ & Hlen' & Hf' & Hroot').
  assert (r = root_of i) as ->.
  { apply Hroot in Hr; [|done]. by apply (Root_det p0 i _ _ Hr), root_of_spec. }
  unfold touch at 2. unfold shared_of at 2.
  destruct (match dget comps (root_of i) with Some v => v | None => ([], []) end) as [c ids]. cbn [fst snd].
  apply IH; [done|lia| |by intros j ?; apply Hl; right].
  intros x s Hx. rewrite Hroot' by lia. by apply Hroot.
Qed.

Lemma fold_members l c ids :
  fold_left (λ v i, (v.1 ++ [i], v.2 ++ shared_of i)) l (c, ids) = (c ++ l, ids ++ flat_map shared_of l).
Proof.
  revert c ids. induction l as [|i l IH]; intros c ids; cbn; [by rewrite !app_nil_r|].
  rewrite IH. by rewrite <- !app_assoc.
Qed.
End collect.

Section exact.
Context (offers : list DiscoveredOffer).
#[local] Abbreviation n := (length offers).

(** What is known of the components: they are the classes of [linked] with two members or
    more, listed in index order. *)
Lemma components_spec c s :
  (c, s) ∈ identifier_components offers →
  2 ≤ length c ∧ NoDup c ∧
  (∀ i, i ∈ c → i < n ∧ ∀ j, j ∈ c ↔ j < n ∧ rtc (linked offers) i j).
Proof.
  unfold identifier_components. destruct (joined offers) as [p shared] eqn:Ej.
  pose proof (joined_is_ok offers) as [Hlen [h Hf] Hsame Hsh]. rewrite Ej in *. cbn [fst snd] in *.
  intros ([r [c' ids] ] & Hin & Hc)%list_elem_of_omap.
  destruct (sorted_strs ids) as [|s0 ss]; [done|]. destruct (Nat.leb_spec 2 (length c')); [|done].
  injection Hc as -> ->.
  assert (∀ i, i ∈ seq 0 n → i < length p) as Hrange by (intros i Hi%list_elem_of_In%in_seq; lia).
  rewrite (collect_groups p h Hf shared _ p [] Hf eq_refl (λ x s _, iff_refl _) Hrange) in Hin.
  change (fold_left (touch ?k ?d ?f) ?l []) with (accumulate k d f l) in Hin.
  apply elem_of_accumulate in Hin as [Hne Heq]. rewrite fold_members in Heq. injection Heq as -> _.
  cbn. split_and!; [done|by apply NoDup_bfilter, NoDup_seq|].
  assert (∀ j, j ∈ having (root_of p) r (seq 0 n) ↔ j < n ∧ root_of p j = r) as Hmem.
  { intros j. rewrite elem_of_having. rewrite list_elem_of_In, in_seq. intuition lia. }
  intros i [Hi Hri]%Hmem. split; [done|]. intros j. rewrite Hmem.
  split; intros [Hj H2]; (split; [done|]).
  - rewrite <- rtsc_edge_linked, <- Hsame by done. exists r.
    split; [rewrite <- Hri|rewrite <- H2]; apply (root_of_spec p h Hf); lia.
  - rewrite <- rtsc_edge_linked, <- Hsame in H2 by done. destruct H2 as (t & Hit & Hjt).
    rewrite <- Hri, (Root_det p i _ _ (root_of_spec p h Hf i ltac:(lia)) Hit).
    apply (Root_det p j); [apply (root_of_spec p h Hf); lia|done].
Qed.

Lemma components_complete i j :
  i < n → j < n → i ≠ j → rtc (linked offers) i j → ∃ c s, (c, s) ∈ identifier_components offers ∧ i ∈ c ∧ j ∈ c.
Proof.
  intros Hi Hj Hne Hl. unfold identifier_components. destruct (joined offers) as [p shared] eqn:Ej.
  pose proof (joined_is_ok offers) as [Hlen [h Hf] Hsame Hsh]. rewrite Ej in *. cbn [fst snd] in *.
  pose proof Hl as Hij. rewrite <- rtsc_edge_linked, <- Hsame in Hl by done. destruct Hl as (r & Hir & Hjr).
  assert (∀ x, x < n → Root p x r → root_of p x = r) as Hroot.
  { intros x Hx Hxr. apply (Root_det p x); [|done]. apply (root_of_spec p h Hf). lia. }
  set (c := having (root_of p) r (seq 0 n)).
  assert (∀ x, x ∈ c ↔ x < n ∧ root_of p x = r) as Hmem.
  { intros x. unfold c. rewrite elem_of_having, list_elem_of_In, in_seq. intuition lia. }
  assert (i ∈ c ∧ j ∈ c) as [Hic Hjc] by (rewrite !Hmem; auto).
  assert (2 ≤ length c) as Hlc.
  { destruct c as [|x [|y c'] ]; cbn; [by apply elem_of_nil in Hic| |lia].
    apply list_elem_of_singleton in Hic, Hjc. congruence. }
  assert (∃ s ss, sorted_strs (flat_map (shared_of shared) c) = s :: ss) as (s & ss & Hss).
  { assert (∃ s0 l, dget shared i = Some (s0 :: l)) as (s0 & l & Hs0).
    { rewrite <- rtsc_edge_linked in Hij. inversion Hij as [|? z ? Hz _]; subst; [done|].
      destruct Hz as [Hz|Hz]; apply Hsh in Hz; destruct Hz; done. }
    destruct (sorted_strs _) as [|s ss] eqn:E; [|eauto].
    assert (s0 ∈ sorted_strs (flat_map (shared_of shared) c)) as Hin.
    { apply elem_of_sorted_strs, elem_of_flat_map. exists i. split; [done|]. unfold shared_of. rewrite Hs0. left. }
    rewrite E in Hin. by apply elem_of_nil in Hin. }
  exists c, s. split; [|done]. apply list_elem_of_omap. exists (r, (c, flat_map (shared_of shared) c)). split.
  - assert (∀ i, i ∈ seq 0 n → i < length p) as Hrange by (intros x Hx%list_elem_of_In%in_seq; lia).
    rewrite (collect_groups p h Hf shared _ p [] Hf eq_refl (λ x s _, iff_refl _) Hrange).
    change (fold_left (touch ?k ?d ?f) ?l []) with (accumulate k d f l).
    apply elem_of_accumulate. rewrite fold_members. fold c. split; [|done].
    intros E. apply (f_equal length) in E. change (having (root_of p) r (seq 0 n)) with c in E. cbn in E. lia.
  - rewrite Hss. by rewrite (proj2 (Nat.leb_le 2 (length c))).
Qed.

(** Members of a component behave alike. *)
Lemma rtc_linked_behavior i j : rtc (linked offers) i j → behavior offers i = behavior offers j.
Proof.
  induction 1 as [|x z y (ox & oz & s & Hox & Hoz & _ & _ & Hb) _ IH]; [done|].
  rewrite <- IH, (behavior_at _ _ _ Hox), (behavior_at _ _ _ Hoz). done.
Qed.

(** C35: the union-find computes the classes of the link relation: two offers are put in one
    component exactly when a chain of offers leads from one to the other in which
    neighbours share a public identifier and have equal behaviour fingerprints, and a
    component never mixes behaviours. *)
Theorem components_exact i j :
  i ≠ j →
  ((∃ c s, (c, s) ∈ identifier_components offers ∧ i ∈ c ∧ j ∈ c) ↔
   i < n ∧ j < n ∧ rtc (linked offers) i j) ∧
  (∀ c s, (c, s) ∈ identifier_components offers → i ∈ c → j ∈ c → behavior offers i = behavior offers j).
Proof.
  intros Hne. split.
  - split.
    + intros (c & s & (_ & _ & Hc)%components_spec & Hi & Hj). destruct (Hc i Hi) as [Hn Hiff].
      apply Hiff in Hj as [? ?]. done.
    + intros (? & ? & ?). by apply components_complete.
  - intros c s (_ & _ & Hc)%components_spec Hi Hj. destruct (Hc i Hi) as [_ Hiff].
    apply Hiff in Hj as [_ Hl]. by apply rtc_linked_behavior.
Qed.
End exact.

(** ** Why an offer has its identity *)

Section reasons.
Context (digest24 : string → string) (now : Q).
Context (offers : list DiscoveredOffer) (known : list ModelIdentity) (approved : list IdentityAliasDecision).
#[local] Abbreviation new_id := (identity_id_of digest24).

Definition fingerprint_at (i : nat) (f : list string) : Prop :=
  ∃ o, offers !! i = Some o ∧ hint_fingerprint (do_identity o) = f ∧ usable_fingerprint f = true.

(** The evidence behind an assignment. *)
Inductive Reason : nat → Assignment → Prop :=
  | ByAlias i o a :
      offers !! i = Some o → alias_of approved o = Some a →
      Reason i (assign (ad_identity a) "approved_alias" 1)
  | ByComponent i j a c s :
      (c, s) ∈ identifier_components offers → i ∈ c → j ∈ c → Reason j a →
      Reason i (assign (as_identity a) "provider_canonical_id" (98 # 100))
  | ByNewComponent i j h c s :
      (c, s) ∈ identifier_components offers → i ∈ c → j ∈ c → hint_at offers j = Some h →
      Reason i (assign (new_id ("provider-id" :: s :: behavior_fingerprint h)) "provider_canonical_id" (98 # 100))
  | ByFingerprint i j a f :
      fingerprint_at i f → fingerprint_at j f → Reason j a →
      Reason i (assign (as_identity a) "exact_fingerprint" (95 # 100))
  | ByKnown i k f :
      fingerprint_at i f → k ∈ known → identity_fingerprint k = f →
      Reason i (assign (mi_id k) "exact_fingerprint" (95 # 100))
  | ByNewFingerprint i j f :
      fingerprint_at i f → fingerprint_at j f → i ≠ j →
      Reason i (assign (new_id ("fingerprint" :: f)) "exact_fingerprint" (95 # 100))
  | ByItself i o :
      offers !! i = Some o →
      Reason i (assign (new_id ["provisional"; provider_str (do_provider o); do_upstream o]) "provisional" (4 # 10)).

(** An identity somebody holds: approved, known before, or created by this pass. *)
Definition held (st : RState) (i : string) : Prop :=
  (∃ a, a ∈ (active_aliases approved).*2 ∧ ad_identity a = i) ∨ i ∈ mi_id <$> known ∨ i ∈ dkeys (rs_created st).

Record sound (st : RState) : Prop := {
  so_reason i a : assigned st i = Some a → Reason i a;
  so_held i a : assigned st i = Some a → held st (as_identity a);
  so_keys k m : (k, m) ∈ rs_created st → k = mi_id m;
}.

Definition extends (st st' : RState) : Prop :=
  (∀ i a, assigned st i = Some a → assigned st' i = Some a) ∧
  (∀ k, k ∈ dkeys (rs_created st) → k ∈ dkeys (rs_created st')).

#[local] Instance extends_preorder : PreOrder extends.
Proof. split; [done|]. intros x y z [H1 H2] [H3 H4]. split; auto. Qed.

Lemma held_extends st st' i : extends st st' → held st i → held st' i.
Proof. intros [_ He] [?|[?|?] ]; [by left|by right; left|right; right; auto]. Qed.

Lemma extends_created st m : extends st (add_created m st).
Proof.
  split; [done|]. intros k Hk. cbn [add_created rs_created]. rewrite dkeys_dset. destruct (dmem _ _); [done|].
  apply elem_of_app. by left.
Qed.

Lemma created_held st m : held (add_created m st) (mi_id m).
Proof. right. right. cbn [add_created rs_created]. apply dmem_spec. unfold dmem. by rewrite dget_dset_eq. Qed.

Lemma sound_created st m : sound st → sound (add_created m st).
Proof.
  intros [Hr Hh Hk]. split; [exact Hr| |].
  - intros i a H. eapply held_extends; [apply extends_created|by eapply Hh].
  - intros k x [ [-> ->]|H]%elem_of_dset; [done|by apply Hk].
Qed.

Lemma assigned_set st i a j : assigned (set_assigned i a st) j = if decide (j = i) then Some a else assigned st j.
Proof.
  unfold assigned. cbn. destruct (decide (j = i)) as [->|?]; [by rewrite dget_dset_eq|by rewrite dget_dset_ne].
Qed.

(** Assigning an unassigned index for a reason, to an identity somebody holds. *)
Lemma set_sound st i a :
  sound st → assigned st i = None → Reason i a → held st (as_identity a) →
  sound (set_assigned i a st) ∧ extends st (set_assigned i a st).
Proof.
  intros [Hr Hh Hk] Hn HR HH. split; [split; [| |exact Hk]|split; [|done] ].
  - intros j b. rewrite assigned_set. destruct (decide (j = i)) as [->|?]; [by intros [= <-]|auto].
  - intros j b. rewrite assigned_set. destruct (decide (j = i)) as [->|?]; [intros [= <-]; exact HH|intros H; exact (Hh j b H)].
  - intros j b H. rewrite assigned_set. destruct (decide (j = i)) as [->|?]; [congruence|done].
Qed.

Lemma elem_of_targets st l t : t ∈ targets st l ↔ ∃ j a, j ∈ l ∧ assigned st j = Some a ∧ as_identity a = t.
Proof.
  unfold targets. rewrite elem_of_remove_dups, list_elem_of_fmap. split.
  - intros (a & -> & (j & ? & ?)%list_elem_of_omap). eauto.
  - intros (j & a & ? & ? & <-). exists a. split; [done|]. apply list_elem_of_omap. eauto.
Qed.

Lemma alias_phase_assigned i :
  assigned (alias_phase offers approved) i =
  match offers !! i with
  | Some o => match alias_of approved o with Some a => Some (assign (ad_identity a) "approved_alias" 1) | None => None end
  | None => None
  end.
Proof.
  unfold assigned, alias_phase. cbn [rs_assigned]. generalize (alias_of approved) as al. intros al.
  assert (∀ k, dget (omap (λ io : nat * DiscoveredOffer,
      match al io.2 with Some a => Some (io.1, assign (ad_identity a) "approved_alias" 1) | None => None end)
      (imap (λ j o, (k + j, o)) offers)) (k + i) =
    match offers !! i with
    | Some o => match al o with Some a => Some (assign (ad_identity a) "approved_alias" 1) | None => None end
    | None => None
    end) as H; [|exact (H 0)].
  revert i. induction offers as [|o l IH]; intros i k; [done|].
  rewrite imap_cons.
  assert (imap ((λ j (o : DiscoveredOffer), (k + j, o)) ∘ S) l = imap (λ j o, (S k + j, o)) l) as ->
    by (apply imap_ext; intros; cbn; f_equal; lia).
  cbn [omap list_omap fst snd]. rewrite Nat.add_0_r.
  destruct i as [|i].
  - rewrite Nat.add_0_r. cbn [lookup list_lookup]. destruct (al o) as [a|].
    + cbn. by rewrite decide_True.
    + destruct (dget _ k) eqn:E; [|done]. exfalso. apply dget_elem in E.
      apply list_elem_of_omap in E as ([j o'] & Hin & Hj). apply elem_of_lookup_imap in Hin as (m & o'' & [= -> ->] & _).
      cbn in Hj. destruct (al o''); [|done]. simplify_eq. lia.
  - replace (k + S i) with (S k + i) by lia. change ((o :: l) !! S i) with (l !! i).
    rewrite <- (IH i (S k)).
    destruct (al o) as [a|]; [|done]. cbn [dget]. rewrite decide_False by lia. done.
Qed.

Lemma alias_phase_sound : sound (alias_phase offers approved).
Proof.
  split; [| |by intros k m ?%elem_of_nil]; intros i a; rewrite alias_phase_assigned; destruct (offers !! i) as [o|] eqn:Eo; try done;
    destruct (alias_of approved o) as [al|] eqn:Ea; try done; intros [= <-].
  - by eapply ByAlias.
  - left. exists al. split; [|done]. unfold alias_of in Ea. apply dget_elem in Ea.
    apply list_elem_of_fmap. by eexists (_, al).
Qed.
End reasons.

(** ** The phases assign for a reason and never reassign *)

Section phases.
Context (digest24 : string → string) (now : Q).
Context (offers : list DiscoveredOffer) (known : list ModelIdentity) (approved : list IdentityAliasDecision).
#[local] Abbreviation new_id := (identity_id_of digest24).
#[local] Abbreviation snd_ := (sound digest24 offers known approved).
#[local] Abbreviation why := (Reason digest24 offers known approved).
#[local] Abbreviation hld := (held known approved).
#[local] Existing Instance extends_preorder.

(** A step that keeps soundness and only extends. *)
Definition fine (st st' : RState) : Prop := snd_ st → snd_ st' ∧ extends st st'.

Lemma fine_refl st : fine st st.
Proof. intros H. split; [done|reflexivity]. Qed.

Lemma fine_trans a b c : fine a b → fine b c → fine a c.
Proof. intros H1 H2 Ha. destruct (H1 Ha) as [Hb ?]. destruct (H2 Hb). split; [done|by etrans]. Qed.

Lemma fine_fold {X} (f : RState → X → RState) l st :
  (∀ st x, x ∈ l → fine st (f st x)) → fine st (fold_left f l st).
Proof.
  revert st. induction l as [|x l IH]; intros st H; [apply fine_refl|]. cbn.
  eapply fine_trans; [apply H; left|]. apply IH. intros; apply H. by right.
Qed.

Lemma settle_component_fine i st c :
  (∀ idx, idx ∈ c → why idx (assign i "provider_canonical_id" (98 # 100))) → hld st i →
  fine st (settle_component i st c).
Proof.
  unfold settle_component. revert st. induction c as [|x c IH]; intros st Hw Hh; [apply fine_refl|]. cbn [fold_left].
  destruct (assigned st x) as [a|] eqn:Ea.
  - apply IH; [|done]. intros; apply Hw. by right.
  - intros Hs. destruct (set_sound digest24 offers known approved st x _ Hs Ea (Hw x ltac:(left)) Hh) as [Hs' He].
    destruct (IH (set_assigned x (assign i "provider_canonical_id" (98 # 100)) st)) as [? ?]; [| |done|].
    + intros; apply Hw. by right.
    + by eapply held_extends.
    + split; [done|by etrans].
Qed.

Lemma component_phase_fine st c s :
  (c, s) ∈ identifier_components offers → fine st (component_phase digest24 now offers st (c, s)).
Proof.
  intros Hc. pose proof (components_spec offers c s Hc) as (H2 & _ & Hcl). cbn [component_phase].
  destruct (Nat.ltb_spec (length c) 2); [lia|].
  destruct (targets st c) as [|t [|t' ts] ] eqn:Et; [| |apply fine_refl].
  - destruct (hint_at offers (nth 0 c 0)) as [h|] eqn:Eh; [|apply fine_refl].
    set (m := identity_from_hint now h _ false). intros Hs.
    pose proof (sound_created digest24 offers known approved st m Hs) as Hs1.
    destruct (settle_component_fine (mi_id m) (add_created m st) c) as [Hs2 He]; [| |done|].
    + intros idx Hidx. eapply ByNewComponent; [exact Hc|done| |exact Eh].
      apply list_elem_of_In, nth_In. lia.
    + apply created_held.
    + split; [done|]. etrans; [apply extends_created|done].
  - intros Hs. destruct (settle_component_fine t st c) as [? ?]; [| |done|done].
    + intros idx Hidx. assert (t ∈ targets st c) as (j & a & Hj & Ha & <-)%elem_of_targets by (rewrite Et; left).
      eapply ByComponent; [exact Hc|done|exact Hj|]. by eapply so_reason.
    + assert (t ∈ targets st c) as (j & a & Hj & Ha & <-)%elem_of_targets by (rewrite Et; left).
      by eapply so_held.
Qed.

Lemma settle_fingerprint_fine i st l :
  NoDup l → (∀ x, x ∈ l → assigned st x = None) →
  (∀ idx, idx ∈ l → why idx (assign i "exact_fingerprint" (95 # 100))) → hld st i →
  fine st (fold_left (λ st idx, set_assigned idx (assign i "exact_fingerprint" (95 # 100)) st) l st).
Proof.
  revert st. induction l as [|x l IH]; intros st Hnd Hn Hw Hh; [apply fine_refl|]. cbn [fold_left].
  apply NoDup_cons in Hnd as [Hx Hnd]. intros Hs.
  destruct (set_sound digest24 offers known approved st x _ Hs (Hn x ltac:(left)) (Hw x ltac:(left)) Hh) as [Hs' He].
  destruct (IH (set_assigned x (assign i "exact_fingerprint" (95 # 100)) st)) as [? ?]; [done|..|done|].
  - intros y Hy. rewrite assigned_set. destruct (decide (y = x)) as [->|?]; [done|apply Hn; by right].
  - intros; apply Hw. by right.
  - by eapply held_extends.
  - split; [done|by etrans].
Qed.

Lemma elem_of_fingerprints f l i :
  (f, l) ∈ offers_by_fingerprint offers → i ∈ l → fingerprint_at offers i f.
Proof.
  unfold offers_by_fingerprint. intros [_ ->]%elem_of_grouped Hi.
  apply list_elem_of_fmap in Hi as ([f' i'] & -> & [Hin Hf]%elem_of_having). cbn in Hf. subst f'.
  apply elem_of_bfilter in Hin as [Hin Hu]. apply elem_of_lookup_imap in Hin as (j & o & [= -> ->] & Ho).
  by exists o.
Qed.

Lemma fingerprints_nodup f l : (f, l) ∈ offers_by_fingerprint offers → NoDup l.
Proof.
  unfold offers_by_fingerprint. intros [_ ->]%elem_of_grouped.
  assert (∀ (fs : list (list string * nat)), NoDup fs.*2 → NoDup (snd <$> having fst f (List.filter
     (λ fi : list string * nat, usable_fingerprint fi.1) fs))) as H.
  { intros fs. unfold having. induction fs as [|x fs IH]; [done|]. intros Hnd. inversion Hnd as [|? ? Hx Hnd']; subst.
    cbn [List.filter]. destruct (usable_fingerprint x.1); [|auto]. cbn [List.filter].
    case_bool_decide; [|auto]. cbn. constructor; [|auto].
    intros (y & Hy & [ [Hin _]%elem_of_bfilter _]%elem_of_bfilter)%list_elem_of_fmap.
    apply Hx, list_elem_of_fmap. eauto. }
  apply H. rewrite fmap_imap.
  assert (∀ g : nat → DiscoveredOffer → nat, (∀ i o, g i o = i) → imap g offers = seq 0 (length offers)) as Hseq.
  { intros g Hg. apply list_eq. intros i. rewrite list_lookup_imap. destruct (offers !! i) eqn:E; cbn.
    - symmetry. rewrite Hg. apply lookup_seq. split; [done|]. by eapply lookup_lt_Some.
    - symmetry. apply lookup_seq_ge. by apply lookup_ge_None in E. }
  rewrite Hseq by done. apply NoDup_seq.
Qed.

Lemma fingerprint_phase_fine st f l :
  (f, l) ∈ offers_by_fingerprint offers → fine st (fingerprint_phase digest24 now offers known st (f, l)).
Proof.
  intros Hfl. pose proof (λ i, elem_of_fingerprints f l i Hfl) as Hfp. unfold fingerprint_phase.
  set (un := List.filter (λ i, match assigned st i with None => true | Some _ => false end) l).
  assert (NoDup un) as Hnd by by apply NoDup_bfilter, (fingerprints_nodup f).
  assert (∀ x, x ∈ un → x ∈ l ∧ assigned st x = None) as Hun.
  { intros x [? Hx]%elem_of_bfilter. split; [done|]. by destruct (assigned st x). }
  clearbody un. destruct un as [|first rest]; [apply fine_refl|].
  set (ts := remove_dups _). intros Hs.
  assert (∀ t, t ∈ ts → hld st t ∧ ∀ x, x ∈ l → why x (assign t "exact_fingerprint" (95 # 100))) as Hts.
  { intros t. unfold ts. rewrite elem_of_remove_dups, elem_of_app.
    intros [(a & -> & (j & Hj & Ha)%list_elem_of_omap)%list_elem_of_fmap|Hk].
    - split; [by eapply so_held|]. intros x Hx. eapply ByFingerprint; [by apply Hfp|apply Hfp; exact Hj|].
      by eapply so_reason.
    - apply list_elem_of_fmap in Hk as (k & -> & Hk).
      destruct (dget (known_by_fingerprint known) f) as [ks|] eqn:Ek; [|by apply elem_of_nil in Hk].
      apply dget_elem in Ek. unfold known_by_fingerprint in Ek. apply elem_of_grouped in Ek as [_ ->].
      apply list_elem_of_fmap in Hk as (k' & -> & [Hin Hf]%elem_of_having). split.
      + right. left. apply list_elem_of_fmap. eauto.
      + intros x Hx. eapply ByKnown; [by apply Hfp|exact Hin|exact Hf]. }
  clearbody ts. destruct ts as [|t [|? ?] ].
  - destruct rest as [|second rest]; [by apply fine_refl|].
    destruct (hint_at offers first) as [h|]; [|by apply fine_refl].
    set (m := identity_from_hint now h _ false).
    destruct (settle_fingerprint_fine (mi_id m) (add_created m st) (first :: second :: rest)) as [? He];
      [done|intros x [_ Hx]%Hun; exact Hx| |apply created_held|by apply sound_created|].
    + intros x Hx. pose proof (Hun x Hx) as [Hxl _].
      assert (first ≠ second) as Hne.
      { intros ->. apply NoDup_cons in Hnd as [Hno _]. apply Hno. left. }
      destruct (decide (x = first)) as [->|?].
      * apply (ByNewFingerprint _ _ _ _ first second f); [by apply Hfp| |done].
        apply Hfp, Hun. right. left.
      * apply (ByNewFingerprint _ _ _ _ x first f); [by apply Hfp| |done].
        apply Hfp, Hun. left.
    + split; [done|]. etrans; [apply extends_created|done].
  - destruct (Hts t ltac:(left)) as [Hh Hw].
    destruct (settle_fingerprint_fine t st (first :: rest)) as [? ?];
      [done|intros x [_ Hx]%Hun; exact Hx|intros x [Hx _]%Hun; by apply Hw|done|done|done].
  - by apply fine_refl.
Qed.

Lemma provisional_phase_fine st io :
  io ∈ imap pair offers → fine st (provisional_phase digest24 now st io) ∧
  is_Some (assigned (provisional_phase digest24 now st io) io.1).
Proof.
  destruct io as [i o]. intros (j & o' & [= -> ->] & Ho)%elem_of_lookup_imap. cbn [fst provisional_phase].
  destruct (assigned st j) as [a|] eqn:Ea; [split; [apply fine_refl|eauto]|]. split.
  - set (m := identity_from_hint now _ _ true). intros Hs.
    destruct (set_sound digest24 offers known approved (add_created m st) j (assign (mi_id m) "provisional" (4 # 10)))
      as [? ?]; [by apply sound_created|done|by eapply ByItself|apply created_held|].
    split; [done|]. etrans; [apply extends_created|done].
  - rewrite assigned_set. rewrite decide_True by done. eauto.
Qed.

Lemma provisional_total l st :
  (∀ io, io ∈ l → io ∈ imap pair offers) →
  let st' := fold_left (provisional_phase digest24 now) l st in
  fine st st' ∧ (∀ i a, assigned st i = Some a → assigned st' i = Some a) ∧
  ∀ io, io ∈ l → is_Some (assigned st' io.1).
Proof.
  revert st. induction l as [|io l IH]; intros st Hl; cbn [fold_left].
  { split_and!; [apply fine_refl|done|by intros ? ?%elem_of_nil]. }
  destruct (provisional_phase_fine st io (Hl io ltac:(left))) as [Hf Hi].
  destruct (IH (provisional_phase digest24 now st io)) as (Hf' & Hk & Hr); [intros; apply Hl; by right|].
  split_and!.
  - by eapply fine_trans.
  - intros i a Ha. apply Hk. destruct io as [j o]. unfold provisional_phase.
    destruct (assigned st j) as [b|] eqn:Eb; [done|]. rewrite assigned_set.
    destruct (decide (i = j)) as [->|?]; [congruence|done].
  - intros jo [->|Hin]%elem_of_cons; [|auto]. destruct Hi as [a Ha]. exists a. by apply Hk.
Qed.

Lemma final_state_sound :
  let st := final_state digest24 now offers known approved in
  snd_ st ∧ extends (alias_phase offers approved) st ∧ ∀ i, i < length offers → is_Some (assigned st i).
Proof.
  unfold final_state. set (st1 := fold_left (component_phase _ _ _) _ _).
  assert (fine (alias_phase offers approved) st1) as F1.
  { apply fine_fold. intros st [c s] Hc. by apply component_phase_fine. }
  set (st2 := fold_left (fingerprint_phase _ _ _ _) _ st1).
  assert (fine st1 st2) as F2.
  { apply fine_fold. intros st [f l] Hfl. by apply fingerprint_phase_fine. }
  destruct (provisional_total (imap pair offers) st2) as (F3 & _ & Htot); [done|].
  destruct (fine_trans _ _ _ F1 (fine_trans _ _ _ F2 F3)) as [Hs He]; [apply alias_phase_sound|].
  split_and!; [exact Hs|exact He|]. intros i Hi. destruct (lookup_lt_is_Some_2 offers i Hi) as [o Ho].
  apply (Htot (i, o)). apply elem_of_lookup_imap. eauto.
Qed.
End phases.

(** ** The result *)

Lemma reconcile_lookup digest24 now offers known approved i o :
  offers !! i = Some o →
  ∃ a, (reconcile digest24 now offers known approved).2 !! i = Some {| rc_discovered := o; rc_assignment := a |} ∧
       assigned (final_state digest24 now offers known approved) i = Some a.
Proof.
  destruct (final_state_sound digest24 now offers known approved) as (_ & _ & Htot).
  unfold reconcile. cbn [snd]. set (st := final_state _ _ _ _ _) in *. intros Ho.
  destruct (Htot i) as [a Ha]; [by eapply lookup_lt_Some|]. exists a. split; [|done].
  assert (∀ l k, (∀ j, j < length l → is_Some (assigned st (k + j))) → ∀ j o, l !! j = Some o →
    ∃ b, assigned st (k + j) = Some b ∧
    omap (λ io : nat * DiscoveredOffer,
      match assigned st io.1 with Some a => Some {| rc_discovered := io.2; rc_assignment := a |} | None => None end)
      (imap (λ m x, (k + m, x)) l) !! j = Some {| rc_discovered := o; rc_assignment := b |}) as H.
  { clear. induction l as [|x l IH]; intros k Hk j o Hj; [done|]. rewrite imap_cons.
    assert (imap ((λ m (x : DiscoveredOffer), (k + m, x)) ∘ S) l = imap (λ m x, (S k + m, x)) l) as ->
      by (apply imap_ext; intros; cbn; f_equal; lia).
    cbn [omap list_omap fst snd]. destruct (Hk 0 ltac:(cbn; lia)) as [b Hb]. rewrite Hb.
    destruct j as [|j].
    { cbn in Hj. injection Hj as ->. exists b. split; [exact Hb|]. reflexivity. }
    destruct (IH (S k)) with (j := j) (o := o) as (b' & Hb' & Hl); [|done|].
    { intros m Hm. replace (S k + m) with (k + S m) by lia. apply Hk. cbn. lia. }
    exists b'. split; [by replace (k + S j) with (S k + j) by lia|exact Hl]. }
  destruct (H offers 0) with (j := i) (o := o) as (b & Hb & Hl); [apply Htot|done|].
  cbn in Hb. rewrite Hb in Ha. injection Ha as ->. exact Hl.
Qed.

(** reconciliation answers every discovered offer, in order and with exactly one
    assignment; an offer with an active approved alias always gets that alias's identity,
    with method [approved_alias] and full confidence, whatever the other evidence says; any
    other assignment rests on the evidence its method and confidence name; and the identity
    assigned is one somebody holds: approved, already known, or created by this pass. *)
Theorem reconcile_justified digest24 now offers known approved :
  let '(created, out) := reconcile digest24 now offers known approved in
  rc_discovered <$> out = offers ∧
  ∀ i r, out !! i = Some r →
    Reason digest24 offers known approved i (rc_assignment r) ∧
    (∀ a, alias_of approved (rc_discovered r) = Some a → rc_assignment r = assign (ad_identity a) "approved_alias" 1) ∧
    ((∃ a, a ∈ (active_aliases approved).*2 ∧ ad_identity a = as_identity (rc_assignment r)) ∨
     as_identity (rc_assignment r) ∈ mi_id <$> known ∨ as_identity (rc_assignment r) ∈ mi_id <$> created).
Proof.
  pose proof (reconcile_lookup digest24 now offers known approved) as Hlook.
  destruct (final_state_sound digest24 now offers known approved) as ([Hr Hh Hk] & [He _] & _).
  destruct (reconcile digest24 now offers known approved) as [created out] eqn:E. cbn [snd] in Hlook.
  assert (length out ≤ length offers) as Hlen.
  { replace out with ((reconcile digest24 now offers known approved).2) by by rewrite E.
    unfold reconcile. cbn [snd]. etrans; [apply omap_short|]. by rewrite length_imap. }
  split.
  - apply list_eq_same_length with (n := length offers); [done| |].
    + rewrite length_fmap. apply Nat.le_antisymm; [done|]. apply Nat.nlt_ge. intros Hlt.
      destruct (lookup_lt_is_Some_2 offers (length out) Hlt) as [o Ho].
      destruct (Hlook _ _ Ho) as (a & Ha & _). apply lookup_lt_Some in Ha. lia.
    + intros i x y Hi Hx Hy. rewrite list_lookup_fmap in Hx. destruct (Hlook _ _ Hy) as (a & Ha & _).
      rewrite Ha in Hx. cbn in Hx. congruence.
  - intros i r Hi.
    destruct (lookup_lt_is_Some_2 offers i) as [o Ho]; [apply lookup_lt_Some in Hi; lia|].
    destruct (Hlook _ _ Ho) as (a & Ha & Has). rewrite Ha in Hi. injection Hi as <-. cbn [rc_assignment rc_discovered].
    split_and!; [by apply Hr| |].
    + intros al Hal. specialize (He i (assign (ad_identity al) "approved_alias" 1)). rewrite alias_phase_assigned, Ho, Hal in He.
      specialize (He eq_refl). congruence.
    + destruct (Hh i a Has) as [?|[?|Hc] ]; [by left|by right; left|right; right].
      replace created with ((rs_created (final_state digest24 now offers known approved)).*2)
        by (unfold reconcile in E; congruence).
      apply list_elem_of_fmap in Hc as ([k m] & Hkm & Hin). cbn in Hkm. subst k.
      rewrite (Hk _ _ Hin). apply list_elem_of_fmap. exists m. split; [done|]. apply list_elem_of_fmap. by exists (as_identity a, m).
Qed.

(** Two providers of one public model, chained through a third that publishes both ids. *)
Definition sample_offer (canonical hugging_face : option string) : DiscoveredOffer :=
  {| do_provider := openrouter; do_upstream := "m"; do_base_url := ""; do_scope := {| kind := platform; scope_id := "w" |};
     do_identity := infer_identity_hint "m" "m" canonical hugging_face None None None;
     do_capabilities := {| cap_context_window := None; cap_max_output_tokens := None; cap_modalities := [];
                           cap_supported := []; cap_residency := [] |};
     do_pricing := {| offer_prompt := None; offer_completion := None; offer_request := None; offer_image := None |};
     do_raw := [] |}.

Definition sample_offers : list DiscoveredOffer :=
  [sample_offer (Some "v/a") None; sample_offer (Some "v/b") None; sample_offer (Some "v/a") (Some "v/b")].

Lemma sample_linked i j :
  match sample_offers !! i, sample_offers !! j with
  | Some oi, Some oj =>
      bool_decide (behavior_fingerprint (do_identity oi) = behavior_fingerprint (do_identity oj)) &&
      existsb (λ s, s ∈? identifiers_of oj) (identifiers_of oi)
  | _, _ => false
  end = true → linked sample_offers i j.
Proof.
  destruct (sample_offers !! i) as [oi|] eqn:Ei, (sample_offers !! j) as [oj|] eqn:Ej; try done.
  intros [Hb (s & Hs & Hj)%existsb_exists]%andb_true_iff. exists oi, oj, s.
  apply bool_decide_eq_true in Hb, Hj. rewrite list_elem_of_In. done.
Qed.

Lemma components_exact_witness :
  0 ≠ 1 ∧ ∃ c s, (c, s) ∈ identifier_components sample_offers ∧ 0 ∈ c ∧ 1 ∈ c.
Proof.
  split; [done|]. apply (components_exact sample_offers 0 1); [done|]. split_and!; [cbn; lia|cbn; lia|].
  trans 2; apply rtc_once, sample_linked; vm_compute; reflexivity.
Defined.
