(* ===== verification/Ledger.v ===== *)
(** * The inventory-refresh operation ledger ([benchmarking/platform_store.py])

    The table of refresh operations as a dict by [operation_id] and its statements as
    functions: idempotent submission, the execution lease with its claims, renewals and
    fence, terminal results, recovery and pruning.  Both database dialects issue the same
    statements; each runs in a transaction, so an error leaves the table as it was. *)

From stdpp Require Import sorting.
From S2P Require Import Prelude PyStr PyDict Schemas ExactCache.

(** ** Rows *)

(** What a statement or a check of the store can raise. *)
Inductive StoreError : Type :=
  | EValue (msg : string)
  | ERuntime (msg : string)
  | EIntegrity
  | EFence.

Inductive OpStatus : Type := Queued | Running | Succeeded | Partial | Failed | Cancelled.

#[export] Instance OpStatus_eq_dec : EqDecision OpStatus.
Proof. solve_decision. Defined.

(** [_OPERATION_TERMINAL] *)
Definition terminal (s : OpStatus) : bool :=
  match s with Queued | Running => false | _ => true end.

(** [_OPERATION_STATUSES] *)
Definition OPERATION_STATUSES : list (string * OpStatus) :=
  [("queued", Queued); ("running", Running); ("succeeded", Succeeded); ("partial", Partial);
   ("failed", Failed); ("cancelled", Cancelled)].

(** [json.loads(_json(v))]: the keys of every object come back sorted. *)
Fixpoint stored_json (v : json) : json :=
  match v with
  | JObj d => JObj (sort_by (λ a b : string * json, str_leb a.1 b.1) (map (λ kv, (kv.1, stored_json kv.2)) d))
  | JList l => JList (map stored_json l)
  | _ => v
  end.

Definition stored_dict (d : list (string * json)) : list (string * json) :=
  match stored_json (JObj d) with JObj d' => d' | _ => [] end.

(** A row of [inventory_refresh_operations]. *)
Record Op := {
  op_id : string;
  op_actor : string;
  op_scope : string;
  op_target : string;
  op_key : string;
  op_fingerprint : string;
  op_status : OpStatus;
  op_plan : list (string * json);
  op_result : list (string * json);
  op_error : option string;
  op_created_at : Q;
  op_updated_at : Q;
  op_expires_at : Q;
  op_lease_owner : option string;
  op_lease_expires_at : option Q;
}.

(** [_operation_from_row] gives an empty target back as [None]. *)
Definition op_target_user (o : Op) : option string := if op_target o ≡? "" then None else Some (op_target o).

Abbreviation Ops := (list (string * Op)).

(** The unique key [(actor_id, scope, target_user_id, idempotency_key)]. *)
Definition op_unique (o : Op) : string * string * string * string := (op_actor o, op_scope o, op_target o, op_key o).

(** [CHECK (scope IN ...)], as widened by the fourth migration. *)
Definition OP_SCOPES : list string := ["effective"; "platform"; "user"; "organization"].

(** ** Submission *)

(** The arguments of [claim_inventory_refresh_operation]. *)
Record OpRequest := {
  rq_id : string;
  rq_actor : string;
  rq_scope : string;
  rq_target : option string;
  rq_key : string;
  rq_fingerprint : string;
  rq_now : Q;
  rq_expires_at : Q;
  rq_plan : list (string * json);
}.

Definition queued_row (r : OpRequest) : Op :=
  {| op_id := rq_id r; op_actor := rq_actor r; op_scope := rq_scope r;
     op_target := match rq_target r with Some t => t | None => "" end; op_key := rq_key r;
     op_fingerprint := rq_fingerprint r; op_status := Queued; op_plan := stored_dict (rq_plan r); op_result := [];
     op_error := None; op_created_at := rq_now r; op_updated_at := rq_now r; op_expires_at := rq_expires_at r;
     op_lease_owner := None; op_lease_expires_at := None |}.

(** [_OPERATION_BY_KEY_SQL] *)
Definition by_unique (t : Ops) (k : string * string * string * string) : option Op :=
  first_such (λ o, op_unique o ≡? k) t.*2.

(** [_OPERATION_INSERT_SQL]: a row under the same unique key is kept. *)
Definition insert_op (row : Op) (t : Ops) : res StoreError (bool * Ops) :=
  if negb (op_scope row ∈? OP_SCOPES) then Err EIntegrity
  else match by_unique t (op_unique row) with
  | Some _ => Ok (false, t)
  | None => if dmem t (op_id row) then Err EIntegrity else Ok (true, dset t (op_id row) row)
  end.

(** [_validate_operation_claim] *)
Definition validate_operation_claim (created : bool) (row : option Op) (fingerprint : string)
    : res StoreError (bool * Op) :=
  match row with
  | None => Err (ERuntime "inventory refresh operation claim was not retained")
  | Some o =>
      if op_fingerprint o ≡? fingerprint then Ok (created, o)
      else Err (EValue "Idempotency-Key reused with different intent")
  end.

(** [claim_inventory_refresh_operation] *)
Definition claim_operation (r : OpRequest) (t : Ops) : res StoreError (bool * Op * Ops) :=
  let row := queued_row r in
  match insert_op row t with
  | Err e => Err e
  | Ok (created, t') =>
      match validate_operation_claim created (by_unique t' (op_unique row)) (rq_fingerprint r) with
      | Err e => Err e
      | Ok (created, o) => Ok (created, o, t')
      end
  end.

(** ** The execution lease *)

Definition lease_over (now : Q) (o : Op) : bool :=
  match op_lease_expires_at o with None => true | Some e => Qleb e now end.

Definition claimable (now : Q) (o : Op) : bool :=
  (op_status o ≡? Queued) || ((op_status o ≡? Running) && lease_over now o).

Definition with_lease (owner : option string) (expires : option Q) (s : OpStatus) (now : Q) (o : Op) : Op :=
  {| op_id := op_id o; op_actor := op_actor o; op_scope := op_scope o; op_target := op_target o; op_key := op_key o;
     op_fingerprint := op_fingerprint o; op_status := s; op_plan := op_plan o; op_result := op_result o;
     op_error := op_error o; op_created_at := op_created_at o; op_updated_at := now; op_expires_at := op_expires_at o;
     op_lease_owner := owner; op_lease_expires_at := expires |}.

Definition with_result (s : OpStatus) (result : list (string * json)) (error : option string) (now : Q) (o : Op) : Op :=
  {| op_id := op_id o; op_actor := op_actor o; op_scope := op_scope o; op_target := op_target o; op_key := op_key o;
     op_fingerprint := op_fingerprint o; op_status := s; op_plan := op_plan o; op_result := stored_dict result;
     op_error := error; op_created_at := op_created_at o; op_updated_at := now; op_expires_at := op_expires_at o;
     op_lease_owner := op_lease_owner o; op_lease_expires_at := op_lease_expires_at o |}.

(** [UPDATE ... WHERE operation_id = ? AND guard RETURNING *] *)
Definition update_where (guard : Op → bool) (set : Op → Op) (id : string) (t : Ops) : option Op * Ops :=
  match dget t id with
  | Some o => if guard o then (Some (set o), dset t id (set o)) else (None, t)
  | None => (None, t)
  end.

Definition held_by (owner : string) (o : Op) : bool :=
  (op_status o ≡? Running) && (op_lease_owner o ≡? Some owner).

(** [claim_inventory_refresh_execution] *)
Definition claim_execution (id owner : string) (now lease : Q) (t : Ops) : option Op * Ops :=
  update_where (claimable now) (with_lease (Some owner) (Some lease) Running now) id t.

(** [renew_inventory_refresh_execution] *)
Definition renew_execution (id owner : string) (now lease : Q) (t : Ops) : bool * Ops :=
  let '(row, t) := update_where (held_by owner) (λ o, with_lease (op_lease_owner o) (Some lease) (op_status o) now o) id t in
  (match row with Some _ => true | None => false end, t).

(** [finish_inventory_refresh_execution] *)
Definition finish_execution (id owner status : string) (result : list (string * json)) (error : option string) (now : Q)
    (t : Ops) : res StoreError (option Op * Ops) :=
  match dget OPERATION_STATUSES status with
  | Some s =>
      if terminal s
      then Ok (update_where (held_by owner) (λ o, with_lease None None s now (with_result s result error now o)) id t)
      else Err (EValue ("invalid terminal inventory refresh status '" +:+ status +:+ "'"))
  | None => Err (EValue ("invalid terminal inventory refresh status '" +:+ status +:+ "'"))
  end.

(** [max(1, min(limit, bound))] *)
Definition clamp_limit (limit : Z) (bound : nat) : nat := Z.to_nat (Z.max 1 (Z.min limit (Z.of_nat bound))).

(** [ORDER BY at, operation_id] *)
Definition at_leb (key : Op → Q) (a b : Op) : bool :=
  Qltb (key a) (key b) || (Qleb (key a) (key b) && str_leb (op_id a) (op_id b)).

(** [recoverable_inventory_refresh_operations] *)
Definition recoverable (now : Q) (limit : Z) (t : Ops) : list Op :=
  take (clamp_limit limit 500) (sort_by (at_leb op_created_at) (List.filter (claimable now) t.*2)).

(** [get_inventory_refresh_operation] *)
Definition get_operation (id : string) (t : Ops) : option Op := dget t id.

(** [update_inventory_refresh_operation] *)
Definition update_operation (id status : string) (result : list (string * json)) (error : option string) (now : Q)
    (t : Ops) : res StoreError (Op * Ops) :=
  match dget OPERATION_STATUSES status with
  | None => Err (EValue ("invalid inventory refresh operation status '" +:+ status +:+ "'"))
  | Some s =>
      let t' := (update_where (λ _, true) (with_result s result error now) id t).2 in
      match get_operation id t' with
      | Some o => Ok (o, t')
      | None => Err (EValue ("unknown inventory refresh operation '" +:+ id +:+ "'"))
      end
  end.

(** [prune_inventory_refresh_operations]: the number of rows removed. *)
Definition prunable (now : Q) (o : Op) : bool := terminal (op_status o) && Qleb (op_expires_at o) now.

Definition prune (now : Q) (limit : Z) (t : Ops) : nat * Ops :=
  let rows := take (clamp_limit limit 1000) (sort_by (at_leb op_expires_at) (List.filter (prunable now) t.*2)) in
  (length rows, fold_left (λ t o, dpop t (op_id o)) rows t).

(** ** The fence *)

Record Fence := { fe_operation : string; fe_owner : string; fe_now : Q }.

(** [_assert_inventory_execution_fence_sqlite] *)
Definition lease_live (f : Fence) (o : Op) : bool :=
  held_by (fe_owner f) o && match op_lease_expires_at o with Some e => Qltb (fe_now f) e | None => false end.

Definition assert_fence (f : Fence) (t : Ops) : res StoreError unit :=
  match dget t (fe_operation f) with
  | Some o => if lease_live f o then Ok tt else Err EFence
  | None => Err EFence
  end.

(** ** Histories *)

(** The calls that change the ledger. *)
Inductive Event : Type :=
  | Submit (r : OpRequest)
  | Claim (id owner : string) (now lease : Q)
  | Renew (id owner : string) (now lease : Q)
  | Finish (id owner status : string) (result : list (string * json)) (error : option string) (now : Q)
  | Update (id status : string) (result : list (string * json)) (error : option string) (now : Q)
  | Prune (now : Q) (limit : Z).

Definition apply (t : Ops) (e : Event) : Ops :=
  match e with
  | Submit r => match claim_operation r t with Ok (_, _, t') => t' | Err _ => t end
  | Claim id owner now lease => (claim_execution id owner now lease t).2
  | Renew id owner now lease => (renew_execution id owner now lease t).2
  | Finish id owner status result error now =>
      match finish_execution id owner status result error now t with Ok (_, t') => t' | Err _ => t end
  | Update id status result error now =>
      match update_operation id status result error now t with Ok (_, t') => t' | Err _ => t end
  | Prune now limit => (prune now limit t).2
  end.

Definition history (es : list Event) (t : Ops) : Ops := fold_left apply es t.

(** ** Well-formed ledgers *)

(** Rows sit under their id, and no two share a unique key. *)
Record ledger_ok (t : Ops) : Prop := {
  lo_nodup : NoDup (dkeys t);
  lo_id i o : dget t i = Some o → op_id o = i;
  lo_unique i j a b : dget t i = Some a → dget t j = Some b → op_unique a = op_unique b → i = j;
}.

Lemma ledger_ok_nil : ledger_ok [].
Proof. by split; [apply NoDup_nil_2|..]. Qed.

Lemma elem_of_rows t o : ledger_ok t → o ∈ t.*2 ↔ dget t (op_id o) = Some o.
Proof.
  intros [Hn Hi _]. split.
  - intros ([i o'] & -> & Hin)%list_elem_of_fmap. cbn. apply elem_dget in Hin; [|done]. by rewrite (Hi _ _ Hin).
  - intros H%dget_elem. apply list_elem_of_fmap. by exists (op_id o, o).
Qed.

Lemma by_unique_some t k o : ledger_ok t → by_unique t k = Some o ↔ dget t (op_id o) = Some o ∧ op_unique o = k.
Proof.
  intros Hok. unfold by_unique. split.
  - intros [Hin Hk]%first_such_some. rewrite (elem_of_rows t o Hok) in Hin. by case_bool_decide.
  - intros [Hd Hk]. destruct (first_such_is_some (λ o, op_unique o ≡? k) t.*2 o) as [o' Ho'];
      [by apply elem_of_rows|by apply bool_decide_eq_true|].
    rewrite Ho'. apply first_such_some in Ho' as [Hin' Hk']. rewrite (elem_of_rows t o' Hok) in Hin'.
    case_bool_decide as E; [|done].
    pose proof (lo_unique t Hok _ _ _ _ Hin' Hd ltac:(congruence)). congruence.
Qed.

Lemma by_unique_none t k : ledger_ok t → by_unique t k = None → ∀ i o, dget t i = Some o → op_unique o ≠ k.
Proof.
  intros Hok Hn i o Ho <-. pose proof (lo_id t Hok _ _ Ho) as <-.
  assert (by_unique t (op_unique o) = Some o) by by apply by_unique_some. congruence.
Qed.

Lemma dget_dset_cases (t : Ops) k v i : dget (dset t k v) i = if decide (i = k) then Some v else dget t i.
Proof. destruct (decide (i = k)) as [->|]; [by rewrite dget_dset_eq|by rewrite dget_dset_ne]. Qed.

(** Updating a row in place keeps the ledger well-formed. *)
Lemma update_where_ok guard set id t :
  (∀ o, op_id (set o) = op_id o ∧ op_unique (set o) = op_unique o) →
  ledger_ok t → ledger_ok (update_where guard set id t).2.
Proof.
  intros Hset Hok. unfold update_where. destruct (dget t id) as [o|] eqn:Eo; [|done].
  destruct (guard o); [|done]. destruct (Hset o) as [Hi Hu]. pose proof (lo_id t Hok _ _ Eo) as Hid. split; cbn.
  - apply NoDup_dset, Hok.
  - intros i o'. rewrite dget_dset_cases. destruct (decide (i = id)) as [->|]; [intros [= <-]; congruence|by apply Hok].
  - intros i j a b. rewrite !dget_dset_cases.
    destruct (decide (i = id)) as [->|], (decide (j = id)) as [->|]; [done|..].
    + intros [= <-] Hb. rewrite Hu. intros He. by apply (lo_unique t Hok _ _ _ _ Eo Hb).
    + intros Ha [= <-]. rewrite Hu. intros He. by apply (lo_unique t Hok _ _ _ _ Ha Eo).
    + by apply Hok.
Qed.

Lemma insert_op_ok row t b t' : ledger_ok t → insert_op row t = Ok (b, t') → ledger_ok t'.
Proof.
  intros Hok. unfold insert_op. destruct (op_scope row ∈? OP_SCOPES); [|done]. cbn [negb].
  destruct (by_unique t (op_unique row)) eqn:Eu; [by intros [= <- <-]|].
  destruct (dmem t (op_id row)) eqn:Em; [done|]. intros [= <- <-].
  pose proof (by_unique_none t _ Hok Eu) as Hn. split.
  - apply NoDup_dset, Hok.
  - intros i o. rewrite dget_dset_cases. case_decide; [intros [= <-]; done|by apply Hok].
  - intros i j x y. rewrite !dget_dset_cases. repeat case_decide; [congruence|..].
    + intros [= <-] Hy He. by destruct (Hn _ _ Hy).
    + intros Hx [= <-] He. by destruct (Hn _ _ Hx).
    + by apply Hok.
Qed.

Lemma dpop_ok t k : ledger_ok t → ledger_ok (dpop t k).
Proof.
  intros Hok.
  assert (∀ i o, dget (dpop t k) i = Some o → dget t i = Some o) as Hsub.
  { intros i o. destruct (decide (i = k)) as [->|]; [by rewrite dget_dpop_eq|by rewrite dget_dpop_ne]. }
  split.
  - apply NoDup_dpop, Hok.
  - intros i o ?%Hsub. by apply Hok.
  - intros i j a b ?%Hsub ?%Hsub. by apply Hok.
Qed.

Lemma prune_ok now limit t : ledger_ok t → ledger_ok (prune now limit t).2.
Proof.
  unfold prune. cbn [snd]. generalize (take (clamp_limit limit 1000) (sort_by (at_leb op_expires_at) (List.filter (prunable now) t.*2))).
  intros rows. revert t. induction rows as [|o rows IH]; intros t Hok; [done|]. cbn. by apply IH, dpop_ok.
Qed.

Lemma apply_ok t e : ledger_ok t → ledger_ok (apply t e).
Proof.
  intros Hok. destruct e as [r|id ow n l|id ow n l|id ow s rs er n|id s rs er n|n l]; cbn [apply].
  - unfold claim_operation. destruct (insert_op _ t) as [ [c t']|] eqn:E; [|done].
    destruct (validate_operation_claim _ _ _) as [ [c' o]|]; [|done]. by eapply insert_op_ok.
  - by apply update_where_ok.
  - unfold renew_execution. pose proof (update_where_ok (held_by ow) (λ o, with_lease (op_lease_owner o) (Some l) (op_status o) n o) id t) as H.
    destruct (update_where _ _ id t). cbn in *. by apply H.
  - unfold finish_execution. destruct (dget OPERATION_STATUSES s) as [st|]; [|done]. destruct (terminal st); [|done].
    pose proof (update_where_ok (held_by ow) (λ o, with_lease None None st n (with_result st rs er n o)) id t) as H.
    destruct (update_where _ _ id t). cbn in *. by apply H.
  - unfold update_operation. destruct (dget OPERATION_STATUSES s) as [st|]; [|done].
    destruct (get_operation _ _); [|done]. by apply update_where_ok.
  - by apply prune_ok.
Qed.

Lemma history_ok es t : ledger_ok t → ledger_ok (history es t).
Proof. revert t. induction es as [|e es IH]; intros t Hok; [done|]. cbn. by apply IH, apply_ok. Qed.

(** ** What each statement leaves alone *)

Lemma update_where_other guard set i t id : i ≠ id → dget (update_where guard set i t).2 id = dget t id.
Proof.
  intros Hne. unfold update_where. destruct (dget t i) as [o|]; [|done]. destruct (guard o); [|done]. cbn.
  rewrite dget_dset_cases. by rewrite decide_False.
Qed.

Lemma update_where_refused guard set i t o : dget t i = Some o → guard o = false → update_where guard set i t = (None, t).
Proof. intros Ho Hg. unfold update_where. by rewrite Ho, Hg. Qed.

Lemma update_where_taken guard set i t o :
  dget t i = Some o → guard o = true → update_where guard set i t = (Some (set o), dset t i (set o)).
Proof. intros Ho Hg. unfold update_where. by rewrite Ho, Hg. Qed.

Lemma insert_op_keeps row t b t' id o : insert_op row t = Ok (b, t') → dget t id = Some o → dget t' id = Some o.
Proof.
  unfold insert_op. destruct (op_scope row ∈? OP_SCOPES); [|done]. cbn [negb].
  destruct (by_unique t (op_unique row)); [by intros [= <- <-]|].
  unfold dmem. destruct (dget t (op_id row)) eqn:Em; [done|]. intros [= <- <-] Ho.
  rewrite dget_dset_ne; congruence.
Qed.

Lemma submit_keeps r t id o : dget t id = Some o → dget (apply t (Submit r)) id = Some o.
Proof.
  intros Ho. cbn [apply]. unfold claim_operation. destruct (insert_op _ t) as [ [c t']|] eqn:E; [|done].
  destruct (validate_operation_claim _ _ _) as [ [c' o']|]; [|done]. by eapply insert_op_keeps.
Qed.

Lemma prune_keeps now limit t id o :
  ledger_ok t → dget t id = Some o → prunable now o = false → dget (prune now limit t).2 id = Some o.
Proof.
  intros Hok Ho Hp. unfold prune. cbn [snd].
  assert (∀ x, x ∈ take (clamp_limit limit 1000) (sort_by (at_leb op_expires_at) (List.filter (prunable now) t.*2)) →
            op_id x ≠ id) as Hne.
  { intros x Hx%elem_of_take. destruct Hx as (n & Hx & _). apply list_elem_of_lookup_2 in Hx.
    rewrite elem_of_sort_by in Hx. apply elem_of_bfilter in Hx as [Hx Hpx]. apply elem_of_rows in Hx; [|done].
    intros <-. congruence. }
  revert Hne. generalize (take (clamp_limit limit 1000) (sort_by (at_leb op_expires_at) (List.filter (prunable now) t.*2))) as rows.
  intros rows. revert t Hok Ho. induction rows as [|x rows IH]; intros t Hok Ho Hne; [done|]. cbn [fold_left].
  apply IH; [by apply dpop_ok| |intros y Hy; apply Hne; by right].
  rewrite dget_dpop_ne; [done|]. intros ->. by apply (Hne x ltac:(left)).
Qed.

(** ** Exclusive execution *)

(** Calls that are not the holder's own and, when they claim, come before the lease ends.
    [update_inventory_refresh_operation] ignores the lease, so it must be for another row. *)
Definition others_before (id owner : string) (T : Q) (e : Event) : Prop :=
  match e with
  | Submit _ | Prune _ _ => True
  | Claim i _ now _ => i = id → (now < T)%Q
  | Renew i o _ _ => i = id → o ≠ owner
  | Finish i o _ _ _ _ => i = id → o ≠ owner
  | Update i _ _ _ _ => i ≠ id
  end.

Record leased (id owner : string) (T : Q) (t : Ops) (o : Op) : Prop := {
  le_row : dget t id = Some o;
  le_status : op_status o = Running;
  le_owner : op_lease_owner o = Some owner;
  le_until : op_lease_expires_at o = Some T;
}.

Lemma leased_not_claimable id owner T t o now : leased id owner T t o → claimable now o = Qleb T now.
Proof. intros [_ Hs _ Hu]. unfold claimable, lease_over. by rewrite Hs, Hu. Qed.

Lemma leased_not_held id owner T t o other : leased id owner T t o → other ≠ owner → held_by other o = false.
Proof.
  intros [_ Hs Ho _] Hne. unfold held_by. rewrite Hs, Ho. cbn. apply bool_decide_eq_false. congruence.
Qed.

Lemma leased_step id owner T t o e :
  ledger_ok t → leased id owner T t o → others_before id owner T e → leased id owner T (apply t e) o.
Proof.
  intros Hok Hl He. split; [|apply Hl..]. pose proof (le_row _ _ _ _ _ Hl) as Ho.
  destruct e as [r|i ow n l|i ow n l|i ow s rs er n|i s rs er n|n l]; cbn [others_before] in He.
  - by apply submit_keeps.
  - cbn [apply]. unfold claim_execution. destruct (decide (i = id)) as [->|Hne]; [|by rewrite update_where_other].
    rewrite (update_where_refused _ _ _ _ o Ho); [done|]. rewrite (leased_not_claimable _ _ _ _ _ _ Hl).
    apply Qleb_false. auto.
  - cbn [apply]. unfold renew_execution.
    destruct (decide (i = id)) as [->|Hne].
    + rewrite (update_where_refused _ _ _ _ o Ho); [done|]. eapply leased_not_held; eauto.
    + pose proof (update_where_other (held_by ow) (λ o, with_lease (op_lease_owner o) (Some l) (op_status o) n o) i t id Hne) as H.
      destruct (update_where _ _ i t). cbn in *. congruence.
  - cbn [apply]. unfold finish_execution. destruct (dget OPERATION_STATUSES s) as [st|]; [|done].
    destruct (terminal st); [|done]. destruct (decide (i = id)) as [->|Hne].
    + rewrite (update_where_refused _ _ _ _ o Ho); [done|]. eapply leased_not_held; eauto.
    + pose proof (update_where_other (held_by ow) (λ o, with_lease None None st n (with_result st rs er n o)) i t id Hne) as H.
      destruct (update_where _ _ i t). cbn in *. congruence.
  - cbn [apply]. unfold update_operation. destruct (dget OPERATION_STATUSES s) as [st|]; [|done].
    destruct (get_operation _ _); [|done]. by rewrite update_where_other.
  - cbn [apply]. apply prune_keeps; [done..|]. unfold prunable. by rewrite (le_status _ _ _ _ _ Hl).
Qed.

Lemma leased_history id owner T t o es :
  ledger_ok t → leased id owner T t o → Forall (others_before id owner T) es → leased id owner T (history es t) o.
Proof.
  intros Hok Hl Hes. revert t Hok Hl. induction Hes as [|e es He _ IH]; intros t Hok Hl; [done|]. cbn.
  apply IH; [by apply apply_ok|by apply leased_step].
Qed.

Lemma claim_leased id owner now T t o t' :
  claim_execution id owner now T t = (Some o, t') → leased id owner T t' o.
Proof.
  unfold claim_execution, update_where. destruct (dget t id) as [o0|]; [|done]. destruct (claimable now o0); [|done].
  intros [= <- <-]. split; try done. apply dget_dset_eq.
Qed.

(** C38: execution is exclusive: in any ledger reachable from the empty one, once a worker's
    claim succeeds, then whatever submissions, prunings, renewals, finishes and claims the
    other workers make before its lease ends, its row stays exactly as it was claimed, its
    fence holds up to the end of the lease and nobody else's ever does, and every claim made
    before that end is refused; from the end on, any worker's claim succeeds, so a crashed
    holder does not keep the operation. *)
Theorem lease_exclusive es0 id owner now T o t1 es :
  claim_execution id owner now T (history es0 []) = (Some o, t1) →
  Forall (others_before id owner T) es →
  let t := history es t1 in
  get_operation id t = Some o ∧
  (∀ who n, assert_fence {| fe_operation := id; fe_owner := who; fe_now := n |} t =
            if (who ≡? owner) && Qltb n T then Ok tt else Err EFence) ∧
  (∀ who n lease, (n < T)%Q → claim_execution id who n lease t = (None, t)) ∧
  (∀ who n lease, (T <= n)%Q → ∃ o', (claim_execution id who n lease t).1 = Some o' ∧
     op_lease_owner o' = Some who ∧ op_plan o' = op_plan o).
Proof.
  intros Hc Hes t.
  assert (ledger_ok t1) as Hok.
  { replace t1 with (apply (history es0 []) (Claim id owner now T)) by (cbn; by rewrite Hc).
    apply apply_ok, history_ok, ledger_ok_nil. }
  pose proof (leased_history _ _ _ _ _ _ Hok (claim_leased _ _ _ _ _ _ _ Hc) Hes) as Hl. fold t in Hl.
  destruct Hl as [Hrow Hs Ho Hu]. split_and!; [done|..].
  - intros who n. unfold assert_fence, lease_live, held_by. cbn [fe_operation fe_owner fe_now]. rewrite Hrow, Hs, Ho, Hu.
    cbn [andb bool_decide]. destruct (decide (who = owner)) as [->|Hne].
    + rewrite !bool_decide_eq_true_2 by done. done.
    + rewrite (bool_decide_eq_false_2 (Some owner = Some who)) by congruence.
      by rewrite (bool_decide_eq_false_2 (who = owner)).
  - intros who n lease Hn. apply (update_where_refused _ _ _ _ o Hrow). unfold claimable, lease_over.
    rewrite Hs, Hu. cbn. by apply Qleb_false.
  - intros who n lease Hn. unfold claim_execution. rewrite (update_where_taken _ _ _ _ o Hrow); [by eexists|].
    unfold claimable, lease_over. rewrite Hs, Hu. cbn. by apply Qleb_true.
Qed.

(** ** Results are final, submissions idempotent *)

(** What a row keeps for life. *)
Definition same_operation (a b : Op) : Prop :=
  op_id a = op_id b ∧ op_unique a = op_unique b ∧ op_fingerprint a = op_fingerprint b ∧ op_plan a = op_plan b ∧
  op_created_at a = op_created_at b ∧ op_expires_at a = op_expires_at b.

#[local] Instance same_operation_equiv : Equivalence same_operation.
Proof. split; unfold same_operation; [intros ?|intros ???|intros ?????]; intuition congruence. Qed.

(** No pruning at or after a time. *)
Definition prunes_before (T : Q) (e : Event) : Prop :=
  match e with Prune now _ => (now < T)%Q | _ => True end.

Lemma update_where_same guard set i t id o :
  (∀ o, same_operation (set o) o) → dget t id = Some o →
  ∃ o', dget (update_where guard set i t).2 id = Some o' ∧ same_operation o' o.
Proof.
  intros Hset Ho. destruct (decide (i = id)) as [->|Hne]; [|exists o; by rewrite update_where_other].
  unfold update_where. rewrite Ho. destruct (guard o); [|by exists o]. cbn. rewrite dget_dset_eq. eauto.
Qed.

Lemma kept_step t id o e :
  ledger_ok t → dget t id = Some o → prunes_before (op_expires_at o) e →
  ∃ o', dget (apply t e) id = Some o' ∧ same_operation o' o.
Proof.
  intros Hok Ho He. destruct e as [r|i ow n l|i ow n l|i ow s rs er n|i s rs er n|n l]; cbn [prunes_before] in He.
  - exists o. split; [by apply submit_keeps|done].
  - by apply update_where_same.
  - cbn [apply]. unfold renew_execution.
    pose proof (update_where_same (held_by ow) (λ o, with_lease (op_lease_owner o) (Some l) (op_status o) n o) i t id o) as H.
    destruct (update_where _ _ i t). cbn in *. by apply H.
  - cbn [apply]. unfold finish_execution. destruct (dget OPERATION_STATUSES s) as [st|]; [|by exists o].
    destruct (terminal st); [|by exists o].
    pose proof (update_where_same (held_by ow) (λ o, with_lease None None st n (with_result st rs er n o)) i t id o) as H.
    destruct (update_where _ _ i t). cbn in *. by apply H.
  - cbn [apply]. unfold update_operation. destruct (dget OPERATION_STATUSES s) as [st|]; [|by exists o].
    destruct (get_operation _ _); [|by exists o]. by apply update_where_same.
  - exists o. split; [|done]. apply prune_keeps; [done..|]. unfold prunable.
    apply andb_false_iff. right. by apply Qleb_false.
Qed.

Lemma kept_history t id o es :
  ledger_ok t → dget t id = Some o → Forall (prunes_before (op_expires_at o)) es →
  ∃ o', dget (history es t) id = Some o' ∧ same_operation o' o.
Proof.
  intros Hok Ho Hes. revert t o Hok Ho Hes. induction es as [|e es IH]; intros t o Hok Ho Hes; [by exists o|].
  apply Forall_cons in Hes as [He Hes]. destruct (kept_step t id o e Hok Ho He) as (o1 & Ho1 & Hs1).
  destruct (IH (apply t e) o1) as (o2 & Ho2 & Hs2); [by apply apply_ok|done| |].
  - replace (op_expires_at o1) with (op_expires_at o); [done|]. symmetry. apply Hs1.
  - exists o2. split; [done|by etrans].
Qed.

Lemma claim_operation_row r t c o t' :
  ledger_ok t → claim_operation r t = Ok (c, o, t') →
  ledger_ok t' ∧ dget t' (op_id o) = Some o ∧ op_unique o = op_unique (queued_row r) ∧
  op_fingerprint o = rq_fingerprint r ∧ rq_scope r ∈ OP_SCOPES.
Proof.
  intros Hok. unfold claim_operation. destruct (insert_op _ t) as [ [c1 t1]|] eqn:E; [|done].
  pose proof (insert_op_ok _ _ _ _ Hok E) as Hok1. unfold validate_operation_claim.
  destruct (by_unique t1 _) as [o1|] eqn:Eu; [|done]. case_bool_decide as Ef; [|done]. intros [= <- <- <-].
  apply by_unique_some in Eu as [? ?]; [|done]. split_and!; try done.
  unfold insert_op in E. cbn [op_scope queued_row] in E. case_bool_decide; done.
Qed.

(** submission is idempotent for as long as the operation is retained: after a
    successful submission, through any later calls whose prunings come before the row
    expires, the row is still there with its id, plan, fingerprint and times, and any
    submission under the same actor, scope, target and key changes nothing: it returns that
    row when its fingerprint is the same, and is refused as a key reused with a different
    intent when it is not. *)
Theorem submit_idempotent es0 r c o t1 es :
  claim_operation r (history es0 []) = Ok (c, o, t1) →
  Forall (prunes_before (op_expires_at o)) es →
  let t := history es t1 in
  ∃ o', get_operation (op_id o) t = Some o' ∧ same_operation o' o ∧
    ∀ r', op_unique (queued_row r') = op_unique (queued_row r) →
      claim_operation r' t =
      if rq_fingerprint r' ≡? rq_fingerprint r then Ok (false, o', t)
      else Err (EValue "Idempotency-Key reused with different intent").
Proof.
  intros Hc Hes t.
  destruct (claim_operation_row _ _ _ _ _ (history_ok es0 _ ledger_ok_nil) Hc) as (Hok1 & Ho & Hu & Hf & Hsc).
  destruct (kept_history t1 (op_id o) o es Hok1 Ho Hes) as (o' & Ho' & Hs). exists o'. split_and!; [done..|].
  intros r' Hr'. pose proof (history_ok es t1 Hok1) as Hok. destruct Hs as (Hid & Hun & Hfp & _).
  assert (by_unique t (op_unique (queued_row r')) = Some o') as Hby.
  { apply by_unique_some; [done|]. split; [by rewrite Hid|congruence]. }
  unfold claim_operation, insert_op.
  assert (op_scope (queued_row r') = rq_scope r) as -> by (unfold op_unique, queued_row in Hr'; cbn in *; congruence).
  rewrite (bool_decide_eq_true_2 _ Hsc). cbn [negb]. rewrite Hby. cbn. rewrite Hby.
  unfold validate_operation_claim. rewrite Hfp, Hf. rewrite (bool_decide_ext _ (rq_fingerprint r' = rq_fingerprint r)) by done.
  by case_bool_decide.
Qed.

(** Calls that leave a finished row alone: neither the unguarded update of that row nor a
    pruning once it has expired. *)
Definition retains (id : string) (T : Q) (e : Event) : Prop :=
  match e with Update i _ _ _ _ => i ≠ id | Prune now _ => (now < T)%Q | _ => True end.

Lemma terminal_step t id o e :
  ledger_ok t → dget t id = Some o → terminal (op_status o) = true → retains id (op_expires_at o) e →
  dget (apply t e) id = Some o.
Proof.
  intros Hok Ho Ht He.
  assert (∀ now, claimable now o = false) as Hnc.
  { intros now. unfold claimable. by destruct (op_status o). }
  assert (∀ w, held_by w o = false) as Hnh.
  { intros w. unfold held_by. by destruct (op_status o). }
  destruct e as [r|i ow n l|i ow n l|i ow s rs er n|i s rs er n|n l]; cbn [retains] in He.
  - by apply submit_keeps.
  - cbn [apply]. unfold claim_execution. destruct (decide (i = id)) as [->|Hne]; [|by rewrite update_where_other].
    by rewrite (update_where_refused _ _ _ _ o Ho).
  - cbn [apply]. unfold renew_execution. destruct (decide (i = id)) as [->|Hne]; [by rewrite (update_where_refused _ _ _ _ o Ho)|].
    pose proof (update_where_other (held_by ow) (λ o, with_lease (op_lease_owner o) (Some l) (op_status o) n o) i t id Hne) as H.
    destruct (update_where _ _ i t). cbn in *. congruence.
  - cbn [apply]. unfold finish_execution. destruct (dget OPERATION_STATUSES s) as [st|]; [|done].
    destruct (terminal st); [|done]. destruct (decide (i = id)) as [->|Hne]; [by rewrite (update_where_refused _ _ _ _ o Ho)|].
    pose proof (update_where_other (held_by ow) (λ o, with_lease None None st n (with_result st rs er n o)) i t id Hne) as H.
    destruct (update_where _ _ i t). cbn in *. congruence.
  - cbn [apply]. unfold update_operation. destruct (dget OPERATION_STATUSES s) as [st|]; [|done].
    destruct (get_operation _ _); [|done]. by rewrite update_where_other.
  - apply prune_keeps; [done..|]. unfold prunable. apply andb_false_iff. right. by apply Qleb_false.
Qed.

(** a result is final: a row that reached a terminal status stays exactly as it is, with
    its result and error, whatever claims, renewals, finishes and submissions follow, until
    a pruning at or after its expiry removes it. *)
Theorem terminal_final es0 id o es :
  get_operation id (history es0 []) = Some o → terminal (op_status o) = true →
  Forall (retains id (op_expires_at o)) es →
  get_operation id (history es (history es0 [])) = Some o.
Proof.
  intros Ho Ht Hes. pose proof (history_ok es0 _ ledger_ok_nil) as Hok. revert Ho Hok. unfold get_operation.
  generalize (history es0 []) as t. induction Hes as [|e es He _ IH]; intros t Ho Hok; [done|]. cbn.
  apply IH; [by apply terminal_step|by apply apply_ok].
Qed.

(** ** Recovery *)

Lemma at_leb_total key x y : at_leb key x y = true ∨ at_leb key y x = true.
Proof.
  unfold at_leb. destruct (Qltb (key x) (key y)) eqn:E; [by left|]. destruct (Qltb (key y) (key x)) eqn:E'; [by right|].
  apply Qltb_false in E, E'. apply Qleb_true in E, E'. rewrite E, E'. cbn. destruct (str_leb_total (op_id x) (op_id y)); auto.
Qed.

Lemma at_leb_trans key x y z : at_leb key x y = true → at_leb key y z = true → at_leb key x z = true.
Proof.
  unfold at_leb. rewrite !orb_true_iff, !andb_true_iff, !Qltb_true, !Qleb_true.
  intros [H1|[H1 S1] ] [H2|[H2 S2] ]; [left; lra|left; lra|left; lra|right]. split; [lra|by eapply str_leb_trans].
Qed.

Lemma recoverable_oldest now limit t o :
  o ∈ t.*2 → claimable now o = true →
  o ∈ recoverable now limit t ∨
  (length (recoverable now limit t) = clamp_limit limit 500 ∧
   ∀ x, x ∈ recoverable now limit t → at_leb op_created_at x o = true).
Proof.
  unfold recoverable. set (l := sort_by _ _). intros Hin Hc.
  assert (o ∈ l) as Hl by (apply elem_of_sort_by, elem_of_bfilter; done).
  pose proof (sort_by_sorted (at_leb op_created_at) (at_leb_total _) (at_leb_trans _) (List.filter (claimable now) t.*2)) as Hs.
  fold l in Hs. rewrite <- (take_drop (clamp_limit limit 500) l) in Hl, Hs.
  apply elem_of_app in Hl as [?|Hd]; [by left|right]. split.
  - rewrite length_take. destruct (decide (length l ≤ clamp_limit limit 500)); [|lia].
    rewrite drop_ge in Hd by done. by apply elem_of_nil in Hd.
  - intros x Hx. apply StronglySorted_app in Hs as (H & _ & _). by apply H.
Qed.

(** recovery is exact: a listed operation can be claimed at that time; one that can be
    claimed is listed, unless the page is full of operations that are older (the id breaks
    ties). *)
Theorem recoverable_exact es now limit :
  let t := history es [] in
  let l := recoverable now limit t in
  (∀ o, o ∈ l → ∀ who lease, is_Some (claim_execution (op_id o) who now lease t).1) ∧
  (∀ o who lease, get_operation (op_id o) t = Some o → is_Some (claim_execution (op_id o) who now lease t).1 →
     o ∈ l ∨ (length l = clamp_limit limit 500 ∧ ∀ x, x ∈ l → at_leb op_created_at x o = true)).
Proof.
  intros t l. pose proof (history_ok es _ ledger_ok_nil : ledger_ok t) as Hok. split.
  - intros o Ho who lease. unfold l, recoverable in Ho. apply elem_of_take in Ho as (n & Ho & _).
    apply list_elem_of_lookup_2 in Ho. rewrite elem_of_sort_by in Ho. apply elem_of_bfilter in Ho as [Ho Hc].
    apply elem_of_rows in Ho; [|done]. unfold claim_execution. rewrite (update_where_taken _ _ _ _ o Ho Hc). by eexists.
  - intros o who lease Ho [o' Hc]. unfold claim_execution, update_where, get_operation in *. rewrite Ho in Hc.
    destruct (claimable now o) eqn:Ec; [|done].
    apply recoverable_oldest; [|done]. by apply elem_of_rows.
Qed.

(** ** Witnesses *)

Definition demo_request : OpRequest :=
  {| rq_id := "op"; rq_actor := "a"; rq_scope := "platform"; rq_target := None; rq_key := "k"; rq_fingerprint := "f";
     rq_now := 0; rq_expires_at := 86400; rq_plan := [("providers", JList [JStr "openrouter"])] |}.

Definition demo_others : list Event :=
  [Claim "op" "w2" 30 90; Renew "op" "w2" 30 90; Finish "op" "w2" "failed" [] None 31; Submit demo_request; Prune 40 10].

Lemma lease_exclusive_witness :
  let t0 := history [Submit demo_request] [] in
  let '(o, t1) := claim_execution "op" "w1" 0 60 t0 in
  match o with
  | Some o => get_operation "op" (history demo_others t1) = Some o
  | None => False
  end.
Proof.
  cbv zeta. destruct (claim_execution "op" "w1" 0 60 (history [Submit demo_request] [])) as [ [o|] t1] eqn:E;
    [|vm_compute in E; discriminate].
  apply (lease_exclusive [Submit demo_request] "op" "w1" 0 60 o t1 demo_others E).
  repeat constructor; cbn; intros; try done; lra.
Defined.

Lemma submit_idempotent_witness :
  match claim_operation demo_request [] with
  | Ok (_, o, t1) => ∃ o', get_operation (op_id o) (history [Claim "op" "w1" 0 60; Prune 10 5] t1) = Some o' ∧ same_operation o' o
  | Err _ => False
  end.
Proof.
  destruct (claim_operation demo_request []) as [ [ [c o] t1]|] eqn:E; [|vm_compute in E; discriminate].
  destruct (submit_idempotent [] demo_request c o t1 [Claim "op" "w1" 0 60; Prune 10 5] E) as (o' & H1 & H2 & _).
  { assert (op_expires_at o = 86400%Q) as -> by (vm_compute in E; by injection E as _ <- _).
    repeat constructor. }
  by exists o'.
Defined.

Definition demo_done : list Event :=
  [Submit demo_request; Claim "op" "w1" 0 60; Finish "op" "w1" "succeeded" [] None 5].

Lemma terminal_final_witness :
  match get_operation "op" (history demo_done []) with
  | Some o => get_operation "op" (history demo_others (history demo_done [])) = Some o
  | None => False
  end.
Proof.
  destruct (get_operation "op" (history demo_done [])) as [o|] eqn:E; [|vm_compute in E; discriminate].
  apply (terminal_final demo_done "op" o demo_others E).
  - vm_compute in E. by injection E as <-.
  - assert (op_expires_at o = 86400%Q) as -> by (vm_compute in E; by injection E as <-).
    repeat constructor; done.
Defined.
