(* ===== verification/Json.v ===== *)
(** * Reading JSON back ([json.loads])

    The reader of the standard library, as the cursors of the inventory listing, the
    two-field credentials and the stored records use it: white space, literals, numbers,
    strings with their escapes, arrays and objects, where a repeated key takes its last
    value.  A code point above 255 has no character in the model's strings and [NaN] and
    the infinities no number; a text with one is read as malformed.

    The main theorem is that reading back what [dumps] wrote gives the value. *)

From S2P Require Import Prelude.
From S2P Require Import PyStr.
From S2P Require Import PyDict.
From S2P Require Import Schemas.
From S2P Require Import ExactCache.
From S2P Require Import Domain.
From S2P Require Import Ledger.

(** ** Scanning *)

Definition is_ws (c : ascii) : bool := (code c =? 32) || (code c =? 9) || (code c =? 10) || (code c =? 13).

Fixpoint skip_ws (s : string) : string :=
  match s with String c s' => if is_ws c then skip_ws s' else s | EmptyString => "" end.

Definition hex_value (c : ascii) : option nat :=
  if is_digit c then Some (code c - 48)
  else if in_range "a" "f" c then Some (code c - 87)
  else if in_range "A" "F" c then Some (code c - 55)
  else None.

Definition hex4_value (a b c d : ascii) : option nat :=
  match hex_value a, hex_value b, hex_value c, hex_value d with
  | Some a, Some b, Some c, Some d => Some (((a * 16 + b) * 16 + c) * 16 + d)
  | _, _, _, _ => None
  end.

(** The one-character escapes. *)
Definition unescape (c : ascii) : option ascii :=
  if c ≡? dquote then Some dquote
  else if c ≡? backslash then Some backslash
  else if c ≡? "/"%char then Some "/"%char
  else if c ≡? "b"%char then Some (ascii_of_nat 8)
  else if c ≡? "f"%char then Some (ascii_of_nat 12)
  else if c ≡? "n"%char then Some (ascii_of_nat 10)
  else if c ≡? "r"%char then Some (ascii_of_nat 13)
  else if c ≡? "t"%char then Some (ascii_of_nat 9)
  else None.

Definition push (c : ascii) (r : option (string * string)) : option (string * string) :=
  match r with Some (s, rest) => Some (String c s, rest) | None => None end.

(** A string, from after its opening quote, and what follows the closing one. *)
Fixpoint scan_string (s : string) : option (string * string) :=
  match s with
  | EmptyString => None
  | String c s1 =>
      if c ≡? dquote then Some ("", s1)
      else if c ≡? backslash then
        match s1 with
        | EmptyString => None
        | String e s2 =>
            if e ≡? "u"%char then
              match s2 with
              | String h1 (String h2 (String h3 (String h4 s3))) =>
                  match hex4_value h1 h2 h3 h4 with
                  | Some n => if n <? 256 then push (ascii_of_nat n) (scan_string s3) else None
                  | None => None
                  end
              | _ => None
              end
            else match unescape e with Some d => push d (scan_string s2) | None => None end
        end
      else if code c <? 32 then None
      else push c (scan_string s1)
  end.

(** The value of a run of digits. *)
Fixpoint digits_value (acc : Z) (s : string) : Z :=
  match s with
  | String c s => digits_value (acc * 10 + Z.of_nat (code c - 48)) s
  | EmptyString => acc
  end.

(** [(\.\d+)?] and [([eE][-+]?\d+)?]: the part that matched, and the rest. *)
Definition scan_frac (s : string) : string * string :=
  match s with
  | String "." s' => match span is_digit s' with ("", _) => ("", s) | (d, rest) => (d, rest) end
  | _ => ("", s)
  end.

Definition scan_exp (s : string) : option Z * string :=
  match s with
  | String c s1 =>
      if (c ≡? "e"%char) || (c ≡? "E"%char) then
        let '(neg, s2) := match s1 with
                          | String "-" r => (true, r) | String "+" r => (false, r) | _ => (false, s1)
                          end in
        match span is_digit s2 with
        | ("", _) => (None, s)
        | (d, rest) => (Some (if neg : bool then (- digits_value 0 d)%Z else digits_value 0 d), rest)
        end
      else (None, s)
  | EmptyString => (None, s)
  end.

Definition power10 (e : Z) : Q := if (0 <=? e)%Z then Qz (10 ^ e) else (/ Qz (10 ^ (- e)))%Q.

Section reader.
(** [float.__repr__] *)
Context (float_repr : Q → string).

(** A number, at its sign or first digit. *)
Definition scan_number (s : string) : option (json * string) :=
  let '(neg, s1) := match s with String "-" r => (true, r) | _ => (false, s) end in
  let '(whole, rest) := match s1 with String "0" r => ("0", r) | _ => span is_digit s1 end in
  if whole ≡? "" then None
  else
    let z := if neg : bool then (- digits_value 0 whole)%Z else digits_value 0 whole in
    let '(frac, rest1) := scan_frac rest in
    let '(e, rest2) := scan_exp rest1 in
    match frac, e with
    | EmptyString, None => if Z.of_nat (str_len whole) <=? 4300 then Some (JInt z, rest) else None
    | _, _ =>
        let m := (Qz (digits_value 0 whole) + Qz (digits_value 0 frac) * power10 (- Z.of_nat (str_len frac)))%Q in
        let q := (m * power10 (match e with Some e => e | None => 0%Z end))%Q in
        let q := if neg then (- q)%Q else q in
        Some (JFloat q (float_repr q), rest2)
    end%Z.

(** A value and the text after it; the fuel bounds the nesting and the number of items. *)
Fixpoint scan_value (fuel : nat) (s : string) : option (json * string) :=
  match fuel with
  | O => None
  | S fuel =>
      match s with
      | EmptyString => None
      | String c s1 =>
          if c ≡? dquote then match scan_string s1 with Some (t, rest) => Some (JStr t, rest) | None => None end
          else if c ≡? "{"%char then
            match skip_ws s1 with
            | String "}" rest => Some (JObj [], rest)
            | s2 => scan_members fuel [] s2
            end
          else if c ≡? "["%char then
            match skip_ws s1 with
            | String "]" rest => Some (JList [], rest)
            | s2 => scan_items fuel [] s2
            end
          else if startswith "null" s then Some (JNull, str_drop 4 s)
          else if startswith "true" s then Some (JBool true, str_drop 4 s)
          else if startswith "false" s then Some (JBool false, str_drop 5 s)
          else scan_number s
      end
  end
with scan_items (fuel : nat) (acc : list json) (s : string) : option (json * string) :=
  match fuel with
  | O => None
  | S fuel =>
      match scan_value fuel s with
      | None => None
      | Some (v, rest) =>
          match skip_ws rest with
          | String "]" rest => Some (JList (acc ++ [v]), rest)
          | String "," rest => scan_items fuel (acc ++ [v]) (skip_ws rest)
          | _ => None
          end
      end
  end
with scan_members (fuel : nat) (acc : list (string * json)) (s : string) : option (json * string) :=
  match fuel with
  | O => None
  | S fuel =>
      match s with
      | String q s1 =>
          if negb (q ≡? dquote) then None
          else
            match scan_string s1 with
            | None => None
            | Some (key, rest) =>
                match skip_ws rest with
                | String ":" rest =>
                    match scan_value fuel (skip_ws rest) with
                    | None => None
                    | Some (v, rest) =>
                        match skip_ws rest with
                        | String "}" rest => Some (JObj (dset acc key v), rest)
                        | String "," rest => scan_members fuel (dset acc key v) (skip_ws rest)
                        | _ => None
                        end
                    end
                | _ => None
                end
            end
      | EmptyString => None
      end
  end.

(** [json.loads(s)]; [None] is the [ValueError]. *)
Definition loads (s : string) : option json :=
  match scan_value (2 * str_len s + 1) (skip_ws s) with
  | Some (v, rest) => if skip_ws rest ≡? "" then Some v else None
  | None => None
  end.
End reader.

(** ** The fuel is enough *)

Lemma skip_ws_short s : str_len (skip_ws s) ≤ str_len s.
Proof. induction s as [|c s IH]; [done|]. cbn. destruct (is_ws c); cbn; lia. Qed.

Lemma span_short f s : str_len (span f s).2 ≤ str_len s.
Proof. induction s as [|c s IH]; [done|]. cbn. destruct (f c); [|done]. destruct (span f s). cbn in *. lia. Qed.

Lemma scan_string_short s t rest : scan_string s = Some (t, rest) → str_len rest < str_len s.
Proof.
  revert t. induction s as [s IH] using (induction_ltof1 _ str_len). unfold ltof in IH. intros t.
  assert (Hpush : ∀ c s', str_len s' < str_len s → push c (scan_string s') = Some (t, rest) → str_len rest < str_len s).
  { intros c s' Hlt. unfold push. destruct (scan_string s') as [ [t' rest']|] eqn:E; [|done]. intros [= _ <-].
    apply IH in E; [lia|done]. }
  destruct s as [|c s1]; [done|]. cbn [scan_string]. destruct (c ≡? dquote); [intros [= _ <-]; cbn; lia|].
  destruct (c ≡? backslash).
  - destruct s1 as [|e s2]; [done|]. destruct (e ≡? "u"%char).
    + destruct s2 as [|h1 [|h2 [|h3 [|h4 s3] ] ] ]; try done. destruct (hex4_value _ _ _ _) as [n|]; [|done].
      destruct (n <? 256); [|done]. apply Hpush. cbn. lia.
    + destruct (unescape e) as [d|]; [|done]. apply Hpush. cbn. lia.
  - destruct (code c <? 32); [done|]. apply Hpush. cbn. lia.
Qed.

Lemma str_len_drop n s : str_len (str_drop n s) = str_len s - n.
Proof. revert s. induction n as [|n IH]; intros [|c s]; cbn; [done..|apply IH]. Qed.

Lemma scan_frac_short s : str_len (scan_frac s).2 ≤ str_len s.
Proof.
  unfold scan_frac. destruct s as [|c s]; [done|]. pose proof (span_short is_digit s) as H.
  destruct (Ascii.eqb_spec c ".") as [->|Hn].
  - destruct (span is_digit s) as [ [|d ds] rest]; cbn in *; lia.
  - destruct c as [ [] [] [] [] [] [] [] [] ]; try done; by destruct Hn.
Qed.

Lemma scan_exp_short s : str_len (scan_exp s).2 ≤ str_len s.
Proof.
  unfold scan_exp. destruct s as [|c s]; [done|]. destruct (_ || _); [|done].
  set (x := match s with String "-" r => _ | _ => _ end).
  assert (str_len x.2 ≤ str_len s) as Hx.
  { subst x. destruct s as [|d s]; [done|]. destruct d as [ [] [] [] [] [] [] [] [] ]; cbn; lia. }
  destruct x as [neg s2]. cbn in Hx. pose proof (span_short is_digit s2) as H.
  destruct (span is_digit s2) as [ [|d ds] rest]; cbn in *; lia.
Qed.

Lemma scan_number_short fr s v rest : scan_number fr s = Some (v, rest) → str_len rest < str_len s.
Proof.
  unfold scan_number. set (x := match s with String "-" r => (true, r) | _ => (false, s) end).
  assert (str_len x.2 ≤ str_len s) as Hx.
  { subst x. destruct s as [|d s]; [done|]. destruct d as [ [] [] [] [] [] [] [] [] ]; cbn; lia. }
  destruct x as [neg s1]. cbn in Hx. set (y := match s1 with String "0" r => ("0", r) | _ => span is_digit s1 end).
  assert (y.1 ≠ "" → str_len y.2 < str_len s1) as Hy.
  { subst y. assert ((span is_digit s1).1 ≠ "" → str_len (span is_digit s1).2 < str_len s1) as H.
    { destruct s1 as [|d s2]; [done|]. cbn. destruct (is_digit d); [|done]. pose proof (span_short is_digit s2).
      destruct (span is_digit s2). cbn in *. lia. }
    destruct s1 as [|d s2]; [done|]. destruct d as [ [] [] [] [] [] [] [] [] ]; try exact H. cbn. lia. }
  destruct y as [whole rest0]. cbn [fst snd] in Hy. destruct (bool_decide_reflect (whole = "")); [done|]. specialize (Hy n).
  pose proof (scan_frac_short rest0) as Hf. destruct (scan_frac rest0) as [frac rest1]. cbn in Hf.
  pose proof (scan_exp_short rest1) as He. destruct (scan_exp rest1) as [e rest2]. cbn in He.
  destruct frac, e; [..|].
  all: try (intros [= _ <-]; lia).
  destruct (Z.leb _ _); [|done]. intros [= _ <-]. lia.
Qed.

Section fuel.
Context (fr : Q → string).

(** What is left is shorter, and more fuel than the length asks for changes nothing. *)
Lemma scan_short fuel :
  (∀ s v rest, scan_value fr fuel s = Some (v, rest) → str_len rest < str_len s)
  ∧ (∀ acc s v rest, scan_items fr fuel acc s = Some (v, rest) → str_len rest < str_len s)
  ∧ (∀ acc s v rest, scan_members fr fuel acc s = Some (v, rest) → str_len rest < str_len s).
Proof.
  induction fuel as [|fuel (IHv & IHi & IHm)]; [done|]. split_and!.
  - intros s v rest. cbn [scan_value]. destruct s as [|c s1]; [done|]. pose proof (skip_ws_short s1) as Hw.
    destruct (c ≡? dquote).
    { destruct (scan_string s1) as [ [t r]|] eqn:E; [|done]. intros [= _ <-]. apply scan_string_short in E. cbn. lia. }
    destruct (c ≡? "{"%char).
    { destruct (skip_ws s1) as [|d s2] eqn:E; [intros H; apply IHm in H; cbn in *; lia|].
      destruct d as [ [] [] [] [] [] [] [] [] ]; try (intros H; apply IHm in H; cbn in *; lia). intros [= _ <-]. cbn in *. lia. }
    destruct (c ≡? "["%char).
    { destruct (skip_ws s1) as [|d s2] eqn:E; [intros H; apply IHi in H; cbn in *; lia|].
      destruct d as [ [] [] [] [] [] [] [] [] ]; try (intros H; apply IHi in H; cbn in *; lia). intros [= _ <-]. cbn in *. lia. }
    destruct (startswith "null" _); [intros [= _ <-]; pose proof (str_len_drop 3 s1); cbn [str_drop str_len] in *; lia|].
    destruct (startswith "true" _); [intros [= _ <-]; pose proof (str_len_drop 3 s1); cbn [str_drop str_len] in *; lia|].
    destruct (startswith "false" _); [intros [= _ <-]; pose proof (str_len_drop 4 s1); cbn [str_drop str_len] in *; lia|].
    apply scan_number_short.
  - intros acc s v rest. cbn [scan_items]. destruct (scan_value fr fuel s) as [ [w r]|] eqn:E; [|done]. apply IHv in E.
    pose proof (skip_ws_short r) as Hw. destruct (skip_ws r) as [|d s2]; [done|]. pose proof (skip_ws_short s2) as Hw2.
    destruct d as [ [] [] [] [] [] [] [] [] ]; try done;
      first [intros [= _ <-]; cbn in *; lia | intros H; apply IHi in H; cbn in *; lia].
  - intros acc s v rest. cbn [scan_members]. destruct s as [|q s1]; [done|]. destruct (negb _); [done|].
    destruct (scan_string s1) as [ [key r]|] eqn:E; [|done]. apply scan_string_short in E.
    pose proof (skip_ws_short r) as Hw. destruct (skip_ws r) as [|d s2]; [done|].
    destruct d as [ [] [] [] [] [] [] [] [] ]; try done. pose proof (skip_ws_short s2) as Hw2.
    destruct (scan_value fr fuel (skip_ws s2)) as [ [w r2]|] eqn:E2; [|done]. apply IHv in E2.
    pose proof (skip_ws_short r2) as Hw3. destruct (skip_ws r2) as [|d s3]; [done|]. pose proof (skip_ws_short s3) as Hw4.
    destruct d as [ [] [] [] [] [] [] [] [] ]; try done;
      first [intros [= _ <-]; cbn in *; lia | intros H; apply IHm in H; cbn in *; lia].
Qed.

Lemma scan_fuel f1 f2 :
  (∀ s, 2 * str_len s + 1 ≤ f1 → 2 * str_len s + 1 ≤ f2 → scan_value fr f1 s = scan_value fr f2 s)
  ∧ (∀ acc s, 2 * str_len s + 2 ≤ f1 → 2 * str_len s + 2 ≤ f2 → scan_items fr f1 acc s = scan_items fr f2 acc s)
  ∧ (∀ acc s, 2 * str_len s + 2 ≤ f1 → 2 * str_len s + 2 ≤ f2 → scan_members fr f1 acc s = scan_members fr f2 acc s).
Proof.
  revert f2. induction f1 as [|f1 IH]; intros f2; [split_and!; intros; lia|].
  destruct f2 as [|f2]; [split_and!; intros; lia|]. destruct (IH f2) as (IHv & IHi & IHm). split_and!.
  - intros s H1 H2. cbn [scan_value]. destruct s as [|c s1]; [done|]. pose proof (skip_ws_short s1) as Hw. cbn in H1, H2.
    destruct (c ≡? dquote); [done|]. destruct (c ≡? "{"%char).
    { destruct (skip_ws s1) as [|d s2] eqn:E; [apply IHm; cbn; lia|].
      destruct d as [ [] [] [] [] [] [] [] [] ]; try (apply IHm; cbn in *; lia). done. }
    destruct (c ≡? "["%char); [|done].
    destruct (skip_ws s1) as [|d s2] eqn:E; [apply IHi; cbn; lia|].
    destruct d as [ [] [] [] [] [] [] [] [] ]; try (apply IHi; cbn in *; lia). done.
  - intros acc s H1 H2. cbn [scan_items]. rewrite (IHv s) by lia. destruct (scan_value fr f2 s) as [ [w r]|] eqn:E; [|done].
    apply (proj1 (scan_short f2)) in E.
    pose proof (skip_ws_short r) as Hw. destruct (skip_ws r) as [|d s2]; [done|]. pose proof (skip_ws_short s2) as Hw2.
    destruct d as [ [] [] [] [] [] [] [] [] ]; try done. apply IHi; cbn in *; lia.
  - intros acc s H1 H2. cbn [scan_members]. destruct s as [|q s1]; [done|]. destruct (negb _); [done|].
    destruct (scan_string s1) as [ [key r]|] eqn:E; [|done]. apply scan_string_short in E.
    pose proof (skip_ws_short r) as Hw. destruct (skip_ws r) as [|d s2]; [done|].
    destruct d as [ [] [] [] [] [] [] [] [] ]; try done. pose proof (skip_ws_short s2) as Hw2. cbn in H1, H2, Hw.
    rewrite (IHv (skip_ws s2)) by lia. destruct (scan_value fr f2 (skip_ws s2)) as [ [w r2]|] eqn:E2; [|done].
    apply (proj1 (scan_short f2)) in E2.
    pose proof (skip_ws_short r2) as Hw3. destruct (skip_ws r2) as [|d s3]; [done|]. pose proof (skip_ws_short s3) as Hw4.
    destruct d as [ [] [] [] [] [] [] [] [] ]; try done. apply IHm; cbn in *; lia.
Qed.
End fuel.

(** ** Numbers as they are printed *)

Lemma digits_value_snoc acc s d : digits_value acc (s +:+ String d "") = (digits_value acc s * 10 + Z.of_nat (code d - 48))%Z.
Proof. revert acc. induction s as [|c s IH]; intros acc; [done|]. apply IH. Qed.

Lemma digit_char_spec n : n < 10 → is_digit (digit_char n) = true ∧ code (digit_char n) - 48 = n ∧ (digit_char n = "0"%char → n = 0).
Proof. intros Hn. do 10 (destruct n as [|n]; [by vm_compute|]). lia. Qed.

Lemma nat_digits_spec fuel n acc :
  n < fuel → ∃ c w, nat_digits fuel n acc = String c w +:+ acc ∧ str_all is_digit (String c w) = true
                    ∧ digits_value 0 (String c w) = Z.of_nat n ∧ (c = "0"%char → n = 0 ∧ w = "").
Proof.
  revert n acc. induction fuel as [|fuel IH]; intros n acc Hn; [lia|]. cbn [nat_digits].
  assert (n mod 10 < 10) as Hm by (apply Nat.mod_upper_bound; lia). destruct (digit_char_spec _ Hm) as (Hd & Hv & Hz).
  destruct (Nat.ltb_spec n 10).
  - rewrite Nat.mod_small in * by done. exists (digit_char n), "". split; [done|]. split; [cbn; by rewrite Hd|].
    split; [cbn [digits_value]; lia|]. intros E. by apply Hz in E.
  - destruct (IH (n / 10) (String (digit_char (n mod 10)) acc)) as (c & w & -> & Ha & Hval & Hc).
    { apply Nat.Div0.div_lt_upper_bound; lia. }
    exists c, (w +:+ String (digit_char (n mod 10)) ""). change (String c (w +:+ String (digit_char (n mod 10)) "")) with (String c w +:+ String (digit_char (n mod 10)) "").
    split_and!.
    + by rewrite <- str_app_assoc.
    + rewrite str_all_app, Ha. cbn [str_all]. by rewrite Hd.
    + rewrite digits_value_snoc, Hval, Hv. pose proof (Nat.div_mod_eq n 10). lia.
    + intros E. destruct (Hc E) as [H0 _]. apply Nat.div_small_iff in H0; lia.
Qed.

Lemma str_of_nat_spec n :
  ∃ c w, str_of_nat n = String c w ∧ str_all is_digit (String c w) = true ∧ digits_value 0 (String c w) = Z.of_nat n
         ∧ (c = "0"%char → w = "").
Proof.
  unfold str_of_nat. destruct (nat_digits_spec (S n) n "") as (c & w & E & Ha & Hv & Hc); [lia|].
  rewrite str_app_nil_r in E. exists c, w. split_and!; [done..|]. intros Ec. by apply Hc.
Qed.

(** What may follow a value inside a text. *)
Definition closes (rest : string) : Prop := match rest with EmptyString => True | String c _ => c ∈ [","; "]"; "}"]%char end.

Lemma span_all f s rest :
  str_all f s = true → match rest with EmptyString => True | String c _ => f c = false end → span f (s +:+ rest) = (s, rest).
Proof.
  induction s as [|c s IH]; intros Hs Hr.
  - rewrite str_app_nil_l. destruct rest as [|c rest]; [done|]. cbn. by rewrite Hr.
  - cbn [str_all] in Hs. apply andb_true_iff in Hs as [Hc Hs]. rewrite str_app_cons. cbn [span]. by rewrite Hc, IH.
Qed.

Lemma closes_cases rest (P : string → Prop) :
  P "" → (∀ r, P (String ","%char r)) → (∀ r, P (String "]"%char r)) → (∀ r, P (String "}"%char r)) → closes rest → P rest.
Proof.
  intros H0 H1 H2 H3. destruct rest as [|c r]; [done|]. cbn. rewrite !elem_of_cons.
  intros [->|[->|[->|[] %elem_of_nil] ] ]; done.
Qed.

Lemma scan_int fr n rest :
  closes rest → str_len (str_of_nat n) ≤ Z.to_nat 4300 →
  scan_number fr (str_of_nat n +:+ rest) = Some (JInt (Z.of_nat n), rest)
  ∧ scan_number fr (String "-" (str_of_nat n +:+ rest)) = Some (JInt (- Z.of_nat n), rest).
Proof.
  intros Hr Hlen. destruct (str_of_nat_spec n) as (c & w & E & Ha & Hv & Hc). rewrite E in *.
  assert (Hspan : (match String c w +:+ rest with String "0" r => ("0", r) | _ => span is_digit (String c w +:+ rest) end) = (String c w, rest)).
  { assert (span is_digit (String c w +:+ rest) = (String c w, rest)) as Hs.
    { apply span_all; [done|]. by apply (closes_cases rest (λ r, match r with EmptyString => True | String c _ => is_digit c = false end)). }
    rewrite str_app_cons in *. destruct (decide (c = "0"%char)) as [->|Hn]; [by rewrite (Hc eq_refl)|].
    destruct c as [ [] [] [] [] [] [] [] [] ]; try exact Hs. exfalso. by apply Hn. }
  assert (Htail : scan_frac rest = ("", rest) ∧ scan_exp rest = (None, rest)).
  { by apply (closes_cases rest (λ r, scan_frac r = ("", r) ∧ scan_exp r = (None, r))). }
  destruct Htail as [Hf He].
  assert (Hd : is_digit c = true) by (cbn [str_all] in Ha; apply andb_true_iff in Ha as [? _]; done).
  assert (Z.of_nat (str_len (String c w)) <=? 4300 = true)%Z as Hl by (apply Z.leb_le; lia).
  split; unfold scan_number.
  - rewrite str_app_cons. replace (match String c (w +:+ rest) with String "-" r => (true, r) | _ => (false, String c (w +:+ rest)) end)
      with (false, String c w +:+ rest).
    + rewrite Hspan. rewrite bool_decide_eq_false_2 by done. rewrite Hf, He, Hl, Hv. done.
    + destruct c as [ [] [] [] [] [] [] [] [] ]; try done.
  - rewrite Hspan. rewrite bool_decide_eq_false_2 by done. rewrite Hf, He, Hl, Hv. done.
Qed.

(** ** Strings as they are printed *)

Lemma scan_char c rest : scan_string (json_char c +:+ rest) = push c (scan_string rest).
Proof. destruct c as [ [] [] [] [] [] [] [] [] ]; reflexivity. Qed.

Lemma scan_quoted s rest : scan_string (concat_map_str json_char s +:+ String dquote rest) = Some (s, rest).
Proof.
  induction s as [|c s IH]; [reflexivity|]. cbn [concat_map_str]. rewrite <- str_app_assoc, scan_char, IH. done.
Qed.

(** ** Reading back what was printed *)

(** Values that have a text: each key once, no float, and integers within the 4300 digits that
    [int] reads and prints. *)
Fixpoint printable (v : json) : bool :=
  match v with
  | JFloat _ _ => false
  | JInt z => str_len (str_of_nat (Z.abs_nat z)) <=? Z.to_nat 4300
  | JList l => forallb printable l
  | JObj d => bool_decide (NoDup (dkeys d)) && forallb (λ kv, printable kv.2) d
  | _ => true
  end.

Lemma sort_by_fmap {A B} (f : A → B) (lea : A → A → bool) (leb : B → B → bool) l :
  (∀ x y, leb (f x) (f y) = lea x y) → sort_by leb (f <$> l) = f <$> sort_by lea l.
Proof.
  intros H. assert (∀ x m, insert_by leb (f x) (f <$> m) = f <$> insert_by lea x m) as Hins.
  { intros x m. induction m as [|y m IH]; [done|]. cbn. rewrite H. destruct (lea x y); [done|]. cbn. by rewrite <- IH. }
  induction l as [|x l IH]; [done|]. cbn. rewrite <- Hins. f_equal. exact IH.
Qed.

Section roundtrip.
Context (fr : Q → string).

(** The first character of a printed value. *)
Definition opens (c : ascii) : bool := negb (is_ws c) && negb (c ≡? "]"%char) && negb (c ≡? "}"%char).

Lemma dumps_opens v : printable v = true → ∃ c w, dumps v = String c w ∧ opens c = true.
Proof.
  destruct v as [|[]|z|q p|s|l|d]; intros Hp; try (eexists _, _; split; reflexivity); try discriminate Hp.
  cbn [dumps]. unfold str_of_Z. destruct (_ <? 0)%Z; [by eexists _, _|].
  destruct (str_of_nat_spec (Z.abs_nat z)) as (c & w & -> & Ha & _). exists c, w. split; [done|].
  cbn [str_all] in Ha. apply andb_true_iff in Ha as [Hd _].
  destruct c as [ [] [] [] [] [] [] [] [] ]; first [discriminate Hd | reflexivity].
Qed.

Lemma closes_sep r : closes ("," +:+ r) ∧ closes ("]" +:+ r) ∧ closes ("}" +:+ r).
Proof. split_and!; unfold closes; rewrite str_app_cons; set_solver. Qed.

Lemma skip_ws_opens c w : opens c = true → skip_ws (String c w) = String c w.
Proof. unfold opens. cbn [skip_ws]. by destruct (is_ws c). Qed.

Lemma scan_value_int fuel z rest :
  closes rest → printable (JInt z) = true → scan_value fr (S fuel) (str_of_Z z +:+ rest) = Some (JInt z, rest).
Proof.
  intros Hr Hp. cbn [printable] in Hp. apply Nat.leb_le in Hp. destruct (scan_int fr (Z.abs_nat z) rest Hr Hp) as [H1 H2].
  unfold str_of_Z. destruct (Z.ltb_spec z 0).
  - rewrite str_app_cons, str_app_nil_l. transitivity (scan_number fr (String "-" (str_of_nat (Z.abs_nat z) +:+ rest))); [reflexivity|]. rewrite H2. do 3 f_equal. lia.
  - replace (JInt z) with (JInt (Z.of_nat (Z.abs_nat z))) by (f_equal; lia). rewrite <- H1.
    destruct (str_of_nat_spec (Z.abs_nat z)) as (c & w & -> & Ha & _). cbn [str_all] in Ha. apply andb_true_iff in Ha as [Hd _].
    rewrite str_app_cons. clear -Hd. destruct c as [ [] [] [] [] [] [] [] [] ]; try done.
Qed.

(** The property of a value that the induction carries. *)
Definition Reads (v : json) : Prop :=
  ∀ rest fuel, closes rest → 2 * str_len (dumps v +:+ rest) + 1 ≤ fuel →
               scan_value fr fuel (dumps v +:+ rest) = Some (stored_json v, rest).

Lemma scan_items_read l : ∀ v acc rest fuel,
  Forall Reads (v :: l) → forallb printable (v :: l) = true →
  2 * str_len (join "," (map dumps (v :: l)) +:+ "]" +:+ rest) + 2 ≤ fuel →
  scan_items fr fuel acc (join "," (map dumps (v :: l)) +:+ "]" +:+ rest) = Some (JList (acc ++ map stored_json (v :: l)), rest).
Proof.
  induction l as [|v' l IH]; intros v acc rest fuel HR Hp Hf; apply Forall_cons in HR as [Hv HR];
    cbn [forallb] in Hp; apply andb_true_iff in Hp as [Hpv Hp]; (destruct fuel as [|fuel]; [lia|]); cbn [scan_items].
  - cbn [map join] in *. rewrite Hv; [reflexivity|apply closes_sep|lia].
  - change (join "," (map dumps (v :: v' :: l))) with (dumps v +:+ "," +:+ join "," (map dumps (v' :: l))) in *.
    rewrite <- !str_app_assoc in *. rewrite Hv; [|apply closes_sep|lia].
   
    destruct (dumps_opens v') as (c & w & E & Ho); [cbn [forallb] in Hp; apply andb_true_iff in Hp as [? _]; done|].
    assert (skip_ws (join "," (map dumps (v' :: l)) +:+ "]" +:+ rest) = join "," (map dumps (v' :: l)) +:+ "]" +:+ rest) as Hs.
    { cbn [map]. destruct (map dumps l); cbn [join]; rewrite E, !str_app_cons; by apply skip_ws_opens. }
    assert (2 * str_len (join "," (map dumps (v' :: l)) +:+ "]" +:+ rest) + 2 ≤ fuel) as Hf' by (rewrite !str_len_app in *; cbn [str_len] in *; lia).
    specialize (IH v' (acc ++ [stored_json v]) rest fuel HR Hp Hf'). rewrite <- app_assoc in IH. rewrite str_app_cons, str_app_nil_l.
    transitivity (scan_items fr fuel (acc ++ [stored_json v]) (skip_ws (join "," (map dumps (v' :: l)) +:+ "]" +:+ rest))); [reflexivity|].
    by rewrite Hs.
Qed.

Definition entry (kv : string * json) : string := json_quote kv.1 +:+ ":" +:+ dumps kv.2.
Definition sorted_entry (kv : string * json) : string * json := (kv.1, stored_json kv.2).

Lemma scan_entry k v rest fuel :
  Reads v → printable v = true → closes rest → 2 * str_len (entry (k, v) +:+ rest) + 1 ≤ fuel →
  ∃ w r, entry (k, v) +:+ rest = String dquote w ∧ scan_string w = Some (k, String ":" r)
         ∧ scan_value fr fuel (skip_ws r) = Some (stored_json v, rest).
Proof.
  intros Hv Hp Hr Hf. set (w := concat_map_str json_char k +:+ String dquote (String ":" (dumps v +:+ rest))).
  assert (entry (k, v) +:+ rest = String dquote w) as E.
  { unfold entry, json_quote. cbn [fst snd]. rewrite <- !str_app_assoc, str_app_cons, <- !str_app_assoc. reflexivity. }
  exists w, (dumps v +:+ rest). split_and!; [done|apply scan_quoted|].
  destruct (dumps_opens v Hp) as (c & w' & Ev & Ho). rewrite Ev, str_app_cons, skip_ws_opens by done. rewrite <- str_app_cons, <- Ev.
  apply Hv; [done|]. rewrite E in Hf. unfold w in Hf. cbn [str_len] in Hf. rewrite !str_len_app in *. cbn [str_len] in Hf.
  rewrite ?str_len_app in Hf. lia.
Qed.

Lemma scan_members_read l : ∀ kv acc rest fuel,
  Forall (λ kv, Reads kv.2) (kv :: l) → forallb (λ kv, printable kv.2) (kv :: l) = true →
  NoDup (dkeys (acc ++ kv :: l)) →
  2 * str_len (join "," (entry <$> kv :: l) +:+ "}" +:+ rest) + 2 ≤ fuel →
  scan_members fr fuel acc (join "," (entry <$> kv :: l) +:+ "}" +:+ rest) = Some (JObj (acc ++ (sorted_entry <$> kv :: l)), rest).
Proof.
  induction l as [|kv' l IH]; intros [k v] acc rest fuel HR Hp Hnd Hf; apply Forall_cons in HR as [Hv HR];
    cbn [forallb] in Hp; apply andb_true_iff in Hp as [Hpv Hp]; (destruct fuel as [|fuel]; [lia|]);
    (assert (dset acc k (stored_json v) = acc ++ [(k, stored_json v)]) as Hset by
      (apply dset_fresh, dget_none; unfold dkeys in Hnd; rewrite fmap_app in Hnd; apply NoDup_app in Hnd as (_ & Hd & _);
       intros Hin; apply (Hd _ Hin); by left)).
  - change (join "," (entry <$> [(k, v)])) with (entry (k, v)) in *.
    destruct (scan_entry k v ("}" +:+ rest) fuel Hv Hpv) as (w & r & -> & Hs & Hval); [apply closes_sep|lia|].
    cbn [scan_members]. rewrite bool_decide_eq_true_2 by done. cbn [negb]. rewrite Hs.
    change (skip_ws (String ":" r)) with (String ":" r). cbn [scan_members]. rewrite Hval. rewrite str_app_cons, str_app_nil_l.
    change (skip_ws (String "}" rest)) with (String "}" rest). cbn iota. by rewrite Hset.
  - change (join "," (entry <$> (k, v) :: kv' :: l)) with (entry (k, v) +:+ "," +:+ join "," (entry <$> kv' :: l)) in *.
    rewrite <- !str_app_assoc in *.
    assert (2 * str_len (join "," (entry <$> kv' :: l) +:+ "}" +:+ rest) + 2 ≤ fuel) as Hf' by (rewrite !str_len_app in *; cbn [str_len] in *; lia).
    destruct (scan_entry k v ("," +:+ join "," (entry <$> kv' :: l) +:+ "}" +:+ rest) fuel Hv Hpv) as (w & r & -> & Hs & Hval); [apply closes_sep|lia|].
    cbn [scan_members]. rewrite bool_decide_eq_true_2 by done. cbn [negb]. rewrite Hs.
    change (skip_ws (String ":" r)) with (String ":" r). cbn iota. rewrite Hval. rewrite str_app_cons, str_app_nil_l.
    rewrite Hset. assert (skip_ws (join "," (entry <$> kv' :: l) +:+ "}" +:+ rest) = join "," (entry <$> kv' :: l) +:+ "}" +:+ rest) as Hw.
    { destruct l; reflexivity. }
    transitivity (scan_members fr fuel (acc ++ [(k, stored_json v)]) (skip_ws (join "," (entry <$> kv' :: l) +:+ "}" +:+ rest))); [reflexivity|].
    rewrite Hw. rewrite (IH kv' (acc ++ [(k, stored_json v)]) rest fuel HR Hp); [by rewrite <- app_assoc| |done].
    rewrite <- app_assoc. unfold dkeys in *. rewrite !fmap_app in *. exact Hnd.
Qed.
End roundtrip.

Section roundtrip.
Context (fr : Q → string).

Lemma dumps_obj d : dumps (JObj d) = "{" +:+ join "," (entry <$> sort_by (λ a b, str_leb a.1 b.1) d) +:+ "}".
Proof.
  cbn [dumps]. change (map ?f d) with (f <$> d).
  rewrite (sort_by_fmap (λ kv, (kv.1, dumps kv.2)) (λ a b : string * json, str_leb a.1 b.1)) by done.
  by rewrite <- list_fmap_compose.
Qed.

Lemma stored_json_obj d : stored_json (JObj d) = JObj (sorted_entry <$> sort_by (λ a b, str_leb a.1 b.1) d).
Proof.
  cbn [stored_json]. change (map ?f d) with (f <$> d).
  by rewrite (sort_by_fmap (λ kv, (kv.1, stored_json kv.2)) (λ a b : string * json, str_leb a.1 b.1)).
Qed.

Lemma reads_all v : printable v = true → Reads fr v.
Proof.
  induction v as [|b|z|q p|s|l IH|d IH] using json_ind_nested; intros Hp rest fuel Hr Hf; try discriminate Hp;
    (destruct fuel as [|fuel]; [lia|]).
  - reflexivity.
  - destruct b; reflexivity.
  - by apply scan_value_int.
  - cbn [dumps stored_json]. unfold json_quote. rewrite str_app_cons, <- str_app_assoc.
    cbn [scan_value]. rewrite bool_decide_eq_true_2 by done. rewrite str_app_cons, str_app_nil_l. by rewrite scan_quoted.
  - cbn [printable] in Hp. assert (Forall (Reads fr) l) as HR.
    { rewrite Forall_forall in *. intros x Hx. apply IH; [done|]. rewrite forallb_forall in Hp. apply Hp. by apply list_elem_of_In. }
    destruct l as [|x l]; [reflexivity|].
    change (dumps (JList (x :: l))) with ("[" +:+ join "," (map dumps (x :: l)) +:+ "]") in *. rewrite <- !str_app_assoc in *.
    assert (skip_ws (join "," (map dumps (x :: l)) +:+ "]" +:+ rest) = join "," (map dumps (x :: l)) +:+ "]" +:+ rest
            ∧ ∃ c w, join "," (map dumps (x :: l)) +:+ "]" +:+ rest = String c w ∧ c ≠ "]"%char) as [Hw (c & w & E & Hc)].
    { cbn [forallb] in Hp. apply andb_true_iff in Hp as [Hpx _]. destruct (dumps_opens x Hpx) as (c & w & E & Ho).
      cbn [map]. destruct (map dumps l); cbn [join]; rewrite E, !str_app_cons; split; [by apply skip_ws_opens| |by apply skip_ws_opens|];
        eexists c, _; (split; [done|intros ->; discriminate Ho]). }
    pose proof (scan_items_read fr l x [] rest fuel HR Hp) as H.
    transitivity (scan_items fr fuel [] (join "," (map dumps (x :: l)) +:+ "]" +:+ rest)).
    + rewrite str_app_cons, str_app_nil_l. cbn [scan_value]. rewrite !bool_decide_eq_false_2, bool_decide_eq_true_2 by done. rewrite Hw, E.
      destruct c as [ [] [] [] [] [] [] [] [] ]; try reflexivity. by destruct Hc.
    + apply H. rewrite !str_len_app in *. cbn [str_len] in *. lia.
  - cbn [printable] in Hp. apply andb_true_iff in Hp as [Hnd Hp]. apply bool_decide_eq_true in Hnd.
    rewrite dumps_obj, stored_json_obj in *. set (ds := sort_by _ d) in *.
    assert (ds ≡ₚ d) as Hperm by apply sort_by_perm.
    assert (NoDup (dkeys ds)) as Hnd' by (unfold dkeys; by rewrite Hperm).
    assert (forallb (λ kv, printable kv.2) ds = true) as Hp'.
    { rewrite forallb_forall in *. intros x Hx. apply Hp. apply list_elem_of_In. rewrite <- Hperm. by apply list_elem_of_In. }
    assert (Forall (λ kv, Reads fr kv.2) ds) as HR.
    { rewrite Forall_forall in *. intros x Hx. apply IH; [by rewrite <- Hperm|]. rewrite forallb_forall in Hp'. apply Hp'. by apply list_elem_of_In. }
    clearbody ds. destruct ds as [|kv ds]; [reflexivity|]. rewrite <- !str_app_assoc in *.
    pose proof (scan_members_read fr ds kv [] rest fuel HR Hp' Hnd') as H.
    transitivity (scan_members fr fuel [] (join "," (entry <$> kv :: ds) +:+ "}" +:+ rest)); [destruct ds; reflexivity|].
    apply H. rewrite !str_len_app in *. cbn [str_len] in *. lia.
Qed.

Lemma loads_dumps v : printable v = true → loads fr (dumps v) = Some (stored_json v).
Proof.
  intros Hp. unfold loads. pose proof (reads_all v Hp "" (2 * str_len (dumps v) + 1)) as H. rewrite str_app_nil_r in H.
  destruct (dumps_opens v Hp) as (c & w & E & Ho).
  assert (skip_ws (dumps v) = dumps v) as -> by (rewrite E; by apply skip_ws_opens). rewrite H; [|done|lia]. reflexivity.
Qed.

(** ** The JSON columns of the store ([PlatformStore._json] and the row readers) *)

Definition json_column (v : json) : string := dumps v.
Definition column_json (s : string) : option json := loads fr s.

(** a JSON column comes back: the row readers get from the text the store wrote of any
    float-free value with unique keys that value, its objects in key order, whatever the
    nesting, the characters to escape and the sign of the integers. *)
Theorem json_column_roundtrip v : printable v = true → column_json (json_column v) = Some (stored_json v).
Proof. apply loads_dumps. Qed.
End roundtrip.

Lemma json_column_roundtrip_witness :
  let v := JObj [("b", JList [JInt (-12); JStr ("q" +:+ String dquote (String (ascii_of_nat 200) (String (ascii_of_nat 10) ""))); JObj []]);
                 ("a", JBool false)] in
  column_json (λ _, "") (json_column v) = Some (JObj [("a", JBool false);
    ("b", JList [JInt (-12); JStr ("q" +:+ String dquote (String (ascii_of_nat 200) (String (ascii_of_nat 10) ""))); JObj []])]).
Proof. intros v. apply (json_column_roundtrip (λ _, "") v). vm_compute. reflexivity. Defined.

(** White space, leading zeros, a trailing comma, a cut literal and what follows a value. *)
Example loads_cases :
  loads (λ _, "") <$> [" [ 1 , -20 ] "; "01"; "-0"; "[1,]"; "tru"; ""; "[1 2]"; "1."; "{}x"; "{ }"; "null"; "+1"; "1e"]
  = [Some (JList [JInt 1; JInt (-20)]); None; Some (JInt 0); None; None; None; None; None; None; Some (JObj []); Some JNull; None; None].
Proof. vm_compute. reflexivity. Qed.

(** ** What is printed is ASCII *)

Definition ascii_text (s : string) : bool := str_all (λ c, code c <? 128) s.

Lemma ascii_app s t : ascii_text (s +:+ t) = ascii_text s && ascii_text t.
Proof. apply str_all_app. Qed.

Lemma ascii_quote s : ascii_text (json_quote s) = true.
Proof.
  unfold json_quote. assert (ascii_text (concat_map_str json_char s) = true) as H.
  { induction s as [|c s IH]; [done|]. cbn [concat_map_str]. rewrite ascii_app, IH, andb_true_r.
    destruct c as [ [] [] [] [] [] [] [] [] ]; reflexivity. }
  cbn [ascii_text str_all]. unfold ascii_text in *. cbn [str_all]. by rewrite str_all_app, H.
Qed.

Lemma ascii_join sep l : ascii_text sep = true → forallb ascii_text l = true → ascii_text (join sep l) = true.
Proof.
  intros Hs. induction l as [|s [|t l] IH]; [done|by cbn [forallb join]; rewrite andb_true_r|].
  cbn [forallb]. intros [H1 H2]%andb_true_iff. change (join sep (s :: t :: l)) with (s +:+ sep +:+ join sep (t :: l)).
  rewrite !ascii_app, H1, Hs. by apply IH.
Qed.

Lemma ascii_str_of_Z z : ascii_text (str_of_Z z) = true.
Proof.
  assert (ascii_text (str_of_nat (Z.abs_nat z)) = true) as H.
  { destruct (str_of_nat_spec (Z.abs_nat z)) as (c & w & -> & Ha & _). revert Ha. generalize (String c w). clear.
    intros s. unfold ascii_text. induction s as [|c s IH]; [done|]. cbn [str_all]. rewrite !andb_true_iff. intros [Hc Hs]. split; [|auto].
    destruct c as [ [] [] [] [] [] [] [] [] ]; first [discriminate Hc | reflexivity]. }
  unfold str_of_Z. destruct (_ <? 0)%Z; [|done]. by rewrite ascii_app, H.
Qed.

Lemma ascii_dumps v : printable v = true → ascii_text (dumps v) = true.
Proof.
  induction v as [|b|z|q p|s|l IH|d IH] using json_ind_nested; intros Hp; try discriminate Hp; [done|by destruct b| | | | ].
  - apply ascii_str_of_Z.
  - apply ascii_quote.
  - cbn [dumps]. rewrite !ascii_app, ascii_join; [done|done|]. cbn [printable] in Hp. clear - IH Hp.
    induction l as [|x l IHl]; [done|]. apply Forall_cons in IH as [Hx IH]. cbn [map forallb] in *. apply andb_true_iff in Hp as [? ?].
    rewrite Hx by done. by apply IHl.
  - rewrite dumps_obj, !ascii_app, ascii_join; [done|done|]. cbn [printable] in Hp. apply andb_true_iff in Hp as [_ Hp].
    apply forallb_forall. intros s Hs. apply list_elem_of_In, list_elem_of_fmap in Hs as ([k x] & -> & Hin).
    rewrite sort_by_perm in Hin. rewrite Forall_forall in IH. rewrite forallb_forall in Hp.
    unfold entry. rewrite !ascii_app, ascii_quote. cbn [fst snd]. specialize (IH _ Hin (Hp (k, x) (proj1 (list_elem_of_In _ _) Hin))).
    cbn [snd] in IH. by rewrite IH.
Qed.
