(* ===== verification/Base64.v ===== *)
(** * Base64 and UTF-8 as the cursors and keys use them

    [base64.urlsafe_b64encode], the forgiving [urlsafe_b64decode] (characters outside the
    alphabet are skipped, padding ends the data once a quantum can close) and [str.encode] /
    [bytes.decode] for the characters the model has (code points up to 255: one or two
    bytes; other sequences are read as malformed). *)

From S2P Require Import Prelude.
From S2P Require Import PyStr.

(** ** UTF-8 *)

Fixpoint utf8_encode (s : string) : string :=
  match s with
  | EmptyString => ""
  | String c s =>
      if code c <? 128 then String c (utf8_encode s)
      else String (ascii_of_nat (192 + code c / 64)) (String (ascii_of_nat (128 + code c mod 64)) (utf8_encode s))
  end.

Fixpoint utf8_decode (s : string) : option string :=
  match s with
  | EmptyString => Some ""
  | String c s1 =>
      if code c <? 128 then match utf8_decode s1 with Some t => Some (String c t) | None => None end
      else match s1 with
           | String d s2 =>
               if ((code c =? 194) || (code c =? 195)) && (128 <=? code d) && (code d <? 192)
               then match utf8_decode s2 with
                    | Some t => Some (String (ascii_of_nat ((code c - 192) * 64 + (code d - 128))) t)
                    | None => None
                    end
               else None
           | EmptyString => None
           end
  end.

(** ** Encoding *)

Definition b64_alphabet : string := "ABCDEFGHIJKLMNOPQRSTUVWXYZabcdefghijklmnopqrstuvwxyz0123456789-_".

Fixpoint str_nth (n : nat) (s : string) : ascii :=
  match s, n with
  | String c _, O => c
  | String _ s, S n => str_nth n s
  | EmptyString, _ => "A"%char
  end.

Definition b64_char (n : nat) : ascii := str_nth n b64_alphabet.

(** The characters of the data, and the padding that [urlsafe_b64encode] puts after them. *)
Fixpoint b64_body (s : string) : string :=
  match s with
  | EmptyString => ""
  | String a EmptyString => String (b64_char (code a / 4)) (String (b64_char (code a mod 4 * 16)) "")
  | String a (String b EmptyString) =>
      String (b64_char (code a / 4)) (String (b64_char (code a mod 4 * 16 + code b / 16))
        (String (b64_char (code b mod 16 * 4)) ""))
  | String a (String b (String c s)) =>
      String (b64_char (code a / 4)) (String (b64_char (code a mod 4 * 16 + code b / 16))
        (String (b64_char (code b mod 16 * 4 + code c / 64)) (String (b64_char (code c mod 64)) (b64_body s))))
  end.

Fixpoint str_repeat (c : ascii) (n : nat) : string := match n with O => "" | S n => String c (str_repeat c n) end.

Definition urlsafe_b64encode (s : string) : string :=
  b64_body s +:+ str_repeat "=" ((3 - str_len s mod 3) mod 3).

(** ** Decoding *)

(** The table of [a2b_base64] after [-_] became [+/]. *)
Definition b64_value (c : ascii) : option nat :=
  if in_range "A" "Z" c then Some (code c - 65)
  else if in_range "a" "z" c then Some (code c - 71)
  else if is_digit c then Some (code c + 4)
  else if (c ≡? "-"%char) || (c ≡? "+"%char) then Some 62
  else if (c ≡? "_"%char) || (c ≡? "/"%char) then Some 63
  else None.

(** The loop: the position in the quantum, the bits left over and the padding seen. *)
Fixpoint a2b_base64 (quad left pads : nat) (s : string) : option string :=
  match s with
  | EmptyString => if quad =? 0 then Some "" else None
  | String c s =>
      if c ≡? "="%char then
        if 2 <=? quad then if 4 <=? quad + S pads then Some "" else a2b_base64 quad left (S pads) s
        else a2b_base64 quad left pads s
      else match b64_value c with
           | None => a2b_base64 quad left pads s
           | Some v =>
               let out n r := match r with Some t => Some (String (ascii_of_nat n) t) | None => None end in
               match quad with
               | 0 => a2b_base64 1 v 0 s
               | 1 => out (left * 4 + v / 16) (a2b_base64 2 (v mod 16) 0 s)
               | 2 => out (left * 16 + v / 4) (a2b_base64 3 (v mod 4) 0 s)
               | _ => out (left * 64 + v) (a2b_base64 0 0 0 s)
               end
           end
  end.

Definition urlsafe_b64decode (s : string) : option string := a2b_base64 0 0 0 s.

(** ** Round trips *)

Lemma code_lt c : code c < 256.
Proof. apply nat_ascii_bounded. Qed.

Lemma ascii_code c : ascii_of_nat (code c) = c.
Proof. apply ascii_nat_embedding. Qed.

Lemma b64_value_char n : n < 64 → b64_value (b64_char n) = Some n ∧ b64_char n ≠ "="%char.
Proof. intros Hn. do 64 (destruct n as [|n]; [by vm_compute|]). lia. Qed.

Lemma a2b_char quad left pads n s :
  n < 64 →
  a2b_base64 quad left pads (String (b64_char n) s)
  = let out m r := match r with Some t => Some (String (ascii_of_nat m) t) | None => None end in
    match quad with
    | 0 => a2b_base64 1 n 0 s
    | 1 => out (left * 4 + n / 16) (a2b_base64 2 (n mod 16) 0 s)
    | 2 => out (left * 16 + n / 4) (a2b_base64 3 (n mod 4) 0 s)
    | _ => out (left * 64 + n) (a2b_base64 0 0 0 s)
    end.
Proof. intros Hn. destruct (b64_value_char n Hn) as [Hv Hne]. cbn [a2b_base64]. rewrite bool_decide_eq_false_2 by done. by rewrite Hv. Qed.

(** The bits of three bytes, cut into four and put together again. *)
Lemma quantum a b c :
  a < 256 → b < 256 → c < 256 →
  a / 4 < 64 ∧ a mod 4 * 16 + b / 16 < 64 ∧ b mod 16 * 4 + c / 64 < 64 ∧ c mod 64 < 64
  ∧ a / 4 * 4 + (a mod 4 * 16 + b / 16) / 16 = a
  ∧ (a mod 4 * 16 + b / 16) mod 16 * 16 + (b mod 16 * 4 + c / 64) / 4 = b
  ∧ (b mod 16 * 4 + c / 64) mod 4 * 64 + c mod 64 = c.
Proof.
  intros Ha Hb Hc.
  pose proof (Nat.Div0.div_lt_upper_bound a 4 64 ltac:(lia)). pose proof (Nat.Div0.div_lt_upper_bound b 16 16 ltac:(lia)).
  pose proof (Nat.Div0.div_lt_upper_bound c 64 4 ltac:(lia)).
  pose proof (Nat.mod_upper_bound a 4 ltac:(lia)). pose proof (Nat.mod_upper_bound b 16 ltac:(lia)). pose proof (Nat.mod_upper_bound c 64 ltac:(lia)).
  pose proof (Nat.div_mod_eq a 4). pose proof (Nat.div_mod_eq b 16). pose proof (Nat.div_mod_eq c 64).
  rewrite (Nat.div_add_l _ 16), (Nat.div_small (b / 16)), (Nat.div_add_l _ 4), (Nat.div_small (c / 64)) by lia.
  rewrite (Nat.add_comm (a mod 4 * 16)), Nat.Div0.mod_add, (Nat.mod_small (b / 16)) by lia.
  rewrite (Nat.add_comm (b mod 16 * 4) (c / 64)), Nat.Div0.mod_add, (Nat.mod_small (c / 64)) by lia. split_and!; lia.
Qed.

Lemma a2b_body s :
  a2b_base64 0 0 0 (b64_body s +:+ str_repeat "=" ((3 - str_len s mod 3) mod 3)) = Some s.
Proof.
  induction s as [s IH] using (induction_ltof1 _ str_len). unfold ltof in IH.
  destruct s as [|a [|b [|c s] ] ].
  - reflexivity.
  - destruct (quantum (code a) 0 0) as (H1 & H2 & _ & _ & H5 & _); [apply code_lt|lia..|].
    change (0 / 16) with 0 in *. rewrite Nat.add_0_r in H2, H5.
    cbn [b64_body]. rewrite !str_app_cons, !a2b_char by done. cbv zeta. rewrite H5, ascii_code. reflexivity.
  - destruct (quantum (code a) (code b) 0) as (H1 & H2 & H3 & _ & H5 & H6 & _); [apply code_lt..|lia|].
    change (0 / 64) with 0 in *. rewrite Nat.add_0_r in H3, H6.
    cbn [b64_body]. rewrite !str_app_cons, !a2b_char by done. cbv zeta. rewrite H5, H6, !ascii_code. reflexivity.
  - destruct (quantum (code a) (code b) (code c)) as (H1 & H2 & H3 & H4 & H5 & H6 & H7); [apply code_lt..|].
    cbn [b64_body]. rewrite !str_app_cons, !a2b_char by done. cbv zeta. rewrite H5, H6, H7, !ascii_code.
    replace ((3 - str_len (String a (String b (String c s))) mod 3) mod 3) with ((3 - str_len s mod 3) mod 3).
    + rewrite IH; [done|cbn; lia].
    + cbn [str_len]. do 2 f_equal. replace (S (S (S (str_len s)))) with (str_len s + 1 * 3) by lia. by rewrite Nat.Div0.mod_add.
Qed.

Lemma b64_decode_encode s : urlsafe_b64decode (urlsafe_b64encode s) = Some s.
Proof. apply a2b_body. Qed.

(** ** Stripping the padding and putting it back *)

Lemma rev_str_app s t acc : rev_str (s +:+ t) acc = rev_str t (rev_str s acc).
Proof. revert acc. induction s as [|c s IH]; intros acc; [done|]. apply IH. Qed.

Lemma rev_str_rev s a b : rev_str (rev_str s a) b = rev_str a (s +:+ b).
Proof. revert a b. induction s as [|c s IH]; intros a b; [done|]. cbn [rev_str]. by rewrite IH. Qed.

Lemma rev_str_acc s acc : rev_str s acc = rev_str s "" +:+ acc.
Proof.
  revert acc. induction s as [|c s IH]; intros acc; [done|]. cbn [rev_str]. rewrite IH, (IH (String c "")).
  rewrite <- str_app_assoc. by rewrite str_app_cons, str_app_nil_l.
Qed.

Lemma ldrop_repeat c n s : ldrop c (rev_str (str_repeat c n) s) = ldrop c s.
Proof.
  revert s. induction n as [|n IH]; intros s; [done|]. cbn [str_repeat rev_str]. rewrite IH. cbn. by rewrite bool_decide_eq_true_2.
Qed.

Lemma ldrop_none c s : str_all (λ d, negb (d ≡? c)) s = true → ldrop c s = s.
Proof. destruct s as [|d s]; [done|]. cbn. by destruct (d ≡? c). Qed.

Lemma rstrip_char_app c n s : str_all (λ d, negb (d ≡? c)) s = true → rstrip_char c (s +:+ str_repeat c n) = s.
Proof.
  intros Hs. unfold rstrip_char. rewrite rev_str_app, ldrop_repeat, ldrop_none by (rewrite str_all_rev, Hs; reflexivity).
  rewrite rev_str_rev. apply str_app_nil_r.
Qed.

Lemma b64_body_spec s :
  str_all (λ d, (code d <? 128) && negb (d ≡? "="%char)) (b64_body s) = true
  ∧ (4 - str_len (b64_body s) mod 4) mod 4 = (3 - str_len s mod 3) mod 3.
Proof.
  assert (∀ n, n < 64 → (code (b64_char n) <? 128) && negb (b64_char n ≡? "="%char) = true) as Hch.
  { intros n Hn. do 64 (destruct n as [|n]; [by vm_compute|]). lia. }
  induction s as [s IH] using (induction_ltof1 _ str_len). unfold ltof in IH.
  destruct s as [|a [|b [|c s] ] ]; [done|..].
  - destruct (quantum (code a) 0 0) as (H1 & H2 & _ & _ & H5 & _); [apply code_lt|lia..|].
    change (0 / 16) with 0 in *. rewrite Nat.add_0_r in H2. cbn [b64_body str_all]. by rewrite !Hch.
  - destruct (quantum (code a) (code b) 0) as (H1 & H2 & H3 & _); [apply code_lt..|lia|].
    change (0 / 64) with 0 in *. rewrite Nat.add_0_r in H3. cbn [b64_body str_all]. by rewrite !Hch.
  - destruct (quantum (code a) (code b) (code c)) as (H1 & H2 & H3 & H4 & _); [apply code_lt..|].
    destruct (IH s) as [IH1 IH2]; [cbn; lia|]. split.
    + cbn [b64_body str_all]. rewrite !Hch by done. exact IH1.
    + cbn [b64_body str_len]. replace (S (S (S (S (str_len (b64_body s)))))) with (str_len (b64_body s) + 1 * 4) by lia.
      replace (S (S (S (str_len s)))) with (str_len s + 1 * 3) by lia. by rewrite !Nat.Div0.mod_add.
Qed.

Lemma str_all_impl f g s : (∀ c, f c = true → g c = true) → str_all f s = true → str_all g s = true.
Proof. intros H. induction s as [|c s IH]; [done|]. cbn. rewrite !andb_true_iff. intros [? ?]. auto. Qed.

(** What is left of the encoding without its padding, and the padding it gets back. *)
Lemma b64_unpadded s : rstrip_char "=" (urlsafe_b64encode s) = b64_body s.
Proof.
  apply rstrip_char_app. eapply str_all_impl; [|apply b64_body_spec]. cbn. intros c Hc. by apply andb_true_iff in Hc as [_ ?].
Qed.

Lemma b64_repadded s : b64_body s +:+ str_repeat "=" ((4 - str_len (b64_body s) mod 4) mod 4) = urlsafe_b64encode s.
Proof. unfold urlsafe_b64encode. by rewrite (proj2 (b64_body_spec s)). Qed.

(** ASCII text is its own UTF-8. *)
Lemma utf8_ascii s : str_all (λ c, code c <? 128) s = true → utf8_encode s = s ∧ utf8_decode s = Some s.
Proof.
  induction s as [|c s IH]; [done|]. cbn [str_all utf8_encode utf8_decode]. rewrite andb_true_iff. intros [Hc Hs].
  destruct (IH Hs) as [-> ->]. by rewrite Hc.
Qed.

Lemma utf8_decode_encode s : utf8_decode (utf8_encode s) = Some s.
Proof.
  induction s as [|c s IH]; [done|]. cbn [utf8_encode]. destruct (Nat.ltb_spec (code c) 128) as [Hc|Hc].
  - cbn [utf8_decode]. rewrite IH. destruct (Nat.ltb_spec (code c) 128); [done|lia].
  - apply Nat.leb_le in Hc. cbn [utf8_decode]. rewrite IH. clear IH.
    destruct c as [ [] [] [] [] [] [] [] [] ]; first [discriminate Hc | reflexivity].
Qed.

Lemma str_repeat_ascii n : str_all (λ c, code c <? 128) (str_repeat "=" n) = true.
Proof. induction n; done. Qed.

Lemma b64_encode_ascii s : str_all (λ c, code c <? 128) (urlsafe_b64encode s) = true.
Proof.
  unfold urlsafe_b64encode. rewrite str_all_app, str_repeat_ascii, andb_true_r. eapply str_all_impl; [|apply b64_body_spec].
  cbn. intros c Hc. by apply andb_true_iff in Hc as [? _].
Qed.

(** Padding, skipped characters, and the data lengths that cannot be. *)
Example decode_cases :
  urlsafe_b64decode <$> ["aGk="; "aGk"; "a"; "aG=k="; "aGk=zzz"; "a!G k="; "="; "-_+/"; "aGVsbG8"; "aGVsbG8="; ""]
  = [Some "hi"; None; None; Some "hi"; Some "hi"; Some "hi"; Some ""; urlsafe_b64decode "-_-_"; None; Some "hello"; Some ""].
Proof. vm_compute. reflexivity. Qed.
