(* ===== verification/InventoryStore.v ===== *)
(** * The inventory store: writes ([benchmarking/platform_store.py])

    The five tables as dicts by primary key and the transactions that change them: immutable
    identities, alias decisions with their supersession, snapshots with their offers, and
    the fenced commit of a reconciled inventory.  A transaction that raises rolls back. *)

From S2P Require Import Prelude PyStr PyDict Schemas Catalog ExactCache Domain Ledger.

(** ** Tables *)

(** A row of [model_identity_aliases]: the decision and [reviewer_org_id]. *)
Abbreviation AliasTable := (list (string * (IdentityAliasDecision * option string))).

(** A row of [provider_offers] is an offer under its snapshot's id. *)
Abbreviation OfferTable := (list (string * (string * ProviderOffer))).

Record Db := {
  db_identities : list (string * ModelIdentity);
  db_aliases : AliasTable;
  db_snapshots : list (string * InventorySnapshot);
  db_offers : OfferTable;
  db_ops : Ops;
}.

Definition new_db : Db := {| db_identities := []; db_aliases := []; db_snapshots := []; db_offers := []; db_ops := [] |}.

Definition with_identities (t : list (string * ModelIdentity)) (d : Db) : Db :=
  {| db_identities := t; db_aliases := db_aliases d; db_snapshots := db_snapshots d; db_offers := db_offers d; db_ops := db_ops d |}.
Definition with_aliases (t : AliasTable) (d : Db) : Db :=
  {| db_identities := db_identities d; db_aliases := t; db_snapshots := db_snapshots d; db_offers := db_offers d; db_ops := db_ops d |}.
Definition with_inventory (s : list (string * InventorySnapshot)) (o : OfferTable) (d : Db) : Db :=
  {| db_identities := db_identities d; db_aliases := db_aliases d; db_snapshots := s; db_offers := o; db_ops := db_ops d |}.
Definition with_ops (t : Ops) (d : Db) : Db :=
  {| db_identities := db_identities d; db_aliases := db_aliases d; db_snapshots := db_snapshots d; db_offers := db_offers d; db_ops := t |}.

(** [_sqlite_transaction]: the result of the body, and its writes only when it returned. *)
Definition transaction {A} (body : Db → res StoreError (A * Db)) (d : Db) : res StoreError A * Db :=
  match body d with Ok (a, d') => (Ok a, d') | Err e => (Err e, d) end.

(** A list of statements, stopping at the first that raises. *)
Fixpoint each_stmt {X A} (f : X → Db → res StoreError (A * Db)) (l : list X) (d : Db) : res StoreError (list A * Db) :=
  match l with
  | [] => Ok ([], d)
  | x :: l =>
      match f x d with
      | Err e => Err e
      | Ok (a, d) => match each_stmt f l d with Err e => Err e | Ok (rs, d) => Ok (a :: rs, d) end
      end
  end.

Fixpoint each_check {X Y} (f : X → option Y) (e : StoreError) (l : list X) : res StoreError (list Y) :=
  match l with
  | [] => Ok []
  | x :: l =>
      match f x with
      | None => Err e
      | Some y => match each_check f e l with Err e => Err e | Ok ys => Ok (y :: ys) end
      end
  end.

(** ** Identities *)

(** [_check_identity_content]: every column is compared. *)
Definition same_columns (a b : ModelIdentity) : bool :=
  (mi_id a ≡? mi_id b) && (mi_vendor a ≡? mi_vendor b) && (mi_family a ≡? mi_family b) && (mi_release a ≡? mi_release b)
  && (mi_reasoning a ≡? mi_reasoning b) && (mi_quantization a ≡? mi_quantization b) && (mi_fine_tune a ≡? mi_fine_tune b)
  && (mi_context a ≡? mi_context b) && (mi_display a ≡? mi_display b) && eqb (mi_provisional a) (mi_provisional b)
  && Qeq_bool (mi_created_at a) (mi_created_at b).

(** One round of [_ensure_identities_sqlite]; the result is the number inserted. *)
Definition ensure_identity (i : ModelIdentity) (d : Db) : res StoreError (nat * Db) :=
  let '(n, d) := match dget (db_identities d) (mi_id i) with
                 | Some _ => (0, d)
                 | None => (1, with_identities (dset (db_identities d) (mi_id i) i) d)
                 end in
  match dget (db_identities d) (mi_id i) with
  | Some row =>
      if same_columns row i then Ok (n, d)
      else Err (EValue ("identity '" +:+ mi_id i +:+ "' already exists with different immutable content"))
  | None => Err (EValue ("identity '" +:+ mi_id i +:+ "' already exists with different immutable content"))
  end.

(** [ensure_identities] *)
Definition ensure_identities (identities : list ModelIdentity) (d : Db) : res StoreError nat * Db :=
  match each_check (λ i, if check_identity i then Some i else None) (EValue "ModelIdentity") identities with
  | Err e => (Err e, d)
  | Ok [] => (Ok 0, d)
  | Ok validated =>
      transaction (λ d, match each_stmt ensure_identity validated d with
                        | Ok (ns, d) => Ok (list_sum ns, d)
                        | Err e => Err e
                        end) d
  end.

(** ** Alias decisions *)

Definition alias_key (a : IdentityAliasDecision) : string * string := (ad_provider a, ad_source_id a).

Definition active (a : IdentityAliasDecision) : bool := match ad_superseded_at a with None => true | Some _ => false end.

(** [_ALIAS_CURRENT_SQL] *)
Definition current_alias (t : AliasTable) (k : string * string) : option IdentityAliasDecision :=
  fst <$> first_such (λ a : IdentityAliasDecision * option string, (alias_key a.1 ≡? k) && active a.1) t.*2.

Definition supersede (at_ : Q) (a : IdentityAliasDecision) : IdentityAliasDecision :=
  {| ad_id := ad_id a; ad_provider := ad_provider a; ad_source_id := ad_source_id a; ad_identity := ad_identity a;
     ad_method := ad_method a; ad_confidence := ad_confidence a; ad_evidence := ad_evidence a; ad_reviewer := ad_reviewer a;
     ad_decided_at := ad_decided_at a; ad_superseded_at := Some at_ |}.

(** [_ALIAS_SUPERSEDE_SQL] *)
Definition supersede_key (at_ : Q) (k : string * string) (t : AliasTable) : AliasTable :=
  (λ row : string * (IdentityAliasDecision * option string),
     if (alias_key row.2.1 ≡? k) && active row.2.1 then (row.1, (supersede at_ row.2.1, row.2.2)) else row) <$> t.

(** [_alias_insert_params]: the reviewer defaults to the actor. *)
Definition stored_alias (a : IdentityAliasDecision) (actor : Actor) : IdentityAliasDecision :=
  {| ad_id := ad_id a; ad_provider := ad_provider a; ad_source_id := ad_source_id a; ad_identity := ad_identity a;
     ad_method := ad_method a; ad_confidence := ad_confidence a; ad_evidence := ad_evidence a;
     ad_reviewer := match ad_reviewer a with Some "" | None => Some (actor_id actor) | r => r end;
     ad_decided_at := ad_decided_at a; ad_superseded_at := ad_superseded_at a |}.

Definition alias_row (a : IdentityAliasDecision) : IdentityAliasDecision :=
  {| ad_id := ad_id a; ad_provider := ad_provider a; ad_source_id := ad_source_id a; ad_identity := ad_identity a;
     ad_method := ad_method a; ad_confidence := ad_confidence a; ad_evidence := stored_dict (ad_evidence a);
     ad_reviewer := ad_reviewer a; ad_decided_at := ad_decided_at a; ad_superseded_at := None |}.

(** [_check_alias_order] *)
Definition alias_order_ok (current : option IdentityAliasDecision) (a : IdentityAliasDecision) : bool :=
  match current with Some c => Qltb (ad_decided_at c) (ad_decided_at a) | None => true end.

(** One round of [_write_alias_decisions_sqlite]. *)
Definition write_alias_decision (actor : Actor) (a : IdentityAliasDecision) (d : Db)
    : res StoreError (IdentityAliasDecision * Db) :=
  if negb (dmem (db_identities d) (ad_identity a)) then Err (EValue ("unknown identity '" +:+ ad_identity a +:+ "'"))
  else if negb (alias_order_ok (current_alias (db_aliases d) (alias_key a)) a)
  then Err (EValue "replacement decision must be newer than the active decision")
  else
    let t := supersede_key (ad_decided_at a) (alias_key a) (db_aliases d) in
    if dmem t (ad_id a) then Err EIntegrity
    else
      let stored := stored_alias a actor in
      Ok (stored, with_aliases (dset t (ad_id a) (alias_row stored, actor_org actor)) d).

(** [_validate_alias_decisions] *)
Definition validate_alias_decisions (decisions : list IdentityAliasDecision) (actor : Actor)
    : res StoreError (list IdentityAliasDecision) :=
  if actor_id actor ≡? "" then Err (EValue "Actor")
  else match each_check (λ a, if check_decision a then Some a else None) (EValue "IdentityAliasDecision") decisions with
  | Err e => Err e
  | Ok validated =>
      if existsb (λ a, negb (active a)) validated then Err (EValue "a replacement decision must be active")
      else Ok validated
  end.

(** [replace_alias_decision] *)
Definition replace_alias_decision (a : IdentityAliasDecision) (actor : Actor) (d : Db)
    : res StoreError IdentityAliasDecision * Db :=
  match validate_alias_decisions [a] actor with
  | Err e => (Err e, d)
  | Ok ds =>
      transaction (λ d, match each_stmt (write_alias_decision actor) ds d with
                        | Ok (stored :: _, d) => Ok (stored, d)
                        | Ok ([], _) => Err (ERuntime "list index out of range")
                        | Err e => Err e
                        end) d
  end.

(** ** Snapshots and offers *)

(** The row of a snapshot: [source_metadata_json] sorts its keys, the offers have their own table. *)
Definition snapshot_row (s : InventorySnapshot) : InventorySnapshot :=
  {| sn_id := sn_id s; sn_provider := sn_provider s; sn_scope := sn_scope s; sn_status := sn_status s;
     sn_started_at := sn_started_at s; sn_completed_at := sn_completed_at s; sn_expires_at := sn_expires_at s;
     sn_pagination_complete := sn_pagination_complete s; sn_revision := sn_revision s;
     sn_metadata := stored_dict (sn_metadata s); sn_error := sn_error s; sn_offers := [] |}.

Definition offer_row (o : ProviderOffer) : ProviderOffer :=
  {| po_snapshot_offer_id := po_snapshot_offer_id o; po_offer_id := po_offer_id o; po_identity := po_identity o;
     po_route := po_route o; po_provider := po_provider o; po_upstream := po_upstream o; po_base_url := po_base_url o;
     po_scope := po_scope o; po_capabilities := po_capabilities o; po_pricing := po_pricing o;
     po_revision := po_revision o; po_raw := stored_dict (po_raw o) |}.

(** [_OFFER_INSERT_SQL]: the primary key and the two unique pairs. *)
Definition insert_offer (snapshot : string) (o : ProviderOffer) (d : Db) : res StoreError (unit * Db) :=
  if dmem (db_offers d) (po_snapshot_offer_id o)
     || existsb (λ so : string * ProviderOffer, (so.1 ≡? snapshot) &&
          ((po_offer_id so.2 ≡? po_offer_id o) || (po_route so.2 ≡? po_route o))) (db_offers d).*2
  then Err EIntegrity
  else Ok (tt, with_inventory (db_snapshots d) (dset (db_offers d) (po_snapshot_offer_id o) (snapshot, offer_row o)) d).

(** [_insert_inventory_sqlite] *)
Definition insert_inventory (s : InventorySnapshot) (offers : list ProviderOffer) (d : Db) : res StoreError (unit * Db) :=
  if dmem (db_snapshots d) (sn_id s) then Err EIntegrity
  else
    match each_stmt (insert_offer (sn_id s)) offers
            (with_inventory (dset (db_snapshots d) (sn_id s) (snapshot_row s)) (db_offers d) d) with
    | Err e => Err e
    | Ok (_, d) => Ok (tt, d)
    end.

Section validation.
Context (digest24 : string → string) (ip_host : string → bool).

(** The agreement of one offer with its snapshot. *)
Definition offer_mismatch (s : InventorySnapshot) (o : ProviderOffer) : option string :=
  if negb (po_provider o ≡? sn_provider s) then Some "offer provider does not match its snapshot"
  else if negb (po_scope o ≡? sn_scope s) then Some "offer credential scope does not match its snapshot"
  else if negb (po_revision o ≡? sn_revision s) then Some "offer adapter revision does not match its snapshot"
  else
    let expected := stable_snapshot_offer_id digest24 (sn_id s) (po_offer_id o) in
    if negb (po_snapshot_offer_id o ≡? expected) then Some ("snapshot_offer_id must equal " +:+ expected) else None.

Fixpoint first_some {X Y} (f : X → option Y) (l : list X) : option Y :=
  match l with [] => None | x :: l => f x orelse first_some f l end.

(** [_validate_inventory] *)
Definition validate_inventory (s : InventorySnapshot) (offers : list ProviderOffer)
    : res StoreError (InventorySnapshot * list ProviderOffer) :=
  match check_snapshot s with
  | None => Err (EValue "InventorySnapshot")
  | Some s =>
      match each_check (check_offer digest24 ip_host) (EValue "ProviderOffer") offers with
      | Err e => Err e
      | Ok offers =>
          if sn_status s ≡? stale then Err (EValue "stale is derived at read time and cannot be persisted")
          else match offers, sn_status s with
          | _ :: _, failed => Err (EValue "a failed inventory snapshot cannot contain offers")
          | _, _ =>
              match sn_offers s with
              | _ :: _ => Err (EValue "pass offers separately to commit_inventory")
              | [] =>
                  match first_some (offer_mismatch s) offers with
                  | Some msg => Err (EValue msg)
                  | None => Ok (s, offers)
                  end
              end
          end
      end
  end.

(** [commit_inventory] *)
Definition commit_inventory (s : InventorySnapshot) (offers : list ProviderOffer) (d : Db) : res StoreError unit * Db :=
  match validate_inventory s offers with
  | Err e => (Err e, d)
  | Ok (s, offers) => transaction (insert_inventory s offers) d
  end.

(** [offer_keys] and the check of a decision against them. *)
Definition decision_mismatch (s : InventorySnapshot) (offers : list ProviderOffer) (a : IdentityAliasDecision) : option string :=
  if negb (match dget (ad_evidence a) "snapshot_id" with Some (JStr i) => i ≡? sn_id s | _ => false end)
  then Some "reconciliation decision must reference its inventory snapshot"
  else if existsb (λ o, (provider_str (po_provider o) ≡? ad_provider a) && (po_upstream o ≡? ad_source_id a)
                        && (po_identity o ≡? ad_identity a)) offers
  then None
  else Some "reconciliation decision does not match a snapshot offer".

(** [_commit_reconciled_sqlite] *)
Definition commit_reconciled_body (s : InventorySnapshot) (offers : list ProviderOffer) (decisions : list IdentityAliasDecision)
    (actor : Actor) (fence : option Fence) (d : Db) : res StoreError (list IdentityAliasDecision * Db) :=
  match match fence with Some f => assert_fence f (db_ops d) | None => Ok tt end with
  | Err e => Err e
  | Ok _ =>
      match each_stmt (write_alias_decision actor) decisions d with
      | Err e => Err e
      | Ok (stored, d) =>
          match insert_inventory s offers d with Err e => Err e | Ok (_, d) => Ok (stored, d) end
      end
  end.

(** [commit_reconciled_inventory] *)
Definition commit_reconciled (s : InventorySnapshot) (offers : list ProviderOffer) (decisions : list IdentityAliasDecision)
    (actor : Actor) (fence : option Fence) (d : Db) : res StoreError (list IdentityAliasDecision) * Db :=
  match validate_inventory s offers with
  | Err e => (Err e, d)
  | Ok (s, offers) =>
      match validate_alias_decisions decisions actor with
      | Err e => (Err e, d)
      | Ok decisions =>
          match first_some (decision_mismatch s offers) decisions with
          | Some msg => (Err (EValue msg), d)
          | None => transaction (commit_reconciled_body s offers decisions actor fence) d
          end
      end
  end.
End validation.

(** ** Transactions *)

Lemma transaction_err {A} (body : Db → res StoreError (A * Db)) d e d' : transaction body d = (Err e, d') → d' = d.
Proof. unfold transaction. by destruct (body d) as [ [? ?]|]; intros [=]. Qed.

Lemma transaction_ok {A} (body : Db → res StoreError (A * Db)) d a d' :
  transaction body d = (Ok a, d') ↔ body d = Ok (a, d').
Proof. unfold transaction. destruct (body d) as [ [a0 d0]|]; split; intros [=]; by subst. Qed.

(** A property every statement keeps is kept by the list of them. *)
Lemma each_stmt_inv {X A} (P : Db → Prop) (f : X → Db → res StoreError (A * Db)) l d rs d' :
  (∀ x d a d', x ∈ l → P d → f x d = Ok (a, d') → P d') → P d → each_stmt f l d = Ok (rs, d') → P d'.
Proof.
  revert d rs. induction l as [|x l IH]; intros d rs Hf Hd; cbn; [by intros [= <- <-]|].
  destruct (f x d) as [ [a d1]|] eqn:E; [|done]. destruct (each_stmt f l d1) as [ [rs1 d2]|] eqn:E'; [|done].
  intros [= <- <-]. eapply (IH d1); [|by eapply (Hf x); [left|..]|done]. intros y ? ? ? Hy. apply Hf. by right.
Qed.

(** What statement after statement establishes for its own element stays established. *)
Lemma each_stmt_each {X A} (P : Db → Prop) (Q : X → Db → Prop) (f : X → Db → res StoreError (A * Db)) l d rs d' :
  (∀ x d a d', x ∈ l → P d → f x d = Ok (a, d') → P d' ∧ Q x d') →
  (∀ x y d a d', x ∈ l → y ∈ l → P d → Q x d → f y d = Ok (a, d') → Q x d') →
  P d → each_stmt f l d = Ok (rs, d') → P d' ∧ ∀ x, x ∈ l → Q x d'.
Proof.
  revert d rs. induction l as [|x l IH]; intros d rs Hf Hk Hd; cbn.
  { intros [= <- <-]. split; [done|]. by intros ? ?%elem_of_nil. }
  destruct (f x d) as [ [a d1]|] eqn:E; [|done]. destruct (each_stmt f l d1) as [ [rs1 d2]|] eqn:E'; [|done].
  intros [= <- <-]. destruct (Hf x d a d1) as [Hd1 Hx]; [left|done..|].
  destruct (IH d1 rs1) as [Hd2 Hl].
  - intros y ? ? ? Hy. apply Hf. by right.
  - intros y z ? ? ? Hy Hz. apply Hk; by right.
  - done.
  - done.
  - split; [done|]. intros y [->|Hy]%elem_of_cons; [|auto].
    enough (P d2 ∧ Q x d2) by tauto.
    eapply (each_stmt_inv (λ d, P d ∧ Q x d) f l d1); [|done..].
    intros z d3 a' d4 Hz [HP HQ] Hf'. split.
    + by eapply (Hf z); [right|..].
    + by eapply (Hk x z); [left|right|..].
Qed.

Lemma each_check_ok {X Y} (f : X → option Y) e l ys : each_check f e l = Ok ys → Forall2 (λ x y, f x = Some y) l ys.
Proof.
  revert ys. induction l as [|x l IH]; intros ys; cbn; [intros [= <-]; constructor|].
  destruct (f x) as [y|] eqn:E; [|done]. destruct (each_check f e l) as [zs|]; [|done]. intros [= <-]. constructor; auto.
Qed.

Lemma each_check_filter {X} (g : X → bool) e l ys :
  each_check (λ x, if g x then Some x else None) e l = Ok ys → ys = l ∧ Forall (λ x, g x = true) l.
Proof.
  intros H%each_check_ok. induction H as [|x y l ys Hxy _ [-> IH] ]; [done|].
  destruct (g x) eqn:E; [|done]. injection Hxy as ->. by repeat constructor.
Qed.

Lemma first_some_none {X Y} (f : X → option Y) l : first_some f l = None ↔ ∀ x, x ∈ l → f x = None.
Proof.
  induction l as [|x l IH]; cbn; [split; [by intros _ ? ?%elem_of_nil|done]|].
  setoid_rewrite elem_of_cons. destruct (f x) eqn:E.
  - split; [done|]. intros H. by rewrite H in E by auto.
  - rewrite IH. naive_solver.
Qed.

(** ** Identities are immutable *)

Lemma ensure_identity_spec i d n d' :
  ensure_identity i d = Ok (n, d') →
  (∃ row, dget (db_identities d') (mi_id i) = Some row ∧ same_columns row i = true) ∧
  (∀ k r, dget (db_identities d) k = Some r → dget (db_identities d') k = Some r) ∧
  (∀ k r, dget (db_identities d') k = Some r → dget (db_identities d) k = Some r ∨ (k = mi_id i ∧ r = i)) ∧
  length (db_identities d') = n + length (db_identities d) ∧
  with_identities (db_identities d) d' = d.
Proof.
  unfold ensure_identity. destruct (dget (db_identities d) (mi_id i)) as [row|] eqn:E.
  - rewrite E. destruct (same_columns row i) eqn:Es; [|done]. intros [= <- <-].
    split_and!; [eauto|done|auto|done|by destruct d].
  - cbn [db_identities with_identities]. rewrite dget_dset_eq. destruct (same_columns i i) eqn:Es; [|done].
    intros [= <- <-]. cbn [db_identities with_identities]. split_and!.
    + exists i. by rewrite dget_dset_eq.
    + intros k r Hr. rewrite dget_dset_ne; [done|congruence].
    + intros k r. destruct (decide (k = mi_id i)) as [->|?]; [rewrite dget_dset_eq; intros [= <-]; auto|].
      rewrite dget_dset_ne by done. auto.
    + rewrite length_dset. unfold dmem. by rewrite E.
    + by destruct d.
Qed.

Lemma same_columns_refl i : same_columns i i = true.
Proof.
  unfold same_columns. rewrite !bool_decide_eq_true_2 by done. rewrite eqb_reflx, (proj2 (Qeq_bool_iff _ _) (Qeq_refl _)). done.
Qed.

Lemma ensure_list l d :
  match each_stmt ensure_identity l d with
  | Ok (ns, d') =>
      (∀ k i, dget (db_identities d) k = Some i → dget (db_identities d') k = Some i) ∧
      with_identities (db_identities d) d' = d ∧
      (∀ i, i ∈ l → ∃ row, dget (db_identities d') (mi_id i) = Some row ∧ same_columns row i = true) ∧
      length (db_identities d') = list_sum ns + length (db_identities d)
  | Err _ =>
      ∃ i row, i ∈ l ∧ (dget (db_identities d) (mi_id i) = Some row ∨ (row ∈ l ∧ mi_id row = mi_id i)) ∧
               same_columns row i = false
  end.
Proof.
  revert d. induction l as [|x l IH]; intros d; cbn [each_stmt].
  { split_and!; [done|by destruct d|by intros ? ?%elem_of_nil|done]. }
  destruct (ensure_identity x d) as [ [n d1]|e] eqn:E.
  - destruct (ensure_identity_spec _ _ _ _ E) as (Hx & Hm & Hb & Hl & Hf). specialize (IH d1).
    destruct (each_stmt ensure_identity l d1) as [ [ns d2]|].
    + destruct IH as (IHm & IHf & IHs & IHl). split_and!.
      * auto.
      * rewrite <- Hf, <- IHf. by destruct d2.
      * intros i [->|Hi]%elem_of_cons; [|auto]. destruct Hx as (row & ? & ?). eauto.
      * change (list_sum (n :: ns)) with (n + list_sum ns). lia.
    + destruct IH as (i & row & Hi & Hr & Hs). exists i, row. split; [by right|]. split; [|done].
      destruct Hr as [Hr|[Hr Hid] ].
      * destruct (Hb _ _ Hr) as [?|[He ->] ]; [by left|right]. split; [left|done].
      * right. split; [by right|done].
  - unfold ensure_identity in E. destruct (dget (db_identities d) (mi_id x)) as [row|] eqn:Er.
    + rewrite Er in E. destruct (same_columns row x) eqn:Es; [done|]. exists x, row.
      split; [left|]. split; [by left|done].
    + cbn [db_identities with_identities] in E. rewrite dget_dset_eq, same_columns_refl in E. done.
Qed.

Lemma each_check_refused {X} (g : X → bool) e l e' :
  each_check (λ x, if g x then Some x else None) e l = Err e' → ∃ x, x ∈ l ∧ g x = false.
Proof.
  induction l as [|x l IH]; cbn; [done|]. destruct (g x) eqn:E; [|exists x; split; [left|done] ].
  destruct (each_check _ e l); [done|]. intros [= ->]. destruct IH as (y & ? & ?); [done|]. exists y. split; [by right|done].
Qed.

(** an identity is written once: ensuring identities either stores each of them exactly
    as given (or finds it stored so already) and counts the new rows, or raises and changes
    nothing; no call ever alters a stored identity or touches another table; and what it
    refuses is a malformed identity, or one whose id is already taken, in the table or
    earlier in the same call, with a different column. *)
Theorem identities_immutable ids d :
  let '(r, d') := ensure_identities ids d in
  (∀ k i, dget (db_identities d) k = Some i → dget (db_identities d') k = Some i) ∧
  with_identities (db_identities d) d' = d ∧
  match r with
  | Ok n =>
      (∀ i, i ∈ ids → ∃ row, dget (db_identities d') (mi_id i) = Some row ∧ same_columns row i = true) ∧
      length (db_identities d') = n + length (db_identities d)
  | Err _ =>
      d' = d ∧
      ((∃ i, i ∈ ids ∧ check_identity i = false) ∨
       (∃ i row, i ∈ ids ∧ (dget (db_identities d) (mi_id i) = Some row ∨ (row ∈ ids ∧ mi_id row = mi_id i)) ∧
                 same_columns row i = false))
  end.
Proof.
  unfold ensure_identities.
  destruct (each_check _ _ ids) as [v|e] eqn:E.
  - apply each_check_filter in E as [-> _]. destruct ids as [|x ids].
    { split_and!; [done|by destruct d|by intros ? ?%elem_of_nil|done]. }
    pose proof (ensure_list (x :: ids) d) as H. unfold transaction.
    destruct (each_stmt ensure_identity (x :: ids) d) as [ [ns d']|e].
    + destruct H as (Hm & Hf & Hs & Hl). done.
    + split_and!; [done|by destruct d|done|by right].
  - split_and!; [done|by destruct d|done|]. left. by apply each_check_refused in E.
Qed.


(** ** Alias decisions keep their history *)

(** Rows sit under their id; at most one decision per provider and source is active; a
    superseded one was overtaken by a later decision that is still on record. *)
Record alias_ok (t : AliasTable) : Prop := {
  ao_nodup : NoDup (dkeys t);
  ao_id k r : dget t k = Some r → ad_id r.1 = k;
  ao_active k k' r r' :
    dget t k = Some r → dget t k' = Some r' → alias_key r.1 = alias_key r'.1 →
    active r.1 = true → active r'.1 = true → k = k';
  ao_past k r s :
    dget t k = Some r → ad_superseded_at r.1 = Some s →
    (ad_decided_at r.1 < s)%Q ∧
    ∃ k' r', dget t k' = Some r' ∧ alias_key r'.1 = alias_key r.1 ∧ active r'.1 = true ∧ (s <= ad_decided_at r'.1)%Q;
}.

Lemma alias_ok_nil : alias_ok [].
Proof. by split; [apply NoDup_nil_2|..]. Qed.

Lemma current_alias_spec t k a :
  alias_ok t → current_alias t k = Some a ↔ ∃ org, dget t (ad_id a) = Some (a, org) ∧ alias_key a = k ∧ active a = true.
Proof.
  intros Hok. unfold current_alias. split.
  - intros Hc. destruct (first_such _ t.*2) as [ [a' org]|] eqn:E; [|done]. cbn in Hc. injection Hc as ->.
    apply first_such_some in E as [Hin [Hk Ha]%andb_true_iff]. cbn in Hk, Ha. exists org. case_bool_decide; [|done].
    split; [|done]. apply list_elem_of_fmap in Hin as ([i r] & He & Hin). cbn in He. subst r.
    apply elem_dget in Hin; [|apply Hok].
    pose proof (ao_id t Hok _ _ Hin) as Hi. cbn in Hi. by rewrite Hi.
  - intros (org & Hd & Hk & Ha).
    destruct (first_such_is_some (λ a : IdentityAliasDecision * option string, (alias_key a.1 ≡? k) && active a.1) t.*2 (a, org))
      as [ [b org'] Hb].
    { apply dget_elem in Hd. apply list_elem_of_fmap. by exists (ad_id a, (a, org)). }
    { cbn. by rewrite bool_decide_eq_true_2, Ha. }
    rewrite Hb. cbn. apply first_such_some in Hb as [Hin [Hk' Ha']%andb_true_iff]. cbn in Hk', Ha'. case_bool_decide; [|done].
    apply list_elem_of_fmap in Hin as ([i r] & He & Hin). cbn in He. subst r. apply elem_dget in Hin; [|apply Hok].
    pose proof (ao_active t Hok _ _ _ _ Hd Hin ltac:(cbn; congruence) Ha Ha') as <-. congruence.
Qed.

Lemma current_alias_none t k :
  alias_ok t → current_alias t k = None → ∀ i r, dget t i = Some r → alias_key r.1 = k → active r.1 = false.
Proof.
  intros Hok Hn i [a org] Hd Hk. cbn in *. destruct (active a) eqn:Ea; [|done].
  assert (current_alias t k = Some a); [|congruence]. apply current_alias_spec; [done|]. exists org.
  pose proof (ao_id t Hok _ _ Hd) as Hi. cbn in Hi. by rewrite Hi.
Qed.

Definition superseded (at_ : Q) (k : string * string) (r : IdentityAliasDecision * option string) :=
  if (alias_key r.1 ≡? k) && active r.1 then (supersede at_ r.1, r.2) else r.

Lemma supersede_rows at_ k t :
  supersede_key at_ k t = (λ row : string * (IdentityAliasDecision * option string), (row.1, superseded at_ k row.2)) <$> t.
Proof.
  unfold supersede_key. apply list_fmap_ext. intros _ [j r] _. cbn. unfold superseded.
  by destruct ((alias_key r.1 ≡? k) && active r.1).
Qed.

Lemma dget_fmap {A B} (g : A → B) (t : list (string * A)) i :
  dget ((λ row : string * A, (row.1, g row.2)) <$> t) i = g <$> dget t i.
Proof. induction t as [|[j r] t IH]; [done|]. cbn. by case_decide. Qed.

Lemma dget_supersede at_ k t i : dget (supersede_key at_ k t) i = superseded at_ k <$> dget t i.
Proof. rewrite supersede_rows. apply dget_fmap. Qed.

Lemma dkeys_supersede at_ k t : dkeys (supersede_key at_ k t) = dkeys t.
Proof. rewrite supersede_rows. unfold dkeys. by rewrite <- list_fmap_compose. Qed.

Lemma superseded_key at_ k r : alias_key (superseded at_ k r).1 = alias_key r.1.
Proof. unfold superseded. by destruct ((alias_key r.1 ≡? k) && active r.1). Qed.

Lemma superseded_id at_ k r : ad_id (superseded at_ k r).1 = ad_id r.1.
Proof. unfold superseded. by destruct ((alias_key r.1 ≡? k) && active r.1). Qed.

Lemma superseded_decided at_ k r : ad_decided_at (superseded at_ k r).1 = ad_decided_at r.1.
Proof. unfold superseded. by destruct ((alias_key r.1 ≡? k) && active r.1). Qed.

(** After the supersession no decision of the key is active, and the others are as before. *)
Lemma superseded_active at_ k r :
  active (superseded at_ k r).1 = active r.1 && negb (alias_key r.1 ≡? k).
Proof. unfold superseded. destruct (active r.1) eqn:E; case_bool_decide; cbn; by rewrite ?E. Qed.

(** All decisions of a key came before its active one. *)
Lemma alias_all_older t k cur t_new :
  alias_ok t → current_alias t k = cur → alias_order_ok cur t_new = true →
  ∀ i r, dget t i = Some r → alias_key r.1 = k → (ad_decided_at r.1 < ad_decided_at t_new)%Q.
Proof.
  intros Hok Hcur Ho i r Hd Hk. destruct (ad_superseded_at r.1) as [s|] eqn:Es.
  - destruct (ao_past t Hok _ _ _ Hd Es) as (Hlt & k' & [b org] & Hb & Hbk & Hba & Hle). cbn in *.
    assert (current_alias t k = Some b) as Hc.
    { apply current_alias_spec; [done|]. exists org. split; [|by rewrite Hbk].
      pose proof (ao_id t Hok _ _ Hb) as Hi. cbn in Hi. by rewrite Hi. }
    rewrite Hc in Hcur. subst cur. cbn in Ho. apply Qltb_true in Ho. lra.
  - destruct r as [a org]. cbn in *. assert (current_alias t k = Some a) as Hc.
    { apply current_alias_spec; [done|]. exists org. pose proof (ao_id t Hok _ _ Hd) as Hi. cbn in Hi. rewrite Hi. split_and!; [done|done|].
      unfold active. by rewrite Es. }
    rewrite Hc in Hcur. subst cur. cbn in Ho. by apply Qltb_true in Ho.
Qed.

(** What one decision does: it becomes the active one of its key, all that was on record
    stays, with the decision it overtakes marked superseded at its time. *)
Lemma write_alias_spec actor a d stored d' :
  alias_ok (db_aliases d) → active a = true → write_alias_decision actor a d = Ok (stored, d') →
  stored = stored_alias a actor ∧ dmem (db_identities d) (ad_identity a) = true ∧
  d' = with_aliases (db_aliases d') d ∧ alias_ok (db_aliases d') ∧
  dget (db_aliases d') (ad_id a) = Some (alias_row stored, actor_org actor) ∧ dget (db_aliases d) (ad_id a) = None ∧
  (∀ i, i ≠ ad_id a → dget (db_aliases d') i = superseded (ad_decided_at a) (alias_key a) <$> dget (db_aliases d) i) ∧
  (∀ i r, dget (db_aliases d) i = Some r → alias_key r.1 = alias_key a → (ad_decided_at r.1 < ad_decided_at a)%Q).
Proof.
  intros Hok Ha. unfold write_alias_decision. destruct (dmem (db_identities d) (ad_identity a)) eqn:Ei; [|done]. cbn [negb].
  destruct (alias_order_ok _ a) eqn:Eo; [|done]. cbn [negb].
  pose proof (alias_all_older _ _ _ a Hok eq_refl Eo) as Hold.
  set (t := supersede_key (ad_decided_at a) (alias_key a) (db_aliases d)).
  unfold dmem. destruct (dget t (ad_id a)) eqn:Et; [done|]. intros [= <- <-]. cbn [db_aliases with_aliases].
  assert (∀ i r, dget t i = Some r → ∃ r0, dget (db_aliases d) i = Some r0 ∧ r = superseded (ad_decided_at a) (alias_key a) r0) as Hinv.
  { intros i r Hr. unfold t in Hr. rewrite dget_supersede in Hr.
    destruct (dget (db_aliases d) i) as [r0|]; [|done]. cbn in Hr. injection Hr as <-. eauto. }
  assert (∀ i r, dget t i = Some r → alias_key r.1 = alias_key a → active r.1 = false) as Hnone.
  { intros i r Hr Hk. destruct (Hinv _ _ Hr) as (r0 & _ & ->). rewrite superseded_key in Hk.
    rewrite superseded_active. by rewrite (bool_decide_eq_true_2 _ Hk), andb_false_r. }
  split_and!; [done..| |by rewrite dget_dset_eq| | |done].
  - split.
    + apply NoDup_dset. unfold t. rewrite dkeys_supersede. apply Hok.
    + intros k r. destruct (decide (k = ad_id a)) as [->|Hne]; [rewrite dget_dset_eq; by intros [= <-]|].
      rewrite dget_dset_ne by done. intros (r0 & Hr0 & ->)%Hinv. rewrite superseded_id. by apply (ao_id _ Hok).
    + intros k k' r r'. destruct (decide (k = ad_id a)) as [->|Hne], (decide (k' = ad_id a)) as [->|Hne']; try done.
      * rewrite dget_dset_eq, dget_dset_ne by done. intros [= <-] Hr' Hk _ Hact. cbn in Hk.
        by rewrite (Hnone _ _ Hr' (eq_sym Hk)) in Hact.
      * rewrite dget_dset_eq, dget_dset_ne by done. intros Hr [= <-] Hk Hact _. cbn in Hk.
        by rewrite (Hnone _ _ Hr Hk) in Hact.
      * rewrite !dget_dset_ne by done. intros (r0 & Hr0 & ->)%Hinv (r1 & Hr1 & ->)%Hinv.
        rewrite !superseded_key, !superseded_active. intros Hk [? _]%andb_true_iff [? _]%andb_true_iff.
        by apply (ao_active _ Hok _ _ _ _ Hr0 Hr1).
    + intros k r s. destruct (decide (k = ad_id a)) as [->|Hne].
      { rewrite dget_dset_eq. intros [= <-]. done. }
      rewrite dget_dset_ne by done. intros Hr Hs. pose proof (Hinv _ _ Hr) as (r0 & Hr0 & ->).
      rewrite superseded_key, superseded_decided. unfold superseded in Hs.
      destruct ((alias_key r0.1 ≡? alias_key a) && active r0.1) eqn:E; cbn in Hs.
      * injection Hs as <-. apply andb_true_iff in E as [Ek Er]. case_bool_decide as Hk; [|done].
        split; [by apply (Hold _ _ Hr0)|]. exists (ad_id a), (alias_row (stored_alias a actor), actor_org actor).
        rewrite dget_dset_eq. split_and!; [done|by symmetry|done|]. cbn. lra.
      * destruct (ao_past _ Hok _ _ _ Hr0 Hs) as (Hlt & k' & r' & Hr' & Hk' & Ha' & Hle). split; [done|].
        destruct (decide (alias_key r'.1 = alias_key a)) as [Hka|Hka].
        -- exists (ad_id a), (alias_row (stored_alias a actor), actor_org actor). rewrite dget_dset_eq.
           split_and!; [done|cbn; by rewrite <- Hk'|done|]. cbn. pose proof (Hold _ _ Hr' Hka). lra.
        -- exists k', (superseded (ad_decided_at a) (alias_key a) r').
           rewrite superseded_key, superseded_active, superseded_decided, Ha', (bool_decide_eq_false_2 _ Hka).
           split_and!; [|done..]. rewrite dget_dset_ne; [unfold t; by rewrite dget_supersede, Hr'|].
           intros ->. unfold t in Et. rewrite dget_supersede, Hr' in Et. done.
  - unfold t in Et. rewrite dget_supersede in Et. by destruct (dget (db_aliases d) (ad_id a)).
  - intros i Hne. rewrite dget_dset_ne by done. unfold t. by rewrite dget_supersede.
Qed.

Lemma current_after_write actor a d stored d' :
  alias_ok (db_aliases d) → active a = true → write_alias_decision actor a d = Ok (stored, d') →
  current_alias (db_aliases d') (alias_key a) = Some (alias_row stored) ∧
  ∀ k, k ≠ alias_key a → current_alias (db_aliases d') k = current_alias (db_aliases d) k.
Proof.
  intros Hok Ha Hw. destruct (write_alias_spec _ _ _ _ _ Hok Ha Hw) as (-> & _ & _ & Hok' & Hnew & Hfree & Hrest & _). split.
  - apply current_alias_spec; [done|]. by exists (actor_org actor).
  - intros k Hk. apply option_eq. intros b. rewrite !current_alias_spec by done.
    enough (∀ org, alias_key b = k → active b = true →
      dget (db_aliases d') (ad_id b) = Some (b, org) ↔ dget (db_aliases d) (ad_id b) = Some (b, org)) as Heq.
    { split; intros (org & Hd & Hb & Hba); exists org; (split; [by apply Heq|done]). }
    intros org Hb Hba.
    assert (ad_id b ≠ ad_id a → ∀ r, superseded (ad_decided_at a) (alias_key a) r = (b, org) ↔ r = (b, org)) as Heq.
    { intros _ r. unfold superseded. destruct ((alias_key r.1 ≡? alias_key a) && active r.1) eqn:E; [|done]. split.
      - intros [= Hs _]. rewrite <- Hs in Hba. done.
      - intros ->. cbn in E. apply andb_true_iff in E as [E _]. case_bool_decide; congruence. }
    destruct (decide (ad_id b = ad_id a)) as [He|Hne].
    + rewrite He, Hnew, Hfree. split; [|done]. intros [= Hr]. rewrite <- Hr in Hb. done.
    + rewrite Hrest by done. destruct (dget (db_aliases d) (ad_id b)) as [r|]; [|done]. cbn.
      specialize (Heq Hne r). split; intros [= ?]; f_equal; by apply Heq.
Qed.

(** ** Snapshots are whole *)

(** An offer row agrees with the snapshot it was stored under. *)
Definition belongs (s : InventorySnapshot) (o : ProviderOffer) : Prop :=
  po_provider o = sn_provider s ∧ po_scope o = sn_scope s ∧ po_revision o = sn_revision s ∧ sn_status s ≠ failed.

Definition snapshot_ok (s : InventorySnapshot) : Prop :=
  sn_status s ≠ stale ∧ (sn_status s = success → sn_pagination_complete s = true) ∧
  (sn_started_at s <= sn_completed_at s)%Q ∧ (sn_completed_at s <= sn_expires_at s)%Q ∧ sn_offers s = [].

Record inventory_ok (d : Db) : Prop := {
  io_snapshots : NoDup (dkeys (db_snapshots d));
  io_offers : NoDup (dkeys (db_offers d));
  io_snapshot k s : dget (db_snapshots d) k = Some s → sn_id s = k ∧ snapshot_ok s;
  io_offer k sid o : dget (db_offers d) k = Some (sid, o) →
    po_snapshot_offer_id o = k ∧ ∃ s, dget (db_snapshots d) sid = Some s ∧ belongs s o;
  io_route k k' sid o o' :
    dget (db_offers d) k = Some (sid, o) → dget (db_offers d) k' = Some (sid, o') → po_route o = po_route o' → k = k';
}.

Lemma inventory_ok_new : inventory_ok new_db.
Proof. by split; try apply NoDup_nil_2. Qed.

Lemma insert_offer_spec sid o d u d' :
  insert_offer sid o d = Ok (u, d') →
  d' = with_inventory (db_snapshots d) (dset (db_offers d) (po_snapshot_offer_id o) (sid, offer_row o)) d ∧
  dget (db_offers d) (po_snapshot_offer_id o) = None ∧
  (∀ k o', NoDup (dkeys (db_offers d)) → dget (db_offers d) k = Some (sid, o') →
     po_offer_id o' ≠ po_offer_id o ∧ po_route o' ≠ po_route o).
Proof.
  unfold insert_offer, dmem. destruct (dget (db_offers d) (po_snapshot_offer_id o)) eqn:E; [done|]. cbn [orb].
  destruct (existsb _ _) eqn:Ex; [done|]. intros [= <- <-]. split_and!; [done..|].
  intros k o' Hnd Hk%dget_elem.
  assert (∀ P : Prop, ¬ P ∨ existsb (λ so : string * ProviderOffer, (so.1 ≡? sid) &&
      ((po_offer_id so.2 ≡? po_offer_id o) || (po_route so.2 ≡? po_route o))) (db_offers d).*2 = true → ¬ P) as Hx.
  { intros P [?|?]; [done|congruence]. }
  assert (∀ b, (po_offer_id o' ≡? po_offer_id o) || (po_route o' ≡? po_route o) = b → b = false) as Hb.
  { intros [] Hb; [|done]. exfalso. enough (existsb (λ so : string * ProviderOffer, (so.1 ≡? sid) &&
      ((po_offer_id so.2 ≡? po_offer_id o) || (po_route so.2 ≡? po_route o))) (db_offers d).*2 = true) by congruence.
    apply existsb_exists. exists (sid, o'). split.
    - apply list_elem_of_In, list_elem_of_fmap. by exists (k, (sid, o')).
    - cbn. by rewrite bool_decide_eq_true_2, Hb. }
  specialize (Hb _ eq_refl). apply orb_false_iff in Hb as [H1 H2]. by apply bool_decide_eq_false in H1, H2.
Qed.

(** The state while a snapshot's offers are inserted: the inventory is well-formed, what was
    there stays, and what is new under the snapshot comes from the offers given. *)
Record inserting (s : InventorySnapshot) (offers : list ProviderOffer) (d0 d : Db) : Prop := {
  ins_ok : inventory_ok d;
  ins_snapshot : dget (db_snapshots d) (sn_id s) = Some (snapshot_row s);
  ins_frame : d = with_inventory (db_snapshots d) (db_offers d) d0;
  ins_old_snapshots k v : dget (db_snapshots d0) k = Some v → dget (db_snapshots d) k = Some v;
  ins_new_snapshots k v : dget (db_snapshots d) k = Some v → dget (db_snapshots d0) k = Some v ∨ k = sn_id s ∧ v = snapshot_row s;
  ins_old_offers k v : dget (db_offers d0) k = Some v → dget (db_offers d) k = Some v;
  ins_new_offers k v : dget (db_offers d) k = Some v →
    dget (db_offers d0) k = Some v ∨ ∃ o, o ∈ offers ∧ v = (sn_id s, offer_row o);
}.

Lemma insert_offer_inserting s offers d0 d o u d' :
  o ∈ offers → belongs (snapshot_row s) o → inserting s offers d0 d → insert_offer (sn_id s) o d = Ok (u, d') →
  inserting s offers d0 d' ∧ dget (db_offers d') (po_snapshot_offer_id o) = Some (sn_id s, offer_row o).
Proof.
  intros Ho Hb [Hok Hs Hf Hos Hns Hoo Hno] Hins.
  destruct (insert_offer_spec _ _ _ _ _ Hins) as (-> & Hfree & Huniq). cbn [db_offers db_snapshots with_inventory].
  split; [|by rewrite dget_dset_eq]. destruct Hok as [I1 I2 I3 I4 I5].
  split; cbn [db_offers db_snapshots with_inventory]; try done.
  - split; cbn [db_offers db_snapshots with_inventory]; [done|by apply NoDup_dset|done|..].
    + intros k sid o'. destruct (decide (k = po_snapshot_offer_id o)) as [->|Hne].
      * rewrite dget_dset_eq. intros [= <- <-]. split; [done|]. by exists (snapshot_row s).
      * rewrite dget_dset_ne by done. apply I4.
    + intros k k' sid o1 o2.
      destruct (decide (k = po_snapshot_offer_id o)) as [->|Hk], (decide (k' = po_snapshot_offer_id o)) as [->|Hk']; [done|..].
      * rewrite dget_dset_eq, dget_dset_ne by done. intros [= <- <-] H2 Hr.
        destruct (Huniq _ _ I2 H2) as [_ Hn]. by destruct Hn.
      * rewrite dget_dset_eq, dget_dset_ne by done. intros H1 [= <- <-] Hr.
        destruct (Huniq _ _ I2 H1) as [_ Hn]. by destruct Hn.
      * rewrite !dget_dset_ne by done. apply I5.
  - by rewrite Hf.
  - intros k v Hv. specialize (Hoo k v Hv). rewrite dget_dset_ne; [done|]. intros ->. congruence.
  - intros k v. destruct (decide (k = po_snapshot_offer_id o)) as [->|Hne].
    + rewrite dget_dset_eq. intros [= <-]. right. by exists o.
    + rewrite dget_dset_ne by done. apply Hno.
Qed.

Lemma insert_inventory_spec s offers d u d' :
  inventory_ok d → snapshot_ok s → (∀ o, o ∈ offers → belongs s o) → insert_inventory s offers d = Ok (u, d') →
  dget (db_snapshots d) (sn_id s) = None ∧ inserting s offers d d' ∧
  ∀ o, o ∈ offers → dget (db_offers d') (po_snapshot_offer_id o) = Some (sn_id s, offer_row o).
Proof.
  intros Hok Hs Hb. unfold insert_inventory, dmem. destruct (dget (db_snapshots d) (sn_id s)) eqn:E; [done|].
  set (d1 := with_inventory _ _ d). destruct (each_stmt (insert_offer (sn_id s)) offers d1) as [ [us d2]|] eqn:Ei; [|done].
  intros [= <- <-]. split; [done|].
  assert (inserting s offers d d1) as H1.
  { destruct Hok as [I1 I2 I3 I4 I5]. subst d1. split; cbn [db_offers db_snapshots with_inventory]; try done; auto.
    - split; cbn [db_offers db_snapshots with_inventory]; try done.
      + by apply NoDup_dset.
      + intros k v. destruct (decide (k = sn_id s)) as [->|Hne].
        * rewrite dget_dset_eq. intros [= <-]. split; [done|]. destruct Hs as (? & ? & ? & ? & ?). done.
        * rewrite dget_dset_ne by done. apply I3.
      + intros k sid o Ho. destruct (I4 _ _ _ Ho) as (? & s' & Hs' & ?). split; [done|]. exists s'. split; [|done].
        rewrite dget_dset_ne; [done|congruence].
    - by rewrite dget_dset_eq.
    - intros k v Hv. rewrite dget_dset_ne; [done|congruence].
    - intros k v. destruct (decide (k = sn_id s)) as [->|Hne]; [rewrite dget_dset_eq; intros [= <-]; by right|].
      rewrite dget_dset_ne by done. by left. }
  eapply (each_stmt_each (inserting s offers d)
            (λ o d, dget (db_offers d) (po_snapshot_offer_id o) = Some (sn_id s, offer_row o))); [..|exact H1|exact Ei].
  - intros o d3 [] d4 Ho H3 Hi. by apply (insert_offer_inserting s offers d d3 o tt d4 Ho (Hb o Ho)).
  - intros x y d3 [] d4 Hx Hy H3 Hq Hi. destruct (insert_offer_spec _ _ _ _ _ Hi) as (-> & Hfree & _).
    cbn [db_offers with_inventory]. rewrite dget_dset_ne; [done|]. intros He. rewrite He in Hq. congruence.
Qed.

(** ** Lists of decisions *)

Lemma write_aliases_spec actor ds d stored d' :
  alias_ok (db_aliases d) → Forall (λ a, active a = true) ds →
  each_stmt (write_alias_decision actor) ds d = Ok (stored, d') →
  stored = (λ a, stored_alias a actor) <$> ds ∧ d' = with_aliases (db_aliases d') d ∧ alias_ok (db_aliases d') ∧
  (∀ a, a ∈ ds → dmem (db_identities d) (ad_identity a) = true) ∧
  (∀ k r, dget (db_aliases d') k = Some r →
     (∃ r0, dget (db_aliases d) k = Some r0 ∧ ad_identity r.1 = ad_identity r0.1) ∨ ∃ a, a ∈ ds ∧ ad_identity r.1 = ad_identity a) ∧
  (∀ a, a ∈ ds → ∃ b, b ∈ ds ∧ alias_key b = alias_key a ∧
     current_alias (db_aliases d') (alias_key a) = Some (alias_row (stored_alias b actor))) ∧
  (∀ k, k ∉ alias_key <$> ds → current_alias (db_aliases d') k = current_alias (db_aliases d) k).
Proof.
  revert d stored. induction ds as [|a ds IH]; intros d stored Hok Hact; cbn [each_stmt].
  { intros [= <- <-]. split_and!; [done|by destruct d|done|by intros ? ?%elem_of_nil|eauto|by intros ? ?%elem_of_nil|done]. }
  apply Forall_cons in Hact as [Ha Hact].
  destruct (write_alias_decision actor a d) as [ [x d1]|] eqn:E; [|done].
  destruct (each_stmt _ ds d1) as [ [xs d2]|] eqn:E'; [|done]. intros [= <- <-].
  destruct (write_alias_spec _ _ _ _ _ Hok Ha E) as (-> & Hid & Hf & Hok1 & Hnew & _ & Hrest & _).
  destruct (current_after_write _ _ _ _ _ Hok Ha E) as [Hcur Hother].
  destruct (IH d1 xs Hok1 Hact E') as (-> & Hf' & Hok2 & Hids & Hback & Hcurs & Hkeep).
  assert (db_identities d1 = db_identities d) as Hsame by (by rewrite Hf).
  split_and!; [done| |done|..].
  - rewrite Hf', Hf. done.
  - intros b [->|Hb]%elem_of_cons; [done|]. rewrite <- Hsame. auto.
  - intros k r Hr. destruct (Hback _ _ Hr) as [(r0 & Hr0 & He)|(b & Hb & He)]; [|right; exists b; split; [by right|done] ].
    destruct (decide (k = ad_id a)) as [->|Hne].
    + rewrite Hnew in Hr0. injection Hr0 as <-. right. exists a. split; [left|done].
    + rewrite Hrest in Hr0 by done. destruct (dget (db_aliases d) k) as [r1|]; [|done]. cbn in Hr0. injection Hr0 as <-.
      left. exists r1. split; [done|]. rewrite He. unfold superseded. by destruct (_ && _).
  - intros b [->|Hb]%elem_of_cons.
    + destruct (decide (alias_key a ∈ alias_key <$> ds)) as [(c & Hc & Hin)%list_elem_of_fmap|Hno].
      * destruct (Hcurs c Hin) as (e & He & Hk & Hce). exists e. rewrite Hc. split_and!; [by right|done|done].
      * exists a. rewrite (Hkeep _ Hno). split_and!; [left|done|done].
    + destruct (Hcurs b Hb) as (e & He & Hk & Hce). exists e. split_and!; [by right|done|done].
  - intros k. rewrite fmap_cons, not_elem_of_cons. intros [Hne Hno]. rewrite (Hkeep _ Hno). by apply Hother.
Qed.

Lemma validate_alias_ok ds actor ds' :
  validate_alias_decisions ds actor = Ok ds' → ds' = ds ∧ Forall (λ a, active a = true) ds ∧ Forall (λ a, check_decision a = true) ds.
Proof.
  unfold validate_alias_decisions. destruct (actor_id actor ≡? ""); [done|].
  destruct (each_check _ _ ds) as [v|] eqn:E; [|done]. apply each_check_filter in E as [-> Hc].
  destruct (existsb _ ds) eqn:Ex; [done|]. intros [= <-]. split_and!; [done| |done].
  apply Forall_forall. intros a Ha. destruct (active a) eqn:Ea; [done|].
  assert (existsb (λ a, negb (active a)) ds = true); [|congruence]. apply existsb_exists. exists a.
  rewrite <- list_elem_of_In. by rewrite Ea.
Qed.

(** ** The whole store *)

Record db_ok (d : Db) : Prop := {
  dk_ids : NoDup (dkeys (db_identities d));
  dk_identity k i : dget (db_identities d) k = Some i → mi_id i = k;
  dk_aliases : alias_ok (db_aliases d);
  dk_known k r : dget (db_aliases d) k = Some r → dmem (db_identities d) (ad_identity r.1) = true;
  dk_inventory : inventory_ok d;
  dk_ops : ledger_ok (db_ops d);
}.

Lemma db_ok_new : db_ok new_db.
Proof. split; try done; [by apply NoDup_nil_2|apply alias_ok_nil|apply inventory_ok_new|apply ledger_ok_nil]. Qed.

Lemma ensure_identity_ok i d n d' : db_ok d → ensure_identity i d = Ok (n, d') → db_ok d'.
Proof.
  intros [D1 D2 D3 D4 D5 D6] He. pose proof (ensure_identity_spec _ _ _ _ He) as (_ & Hm & Hb & _ & Hf).
  assert (d' = with_identities (db_identities d') d) as Hd by (rewrite <- Hf; by destruct d').
  rewrite Hd. split; cbn [db_identities db_aliases db_ops with_identities]; try done.
  - unfold ensure_identity in He. destruct (dget (db_identities d) (mi_id i)) eqn:E.
    + rewrite E in He. destruct (same_columns _ i); [|done]. by injection He as _ <-.
    + cbn [db_identities with_identities] in He. rewrite dget_dset_eq in He. destruct (same_columns i i); [|done].
      injection He as _ <-. by apply NoDup_dset.
  - intros k x Hx. destruct (Hb _ _ Hx) as [?|[-> ->] ]; [by apply D2|done].
  - intros k r Hr. specialize (D4 _ _ Hr). unfold dmem in *. destruct (dget (db_identities d) _) eqn:E; [|done].
    by rewrite (Hm _ _ E).
  - destruct D5. by split.
Qed.

Lemma alias_write_db_ok d t :
  db_ok d → alias_ok t → (∀ k r, dget t k = Some r → dmem (db_identities d) (ad_identity r.1) = true) →
  db_ok (with_aliases t d).
Proof. intros [D1 D2 D3 D4 D5 D6] Ht Hk. split; try done. destruct D5. by split. Qed.

Lemma write_aliases_ok actor ds d stored d' :
  db_ok d → Forall (λ a, active a = true) ds → each_stmt (write_alias_decision actor) ds d = Ok (stored, d') → db_ok d'.
Proof.
  intros Hd Hact He. destruct (write_aliases_spec _ _ _ _ _ (dk_aliases d Hd) Hact He) as (_ & Hf & Hok & Hids & Hback & _).
  rewrite Hf. apply alias_write_db_ok; [done..|]. intros k r Hr.
  destruct (Hback _ _ Hr) as [(r0 & Hr0 & ->)|(a & Ha & ->)]; [by apply (dk_known d Hd k)|by apply Hids].
Qed.

Lemma insert_inventory_ok s offers d u d' :
  db_ok d → snapshot_ok s → (∀ o, o ∈ offers → belongs s o) → insert_inventory s offers d = Ok (u, d') → db_ok d'.
Proof.
  intros [D1 D2 D3 D4 D5 D6] Hs Hb Hi. destruct (insert_inventory_spec _ _ _ _ _ D5 Hs Hb Hi) as (_ & [Hok _ Hf _ _ _ _] & _).
  rewrite Hf. split; try done. rewrite Hf in Hok. done.
Qed.

Section commits.
Context (digest24 : string → string) (ip_host : string → bool).

Lemma check_snapshot_ok s s' : check_snapshot s = Some s' →
  s' = with_error (sn_error s') s ∧ (sn_status s = success → sn_pagination_complete s = true) ∧
  (sn_started_at s <= sn_completed_at s)%Q ∧ (sn_completed_at s <= sn_expires_at s)%Q.
Proof.
  unfold check_snapshot. destruct (_ && _) eqn:E; [|done]. intros [= <-].
  apply andb_true_iff in E as [E Hsuc]. apply andb_true_iff in E as [E Hexp]. apply andb_true_iff in E as [E Hcom].
  split_and!; [done| |by apply Qleb_true..]. intros Hst. rewrite Hst in Hsuc. by destruct (sn_pagination_complete s).
Qed.

Lemma validate_inventory_ok s offers s' offers' :
  validate_inventory digest24 ip_host s offers = Ok (s', offers') →
  sn_id s' = sn_id s ∧ snapshot_ok s' ∧ (∀ o, o ∈ offers' → belongs s' o) ∧
  Forall2 (λ o o', check_offer digest24 ip_host o = Some o') offers offers'.
Proof.
  unfold validate_inventory. destruct (check_snapshot s) as [t|] eqn:Es; [|done].
  destruct (each_check _ _ offers) as [os|] eqn:Eo; [|done]. apply each_check_ok in Eo.
  destruct (check_snapshot_ok _ _ Es) as (Ht & Hc & H1 & H2).
  case_bool_decide as Hst; [done|].
  assert (∀ (x : res StoreError (InventorySnapshot * list ProviderOffer)),
    match sn_offers t with
    | [] => match first_some (offer_mismatch digest24 t) os with Some msg => Err (EValue msg) | None => Ok (t, os) end
    | _ :: _ => Err (EValue "pass offers separately to commit_inventory")
    end = Ok (s', offers') → (os ≠ [] → sn_status t ≠ failed) →
    sn_id s' = sn_id s ∧ snapshot_ok s' ∧ (∀ o, o ∈ offers' → belongs s' o) ∧
    Forall2 (λ o o', check_offer digest24 ip_host o = Some o') offers offers') as H.
  { intros _. destruct (sn_offers t) eqn:Eoff; [|done]. destruct (first_some _ os) eqn:Em; [done|]. intros [= <- <-] Hf.
    split_and!; [by rewrite Ht| |..|done].
    - rewrite Ht in Hst, Eoff |- *. repeat split; done.
    - intros o Ho. apply first_some_none with (x := o) in Em; [|done]. unfold offer_mismatch in Em.
      repeat (case_bool_decide; cbn [negb] in Em; [|done]). split_and!; try done. apply Hf. intros ->. by apply elem_of_nil in Ho. }
  destruct os as [|o os]; [|destruct (sn_status t) eqn:Estat]; try done; intros Hok; (apply (H (Err EFence)); [exact Hok|done]).
Qed.

Lemma commit_reconciled_spec s offers decisions actor fence d :
  db_ok d →
  let '(r, d') := commit_reconciled digest24 ip_host s offers decisions actor fence d in
  db_ok d' ∧
  match r with
  | Err _ => d' = d
  | Ok stored =>
      match fence with Some f => assert_fence f (db_ops d) = Ok tt | None => True end ∧
      stored = (λ a, stored_alias a actor) <$> decisions ∧
      dget (db_snapshots d) (sn_id s) = None ∧
      (∃ s' offers', validate_inventory digest24 ip_host s offers = Ok (s', offers') ∧
         dget (db_snapshots d') (sn_id s) = Some (snapshot_row s') ∧
         (∀ o, o ∈ offers' → dget (db_offers d') (po_snapshot_offer_id o) = Some (sn_id s, offer_row o)) ∧
         (∀ k v, dget (db_offers d') k = Some v →
            dget (db_offers d) k = Some v ∨ ∃ o, o ∈ offers' ∧ v = (sn_id s, offer_row o))) ∧
      (∀ a, a ∈ decisions → dmem (db_identities d) (ad_identity a) = true ∧
         ∃ b, b ∈ decisions ∧ alias_key b = alias_key a ∧
              current_alias (db_aliases d') (alias_key a) = Some (alias_row (stored_alias b actor))) ∧
      (∀ k, k ∉ alias_key <$> decisions → current_alias (db_aliases d') k = current_alias (db_aliases d) k) ∧
      (∀ k v, dget (db_offers d) k = Some v → dget (db_offers d') k = Some v) ∧
      (∀ k v, dget (db_snapshots d) k = Some v → dget (db_snapshots d') k = Some v) ∧
      (∀ k v, dget (db_snapshots d') k = Some v → dget (db_snapshots d) k = Some v ∨ k = sn_id s) ∧
      db_identities d' = db_identities d ∧ db_ops d' = db_ops d
  end.
Proof.
  intros Hd. unfold commit_reconciled. destruct (validate_inventory digest24 ip_host s offers) as [ [s' offers']|] eqn:Ev; [|done].
  destruct (validate_inventory_ok _ _ _ _ Ev) as (Hid & Hs & Hb & _).
  destruct (validate_alias_decisions decisions actor) as [ds|] eqn:Ea; [|done].
  destruct (validate_alias_ok _ _ _ Ea) as (-> & Hact & _). destruct (first_some _ decisions); [done|].
  unfold transaction, commit_reconciled_body.
  destruct (match fence with Some f => assert_fence f (db_ops d) | None => Ok tt end) as [ []|] eqn:Ef; [|done].
  destruct (each_stmt (write_alias_decision actor) decisions d) as [ [stored d1]|] eqn:Ew; [|done].
  pose proof (write_aliases_ok _ _ _ _ _ Hd Hact Ew) as Hd1.
  destruct (insert_inventory s' offers' d1) as [ [u d2]|] eqn:Ei; [|done].
  pose proof (insert_inventory_ok _ _ _ _ _ Hd1 Hs Hb Ei) as Hd2.
  destruct (write_aliases_spec _ _ _ _ _ (dk_aliases d Hd) Hact Ew) as (-> & Hf & _ & Hids & _ & Hcur & Hkeep).
  destruct (insert_inventory_spec _ _ _ _ _ (dk_inventory d1 Hd1) Hs Hb Ei) as (Hfree & [_ Hsn Hf2 Hos Hns Hoo Hno] & Hin).
  rewrite Hid in *.
  assert (db_aliases d2 = db_aliases d1) as Hal by (by rewrite Hf2).
  assert (db_identities d2 = db_identities d ∧ db_ops d2 = db_ops d) as [Hi2 Ho2] by (by rewrite Hf2, Hf).
  rewrite Hf in Hfree, Hos, Hns, Hoo, Hno. cbn [db_snapshots db_offers with_aliases] in Hfree, Hos, Hns, Hoo, Hno.
  split; [done|]. split_and!; try done.
  - by destruct fence.
  - by exists s', offers'.
  - intros a Ha. rewrite Hal. auto.
  - intros k Hk. rewrite Hal. auto.
  - intros k v [?|[? _] ]%Hns; auto.
Qed.

(** the commit of a reconciled inventory is atomic and fenced: it either changes nothing,
    or its lease was live in this very state, its snapshot was new and is now stored, the only one added, every
    offer of it is stored and no other offer stands under the snapshot, every decision names
    a known identity and the active decision of its key is now one of them, and the active
    decision of every other key, the identities and the ledger are what they were. *)
Theorem commit_reconciled_atomic s offers decisions actor fence d :
  db_ok d →
  let '(r, d') := commit_reconciled digest24 ip_host s offers decisions actor fence d in
  db_ok d' ∧
  match r with
  | Err _ => d' = d
  | Ok stored =>
      match fence with Some f => assert_fence f (db_ops d) = Ok tt | None => True end ∧
      stored = (λ a, stored_alias a actor) <$> decisions ∧
      dget (db_snapshots d) (sn_id s) = None ∧
      (∃ s' offers', validate_inventory digest24 ip_host s offers = Ok (s', offers') ∧
         dget (db_snapshots d') (sn_id s) = Some (snapshot_row s') ∧
         (∀ o, o ∈ offers' → dget (db_offers d') (po_snapshot_offer_id o) = Some (sn_id s, offer_row o)) ∧
         (∀ k v, dget (db_offers d') k = Some v →
            dget (db_offers d) k = Some v ∨ ∃ o, o ∈ offers' ∧ v = (sn_id s, offer_row o))) ∧
      (∀ a, a ∈ decisions → dmem (db_identities d) (ad_identity a) = true ∧
         ∃ b, b ∈ decisions ∧ alias_key b = alias_key a ∧
              current_alias (db_aliases d') (alias_key a) = Some (alias_row (stored_alias b actor))) ∧
      (∀ k, k ∉ alias_key <$> decisions → current_alias (db_aliases d') k = current_alias (db_aliases d) k) ∧
      (∀ k v, dget (db_offers d) k = Some v → dget (db_offers d') k = Some v) ∧
      (∀ k v, dget (db_snapshots d) k = Some v → dget (db_snapshots d') k = Some v) ∧
      (∀ k v, dget (db_snapshots d') k = Some v → dget (db_snapshots d) k = Some v ∨ k = sn_id s) ∧
      db_identities d' = db_identities d ∧ db_ops d' = db_ops d
  end.
Proof. exact (commit_reconciled_spec s offers decisions actor fence d). Qed.

(** ** Every reachable store is well-formed *)

(** The calls that change the store. *)
Inductive Call : Type :=
  | EnsureIdentities (ids : list ModelIdentity)
  | ReplaceAlias (a : IdentityAliasDecision) (actor : Actor)
  | CommitInventory (s : InventorySnapshot) (offers : list ProviderOffer)
  | CommitReconciled (s : InventorySnapshot) (offers : list ProviderOffer) (ds : list IdentityAliasDecision)
      (actor : Actor) (fence : option Fence)
  | OnLedger (e : Event).

Definition run_call (d : Db) (c : Call) : Db :=
  match c with
  | EnsureIdentities ids => (ensure_identities ids d).2
  | ReplaceAlias a actor => (replace_alias_decision a actor d).2
  | CommitInventory s offers => (commit_inventory digest24 ip_host s offers d).2
  | CommitReconciled s offers ds actor fence => (commit_reconciled digest24 ip_host s offers ds actor fence d).2
  | OnLedger e => with_ops (apply (db_ops d) e) d
  end.

Lemma run_call_ok d c : db_ok d → db_ok (run_call d c).
Proof.
  intros Hd. destruct c as [ids|a actor|s offers|s offers ds actor fence|e]; cbn [run_call].
  - unfold ensure_identities. destruct (each_check _ _ ids) as [ [|i v]|]; [done| |done].
    unfold transaction. destruct (each_stmt ensure_identity (i :: v) d) as [ [ns d']|] eqn:E; [|done].
    eapply (each_stmt_inv db_ok); [|exact Hd|exact E]. intros x d1 n d2 _ H1 H2. by eapply ensure_identity_ok.
  - unfold replace_alias_decision. destruct (validate_alias_decisions [a] actor) as [ds|] eqn:Ea; [|done].
    destruct (validate_alias_ok _ _ _ Ea) as (-> & Hact & _). unfold transaction.
    destruct (each_stmt _ _ d) as [ [ [|st sts] d']|] eqn:E; [done| |done]. by eapply write_aliases_ok.
  - unfold commit_inventory. destruct (validate_inventory _ _ s offers) as [ [s' offers']|] eqn:Ev; [|done].
    destruct (validate_inventory_ok _ _ _ _ Ev) as (_ & Hs & Hb & _). unfold transaction.
    destruct (insert_inventory s' offers' d) as [ [u d']|] eqn:E; [|done]. by eapply insert_inventory_ok.
  - pose proof (commit_reconciled_spec s offers ds actor fence d Hd) as H.
    destruct (commit_reconciled _ _ _ _ _ _ _ d). apply H.
  - destruct Hd as [D1 D2 D3 D4 D5 D6]. split; try done; [|by apply apply_ok]. destruct D5. by split.
Qed.

Lemma run_call_identities d c k i :
  db_ok d → dget (db_identities d) k = Some i → dget (db_identities (run_call d c)) k = Some i.
Proof.
  intros Hd Hk. destruct c as [ids|a actor|s offers|s offers ds actor fence|e]; cbn [run_call]; [..|done].
  - pose proof (identities_immutable ids d) as H. destruct (ensure_identities ids d). by apply H.
  - unfold replace_alias_decision. destruct (validate_alias_decisions [a] actor) as [ds|] eqn:Ea; [|done].
    destruct (validate_alias_ok _ _ _ Ea) as (-> & Hact & _). unfold transaction.
    destruct (each_stmt _ _ d) as [ [ [|st sts] d']|] eqn:E; [done| |done].
    destruct (write_aliases_spec _ _ _ _ _ (dk_aliases d Hd) Hact E) as (_ & -> & _). done.
  - unfold commit_inventory. destruct (validate_inventory _ _ s offers) as [ [s' offers']|] eqn:Ev; [|done].
    destruct (validate_inventory_ok _ _ _ _ Ev) as (_ & Hs & Hb & _). unfold transaction.
    destruct (insert_inventory s' offers' d) as [ [u d']|] eqn:E; [|done].
    destruct (insert_inventory_spec _ _ _ _ _ (dk_inventory d Hd) Hs Hb E) as (_ & [_ _ Hf _ _ _ _] & _). by rewrite Hf.
  - pose proof (commit_reconciled_spec s offers ds actor fence d Hd) as H.
    destruct (commit_reconciled _ _ _ _ _ _ _ d) as [ [stored|e] d']; cbn [snd]; [|by destruct H as [_ ->] ].
    destruct H as (_ & _ & _ & _ & _ & _ & _ & _ & _ & _ & Hi & _). by rewrite Hi.
Qed.

Lemma calls_ok calls d : db_ok d → db_ok (fold_left run_call calls d).
Proof. revert d. induction calls as [|c calls IH]; intros d Hd; [done|]. cbn. by apply IH, run_call_ok. Qed.

(** C39: in every store reachable from the empty one by any calls, in any order and whatever
    they raised: each provider and source has at most one active alias decision, each
    superseded one was overtaken by a later decision still on record, and all name stored
    identities; no stored snapshot is stale or claims success without completing
    pagination; each offer agrees with the stored snapshot it stands under, whose routes are
    distinct, and none stands under a failed one; and the ledger is well-formed. *)
Theorem store_invariant calls : db_ok (fold_left run_call calls new_db).
Proof. apply calls_ok, db_ok_new. Qed.
End commits.

(** ** A commit that goes through *)

Definition demo_digest (s : string) : string := str_take 24 s.

Definition demo_identity : ModelIdentity :=
  {| mi_id := "i"; mi_vendor := "v"; mi_family := "f"; mi_release := None; mi_reasoning := None; mi_quantization := None;
     mi_fine_tune := None; mi_context := None; mi_display := "m"; mi_provisional := true; mi_created_at := 0 |}.

Definition demo_scope : CredentialScopeRef := {| kind := platform; scope_id := "platform" |}.

Definition demo_offer : ProviderOffer :=
  let oid := stable_offer_id demo_digest openrouter "v/m" in
  {| po_snapshot_offer_id := stable_snapshot_offer_id demo_digest "s" oid; po_offer_id := oid; po_identity := "i";
     po_route := "openrouter/v/m"; po_provider := openrouter; po_upstream := "v/m"; po_base_url := "https://h/v1";
     po_scope := demo_scope;
     po_capabilities := {| cap_context_window := None; cap_max_output_tokens := None; cap_modalities := [];
                           cap_supported := []; cap_residency := [] |};
     po_pricing := {| offer_prompt := None; offer_completion := None; offer_request := None; offer_image := None |};
     po_revision := "r"; po_raw := [] |}.

Definition demo_snapshot : InventorySnapshot :=
  {| sn_id := "s"; sn_provider := openrouter; sn_scope := demo_scope; sn_status := success; sn_started_at := 1;
     sn_completed_at := 2; sn_expires_at := 100; sn_pagination_complete := true; sn_revision := "r"; sn_metadata := [];
     sn_error := None; sn_offers := [] |}.

Definition demo_decision : IdentityAliasDecision :=
  {| ad_id := "a"; ad_provider := "openrouter"; ad_source_id := "v/m"; ad_identity := "i"; ad_method := "provisional";
     ad_confidence := 4 # 10; ad_evidence := [("snapshot_id", JStr "s")]; ad_reviewer := None; ad_decided_at := 2;
     ad_superseded_at := None |}.

Definition demo_actor : Actor := {| actor_id := "benchmark-inventory"; actor_org := None; actor_kind := "system" |}.

Definition demo_db : Db :=
  fold_left (run_call demo_digest (λ _, true))
    [EnsureIdentities [demo_identity]; OnLedger (Submit demo_request); OnLedger (Claim "op" "w1" 0 60)] new_db.

Lemma commit_reconciled_atomic_witness :
  let '(r, d') := commit_reconciled demo_digest (λ _, true) demo_snapshot [demo_offer] [demo_decision] demo_actor
                    (Some {| fe_operation := "op"; fe_owner := "w1"; fe_now := 3 |}) demo_db in
  db_ok d' ∧ is_ok r = true.
Proof.
  pose proof (commit_reconciled_atomic demo_digest (λ _, true) demo_snapshot [demo_offer] [demo_decision] demo_actor
                (Some {| fe_operation := "op"; fe_owner := "w1"; fe_now := 3 |}) demo_db (calls_ok _ _ _ _ db_ok_new)) as H.
  assert (is_ok (commit_reconciled demo_digest (λ _, true) demo_snapshot [demo_offer] [demo_decision] demo_actor
                (Some {| fe_operation := "op"; fe_owner := "w1"; fe_now := 3 |}) demo_db).1 = true) as Hr by (vm_compute; reflexivity).
  destruct (commit_reconciled _ _ _ _ _ _ _ demo_db) as [r d']. split; [exact (proj1 H)|exact Hr].
Defined.
