(* ===== verification/InventoryReads.v ===== *)
(** * The inventory store: reads ([benchmarking/platform_store.py])

    What inspection and routing read: the latest successful snapshot of each provider and
    scope, the candidates it offers, the last attempts, pages of identities, and the alias
    decisions of a reconciliation. *)

From stdpp Require Import sorting.
From S2P Require Import Prelude PyStr PyDict PyGroup Schemas Catalog ExactCache Domain Ledger InventoryStore.

(** ** The latest snapshot of each partition *)

Definition snapshot_partition (s : InventorySnapshot) : ProviderName * CredentialScopeRef := (sn_provider s, sn_scope s).

(** The columns [provider, scope_kind, scope_id] as they sort. *)
Definition partition_columns (p : ProviderName * CredentialScopeRef) : string * string * string :=
  (provider_str p.1, kind_str (kind p.2), scope_id p.2).

Definition columns_leb (a b : string * string * string) : bool :=
  let '(p, k, i) := a in
  let '(p', k', i') := b in
  if p ≡? p' then if k ≡? k' then str_leb i i' else str_leb k k' else str_leb p p'.

(** [completed_at DESC, snapshot_id DESC] *)
Definition newest_leb (a b : InventorySnapshot) : bool :=
  Qltb (sn_completed_at b) (sn_completed_at a)
  || (Qeq_bool (sn_completed_at a) (sn_completed_at b) && str_leb (sn_id b) (sn_id a)).

(** [ORDER BY provider, scope_kind, scope_id, completed_at DESC, snapshot_id DESC] *)
Definition snapshot_leb (a b : InventorySnapshot) : bool :=
  if snapshot_partition a ≡? snapshot_partition b then newest_leb a b
  else columns_leb (partition_columns (snapshot_partition a)) (partition_columns (snapshot_partition b)).

(** The rows whose key was not seen before. *)
Fixpoint firsts {X K} `{EqDecision K} (key : X → K) (seen : list K) (l : list X) : list X :=
  match l with
  | [] => []
  | x :: l => if key x ∈? seen then firsts key seen l else x :: firsts key (key x :: seen) l
  end.

(** [ROW_NUMBER() OVER (PARTITION BY provider, scope_kind, scope_id ORDER BY ...) = 1] *)
Definition ranked_first (rows : list InventorySnapshot) : list InventorySnapshot :=
  firsts snapshot_partition [] (sort_by snapshot_leb rows).

(** [_selection_clause] *)
Definition selected (sel : list (ProviderName * CredentialScopeRef)) (p : ProviderName * CredentialScopeRef) : bool :=
  p ∈? sel.

Definition complete_success (s : InventorySnapshot) : bool := (sn_status s ≡? success) && sn_pagination_complete s.

Definition latest_successes (keep : ProviderName * CredentialScopeRef → bool) (d : Db) : list InventorySnapshot :=
  ranked_first (List.filter (λ s, complete_success s && keep (snapshot_partition s)) (db_snapshots d).*2).

(** [_offers_for_snapshot] *)
Definition offers_for_snapshot (d : Db) (sid : string) : list ProviderOffer :=
  sort_by (λ a b, str_leb (po_route a) (po_route b))
    (snd <$> List.filter (λ so : string * ProviderOffer, so.1 ≡? sid) (db_offers d).*2).

(** An unbounded staleness ([float("inf")]) is [None]. *)
Definition is_stale (max_staleness : option Q) (now : Q) (s : InventorySnapshot) : bool :=
  Qleb (sn_expires_at s) now || match max_staleness with Some m => Qltb m (now - sn_completed_at s) | None => false end.

(** [_snapshot_from_row] *)
Definition snapshot_from_row (s : InventorySnapshot) (offers : list ProviderOffer) (stale_ : bool) : InventorySnapshot :=
  {| sn_id := sn_id s; sn_provider := sn_provider s; sn_scope := sn_scope s;
     sn_status := if stale_ then stale else sn_status s; sn_started_at := sn_started_at s;
     sn_completed_at := sn_completed_at s; sn_expires_at := sn_expires_at s;
     sn_pagination_complete := sn_pagination_complete s; sn_revision := sn_revision s; sn_metadata := sn_metadata s;
     sn_error := match sn_error s with Some e => Some (sanitize_error_summary e) | None => None end;
     sn_offers := offers |}.

Definition negative (m : option Q) : bool := match m with Some q => Qltb q 0 | None => false end.

(** [latest_inventory] *)
Definition latest_inventory (sel : list (ProviderName * CredentialScopeRef)) (max_staleness : option Q) (now : Q) (d : Db)
    : res StoreError (list InventorySnapshot) :=
  if negative max_staleness then Err (EValue "max_staleness_s must be non-negative")
  else Ok ((λ s, snapshot_from_row s (offers_for_snapshot d (sn_id s)) (is_stale max_staleness now s))
             <$> latest_successes (selected sel) d).

(** [latest_inventory_metadata] *)
Definition latest_inventory_metadata (sel : list (ProviderName * CredentialScopeRef)) (max_staleness : option Q) (now : Q)
    (d : Db) : res StoreError (list InventorySnapshot) :=
  if negative max_staleness then Err (EValue "max_staleness_s must be non-negative")
  else Ok ((λ s, snapshot_from_row s [] (is_stale max_staleness now s)) <$> latest_successes (selected sel) d).

(** The last attempt of each partition, whatever became of it. *)
Definition latest_attempts (sel : list (ProviderName * CredentialScopeRef)) (d : Db) : list InventorySnapshot :=
  ranked_first (List.filter (λ s, selected sel (snapshot_partition s)) (db_snapshots d).*2).

(** [latest_inventory_attempts]: by provider, a later row of the same provider replacing an earlier one. *)
Definition latest_inventory_attempts (sel : list (ProviderName * CredentialScopeRef)) (d : Db)
    : list (ProviderName * InventorySnapshot) :=
  fold_left (λ m s, dset m (sn_provider s) s) (latest_attempts sel d) [].

(** ** Routing candidates *)

(** [RoutingCandidate(snapshot_id=..., **offer.model_dump())] *)
Definition candidate_of (s : InventorySnapshot) (o : ProviderOffer) : RoutingCandidate :=
  {| c_snapshot := sn_id s; c_completed_at := sn_completed_at s; c_expires_at := sn_expires_at s;
     c_snapshot_offer_id := po_snapshot_offer_id o; c_offer_id := po_offer_id o; c_identity_id := po_identity o;
     route_id := po_route o; c_provider := po_provider o; upstream_model_id := po_upstream o; c_base_url := po_base_url o;
     c_scope := po_scope o; capabilities := po_capabilities o; pricing := po_pricing o; c_revision := po_revision o;
     c_raw := po_raw o |}.

(** [ORDER BY offers.route_id, offers.snapshot_offer_id] *)
Definition candidate_leb (a b : RoutingCandidate) : bool :=
  if route_id a ≡? route_id b then str_leb (c_snapshot_offer_id a) (c_snapshot_offer_id b)
  else str_leb (route_id a) (route_id b).

Definition candidates_of (snapshots : list InventorySnapshot) (d : Db) : list RoutingCandidate :=
  sort_by candidate_leb
    (flat_map (λ s, candidate_of s <$> (snd <$> List.filter (λ so : string * ProviderOffer, so.1 ≡? sn_id s) (db_offers d).*2))
       snapshots).

Definition fresh (now : Q) (s : InventorySnapshot) : bool := Qltb now (sn_expires_at s).

(** [all_routing_candidates] *)
Definition all_routing_candidates (now : Q) (d : Db) : list RoutingCandidate :=
  candidates_of (List.filter (fresh now) (latest_successes (λ _, true) d)) d.

(** [latest_routing_candidate_revisions] *)
Definition latest_revisions (now : Q) (d : Db) : list (ProviderName * CredentialScopeRef * string) :=
  (λ s, (snapshot_partition s, sn_id s)) <$> List.filter (fresh now) (latest_successes (λ _, true) d).

(** [routing_candidates_for_scopes] *)
Definition routing_candidates_for_scopes (scopes : list (ProviderName * CredentialScopeRef)) (now : Q) (d : Db)
    : list RoutingCandidate :=
  candidates_of (List.filter (fresh now) (latest_successes (selected scopes) d)) d.

(** [routing_candidates]: the sort is stable in the order of the snapshots. *)
Definition routing_candidates (sel : list (ProviderName * CredentialScopeRef)) (now : Q) (d : Db)
    : res StoreError (list RoutingCandidate) :=
  try! snapshots := latest_inventory sel None now d in
  Ok (sort_by (λ a b, str_leb (route_id a) (route_id b))
        (flat_map (λ s, candidate_of s <$> sn_offers s) (List.filter (λ s, sn_status s ≡? success) snapshots))).

(** ** Pages of identities *)

Record IdentityPage := { ip_identities : list ModelIdentity; ip_offers : list ProviderOffer; ip_more : bool }.

Definition empty_page : IdentityPage := {| ip_identities := []; ip_offers := []; ip_more := false |}.

Definition offer_leb (a b : ProviderOffer) : bool :=
  if po_identity a ≡? po_identity b then
    if po_route a ≡? po_route b then str_leb (po_snapshot_offer_id a) (po_snapshot_offer_id b)
    else str_leb (po_route a) (po_route b)
  else str_leb (po_identity a) (po_identity b).

(** [selected_offers]: of the latest successes, or of the snapshots a view is pinned to. *)
Definition selected_offers (sel : list (ProviderName * CredentialScopeRef)) (snapshot_ids : option (list string)) (d : Db)
    : list ProviderOffer :=
  let ids := match snapshot_ids with Some l => l | None => sn_id <$> latest_successes (selected sel) d end in
  snd <$> List.filter (λ so : string * ProviderOffer, so.1 ∈? ids) (db_offers d).*2.

Definition available_in (offers : list ProviderOffer) (i : ModelIdentity) : bool :=
  existsb (λ o, po_identity o ≡? mi_id i) offers.

(** The [WHERE] of [paged_identities]. *)
Definition identity_where (sel : list (ProviderName * CredentialScopeRef)) (all : bool) (ref after : option string)
    (offers : list ProviderOffer) (d : Db) (i : ModelIdentity) : bool :=
  (if all then existsb (λ so : string * ProviderOffer, (po_identity so.2 ≡? mi_id i) &&
                          selected sel (po_provider so.2, po_scope so.2)) (db_offers d).*2
   else available_in offers i)
  && match ref with
     | Some r =>
         available_in offers i &&
         ((mi_id i ≡? r) ||
          existsb (λ a : IdentityAliasDecision * option string,
                     (ad_identity a.1 ≡? mi_id i) && (ad_source_id a.1 ≡? r) && active a.1 &&
                     existsb (λ ps : ProviderName * CredentialScopeRef, provider_str ps.1 ≡? ad_provider a.1) sel)
            (db_aliases d).*2)
     | None => true
     end
  && match after with Some c => negb (str_leb (mi_id i) c) | None => true end.

(** [inventory_identity_page] *)
Definition identity_page (sel : list (ProviderName * CredentialScopeRef)) (availability : string) (after : option string)
    (limit : Z) (ref : option string) (snapshot_ids : option (list string)) (d : Db) : res StoreError IdentityPage :=
  if negb (availability ∈? ["all"; "available"]) then Err (EValue "availability must be 'all' or 'available'")
  else if negb ((1 <=? limit)%Z && (limit <=? 200)%Z) then Err (EValue "limit must be between 1 and 200")
  else match sel with
  | [] => Ok empty_page
  | _ :: _ =>
      let offers := selected_offers sel snapshot_ids d in
      let matching := sort_by (λ a b, str_leb (mi_id a) (mi_id b))
                        (List.filter (identity_where sel (availability ≡? "all") ref after offers d) (db_identities d).*2) in
      let paged := take (S (Z.to_nat limit)) matching in
      let identities := take (Z.to_nat limit) paged in
      Ok {| ip_identities := identities;
            ip_offers := sort_by offer_leb (List.filter (λ o, po_identity o ∈? (mi_id <$> identities)) offers);
            ip_more := Z.to_nat limit <? length paged |}
  end.

Record Inspection := {
  in_snapshots : list InventorySnapshot;
  in_attempts : list (ProviderName * InventorySnapshot);
  in_page : IdentityPage;
}.

(** [inventory_inspection] *)
Definition inventory_inspection (sel : list (ProviderName * CredentialScopeRef)) (max_staleness now : Q) (availability : string)
    (after : option string) (limit : Z) (ref : option string) (d : Db) : res StoreError Inspection :=
  if Qltb max_staleness 0 then Err (EValue "max_staleness_s must be non-negative")
  else match sel with
  | [] => Ok {| in_snapshots := []; in_attempts := []; in_page := empty_page |}
  | _ :: _ =>
      let snapshots := (λ s, snapshot_from_row s [] (is_stale (Some max_staleness) now s)) <$> latest_successes (selected sel) d in
      try! page := identity_page sel availability after limit ref (Some (sn_id <$> snapshots)) d in
      Ok {| in_snapshots := snapshots; in_attempts := latest_inventory_attempts sel d; in_page := page |}
  end.

(** ** Alias decisions *)

Definition CONTEXT_LIMIT : Z := 100000.

(** [ORDER BY decided_at, alias_id] *)
Definition decided_leb (a b : IdentityAliasDecision) : bool :=
  Qltb (ad_decided_at a) (ad_decided_at b) || (Qeq_bool (ad_decided_at a) (ad_decided_at b) && str_leb (ad_id a) (ad_id b)).

Definition alias_context_leb (a b : IdentityAliasDecision) : bool :=
  if ad_provider a ≡? ad_provider b then
    if ad_source_id a ≡? ad_source_id b then decided_leb a b else str_leb (ad_source_id a) (ad_source_id b)
  else str_leb (ad_provider a) (ad_provider b).

(** [reconciliation_context] *)
Definition reconciliation_context (providers : list ProviderName) (limit : Z) (d : Db)
    : res StoreError (list ModelIdentity * list IdentityAliasDecision) :=
  match providers with
  | [] => Err (EValue "at least one reconciliation provider is required")
  | _ :: _ =>
      if negb ((1 <=? limit)%Z && (limit <=? CONTEXT_LIMIT)%Z)
      then Err (EValue "reconciliation context limit must be between 1 and 100000")
      else
        let identities := sort_by (λ a b, str_leb (mi_id a) (mi_id b)) (db_identities d).*2 in
        let aliases := sort_by alias_context_leb
          (List.filter (λ a, active a && (ad_provider a ∈? (provider_str <$> providers))) ((db_aliases d).*2).*1) in
        if (limit <? Z.of_nat (length identities))%Z || (limit <? Z.of_nat (length aliases))%Z
        then Err (EValue "persisted reconciliation context exceeds the configured bound")
        else Ok (identities, aliases)
  end.

Definition ALIAS_HISTORY_KEY_LIMIT : Z := 100000.

(** [latest_alias_decisions]: by key, the latest of the requested ones. *)
Definition latest_alias_decisions (keys : list (string * string)) (d : Db)
    : res StoreError (list (string * string * IdentityAliasDecision)) :=
  let requested := remove_dups keys in
  if (ALIAS_HISTORY_KEY_LIMIT <? Z.of_nat (length requested))%Z
  then Err (EValue "alias history lookup exceeds 100000 provider/source keys")
  else Ok ((λ a, (alias_key a, a)) <$>
        firsts alias_key [] (sort_by (λ a b, if alias_key a ≡? alias_key b then decided_leb b a
                                            else alias_context_leb a b)
          (List.filter (λ a, alias_key a ∈? requested) ((db_aliases d).*2).*1))).

(** [alias_decisions] *)
Definition alias_decisions (provider source : string) (d : Db) : list IdentityAliasDecision :=
  sort_by decided_leb (List.filter (λ a, alias_key a ≡? (provider, source)) ((db_aliases d).*2).*1).

(** ** First of each key in a sorted list *)

Section firsts.
Context {X K : Type} `{EqDecision K} (key : X → K).

Lemma elem_of_firsts seen l x : x ∈ firsts key seen l → x ∈ l ∧ key x ∉ seen.
Proof.
  revert seen. induction l as [|y l IH]; intros seen; cbn; [by intros ?%elem_of_nil|].
  case_bool_decide as E; rewrite ?elem_of_cons.
  - intros [? ?]%IH. auto.
  - intros [->|[? Hn]%IH]; [auto|]. apply not_elem_of_cons in Hn as [_ ?]. auto.
Qed.

Lemma firsts_least (leb : X → X → bool) seen l x :
  (∀ y, leb y y = true) → StronglySorted (λ a b, leb a b = true) l →
  x ∈ firsts key seen l → ∀ y, y ∈ l → key y = key x → leb x y = true.
Proof.
  intros Hrefl Hs. revert seen. induction Hs as [|z l Hs IH Hz]; intros seen; cbn; [by intros ?%elem_of_nil|].
  case_bool_decide as E; rewrite ?elem_of_cons.
  - intros Hx y [->|Hy]%elem_of_cons Hk; [|eauto]. apply elem_of_firsts in Hx as [_ Hx]. congruence.
  - rewrite Forall_forall in Hz. intros [->|Hx] y [->|Hy]%elem_of_cons Hk; [done|by apply Hz| |eauto].
    apply elem_of_firsts in Hx as [_ Hx]. apply not_elem_of_cons in Hx as [Hne _]. congruence.
Qed.

Lemma firsts_complete seen l x : x ∈ l → key x ∉ seen → ∃ z, z ∈ firsts key seen l ∧ key z = key x.
Proof.
  revert seen. induction l as [|y l IH]; intros seen; [by intros ?%elem_of_nil|]. cbn.
  intros [->|Hx]%elem_of_cons Hn; case_bool_decide as E; try done.
  - exists y. split; [left|done].
  - auto.
  - destruct (decide (key x = key y)) as [He|Hne]; [exists y; split; [left|done]|].
    destruct (IH (key y :: seen) Hx) as (z & Hz & Hk); [by apply not_elem_of_cons|]. exists z. split; [by right|done].
Qed.

Lemma NoDup_firsts seen l : NoDup (key <$> firsts key seen l).
Proof.
  revert seen. induction l as [|y l IH]; intros seen; cbn; [constructor|]. case_bool_decide; [done|]. cbn.
  constructor; [|done]. intros (z & Hk & [_ Hz]%elem_of_firsts)%list_elem_of_fmap. apply Hz. rewrite Hk. left.
Qed.
End firsts.

(** ** The orders of the statements *)

Lemma newest_leb_total a b : newest_leb a b = true ∨ newest_leb b a = true.
Proof.
  unfold newest_leb. rewrite !orb_true_iff, !andb_true_iff, !Qltb_true, !Qeq_bool_iff.
  destruct (Q_dec (sn_completed_at a) (sn_completed_at b)) as [ [?|?]|?]; [auto|auto|].
  destruct (str_leb_total (sn_id a) (sn_id b)); [right|left]; right; (split; [lra|done]).
Qed.

Lemma newest_leb_refl a : newest_leb a a = true.
Proof. by destruct (newest_leb_total a a). Qed.

Lemma newest_leb_trans a b c : newest_leb a b = true → newest_leb b c = true → newest_leb a c = true.
Proof.
  unfold newest_leb. rewrite !orb_true_iff, !andb_true_iff, !Qltb_true, !Qeq_bool_iff.
  intros [?|[? ?] ] [?|[? ?] ]; [left; lra|left; lra|left; lra|right]. split; [lra|by eapply str_leb_trans].
Qed.

Lemma newest_leb_antisym a b : newest_leb a b = true → newest_leb b a = true → sn_id a = sn_id b.
Proof.
  unfold newest_leb. rewrite !orb_true_iff, !andb_true_iff, !Qltb_true, !Qeq_bool_iff.
  intros [?|[? ?] ] [?|[? ?] ]; [lra..|]. by apply str_leb_antisym.
Qed.

Lemma kind_str_inj k k' : kind_str k = kind_str k' → k = k'.
Proof. by destruct k, k'. Qed.

Lemma partition_columns_inj p q : partition_columns p = partition_columns q → p = q.
Proof.
  destruct p as [p [k i] ], q as [q [k' i'] ]. unfold partition_columns. cbn.
  intros [= Hp%provider_str_inj Hk%kind_str_inj Hi]. congruence.
Qed.

Lemma columns_leb_total a b : columns_leb a b = true ∨ columns_leb b a = true.
Proof.
  destruct a as [ [p k] i], b as [ [p' k'] i']. unfold columns_leb.
  destruct (decide (p = p')) as [->|Hp].
  - rewrite !bool_decide_eq_true_2 by done. destruct (decide (k = k')) as [->|Hk].
    + rewrite !bool_decide_eq_true_2 by done. apply str_leb_total.
    + rewrite !bool_decide_eq_false_2 by congruence. apply str_leb_total.
  - rewrite !bool_decide_eq_false_2 by congruence. apply str_leb_total.
Qed.

Lemma columns_leb_antisym a b : columns_leb a b = true → columns_leb b a = true → a = b.
Proof.
  destruct a as [ [p k] i], b as [ [p' k'] i']. unfold columns_leb.
  destruct (decide (p = p')) as [->|Hp].
  - rewrite !(bool_decide_eq_true_2 (p' = p')) by done. destruct (decide (k = k')) as [->|Hk].
    + rewrite !bool_decide_eq_true_2 by done. intros ? ?. f_equal. by apply str_leb_antisym.
    + rewrite !bool_decide_eq_false_2 by congruence. intros ? ?. destruct Hk. by apply str_leb_antisym.
  - rewrite !bool_decide_eq_false_2 by congruence. intros ? ?. destruct Hp. by apply str_leb_antisym.
Qed.

Lemma columns_leb_trans a b c : columns_leb a b = true → columns_leb b c = true → columns_leb a c = true.
Proof.
  destruct a as [ [p k] i], b as [ [p' k'] i'], c as [ [p'' k''] i'']. unfold columns_leb.
  intros H1 H2.
  destruct (decide (p = p')) as [->|Hp], (decide (p' = p'')) as [->|Hp'].
  - rewrite !(bool_decide_eq_true_2 (p'' = p'')) in * by done.
    destruct (decide (k = k')) as [->|Hk], (decide (k' = k'')) as [->|Hk'].
    + rewrite !(bool_decide_eq_true_2 (k'' = k'')) in * by done. by eapply str_leb_trans.
    + by rewrite (bool_decide_eq_false_2 (k' = k'')) in * by done.
    + by rewrite (bool_decide_eq_false_2 (k = k'')) in * by done.
    + rewrite (bool_decide_eq_false_2 (k = k')) in H1 by done. rewrite (bool_decide_eq_false_2 (k' = k'')) in H2 by done.
      destruct (decide (k = k'')) as [->|?]; [destruct Hk; by apply str_leb_antisym|].
      rewrite bool_decide_eq_false_2 by done. by eapply str_leb_trans.
  - by rewrite (bool_decide_eq_false_2 (p' = p'')) in * by done.
  - by rewrite (bool_decide_eq_false_2 (p = p'')) in * by done.
  - rewrite (bool_decide_eq_false_2 (p = p')) in H1 by done. rewrite (bool_decide_eq_false_2 (p' = p'')) in H2 by done.
    destruct (decide (p = p'')) as [->|?]; [destruct Hp; by apply str_leb_antisym|].
    rewrite bool_decide_eq_false_2 by done. by eapply str_leb_trans.
Qed.

Lemma snapshot_leb_total a b : snapshot_leb a b = true ∨ snapshot_leb b a = true.
Proof.
  unfold snapshot_leb. destruct (decide (snapshot_partition a = snapshot_partition b)) as [E|E].
  - rewrite !bool_decide_eq_true_2 by congruence. apply newest_leb_total.
  - rewrite !bool_decide_eq_false_2 by congruence. apply columns_leb_total.
Qed.

Lemma snapshot_leb_trans a b c : snapshot_leb a b = true → snapshot_leb b c = true → snapshot_leb a c = true.
Proof.
  unfold snapshot_leb.
  destruct (decide (snapshot_partition a = snapshot_partition b)) as [E|E],
           (decide (snapshot_partition b = snapshot_partition c)) as [E'|E'].
  - rewrite !bool_decide_eq_true_2 by congruence. apply newest_leb_trans.
  - rewrite (bool_decide_eq_true_2 (snapshot_partition a = _)) by done. rewrite !bool_decide_eq_false_2 by congruence.
    by rewrite E.
  - rewrite (bool_decide_eq_true_2 (snapshot_partition b = _)) by done. rewrite !bool_decide_eq_false_2 by congruence.
    by rewrite E'.
  - rewrite (bool_decide_eq_false_2 (snapshot_partition a = snapshot_partition b)), (bool_decide_eq_false_2 (snapshot_partition b = _)) by done.
    intros H1 H2. destruct (decide (snapshot_partition a = snapshot_partition c)) as [E''|E''].
    + destruct E. apply partition_columns_inj, columns_leb_antisym; [done|]. by rewrite E''.
    + rewrite bool_decide_eq_false_2 by done. by eapply columns_leb_trans.
Qed.

(** ** The latest successes *)

Lemma ranked_first_spec rows s :
  s ∈ ranked_first rows →
  s ∈ rows ∧ ∀ s', s' ∈ rows → snapshot_partition s' = snapshot_partition s → newest_leb s s' = true.
Proof.
  unfold ranked_first. intros Hs. split.
  - apply elem_of_firsts in Hs as [Hs _]. by rewrite elem_of_sort_by in Hs.
  - intros s' Hin Hk.
    assert (snapshot_leb s s' = true) as Hl.
    { apply (firsts_least snapshot_partition snapshot_leb [] (sort_by snapshot_leb rows)); [| |done|by apply elem_of_sort_by|done].
      - intros y. unfold snapshot_leb. rewrite bool_decide_eq_true_2 by done. apply newest_leb_refl.
      - apply sort_by_sorted; [apply snapshot_leb_total|apply snapshot_leb_trans]. }
    unfold snapshot_leb in Hl. by rewrite bool_decide_eq_true_2 in Hl.
Qed.

Lemma ranked_first_complete rows s : s ∈ rows → ∃ z, z ∈ ranked_first rows ∧ snapshot_partition z = snapshot_partition s.
Proof.
  intros Hs. apply firsts_complete; [by apply elem_of_sort_by|by intros ?%elem_of_nil].
Qed.

(** The newest successful snapshot of its provider and scope. *)
Definition latest_success (d : Db) (s : InventorySnapshot) : Prop :=
  dget (db_snapshots d) (sn_id s) = Some s ∧ sn_status s = success ∧
  ∀ s', dget (db_snapshots d) (sn_id s') = Some s' → sn_status s' = success →
        snapshot_partition s' = snapshot_partition s → newest_leb s s' = true.

Lemma elem_of_snapshots d s : inventory_ok d → s ∈ (db_snapshots d).*2 ↔ dget (db_snapshots d) (sn_id s) = Some s.
Proof.
  intros Hok. split.
  - intros ([k s'] & -> & Hin)%list_elem_of_fmap. apply elem_dget in Hin; [|apply Hok].
    destruct (io_snapshot d Hok _ _ Hin) as [<- _]. done.
  - intros H%dget_elem. apply list_elem_of_fmap. by exists (sn_id s, s).
Qed.

Lemma complete_success_iff d s : inventory_ok d → s ∈ (db_snapshots d).*2 → complete_success s = true ↔ sn_status s = success.
Proof.
  intros Hok Hs%elem_of_snapshots; [|done]. destruct (io_snapshot d Hok _ _ Hs) as [_ (_ & Hc & _)].
  unfold complete_success. case_bool_decide as E; cbn; [|done]. by rewrite Hc.
Qed.

Lemma latest_successes_exact keep d s :
  inventory_ok d → s ∈ latest_successes keep d ↔ latest_success d s ∧ keep (snapshot_partition s) = true.
Proof.
  intros Hok. unfold latest_successes.
  assert (∀ x, x ∈ List.filter (λ s, complete_success s && keep (snapshot_partition s)) (db_snapshots d).*2 ↔
            dget (db_snapshots d) (sn_id x) = Some x ∧ sn_status x = success ∧ keep (snapshot_partition x) = true) as Hrow.
  { intros x. rewrite elem_of_bfilter, andb_true_iff. split.
    - intros (Hx & Hc & Hk). rewrite (complete_success_iff d) in Hc by done. by apply elem_of_snapshots in Hx.
    - intros (Hx & Hc & Hk). assert (x ∈ (db_snapshots d).*2) by by apply elem_of_snapshots.
      by rewrite (complete_success_iff d). }
  split.
  - intros [Hs Hmax]%ranked_first_spec. apply Hrow in Hs as (Hs & Hst & Hk). split; [|done]. split_and!; [done|done|].
    intros s' Hs' Hst' Hp. apply Hmax; [|done]. apply Hrow. by rewrite Hp.
  - intros [ (Hs & Hst & Hmax) Hk].
    destruct (ranked_first_complete (List.filter (λ s, complete_success s && keep (snapshot_partition s)) (db_snapshots d).*2) s)
      as (z & Hz & Hp); [by apply Hrow|].
    pose proof (ranked_first_spec _ _ Hz) as [Hzr Hzmax]. apply Hrow in Hzr as (Hzd & Hzst & Hzk).
    assert (sn_id z = sn_id s) as He.
    { apply newest_leb_antisym; [|by apply Hmax]. apply Hzmax; [by apply Hrow|done]. }
    rewrite He in Hzd. congruence.
Qed.

Lemma NoDup_latest keep d : NoDup (snapshot_partition <$> latest_successes keep d).
Proof. apply NoDup_firsts. Qed.

(** ** Candidates *)

Lemma elem_of_candidates_of snapshots d c :
  inventory_ok d →
  c ∈ candidates_of snapshots d ↔
  ∃ s k o, s ∈ snapshots ∧ dget (db_offers d) k = Some (sn_id s, o) ∧ c = candidate_of s o.
Proof.
  intros Hok. unfold candidates_of. rewrite elem_of_sort_by, elem_of_flat_map. split.
  - intros (s & Hs & Hc). exists s. apply list_elem_of_fmap in Hc as (o & -> & Ho).
    apply list_elem_of_fmap in Ho as ([sid o'] & -> & [Ho He]%elem_of_bfilter). cbn in He.
    apply bool_decide_eq_true in He as ->. apply list_elem_of_fmap in Ho as ([k so] & He & Hk). cbn in He. subst so.
    exists k, o'. split_and!; [done| |done]. apply elem_dget; [apply Hok|done].
  - intros (s & k & o & Hs & Ho & ->). exists s. split; [done|]. apply list_elem_of_fmap. exists o. split; [done|].
    apply list_elem_of_fmap. exists (sn_id s, o). split; [done|]. apply elem_of_bfilter.
    split; [|by apply bool_decide_eq_true]. apply list_elem_of_fmap. exists (k, (sn_id s, o)).
    split; [done|]. by apply dget_elem.
Qed.

(** The offer of a fresh latest success, as a candidate. *)
Definition routable (d : Db) (now : Q) (c : RoutingCandidate) : Prop :=
  ∃ s k o, latest_success d s ∧ (now < sn_expires_at s)%Q ∧ dget (db_offers d) k = Some (sn_id s, o) ∧ c = candidate_of s o.

Lemma elem_of_fresh now l s : s ∈ List.filter (fresh now) l ↔ s ∈ l ∧ (now < sn_expires_at s)%Q.
Proof. rewrite elem_of_bfilter. unfold fresh. by rewrite Qltb_true. Qed.

Lemma candidate_partition d s k o :
  inventory_ok d → dget (db_snapshots d) (sn_id s) = Some s → dget (db_offers d) k = Some (sn_id s, o) →
  (c_provider (candidate_of s o), c_scope (candidate_of s o)) = snapshot_partition s.
Proof.
  intros Hok Hs Ho. destruct (io_offer d Hok _ _ _ Ho) as [_ (s' & Hs' & (Hp & Hsc & _))].
  rewrite Hs in Hs'. injection Hs' as <-. unfold snapshot_partition. cbn. by rewrite Hp, Hsc.
Qed.

Lemma elem_of_all_candidates d now c : inventory_ok d → c ∈ all_routing_candidates now d ↔ routable d now c.
Proof.
  intros Hok. unfold all_routing_candidates. rewrite elem_of_candidates_of by done. unfold routable.
  setoid_rewrite elem_of_fresh. setoid_rewrite latest_successes_exact; [|done]. naive_solver.
Qed.

Lemma elem_of_scope_candidates d scopes now c :
  inventory_ok d → c ∈ routing_candidates_for_scopes scopes now d ↔ routable d now c ∧ (c_provider c, c_scope c) ∈ scopes.
Proof.
  intros Hok. unfold routing_candidates_for_scopes. rewrite elem_of_candidates_of by done. unfold routable.
  setoid_rewrite elem_of_fresh. setoid_rewrite latest_successes_exact; [|done]. unfold selected.
  setoid_rewrite bool_decide_eq_true. split.
  - intros (s & k & o & [ [Hl Hsel] Hf] & Ho & ->). split; [by exists s, k, o|].
    rewrite (candidate_partition d s k o Hok (proj1 Hl) Ho). done.
  - intros [(s & k & o & Hl & Hf & Ho & ->) Hsel]. exists s, k, o.
    rewrite (candidate_partition d s k o Hok (proj1 Hl) Ho) in Hsel. done.
Qed.

Lemma dget_revisions d now p r :
  inventory_ok d →
  dget (latest_revisions now d) p = Some r ↔
  ∃ s, latest_success d s ∧ (now < sn_expires_at s)%Q ∧ snapshot_partition s = p ∧ sn_id s = r.
Proof.
  intros Hok.
  assert (NoDup (dkeys (latest_revisions now d))) as Hnd.
  { unfold latest_revisions, dkeys. rewrite <- list_fmap_compose.
    pose proof (NoDup_latest (λ _, true) d) as H. revert H. generalize (latest_successes (λ _, true) d). clear.
    intros l H. induction l as [|s l IH]; [constructor|]. rewrite fmap_cons in H. apply NoDup_cons in H as [Hs H].
    cbn [List.filter]. destruct (fresh now s); [|auto]. rewrite fmap_cons. constructor; [|auto].
    intros (z & Hz & [Hin _]%elem_of_bfilter)%list_elem_of_fmap. apply Hs, list_elem_of_fmap. eauto. }
  split.
  - intros H%dget_elem. apply list_elem_of_fmap in H as (s & [= -> ->] & Hs).
    apply elem_of_fresh in Hs as [Hs Hf]. apply latest_successes_exact in Hs as [Hs _]; [|done]. eauto.
  - intros (s & Hs & Hf & <- & <-). apply elem_dget; [done|]. apply list_elem_of_fmap. exists s. split; [done|].
    apply elem_of_fresh. split; [|done]. by apply latest_successes_exact.
Qed.

(** ** What routing sees *)

(** the candidates routing loads are exactly the offers of the latest successful snapshot
    of each provider and scope that has not expired; the partitioned load gives those of the
    named partitions; and the cheap revision of a partition is the one snapshot all its
    candidates come from. *)
Theorem routing_candidates_exact digest24 ip_host calls now :
  let d := fold_left (run_call digest24 ip_host) calls new_db in
  (∀ c, c ∈ all_routing_candidates now d ↔ routable d now c) ∧
  (∀ scopes c, c ∈ routing_candidates_for_scopes scopes now d ↔ routable d now c ∧ (c_provider c, c_scope c) ∈ scopes) ∧
  (∀ c, c ∈ all_routing_candidates now d → dget (latest_revisions now d) (c_provider c, c_scope c) = Some (c_snapshot c)).
Proof.
  intros d. pose proof (dk_inventory d (calls_ok _ _ calls _ db_ok_new)) as Hok. split_and!.
  - intros c. by apply elem_of_all_candidates.
  - intros scopes c. by apply elem_of_scope_candidates.
  - intros c (s & k & o & Hl & Hf & Ho & ->)%elem_of_all_candidates; [|done].
    rewrite (candidate_partition d s k o Hok (proj1 Hl) Ho). apply dget_revisions; [done|]. by exists s.
Qed.

(** ** A failed refresh is harmless *)

Lemma insert_offers_filter sid offers d us d' k :
  k ≠ sid → each_stmt (insert_offer sid) offers d = Ok (us, d') →
  db_snapshots d' = db_snapshots d ∧
  List.filter (λ so : string * ProviderOffer, so.1 ≡? k) (db_offers d').*2 =
  List.filter (λ so : string * ProviderOffer, so.1 ≡? k) (db_offers d).*2.
Proof.
  intros Hk H.
  apply (each_stmt_inv (λ x, db_snapshots x = db_snapshots d ∧
     List.filter (λ so : string * ProviderOffer, so.1 ≡? k) (db_offers x).*2 =
     List.filter (λ so : string * ProviderOffer, so.1 ≡? k) (db_offers d).*2) (insert_offer sid) offers d us d'); [|done|done].
  intros o x [] x' _ [Hs Ho] Hi. destruct (insert_offer_spec _ _ _ _ _ Hi) as (-> & Hfree & _).
  cbn [db_snapshots db_offers with_inventory]. split; [done|]. rewrite dset_fresh by done.
  rewrite fmap_app, List.filter_app, Ho. cbn. rewrite bool_decide_eq_false_2 by congruence. by rewrite app_nil_r.
Qed.

Lemma commit_unsuccessful digest24 ip_host s offers d d' :
  sn_status s ≠ success → (commit_inventory digest24 ip_host s offers d).2 = d' →
  (∀ keep, latest_successes keep d' = latest_successes keep d) ∧
  ∀ k, (∃ v, dget (db_snapshots d) k = Some v) →
    List.filter (λ so : string * ProviderOffer, so.1 ≡? k) (db_offers d').*2 =
    List.filter (λ so : string * ProviderOffer, so.1 ≡? k) (db_offers d).*2.
Proof.
  intros Hst <-. unfold commit_inventory. destruct (validate_inventory _ _ s offers) as [ [s' offers']|] eqn:Ev; [|done].
  assert (sn_status s' = sn_status s) as Hst'.
  { unfold validate_inventory in Ev. destruct (check_snapshot s) as [t|] eqn:Es; [|done].
    destruct (check_snapshot_ok _ _ Es) as (Ht & _).
    destruct (each_check _ _ offers); [|done]. destruct (sn_status t ≡? stale); [done|].
    assert (s' = t) as -> by (destruct a, (sn_status t), (sn_offers t); try done; destruct (first_some _ _); congruence).
    by rewrite Ht. }
  unfold transaction, insert_inventory, dmem. destruct (dget (db_snapshots d) (sn_id s')) eqn:Efree; [done|].
  destruct (each_stmt _ offers' _) as [ [us d2]|] eqn:Ei; [|done]. cbn [snd]. split.
  - intros keep. unfold latest_successes. f_equal.
    assert (sn_id s' +:+ "x" ≠ sn_id s') as Hne.
    { intros H. apply (f_equal str_len) in H. rewrite str_len_app in H. change (str_len "x") with 1 in H. lia. }
    destruct (insert_offers_filter _ _ _ _ _ _ Hne Ei) as [-> _].
    cbn [db_snapshots with_inventory]. rewrite dset_fresh by done. rewrite fmap_app, List.filter_app. cbn.
    unfold complete_success at 2. cbn [sn_status snapshot_row]. rewrite Hst', bool_decide_eq_false_2 by done. cbn. by rewrite app_nil_r.
  - intros k [v Hv]. assert (k ≠ sn_id s') as Hne by (intros ->; congruence).
    by destruct (insert_offers_filter _ _ _ _ _ _ Hne Ei) as [_ ->].
Qed.

(** a refresh that failed or stopped half way is harmless to routing: committing a
    snapshot that is not a success, with whatever offers, leaves the candidates, the
    partitioned loads and the revisions exactly as they were, at every time; so the last
    complete inventory keeps serving until it expires. *)
Theorem failed_refresh_harmless digest24 ip_host calls s offers :
  sn_status s ≠ success →
  let d := fold_left (run_call digest24 ip_host) calls new_db in
  let d' := (commit_inventory digest24 ip_host s offers d).2 in
  ∀ now, all_routing_candidates now d' = all_routing_candidates now d ∧
         (∀ scopes, routing_candidates_for_scopes scopes now d' = routing_candidates_for_scopes scopes now d) ∧
         latest_revisions now d' = latest_revisions now d.
Proof.
  intros Hst d d' now. pose proof (dk_inventory d (calls_ok _ _ calls _ db_ok_new)) as Hok.
  destruct (commit_unsuccessful digest24 ip_host s offers d d' Hst eq_refl) as [Hl Hf].
  assert (∀ keep, candidates_of (List.filter (fresh now) (latest_successes keep d)) d' =
                  candidates_of (List.filter (fresh now) (latest_successes keep d)) d) as Hc.
  { intros keep. unfold candidates_of. f_equal.
    assert (∀ x, x ∈ List.filter (fresh now) (latest_successes keep d) → ∃ v, dget (db_snapshots d) (sn_id x) = Some v) as Hx.
    { intros x [Hx _]%elem_of_fresh. apply latest_successes_exact in Hx as [(Hx & _) _]; [|done]. eauto. }
    revert Hx. generalize (List.filter (fresh now) (latest_successes keep d)) as l.
    induction l as [|x l IH]; intros Hx; [done|]. cbn [flat_map]. rewrite IH by (intros; apply Hx; by right).
    by rewrite Hf by (apply Hx; left). }
  unfold all_routing_candidates, routing_candidates_for_scopes, latest_revisions. rewrite !Hl, Hc. split_and!; [done| |done].
  intros scopes. by rewrite Hl, Hc.
Qed.

Lemma failed_refresh_harmless_witness :
  let d := fold_left (run_call demo_digest (λ _, true)) [CommitInventory demo_snapshot [demo_offer]] new_db in
  let bad := {| sn_id := "t"; sn_provider := openrouter; sn_scope := demo_scope; sn_status := failed; sn_started_at := 3;
                sn_completed_at := 4; sn_expires_at := 200; sn_pagination_complete := false; sn_revision := "r";
                sn_metadata := []; sn_error := None; sn_offers := [] |} in
  let d' := (commit_inventory demo_digest (λ _, true) bad [] d).2 in
  length (db_snapshots d') = 2 ∧ all_routing_candidates 5 d' = all_routing_candidates 5 d ∧
  length (all_routing_candidates 5 d) = 1.
Proof.
  split_and!; [vm_compute; reflexivity| |vm_compute; reflexivity].
  refine (proj1 (failed_refresh_harmless demo_digest (λ _, true) [CommitInventory demo_snapshot [demo_offer]] _ [] _ 5)).
  discriminate.
Defined.

(** ** The active decision is the latest *)

Lemma decided_leb_total a b : decided_leb a b = true ∨ decided_leb b a = true.
Proof.
  unfold decided_leb. rewrite !orb_true_iff, !andb_true_iff, !Qltb_true, !Qeq_bool_iff.
  destruct (Q_dec (ad_decided_at a) (ad_decided_at b)) as [ [?|?]|?]; [auto|auto|].
  destruct (str_leb_total (ad_id a) (ad_id b)); [left|right]; right; (split; [lra|done]).
Qed.

Lemma decided_leb_trans a b c : decided_leb a b = true → decided_leb b c = true → decided_leb a c = true.
Proof.
  unfold decided_leb. rewrite !orb_true_iff, !andb_true_iff, !Qltb_true, !Qeq_bool_iff.
  intros [?|[? ?] ] [?|[? ?] ]; [left; lra|left; lra|left; lra|right]. split; [lra|by eapply str_leb_trans].
Qed.

(** The order of [latest_alias_decisions]: by provider and source, then latest first. *)
Definition history_leb (a b : IdentityAliasDecision) : bool :=
  if alias_key a ≡? alias_key b then decided_leb b a else alias_context_leb a b.

Lemma alias_context_other a b :
  alias_key a ≠ alias_key b → alias_context_leb a b = columns_leb (ad_provider a, ad_source_id a, "") (ad_provider b, ad_source_id b, "").
Proof.
  unfold alias_key, alias_context_leb, columns_leb. intros Hne. case_bool_decide; [|done]. case_bool_decide; [congruence|done].
Qed.

Lemma history_leb_total a b : history_leb a b = true ∨ history_leb b a = true.
Proof.
  unfold history_leb. destruct (decide (alias_key a = alias_key b)) as [E|E].
  - rewrite !bool_decide_eq_true_2 by congruence. destruct (decided_leb_total a b); auto.
  - rewrite !bool_decide_eq_false_2 by congruence. rewrite !alias_context_other by congruence. apply columns_leb_total.
Qed.

Lemma history_leb_trans a b c : history_leb a b = true → history_leb b c = true → history_leb a c = true.
Proof.
  assert (∀ x y z : IdentityAliasDecision, alias_key x = alias_key y →
    (ad_provider x, ad_source_id x, z) = (ad_provider y, ad_source_id y, z)) as Hk by (unfold alias_key; intros; congruence).
  unfold history_leb.
  destruct (decide (alias_key a = alias_key b)) as [E|E], (decide (alias_key b = alias_key c)) as [E'|E'].
  - rewrite !bool_decide_eq_true_2 by congruence. intros ? ?. by eapply decided_leb_trans.
  - rewrite (bool_decide_eq_true_2 (alias_key a = _)) by done. rewrite !bool_decide_eq_false_2 by congruence.
    rewrite !alias_context_other by congruence. unfold alias_key in E. injection E as -> ->. done.
  - rewrite (bool_decide_eq_true_2 (alias_key b = _)) by done. rewrite !bool_decide_eq_false_2 by congruence.
    rewrite !alias_context_other by congruence. unfold alias_key in E'. injection E' as -> ->. done.
  - rewrite (bool_decide_eq_false_2 (alias_key a = alias_key b)), (bool_decide_eq_false_2 (alias_key b = _)) by done.
    rewrite !alias_context_other by done.
    intros H1 H2. destruct (decide (alias_key a = alias_key c)) as [E''|E''].
    + destruct E. unfold alias_key in *. injection E'' as E1 E2. rewrite <- E1, <- E2 in H2.
      pose proof (columns_leb_antisym _ _ H1 H2) as He. congruence.
    + rewrite bool_decide_eq_false_2 by done. rewrite alias_context_other by done. by eapply columns_leb_trans.
Qed.

(** Of all decisions of a key, one that is latest is the active one. *)
Lemma latest_is_active t k a i org :
  alias_ok t → dget t i = Some (a, org) → alias_key a = k →
  (∀ j b ob, dget t j = Some (b, ob) → alias_key b = k → decided_leb b a = true) →
  current_alias t k = Some a.
Proof.
  intros Hok Hi Hk Hmax. apply current_alias_spec; [done|]. pose proof (ao_id _ Hok _ _ Hi) as Hid. cbn in Hid.
  exists org. rewrite Hid. split_and!; [done|done|]. destruct (active a) eqn:Ea; [done|]. exfalso.
  unfold active in Ea. destruct (ad_superseded_at a) as [s|] eqn:Es; [|done].
  destruct (ao_past _ Hok _ _ s Hi Es) as (Hlt & j & [z oz] & Hz & Hzk & Hza & Hle). cbn in *.
  specialize (Hmax j z oz Hz ltac:(congruence)). unfold decided_leb in Hmax.
  rewrite orb_true_iff, andb_true_iff, Qltb_true, Qeq_bool_iff in Hmax. destruct Hmax as [?|[? _] ]; lra.
Qed.

Lemma elem_of_history d keys a :
  alias_ok (db_aliases d) →
  a ∈ sort_by history_leb (List.filter (λ a, alias_key a ∈? remove_dups keys) ((db_aliases d).*2).*1) ↔
  (∃ i org, dget (db_aliases d) i = Some (a, org)) ∧ alias_key a ∈ keys.
Proof.
  intros Hok. rewrite elem_of_sort_by, elem_of_bfilter, bool_decide_eq_true, elem_of_remove_dups.
  enough (a ∈ ((db_aliases d).*2).*1 ↔ ∃ i org, dget (db_aliases d) i = Some (a, org)) by tauto. split.
  - intros ([b org] & -> & Hb)%list_elem_of_fmap. apply list_elem_of_fmap in Hb as ([i r] & -> & Hi).
    exists i, r.2. apply elem_dget; [apply Hok|]. cbn. by destruct r.
  - intros (i & org & Hi%dget_elem). apply list_elem_of_fmap. exists (a, org). split; [done|].
    apply list_elem_of_fmap. by exists (i, (a, org)).
Qed.

(** the latest decision of each requested provider and source is the active one: looking
    the history up by time and by activity agree in every reachable store. *)
Theorem latest_alias_is_active digest24 ip_host calls keys :
  let d := fold_left (run_call digest24 ip_host) calls new_db in
  match latest_alias_decisions keys d with
  | Err _ => True
  | Ok m => ∀ k, k ∈ keys → dget m k = current_alias (db_aliases d) k
  end.
Proof.
  intros d. pose proof (dk_aliases d (calls_ok _ _ calls _ db_ok_new)) as Hok. unfold latest_alias_decisions.
  destruct (_ <? _)%Z; [done|]. intros k Hk.
  change (λ a b, if alias_key a ≡? alias_key b then decided_leb b a else alias_context_leb a b) with history_leb.
  set (l := sort_by history_leb _). pose proof (λ a, elem_of_history d keys a Hok) as Hl. fold l in Hl.
  destruct (dget _ k) as [a|] eqn:E.
  - apply dget_elem, list_elem_of_fmap in E as (b & [= -> <-] & Ha). symmetry.
    pose proof (elem_of_firsts _ _ _ _ Ha) as [Hal _]. apply Hl in Hal as [(i & org & Hi) _].
    apply (latest_is_active _ _ a i org Hok Hi eq_refl). intros j b ob Hj Hb.
    assert (history_leb a b = true) as H.
    { apply (firsts_least alias_key history_leb [] l); [| |done|apply Hl; split; [eauto|congruence]|done].
      - intros z. by destruct (history_leb_total z z).
      - apply sort_by_sorted; [apply history_leb_total|apply history_leb_trans]. }
    unfold history_leb in H. by rewrite bool_decide_eq_true_2 in H by done.
  - symmetry. apply dget_none in E. destruct (current_alias (db_aliases d) k) as [a|] eqn:Ec; [|done]. destruct E.
    apply current_alias_spec in Ec as (org & Hi & <- & _); [|done].
    destruct (firsts_complete alias_key [] l a) as (z & Hz & Hzk); [apply Hl; eauto|by intros ?%elem_of_nil|].
    apply list_elem_of_fmap. exists (alias_key z, z). split; [by rewrite <- Hzk|]. apply list_elem_of_fmap. eauto.
Qed.
