(* ===== verification/Identity.v ===== *)
(** * The caller's identity and its stored policy blobs

    The gateway reads the authenticated identity by attribute only; this file is that
    surface: the tenant ids, the stored catalog and routing policy blobs, the org
    allowlist, the adoptions, the price overrides and the credential scopes.
    [None] for a blob stands for a missing attribute and for an empty dict alike: every
    reader treats both the same way. *)

From S2P Require Import Prelude PyDict Catalog.

(** [identity.catalog_policy] *)
Record CatalogBlob := {
  mode : option string;
  models : list string;
  residency : list string;
  blob_default_model : option string;
}.

(** One custom task type [{name, desc, model}] of a routing policy. *)
Record CustomLabel := {
  cl_name : option string;
  cl_desc : option string;
  cl_model : option string;
}.

(** [fail_policy]: a scalar, or a per-reason matrix. *)
Inductive FailPolicy : Type :=
  | FPScalar (s : string)
  | FPMatrix (rows : list (string * string)).

Record TaxonomyRow := { tax_constraint : option string; tax_desc : option string }.

(** [{labels: {label: {constraint, desc}}, default}] *)
Record Taxonomy := {
  tax_labels : list (string * TaxonomyRow);
  tax_default : option string;
}.

Definition no_taxonomy : Taxonomy := {| tax_labels := []; tax_default := None |}.

(** The per-org cache knobs; an absent key inherits the global default. *)
Record CacheOverrides := {
  ov_auto_inject : option bool;
  ov_min_messages : option Z;
  ov_warmth_routing : option bool;
}.

Definition no_overrides : CacheOverrides :=
  {| ov_auto_inject := None; ov_min_messages := None; ov_warmth_routing := None |}.

(** [identity.routing_policy] *)
Record RoutingBlob := {
  bindings : list (string * string);
  blob_optimize : option string;
  blob_custom_labels : list CustomLabel;
  blob_stick_ttls : list (string * Q);
  blob_cache : CacheOverrides;
  blob_fail_policy : option FailPolicy;
  blob_taxonomy : Taxonomy;
  blob_classifier_model : option string;
  blob_optimizer_steers_tools : bool;
}.

Record Identity := {
  org_id : option string;
  team_id : option string;
  user_id : option string;
  catalog_policy : option CatalogBlob;
  routing_policy : option RoutingBlob;
  org_allowlist : option (gset string);
  catalog_adoptions : list (option CatalogEntry);
  price_overrides : gmap string PriceRow;
  provider_credential_scopes : option (list (string * option CredentialScopeRef));
  zero_retention : bool;
}.

(** A caller without identity: [getattr(None, ..., default)] everywhere. *)
Definition no_identity : Identity :=
  {| org_id := None; team_id := None; user_id := None; catalog_policy := None;
     routing_policy := None; org_allowlist := None; catalog_adoptions := [];
     price_overrides := ∅; provider_credential_scopes := None; zero_retention := false |}.

(** [Gateway.catalog_for(identity)] *)
Definition catalog_for (base : Catalog) (who : Identity) : Catalog :=
  effective_catalog base (catalog_adoptions who) (price_overrides who).
