(* ===== verification/Policy.v ===== *)
(** * Routing policy and the guard router ([routing/policy.py], [routing/decision.py])

    Hard constraints over the request's signal, the fail-closed catalog scope
    ([permits]), the data-classification taxonomy, the layering of a caller's stored
    overlays onto the global rules ([effective_policy]), the fail policy, and the
    router that applies guard and policy to an otherwise passthrough decision. *)

From S2P Require Import Prelude PyStr PyDict Catalog Identity.

(** ** Pipeline values ([pipeline.py]) *)

Inductive Action : Type := ALLOW | DOWNGRADE_LOCAL | BLOCK.

#[export] Instance Action_eq_dec : EqDecision Action.
Proof. solve_decision. Defined.

Definition action_str (a : Action) : string :=
  match a with ALLOW => "allow" | DOWNGRADE_LOCAL => "downgrade_local" | BLOCK => "block" end.

Record Signal := {
  intent : string;
  complexity : string;
  token_estimate : Z;
  has_tools : bool;
}.

Record GuardVerdict := { action : Action; reasons : list string }.

(** [GuardVerdict()] *)
Definition allow_verdict : GuardVerdict := {| action := ALLOW; reasons := [] |}.

Record RouterDecision := { model_id : string; reason : string }.

(** ** Rules *)

(** One rule of the YAML table; every key is optional. *)
Record Rule := {
  r_intent : option string;
  r_when : option string;
  r_residency : option string;
  r_lane : option string;
}.

(** ["residency"] and ["tier"], the two axes a rule can force. *)
Inductive ForcedKind : Type := FResidency | FTier.

(** [_target]: residency wins; a rule with neither key raises [KeyError('lane')]. *)
Definition target (r : Rule) : res string (ForcedKind * string) :=
  match r_residency r, r_lane r with
  | Some v, _ => Ok (FResidency, v)
  | None, Some l => Ok (FTier, l)
  | None, None => Err "lane"
  end.

(** ** The policy *)

Record Policy := {
  rules : list Rule;
  max_local_context : Z;
  catalog_mode : option string;
  catalog_models : list string;
  residency_allow : option (list string);
  p_org_allowlist : option (gset string);
  default_model : option string;
  label_bindings : list (string * string);
  optimize : option string;
  custom_labels : list CustomLabel;
  stick_ttls : list (string * Q);
  cache : CacheOverrides;
  fail_policy : FailPolicy;
  taxonomy : Taxonomy;
  classifier_model : option string;
  optimizer_steers_tools : bool;
}.

(** [Policy(_raw={"rules": ..., "max_local_context": ...})] *)
Definition raw_policy (rs : list Rule) (ctx : Z) : Policy :=
  {| rules := rs; max_local_context := ctx; catalog_mode := None; catalog_models := [];
     residency_allow := None; p_org_allowlist := None; default_model := None;
     label_bindings := []; optimize := None; custom_labels := []; stick_ttls := [];
     cache := no_overrides; fail_policy := FPScalar "open"; taxonomy := no_taxonomy;
     classifier_model := None; optimizer_steers_tools := false |}.

(** [Policy()]: the shipped [policy.yaml]. *)
Definition base_policy : Policy :=
  raw_policy
    [ {| r_intent := Some "redact"; r_when := None;
         r_residency := Some "in_perimeter"; r_lane := None |};
      {| r_intent := None; r_when := Some "mnpi";
         r_residency := Some "in_perimeter"; r_lane := None |} ]
    32768.

(** [x or None] on an optional string. *)
Definition nonempty (o : option string) : option string :=
  match o with Some s => if s ≡? "" then None else Some s | None => None end.

Definition from_catalog_scope (blob : option CatalogBlob) (base : option Policy) : Policy :=
  let p := match base with
           | Some b => raw_policy (rules b) (max_local_context b)
           | None => raw_policy [] 32768
           end in
  match blob with
  | None => p
  | Some b =>
      let scoped := match mode b with
                    | Some m => (m ≡? "allow") || (m ≡? "deny")
                    | None => false
                    end in
      {| rules := rules p; max_local_context := max_local_context p;
         catalog_mode := if scoped then mode b else None;
         catalog_models := if scoped then normalize_legacy_id <$> models b else [];
         residency_allow := match residency b with [] => None | l => Some l end;
         p_org_allowlist := None;
         default_model := normalize_legacy_id <$> nonempty (blob_default_model b);
         label_bindings := []; optimize := None; custom_labels := []; stick_ttls := [];
         cache := no_overrides; fail_policy := FPScalar "open"; taxonomy := no_taxonomy;
         classifier_model := None; optimizer_steers_tools := false |}
  end.

(** [Policy.permits]: the fail-closed catalog scope. *)
Definition permits (p : Policy) (e : CatalogEntry) : bool :=
  if match residency_allow p with
     | Some l => negb (residency_str (residency_class e) ∈? l)
     | None => false
     end then false
  else if match p_org_allowlist p with Some s => negb (id e ∈? s) | None => false end then false
  else match catalog_mode p with
       | Some m =>
           if m ≡? "allow" then id e ∈? catalog_models p
           else if m ≡? "deny" then negb (id e ∈? catalog_models p)
           else true
       | None => true
       end.

Inductive Constraint : Type := LocalOnly | Deny.

#[export] Instance Constraint_eq_dec : EqDecision Constraint.
Proof. solve_decision. Defined.

(** [Policy.taxonomy_constraint] *)
Definition taxonomy_constraint (p : Policy) (data_label : option string) : option Constraint :=
  let labels := tax_labels (taxonomy p) in
  let row := match nonempty data_label with Some l => dget labels l | None => None end in
  let row := match row with
             | Some r => Some r
             | None => match nonempty (tax_default (taxonomy p)) with
                       | Some d => dget labels d
                       | None => None
                       end
             end in
  match row with
  | Some r =>
      match tax_constraint r with
      | Some c => if c ≡? "local_only" then Some LocalOnly
                  else if c ≡? "deny" then Some Deny else None
      | None => None
      end
  | None => None
  end.

(** Whether a rule fires on a signal: by intent equality, or by keyword. *)
Definition rule_fires (s : Signal) (r : Rule) : bool :=
  match r_intent r with Some i => intent s ≡? i | None => false end
  || match r_when r with Some k => contains k (intent s) | None => false end.

(** [Policy.constrained] *)
Definition constrained (p : Policy) (s : Signal) : res string (option (ForcedKind * string)) :=
  match first_such (rule_fires s) (rules p) with
  | Some r => try! t := target r in Ok (Some t)
  | None => if (max_local_context p <? token_estimate s)%Z
            then Ok (Some (FTier, "frontier")) else Ok None
  end.

(** The keys [conflicts] indexes a rule under. *)
Definition rule_keys (r : Rule) : list string :=
  match r_intent r with Some i => ["intent:" +:+ i] | None => [] end
  ++ match r_when r with Some k => ["when:" +:+ k] | None => [] end.

Definition conflict_step (tgt : string) (acc : list (string * string) * list string)
    (key : string) : list (string * string) * list string :=
  let '(seen, found) := acc in
  match dget seen key with
  | Some old =>
      if old ≡? tgt then (dset seen key tgt, found)
      else (seen, found ++ ["conflict on " +:+ key +:+ ": " +:+ repr old +:+ " vs " +:+ repr tgt])
  | None => (dset seen key tgt, found)
  end.

Fixpoint conflicts_from (acc : list (string * string) * list string) (rs : list Rule)
    : res string (list (string * string) * list string) :=
  match rs with
  | [] => Ok acc
  | r :: rs =>
      try! t := target r in conflicts_from (foldl (conflict_step t.2) acc (rule_keys r)) rs
  end.

(** [Policy.conflicts] *)
Definition conflicts (p : Policy) : res string (list string) :=
  try! acc := conflicts_from ([], []) (rules p) in Ok acc.2.

(** ** Layering a caller's overlays *)

Definition repair_custom (c : CustomLabel) : CustomLabel :=
  match nonempty (cl_model c) with
  | Some m => {| cl_name := cl_name c; cl_desc := cl_desc c;
                 cl_model := Some (normalize_legacy_id m) |}
  | None => c
  end.

Definition with_allowlist (p : Policy) (allow : option (gset string)) : Policy :=
  {| rules := rules p; max_local_context := max_local_context p;
     catalog_mode := catalog_mode p; catalog_models := catalog_models p;
     residency_allow := residency_allow p; p_org_allowlist := allow;
     default_model := default_model p; label_bindings := label_bindings p;
     optimize := optimize p; custom_labels := custom_labels p; stick_ttls := stick_ttls p;
     cache := cache p; fail_policy := fail_policy p; taxonomy := taxonomy p;
     classifier_model := classifier_model p;
     optimizer_steers_tools := optimizer_steers_tools p |}.

Definition normal_fail_policy (fp : option FailPolicy) : FailPolicy :=
  match fp with
  | Some (FPMatrix m) => FPMatrix m
  | Some (FPScalar s) => if s ≡? "closed" then FPScalar "closed" else FPScalar "open"
  | None => FPScalar "open"
  end.

Definition with_routing (p : Policy) (b : RoutingBlob) : Policy :=
  {| rules := rules p; max_local_context := max_local_context p;
     catalog_mode := catalog_mode p; catalog_models := catalog_models p;
     residency_allow := residency_allow p; p_org_allowlist := p_org_allowlist p;
     default_model := default_model p;
     label_bindings := prod_map (λ k, k) normalize_legacy_id <$> bindings b;
     optimize := nonempty (blob_optimize b);
     custom_labels := repair_custom <$> blob_custom_labels b;
     stick_ttls := blob_stick_ttls b;
     cache := blob_cache b;
     fail_policy := normal_fail_policy (blob_fail_policy b);
     taxonomy := blob_taxonomy b;
     classifier_model := normalize_legacy_id <$> nonempty (blob_classifier_model b);
     optimizer_steers_tools := blob_optimizer_steers_tools b |}.

(** [effective_policy(identity, default)] *)
Definition effective_policy (who : Identity) (default : option Policy) : option Policy :=
  match catalog_policy who, routing_policy who, org_allowlist who with
  | None, None, None => default
  | cb, rb, allow =>
      let base := match default with Some d => d | None => base_policy end in
      let pol := from_catalog_scope cb (Some base) in
      let pol := match allow with Some _ => with_allowlist pol allow | None => pol end in
      Some (match rb with Some b => with_routing pol b | None => pol end)
  end.

(** [resolve_fail_policy(fail_policy, reason)]: [true] is ['closed']. *)
Definition resolve_fail_policy (fp : FailPolicy) (why : string) : bool :=
  match fp with
  | FPMatrix rows => match dget rows why with Some v => v ≡? "closed" | None => false end
  | FPScalar s => s ≡? "closed"
  end.

(** ** The guard router *)

(** [_first_in_perimeter] and the driver's [_first_in_perimeter_model]: a real box
    before a fake one. *)
Definition first_in_perimeter (c : Catalog) : option CatalogEntry :=
  first_such (λ e, (residency_class e ≡? in_perimeter) && negb (endpoint e ≡? "fake")) c
  orelse first_such (λ e, residency_class e ≡? in_perimeter) c.

Definition first_in_lane (c : Catalog) (l : string) : option CatalogEntry :=
  first_such (λ e, lane_str (lane e) ≡? l) c.

(** [GuardRouter.decide] with the router's own policy [own]. *)
Definition guard_decide (own : Policy) (req_model : string) (s : Signal) (v : GuardVerdict)
    (c : Catalog) (pol : option Policy) : res string RouterDecision :=
  let active := match pol with Some p => p | None => own end in
  let guarded := if action v ≡? DOWNGRADE_LOCAL then first_in_perimeter c else None in
  match guarded with
  | Some e => Ok {| model_id := id e; reason := "guard:downgrade_local" |}
  | None =>
      try! forced := constrained active s in
      let entry := match forced with
                   | Some (FResidency, _) => first_in_perimeter c
                   | Some (FTier, v) => first_in_lane c v
                   | None => None
                   end in
      match forced, entry with
      | Some (_, v), Some e => Ok {| model_id := id e; reason := "policy:" +:+ v |}
      | _, _ => Ok {| model_id := req_model; reason := "passthrough" |}
      end
  end.

(** ** Facts *)

Lemma first_in_perimeter_some c e :
  first_in_perimeter c = Some e → e ∈ c ∧ residency_class e = in_perimeter.
Proof.
  unfold first_in_perimeter. destruct (first_such _ c) as [x|] eqn:E.
  - intros [= <-]. apply first_such_some in E as [? H]. bool_to_prop. done.
  - intros [? H]%first_such_some. bool_to_prop. done.
Qed.

Lemma first_in_perimeter_none c :
  first_in_perimeter c = None ↔ ∀ e, e ∈ c → residency_class e = cloud.
Proof.
  unfold first_in_perimeter. split.
  - destruct (first_such _ c) as [x|]; [done|]. rewrite first_such_none.
    intros H e He. specialize (H e He). bool_to_prop. by destruct (residency_class e).
  - intros H. destruct (first_such _ c) as [x|] eqn:E.
    { apply first_such_some in E as [Hx Hr]. bool_to_prop. specialize (H x Hx). congruence. }
    apply first_such_none. intros e He. apply bool_decide_eq_false. rewrite (H e He). done.
Qed.

(** A fake box is picked only when there is no real one. *)
Lemma first_in_perimeter_real c e x :
  first_in_perimeter c = Some e → x ∈ c → residency_class x = in_perimeter →
  endpoint x ≠ "fake" → endpoint e ≠ "fake".
Proof.
  intros He Hx Hr Hf. unfold first_in_perimeter in He.
  destruct (first_such_is_some
    (λ e, (residency_class e ≡? in_perimeter) && negb (endpoint e ≡? "fake")) c x Hx) as [y Hy].
  { by rewrite Hr, bool_decide_eq_true_2, bool_decide_eq_false_2 by done. }
  rewrite Hy in He. injection He as <-. apply first_such_some in Hy as [_ ?]. by bool_to_prop.
Qed.

Lemma rules_from_scope cb b : rules (from_catalog_scope cb (Some b)) = rules b.
Proof. by destruct cb. Qed.

Lemma context_from_scope cb b :
  max_local_context (from_catalog_scope cb (Some b)) = max_local_context b.
Proof. by destruct cb. Qed.

(** The shape of the overlay [effective_policy] builds, whatever blobs are present. *)
Lemma effective_policy_shape who d p :
  effective_policy who d = Some p →
  d = Some p ∨
  ∃ base, base = match d with Some b => b | None => base_policy end ∧
    rules p = rules base ∧ max_local_context p = max_local_context base ∧
    p_org_allowlist p = org_allowlist who ∧
    catalog_mode p = catalog_mode (from_catalog_scope (catalog_policy who) (Some base)) ∧
    catalog_models p = catalog_models (from_catalog_scope (catalog_policy who) (Some base)) ∧
    residency_allow p = residency_allow (from_catalog_scope (catalog_policy who) (Some base)).
Proof.
  unfold effective_policy.
  destruct (catalog_policy who) as [cb|], (routing_policy who) as [rb|],
    (org_allowlist who) as [al|]; try by left.
  all: intros [= <-]; right; eexists; (split; [reflexivity|]); by repeat split.
Qed.

Lemma effective_policy_none who d :
  effective_policy who d = None →
  d = None ∧ org_allowlist who = None ∧ catalog_policy who = None ∧ routing_policy who = None.
Proof.
  unfold effective_policy.
  by destruct (catalog_policy who), (routing_policy who), (org_allowlist who).
Qed.

Lemma permits_allowlist p e s : permits p e = true → p_org_allowlist p = Some s → id e ∈ s.
Proof.
  unfold permits. intros H Hs. rewrite Hs in H. repeat case_match; try done; bool_to_prop; done.
Qed.

Lemma permits_mode_deny p e :
  permits p e = true → catalog_mode p = Some "deny" → id e ∉ catalog_models p.
Proof.
  unfold permits. intros H Hm. rewrite Hm in H. repeat case_match; simplify_eq; bool_to_prop; done.
Qed.

Lemma permits_mode_allow p e :
  permits p e = true → catalog_mode p = Some "allow" → id e ∈ catalog_models p.
Proof.
  unfold permits. intros H Hm. rewrite Hm in H. repeat case_match; simplify_eq; bool_to_prop; done.
Qed.

Lemma permits_residency p e l :
  permits p e = true → residency_allow p = Some l → residency_str (residency_class e) ∈ l.
Proof.
  unfold permits. intros H Hr. rewrite Hr in H. repeat case_match; try done; bool_to_prop; done.
Qed.

(** Whatever overlays a caller has, the policy the gateway enforces keeps the global
    hard constraints, permits nothing outside the org's approved set, nothing on the
    team's deny list (legacy ids repaired), nothing off its allow list and nothing
    outside its residency classes. *)
Theorem effective_policy_fail_closed who d p e :
  d ≠ Some p → effective_policy who d = Some p → permits p e = true →
  (∀ s, constrained p s = constrained (match d with Some b => b | None => base_policy end) s) ∧
  (∀ s, org_allowlist who = Some s → id e ∈ s) ∧
  (∀ b, catalog_policy who = Some b →
     (mode b = Some "deny" → id e ∉ normalize_legacy_id <$> models b) ∧
     (mode b = Some "allow" → id e ∈ normalize_legacy_id <$> models b) ∧
     (residency b ≠ [] → residency_str (residency_class e) ∈ residency b)).
Proof.
  intros Hd Hp Hpe.
  destruct (effective_policy_shape who d p Hp)
    as [?|(base & -> & Hr & Hc & Ha & Hm & Hms & Hra)]; [done|].
  split; [|split].
  - intros s. unfold constrained. by rewrite Hr, Hc.
  - intros s Hs. eapply permits_allowlist; [done|]. by rewrite Ha.
  - intros b Hb. rewrite Hb in Hm, Hms, Hra. cbn in *. split; [|split].
    + intros Hmode. rewrite Hmode in Hm, Hms.
      change (catalog_models p = normalize_legacy_id <$> models b) in Hms.
      rewrite <- Hms. by apply permits_mode_deny.
    + intros Hmode. rewrite Hmode in Hm, Hms.
      change (catalog_models p = normalize_legacy_id <$> models b) in Hms.
      rewrite <- Hms. by apply permits_mode_allow.
    + intros Hne. eapply permits_residency; [done|]. rewrite Hra. by destruct (residency b).
Qed.

(** A downgraded request lands on an in-perimeter model whenever the catalog has
    one, and on a real box rather than a fake one whenever it has a real one. *)
Theorem guard_downgrade_in_perimeter own m s v c pol e :
  NoDup (id <$> c) → action v = DOWNGRADE_LOCAL → e ∈ c → residency_class e = in_perimeter →
  ∃ d t, guard_decide own m s v c pol = Ok d ∧
    catalog_get c (model_id d) = Some t ∧ residency_class t = in_perimeter ∧
    (endpoint e ≠ "fake" → endpoint t ≠ "fake") ∧ reason d = "guard:downgrade_local".
Proof.
  intros Hnd Hv He Hr. unfold guard_decide. rewrite Hv, bool_decide_eq_true_2 by done.
  destruct (first_in_perimeter c) as [t|] eqn:E.
  - pose proof (first_in_perimeter_some _ _ E) as [Ht Hrt].
    eexists _, t. split; [done|]. cbn. split; [by apply catalog_get_nodup|].
    split; [done|]. split; [|done]. by apply (first_in_perimeter_real c t e).
  - rewrite first_in_perimeter_none in E. rewrite (E e He) in Hr. done.
Qed.

(** When no model is in-perimeter the downgrade is not enforced by the router: the
    requested model passes through unless a tier rule redirects it. *)
Theorem guard_downgrade_without_perimeter own m s v c pol f :
  action v = DOWNGRADE_LOCAL → (∀ e, e ∈ c → residency_class e = cloud) →
  constrained (match pol with Some p => p | None => own end) s = Ok f →
  (∀ l, f ≠ Some (FTier, l)) →
  guard_decide own m s v c pol = Ok {| model_id := m; reason := "passthrough" |}.
Proof.
  intros Hv Hc Hf Hl. apply first_in_perimeter_none in Hc. unfold guard_decide.
  rewrite Hv, bool_decide_eq_true_2, Hc, Hf by done. cbn.
  destruct f as [[[] l]|]; [done|by destruct (Hl l)|done].
Qed.

(** Two rules agree when they force the same target under every key they share. *)
Definition agree (r1 r2 : Rule) : Prop :=
  ∀ k t1 t2, k ∈ rule_keys r1 → k ∈ rule_keys r2 →
    target r1 = Ok t1 → target r2 = Ok t2 → t1.2 = t2.2.

Lemma conflict_steps_grow tgt ks acc acc' :
  foldl (conflict_step tgt) acc ks = acc' → acc'.2 = [] →
  acc.2 = [] ∧ (∀ k t, dget acc.1 k = Some t → dget acc'.1 k = Some t) ∧
  (∀ k, k ∈ ks → dget acc'.1 k = Some tgt).
Proof.
  revert acc. induction ks as [|k ks IH]; intros [seen found]; cbn [foldl].
  { intros <- Hf. split; [done|]. split; [done|]. by intros k ?%elem_of_nil. }
  intros Hfold Hnil. destruct (IH _ Hfold Hnil) as (Hf & Hkeep & Hks).
  unfold conflict_step in Hf, Hkeep. destruct (dget seen k) as [old|] eqn:Eo.
  - case_bool_decide as Ht; cbn in *.
    + subst old. split; [done|]. split.
      * intros k' t Hk'. apply Hkeep. destruct (decide (k' = k)) as [->|Hne].
        { rewrite dget_dset_eq. congruence. } { by rewrite dget_dset_ne. }
      * intros k' [->|Hk']%elem_of_cons; [apply Hkeep, dget_dset_eq|by apply Hks].
    + by destruct found.
  - cbn in *. split; [done|]. split.
    + intros k' t Hk'. apply Hkeep. rewrite dget_dset_ne; [done|]. intros ->. congruence.
    + intros k' [->|Hk']%elem_of_cons; [apply Hkeep, dget_dset_eq|by apply Hks].
Qed.

Lemma conflicts_from_grow rs acc acc' :
  conflicts_from acc rs = Ok acc' → acc'.2 = [] →
  acc.2 = [] ∧ (∀ k t, dget acc.1 k = Some t → dget acc'.1 k = Some t) ∧
  (∀ r k t, r ∈ rs → k ∈ rule_keys r → target r = Ok t → dget acc'.1 k = Some t.2).
Proof.
  revert acc. induction rs as [|r rs IH]; intros acc; cbn [conflicts_from].
  { intros [= <-] ?. split; [done|]. split; [done|]. by intros r k t ?%elem_of_nil. }
  intros (t & Ht & Hrec)%res_bind_ok Hnil.
  destruct (IH _ Hrec Hnil) as (Hf & Hkeep & Hall).
  destruct (conflict_steps_grow _ _ _ _ eq_refl Hf) as (Hf' & Hkeep' & Hks).
  split; [done|]. split; [eauto|]. intros r' k t' [->|Hr']%elem_of_cons Hk Ht'; [|eauto].
  rewrite Ht in Ht'. injection Ht' as <-. by apply Hkeep, Hks.
Qed.

(** Every remembered target was forced by one of the rules [rs]. *)
Definition seen_from (rs : list Rule) (seen : list (string * string)) : Prop :=
  ∀ k v, dget seen k = Some v → ∃ r t, r ∈ rs ∧ k ∈ rule_keys r ∧ target r = Ok t ∧ t.2 = v.

Lemma conflict_steps_quiet all r t ks seen :
  (∀ r1 r2, r1 ∈ all → r2 ∈ all → agree r1 r2) → r ∈ all → target r = Ok t →
  (∀ k, k ∈ ks → k ∈ rule_keys r) → seen_from all seen →
  ∃ seen', foldl (conflict_step t.2) (seen, []) ks = (seen', []) ∧ seen_from all seen'.
Proof.
  intros Hag Hr Ht. revert seen. induction ks as [|k ks IH]; intros seen Hks Hs; [by exists seen|].
  assert (seen_from all (dset seen k t.2)) as Hs'.
  { intros k' v Hk'. destruct (decide (k' = k)) as [->|Hne].
    - rewrite dget_dset_eq in Hk'. injection Hk' as <-. exists r, t.
      split; [done|]. split; [apply Hks; left|done].
    - rewrite dget_dset_ne in Hk' by done. by apply Hs. }
  assert (conflict_step t.2 (seen, []) k = (dset seen k t.2, [])) as Hstep.
  { unfold conflict_step. destruct (dget seen k) as [old|] eqn:Eo; [|done].
    destruct (Hs _ _ Eo) as (r' & t' & Hr' & Hk' & Ht' & <-).
    rewrite bool_decide_eq_true_2; [done|]. eapply (Hag r' r); try done. apply Hks. left. }
  cbn [foldl]. rewrite Hstep. apply IH; [|done]. intros k' Hk'. apply Hks. by right.
Qed.

Lemma conflicts_from_quiet all rs seen :
  (∀ r1 r2, r1 ∈ all → r2 ∈ all → agree r1 r2) →
  (∀ r, r ∈ rs → r ∈ all ∧ is_ok (target r) = true) → seen_from all seen →
  ∃ seen', conflicts_from (seen, []) rs = Ok (seen', []).
Proof.
  intros Hag. revert seen. induction rs as [|r rs IH]; intros seen Hrs Hs; [by exists seen|].
  cbn [conflicts_from]. destruct (Hrs r) as [Hr Hok]; [left|].
  destruct (target r) as [t|e] eqn:Ht; [|done]. cbn.
  destruct (conflict_steps_quiet all r t (rule_keys r) seen) as (s' & -> & Hs'); try done.
  apply IH; [|done]. intros r' Hr'. apply Hrs. by right.
Qed.

(** [conflicts] is an exact consistency check: it reports nothing precisely when no
    two rules force different targets under a key they share. *)
Theorem conflicts_exact p :
  (∀ r, r ∈ rules p → is_ok (target r) = true) →
  conflicts p = Ok [] ↔ ∀ r1 r2, r1 ∈ rules p → r2 ∈ rules p → agree r1 r2.
Proof.
  intros Hok. unfold conflicts. split.
  - intros ([seen' found'] & Hc & [= Hf])%res_bind_ok r1 r2 H1 H2 k t1 t2 Hk1 Hk2 Ht1 Ht2.
    destruct (conflicts_from_grow _ _ _ Hc Hf) as (_ & _ & Hall).
    pose proof (Hall r1 k t1 H1 Hk1 Ht1). pose proof (Hall r2 k t2 H2 Hk2 Ht2). congruence.
  - intros Hag. destruct (conflicts_from_quiet (rules p) (rules p) []) as [seen' ->]; [done| |done|done].
    auto.
Qed.

(** ** Witnesses *)

Definition demo_identity : Identity :=
  {| org_id := Some "acme"; team_id := Some "t"; user_id := Some "u";
     catalog_policy := Some {| mode := Some "deny"; models := ["gpt-frontier"];
                               residency := ["cloud"]; blob_default_model := None |};
     routing_policy := None; org_allowlist := Some {["gpt"; "local"]};
     catalog_adoptions := []; price_overrides := ∅;
     provider_credential_scopes := None; zero_retention := false |}.

Definition demo_policy : Policy :=
  match effective_policy demo_identity None with Some p => p | None => base_policy end.

Definition demo_signal : Signal :=
  {| intent := "chat"; complexity := "low"; token_estimate := 5; has_tools := false |}.

Lemma effective_policy_fail_closed_witness :
  id demo_cloud ∈ ({["gpt"; "local"]} : gset string) ∧
  id demo_cloud ∉ normalize_legacy_id <$> ["gpt-frontier"].
Proof.
  destruct (effective_policy_fail_closed demo_identity None demo_policy demo_cloud)
    as (_ & Ha & Hb); [done|reflexivity|vm_compute; reflexivity|].
  split; [by apply Ha|]. by apply (Hb _ eq_refl).
Defined.

Definition demo_downgrade : GuardVerdict := {| action := DOWNGRADE_LOCAL; reasons := [] |}.

Lemma guard_downgrade_in_perimeter_witness :
  ∃ d t, guard_decide base_policy "gpt" demo_signal demo_downgrade demo_catalog None = Ok d ∧
    catalog_get demo_catalog (model_id d) = Some t ∧ residency_class t = in_perimeter ∧
    (endpoint demo_local ≠ "fake" → endpoint t ≠ "fake") ∧ reason d = "guard:downgrade_local".
Proof.
  apply (guard_downgrade_in_perimeter base_policy "gpt" demo_signal demo_downgrade demo_catalog
           None demo_local); [vm_decide|done|right; left|done].
Defined.

Lemma guard_downgrade_without_perimeter_witness :
  guard_decide base_policy "gpt" demo_signal demo_downgrade [demo_cloud] None
  = Ok {| model_id := "gpt"; reason := "passthrough" |}.
Proof.
  apply (guard_downgrade_without_perimeter base_policy "gpt" demo_signal demo_downgrade
           [demo_cloud] None None); [done| |vm_compute; reflexivity|done].
  intros e ->%list_elem_of_singleton. done.
Defined.

Lemma conflicts_exact_witness :
  conflicts base_policy = Ok [] ↔
  ∀ r1 r2, r1 ∈ rules base_policy → r2 ∈ rules base_policy → agree r1 r2.
Proof.
  apply (conflicts_exact base_policy). intros r Hr.
  repeat (apply elem_of_cons in Hr as [->|Hr]; [done|]). by apply elem_of_nil in Hr.
Defined.
