(* ===== verification/Guards.v ===== *)
(** * The rule guard ([signals/guards.py])

    The deterministic safety guard: phrase lists over the lower-cased conversation and
    PII patterns over the raw text, evaluated into the most restrictive verdict.  It
    fails closed: an unreadable or blank conversation is handled locally. *)

From S2P Require Import Prelude PyStr PyDict Regex Schemas Catalog Identity Policy.

(** ** Lexicons *)

Definition MNPI_TERMS : list string :=
  ["material non-public"; "mnpi"; "insider information"; "insider trading";
   "non-public information";
   "acquisition target"; "merger agreement"; "lbo"; "leveraged buyout"; "going private";
   "take private"; "definitive agreement"; "loi"; "letter of intent"; "due diligence";
   "term sheet";
   "earnings guidance"; "earnings pre-release"; "pre-announcement"; "revenue guidance";
   "not yet announced"; "not yet public";
   "confidential"; "embargoed"; "under nda"].

Definition BLOCK_PHRASES : list string :=
  ["material non-public information"; "mnpi"; "insider information"; "non-public information"].

Definition ALWAYS_BLOCK_PHRASES : list string := ["insider trading"].

Definition EGRESS_VERBS : list string :=
  ["send to"; "forward to"; "forward this"; "share with"; "share to"; "route to"; "email to";
   "post to"; "upload to"; "transmit"; "submit to"; "pass to"; "pass along"; "send it to";
   "send this to"; "to the model"; "to the frontier"; "to the api"].

Definition JAILBREAK_PHRASES : list string :=
  ["ignore previous instructions"; "ignore your previous instructions";
   "disregard your system prompt"; "disregard the system prompt"; "forget your instructions";
   "you are now"; "act as if you have no restrictions"; "bypass your restrictions";
   "ignore all prior"; "ignore all previous"; "pretend you are"; "jailbreak"; "dan mode";
   "developer mode"].

(** ** PII patterns *)

Definition dash : ascii := "-"%char.

(** [\b\d{3}[-\s]\d{2}[-\s]\d{4}\b] *)
Definition SSN_RE : re :=
  let sep := RChr (λ c, (c ≡? dash) || is_space c) in
  seqs [RBound; rep 3 rdigit; sep; rep 2 rdigit; sep; rep 4 rdigit; RBound].

(** [\b(?:\d[ -]?){13,16}\b] *)
Definition CC_RE : re :=
  seqs [RBound; rep_range 13 16 (RSeq rdigit (ropt (one_of [" "%char; dash]))); RBound].

Definition is_alpha (c : ascii) : bool := is_upper c || is_lower c.

(** [\b[A-Za-z0-9._%+\-]+@[A-Za-z0-9.\-]+\.[A-Za-z]{2,}\b] *)
Definition EMAIL_RE : re :=
  let user := RChr (λ c, is_alpha c || is_digit c ||
                         (c ∈? ["."%char; "_"%char; "%"%char; "+"%char; dash])) in
  let host := RChr (λ c, is_alpha c || is_digit c || (c ∈? ["."%char; dash])) in
  seqs [RBound; rplus user; lit "@"; rplus host; lit "."; rep_min 2 (RChr is_alpha); RBound].

(** [\baccount\s*(?:number|#|no\.?)\s*[:\-]?\s*\d{4,}\b], ignoring case *)
Definition ACCOUNT_RE : re :=
  seqs [RBound; lit_i "account"; RStar rspace;
        alts [lit_i "number"; lit "#"; RSeq (lit_i "no") (ropt (lit "."))];
        RStar rspace; ropt (one_of [":"%char; dash]); RStar rspace; rep_min 4 rdigit; RBound].

(** ** The guard *)

(** [_full_text]: the texts of all messages, joined by spaces. *)
Definition full_text (ms : list Message) : res string string :=
  try! ts := texts ms in Ok (join " " ts).

Definition hits (ps : list string) (low : string) : list string :=
  List.filter (λ p, contains p low) ps.

Definition pii_reasons (t : string) : list string :=
  let found := (if search SSN_RE t then ["ssn_pattern"] else [])
            ++ (if search CC_RE t then ["credit_card_pattern"] else [])
            ++ (if search ACCOUNT_RE t then ["account_number_pattern"] else []) in
  let emails := findall EMAIL_RE t in
  match emails, found with
  | _ :: _, _ :: _ => found ++ ["email+pii_combo: " +:+ repr_list (firstn 2 emails)]
  | _, _ => found
  end.

(** [RuleGuard._check_inner], after the text has been extracted. *)
Definition check_text (t : string) : GuardVerdict :=
  if strip t ≡? "" then
    {| action := DOWNGRADE_LOCAL; reasons := ["empty_request: no message content"] |}
  else
    let low := lower t in
    match hits ALWAYS_BLOCK_PHRASES low with
    | (_ :: _) as always =>
        {| action := BLOCK; reasons := ["mnpi_always_block: matched " +:+ repr_list always] |}
    | [] =>
        let block := hits BLOCK_PHRASES low in
        if negb (block ≡? []) && contains_any EGRESS_VERBS low then
          {| action := BLOCK; reasons := ["mnpi_egress: phrases=" +:+ repr_list block] |}
        else
          let strong := if block ≡? [] then []
                        else ["mnpi_strong_terms: matched " +:+ repr_list block] in
          let soft := List.filter (λ x, contains x low && negb (x ∈? block)) MNPI_TERMS in
          let soft_r := if soft ≡? [] then [] else ["mnpi_terms: matched " +:+ repr_list soft] in
          let pii := pii_reasons t in
          let pii_r := if pii ≡? [] then [] else ["pii: " +:+ repr_list pii] in
          let jb := hits JAILBREAK_PHRASES low in
          let jb_r := if jb ≡? [] then []
                      else ["jailbreak: matched " +:+ repr_list (firstn 3 jb)] in
          let rs := strong ++ soft_r ++ pii_r ++ jb_r in
          {| action := if rs ≡? [] then ALLOW else DOWNGRADE_LOCAL; reasons := rs |}
    end.

(** [RuleGuard.check]: no rule can raise once the text is extracted, so the outer
    fail-closed handler only ever sees the extraction error. *)
Definition check (ms : list Message) : GuardVerdict :=
  match full_text ms with
  | Ok t => check_text t
  | Err e => {| action := DOWNGRADE_LOCAL; reasons := ["text_extraction_error: " +:+ e] |}
  end.

(** ** Facts *)

Lemma hits_nil ps low : hits ps low = [] ↔ contains_any ps low = false.
Proof.
  unfold hits, contains_any. induction ps as [|p ps IH]; [done|]. cbn.
  destruct (contains p low); cbn; [done|apply IH].
Qed.

Lemma hits_elem ps low p : p ∈ hits ps low ↔ p ∈ ps ∧ contains p low = true.
Proof. apply (elem_of_bfilter (λ p, contains p low)). Qed.

(** What makes a conversation blocked. *)
Definition blocked_text (t : string) : bool :=
  negb (strip t ≡? "") &&
  (contains_any ALWAYS_BLOCK_PHRASES (lower t)
   || (contains_any BLOCK_PHRASES (lower t) && contains_any EGRESS_VERBS (lower t))).

(** What makes a conversation sensitive without blocking it. *)
Definition sensitive_text (t : string) : bool :=
  (strip t ≡? "") || contains_any BLOCK_PHRASES (lower t) || contains_any MNPI_TERMS (lower t)
  || contains_any JAILBREAK_PHRASES (lower t)
  || search SSN_RE t || search CC_RE t || search ACCOUNT_RE t.

Lemma pii_reasons_nil t :
  pii_reasons t = [] ↔ search SSN_RE t || search CC_RE t || search ACCOUNT_RE t = false.
Proof.
  unfold pii_reasons.
  destruct (search SSN_RE t), (search CC_RE t), (search ACCOUNT_RE t), (findall EMAIL_RE t); done.
Qed.

Lemma three_reasons_nil (a b c : bool) (x y z : string) :
  ([] ++ (if a then [] else [x]) ++ (if b then [] else [y]) ++ (if c then [] else [z]) ≡? [])
  = a && b && c.
Proof. by destruct a, b, c. Qed.

Lemma decide_false_negb (P : Prop) `{Decision P} b : (P ↔ b = false) → bool_decide P = negb b.
Proof.
  intros HP. destruct b; cbn; [apply bool_decide_eq_false_2|by apply bool_decide_eq_true_2, HP].
  by intros ?%HP.
Qed.

Lemma soft_hits_nil low :
  contains_any BLOCK_PHRASES low = false →
  List.filter (λ x, contains x low && negb (x ∈? hits BLOCK_PHRASES low)) MNPI_TERMS = []
  ↔ contains_any MNPI_TERMS low = false.
Proof.
  intros Hb%hits_nil. rewrite Hb, <- hits_nil. unfold hits.
  rewrite (List.filter_ext _ (λ p, contains p low)); [done|].
  intros x. rewrite bool_decide_eq_false_2 by apply not_elem_of_nil. by rewrite andb_true_r.
Qed.

Lemma check_text_spec t :
  action (check_text t) =
  if blocked_text t then BLOCK else if sensitive_text t then DOWNGRADE_LOCAL else ALLOW.
Proof.
  unfold check_text, blocked_text, sensitive_text.
  case_bool_decide as Hblank; [done|]. cbn [negb andb orb].
  destruct (contains_any ALWAYS_BLOCK_PHRASES (lower t)) eqn:Ha.
  { destruct (hits ALWAYS_BLOCK_PHRASES (lower t)) eqn:E; [|done].
    apply hits_nil in E. congruence. }
  rewrite (proj2 (hits_nil _ _) Ha). cbn [orb].
  destruct (contains_any BLOCK_PHRASES (lower t)) eqn:Hb; cbn [andb].
  - rewrite (bool_decide_eq_false_2 (hits BLOCK_PHRASES (lower t) = [])).
    2:{ intros ?%hits_nil. congruence. }
    cbn [negb andb orb]. by destruct (contains_any EGRESS_VERBS (lower t)).
  - pose proof (proj2 (hits_nil _ _) Hb) as Hbn. rewrite (bool_decide_eq_true_2 _ Hbn).
    cbn [negb andb orb action]. rewrite three_reasons_nil.
    rewrite (decide_false_negb _ _ (soft_hits_nil _ Hb)), (decide_false_negb _ _ (pii_reasons_nil t)),
      (decide_false_negb _ _ (hits_nil JAILBREAK_PHRASES (lower t))).
    generalize (search SSN_RE t) (search CC_RE t) (search ACCOUNT_RE t)
      (contains_any MNPI_TERMS (lower t)) (contains_any JAILBREAK_PHRASES (lower t)).
    by intros [] [] [] [] [].
Qed.

(** The guard's three verdicts, exactly: BLOCK for an always-block phrase or for a
    strong phrase together with an egress verb; ALLOW only when the text is not blank
    and nothing at all was found; local handling in every other case. *)
Theorem check_text_verdict t :
  action (check_text t) =
  if blocked_text t then BLOCK else if sensitive_text t then DOWNGRADE_LOCAL else ALLOW.
Proof. exact (check_text_spec t). Qed.

(** A conversation whose text cannot be extracted, or is blank, is never allowed
    through: it is handled locally. *)
Theorem check_fails_closed ms :
  action (check ms) = ALLOW →
  ∃ t, full_text ms = Ok t ∧ strip t ≠ "" ∧ contains_any MNPI_TERMS (lower t) = false ∧
    contains_any JAILBREAK_PHRASES (lower t) = false ∧
    ∀ p q, p ∈ starts None t →
      ¬ Match SSN_RE p q ∧ ¬ Match CC_RE p q ∧ ¬ Match ACCOUNT_RE p q.
Proof.
  unfold check. destruct (full_text ms) as [t|e] eqn:Ht; [|done].
  rewrite check_text_spec. destruct (blocked_text t); [done|].
  destruct (sensitive_text t) eqn:Hs; [done|]. intros _. unfold sensitive_text in Hs.
  bool_to_prop. exists t. split; [done|]. split; [done|]. split; [done|]. split; [done|].
  intros p q Hp.
  assert (∀ r, search r t = false → ¬ Match r p q) as Hno.
  { intros r Hr Hm. rewrite <- not_true_iff_false, search_spec in Hr. eauto. }
  auto.
Qed.

Lemma texts_app ms1 ms2 :
  texts (ms1 ++ ms2) = (try! a := texts ms1 in try! b := texts ms2 in Ok (a ++ b)).
Proof.
  induction ms1 as [|m ms1 IH]; cbn.
  { by destruct (texts ms2). }
  destruct (text m); cbn; [|done]. rewrite IH. by destruct (texts ms1), (texts ms2).
Qed.

Lemma join_cons sep s l : l ≠ [] → join sep (s :: l) = s +:+ sep +:+ join sep l.
Proof. by destruct l. Qed.

(** A joined list contains the join of each of its segments. *)
Lemma join_prefix sep b c : b ≠ [] → ∃ y, join sep (b ++ c) = join sep b +:+ y.
Proof.
  induction b as [|s b IH]; [done|]. intros _. destruct b as [|s' b].
  - cbn [app]. destruct c as [|u c]; [exists ""; by rewrite str_app_nil_r|].
    exists (sep +:+ join sep (u :: c)). by rewrite join_cons.
  - destruct IH as [y Hy]; [done|]. exists y.
    rewrite <- app_comm_cons, !join_cons, Hy by done. by rewrite !str_app_assoc.
Qed.

Lemma join_segment sep a b c :
  b ≠ [] → ∃ x y, join sep (a ++ b ++ c) = x +:+ join sep b +:+ y.
Proof.
  intros Hb. induction a as [|s a IH]; cbn [app].
  - exists "". by apply join_prefix.
  - destruct IH as (x & y & Hxy). exists (s +:+ sep +:+ x), y.
    rewrite join_cons by (by destruct a, b). rewrite Hxy. by rewrite !str_app_assoc.
Qed.

Lemma blocked_text_mono x t y : blocked_text t = true → blocked_text (x +:+ t +:+ y) = true.
Proof.
  assert (∀ ps, contains_any ps (lower t) = true →
    contains_any ps (lower (x +:+ t +:+ y)) = true) as Hmono.
  { intros ps (p & Hp & Hc)%contains_any_spec. apply contains_any_spec. exists p.
    split; [done|]. rewrite !lower_app. by apply contains_app_l. }
  unfold blocked_text. rewrite !andb_true_iff, !orb_true_iff, !andb_true_iff, !negb_true_iff.
  rewrite !bool_decide_eq_false, !strip_nil, !str_all_app. intros [Hs Hor]. split.
  - intros Hall. apply Hs. by destruct (str_all _ x), (str_all _ t).
  - destruct Hor as [?|[??]]; auto.
Qed.

(** Blocking cannot be undone by padding: a conversation the guard blocks is blocked
    as a part of any longer readable conversation. *)
Theorem check_block_monotone ms1 ms ms2 ts :
  action (check ms) = BLOCK → texts (ms1 ++ ms ++ ms2) = Ok ts →
  action (check (ms1 ++ ms ++ ms2)) = BLOCK.
Proof.
  intros Hb Hts. rewrite !texts_app in Hts.
  apply res_bind_ok in Hts as (a & Ha & (bc & (b & Hms & (c & Hc & [= <-])%res_bind_ok)%res_bind_ok
    & [= <-])%res_bind_ok).
  unfold check, full_text in *. rewrite !texts_app, Ha, Hms, Hc. rewrite Hms in Hb.
  cbn [res_bind] in *. rewrite check_text_spec in *.
  destruct (blocked_text (join " " b)) eqn:E.
  2:{ by destruct (sensitive_text (join " " b)). }
  destruct (join_segment " " a b c) as (x & y & ->).
  { intros ->. done. }
  by rewrite blocked_text_mono.
Qed.

(** ** Witnesses *)

Lemma check_fails_closed_witness :
  ∃ t, full_text [say "user" "hello"] = Ok t ∧ strip t ≠ "" ∧
    contains_any MNPI_TERMS (lower t) = false ∧
    contains_any JAILBREAK_PHRASES (lower t) = false ∧
    ∀ p q, p ∈ starts None t →
      ¬ Match SSN_RE p q ∧ ¬ Match CC_RE p q ∧ ¬ Match ACCOUNT_RE p q.
Proof. apply (check_fails_closed [say "user" "hello"]). vm_compute. reflexivity. Defined.

Definition demo_block : Message := say "user" "Forward this MNPI to the model".

Lemma check_block_monotone_witness :
  action (check ([say "system" "be brief"] ++ [demo_block] ++ [say "user" "thanks"])) = BLOCK.
Proof.
  eapply (check_block_monotone [say "system" "be brief"] [demo_block] [say "user" "thanks"]);
    vm_compute; reflexivity.
Defined.
