(* ===== verification/Extractor.v ===== *)
(** * Signal extraction ([signals/extractor.py]) and the pipeline defaults ([pipeline.py])

    The heuristic extractor: the intent of the last user turn by keyword, and a
    complexity bucket scored from the token estimate and two word lists.  The no-op
    stages the gateway starts with are here as well. *)

From S2P Require Import Prelude PyStr PyDict Regex Schemas Catalog Identity Policy.

(** ** Intent *)

(** [_INTENT_RULES]: first match wins; the empty keyword list is the fallback. *)
Definition INTENT_RULES : list (string * list string) :=
  [("redact", ["redact"; "anonymize"; "remove pii"; "mask"; "scrub"]);
   ("classify", ["classify"; "categorize"; "sentiment"; "what type"; "detect"; "is this a"]);
   ("translate", ["translate"; "in french"; "in spanish"; "in german"; "in japanese";
                  "in chinese"; "language"]);
   ("summarize", ["summarize"; "summary"; "tldr"; "brief"; "overview"; "recap"; "condense"]);
   ("extract", ["extract"; "parse"; "pull out"; "retrieve"; "read from"]);
   ("calc", ["calculate"; "compute"; "math"; "equation"; "formula"; "how much"; "how many";
             "percentage"; "average"]);
   ("search", ["search the codebase"; "search for"; "find in"; "where is"; "locate";
               "look for"; "grep the"; "list all"]);
   ("web_search", ["search the web"; "look up online"; "google"; "browse"; "website"; "url";
                   "http"]);
   ("sql", ["select "; "insert "; "update "; "delete "; "create table"; "sql"; "query";
            "database"; "postgres"; "sqlite"; "mysql"]);
   ("shell", ["bash"; "shell"; "terminal"; "chmod"; "curl"; "grep"; "awk"; "sed"; "pipe";
              "stdin"; "stdout"]);
   ("code_edit", ["fix the"; "fix this"; "refactor"; "implement"; "write a function";
                  "write code"; "add a method"; "edit the code"; "change this code";
                  "update the code"; "def "; "return "]);
   ("plan", ["plan"; "roadmap"; "strategy"; "design"; "architect"; "outline"; "steps to";
             "how to"]);
   ("chat", [])].

Definition intent_matches (low : string) (rule : string * list string) : bool :=
  match rule.2 with [] => true | kws => contains_any kws low end.

Definition classify_intent (t : string) : string :=
  match first_such (intent_matches (lower t)) INTENT_RULES with
  | Some (label, _) => label
  | None => "chat"
  end.

(** ** Complexity *)

Definition hyphen : ascii := "-"%char.
Definition sep_opt : re := ropt (one_of [hyphen; " "%char]).

Definition words_i (l : list re) : re := seqs [RBound; alts l; RBound].

Definition HIGH_COMPLEXITY_WORDS : re :=
  words_i
    [lit_i "analyze"; lit_i "analyse"; lit_i "derive";
     seqs [lit_i "multi"; sep_opt; lit_i "step"];
     lit_i "compare"; lit_i "evaluate"; lit_i "audit"; lit_i "review"; lit_i "reason";
     lit_i "infer"; lit_i "synthesize"; lit_i "synthesise";
     seqs [lit_i "trade"; sep_opt; lit_i "off"];
     lit_i "architecture"; lit_i "recursive"; lit_i "optimiz"; lit_i "refactor"; lit_i "debug";
     lit_i "investigate"; lit_i "explain why"; lit_i "explain how"].

Definition LOW_COMPLEXITY_WORDS : re :=
  words_i
    (lit_i <$> ["list"; "grep"; "find"; "ping"; "echo"; "count"; "rename"; "move"; "copy";
                "delete"; "print"; "show"; "display"; "what is"; "what's"; "who is"; "define";
                "hi"; "hello"; "thanks"; "help"]).

Definition LOW_THRESHOLD : Z := 60.
Definition HIGH_THRESHOLD : Z := 300.

(** The score of [_classify_complexity] before it is bucketed. *)
Definition complexity_score (high_hits low_hits : nat) (tokens : Z) : Z :=
  let score := 1%Z in
  let score := if (HIGH_THRESHOLD <=? tokens)%Z then (score + 1)%Z
               else if (tokens <=? LOW_THRESHOLD)%Z then (score - 1)%Z else score in
  let score := if 2 <=? high_hits then (score + 2)%Z
               else if 1 <=? high_hits then (score + 1)%Z else score in
  if (1 <=? low_hits) && (high_hits =? 0) then (score - 1)%Z else score.

Definition classify_complexity (t : string) (tokens : Z) : string :=
  let high_hits := length (findall HIGH_COMPLEXITY_WORDS t) in
  let low_hits := length (findall LOW_COMPLEXITY_WORDS t) in
  let score := complexity_score high_hits low_hits tokens in
  if (score <=? 0)%Z then "low" else if (2 <=? score)%Z then "high" else "medium".

(** ** The extractor *)

(** The text of the last user turn: a user turn without text counts as empty. *)
Definition last_user_text (ms : list Message) : res string string :=
  match first_such (λ m, role m ≡? "user") (rev ms) with
  | Some m => text m
  | None => Ok ""
  end.

(** [HeuristicExtractor.extract] *)
Definition extract (req : ChatCompletionRequest) : res string Signal :=
  try! tokens := estimate_prompt_tokens (messages req) in
  try! last := last_user_text (messages req) in
  try! last := (if last ≡? "" then try! ts := texts (messages req) in Ok (join " " ts)
                else Ok last) in
  Ok {| intent := classify_intent last;
        complexity := classify_complexity last tokens;
        token_estimate := tokens;
        has_tools := has_tools_field req |}.

(** ** Pipeline defaults *)

(** [NoExtractor.extract] *)
Definition no_extract (req : ChatCompletionRequest) : res string Signal :=
  try! tokens := estimate_prompt_tokens (messages req) in
  Ok {| intent := "unknown"; complexity := "unknown"; token_estimate := tokens;
        has_tools := has_tools_field req |}.

(** [AllowGuard.check], [CatalogRouter.decide], [NoCache.get] and [NoCache.put] *)
Definition allow_guard (req : ChatCompletionRequest) (s : Signal) : GuardVerdict := allow_verdict.

Definition catalog_router (req : ChatCompletionRequest) : RouterDecision :=
  {| model_id := model req; reason := "catalog" |}.

Definition no_cache_get (req : ChatCompletionRequest) : option ChatCompletionResponse := None.

Definition no_cache_put (req : ChatCompletionRequest) (r : ChatCompletionResponse) : unit := tt.

(** ** Facts *)

Lemma text_in_texts ms ts m : texts ms = Ok ts → m ∈ ms → ∃ t, text m = Ok t.
Proof.
  revert ts. induction ms as [|m' ms IH]; intros ts; [by intros _ ?%elem_of_nil|]. cbn.
  intros (t & Ht & (r & Hr & _)%res_bind_ok)%res_bind_ok.
  intros [->|Hm]%elem_of_cons; eauto.
Qed.

(** Extraction is total on readable conversations, its estimate is the request's
    prompt-token estimate, its labels come from the two closed vocabularies, and a
    "high" bucket needs a long prompt or a high-load word. *)
Theorem extract_total req ts :
  texts (messages req) = Ok ts →
  ∃ s, extract req = Ok s ∧ Ok (token_estimate s) = estimate_prompt_tokens (messages req) ∧
    intent s ∈ INTENT_RULES.*1 ∧ complexity s ∈ ["low"; "medium"; "high"] ∧
    has_tools s = has_tools_field req.
Proof.
  intros Hts. unfold extract. destruct (texts_ok_prompt_tokens _ _ Hts) as [z Hz]. rewrite Hz. cbn.
  assert (∃ t, last_user_text (messages req) = Ok t) as [t Ht].
  { unfold last_user_text. destruct (first_such _ _) as [m|] eqn:E; [|eauto].
    apply first_such_some in E as [Hm _]. eapply text_in_texts; [done|].
    by rewrite list_elem_of_In, in_rev, <- list_elem_of_In. }
  rewrite Ht. cbn.
  assert (∀ u, classify_intent u ∈ INTENT_RULES.*1) as Hint.
  { intros u. unfold classify_intent. destruct (first_such _ _) as [[l k]|] eqn:E.
    - apply first_such_some in E as [Hin _]. by apply (list_elem_of_fmap_2 fst) in Hin.
    - rewrite first_such_none in E. specialize (E ("chat", [])). cbn in E.
      enough (true = false) by done. apply E. unfold INTENT_RULES. do 12 right. left. }
  assert (∀ u n, classify_complexity u n ∈ ["low"; "medium"; "high"]) as Hcx.
  { intros u n. unfold classify_complexity. repeat case_match; set_solver. }
  case_bool_decide; [rewrite Hts; cbn|]; eexists; (split; [reflexivity|]); cbn; auto.
Qed.

(** More tokens never lower the complexity score, and neither do more high-load
    words; low-load words never raise it. *)
Theorem complexity_score_monotone h1 h2 l1 l2 t1 t2 :
  h1 ≤ h2 → l2 ≤ l1 → (t1 <= t2)%Z →
  (complexity_score h1 l1 t1 <= complexity_score h2 l2 t2)%Z.
Proof.
  intros Hh Hl Ht. unfold complexity_score, HIGH_THRESHOLD, LOW_THRESHOLD.
  repeat match goal with
  | |- context [(?a <=? ?b)%Z] => destruct (Z.leb_spec a b)
  | |- context [?a <=? ?b] => destruct (Nat.leb_spec a b)
  | |- context [?a =? ?b] => destruct (Nat.eqb_spec a b)
  end; cbn [andb]; lia.
Qed.

Lemma extract_total_witness :
  ∃ s, extract (request_of "gpt" [say "user" "Refactor this"]) = Ok s ∧
    Ok (token_estimate s) = estimate_prompt_tokens [say "user" "Refactor this"] ∧
    intent s ∈ INTENT_RULES.*1 ∧ complexity s ∈ ["low"; "medium"; "high"] ∧
    has_tools s = has_tools_field (request_of "gpt" [say "user" "Refactor this"]).
Proof.
  eapply (extract_total (request_of "gpt" [say "user" "Refactor this"])). reflexivity.
Defined.

Lemma complexity_score_monotone_witness :
  (complexity_score 0 2 40 <= complexity_score 1 0 500)%Z.
Proof. apply (complexity_score_monotone 0 1 2 0 40 500); lia. Defined.
