(* ===== verification/Breaker.v ===== *)
(** * The per-provider circuit breaker ([breaker.py])

    [CircuitBreaker] as an explicit-state machine keyed by provider: the concrete
    three-state breaker, the shared Redis tier behind an interface, and an abstract
    specification over the history of outcomes that the breaker is proved to refine. *)

From S2P Require Import Prelude PyStr PyDict.

(** ** Provider keys *)

Definition is_scheme_char (c : ascii) : bool :=
  is_upper c || is_lower c || is_digit c || (c ∈? ["+"%char; "-"%char; "."%char]).

(** [s[:i], s[i+1:]] at the first [c]. *)
Fixpoint cut_at (c : ascii) (s : string) : option (string * string) :=
  match s with
  | EmptyString => None
  | String a s =>
      if a ≡? c then Some ("", s)
      else match cut_at c s with Some (x, y) => Some (String a x, y) | None => None end
  end.

Fixpoint filter_str (f : ascii → bool) (s : string) : string :=
  match s with EmptyString => "" | String c s => if f c then String c (filter_str f s) else filter_str f s end.

Fixpoint drop_ctrl (s : string) : string :=
  match s with String c s' => if code c <=? 32 then drop_ctrl s' else s | EmptyString => "" end.

(** The part of a URL after its scheme, when it has one. *)
Definition after_scheme (u : string) : string :=
  match cut_at ":"%char u with
  | Some (String a x, rest) =>
      if (is_upper a || is_lower a) && str_all is_scheme_char (String a x) then rest else u
  | _ => u
  end.

Fixpoint until (stop : ascii → bool) (s : string) : string :=
  match s with
  | EmptyString => ""
  | String c s => if stop c then "" else String c (until stop s)
  end.

(** [urlparse(u).netloc], for a URL without bracketed (IPv6) hosts. *)
Definition url_netloc (u : string) : string :=
  let u := filter_str (λ c, negb ((code c =? 9) || (code c =? 10) || (code c =? 13))) (drop_ctrl u) in
  match after_scheme u with
  | String a (String b rest) =>
      if (a ≡? "/"%char) && (b ≡? "/"%char)
      then until (λ c, c ∈? ["/"%char; "?"%char; "#"%char]) rest else ""
  | _ => ""
  end.

Definition provider_key (base_url : option string) : string :=
  match base_url with
  | None => "openai-default"
  | Some u =>
      if u ≡? "" then "openai-default"
      else lower (let n := url_netloc u in if n ≡? "" then u else n)
  end.

(** ** The state machine *)

(** [_State]: [opened_at = None] is CLOSED. *)
Record BState := { fails : Z; opened_at : option Q }.

Definition new_state : BState := {| fails := 0; opened_at := None |}.

(** The breaker's own data; the clock is the [now] each operation takes. *)
Record CircuitBreaker := {
  threshold : Z;
  reset : Q;
  states : list (string * BState);
}.

Definition new_breaker (n : Z) (r : Q) : CircuitBreaker :=
  {| threshold := n; reset := r; states := [] |}.

Definition with_states (b : CircuitBreaker) (m : list (string * BState)) : CircuitBreaker :=
  {| threshold := threshold b; reset := reset b; states := m |}.

(** [_st]: the provider's state, created on first touch. *)
Definition st_of (b : CircuitBreaker) (key : string) : BState * CircuitBreaker :=
  match dget (states b) key with
  | Some s => (s, b)
  | None => (new_state, with_states b (dset (states b) key new_state))
  end.

Definition allow (b : CircuitBreaker) (key : string) (now : Q) : bool * CircuitBreaker :=
  let '(st, b) := st_of b key in
  match opened_at st with
  | None => (true, b)
  | Some t => (Qleb (reset b) (now - t), b)
  end.

Definition is_open (b : CircuitBreaker) (key : string) (now : Q) : bool :=
  match dget (states b) key with
  | Some st => match opened_at st with Some t => Qltb (now - t) (reset b) | None => false end
  | None => false
  end.

Definition on_success (b : CircuitBreaker) (key : string) : bool * CircuitBreaker :=
  let '(st, b) := st_of b key in
  (match opened_at st with Some _ => true | None => false end,
   with_states b (dset (states b) key {| fails := 0; opened_at := None |})).

Definition on_failure (b : CircuitBreaker) (key : string) (now : Q) : bool * CircuitBreaker :=
  let '(st, b) := st_of b key in
  match opened_at st with
  | Some _ =>
      (false, with_states b (dset (states b) key {| fails := fails st; opened_at := Some now |}))
  | None =>
      let n := (fails st + 1)%Z in
      if (threshold b <=? n)%Z
      then (true, with_states b (dset (states b) key {| fails := n; opened_at := Some now |}))
      else (false, with_states b (dset (states b) key {| fails := n; opened_at := None |}))
  end.

(** One row of [snapshot]. *)
Record Health := { h_state : string; h_retry_in : option Q; h_failures : Z }.

Definition health (r : Q) (now : Q) (st : BState) : Health :=
  match opened_at st with
  | None => {| h_state := "closed"; h_retry_in := None; h_failures := fails st |}
  | Some t =>
      let left := (r - (now - t))%Q in
      if Qltb 0 left
      then {| h_state := "open"; h_retry_in := Some (py_round 2 left); h_failures := fails st |}
      else {| h_state := "half-open"; h_retry_in := Some 0%Q; h_failures := fails st |}
  end.

Definition snapshot (b : CircuitBreaker) (now : Q) : list (string * Health) :=
  prod_map (λ k, k) (health (reset b) now) <$> states b.

(** ** The shared tier *)

Definition OPEN_KEY : string := "breaker:open:".

(** A Redis client as the breaker uses it: [get], [set ... ex=ttl] and [delete], each of
    which may raise.  [holds] is what the client promises: reads see the last write. *)
Class RedisClient (R X : Type) := {
  redis_get : R → string → res X (option string);
  redis_set : R → string → string → Z → res X R;
  redis_delete : R → string → res X R;
}.

Class RedisLaws (R X : Type) `{RedisClient R X} : Prop := {
  get_after_set r k v ttl r' : redis_set r k v ttl = Ok r' → redis_get r' k = Ok (Some v);
  get_after_delete r k r' : redis_delete r k = Ok r' → redis_get r' k = Ok None;
  get_other_set r k v ttl r' k' : k' ≠ k → redis_set r k v ttl = Ok r' → redis_get r' k' = redis_get r k';
}.

Section shared.
Context {R X : Type} `{!RedisClient R X}.

Definition peer_open (redis : option R) (key : string) : bool :=
  match redis with
  | None => false
  | Some r =>
      match redis_get r (OPEN_KEY +:+ key) with
      | Ok (Some _) => true
      | Ok None | Err _ => false
      end
  end.

(** [int(self._reset)] truncates towards zero. *)
Definition q_trunc (q : Q) : Z := (Z.quot (Qnum q) (Zpos (Qden q)))%Z.

Definition record_open (b : CircuitBreaker) (redis : option R) (key : string) : option R :=
  match redis with
  | None => None
  | Some r =>
      match redis_set r (OPEN_KEY +:+ key) "1" (Z.max 1 (q_trunc (reset b))) with
      | Ok r' => Some r'
      | Err _ => Some r
      end
  end.

Definition clear_open (redis : option R) (key : string) : option R :=
  match redis with
  | None => None
  | Some r =>
      match redis_delete r (OPEN_KEY +:+ key) with Ok r' => Some r' | Err _ => Some r end
  end.
End shared.

(** ** The specification: a function of the history *)

(** What the callers report, most recent first: the outcomes and the admission tests of
    every provider, each with the time it happened at. *)
Inductive Event : Type :=
  | Allowed (key : string) (now : Q)
  | Succeeded (key : string)
  | Failed (key : string) (now : Q).

Definition step (b : CircuitBreaker) (ev : Event) : CircuitBreaker :=
  match ev with
  | Allowed k now => (allow b k now).2
  | Succeeded k => (on_success b k).2
  | Failed k now => (on_failure b k now).2
  end.

(** The failures of [key] since its last success, and the time of the newest one. *)
Fixpoint streak (key : string) (h : list Event) : nat :=
  match h with
  | [] => 0
  | Failed k _ :: h => if k ≡? key then S (streak key h) else streak key h
  | Succeeded k :: h => if k ≡? key then 0 else streak key h
  | Allowed _ _ :: h => streak key h
  end.

Fixpoint last_failure (key : string) (h : list Event) : option Q :=
  match h with
  | [] => None
  | Failed k t :: h => if k ≡? key then Some t else last_failure key h
  | Succeeded k :: h => if k ≡? key then None else last_failure key h
  | Allowed _ _ :: h => last_failure key h
  end.

(** The specified state: open from the newest failure of a streak that has reached the
    threshold, closed otherwise. *)
Definition spec_state (n : Z) (key : string) (h : list Event) : BState :=
  if (n <=? Z.of_nat (streak key h))%Z
  then {| fails := n; opened_at := last_failure key h |}
  else {| fails := Z.of_nat (streak key h); opened_at := None |}.

(** The state the operations see for a provider, touched or not. *)
Definition view (b : CircuitBreaker) (key : string) : BState :=
  match dget (states b) key with Some s => s | None => new_state end.

(** The breaker after a history (most recent event first). *)
Definition run (n : Z) (r : Q) (h : list Event) : CircuitBreaker :=
  foldr (λ ev b, step b ev) (new_breaker n r) h.

(** ** Facts *)

Lemma view_dset b key k s :
  view (with_states b (dset (states b) key s)) k = if decide (k = key) then s else view b k.
Proof.
  unfold view. cbn. case_decide as H; [subst; by rewrite dget_dset_eq|by rewrite dget_dset_ne].
Qed.

Lemma st_of_spec b key :
  (st_of b key).1 = view b key ∧ (∀ k, view (st_of b key).2 k = view b k) ∧
  threshold (st_of b key).2 = threshold b ∧ reset (st_of b key).2 = reset b.
Proof.
  unfold st_of, view. destruct (dget (states b) key) as [s|] eqn:E; [done|].
  split; [done|]. split; [|done]. intros k. cbn. destruct (decide (k = key)) as [->|Hne].
  - by rewrite dget_dset_eq, E.
  - by rewrite dget_dset_ne.
Qed.

(** How one event moves one provider: the other providers are untouched. *)
Definition moved (n : Z) (st : BState) (key : string) (ev : Event) : BState :=
  match ev with
  | Allowed _ _ => st
  | Succeeded k => if k ≡? key then new_state else st
  | Failed k now =>
      if k ≡? key then
        match opened_at st with
        | Some _ => {| fails := fails st; opened_at := Some now |}
        | None => {| fails := fails st + 1;
                     opened_at := if (n <=? fails st + 1)%Z then Some now else None |}
        end
      else st
  end.

Lemma view_step b ev key : view (step b ev) key = moved (threshold b) (view b key) key ev.
Proof.
  destruct ev as [k now|k|k now]; cbn.
  - unfold allow. pose proof (st_of_spec b k) as (Hv & Hs & _).
    destruct (st_of b k) as [st b']. cbn in *. by destruct (opened_at st); cbn.
  - unfold on_success. pose proof (st_of_spec b k) as (Hv & Hs & _).
    destruct (st_of b k) as [st b']. cbn in *. rewrite view_dset.
    case_decide as H; [subst; by rewrite bool_decide_eq_true_2|].
    by rewrite bool_decide_eq_false_2, Hs by congruence.
  - unfold on_failure. pose proof (st_of_spec b k) as (Hv & Hs & Ht & _).
    destruct (st_of b k) as [st b']. cbn in *. subst st. rewrite Ht.
    destruct (decide (k = key)) as [->|Hne].
    + rewrite (bool_decide_eq_true_2 (key = key)) by done.
      destruct (opened_at (view b key)); [|destruct (_ <=? _)%Z]; cbn;
        rewrite view_dset, decide_True by done; done.
    + rewrite (bool_decide_eq_false_2 (k = key)) by done.
      destruct (opened_at (view b k)); [|destruct (_ <=? _)%Z]; cbn;
        rewrite view_dset, decide_False by done; apply Hs.
Qed.

Lemma step_config b ev : threshold (step b ev) = threshold b ∧ reset (step b ev) = reset b.
Proof.
  destruct ev as [k now|k|k now]; cbn; unfold allow, on_success, on_failure;
    pose proof (st_of_spec b k) as (_ & _ & Ht & Hr); destruct (st_of b k) as [st b']; cbn in *;
    destruct (opened_at st); cbn; auto; by destruct (_ <=? _)%Z.
Qed.

Lemma run_config n r h : threshold (run n r h) = n ∧ reset (run n r h) = r.
Proof.
  induction h as [|ev h [Ht Hr]]; [done|]. cbn [run foldr]. fold (run n r h).
  pose proof (step_config (run n r h) ev) as [??]. split; congruence.
Qed.

Lemma last_failure_streak key h : streak key h ≠ 0 ↔ ∃ t, last_failure key h = Some t.
Proof.
  induction h as [|[k now|k|k now] h IH]; cbn; [by split; [|intros [??]]|done| |].
  - case_bool_decide; [by split; [|intros [??]]|done].
  - case_bool_decide; [|done]. split; [eauto|done].
Qed.

(** The state of every provider after any history. *)
Lemma view_run n r h key :
  (0 < n)%Z → view (run n r h) key = spec_state n key h.
Proof.
  intros Hn. induction h as [|ev h IH].
  { unfold spec_state. cbn. rewrite (proj2 (Z.leb_gt _ _)) by lia. done. }
  cbn [run foldr]. fold (run n r h). rewrite view_step, IH.
  rewrite (proj1 (run_config n r h)). clear IH. unfold spec_state.
  destruct ev as [k now|k|k now]; cbn [moved streak last_failure]; [done| |].
  - case_bool_decide; [|done]. cbn. by rewrite (proj2 (Z.leb_gt _ _)) by lia.
  - case_bool_decide; [|done]. pose proof (last_failure_streak key h) as Hl.
    destruct (Z.leb_spec n (Z.of_nat (streak key h))) as [Hle|Hgt]; cbn [opened_at fails].
    + rewrite (proj2 (Z.leb_le n (Z.of_nat (S (streak key h))))) by lia.
      destruct (proj1 Hl ltac:(lia)) as [t ->]. done.
    + destruct (Z.leb_spec n (Z.of_nat (streak key h) + 1)),
        (Z.leb_spec n (Z.of_nat (S (streak key h)))); try lia; f_equal; lia.
Qed.

Lemma allow_view b key now :
  (allow b key now).1 =
  match opened_at (view b key) with Some t => Qleb (reset b) (now - t) | None => true end.
Proof.
  unfold allow. pose proof (st_of_spec b key) as (Hv & _ & _ & Hr).
  destruct (st_of b key) as [st b']. cbn in *. subst st. rewrite Hr.
  by destruct (opened_at (view b key)).
Qed.

Lemma is_open_view b key now :
  is_open b key now =
  match opened_at (view b key) with Some t => Qltb (now - t) (reset b) | None => false end.
Proof. unfold is_open, view. by destruct (dget (states b) key). Qed.

(** C33: The breaker refines its specification: after any interleaving of calls over any
    providers, a provider's state is the one its own history prescribes — open since its
    newest failure exactly when its consecutive failures have reached the threshold — and
    the two edges it reports are the history's: [on_failure] returns true exactly on the
    failure that completes the streak, [on_success] exactly when it ends a completed one. *)
Theorem breaker_refines_history n r h key now :
  (0 < n)%Z →
  view (run n r h) key = spec_state n key h ∧
  ((on_failure (run n r h) key now).1 = true ↔ Z.of_nat (S (streak key h)) = n) ∧
  ((on_success (run n r h) key).1 = true ↔ (n <= Z.of_nat (streak key h))%Z).
Proof.
  intros Hn. pose proof (view_run n r h key Hn) as Hv. split; [done|].
  pose proof (st_of_spec (run n r h) key) as (Hs & _ & Ht & _).
  rewrite (proj1 (run_config n r h)) in Ht. unfold on_failure, on_success.
  destruct (st_of (run n r h) key) as [st b']. cbn in *. subst st. rewrite Hv, Ht.
  unfold spec_state. pose proof (last_failure_streak key h) as Hl.
  destruct (Z.leb_spec n (Z.of_nat (streak key h))) as [Hle|Hgt]; cbn [opened_at fails].
  - destruct (proj1 Hl ltac:(lia)) as [t ->]. cbn. split; [split; [done|lia]|done].
  - split; [|split; [done|lia]].
    destruct (Z.leb_spec n (Z.of_nat (streak key h) + 1)); cbn; split; try done; lia.
Qed.

(** A call is admitted exactly when the provider's failure streak is below the
    threshold or its newest failure is at least [reset] seconds old, and [is_open] is the
    negation of [allow] on every reachable state. *)
Theorem allow_exact n r h key now :
  (0 < n)%Z →
  is_open (run n r h) key now = negb (allow (run n r h) key now).1 ∧
  ((allow (run n r h) key now).1 = true ↔
   (Z.of_nat (streak key h) < n)%Z ∨
   ∃ t, last_failure key h = Some t ∧ (r <= now - t)%Q).
Proof.
  intros Hn. rewrite is_open_view, allow_view, (proj2 (run_config n r h)), view_run by done.
  unfold spec_state. pose proof (last_failure_streak key h) as Hl.
  destruct (Z.leb_spec n (Z.of_nat (streak key h))) as [Hle|Hgt]; cbn [opened_at].
  - destruct (proj1 Hl ltac:(lia)) as [t ->]. split; [done|]. rewrite Qleb_true. split; [eauto|].
    intros [?|(t' & [= <-] & ?)]; [lia|done].
  - split; [done|]. split; [by left|done].
Qed.

(** Once the reset window has elapsed the breaker admits every caller, not a single
    trial: until some outcome is reported, any number of admission tests all succeed. *)
Theorem half_open_admits_every_caller b key t nows :
  opened_at (view b key) = Some t → (∀ now, now ∈ nows → (reset b <= now - t)%Q) →
  ∀ now, now ∈ nows →
    (allow (foldl (λ b now, (allow b key now).2) b nows) key now).1 = true.
Proof.
  intros Ho Hall.
  assert (∀ l b', opened_at (view b' key) = Some t → reset b' = reset b →
    opened_at (view (foldl (λ b now, (allow b key now).2) b' l) key) = Some t ∧
    reset (foldl (λ b now, (allow b key now).2) b' l) = reset b) as Hinv.
  { induction l as [|now l IH]; intros b' Hb' Hr; [done|]. cbn. apply IH.
    - by rewrite (view_step b' (Allowed key now)).
    - rewrite <- Hr. apply (step_config b' (Allowed key now)). }
  intros now Hnow. destruct (Hinv nows b Ho eq_refl) as [Ho' Hr'].
  rewrite allow_view, Ho', Hr'. apply Qleb_true. auto.
Qed.

(** [snapshot] lists exactly the touched providers and agrees with the admission
    tests: "open" rows are the providers [is_open] short-circuits, with a positive
    remaining time bounded by the window (up to the two-decimal rounding). *)
Theorem snapshot_consistent b now key :
  match dget (snapshot b now) key with
  | Some hl => dmem (states b) key = true ∧
      (h_state hl ≡? "open") = is_open b key now ∧
      h_failures hl = fails (view b key) ∧
      (h_state hl = "closed" ↔ opened_at (view b key) = None)
  | None => dmem (states b) key = false ∧ is_open b key now = false
  end.
Proof.
  unfold snapshot, is_open, dmem, view.
  assert (dget (prod_map (λ k, k) (health (reset b) now) <$> states b) key
    = health (reset b) now <$> dget (states b) key) as ->.
  { induction (states b) as [|[k st] l IH]; [done|]. cbn. by case_decide. }
  destruct (dget (states b) key) as [st|] eqn:E; cbn; [|done].
  unfold health. destruct (opened_at st) as [t|]; cbn; [|done].
  split; [done|]. destruct (Qltb 0 (reset b - (now - t))) eqn:E1; cbn.
  - assert (Qltb (now - t) (reset b) = true) as -> by q_solve. done.
  - assert (Qltb (now - t) (reset b) = false) as -> by q_solve. done.
Qed.

Section shared_facts.
Context {R X : Type} `{HC : !RedisClient R X} `{!RedisLaws R X}.

(** The shared tier is fail-open and advisory: without a client, or when a read
    fails, no provider is reported open; a recorded trip is seen by every reader of the
    same store until it is cleared, and touches no other provider. *)
Theorem shared_tier_fail_open (b : CircuitBreaker) (r : R) key k' :
  k' ≠ key →
  peer_open (None : option R) key = false ∧
  (∀ e, redis_get r (OPEN_KEY +:+ key) = Err e → peer_open (Some r) key = false) ∧
  (∀ r', redis_set r (OPEN_KEY +:+ key) "1" (Z.max 1 (q_trunc (reset b))) = Ok r' →
     record_open b (Some r) key = Some r' ∧ peer_open (Some r') key = true ∧
     peer_open (Some r') k' = peer_open (Some r) k') ∧
  (∀ r', redis_delete r (OPEN_KEY +:+ key) = Ok r' →
     clear_open (Some r) key = Some r' ∧ peer_open (Some r') key = false).
Proof.
  intros Hne. split; [done|]. unfold peer_open, record_open, clear_open. split; [|split].
  - by intros e ->.
  - intros r' Hset. rewrite Hset. split; [done|]. rewrite (get_after_set _ _ _ _ _ Hset).
    split; [done|]. erewrite (get_other_set (R:=R) (X:=X)); [done| |exact Hset].
    intros Heq. apply Hne. by apply (inj (String.append OPEN_KEY)) in Heq.
  - intros r' Hdel. rewrite Hdel. by rewrite (get_after_delete _ _ _ Hdel).
Qed.
End shared_facts.

(** ** Witnesses *)

Definition demo_history : list Event :=
  [Failed "a" 7; Succeeded "b"; Failed "b" 6; Allowed "a" 5; Failed "a" 4; Failed "a" 1].

Lemma breaker_refines_history_witness :
  view (run 3 10 demo_history) "a" = spec_state 3 "a" demo_history ∧
  ((on_failure (run 3 10 demo_history) "a" 8).1 = true ↔ Z.of_nat (S (streak "a" demo_history)) = 3%Z) ∧
  ((on_success (run 3 10 demo_history) "a").1 = true ↔ (3 <= Z.of_nat (streak "a" demo_history))%Z).
Proof. apply (breaker_refines_history 3 10 demo_history "a" 8). lia. Defined.

Lemma allow_exact_witness :
  is_open (run 3 10 demo_history) "a" 8 = negb (allow (run 3 10 demo_history) "a" 8).1 ∧
  ((allow (run 3 10 demo_history) "a" 8).1 = true ↔
   (Z.of_nat (streak "a" demo_history) < 3)%Z ∨
   ∃ t, last_failure "a" demo_history = Some t ∧ (10 <= 8 - t)%Q).
Proof. apply (allow_exact 3 10 demo_history "a" 8). lia. Defined.

Lemma half_open_admits_every_caller_witness :
  (allow (foldl (λ b now, (allow b "a" now).2) (run 3 10 demo_history) [17; 18; 19]%Q) "a" 19).1 = true.
Proof.
  apply (half_open_admits_every_caller (run 3 10 demo_history) "a" 7 [17; 18; 19]%Q).
  - reflexivity.
  - intros now Hnow. repeat (apply elem_of_cons in Hnow as [->|Hnow]; [by compute|]).
    by apply elem_of_nil in Hnow.
  - right. right. left.
Defined.

(** A store that never fails. *)
#[export] Instance dict_client : RedisClient (list (string * string)) unit :=
  {| redis_get r k := Ok (dget r k);
     redis_set r k v _ := Ok (dset r k v);
     redis_delete r k := Ok (dpop r k) |}.

#[export] Instance dict_client_laws : RedisLaws (list (string * string)) unit.
Proof.
  split; cbn.
  - intros r k v ttl r' [= <-]. by rewrite dget_dset_eq.
  - intros r k r' [= <-]. by rewrite dget_dpop_eq.
  - intros r k v ttl r' k' Hne [= <-]. by rewrite dget_dset_ne.
Qed.

Lemma shared_tier_fail_open_witness :
  peer_open (Some (dset [] (OPEN_KEY +:+ "a") "1")) "a" = true.
Proof.
  destruct (shared_tier_fail_open (X:=unit) (new_breaker 3 30) ([] : list (string * string)) "a" "b")
    as (_ & _ & Hset & _); [done|]. by apply (Hset _ eq_refl).
Defined.
