(* ===== verification/Resilience.v ===== *)
(** * Retry and fallback primitives ([resilience.py])

    The classification of provider failures, the same-residency fallback list, the
    [Retry-After] header and the capped backoff: the policy both planes share. *)

From S2P Require Import Prelude PyStr PyDict Catalog.

(** ** Exceptions *)

(** A raised exception as the policy inspects it: its type name, the names of the classes
    it is an instance of, an integer [status_code] when it has one, and the
    ["retry-after"] header of the HTTP response it carries. *)
Record Exn := {
  exn_type : string;
  exn_mro : list string;
  status_code : option Z;
  retry_after_header : option string;
}.

(** A built-in exception that carries neither a status nor a response. *)
Definition plain_exn (t : string) : Exn :=
  {| exn_type := t; exn_mro := [t; "Exception"]; status_code := None; retry_after_header := None |}.

Definition isinstance (e : Exn) (classes : list string) : bool :=
  existsb (λ c, c ∈? exn_mro e) classes.

Definition TRANSIENT_SDK : list string :=
  ["openai.RateLimitError"; "openai.APITimeoutError"; "openai.APIConnectionError";
   "openai.InternalServerError"].

(** The part of [is_retryable] that needs the SDK: [None] when it does not decide, which
    includes the SDK not being importable and a status it cannot compare. *)
Definition sdk_verdict (has_openai : bool) (e : Exn) : option bool :=
  if negb has_openai then None
  else if isinstance e TRANSIENT_SDK then Some true
  else if isinstance e ["openai.APIStatusError"] then
    (λ s, (500 <=? s)%Z) <$> status_code e
  else None.

Definition is_retryable (has_openai : bool) (e : Exn) : bool :=
  match sdk_verdict has_openai e with
  | Some b => b
  | None =>
      match status_code e with
      | Some s => if ((s =? 429) || (500 <=? s))%Z then true
                  else isinstance e ["TimeoutError"; "ConnectionError"]
      | None => isinstance e ["TimeoutError"; "ConnectionError"]
      end
  end.

Definition err_label (e : option Exn) : string :=
  match e with
  | None => "unknown"
  | Some e => match status_code e with Some s => str_of_Z s | None => exn_type e end
  end.

(** ** Fallbacks *)

Definition fallback_ok (privacy : bool) (entry e : CatalogEntry) : bool :=
  if (id e ≡? id entry) || (endpoint e ≡? "fake") then false
  else if negb (residency_class e ≡? residency_class entry) then false
  else if privacy && negb (lane e ≡? lane entry) then false
  else true.

Definition fallbacks (c : Catalog) (model_id : string) (privacy : bool) : list string :=
  match catalog_get c model_id with
  | None => []
  | Some entry => id <$> List.filter (fallback_ok privacy entry) c
  end.

(** ** Retry-After *)

(** What [float(s)] can produce. *)
Inductive pyfloat : Type := Finite (q : Q) | Infinite (negative : bool) | NaN.

(** A run of decimal digits, single underscores allowed between two of them: the value
    with its number of digits, and the rest of the text. *)
Fixpoint digits (acc : Z) (n : nat) (s : string) : Z * nat * string :=
  match s with
  | String c s' =>
      if is_digit c then digits (acc * 10 + Z.of_nat (code c - 48)) (S n) s'
      else match s' with
           | String d s'' =>
               if (code c =? 95) && is_digit d && (0 <? n)
               then digits (acc * 10 + Z.of_nat (code d - 48)) (S n) s''
               else (acc, n, s)
           | EmptyString => (acc, n, s)
           end
  | EmptyString => (acc, n, s)
  end.

Definition signed (s : string) : bool * string :=
  match s with
  | String "+" s' => (false, s')
  | String "-" s' => (true, s')
  | _ => (false, s)
  end.

(** [10 ** e] *)
Definition pow10 (e : Z) : Q :=
  if (0 <=? e)%Z then Qz (10 ^ e) else (/ Qz (10 ^ (- e)))%Q.

(** An exponent part that must be the rest of the text. *)
Definition exponent (s : string) : option Z :=
  match s with
  | EmptyString => Some 0%Z
  | String c s =>
      if (c ≡? "e"%char) || (c ≡? "E"%char) then
        let '(neg, s) := signed s in
        match digits 0 0 s with
        | (e, S _, EmptyString) => Some (if neg then (- e)%Z else e)
        | _ => None
        end
      else None
  end.

(** [float(s)]; [None] is the [ValueError]. *)
Definition parse_float (s : string) : option pyfloat :=
  let '(neg, body) := signed (strip s) in
  let low := lower body in
  if (low ≡? "inf") || (low ≡? "infinity") then Some (Infinite neg)
  else if low ≡? "nan" then Some NaN
  else
    let '(whole, n, rest) := digits 0 0 body in
    let '(frac, m, rest) := match rest with
                            | String "." r => digits 0 0 r
                            | _ => (0%Z, 0, rest)
                            end in
    if (n + m =? 0) then None
    else match exponent rest with
         | None => None
         | Some e =>
             let v := ((Qz whole + Qz frac * pow10 (- Z.of_nat m)) * pow10 e)%Q in
             Some (Finite (if neg then (- v)%Q else v))
         end.

(** [max(0.0, x)]: the first argument unless the second is greater, so NaN gives 0. *)
Definition max0 (x : pyfloat) : pyfloat :=
  match x with
  | Finite q => if Qltb 0 q then Finite q else Finite 0
  | Infinite false => Infinite false
  | Infinite true | NaN => Finite 0
  end.

Section retry_after.
(** [parsedate_to_datetime(s).timestamp() - time.time()], [None] when it raises. *)
Variable seconds_until : string → option Q.

Definition retry_after_seconds (e : Exn) : option pyfloat :=
  match retry_after_header e with
  | None => None
  | Some val =>
      if val ≡? "" then None
      else match parse_float val with
           | Some x => Some (max0 x)
           | None => (λ d, max0 (Finite d)) <$> seconds_until val
           end
  end.
End retry_after.

(** ** Backoff *)

Definition exp_backoff (attempt : nat) (base jitter cap : Q) : Q :=
  Qminb (base * Qz (2 ^ Z.of_nat attempt) + jitter) cap.

(** [backoff], with the [random.uniform(0, base)] draw as an argument.  [min(x, cap)] of
    an infinite [x] is the cap; a NaN fails the [>= 0] test. *)
Definition backoff (attempt : nat) (base : Q) (retry_after : option pyfloat) (cap jitter : Q) : Q :=
  match retry_after with
  | Some (Finite q) => if Qleb 0 q then Qminb q cap else exp_backoff attempt base jitter cap
  | Some (Infinite false) => cap
  | Some (Infinite true) | Some NaN | None => exp_backoff attempt base jitter cap
  end.

(** ** Facts *)

Lemma fallback_ok_spec privacy entry e :
  fallback_ok privacy entry e = true ↔
  id e ≠ id entry ∧ endpoint e ≠ "fake" ∧ residency_class e = residency_class entry ∧
  (privacy = true → lane e = lane entry).
Proof.
  unfold fallback_ok.
  repeat case_bool_decide; destruct privacy; cbn; naive_solver.
Qed.

Lemma elem_of_fallbacks c i privacy x :
  x ∈ fallbacks c i privacy ↔
  ∃ entry e, catalog_get c i = Some entry ∧ e ∈ c ∧ id e = x ∧ fallback_ok privacy entry e = true.
Proof.
  unfold fallbacks. destruct (catalog_get c i) as [entry|].
  - rewrite list_elem_of_fmap. split.
    + intros (e & -> & [??]%elem_of_bfilter). eauto 10.
    + intros (entry' & e & [= <-] & ? & <- & ?). exists e. split; [done|]. by apply elem_of_bfilter.
  - split; [by intros ?%elem_of_nil|]. by intros (?&?&?&_).
Qed.

(** The fallback list of a model is exactly the other real entries of its residency
    class, of its lane too when the route is privacy-pinned: no fallback ever crosses the
    residency boundary, repeats the failed model or is a fake. *)
Theorem fallbacks_exact c i privacy entry x :
  NoDup (id <$> c) → catalog_get c i = Some entry →
  x ∈ fallbacks c i privacy ↔
  ∃ e, catalog_get c x = Some e ∧ x ≠ i ∧ endpoint e ≠ "fake" ∧
    residency_class e = residency_class entry ∧ (privacy = true → lane e = lane entry).
Proof.
  intros Hnd Hi. rewrite elem_of_fallbacks. pose proof (catalog_get_some _ _ _ Hi) as [_ Hid]. split.
  - intros (entry' & e & Hi' & He & <- & Hok). rewrite Hi in Hi'. injection Hi' as <-.
    apply fallback_ok_spec in Hok as (Hne & Hrest). exists e.
    rewrite <- Hid. split; [by apply catalog_get_nodup|done].
  - intros (e & Hx & Hne & Hrest). pose proof (catalog_get_some _ _ _ Hx) as [He <-].
    exists entry, e. do 3 (split; [done|]). apply fallback_ok_spec. by rewrite Hid.
Qed.

(** Fallbacks come in catalog order, at most one per entry. *)
Lemma fallbacks_nodup c i privacy : NoDup (id <$> c) → NoDup (fallbacks c i privacy).
Proof.
  intros Hnd. unfold fallbacks. destruct (catalog_get c i) as [entry|]; [|apply NoDup_nil_2].
  induction c as [|e c IH]; [apply NoDup_nil_2|]. cbn in *. apply NoDup_cons in Hnd as [He Hnd].
  destruct (fallback_ok privacy entry e); [|auto]. cbn. apply NoDup_cons. split; [|auto].
  intros (e' & Heq & [? _]%elem_of_bfilter)%list_elem_of_fmap. apply He. rewrite Heq.
  by apply list_elem_of_fmap_2.
Qed.

(** The SDK's typed errors decide first: a transient type is always retried and any
    other API status error is retried exactly from 500 up, so a 4xx is never retried;
    without an SDK verdict, 429 and 5xx statuses and connection failures are. *)
Theorem is_retryable_exact (sdk : bool) e :
  is_retryable sdk e = true ↔
  (sdk = true ∧ isinstance e TRANSIENT_SDK = true) ∨
  (∃ s, status_code e = Some s ∧ (500 <= s)%Z) ∨
  (¬ (sdk = true ∧ isinstance e ["openai.APIStatusError"] = true ∧ status_code e ≠ None) ∧
   (status_code e = Some 429%Z ∨ isinstance e ["TimeoutError"; "ConnectionError"] = true)).
Proof.
  unfold is_retryable, sdk_verdict.
  destruct (isinstance e TRANSIENT_SDK), (isinstance e ["openai.APIStatusError"]),
    (isinstance e ["TimeoutError"; "ConnectionError"]), (status_code e) as [s|], sdk; cbn;
    try (destruct (Z.eqb_spec s 429), (Z.leb_spec 500 s)); cbn; naive_solver lia.
Qed.

Lemma exp_backoff_bounds attempt base jitter cap :
  (0 <= base)%Q → (0 <= jitter)%Q → (0 <= cap)%Q →
  (0 <= exp_backoff attempt base jitter cap <= cap)%Q.
Proof.
  intros Hb Hj Hc. unfold exp_backoff, Qminb.
  assert (0 <= base * Qz (2 ^ Z.of_nat attempt))%Q as Hp.
  { apply Qmult_le_0_compat; [done|]. unfold Qz. change 0%Q with (inject_Z 0).
    rewrite <- Zle_Qle. lia. }
  case_match; q_to_prop; lra.
Qed.

(** Every backoff lies between zero and the cap, whatever the server advertises; an
    advertised delay within the cap is honoured exactly, and the computed one is at least
    the exponential step unless the cap cuts it. *)
Theorem backoff_bounded attempt base ra cap jitter :
  (0 <= base)%Q → (0 <= jitter)%Q → (0 <= cap)%Q →
  (0 <= backoff attempt base ra cap jitter <= cap)%Q ∧
  (∀ q, ra = Some (Finite q) → (0 <= q <= cap)%Q → (backoff attempt base ra cap jitter == q)%Q) ∧
  (ra = None → backoff attempt base ra cap jitter = cap ∨
     (base * Qz (2 ^ Z.of_nat attempt) <= backoff attempt base ra cap jitter)%Q).
Proof.
  intros Hb Hj Hc. pose proof (exp_backoff_bounds attempt base jitter cap Hb Hj Hc) as He.
  split; [|split].
  - destruct ra as [[q|[]|]|]; cbn; try done; [|lra].
    destruct (Qleb 0 q) eqn:E; [|done]. pose proof (Qminb_lb q cap).
    unfold Qminb in *. case_match; q_to_prop; lra.
  - intros q -> [H0 Hq]. cbn. apply Qleb_true in H0 as ->. unfold Qminb.
    case_match; q_to_prop; [lra|reflexivity].
  - intros ->. cbn. unfold exp_backoff, Qminb. case_match; [by left|]. right. q_to_prop. lra.
Qed.

(** A server can only delay a retry: the advertised wait is never negative. *)
Lemma retry_after_nonneg seconds_until e q :
  retry_after_seconds seconds_until e = Some (Finite q) → (0 <= q)%Q.
Proof.
  assert (∀ x, max0 x = Finite q → (0 <= q)%Q) as Hm.
  { intros [r|[]|]; cbn; [case_match|..]; intros [= <-]; q_to_prop; lra. }
  unfold retry_after_seconds. destruct (retry_after_header e) as [v|]; [|done].
  case_bool_decide; [done|]. destruct (parse_float v) as [x|].
  - intros [= Hx]. by apply (Hm x).
  - destruct (seconds_until v) as [d|]; [|done]. cbn -[max0]. intros [= Hx]. by apply (Hm (Finite d)).
Qed.

(** ** Witnesses *)

Definition demo_cloud_2 : CatalogEntry := entry_of "claude" frontier "anthropic" cloud.

Lemma fallbacks_exact_witness :
  "claude" ∈ fallbacks (demo_cloud_2 :: demo_catalog) "gpt" true ↔
  ∃ e, catalog_get (demo_cloud_2 :: demo_catalog) "claude" = Some e ∧ "claude" ≠ "gpt" ∧
    endpoint e ≠ "fake" ∧ residency_class e = residency_class demo_cloud ∧
    (true = true → lane e = lane demo_cloud).
Proof.
  apply (fallbacks_exact (demo_cloud_2 :: demo_catalog) "gpt" true demo_cloud "claude");
    [vm_decide|vm_compute; reflexivity].
Defined.

Lemma backoff_bounded_witness :
  (0 <= backoff 3 (1 # 2) (parse_float " 9999 ") 30 (1 # 4) <= 30)%Q.
Proof. apply (backoff_bounded 3 (1 # 2) (parse_float " 9999 ") 30 (1 # 4)); lra. Defined.
