(* ===== verification/Sanitize.v ===== *)
(** * The credential boundary of the provider adapters ([benchmarking/providers/base.py])

    Everything a provider sends is text it controls: error bodies, names, ids and
    metadata.  Before any of it is kept the credential of the request and its useful
    fragments are cut out, secret-shaped fields are dropped, and ids and names are checked
    or their row refused.  The main theorem says that a sanitized text does not contain
    the credential, in any case, whatever the provider sent. *)

From S2P Require Import Prelude.
From S2P Require Import PyStr.
From S2P Require Import PyDict.
From S2P Require Import Regex.
From S2P Require Import Schemas.
From S2P Require Import Catalog.
From S2P Require Import Domain.

(** ** What a row can raise *)

(** [UnsafeProviderRow] quarantines a row; any other exception ends the discovery. *)
Inductive row_error : Type :=
  | UnsafeProviderRow (msg : string)
  | Raised (cls msg : string).

(** The texts of the exceptions of [urllib] and [pydantic], which only reach an error
    summary: of [urlsplit] on a text, and of a record that does not validate. *)
Record Texts := { url_error : string → string; invalid : string → string }.

(** ** Constants *)

Definition SECRET_KEYS : list string :=
  ["api_key"; "apikey"; "authorization"; "bearer"; "ciphertext"; "credential"; "credential_value"; "password";
   "secret"; "token"].

Definition NON_SECRET_CREDENTIAL_PARTS : list string :=
  ["audit"; "contract"; "fireworks"; "key"; "openrouter"; "private"; "prod"; "valid"].

(** [re.fullmatch(pat, s)] *)
Definition fullmatch (r : re) (s : string) : bool := existsb (λ q, q.2 ≡? "") (ends r (None, s)).

Definition segment_char (c : ascii) : bool := is_alnum c || (c ∈? ["."; "_"; "+"; ":"; "-"]%char).

Definition RESOURCE_SEGMENT_RE : re := RSeq (RChr is_alnum) (RStar (RChr segment_char)).

Definition RESOURCE_ID_RE : re :=
  RSeq RESOURCE_SEGMENT_RE (rplus (RSeq (lit "/") RESOURCE_SEGMENT_RE)).

Definition account_char (c : ascii) : bool := is_alnum c || (c ∈? ["."; "_"; "-"]%char).

Definition ACCOUNT_ID_RE : re := RSeq (RChr is_alnum) (RStar (RChr account_char)).

(** [DiscoveryConfig], with its validators. *)
Record DiscoveryConfig := {
  dc_scope : CredentialScopeRef;
  dc_account_id : string;
  dc_deployments : bool;
  dc_accounts : bool;
}.

Definition check_config (c : DiscoveryConfig) : bool :=
  check_scope (dc_scope c) && ((dc_account_id c ≡? "") || fullmatch ACCOUNT_ID_RE (dc_account_id c)).

(** [DiscoveredOffer] and [DiscoveryResult] as validated. *)
Definition check_hint (h : IdentityHint) : bool :=
  negb (ih_vendor h ≡? "") && negb (ih_family h ≡? "") && negb (ih_display h ≡? "").

Definition with_discovered_url (u : string) (o : DiscoveredOffer) : DiscoveredOffer :=
  {| do_provider := do_provider o; do_upstream := do_upstream o; do_base_url := u; do_scope := do_scope o;
     do_identity := do_identity o; do_capabilities := do_capabilities o; do_pricing := do_pricing o; do_raw := do_raw o |}.

Definition check_discovered (ip_host : string → bool) (o : DiscoveredOffer) : option DiscoveredOffer :=
  match check_base_url ip_host (do_base_url o) with
  | None => None
  | Some url =>
      if negb (do_upstream o ≡? "") && check_scope (do_scope o) && check_hint (do_identity o)
         && check_capabilities (do_capabilities o) && check_pricing (do_pricing o)
      then Some (with_discovered_url url o) else None
  end.

Definition check_result (r : DiscoveryResult) : bool :=
  negb (dr_revision r ≡? "") && (negb (dr_status r ≡? success) || dr_complete r)
  && (negb (dr_status r ≡? failed) || match dr_offers r with [] => true | _ => false end).

(** ** Sanitizing *)

(** The texts cut out: a set in the code, here in the order they are added. *)
Definition fragments (credential : string) : list string :=
  let parts := List.filter (λ p, (6 <=? str_len p) && negb (lower p ∈? NON_SECRET_CREDENTIAL_PARTS))
                 (findall (rplus (RChr is_alnum)) credential) in
  let ends := if 12 <=? str_len credential
              then [str_take 8 credential; str_drop (str_len credential - 8) credential] else [] in
  List.filter (λ f, negb (f ≡? "")) (credential :: parts ++ ends).

Definition longest_leb (a b : string) : bool := str_len b <=? str_len a.

Definition MASK : string := "[redacted]".

Definition sanitize_text (text credential : string) : string :=
  let text := fold_left (λ t f, sub (lit_i f) MASK t) (sort_by longest_leb (fragments credential)) text in
  str_take 500 (sanitize_error_summary text).

Definition secret_key (key : string) : bool := replace_char "-" "_" (lower (strip key)) ∈? SECRET_KEYS.

Fixpoint sanitize_metadata (value : json) (credential : string) : json :=
  match value with
  | JObj d =>
      JObj ((fix items (d : list (string * json)) : list (string * json) :=
               match d with
               | [] => []
               | (key, child) :: d =>
                   if secret_key key then items d
                   else (key, sanitize_metadata child credential) :: items d
               end) d)
  | JList l => JList ((fix go (l : list json) := match l with [] => [] | v :: l => sanitize_metadata v credential :: go l end) l)
  | JStr s => JStr (sanitize_text s credential)
  | v => v
  end.

(** ** Checking *)

(** [c.isprintable()] on Latin-1. *)
Definition printable (c : ascii) : bool :=
  ((32 <=? code c) && (code c <=? 126)) || ((161 <=? code c) && negb (code c =? 173)).

(** [_provider_text] *)
Definition provider_text (value : json) (field credential : string) : res row_error string :=
  match value with
  | JStr s =>
      if (s ≡? "") || negb (s ≡? strip s) || negb (str_all printable s) then Err (UnsafeProviderRow ("invalid " +:+ field))
      else if negb (sanitize_text s credential ≡? s) then Err (UnsafeProviderRow ("unsafe " +:+ field))
      else Ok s
  | _ => Err (UnsafeProviderRow ("invalid " +:+ field))
  end.

Definition validate_resource_id (value : json) (field credential : string) : res row_error string :=
  try! text := provider_text value field credential in
  if fullmatch RESOURCE_ID_RE text then Ok text else Err (UnsafeProviderRow ("invalid " +:+ field)).

Definition strip_char (c : ascii) (s : string) : string := strip_of [c] s.

Definition validate_hugging_face_id (ip_host : string → bool) (texts : Texts) (value : json) (credential : string)
    : res row_error (option string) :=
  match value with
  | JNull | JStr "" => Ok None
  | _ =>
      try! text := provider_text value "hugging_face_id" credential in
      match urlsplit ip_host text with
      | None => Err (Raised "ValueError" (url_error texts text))
      | Some u =>
          let bad := Err (UnsafeProviderRow "invalid hugging_face_id") in
          if negb (u_scheme u ≡? "") then
            if negb (u_scheme u ≡? "https") || negb (lower (u_netloc u) ≡? "huggingface.co")
               || negb (u_query u ≡? "") || negb (u_fragment u ≡? "")
            then bad
            else if fullmatch RESOURCE_ID_RE (strip_char "/" (u_path u)) then Ok (Some text) else bad
          else if fullmatch RESOURCE_ID_RE (strip_char "/" text) then Ok (Some text) else bad
      end
  end.

Definition validate_display_name (value : json) (fallback credential : string) : res row_error string :=
  let text := match value with JStr s => JStr (strip s) | v => v end in
  match text with
  | JNull | JStr "" => Ok fallback
  | _ => provider_text text "display_name" credential
  end.

Fixpoint validate_retained_value (value : json) (field credential : string) : res row_error unit :=
  match value with
  | JObj d =>
      (fix items (d : list (string * json)) : res row_error unit :=
         match d with
         | [] => Ok tt
         | (key, child) :: d =>
             try! _ := validate_retained_value child (field +:+ "." +:+ key) credential in items d
         end) d
  | JList l =>
      (fix items (index : nat) (l : list json) : res row_error unit :=
         match l with
         | [] => Ok tt
         | child :: l =>
             try! _ := validate_retained_value child (field +:+ "[" +:+ str_of_nat index +:+ "]") credential in
             items (S index) l
         end) 0 l
  | JStr s => if s ≡? "" then Ok tt else try! _ := provider_text value field credential in Ok tt
  | _ => Ok tt
  end.

(** ** Errors of the transport *)

(** What the code reads of an [httpx.Response]: a body that does not decode raises a
    [ValueError] with the given class name and text. *)
Record Response := {
  resp_status : Z;
  resp_json : res (string * string) json;
  resp_text : string;
  resp_bytes : nat;
}.

Definition dict_value (d : list (string * json)) (key : string) : json :=
  match dget d key with Some v => v | None => JNull end.

(** [a or b] on values. *)
Definition json_or (a b : json) : json := if truthy a then a else b.

Definition error_detail (r : Response) : json :=
  match resp_json r with
  | Err _ => JStr (resp_text r)
  | Ok (JObj body) =>
      match dict_value body "error" with
      | JObj error => json_or (dict_value error "message") (JObj error)
      | error => json_or error (json_or (dict_value body "message") (JObj body))
      end
  | Ok body => body
  end.

Definition response_error (p : ProviderName) (source : string) (r : Response) (credential : string) : string :=
  provider_str p +:+ " " +:+ source +:+ " failed (HTTP " +:+ str_of_Z (resp_status r) +:+ "): "
  +:+ sanitize_text (json_str (error_detail r)) credential.

Definition transport_error (p : ProviderName) (source : string) (cls msg credential : string) : string :=
  provider_str p +:+ " " +:+ source +:+ " failed (" +:+ cls +:+ "): " +:+ sanitize_text msg credential.

(** ** What the masks hide

    A text is hidden when it occurs nowhere, in any case.  A mask brings in brackets and
    an assignment an equals sign, so a text without these three characters that is not
    part of the word between the brackets cannot be rebuilt around one. *)

Definition breaks : list ascii := ["["; "]"; "="]%char.

Definition break_free (f : string) : bool := str_all (λ c, negb (c ∈? breaks)) f.

Definition maskable (f : string) : bool :=
  negb (f ≡? "") && break_free f && negb (contains (lower f) "redacted").

Definition mentions (f s : string) : bool := contains (lower f) (lower s).

Lemma break_lower f : break_free f = true → break_free (lower f) = true.
Proof.
  unfold break_free, lower. induction f as [|c f IH]; [done|]; cbn. rewrite !andb_true_iff. intros [Hc Hf].
  split; [|by apply IH]. revert Hc. unfold lower_char, is_upper, in_range, breaks.
  destruct c as [ [] [] [] [] [] [] [] [] ]; vm_compute; congruence.
Qed.

Lemma startswith_break f a b s : b ∈ breaks → break_free f = true → startswith f (a +:+ String b s) = startswith f a.
Proof.
  unfold break_free. intros Hb. revert a. induction f as [|c f IH]; intros [|x a] Hf; rewrite ?str_app_cons, ?str_app_nil_l; cbn [startswith str_all] in *; try done.
  - apply andb_true_iff in Hf as [Hc _]. destruct (decide (c = b)) as [->|Hn].
    + by rewrite bool_decide_eq_true_2 in Hc.
    + by rewrite bool_decide_eq_false_2.
  - apply andb_true_iff in Hf as [_ Hf]. f_equal. by apply IH.
Qed.

Lemma contains_break f a b s :
  b ∈ breaks → break_free f = true → f ≠ "" → contains f (a +:+ String b s) = contains f a || contains f s.
Proof.
  intros Hb Hf Hne. induction a as [|x a IH].
  - rewrite str_app_nil_l. destruct f as [|c f]; [done|]. unfold break_free in Hf. cbn [str_all] in Hf.
    apply andb_true_iff in Hf as [Hc _]. cbn [contains startswith].
    destruct (decide (c = b)) as [->|Hn]; [by rewrite bool_decide_eq_true_2 in Hc|by rewrite bool_decide_eq_false_2].
  - change (String x a +:+ String b s) with (String x (a +:+ String b s)). cbn [contains]. rewrite IH.
    change (String x (a +:+ String b s)) with (String x a +:+ String b s). rewrite startswith_break by done.
    by destruct f, (startswith _ _).
Qed.

(** A match ends at a later position of the same text. *)
Lemma Match_suffix r p q : Match r p q → p.2 = between p q +:+ q.2.
Proof.
  intros HM. assert (∃ w, p.2 = w +:+ q.2) as [w Hw].
  { induction HM; eauto using (ex_intro _ "").
    all: try (exists ""; reflexivity).
    all: try (exists (String c ""); reflexivity).
    all: destruct IHHM1 as [w1 H1], IHHM2 as [w2 H2]; exists (w1 +:+ w2); rewrite H1, H2; by rewrite <- str_app_assoc. }
  unfold between. rewrite Hw, str_len_app. replace (str_len w + str_len q.2 - str_len q.2) with (str_len w) by lia.
  by rewrite str_take_app.
Qed.

Section masks.
Context (f : string) (Hf : maskable f = true).

Lemma mask_free : break_free (lower f) = true.
Proof. unfold maskable in Hf. rewrite !andb_true_iff in Hf. destruct Hf as [ [_ H] _]. by apply break_lower. Qed.

Lemma mask_nonempty : lower f ≠ "".
Proof. unfold maskable in Hf. rewrite !andb_true_iff in Hf. destruct f; [naive_solver|done]. Qed.

Lemma mask_word : contains (lower f) "redacted" = false.
Proof. unfold maskable in Hf. rewrite !andb_true_iff, !negb_true_iff in Hf. naive_solver. Qed.

Lemma mentions_break a b s : b ∈ breaks → mentions f (a +:+ String b s) = mentions f a || mentions f s.
Proof.
  intros Hb. unfold mentions. rewrite lower_app. change (lower (String b s)) with (String (lower_char b) (lower s)).
  replace (lower_char b) with b.
  - apply contains_break; auto using mask_free, mask_nonempty.
  - unfold breaks in Hb. rewrite !elem_of_cons in Hb. destruct Hb as [->|[->|[->|[] %elem_of_nil] ] ]; done.
Qed.

Lemma mentions_empty : mentions f "" = false.
Proof. unfold mentions. destruct (lower f) eqn:E; [by apply mask_nonempty in E|done]. Qed.

Lemma mentions_sub a b c : mentions f (a +:+ b +:+ c) = false → mentions f b = false.
Proof.
  unfold mentions. rewrite !lower_app. intros H. destruct (contains (lower f) (lower b)) eqn:E; [|done].
  by rewrite (contains_app_l _ (lower a) _ (lower c) E) in H.
Qed.

Lemma mentions_prefix a b : mentions f (a +:+ b) = false → mentions f a = false.
Proof. apply (mentions_sub "" a b). Qed.

Lemma mentions_suffix a b : mentions f (a +:+ b) = false → mentions f b = false.
Proof. intros H. apply (mentions_sub a b ""). by rewrite str_app_nil_r. Qed.

Lemma mentions_take n s : mentions f s = false → mentions f (str_take n s) = false.
Proof. rewrite <- (str_take_drop n s) at 1. apply mentions_prefix. Qed.

Definition is_mask (m : string) : Prop := m = MASK ∨ m = REDACTED.

Lemma mentions_mask m s : is_mask m → mentions f (m +:+ s) = mentions f s.
Proof.
  intros Hm. assert (∃ w, m = String "[" (w +:+ "]") ∧ lower w = "redacted") as (w & -> & Hw).
  { destruct Hm as [-> | ->]; [by exists "redacted"|by exists "REDACTED"]. }
  change (String "[" (w +:+ "]") +:+ s) with ("" +:+ String "[" ((w +:+ "]") +:+ s)).
  rewrite mentions_break by (unfold breaks; set_solver). rewrite mentions_empty, <- str_app_assoc.
  change ("]" +:+ s) with (String "]" s). rewrite mentions_break by (unfold breaks; set_solver).
  unfold mentions at 1. rewrite Hw, mask_word. done.
Qed.

(** The output of a substitution on a text: a prefix of the text, then nothing or
    something led by a break, and no mention. *)
Definition tidy (s out : string) : Prop :=
  mentions f out = false ∧ ∃ k t, out = str_take k s +:+ t ∧ (t = "" ∨ ∃ b t', t = String b t' ∧ b ∈ breaks).

Lemma tidy_empty : tidy "" "".
Proof. split; [apply mentions_empty|]. exists 0, "". split; [done|by left]. Qed.

Lemma startswith_prefix p a b : startswith p a = true → startswith p (a +:+ b) = true.
Proof. rewrite !startswith_spec. intros [t ->]. exists (t +:+ b). by rewrite str_app_assoc. Qed.

Lemma tidy_copy c s out : startswith (lower f) (lower (String c s)) = false → tidy s out → tidy (String c s) (String c out).
Proof.
  intros Hs [Hm (k & t & -> & Ht)]. split; [|exists (S k), t; done].
  unfold mentions in *. change (lower (String c (str_take k s +:+ t))) with (String (lower_char c) (lower (str_take k s +:+ t))).
  cbn [contains]. rewrite Hm, orb_false_r. apply not_true_iff_false. intros Hp. apply not_true_iff_false in Hs. apply Hs.
  change (String (lower_char c) (lower (str_take k s +:+ t))) with (lower (str_take (S k) (String c s) +:+ t)) in Hp.
  rewrite <- (str_take_drop (S k) (String c s)), lower_app. apply startswith_prefix.
  destruct Ht as [-> | (b & t' & -> & Hb)]; [by rewrite str_app_nil_r in Hp|].
  rewrite lower_app in Hp. change (lower (String b t')) with (String (lower_char b) (lower t')) in Hp.
  rewrite startswith_break in Hp; [done| |apply mask_free].
  unfold breaks in *. rewrite !elem_of_cons in Hb. destruct Hb as [->|[->|[->|[] %elem_of_nil] ] ]; set_solver.
Qed.

Lemma tidy_mask m s q out : is_mask m → tidy q out → tidy s (m +:+ out).
Proof.
  intros Hm [Ho _]. split; [by rewrite mentions_mask|]. exists 0, (m +:+ out). split; [by rewrite str_app_nil_l|right].
  destruct Hm as [-> | ->]; eexists "["%char, _; (split; [reflexivity|unfold breaks; set_solver]).
Qed.

Lemma mentions_starts s : mentions f s = false → startswith (lower f) (lower s) = false.
Proof. unfold mentions. destruct (lower s); cbn [contains]; rewrite orb_false_iff; naive_solver. Qed.

Lemma tidy_piece m s out : mentions f (m +:+ s) = false → tidy s out → tidy (m +:+ s) (m +:+ out).
Proof.
  induction m as [|c m IH]; [done|]. intros Hm Ho. rewrite !str_app_cons in *. apply tidy_copy.
  - by apply mentions_starts.
  - apply IH; [|done]. by apply (mentions_suffix (String c "") (m +:+ s)).
Qed.

Definition missed (r : re) (p : pos) : Prop := match ends r p with q :: _ => shorter q p = false | [] => True end.

Lemma head_suffix r p q l : ends r p = q :: l → p.2 = between p q +:+ q.2.
Proof. intros E. apply (Match_suffix r), ends_spec. rewrite E. left. Qed.

Lemma sub_from_tidy r m fuel p :
  is_mask m → str_len p.2 < fuel →
  (∀ prev w s, p.2 = w +:+ s → missed r (prev, s) → startswith (lower f) (lower s) = false) →
  tidy p.2 (sub_from fuel r m p).
Proof.
  intros Hm. revert p. induction fuel as [|n IH]; intros [prev s] Hlen Hmiss; cbn [snd] in *; [lia|].
  destruct s as [|c s]; [apply tidy_empty|]. cbn [sub_from snd].
  assert (Hnext : tidy s (sub_from n r m (Some c, s))).
  { apply (IH (Some c, s)); cbn in *; [lia|]. intros prev' w s' ->. apply (Hmiss prev' (String c w)). done. }
  destruct (ends r (prev, String c s)) as [|q l] eqn:E.
  - apply tidy_copy; [|done]. apply (Hmiss prev ""); [done|]. unfold missed. by rewrite E.
  - destruct (shorter q (prev, String c s)) eqn:Es.
    + apply (tidy_mask m _ q.2); [done|]. apply head_suffix in E. cbn [snd] in E.
      unfold shorter in Es. apply Nat.ltb_lt in Es. cbn [snd] in Es. apply IH; [lia|].
      intros prev' w s' Hs. rewrite Hs in E. apply (Hmiss prev' (between (prev, String c s) q +:+ w)).
      rewrite E at 1. by rewrite str_app_assoc.
    + apply tidy_copy; [|done]. apply (Hmiss prev ""); [done|]. unfold missed. by rewrite E.
Qed.

(** A substitution of a mask keeps a hidden text hidden, and hides the text it is for. *)
Lemma sub_hidden r m s : is_mask m → mentions f s = false → mentions f (sub r m s) = false.
Proof.
  intros Hm Hs. apply (sub_from_tidy r m (S (str_len s)) (None, s)); [done|cbn; lia|].
  cbn [snd]. intros _ w s' -> _. apply mentions_starts. by apply mentions_suffix in Hs.
Qed.

Lemma lit_i_hits g p : startswith (lower g) (lower p.2) = true → ∃ q, ends (lit_i g) p = [q] ∧ str_len q.2 + str_len g = str_len p.2.
Proof.
  revert p. induction g as [|a g IH]; intros [prev s]; cbn [lower map_str startswith snd lit_i ends].
  - intros _. exists (prev, s). cbn. split; [done|lia].
  - destruct s as [|c s]; [done|]. cbn [map_str]. rewrite andb_true_iff. intros [Hc Hs].
    apply bool_decide_eq_true in Hc. rewrite bool_decide_eq_true_2 by done. cbn [flat_map].
    destruct (IH (Some c, s) Hs) as (q & -> & Hq). exists q. cbn in *. split; [done|lia].
Qed.

Lemma sub_hides m s : is_mask m → mentions f (sub (lit_i f) m s) = false.
Proof.
  intros Hm. apply (sub_from_tidy (lit_i f) m (S (str_len s)) (None, s)); [done|cbn; lia|].
  intros prev w s' _ Hmiss. apply not_true_iff_false. intros Hp.
  destruct (lit_i_hits f (prev, s') Hp) as (q & E & Hq). unfold missed in Hmiss. rewrite E in Hmiss.
  unfold shorter in Hmiss. apply Nat.ltb_ge in Hmiss. cbn [snd] in *.
  assert (str_len f ≠ 0). { pose proof mask_nonempty as Hn. by destruct f. } lia.
Qed.

Lemma sub_fun_hidden r g s :
  (∀ m, g m = m ∨ is_mask (g m)) → mentions f s = false → mentions f (sub_fun r g s) = false.
Proof.
  intros Hg Hs. unfold sub_fun.
  enough (∀ fuel p, str_len p.2 < fuel → mentions f p.2 = false → tidy p.2 (sub_fun_from fuel r g p)) as H.
  { apply (H (S (str_len s)) (None, s)); [cbn; lia|done]. }
  clear s Hs. induction fuel as [|n IH]; intros [prev s] Hlen Hs; cbn [snd] in *; [lia|].
  destruct s as [|c s]; [apply tidy_empty|]. cbn [sub_fun_from snd].
  assert (Hcopy : tidy (String c s) (String c (sub_fun_from n r g (Some c, s)))).
  { apply tidy_copy; [by apply mentions_starts|]. apply (IH (Some c, s)); cbn in *; [lia|].
    by apply (mentions_suffix (String c "") s). }
  destruct (ends r (prev, String c s)) as [|q l] eqn:E; [done|].
  destruct (shorter q (prev, String c s)) eqn:Es; [|done].
  apply head_suffix in E. cbn [snd] in E. unfold shorter in Es. apply Nat.ltb_lt in Es. cbn [snd] in Es.
  assert (Hq : tidy q.2 (sub_fun_from n r g q)).
  { apply IH; [lia|]. rewrite E in Hs. by apply mentions_suffix in Hs. }
  destruct (Hg (between (prev, String c s) q)) as [-> | Hm]; [|by eapply tidy_mask].
  rewrite E at 1. apply tidy_piece; [|done]. by rewrite <- E.
Qed.

Lemma tidy_assign s q m out : is_mask m → tidy q out → tidy s ("=" +:+ m +:+ out).
Proof.
  intros Hm [Ho _]. change ("=" +:+ m +:+ out) with ("" +:+ String "=" (m +:+ out)). split.
  - rewrite mentions_break by (unfold breaks; set_solver). by rewrite mentions_empty, mentions_mask.
  - exists 0, (String "=" (m +:+ out)). split; [done|right]. exists "="%char, (m +:+ out).
    split; [done|unfold breaks; set_solver].
Qed.

Lemma group_suffix g post p (m : string) (q : pos) l :
  flat_map (λ q, flat_map (λ r, (λ e, (between q r, e)) <$> ends post r) (ends g q)) (ends RBound p) = (m, q) :: l →
  ∃ x, p.2 = m +:+ x +:+ q.2.
Proof.
  intros E. assert (Hin : (m, q) ∈ (m, q) :: l) by left. rewrite <- E in Hin.
  apply elem_of_flat_map in Hin as (p' & Hp' & Hin). cbn [ends] in Hp'.
  destruct (boundary p); [|by apply elem_of_nil in Hp']. apply list_elem_of_singleton in Hp' as ->.
  apply elem_of_flat_map in Hin as (r & Hr & Hin). apply list_elem_of_fmap in Hin as (e & [= -> ->] & He).
  apply ends_spec, Match_suffix in Hr, He. exists (between r e). by rewrite <- He.
Qed.

Lemma sub_group_hidden g post msk s :
  is_mask msk → mentions f s = false → mentions f (sub_group RBound g post (λ m, m +:+ "=" +:+ msk) s) = false.
Proof.
  intros Hm Hs. unfold sub_group.
  enough (∀ fuel p, str_len p.2 < fuel → mentions f p.2 = false →
            tidy p.2 (sub_group_from fuel RBound g post (λ m, m +:+ "=" +:+ msk) p)) as H.
  { apply (H (S (str_len s)) (None, s)); [cbn; lia|done]. }
  clear s Hs. induction fuel as [|n IH]; intros [prev s] Hlen Hs; cbn [snd] in *; [lia|].
  destruct s as [|c s]; [apply tidy_empty|]. cbn [sub_group_from snd].
  assert (Hcopy : tidy (String c s) (String c (sub_group_from n RBound g post (λ m, m +:+ "=" +:+ msk) (Some c, s)))).
  { apply tidy_copy; [by apply mentions_starts|]. apply (IH (Some c, s)); cbn in *; [lia|].
    by apply (mentions_suffix (String c "") s). }
  destruct (flat_map _ (ends RBound (prev, String c s))) as [|[m q] l] eqn:E; [done|].
  destruct (shorter q (prev, String c s)) eqn:Es; [|done].
  apply group_suffix in E as [x E]. cbn [snd] in E. unfold shorter in Es. apply Nat.ltb_lt in Es. cbn [snd] in Es.
  rewrite <- str_app_assoc. rewrite E at 1. apply tidy_piece; [by rewrite <- E|]. rewrite <- str_app_assoc.
  apply (tidy_assign _ q.2); [done|]. apply IH; [lia|]. rewrite E, str_app_assoc in Hs. by apply mentions_suffix in Hs.
Qed.

Lemma summary_hidden s : mentions f s = false → mentions f (sanitize_error_summary s) = false.
Proof.
  intros Hs. assert (Hr : is_mask REDACTED) by (by right). unfold sanitize_error_summary.
  apply mentions_take, sub_group_hidden; [done|]. apply sub_fun_hidden.
  - intros m. destruct (is_fireworks_credential m); auto.
  - unfold SECRET_VALUE_PATTERNS. cbn [fold_left]. by do 3 (apply sub_hidden; [done|]).
Qed.

Lemma folded_hidden l s : f ∈ l ∨ mentions f s = false → mentions f (fold_left (λ t g, sub (lit_i g) MASK t) l s) = false.
Proof.
  assert (Hm : is_mask MASK) by (by left).
  revert s. induction l as [|g l IH]; intros s; cbn [fold_left]; [intros [[] %elem_of_nil|]; done|].
  intros [Hg|Hs]; [|apply IH; right; by apply sub_hidden].
  apply elem_of_cons in Hg as [<-|Hg]; apply IH; [right; by apply sub_hides|by left].
Qed.

Lemma text_hidden s credential : f ∈ fragments credential → mentions f (sanitize_text s credential) = false.
Proof.
  intros Hin. unfold sanitize_text. apply mentions_take, summary_hidden, folded_hidden. left. by apply elem_of_sort_by.
Qed.
End masks.

Lemma credential_fragment c : c ≠ "" → c ∈ fragments c.
Proof. intros Hc. unfold fragments. cbn [List.filter]. rewrite bool_decide_eq_false_2 by done. left. Qed.

(** whatever a provider sends, no fragment of the credential that can be masked, the credential first, is left in a sanitized text in any case, and the text has at most 500 characters. *)
Theorem sanitized_hides_credential credential text f :
  f ∈ fragments credential → maskable f = true →
  mentions f (sanitize_text text credential) = false ∧ str_len (sanitize_text text credential) ≤ 500.
Proof. intros Hin Hf. split; [by apply text_hidden|]. apply str_len_take. Qed.

Lemma sanitized_hides_credential_witness :
  mentions "sk-or-v1-abcdef" (sanitize_text "bad key SK-OR-V1-ABCDEF, use fw_" "sk-or-v1-abcdef") = false
  ∧ str_len (sanitize_text "bad key SK-OR-V1-ABCDEF, use fw_" "sk-or-v1-abcdef") ≤ 500.
Proof.
  apply (sanitized_hides_credential "sk-or-v1-abcdef" _ "sk-or-v1-abcdef"); [|reflexivity].
  apply credential_fragment. discriminate.
Defined.

Example sanitized_error :
  sanitize_text "401 for SK-OR-V1-ABCDEF: token = x; part abcdefgh" "sk-or-v1-abcdef"
  = "401 for [redacted]: token=[REDACTED]; part [redacted]gh".
Proof. vm_compute. reflexivity. Qed.

(** ** Metadata *)

(** The string values of a value, at any depth; its keys apart. *)
Fixpoint json_texts (v : json) : list string :=
  match v with
  | JStr s => [s]
  | JList l => flat_map json_texts l
  | JObj d => flat_map (λ kv, json_texts kv.2) d
  | _ => []
  end.

Fixpoint json_keys (v : json) : list string :=
  match v with
  | JList l => flat_map json_keys l
  | JObj d => flat_map (λ kv, kv.1 :: json_keys kv.2) d
  | _ => []
  end.

Lemma metadata_texts v credential s :
  s ∈ json_texts (sanitize_metadata v credential) → ∃ t, s = sanitize_text t credential.
Proof.
  revert s. induction v as [| | | |t|l IH|d IH] using json_ind_nested; intros s; cbn [sanitize_metadata json_texts];
    try by intros ?%elem_of_nil.
  - intros ->%list_elem_of_singleton. eauto.
  - induction IH as [|v l Hv _ IHl]; cbn [flat_map]; [by intros ?%elem_of_nil|].
    rewrite elem_of_app. intros [?|?]; auto.
  - induction IH as [|[k v] d Hv _ IHd]; cbn [flat_map]; [by intros ?%elem_of_nil|].
    destruct (secret_key k); [done|]. cbn [flat_map snd]. rewrite elem_of_app. intros [?|?]; auto.
Qed.

(** no string of sanitized metadata holds a maskable fragment of the credential, and no key of it, at any depth, is one of the secret names. *)
Theorem metadata_hides_credential v credential :
  (∀ f s, f ∈ fragments credential → maskable f = true → s ∈ json_texts (sanitize_metadata v credential) →
     mentions f s = false)
  ∧ (∀ k, k ∈ json_keys (sanitize_metadata v credential) → secret_key k = false).
Proof.
  split.
  - intros f s Hin Hf [t ->]%metadata_texts. by apply text_hidden.
  - induction v as [| | | |t|l IH|d IH] using json_ind_nested; intros k; cbn [sanitize_metadata json_keys];
      try by intros ?%elem_of_nil.
    + induction IH as [|v l Hv _ IHl]; cbn [flat_map]; [by intros ?%elem_of_nil|].
      rewrite elem_of_app. intros [?|?]; auto.
    + induction IH as [|[key v] d Hv _ IHd]; cbn [flat_map]; [by intros ?%elem_of_nil|].
      destruct (secret_key key) eqn:E; [done|]. cbn [flat_map fst snd app].
      intros [->|[?|?]%elem_of_app]%elem_of_cons; auto.
Qed.

(** A key is kept as it is, even when it spells the credential. *)
Example key_keeps_credential :
  sanitize_metadata (JObj [("sk-or-v1-abcdef", JInt 1)]) "sk-or-v1-abcdef" = JObj [("sk-or-v1-abcdef", JInt 1)].
Proof. reflexivity. Qed.

Lemma provider_text_ok v field credential s :
  provider_text v field credential = Ok s → v = JStr s ∧ s ≠ "" ∧ s = strip s ∧ sanitize_text s credential = s.
Proof.
  unfold provider_text. destruct v as [| | | |t| |]; try done.
  destruct (decide (t = "")) as [->|Hne]; [done|]. rewrite (bool_decide_eq_false_2 (t = "")) by done. cbn [orb].
  destruct (bool_decide_reflect (t = strip t)); cbn [negb orb]; [|done].
  destruct (negb (str_all printable t)); [done|].
  destruct (bool_decide_reflect (sanitize_text t credential = t)); cbn [negb]; [|done]. by intros [= ->].
Qed.

Lemma sanitize_empty credential : sanitize_text "" credential = "".
Proof.
  unfold sanitize_text. replace (fold_left _ _ "") with ""; [reflexivity|].
  induction (sort_by longest_leb (fragments credential)) as [|g l IH]; [done|]. cbn [fold_left]. done.
Qed.

(** metadata that passes the row check and has no secret-named key is kept unchanged: sanitizing loses nothing of an accepted row. *)
Theorem retained_unchanged v field credential :
  validate_retained_value v field credential = Ok tt → (∀ k, k ∈ json_keys v → secret_key k = false) →
  sanitize_metadata v credential = v.
Proof.
  revert field. induction v as [| | | |t|l IH|d IH] using json_ind_nested; intros field; cbn [validate_retained_value sanitize_metadata json_keys];
    try done.
  - destruct (bool_decide_reflect (t = "")) as [->|]; intros H _; [by rewrite sanitize_empty|].
    apply res_bind_ok in H as (s & (Hs & _ & _ & He)%provider_text_ok & _). injection Hs as ->. by rewrite He.
  - intros H Hk. f_equal. revert H. generalize 0 as index. induction IH as [|v l Hv _ IHl]; intros index H; [done|].
    apply res_bind_ok in H as ([] & H1 & H2). f_equal.
    + eapply Hv; [exact H1|]. intros k Hin. apply Hk. cbn. apply elem_of_app. by left.
    + eapply IHl; [|exact H2]. intros k Hin. apply Hk. cbn. apply elem_of_app. by right.
  - intros H Hk. f_equal. induction IH as [|[key v] d Hv _ IHd]; [done|].
    apply res_bind_ok in H as ([] & H1 & H2). rewrite (Hk key) by (cbn; left). f_equal; [f_equal|].
    + eapply Hv; [exact H1|]. intros k Hin. apply Hk. cbn. right. apply elem_of_app. by left.
    + apply IHd; [exact H2|]. intros k Hin. apply Hk. cbn. right. apply elem_of_app. by right.
Qed.

Lemma retained_unchanged_witness :
  sanitize_metadata (JObj [("name", JStr "accounts/a/models/m"); ("tags", JList [JStr "x"])]) "fw_1234567890ab"
  = JObj [("name", JStr "accounts/a/models/m"); ("tags", JList [JStr "x"])].
Proof.
  apply (retained_unchanged _ "row"); [vm_compute; reflexivity|].
  intros k Hk. cbn in Hk. rewrite !elem_of_cons in Hk. destruct Hk as [->|[->|Hk] ]; [vm_compute; reflexivity..|].
  by apply elem_of_nil in Hk.
Defined.

Example resource_ids :
  (λ s, is_ok (validate_resource_id (JStr s) "id" "fw_1234567890ab"))
    <$> ["openai/gpt-5"; "gpt-5"; "a/b/c"; " a/b"; "a//b"; "-a/b"; "a/b:free"; "a/fw_1234567890ab"; "a/b c"]
  = [true; false; true; false; false; false; true; false; false].
Proof. vm_compute. reflexivity. Qed.
