(* ===== verification/OpenRouter.v ===== *)
(** * The OpenRouter inventory adapter ([benchmarking/providers/openrouter.py])

    One request for the models of a credential; each row becomes an offer, is quarantined
    when it fails the safety checks, or ends the discovery when it raises anything else.
    The HTTP client is an argument: its answer to the one request. *)

From S2P Require Import Prelude.
From S2P Require Import PyStr.
From S2P Require Import PyDict.
From S2P Require Import Regex.
From S2P Require Import Schemas.
From S2P Require Import Catalog.
From S2P Require Import Domain.
From S2P Require Import Reconcile.
From S2P Require Import Sanitize.
From S2P Require Import Resilience.

(** ** Conversions *)

(** [value.strip() if isinstance(value, str) else ""] *)
Definition text (value : json) : string := match value with JStr s => strip s | _ => "" end.

Definition string_list (value : json) : list string :=
  match value with
  | JList l => omap (λ v, match v with JStr s => if s ≡? "" then None else Some s | _ => None end) l
  | _ => []
  end.

(** [int(s)]: at most 4300 digits. *)
Definition parse_int (s : string) : option Z :=
  let '(neg, body) := signed (strip s) in
  match digits 0 0 body with
  | (z, S n, EmptyString) => if S n <=? Z.to_nat 4300 then Some (if neg then (- z)%Z else z) else None
  | _ => None
  end.

(** [int(value)]; [None] is a [TypeError] or a [ValueError]. *)
Definition py_int (value : json) : option Z :=
  match value with
  | JBool b => Some (if b then 1 else 0)%Z
  | JInt z => Some z
  | JFloat q _ => Some (if Qleb 0 q then Qfloor q else (- Qfloor (- q))%Z)
  | JStr s => parse_int s
  | _ => None
  end.

Definition positive_int (value : json) : option Z :=
  match py_int value with Some z => if (0 <? z)%Z then Some z else None | None => None end.

Definition py_float (value : json) : option pyfloat :=
  match value with
  | JBool b => Some (Finite (if b then 1 else 0))
  | JInt z => Some (Finite (Qz z))
  | JFloat q _ => Some (Finite q)
  | JStr s => parse_float s
  | _ => None
  end.

Definition nonnegative_float (value : json) : option pyfloat :=
  match py_float value with
  | Some (Finite q) => if Qleb 0 q then Some (Finite q) else None
  | Some (Infinite false) => Some (Infinite false)
  | _ => None
  end.

Definition per_token_to_per_1k (value : json) : option pyfloat :=
  match nonnegative_float value with
  | Some (Finite q) => Some (Finite (q * 1000)%Q)
  | o => o
  end.

(** A price field of [OfferPricing], which refuses infinities. *)
Definition price_field (o : option pyfloat) : option (option Q) :=
  match o with
  | None => Some None
  | Some (Finite q) => Some (Some q)
  | Some _ => None
  end.

(** [dict.fromkeys(l)] as a tuple of keys. *)
Definition dict_fromkeys (l : list string) : list string := dkeys (fold_left (λ d k, dset d k tt) l []).

Definition as_dict (v : json) : list (string * json) := match v with JObj d => d | _ => [] end.

Definition opt_json (o : option string) : json := match o with Some s => JStr s | None => JNull end.

(** ** Rows *)

Definition INFERENCE_BASE : string := "https://openrouter.ai/api/v1".
Definition adapter_revision : string := "openrouter-user-models-v1".

Section adapter.
Context (ip_host : string → bool) (texts : Texts) (credential : string) (config : DiscoveryConfig).

Definition pricing_of (pricing : list (string * json)) : option OfferPricing :=
  match price_field (per_token_to_per_1k (dict_value pricing "prompt")),
        price_field (per_token_to_per_1k (dict_value pricing "completion")),
        price_field (nonnegative_float (dict_value pricing "request")),
        price_field (nonnegative_float (dict_value pricing "image")) with
  | Some p, Some c, Some r, Some i =>
      Some {| offer_prompt := p; offer_completion := c; offer_request := r; offer_image := i |}
  | _, _, _, _ => None
  end.

(** The record a row becomes, checked as [DiscoveredOffer] checks it. *)
Definition discovered (o : DiscoveredOffer) : res row_error DiscoveredOffer :=
  match check_discovered ip_host o with
  | Some o => Ok o
  | None => Err (Raised "ValidationError" (invalid texts "DiscoveredOffer"))
  end.

Definition modalities_of (row : list (string * json)) : list string :=
  let architecture := as_dict (dict_value row "architecture") in
  dict_fromkeys (string_list (dict_value architecture "input_modalities")
                 ++ string_list (dict_value architecture "output_modalities")).

Definition retained_of (row : list (string * json)) (canonical : string) (hugging_face : option string)
    : list (string * json) :=
  [("canonical_slug", JStr canonical); ("hugging_face_id", opt_json hugging_face);
   ("created", dict_value row "created"); ("expiration_date", dict_value row "expiration_date");
   ("modalities", JList (JStr <$> modalities_of row));
   ("supported_parameters", JList (JStr <$> string_list (dict_value row "supported_parameters")))].

Definition map_offer (row : json) : res row_error DiscoveredOffer :=
  match row with
  | JObj row =>
      try! upstream := validate_resource_id (dict_value row "id") "upstream_model_id" credential in
      try! canonical := validate_resource_id (json_or (dict_value row "canonical_slug") (JStr upstream))
                          "canonical_id" credential in
      try! hugging_face := validate_hugging_face_id ip_host texts (dict_value row "hugging_face_id") credential in
      try! display := validate_display_name (dict_value row "name") upstream credential in
      let top_provider := as_dict (dict_value row "top_provider") in
      let retained := retained_of row canonical hugging_face in
      try! _ := validate_retained_value (JObj retained) "openrouter" credential in
      match pricing_of (as_dict (dict_value row "pricing")) with
      | None => Err (Raised "ValidationError" (invalid texts "OfferPricing"))
      | Some pricing =>
          discovered
            {| do_provider := openrouter; do_upstream := upstream; do_base_url := INFERENCE_BASE;
               do_scope := dc_scope config;
               do_identity := infer_identity_hint upstream display (Some canonical) hugging_face None None None;
               do_capabilities :=
                 {| cap_context_window := positive_int (json_or (dict_value top_provider "context_length")
                                                                (dict_value row "context_length"));
                    cap_max_output_tokens := positive_int (dict_value top_provider "max_completion_tokens");
                    cap_modalities := modalities_of row;
                    cap_supported := string_list (dict_value row "supported_parameters"); cap_residency := [] |};
               do_pricing := pricing;
               do_raw := as_dict (sanitize_metadata (JObj (("source", JStr "models/user") :: retained)) credential) |}
      end
  | _ => Err (UnsafeProviderRow "provider row must be an object")
  end.

(** ** Discovery *)

Definition failed_result (error_summary : string) : DiscoveryResult :=
  {| dr_provider := openrouter; dr_revision := adapter_revision; dr_status := failed; dr_complete := false;
     dr_offers := []; dr_metadata := [("endpoint", JStr "/api/v1/models/user"); ("pages", JInt 0)];
     dr_error := Some error_summary |}.

(** The offers of the rows, in order, and how many were quarantined. *)
Fixpoint map_rows (rows : list json) : res (string * string) (list DiscoveredOffer * nat) :=
  match rows with
  | [] => Ok ([], 0)
  | row :: rows =>
      match map_offer row with
      | Err (Raised cls msg) => Err (cls, msg)
      | Err (UnsafeProviderRow _) => try! r := map_rows rows in Ok (r.1, S r.2)
      | Ok o => try! r := map_rows rows in Ok (o :: r.1, r.2)
      end
  end.

Definition upstream_leb (a b : DiscoveredOffer) : bool := str_leb (do_upstream a) (do_upstream b).

(** What a request can come to: an answer, an [httpx.HTTPError], a timeout of the caller's
    own, or an exception that is none of these. *)
Inductive HttpResult : Type :=
  | Answer (r : Response)
  | HttpError (cls msg : string)
  | TimedOut
  | Escapes (cls msg : string).

Definition rows_of (key : string) (r : Response) : res (string * string) (list json) :=
  try! body := resp_json r in
  match body with
  | JObj d => match dict_value d key with
              | JList rows => Ok rows
              | _ => Err ("ValueError", "response " +:+ key +:+ " must be a list")
              end
  | _ => Err ("ValueError", "response " +:+ key +:+ " must be a list")
  end.

Definition discover (answer : HttpResult) : res (string * string) DiscoveryResult :=
  match answer with
  | Escapes cls msg => Err (cls, msg)
  | TimedOut => Err ("TimeoutError", "")
  | HttpError cls msg => Ok (failed_result (transport_error openrouter "models/user" cls msg credential))
  | Answer r =>
      if (400 <=? resp_status r)%Z then Ok (failed_result (response_error openrouter "models/user" r credential))
      else
        match (try! rows := rows_of "data" r in map_rows rows) with
        | Err (cls, msg) => Ok (failed_result (transport_error openrouter "models/user contract" cls msg credential))
        | Ok (mapped, quarantined) =>
            Ok {| dr_provider := openrouter; dr_revision := adapter_revision; dr_status := success;
                  dr_complete := true; dr_offers := sort_by upstream_leb mapped;
                  dr_metadata := [("endpoint", JStr "/api/v1/models/user"); ("pages", JInt 1);
                                  ("quarantined_rows", JInt (Z.of_nat quarantined))];
                  dr_error := if quarantined =? 0 then None
                              else Some ("openrouter quarantined " +:+ str_of_nat quarantined
                                         +:+ " unsafe provider row(s)") |}
        end
  end.
End adapter.

(** ** What a row becomes *)

Lemma hidden_of_clean f s credential :
  f ∈ fragments credential → maskable f = true → sanitize_text s credential = s → mentions f s = false.
Proof. intros Hin Hf <-. by apply text_hidden. Qed.

Lemma resource_id_clean v field credential s : validate_resource_id v field credential = Ok s → sanitize_text s credential = s.
Proof.
  unfold validate_resource_id. intros (t & Ht & H)%res_bind_ok. destruct (fullmatch _ t); [|done]. injection H as <-.
  by apply provider_text_ok in Ht as (_ & _ & _ & ?).
Qed.

Lemma display_ok v fallback credential s :
  validate_display_name v fallback credential = Ok s → s = fallback ∨ (s ≠ "" ∧ sanitize_text s credential = s).
Proof.
  unfold validate_display_name. set (w := match v with JStr t => JStr (strip t) | v => v end).
  destruct w as [|b|z|q p|[|c t]|l|d]; cbv beta iota zeta; try (by intros [= <-]; left);
    intros (_ & ? & _ & ?)%provider_text_ok; by right.
Qed.

Lemma display_clean v fallback credential s :
  sanitize_text fallback credential = fallback → validate_display_name v fallback credential = Ok s →
  sanitize_text s credential = s.
Proof. by intros Hfb [-> | [_ ?] ]%display_ok. Qed.

Lemma discovered_ok ip_host texts o o' :
  discovered ip_host texts o = Ok o' →
  do_provider o' = do_provider o ∧ do_upstream o' = do_upstream o ∧ do_scope o' = do_scope o
  ∧ do_identity o' = do_identity o ∧ do_raw o' = do_raw o.
Proof.
  unfold discovered, check_discovered. destruct (check_base_url ip_host (do_base_url o)) as [u|]; [|done].
  destruct (negb _ && _ && _ && _ && _); [|done]. by intros [= <-].
Qed.

(** What is kept of an offer that the credential must not reach. *)
Definition kept_texts (o : DiscoveredOffer) : list string :=
  do_upstream o :: ih_display (do_identity o) :: json_texts (JObj (do_raw o)).

Lemma kept_hidden f credential o :
  f ∈ fragments credential → maskable f = true → sanitize_text (do_upstream o) credential = do_upstream o →
  sanitize_text (ih_display (do_identity o)) credential = ih_display (do_identity o) →
  (∃ v, JObj (do_raw o) = sanitize_metadata v credential) → ∀ s, s ∈ kept_texts o → mentions f s = false.
Proof.
  intros Hin Hf Hu Hd [v Hv] s Hs. unfold kept_texts in Hs. rewrite Hv in Hs.
  apply elem_of_cons in Hs as [->|Hs]; [by eapply hidden_of_clean|].
  apply elem_of_cons in Hs as [->|[t ->]%metadata_texts]; [by eapply hidden_of_clean|by apply text_hidden].
Qed.

Lemma sanitized_object d credential : JObj (as_dict (sanitize_metadata (JObj d) credential)) = sanitize_metadata (JObj d) credential.
Proof. done. Qed.

Lemma display_inferred upstream display canonical hf ft q c :
  display ≠ "" → ih_display (infer_identity_hint upstream display canonical hf ft q c) = display.
Proof. intros Hd. unfold infer_identity_hint. destruct (vendor_and_model _) as [v m]. cbn [ih_display]. unfold or_str. by rewrite bool_decide_eq_false_2. Qed.

Lemma display_nonempty v fallback credential s : fallback ≠ "" → validate_display_name v fallback credential = Ok s → s ≠ "".
Proof. by intros Hfb [-> | [? _] ]%display_ok. Qed.

Lemma resource_id_nonempty v field credential s : validate_resource_id v field credential = Ok s → s ≠ "".
Proof.
  unfold validate_resource_id. intros (t & Ht & H)%res_bind_ok. destruct (fullmatch _ t); [|done]. injection H as <-.
  by apply provider_text_ok in Ht as (_ & ? & _).
Qed.

Section discovery.
Context (ip_host : string → bool) (texts : Texts) (credential : string) (config : DiscoveryConfig).
Notation offer_at := (map_offer ip_host texts credential config).
Notation map_all := (map_rows ip_host texts credential config).
Notation discover_at := (discover ip_host texts credential config).

Lemma map_offer_ok row o :
  offer_at row = Ok o →
  do_provider o = openrouter ∧ do_scope o = dc_scope config
  ∧ sanitize_text (do_upstream o) credential = do_upstream o
  ∧ sanitize_text (ih_display (do_identity o)) credential = ih_display (do_identity o)
  ∧ ∃ v, JObj (do_raw o) = sanitize_metadata v credential.
Proof.
  unfold map_offer. destruct row as [| | | | | |row]; try done.
  intros (u & Hu & H)%res_bind_ok. apply res_bind_ok in H as (c & Hc & H). apply res_bind_ok in H as (h & Hh & H).
  apply res_bind_ok in H as (d & Hd & H). apply res_bind_ok in H as (_ & _ & H).
  destruct (pricing_of _) as [p|]; [|done].
  apply discovered_ok in H as (Hp & Hup & Hs & Hi & Hr). cbn [do_provider do_upstream do_scope do_identity do_raw] in *.
  pose proof (resource_id_clean _ _ _ _ Hu) as Hclean.
  rewrite Hp, Hs, Hup, Hi, Hr, display_inferred
    by (eapply display_nonempty; [|exact Hd]; by eapply resource_id_nonempty).
  repeat split; auto; [by eapply display_clean|]. eexists. apply sanitized_object.
Qed.

(** A row is accepted, quarantined, or it raises. *)
Definition accepted (row : json) : option DiscoveredOffer := match offer_at row with Ok o => Some o | Err _ => None end.

Definition quarantined (row : json) : bool := match offer_at row with Err (UnsafeProviderRow _) => true | _ => false end.

Definition raises (row : json) : bool := match offer_at row with Err (Raised _ _) => true | _ => false end.

Lemma map_rows_exact rows :
  if existsb raises rows then is_ok (map_all rows) = false
  else map_all rows = Ok (omap accepted rows, length (List.filter quarantined rows)).
Proof.
  induction rows as [|row rows IH]; [done|]. cbn [existsb map_rows omap list_omap List.filter].
  unfold raises at 1, accepted at 1, quarantined at 1.
  destruct (offer_at row) as [o|[msg|cls msg] ]; cbn [orb]; [..|done];
    (destruct (existsb raises rows);
       [destruct (map_all rows); [done|done]|rewrite IH; done]).
Qed.

(** a listing of rows none of which raises is a complete success with exactly the accepted rows as offers, in the order of their ids; unsafe rows are only counted, and a row that raises fails the whole discovery. *)
Theorem openrouter_discover_exact r rows :
  (resp_status r < 400)%Z → rows_of "data" r = Ok rows →
  ∃ result, discover_at (Answer r) = Ok result ∧ check_result result = true
  ∧ if existsb raises rows then dr_status result = failed ∧ dr_offers result = []
    else dr_status result = success ∧ dr_offers result ≡ₚ omap accepted rows
         ∧ StronglySorted (λ a b, upstream_leb a b = true) (dr_offers result)
         ∧ (dr_error result = None ↔ List.filter quarantined rows = []).
Proof.
  intros Hs Hr. unfold discover. rewrite (proj2 (Z.leb_gt 400 (resp_status r))) by lia. rewrite Hr. cbn [res_bind].
  pose proof (map_rows_exact rows) as H. destruct (existsb raises rows).
  - destruct (map_all rows) as [|[cls msg] ]; [done|]. eexists. split; [done|]. by split.
  - rewrite H. eexists. split; [done|]. split; [done|]. cbn [dr_status dr_offers dr_error].
    repeat split; [apply sort_by_perm|apply sort_by_sorted| |].
    + intros a b. apply str_leb_total.
    + intros a b c. apply str_leb_trans.
    + destruct (List.filter quarantined rows); [done|]. done.
    + by intros ->.
Qed.

(** every offer discovered is OpenRouter's, in the scope of the credential used, and nothing kept of it, its id, its display name or any string of its metadata, mentions a maskable fragment of that credential. *)
Theorem openrouter_discover_confined answer result o :
  discover_at answer = Ok result → o ∈ dr_offers result →
  do_provider o = openrouter ∧ do_scope o = dc_scope config
  ∧ ∀ f s, f ∈ fragments credential → maskable f = true → s ∈ kept_texts o → mentions f s = false.
Proof.
  intros H Ho. assert (∃ row, offer_at row = Ok o) as [row Hrow].
  { revert H. unfold discover. destruct answer as [r|cls msg| |cls msg]; try done.
    2: { intros [= <-]. by apply elem_of_nil in Ho. }
    destruct (400 <=? resp_status r)%Z; [intros [= <-]; by apply elem_of_nil in Ho|].
    destruct (rows_of "data" r) as [rows|[cls msg] ]; cbn [res_bind]; [|intros [= <-]; by apply elem_of_nil in Ho].
    pose proof (map_rows_exact rows) as H. destruct (existsb raises rows).
    - destruct (map_all rows) as [|[cls msg] ]; [done|]. intros [= <-]. by apply elem_of_nil in Ho.
    - rewrite H. intros [= <-]. cbn [dr_offers] in Ho. apply elem_of_sort_by, list_elem_of_omap in Ho as (row & _ & Hrow).
      exists row. unfold accepted in Hrow. destruct (offer_at row); congruence. }
  apply map_offer_ok in Hrow as (? & ? & Hu & Hd & Hv). repeat split; [done..|].
  intros f s Hin Hf Hs. by eapply kept_hidden.
Qed.
End discovery.

(** ** Concrete answers *)

Definition demo_texts : Texts := {| url_error := λ _, "Invalid IPv6 URL"; invalid := λ _, "validation error" |}.

Definition demo_config : DiscoveryConfig :=
  {| dc_scope := {| kind := platform; scope_id := "platform" |}; dc_account_id := ""; dc_deployments := false;
     dc_accounts := false |}.

Definition demo_row (model : string) (hf : json) : json :=
  JObj [("id", JStr model); ("name", JStr "A model "); ("hugging_face_id", hf);
        ("pricing", JObj [("prompt", JStr "0.000001")])].

Definition demo_answer (rows : list json) : Response :=
  {| resp_status := 200; resp_json := Ok (JObj [("data", JList rows)]); resp_text := ""; resp_bytes := 100 |}.

Definition demo_discover (rows : list json) : res (string * string) DiscoveryResult :=
  discover (λ _, true) demo_texts "sk-or-v1-abcdef" demo_config (Answer (demo_answer rows)).

Definition summary_of (r : res (string * string) DiscoveryResult)
    : option (InventoryStatus * list string * option string) :=
  match r with Ok r => Some (dr_status r, do_upstream <$> dr_offers r, dr_error r) | Err _ => None end.

Example clean_rows :
  summary_of (demo_discover [demo_row "b/m" JNull; demo_row "a/m" (JStr "org/m"); demo_row "bad id" JNull])
  = Some (success, ["a/m"; "b/m"], Some "openrouter quarantined 1 unsafe provider row(s)").
Proof. vm_compute. reflexivity. Qed.

(** One row with a malformed link is not quarantined: it fails the whole provider. *)
Example malformed_link_fails_provider :
  summary_of (demo_discover [demo_row "b/m" JNull; demo_row "a/m" (JStr "https://[x/y")])
  = Some (failed, [], Some "openrouter models/user contract failed (ValueError): Invalid IPv6 URL").
Proof. vm_compute. reflexivity. Qed.

(** Rows with the same id are all kept. *)
Example duplicate_rows_kept :
  summary_of (demo_discover [demo_row "a/m" JNull; demo_row "a/m" JNull]) = Some (success, ["a/m"; "a/m"], None).
Proof. vm_compute. reflexivity. Qed.

Lemma openrouter_discover_exact_witness :
  ∃ result, demo_discover [demo_row "b/m" JNull] = Ok result ∧ check_result result = true
  ∧ dr_status result = success.
Proof.
  destruct (openrouter_discover_exact (λ _, true) demo_texts "sk-or-v1-abcdef" demo_config
              (demo_answer [demo_row "b/m" JNull]) [demo_row "b/m" JNull] eq_refl eq_refl) as (result & H1 & H2 & H3).
  exists result. split; [exact H1|]. split; [exact H2|].
  vm_compute (existsb _ _) in H3. exact (proj1 H3).
Defined.

Lemma openrouter_discover_confined_witness :
  ∃ o, do_scope o = dc_scope demo_config ∧ mentions "sk-or-v1-abcdef" (do_upstream o) = false.
Proof.
  destruct (demo_discover [demo_row "b/m" JNull]) as [result|] eqn:E; [|vm_compute in E; discriminate E].
  destruct (dr_offers result) as [|o l] eqn:Eo.
  - exfalso. vm_compute in E. injection E as <-. discriminate Eo.
  - exists o. destruct (openrouter_discover_confined (λ _, true) demo_texts "sk-or-v1-abcdef" demo_config
                          (Answer (demo_answer [demo_row "b/m" JNull])) result o E) as (_ & Hs & Hm).
    + rewrite Eo. left.
    + split; [exact Hs|]. apply Hm; [apply credential_fragment; discriminate|reflexivity|left].
Defined.
