(* ===== verification/Fireworks.v ===== *)
(** * The Fireworks inventory adapter ([benchmarking/providers/fireworks.py])

    Discovery walks several paginated listings: the serverless models, the accounts of the
    credential, and the models and deployments of each account.  A walk is bounded by
    pages, rows, bytes, a deadline shared by all of them and a set of page tokens already
    seen.  The HTTP client and the monotonic clock are arguments: the client's answer may
    depend on every request made so far, the clock is the sequence of its readings. *)

From S2P Require Import Prelude.
From S2P Require Import PyStr.
From S2P Require Import PyDict.
From S2P Require Import Regex.
From S2P Require Import Schemas.
From S2P Require Import Catalog.
From S2P Require Import Domain.
From S2P Require Import Reconcile.
From S2P Require Import Sanitize.
From S2P Require Import OpenRouter.

Definition INFERENCE_BASE : string := "https://api.fireworks.ai/inference/v1".
Definition adapter_revision : string := "fireworks-models-v1".
Definition MAX_ACCOUNTS : nat := 8.
Definition MAX_PAGES : nat := 100.
Definition MAX_ROWS : Z := 50000.
Definition MAX_RESPONSE_BYTES : Z := 8 * 1024 * 1024.
Definition MAX_DISCOVERY_BYTES : Z := 64 * 1024 * 1024.
Definition DISCOVERY_TIMEOUT : Q := 120.

Definition Row : Type := list (string * json).

(** [_PageResult] *)
Record PageResult := {
  pr_rows : list Row;
  pr_pages : nat;
  pr_complete : bool;
  pr_error : option string;
  pr_total : Z;
}.

(** ** Rows *)

Definition is_true (v : json) : bool := match v with JBool true => true | _ => false end.

Definition supports_serverless (row : Row) : bool :=
  is_true (dict_value row "supportsServerless") || is_true (dict_value row "supports_serverless").

Definition unspecified (s : string) : bool := endswith "_UNSPECIFIED" s.

Definition residency_of (placement : Row) (fallback_region : json) : list string :=
  let multi_region := text (dict_value placement "multiRegion") in
  if negb (multi_region ≡? "") && negb (unspecified multi_region) then [multi_region]
  else
    match List.filter (λ r, negb (unspecified r)) (string_list (dict_value placement "regions")) with
    | (_ :: _) as usable => usable
    | [] =>
        let region := or_str (text (dict_value placement "region")) (text fallback_region) in
        if negb (region ≡? "") && negb (unspecified region) then [region] else []
    end.

Section rows.
Context (ip_host : string → bool) (texts : Texts) (credential : string) (config : DiscoveryConfig).

Definition no_prices : OfferPricing :=
  {| offer_prompt := None; offer_completion := None; offer_request := None; offer_image := None |}.

Definition fine_tune_of (row : Row) : res row_error (option string) :=
  if truthy (dict_value row "fineTuningJob")
  then try! s := validate_resource_id (dict_value row "fineTuningJob") "fine_tune" credential in Ok (Some s)
  else Ok None.

(** [_map_model]; [None] is a row that is no offer. *)
Definition map_model (row : Row) (source : string) : res row_error (option DiscoveredOffer) :=
  let name := text (dict_value row "name") in
  if (name ≡? "") || negb (text (dict_value row "state") ∈? [""; "READY"]) || negb (supports_serverless row)
  then Ok None
  else
    try! upstream := validate_resource_id (JStr name) "upstream_model_id" credential in
    let imported_from := dict_value row "importedFrom" in
    try! canonical := validate_resource_id (json_or imported_from (JStr upstream)) "canonical_id" credential in
    try! hugging_face := validate_hugging_face_id ip_host texts (dict_value row "huggingFaceUrl") credential in
    try! display := validate_display_name (dict_value row "displayName") upstream credential in
    try! fine_tune := fine_tune_of row in
    let retained :=
      [("name", JStr upstream); ("state", dict_value row "state"); ("kind", dict_value row "kind");
       ("supportsServerless", JBool (supports_serverless row)); ("importedFrom", imported_from);
       ("fineTuningJob", opt_json fine_tune); ("huggingFaceUrl", opt_json hugging_face)] in
    try! _ := validate_retained_value (JObj retained) "fireworks_model" credential in
    try! o := discovered ip_host texts
      {| do_provider := fireworks; do_upstream := upstream; do_base_url := INFERENCE_BASE;
         do_scope := dc_scope config;
         do_identity := infer_identity_hint upstream display (Some canonical) hugging_face fine_tune None None;
         do_capabilities :=
           {| cap_context_window := positive_int (dict_value row "contextLength"); cap_max_output_tokens := None;
              cap_modalities := if is_true (dict_value row "supportsImageInput") then ["text"; "image"] else ["text"];
              cap_supported := if is_true (dict_value row "supportsTools") then ["tools"] else [];
              cap_residency := [] |};
         do_pricing := no_prices;
         do_raw := as_dict (sanitize_metadata (JObj (("source", JStr source) :: retained)) credential) |} in
    Ok (Some o).

Definition precision_of (row : Row) : option string :=
  let precision := text (dict_value row "precision") in
  if (precision ≡? "") || unspecified precision then None else Some precision.

(** [_map_deployment] *)
Definition map_deployment (row : Row) : res row_error (option DiscoveredOffer) :=
  let name := text (dict_value row "name") in
  if (name ≡? "") || negb (text (dict_value row "state") ≡? "READY") then Ok None
  else
    try! upstream := validate_resource_id (JStr name) "upstream_model_id" credential in
    try! base_model := validate_resource_id (dict_value row "baseModel") "base_model" credential in
    try! display := validate_display_name (dict_value row "displayName") upstream credential in
    let placement := as_dict (dict_value row "placement") in
    let retained :=
      [("name", JStr upstream); ("baseModel", JStr base_model); ("state", dict_value row "state");
       ("precision", opt_json (precision_of row));
       ("placement", JObj [("region", dict_value placement "region"); ("multiRegion", dict_value placement "multiRegion");
                           ("regions", dict_value placement "regions")])] in
    try! _ := validate_retained_value (JObj retained) "fireworks_deployment" credential in
    try! o := discovered ip_host texts
      {| do_provider := fireworks; do_upstream := upstream; do_base_url := INFERENCE_BASE;
         do_scope := dc_scope config;
         do_identity := infer_identity_hint upstream display (Some base_model) None None (precision_of row) None;
         do_capabilities :=
           {| cap_context_window := positive_int (dict_value row "maxContextLength"); cap_max_output_tokens := None;
              cap_modalities := ["text"]; cap_supported := [];
              cap_residency := residency_of placement (dict_value row "region") |};
         do_pricing := no_prices;
         do_raw := as_dict (sanitize_metadata (JObj (("source", JStr "deployments") :: retained)) credential) |} in
    Ok (Some o).

Definition map_row (source : string) (row : Row) : res row_error (option DiscoveredOffer) :=
  if startswith "deployments" source then map_deployment row else map_model row source.
End rows.

(** ** The walk *)

(** A request with the time it was given. *)
Record Request := { rq_path : string; rq_params : list (string * json); rq_timeout : Q }.

(** What a discovery keeps between requests: the requests made, latest first, the
    readings of the clock, and the bytes it may still take. *)
Record Net := { n_requests : list Request; n_readings : nat; n_budget : Z }.

Section walk.
Context (credential : string) (mono : nat → Q) (get : list Request → HttpResult).

Definition tick (n : Net) : Q * Net :=
  (mono (n_readings n), {| n_requests := n_requests n; n_readings := S (n_readings n); n_budget := n_budget n |}).

Definition send (rq : Request) (n : Net) : HttpResult * Net :=
  (get (rq :: n_requests n),
   {| n_requests := rq :: n_requests n; n_readings := n_readings n; n_budget := n_budget n |}).

Definition spend (bytes : Z) (n : Net) : Net :=
  {| n_requests := n_requests n; n_readings := n_readings n; n_budget := (n_budget n - bytes)%Z |}.

(** The rows and counters of a walk so far. *)
Record Walk := { wk_rows : list Row; wk_pages : nat; wk_total : Z; wk_seen : list string; wk_params : list (string * json) }.

(** [_PageResult(tuple(rows), page_count, complete, error, total_rows)] *)
Definition stopped (w : Walk) (complete : bool) (error : option string) : PageResult :=
  {| pr_rows := wk_rows w; pr_pages := wk_pages w; pr_complete := complete; pr_error := error; pr_total := wk_total w |}.

Definition dicts (rows : list json) : list Row := omap (λ v, match v with JObj d => Some d | _ => None end) rows.

Definition ROW_LIMIT_TEXT : string := "provider row limit " +:+ str_of_Z MAX_ROWS +:+ " exceeded".
Definition BYTE_LIMIT_TEXT : string := "provider response byte limit " +:+ str_of_Z MAX_DISCOVERY_BYTES +:+ " exceeded".
Definition PAGE_LIMIT_TEXT : string := "provider page limit " +:+ str_of_nat MAX_PAGES +:+ " exceeded".
Definition DEADLINE_TEXT : string := "overall discovery deadline exceeded".

Section page.
Context (source path list_key : string) (deadline : Q) (row_limit : Z).

Definition fail (w : Walk) (cls msg : string) : PageResult :=
  stopped w false (Some (transport_error fireworks source cls msg credential)).

(** What one page leads to: the walk ends, it goes on, or an exception escapes. *)
Inductive PageStep : Type :=
  | Done (r : PageResult) (n : Net)
  | Next (w : Walk) (n : Net)
  | Escaped (cls msg : string).

(** The rows of an answer that was accepted, and what follows them. *)
Definition take_page (w : Walk) (n : Net) (body : Row) (page_rows : list json) : PageStep :=
  let available := Z.max 0 (row_limit - wk_total w) in
  let accepted_rows := take (Z.to_nat available) page_rows in
  let w := {| wk_rows := wk_rows w ++ dicts accepted_rows; wk_pages := S (wk_pages w);
              wk_total := (wk_total w + Z.of_nat (length accepted_rows))%Z; wk_seen := wk_seen w; wk_params := wk_params w |} in
  let next_page := dict_value body "nextPageToken" in
  if (available <? Z.of_nat (length page_rows))%Z then Done (fail w "RuntimeError" ROW_LIMIT_TEXT) n
  else if negb (truthy next_page) then Done (stopped w true None) n
  else if (row_limit <=? wk_total w)%Z then Done (fail w "RuntimeError" ROW_LIMIT_TEXT) n
  else if MAX_PAGES <=? wk_pages w then Done (fail w "RuntimeError" PAGE_LIMIT_TEXT) n
  else
    let token := json_str next_page in
    if token ∈? wk_seen w then Done (fail w "RuntimeError" "repeated page token") n
    else Next {| wk_rows := wk_rows w; wk_pages := wk_pages w; wk_total := wk_total w; wk_seen := token :: wk_seen w;
                 wk_params := dset (wk_params w) "pageToken" (JStr token) |} n.

(** The answer to a request, up to its rows. *)
Definition read_answer (w : Walk) (n : Net) (r : Response) : PageStep :=
  if (MAX_RESPONSE_BYTES <? Z.of_nat (resp_bytes r))%Z || (n_budget n <? Z.of_nat (resp_bytes r))%Z
  then Done (fail w "RuntimeError" BYTE_LIMIT_TEXT) n
  else
    let n := spend (Z.of_nat (resp_bytes r)) n in
    if (400 <=? resp_status r)%Z then Done (stopped w false (Some (response_error fireworks source r credential))) n
    else
      let '(now, n) := tick n in
      if Qleb deadline now then Done (fail w "TimeoutError" DEADLINE_TEXT) n
      else
        match resp_json r with
        | Err (cls, msg) =>
            Done (stopped w false (Some (transport_error fireworks (source +:+ " contract") cls msg credential))) n
        | Ok body =>
            let '(now, n) := tick n in
            if Qleb deadline now then Done (fail w "TimeoutError" DEADLINE_TEXT) n
            else
              match dict_value (as_dict body) list_key with
              | JList page_rows => take_page w n (as_dict body) page_rows
              | _ => Done (stopped w false (Some (transport_error fireworks (source +:+ " contract") "ValueError"
                                              ("response " +:+ list_key +:+ " must be a list") credential))) n
              end
        end.

(** One turn of the loop. *)
Definition page (w : Walk) (n : Net) : PageStep :=
  if (row_limit <=? 0)%Z then Done (fail w "RuntimeError" ROW_LIMIT_TEXT) n
  else
    let '(now, n) := tick n in
    if Qleb deadline now then Done (fail w "TimeoutError" DEADLINE_TEXT) n
    else
      let '(answer, n) := send {| rq_path := path; rq_params := wk_params w; rq_timeout := (deadline - now)%Q |} n in
      match answer with
      | TimedOut => Done (fail w "TimeoutError" DEADLINE_TEXT) n
      | HttpError cls msg => Done (fail w cls msg) n
      | Escapes cls msg => Escaped cls msg
      | Answer r => read_answer w n r
      end.

(** The loop, one unit of fuel a turn; [None] is the end of the fuel. *)
Fixpoint loop (fuel : nat) (w : Walk) (n : Net) : option (res (string * string) (PageResult * Net)) :=
  match fuel with
  | O => None
  | S fuel =>
      match page w n with
      | Done r n => Some (Ok (r, n))
      | Escaped cls msg => Some (Err (cls, msg))
      | Next w n => loop fuel w n
      end
  end.
End page.

(** [_walk]: the page limit bounds the turns, so the fuel is never what ends it. *)
Definition walk (source path list_key : string) (params : list (string * json)) (deadline : Q) (row_limit : Z) (n : Net)
    : option (res (string * string) (PageResult * Net)) :=
  loop source path list_key deadline row_limit MAX_PAGES
    {| wk_rows := []; wk_pages := 0; wk_total := 0; wk_seen := []; wk_params := params |} n.
End walk.

(** ** Discovery *)

(** A run that may run out of fuel, or raise. *)
Definition run (A : Type) : Type := option (res (string * string) A).

Definition run_bind {A B} (m : run A) (k : A → run B) : run B :=
  match m with
  | None => None
  | Some (Err e) => Some (Err e)
  | Some (Ok a) => k a
  end.

Notation "'go!' x ':=' m 'in' k" := (run_bind m (λ x, k)) (at level 200, x strict pattern, m at level 100, k at level 200) : py_scope.

Record Spec := { sp_source : string; sp_path : string; sp_key : string; sp_params : list (string * json) }.

Definition PAGE_SIZE : string * json := ("pageSize", JInt 200).

Definition serverless_spec : Spec :=
  {| sp_source := "public_serverless"; sp_path := "/v1/accounts/fireworks/models"; sp_key := "models";
     sp_params := [("filter", JStr "supports_serverless=true"); PAGE_SIZE] |}.

Definition accounts_spec : Spec :=
  {| sp_source := "accounts"; sp_path := "/v1/accounts"; sp_key := "accounts"; sp_params := [PAGE_SIZE] |}.

(** The last path segment of an account's name. *)
Definition segment_of (row : Row) : string := List.last (split_on "/" (text (dict_value row "name"))) "".

Definition add_account (ids : list string) (row : Row) : list string :=
  let segment := segment_of row in
  if negb (segment ≡? "") && negb (segment ∈? ids) && fullmatch ACCOUNT_ID_RE segment then ids ++ [segment] else ids.

Definition account_specs (config : DiscoveryConfig) (account : string) : list Spec :=
  let suffix := if account ≡? dc_account_id config then "" else ":" +:+ account in
  {| sp_source := "account_models" +:+ suffix; sp_path := "/v1/accounts/" +:+ account +:+ "/models"; sp_key := "models";
     sp_params := [PAGE_SIZE] |}
  :: (if dc_deployments config
      then [ {| sp_source := "deployments" +:+ suffix; sp_path := "/v1/accounts/" +:+ account +:+ "/deployments";
                sp_key := "deployments"; sp_params := [PAGE_SIZE] |} ]
      else []).

Section discover.
Context (ip_host : string → bool) (texts : Texts) (credential : string) (config : DiscoveryConfig).
Context (mono : nat → Q) (get : list Request → HttpResult).

Definition Pages : Type := list (string * PageResult).

Definition walk_spec (deadline : Q) (s : Spec) (remaining : Z) (n : Net) : run (PageResult * Net) :=
  walk credential mono get (sp_source s) (sp_path s) (sp_key s) (sp_params s) deadline remaining n.

(** The walks of the listings, in order, on what is left of the rows. *)
Fixpoint walk_all (deadline : Q) (specs : list Spec) (pages : Pages) (remaining : Z) (n : Net) : run (Pages * Net) :=
  match specs with
  | [] => Some (Ok (pages, n))
  | s :: specs =>
      go! (r, n) := walk_spec deadline s remaining n in
      walk_all deadline specs (dset pages (sp_source s) r) (remaining - pr_total r) n
  end.

(** The accounts to walk, how many were left out, and the listing they come from. *)
Definition accounts_of (deadline : Q) (n : Net) : run (list string * nat * Pages * Z * Net) :=
  let given := if dc_account_id config ≡? "" then [] else [dc_account_id config] in
  if dc_accounts config && match given with [] => true | _ => false end then
    go! (r, n) := walk_spec deadline accounts_spec MAX_ROWS n in
    let ids := fold_left add_account (pr_rows r) given in
    Some (Ok (take MAX_ACCOUNTS ids, length ids - MAX_ACCOUNTS, [("accounts", r)], (MAX_ROWS - pr_total r)%Z, n))
  else Some (Ok (given, 0, [], MAX_ROWS, n)).

(** What is normalised so far: the first offer of each id, the quarantined rows. *)
Record Normal := { nm_offers : list (string * DiscoveredOffer); nm_quarantined : nat }.

Definition add_offer (o : option DiscoveredOffer) (nm : Normal) : Normal :=
  match o with
  | None => nm
  | Some o => {| nm_offers := dsetdefault (nm_offers nm) (do_upstream o) o; nm_quarantined := nm_quarantined nm |}
  end.

Definition add_quarantined (nm : Normal) : Normal :=
  {| nm_offers := nm_offers nm; nm_quarantined := S (nm_quarantined nm) |}.

(** The rows of one listing; [true] is the deadline. *)
Fixpoint normalize_rows (deadline : Q) (source : string) (rows : list Row) (nm : Normal) (n : Net)
    : res (string * string) (Normal * bool * Net) :=
  match rows with
  | [] => Ok (nm, false, n)
  | row :: rows =>
      let '(now, n) := tick mono n in
      if Qleb deadline now then Ok (nm, true, n)
      else
        match map_row ip_host texts credential config source row with
        | Err (Raised cls msg) => Err (cls, msg)
        | mapped =>
            let nm := match mapped with Ok o => add_offer o nm | Err _ => add_quarantined nm end in
            let '(now, n) := tick mono n in
            if Qleb deadline now then Ok (nm, true, n) else normalize_rows deadline source rows nm n
        end
  end.

Fixpoint normalize_pages (deadline : Q) (pages : Pages) (nm : Normal) (n : Net) : res (string * string) (Normal * bool * Net) :=
  match pages with
  | [] => Ok (nm, false, n)
  | (source, result) :: pages =>
      if source ≡? "accounts" then normalize_pages deadline pages nm n
      else
        try! r := normalize_rows deadline source (pr_rows result) nm n in
        let '(nm, timed_out, n) := r in
        if timed_out : bool then Ok (nm, true, n) else normalize_pages deadline pages nm n
  end.

Definition DISCOVERY_DEADLINE_TEXT : string := "fireworks overall discovery deadline exceeded".

Definition truncated_text (k : nat) : string :=
  "fireworks credential sees " +:+ str_of_nat k +:+ " account(s) beyond the " +:+ str_of_nat MAX_ACCOUNTS
  +:+ "-account discovery cap".

Definition quarantined_text (k : nat) : string := "fireworks quarantined " +:+ str_of_nat k +:+ " unsafe provider row(s)".

Definition source_json (r : PageResult) : json := JObj [("pages", JInt (Z.of_nat (pr_pages r))); ("complete", JBool (pr_complete r))].

Definition finish (pages : Pages) (truncated : nat) (nm : Normal) (timed_out : bool) : DiscoveryResult :=
  let errors := omap (λ kv, pr_error kv.2) pages ++ (if timed_out then [DISCOVERY_DEADLINE_TEXT] else [])
                ++ (if truncated =? 0 then [] else [truncated_text truncated]) in
  let successful_pages := fold_left (λ k (kv : string * PageResult), k + pr_pages kv.2) pages 0 in
  let status := match errors with
                | [] => success
                | _ => if (0 <? length (nm_offers nm)) || (0 <? successful_pages) then partial else failed
                end in
  let summary := errors ++ (if nm_quarantined nm =? 0 then [] else [quarantined_text (nm_quarantined nm)]) in
  {| dr_provider := fireworks; dr_revision := adapter_revision; dr_status := status;
     dr_complete := match errors with [] => true | _ => false end;
     dr_offers := if status ≡? failed then [] else sort_by upstream_leb (nm_offers nm).*2;
     dr_metadata := [("sources", JObj ((λ kv, (kv.1, source_json kv.2)) <$> pages));
                     ("quarantined_rows", JInt (Z.of_nat (nm_quarantined nm)))];
     dr_error := match summary with [] => None | _ => Some (join "; " summary) end |}.

Definition new_normal : Normal := {| nm_offers := []; nm_quarantined := 0 |}.

(** [discover], with what is left of the network's state. *)
Definition discover (n : Net) : run (DiscoveryResult * Net) :=
  let '(now, n) := tick mono n in
  let deadline := (now + DISCOVERY_TIMEOUT)%Q in
  go! (accounts, truncated, pages, remaining, n) := accounts_of deadline n in
  go! (pages, n) := walk_all deadline (serverless_spec :: flat_map (account_specs config) accounts) pages remaining n in
  let '(now, n) := tick mono n in
  if Qleb deadline now then Some (Ok (finish pages truncated new_normal true, n))
  else
    match normalize_pages deadline pages new_normal n with
    | Err e => Some (Err e)
    | Ok (nm, timed_out, n) => Some (Ok (finish pages truncated nm timed_out, n))
    end.

Definition new_net : Net := {| n_requests := []; n_readings := 0; n_budget := MAX_DISCOVERY_BYTES |}.
End discover.

(** ** Bounds of a walk *)

Section bounds.
Context (credential : string) (mono : nat → Q) (get : list Request → HttpResult).
Context (source path list_key : string) (deadline : Q) (row_limit : Z).

(** What holds of a walk in progress, against the network it started from. *)
Record walk_ok (n0 : Net) (w : Walk) (n : Net) : Prop := {
  ok_total : (0 <= wk_total w <= Z.max 0 row_limit)%Z;
  ok_rows : (Z.of_nat (length (wk_rows w)) <= wk_total w)%Z;
  ok_budget : (0 <= n_budget n <= n_budget n0)%Z;
  ok_requests : length (n_requests n) = length (n_requests n0) + wk_pages w;
  ok_pages : wk_pages w < MAX_PAGES;
  ok_seen : NoDup (wk_seen w) ∧ length (wk_seen w) = wk_pages w;
}.

Record page_ok (n0 : Net) (r : PageResult) (n : Net) : Prop := {
  po_total : (0 <= pr_total r <= Z.max 0 row_limit)%Z;
  po_rows : (Z.of_nat (length (pr_rows r)) <= pr_total r)%Z;
  po_budget : (0 <= n_budget n <= n_budget n0)%Z;
  po_requests : length (n_requests n) <= length (n_requests n0) + MAX_PAGES ∧ length (n_requests n0) + pr_pages r <= length (n_requests n);
  po_pages : pr_pages r <= MAX_PAGES;
  po_complete : pr_complete r = true ↔ pr_error r = None;
}.

Lemma dicts_short rows : length (dicts rows) ≤ length rows.
Proof. unfold dicts. induction rows as [|[] rows IH]; cbn [omap list_omap length] in *; cbn; lia. Qed.

Lemma stopped_ok n0 w n n' c e :
  (c = true ↔ e = None) →
  (0 <= wk_total w <= Z.max 0 row_limit)%Z → (Z.of_nat (length (wk_rows w)) <= wk_total w)%Z → (0 <= n_budget n' <= n_budget n0)%Z →
  length (n_requests n') = length (n_requests n0) + n → wk_pages w ≤ n → n ≤ MAX_PAGES →
  page_ok n0 (stopped w c e) n'.
Proof. intros. by constructor; cbn; try lia. Qed.

Definition step_ok (n0 : Net) (s : PageStep) : Prop :=
  match s with
  | Done r n => page_ok n0 r n
  | Next w n => walk_ok n0 w n
  | Escaped _ _ => True
  end.

Definition next_pages (w : Walk) (s : PageStep) : Prop := match s with Next w' _ => wk_pages w' = S (wk_pages w) | _ => True end.

Lemma take_page_ok n0 w n body rows :
  (0 <= wk_total w <= Z.max 0 row_limit)%Z → (Z.of_nat (length (wk_rows w)) <= wk_total w)%Z → (0 <= n_budget n <= n_budget n0)%Z →
  length (n_requests n) = length (n_requests n0) + S (wk_pages w) → wk_pages w < MAX_PAGES → (0 < row_limit)%Z →
  NoDup (wk_seen w) ∧ length (wk_seen w) = wk_pages w →
  step_ok n0 (take_page credential source row_limit w n body rows) ∧ next_pages w (take_page credential source row_limit w n body rows).
Proof.
  intros Ht Hr Hb Hq Hp Hl [Hs Hs']. unfold take_page.
  set (acc := take (Z.to_nat (Z.max 0 (row_limit - wk_total w))) rows).
  assert (Hacc : (Z.of_nat (length acc) <= Z.max 0 (row_limit - wk_total w))%Z).
  { unfold acc. rewrite length_take. lia. }
  pose proof (dicts_short acc) as Hd. cbn [wk_rows wk_pages wk_total wk_seen wk_params].
  set (w' := {| wk_rows := wk_rows w ++ dicts acc |}).
  assert (Hdone : ∀ c e, (c = true ↔ e = None) → page_ok n0 (stopped w' c e) n).
  { intros c e Hce. apply (stopped_ok n0 w' (S (wk_pages w))); unfold w'; cbn; rewrite ?length_app; (done || lia). }
  destruct (Z.ltb_spec (Z.max 0 (row_limit - wk_total w)) (Z.of_nat (length rows))); [split; [by apply Hdone|done] |].
  destruct (negb (truthy _)); [split; [by apply Hdone|done] |].
  destruct (Z.leb_spec row_limit (wk_total w + Z.of_nat (length acc))); [split; [by apply Hdone|done] |].
  destruct (Nat.leb_spec MAX_PAGES (S (wk_pages w))); [split; [by apply Hdone|done] |].
  destruct (bool_decide_reflect (json_str (dict_value body "nextPageToken") ∈ wk_seen w)); [split; [by apply Hdone|done] |].
  split; [|done]. constructor; cbn; rewrite ?length_app; try lia. split; [by constructor|lia].
Qed.

Lemma page_spec n0 w n :
  walk_ok n0 w n →
  step_ok n0 (page credential mono get source path list_key deadline row_limit w n)
  ∧ next_pages w (page credential mono get source path list_key deadline row_limit w n).
Proof.
  intros [Ht Hr Hb Hq Hp Hs]. unfold page.
  destruct (Z.leb_spec row_limit 0); [split; [|done]; apply (stopped_ok n0 w (wk_pages w)); (done || lia)|].
  cbn [tick]. destruct (Qleb deadline _); [split; [|done]; apply (stopped_ok n0 w (wk_pages w)); cbn; (done || lia)|].
  cbn [send n_requests n_readings n_budget].
  destruct (get _) as [r|cls msg| |cls msg]; [|split; [|done]; apply (stopped_ok n0 w (S (wk_pages w))); cbn; (done || lia)..|done].
  unfold read_answer. cbn [n_budget].
  destruct (Z.ltb_spec MAX_RESPONSE_BYTES (Z.of_nat (resp_bytes r))); cbn [orb];
    [split; [|done]; apply (stopped_ok n0 w (S (wk_pages w))); cbn; (done || lia)|].
  destruct (Z.ltb_spec (n_budget n) (Z.of_nat (resp_bytes r)));
    [split; [|done]; apply (stopped_ok n0 w (S (wk_pages w))); cbn; (done || lia)|].
  destruct (400 <=? resp_status r)%Z; [split; [|done]; apply (stopped_ok n0 w (S (wk_pages w))); cbn; (done || lia)|].
  cbn [tick]. destruct (Qleb deadline _); [split; [|done]; apply (stopped_ok n0 w (S (wk_pages w))); cbn; (done || lia)|].
  destruct (resp_json r) as [body|[cls msg] ]; [|split; [|done]; apply (stopped_ok n0 w (S (wk_pages w))); cbn; (done || lia)].
  destruct (Qleb deadline _); [split; [|done]; apply (stopped_ok n0 w (S (wk_pages w))); cbn; (done || lia)|].
  destruct (dict_value (as_dict body) list_key); try (split; [|done]; apply (stopped_ok n0 w (S (wk_pages w))); cbn; (done || lia)).
  apply take_page_ok; cbn; try lia. done.
Qed.

Lemma loop_spec n0 fuel w n :
  walk_ok n0 w n → wk_pages w + fuel = MAX_PAGES →
  match loop credential mono get source path list_key deadline row_limit fuel w n with
  | None => False
  | Some (Ok (r, n')) => page_ok n0 r n'
  | Some (Err _) => True
  end.
Proof.
  revert w n. induction fuel as [|fuel IH]; intros w n Hw Hf; [pose proof (ok_pages _ _ _ Hw); lia|].
  cbn [loop]. destruct (page_spec n0 w n Hw) as [Hs Hn].
  destruct (page _ _ _ _ _ _ _ _ w n) as [r n'|w' n'|cls msg]; cbn [step_ok next_pages] in *; [done|apply IH; [done|lia]|done].
Qed.

(** *** What a walk reads *)

(** The answers to the requests [rs], sent in order after [before]. *)
Fixpoint answers (before rs : list Request) : list HttpResult :=
  match rs with
  | [] => []
  | r :: rs => get (r :: before) :: answers (r :: before) rs
  end.

Definition bytes_of (pages : list Response) : Z := foldr (λ p b, (Z.of_nat (resp_bytes p) + b)%Z) 0%Z pages.

(** The rows a response lists, and whether it names no further page. *)
Definition listed (p : Response) : list json :=
  match resp_json p with
  | Ok body => match dict_value (as_dict body) list_key with JList l => l | _ => [] end
  | Err _ => []
  end.

Definition final_page (p : Response) : bool :=
  match resp_json p with Ok body => negb (truthy (dict_value (as_dict body) "nextPageToken")) | Err _ => false end.

(** Between two states of the network: the requests [rs] were sent, answered by the responses
    [pages], which were taken, then by [rest]. *)
Record reading (n0 n : Net) (rs : list Request) (pages : list Response) (rest : list HttpResult) : Prop := {
  re_sent : n_requests n = rev rs ++ n_requests n0;
  re_answers : answers (n_requests n0) rs = (Answer <$> pages) ++ rest;
  re_small : Forall (λ p, (Z.of_nat (resp_bytes p) <= MAX_RESPONSE_BYTES)%Z) pages;
  re_budget : (n_budget n = n_budget n0 - bytes_of pages)%Z;
}.

(** What a result says of it: the rows of the pages it counts, up to the limit.  Of the responses
    taken the last one may be discounted (an error, or out of time); one answer more may have been
    refused, too large or none at all.  Complete, it has every row of every page, the last of
    which names no further one. *)
Definition walked (n0 : Net) (r : PageResult) (n : Net) : Prop :=
  ∃ rs pages rest counted, reading n0 n rs pages rest ∧
    length rest ≤ 1 ∧
    (∀ p, Answer p ∈ rest → (MAX_RESPONSE_BYTES < Z.of_nat (resp_bytes p) ∨ n_budget n < Z.of_nat (resp_bytes p))%Z) ∧
    counted `prefix_of` pages ∧ length counted = pr_pages r ∧ length pages ≤ S (pr_pages r) ∧
    pr_rows r = dicts (take (Z.to_nat row_limit) (flat_map listed counted)) ∧
    pr_total r = Z.of_nat (length (take (Z.to_nat row_limit) (flat_map listed counted))) ∧
    (pr_complete r = true → counted = pages ∧ rest = [] ∧ (Z.of_nat (length (flat_map listed pages)) <= row_limit)%Z ∧
       ∃ p, last pages = Some p ∧ final_page p = true).

(** The counters of a walk over pages it kept whole. *)
Record counts (pages : list Response) (w : Walk) : Prop := {
  co_pages : length pages = wk_pages w;
  co_rows : wk_rows w = dicts (flat_map listed pages);
  co_total : wk_total w = Z.of_nat (length (flat_map listed pages));
  co_limit : (wk_total w <= Z.max 0 row_limit)%Z;
}.

(** A walk in progress has taken and kept every page it was answered. *)
Definition progress (n0 : Net) (w : Walk) (n : Net) : Prop :=
  ∃ rs pages, reading n0 n rs pages [] ∧ counts pages w.

Lemma answers_app before rs r : answers before (rs ++ [r]) = answers before rs ++ [get (r :: rev rs ++ before)].
Proof.
  revert before. induction rs as [|x rs IH]; intros before; [done|]. cbn [answers app rev]. rewrite IH. cbn [app].
  by rewrite <- app_assoc.
Qed.

Lemma dicts_app l1 l2 : dicts (l1 ++ l2) = dicts l1 ++ dicts l2.
Proof. apply omap_app. Qed.

Lemma flat_map_snoc (pages : list Response) p : flat_map listed (pages ++ [p]) = flat_map listed pages ++ listed p.
Proof. rewrite flat_map_app. cbn. by rewrite app_nil_r. Qed.

Lemma bytes_app l1 l2 : bytes_of (l1 ++ l2) = (bytes_of l1 + bytes_of l2)%Z.
Proof. induction l1 as [|p l1 IH]; cbn; [done|]. fold (bytes_of (l1 ++ l2)). rewrite IH. fold (bytes_of l1). lia. Qed.

(** One more request. *)
Lemma reading_send n0 n rs pages rq n' :
  reading n0 n rs pages [] → n_requests n' = rq :: n_requests n → n_budget n' = n_budget n →
  reading n0 n' (rs ++ [rq]) pages [get (rq :: n_requests n)].
Proof.
  intros [Hs Ha Hf Hb] Hq Hn. constructor; [|by rewrite answers_app, Ha, Hs, app_nil_r|done|congruence].
  by rewrite Hq, Hs, rev_app_distr.
Qed.

(** Its answer, taken. *)
Lemma reading_take n0 n rs pages p n' :
  reading n0 n rs pages [Answer p] → (Z.of_nat (resp_bytes p) <= MAX_RESPONSE_BYTES)%Z →
  n_requests n' = n_requests n → n_budget n' = (n_budget n - Z.of_nat (resp_bytes p))%Z →
  reading n0 n' rs (pages ++ [p]) [].
Proof.
  intros [Hs Ha Hf Hb] Hp Hq Hn. constructor; [by rewrite Hq| | |].
  - by rewrite Ha, fmap_app, app_nil_r.
  - apply Forall_app. split; [done|by constructor].
  - rewrite Hn, Hb, bytes_app. cbn. lia.
Qed.

Lemma reading_frame n0 n n' rs pages rest :
  reading n0 n rs pages rest → n_requests n' = n_requests n → n_budget n' = n_budget n → reading n0 n' rs pages rest.
Proof. intros [Hs Ha Hf Hb] Hq Hn. constructor; congruence || done. Qed.

(** Ended by a failure, on what was counted before it. *)
Lemma walked_failed n0 w n rs pages taken rest e :
  counts pages w → reading n0 n rs (pages ++ taken) rest → length taken + length rest ≤ 1 →
  (∀ p, Answer p ∈ rest → (MAX_RESPONSE_BYTES < Z.of_nat (resp_bytes p) ∨ n_budget n < Z.of_nat (resp_bytes p))%Z) →
  walked n0 (stopped w false e) n.
Proof.
  intros [Hp Hrows Ht Hl] Hr Hlen Hrest. exists rs, (pages ++ taken), rest, pages.
  split; [done|]. split; [lia|]. split; [done|]. split; [by exists taken|]. split; [done|].
  cbn [pr_pages pr_rows pr_total pr_complete stopped]. split; [rewrite length_app; lia|].
  rewrite take_ge by lia. by split_and!.
Qed.

(** Ended by the page it just took. *)
Lemma walked_page n0 w n rs pages p c e :
  reading n0 n rs (pages ++ [p]) [] → wk_pages w = S (length pages) →
  wk_rows w = dicts (take (Z.to_nat row_limit) (flat_map listed (pages ++ [p]))) →
  wk_total w = Z.of_nat (length (take (Z.to_nat row_limit) (flat_map listed (pages ++ [p])))) →
  (c = true → (Z.of_nat (length (flat_map listed (pages ++ [p]))) <= row_limit)%Z ∧ final_page p = true) →
  walked n0 (stopped w c e) n.
Proof.
  intros Hr Hp Hrows Ht Hc. exists rs, (pages ++ [p]), [], (pages ++ [p]).
  split; [done|]. split; [cbn; lia|]. split; [by intros ? ?%elem_of_nil|]. split; [done|].
  cbn [pr_pages pr_rows pr_total pr_complete stopped]. rewrite Hp, length_app. cbn [length].
  split; [lia|]. split; [lia|]. split; [done|]. split; [done|]. intros H. destruct (Hc H) as [H1 H2].
  split; [done|]. split; [done|]. split; [done|]. exists p. by rewrite last_snoc.
Qed.

Definition step_walked (n0 : Net) (s : PageStep) : Prop :=
  match s with
  | Done r n => walked n0 r n
  | Next w n => progress n0 w n
  | Escaped _ _ => True
  end.

Lemma take_page_walked n0 w n rs pages p body :
  counts pages w → reading n0 n rs (pages ++ [p]) [] → resp_json p = Ok body → (0 < row_limit)%Z →
  (∃ l, dict_value (as_dict body) list_key = JList l) →
  step_walked n0 (take_page credential source row_limit w n (as_dict body) (listed p)).
Proof.
  intros [Hp Hrows Ht Hl] Hr Hj Hlim [l Hlist]. unfold take_page.
  set (avail := Z.max 0 (row_limit - wk_total w)). set (acc := take (Z.to_nat avail) (listed p)).
  set (w' := {| wk_rows := wk_rows w ++ dicts acc |}). cbn [wk_pages wk_total wk_rows wk_seen].
  assert (take (Z.to_nat row_limit) (flat_map listed (pages ++ [p])) = flat_map listed pages ++ acc) as Htake.
  { rewrite flat_map_snoc, take_app_ge by lia. unfold acc, avail. do 2 f_equal. lia. }
  assert (∀ c e, (c = true → (Z.of_nat (length (flat_map listed (pages ++ [p]))) <= row_limit)%Z ∧ final_page p = true) →
    walked n0 (stopped w' c e) n) as Hdone.
  { intros c e Hc. apply (walked_page n0 w' n rs pages p); [done|cbn; lia| | |done].
    - rewrite Htake. cbn. by rewrite Hrows, dicts_app.
    - rewrite Htake, length_app. cbn. lia. }
  destruct (Z.ltb_spec avail (Z.of_nat (length (listed p)))) as [?|Hfit]; [by apply Hdone|].
  assert (Z.of_nat (length (flat_map listed (pages ++ [p]))) <= row_limit)%Z as Hall.
  { rewrite flat_map_snoc, length_app. unfold avail in Hfit. lia. }
  destruct (negb (truthy _)) eqn:Etok.
  { apply Hdone. intros _. split; [done|]. unfold final_page. by rewrite Hj. }
  destruct (Z.leb_spec row_limit (wk_total w')) as [?|Hroom]; [by apply Hdone|].
  destruct (Nat.leb_spec MAX_PAGES (wk_pages w')); [by apply Hdone|].
  destruct (_ ∈? _); [by apply Hdone|].
  assert (acc = listed p) as Hacc by (apply take_ge; lia).
  exists rs, (pages ++ [p]). split; [done|]. constructor; cbn [wk_pages wk_rows wk_total].
  - rewrite length_app. cbn. lia.
  - cbn. by rewrite flat_map_snoc, dicts_app, Hrows, Hacc.
  - cbn. rewrite flat_map_snoc, length_app, Hacc. lia.
  - cbn in Hroom |- *. lia.
Qed.

Lemma page_walked n0 w n :
  progress n0 w n → step_walked n0 (page credential mono get source path list_key deadline row_limit w n).
Proof.
  intros (rs & pages & Hr & Hc). unfold page.
  assert (∀ n' e, n_requests n' = n_requests n → n_budget n' = n_budget n → walked n0 (stopped w false e) n') as Hstop.
  { intros n' e H1 H2. apply (walked_failed n0 w n' rs pages [] []); [done| |cbn; lia|by intros ? ?%elem_of_nil].
    rewrite app_nil_r. by eapply reading_frame. }
  destruct (Z.leb_spec row_limit 0) as [?|Hlim]; [by apply Hstop|].
  cbn [tick]. destruct (Qleb deadline _); [by apply Hstop|]. cbn [send n_requests].
  set (rq := {| rq_path := path |}).
  match goal with |- context [match get _ with Answer _ => _ | _ => _ end] =>
    pose proof (λ n' H1 H2, reading_send n0 n rs pages rq n' Hr H1 H2) as Hsent end.
  destruct (get (rq :: n_requests n)) as [p|cls msg| |cls msg] eqn:Eget; [| | |done].
  2,3: apply (walked_failed n0 w _ (rs ++ [rq]) pages [] [get (rq :: n_requests n)]); rewrite ?app_nil_r;
    [done|rewrite Eget; by apply Hsent|cbn; lia|rewrite Eget; by intros q ?%list_elem_of_singleton].
  unfold read_answer. cbn [n_budget].
  destruct (Z.ltb_spec MAX_RESPONSE_BYTES (Z.of_nat (resp_bytes p))) as [?|Hsmall]; cbn [orb].
  { apply (walked_failed n0 w _ (rs ++ [rq]) pages [] [Answer p]); rewrite ?app_nil_r;
      [done|by apply Hsent|cbn; lia|]. intros q [= ->]%list_elem_of_singleton. by left. }
  destruct (Z.ltb_spec (n_budget n) (Z.of_nat (resp_bytes p))) as [?|Hbudget].
  { apply (walked_failed n0 w _ (rs ++ [rq]) pages [] [Answer p]); rewrite ?app_nil_r;
      [done|by apply Hsent|cbn; lia|]. intros q [= ->]%list_elem_of_singleton. by right. }
  set (n1 := {| n_requests := rq :: n_requests n; n_readings := S (n_readings n); n_budget := n_budget n |}).
  assert (∀ n', n_requests n' = rq :: n_requests n → n_budget n' = (n_budget n - Z.of_nat (resp_bytes p))%Z →
    reading n0 n' (rs ++ [rq]) (pages ++ [p]) []) as Htook.
  { intros n' H1 H2. apply (reading_take n0 n1 (rs ++ [rq]) pages p n'); [by apply Hsent|done..]. }
  assert (∀ n' e, n_requests n' = rq :: n_requests n → n_budget n' = (n_budget n - Z.of_nat (resp_bytes p))%Z →
    walked n0 (stopped w false e) n') as Hlost.
  { intros n' e H1 H2. apply (walked_failed n0 w n' (rs ++ [rq]) pages [p] []); [done|by apply Htook|cbn; lia|].
    by intros ? ?%elem_of_nil. }
  destruct (400 <=? resp_status p)%Z; [by apply Hlost|]. cbn [tick]. destruct (Qleb deadline _); [by apply Hlost|].
  destruct (resp_json p) as [body|[cls msg] ] eqn:Ej; [|by apply Hlost].
  destruct (Qleb deadline _); [by apply Hlost|].
  destruct (dict_value (as_dict body) list_key) as [| | | | |l|] eqn:El; try by apply Hlost.
  assert (l = listed p) as -> by (unfold listed; by rewrite Ej, El).
  eapply take_page_walked; [done|by apply Htook|done|done|by eexists].
Qed.

Lemma loop_walked n0 fuel w n :
  progress n0 w n →
  match loop credential mono get source path list_key deadline row_limit fuel w n with
  | Some (Ok (r, n')) => walked n0 r n'
  | _ => True
  end.
Proof.
  revert w n. induction fuel as [|fuel IH]; intros w n Hw; cbn [loop]; [done|].
  pose proof (page_walked n0 w n Hw) as Hs.
  destruct (page _ _ _ _ _ _ _ _ w n) as [r n'|w' n'|cls msg]; cbn [step_walked] in *; [done|by apply IH|done].
Qed.
End bounds.

Lemma walk_spec_ok credential mono get source path list_key params deadline row_limit n :
  (0 <= n_budget n)%Z →
  match walk credential mono get source path list_key params deadline row_limit n with
  | None => False
  | Some (Ok (r, n')) => page_ok row_limit n r n'
  | Some (Err _) => True
  end.
Proof.
  intros Hb. unfold walk. apply loop_spec; [|done]. constructor; cbn; try lia; [unfold MAX_PAGES; lia|].
  split; [constructor|done].
Qed.

Lemma walk_walked credential mono get source path list_key params deadline row_limit n :
  match walk credential mono get source path list_key params deadline row_limit n with
  | Some (Ok (r, n')) => walked get list_key row_limit n r n'
  | _ => True
  end.
Proof.
  unfold walk. apply loop_walked. exists [], []. split; [|constructor; cbn; first [done|lia]].
  constructor; [done|done|constructor|cbn; lia].
Qed.

(** C29: a walk of a paginated listing always comes to an end (or an exception of the transport
    escapes it), within the page limit and within the rows and bytes it was allowed.  What it
    reports is what it read: its requests were answered by responses each within the byte limit of
    a response, whose bytes together are exactly what the budget lost and never more than it held,
    and by at most one answer that was not taken, being none or larger than one of the limits; its
    rows are those listed by the pages it counts, cut at the row limit, and only the last response
    taken may be left out of the count.  It reports an error exactly when it is not complete, and
    when it is complete it kept every row of every page up to one that names no further page. *)
Theorem walk_bounded credential mono get source path list_key params deadline row_limit n :
  (0 <= n_budget n)%Z →
  ∃ out, walk credential mono get source path list_key params deadline row_limit n = Some out
  ∧ match out with
    | Err _ => True
    | Ok (r, n') =>
        (0 <= pr_total r <= Z.max 0 row_limit)%Z ∧ (Z.of_nat (length (pr_rows r)) <= pr_total r)%Z
        ∧ pr_pages r ≤ MAX_PAGES ∧ length (n_requests n') ≤ length (n_requests n) + MAX_PAGES
        ∧ (0 <= n_budget n')%Z ∧ walked get list_key row_limit n r n' ∧ (pr_complete r = true ↔ pr_error r = None)
    end.
Proof.
  intros Hb. pose proof (walk_spec_ok credential mono get source path list_key params deadline row_limit n Hb) as H.
  pose proof (walk_walked credential mono get source path list_key params deadline row_limit n) as Hw.
  destruct (walk _ _ _ _ _ _ _ _ _ n) as [ [ [r n']|e]|]; [|by eexists|done].
  eexists. split; [done|]. destruct H as [? ? [? _] [? _] ? ?]. done.
Qed.

(** ** Bounds of a discovery *)

Definition total_of (pages : Pages) : Z := foldr (λ kv t, (pr_total kv.2 + t)%Z) 0%Z pages.

Definition fits (pages : Pages) : Prop :=
  ∀ k r, (k, r) ∈ pages → (0 <= Z.of_nat (length (pr_rows r)) <= pr_total r)%Z ∧ (pr_complete r = true ↔ pr_error r = None).

Lemma total_dset pages k r :
  fits pages → (0 <= pr_total r)%Z → (total_of (dset pages k r) <= total_of pages + pr_total r)%Z.
Proof.
  induction pages as [|[k' r'] pages IH]; intros Hf Hr; cbn [dset]; [cbn; lia|].
  assert (fits pages) as Hf' by (intros ? ? ?; eapply Hf; right; done).
  assert (0 <= pr_total r')%Z by (destruct (Hf k' r'); [left|lia]).
  destruct (decide (k = k')); cbn [total_of foldr snd]; [lia|]. specialize (IH Hf' Hr). unfold total_of in *. lia.
Qed.

Lemma fits_dset pages k r n0 n limit : fits pages → page_ok limit n0 r n → fits (dset pages k r).
Proof.
  intros Hf Hp k' r' [ [-> ->]|H]%elem_of_dset; [|by eapply Hf]. destruct Hp as [? ? _ _ _ ?]. split; [lia|done].
Qed.

Section discovery.
Context (ip_host : string → bool) (texts : Texts) (credential : string) (config : DiscoveryConfig).
Context (mono : nat → Q) (get : list Request → HttpResult).

(** What a sequence of walks may have used. *)
Record used (k : nat) (n n' : Net) : Prop := {
  us_requests : length (n_requests n') ≤ length (n_requests n) + k * MAX_PAGES;
  us_budget : (0 <= n_budget n' <= n_budget n)%Z;
}.

Lemma walk_all_ok deadline specs pages remaining n :
  fits pages → (0 <= n_budget n)%Z →
  match walk_all credential mono get deadline specs pages remaining n with
  | None => False
  | Some (Err _) => True
  | Some (Ok (pages', n')) =>
      fits pages' ∧ (total_of pages' <= total_of pages + Z.max 0 remaining)%Z ∧ used (length specs) n n'
      ∧ dkeys pages' = fold_left (λ l s, if sp_source s ∈? l then l else l ++ [sp_source s]) specs (dkeys pages)
  end.
Proof.
  revert pages remaining n. induction specs as [|s specs IH]; intros pages remaining n Hf Hb; cbn [walk_all].
  { split; [done|]. split; [lia|]. split; [|done]. constructor; cbn; lia. }
  pose proof (walk_spec_ok credential mono get (sp_source s) (sp_path s) (sp_key s) (sp_params s) deadline remaining n Hb) as H.
  unfold walk_spec. destruct (walk _ _ _ _ _ _ _ _ _ n) as [ [ [r n']|e]|]; cbn [run_bind]; [|done|done].
  pose proof (fits_dset pages (sp_source s) r n n' remaining Hf H) as Hf'. destruct H as [Ht Hr Hbud Hq _ _].
  specialize (IH (dset pages (sp_source s) r) (remaining - pr_total r)%Z n' Hf' (proj1 Hbud)).
  destruct (walk_all _ _ _ _ _ _ _ n') as [ [ [pages' n'']|e]|]; [|done|done].
  destruct IH as (? & Hsum & [Hq' Hb'] & Hk). pose proof (total_dset pages (sp_source s) r Hf). split; [done|].
  split; [lia|]. split; [constructor; cbn [length]; nia|]. rewrite Hk. cbn [fold_left]. f_equal.
  rewrite dkeys_dset. pose proof (dmem_spec pages (sp_source s)). 
  destruct (bool_decide_reflect (sp_source s ∈ dkeys pages)), (dmem pages (sp_source s)); naive_solver.
Qed.

Lemma accounts_ok deadline n :
  (0 <= n_budget n)%Z →
  match accounts_of credential config mono get deadline n with
  | None => False
  | Some (Err _) => True
  | Some (Ok (ids, _, pages, remaining, n')) =>
      fits pages ∧ length ids ≤ MAX_ACCOUNTS ∧ (total_of pages + Z.max 0 remaining <= MAX_ROWS)%Z ∧ used 1 n n'
  end.
Proof.
  intros Hb. unfold accounts_of. destruct (dc_accounts config && _).
  - unfold walk_spec. pose proof (walk_spec_ok credential mono get (sp_source accounts_spec) (sp_path accounts_spec) (sp_key accounts_spec) (sp_params accounts_spec) deadline MAX_ROWS n Hb) as H.
    destruct (walk _ _ _ _ _ _ _ _ _ n) as [ [ [r n']|e]|]; cbn [run_bind]; [|done|done].
    split. { intros k r' [= -> ->]%list_elem_of_singleton. destruct H as [? ? _ _ _ ?]. split; [lia|done]. }
    destruct H as [Ht Hr Hbud Hq _ _]. rewrite length_take. split; [lia|]. cbn [total_of foldr snd].
    unfold MAX_ROWS in *. split; [lia|]. constructor; lia.
  - split; [by intros ? ? ?%elem_of_nil|]. split; [destruct (_ ≡? ""); cbn; unfold MAX_ACCOUNTS; lia|].
    cbn [total_of foldr]. split; [unfold MAX_ROWS; lia|]. constructor; lia.
Qed.

(** The rows that are normalised, each with the listing it comes from, and what one adds. *)
Definition rows_in (pages : Pages) : list (string * Row) :=
  flat_map (λ kv, if kv.1 ≡? "accounts" then [] else (λ row, (kv.1, row)) <$> pr_rows kv.2) pages.

Notation row_of := (λ sr : string * Row, map_row ip_host texts credential config sr.1 sr.2).

Definition add_row (nm : Normal) (sr : string * Row) : Normal :=
  match row_of sr with Ok o => add_offer o nm | Err _ => add_quarantined nm end.

Lemma normalize_rows_spec deadline source rows nm n nm' b n' :
  normalize_rows ip_host texts credential config mono deadline source rows nm n = Ok (nm', b, n') →
  ∃ k, nm' = fold_left add_row (take k ((λ row, (source, row)) <$> rows)) nm ∧ (b = false → length rows ≤ k)
       ∧ n_requests n' = n_requests n ∧ n_budget n' = n_budget n.
Proof.
  revert nm n. induction rows as [|row rows IH]; intros nm n; cbn [normalize_rows].
  { intros [= <- <- <-]. exists 0. done. }
  cbn [tick]. destruct (Qleb deadline _); [intros [= <- <- <-]; exists 0; done|].
  destruct (map_row _ _ _ _ source row) as [o|[msg|cls msg] ] eqn:E; [..|done].
  all: destruct (Qleb deadline _);
    [intros [= <- <- <-]; exists 1; cbn [fmap list_fmap take fold_left]; unfold add_row; cbn [fst snd]; rewrite E; done|].
  all: intros (k & -> & Hk & Hq & Hb)%IH; exists (S k); cbn [fmap list_fmap take fold_left length];
    unfold add_row at 3; cbn [fst snd]; rewrite E; split; [done|]; split; [intros Hb'; specialize (Hk Hb'); lia|done].
Qed.

Lemma normalize_pages_spec deadline pages nm n nm' b n' :
  normalize_pages ip_host texts credential config mono deadline pages nm n = Ok (nm', b, n') →
  ∃ k, nm' = fold_left add_row (take k (rows_in pages)) nm ∧ (b = false → length (rows_in pages) ≤ k)
       ∧ n_requests n' = n_requests n ∧ n_budget n' = n_budget n.
Proof.
  revert nm n. induction pages as [|[source r] pages IH]; intros nm n; cbn [normalize_pages rows_in flat_map fst snd].
  { intros [= <- <- <-]. exists 0. done. }
  destruct (source ≡? "accounts"); [by intros ?%IH|].
  intros ( [ [nm1 b1] n1] & H1%normalize_rows_spec & H2)%res_bind_ok. destruct H1 as (k1 & -> & Hk1 & Hq1 & Hb1).
  destruct b1.
  - injection H2 as <- <- <-. exists (k1 `min` length (pr_rows r)). rewrite take_app_le by (rewrite length_fmap; lia).
    split; [|done]. f_equal. destruct (Nat.le_gt_cases k1 (length (pr_rows r))); [f_equal; lia|].
    rewrite !take_ge; rewrite ?length_fmap; [done|lia..].
  - apply IH in H2 as (k2 & -> & Hk2 & Hq2 & Hb2). specialize (Hk1 eq_refl). exists (length (pr_rows r) + k2).
    rewrite take_app_add' by (by rewrite length_fmap). rewrite fold_left_app, (take_ge (_ <$> pr_rows r) k1) by (by rewrite length_fmap).
    split; [done|]. rewrite length_app, length_fmap. split; [intros Hb'; specialize (Hk2 Hb'); unfold rows_in in Hk2; lia|].
    by rewrite Hq2, Hb2.
Qed.

(** The offers of the rows, and the dict that keeps the first of each id. *)
Definition offers_of (rows : list (string * Row)) : list DiscoveredOffer :=
  omap (λ sr, match row_of sr with Ok o => o | Err _ => None end) rows.

Definition keep_first (d : list (string * DiscoveredOffer)) (o : DiscoveredOffer) : list (string * DiscoveredOffer) :=
  dsetdefault d (do_upstream o) o.

Lemma offers_folded rows nm : nm_offers (fold_left add_row rows nm) = fold_left keep_first (offers_of rows) (nm_offers nm).
Proof.
  revert nm. induction rows as [|sr rows IH]; intros nm; [done|]. cbn [fold_left]. rewrite IH. unfold offers_of, add_row.
  cbn [omap list_omap]. by destruct (row_of sr) as [ [o|]|].
Qed.

Lemma dget_dsetdefault {V} (d : list (string * V)) k v k' :
  dget (dsetdefault d k v) k' = match dget d k' with Some w => Some w | None => if decide (k' = k) then Some v else None end.
Proof.
  unfold dsetdefault, dmem. destruct (dget d k) eqn:E.
  - destruct (dget d k') eqn:E'; [done|]. destruct (decide (k' = k)); congruence.
  - destruct (decide (k' = k)) as [->|].
    + by rewrite dget_dset_eq, E.
    + rewrite dget_dset_ne by done. by destruct (dget d k').
Qed.

Definition first_of (k : string) (l : list DiscoveredOffer) : option DiscoveredOffer := List.find (λ o, do_upstream o ≡? k) l.

Lemma dget_first l d k : dget (fold_left keep_first l d) k = match dget d k with Some o => Some o | None => first_of k l end.
Proof.
  revert d. induction l as [|o l IH]; intros d; cbn [fold_left]; [by destruct (dget d k)|].
  rewrite IH. unfold keep_first. rewrite dget_dsetdefault. destruct (dget d k); [done|]. cbn [first_of List.find].
  destruct (decide (k = do_upstream o)) as [->|]; [by rewrite bool_decide_eq_true_2|by rewrite bool_decide_eq_false_2].
Qed.

Lemma keep_first_inv l d :
  NoDup (dkeys d) → (∀ k o, (k, o) ∈ d → k = do_upstream o) →
  let d' := fold_left keep_first l d in
  NoDup (dkeys d') ∧ (∀ k o, (k, o) ∈ d' → k = do_upstream o) ∧ length d' ≤ length d + length l.
Proof.
  revert d. induction l as [|o l IH]; intros d Hn Hk; cbn [fold_left length]; [split; [done|split; [done|lia] ]|].
  assert (NoDup (dkeys (keep_first d o)) ∧ (∀ k o', (k, o') ∈ keep_first d o → k = do_upstream o')
          ∧ length (keep_first d o) ≤ S (length d)) as (H1 & H2 & H3).
  { unfold keep_first, dsetdefault. destruct (dmem d (do_upstream o)); [split; [done|split; [done|lia] ]|].
    split; [by apply NoDup_dset|]. split; [|rewrite length_dset; destruct (dmem d (do_upstream o)); lia].
    intros k o' [ [-> ->]|?]%elem_of_dset; auto. }
  destruct (IH _ H1 H2) as (? & ? & ?). split; [done|]. split; [done|]. lia.
Qed.

Lemma rows_in_short pages : fits pages → (Z.of_nat (length (rows_in pages)) <= total_of pages)%Z.
Proof.
  induction pages as [|[k r] pages IH]; intros Hf; [done|]. cbn [rows_in flat_map fst snd total_of foldr].
  assert (fits pages) as Hf' by (intros ? ? ?; eapply Hf; right; done). specialize (IH Hf').
  destruct (Hf k r) as [? _]; [left|]. unfold rows_in, total_of in *. rewrite length_app.
  destruct (k ≡? "accounts"); rewrite ?length_fmap; cbn [length]; lia.
Qed.

Lemma specs_short ids : length (flat_map (account_specs config) ids) ≤ 2 * length ids.
Proof.
  induction ids as [|i ids IH]; [done|]. cbn [flat_map length]. rewrite length_app. unfold account_specs at 1.
  destruct (dc_deployments config); cbn [length]; lia.
Qed.

Notation discover_at := (discover ip_host texts credential config mono get).

Record discovered_from (n : Net) (result : DiscoveryResult) (n' : Net) (pages : Pages) (truncated k : nat) (late : bool) : Prop := {
  df_fits : fits pages;
  df_total : (total_of pages <= MAX_ROWS)%Z;
  df_used : used 18 n n';
  df_k : late = false → length (rows_in pages) ≤ k;
  df_result : result = finish pages truncated (fold_left add_row (take k (rows_in pages)) new_normal) late;
}.

Lemma discover_spec n :
  (0 <= n_budget n)%Z →
  match discover_at n with
  | None => False
  | Some (Err _) => True
  | Some (Ok (result, n')) => ∃ pages truncated k late, discovered_from n result n' pages truncated k late
  end.
Proof.
  intros Hb. unfold discover. cbn [tick]. set (n1 := {| n_requests := n_requests n |}).
  set (deadline := (mono (n_readings n) + DISCOVERY_TIMEOUT)%Q).
  assert (Hb1 : (0 <= n_budget n1)%Z) by done. pose proof (accounts_ok deadline n1 Hb1) as Ha.
  destruct (accounts_of _ _ _ _ deadline n1) as [ [ [ [ [ [ids truncated] pages] remaining] n2]|e]|]; cbn [run_bind]; [|done|done].
  destruct Ha as (Hf & Hids & Htot & [Hq2 Hb2]).
  pose proof (walk_all_ok deadline (serverless_spec :: flat_map (account_specs config) ids) pages remaining n2 Hf (proj1 Hb2)) as Hw.
  destruct (walk_all _ _ _ _ _ pages remaining n2) as [ [ [pages' n3]|e]|]; cbn [run_bind]; [|done|done].
  destruct Hw as (Hf' & Htot' & [Hq3 Hb3] & _). cbn [length] in Hq3. pose proof (specs_short ids) as Hs.
  assert (Hu : ∀ n4, n_requests n4 = n_requests n3 → n_budget n4 = n_budget n3 → used 18 n n4).
  { intros n4 E1 E2. unfold n1, MAX_ACCOUNTS, MAX_PAGES in *. cbn [n_requests n_budget] in *.
    constructor; rewrite ?E1, ?E2; unfold MAX_PAGES; lia. }
  destruct (Qleb deadline _).
  { exists pages', truncated, 0, true. constructor; [done|lia|by apply Hu|done|done]. }
  destruct (normalize_pages _ _ _ _ _ deadline pages' _ _) as [ [ [nm late] n4]|e] eqn:En; [|done].
  apply normalize_pages_spec in En as (k & -> & Hk & Eq & Eb).
  exists pages', truncated, k, late. constructor; [done|lia|by apply Hu|done|done].
Qed.

Lemma kept_normal rows :
  let d := nm_offers (fold_left add_row rows new_normal) in
  NoDup (dkeys d) ∧ (∀ k o, (k, o) ∈ d → k = do_upstream o) ∧ length d ≤ length rows
  ∧ ∀ o, o ∈ d.*2 ↔ first_of (do_upstream o) (offers_of rows) = Some o.
Proof.
  cbn zeta. rewrite offers_folded. cbn [new_normal nm_offers].
  destruct (keep_first_inv (offers_of rows) [] (NoDup_nil_2)) as (Hn & Hk & Hl); [by intros ? ? ?%elem_of_nil|].
  split; [done|]. split; [done|]. split; [pose proof (omap_short (λ sr, match row_of sr with Ok o => o | Err _ => None end) rows); cbn [length] in Hl; unfold offers_of in *; lia|].
  intros o. pose proof (dget_first (offers_of rows) [] (do_upstream o)) as Hd. cbn [dget] in Hd. split.
  - intros ([k o'] & -> & Hin)%list_elem_of_fmap. cbn [snd] in *. rewrite <- Hd.
    pose proof (Hk _ _ Hin) as ->. by apply elem_dget.
  - rewrite <- Hd. intros H%dget_elem. apply list_elem_of_fmap. by exists (do_upstream o, o).
Qed.

(** a discovery over Fireworks always ends, with at most 1,800 requests, within its budget of bytes and rows; its result is well-formed, with one offer per id in the order of the ids. *)
Theorem fireworks_discover_bounded n :
  (0 <= n_budget n)%Z →
  ∃ out, discover_at n = Some out
  ∧ match out with
    | Err _ => True
    | Ok (result, n') =>
        length (n_requests n') ≤ length (n_requests n) + 18 * MAX_PAGES ∧ (0 <= n_budget n' <= n_budget n)%Z
        ∧ (Z.of_nat (length (dr_offers result)) <= MAX_ROWS)%Z
        ∧ check_result result = true ∧ NoDup (do_upstream <$> dr_offers result)
        ∧ StronglySorted (λ a b, upstream_leb a b = true) (dr_offers result)
    end.
Proof.
  intros Hb. pose proof (discover_spec n Hb) as H.
  destruct (discover_at n) as [ [ [result n']|e]|]; [|by eexists|done].
  eexists. split; [done|]. destruct H as (pages & truncated & k & late & [Hf Ht [Hq Hbud] _ ->]).
  split; [lia|]. split; [lia|]. set (rows := take k (rows_in pages)).
  destruct (kept_normal rows) as (Hn & Hk & Hl & _). set (nm := fold_left add_row rows new_normal) in *.
  assert (length rows ≤ length (rows_in pages)) by (unfold rows; rewrite length_take; lia).
  pose proof (rows_in_short pages Hf). unfold finish. cbn [dr_offers].
  set (st := match _ ++ _ ++ _ with [] => success | _ => _ end).
  assert (Hoff : NoDup (do_upstream <$> (nm_offers nm).*2)).
  { replace (do_upstream <$> (nm_offers nm).*2) with (dkeys (nm_offers nm)); [done|].
    unfold dkeys. rewrite <- list_fmap_compose. apply list_fmap_ext. intros i [k' o] Hi. cbn.
    apply (Hk k' o). by eapply list_elem_of_lookup_2. }
  split; [destruct (st ≡? failed); cbn [length]; rewrite ?length_sort_by, ?length_fmap; lia|]. split.
  - unfold check_result. cbn [dr_revision dr_status dr_complete dr_offers]. rewrite !andb_true_iff, !orb_true_iff. split.
    + split; [done|]. unfold st. destruct (_ ++ _ ++ _); [by right|left]. by destruct (_ || _).
    + destruct (bool_decide_reflect (st = failed)); [by right|by left].
  - destruct (st ≡? failed); [split; constructor|]. split; [by rewrite sort_by_perm|].
    apply sort_by_sorted; [intros a b; apply str_leb_total|intros a b c; apply str_leb_trans].
Qed.

(** a discovery reported as a success walked every listing to its end, and its offers are exactly the first accepted row of each id; any other outcome says why. *)
Theorem fireworks_success_complete n result n' :
  (0 <= n_budget n)%Z → discover_at n = Some (Ok (result, n')) →
  ∃ pages, dget (dr_metadata result) "sources" = Some (JObj ((λ kv, (kv.1, source_json kv.2)) <$> pages))
  ∧ if dr_status result ≡? success
    then (∀ k r, (k, r) ∈ pages → pr_complete r = true)
         ∧ ∀ o, o ∈ dr_offers result ↔ first_of (do_upstream o) (offers_of (rows_in pages)) = Some o
    else dr_error result ≠ None ∧ dr_complete result = false.
Proof.
  intros Hb E. pose proof (discover_spec n Hb) as H. rewrite E in H.
  destruct H as (pages & truncated & k & late & [Hf _ _ Hk ->]). exists pages. split; [done|].
  unfold finish. cbn [dr_status dr_offers dr_error dr_complete].
  destruct (omap (λ kv, pr_error kv.2) pages ++ _ ++ _) as [|e l] eqn:Ee; [|by destruct (_ || _)].
  cbn [app]. rewrite bool_decide_eq_true_2 by done. rewrite bool_decide_eq_false_2 by done.
  apply app_nil in Ee as [Ep Er]. apply app_nil in Er as [El _]. destruct late; [done|]. split.
  - intros k' r Hr. apply (Hf k' r Hr). destruct (pr_error r) eqn:Epr; [|done].
    assert (s ∈ omap (λ kv : string * PageResult, pr_error kv.2) pages) as Hs
      by (apply list_elem_of_omap; by exists (k', r)). rewrite Ep in Hs. by apply elem_of_nil in Hs.
  - intros o. rewrite elem_of_sort_by. specialize (Hk eq_refl). rewrite take_ge by done. apply kept_normal.
Qed.
End discovery.

(** ** What is kept of a row *)

Section confined.
Context (ip_host : string → bool) (texts : Texts) (credential : string) (config : DiscoveryConfig).

Definition clean_offer (o : DiscoveredOffer) : Prop :=
  do_provider o = fireworks ∧ do_scope o = dc_scope config
  ∧ sanitize_text (do_upstream o) credential = do_upstream o
  ∧ sanitize_text (ih_display (do_identity o)) credential = ih_display (do_identity o)
  ∧ ∃ v, JObj (do_raw o) = sanitize_metadata v credential.

Lemma discovered_clean v field w upstream display canonical hf ft q url caps prices d o :
  validate_resource_id v field credential = Ok upstream → validate_display_name w upstream credential = Ok display →
  discovered ip_host texts
    {| do_provider := fireworks; do_upstream := upstream; do_base_url := url; do_scope := dc_scope config;
       do_identity := infer_identity_hint upstream display canonical hf ft q None; do_capabilities := caps;
       do_pricing := prices; do_raw := as_dict (sanitize_metadata (JObj d) credential) |} = Ok o →
  clean_offer o.
Proof.
  intros Hu Hd (Hp & Hup & Hs & Hi & Hr)%discovered_ok. cbn [do_provider do_upstream do_scope do_identity do_raw] in *.
  pose proof (resource_id_clean _ _ _ _ Hu) as Hclean. unfold clean_offer.
  rewrite Hp, Hs, Hup, Hi, Hr, display_inferred
    by (eapply display_nonempty; [|exact Hd]; by eapply resource_id_nonempty).
  repeat split; auto; [by eapply display_clean|]. eexists. apply sanitized_object.
Qed.

Lemma map_row_clean source row o : map_row ip_host texts credential config source row = Ok (Some o) → clean_offer o.
Proof.
  unfold map_row. destruct (startswith "deployments" source).
  - unfold map_deployment. destruct (_ || _); [done|]. intros (u & Hu & H)%res_bind_ok.
    apply res_bind_ok in H as (c & Hc & H). apply res_bind_ok in H as (d & Hd & H). apply res_bind_ok in H as (_ & _ & H).
    apply res_bind_ok in H as (o' & H & [= <-]). exact (discovered_clean _ _ _ _ _ _ _ _ _ _ _ _ _ _ Hu Hd H).
  - unfold map_model. destruct (_ || _); [done|]. intros (u & Hu & H)%res_bind_ok.
    apply res_bind_ok in H as (c & Hc & H). apply res_bind_ok in H as (h & Hh & H). apply res_bind_ok in H as (d & Hd & H).
    apply res_bind_ok in H as (f & Hf & H). apply res_bind_ok in H as (_ & _ & H).
    apply res_bind_ok in H as (o' & H & [= <-]). exact (discovered_clean _ _ _ _ _ _ _ _ _ _ _ _ _ _ Hu Hd H).
Qed.

(** every offer Fireworks discovery reports is Fireworks', in the scope of the credential used, and nothing kept of it, its id, its display name or any string of its metadata, mentions a maskable fragment of that credential. *)
Theorem fireworks_discover_confined mono get n result n' o :
  (0 <= n_budget n)%Z → discover ip_host texts credential config mono get n = Some (Ok (result, n')) →
  o ∈ dr_offers result →
  do_provider o = fireworks ∧ do_scope o = dc_scope config
  ∧ ∀ f s, f ∈ fragments credential → maskable f = true → s ∈ kept_texts o → mentions f s = false.
Proof.
  intros Hb E Ho. pose proof (discover_spec ip_host texts credential config mono get n Hb) as H. rewrite E in H.
  destruct H as (pages & truncated & k & late & [_ _ _ _ ->]).
  assert (o ∈ (nm_offers (fold_left (add_row ip_host texts credential config) (take k (rows_in pages)) new_normal)).*2) as Hin.
  { unfold finish in Ho. cbn [dr_offers] in Ho. destruct (_ ≡? failed); [by apply elem_of_nil in Ho|]. by apply elem_of_sort_by in Ho. }
  apply kept_normal in Hin. apply find_some in Hin as [Hin%list_elem_of_In _].
  apply list_elem_of_omap in Hin as ([source row] & _ & Hrow). cbn [fst snd] in Hrow.
  destruct (map_row _ _ _ _ source row) as [o'|] eqn:Er; [subst o'|done].
  apply map_row_clean in Er as (? & ? & Hu & Hd & Hv). repeat split; [done..|].
  intros f s Hf Hm Hs. by eapply kept_hidden.
Qed.
End confined.

(** ** A concrete server *)

Definition demo_model (name : string) : json :=
  JObj [("name", JStr name); ("state", JStr "READY"); ("supportsServerless", JBool true)].

Definition ok_json (d : list (string * json)) : HttpResult :=
  Answer {| resp_status := 200; resp_json := Ok (JObj d); resp_text := ""; resp_bytes := 10 |}.

(** Two pages of serverless models, and an account with one model. *)
Definition demo_get (account : string) (history : list Request) : HttpResult :=
  match history with
  | rq :: _ =>
      if rq_path rq ≡? "/v1/accounts/fireworks/models" then
        match dget (rq_params rq) "pageToken" with
        | None => ok_json [("models", JList [demo_model "accounts/fireworks/models/a"]); ("nextPageToken", JStr "t")]
        | Some _ => ok_json [("models", JList [demo_model "accounts/fireworks/models/b"; demo_model "accounts/fireworks/models/a"])]
        end
      else if rq_path rq ≡? "/v1/accounts" then ok_json [("accounts", JList [JObj [("name", JStr ("accounts/" +:+ account))] ])]
      else ok_json [("models", JList [demo_model ("accounts/" +:+ account +:+ "/models/c")]); ("deployments", JList [])]
  | [] => TimedOut
  end.

Definition user_config : DiscoveryConfig :=
  {| dc_scope := {| kind := user_scope; scope_id := "u1" |}; dc_account_id := ""; dc_deployments := true; dc_accounts := true |}.

Definition demo_run (account : string) : run (DiscoveryResult * Net) :=
  discover (λ _, true) demo_texts "fw_AAAAbbbb1111cccc" user_config (λ k, Qz (Z.of_nat k)) (demo_get account) new_net.

Definition result_of (r : run (DiscoveryResult * Net)) : option DiscoveryResult :=
  match r with Some (Ok (r, _)) => Some r | _ => None end.

Example two_pages_and_an_account :
  match result_of (demo_run "acme") with
  | Some r => dr_status r = success ∧ (do_upstream <$> dr_offers r)
      = ["accounts/acme/models/c"; "accounts/fireworks/models/a"; "accounts/fireworks/models/b"]
  | None => False
  end.
Proof. vm_compute. done. Qed.

(** The names of the listings are keys of the metadata: an account whose name ends in
    key, token or auth makes a key the secret screen of the stored snapshot refuses, so a
    discovery that succeeded cannot be stored. *)
Theorem account_name_unstorable :
  match result_of (demo_run "turkey") with
  | Some r => dr_status r = success ∧ is_ok (assert_safe_metadata (JObj (dr_metadata r)) "source_metadata") = false
  | None => False
  end.
Proof. vm_compute. done. Qed.

Lemma walk_bounded_witness :
  match walk "fw_AAAAbbbb1111cccc" (λ k, Qz (Z.of_nat k)) (demo_get "acme") "public_serverless" "/v1/accounts/fireworks/models"
          "models" [] 120 10 new_net with
  | Some (Ok (r, n')) => walked (demo_get "acme") "models" 10 new_net r n' ∧ pr_complete r = true ∧ pr_pages r = 2
  | _ => False
  end.
Proof.
  destruct (walk_bounded "fw_AAAAbbbb1111cccc" (λ k, Qz (Z.of_nat k)) (demo_get "acme") "public_serverless"
              "/v1/accounts/fireworks/models" "models" [] 120 10 new_net) as (out & H & Hout); [vm_compute; discriminate|].
  rewrite H. vm_compute in H. injection H as <-. cbv beta iota in Hout |- *. split; [apply Hout|]. split; reflexivity.
Defined.

Lemma fireworks_discover_bounded_witness : ∃ out,
  discover (λ _, true) demo_texts "fw_AAAAbbbb1111cccc" user_config (λ k, Qz (Z.of_nat k)) (demo_get "acme") new_net = Some out.
Proof.
  destruct (fireworks_discover_bounded (λ _, true) demo_texts "fw_AAAAbbbb1111cccc" user_config (λ k, Qz (Z.of_nat k))
              (demo_get "acme") new_net) as (out & H & _); [vm_compute; discriminate|].
  exists out. exact H.
Defined.

(** The demonstration's answer, computed once. *)
Lemma demo_discovered : ∃ r n', discover (λ _, true) demo_texts "fw_AAAAbbbb1111cccc" user_config (λ k, Qz (Z.of_nat k)) (demo_get "acme") new_net
    = Some (Ok (r, n')) ∧ head (dr_offers r) ≠ None.
Proof. eexists _, _. split; [vm_compute; reflexivity|]. vm_compute. discriminate. Qed.

Lemma fireworks_success_complete_witness :
  ∃ result n' pages, discover (λ _, true) demo_texts "fw_AAAAbbbb1111cccc" user_config (λ k, Qz (Z.of_nat k)) (demo_get "acme") new_net
    = Some (Ok (result, n'))
  ∧ dget (dr_metadata result) "sources" = Some (JObj ((λ kv, (kv.1, source_json kv.2)) <$> pages)).
Proof.
  destruct demo_discovered as (result & n' & E & _).
  destruct (fireworks_success_complete (λ _, true) demo_texts "fw_AAAAbbbb1111cccc" user_config (λ k, Qz (Z.of_nat k))
              (demo_get "acme") new_net result n') as (pages & H & _); [vm_compute; discriminate|exact E|].
  exists result, n', pages. split; [exact E|exact H].
Defined.

Lemma fireworks_discover_confined_witness :
  ∃ o, do_scope o = dc_scope user_config ∧ mentions "fw_AAAAbbbb1111cccc" (do_upstream o) = false.
Proof.
  destruct demo_discovered as (result & n' & E & Ho). destruct (dr_offers result) as [|o l] eqn:Eo; [exfalso; exact (Ho eq_refl)|].
  exists o. destruct (fireworks_discover_confined (λ _, true) demo_texts "fw_AAAAbbbb1111cccc" user_config
                        (λ k, Qz (Z.of_nat k)) (demo_get "acme") new_net result n' o) as (_ & Hs & Hm);
    [vm_compute; discriminate|exact E|rewrite Eo; left|].
  split; [exact Hs|]. apply Hm; [apply credential_fragment; discriminate|reflexivity|left].
Defined.
