(* ===== verification/Inventory.v ===== *)
(** * The inventory refresh ([benchmarking/inventory.py])

    The one layer that turns discovery into stored records: discover with every adapter,
    reconcile what was found with the known identities, and commit one snapshot per
    provider, each with its offers and alias decisions, in a fenced transaction.
    An adapter is an interface with its two fixed attributes; the two adapters of the
    program are instances.  Clock readings, fresh UUIDs and the UUID hash are arguments. *)

From S2P Require Import Prelude.
From S2P Require Import PyStr.
From S2P Require Import PyDict.
From S2P Require Import Schemas.
From S2P Require Import Catalog.
From S2P Require Import Domain.
From S2P Require Import Reconcile.
From S2P Require Import Ledger.
From S2P Require Import InventoryStore.
From S2P Require Import InventoryReads.
From S2P Require Import Sanitize.
From S2P Require OpenRouter.
From S2P Require Fireworks.

(** ** Adapters *)

(** [ProviderInventoryAdapter] *)
Record Adapter := {
  a_provider : ProviderName;
  a_revision : string;
  a_discover : string → DiscoveryConfig → res (string * string) DiscoveryResult;
}.

Definition openrouter_adapter (ip_host : string → bool) (texts : Texts) (answer : string → OpenRouter.HttpResult) : Adapter :=
  {| a_provider := openrouter; a_revision := OpenRouter.adapter_revision;
     a_discover := λ credential config, OpenRouter.discover ip_host texts credential config (answer credential) |}.

Definition fireworks_adapter (ip_host : string → bool) (texts : Texts) (mono : nat → Q)
    (get : string → list Fireworks.Request → OpenRouter.HttpResult) : Adapter :=
  {| a_provider := fireworks; a_revision := Fireworks.adapter_revision;
     a_discover := λ credential config,
       match Fireworks.discover ip_host texts credential config mono (get credential) Fireworks.new_net with
       | Some (Ok (r, _)) => Ok r
       | Some (Err e) => Err e
       | None => Err ("", "")
       end |}.

(** [InventoryRefreshRequest] *)
Record RefreshRequest := { rr_adapter : Adapter; rr_credential : string; rr_config : DiscoveryConfig }.

(** [_discover]: whatever an adapter raises is its own failed result. *)
Definition isolated_failure (r : RefreshRequest) (cls msg : string) : DiscoveryResult :=
  {| dr_provider := a_provider (rr_adapter r); dr_revision := a_revision (rr_adapter r); dr_status := failed;
     dr_complete := false; dr_offers := []; dr_metadata := [("unexpected_adapter_failure", JBool true)];
     dr_error := Some (transport_error (a_provider (rr_adapter r)) "discovery" cls msg (rr_credential r)) |}.

Definition discover (r : RefreshRequest) : DiscoveryResult :=
  match a_discover (rr_adapter r) (rr_credential r) (rr_config r) with
  | Err (cls, msg) => isolated_failure r cls msg
  | Ok result =>
      if negb (dr_provider result ≡? a_provider (rr_adapter r))
      then isolated_failure r "ValueError" "adapter returned a result for a different provider"
      else if negb (dr_revision result ≡? a_revision (rr_adapter r))
      then isolated_failure r "ValueError" "adapter revision changed during discovery"
      else result
  end.

(** ** The service *)

Inductive RefreshError : Type := RValue (msg : string) | RStore (e : StoreError).

(** [_known_identities], the UUIDs drawn so far, and the store. *)
Record Service := { sv_known : list (string * ModelIdentity); sv_uuids : nat; sv_db : Db }.

Definition with_db (d : Db) (sv : Service) : Service :=
  {| sv_known := sv_known sv; sv_uuids := sv_uuids sv; sv_db := d |}.

Definition with_known (k : list (string * ModelIdentity)) (sv : Service) : Service :=
  {| sv_known := k; sv_uuids := sv_uuids sv; sv_db := sv_db sv |}.

Definition next_uuid (sv : Service) : Service :=
  {| sv_known := sv_known sv; sv_uuids := S (sv_uuids sv); sv_db := sv_db sv |}.

(** The clock readings of a refresh: before and after discovery, and the reconciler's. *)
Record Times := { tm_started : Q; tm_completed : Q; tm_reconciled : Q }.

Definition AUDIT_ACTOR : Actor := {| actor_id := "benchmark-inventory"; actor_org := None; actor_kind := "system" |}.

Definition source_key (o : DiscoveredOffer) : ProviderName * string := (do_provider o, do_upstream o).

Definition by_id (l : list ModelIdentity) (d : list (string * ModelIdentity)) : list (string * ModelIdentity) :=
  fold_left (λ d i, dset d (mi_id i) i) l d.

(** [{(o.provider, o.upstream_model_id): o for o in reconciliation.offers}] *)
Definition reconciled_by_source (offers : list ReconciledOffer) : list (ProviderName * string * ReconciledOffer) :=
  fold_left (λ d o, dset d (source_key (rc_discovered o)) o) offers [].

Definition latest_step (d : list (string * string * IdentityAliasDecision)) (a : IdentityAliasDecision)
    : list (string * string * IdentityAliasDecision) :=
  match dget d (alias_key a) with
  | None => dset d (alias_key a) a
  | Some c => if Qltb (ad_decided_at c) (ad_decided_at a) then dset d (alias_key a) a else d
  end.

Definition alias_source (k : ProviderName * string) : string * string := (provider_str k.1, k.2).

Section refresh.
Context (digest24 : string → string) (ip_host : string → bool) (uuid4 : nat → string) (uuid5 : string → string).
Context (max_staleness : Q).

(** The offers of [_snapshot]. *)
Definition offer_of (r : RefreshRequest) (result : DiscoveryResult) (snapshot_id : string)
    (reconciled : list (ProviderName * string * ReconciledOffer)) (d : DiscoveredOffer) : res RefreshError ProviderOffer :=
  let offer_id := stable_offer_id digest24 (do_provider d) (do_upstream d) in
  match dget reconciled (source_key d) with
  | None => Err (RValue "KeyError")
  | Some rc =>
      match stable_route_id (do_provider d) (do_upstream d) with
      | Err m => Err (RValue m)
      | Ok route =>
          match check_offer digest24 ip_host
            {| po_snapshot_offer_id := stable_snapshot_offer_id digest24 snapshot_id offer_id; po_offer_id := offer_id;
               po_identity := as_identity (rc_assignment rc); po_route := route; po_provider := do_provider d;
               po_upstream := do_upstream d; po_base_url := do_base_url d; po_scope := do_scope d;
               po_capabilities := do_capabilities d; po_pricing := do_pricing d; po_revision := dr_revision result;
               po_raw := OpenRouter.as_dict (sanitize_metadata (JObj (do_raw d)) (rr_credential r)) |} with
          | Some o => Ok o
          | None => Err (RValue "ProviderOffer")
          end
      end
  end.

Definition snapshot_of (t : Times) (r : RefreshRequest) (result : DiscoveryResult) (snapshot_id : string)
    (reconciled : list (ProviderName * string * ReconciledOffer)) : res RefreshError InventorySnapshot :=
  try! offers := map_res (offer_of r result snapshot_id reconciled) (dr_offers result) in
  match check_snapshot
    {| sn_id := snapshot_id; sn_provider := dr_provider result; sn_scope := dc_scope (rr_config r);
       sn_status := dr_status result; sn_started_at := tm_started t; sn_completed_at := tm_completed t;
       sn_expires_at := (tm_completed t + max_staleness)%Q; sn_pagination_complete := dr_complete result;
       sn_revision := dr_revision result;
       sn_metadata := OpenRouter.as_dict (sanitize_metadata (JObj (dr_metadata result)) (rr_credential r));
       sn_error := match dr_error result with Some e => Some (sanitize_text e (rr_credential r)) | None => None end;
       sn_offers := offers |} with
  | Some s => Ok s
  | None => Err (RValue "InventorySnapshot")
  end.

(** The evidence of a decision. *)
Definition evidence_of (s : InventorySnapshot) (o : ProviderOffer) (h : IdentityHint) : list (string * json) :=
  [("snapshot_id", JStr (sn_id s)); ("adapter_revision", JStr (po_revision o));
   ("canonical_id", OpenRouter.opt_json (ih_canonical h)); ("hugging_face_id", OpenRouter.opt_json (ih_hugging_face h));
   ("fingerprint",
    JObj [("vendor", JStr (ih_vendor h)); ("family", JStr (ih_family h)); ("release", OpenRouter.opt_json (ih_release h));
          ("reasoning_variant", OpenRouter.opt_json (ih_reasoning h)); ("quantization", OpenRouter.opt_json (ih_quantization h));
          ("fine_tune", OpenRouter.opt_json (ih_fine_tune h)); ("context_variant", OpenRouter.opt_json (ih_context h))])].

Definition decision_of (s : InventorySnapshot) (latest : list (string * string * IdentityAliasDecision)) (decided_at : Q)
    (o : ProviderOffer) (rc : ReconciledOffer) : IdentityAliasDecision :=
  let at_ := match dget latest (provider_str (po_provider o), po_upstream o) with
             | Some l => Qmaxb decided_at (ad_decided_at l + (1 # 1000000))
             | None => decided_at
             end in
  {| ad_id := "alias_" +:+ uuid5 (sn_id s +:+ po_offer_id o); ad_provider := provider_str (po_provider o);
     ad_source_id := po_upstream o; ad_identity := po_identity o; ad_method := as_method (rc_assignment rc);
     ad_confidence := as_confidence (rc_assignment rc); ad_evidence := evidence_of s o (do_identity (rc_discovered rc));
     ad_reviewer := None; ad_decided_at := at_; ad_superseded_at := None |}.

(** [_alias_decisions]: one for each source, the first of its offers. *)
Fixpoint alias_decisions_from (s : InventorySnapshot) (reconciled : list (ProviderName * string * ReconciledOffer))
    (latest : list (string * string * IdentityAliasDecision)) (decided_at : Q)
    (seen : list (ProviderName * string)) (offers : list ProviderOffer) : res RefreshError (list IdentityAliasDecision) :=
  match offers with
  | [] => Ok []
  | o :: offers =>
      let key := (po_provider o, po_upstream o) in
      if key ∈? seen then alias_decisions_from s reconciled latest decided_at seen offers
      else
        match dget reconciled key with
        | None => Err (RValue "KeyError")
        | Some rc =>
            let a := decision_of s latest decided_at o rc in
            if check_decision a then
              try! rest := alias_decisions_from s reconciled latest decided_at (key :: seen) offers in Ok (a :: rest)
            else Err (RValue "IdentityAliasDecision")
        end
  end.

Definition without_offers (s : InventorySnapshot) : InventorySnapshot :=
  {| sn_id := sn_id s; sn_provider := sn_provider s; sn_scope := sn_scope s; sn_status := sn_status s;
     sn_started_at := sn_started_at s; sn_completed_at := sn_completed_at s; sn_expires_at := sn_expires_at s;
     sn_pagination_complete := sn_pagination_complete s; sn_revision := sn_revision s; sn_metadata := sn_metadata s;
     sn_error := sn_error s; sn_offers := [] |}.

(** One provider's snapshot, built and committed. *)
Definition commit_one (t : Times) (reconciled : list (ProviderName * string * ReconciledOffer))
    (latest : list (string * string * IdentityAliasDecision)) (fence : option Fence)
    (r : RefreshRequest) (result : DiscoveryResult) (sv : Service) : res RefreshError InventorySnapshot * Service :=
  let snapshot_id := "snapshot_" +:+ uuid4 (sv_uuids sv) in
  let sv := next_uuid sv in
  match snapshot_of t r result snapshot_id reconciled with
  | Err e => (Err e, sv)
  | Ok s =>
      match alias_decisions_from s reconciled latest (tm_completed t) [] (sn_offers s) with
      | Err e => (Err e, sv)
      | Ok decisions =>
          let '(out, d) := commit_reconciled digest24 ip_host (without_offers s) (sn_offers s) decisions AUDIT_ACTOR fence (sv_db sv) in
          (match out with Ok _ => Ok s | Err e => Err (RStore e) end, with_db d sv)
      end
  end.

(** The loop over the requests and their results; the fence is taken anew for each. *)
Fixpoint commit_all (t : Times) (reconciled : list (ProviderName * string * ReconciledOffer))
    (latest : list (string * string * IdentityAliasDecision)) (fence : option (nat → Fence)) (k : nat)
    (l : list (RefreshRequest * DiscoveryResult)) (sv : Service) : res RefreshError (list InventorySnapshot) * Service :=
  match l with
  | [] => (Ok [], sv)
  | (r, result) :: l =>
      match commit_one t reconciled latest (match fence with Some f => Some (f k) | None => None end) r result sv with
      | (Err e, sv) => (Err e, sv)
      | (Ok s, sv) =>
          match commit_all t reconciled latest fence (S k) l sv with
          | (Ok ss, sv) => (Ok (s :: ss), sv)
          | (Err e, sv) => (Err e, sv)
          end
      end
  end.

Definition latest_aliases (approved : option (list IdentityAliasDecision))
    (reconciled : list (ProviderName * string * ReconciledOffer)) (d : Db)
    : res StoreError (list (string * string * IdentityAliasDecision)) :=
  match approved with
  | None => latest_alias_decisions (alias_source <$> dkeys reconciled) d
  | Some l => Ok (fold_left latest_step l [])
  end.

(** [InventoryRefreshOutcome] *)
Record Outcome := { oc_snapshots : list InventorySnapshot; oc_identities : list ModelIdentity }.

(** [refresh] *)
Definition refresh (t : Times) (requests : list RefreshRequest) (known : list ModelIdentity)
    (approved : option (list IdentityAliasDecision)) (fence : option (nat → Fence)) (sv : Service)
    : res RefreshError Outcome * Service :=
  if bool_decide (NoDup ((λ r, a_provider (rr_adapter r)) <$> requests)) then
    let results := discover <$> requests in
    let all_known := by_id known (sv_known sv) in
    let '(identities, offers) := reconcile digest24 (tm_reconciled t) (flat_map dr_offers results) all_known.*2
                                   (match approved with Some l => l | None => [] end) in
    match ensure_identities identities (sv_db sv) with
    | (Err e, d) => (Err (RStore e), with_db d sv)
    | (Ok _, d) =>
        let sv := with_known (by_id identities (sv_known sv)) (with_db d sv) in
        let reconciled := reconciled_by_source offers in
        match latest_aliases approved reconciled d with
        | Err e => (Err (RStore e), sv)
        | Ok latest =>
            match commit_all t reconciled latest fence 0 (zip requests results) sv with
            | (Err e, sv) => (Err e, sv)
            | (Ok snapshots, sv) => (Ok {| oc_snapshots := snapshots; oc_identities := identities |}, sv)
            end
        end
    end
  else (Err (RValue "refresh accepts at most one credential scope per provider"), sv).
End refresh.

(** ** Isolation *)

(** discovery never raises: it reports the adapter's own provider and revision, it is the adapter's result when that result is one for them, and otherwise a failure without offers; a result that was well-formed stays so. *)
Theorem discover_isolated r :
  dr_provider (discover r) = a_provider (rr_adapter r) ∧ dr_revision (discover r) = a_revision (rr_adapter r)
  ∧ (a_discover (rr_adapter r) (rr_credential r) (rr_config r) = Ok (discover r)
     ∨ dr_status (discover r) = failed ∧ dr_offers (discover r) = [] ∧ is_Some (dr_error (discover r)))
  ∧ ∀ result, a_discover (rr_adapter r) (rr_credential r) (rr_config r) = Ok result →
      dr_provider result = a_provider (rr_adapter r) → dr_revision result = a_revision (rr_adapter r) →
      discover r = result.
Proof.
  unfold discover. destruct (a_discover _ _ _) as [result|[cls msg] ] eqn:E.
  - destruct (bool_decide_reflect (dr_provider result = a_provider (rr_adapter r))); cbn [negb].
    + destruct (bool_decide_reflect (dr_revision result = a_revision (rr_adapter r))); cbn [negb].
      * split_and!; [done|done|by left|naive_solver].
      * split_and!; [done|done|right; split_and!; by try eexists|naive_solver].
    + split_and!; [done|done|right; split_and!; by try eexists|naive_solver].
  - split_and!; [done|done|right; split_and!; by try eexists|done].
Qed.

(** ** What a refresh writes *)

Section writes.
Context (digest24 : string → string) (ip_host : string → bool) (uuid4 : nat → string) (uuid5 : string → string).
Context (max_staleness : Q).
Notation commit_one_at := (commit_one digest24 ip_host uuid4 uuid5 max_staleness).
Notation commit_all_at := (commit_all digest24 ip_host uuid4 uuid5 max_staleness).
Notation refresh_at := (refresh digest24 ip_host uuid4 uuid5 max_staleness).
Notation run_calls := (fold_left (run_call digest24 ip_host)).

Lemma commit_one_calls t rc latest f r result sv out sv' :
  commit_one_at t rc latest f r result sv = (out, sv') → ∃ calls, sv_db sv' = run_calls calls (sv_db sv).
Proof.
  unfold commit_one. destruct (snapshot_of _ _ _ _ _ _ _ _) as [s|e]; [|intros [= <- <-]; by exists []].
  destruct (alias_decisions_from _ _ _ _ _ _ _) as [ds|e]; [|intros [= <- <-]; by exists []].
  destruct (commit_reconciled _ _ _ _ _ _ _ _) as [o d] eqn:E. intros [= <- <-].
  exists [CommitReconciled (without_offers s) (sn_offers s) ds AUDIT_ACTOR f]. cbn [fold_left run_call].
  cbn [sv_db next_uuid] in E. by rewrite E.
Qed.

Lemma commit_all_calls t rc latest fence k l sv out sv' :
  commit_all_at t rc latest fence k l sv = (out, sv') → ∃ calls, sv_db sv' = run_calls calls (sv_db sv).
Proof.
  revert k sv out. induction l as [|[r result] l IH]; intros k sv out; cbn [commit_all]; [intros [= <- <-]; by exists []|].
  destruct (commit_one_at _ _ _ _ _ _ sv) as [ [s|e] sv1] eqn:E1; apply commit_one_calls in E1 as [c1 E1]; [|intros [= <- <-]; eauto].
  destruct (commit_all_at _ _ _ _ _ l sv1) as [out' sv2] eqn:E2. intros H.
  assert (sv' = sv2) as -> by (destruct out'; congruence). apply IH in E2 as [c2 E2].
  exists (c1 ++ c2). by rewrite fold_left_app, <- E1.
Qed.

Lemma ensure_calls ids d : (ensure_identities ids d).2 = run_calls [EnsureIdentities ids] d.
Proof. done. Qed.

(** whatever happens in a refresh, error or not, the store it leaves is well-formed when the one it found was, and every identity stored before is stored unchanged. *)
Theorem refresh_store_ok t requests known approved fence sv :
  db_ok (sv_db sv) →
  let sv' := (refresh_at t requests known approved fence sv).2 in
  db_ok (sv_db sv') ∧ ∀ k i, dget (db_identities (sv_db sv)) k = Some i → dget (db_identities (sv_db sv')) k = Some i.
Proof.
  intros Hd. cbn zeta. enough (∃ calls, sv_db (refresh_at t requests known approved fence sv).2 = run_calls calls (sv_db sv)) as [calls ->].
  { split; [by apply calls_ok|]. intros k i. revert Hd. generalize (sv_db sv) as d. induction calls as [|c calls IH]; intros d Hd Hk; [done|].
    cbn [fold_left]. apply IH; [by apply run_call_ok|]. by apply run_call_identities. }
  unfold refresh. case_bool_decide; [|by exists []].
  destruct (reconcile _ _ _ _ _) as [ids offers].
  destruct (ensure_identities ids (sv_db sv)) as [ [n|e] d] eqn:E; pose proof (ensure_calls ids (sv_db sv)) as Hc; rewrite E in Hc;
    [|by exists [EnsureIdentities ids] ].
  destruct (latest_aliases _ _ _) as [latest|e]; [|by exists [EnsureIdentities ids] ].
  destruct (commit_all_at _ _ _ _ _ _ _) as [out sv'] eqn:Ec. apply commit_all_calls in Ec as [calls Ec]. cbn [sv_db with_known with_db] in Ec.
  cbn [snd] in Hc.
  exists (EnsureIdentities ids :: calls). change (EnsureIdentities ids :: calls) with ([EnsureIdentities ids] ++ calls).
  rewrite fold_left_app, <- Hc. by destruct out.
Qed.

(** ** What a successful refresh leaves *)

Definition offer_source (o : ProviderOffer) : string * string := (provider_str (po_provider o), po_upstream o).

Lemma offer_of_spec r result sid rc d o :
  offer_of digest24 ip_host r result sid rc d = Ok o →
  po_provider o = do_provider d ∧ po_upstream o = do_upstream d
  ∧ po_raw o = OpenRouter.as_dict (sanitize_metadata (JObj (do_raw d)) (rr_credential r))
  ∧ (∃ c, dget rc (po_provider o, po_upstream o) = Some c ∧ po_identity o = as_identity (rc_assignment c)).
Proof.
  unfold offer_of. destruct (dget rc (source_key d)) as [c|] eqn:Ec; [|done].
  destruct (stable_route_id _ _) as [route|]; [|done]. unfold check_offer. cbn [po_base_url].
  destruct (check_base_url ip_host (do_base_url d)) as [u|]; [|done]. destruct (_ && _); [|done].
  intros [= <-]. split_and!; [done..|]. exists c. done.
Qed.

Lemma snapshot_of_spec t r result sid rc s :
  snapshot_of digest24 ip_host max_staleness t r result sid rc = Ok s →
  sn_id s = sid ∧ sn_provider s = dr_provider result ∧ sn_scope s = dc_scope (rr_config r) ∧ sn_status s = dr_status result
  ∧ sn_completed_at s = tm_completed t ∧ sn_expires_at s = (tm_completed t + max_staleness)%Q
  ∧ sn_metadata s = OpenRouter.as_dict (sanitize_metadata (JObj (dr_metadata result)) (rr_credential r))
  ∧ sn_error s = match dr_error result with Some e => Some (sanitize_error_summary (sanitize_text e (rr_credential r))) | None => None end
  ∧ Forall2 (λ d o, offer_of digest24 ip_host r result sid rc d = Ok o) (dr_offers result) (sn_offers s).
Proof.
  unfold snapshot_of. intros (offers & Ho & H)%res_bind_ok. apply map_res_forall in Ho.
  unfold check_snapshot in H. destruct (_ && _); [|done]. injection H as <-. unfold with_error.
  cbn [sn_id sn_provider sn_scope sn_status sn_completed_at sn_expires_at sn_metadata sn_error sn_offers].
  split_and!; [reflexivity..| |exact Ho]. destruct (dr_error result); reflexivity.
Qed.

Lemma decisions_spec s rc latest at_ seen offers ds :
  alias_decisions_from uuid5 s rc latest at_ seen offers = Ok ds →
  (∀ o, o ∈ offers → (po_provider o, po_upstream o) ∉ seen → ∃ a, a ∈ ds ∧ alias_key a = offer_source o)
  ∧ (∀ a, a ∈ ds → ∃ o, o ∈ offers ∧ alias_key a = offer_source o ∧ ad_identity a = po_identity o
       ∧ ∀ l, dget latest (alias_key a) = Some l → (ad_decided_at l < ad_decided_at a)%Q).
Proof.
  revert seen ds. induction offers as [|o offers IH]; intros seen ds; cbn [alias_decisions_from].
  { intros [= <-]. split; by intros ? ?%elem_of_nil. }
  case_bool_decide as Hseen.
  { intros [H1 H2]%IH. split; [|intros a (o' & ? & ?)%H2; exists o'; split; [by right|done] ].
    intros o' [->|?]%elem_of_cons Hn; [done|auto]. }
  destruct (dget rc _) as [c|]; [|done]. destruct (check_decision _); [|done].
  intros (rest & [H1 H2]%IH & [= <-])%res_bind_ok. split.
  - intros o' Ho Hn. destruct (decide ((po_provider o', po_upstream o') = (po_provider o, po_upstream o))) as [E|E].
    + eexists. split; [left|]. unfold decision_of, alias_key, offer_source. cbn. congruence.
    + apply elem_of_cons in Ho as [->|Ho]; [done|]. destruct (H1 o' Ho) as (a & ? & ?); [by rewrite not_elem_of_cons|].
      exists a. split; [by right|done].
  - intros a [->|Ha]%elem_of_cons.
    + exists o. split; [left|]. split; [done|]. split; [done|]. intros l. unfold decision_of, alias_key. cbn [ad_provider ad_source_id ad_decided_at].
      intros ->. pose proof (Qmaxb_ub at_ (ad_decided_at l + (1 # 1000000))). lra.
    + destruct (H2 a Ha) as (o' & ? & ?). exists o'. split; [by right|done].
Qed.

(** A snapshot as the store has it, and what its offers are known by. *)
Definition published (d : Db) (r : RefreshRequest) (s : InventorySnapshot) : Prop :=
  sn_provider s = a_provider (rr_adapter r) ∧ sn_scope s = dc_scope (rr_config r) ∧ sn_status s = dr_status (discover r)
  ∧ (∃ row, dget (db_snapshots d) (sn_id s) = Some row ∧ sn_status row = sn_status s ∧ sn_provider row = sn_provider s
            ∧ sn_scope row = sn_scope s ∧ sn_completed_at row = sn_completed_at s ∧ sn_expires_at row = sn_expires_at s)
  ∧ Forall2 (λ x o, po_provider o = do_provider x ∧ po_upstream o = do_upstream x) (dr_offers (discover r)) (sn_offers s)
  ∧ (∀ o, o ∈ sn_offers s →
       (∃ row, dget (db_offers d) (po_snapshot_offer_id o) = Some (sn_id s, row) ∧ po_identity row = po_identity o
               ∧ po_upstream row = po_upstream o ∧ po_route row = po_route o)
       ∧ (∃ a, current_alias (db_aliases d) (offer_source o) = Some a ∧ ad_identity a = po_identity o)
       ∧ dmem (db_identities d) (po_identity o) = true)
  ∧ (∀ k row, dget (db_offers d) k = Some (sn_id s, row) → ∃ o, o ∈ sn_offers s ∧ po_snapshot_offer_id o = k).

(** What one commit may change of what an earlier one published. *)
Definition other_provider (p : ProviderName) (d d' : Db) : Prop :=
  (∀ k v, dget (db_offers d) k = Some v → dget (db_offers d') k = Some v)
  ∧ (∀ k v, dget (db_snapshots d) k = Some v → dget (db_snapshots d') k = Some v)
  ∧ db_identities d' = db_identities d
  ∧ (∀ k, k.1 ≠ provider_str p → current_alias (db_aliases d') k = current_alias (db_aliases d) k)
  ∧ (∀ k sid row, dget (db_snapshots d) sid ≠ None → dget (db_offers d') k = Some (sid, row) → dget (db_offers d) k = Some (sid, row)).

Lemma published_kept p d d' r s :
  other_provider p d d' → sn_provider s ≠ p → (∀ o, o ∈ sn_offers s → po_provider o = sn_provider s) →
  published d r s → published d' r s.
Proof.
  intros (Ho & Hs & Hi & Ha & Hb) Hp Hof (P1 & P2 & P3 & (row & Hrow & Hrest) & P5 & P6 & P7).
  split_and!; [done..| | | |]; [exists row; auto|done| |].
  - intros o Hin. destruct (P6 o Hin) as ((orow & ? & ?) & (a & ? & ?) & ?). split; [exists orow; auto|]. split; [|by rewrite Hi].
    exists a. split; [|done]. rewrite Ha; [done|]. unfold offer_source. cbn [fst]. rewrite Hof by done.
    intros ?%provider_str_inj. done.
  - intros k r' H. apply (P7 k r'). apply Hb; [by rewrite Hrow|done].
Qed.

Lemma check_offer_same o o' : check_offer digest24 ip_host o = Some o' → ∃ u, o' = with_base_url u o.
Proof. unfold check_offer. destruct (check_base_url _ _); [|done]. destruct (_ && _); [|done]. intros [= <-]. eauto. Qed.

Lemma same_identity r result sid rc ds offers o o' :
  Forall2 (λ d o, offer_of digest24 ip_host r result sid rc d = Ok o) ds offers →
  o ∈ offers → o' ∈ offers → offer_source o = offer_source o' → po_identity o = po_identity o'.
Proof.
  intros HF Ho Ho' E. assert (∀ x, x ∈ offers → ∃ c, dget rc (po_provider x, po_upstream x) = Some c ∧ po_identity x = as_identity (rc_assignment c)) as H.
  { intros x (i & Hi)%list_elem_of_lookup. destruct (Forall2_lookup_r _ _ _ _ _ HF Hi) as (d & _ & Hd). by apply offer_of_spec in Hd as (_ & _ & _ & ?). }
  destruct (H o Ho) as (c & Hc & ->), (H o' Ho') as (c' & Hc' & ->).
  unfold offer_source in E. injection E as E1%provider_str_inj E2. rewrite E1, E2 in Hc. congruence.
Qed.

Lemma commit_one_spec t rc latest f r sv s sv' :
  db_ok (sv_db sv) → commit_one_at t rc latest f r (discover r) sv = (Ok s, sv') →
  db_ok (sv_db sv') ∧ published (sv_db sv') r s ∧ other_provider (a_provider (rr_adapter r)) (sv_db sv) (sv_db sv')
  ∧ (∀ o, o ∈ sn_offers s → po_provider o = sn_provider s)
  ∧ sn_completed_at s = tm_completed t ∧ sn_expires_at s = (tm_completed t + max_staleness)%Q
  ∧ (∀ k v, dget (db_snapshots (sv_db sv')) k = Some v → dget (db_snapshots (sv_db sv)) k = Some v ∨ k = sn_id s).
Proof.
  intros Hd. unfold commit_one. set (sid := "snapshot_" +:+ uuid4 (sv_uuids sv)).
  destruct (snapshot_of _ _ _ _ _ _ _ _) as [s0|e] eqn:Es; [|done].
  apply snapshot_of_spec in Es as (Hid & Hprov & Hscope & Hst & Hcomp & Hexp & _ & _ & HF).
  destruct (discover_isolated r) as (Hdp & _). rewrite Hdp in Hprov.
  destruct (alias_decisions_from _ _ _ _ _ _ _) as [ds|e] eqn:Ea; [|done]. apply decisions_spec in Ea as [Hcover Hfrom].
  cbn [sv_db next_uuid]. destruct (commit_reconciled _ _ _ _ _ _ _ _) as [out d] eqn:Ec.
  pose proof (commit_reconciled_spec digest24 ip_host (without_offers s0) (sn_offers s0) ds AUDIT_ACTOR f (sv_db sv) Hd) as H.
  rewrite Ec in H. destruct out as [stored|e]; [|done]. intros [= <- <-]. cbn [sv_db with_db].
  destruct H as (Hok & Hfence & _ & Hnew & (s' & offers' & Hv & Hrow & Hins & Hback) & Hact & Hother & Hoff & Hsn & Hsnew & Hids & _).
  cbn [without_offers sn_id] in *. destruct (validate_inventory_ok _ _ _ _ _ _ Hv) as (_ & _ & Hbel & HF2).
  assert (∃ e, s' = with_error e (without_offers s0)) as [e He].
  { unfold validate_inventory in Hv. destruct (check_snapshot (without_offers s0)) as [x|] eqn:Ex; [|done].
    destruct (check_snapshot_ok _ _ Ex) as (Hx & _). destruct (each_check _ _ _) as [os|]; [|done].
    destruct (bool_decide (sn_status x = stale)); [done|]. exists (sn_error x). rewrite <- Hx.
    destruct os, (sn_status x), (sn_offers x); try done; try (destruct (first_some _ _); [done|]); congruence. }
  assert (∀ o, o ∈ sn_offers s0 → ∃ u, with_base_url u o ∈ offers') as Hin.
  { intros o (i & Hi)%list_elem_of_lookup. destruct (Forall2_lookup_l _ _ _ _ _ HF2 Hi) as (o' & Ho' & [u ->]%check_offer_same).
    exists u. by eapply list_elem_of_lookup_2. }
  assert (Hprovs : ∀ o, o ∈ sn_offers s0 → po_provider o = sn_provider s0).
  { intros o [u Hu]%Hin. apply Hbel in Hu as [Hp _]. rewrite He in Hp. exact Hp. }
  split; [done|]. split; [|split; [|done] ].
  - split_and!; [done..| | | |].
    + exists (snapshot_row s'). split; [done|]. by rewrite He.
    + eapply Forall2_impl; [exact HF|]. intros x o (? & ? & _)%offer_of_spec. done.
    + intros o Ho. split; [|split].
      * destruct (Hin o Ho) as [u Hu]. exists (offer_row (with_base_url u o)). split; [|done]. apply (Hins _ Hu).
      * destruct (Hcover o Ho) as (a & Ha & Hka); [by intros ?%elem_of_nil|].
        destruct (Hact a Ha) as (_ & b & Hb & Hkb & Hcur). rewrite <- Hka. eexists. split; [exact Hcur|].
        destruct (Hfrom b Hb) as (o' & Ho' & Hk' & Hi' & _). cbn. rewrite Hi'.
        eapply same_identity; [exact HF|done|done|congruence].
      * destruct (Hcover o Ho) as (a & Ha & Hka); [by intros ?%elem_of_nil|]. destruct (Hact a Ha) as (Hm & _).
        destruct (Hfrom a Ha) as (o' & Ho' & Hk' & Hi' & _). rewrite Hids.
        replace (po_identity o) with (ad_identity a); [done|]. rewrite Hi'. eapply same_identity; [exact HF|done|done|congruence].
    + intros k row Hk. destruct (Hback _ _ Hk) as [Hk'|(o' & Ho' & [= ->])].
      * destruct (io_offer _ (dk_inventory _ Hd) _ _ _ Hk') as (_ & x & Hx & _). congruence.
      * destruct (io_offer _ (dk_inventory _ Hok) _ _ _ Hk) as (<- & _). cbn.
        apply list_elem_of_lookup in Ho' as (i & Hi). destruct (Forall2_lookup_r _ _ _ _ _ HF2 Hi) as (o & Hoi & [u ->]%check_offer_same).
        exists o. split; [by eapply list_elem_of_lookup_2|done].
  - split_and!; [done..| |].
    + intros k Hk. apply Hother. intros (a & -> & Ha)%list_elem_of_fmap. destruct (Hfrom a Ha) as (o & Ho & Hka & _).
      apply Hk. rewrite Hka. unfold offer_source. cbn [fst]. by rewrite Hprovs, Hprov.
    + intros k sid' row Hs Hk. destruct (Hback _ _ Hk) as [?|(o' & _ & [= -> _])]; [done|congruence].
Qed.

Notation provider_of := (λ r, a_provider (rr_adapter r)).

Lemma commit_all_spec t rc latest fence k requests sv ss sv' :
  db_ok (sv_db sv) → NoDup (provider_of <$> requests) →
  commit_all_at t rc latest fence k (zip requests (discover <$> requests)) sv = (Ok ss, sv') →
  db_ok (sv_db sv') ∧ Forall2 (published (sv_db sv')) requests ss
  ∧ Forall (λ s, sn_completed_at s = tm_completed t ∧ sn_expires_at s = (tm_completed t + max_staleness)%Q) ss
  ∧ (∀ r s, provider_of r ∉ provider_of <$> requests → (∀ o, o ∈ sn_offers s → po_provider o = sn_provider s) →
       published (sv_db sv) r s → published (sv_db sv') r s)
  ∧ (∀ i v, dget (db_snapshots (sv_db sv')) i = Some v → dget (db_snapshots (sv_db sv)) i = Some v ∨ ∃ s, s ∈ ss ∧ i = sn_id s)
  ∧ (∀ i v, dget (db_snapshots (sv_db sv)) i = Some v → dget (db_snapshots (sv_db sv')) i = Some v)
  ∧ db_identities (sv_db sv') = db_identities (sv_db sv).
Proof.
  revert k sv ss. induction requests as [|r requests IH]; intros k sv ss Hd Hnd; cbn [fmap list_fmap zip_with commit_all].
  { intros [= <- <-]. split_and!; [done|constructor..|done|auto|done|done]. }
  cbn [fmap list_fmap] in Hnd. apply NoDup_cons in Hnd as [Hr Hnd].
  destruct (commit_one_at _ _ _ _ _ _ sv) as [ [s|e] sv1] eqn:E1; [|done].
  apply commit_one_spec in E1 as (Hd1 & Hp1 & Hop1 & Hof1 & Hc1 & He1 & Hn1); [|done].
  destruct (commit_all_at _ _ _ _ _ _ sv1) as [ [ss1|e] sv2] eqn:E2; [|done].
  intros [= <- <-]. apply IH in E2 as (Hd2 & Hp2 & Hc2 & Hk2 & Hn2 & Ho2 & Hi2); [|done..].
  split_and!.
  - done.
  - constructor; [|done]. by apply Hk2.
  - by constructor.
  - intros r0 s0 Hnr Hof Hpub. apply not_elem_of_cons in Hnr as [Hne Hnot]. apply Hk2; [done|done|].
    eapply published_kept; [exact Hop1| |exact Hof|exact Hpub]. destruct Hpub as [-> _]. done.
  - intros i v Hv. apply Hn2 in Hv as [Hv|(s' & Hs' & Es')]; [|right; exists s'; split; [by right|done] ].
    destruct (Hn1 _ _ Hv) as [?| ->]; [by left|right]. exists s. split; [left|done].
  - intros i v Hv. apply Ho2. by apply (proj1 (proj2 Hop1)).
  - rewrite Hi2. apply Hop1.
Qed.

Lemma refresh_spec t requests known approved fence sv outcome sv' :
  db_ok (sv_db sv) → refresh_at t requests known approved fence sv = (Ok outcome, sv') →
  db_ok (sv_db sv') ∧ Forall2 (published (sv_db sv')) requests (oc_snapshots outcome)
  ∧ (∀ i, i ∈ oc_identities outcome → ∃ row, dget (db_identities (sv_db sv')) (mi_id i) = Some row ∧ same_columns row i = true)
  ∧ Forall (λ s, sn_completed_at s = tm_completed t ∧ sn_expires_at s = (tm_completed t + max_staleness)%Q) (oc_snapshots outcome)
  ∧ (∀ i v, dget (db_snapshots (sv_db sv')) i = Some v →
       dget (db_snapshots (sv_db sv)) i = Some v ∨ ∃ s, s ∈ oc_snapshots outcome ∧ i = sn_id s)
  ∧ NoDup (provider_of <$> requests).
Proof.
  intros Hd. unfold refresh. case_bool_decide as Hnd; [|done].
  destruct (reconcile _ _ _ _ _) as [ids offers].
  pose proof (calls_ok digest24 ip_host [EnsureIdentities ids] (sv_db sv) Hd) as Hd1. cbn [fold_left run_call] in Hd1.
  pose proof (identities_immutable ids (sv_db sv)) as Him.
  destruct (ensure_identities ids (sv_db sv)) as [ [n|e] d]; [|done]. cbn [snd] in Hd1.
  destruct (latest_aliases _ _ _) as [latest|e]; [|done].
  destruct (commit_all_at _ _ _ _ _ _ _) as [ [ss|e] sv2] eqn:Ec; [|done]. intros [= <- <-].
  apply commit_all_spec in Ec as (Hd2 & Hp & Ht & _ & Hn & _ & Hi); [|done|done]. cbn [oc_snapshots oc_identities].
  split_and!; [done|done| |done| |done].
  - intros i Hin. rewrite Hi. apply Him. done.
  - intros i v Hv. apply Hn in Hv as [Hv|Hv]; [left|by right]. cbn [sv_db with_known with_db] in Hv.
    destruct Him as (_ & Hf & _). rewrite <- Hf. exact Hv.
Qed.

(** a refresh that returns has one snapshot for each request, of its provider, scope and discovered status, and has stored it: every discovered offer stands under it and no other does, its identity is stored, and the active alias decision of its source names that identity. *)
Theorem refresh_publishes t requests known approved fence sv outcome sv' :
  db_ok (sv_db sv) → refresh_at t requests known approved fence sv = (Ok outcome, sv') →
  db_ok (sv_db sv') ∧ Forall2 (published (sv_db sv')) requests (oc_snapshots outcome)
  ∧ ∀ i, i ∈ oc_identities outcome → ∃ row, dget (db_identities (sv_db sv')) (mi_id i) = Some row ∧ same_columns row i = true.
Proof. intros Hd H. apply refresh_spec in H as (? & ? & ? & _); done. Qed.

(** A success later than everything stored is the latest of its partition, with exactly the
    discovered models under it. *)
Lemma refresh_latest t requests known approved fence sv outcome sv' r :
  db_ok (sv_db sv) → (∀ k v, dget (db_snapshots (sv_db sv)) k = Some v → (sn_completed_at v < tm_completed t)%Q) →
  refresh_at t requests known approved fence sv = (Ok outcome, sv') → r ∈ requests → dr_status (discover r) = success →
  inventory_ok (sv_db sv') ∧ ∃ row, latest_success (sv_db sv') row
  ∧ snapshot_partition row = (a_provider (rr_adapter r), dc_scope (rr_config r)) ∧ sn_expires_at row = (tm_completed t + max_staleness)%Q
  ∧ ∀ u, u ∈ do_upstream <$> dr_offers (discover r) ↔ ∃ k o, dget (db_offers (sv_db sv')) k = Some (sn_id row, o) ∧ po_upstream o = u.
Proof.
  intros Hd Hold H Hr Hst. apply refresh_spec in H as (Hd' & HF & _ & Ht & Hsn & Hnd); [|done].
  apply list_elem_of_lookup in Hr as [i Hi]. destruct (Forall2_lookup_l _ _ _ _ _ HF Hi) as (s & Hs & Hpub).
  pose proof (dk_inventory _ Hd') as Hinv. rewrite Forall_lookup in Ht. destruct (Ht _ _ Hs) as [Htc Hte].
  pose proof Hpub as (P1 & P2 & P3 & (row & Hrow & R1 & R2 & R3 & R4 & R5) & P5 & P6 & P7).
  destruct (io_snapshot _ Hinv _ _ Hrow) as [Hrid _]. split; [done|]. exists row. split; [split; [|split] |split; [|split] ].
  - by rewrite Hrid.
  - congruence.
  - intros s'' Hs'' Hst'' Hpart. unfold snapshot_partition in Hpart. injection Hpart as Hpp _.
    destruct (Hsn _ _ Hs'') as [Ho|(s2 & Hs2 & Ei)].
    + unfold newest_leb. rewrite (proj2 (Qltb_true _ _)); [done|]. rewrite R4, Htc. by apply (Hold _ _ Ho).
    + apply list_elem_of_lookup in Hs2 as [j Hj]. destruct (Forall2_lookup_r _ _ _ _ _ HF Hj) as (r2 & Hr2 & (Q1 & _ & _ & (row2 & Hrow2 & _ & S2 & _) & _)).
      assert (row2 = s'') as -> by congruence. assert (j = i) as ->.
      { eapply NoDup_lookup; [exact Hnd| |]; rewrite list_lookup_fmap; [by rewrite Hr2|rewrite Hi; cbn; congruence]. }
      assert (s2 = s) as -> by congruence. assert (s'' = row) as -> by congruence. apply newest_leb_refl.
  - unfold snapshot_partition. congruence.
  - by rewrite R5, Hte.
  - intros u. split.
    + intros (x & -> & Hx)%list_elem_of_fmap. apply list_elem_of_lookup in Hx as [j Hj].
      destruct (Forall2_lookup_l _ _ _ _ _ P5 Hj) as (o & Ho & _ & <-). destruct (P6 o) as ((orow & Horow & _ & Hup & _) & _); [by eapply list_elem_of_lookup_2|].
      exists (po_snapshot_offer_id o), orow. rewrite Hrid. done.
    + intros (k & o & Ho & <-). rewrite Hrid in Ho. destruct (P7 _ _ Ho) as (o' & Ho' & <-).
      destruct (P6 o' Ho') as ((orow & Horow & _ & Hup & _) & _). assert (orow = o) as -> by congruence. rewrite Hup.
      apply list_elem_of_lookup in Ho' as [j Hj]. destruct (Forall2_lookup_r _ _ _ _ _ P5 Hj) as (x & Hx & _ & ->).
      apply list_elem_of_fmap. exists x. split; [done|by eapply list_elem_of_lookup_2].
Qed.

(** The offers of the newest success of a partition are its routing candidates. *)
Lemma latest_routes d row part now u :
  inventory_ok d → latest_success d row → snapshot_partition row = part → (now < sn_expires_at row)%Q →
  (∃ k o, dget (db_offers d) k = Some (sn_id row, o) ∧ po_upstream o = u)
  ↔ ∃ c, c ∈ routing_candidates_for_scopes [part] now d ∧ upstream_model_id c = u.
Proof.
  intros Hinv Hl Hpart Hnow. split.
  - intros (k & o & Ho & <-). exists (candidate_of row o). split; [|done]. apply elem_of_scope_candidates; [done|].
    rewrite (candidate_partition _ row _ o Hinv (proj1 Hl) Ho). split; [|rewrite Hpart; left].
    exists row, k, o. by split_and!.
  - intros (c & (Hroute & Hc)%elem_of_scope_candidates & <-); [|done].
    destruct Hroute as (s2 & k & o & Hl2 & _ & Ho & ->). rewrite (candidate_partition _ s2 _ o Hinv (proj1 Hl2) Ho) in Hc.
    apply list_elem_of_singleton in Hc. assert (sn_id s2 = sn_id row) as Eid.
    { apply newest_leb_antisym; [apply Hl2; [apply Hl..|congruence]|apply Hl; [apply Hl2..|congruence] ]. }
    exists k, o. by rewrite <- Eid.
Qed.

(** after a refresh later than everything stored, the routing candidates of a partition it discovered with success, as long as they are fresh, are exactly the models discovered: none is missing, and none is left over from before. *)
Theorem refresh_routes t requests known approved fence sv outcome sv' r now u :
  db_ok (sv_db sv) → (∀ k v, dget (db_snapshots (sv_db sv)) k = Some v → (sn_completed_at v < tm_completed t)%Q) →
  refresh_at t requests known approved fence sv = (Ok outcome, sv') →
  r ∈ requests → dr_status (discover r) = success → (now < tm_completed t + max_staleness)%Q →
  u ∈ do_upstream <$> dr_offers (discover r)
  ↔ ∃ c, c ∈ routing_candidates_for_scopes [(a_provider (rr_adapter r), dc_scope (rr_config r))] now (sv_db sv')
         ∧ upstream_model_id c = u.
Proof.
  intros Hd Hold H Hr Hst Hnow. destruct (refresh_latest _ _ _ _ _ _ _ _ r Hd Hold H Hr Hst) as (Hinv & row & Hl & Hpart & Hexp & Hall).
  rewrite Hall. apply latest_routes; [done..|by rewrite Hexp].
Qed.

(** A refresh leaves the operations alone. *)
Lemma refresh_ops t requests known approved fence sv :
  db_ok (sv_db sv) → db_ops (sv_db (refresh_at t requests known approved fence sv).2) = db_ops (sv_db sv).
Proof.
  intros Hd. unfold refresh. case_bool_decide; [|done]. destruct (reconcile _ _ _ _ _) as [ids offers].
  pose proof (calls_ok digest24 ip_host [EnsureIdentities ids] (sv_db sv) Hd) as Hd1. cbn [fold_left run_call] in Hd1.
  pose proof (identities_immutable ids (sv_db sv)) as Him. destruct (ensure_identities ids (sv_db sv)) as [r d]. cbn [snd] in Hd1.
  destruct Him as (_ & Hf & _). assert (db_ops d = db_ops (sv_db sv)) as Ho by (rewrite <- Hf; done).
  destruct r as [n|e]; [|done]. destruct (latest_aliases _ _ _) as [latest|e]; [|done].
  assert (∀ l k sv1, db_ok (sv_db sv1) → db_ops (sv_db (commit_all_at t (reconciled_by_source offers) latest fence k l sv1).2) = db_ops (sv_db sv1)) as Hall.
  { induction l as [|[r result] l IH]; intros k sv1 Hd2; cbn [commit_all]; [done|].
    assert (db_ok (sv_db (commit_one_at t (reconciled_by_source offers) latest (match fence with Some f => Some (f k) | None => None end) r result sv1).2)
            ∧ db_ops (sv_db (commit_one_at t (reconciled_by_source offers) latest (match fence with Some f => Some (f k) | None => None end) r result sv1).2)
              = db_ops (sv_db sv1)) as [H1 H2].
    { unfold commit_one. destruct (snapshot_of _ _ _ _ _ _ _ _) as [s0|e]; [|done]. destruct (alias_decisions_from _ _ _ _ _ _ _) as [ds|e]; [|done].
      cbn [sv_db next_uuid]. pose proof (commit_reconciled_spec digest24 ip_host (without_offers s0) (sn_offers s0) ds AUDIT_ACTOR
        (match fence with Some f => Some (f k) | None => None end) (sv_db sv1) Hd2) as H0.
      destruct (commit_reconciled _ _ _ _ _ _ _ _) as [ [st|e] d2]; cbn [snd sv_db with_db]; [|by destruct H0 as [? ->] ].
      split; [apply H0|]. destruct H0 as (_ & _ & _ & _ & _ & _ & _ & _ & _ & _ & _ & Hops). exact Hops. }
    destruct (commit_one_at _ _ _ _ _ _ sv1) as [ [s|e] sv2]; cbn [snd] in *; [|done].
    specialize (IH (S k) sv2 H1). destruct (commit_all_at _ _ _ _ _ l sv2) as [ [ss|e] sv3]; cbn [snd] in *; congruence. }
  specialize (Hall (zip requests (discover <$> requests)) 0 (with_known (by_id ids (sv_known sv)) (with_db d sv)) Hd1).
  destruct (commit_all_at _ _ _ _ _ _ _) as [ [ss|e] sv2]; cbn [snd sv_db with_known with_db] in *; congruence.
Qed.

(** Every snapshot of a refresh was built from the discovery of its request. *)
Lemma commit_all_built t rc latest fence k requests sv ss sv' :
  commit_all_at t rc latest fence k (zip requests (discover <$> requests)) sv = (Ok ss, sv') →
  Forall2 (λ r s, ∃ sid, snapshot_of digest24 ip_host max_staleness t r (discover r) sid rc = Ok s) requests ss.
Proof.
  revert k sv ss. induction requests as [|r requests IH]; intros k sv ss; cbn [fmap list_fmap zip_with commit_all].
  { intros [= <- <-]. constructor. }
  destruct (commit_one_at _ _ _ _ _ _ sv) as [ [s|e] sv1] eqn:E1; [|done].
  destruct (commit_all_at _ _ _ _ _ _ sv1) as [ [ss1|e] sv2] eqn:E2; [|done].
  intros [= <- <-]. constructor; [|by eapply IH]. unfold commit_one in E1.
  destruct (snapshot_of _ _ _ _ _ _ _ _) as [s0|e] eqn:Es; [|done].
  destruct (alias_decisions_from _ _ _ _ _ _ _); [|done]. destruct (commit_reconciled _ _ _ _ _ _ _ _) as [ [st|e] d]; [|done].
  injection E1 as <- <-. by eexists.
Qed.

(** The texts of a snapshot that are written as values: those in its metadata, its error and
    those in the metadata of its offers; the keys of these objects, the ids and the urls apart. *)
Definition snapshot_texts (s : InventorySnapshot) : list string :=
  json_texts (JObj (sn_metadata s)) ++ match sn_error s with Some e => [e] | None => [] end
  ++ flat_map (λ o, json_texts (JObj (po_raw o))) (sn_offers s).

(** C28: no text value a refresh keeps of what a provider sent — in the metadata of the snapshot,
    its error, or the metadata of its offers — mentions a maskable fragment of the credential of
    that request, whatever the adapter let through.  (Values only: the keys of the metadata objects
    are stored as they come and can still hold it, [Sanitize.key_keeps_credential], and ids, urls
    and display names are not among these texts.) *)
Theorem refresh_hides_credential t requests known approved fence sv outcome sv' i r s f x :
  refresh_at t requests known approved fence sv = (Ok outcome, sv') →
  requests !! i = Some r → oc_snapshots outcome !! i = Some s →
  f ∈ fragments (rr_credential r) → maskable f = true → x ∈ snapshot_texts s → mentions f x = false.
Proof.
  intros H Hr Hs Hf Hm Hx. revert H. unfold refresh. case_bool_decide; [|done].
  destruct (reconcile _ _ _ _ _) as [ids offers]. destruct (ensure_identities _ _) as [ [n|e] d]; [|done].
  destruct (latest_aliases _ _ _) as [latest|e]; [|done].
  destruct (commit_all_at _ _ _ _ _ _ _) as [ [ss|e] sv2] eqn:Ec; [|done]. intros [= <- <-].
  apply commit_all_built in Ec. destruct (Forall2_lookup_lr _ _ _ _ _ _ Ec Hr Hs) as [sid Hb].
  apply snapshot_of_spec in Hb as (_ & _ & _ & _ & _ & _ & Hmeta & Herr & HF).
  unfold snapshot_texts in Hx. rewrite Hmeta, Herr in Hx. apply elem_of_app in Hx as [Hx|Hx].
  { rewrite OpenRouter.sanitized_object in Hx. apply metadata_texts in Hx as [y ->]. by apply text_hidden. }
  apply elem_of_app in Hx as [Hx|Hx].
  { destruct (dr_error (discover r)); [|by apply elem_of_nil in Hx]. apply list_elem_of_singleton in Hx as ->.
    apply summary_hidden; [done|]. by apply text_hidden. }
  apply elem_of_flat_map in Hx as (o & Ho & Hx). apply list_elem_of_lookup in Ho as [j Hj].
  destruct (Forall2_lookup_r _ _ _ _ _ HF Hj) as (y & _ & Hy). apply offer_of_spec in Hy as (_ & _ & Hraw & _).
  rewrite Hraw, OpenRouter.sanitized_object in Hx. apply metadata_texts in Hx as [z ->]. by apply text_hidden.
Qed.
End writes.

(** ** A concrete refresh *)

Definition demo_ip (host : string) : bool := true.

Definition router_request (rows : list json) : RefreshRequest :=
  {| rr_adapter := openrouter_adapter demo_ip OpenRouter.demo_texts (λ _, OpenRouter.Answer (OpenRouter.demo_answer rows));
     rr_credential := "sk-or-v1-abcdef"; rr_config := OpenRouter.demo_config |}.

Definition fireworks_request (account : string) : RefreshRequest :=
  {| rr_adapter := fireworks_adapter demo_ip OpenRouter.demo_texts (λ k, Qz (Z.of_nat k)) (λ _, Fireworks.demo_get account);
     rr_credential := "fw_AAAAbbbb1111cccc"; rr_config := Fireworks.user_config |}.

(** An adapter that raises. *)
Definition broken_request : RefreshRequest :=
  {| rr_adapter := {| a_provider := fireworks; a_revision := "r"; a_discover := λ _ _, Err ("KeyError", "fw_AAAAbbbb1111cccc") |};
     rr_credential := "fw_AAAAbbbb1111cccc"; rr_config := Fireworks.user_config |}.

Definition demo_times : Times := {| tm_started := 10; tm_completed := 11; tm_reconciled := 11 |}.

Definition new_service : Service := {| sv_known := []; sv_uuids := 0; sv_db := new_db |}.

Definition demo_refresh (requests : list RefreshRequest) (sv : Service) : res RefreshError Outcome * Service :=
  refresh (λ s, s) demo_ip str_of_nat (λ s, s) 86400 demo_times requests [] (Some []) None sv.

Definition statuses (o : res RefreshError Outcome * Service) : option (list (ProviderName * InventoryStatus * nat)) :=
  match o.1 with
  | Ok oc => Some ((λ s, (sn_provider s, sn_status s, length (sn_offers s))) <$> oc_snapshots oc)
  | Err _ => None
  end.

(** A provider that raises is stored as failed, and the other is not affected. *)
Example one_provider_fails :
  statuses (demo_refresh [broken_request; router_request [OpenRouter.demo_row "a/m" JNull; OpenRouter.demo_row "b/m" JNull] ] new_service)
  = Some [(fireworks, failed, 0); (openrouter, success, 2)].
Proof. vm_compute. reflexivity. Qed.

(** A row listed twice breaks the uniqueness of the offers of a snapshot: the refresh raises. *)
Theorem duplicate_row_fails_refresh :
  (demo_refresh [router_request [OpenRouter.demo_row "a/m" JNull; OpenRouter.demo_row "a/m" JNull] ] new_service).1
  = Err (RStore EIntegrity).
Proof. vm_compute. reflexivity. Qed.

(** An account with an unfortunate name makes the snapshot of a successful discovery
    invalid, and the providers after it are not stored at all. *)
Theorem account_name_fails_refresh :
  (demo_refresh [fireworks_request "turkey"; router_request [OpenRouter.demo_row "a/m" JNull] ] new_service).1
  = Err (RValue "InventorySnapshot")
  ∧ db_snapshots (sv_db (demo_refresh [fireworks_request "turkey"; router_request [OpenRouter.demo_row "a/m" JNull] ] new_service).2) = [].
Proof. vm_compute. split; reflexivity. Qed.

Definition demo_request : RefreshRequest := router_request [OpenRouter.demo_row "a/m" JNull].
(** The demonstration's answer, computed once. *)
Lemma demo_refreshed : ∃ o sv s,
  refresh (λ s, s) demo_ip str_of_nat (λ s, s) 86400 demo_times [demo_request] [] (Some []) None new_service
    = (Ok o, sv)
  ∧ oc_snapshots o !! 0 = Some s ∧ "models/user" ∈ snapshot_texts s.
Proof.
  eexists _, _, _. split_and!; [vm_compute; reflexivity|vm_compute; reflexivity|].
  vm_compute. repeat (first [left | right]).
Qed.

Lemma refresh_store_ok_witness :
  db_ok (sv_db (refresh (λ s, s) demo_ip str_of_nat (λ s, s) 86400 demo_times [demo_request] [] (Some []) None new_service).2).
Proof.
  exact (proj1 (refresh_store_ok (λ s, s) demo_ip str_of_nat (λ s, s) 86400 demo_times [demo_request] [] (Some []) None
           new_service db_ok_new)).
Defined.

Lemma refresh_publishes_witness : ∃ o sv, Forall2 (published (sv_db sv)) [demo_request] (oc_snapshots o).
Proof.
  destruct demo_refreshed as (o & sv & s & E & _). exists o, sv.
  exact (proj1 (proj2 (refresh_publishes (λ s, s) demo_ip str_of_nat (λ s, s) 86400 demo_times [demo_request] [] (Some []) None
           new_service o sv db_ok_new E))).
Defined.

Lemma refresh_routes_witness : ∃ sv c,
  c ∈ routing_candidates_for_scopes [(a_provider (rr_adapter demo_request), dc_scope (rr_config demo_request))] 12 (sv_db sv)
  ∧ upstream_model_id c = "a/m".
Proof.
  destruct demo_refreshed as (o & sv & s & E & _). exists sv.
  apply (refresh_routes (λ s, s) demo_ip str_of_nat (λ s, s) 86400 demo_times [demo_request] [] (Some []) None
           new_service o sv demo_request 12 "a/m" db_ok_new).
  - intros k v H. discriminate H.
  - exact E.
  - left.
  - vm_compute. reflexivity.
  - reflexivity.
  - vm_compute. left.
Defined.

Lemma refresh_hides_credential_witness : ∃ o s,
  oc_snapshots o !! 0 = Some s ∧ "models/user" ∈ snapshot_texts s ∧ mentions "sk-or-v1-abcdef" "models/user" = false.
Proof.
  destruct demo_refreshed as (o & sv & s & E & Hs & Hx). exists o, s. split; [exact Hs|]. split; [exact Hx|].
  apply (refresh_hides_credential (λ s, s) demo_ip str_of_nat (λ s, s) 86400 demo_times [demo_request] [] (Some []) None
           new_service o sv 0 demo_request s "sk-or-v1-abcdef" "models/user" E eq_refl Hs).
  - apply credential_fragment. discriminate.
  - reflexivity.
  - exact Hx.
Defined.

Lemma discover_isolated_example : dr_status (discover broken_request) = failed.
Proof. vm_compute. reflexivity. Qed.
