(* ===== verification/Pricing.v ===== *)
(** * Cost computation ([pricing.py])

    The cost of a call from the catalog price and the token usage, with the cached-read
    discount and the cache-write premium, and the frontier baseline it is compared to. *)

From S2P Require Import Prelude PyDict Schemas Catalog.

(** [n / 1000.0] *)
Definition per_1k (n : Z) : Q := (Qz n / 1000)%Q.

(** The read slice, clamped into the prompt, and the write slice, disjoint from it. *)
Definition cached_slice (u : Usage) : Z := Z.min (Z.max (tokens_cached u) 0) (prompt_tokens u).

Definition write_slice (u : Usage) : Z :=
  Z.min (Z.max (tokens_cache_write u) 0) (prompt_tokens u - cached_slice u).

(** The sum of [compute_cost_usd] before rounding. *)
Definition raw_cost_usd (e : CatalogEntry) (u : Usage) : Q :=
  let p := price_usd_per_1k e in
  let cached := cached_slice u in
  let uncached := (prompt_tokens u - cached)%Z in
  let write := write_slice u in
  (per_1k uncached * prompt p
   + per_1k cached * prompt p * cache_read_multiplier p
   + per_1k write * prompt p * (cache_write_multiplier p - 1)
   + per_1k (completion_tokens u) * completion p)%Q.

Definition compute_cost_usd (e : CatalogEntry) (u : Usage) : Q := py_round 6 (raw_cost_usd e u).

Definition frontier_baseline_cost_usd (e : CatalogEntry) (u : Usage) : Q := compute_cost_usd e u.

(** ** Facts *)

(** A price a provider can charge: no negative rate, reads discounted, writes at a premium. *)
Record sane_price (p : Price) : Prop := {
  sane_prompt : (0 <= prompt p)%Q;
  sane_completion : (0 <= completion p)%Q;
  sane_read : (0 <= cache_read_multiplier p <= 1)%Q;
  sane_write : (1 <= cache_write_multiplier p)%Q;
}.

Lemma Qz_nonneg n : (0 <= n)%Z → (0 <= Qz n)%Q.
Proof. intros. unfold Qz. change 0%Q with (inject_Z 0). by rewrite <- Zle_Qle. Qed.

Lemma per_1k_nonneg n : (0 <= n)%Z → (0 <= per_1k n)%Q.
Proof.
  intros Hn%Qz_nonneg. unfold per_1k, Qdiv. by apply Qmult_le_0_compat.
Qed.

Lemma per_1k_sub a b : (per_1k (a - b) == per_1k a - per_1k b)%Q.
Proof. unfold per_1k, Qz, Z.sub. rewrite inject_Z_plus, inject_Z_opp. field. Qed.

Lemma slices_disjoint u :
  (0 <= prompt_tokens u)%Z →
  (0 <= cached_slice u)%Z ∧ (0 <= write_slice u)%Z ∧
  (cached_slice u + write_slice u <= prompt_tokens u)%Z.
Proof. unfold write_slice, cached_slice. lia. Qed.

Lemma per_1k_mono a b : (a <= b)%Z → (per_1k a <= per_1k b)%Q.
Proof.
  intros H. assert (0 <= per_1k (b - a))%Q by (apply per_1k_nonneg; lia).
  pose proof (per_1k_sub b a). lra.
Qed.

(** The unrounded cost lies between the all-read and the all-write bill. *)
Lemma raw_cost_bounds e u :
  sane_price (price_usd_per_1k e) → (0 <= prompt_tokens u)%Z → (0 <= completion_tokens u)%Z →
  let p := price_usd_per_1k e in
  (per_1k (prompt_tokens u) * prompt p * cache_read_multiplier p
   + per_1k (completion_tokens u) * completion p <= raw_cost_usd e u)%Q ∧
  (raw_cost_usd e u <= per_1k (prompt_tokens u) * prompt p * cache_write_multiplier p
   + per_1k (completion_tokens u) * completion p)%Q.
Proof.
  intros [Hp Hc [Hr0 Hr1] Hw] Hpt Hct p. unfold raw_cost_usd. fold p. fold p in Hp, Hc, Hr0, Hr1, Hw.
  destruct (slices_disjoint u Hpt) as (H1 & H2 & H3).
  pose proof (per_1k_nonneg _ H1) as Hcs. pose proof (per_1k_nonneg _ H2) as Hws.
  assert (0 <= per_1k (prompt_tokens u) - per_1k (cached_slice u) - per_1k (write_slice u))%Q as Hrest.
  { rewrite <- !per_1k_sub. apply per_1k_nonneg. lia. }
  rewrite !per_1k_sub. clear H1 H2 H3 Hpt.
  generalize dependent (per_1k (cached_slice u)). generalize dependent (per_1k (write_slice u)).
  generalize (per_1k (completion_tokens u) * completion p)%Q (per_1k (prompt_tokens u)).
  intros c n w Hw0 k Hk Hnk.
  pose proof (Qmult_le_0_compat _ _ Hp (proj1 (Qle_minus_iff _ _) Hr1)) as M1.
  pose proof (Qmult_le_0_compat _ _ Hp (proj1 (Qle_minus_iff _ _) Hw)) as M2.
  split; nra.
Qed.

Lemma round_half_even_mono q q' : (q <= q')%Q → (round_half_even q <= round_half_even q')%Z.
Proof.
  intros Hq. pose proof (Qfloor_resp_le _ _ Hq) as Hf. unfold round_half_even, Qz.
  destruct (Z.eq_dec (Qfloor q) (Qfloor q')) as [Heq|Hne].
  - rewrite Heq. repeat case_match; q_to_prop; try lia; lra.
  - repeat case_match; lia.
Qed.

Lemma py_round_mono n q q' : (q <= q')%Q → (py_round n q <= py_round n q')%Q.
Proof.
  intros Hq. unfold py_round, Qdiv.
  assert (0 < Qz (10 ^ Z.of_nat n))%Q as Hs.
  { unfold Qz. change 0%Q with (inject_Z 0). rewrite <- Zlt_Qlt. lia. }
  pose proof (Qinv_lt_0_compat _ Hs).
  apply Qmult_le_compat_r; [|lra]. unfold Qz at 1 2. rewrite <- Zle_Qle.
  apply round_half_even_mono. apply Qmult_le_compat_r; [done|lra].
Qed.

Lemma py_round_0 n : (py_round n 0 == 0)%Q.
Proof. unfold py_round. replace (round_half_even (0 * _)) with 0%Z; [|done]. unfold Qdiv. apply Qmult_0_l. Qed.

(** For non-negative prices the cost of a call is non-negative, a cached read never
    makes it dearer and a cache write only up to the write premium: it lies between the
    bill with every prompt token read from the cache and the one with every prompt token
    written to it, whatever the (possibly inconsistent) cache counters say. *)
Theorem compute_cost_bounds e u :
  sane_price (price_usd_per_1k e) → (0 <= prompt_tokens u)%Z → (0 <= completion_tokens u)%Z →
  let p := price_usd_per_1k e in
  (0 <= compute_cost_usd e u)%Q ∧
  (py_round 6 (per_1k (prompt_tokens u) * prompt p * cache_read_multiplier p
   + per_1k (completion_tokens u) * completion p) <= compute_cost_usd e u)%Q ∧
  (compute_cost_usd e u <= py_round 6 (per_1k (prompt_tokens u) * prompt p * cache_write_multiplier p
   + per_1k (completion_tokens u) * completion p))%Q.
Proof.
  intros Hs Hp Hc p. destruct (raw_cost_bounds e u Hs Hp Hc) as [Hlo Hhi]. unfold compute_cost_usd.
  split; [|split; by apply py_round_mono].
  rewrite <- (py_round_0 6). apply py_round_mono. eapply Qle_trans; [|exact Hlo].
  destruct Hs as [H1 H2 [H3 _] _]. apply per_1k_nonneg in Hp, Hc.
  rewrite <- (Qplus_0_l 0). apply Qplus_le_compat; repeat (apply Qmult_le_0_compat; try done).
Qed.

(** Without cache traffic — no reads and no writes reported, or garbage below zero —
    a call costs exactly the full price. *)
Theorem compute_cost_uncached e u :
  (tokens_cached u <= 0)%Z → (tokens_cache_write u <= 0)%Z → (0 <= prompt_tokens u)%Z →
  (raw_cost_usd e u ==
   per_1k (prompt_tokens u) * prompt (price_usd_per_1k e)
   + per_1k (completion_tokens u) * completion (price_usd_per_1k e))%Q.
Proof.
  intros Hc Hw Hp. unfold raw_cost_usd.
  assert (cached_slice u = 0%Z) as Hcs by (unfold cached_slice; lia).
  assert (write_slice u = 0%Z) as -> by (unfold write_slice; rewrite Hcs; lia).
  rewrite Hcs, Z.sub_0_r. assert (per_1k 0 == 0)%Q as -> by reflexivity. ring.
Qed.

(** Savings are real: on the same usage, an entry at most as dear as the frontier on
    every rate costs at most the baseline. *)
Theorem baseline_dominates e f u :
  sane_price (price_usd_per_1k e) → (0 <= prompt_tokens u)%Z → (0 <= completion_tokens u)%Z →
  let p := price_usd_per_1k e in let q := price_usd_per_1k f in
  (prompt p <= prompt q)%Q → (completion p <= completion q)%Q →
  (cache_read_multiplier p == cache_read_multiplier q)%Q →
  (cache_write_multiplier p == cache_write_multiplier q)%Q →
  (compute_cost_usd e u <= frontier_baseline_cost_usd f u)%Q.
Proof.
  intros [Hpp Hpc [Hr0 Hr1] Hw] Hpt Hct p q Hprompt Hcompl Hr Hwr.
  apply py_round_mono. unfold raw_cost_usd. fold p q. fold p in Hpp, Hpc, Hr0, Hr1, Hw.
  rewrite Hr, Hwr in *. destruct (slices_disjoint u Hpt) as (H1 & H2 & H3).
  assert (∀ a b c, 0 <= a → 0 <= c → b <= c → a * b <= a * c)%Q as Hmul.
  { intros a b c Ha Hc Hbc. rewrite (Qmult_comm a b), (Qmult_comm a c). by apply Qmult_le_compat_r. }
  apply Qplus_le_compat; [apply Qplus_le_compat; [apply Qplus_le_compat|]|].
  - apply Hmul; [apply per_1k_nonneg; lia|lra|done].
  - apply Qmult_le_compat_r; [|done]. apply Hmul; [by apply per_1k_nonneg|lra|done].
  - apply Qmult_le_compat_r; [|lra]. apply Hmul; [by apply per_1k_nonneg|lra|done].
  - apply Hmul; [by apply per_1k_nonneg|lra|done].
Qed.

(** ** Witnesses *)

Definition demo_price (a b : Q) : Price :=
  {| prompt := a; completion := b; cache_read_multiplier := 1 # 10; cache_write_multiplier := 5 # 4 |}.

Definition demo_priced (i : string) (a b : Q) : CatalogEntry :=
  with_price (entry_of i frontier "openai" cloud) (demo_price a b) yaml.

Definition demo_usage : Usage := usage_of 1200 300 5000 None 900.

Lemma demo_price_sane : sane_price (demo_price (3 # 1000) (15 # 1000)).
Proof. split; cbn; lra. Qed.

Lemma compute_cost_bounds_witness :
  (0 <= compute_cost_usd (demo_priced "a" (3 # 1000) (15 # 1000)) demo_usage)%Q.
Proof.
  apply (compute_cost_bounds (demo_priced "a" (3 # 1000) (15 # 1000)) demo_usage);
    [apply demo_price_sane|done|done].
Defined.

Lemma compute_cost_uncached_witness :
  (raw_cost_usd (demo_priced "a" (3 # 1000) (15 # 1000)) (usage_of 1000 0 (-5) None 0) == 3 # 1000)%Q.
Proof.
  rewrite (compute_cost_uncached (demo_priced "a" (3 # 1000) (15 # 1000)) (usage_of 1000 0 (-5) None 0))
    by done. reflexivity.
Defined.

Lemma baseline_dominates_witness :
  (compute_cost_usd (demo_priced "a" (3 # 1000) (15 # 1000)) demo_usage
   <= frontier_baseline_cost_usd (demo_priced "b" (5 # 1000) (25 # 1000)) demo_usage)%Q.
Proof.
  apply (baseline_dominates (demo_priced "a" (3 # 1000) (15 # 1000))
           (demo_priced "b" (5 # 1000) (25 # 1000)) demo_usage);
    [apply demo_price_sane|done|done|cbn; lra|cbn; lra|reflexivity|reflexivity].
Defined.
