(* ===== verification/Benchmarks.v ===== *)
(** * Benchmark-informed selection ([benchmarks.py])

    The score table fetched offline and the deterministic best pick: the cheapest entry
    whose score lies within the optimize bucket of the best score. *)

From S2P Require Import Prelude PyStr PyDict Catalog.

(** One row of [benchmarks.yaml]: the published scores, and the live price if captured. *)
Record BenchRow := {
  scores : list (string * Q);
  live_price : option (option Q * option Q);
}.

Definition no_row : BenchRow := {| scores := []; live_price := None |}.

(** [Benchmarks.models] *)
Abbreviation Benchmarks := (list (string * BenchRow)).

Definition SKILLS : list string := ["code"; "reasoning"; "general"].
Definition OPTIMIZE : list string := ["quality"; "balanced"; "cost"].
Definition NEUTRAL : Q := 1 # 2.

(** [_BUCKETS.get(optimize, _BUCKETS["balanced"])] *)
Definition bucket (optimize : string) : Q :=
  if optimize ≡? "quality" then 1 # 100
  else if optimize ≡? "cost" then 15 # 100 else 5 # 100.

Definition bench_row (b : Benchmarks) (upstream : string) : BenchRow :=
  match dget b upstream with Some r => r | None => no_row end.

Definition score (b : Benchmarks) (upstream skill : string) : Q :=
  let row := bench_row b upstream in
  match dget (scores row) skill orelse dget (scores row) "general" with
  | Some v => v
  | None => NEUTRAL
  end.

Definition or_zero (o : option Q) : Q := match o with Some q => q | None => 0%Q end.

(** [Benchmarks.price]: the blended price for ranking. *)
Definition bench_price (b : Benchmarks) (e : CatalogEntry) : Q :=
  match live_price (bench_row b (effective_upstream_model e)) with
  | Some (p, c) => (or_zero p + or_zero c)%Q
  | None => (prompt (price_usd_per_1k e) + completion (price_usd_per_1k e))%Q
  end.

Definition entry_score (b : Benchmarks) (skill : string) (e : CatalogEntry) : Q :=
  score b (effective_upstream_model e) skill.

(** [best]: [min] keeps the first of equal prices, which is the index tie-break. *)
Definition best (b : Benchmarks) (entries : list CatalogEntry) (skill optimize : string)
    : option CatalogEntry :=
  match max_by (entry_score b skill) entries with
  | None => None
  | Some top =>
      min_by (bench_price b)
        (List.filter (λ e, Qleb (entry_score b skill top - bucket optimize) (entry_score b skill e))
                     entries)
  end.

(** ** Facts *)

Lemma bucket_pos opt : (0 < bucket opt)%Q.
Proof. unfold bucket. repeat case_bool_decide; lra. Qed.

Lemma best_elem b l skill opt e : best b l skill opt = Some e → e ∈ l.
Proof.
  unfold best. destruct (max_by _ l) as [top|]; [|done].
  intros [[? _]%elem_of_bfilter _]%min_by_spec. done.
Qed.

(** There is a pick exactly when there is an entry. *)
Lemma best_none b l skill opt : best b l skill opt = None ↔ l = [].
Proof.
  unfold best. split; [|by intros ->].
  destruct (max_by _ l) as [top|] eqn:Et; [|by intros _; apply pick_first_none in Et].
  intros Hn%pick_first_none. apply max_by_spec in Et as [Hin _].
  assert (top ∈ ([] : list CatalogEntry)) as H%elem_of_nil; [|done]. rewrite <- Hn.
  apply elem_of_bfilter. split; [done|]. pose proof (bucket_pos opt). q_solve.
Qed.

(** The pick is exactly the documented one: within the bucket of the best score, no
    dearer than any other entry within it, and first in catalog order among the cheapest. *)
Theorem best_spec b l skill opt e :
  best b l skill opt = Some e →
  e ∈ l ∧ (∀ x, x ∈ l → entry_score b skill x - bucket opt <= entry_score b skill e)%Q ∧
  (∀ x, x ∈ l → (∀ y, y ∈ l → entry_score b skill y - bucket opt <= entry_score b skill x)%Q →
     (bench_price b e <= bench_price b x)%Q) ∧
  ∃ l1 l2, l = l1 ++ e :: l2 ∧
    ∀ x, x ∈ l1 → (∀ y, y ∈ l → entry_score b skill y - bucket opt <= entry_score b skill x)%Q →
      (bench_price b e < bench_price b x)%Q.
Proof.
  unfold best. destruct (max_by _ l) as [top|] eqn:Et; [|done]. apply max_by_spec in Et as [Htop Hmax].
  set (good := λ e, Qleb (entry_score b skill top - bucket opt) (entry_score b skill e)).
  intros Hb. pose proof (min_by_spec _ _ _ Hb) as [[He Hg]%elem_of_bfilter Hmin].
  assert (∀ x, good x = true ↔ ∀ y, y ∈ l → (entry_score b skill y - bucket opt <= entry_score b skill x)%Q)
    as Hgood.
  { intros x. unfold good. rewrite Qleb_true. split; [|auto].
    intros Hx y Hy. specialize (Hmax y Hy). lra. }
  split; [done|]. split; [by apply Hgood|]. split.
  - intros x Hx Hxg. apply Hmin, elem_of_bfilter. split; [done|]. by apply Hgood.
  - destruct (pick_first_spec _ _ _ Hb) as (f1 & f2 & Hsplit & _ & Hfirst).
    destruct (filter_split good l f1 e f2 Hsplit) as (l1 & l2 & -> & Hf1). exists l1, l2. split; [done|].
    intros x Hx Hxg. apply Hgood in Hxg. specialize (Hfirst x). cbn in Hfirst.
    rewrite Qltb_true in Hfirst. apply Hfirst. rewrite <- Hf1. by apply elem_of_bfilter.
Qed.

(** The knob does what it says: on the same entries a wider bucket never picks a
    dearer model, so cost <= balanced <= quality in price. *)
Theorem best_price_monotone b l skill q bal c :
  best b l skill "quality" = Some q → best b l skill "balanced" = Some bal →
  best b l skill "cost" = Some c →
  (bench_price b c <= bench_price b bal <= bench_price b q)%Q.
Proof.
  assert (∀ o1 o2 e1 e2, best b l skill o1 = Some e1 → best b l skill o2 = Some e2 →
    (bucket o1 <= bucket o2)%Q → (bench_price b e2 <= bench_price b e1)%Q) as Hmono.
  { intros o1 o2 e1 e2 H1 H2 Hle. unfold best in *.
    destruct (max_by _ l) as [top|]; [|done].
    apply min_by_spec in H1 as [[He1 Hg1]%elem_of_bfilter _]. apply min_by_spec in H2 as [_ H2].
    apply H2, elem_of_bfilter. split; [done|]. q_solve. }
  intros Hq Hbal Hc. split; (eapply Hmono; [eassumption|eassumption|]); vm_compute; discriminate.
Qed.

(** ** Witnesses *)

Definition demo_bench : Benchmarks :=
  [("gpt", {| scores := [("code", 90 # 100)]; live_price := Some (Some (10 # 1), None) |});
   ("local", {| scores := [("general", 86 # 100)]; live_price := None |})].

Lemma best_spec_witness :
  demo_local ∈ demo_catalog ∧
  (∀ x, x ∈ demo_catalog →
     entry_score demo_bench "code" x - bucket "balanced" <= entry_score demo_bench "code" demo_local)%Q.
Proof.
  destruct (best_spec demo_bench demo_catalog "code" "balanced" demo_local) as (? & ? & _);
    [reflexivity|done].
Defined.

Lemma best_price_monotone_witness :
  (bench_price demo_bench demo_local <= bench_price demo_bench demo_local
   <= bench_price demo_bench demo_cloud)%Q.
Proof. apply (best_price_monotone demo_bench demo_catalog "code"); reflexivity. Defined.
