(* ===== verification/Registry.v ===== *)
(** * The benchmark taxonomy ([benchmarking/registry.py])

    The curated benchmarks with their category, unit and direction, and the two lookups. *)

From S2P Require Import Prelude PyStr PyDict.

Definition CATEGORIES : list string :=
  ["coding"; "reasoning"; "math"; "agentic"; "writing"; "long_context"; "multilingual"; "preference"; "speed"; "cost"; "knowledge"; "instruction_following"; "conversation"].

(** [Benchmark] *)
Record Benchmark := {
  b_id : string;
  b_name : string;
  b_category : string;
  b_unit : string;
  b_higher_is_better : bool;
  b_url : string;
}.

(** [_ROWS]: (id, name, category, unit, url); higher is better. *)
Definition ROWS : list (string * string * string * string * string) :=
  [("swe_bench_verified", "SWE-bench Verified", "coding", "pct", "https://www.swebench.com");
   ("aider_polyglot", "Aider Polyglot", "coding", "pct", "https://aider.chat/docs/leaderboards/");
   ("livecodebench", "LiveCodeBench", "coding", "pct", "https://livecodebench.github.io");
   ("terminal_bench", "Terminal-Bench", "coding", "pct", "https://www.tbench.ai");
   ("scicode", "SciCode", "coding", "pct", "https://scicode-bench.github.io");
   ("humaneval", "HumanEval (legacy)", "coding", "pct", "https://github.com/openai/human-eval");
   ("lmarena_coding_text", "LMArena Coding Elo (text)", "coding", "elo", "https://lmarena.ai");
   ("gpqa_diamond", "GPQA Diamond", "reasoning", "pct", "https://github.com/idavidrein/gpqa");
   ("hle", "Humanity's Last Exam", "reasoning", "pct", "https://lastexam.ai");
   ("mmlu_pro", "MMLU-Pro", "reasoning", "pct", "https://huggingface.co/datasets/TIGER-Lab/MMLU-Pro");
   ("bbh", "BIG-Bench Hard", "reasoning", "pct", "https://github.com/suzgunmirac/BIG-Bench-Hard");
   ("arc_agi", "ARC-AGI", "reasoning", "pct", "https://arcprize.org");
   ("aa_omniscience", "AA Omniscience", "reasoning", "index", "https://artificialanalysis.ai");
   ("livebench", "LiveBench", "reasoning", "pct", "https://livebench.ai");
   ("simplebench", "SimpleBench", "reasoning", "fraction", "https://simple-bench.com");
   ("epoch_capabilities_index", "Epoch Capabilities Index", "reasoning", "index", "https://epoch.ai/data/ai-benchmarking-dashboard");
   ("lmarena_expert", "LMArena Expert Elo", "reasoning", "elo", "https://lmarena.ai");
   ("math_hard", "MATH Level 5", "math", "pct", "https://github.com/hendrycks/math");
   ("aime", "AIME", "math", "pct", "https://artofproblemsolving.com/wiki/index.php/AIME");
   ("frontiermath", "FrontierMath", "math", "pct", "https://epoch.ai/frontiermath");
   ("lmarena_math", "LMArena Math Elo", "math", "elo", "https://lmarena.ai");
   ("bfcl", "Berkeley Function-Calling Leaderboard", "agentic", "pct", "https://gorilla.cs.berkeley.edu/leaderboard.html");
   ("tau_bench", "τ-bench", "agentic", "pct", "https://github.com/sierra-research/tau-bench");
   ("gdpval", "GDPval", "agentic", "pct", "https://openai.com/index/gdpval/");
   ("osworld_2", "OSWorld-Verified", "agentic", "fraction", "https://epoch.ai/data/ai-benchmarking-dashboard");
   ("the_agent_company", "TheAgentCompany", "agentic", "fraction", "https://epoch.ai/data/ai-benchmarking-dashboard");
   ("lmarena_agent", "LMArena Agent", "agentic", "arena", "https://lmarena.ai");
   ("eq_bench_creative", "EQ-Bench Creative Writing", "writing", "index", "https://eqbench.com");
   ("lmarena_creative_writing", "LMArena Creative Writing", "writing", "elo", "https://lmarena.ai");
   ("lech_mazur_writing", "Lech Mazur Creative Writing", "writing", "index", "https://epoch.ai/data/ai-benchmarking-dashboard");
   ("ruler", "RULER", "long_context", "pct", "https://github.com/NVIDIA/RULER");
   ("aa_lcr", "AA Long-Context Reasoning", "long_context", "pct", "https://artificialanalysis.ai");
   ("musr", "MuSR", "long_context", "pct", "https://github.com/Zayne-sprague/MuSR");
   ("fictionlivebench", "Fiction.liveBench (120k)", "long_context", "fraction", "https://epoch.ai/data/ai-benchmarking-dashboard");
   ("mmlu", "MMLU", "knowledge", "fraction", "https://epoch.ai/data/ai-benchmarking-dashboard");
   ("simpleqa_verified", "SimpleQA Verified", "knowledge", "fraction", "https://epoch.ai/data/ai-benchmarking-dashboard");
   ("trivia_qa", "TriviaQA", "knowledge", "fraction", "https://epoch.ai/data/ai-benchmarking-dashboard");
   ("openbookqa", "OpenBookQA", "knowledge", "fraction", "https://epoch.ai/data/ai-benchmarking-dashboard");
   ("boolq", "BoolQ (reading comprehension)", "knowledge", "fraction", "https://epoch.ai/data/ai-benchmarking-dashboard");
   ("mmmlu", "Multilingual MMLU", "multilingual", "pct", "https://huggingface.co/datasets/openai/MMMLU");
   ("swe_bench_multilingual", "SWE-bench Multilingual", "multilingual", "pct", "https://www.swebench.com");
   ("lmarena_multilingual", "LMArena Multilingual Elo", "multilingual", "elo", "https://lmarena.ai");
   ("lmarena_if", "LMArena Instruction Following Elo", "instruction_following", "elo", "https://lmarena.ai");
   ("lmarena_multiturn", "LMArena Multi-Turn Elo", "conversation", "elo", "https://lmarena.ai");
   ("lmarena_elo", "LMArena Overall Elo", "preference", "elo", "https://lmarena.ai");
   ("lmarena_coding", "LMArena WebDev Elo", "preference", "elo", "https://lmarena.ai");
   ("lmarena_hard_prompts", "LMArena Hard Prompts Elo", "preference", "elo", "https://lmarena.ai");
   ("lmarena_style_control", "LMArena Style Control Elo", "preference", "elo", "https://lmarena.ai");
   ("aa_intelligence_index", "AA Intelligence Index", "reasoning", "index", "https://artificialanalysis.ai");
   ("aa_coding_index", "AA Coding Index", "coding", "index", "https://artificialanalysis.ai");
   ("aa_agentic_index", "AA Agentic Index", "agentic", "index", "https://artificialanalysis.ai");
   ("legacy_code", "Legacy seed — code", "coding", "fraction", "");
   ("legacy_reasoning", "Legacy seed — reasoning", "reasoning", "fraction", "");
   ("legacy_general", "Legacy seed — general", "reasoning", "fraction", "")].

(** [_LOWER_IS_BETTER] *)
Definition LOWER_IS_BETTER : list (string * string * string * string * bool * string) :=
  [("tokens_per_second", "Output tokens/s", "speed", "tok_s", true, "https://artificialanalysis.ai");
   ("ttft_ms", "Time to first token", "speed", "ms", false, "https://artificialanalysis.ai");
   ("usd_per_mtok_blended", "Blended $/M tokens", "cost", "usd_per_mtok", false, "https://artificialanalysis.ai")].

Definition of_row (r : string * string * string * string * string) : Benchmark :=
  let '(i, n, c, u, w) := r in
  {| b_id := i; b_name := n; b_category := c; b_unit := u; b_higher_is_better := true; b_url := w |}.

Definition of_lower (r : string * string * string * string * bool * string) : Benchmark :=
  let '(i, n, c, u, h, w) := r in
  {| b_id := i; b_name := n; b_category := c; b_unit := u; b_higher_is_better := h; b_url := w |}.

(** [BENCHMARKS], filled by the two loops at import. *)
Definition BENCHMARKS : list (string * Benchmark) :=
  fold_left (λ d b, dset d (b_id b) b) ((of_row <$> ROWS) ++ (of_lower <$> LOWER_IS_BETTER)) [].

(** [registry.get] and [registry.by_category] *)
Definition registry_get (bid : string) : option Benchmark := dget BENCHMARKS bid.

Definition by_category (c : string) : list Benchmark :=
  List.filter (λ b, b_category b ≡? c) BENCHMARKS.*2.

(** Every catalogued benchmark has a category of the vocabulary, no id is listed twice and
    the units are those the normalization knows. *)
Definition UNITS : list string :=
  ["fraction"; "pct"; "elo"; "arena"; "index"; "tok_s"; "ms"; "usd_per_mtok"].

Lemma registry_well_formed :
  NoDup (dkeys BENCHMARKS) ∧ length BENCHMARKS = length ROWS + length LOWER_IS_BETTER ∧
  ∀ i b, (i, b) ∈ BENCHMARKS → b_id b = i ∧ b_category b ∈ CATEGORIES ∧ b_unit b ∈ UNITS.
Proof.
  split_and!; [vm_decide|reflexivity|].
  assert (Forall (λ ib : string * Benchmark,
    b_id ib.2 = ib.1 ∧ b_category ib.2 ∈ CATEGORIES ∧ b_unit ib.2 ∈ UNITS) BENCHMARKS) as H
    by vm_decide.
  intros i b Hin. rewrite Forall_forall in H. exact (H (i, b) Hin).
Qed.
