(* ===== verification/BenchStore.v ===== *)
(** * The benchmark fact store ([benchmarking/store.py])

    Two tables as dicts from primary key to row, every statement as a function on them:
    latest-only upserts, filtered and ordered reads, the keyset pages of the display and
    the SQL [LIKE] they search with. *)

From stdpp Require Import sorting.
From S2P Require Import Prelude PyStr PyDict PyGroup.

(** ** Rows and tables *)

(** A row of [benchmark_scores]. *)
Record ScoreRow := {
  sr_canonical : string;
  sr_bench : string;
  sr_source : string;
  sr_version : string;
  sr_value : Q;
  sr_raw : string;
  sr_unit : string;
  sr_url : string;
  sr_license : string;
  sr_redistributable : Z;
  sr_retrieved_at : Q;
}.

Definition score_pk (r : ScoreRow) : string * string * string * string :=
  (sr_canonical r, sr_bench r, sr_source r, sr_version r).

(** A row of [model_aliases]. *)
Record AliasRow := {
  al_source : string;
  al_model : string;
  al_canonical : string;
  al_hf : string;
  al_confidence : Q;
}.

Definition alias_pk (r : AliasRow) : string * string := (al_source r, al_model r).

Record BStore := {
  bs_scores : list (string * string * string * string * ScoreRow);
  bs_aliases : list (string * string * AliasRow);
}.

Definition new_store : BStore := {| bs_scores := []; bs_aliases := [] |}.

(** What an ingest source hands to [upsert_scores]; [None] is an absent key, and a value
    [float] rejects is [Err]. *)
Record ScoreIn := {
  in_canonical : string;
  in_bench : string;
  in_source : string;
  in_version : option string;
  in_value : res string Q;
  in_raw : option string;
  in_unit : option string;
  in_url : option string;
  in_license : option string;
  in_redistributable : option Z;
  in_retrieved_at : option Q;
}.

Definition or_dflt {A} (d : A) (o : option A) : A := match o with Some a => a | None => d end.

Definition score_row (now : Q) (r : ScoreIn) : res string ScoreRow :=
  try! v := in_value r in
  Ok {| sr_canonical := in_canonical r; sr_bench := in_bench r; sr_source := in_source r;
        sr_version := or_dflt "" (in_version r); sr_value := v; sr_raw := or_dflt "" (in_raw r);
        sr_unit := or_dflt "" (in_unit r); sr_url := or_dflt "" (in_url r);
        sr_license := or_dflt "" (in_license r);
        sr_redistributable := or_dflt 1%Z (in_redistributable r);
        sr_retrieved_at := or_dflt now (in_retrieved_at r) |}.

(** ** Scores *)

Definition put_score (t : list (string * string * string * string * ScoreRow)) (r : ScoreRow) :=
  dset t (score_pk r) r.

(** [upsert_scores]: every row is converted before the first is written. *)
Definition upsert_scores (now : Q) (rows : list ScoreIn) (st : BStore) : res string (BStore * nat) :=
  try! params := map_res (score_row now) rows in
  Ok ({| bs_scores := fold_left put_score params (bs_scores st); bs_aliases := bs_aliases st |},
      length rows).

(** [ORDER BY canonical_id, benchmark_id, source, benchmark_version] *)
Definition str_ltb (s t : string) : bool := negb (str_leb t s).

Definition pk_leb (a b : ScoreRow) : bool :=
  let '(c, d, e, f) := score_pk a in
  let '(c', d', e', f') := score_pk b in
  str_ltb c c' || ((c ≡? c') && (str_ltb d d' || ((d ≡? d') && (str_ltb e e' || ((e ≡? e') && str_leb f f'))))).

Definition opt_is (o : option string) (s : string) : bool :=
  match o with Some v => v ≡? s | None => true end.

Definition scores (canonical bench source : option string) (redistributable_only : bool) (st : BStore)
    : list ScoreRow :=
  sort_by pk_leb
    (List.filter (λ r, opt_is canonical (sr_canonical r) && opt_is bench (sr_bench r) &&
                       opt_is source (sr_source r) &&
                       (negb redistributable_only || (sr_redistributable r =? 1)%Z))
                 (bs_scores st).*2).

Definition models (st : BStore) : list string :=
  sorted_strs (remove_dups (sr_canonical <$> (bs_scores st).*2)).

(** [delete_source]: the number of rows removed. *)
Definition delete_source (source : string) (st : BStore) : BStore * nat :=
  ({| bs_scores := List.filter (λ kr, negb (sr_source kr.2 ≡? source)) (bs_scores st);
      bs_aliases := bs_aliases st |},
   length (List.filter (λ kr, sr_source kr.2 ≡? source) (bs_scores st))).

(** ** SQL [LIKE ... ESCAPE '\'] *)

Fixpoint like (pat : string) : string → bool :=
  match pat with
  | EmptyString => λ s, match s with EmptyString => true | _ => false end
  | String p pat' =>
      if p ≡? backslash then
        match pat' with
        | EmptyString => λ _, false
        | String d pat'' => λ s, match s with String x s' => (x ≡? d) && like pat'' s' | _ => false end
        end
      else if p ≡? "%"%char then
        fix any (s : string) : bool :=
          like pat' s || match s with String _ s' => any s' | EmptyString => false end
      else if p ≡? "_"%char then
        λ s, match s with String _ s' => like pat' s' | _ => false end
      else λ s, match s with String x s' => (x ≡? p) && like pat' s' | _ => false end
  end.

(** [s.replace(a, r)] for a one-character [a]. *)
Definition replace_chr (a : ascii) (r s : string) : string :=
  concat_map_str (λ c, if c ≡? a then r else String c "") s.

(** The escaping both search terms go through. *)
Definition escape_like (s : string) : string :=
  replace_chr "_" (String backslash "_")
    (replace_chr "%" (String backslash "%")
      (replace_chr backslash (String backslash (String backslash "")) s)).

(** ** The display pages *)

Record PageQuery := {
  pq_limit : nat;
  pq_bench_ids : list string;
  pq_provider : string;
  pq_search : string;
  pq_catalog_ids : list string;
}.

(** The [WHERE] clause, the cursor apart. *)
Definition page_where (q : PageQuery) (r : ScoreRow) : bool :=
  (sr_redistributable r =? 1)%Z &&
  match pq_bench_ids q with [] => true | bs => sr_bench r ∈? bs end &&
  ((pq_provider q ≡? "") || like (lower (escape_like (pq_provider q)) +:+ "/%") (lower (sr_canonical r))) &&
  ((pq_search q ≡? "") ||
   (like ("%" +:+ lower (escape_like (pq_search q)) +:+ "%") (lower (sr_canonical r)) ||
    match pq_catalog_ids q with
    | [] => false
    | ids => lower (sr_canonical r) ∈? (lower <$> ids)
    end)).

Definition after_cursor (after : option string) (c : string) : bool :=
  match after with Some a => str_ltb a c | None => true end.

(** [SELECT DISTINCT canonical_id ... ORDER BY canonical_id], before [LIMIT]. *)
Definition page_ids (q : PageQuery) (after : option string) (st : BStore) : list string :=
  sorted_strs (remove_dups
    (sr_canonical <$> List.filter (λ r, page_where q r && after_cursor after (sr_canonical r))
                                  (bs_scores st).*2)).

(** [dict.fromkeys(...)] *)
Definition from_keys (l : list string) : list string := dkeys (accumulate (λ s, s) tt (λ _ _, tt) l).

(** [display_scores_for_models] *)
Definition display_scores_for_models (ids : list string) (max_rows : nat) (exact : bool) (st : BStore)
    : res string (list ScoreRow) :=
  let names := from_keys ((λ s, if exact then s else lower s) <$> List.filter (λ s, negb (s ≡? "")) ids) in
  match names with
  | [] => Ok []
  | _ =>
      if 500 <? length names then Err "benchmark display model selection exceeded its bound"
      else if negb ((1 <=? max_rows) && (max_rows <=? 20000)) then Err "benchmark display fact bound is invalid"
      else
        let rows := take (max_rows + 1) (sort_by pk_leb
          (List.filter (λ r, (sr_redistributable r =? 1)%Z &&
                             ((if exact then sr_canonical r else lower (sr_canonical r)) ∈? names))
                       (bs_scores st).*2)) in
        if max_rows <? length rows then Err "benchmark display fact page exceeded its row bound"
        else Ok rows
  end.

(** [display_scores_page]: the facts of one page and the cursor of the next. *)
Definition page_selected (q : PageQuery) (after : option string) (st : BStore) : list string * option string :=
  let canonical_ids := take (pq_limit q + 1) (page_ids q after st) in
  let selected := take (pq_limit q) canonical_ids in
  (selected, if pq_limit q <? length canonical_ids then last selected else None).

Definition display_scores_page (q : PageQuery) (after : option string) (st : BStore)
    : res string (list ScoreRow * option string) :=
  if negb ((1 <=? pq_limit q) && (pq_limit q <=? 100)) then
    Err "display score page limit must be between 1 and 100"
  else
    let '(selected, next_after) := page_selected q after st in
    try! facts := display_scores_for_models selected 5000 true st in
    Ok (facts, next_after).

(** ** Aliases *)

Record AliasIn := {
  ai_source : string;
  ai_model : string;
  ai_canonical : string;
  ai_hf : option string;
  ai_confidence : option Q;
}.

Definition alias_row (r : AliasIn) : AliasRow :=
  {| al_source := ai_source r; al_model := ai_model r; al_canonical := ai_canonical r;
     al_hf := or_dflt "" (ai_hf r); al_confidence := or_dflt 1%Q (ai_confidence r) |}.

Definition put_alias (t : list (string * string * AliasRow)) (r : AliasRow) := dset t (alias_pk r) r.

Definition upsert_aliases (rows : list AliasIn) (st : BStore) : BStore * nat :=
  ({| bs_scores := bs_scores st; bs_aliases := fold_left put_alias (alias_row <$> rows) (bs_aliases st) |},
   length rows).

Definition resolve (source model : string) (st : BStore) : option string :=
  match dget (bs_aliases st) (source, model) with Some r => Some (al_canonical r) | None => None end.

Definition alias_leb (a b : AliasRow) : bool :=
  str_ltb (al_source a) (al_source b) || ((al_source a ≡? al_source b) && str_leb (al_model a) (al_model b)).

(** [aliases(source, max_confidence)]: the bound is strict. *)
Definition aliases (source : option string) (max_confidence : option Q) (st : BStore) : list AliasRow :=
  sort_by alias_leb
    (List.filter (λ r, opt_is source (al_source r) &&
                       match max_confidence with Some c => Qltb (al_confidence r) c | None => true end)
                 (bs_aliases st).*2).

(** ** [coverage] *)

Record SourceCoverage := { cv_facts : nat; cv_latest : Q }.

Definition Qmax_list (l : list Q) : Q := match l with [] => 0%Q | x :: l => foldl Qmaxb x l end.

Definition coverage (st : BStore) : nat * nat * list (string * SourceCoverage) :=
  (length (models st), length (bs_scores st),
   (λ s, let rs := having sr_source s (bs_scores st).*2 in
         (s, {| cv_facts := length rs; cv_latest := Qmax_list (sr_retrieved_at <$> rs) |}))
   <$> sorted_strs (remove_dups (sr_source <$> (bs_scores st).*2))).

(** ** Well-formed tables *)

Record wf (st : BStore) : Prop := {
  wf_scores : NoDup (dkeys (bs_scores st));
  wf_score_pk k r : (k, r) ∈ bs_scores st → k = score_pk r;
  wf_aliases : NoDup (dkeys (bs_aliases st));
  wf_alias_pk k r : (k, r) ∈ bs_aliases st → k = alias_pk r;
}.

(** A fold of upserts on one table: keys stay unique and each row under its own key, and a
    key reads its last new row, or what it had. *)
Section upserts.
Context {K V : Type} `{!EqDecision K} (pk : V → K).

Definition keyed (t : list (K * V)) : Prop := NoDup (dkeys t) ∧ ∀ k r, (k, r) ∈ t → k = pk r.

Lemma keyed_upserts rows t : keyed t → keyed (fold_left (λ t r, dset t (pk r) r) rows t).
Proof.
  revert t. induction rows as [|x rows IH]; intros t [Hnd Hpk]; [done|]. cbn [fold_left].
  apply IH. split; [by apply NoDup_dset|]. intros k r [ [-> ->]|?]%elem_of_dset; auto.
Qed.

Lemma dget_upserts rows t k :
  dget (fold_left (λ t r, dset t (pk r) r) rows t) k =
  last (List.filter (λ r, pk r ≡? k) rows) orelse dget t k.
Proof.
  induction rows as [|x rows IH] using rev_ind; [done|].
  rewrite fold_left_app, List.filter_app. cbn [fold_left List.filter]. case_bool_decide as E.
  - subst k. by rewrite dget_dset_eq, last_snoc.
  - rewrite dget_dset_ne by done. by rewrite app_nil_r.
Qed.
End upserts.

Lemma dget_put_scores rows t k :
  dget (fold_left put_score rows t) k = last (List.filter (λ r, score_pk r ≡? k) rows) orelse dget t k.
Proof. exact (dget_upserts score_pk rows t k). Qed.

Lemma wf_keyed st : wf st ↔ keyed score_pk (bs_scores st) ∧ keyed alias_pk (bs_aliases st).
Proof. split; [intros []; done|intros [ [] [] ]; by split]. Qed.

Lemma new_store_wf : wf new_store.
Proof. apply wf_keyed. by repeat split; try constructor; intros ? ? ?%elem_of_nil. Qed.

Lemma upsert_scores_ok now rows st st' n :
  upsert_scores now rows st = Ok (st', n) →
  ∃ ps, Forall2 (λ i r, score_row now i = Ok r) rows ps ∧
    st' = {| bs_scores := fold_left put_score ps (bs_scores st); bs_aliases := bs_aliases st |} ∧
    n = length rows.
Proof. intros (ps & H%map_res_forall & [= <- <-])%res_bind_ok. eauto. Qed.

Lemma upsert_scores_wf now rows st st' n : wf st → upsert_scores now rows st = Ok (st', n) → wf st'.
Proof.
  rewrite !wf_keyed. intros [? ?] (ps & _ & -> & _)%upsert_scores_ok. cbn. split; [|done].
  by apply keyed_upserts.
Qed.

Lemma upsert_aliases_wf rows st : wf st → wf (upsert_aliases rows st).1.
Proof. rewrite !wf_keyed. intros [? ?]. split; [done|]. by apply keyed_upserts. Qed.

Lemma delete_source_wf source st : wf st → wf (delete_source source st).1.
Proof.
  rewrite !wf_keyed. intros [ [Hnd Hpk] ?]. split; [|done]. split; cbn.
  - by apply dkeys_bfilter.
  - intros k r [? _]%elem_of_bfilter. auto.
Qed.

(** What a source's rows are, before and after it is wiped. *)
Lemma elem_of_delete_source source st k r :
  (k, r) ∈ bs_scores (delete_source source st).1 ↔ (k, r) ∈ bs_scores st ∧ sr_source r ≠ source.
Proof. cbn. rewrite elem_of_bfilter. cbn. by rewrite negb_true_iff, bool_decide_eq_false. Qed.

(** ** [LIKE] *)

Lemma replace_chr_cons a r c s :
  replace_chr a r (String c s) = (if c ≡? a then r else String c "") +:+ replace_chr a r s.
Proof. done. Qed.

Lemma replace_chr_app a r s t : replace_chr a r (s +:+ t) = replace_chr a r s +:+ replace_chr a r t.
Proof.
  induction s as [|c s IH]; [done|]. rewrite str_app_cons, !replace_chr_cons, IH. by rewrite str_app_assoc.
Qed.

Definition escape_char (c : ascii) : string :=
  if (c ≡? backslash) || (c ≡? "%"%char) || (c ≡? "_"%char) then String backslash (String c "")
  else String c "".

Lemma escape_like_cons c s : escape_like (String c s) = escape_char c +:+ escape_like s.
Proof.
  unfold escape_like. rewrite replace_chr_cons, !replace_chr_app. f_equal. unfold escape_char.
  destruct (decide (c = backslash)) as [->|H1]; [reflexivity|].
  rewrite (bool_decide_false (c = backslash)) by done. cbn [orb].
  destruct (decide (c = "%"%char)) as [->|H2]; [reflexivity|].
  rewrite replace_chr_cons. rewrite (bool_decide_false (c = "%"%char)) by done. cbn [orb].
  rewrite str_app_nil_r. rewrite replace_chr_cons.
  destruct (decide (c = "_"%char)) as [->|H3]; [reflexivity|].
  by rewrite (bool_decide_false (c = "_"%char)).
Qed.

Lemma lower_char_special c : lower_char c = backslash ∨ lower_char c = "%"%char ∨ lower_char c = "_"%char →
  lower_char c = c.
Proof. destruct c as [ [] [] [] [] [] [] [] []]; cbn; intuition discriminate. Qed.

Lemma lower_escape q : lower (escape_like q) = escape_like (lower q).
Proof.
  induction q as [|c q IH]; [done|]. rewrite escape_like_cons, lower_app, IH.
  change (lower (String c q)) with (String (lower_char c) (lower q)). rewrite escape_like_cons. f_equal.
  destruct c as [ [] [] [] [] [] [] [] []]; reflexivity.
Qed.

(** An escaped character matches itself and nothing else. *)
Lemma like_escape_char c pat s :
  like (escape_char c +:+ pat) s = match s with String x s' => (x ≡? c) && like pat s' | _ => false end.
Proof.
  unfold escape_char.
  destruct (decide (c = backslash)) as [->|H1]; [reflexivity|].
  rewrite (bool_decide_false (c = backslash)) by done. cbn [orb].
  destruct (decide (c = "%"%char)) as [->|H2]; [reflexivity|].
  rewrite (bool_decide_false (c = "%"%char)) by done. cbn [orb].
  destruct (decide (c = "_"%char)) as [->|H3]; [reflexivity|].
  rewrite (bool_decide_false (c = "_"%char)) by done. rewrite str_app_cons, str_app_nil_l. cbn [like].
  by rewrite !bool_decide_false.
Qed.

Lemma like_escaped q pat s : like (escape_like q +:+ pat) s = true ↔ ∃ t, s = q +:+ t ∧ like pat t = true.
Proof.
  revert s. induction q as [|c q IH]; intros s.
  - change (escape_like "") with "". setoid_rewrite str_app_nil_l. naive_solver.
  - rewrite escape_like_cons, <- str_app_assoc, like_escape_char. destruct s as [|x s].
    + split; [done|]. by intros (t & ? & _).
    + rewrite andb_true_iff, bool_decide_eq_true, IH. split.
      * intros (-> & t & -> & ?). exists t. by rewrite str_app_cons.
      * intros (t & Heq & ?). rewrite str_app_cons in Heq. injection Heq as -> ->. eauto.
Qed.

Lemma like_percent pat s : like (String "%" pat) s = true ↔ ∃ a b, s = a +:+ b ∧ like pat b = true.
Proof.
  cbn [like]. rewrite bool_decide_false by done. rewrite bool_decide_true by done.
  induction s as [|x s IH].
  - rewrite orb_false_r. split; [intros; by exists "", ""|]. intros ([|] & b & Heq & ?); [|done].
    rewrite str_app_nil_l in Heq. by rewrite Heq.
  - rewrite orb_true_iff, IH. split.
    + intros [?|(a & b & -> & ?)]; [by exists "", (String x s)|]. exists (String x a), b. by rewrite str_app_cons.
    + intros ([|y a] & b & Heq & ?); [left; by rewrite str_app_nil_l in Heq; subst b|right].
      rewrite str_app_cons in Heq. injection Heq as -> ->. eauto.
Qed.

(** The search box is a substring test and the provider box a prefix test, both up to case:
    no character a client types acts as a wildcard. *)
Lemma like_search q s : like ("%" +:+ lower (escape_like q) +:+ "%") s = contains (lower q) s.
Proof.
  apply eq_true_iff_eq. rewrite lower_escape. change ("%" +:+ ?x) with (String "%" x).
  rewrite like_percent, contains_spec. split.
  - intros (a & b & -> & (t & -> & _)%like_escaped). eauto.
  - intros (a & b & ->). exists a, (lower q +:+ b). split; [done|]. apply like_escaped. exists b.
    split; [done|]. apply like_percent. exists b, "". by rewrite str_app_nil_r.
Qed.

Lemma like_provider p s : like (lower (escape_like p) +:+ "/%") s = startswith (lower p +:+ "/") s.
Proof.
  apply eq_true_iff_eq. rewrite lower_escape, startswith_spec, like_escaped. split.
  - intros (t & -> & Hl). destruct t as [|x t]; [done|]. change ("/%") with (String "/" (String "%" "")) in Hl.
    cbn [like] in Hl. rewrite !(bool_decide_false (("/"%char : ascii) = _)) in Hl by done.
    apply andb_true_iff in Hl as [Hx%bool_decide_eq_true _]. subst x. exists t. by rewrite <- str_app_assoc.
  - intros (t & ->). exists ("/" +:+ t). split; [by rewrite str_app_assoc|].
    change ("/" +:+ t) with (String "/" t).
    change (like "/%" (String "/" t)) with (("/"%char ≡? "/"%char) && like "%" t).
    rewrite bool_decide_true by done. apply like_percent. exists t, "". by rewrite str_app_nil_r.
Qed.

(** ** Keyset pages *)

Lemma str_ltb_spec s t : str_ltb s t = true ↔ str_leb s t = true ∧ s ≠ t.
Proof.
  unfold str_ltb. rewrite negb_true_iff. split.
  - intros H. destruct (str_leb_total s t) as [H'|H']; [|congruence]. split; [done|]. intros ->. congruence.
  - intros [H Hne]. destruct (str_leb t s) eqn:E; [|done]. destruct Hne. by apply str_leb_antisym.
Qed.

Lemma sorted_strs_sorted l : StronglySorted (λ x y, str_leb x y = true) (sorted_strs l).
Proof. apply sort_by_sorted; [apply str_leb_total|apply str_leb_trans]. Qed.

(** A list in order and without repetitions is determined by its elements. *)
Lemma sorted_unique l l' :
  StronglySorted (λ x y, str_leb x y = true) l → StronglySorted (λ x y, str_leb x y = true) l' →
  NoDup l → NoDup l' → (∀ x, x ∈ l ↔ x ∈ l') → l = l'.
Proof.
  intros Hl Hl' Hn Hn' Hin. apply (StronglySorted_unique_strong (λ x y, str_leb x y = true)).
  - intros. by apply str_leb_antisym.
  - done.
  - done.
  - by apply NoDup_Permutation.
Qed.

Lemma NoDup_sorted_dups l : NoDup (sorted_strs (remove_dups l)).
Proof. unfold sorted_strs. rewrite sort_by_perm. apply NoDup_remove_dups. Qed.

Lemma elem_of_page_ids q after st c :
  c ∈ page_ids q after st ↔
  after_cursor after c = true ∧ ∃ r, r ∈ (bs_scores st).*2 ∧ page_where q r = true ∧ sr_canonical r = c.
Proof.
  unfold page_ids. rewrite elem_of_sorted_strs, elem_of_remove_dups, list_elem_of_fmap. split.
  - intros (r & -> & [Hr H]%elem_of_bfilter). bool_to_prop. eauto.
  - intros (Ha & r & Hr & Hw & <-). exists r. split; [done|]. apply elem_of_bfilter. by rewrite Hw, Ha.
Qed.

Lemma StronglySorted_app_inv {A} (R : A → A → Prop) l1 l2 :
  StronglySorted R (l1 ++ l2) →
  StronglySorted R l1 ∧ StronglySorted R l2 ∧ ∀ x y, x ∈ l1 → y ∈ l2 → R x y.
Proof.
  induction l1 as [|a l1 IH]; cbn.
  - intros H. split_and!; [constructor|done|]. by intros x y ?%elem_of_nil.
  - intros [Hs Hf]%StronglySorted_inv. destruct (IH Hs) as (H1 & H2 & H3).
    rewrite Forall_app in Hf. destruct Hf as [Hf1 Hf2]. split_and!; [by constructor|done|].
    intros x y [->|Hx]%elem_of_cons Hy; [|auto]. rewrite Forall_forall in Hf2. auto.
Qed.

(** The ids after the last one of a prefix are the rest. *)
Lemma page_ids_after q after st l1 a l2 :
  page_ids q after st = l1 ++ a :: l2 → page_ids q (Some a) st = l2.
Proof.
  intros Heq. pose proof (sorted_strs_sorted (remove_dups (sr_canonical <$> List.filter
    (λ r, page_where q r && after_cursor after (sr_canonical r)) (bs_scores st).*2))) as Hs.
  pose proof (NoDup_sorted_dups (sr_canonical <$> List.filter
    (λ r, page_where q r && after_cursor after (sr_canonical r)) (bs_scores st).*2)) as Hn.
  change (sorted_strs _) with (page_ids q after st) in Hs, Hn. rewrite Heq in Hs, Hn.
  assert (l1 ++ a :: l2 = (l1 ++ [a]) ++ l2) as Hsplit by by rewrite <- app_assoc.
  rewrite Hsplit in Hs, Hn. apply StronglySorted_app_inv in Hs as (_ & Hs2 & Hle).
  apply NoDup_app in Hn as (Hn1 & Hdisj & Hn2).
  apply sorted_unique; [apply sorted_strs_sorted|done|apply NoDup_sorted_dups|done|].
  intros x. rewrite elem_of_page_ids. cbn [after_cursor]. rewrite str_ltb_spec. split.
  - intros [ [Hax Hne] Hr]. destruct (decide (x ∈ page_ids q after st)) as [Hx|Hx].
    + rewrite Heq, elem_of_app, elem_of_cons in Hx. destruct Hx as [Hx|[->|Hx]]; [|done|done].
      exfalso. apply Hne. rewrite Hsplit in Heq.
      pose proof (sorted_strs_sorted (remove_dups (sr_canonical <$> List.filter
        (λ r, page_where q r && after_cursor after (sr_canonical r)) (bs_scores st).*2))) as Hs.
      change (sorted_strs _) with (page_ids q after st) in Hs. rewrite Heq, <- app_assoc in Hs.
      apply StronglySorted_app_inv in Hs as (_ & _ & Hs). apply str_leb_antisym; [done|].
      apply Hs; [done|]. left.
    + exfalso. apply Hx, elem_of_page_ids. split; [|done].
      destruct after as [a0|]; [|done]. cbn.
      assert (a ∈ page_ids q (Some a0) st) as [Ha _]%elem_of_page_ids
        by (rewrite Heq, elem_of_app, elem_of_cons; auto).
      cbn in Ha. apply str_ltb_spec in Ha as [Ha0 Hne0]. apply str_ltb_spec. split.
      * by eapply str_leb_trans.
      * intros <-. apply Hne0. by apply str_leb_antisym.
  - intros Hx. assert (a ∈ l1 ++ [a]) as Ha by (rewrite elem_of_app, list_elem_of_singleton; auto).
    split; [split; [by apply Hle|]|].
    + intros <-. exact (Hdisj a Ha Hx).
    + assert (x ∈ page_ids q after st) as [_ ?]%elem_of_page_ids; [|done].
      rewrite Heq, elem_of_app, elem_of_cons. auto.
Qed.

(** The pages a client reads when it follows the cursors. *)
Fixpoint walk (n : nat) (q : PageQuery) (after : option string) (st : BStore) : list (list string) :=
  let '(selected, next_after) := page_selected q after st in
  selected ::
  match next_after, n with
  | Some a, S n => walk n q (Some a) st
  | _, _ => []
  end.

(** following the cursors from the first page, a client sees every model that has a
    displayable fact matching its query exactly once, in order, in pages of at most the
    limit, and the walk ends. *)
Theorem pages_cover q st :
  1 ≤ pq_limit q →
  concat (walk (length (page_ids q None st)) q None st) = page_ids q None st ∧
  NoDup (page_ids q None st) ∧
  (∀ c, c ∈ page_ids q None st ↔ ∃ r, r ∈ (bs_scores st).*2 ∧ page_where q r = true ∧ sr_canonical r = c) ∧
  ∀ p, p ∈ walk (length (page_ids q None st)) q None st → length p ≤ pq_limit q.
Proof.
  intros Hlim. split_and!.
  - generalize (@None string) as after. intros after.
    assert (∀ n after, length (page_ids q after st) ≤ n →
              concat (walk n q after st) = page_ids q after st) as H; [|by apply H].
    clear after. induction n as [|n IH]; intros after Hn.
    + destruct (page_ids q after st) as [|c l] eqn:E; [|cbn in Hn; lia].
      cbn. unfold page_selected. rewrite E, take_nil. cbn. by rewrite take_nil.
    + cbn [walk]. unfold page_selected.
      set (ids := page_ids q after st) in *. rewrite take_take, Nat.min_l by lia.
      destruct (pq_limit q <? length (take (pq_limit q + 1) ids)) eqn:El.
      * apply Nat.ltb_lt in El. rewrite length_take in El.
        destruct (last (take (pq_limit q) ids)) as [a|] eqn:Ea.
        -- apply last_Some in Ea as (l1 & Hl1).
           pose proof (take_drop (pq_limit q) ids) as Htd. rewrite Hl1, <- app_assoc in Htd. cbn in Htd.
           assert (page_ids q (Some a) st = drop (pq_limit q) ids) as Hrest
             by (by eapply page_ids_after; rewrite Htd).
           cbn [concat]. rewrite IH, Hrest; [by rewrite take_drop|].
           rewrite Hrest, length_drop. lia.
        -- apply last_None in Ea. apply (f_equal length) in Ea. rewrite length_take in Ea. cbn in Ea. lia.
      * apply Nat.ltb_ge in El. rewrite length_take in El. cbn. rewrite app_nil_r. apply take_ge. lia.
  - apply NoDup_sorted_dups.
  - intros c. rewrite elem_of_page_ids. cbn. naive_solver.
  - assert (∀ after, length (page_selected q after st).1 ≤ pq_limit q) as Hsel.
    { intros after. cbn. rewrite take_take, length_take. lia. }
    assert (∀ n after p, p ∈ walk n q after st → length p ≤ pq_limit q) as H; [|intros p; apply H].
    intros n. induction n as [|n IH]; intros after p; cbn [walk]; pose proof (Hsel after) as Hp;
      destruct (page_selected q after st) as [sel [a|] ]; cbn in Hp;
      (intros [->|Hr]%elem_of_cons; [done|]).
    3: by apply IH in Hr.
    all: by apply elem_of_nil in Hr.
Qed.

(** ** Witnesses *)

Definition demo_row (c b : string) : ScoreRow :=
  {| sr_canonical := c; sr_bench := b; sr_source := "epoch"; sr_version := ""; sr_value := 50; sr_raw := "";
     sr_unit := "pct"; sr_url := ""; sr_license := ""; sr_redistributable := 1; sr_retrieved_at := 7 |}.

Definition demo_bstore : BStore :=
  {| bs_scores := fold_left put_score
       [demo_row "a/100%_sure" "mmlu"; demo_row "b/100x-sure" "mmlu"; demo_row "c/other" "hle"] [];
     bs_aliases := [] |}.

Definition demo_query : PageQuery :=
  {| pq_limit := 1; pq_bench_ids := []; pq_provider := ""; pq_search := "100"; pq_catalog_ids := [] |}.

Lemma pages_cover_witness :
  concat (walk 2 demo_query None demo_bstore) = ["a/100%_sure"; "b/100x-sure"] ∧
  length (walk 2 demo_query None demo_bstore) = 2.
Proof.
  destruct (pages_cover demo_query demo_bstore) as (H & _); [vm_compute; lia|].
  assert (page_ids demo_query None demo_bstore = ["a/100%_sure"; "b/100x-sure"]) as E by (vm_compute; reflexivity).
  rewrite E in H. split; [exact H|vm_compute; reflexivity].
Defined.

(** The percent sign of a search is a percent sign. *)
Example search_is_literal :
  page_ids {| pq_limit := 10; pq_bench_ids := []; pq_provider := ""; pq_search := "0%_";
              pq_catalog_ids := [] |} None demo_bstore = ["a/100%_sure"].
Proof. vm_compute. reflexivity. Qed.
