(* ===== verification/Ingest.v ===== *)
(** * Benchmark ingestion ([benchmarking/ingest.py])

    Model names of foreign sources are mapped onto canonical ids down a confidence ladder,
    and every source's rows replace its facts in the store.  The fetchers of the sources are
    not in the tree: what they return is a parameter. *)

From S2P Require Import Prelude PyStr PyDict PyGroup Regex BenchStore.

(** ** Names *)

Definition alnum_lower (c : ascii) : bool := is_lower c || is_digit c.

(** [name.split("/")[-1]] *)
Definition last_segment (s : string) : string :=
  match rev (split_on "/" s) with x :: _ => x | [] => "" end.

(** [norm]: the part after the last slash, lowercased, letters and digits only. *)
Definition norm (name : string) : string :=
  sub (RChr (λ c, negb (alnum_lower c))) "" (lower (last_segment name)).

Definition VENDOR_SYNONYMS : list (string * string) :=
  [("x-ai", "xai"); ("google-deepmind", "google"); ("meta-llama", "meta"); ("meta-ai", "meta");
   ("alibaba", "qwen"); ("mistral-ai", "mistral"); ("moonshotai", "moonshot"); ("openai-inc", "openai")].

Definition dash_space : re := one_of ["-"; "_"; " "]%char.
Definition dash : re := one_of ["-"; "_"]%char.

(** The four decorations [_clean] strips, in order. *)
Definition PAREN_RE : re :=
  seqs [RStar rspace; lit "("; RStar (RChr (λ c, negb (c ≡? ")"%char))); lit ")"; RStar rspace; REnd].

Definition DATE_RE : re :=
  seqs [dash_space; lit "20"; rep 2 rdigit; ropt dash; rep 2 rdigit; ropt dash; rep 2 rdigit].

Definition CONTEXT_RE : re :=
  seqs [dash_space; rplus rdigit; RChr (λ c, lower_char c ∈? ["k"; "m"]%char); REnd].

Definition EFFORT_RE : re :=
  seqs [lit "_"; alts (lit_i <$> ["max"; "high"; "medium"; "low"; "xhigh"; "xlow"; "min"; "minimal"; "none";
                                  "unknown"; "thinking"]); REnd].

Definition clean (name : string) : string :=
  strip_of [" "; "-"; "_"]%char (sub EFFORT_RE "" (sub CONTEXT_RE "" (sub DATE_RE "" (sub PAREN_RE "" name)))).

(** [_slug] *)
Definition slug (s : string) : string :=
  strip_of ["-"]%char (sub (rplus (RChr (λ c, negb (alnum_lower c)))) "-" (lower s)).

Definition or_str (s d : string) : string := if s ≡? "" then d else s.

Definition provisional_slug (org model : string) : string :=
  let vendor := or_str (slug org) "unknown" in
  or_dflt vendor (dget VENDOR_SYNONYMS vendor) +:+ "/" +:+ or_str (slug (clean model)) "model".

(** ** The canonical universe *)

(** A row of OpenRouter's model list; [None] is an absent or null key. *)
Record OrModel := { om_id : option string; om_slug : option string; om_hf : option string }.

Record Universe := {
  u_ids : list string;
  u_by_norm : list (string * string);
  u_by_hf : list (string * string);
}.

Definition truthy_str (o : option string) : option string :=
  match o with Some "" | None => None | Some s => Some s end.

Definition add_model (u : Universe) (m : OrModel) : Universe :=
  match truthy_str (om_id m) with
  | None => u
  | Some mid =>
      let bn := dsetdefault (u_by_norm u) (norm mid) mid in
      {| u_ids := if mid ∈? u_ids u then u_ids u else u_ids u ++ [mid];
         u_by_norm := match truthy_str (om_slug m) with Some cs => dsetdefault bn (norm cs) mid | None => bn end;
         u_by_hf := match truthy_str (om_hf m) with
                    | Some hf => dsetdefault (u_by_hf u) hf mid
                    | None => u_by_hf u
                    end |}
  end.

Definition build_universe (models : list OrModel) : Universe :=
  fold_left add_model models {| u_ids := []; u_by_norm := []; u_by_hf := [] |}.

(** [map_model]: the canonical id and the confidence of the mapping. *)
Definition map_model (model org : string) (u : Universe) : string * Q :=
  if model ∈? u_ids u then (model, 1%Q)
  else match dget (u_by_hf u) model with
  | Some c => (c, 95 # 100)
  | None =>
      match dget (u_by_norm u) (norm model) with
      | Some c => (c, 9 # 10)
      | None =>
          let cn := norm (clean model) in
          match (if cn ≡? "" then None else dget (u_by_norm u) cn) with
          | Some c => (c, 8 # 10)
          | None => (provisional_slug org model, 4 # 10)
          end
      end
  end.

(** ** Rows *)

(** A source row: the name it uses for the model, and the columns of the fact. *)
Record SourceRow := {
  sm_model : string;
  sm_org : option string;
  sm_hf : option string;
  sm_bench : string;
  sm_version : option string;
  sm_value : res string Q;
  sm_raw : option string;
  sm_unit : option string;
  sm_url : option string;
  sm_license : option string;
  sm_redistributable : option Z;
  sm_retrieved_at : option Q;
}.

Definition mapping (u : Universe) (r : SourceRow) : string * Q := map_model (sm_model r) (or_dflt "" (sm_org r)) u.

(** [_map_rows] *)
Definition mapped_row (source : string) (u : Universe) (r : SourceRow) : ScoreIn :=
  {| in_canonical := (mapping u r).1; in_bench := sm_bench r; in_source := source; in_version := sm_version r;
     in_value := sm_value r; in_raw := sm_raw r; in_unit := sm_unit r; in_url := sm_url r;
     in_license := sm_license r; in_redistributable := sm_redistributable r;
     in_retrieved_at := sm_retrieved_at r |}.

Definition mapped_alias (source : string) (u : Universe) (r : SourceRow) : AliasIn :=
  {| ai_source := source; ai_model := sm_model r; ai_canonical := (mapping u r).1;
     ai_hf := Some (or_dflt "" (sm_hf r)); ai_confidence := Some (mapping u r).2 |}.

Definition map_rows (source : string) (rows : list SourceRow) (u : Universe) : list ScoreIn * list AliasIn :=
  (mapped_row source u <$> rows,
   (fold_left (λ d r, dsetdefault d (source, sm_model r) (mapped_alias source u r)) rows []).*2).

(** ** Refresh *)

Record SourceReport := {
  rp_facts : nat;
  rp_aliases : nat;
  rp_status : string;
  rp_error : option string;
  rp_skipped : option string;
}.

Definition report_ok (facts als : nat) : SourceReport :=
  {| rp_facts := facts; rp_aliases := als; rp_status := "ok"; rp_error := None; rp_skipped := None |}.

Definition report_error (e : string) : SourceReport :=
  {| rp_facts := 0; rp_aliases := 0; rp_status := "error"; rp_error := Some e; rp_skipped := None |}.

Definition report_no_key : SourceReport :=
  {| rp_facts := 0; rp_aliases := 0; rp_status := "skipped"; rp_error := None; rp_skipped := Some "no key" |}.

(** [_upsert]: the source is wiped before its rows are written, so a row that cannot be
    converted leaves it empty. *)
Definition upsert (now : Q) (source : string) (rows : list SourceRow) (u : Universe) (als : option (list AliasIn))
    (st : BStore) : BStore * res string SourceReport :=
  let '(score_rows, derived) := map_rows source rows u in
  let st := (delete_source source st).1 in
  match upsert_scores now score_rows st with
  | Err e => (st, Err e)
  | Ok (st, n_scores) =>
      let '(st, n_aliases) := upsert_aliases (or_dflt derived als) st in
      (st, Ok (report_ok n_scores n_aliases))
  end.

(** What the fetchers of [connectors] return during one refresh. *)
Record Fetched := {
  openrouter_models : res string (list OrModel);
  openrouter_rows : list OrModel → res string (list SourceRow);
  fetch_aa : string → res string (list SourceRow);
  fetch_epoch : res string (list SourceRow);
  fetch_lmarena : res string (list SourceRow);
  fetch_bfcl : res string (list SourceRow);
}.

Definition ALL_SOURCES : list string := ["openrouter"; "epoch"; "lmarena"; "bfcl"; "artificial_analysis"].

Section refresh.
Context (fe : Fetched) (now : string → Q) (aa_api_key : string).

(** The one fetch before the universe, made only when OpenRouter is asked for. *)
Definition or_models (sources : list string) : list OrModel :=
  if "openrouter" ∈? sources
  then match openrouter_models fe with Ok l => l | Err _ => [] end else [].

(** The identity aliases of OpenRouter's own models. *)
Definition identity_alias (m : OrModel) : option AliasIn :=
  match truthy_str (om_id m) with
  | Some mid => Some {| ai_source := "openrouter"; ai_model := mid; ai_canonical := mid;
                        ai_hf := Some (or_dflt "" (om_hf m)); ai_confidence := Some 1%Q |}
  | None => None
  end.

(** The rows of one source, before any of them is written. *)
Definition fetched (ms : list OrModel) (source : string) : res string (list SourceRow * option (list AliasIn)) :=
  if source ≡? "openrouter" then
    match openrouter_models fe with
    | Err e => if e ≡? "" then try! rows := openrouter_rows fe ms in Ok (rows, Some (omap identity_alias ms)) else Err e
    | Ok _ => try! rows := openrouter_rows fe ms in Ok (rows, Some (omap identity_alias ms))
    end
  else if source ≡? "artificial_analysis" then try! rows := fetch_aa fe aa_api_key in Ok (rows, None)
  else if source ≡? "epoch" then try! rows := fetch_epoch fe in Ok (rows, None)
  else if source ≡? "lmarena" then try! rows := fetch_lmarena fe in Ok (rows, None)
  else if source ≡? "bfcl" then try! rows := fetch_bfcl fe in Ok (rows, None)
  else Err ("unknown source " +:+ source).

Definition skipped (source : string) : bool := (source ≡? "artificial_analysis") && (aa_api_key ≡? "").

(** One turn of the loop: whatever is raised is that source's error. *)
Definition refresh_one (ms : list OrModel) (s : BStore * list (string * SourceReport)) (source : string)
    : BStore * list (string * SourceReport) :=
  let '(st, report) := s in
  if skipped source then (st, dset report source report_no_key)
  else match fetched ms source with
  | Err e => (st, dset report source (report_error e))
  | Ok (rows, als) =>
      match upsert (now source) source rows (build_universe ms) als st with
      | (st, Ok r) => (st, dset report source r)
      | (st, Err e) => (st, dset report source (report_error e))
      end
  end.

Definition refresh (sources : option (list string)) (st : BStore) : BStore * list (string * SourceReport) :=
  let sources := match sources with Some (x :: l) => x :: l | _ => ALL_SOURCES end in
  fold_left (refresh_one (or_models sources)) sources (st, []).
End refresh.

(** ** The mapping ladder *)

(** An id of the universe maps to itself with full confidence; only a name no rung knows
    gets a provisional slug, and exactly those land in the review queue. *)
Lemma map_model_review model org u :
  Qltb (map_model model org u).2 (8 # 10) = true ↔
  model ∉ u_ids u ∧ dget (u_by_hf u) model = None ∧ dget (u_by_norm u) (norm model) = None ∧
  (norm (clean model) = "" ∨ dget (u_by_norm u) (norm (clean model)) = None).
Proof.
  unfold map_model. case_bool_decide as E1; [split; [done|naive_solver]|].
  destruct (dget (u_by_hf u) model) eqn:E2; [split; [done|naive_solver]|].
  destruct (dget (u_by_norm u) (norm model)) eqn:E3; [split; [done|naive_solver]|].
  case_bool_decide as E4.
  - split; [|done]. intros _. auto.
  - destruct (dget (u_by_norm u) (norm (clean model))) eqn:E5; split; try done; try naive_solver.
Qed.

(** Every name of the universe's indexes is one of its ids. *)
Definition universe_ok (u : Universe) : Prop :=
  (∀ n c, (n, c) ∈ u_by_norm u → c ∈ u_ids u) ∧ (∀ h c, (h, c) ∈ u_by_hf u → c ∈ u_ids u).

Lemma elem_of_dsetdefault {K V} `{!EqDecision K} (d : list (K * V)) k v k' v' :
  (k', v') ∈ dsetdefault d k v → (k' = k ∧ v' = v) ∨ (k', v') ∈ d.
Proof. unfold dsetdefault. destruct (dmem d k); [by right|apply elem_of_dset]. Qed.

Lemma build_universe_ok models : universe_ok (build_universe models).
Proof.
  unfold build_universe. induction models as [|m models IH] using rev_ind.
  { split; intros ? ? ?%elem_of_nil; done. }
  rewrite fold_left_app. cbn [fold_left]. set (u := fold_left _ models _) in *. destruct IH as [IHn IHh].
  unfold add_model. destruct (truthy_str (om_id m)) as [mid|]; [|done].
  assert (∀ c, c = mid ∨ c ∈ u_ids u → c ∈ (if mid ∈? u_ids u then u_ids u else u_ids u ++ [mid])) as Hid.
  { intros c [->|?]; case_bool_decide; rewrite ?elem_of_app, ?list_elem_of_singleton; auto. }
  split; cbn [u_ids u_by_norm u_by_hf]; intros k c H; apply Hid.
  - destruct (truthy_str (om_slug m)).
    + apply elem_of_dsetdefault in H as [ [_ ->]|H]; [by left|].
      apply elem_of_dsetdefault in H as [ [_ ->]|H]; eauto.
    + apply elem_of_dsetdefault in H as [ [_ ->]|H]; eauto.
  - destruct (truthy_str (om_hf m)); [apply elem_of_dsetdefault in H as [ [_ ->]|H]|]; eauto.
Qed.

(** A confident mapping always lands on a model of the universe. *)
Lemma map_model_confident model org models :
  let u := build_universe models in
  Qltb (map_model model org u).2 (8 # 10) = false → (map_model model org u).1 ∈ u_ids u.
Proof.
  intros u. destruct (build_universe_ok models) as [Hn Hh]. fold u in Hn, Hh. unfold map_model.
  case_bool_decide; [done|]. destruct (dget (u_by_hf u) model) eqn:E2; [by eauto using dget_elem|].
  destruct (dget (u_by_norm u) (norm model)) eqn:E3; [by eauto using dget_elem|].
  destruct (if norm (clean model) ≡? "" then None else dget (u_by_norm u) (norm (clean model))) eqn:E4; [|done].
  intros _. cbn. case_bool_decide; [done|]. by eauto using dget_elem.
Qed.

(** ** Refresh, source by source *)

(** What a refresh does to one source's facts. *)
Inductive Outcome : Type :=
  | Kept (r : SourceReport)                       (* nothing was written *)
  | Wiped (e : string)                            (* old facts gone, none written *)
  | Replaced (facts : list ScoreRow) (r : SourceReport).

Definition outcome_report (o : Outcome) : SourceReport :=
  match o with Kept r | Replaced _ r => r | Wiped e => report_error e end.

Section exact.
Context (fe : Fetched) (now : string → Q) (aa_api_key : string) (ms : list OrModel).
#[local] Abbreviation u := (build_universe ms).

(** The outcome of a source follows from its own fetch and the universe alone. *)
Definition outcome (source : string) : Outcome :=
  if skipped aa_api_key source then Kept report_no_key
  else match fetched fe aa_api_key ms source with
  | Err e => Kept (report_error e)
  | Ok (rows, als) =>
      match map_res (score_row (now source)) (mapped_row source u <$> rows) with
      | Err e => Wiped e
      | Ok ps => Replaced ps (report_ok (length rows) (length (or_dflt (map_rows source rows u).2 als)))
      end
  end.

(** The fact a key reads after the source's turn. *)
Definition fact_after (source : string) (k : string * string * string * string) (old : option ScoreRow)
    : option ScoreRow :=
  match outcome source with
  | Kept _ => old
  | Wiped _ => None
  | Replaced ps _ => last (List.filter (λ r, score_pk r ≡? k) ps)
  end.

Definition key_source (k : string * string * string * string) : string := k.1.2.

Lemma score_row_source n i r : score_row n i = Ok r → sr_source r = in_source i.
Proof. intros (v & _ & [= <-])%res_bind_ok. done. Qed.

(** [_map_rows] writes the source's name over every row. *)
Lemma rows_of_source source rows ps p :
  map_res (score_row (now source)) (mapped_row source u <$> rows) = Ok ps → p ∈ ps → sr_source p = source.
Proof.
  intros H%map_res_forall Hp. apply list_elem_of_lookup in Hp as (i & Hi).
  destruct (Forall2_lookup_r _ _ _ _ _ H Hi) as (x & Hx & Hr). apply score_row_source in Hr as ->.
  apply list_elem_of_lookup_2, list_elem_of_fmap in Hx as (r & -> & _). done.
Qed.

Lemma dget_deleted source st k :
  wf st → dget (bs_scores (delete_source source st).1) k =
          if key_source k ≡? source then None else dget (bs_scores st) k.
Proof.
  intros Hwf. pose proof (delete_source_wf source st Hwf) as Hwf'.
  case_bool_decide as E.
  - apply dget_none. intros ([k' r] & -> & [Hin Hs]%elem_of_delete_source)%list_elem_of_fmap.
    apply (wf_score_pk _ Hwf) in Hin. cbn in *. subst k'. done.
  - destruct (dget (bs_scores st) k) as [r|] eqn:Er.
    + apply elem_dget; [by apply wf_scores|]. apply elem_of_delete_source. apply dget_elem in Er.
      split; [done|]. apply (wf_score_pk _ Hwf) in Er. by subst k.
    + apply dget_none. rewrite dget_none in Er. contradict Er.
      apply list_elem_of_fmap in Er as ([k' r] & -> & [Hin _]%elem_of_delete_source).
      apply list_elem_of_fmap. by exists (k', r).
Qed.

(** One turn: its own facts and report follow [outcome], the other sources' are untouched. *)
Lemma refresh_one_exact source st report st' report' :
  wf st → refresh_one fe now aa_api_key ms (st, report) source = (st', report') →
  wf st' ∧
  (∀ k, dget (bs_scores st') k =
        if key_source k ≡? source then fact_after source k (dget (bs_scores st) k) else dget (bs_scores st) k) ∧
  report' = dset report source (outcome_report (outcome source)).
Proof.
  intros Hwf. unfold refresh_one, fact_after, outcome. destruct (skipped aa_api_key source).
  { intros [= <- <-]. split_and!; [done| |done]. intros k. by case_bool_decide. }
  destruct (fetched fe aa_api_key ms source) as [ [rows als]|e] eqn:Ef.
  2: { intros [= <- <-]. split_and!; [done| |done]. intros k. by case_bool_decide. }
  unfold upsert. cbn [map_rows]. destruct (map_rows source rows u) as [sc der] eqn:Em.
  assert (sc = mapped_row source u <$> rows) as -> by by injection Em.
  pose proof (delete_source_wf source st Hwf) as Hwfd.
  destruct (map_res (score_row (now source)) (mapped_row source u <$> rows)) as [ps|e] eqn:Eps.
  - destruct (upsert_scores (now source) _ _) as [ [st1 n]|e] eqn:Eu.
    2: { unfold upsert_scores in Eu. rewrite Eps in Eu. discriminate. }
    pose proof (upsert_scores_wf _ _ _ _ _ Hwfd Eu) as Hwf1.
    unfold upsert_scores in Eu. rewrite Eps in Eu. injection Eu as <- <-.
    intros [= <- <-]. split_and!.
    + exact (upsert_aliases_wf _ _ Hwf1).
    + intros k. cbn [upsert_aliases fst bs_scores]. rewrite dget_put_scores.
      change (List.filter _ (bs_scores st)) with (bs_scores (delete_source source st).1).
      rewrite dget_deleted by done.
      case_bool_decide as E; [by destruct (last _)|].
      assert (List.filter (λ r, score_pk r ≡? k) ps = []) as ->; [|done].
      destruct (List.filter _ ps) as [|p l] eqn:El; [done|]. exfalso. apply E.
      assert (p ∈ List.filter (λ r, score_pk r ≡? k) ps) as [Hp Hk]%elem_of_bfilter by (rewrite El; left).
      apply bool_decide_eq_true in Hk as <-. by eapply rows_of_source.
    + cbn. rewrite !length_fmap. injection Em as <-. done.
  - destruct (upsert_scores (now source) _ _) as [ [st1 n]|e'] eqn:Eu.
    { unfold upsert_scores in Eu. rewrite Eps in Eu. discriminate. }
    unfold upsert_scores in Eu. rewrite Eps in Eu. injection Eu as <-.
    intros [= <- <-]. split_and!; [done| |done]. intros k. by apply dget_deleted.
Qed.
End exact.

Lemma refresh_fold fe now key ms sources st report :
  wf st → NoDup sources →
  let s := fold_left (refresh_one fe now key ms) sources (st, report) in
  wf s.1 ∧
  (∀ k, dget (bs_scores s.1) k =
        if key_source k ∈? sources then fact_after fe now key ms (key_source k) k (dget (bs_scores st) k)
        else dget (bs_scores st) k) ∧
  (∀ src, dget s.2 src =
          if src ∈? sources then Some (outcome_report (outcome fe now key ms src)) else dget report src).
Proof.
  revert st report. induction sources as [|x sources IH]; intros st report Hwf Hnd; [done|].
  apply NoDup_cons in Hnd as [Hx Hnd]. cbn [fold_left].
  destruct (refresh_one fe now key ms (st, report) x) as [st1 report1] eqn:E.
  destruct (refresh_one_exact fe now key ms x st report st1 report1 Hwf E) as (Hwf1 & Hk1 & ->).
  destruct (IH st1 (dset report x (outcome_report (outcome fe now key ms x))) Hwf1 Hnd) as (Hwf2 & Hk2 & Hr2).
  split_and!; [done|..].
  - intros k. rewrite Hk2, Hk1. destruct (decide (key_source k = x)) as [Ek|Ek].
    + rewrite (bool_decide_true (key_source k ∈ x :: sources)) by (rewrite Ek; left).
      rewrite bool_decide_false by by rewrite Ek. by rewrite bool_decide_true, Ek by done.
    + rewrite (bool_decide_false (key_source k = x)) by done.
      case_bool_decide as H1; case_bool_decide as H2; try done; rewrite elem_of_cons in H2; naive_solver.
  - intros src. rewrite Hr2. destruct (decide (src = x)) as [->|Hs].
    + rewrite (bool_decide_false (x ∈ sources)) by done. rewrite bool_decide_true by left.
      apply dget_dset_eq.
    + rewrite dget_dset_ne by done.
      case_bool_decide as H1; case_bool_decide as H2; try done; rewrite elem_of_cons in H2; naive_solver.
Qed.

(** a refresh isolates its sources.  Whatever the fetchers do, a source that was not
    asked for, was skipped or failed to fetch keeps exactly its facts; a source whose rows
    arrived ends with exactly those rows, its stale facts gone; each report speaks of its
    own source only.  (A source with a row that cannot be converted ends empty.) *)
Theorem refresh_isolated fe now key sources st :
  wf st → NoDup sources → sources ≠ [] →
  let s := refresh fe now key (Some sources) st in
  let ms := or_models fe sources in
  wf s.1 ∧
  (∀ k, dget (bs_scores s.1) k =
        if key_source k ∈? sources then fact_after fe now key ms (key_source k) k (dget (bs_scores st) k)
        else dget (bs_scores st) k) ∧
  (∀ src, dget s.2 src =
          if src ∈? sources then Some (outcome_report (outcome fe now key ms src)) else None).
Proof.
  intros Hwf Hnd Hne s ms. destruct sources as [|x sources]; [done|].
  exact (refresh_fold fe now key ms (x :: sources) st [] Hwf Hnd).
Qed.

(** ** Witnesses *)

Definition demo_source_row (m b : string) (v : res string Q) : SourceRow :=
  {| sm_model := m; sm_org := Some "OpenAI"; sm_hf := None; sm_bench := b; sm_version := None; sm_value := v;
     sm_raw := None; sm_unit := Some "pct"; sm_url := None; sm_license := None; sm_redistributable := None;
     sm_retrieved_at := None |}.

Definition demo_fetched : Fetched :=
  {| openrouter_models := Ok [{| om_id := Some "openai/gpt-4o"; om_slug := None; om_hf := None |}];
     openrouter_rows := λ _, Ok [];
     fetch_aa := λ _, Ok [];
     fetch_epoch := Ok [demo_source_row "GPT-4o (High)" "mmlu" (Ok 88%Q)];
     fetch_lmarena := Err "timeout";
     fetch_bfcl := Ok [demo_source_row "GPT-4o" "bfcl" (Err "could not convert string to float")] |}.

Example map_model_ladder :
  let u := build_universe [{| om_id := Some "openai/gpt-4o"; om_slug := None; om_hf := Some "hf/gpt" |}] in
  (λ m, map_model m "OpenAI Inc" u) <$>
    ["openai/gpt-4o"; "hf/gpt"; "GPT-4o"; "gpt-4o-2024-08-06_high"; "GPT-5 (FC)"]
  = [("openai/gpt-4o", 1); ("openai/gpt-4o", 95 # 100); ("openai/gpt-4o", 9 # 10); ("openai/gpt-4o", 8 # 10);
     ("openai/gpt-5", 4 # 10)]%Q.
Proof. vm_compute. reflexivity. Qed.

Lemma refresh_isolated_witness :
  let s := refresh demo_fetched (λ _, 9%Q) "" (Some ["openrouter"; "epoch"; "lmarena"; "bfcl"]) demo_bstore in
  wf s.1 ∧ dget s.2 "aa" = None ∧ rp_status <$> dget s.2 "lmarena" = Some "error".
Proof.
  assert (wf demo_bstore) as Hwf.
  { apply wf_keyed. split; [|split; [constructor|by intros ? ? ?%elem_of_nil] ].
    apply (keyed_upserts score_pk). split; [constructor|by intros ? ? ?%elem_of_nil]. }
  destruct (refresh_isolated demo_fetched (λ _, 9%Q) "" ["openrouter"; "epoch"; "lmarena"; "bfcl"] demo_bstore
              Hwf) as (H1 & _ & H2); [vm_decide|done|].
  split_and!; [exact H1|rewrite H2; vm_compute; reflexivity|rewrite H2; vm_compute; reflexivity].
Defined.

(** A source whose fetch succeeded but with one unreadable value loses its old facts. *)
Lemma unreadable_value_wipes_source :
  let old := {| bs_scores := fold_left put_score [demo_row "openai/gpt-4o" "bfcl"] []; bs_aliases := [] |} in
  let fe := {| openrouter_models := Ok []; openrouter_rows := λ _, Ok []; fetch_aa := λ _, Ok [];
               fetch_epoch := Ok [demo_source_row "GPT-4o" "mmlu" (Err "bad")];
               fetch_lmarena := Ok []; fetch_bfcl := Ok [] |} in
  let s := refresh fe (λ _, 9%Q) "" (Some ["epoch"]) old in
  length (bs_scores old) = 1 ∧ bs_scores s.1 = [] ∧ rp_status <$> dget s.2 "epoch" = Some "error".
Proof. vm_compute. auto. Qed.
