(* ===== verification/Scores.v ===== *)
(** * Benchmark facts to routing scores ([benchmarking/aggregate.py])

    The stored facts of every source are normalized to 0..1, collapsed per variant, source
    and benchmark, and averaged per category; [overlay] merges the result onto the score
    table of [Benchmarks].  Floats are exact rationals, as [statistics.mean] computes them. *)

From Stdlib Require Import SetoidPermutation.
From S2P Require Import Prelude PyStr PyDict PyGroup Regex Registry BenchStore Ingest Catalog Benchmarks.

(** One row of the fact store, as [BenchmarkStore.scores] returns it. *)
Record Fact := {
  f_canonical : string;
  f_bench : string;
  f_source : string;
  f_version : option string;
  f_unit : string;
  f_value : Q;
  f_redistributable : option Z;
}.

Definition OPERATIONAL_UNITS : list string := ["tok_s"; "ms"; "usd_per_mtok"].

Definition clamp01 (x : Q) : Q := if Qltb x 0 then 0 else if Qltb 1 x then 1 else x.

(** [_percentile]: (below + 0.5*equal)/n, 0.5 for a population of at most one. *)
Definition below (v : Q) (pop : list Q) : nat := length (List.filter (λ p, Qltb p v) pop).
Definition equal_to (v : Q) (pop : list Q) : nat := length (List.filter (λ p, Qeq_bool p v) pop).

#[local] Open Scope Q_scope.

Definition percentile (v : Q) (pop : list Q) : Q :=
  if length pop <=? 1 then 1 # 2
  else (Qz (Z.of_nat (below v pop)) + (1 # 2) * Qz (Z.of_nat (equal_to v pop))) / Qz (Z.of_nat (length pop)).

(** The units whose meaning is relative to the models present. *)
Definition relative (f : Fact) : bool := f_unit f ∈? ["elo"; "arena"].

Definition norm_fact (f : Fact) (elo_pop : list (string * string * list Q)) : option Q :=
  if f_unit f ≡? "fraction" then Some (clamp01 (f_value f))
  else if f_unit f ∈? ["pct"; "index"] then Some (clamp01 (f_value f / 100))
  else if relative f then
    Some (percentile (f_value f)
      (match dget elo_pop (f_bench f, f_source f) with Some l => l | None => [] end))
  else None.

(** ** [statistics.mean] and [statistics.median] *)

Definition Qsum (l : list Q) : Q := foldr Qplus 0 l.
Definition mean (l : list Q) : Q := Qsum l / Qz (Z.of_nat (length l)).

Definition median (l : list Q) : Q :=
  let s := sort_by Qleb l in
  let n := length l in
  if Nat.odd n then nth (Nat.div2 n) s 0
  else (nth (Nat.div2 n - 1) s 0 + nth (Nat.div2 n) s 0) / 2.

(** ** [aggregate] *)

(** A normalized fact. *)
Abbreviation Scored := (Fact * Q)%type.

Definition version_of (f : Fact) : string := match f_version f with Some v => v | None => "" end.

(** The facts that count: no operational unit, and the redistributable ones on request. *)
Definition counts (include_non_redistributable : bool) (f : Fact) : bool :=
  negb (f_unit f ∈? OPERATIONAL_UNITS) &&
  (include_non_redistributable ||
   match f_redistributable f with Some z => negb (z =? 0)%Z | None => true end).

Definition quality_facts (incl : bool) (facts : list Fact) : list Fact := List.filter (counts incl) facts.

Definition elo_populations (facts : list Fact) : list (string * string * list Q) :=
  grouped (λ f, (f_bench f, f_source f)) f_value (List.filter relative facts).

Definition normalized (facts : list Fact) : list Scored :=
  omap (λ f, match norm_fact f (elo_populations facts) with Some n => Some (f, n) | None => None end) facts.

Definition group_key (r : Scored) : string * string * string :=
  (f_canonical r.1, f_bench r.1, f_source r.1).

(** [groups[...][version].append(n)] *)
Definition groups (rows : list Scored) : list (string * string * string * list (string * list Q)) :=
  accumulate group_key [] (touch (λ r, version_of r.1) [] (λ vs r, vs ++ [r.2])) rows.

(** The default run's mean, or the median across the tiers when there is no default run. *)
Definition collapse (by_ver : list (string * list Q)) : Q :=
  match dget by_ver "" with
  | Some vs => mean vs
  | None => median (concat by_ver.*2)
  end.

Definition bench_key (g : string * string * string * list (string * list Q)) : string * string := g.1.1.

Definition per_bench (gs : list (string * string * string * list (string * list Q)))
    : list (string * string * list Q) :=
  grouped bench_key (λ g, collapse g.2) gs.

(** One catalogued benchmark of one model: (canonical id, category, value). *)
Definition categorized (registry : string → option Benchmark) (p : string * string * list Q)
    : option (string * string * Q) :=
  match registry p.1.2 with
  | Some b => Some (p.1.1, b_category b, mean p.2)
  | None => None
  end.

Definition cats (registry : string → option Benchmark) (ps : list (string * string * list Q))
    : list (string * list (string * list Q)) :=
  accumulate (λ r : string * string * Q, r.1.1) []
    (touch (λ r : string * string * Q, r.1.2) [] (λ vs r, vs ++ [r.2]))
    (omap (categorized registry) ps).

(** [{"score": ..., "n": ...}] *)
Record CatScore := { cs_score : Q; cs_n : nat }.

Definition cat_score (vals : list Q) : CatScore := {| cs_score := mean vals; cs_n := length vals |}.

(** The categories of one model, with the two legacy keys. *)
Definition cat_map (by_cat : list (string * list Q)) : list (string * CatScore) :=
  let m := (λ c : string * list Q, (c.1, cat_score c.2)) <$> by_cat in
  let quality := cs_score <$> m.*2 in
  let m := match dget m "coding" with Some c => dset m "code" c | None => m end in
  dset m "general" {| cs_score := mean quality; cs_n := length quality |}.

Definition aggregate (registry : string → option Benchmark) (incl : bool) (facts : list Fact)
    : list (string * list (string * CatScore)) :=
  (λ c, (c.1, cat_map c.2)) <$> cats registry (per_bench (groups (normalized (quality_facts incl facts)))).

(** ** [overlay_benchmarks] *)

(** [models.setdefault(m, {}).update(scores)] *)
Definition update_model (models : Benchmarks) (m : string) (new : list (string * Q)) : Benchmarks :=
  let row := bench_row models m in
  dset models m {| scores := dupdate (scores row) new; live_price := live_price row |}.

Definition flat (agg : list (string * list (string * CatScore))) : list (string * list (string * Q)) :=
  (λ c : string * list (string * CatScore), (c.1, (λ kv, (kv.1, cs_score kv.2)) <$> c.2)) <$> agg.

Definition norm_index (fl : list (string * list (string * Q))) : list (string * string) :=
  fold_left (λ d c, dsetdefault d (norm c) c) (dkeys fl) [].

(** A catalog name whose norm is a scored model's gets that model's scores. *)
Definition bridge (fl : list (string * list (string * Q))) (models : Benchmarks) (up : string) : Benchmarks :=
  match dget (norm_index fl) (norm up) with
  | Some canon =>
      if (canon ≡? "") || (canon ≡? up) then models
      else match dget fl canon with Some new => update_model models up new | None => models end
  | None => models
  end.

Definition overlay (registry : string → option Benchmark) (facts : list Fact) (fresh : Benchmarks)
    (catalog_upstreams : list string) : Benchmarks * nat :=
  let agg := aggregate registry true facts in
  let fl := flat agg in
  let models := fold_left (λ ms c, update_model ms c.1 c.2) fl fresh in
  (fold_left (bridge fl) catalog_upstreams models, length agg).

(** ** Means and medians of a bag

    A list of values counts as a bag: [≈] is permutation up to equality of rationals. *)

Infix "≈" := (PermutationA Qeq) (at level 70) : py_scope.

Lemma bag_perm (l l' : list Q) : l ≡ₚ l' → l ≈ l'.
Proof. induction 1; econstructor; eauto; reflexivity. Qed.

Lemma bag_fmap {A} (f g : A → Q) l : (∀ x, x ∈ l → f x == g x) → (f <$> l) ≈ (g <$> l).
Proof.
  induction l as [|x l IH]; intros H; cbn; constructor; [apply H; left|].
  apply IH. intros y ?. apply H. by right.
Qed.

#[export] Instance length_bag : Proper (PermutationA Qeq ==> eq) (@length Q).
Proof. intros l l'. induction 1; cbn; congruence. Qed.

#[export] Instance Qsum_bag : Proper (PermutationA Qeq ==> Qeq) Qsum.
Proof.
  intros l l'. induction 1 as [|x y l l' Hxy _ IH| |l l' l'' _ IH1 _ IH2]; cbn.
  - reflexivity.
  - by rewrite Hxy, IH.
  - ring.
  - by rewrite IH1.
Qed.

#[export] Instance mean_bag : Proper (PermutationA Qeq ==> Qeq) mean.
Proof. intros l l' H. unfold mean. by rewrite (Qsum_bag l l' H), (length_bag l l' H). Qed.

Lemma Qleb_compat x x' y y' : x == x' → y == y' → Qleb x y = Qleb x' y'.
Proof. intros Hx Hy. apply eq_true_iff_eq. rewrite !Qleb_true. by rewrite Hx, Hy. Qed.

Lemma insert_by_compat x x' s s' :
  x == x' → Forall2 Qeq s s' → Forall2 Qeq (insert_by Qleb x s) (insert_by Qleb x' s').
Proof.
  intros Hx. induction 1 as [|y y' s s' Hy Hs IH]; cbn; [by repeat constructor|].
  rewrite (Qleb_compat x x' y y') by done. destruct (Qleb x' y'); by repeat constructor.
Qed.

Lemma insert_by_swap x y s :
  Forall2 Qeq (insert_by Qleb x (insert_by Qleb y s)) (insert_by Qleb y (insert_by Qleb x s)).
Proof.
  induction s as [|z s IH]; cbn.
  - destruct (Qleb x y) eqn:Exy, (Qleb y x) eqn:Eyx; q_to_prop;
      repeat constructor; try reflexivity; lra.
  - destruct (Qleb y z) eqn:Eyz, (Qleb x z) eqn:Exz; cbn; rewrite ?Eyz, ?Exz; cbn;
      destruct (Qleb x y) eqn:Exy, (Qleb y x) eqn:Eyx; cbn; rewrite ?Eyz, ?Exz; q_to_prop;
      repeat first [reflexivity | lra | exact IH | constructor].
Qed.

Lemma sort_bag l l' : l ≈ l' → Forall2 Qeq (sort_by Qleb l) (sort_by Qleb l').
Proof.
  induction 1 as [|x y l l' Hxy _ IH|x y l|l l' l'' _ IH1 _ IH2]; cbn.
  - constructor.
  - by apply insert_by_compat.
  - apply insert_by_swap.
  - etrans; eassumption.
Qed.

Lemma nth_compat i s s' : Forall2 Qeq s s' → nth i s 0 == nth i s' 0.
Proof. intros H. revert i. induction H as [|x y s s' Hx _ IH]; intros [|i]; cbn; auto; reflexivity. Qed.

#[export] Instance median_bag : Proper (PermutationA Qeq ==> Qeq) median.
Proof.
  intros l l' H. unfold median. rewrite <- (length_bag l l' H).
  pose proof (sort_bag l l' H) as Hs. destruct (Nat.odd (length l)).
  - by apply nth_compat.
  - rewrite !(nth_compat _ _ _ Hs). reflexivity.
Qed.

(** ** Normalization stays in the unit interval *)

Definition unit_q (q : Q) : Prop := 0 <= q ∧ q <= 1.

Lemma clamp01_unit x : unit_q (clamp01 x).
Proof. unfold clamp01, unit_q. destruct (Qltb x 0) eqn:?, (Qltb 1 x) eqn:?; q_to_prop; lra. Qed.

Lemma below_equal_length v pop : (below v pop + equal_to v pop <= length pop)%nat.
Proof.
  unfold below, equal_to. induction pop as [|p pop IH]; cbn; [done|].
  destruct (Qltb p v) eqn:E1, (Qeq_bool p v) eqn:E2; cbn; try lia.
  apply Qeq_bool_iff in E2. q_to_prop. lra.
Qed.

Lemma percentile_unit v pop : unit_q (percentile v pop).
Proof.
  unfold percentile, unit_q. destruct (length pop <=? 1)%nat eqn:E; [split; lra|].
  apply Nat.leb_gt in E. pose proof (below_equal_length v pop) as Hle.
  assert (0 < Qz (Z.of_nat (length pop)))%Q as Hn by (unfold Qz; rewrite <- (Zlt_Qlt 0); lia).
  assert (0 <= Qz (Z.of_nat (below v pop)))%Q as H1 by (unfold Qz; rewrite <- (Zle_Qle 0); lia).
  assert (0 <= Qz (Z.of_nat (equal_to v pop)))%Q as H2 by (unfold Qz; rewrite <- (Zle_Qle 0); lia).
  assert (Qz (Z.of_nat (below v pop)) + Qz (Z.of_nat (equal_to v pop)) <= Qz (Z.of_nat (length pop)))%Q as H3.
  { unfold Qz. rewrite <- inject_Z_plus, <- Zle_Qle. lia. }
  split.
  - apply Qle_shift_div_l; lra.
  - apply Qle_shift_div_r; lra.
Qed.

(** Of two ratings of one population, the higher one has the strictly higher rank. *)
Lemma below_equal_mono v w pop : v < w → (below v pop + equal_to v pop <= below w pop)%nat.
Proof.
  intros Hvw. unfold below, equal_to. induction pop as [|p pop IH]; cbn; [done|].
  destruct (Qltb p v) eqn:E1, (Qeq_bool p v) eqn:E2, (Qltb p w) eqn:E3; cbn; try lia;
    try apply Qeq_bool_iff in E2; q_to_prop; lra.
Qed.

Lemma equal_to_pos v pop : v ∈ pop → (1 <= equal_to v pop)%nat.
Proof.
  intros H. unfold equal_to. assert (v ∈ List.filter (λ p, Qeq_bool p v) pop) as Hin.
  { apply elem_of_bfilter. split; [done|]. by apply Qeq_bool_iff. }
  destruct (List.filter _ pop); [by apply elem_of_nil in Hin|cbn; lia].
Qed.

Lemma percentile_monotone v w pop : v < w → v ∈ pop → w ∈ pop → percentile v pop < percentile w pop.
Proof.
  intros Hvw Hv Hw. unfold percentile. destruct (length pop <=? 1)%nat eqn:E.
  { apply Nat.leb_le in E. destruct pop as [|p [|? ?]]; cbn in E; [by apply elem_of_nil in Hv| |lia].
    apply list_elem_of_singleton in Hv, Hw. subst. lra. }
  apply Nat.leb_gt in E.
  assert (0 < Qz (Z.of_nat (length pop)))%Q as Hn by (unfold Qz; rewrite <- (Zlt_Qlt 0); lia).
  pose proof (below_equal_mono v w pop Hvw) as H1. pose proof (equal_to_pos v pop Hv) as H2.
  pose proof (equal_to_pos w pop Hw) as H3.
  apply Qmult_lt_compat_r; [by apply Qinv_lt_0_compat|]. unfold Qz.
  assert (inject_Z (Z.of_nat (below v pop)) + inject_Z (Z.of_nat (equal_to v pop))
          <= inject_Z (Z.of_nat (below w pop)))%Q as H4
    by (rewrite <- inject_Z_plus, <- Zle_Qle; lia).
  assert (1 <= inject_Z (Z.of_nat (equal_to v pop)))%Q as H5 by (rewrite <- (Zle_Qle 1); lia).
  assert (1 <= inject_Z (Z.of_nat (equal_to w pop)))%Q as H6 by (rewrite <- (Zle_Qle 1); lia).
  lra.
Qed.

Lemma norm_fact_unit f pop n : norm_fact f pop = Some n → unit_q n.
Proof.
  unfold norm_fact. repeat case_bool_decide; [intros [= <-]; apply clamp01_unit..|].
  destruct (relative f); [|done]. intros [= <-]. apply percentile_unit.
Qed.

(** ** Averages stay between the bounds of what is averaged *)

Lemma Qz_length_pos {A} (l : list A) : l ≠ [] → 0 < Qz (Z.of_nat (length l)).
Proof. intros. destruct l; [done|]. unfold Qz. rewrite <- (Zlt_Qlt 0). cbn [length]. lia. Qed.

Lemma Qsum_bounds l : Forall unit_q l → 0 <= Qsum l ∧ Qsum l <= Qz (Z.of_nat (length l)).
Proof.
  unfold Qz. induction 1 as [|x l [? ?] Hl IH]; cbn [Qsum foldr length]; [split; vm_compute; discriminate|].
  rewrite Nat2Z.inj_succ, <- Z.add_1_r, inject_Z_plus. change (foldr Qplus 0 l) with (Qsum l).
  change (inject_Z 1) with (1 # 1). lra.
Qed.

Lemma mean_unit l : l ≠ [] → Forall unit_q l → unit_q (mean l).
Proof.
  intros Hne [? ?]%Qsum_bounds. pose proof (Qz_length_pos l Hne). unfold mean. split.
  - apply Qle_shift_div_l; lra.
  - apply Qle_shift_div_r; lra.
Qed.

Lemma nth_unit i l : Forall unit_q l → unit_q (nth i l 0).
Proof.
  intros H. revert i. induction H as [|x l Hx _ IH]; intros [|i]; cbn; auto; split; lra.
Qed.

Lemma median_unit l : Forall unit_q l → unit_q (median l).
Proof.
  intros H. unfold median. assert (Forall unit_q (sort_by Qleb l)) as Hs.
  { apply Forall_forall. intros x Hx%elem_of_sort_by. rewrite Forall_forall in H. auto. }
  destruct (Nat.odd _); [by apply nth_unit|].
  destruct (nth_unit (Nat.div2 (length l) - 1) _ Hs), (nth_unit (Nat.div2 (length l)) _ Hs).
  split; [apply Qle_shift_div_l|apply Qle_shift_div_r]; lra.
Qed.

(** ** The reference: averages by comprehension

    What a score is, stated without the dicts of the loop: of a source the default run (or
    the median of its tiers), of a benchmark the mean over its sources, of a category the
    mean over the catalogued benchmarks that belong to it. *)

Section reference.
Context (registry : string → option Benchmark) (rows : list Scored).

Definition ref_rows (cid bid src : string) : list Scored := having group_key (cid, bid, src) rows.

Definition ref_source (cid bid src : string) : Q :=
  match having (λ r : Scored, version_of r.1) "" (ref_rows cid bid src) with
  | [] => median (ref_rows cid bid src).*2
  | ds => mean ds.*2
  end.

Definition ref_sources (cid bid : string) : list string :=
  remove_dups ((λ r : Scored, f_source r.1) <$>
               having (λ r : Scored, (f_canonical r.1, f_bench r.1)) (cid, bid) rows).

Definition ref_bench (cid bid : string) : Q := mean (ref_source cid bid <$> ref_sources cid bid).

Definition ref_benches (cid : string) : list string :=
  remove_dups ((λ r : Scored, f_bench r.1) <$> having (λ r : Scored, f_canonical r.1) cid rows).

Definition in_category (cat bid : string) : bool :=
  match registry bid with Some b => b_category b ≡? cat | None => false end.

Definition ref_category (cid cat : string) : list Q :=
  ref_bench cid <$> List.filter (in_category cat) (ref_benches cid).

Definition ref_categories (cid : string) : list string :=
  remove_dups (omap (λ bid, match registry bid with Some b => Some (b_category b) | None => None end)
                    (ref_benches cid)).
End reference.

(** *** The dicts of the loop compute it *)

Lemma concat_touch {X} (key : X → string) (val : X → Q) d x :
  concat (touch key [] (λ vs x, vs ++ [val x]) d x).*2 ≡ₚ val x :: concat d.*2.
Proof.
  unfold touch. induction d as [|[k v] d IH]; cbn [dset dget]; [done|].
  destruct (decide (key x = k)); cbn.
  - rewrite <- app_assoc. cbn. by rewrite Permutation_middle.
  - rewrite IH. by rewrite Permutation_middle.
Qed.

Lemma concat_grouped {X} (key : X → string) (val : X → Q) l :
  concat (grouped key val l).*2 ≡ₚ val <$> l.
Proof.
  unfold grouped. induction l as [|x l IH] using rev_ind; [done|].
  rewrite accumulate_snoc, concat_touch, IH, fmap_app. cbn. by rewrite Permutation_cons_append.
Qed.

(** The groups of one dict below another: a key's value is the group of its rows. *)
Lemma groups_entries rows :
  groups rows = (λ k, (k, grouped (λ r : Scored, version_of r.1) snd (having group_key k rows)))
                <$> dkeys (groups rows).
Proof.
  unfold dkeys. rewrite <- list_fmap_compose. rewrite <- (list_fmap_id (groups rows)) at 1.
  apply list_fmap_ext. intros i [k v] Hi%list_elem_of_lookup_2. cbn.
  unfold groups in Hi. apply elem_of_accumulate in Hi as [_ ->]. done.
Qed.

Lemma collapse_ref cid bid src rows :
  collapse (grouped (λ r : Scored, version_of r.1) snd (ref_rows rows cid bid src))
  == ref_source rows cid bid src.
Proof.
  unfold collapse, ref_source. rewrite dget_grouped.
  destruct (having _ "" _) as [|x xs]; [|reflexivity].
  apply median_bag, bag_perm, concat_grouped.
Qed.

(** The entries of a dict that satisfy a test, read by what identifies them among those. *)
Lemma dict_part {K V J} `{!EqDecision K} (d : list (K * V)) (p : K * V → bool) (j : K * V → J) (ref : list J) :
  NoDup (dkeys d) →
  (∀ x y, p x = true → p y = true → j x = j y → x.1 = y.1) →
  NoDup ref → (∀ y, y ∈ ref ↔ ∃ x, x ∈ d ∧ p x = true ∧ j x = y) →
  j <$> List.filter p d ≡ₚ ref.
Proof.
  intros Hnd Hinj Hr Hin. apply NoDup_Permutation; [|done|].
  - assert (NoDup d) as Hd by by apply NoDup_fmap_1 in Hnd.
    apply NoDup_fmap_2_strong; [|by apply NoDup_bfilter].
    intros [k v] [k' v'] [Hx Hpx]%elem_of_bfilter [Hy Hpy]%elem_of_bfilter Hj.
    pose proof (Hinj _ _ Hpx Hpy Hj) as Hk. cbn in Hk. subst k'.
    f_equal. apply elem_dget in Hx, Hy; [|done..]. congruence.
  - intros y. rewrite Hin, list_elem_of_fmap. split.
    + intros (x & -> & [? ?]%elem_of_bfilter). eauto.
    + intros (x & ? & ? & <-). exists x. split; [done|]. by apply elem_of_bfilter.
Qed.

Section computes.
Context (registry : string → option Benchmark) (rows : list Scored).

Lemma elem_of_groups k v :
  (k, v) ∈ groups rows ↔
  having group_key k rows ≠ [] ∧ v = grouped (λ r : Scored, version_of r.1) snd (having group_key k rows).
Proof. unfold groups. apply elem_of_accumulate. Qed.

Lemma having_nonempty {K X} `{!EqDecision K} (key : X → K) k (l : list X) :
  having key k l ≠ [] ↔ ∃ x, x ∈ l ∧ key x = k.
Proof.
  split.
  - intros H. destruct (having key k l) as [|x xs] eqn:E; [done|].
    exists x. apply elem_of_having. rewrite E. left.
  - intros (x & Hx) E. assert (x ∈ having key k l) as H by by apply elem_of_having.
    rewrite E in H. by apply elem_of_nil in H.
Qed.

Lemma bench_values cid bid :
  (λ g, collapse g.2) <$> having bench_key (cid, bid) (groups rows)
  ≈ (ref_source rows cid bid <$> ref_sources rows cid bid).
Proof.
  trans ((λ g, ref_source rows cid bid g.1.2) <$> having bench_key (cid, bid) (groups rows)).
  - apply bag_fmap. intros [ [ [c b] s] v] [Hin Hk]%elem_of_having. cbn in Hk. simplify_eq.
    apply elem_of_groups in Hin as [_ ->]. apply collapse_ref.
  - trans (ref_source rows cid bid <$> ((λ g, g.1.2) <$> having bench_key (cid, bid) (groups rows)));
      [by rewrite <- list_fmap_compose|]. apply bag_perm, fmap_Permutation.
    apply dict_part.
    + apply NoDup_accumulate.
    + intros [ [ [? ?] ?] ?] [ [ [? ?] ?] ?]. cbn. rewrite !bool_decide_eq_true. intros. by simplify_eq.
    + apply NoDup_remove_dups.
    + intros s. unfold ref_sources. rewrite elem_of_remove_dups, list_elem_of_fmap. split.
      * intros (r & -> & [Hr Hk]%elem_of_having). injection Hk as Hc Hb.
        exists (cid, bid, f_source r.1, grouped (λ r : Scored, version_of r.1) snd
                  (having group_key (cid, bid, f_source r.1) rows)).
        split; [|split; [by apply bool_decide_eq_true|done] ].
        apply elem_of_groups. split; [|done]. apply having_nonempty. exists r.
        split; [done|]. unfold group_key. by rewrite Hc, Hb.
      * intros ([ [ [c b] s'] v] & [Hne _]%elem_of_groups & Hk%bool_decide_eq_true & <-).
        cbn in Hk. simplify_eq. apply having_nonempty in Hne as (r & Hr & Hk).
        unfold group_key in Hk. simplify_eq. exists r. split; [done|]. by apply elem_of_having.
Qed.

Lemma elem_of_per_bench p :
  p ∈ per_bench (groups rows) →
  (∃ r, r ∈ rows ∧ f_canonical r.1 = p.1.1 ∧ f_bench r.1 = p.1.2) ∧ mean p.2 == ref_bench rows p.1.1 p.1.2.
Proof.
  destruct p as [ [cid bid] vs]. intros [Hne ->]%elem_of_grouped. split.
  - apply having_nonempty in Hne as ([ [ [c b] s] v] & [Hne _]%elem_of_groups & Hk). cbn in Hk. simplify_eq.
    apply having_nonempty in Hne as (r & Hr & Hk). unfold group_key in Hk. simplify_eq. eauto.
  - apply mean_bag, bench_values.
Qed.

Lemma per_bench_complete r :
  r ∈ rows → ∃ vs, (f_canonical r.1, f_bench r.1, vs) ∈ per_bench (groups rows).
Proof.
  intros Hr. eexists. apply elem_of_grouped. split; [|reflexivity].
  apply having_nonempty. exists (group_key r, grouped (λ r : Scored, version_of r.1) snd
                                   (having group_key (group_key r) rows)).
  split; [|done]. apply elem_of_groups. split; [|done]. apply having_nonempty. eauto.
Qed.

(** The values of one category of one model, as the second loop collects them. *)
Definition collected (cid cat : string) : list Q :=
  (λ p, mean p.2) <$>
  List.filter (λ p, (p.1.1 ≡? cid) && in_category registry cat p.1.2) (per_bench (groups rows)).

Lemma collected_ref cid cat : collected cid cat ≈ ref_category registry rows cid cat.
Proof.
  unfold collected, ref_category. set (P := λ p, (p.1.1 ≡? cid) && in_category registry cat p.1.2).
  trans ((λ p, ref_bench rows cid p.1.2) <$> List.filter P (per_bench (groups rows))).
  - apply bag_fmap. intros p [Hp HP]%elem_of_bfilter. unfold P in HP. bool_to_prop.
    destruct (elem_of_per_bench p Hp) as [_ Hm]. by subst cid.
  - trans (ref_bench rows cid <$> ((λ p, p.1.2) <$> List.filter P (per_bench (groups rows))));
      [by rewrite <- list_fmap_compose|].
    apply bag_perm, fmap_Permutation. apply dict_part.
    + apply NoDup_grouped.
    + intros [ [? ?] ?] [ [? ?] ?]. unfold P. cbn. intros. bool_to_prop. by simplify_eq.
    + apply NoDup_bfilter, NoDup_remove_dups.
    + intros bid. unfold ref_benches. rewrite elem_of_bfilter, elem_of_remove_dups, list_elem_of_fmap. split.
      * intros [ (r & -> & [Hr Hc]%elem_of_having) Hcat].
        destruct (per_bench_complete r Hr) as (vs & Hvs). eexists. split; [exact Hvs|].
        unfold P. cbn. rewrite Hcat, Hc. by rewrite bool_decide_true.
      * intros (p & Hp & HP & <-). unfold P in HP. bool_to_prop. split; [|done].
        destruct (elem_of_per_bench p Hp) as [(r & Hr & Hc & Hb) _].
        exists r. split; [done|]. apply elem_of_having. by rewrite Hc.
Qed.
End computes.

(** *** The categories of a model *)

Section categories.
Context (registry : string → option Benchmark) (rows : list Scored).
#[local] Abbreviation ps := (per_bench (groups rows)).
#[local] Abbreviation crows := (omap (categorized registry) ps).

Lemma collected_rows cid cat :
  snd <$> having (λ r : string * string * Q, r.1.2) cat (having (λ r : string * string * Q, r.1.1) cid crows)
  = collected registry rows cid cat.
Proof.
  unfold collected. generalize ps as l. induction l as [|[ [c b] vs] l IH]; [done|].
  unfold having, in_category in *. cbn [omap list_omap]. unfold categorized at 1. cbn [fst snd List.filter].
  destruct (registry b) as [bm|]; cbn [List.filter fst snd]; [|rewrite andb_false_r; exact IH].
  case_bool_decide; cbn [andb]; [|done].
  cbn [List.filter fst snd]. case_bool_decide; cbn [fmap list_fmap snd]; [f_equal|]; exact IH.
Qed.

Lemma elem_of_crows cid cat :
  (∃ r, r ∈ crows ∧ r.1.1 = cid ∧ r.1.2 = cat) ↔ cat ∈ ref_categories registry rows cid.
Proof.
  unfold ref_categories. rewrite elem_of_remove_dups, list_elem_of_omap. split.
  - intros ([ [c k] q] & (p & Hp & Hc)%list_elem_of_omap & <- & <-). unfold categorized in Hc.
    destruct (registry p.1.2) as [b|] eqn:Eb; [|done]. simplify_eq.
    destruct (elem_of_per_bench rows p Hp) as [(r & Hr & Hrc & Hrb) _].
    exists p.1.2. rewrite Eb. split; [|done]. unfold ref_benches.
    rewrite elem_of_remove_dups, list_elem_of_fmap. exists r. split; [done|]. by apply elem_of_having.
  - intros (bid & Hb & Hcat). unfold ref_benches in Hb.
    rewrite elem_of_remove_dups, list_elem_of_fmap in Hb. destruct Hb as (r & -> & [Hr Hc]%elem_of_having).
    destruct (registry (f_bench r.1)) as [b|] eqn:Eb; [|done]. injection Hcat as <-.
    destruct (per_bench_complete rows r Hr) as (vs & Hvs).
    exists (f_canonical r.1, b_category b, mean vs). split; [|by rewrite Hc].
    apply list_elem_of_omap. eexists. split; [exact Hvs|]. unfold categorized. cbn. by rewrite Eb.
Qed.

(** What the dict of categories holds for a model, in terms of the reference. *)
Record by_category_of (cid : string) (by_cat : list (string * list Q)) : Prop := {
  bc_nodup : NoDup (dkeys by_cat);
  bc_keys : dkeys by_cat ≡ₚ ref_categories registry rows cid;
  bc_vals k vs : (k, vs) ∈ by_cat → vs ≠ [] ∧ vs ≈ ref_category registry rows cid k;
}.

Lemma cats_entry cid :
  match dget (cats registry ps) cid with
  | None => ref_categories registry rows cid = []
  | Some by_cat => by_cat ≠ [] ∧ by_category_of cid by_cat
  end.
Proof.
  unfold cats. rewrite dget_accumulate.
  set (hs := having (λ r : string * string * Q, r.1.1) cid crows).
  assert (∀ cat, cat ∈ ref_categories registry rows cid ↔ ∃ r, r ∈ hs ∧ r.1.2 = cat) as Hcat.
  { intros cat. rewrite <- elem_of_crows. unfold hs. setoid_rewrite elem_of_having. naive_solver. }
  destruct hs as [|h hs'] eqn:Eh.
  - destruct (ref_categories registry rows cid) as [|c l]; [done|].
    destruct (proj1 (Hcat c)) as (r & Hr & _); [left|by apply elem_of_nil in Hr].
  - rewrite <- Eh in *. change (fold_left _ hs []) with (grouped (λ r : string * string * Q, r.1.2) snd hs). split.
    + intros E. assert (h.1.2 ∈ dkeys (grouped (λ r : string * string * Q, r.1.2) snd hs)) as Hk.
      { apply elem_of_grouped_keys. exists h. rewrite Eh. split; [left|done]. }
      rewrite E in Hk. by apply elem_of_nil in Hk.
    + constructor.
      * apply NoDup_grouped.
      * apply NoDup_Permutation; [apply NoDup_grouped|apply NoDup_remove_dups|].
        intros c. rewrite elem_of_grouped_keys. symmetry. apply Hcat.
      * intros k vs [Hne ->]%elem_of_grouped. split.
        { intros E. by apply fmap_nil_inv in E. }
        unfold hs. rewrite collected_rows. apply collected_ref.
Qed.
End categories.

(** *** The scores *)

Lemma dget_fmap_snd {V W} (g : V → W) (d : list (string * V)) k :
  dget ((λ c : string * V, (c.1, g c.2)) <$> d) k = g <$> dget d k.
Proof. induction d as [|[k' v] d IH]; cbn; [done|]. by destruct (decide (k = k')). Qed.

Lemma dget_aggregate registry incl facts cid :
  dget (aggregate registry incl facts) cid =
  cat_map <$> dget (cats registry (per_bench (groups (normalized (quality_facts incl facts))))) cid.
Proof. apply dget_fmap_snd. Qed.

Lemma dget_cat_map by_cat k :
  k ≠ "code" → k ≠ "general" → dget (cat_map by_cat) k = cat_score <$> dget by_cat k.
Proof.
  intros Hc Hg. unfold cat_map. rewrite dget_dset_ne by done.
  destruct (dget _ "coding"); [rewrite dget_dset_ne by done|]; apply dget_fmap_snd.
Qed.

Lemma dget_cat_map_code by_cat :
  "code" ∉ dkeys by_cat → dget (cat_map by_cat) "code" = dget (cat_map by_cat) "coding".
Proof.
  intros Hn. rewrite (dget_cat_map by_cat "coding") by done.
  unfold cat_map. rewrite dget_dset_ne by done. rewrite !dget_fmap_snd.
  destruct (dget by_cat "coding") as [v|]; cbn [fmap option_fmap option_map]; [by rewrite dget_dset_eq|].
  rewrite dget_fmap_snd. by rewrite (proj2 (dget_none by_cat "code") Hn).
Qed.

Lemma dget_cat_map_general by_cat :
  dget (cat_map by_cat) "general" =
  Some {| cs_score := mean ((λ c : string * list Q, mean c.2) <$> by_cat); cs_n := length by_cat |}.
Proof.
  unfold cat_map. rewrite dget_dset_eq. do 2 f_equal.
  - by rewrite <- !list_fmap_compose.
  - by rewrite !length_fmap.
Qed.

(** A stored score is the mean of some values, and their number; no score, no values. *)
Definition score_is (o : option CatScore) (vs : list Q) : Prop :=
  match o with
  | Some s => vs ≠ [] ∧ cs_n s = length vs ∧ cs_score s == mean vs
  | None => vs = []
  end.

Lemma score_is_bag vs vs' : vs ≠ [] → vs ≈ vs' → score_is (Some (cat_score vs)) vs'.
Proof.
  intros Hne H. repeat split; cbn.
  - intros ->. apply length_bag in H. by destruct vs.
  - by rewrite H.
  - by apply mean_bag.
Qed.

(** The two keys the loop adds itself, so no catalogued category may be called that. *)
Definition LEGACY : list string := ["code"; "general"].

Section aggregate.
Context (registry : string → option Benchmark) (incl : bool) (facts : list Fact).
Hypothesis categories_ok : ∀ i b, registry i = Some b → b_category b ∉ LEGACY.
#[local] Abbreviation rows := (normalized (quality_facts incl facts)).

Lemma ref_category_nil cid cat :
  cat ∉ ref_categories registry rows cid → ref_category registry rows cid cat = [].
Proof.
  intros Hn. unfold ref_category. destruct (List.filter _ _) as [|b bs] eqn:E; [done|].
  exfalso. apply Hn. assert (b ∈ List.filter (in_category registry cat) (ref_benches rows cid)) as Hb
    by (rewrite E; left).
  apply elem_of_bfilter in Hb as [Hb Hc]. unfold in_category in Hc. unfold ref_categories.
  rewrite elem_of_remove_dups, list_elem_of_omap. exists b. split; [done|].
  destruct (registry b); [|done]. by apply bool_decide_eq_true in Hc as ->.
Qed.

Lemma ref_categories_legacy cid : ∀ cat, cat ∈ ref_categories registry rows cid → cat ∉ LEGACY.
Proof using categories_ok.
  intros cat. unfold ref_categories. rewrite elem_of_remove_dups, list_elem_of_omap.
  intros (bid & _ & H). destruct (registry bid) as [b|] eqn:E; [|done]. injection H as <-. eauto.
Qed.

(** C36: [aggregate] is the reference computation: a model is scored exactly when it has a
    fact of quality on a catalogued benchmark; each category score is the mean, over the
    benchmarks of the category, of the mean over the sources of the default run (the median
    of the tiers when there is none), with the number of benchmarks; [code] is [coding] and
    [general] the mean over the categories present. *)
Theorem aggregate_exact cid :
  match dget (aggregate registry incl facts) cid with
  | None => ref_categories registry rows cid = []
  | Some m =>
      ref_categories registry rows cid ≠ [] ∧
      (∀ cat, cat ∉ LEGACY → score_is (dget m cat) (ref_category registry rows cid cat)) ∧
      dget m "code" = dget m "coding" ∧
      score_is (dget m "general")
               ((λ cat, mean (ref_category registry rows cid cat)) <$> ref_categories registry rows cid)
  end.
Proof using categories_ok.
  rewrite dget_aggregate. pose proof (cats_entry registry rows cid) as He.
  destruct (dget (cats _ _) cid) as [by_cat|]; cbn [fmap option_fmap option_map]; [|done].
  destruct He as [Hne [Hnd Hk Hv]]. split_and!.
  - intros E. rewrite E in Hk. apply Permutation_nil_r in Hk. by apply fmap_nil_inv in Hk.
  - intros cat Hl. rewrite dget_cat_map by (intros ->; apply Hl; by literal).
    destruct (dget by_cat cat) as [vs|] eqn:E; cbn.
    + apply dget_elem, Hv in E as [? ?]. by apply score_is_bag.
    + apply ref_category_nil. rewrite <- Hk. by apply dget_none.
  - apply dget_cat_map_code. rewrite Hk. intros H%ref_categories_legacy. apply H. by literal.
  - rewrite dget_cat_map_general. cbn [score_is cs_n cs_score]. split_and!.
    + intros E%fmap_nil_inv. rewrite E in Hk. apply Permutation_nil_r in Hk. by apply fmap_nil_inv in Hk.
    + rewrite length_fmap, <- Hk. unfold dkeys. by rewrite length_fmap.
    + apply mean_bag.
      trans ((λ cat, mean (ref_category registry rows cid cat)) <$> dkeys by_cat).
      * unfold dkeys. rewrite <- list_fmap_compose. apply bag_fmap.
        intros [k vs] [_ H]%Hv. cbn. by apply mean_bag.
      * by apply bag_perm, fmap_Permutation.
Qed.
End aggregate.

(** ** Bounds *)

Lemma bag_unit l l' : l ≈ l' → Forall unit_q l → Forall unit_q l'.
Proof.
  induction 1 as [|x y l l' Hxy _ IH|x y l|l l' l'' _ IH1 _ IH2]; intros H; auto.
  - apply Forall_cons in H as [ [? ?] ?]. apply Forall_cons. split; [split; lra|auto].
  - by rewrite !Forall_cons in *; naive_solver.
Qed.

Lemma normalized_unit facts : Forall (λ r : Scored, unit_q r.2) (normalized facts).
Proof.
  apply Forall_forall. intros r (f & _ & H)%list_elem_of_omap.
  destruct (norm_fact f _) as [n|] eqn:E; [|done]. injection H as <-. by apply norm_fact_unit in E.
Qed.

Lemma having_unit (key : Scored → string * string * string) k rows :
  Forall (λ r : Scored, unit_q r.2) rows → Forall unit_q (having key k rows).*2.
Proof.
  rewrite !Forall_forall. intros H q (r & -> & [Hr _]%elem_of_having)%list_elem_of_fmap. auto.
Qed.

Lemma ref_source_unit rows cid bid src :
  Forall (λ r : Scored, unit_q r.2) rows → unit_q (ref_source rows cid bid src).
Proof.
  intros H. unfold ref_source. destruct (having _ "" _) as [|d ds] eqn:E.
  - by apply median_unit, having_unit.
  - apply mean_unit; [done|]. rewrite <- E. apply Forall_forall.
    intros q (r & -> & [Hr _]%elem_of_having)%list_elem_of_fmap. apply elem_of_having in Hr as [Hr _].
    rewrite Forall_forall in H. auto.
Qed.

Lemma ref_bench_unit rows cid bid :
  bid ∈ ref_benches rows cid → Forall (λ r : Scored, unit_q r.2) rows → unit_q (ref_bench rows cid bid).
Proof.
  unfold ref_benches. rewrite elem_of_remove_dups, list_elem_of_fmap.
  intros (r & -> & [Hr Hc]%elem_of_having) H. apply mean_unit.
  - intros E%fmap_nil_inv. assert (f_source r.1 ∈ ref_sources rows cid (f_bench r.1)) as Hs.
    { unfold ref_sources. apply elem_of_remove_dups, list_elem_of_fmap. exists r. split; [done|].
      apply elem_of_having. by rewrite Hc. }
    rewrite E in Hs. by apply elem_of_nil in Hs.
  - apply Forall_forall. intros q (s & -> & _)%list_elem_of_fmap. by apply ref_source_unit.
Qed.

(** every score routing reads from [aggregate] lies in the unit interval and rests on at
    least one benchmark, whatever facts the sources sent. *)
Theorem aggregate_bounded registry incl facts cid m cat s :
  (cid, m) ∈ aggregate registry incl facts → (cat, s) ∈ m → unit_q (cs_score s) ∧ (0 < cs_n s)%nat.
Proof.
  intros Hm Hs. unfold aggregate in Hm. apply list_elem_of_fmap in Hm as ([cid' by_cat] & Heq & Hm).
  injection Heq as -> ->. pose proof (cats_entry registry (normalized (quality_facts incl facts)) cid') as He.
  rewrite (elem_dget _ cid' by_cat) in He; [|apply NoDup_accumulate|exact Hm].
  destruct He as [Hne [_ _ Hv]].
  assert (∀ k vs, (k, vs) ∈ by_cat → vs ≠ [] ∧ Forall unit_q vs) as Hall.
  { intros k vs [? Hb]%Hv. split; [done|]. symmetry in Hb. apply (bag_unit _ _ Hb).
    apply Forall_forall. intros q (bid & -> & [? _]%elem_of_bfilter)%list_elem_of_fmap.
    apply ref_bench_unit; [done|]. apply normalized_unit. }
  assert (∀ k c, (k, c) ∈ ((λ c : string * list Q, (c.1, cat_score c.2)) <$> by_cat) →
            unit_q (cs_score c) ∧ (0 < cs_n c)%nat) as Hbase.
  { intros k c ([k' vs] & Hc & [Hvs Hu]%Hall)%list_elem_of_fmap. injection Hc as -> ->. cbn.
    split; [by apply mean_unit|]. destruct vs; [done|cbn; lia]. }
  unfold cat_map in Hs. apply elem_of_dset in Hs as [[_ ->]|Hs].
  - cbn. rewrite !length_fmap. split; [|destruct by_cat; [done|cbn; lia]].
    apply mean_unit; [by intros E%fmap_nil_inv%fmap_nil_inv%fmap_nil_inv|].
    apply Forall_forall. intros q (c & -> & (kc & -> & H)%list_elem_of_fmap)%list_elem_of_fmap.
    by destruct kc; apply Hbase in H as [? _].
  - destruct (dget _ "coding") as [c|] eqn:Ec; [|by apply Hbase in Hs].
    apply elem_of_dset in Hs as [[_ ->]|Hs]; [|by apply Hbase in Hs].
    by apply dget_elem, Hbase in Ec.
Qed.

(** ** The overlay *)

(** One cell of the score table. *)
Definition cell (b : Benchmarks) (m k : string) : option Q := dget (scores (bench_row b m)) k.

Lemma bench_row_update ms m new m' :
  bench_row (update_model ms m new) m' =
  if decide (m' = m)
  then {| scores := dupdate (scores (bench_row ms m)) new; live_price := live_price (bench_row ms m) |}
  else bench_row ms m'.
Proof.
  unfold update_model, bench_row at 1. destruct (decide (m' = m)) as [->|?].
  - by rewrite dget_dset_eq.
  - by rewrite dget_dset_ne.
Qed.

Lemma cell_update ms m new m' k :
  NoDup (dkeys new) →
  cell (update_model ms m new) m' k =
  if decide (m' = m) then dget new k orelse cell ms m' k else cell ms m' k.
Proof.
  intros Hnd. unfold cell. rewrite bench_row_update. destruct (decide (m' = m)) as [->|?]; [|done].
  cbn. by rewrite dget_dupdate.
Qed.

(** The score of a model in the aggregate. *)
Definition agg_cell (agg : list (string * list (string * CatScore))) (c k : string) : option Q :=
  match dget agg c with Some m => cs_score <$> dget m k | None => None end.

(** The scored model a catalog name stands for, when it is another one. *)
Definition bridged (agg : list (string * list (string * CatScore))) (up : string) : option string :=
  match first_such (λ c, norm c ≡? norm up) (dkeys agg) with
  | Some c => if (c ≡? "") || (c ≡? up) then None else Some c
  | None => None
  end.

Lemma cat_map_nodup by_cat : NoDup (dkeys by_cat) → NoDup (dkeys (cat_map by_cat)).
Proof.
  intros H. assert (NoDup (dkeys ((λ c : string * list Q, (c.1, cat_score c.2)) <$> by_cat))) as Hm.
  { unfold dkeys in *. by rewrite <- list_fmap_compose. }
  unfold cat_map. destruct (dget _ "coding"); auto with py.
Qed.

Lemma aggregate_nodup registry incl facts :
  NoDup (dkeys (aggregate registry incl facts)) ∧
  ∀ c m, (c, m) ∈ aggregate registry incl facts → NoDup (dkeys m).
Proof.
  split.
  - unfold aggregate, dkeys. rewrite <- list_fmap_compose. apply NoDup_accumulate.
  - intros c m ([c' by_cat] & Heq & Hin)%list_elem_of_fmap. injection Heq as -> ->.
    apply cat_map_nodup. unfold cats in Hin. apply elem_of_accumulate in Hin as [_ ->].
    apply NoDup_accumulate.
Qed.

Section overlay.
Context (agg : list (string * list (string * CatScore))).
Hypothesis agg_nodup : NoDup (dkeys agg).
Hypothesis agg_rows_nodup : ∀ c m, (c, m) ∈ agg → NoDup (dkeys m).

Lemma flat_nodup : NoDup (dkeys (flat agg)) ∧ ∀ c new, (c, new) ∈ flat agg → NoDup (dkeys new).
Proof using agg_nodup agg_rows_nodup.
  split.
  - unfold flat, dkeys. rewrite <- list_fmap_compose. exact agg_nodup.
  - intros c new ([c' m] & Heq & Hin)%list_elem_of_fmap. injection Heq as -> ->.
    unfold dkeys. rewrite <- list_fmap_compose. by eapply agg_rows_nodup.
Qed.

Lemma dget_flat c : dget (flat agg) c =
  match dget agg c with Some m => Some ((λ kv : string * CatScore, (kv.1, cs_score kv.2)) <$> m) | None => None end.
Proof. unfold flat. apply dget_fmap_snd. Qed.

Lemma flat_cell c k :
  match dget (flat agg) c with Some new => dget new k | None => None end = agg_cell agg c k.
Proof.
  rewrite dget_flat. unfold agg_cell. destruct (dget agg c) as [m|]; [|done]. cbn. apply dget_fmap_snd.
Qed.

(** Merging the aggregate onto the loaded table, model by model. *)
Lemma fold_update fl ms up k :
  NoDup (dkeys fl) → (∀ c new, (c, new) ∈ fl → NoDup (dkeys new)) →
  cell (fold_left (λ ms c, update_model ms c.1 c.2) fl ms) up k =
  match dget fl up with Some new => dget new k | None => None end orelse cell ms up k.
Proof.
  revert ms. induction fl as [|[c new] fl IH]; intros ms Hnd Hr; [done|].
  inversion Hnd as [|? ? Hc Hnd']; subst. cbn [fold_left fst snd dget].
  assert (NoDup (dkeys new)) as Hnew by (eapply Hr; left).
  rewrite IH; [|done|intros; eapply Hr; by right].
  rewrite cell_update by done. destruct (decide (up = c)) as [->|?]; [|done].
  rewrite (proj2 (dget_none fl c)) by done. done.
Qed.

Lemma norm_index_lookup cs n : dget (fold_left (λ d c, dsetdefault d (norm c) c) cs []) n
  = first_such (λ c, norm c ≡? n) cs.
Proof.
  induction cs as [|c cs IH] using rev_ind; [done|].
  rewrite fold_left_app. cbn [fold_left]. unfold dsetdefault, dmem in *.
  set (d := fold_left _ cs []) in *.
  assert (first_such (λ c, norm c ≡? n) (cs ++ [c]) =
          first_such (λ c, norm c ≡? n) cs orelse (if norm c ≡? n then Some c else None)) as ->.
  { clear. induction cs as [|x cs IH]; cbn [app List.find]; [by case_bool_decide|]. destruct (norm x ≡? n); [done|exact IH]. }
  rewrite <- IH. destruct (dget d (norm c)) as [x|] eqn:E.
  - destruct (dget d n) eqn:En; [done|]. case_bool_decide; congruence.
  - case_bool_decide as Hn.
    + subst n. by rewrite dget_dset_eq, E.
    + rewrite dget_dset_ne by congruence. by destruct (dget d n).
Qed.

Lemma bridge_eq ms up :
  bridge (flat agg) ms up =
  match bridged agg up with
  | Some c => match dget (flat agg) c with Some new => update_model ms up new | None => ms end
  | None => ms
  end.
Proof.
  unfold bridge, bridged, norm_index. rewrite norm_index_lookup.
  assert (dkeys (flat agg) = dkeys agg) as -> by (unfold flat, dkeys; by rewrite <- list_fmap_compose).
  destruct (first_such _ _) as [c|]; [|done]. by destruct ((c ≡? "") || (c ≡? up)).
Qed.

Definition bridged_cell (up k : string) : option Q :=
  match bridged agg up with Some c => agg_cell agg c k | None => None end.

Lemma cell_bridge ms x up k :
  cell (bridge (flat agg) ms x) up k =
  if decide (up = x) then bridged_cell up k orelse cell ms up k else cell ms up k.
Proof using agg_nodup agg_rows_nodup.
  rewrite bridge_eq. destruct (decide (up = x)) as [->|Hne].
  - unfold bridged_cell. destruct (bridged agg x) as [c|]; [|done]. rewrite <- flat_cell.
    destruct (dget (flat agg) c) as [new|] eqn:Ec; [|done].
    rewrite cell_update by (eapply flat_nodup, dget_elem, Ec). by rewrite decide_True.
  - destruct (bridged agg x) as [c|]; [|done]. destruct (dget (flat agg) c) as [new|] eqn:Ec; [|done].
    rewrite cell_update by (eapply flat_nodup, dget_elem, Ec). by rewrite decide_False.
Qed.

Lemma fold_bridge ups ms up k :
  cell (fold_left (bridge (flat agg)) ups ms) up k =
  if up ∈? ups then bridged_cell up k orelse cell ms up k else cell ms up k.
Proof using agg_nodup agg_rows_nodup.
  revert ms. induction ups as [|x ups IH]; intros ms; [done|]. cbn [fold_left]. rewrite IH, cell_bridge.
  destruct (decide (up = x)) as [->|?].
  - rewrite (bool_decide_true (x ∈ x :: ups)) by left. case_bool_decide; [|done].
    by destruct (bridged_cell x k).
  - case_bool_decide as H1; case_bool_decide as H2; try done;
      exfalso; rewrite elem_of_cons in H2; naive_solver.
Qed.
End overlay.

(** the table routing reads after an overlay: a catalog name that stands for another
    scored model (the first with the same normalized name) takes that model's scores, a
    scored model its own, and everything the aggregate does not speak of keeps the loaded
    value; live prices are never touched. *)
Theorem overlay_exact registry facts fresh ups up k :
  let agg := aggregate registry true facts in
  let models := (overlay registry facts fresh ups).1 in
  cell models up k =
    ((if up ∈? ups then bridged_cell agg up k else None) orelse
     (agg_cell agg up k orelse cell fresh up k)) ∧
  live_price (bench_row models up) = live_price (bench_row fresh up) ∧
  (overlay registry facts fresh ups).2 = length agg.
Proof.
  intros agg models. destruct (aggregate_nodup registry true facts) as [Hnd Hr].
  split; [|split; [|done] ].
  - unfold models, overlay. cbn [fst]. rewrite (fold_bridge agg Hnd Hr).
    destruct (flat_nodup agg Hnd Hr). rewrite fold_update by done. rewrite flat_cell.
    by case_bool_decide.
  - unfold models, overlay. cbn [fst]. clear models.
    assert (∀ l ms, live_price (bench_row (fold_left (bridge (flat agg)) l ms) up)
                    = live_price (bench_row ms up)) as Hb.
    { induction l as [|x l IH]; intros ms; [done|]. cbn [fold_left]. rewrite IH, bridge_eq.
      destruct (bridged agg x) as [c|]; [|done]. destruct (dget (flat agg) c); [|done].
      rewrite bench_row_update. by destruct (decide (up = x)) as [->|?]. }
    rewrite Hb. change (aggregate registry true facts) with agg. clear Hb.
    generalize fresh. induction (flat agg) as [|c l IH]; intros ms; [done|].
    cbn [fold_left]. rewrite IH, bench_row_update. by destruct (decide (up = c.1)) as [->|?].
Qed.

(** ** Witnesses *)

Definition demo_fact (c b s : string) (v : Q) : Fact :=
  {| f_canonical := c; f_bench := b; f_source := s; f_version := None; f_unit := "pct"; f_value := v;
     f_redistributable := None |}.

(** Two sources of one benchmark, a tiered benchmark, a price and an uncatalogued fact. *)
Definition demo_facts : list Fact :=
  [demo_fact "openai/gpt-4o" "swe_bench_verified" "epoch" 40;
   demo_fact "openai/gpt-4o" "swe_bench_verified" "aa" 60;
   {| f_canonical := "openai/gpt-4o"; f_bench := "gpqa_diamond"; f_source := "epoch"; f_version := Some "high";
      f_unit := "pct"; f_value := 80; f_redistributable := Some 0%Z |};
   {| f_canonical := "openai/gpt-4o"; f_bench := "tokens_per_second"; f_source := "aa"; f_version := None;
      f_unit := "tok_s"; f_value := 90; f_redistributable := None |};
   demo_fact "openai/gpt-4o" "unheard_of" "aa" 99].

Lemma registry_categories i b : registry_get i = Some b → b_category b ∉ LEGACY.
Proof.
  intros H%dget_elem. destruct registry_well_formed as (_ & _ & Hw).
  destruct (Hw i b H) as (_ & Hc & _). intros Hl. unfold LEGACY in Hl.
  revert Hc. generalize dependent (b_category b). intros c Hl. each Hl by (intros Hc; vm_compute in Hc;
    repeat (apply elem_of_cons in Hc as [Hc|Hc]; [discriminate Hc|]); by apply elem_of_nil in Hc).
Qed.

Lemma aggregate_exact_witness :
  dmem (aggregate registry_get true demo_facts) "openai/gpt-4o" = true ∧
  let rows := normalized (quality_facts true demo_facts) in
  match dget (aggregate registry_get true demo_facts) "openai/gpt-4o" with
  | None => ref_categories registry_get rows "openai/gpt-4o" = []
  | Some m =>
      ref_categories registry_get rows "openai/gpt-4o" ≠ [] ∧
      (∀ cat, cat ∉ LEGACY → score_is (dget m cat) (ref_category registry_get rows "openai/gpt-4o" cat)) ∧
      dget m "code" = dget m "coding" ∧
      score_is (dget m "general")
        ((λ cat, mean (ref_category registry_get rows "openai/gpt-4o" cat))
         <$> ref_categories registry_get rows "openai/gpt-4o")
  end.
Proof.
  split; [vm_compute; reflexivity|].
  exact (aggregate_exact registry_get true demo_facts registry_categories "openai/gpt-4o").
Defined.

(** The two sources average to 50%, the tiers of the other benchmark stand at 80%. *)
Example demo_scores :
  (λ c : string * list (string * CatScore), (c.1, (λ s, (s.1, Qred (cs_score s.2), cs_n s.2)) <$> c.2))
    <$> aggregate registry_get true demo_facts
  = [("openai/gpt-4o", [("coding", 1 # 2, 1%nat); ("reasoning", 4 # 5, 1%nat);
                        ("code", 1 # 2, 1%nat); ("general", 13 # 20, 2%nat)])].
Proof. vm_compute. reflexivity. Qed.

Lemma aggregate_bounded_witness :
  unit_q (cs_score (cat_score [50 # 100])) ∧ (0 < cs_n (cat_score [50 # 100]))%nat.
Proof.
  apply (aggregate_bounded registry_get true [demo_fact "m" "swe_bench_verified" "epoch" 50] "m"
           [("coding", cat_score [50 # 100]); ("code", cat_score [50 # 100]); ("general", cat_score [50 # 100])]
           "coding").
  - vm_compute. left.
  - left.
Defined.
