(* ===== verification/Labels.v ===== *)
(** * Label bindings ([routing/labels.py])

    The routing table from classifier labels to catalog entries, and the boot-time check
    that refuses a table binding an unknown or fake entry. *)

From S2P Require Import Prelude PyStr PyDict Catalog Identity Policy.

(** One row of [labels.yaml]. *)
Record LabelRow := {
  l_model : option string;
  l_desc : option string;
  l_category : option string;
}.

(** [LabelBindings.labels]; a row may be null. *)
Abbreviation LabelBindings := (list (string * option LabelRow)).

Definition label_row (b : LabelBindings) (label : string) : option LabelRow :=
  match dget b label with Some r => r | None => None end.

Definition vocab (b : LabelBindings) : list string := sorted_strs (dkeys b).

Definition model_for (b : LabelBindings) (label : string) : option string :=
  match label_row b label with Some r => nonempty (l_model r) | None => None end.

Definition category_for (b : LabelBindings) (label : string) : option string :=
  match label_row b label with Some r => nonempty (l_category r) | None => None end.

(** What [validate] says of one row: nothing when its binding is absent or sound. *)
Definition row_problem (c : Catalog) (kv : string * option LabelRow) : option string :=
  match kv.2 with
  | None => None
  | Some r =>
      match l_model r with
      | None => None
      | Some m =>
          match catalog_get c m with
          | None => Some ("label " +:+ repr kv.1 +:+ " binds unknown catalog id " +:+ repr m)
          | Some e => if endpoint e ≡? "fake"
                      then Some ("label " +:+ repr kv.1 +:+ " binds fake-lane entry " +:+ repr m)
                      else None
          end
      end
  end.

Definition validate (b : LabelBindings) (c : Catalog) : list string := omap (row_problem c) b.

(** ** Facts *)

Lemma model_for_some b label m :
  model_for b label = Some m →
  m ≠ "" ∧ ∃ r, (label, Some r) ∈ b ∧ l_model r = Some m.
Proof.
  unfold model_for, label_row, nonempty. destruct (dget b label) as [[r|]|] eqn:E; [|done..].
  destruct (l_model r) as [s|] eqn:Em; [|done]. case_bool_decide; [done|]. intros [= ->].
  split; [done|]. exists r. split; [by apply dget_elem|done].
Qed.

(** A table that passes the boot check binds only real catalog entries: every label
    the router can look up resolves to a present, non-fake entry. *)
Theorem validate_clean b c label m :
  validate b c = [] → model_for b label = Some m →
  ∃ e, catalog_get c m = Some e ∧ endpoint e ≠ "fake".
Proof.
  intros Hv (Hne & r & Hin & Hr)%model_for_some.
  assert (row_problem c (label, Some r) = None) as Hp.
  { destruct (row_problem c (label, Some r)) as [p|] eqn:E; [|done].
    assert (p ∈ validate b c) as Hp by (apply list_elem_of_omap; eauto).
    rewrite Hv in Hp. by apply elem_of_nil in Hp. }
  unfold row_problem in Hp. cbn in Hp. rewrite Hr in Hp.
  destruct (catalog_get c m) as [e|]; [|done]. exists e. split; [done|].
  by case_bool_decide.
Qed.

Lemma elem_of_vocab b label : label ∈ vocab b ↔ label ∈ dkeys b.
Proof. apply elem_of_sorted_strs. Qed.

(** ** Witness *)

Definition demo_labels : LabelBindings :=
  [("code_generation", Some {| l_model := Some "gpt"; l_desc := None; l_category := Some "coding" |});
   ("other", None)].

Lemma validate_clean_witness : ∃ e, catalog_get demo_catalog "gpt" = Some e ∧ endpoint e ≠ "fake".
Proof. apply (validate_clean demo_labels demo_catalog "code_generation" "gpt"); reflexivity. Defined.
