(* ===== verification/Classify.v ===== *)
(** * The metadata classifier ([driver/classify.py])

    The deterministic decision over a task's structured metadata: tier precedence, the
    benchmark-ranked model inside the tier, the residency rule for private work, and the
    receipts of the alternatives that lost. *)

From S2P Require Import Prelude PyStr PyDict Schemas Catalog Policy Benchmarks.

Definition KNOWN_TOOLS : list string := ["web_search"; "retrieval"; "code_exec"; "filesystem"].

Definition FRONTIER_WORDS : list string :=
  ["analyze"; "compare"; "thesis"; "decompose"; "research"; "synthesize";
   "market"; "valuation"; "forecast"; "moat"; "evaluate"; "assess";
   "dcf"; "memo"; "diligence"; "strategy"; "recommendation"; "projection"; "outlook"].

Definition ECONOMY_WORDS : list string :=
  ["grep"; "redact"; "classify"; "extract"; "lookup"; "format"; "tag";
   "dedupe"; "mask"; "scrub"; "parse"; "convert"; "sort"; "count"; "filter"].

Definition CODE_WORDS : list string :=
  ["code"; "sql"; "regex"; "script"; "refactor"; "debug"; "python"; "function";
   "parse"; "query"; "grep"; "test"; "compile"].

(** One receipt of a lost alternative. *)
Record Rejected := { rej_model : string; rej_reason : string }.

Record TaskDecision := {
  td_lane : Lane;
  tools_required : list string;
  td_model_id : string;
  td_reason : string;
  td_skill : string;
  rejected : list Rejected;
}.

(** ** Reading LLM-produced metadata *)

(** [for x in v] over a decoded JSON value: strings iterate their characters, mappings
    their keys; anything else raises [TypeError]. *)
Fixpoint str_chars (s : string) : list json :=
  match s with EmptyString => [] | String c s => JStr (String c "") :: str_chars s end.

Definition iter_json (v : json) : res string (list json) :=
  match v with
  | JList l => Ok l
  | JStr s => Ok (str_chars s)
  | JObj d => Ok (JStr ∘ fst <$> d)
  | v => Err (repr (type_name v) +:+ " object is not iterable")
  end.

(** [[x for x in (d.get(key) or [])]] *)
Definition iter_field (d : list (string * json)) (key : string) : res string (list json) :=
  match dget d key with
  | Some v => if truthy v then iter_json v else Ok []
  | None => Ok []
  end.

(** [str(d.get(key, ""))] *)
Definition str_field (d : list (string * json)) (key : string) : string :=
  match dget d key with Some v => json_str v | None => "" end.

Definition is_alnum (c : ascii) : bool := is_lower c || is_digit c.

(** [re.findall(r"[a-z0-9]+", s)] *)
Fixpoint tokens_from (cur : string) (s : string) : list string :=
  match s with
  | EmptyString => if cur ≡? "" then [] else [cur]
  | String c s =>
      if is_alnum c then tokens_from (cur +:+ String c "") s
      else if cur ≡? "" then tokens_from "" s else cur :: tokens_from "" s
  end.

(** [_words] *)
Definition words (metadata : list (string * json)) : res string (list string) :=
  try! kws := iter_field metadata "keywords" in
  let blob := join " " ([str_field metadata "intent"; str_field metadata "scope"]
                        ++ (json_str <$> kws)) in
  Ok (remove_dups (tokens_from "" (lower blob))).

(** [words & vocab] *)
Definition common (ws vocab : list string) : list string := List.filter (λ w, w ∈? vocab) ws.

Definition infer_skill (ws tools : list string) : string :=
  if ("code_exec" ∈? tools) || negb (common ws CODE_WORDS ≡? []) then "code"
  else if negb (common ws FRONTIER_WORDS ≡? []) then "reasoning"
  else "general".

(** ** Picking a model *)

Definition lane_real (c : Catalog) (l : Lane) : list CatalogEntry :=
  List.filter (λ e, (lane e ≡? l) && negb (endpoint e ≡? "fake")) c.

(** [_resolve_model]; [models[0]] of an empty catalog raises [IndexError]. *)
Definition resolve_model (c : Catalog) (l : Lane) (skill : string) (b : Benchmarks)
    (optimize : string) : res string (string * Q) :=
  match best b (lane_real c l) skill optimize with
  | Some pick => Ok (id pick, score b (effective_upstream_model pick) skill)
  | None =>
      match first_such (λ e, lane e ≡? l) c orelse first_such (λ e, negb (endpoint e ≡? "fake")) c with
      | Some e => Ok (id e, 0%Q)
      | None => match c with e :: _ => Ok (id e, 0%Q) | [] => Err "list index out of range" end
      end
  end.

Definition perimeter_real (c : Catalog) : list CatalogEntry :=
  List.filter (λ e, (residency_class e ≡? in_perimeter) && negb (endpoint e ≡? "fake")) c.

(** [_resolve_in_perimeter] *)
Definition resolve_in_perimeter (c : Catalog) (skill : string) (b : Benchmarks)
    (optimize : string) : option (CatalogEntry * Q) :=
  match best b (perimeter_real c) skill optimize with
  | Some pick => Some (pick, score b (effective_upstream_model pick) skill)
  | None => (λ e, (e, 0%Q)) <$> first_such (λ e, residency_class e ≡? in_perimeter) c
  end.

(** [f"{q:.2f}"] *)
Definition fmt2 (q : Q) : string :=
  let n := Z.abs_nat (round_half_even (q * 100)) in
  (if Qltb q 0 then "-" else "") +:+ str_of_nat (n / 100) +:+ "."
  +:+ String (digit_char (n / 10 mod 10)) (String (digit_char (n mod 10)) "").

(** [_bench_losers]: the sort is stable, so ties stay in catalog order. *)
Definition bench_losers (c : Catalog) (l : Lane) (skill : string) (b : Benchmarks)
    (optimize winner : string) (winner_score : Q) : list Rejected :=
  match b with
  | [] => []
  | _ =>
      let losers := List.filter (λ e, negb (id e ≡? winner)) (lane_real c l) in
      let ranked := sort_by (λ x y, Qleb y.1 x.1)
                            ((λ e, (score b (effective_upstream_model e) skill, id e)) <$> losers) in
      (λ t, {| rej_model := t.2;
               rej_reason := "lost on benchmark score (" +:+ skill +:+ "=" +:+ fmt2 t.1
                             +:+ " < winner " +:+ fmt2 winner_score +:+ ") under optimize="
                             +:+ optimize |}) <$> firstn 3 ranked
  end.

(** ** The decision *)

(** [requires.get("optimize") or optimize], then the default for anything unknown. *)
Definition pick_optimize (requires : list (string * json)) (optimize : option string) : string :=
  let v := match dget requires "optimize" with
           | Some v => if truthy v then Some v else None
           | None => None
           end in
  let v := match v with
           | Some (JStr s) => Some s
           | Some _ => Some ""
           | None => optimize
           end in
  match v with Some s => if s ∈? OPTIMIZE then s else "balanced" | None => "balanced" end.

Definition known_tools (tools : list json) : list string :=
  omap (λ t, match t with JStr s => if s ∈? KNOWN_TOOLS then Some s else None | _ => None end) tools.

(** [data_policy in {"local_only", "local"}]: an unhashable value raises [TypeError]. *)
Definition is_private (data_policy : json) : res string bool :=
  match data_policy with
  | JList _ => Err "unhashable type: 'list'"
  | JObj _ => Err "unhashable type: 'dict'"
  | JStr s => Ok ((s ≡? "local_only") || (s ≡? "local"))
  | _ => Ok false
  end.

(** The tier precedence of [classify]: the first matching row wins. *)
Definition tier (private : bool) (data_policy : json) (complexity : json)
    (tools ws : list string) : Lane * string :=
  let eqc s := match complexity with JStr c => c ≡? s | _ => false end in
  if private then
    (economy, "privacy: data_policy=" +:+ json_str data_policy +:+ " pins work in-perimeter")
  else if eqc "high" then (frontier, "frontier: complexity=high")
  else if ("web_search" ∈? tools) || ("retrieval" ∈? tools) then
    (frontier, "frontier: needs web_search/retrieval")
  else if eqc "low" then (economy, "economy: complexity=low")
  else match common ws FRONTIER_WORDS with
       | (_ :: _) as fw =>
           (frontier, "frontier: reasoning/research signal " +:+ repr_list (sorted_strs fw))
       | [] =>
           match common ws ECONOMY_WORDS with
           | (_ :: _) as ew =>
               (economy, "economy: mechanical signal " +:+ repr_list (sorted_strs ew))
           | [] => (economy, "economy: default (cheap-first, no escalation signal)")
           end
       end.

Definition requires_of (metadata : list (string * json)) : list (string * json) :=
  match dget metadata "requires" with Some (JObj d) => d | _ => [] end.

Definition complexity_of (metadata : list (string * json)) : json :=
  match dget metadata "complexity" with
  | Some v => if truthy v then v else JStr "medium"
  | None => JStr "medium"
  end.

Definition no_perimeter_warning : string :=
  "; WARNING: no in-perimeter model available — privacy guarantee cannot be met".

(** The model choice of [classify] once the tier is known. *)
Definition choose (c : Catalog) (b : Benchmarks) (private : bool) (l : Lane) (why skill optimize : string)
    : res string (Lane * string * Q * string * list Rejected) :=
  let in_lane why :=
    try! ms := resolve_model c l skill b optimize in
    Ok (l, ms.1, ms.2, why, bench_losers c l skill b optimize ms.1 ms.2) in
  if private then
    match resolve_in_perimeter c skill b optimize with
    | Some (e, s) => Ok (lane e, id e, s, why, [])
    | None => in_lane (why +:+ no_perimeter_warning)
    end
  else in_lane why.

Definition classify (metadata : list (string * json)) (c : Catalog) (b : Benchmarks)
    (optimize skill : option string) : res string TaskDecision :=
  let requires := requires_of metadata in
  let optimize := pick_optimize requires optimize in
  try! tools := iter_field requires "tools" in
  let tools := known_tools tools in
  try! ws := words metadata in
  let data_policy := match dget requires "data_policy" with Some v => v | None => JNull end in
  try! private := is_private data_policy in
  let '(l, why) := tier private data_policy (complexity_of metadata) tools ws in
  let skill := match skill with
               | Some s => if s ∈? SKILLS then s else infer_skill ws tools
               | None => infer_skill ws tools
               end in
  try! r := choose c b private l why skill optimize in
  let '(l, m, s, why, rej) := r in
  let why := match b with
             | [] => why
             | _ => why +:+ "; bench: skill=" +:+ skill +:+ " optimize=" +:+ optimize +:+ " "
                    +:+ m +:+ "=" +:+ fmt2 s
             end in
  Ok {| td_lane := l; tools_required := tools; td_model_id := m; td_reason := why;
        td_skill := skill; rejected := rej |}.

(** [classify({}, catalog, benchmarks, optimize)], the routing fallback. *)
Definition classify_default (c : Catalog) (b : Benchmarks) (optimize : option string)
    : res string TaskDecision := classify [] c b optimize None.

(** ** Facts *)

Lemma elem_of_lane_real c l e :
  e ∈ lane_real c l ↔ e ∈ c ∧ lane e = l ∧ endpoint e ≠ "fake".
Proof.
  unfold lane_real. rewrite elem_of_bfilter, andb_true_iff, negb_true_iff.
  by rewrite bool_decide_eq_true, bool_decide_eq_false.
Qed.

Lemma elem_of_perimeter_real c e :
  e ∈ perimeter_real c ↔ e ∈ c ∧ residency_class e = in_perimeter ∧ endpoint e ≠ "fake".
Proof.
  unfold perimeter_real. rewrite elem_of_bfilter, andb_true_iff, negb_true_iff.
  by rewrite bool_decide_eq_true, bool_decide_eq_false.
Qed.

(** The in-perimeter pick: present exactly when the catalog has an in-perimeter entry,
    and a real one whenever there is a real one. *)
Lemma resolve_in_perimeter_spec c skill b opt :
  match resolve_in_perimeter c skill b opt with
  | Some (e, _) => e ∈ c ∧ residency_class e = in_perimeter ∧
                   (perimeter_real c ≠ [] → endpoint e ≠ "fake")
  | None => ∀ e, e ∈ c → residency_class e = cloud
  end.
Proof.
  unfold resolve_in_perimeter. destruct (best b (perimeter_real c) skill opt) as [pick|] eqn:E.
  - apply best_elem, elem_of_perimeter_real in E. naive_solver.
  - apply best_none in E. destruct (first_such _ c) as [e|] eqn:F; cbn.
    + apply first_such_some in F as [??]. bool_to_prop. naive_solver.
    + rewrite first_such_none in F. intros e He. specialize (F e He). bool_to_prop.
      by destruct (residency_class e).
Qed.

(** The tier pick: a real entry of the tier whenever there is one, some entry otherwise. *)
Lemma resolve_model_spec c l skill b opt :
  c ≠ [] → ∃ e s, resolve_model c l skill b opt = Ok (id e, s) ∧ e ∈ c ∧
    (lane_real c l ≠ [] → e ∈ lane_real c l).
Proof.
  intros Hc. unfold resolve_model. destruct (best b (lane_real c l) skill opt) as [pick|] eqn:E.
  - apply best_elem in E. exists pick. eexists. split; [done|]. split; [|done].
    by apply elem_of_lane_real in E as [? _].
  - apply best_none in E. rewrite E.
    destruct (first_such (λ e, lane e ≡? l) c) as [e|] eqn:F.
    { apply first_such_some in F as [??]. exists e, 0%Q. done. }
    destruct (first_such (λ e, negb (endpoint e ≡? "fake")) c) as [e|] eqn:G.
    { apply first_such_some in G as [??]. exists e, 0%Q. done. }
    destruct c as [|e c]; [done|]. exists e, 0%Q. split; [done|]. split; [left|done].
Qed.

Lemma choose_spec c b private l why skill opt :
  c ≠ [] → ∃ l' e s why' rej, choose c b private l why skill opt = Ok (l', id e, s, why', rej) ∧
    e ∈ c ∧
    (private = true → (∃ x, x ∈ c ∧ residency_class x = in_perimeter) →
       residency_class e = in_perimeter ∧ l' = lane e ∧ (perimeter_real c ≠ [] → endpoint e ≠ "fake")) ∧
    (private = false → l' = l ∧ (lane_real c l ≠ [] → e ∈ lane_real c l)).
Proof.
  intros Hc. destruct (resolve_model_spec c l skill b opt Hc) as (m & s & Hm & Hin & Hreal).
  unfold choose. destruct private.
  - pose proof (resolve_in_perimeter_spec c skill b opt) as Hp.
    destruct (resolve_in_perimeter c skill b opt) as [[e se]|].
    + exists (lane e), e. eexists _, _, _. split; [reflexivity|]. naive_solver.
    + rewrite Hm. cbn. exists l, m. eexists _, _, _. split; [reflexivity|].
      split; [done|]. split; [|done]. intros _ (x & Hx & Hr). rewrite (Hp x Hx) in Hr. done.
  - rewrite Hm. cbn. exists l, m. eexists _, _, _. split; [reflexivity|]. done.
Qed.

(** Metadata whose list-valued fields are lists and whose [data_policy] is hashable. *)
Definition well_shaped (metadata : list (string * json)) : Prop :=
  is_ok (iter_field (requires_of metadata) "tools") = true ∧
  is_ok (iter_field metadata "keywords") = true ∧
  is_ok (is_private (match dget (requires_of metadata) "data_policy" with
                     | Some v => v | None => JNull end)) = true.

(** Whether [data_policy] pins the task in-perimeter. *)
Definition pinned (metadata : list (string * json)) : bool :=
  match dget (requires_of metadata) "data_policy" with
  | Some (JStr s) => (s ≡? "local_only") || (s ≡? "local")
  | _ => false
  end.

Lemma classify_inv metadata c b opt skill d :
  classify metadata c b opt skill = Ok d →
  ∃ tools ws why skill' l' m s why' rej,
    let t := tier (pinned metadata)
               (match dget (requires_of metadata) "data_policy" with Some v => v | None => JNull end)
               (complexity_of metadata) tools ws in
    words metadata = Ok ws ∧ tools = tools_required d ∧ why = t.2 ∧
    choose c b (pinned metadata) t.1 why skill' (pick_optimize (requires_of metadata) opt)
      = Ok (l', m, s, why', rej) ∧
    td_lane d = l' ∧ td_model_id d = m ∧ rejected d = rej.
Proof.
  unfold classify.
  intros (ts & Ht & (ws & Hws & (p & Hp & H)%res_bind_ok)%res_bind_ok)%res_bind_ok.
  assert (p = pinned metadata) as ->.
  { unfold pinned, is_private in *. destruct (dget (requires_of metadata) "data_policy") as [[]|]; naive_solver. }
  destruct (tier _ _ _ _ _) as [l why] eqn:Et in H.
  apply res_bind_ok in H as ([[[[l' m] s] why'] rej] & Hc & [= <-]).
  eexists (known_tools ts), ws, why, _, l', m, s, why', rej. cbn. rewrite Et. cbn. eauto 10.
Qed.

(** The classifier is total on well-shaped metadata over a non-empty catalog, and
    always names a model of the catalog: junk it can be handed makes it raise, never
    invent an id. *)
Theorem classify_total metadata c b opt skill :
  c ≠ [] → well_shaped metadata →
  ∃ d e, classify metadata c b opt skill = Ok d ∧ e ∈ c ∧ td_model_id d = id e ∧
    ∀ t, t ∈ tools_required d → t ∈ KNOWN_TOOLS.
Proof.
  intros Hc (Ht & Hk & Hp). unfold classify.
  destruct (iter_field (requires_of metadata) "tools") as [ts|]; [|done].
  destruct (is_private _) as [p|]; [|done].
  unfold words. destruct (iter_field metadata "keywords") as [kws|]; [|done]. cbn.
  destruct (tier _ _ _ _ _) as [l why].
  match goal with |- context [choose c b p l why ?sk ?o] =>
    destruct (choose_spec c b p l why sk o Hc) as (l' & e & s & why' & rej & -> & He & _) end.
  cbn. eexists _, e. split; [reflexivity|]. split; [done|]. split; [done|]. cbn.
  intros t (v & _ & Hv)%list_elem_of_omap. destruct v; try done. case_bool_decide; naive_solver.
Qed.

(** Private work stays in-perimeter: when the metadata pins the data policy and the
    catalog has an in-perimeter model, the decision names one — a real one if there is a
    real one — reports its own tier, and lists no cheaper cloud alternative. *)
Theorem classify_private metadata c b opt skill d x :
  NoDup (id <$> c) → pinned metadata = true → x ∈ c → residency_class x = in_perimeter →
  classify metadata c b opt skill = Ok d →
  ∃ e, catalog_get c (td_model_id d) = Some e ∧ residency_class e = in_perimeter ∧
    td_lane d = lane e ∧ (endpoint x ≠ "fake" → endpoint e ≠ "fake").
Proof.
  intros Hnd Hpin Hx Hr (ts & ws & why & sk & l' & m & s & why' & rej & _ & _ & _ & Hch & Hl & Hm & Hj)%classify_inv.
  rewrite Hpin in Hch. assert (c ≠ []) as Hc by (intros ->; by apply elem_of_nil in Hx).
  edestruct (choose_spec c b true) as (l2 & e & s2 & w2 & r2 & Hch2 & He & Hpriv & _); [done|].
  rewrite Hch in Hch2. injection Hch2 as -> -> _ _ _.
  destruct Hpriv as (Her & -> & Hf); [done|eauto|]. exists e. rewrite Hm.
  split; [by apply catalog_get_nodup|]. split; [done|]. split; [done|]. intros Hfx. apply Hf.
  intros Hnil. assert (x ∈ perimeter_real c) as Hxp by (by apply elem_of_perimeter_real).
  rewrite Hnil in Hxp. by apply elem_of_nil in Hxp.
Qed.

(** Otherwise the tier decides: the named model is a real entry of the reported tier
    whenever the catalog has one, and that tier is the first matching row of the
    precedence — a high complexity or a research tool outranks "low", which outranks
    every keyword. *)
Theorem classify_tier metadata c b opt skill d :
  pinned metadata = false → classify metadata c b opt skill = Ok d →
  (complexity_of metadata = JStr "high" → td_lane d = frontier) ∧
  ("web_search" ∈ tools_required d ∨ "retrieval" ∈ tools_required d → td_lane d = frontier) ∧
  (complexity_of metadata = JStr "low" → "web_search" ∉ tools_required d →
     "retrieval" ∉ tools_required d → td_lane d = economy) ∧
  (lane_real c (td_lane d) ≠ [] → ∃ e, e ∈ lane_real c (td_lane d) ∧ td_model_id d = id e).
Proof.
  intros Hpin (ts & ws & why & sk & l' & m & s & why' & rej & Hws & Hts & Hwhy & Hch & Hl & Hm & Hj)%classify_inv.
  rewrite Hpin in Hch, Hwhy. rewrite <- Hts. clear Hts.
  assert (c ≠ []) as Hc.
  { intros ->. unfold choose, resolve_model in Hch. by destruct b. }
  edestruct (choose_spec c b false) as (l2 & e & s2 & w2 & r2 & Hch2 & He & _ & Hlane); [done|].
  rewrite Hch in Hch2. injection Hch2 as Hl2 Hm2 _ _ _. destruct Hlane as [Hl3 Hreal]; [done|].
  rewrite Hl, Hl2, Hl3, Hm, Hm2. clear Hch Hl Hl2 Hm Hm2 Hwhy. unfold tier. split; [|split; [|split]].
  - by intros ->.
  - intros Hor.
    assert (("web_search" ∈? ts) || ("retrieval" ∈? ts) = true) as ->.
    { apply orb_true_iff. by rewrite !bool_decide_eq_true. }
    cbn. by repeat case_match.
  - intros -> Hw Hr. cbn. by rewrite (bool_decide_eq_false_2 _ Hw), (bool_decide_eq_false_2 _ Hr).
  - intros Hne. exists e. split; [|done]. auto.
Qed.

(** The receipts are honest: at most three, each another real entry of the tier,
    never the winner. *)
Theorem bench_losers_sound c l skill b opt w ws r :
  r ∈ bench_losers c l skill b opt w ws →
  length (bench_losers c l skill b opt w ws) ≤ 3 ∧ rej_model r ≠ w ∧
  ∃ e, e ∈ c ∧ lane e = l ∧ endpoint e ≠ "fake" ∧ rej_model r = id e.
Proof.
  unfold bench_losers. destruct b as [|row b]; [by intros ?%elem_of_nil|].
  set (ranked := sort_by _ _). intros Hr. split; [rewrite length_fmap, length_firstn; lia|].
  apply list_elem_of_fmap in Hr as (t & -> & Ht). cbn.
  assert (t ∈ ranked) as Hin by (rewrite <- (take_drop 3 ranked), elem_of_app; by left).
  apply elem_of_sort_by, list_elem_of_fmap in Hin as (e & -> & [He Hne]%elem_of_bfilter). cbn.
  bool_to_prop. apply elem_of_lane_real in He as (? & ? & ?). eauto 10.
Qed.

(** ** Witnesses *)

Definition demo_meta : list (string * json) :=
  [("intent", JStr "redact memo"); ("requires", JObj [("data_policy", JStr "local_only")])].

Definition demo_high : list (string * json) :=
  [("complexity", JStr "high"); ("requires", JObj [("tools", JList [JStr "retrieval"])])].

Definition demo_td (m : list (string * json)) : TaskDecision :=
  match classify m demo_catalog demo_bench None None with
  | Ok d => d
  | Err _ => {| td_lane := fake; tools_required := []; td_model_id := ""; td_reason := "";
                td_skill := ""; rejected := [] |}
  end.

Lemma classify_total_witness :
  ∃ d e, classify demo_high demo_catalog demo_bench None None = Ok d ∧ e ∈ demo_catalog ∧
    td_model_id d = id e ∧ ∀ t, t ∈ tools_required d → t ∈ KNOWN_TOOLS.
Proof. apply (classify_total demo_high demo_catalog demo_bench None None); [done|by vm_compute]. Defined.

Lemma classify_private_witness :
  ∃ e, catalog_get demo_catalog (td_model_id (demo_td demo_meta)) = Some e ∧
    residency_class e = in_perimeter ∧ td_lane (demo_td demo_meta) = lane e ∧
    (endpoint demo_local ≠ "fake" → endpoint e ≠ "fake").
Proof.
  apply (classify_private demo_meta demo_catalog demo_bench None None (demo_td demo_meta) demo_local);
    [vm_decide|vm_compute; reflexivity|right; left|reflexivity|vm_compute; reflexivity].
Defined.

Lemma classify_tier_witness :
  complexity_of demo_high = JStr "high" ∧ td_lane (demo_td demo_high) = frontier.
Proof.
  split; [vm_compute; reflexivity|].
  destruct (classify_tier demo_high demo_catalog demo_bench None None (demo_td demo_high))
    as [Hhigh _]; [vm_compute; reflexivity..|].
  apply Hhigh. vm_compute. reflexivity.
Defined.

Lemma bench_losers_sound_witness :
  ∃ r, r ∈ bench_losers [demo_cloud; entry_of "b" frontier "openai" cloud] frontier "code"
             demo_bench "cost" "gpt" 0 ∧ rej_model r ≠ "gpt".
Proof.
  eexists. split; [left|].
  apply (bench_losers_sound [demo_cloud; entry_of "b" frontier "openai" cloud] frontier "code"
           demo_bench "cost" "gpt" 0). left.
Defined.
