(* ===== verification/Prompts.v ===== *)
(** * Prompt builders and output parsers ([driver/prompts.py])

    The message builders of the driver's LLM calls and the parsers that recover
    structured values from model output.  [json.loads] is the parameter [loads]; the text
    of a prompt surface is an argument, since overrides replace it at run time. *)

From S2P Require Import Prelude PyStr PyDict Schemas Catalog Identity Policy Labels Classify.

(** ** Text helpers *)

(** Text with [~] standing for the double quote. *)
Definition quoted (s : string) : string := replace_char "~"%char dquote s.

Definition newline : string := String (ascii_of_nat 10) "".

(** The text before and after the first occurrence of [p] ([str.find] and slices). *)
Fixpoint cut_str (p s : string) : option (string * string) :=
  if startswith p s then Some ("", str_drop (str_len p) s)
  else match s with
       | EmptyString => None
       | String c s => match cut_str p s with Some (a, b) => Some (String c a, b) | None => None end
       end.

(** [s.replace(old, new, 1)] and, with [fuel] replacements at most, [s.replace(old, new)]. *)
Definition replace_once (old new s : string) : string :=
  match cut_str old s with Some (a, b) => a +:+ new +:+ b | None => s end.

Fixpoint replace_fuel (fuel : nat) (old new s : string) : string :=
  match fuel with
  | O => s
  | S fuel => match cut_str old s with
              | Some (a, b) => a +:+ new +:+ replace_fuel fuel old new b
              | None => s
              end
  end.

Definition replace_all (old new s : string) : string := replace_fuel (S (str_len s)) old new s.

(** ** Messages *)

(** [{"role": ..., "content": ...}], the content possibly marked cacheable: a one-part
    list with an ephemeral [cache_control]. *)
Record PromptMsg := { pm_role : string; pm_content : string; pm_cached : bool }.

Definition pm (r s : string) : PromptMsg := {| pm_role := r; pm_content := s; pm_cached := false |}.

Definition mark_cacheable (m : PromptMsg) : PromptMsg :=
  {| pm_role := pm_role m; pm_content := pm_content m; pm_cached := true |}.

(** [add_cache_breakpoints]: the system block, and the last message before the current
    turn when there is a history. *)
Definition add_cache_breakpoints (msgs : list PromptMsg) : list PromptMsg :=
  match msgs with
  | [] => []
  | _ =>
      let out := alter mark_cacheable 0 msgs in
      if 2 <? length out then alter mark_cacheable (length out - 2) out else out
  end.

(** One prior turn of the history, both fields already passed through [str]. *)
Record Turn := { t_query : string; t_answer : string }.

Definition turn_messages (t : Turn) : list PromptMsg :=
  let q := strip (t_query t) in
  let a := strip (t_answer t) in
  (if q ≡? "" then [] else [pm "user" q]) ++ (if a ≡? "" then [] else [pm "assistant" a]).

Definition history_messages (history : list Turn) : list PromptMsg := flat_map turn_messages history.

Definition build_triage_messages (TRIAGE_PROMPT query : string) (history : list Turn)
    : list PromptMsg :=
  [pm "system" TRIAGE_PROMPT] ++ history_messages history ++ [pm "user" query].

Definition build_decompose_messages (DECOMPOSE_PROMPT query : string) (history : list Turn)
    : list PromptMsg :=
  add_cache_breakpoints
    ([pm "system" DECOMPOSE_PROMPT] ++ history_messages history ++ [pm "user" query]).

Definition build_decompose_retry_messages (DECOMPOSE_PROMPT NUDGE query bad_output : string)
    (history : list Turn) : list PromptMsg :=
  build_decompose_messages DECOMPOSE_PROMPT query history ++
  [pm "assistant" (if bad_output ≡? "" then "(empty reply)" else bad_output); pm "user" NUDGE].

(** ** The label prompt *)

Definition label_line (name : string) (desc : option string) : string :=
  quoted "  - ~" +:+ name +:+ quoted "~: " +:+ match desc with Some d => d | None => "" end.

Definition sort_rows {A} (rows : list (string * A)) : list (string * A) :=
  sort_by (λ a b, str_leb a.1 b.1) rows.

Definition taxonomy_block (t : Taxonomy) : string :=
  let lines := join newline ((λ kv, label_line kv.1 (tax_desc kv.2)) <$> sort_rows (tax_labels t)) in
  "Separately, classify the DATA SENSITIVITY of this work as exactly ONE of the following "
  +:+ "classifications — a DIFFERENT dimension from the task label above:" +:+ newline
  +:+ lines +:+ newline
  +:+ quoted "Your JSON output MUST also include a top-level ~data_classification~ field holding that "
  +:+ quoted "one classification verbatim (or ~none~ if none clearly applies).".

Definition strict_anchor : string := "Return STRICT JSON only.".

(** [build_label_messages] over the template of the active variant. *)
Definition build_label_messages (template task_text : string)
    (labels : list (string * option LabelRow)) (taxonomy : option Taxonomy) : list PromptMsg :=
  let block := join newline
    ((λ kv, label_line kv.1 (match kv.2 with Some r => l_desc r | None => None end))
       <$> sort_rows labels) in
  let system := replace_all "{label_block}" block template in
  let system := match taxonomy with
                | Some t => match tax_labels t with
                            | [] => system
                            | _ => replace_once strict_anchor
                                     (taxonomy_block t +:+ newline +:+ newline +:+ strict_anchor) system
                            end
                | None => system
                end in
  [pm "system" system; pm "user" task_text].

(** ** Recovering JSON *)

(** The state of [_balanced_object]'s scan. *)
Record Scan := { depth : nat; in_str : bool; esc : bool }.

(** One character of the scan; [None] is the closing brace that ends the object. *)
Definition scan_step (st : Scan) (c : ascii) : option Scan :=
  if in_str st then
    if esc st then Some {| depth := depth st; in_str := true; esc := false |}
    else if c ≡? backslash then Some {| depth := depth st; in_str := true; esc := true |}
    else if c ≡? dquote then Some {| depth := depth st; in_str := false; esc := esc st |}
    else Some st
  else if c ≡? dquote then Some {| depth := depth st; in_str := true; esc := esc st |}
  else if c ≡? "{"%char then Some {| depth := S (depth st); in_str := false; esc := esc st |}
  else if c ≡? "}"%char then
    match depth st with
    | S (S n) => Some {| depth := S n; in_str := false; esc := esc st |}
    | _ => None
    end
  else Some st.

(** The prefix of [s] up to the brace that closes it. *)
Fixpoint scan_object (st : Scan) (s : string) : option string :=
  match s with
  | EmptyString => None
  | String c s =>
      match scan_step st c with
      | None => Some (String c "")
      | Some st => match scan_object st s with Some t => Some (String c t) | None => None end
      end
  end.

Fixpoint from_char (c : ascii) (s : string) : option string :=
  match s with
  | EmptyString => None
  | String a s' => if a ≡? c then Some s else from_char c s'
  end.

Definition balanced_object (t : string) : option string :=
  match from_char "{"%char t with
  | None => None
  | Some s => scan_object {| depth := 0; in_str := false; esc := false |} s
  end.

(** The group of [_FENCE_RE]: the text between the first fence and the next one, without
    an optional [json] tag and the surrounding white space. *)
Definition fence : string := "```".

Definition fenced (t : string) : option string :=
  match cut_str fence t with
  | None => None
  | Some (_, rest) =>
      let rest := if startswith "json" (lower (str_take 4 rest)) then str_drop 4 rest
                  else rest in
      match cut_str fence (lstrip rest) with
      | None => None
      | Some (body, _) => Some (rev_str (lstrip (rev_str body "")) "")
      end
  end.

Definition str_at (d : list (string * json)) (key : string) : option string :=
  match dget d key with Some (JStr s) => Some s | _ => None end.

Section parsers.
(** [json.loads], [None] when it raises. *)
Context (loads : string → option json).

Definition extract_json (t : string) : option json :=
  if strip t ≡? "" then None
  else loads t orelse (fenced t ≫= loads) orelse (balanced_object t ≫= loads).

Definition extract_dict (t : string) : option (list (string * json)) :=
  match extract_json t with Some (JObj d) => Some d | _ => None end.

Record Triage := { t_kind : string; t_reason : string }.

Definition TRIAGE_SAFE_DEFAULT : Triage :=
  {| t_kind := "multistep"; t_reason := "unparseable; safe default" |}.

Definition parse_triage (t : string) : Triage :=
  match extract_dict t with
  | None => TRIAGE_SAFE_DEFAULT
  | Some d =>
      match str_at d "kind" with
      | Some k =>
          if k ∈? ["trivial"; "multistep"]
          then {| t_kind := k;
                  t_reason := match dget d "reason" with
                              | Some r => if truthy r then json_str r else ""
                              | None => ""
                              end |}
          else TRIAGE_SAFE_DEFAULT
      | None => TRIAGE_SAFE_DEFAULT
      end
  end.

(** [v if v in vocab else None] for the string field [key] of the recovered object. *)
Definition parse_member (key t : string) (vocab : list string) : option string :=
  d ← extract_dict t; v ← str_at d key; if v ∈? vocab then Some v else None.

Definition parse_label (t : string) (vocab : list string) : option string :=
  parse_member "label" t vocab.

Definition parse_data_label (t : string) (vocab : list string) : option string :=
  parse_member "data_classification" t vocab.

Definition META_STR_FIELDS : list string := ["component"; "scope"; "intent"].
Definition META_LIST_FIELDS : list string := ["files"; "keywords"].
Definition META_STR_MAX : nat := 200.
Definition META_LIST_MAX : nat := 10.

Definition meta_str (md : list (string * json)) (k : string) : option (string * json) :=
  match str_at md k with
  | Some v => if strip v ≡? "" then None else Some (k, JStr (str_take META_STR_MAX (strip v)))
  | None => None
  end.

Definition meta_list (md : list (string * json)) (k : string) : option (string * json) :=
  match dget md k with
  | Some (JList v) =>
      let items := firstn META_LIST_MAX
        (str_take META_STR_MAX <$> List.filter (λ s, negb (s ≡? "")) (strip ∘ json_str <$> v)) in
      match items with [] => None | _ => Some (k, JList (JStr <$> items)) end
  | _ => None
  end.

Definition parse_label_metadata (t : string) : option (list (string * json)) :=
  d ← extract_dict t;
  md ← match dget d "metadata" with Some (JObj md) => Some md | _ => None end;
  match omap (meta_str md) META_STR_FIELDS ++ omap (meta_list md) META_LIST_FIELDS with
  | [] => None
  | out => Some out
  end.

(** ** Decomposed tasks *)

Definition nonblank_str (v : option json) : bool :=
  match v with Some (JStr s) => negb (strip s ≡? "") | _ => false end.

Definition valid_task (t : json) : bool :=
  match t with
  | JObj d =>
      nonblank_str (dget d "task") && nonblank_str (dget d "description") &&
      match dget d "metadata" with Some (JObj (_ :: _)) => true | _ => false end
  | _ => false
  end.

Definition TASK_META_STR_CAPS : list (string * nat) :=
  [("complexity", 200); ("scope", 200); ("intent", 200); ("component", 200)].

(** [v in allowed] for a set of strings: an unhashable [v] raises [TypeError]. *)
Definition in_runner_set (v : option json) (allowed : list string) : res string bool :=
  match v with
  | Some (JList _) => Err "unhashable type: 'list'"
  | Some (JObj _) => Err "unhashable type: 'dict'"
  | Some (JStr s) => Ok (s ∈? allowed)
  | _ => Ok false
  end.

Definition clean_requires (allowed : list string) (req : list (string * json))
    : res string (list (string * json)) :=
  let kept := omap (λ k, pair k <$> dget req k) ["tools"; "data_policy"] in
  try! pinned := in_runner_set (dget req "runner") allowed in
  Ok (kept ++ match pinned, dget req "runner" with
              | true, Some r => [("runner", r)]
              | _, _ => []
              end).

(** [_clean_task] of a valid task, under the runners admitted by [set_subagent_runners]. *)
Definition clean_task (allowed : list string) (t : list (string * json))
    : res string (list (string * json)) :=
  let md := match dget t "metadata" with Some (JObj d) => d | _ => [] end in
  let strs := omap (λ kc, (λ v, (kc.1, JStr (str_take kc.2 v))) <$> str_at md kc.1) TASK_META_STR_CAPS in
  let kws := match dget md "keywords" with
             | Some (JList kw) => [("keywords", JList (JStr ∘ str_take 100 ∘ json_str <$> firstn 10 kw))]
             | _ => []
             end in
  try! req := match dget md "requires" with
              | Some (JObj r) => try! r := clean_requires allowed r in Ok [("requires", JObj r)]
              | _ => Ok []
              end in
  Ok [("task", JStr (str_take 300 (str_field t "task")));
      ("description", JStr (str_take 2000 (str_field t "description")));
      ("metadata", JObj (strs ++ kws ++ req))].

Fixpoint clean_tasks (allowed : list string) (l : list json) : res string (list (list (string * json))) :=
  match l with
  | [] => Ok []
  | JObj d :: l =>
      if valid_task (JObj d) then
        try! t := clean_task allowed d in try! ts := clean_tasks allowed l in Ok (t :: ts)
      else clean_tasks allowed l
  | _ :: l => clean_tasks allowed l
  end.

Definition parse_tasks (allowed : list string) (t : string) : res string (list (list (string * json))) :=
  match extract_json t with
  | Some (JObj d) => match dget d "tasks" with Some (JList l) => clean_tasks allowed l | _ => Ok [] end
  | Some (JList l) => clean_tasks allowed l
  | _ => Ok []
  end.
End parsers.

Definition set_subagent_runners (enabled : bool) : list string :=
  if enabled then ["pi"; "claude_code"] else [].

(** ** Facts *)

Lemma parse_member_in loads key t vocab v : parse_member loads key t vocab = Some v → v ∈ vocab.
Proof.
  unfold parse_member. destruct (extract_dict loads t) as [d|]; [|done]. cbn.
  destruct (str_at d key) as [s|]; [|done]. cbn. case_bool_decide; [|done]. by intros [= <-].
Qed.

(** Whatever the model prints and whatever the JSON decoder makes of it, a parsed
    label is one of the closed vocabulary, a parsed data classification one of the
    taxonomy's, and a triage verdict one of the two kinds: the output can select among
    the configured values, never add one. *)
Theorem parsers_closed loads t vocab tax :
  (∀ l, parse_label loads t vocab = Some l → l ∈ vocab) ∧
  (∀ l, parse_data_label loads t tax = Some l → l ∈ tax) ∧
  t_kind (parse_triage loads t) ∈ ["trivial"; "multistep"] ∧
  (extract_dict loads t = None → parse_triage loads t = TRIAGE_SAFE_DEFAULT).
Proof.
  split; [intros; by eapply parse_member_in|]. split; [intros; by eapply parse_member_in|].
  unfold parse_triage. destruct (extract_dict loads t) as [d|]; [|split; [right; left|done]].
  split; [|done]. destruct (str_at d "kind") as [k|]; [|right; left].
  case_bool_decide; [done|right; left].
Qed.

(** A value the sanitizer may emit for a metadata field. *)
Definition meta_ok (kv : string * json) : Prop :=
  match kv.2 with
  | JStr s => kv.1 ∈ META_STR_FIELDS ∧ str_len s ≤ META_STR_MAX
  | JList l => kv.1 ∈ META_LIST_FIELDS ∧ length l ≤ META_LIST_MAX ∧
               ∀ x, x ∈ l → ∃ s, x = JStr s ∧ str_len s ≤ META_STR_MAX
  | _ => False
  end.

(** Captured label metadata is safe to persist: only the five known fields, every
    text bounded, every list bounded, whatever the model printed. *)
Theorem label_metadata_bounded loads t out kv :
  parse_label_metadata loads t = Some out → kv ∈ out → meta_ok kv.
Proof.
  unfold parse_label_metadata. destruct (extract_dict loads t) as [d|]; [|done]. cbn -[omap].
  destruct (dget d "metadata") as [[]|] eqn:E; try done. cbn -[omap].
  intros Hout Hkv.
  assert (kv ∈ omap (meta_str d0) META_STR_FIELDS ++ omap (meta_list d0) META_LIST_FIELDS) as Hin.
  { destruct (_ ++ _); [done|]. by injection Hout as <-. }
  apply elem_of_app in Hin as [(k & Hk & Hm)%list_elem_of_omap|(k & Hk & Hm)%list_elem_of_omap].
  - unfold meta_str in Hm. destruct (str_at d0 k) as [v|]; [|done].
    case_bool_decide; [done|]. apply (inj Some) in Hm as <-. unfold meta_ok. cbn [fst snd]. split; [done|]. apply str_len_take.
  - unfold meta_list in Hm. destruct (dget d0 k) as [[]|]; try done.
    set (items := firstn _ _) in Hm. assert (kv = (k, JList (JStr <$> items))) as ->.
    { destruct items; [done|]. by injection Hm as <-. }
    unfold meta_ok. cbn [fst snd]. split; [done|].
    split; [rewrite length_fmap; apply firstn_le_length|].
    intros x (s & -> & Hs)%list_elem_of_fmap. exists s. split; [done|].
    assert (s ∈ (str_take META_STR_MAX <$> List.filter (λ s, negb (s ≡? "")) (strip ∘ json_str <$> l))) as Hs'.
    { rewrite <- (take_drop META_LIST_MAX (_ <$> _)), elem_of_app. by left. }
    apply list_elem_of_fmap in Hs' as (u & -> & _). apply str_len_take.
Qed.

(** What a task may require: the two routing inputs, whose values the dispatcher reads as they
    are, and a runner it admits. *)
Definition requires_ok (allowed : list string) (req : list (string * json)) : Prop :=
  NoDup (dkeys req) ∧
  ∀ k v, (k, v) ∈ req → k ∈ ["tools"; "data_policy"] ∨ (k = "runner" ∧ ∃ r, v = JStr r ∧ r ∈ allowed).

(** What a metadata field of a task may hold. *)
Definition task_meta_ok (allowed : list string) (k : string) (v : json) : Prop :=
  (k ∈ ["complexity"; "scope"; "intent"; "component"] ∧ ∃ s, v = JStr s ∧ str_len s ≤ 200) ∨
  (k = "keywords" ∧ ∃ l, v = JList l ∧ length l ≤ 10 ∧ ∀ x, x ∈ l → ∃ s, x = JStr s ∧ str_len s ≤ 100) ∨
  (k = "requires" ∧ ∃ req, v = JObj req ∧ requires_ok allowed req).

(** The schema every parsed task conforms to. *)
Record task_ok (allowed : list string) (t : list (string * json)) : Prop := {
  ok_keys : dkeys t = ["task"; "description"; "metadata"];
  ok_task : ∃ s, dget t "task" = Some (JStr s) ∧ str_len s ≤ 300;
  ok_descr : ∃ s, dget t "description" = Some (JStr s) ∧ str_len s ≤ 2000;
  ok_meta : ∃ md, dget t "metadata" = Some (JObj md) ∧ NoDup (dkeys md) ∧
    ∀ k v, (k, v) ∈ md → task_meta_ok allowed k v;
}.

Lemma clean_requires_ok allowed req out : clean_requires allowed req = Ok out → requires_ok allowed out.
Proof.
  unfold clean_requires. intros (b & Hb & Hout)%res_bind_ok. apply (inj Ok) in Hout as <-. split.
  - cbn. destruct (dget req "tools"), (dget req "data_policy"), b, (dget req "runner"); vm_decide.
  - intros k v. rewrite elem_of_app. intros [(x & Hx & Hv)%list_elem_of_omap|Hr].
    + destruct (dget req x); [|done]. injection Hv as -> _. by left.
    + destruct b; [|by apply elem_of_nil in Hr]. destruct (dget req "runner") as [r|]; [|by apply elem_of_nil in Hr].
      apply list_elem_of_singleton in Hr as [= -> ->]. right. split; [done|].
      destruct r; try done. cbn in Hb. case_bool_decide; [eauto|done].
Qed.

(** The metadata of a cleaned task. *)
Definition cleaned_strs (md : list (string * json)) : list (string * json) :=
  omap (λ kc, (λ v, (kc.1, JStr (str_take kc.2 v))) <$> str_at md kc.1) TASK_META_STR_CAPS.

Lemma cleaned_strs_ok allowed md k v : (k, v) ∈ cleaned_strs md → task_meta_ok allowed k v.
Proof.
  intros (kc & Hkc & Hv)%list_elem_of_omap. destruct (str_at md kc.1) as [s|]; [|done].
  injection Hv as <- <-. left. unfold TASK_META_STR_CAPS in Hkc.
  repeat (apply elem_of_cons in Hkc as [->|Hkc]; [split; [vm_decide|]; exists (str_take 200 s); split; [done|apply str_len_take]|]).
  by apply elem_of_nil in Hkc.
Qed.

Lemma clean_task_ok allowed t out : clean_task allowed t = Ok out → task_ok allowed out.
Proof.
  unfold clean_task. set (md := match dget t "metadata" with Some (JObj d) => d | _ => [] end).
  intros (req & Hreq & Hout)%res_bind_ok. apply (inj Ok) in Hout as <-.
  fold (cleaned_strs md). set (kws := match dget md "keywords" with Some (JList kw) => _ | _ => _ end).
  assert (kws = [] ∨ ∃ kw, kws = [("keywords", JList (JStr ∘ str_take 100 ∘ json_str <$> firstn 10 kw))]) as Hkws
    by (unfold kws; destruct (dget md "keywords") as [[]|]; eauto).
  assert (req = [] ∨ ∃ r, req = [("requires", JObj r)] ∧ requires_ok allowed r) as Hrq.
  { destruct (dget md "requires") as [[]|]; cbn in Hreq; try (injection Hreq as <-; by left).
    apply res_bind_ok in Hreq as (r & Hr & [= <-]). right. exists r. split; [done|]. by eapply clean_requires_ok. }
  clearbody kws. split; [done|eexists; split; [reflexivity|]; apply str_len_take..|].
  eexists. split; [reflexivity|]. split.
  - unfold dkeys, cleaned_strs. rewrite !fmap_app. cbn -[str_take].
    destruct (str_at md "complexity"), (str_at md "scope"), (str_at md "intent"), (str_at md "component"),
      Hkws as [->|(kw & ->)], Hrq as [->|(r & -> & _)]; vm_decide.
  - intros k v [Hin|[Hin|Hin]%elem_of_app]%elem_of_app; [by eapply cleaned_strs_ok|right; left|right; right].
    + destruct Hkws as [->|(kw & ->)]; [by apply elem_of_nil in Hin|].
      apply list_elem_of_singleton in Hin as [= -> ->]. split; [done|]. eexists. split; [done|]. split.
      * rewrite length_fmap, firstn_length. lia.
      * intros x (y & -> & _)%list_elem_of_fmap. exists (str_take 100 (json_str y)). split; [done|apply str_len_take].
    + destruct Hrq as [->|(r & -> & Hr)]; [by apply elem_of_nil in Hin|].
      apply list_elem_of_singleton in Hin as [= -> ->]. split; [done|]. by eexists.
Qed.


(** The fail-safe contract of the task parser has a hole: a decomposition whose task
    pins a list as its runner makes it raise — with subagent runners on or off — instead of
    dropping the task and keeping its siblings. *)
Theorem parse_tasks_raises loads t d md req r enabled :
  extract_json loads t = Some (JObj [("tasks", JList [JObj d])]) →
  valid_task (JObj d) = true → dget d "metadata" = Some (JObj md) →
  dget md "requires" = Some (JObj req) → dget req "runner" = Some (JList r) →
  parse_tasks loads (set_subagent_runners enabled) t = Err "unhashable type: 'list'".
Proof.
  intros Ht Hv Hmd Hreq Hr. unfold parse_tasks. rewrite Ht.
  change (dget [("tasks", JList [JObj d])] "tasks") with (Some (JList [JObj d])).
  cbn [clean_tasks]. rewrite Hv. unfold clean_task, clean_requires. rewrite Hmd, Hreq, Hr. done.
Qed.

Lemma marks_alter (i : nat) (l : list PromptMsg) :
  length (List.filter pm_cached (alter mark_cacheable i l)) ≤ S (length (List.filter pm_cached l)).
Proof.
  revert i. induction l as [|m l IH]; intros [|i]; cbn; [lia..| |].
  - destruct (pm_cached m); cbn; lia.
  - specialize (IH i). destruct (pm_cached m); cbn; lia.
Qed.

Lemma contents_alter (i : nat) (l : list PromptMsg) :
  pm_content <$> alter mark_cacheable i l = pm_content <$> l ∧
  pm_role <$> alter mark_cacheable i l = pm_role <$> l.
Proof.
  revert i. induction l as [|m l IH]; intros [|i]; cbn; [done..|].
  destruct (IH i) as [H1 H2]. change (list_alter mark_cacheable i l) with (alter mark_cacheable i l) in *.
  split; f_equal; done.
Qed.

(** Prompt caching uses at most two breakpoints and changes no text: the system block
    and, when there is a history, the last message before the current turn. *)
Theorem breakpoints_at_most_two msgs :
  (∀ m, m ∈ msgs → pm_cached m = false) →
  length (List.filter pm_cached (add_cache_breakpoints msgs)) ≤ 2 ∧
  pm_content <$> add_cache_breakpoints msgs = pm_content <$> msgs ∧
  pm_role <$> add_cache_breakpoints msgs = pm_role <$> msgs.
Proof.
  intros Hplain.
  assert (List.filter pm_cached msgs = []) as Hnil.
  { induction msgs as [|m l IH]; [done|]. cbn. rewrite (Hplain m) by left. apply IH.
    intros x Hx. apply Hplain. by right. }
  unfold add_cache_breakpoints. destruct msgs as [|m l]; [cbn; split; [lia|done]|].
  set (out := alter mark_cacheable 0 (m :: l)).
  assert (length (List.filter pm_cached out) ≤ 1) as H0.
  { pose proof (marks_alter 0 (m :: l)) as H0. by rewrite Hnil in H0. }
  destruct (contents_alter 0 (m :: l)) as [C0 R0]. fold out in C0, R0.
  destruct (2 <? length out); [|split; [lia|done]].
  destruct (contents_alter (length out - 2) out) as [C1 R1].
  pose proof (marks_alter (length out - 2) out). rewrite C1, R1. split; [lia|done].
Qed.

(** ** Witnesses *)

(** A decoder that understands one decomposition and one label. *)
Definition demo_task (runner : json) : json :=
  JObj [("task", JStr "t"); ("description", JStr "d"); ("extra", JStr "x");
        ("metadata", JObj [("lane", JStr "frontier"); ("keywords", JList [JInt 3]);
                           ("requires", JObj [("runner", runner)])])].

Definition demo_loads (s : string) : option json :=
  if s ≡? "tasks" then Some (JObj [("tasks", JList [demo_task (JStr "pi"); JNull])])
  else if s ≡? "bad" then Some (JObj [("tasks", JList [demo_task (JList [])])])
  else if s ≡? "label" then
    Some (JObj [("label", JStr "other"); ("metadata", JObj [("scope", JStr " infra ")])])
  else None.

Lemma label_metadata_bounded_witness : meta_ok ("scope", JStr "infra").
Proof.
  apply (label_metadata_bounded demo_loads "label" [("scope", JStr "infra")] ("scope", JStr "infra"));
    [vm_compute; reflexivity|left].
Defined.

Definition demo_tasks : list (list (string * json)) :=
  match parse_tasks demo_loads (set_subagent_runners true) "tasks" with Ok l => l | Err _ => [] end.


Lemma parse_tasks_raises_witness :
  parse_tasks demo_loads (set_subagent_runners false) "bad" = Err "unhashable type: 'list'".
Proof. eapply (parse_tasks_raises demo_loads "bad" _ _ _ [] false); reflexivity. Defined.

Lemma breakpoints_at_most_two_witness :
  length (List.filter pm_cached
    (build_decompose_messages "sys" "q" [ {| t_query := "a"; t_answer := "b" |} ])) ≤ 2.
Proof.
  apply (breakpoints_at_most_two
    ([pm "system" "sys"] ++ history_messages [ {| t_query := "a"; t_answer := "b" |} ] ++ [pm "user" "q"])).
  intros m Hm. repeat (apply elem_of_cons in Hm as [->|Hm]; [done|]). by apply elem_of_nil in Hm.
Defined.
