(* ===== verification/Smart.v ===== *)
(** * Smart auto-routing ([routing/smart.py])

    The label memo with its sliding hold and shared tier, the stickiness ladder, the
    warmth table and incumbent hold, and the resolution of a classified request to a
    catalog model.  The module-level tables of the source are the explicit [SmartState];
    the clock readings are arguments. *)

From S2P Require Import Prelude PyStr PyDict Schemas Catalog Identity Policy Breaker Benchmarks Labels Classify Prompts.

Definition SMART_MODELS : list string := ["smart"; "toto-smart"].
Definition CLASSIFY_TEXT_MAX : nat := 4000.
Definition LABEL_TTL_S : Q := 900.
Definition LABEL_CACHE_MAX : nat := 1024.
Definition DECLARED_TTL_S : Q := 4 * 3600.
Definition WARMTH_MAX : nat := 4096.
Definition CACHE_TTL_DEFAULT : Z := 300.

Definition is_smart (m : option string) : bool :=
  lower (strip match m with Some s => s | None => "" end) ∈? SMART_MODELS.

(** ** Label metadata *)

Record StickRecord := { sr_reason : string; sr_hold_ttl : Q; sr_hit : bool }.
Record WarmRecord := { kept : string; over : string; window_left_s : Q }.

(** [label_metadata]: the sanitized classifier block and the three records the router adds
    under the keys ["stick"], ["benchmark_pick"] and ["warm_hold"]. *)
Record LabelMeta := {
  m_fields : list (string * json);
  m_stick : option StickRecord;
  m_benchmark_pick : option string;
  m_warm_hold : option WarmRecord;
}.

Definition no_meta : LabelMeta :=
  {| m_fields := []; m_stick := None; m_benchmark_pick := None; m_warm_hold := None |}.

Definition meta_or_empty (m : option LabelMeta) : LabelMeta :=
  match m with Some m => m | None => no_meta end.

Definition with_stick (m : option LabelMeta) (s : StickRecord) : LabelMeta :=
  let m := meta_or_empty m in
  {| m_fields := m_fields m; m_stick := Some s; m_benchmark_pick := m_benchmark_pick m;
     m_warm_hold := m_warm_hold m |}.

(** The memo hit's re-flagging of the stick record. *)
Definition flag_hit (m : option LabelMeta) : option LabelMeta :=
  match m with
  | Some m' =>
      match m_stick m' with
      | Some s => Some (with_stick m {| sr_reason := sr_reason s; sr_hold_ttl := sr_hold_ttl s;
                                        sr_hit := true |})
      | None => m
      end
  | None => None
  end.

(** [_with_bench] *)
Definition with_bench (m : option LabelMeta) (chosen : string) (pick : option string)
    : option LabelMeta :=
  match nonempty pick with
  | Some p =>
      if p ≡? chosen then m
      else let m := meta_or_empty m in
           Some {| m_fields := m_fields m; m_stick := m_stick m; m_benchmark_pick := Some p;
                   m_warm_hold := m_warm_hold m |}
  | None => m
  end.

Definition with_warm (m : option LabelMeta) (w : WarmRecord) : option LabelMeta :=
  let m := meta_or_empty m in
  Some {| m_fields := m_fields m; m_stick := m_stick m; m_benchmark_pick := m_benchmark_pick m;
          m_warm_hold := Some w |}.

(** ** The state *)

Record MemoRow := {
  expiry : Q;
  row_label : string;
  row_meta : option LabelMeta;
  row_ttl : Q;
  row_data_label : option string;
}.

Record Warmth := {
  turns : Z;
  last_tokens_cached : Z;
  last_seen : Q;
  last_model : option string;
}.

(** [_label_cache] and [_warmth]. *)
Record SmartState := {
  memo : list (string * MemoRow);
  warmth : list (string * Warmth);
}.

Definition new_smart_state : SmartState := {| memo := []; warmth := [] |}.

(** What a memo lookup yields. *)
Record Cached := { c_label : string; c_meta : option LabelMeta; c_data_label : option string }.

(** [_cache_get]: an expired row is dropped, a live one slides by its own hold. *)
Definition cache_get (m : list (string * MemoRow)) (key : string) (now : Q)
    : option Cached * list (string * MemoRow) :=
  match dget m key with
  | None => (None, m)
  | Some r =>
      if Qltb (expiry r) now then (None, dpop m key)
      else (Some {| c_label := row_label r; c_meta := row_meta r; c_data_label := row_data_label r |},
            dset m key {| expiry := now + row_ttl r; row_label := row_label r; row_meta := row_meta r;
                          row_ttl := row_ttl r; row_data_label := row_data_label r |})
  end.

(** [_cache_put] *)
Definition cache_put (m : list (string * MemoRow)) (key label : string) (meta : option LabelMeta)
    (ttl : Q) (data_label : option string) (now : Q) : list (string * MemoRow) :=
  dset (if LABEL_CACHE_MAX <=? length m then dpop_first m else m) key
    {| expiry := now + ttl; row_label := label; row_meta := meta; row_ttl := ttl;
       row_data_label := data_label |}.

(** ** Warmth *)

Definition new_warmth : Warmth :=
  {| turns := 0; last_tokens_cached := 0; last_seen := 0; last_model := None |}.

(** [record_warmth] *)
Definition record_warmth (w : list (string * Warmth)) (conversation_key : option string)
    (tokens_cached : Z) (served : option string) (now : Q) : list (string * Warmth) :=
  match nonempty conversation_key with
  | None => w
  | Some k =>
      let '(st, w) := match dget w k with
                      | Some st => (st, w)
                      | None =>
                          let w := if WARMTH_MAX <=? length w then dpop_first w else w in
                          (new_warmth, dset w k new_warmth)
                      end in
      dset w k {| turns := turns st + 1; last_tokens_cached := tokens_cached; last_seen := now;
                  last_model := match nonempty served with Some m => Some m | None => last_model st end |}
  end.

Definition warmth_of (w : list (string * Warmth)) (conversation_key : option string)
    : option Warmth :=
  match nonempty conversation_key with Some k => dget w k | None => None end.

(** [cache_ttl_s]: the catalog value, else the provider family's default. *)
Definition cache_ttl_window (e : option CatalogEntry) : Z :=
  match e with
  | None => CACHE_TTL_DEFAULT
  | Some e =>
      let explicit := match cache_ttl_s e with
                      | Some z => if (z =? 0)%Z then None else Some z
                      | None => None
                      end in
      match explicit with
      | Some z => z
      | None =>
          let m := lower (effective_upstream_model e) in
          if contains "claude" m || contains "anthropic" m then 300%Z
          else if contains "deepseek" m then 86400%Z
          else if contains "gpt" m || contains "openai" m
                  || (startswith "o1" m || startswith "o3" m || startswith "o4" m) then 1800%Z
          else CACHE_TTL_DEFAULT
      end
  end.

(** ** Stickiness policies *)

Record StickCtx := {
  ctx_key : option string;
  ctx_label : string;
  ctx_vocab : list string;
  ctx_require_tools : bool;
  ctx_policy : option Policy;
}.

Record StickDecision := { hold_ttl : Q; strength : Q; stick_reason : string }.

(** What a policy promises its caller: a decision from the context and the warmth table. *)
Class StickinessPolicy (P : Type) := { assess : P → list (string * Warmth) → StickCtx → StickDecision }.

Definition is_declared (key : option string) : bool :=
  startswith "declared:" match key with Some k => k | None => "" end.

Definition sliding_ttl_assess (ctx : StickCtx) : StickDecision :=
  {| hold_ttl := LABEL_TTL_S; strength := 1; stick_reason := "sliding_ttl" |}.

(** [d.get(label)] as the operand of [or]: a zero hold counts as absent. *)
Definition nonzero (o : option Q) : option Q :=
  match o with Some q => if Qeq_bool q 0 then None else Some q | None => None end.

Definition label_ttl_assess (defaults : list (string * Q)) (ctx : StickCtx) : StickDecision :=
  let org := match ctx_policy ctx with Some p => stick_ttls p | None => [] end in
  let ttl := nonzero (dget org (ctx_label ctx)) orelse nonzero (dget defaults (ctx_label ctx)) in
  {| hold_ttl := match ttl with Some q => q | None => LABEL_TTL_S end; strength := 1;
     stick_reason := "label_ttl" |}.

Definition declared_assess (inner : StickCtx → StickDecision) (ctx : StickCtx) : StickDecision :=
  if is_declared (ctx_key ctx)
  then {| hold_ttl := DECLARED_TTL_S; strength := 1; stick_reason := "declared_session" |}
  else inner ctx.

Definition warmth_assess (base warm : Q) (warm_turns : Z) (w : list (string * Warmth))
    (ctx : StickCtx) : StickDecision :=
  let st := warmth_of w (ctx_key ctx) in
  let n := match st with Some s => turns s | None => 0%Z end in
  let cached := match st with Some s => last_tokens_cached s | None => 0%Z end in
  if (0 <? cached)%Z || (warm_turns <=? n)%Z
  then {| hold_ttl := warm; strength := 1; stick_reason := "warmth_hold" |}
  else {| hold_ttl := base; strength := Qminb 1 (Qz n / Qz warm_turns); stick_reason := "warmth_cold" |}.

(** [TotoStickiness.assess]: declared, then the label's hold with the warm floor. *)
Definition toto_assess (defaults : list (string * Q)) (w : list (string * Warmth)) (ctx : StickCtx)
    : StickDecision :=
  if is_declared (ctx_key ctx)
  then {| hold_ttl := DECLARED_TTL_S; strength := 1; stick_reason := "declared_session" |}
  else
    let label := label_ttl_assess defaults ctx in
    let warm := warmth_assess LABEL_TTL_S 3600 3 w ctx in
    if (stick_reason warm ≡? "warmth_hold") && Qltb (hold_ttl label) (hold_ttl warm)
    then {| hold_ttl := hold_ttl warm; strength := strength warm; stick_reason := "warmth_hold" |}
    else {| hold_ttl := hold_ttl label; strength := strength warm; stick_reason := stick_reason label |}.

(** The policies of the source. *)
Inductive Stick : Type :=
  | SlidingTTL
  | LabelAwareTTL (defaults : list (string * Q))
  | DeclaredSession (inner : Stick)
  | WarmthHold (base warm : Q) (warm_turns : Z)
  | TotoStickiness (defaults : list (string * Q)).

Fixpoint stick_assess (p : Stick) (w : list (string * Warmth)) (ctx : StickCtx) : StickDecision :=
  match p with
  | SlidingTTL => sliding_ttl_assess ctx
  | LabelAwareTTL d => label_ttl_assess d ctx
  | DeclaredSession inner => declared_assess (stick_assess inner w) ctx
  | WarmthHold base warm n => warmth_assess base warm n w ctx
  | TotoStickiness d => toto_assess d w ctx
  end.

#[export] Instance stick_policy : StickinessPolicy Stick := {| assess := stick_assess |}.

(** ** Resolution *)

Record SmartResult := {
  sm_model_id : string;
  route_reason : string;
  sm_label : option string;
  classify_ms : option Q;
  label_metadata : option LabelMeta;
  data_label : option string;
}.

Definition tools_ok (e : option CatalogEntry) (require_tools : bool) : bool :=
  match e with Some e => negb require_tools || tools e | None => false end.

(** [(getattr(policy, "label_bindings", None) or {}).get(label)] *)
Definition bound_id (pol : option Policy) (label : string) : option string :=
  match pol with Some p => dget (label_bindings p) label | None => None end.

(** [i and _tools_ok(catalog.get(i), require_tools)] as an optional pick. *)
Definition usable (c : Catalog) (require_tools : bool) (i : option string) : option string :=
  match i with
  | Some i => if tools_ok (catalog_get c i) require_tools then Some i else None
  | None => None
  end.

(** [fallback_model]: the rungs in order, then the first entry. *)
Definition fallback_model (c : Catalog) (b : option Benchmarks) (pol : option Policy)
    (require_tools : bool) (labels : option LabelBindings) : string :=
  let by_policy := usable c require_tools (nonempty (bound_id pol "other")) in
  let by_labels := usable c require_tools (match labels with Some l => model_for l "other" | None => None end) in
  let by_bench := match classify_default c (match b with Some b => b | None => [] end)
                          (match pol with Some p => optimize p | None => None end) with
                  | Ok d => usable c require_tools (Some (td_model_id d))
                  | Err _ => None
                  end in
  let by_ref := let r := frontier_reference c in
                if tools_ok r require_tools then id <$> r else None in
  let by_any := id <$> (first_such (λ e, tools_ok (Some e) require_tools) c orelse head c) in
  match by_policy orelse by_labels orelse by_bench orelse by_ref orelse by_any with
  | Some i => i
  | None => ""
  end.

(** [_vocab]: the global labels, then the caller's custom ones. *)
Definition smart_vocab (labels : LabelBindings) (pol : option Policy) : LabelBindings :=
  let add v c := match nonempty (cl_name c) with
                 | Some n => dset v n (Some {| l_model := None;
                                               l_desc := match cl_desc c with Some d => Some d | None => Some "" end;
                                               l_category := None |})
                 | None => v
                 end in
  foldl add labels (match pol with Some p => custom_labels p | None => [] end).

(** The custom task type that binds [label]. *)
Definition custom_model (pol : Policy) (label : string) : option string :=
  match first_such (λ c, (cl_name c ≡? Some label) && negb (nonempty (cl_model c) ≡? None))
                   (custom_labels pol) with
  | Some c => cl_model c
  | None => None
  end.

(** [_binding_entry] *)
Definition binding_entry (label : string) (c : Catalog) (labels : LabelBindings)
    (pol : option Policy) : option CatalogEntry * string :=
  let team := match pol with
              | Some p =>
                  let team_id := match nonempty (dget (label_bindings p) label) with
                                 | Some i => Some i
                                 | None => custom_model p label
                                 end in
                  catalog_get c (match team_id with Some i => i | None => "" end)
              | None => None
              end in
  match team with
  | Some e => (Some e, ":team")
  | None => (catalog_get c (match model_for labels label with Some i => i | None => "" end), "")
  end.

(** [benchmark_pick_for] *)
Definition benchmark_pick_for (label : string) (c : Catalog) (labels : LabelBindings)
    (b : option Benchmarks) (pol : option Policy) (require_tools : bool) : option string :=
  match category_for labels label, b with
  | Some cat, Some b =>
      let opt := match nonempty (match pol with Some p => optimize p | None => None end) with
                 | Some o => o
                 | None => "balanced"
                 end in
      id <$> best b (List.filter (λ e, negb (endpoint e ≡? "fake") && tools_ok (Some e) require_tools) c)
                  cat opt
  | _, _ => None
  end.

(** [_warm_hold] *)
Definition warm_hold (r : SmartResult) (c : Catalog) (w : list (string * Warmth))
    (key : option string) (require_tools : bool) (pol : option Policy) (bound : bool) (now : Q)
    : SmartResult :=
  if bound then r
  else match warmth_of w key with
  | None => r
  | Some st =>
      match nonempty (last_model st) with
      | None => r
      | Some incumbent =>
          if incumbent ≡? sm_model_id r then r
          else match catalog_get c incumbent with
          | None => r
          | Some e =>
              if negb (tools_ok (Some e) require_tools) then r
              else if match pol with Some p => negb (permits p e) | None => false end then r
              else if (last_tokens_cached st =? 0)%Z then r
              else
                let window := Qz (cache_ttl_window (Some e)) in
                let elapsed := (now - last_seen st)%Q in
                if Qleb window elapsed then r
                else {| sm_model_id := incumbent;
                        route_reason := "label:" +:+ match sm_label r with Some l => l | None => "None" end
                                        +:+ ":warm-hold";
                        sm_label := sm_label r; classify_ms := classify_ms r;
                        label_metadata := with_warm (label_metadata r)
                          {| kept := incumbent; over := sm_model_id r;
                             window_left_s := py_round 1 (window - elapsed) |};
                        data_label := data_label r |}
          end
      end
  end.

(** ** Properties of the resolution *)

(** The entry behind a resolved id, tools-capable when the request needs it and the
    catalog can provide it. *)
Definition resolved (c : Catalog) (require_tools : bool) (i : string) : Prop :=
  ∃ e, catalog_get c i = Some e ∧
    (require_tools = true → (∃ x, x ∈ c ∧ tools x = true) → tools e = true).

Lemma tools_ok_resolved c rt i : tools_ok (catalog_get c i) rt = true → resolved c rt i.
Proof.
  unfold tools_ok. destruct (catalog_get c i) as [e|] eqn:E; [|done]. intros Hok.
  exists e. split; [done|]. intros -> _. done.
Qed.

Lemma fallback_resolved c b pol rt labels :
  NoDup (id <$> c) → c ≠ [] → resolved c rt (fallback_model c b pol rt labels).
Proof.
  intros Hnd Hc. unfold fallback_model.
  assert (∀ i j, usable c rt i = Some j → resolved c rt j) as Hus.
  { intros [i|] j; [|done]. cbn. destruct (tools_ok _ _) eqn:E; [|done].
    intros [= <-]. by apply tools_ok_resolved. }
  destruct (usable c rt (nonempty (bound_id pol "other"))) as [j|] eqn:E1; [by apply (Hus _ _ E1)|].
  destruct (usable c rt match labels with Some l => model_for l "other" | None => None end) as [j|] eqn:E2;
    [by apply (Hus _ _ E2)|].
  destruct (match classify_default _ _ _ with Ok d => usable c rt _ | Err _ => None end) as [j|] eqn:E3.
  { destruct (classify_default _ _ _) as [d|]; [|done]. by apply (Hus _ _ E3). }
  destruct (tools_ok (frontier_reference c) rt) eqn:E4.
  { destruct (frontier_reference c) as [e|] eqn:Er; [|done]. cbn. apply tools_ok_resolved.
    assert (e ∈ c) as He.
    { unfold frontier_reference in Er. destruct (first_such (λ e, lane e ≡? frontier) c) eqn:F.
      - injection Er as <-. by apply first_such_some in F as [??].
      - by apply first_such_some in Er as [??]. }
    by rewrite catalog_get_nodup. }
  destruct (first_such (λ e, tools_ok (Some e) rt) c) as [e|] eqn:F; cbn.
  - apply first_such_some in F as [He Hok]. apply tools_ok_resolved. by rewrite catalog_get_nodup.
  - destruct c as [|e c']; [done|]. cbn. exists e. split; [apply catalog_get_nodup; [done|left]|].
    intros -> (x & Hx & Ht). rewrite first_such_none in F. specialize (F x Hx).
    cbn in F. congruence.
Qed.

Lemma benchmark_pick_resolved label c labels b pol rt p :
  NoDup (id <$> c) → benchmark_pick_for label c labels b pol rt = Some p → resolved c rt p.
Proof.
  intros Hnd. unfold benchmark_pick_for. destruct (category_for _ _), b as [b|]; try done.
  intros (e & Hbest & ->)%fmap_Some. apply best_elem, elem_of_bfilter in Hbest as [He Hok].
  bool_to_prop.
  apply tools_ok_resolved. by rewrite catalog_get_nodup.
Qed.

Lemma nonempty_some o s : nonempty o = Some s → o = Some s ∧ s ≠ "".
Proof. destruct o as [x|]; [|done]. cbn. case_bool_decide; [done|]. by intros [= ->]. Qed.

Lemma binding_entry_get label c labels pol e o :
  NoDup (id <$> c) → binding_entry label c labels pol = (Some e, o) → catalog_get c (id e) = Some e.
Proof.
  intros Hnd. unfold binding_entry.
  assert (∀ i x, catalog_get c i = Some x → catalog_get c (id x) = Some x) as Hg.
  { intros i x [Hx _]%catalog_get_some. by apply catalog_get_nodup. }
  destruct (match pol with Some p => _ | None => None end) as [t|] eqn:Et; intros [= He _].
  - subst t. destruct pol as [p|]; [by eapply Hg|done].
  - by eapply Hg.
Qed.

(** What a hold over the fresh pick requires. *)
Lemma warm_hold_cases r c w key rt pol bound now :
  warm_hold r c w key rt pol bound now = r ∨
  ∃ st m e, bound = false ∧ warmth_of w key = Some st ∧ last_model st = Some m ∧
    sm_model_id (warm_hold r c w key rt pol bound now) = m ∧ catalog_get c m = Some e ∧
    tools_ok (Some e) rt = true ∧ (∀ p, pol = Some p → permits p e = true) ∧
    (last_tokens_cached st ≠ 0)%Z ∧
    (now - last_seen st < Qz (cache_ttl_window (Some e)))%Q ∧
    sm_label (warm_hold r c w key rt pol bound now) = sm_label r ∧
    data_label (warm_hold r c w key rt pol bound now) = data_label r.
Proof.
  unfold warm_hold. destruct bound; [by left|]. destruct (warmth_of w key) as [st|]; [|by left].
  destruct (nonempty (last_model st)) as [m|] eqn:Em; [|by left].
  apply nonempty_some in Em as [Em _].
  destruct (m ≡? sm_model_id r); [by left|]. destruct (catalog_get c m) as [e|] eqn:Ee; [|by left].
  destruct (tools_ok (Some e) rt) eqn:Et; [|by left]. cbn [negb].
  destruct (match pol with Some p => negb (permits p e) | None => false end) eqn:Ep; [by left|].
  destruct (Z.eqb_spec (last_tokens_cached st) 0) as [|Hz]; [by left|].
  destruct (Qleb _ _) eqn:El; [by left|]. right. exists st, m, e. q_to_prop.
  repeat split; try done. intros p ->. by apply negb_false_iff in Ep.
Qed.

(** A warm incumbent is kept only where it may be: it is the model this very
    conversation was last served, still in the catalog, tools-capable when needed,
    permitted by the caller's policy, with a live prefix cache inside its provider's
    window, and never over an explicit binding. *)
Theorem warm_hold_sound r c w key rt pol bound now :
  sm_model_id (warm_hold r c w key rt pol bound now) ≠ sm_model_id r →
  ∃ st m e, bound = false ∧ warmth_of w key = Some st ∧ last_model st = Some m ∧
    sm_model_id (warm_hold r c w key rt pol bound now) = m ∧ catalog_get c m = Some e ∧
    tools_ok (Some e) rt = true ∧ (∀ p, pol = Some p → permits p e = true) ∧
    (last_tokens_cached st ≠ 0)%Z ∧
    (now - last_seen st < Qz (cache_ttl_window (Some e)))%Q.
Proof.
  intros Hne. destruct (warm_hold_cases r c w key rt pol bound now) as [Heq|(st & m & e & H)].
  - by rewrite Heq in Hne.
  - exists st, m, e. naive_solver.
Qed.

(** ** The route *)

(** The memo row shared across replicas. *)
Definition MEMO_L2_PREFIX : string := "stick:memo:".

(** The clock readings of one request: at the memo lookup, at the memo put, at the warm
    hold, and the wall time of the classifier call. *)
Record Clock := { at_get : Q; at_put : Q; at_warm : Q; call_ms : Q }.

Section route.
(** [hashlib.sha1(...).hexdigest()] and [json.loads]. *)
Context (sha1 : string → string) (loads : string → option json).
(** The shared tier: the client, and the JSON text of a row with its reader ([None] when
    decoding raises). *)
Context {R X : Type} `{!RedisClient R X}.
Context (row_text : Cached → string) (read_row : string → option Cached).
(** The label prompt of the active variant. *)
Context (template : string).

(** [_cache_key] *)
Definition memo_key (text : string) (vocab : list string) : string :=
  sha1 ("(" +:+ repr text +:+ ", " +:+ repr_list (sorted_strs vocab) +:+ ")").

Definition l2_get (redis : option R) (key : string) : option Cached :=
  match redis with
  | None => None
  | Some r =>
      match redis_get r (MEMO_L2_PREFIX +:+ key) with
      | Ok (Some raw) => read_row raw
      | Ok None | Err _ => None
      end
  end.

Definition l2_put (redis : option R) (key : string) (row : Cached) (ttl : Q) : option R :=
  match redis with
  | None => None
  | Some r =>
      match redis_set r (MEMO_L2_PREFIX +:+ key) (row_text row) (Z.max 1 (q_trunc ttl)) with
      | Ok r => Some r
      | Err _ => Some r
      end
  end.

(** Everything [smart_route] is called with, but for the state. *)
Record SmartArgs := {
  sa_text : string;
  sa_catalog : Catalog;
  sa_labels : LabelBindings;
  sa_benchmarks : option Benchmarks;
  sa_classifier : string;
  sa_policy : option Policy;
  sa_require_tools : bool;
  sa_key : option string;
  sa_stick : option Stick;
  sa_warmth_routing : bool;
  sa_taxonomy : option Taxonomy;
}.

(** The classifier call: the messages it is sent, and what it prints; [None] is any
    failure, the timeout included. *)
Context (classify_fn : list PromptMsg → string → option string).

Definition args_text (a : SmartArgs) : string := str_take CLASSIFY_TEXT_MAX (sa_text a).
Definition args_vocab (a : SmartArgs) : LabelBindings := smart_vocab (sa_labels a) (sa_policy a).

Definition args_key (a : SmartArgs) : string :=
  memo_key (match nonempty (sa_key a) with Some k => k | None => args_text a end)
           (dkeys (args_vocab a)).

(** The memo lookup, L1 then L2: an L2 row is promoted into L1 with the default hold. *)
Definition lookup_memo (st : SmartState) (redis : option R) (a : SmartArgs) (now : Q)
    : option Cached * SmartState :=
  let key := args_key a in
  let '(hit, m) := cache_get (memo st) key now in
  match hit with
  | Some h => (Some h, {| memo := m; warmth := warmth st |})
  | None =>
      match l2_get redis key with
      | Some h => (Some h, {| memo := cache_put m key (c_label h) (c_meta h) LABEL_TTL_S
                                        (c_data_label h) now; warmth := warmth st |})
      | None => (None, {| memo := m; warmth := warmth st |})
      end
  end.

(** What the classifier call yields: label, metadata, data label. *)
Definition classify_call (a : SmartArgs)
    : option string * option LabelMeta * option string :=
  let vocab := args_vocab a in
  let tax := match sa_taxonomy a with Some t => dkeys (tax_labels t) | None => [] end in
  match classify_fn (build_label_messages template (args_text a) vocab (sa_taxonomy a))
                    (sa_classifier a) with
  | None => (None, None, None)
  | Some raw =>
      (parse_label loads raw (sorted_strs (dkeys vocab)),
       (λ f, {| m_fields := f; m_stick := None; m_benchmark_pick := None; m_warm_hold := None |})
         <$> parse_label_metadata loads raw,
       match tax with [] => None | _ => parse_data_label loads raw tax end)
  end.

(** The hold of a fresh label, and the metadata with its record. *)
Definition decide_hold (a : SmartArgs) (w : list (string * Warmth)) (label : string)
    (meta : option LabelMeta) : Q * option LabelMeta :=
  match sa_stick a with
  | None => (LABEL_TTL_S, meta)
  | Some p =>
      let d := assess p w {| ctx_key := sa_key a; ctx_label := label;
                             ctx_vocab := dkeys (args_vocab a);
                             ctx_require_tools := sa_require_tools a; ctx_policy := sa_policy a |} in
      (hold_ttl d, Some (with_stick meta {| sr_reason := stick_reason d; sr_hold_ttl := hold_ttl d;
                                            sr_hit := false |}))
  end.

(** The label of the request: memoized, or classified now and stored. *)
Record Labelled := {
  lb_label : option string;
  lb_meta : option LabelMeta;
  lb_data : option string;
  lb_ms : option Q;
}.

Definition label_request (st : SmartState) (redis : option R) (a : SmartArgs) (clk : Clock)
    : Labelled * SmartState * option R :=
  let '(hit, st) := lookup_memo st redis a (at_get clk) in
  match hit with
  | Some h =>
      ({| lb_label := Some (c_label h); lb_meta := flag_hit (c_meta h);
          lb_data := c_data_label h; lb_ms := None |}, st, redis)
  | None =>
      match catalog_get (sa_catalog a) (sa_classifier a) with
      | None => ({| lb_label := None; lb_meta := None; lb_data := None; lb_ms := None |}, st, redis)
      | Some _ =>
          let '(label, meta, data) := classify_call a in
          match label with
          | None => ({| lb_label := None; lb_meta := meta; lb_data := data;
                        lb_ms := Some (call_ms clk) |}, st, redis)
          | Some l =>
              let '(ttl, meta) := decide_hold a (warmth st) l meta in
              ({| lb_label := Some l; lb_meta := meta; lb_data := data;
                  lb_ms := Some (call_ms clk) |},
               {| memo := cache_put (memo st) (args_key a) l meta ttl data (at_put clk);
                  warmth := warmth st |},
               l2_put redis (args_key a) {| c_label := l; c_meta := meta; c_data_label := data |} ttl)
          end
      end
  end.

Definition args_fallback (a : SmartArgs) : string :=
  fallback_model (sa_catalog a) (sa_benchmarks a) (sa_policy a) (sa_require_tools a)
    (Some (sa_labels a)).

(** The resolution ladder of a classified request, with whether an explicit binding
    decided. *)
Definition resolve_label (a : SmartArgs) (label : string) (lb : Labelled) : SmartResult * bool :=
  let c := sa_catalog a in
  let pol := sa_policy a in
  let result m why meta :=
    {| sm_model_id := m; route_reason := "label:" +:+ label +:+ why; sm_label := Some label;
       classify_ms := lb_ms lb; label_metadata := meta; data_label := lb_data lb |} in
  let '(entry, origin) := binding_entry label c (sa_labels a) pol in
  let pick := benchmark_pick_for label c (sa_labels a) (sa_benchmarks a) pol (sa_require_tools a) in
  let cat := match category_for (sa_labels a) label with Some x => x | None => "None" end in
  match entry with
  | Some e =>
      let meta := with_bench (lb_meta lb) (id e) pick in
      if tools_ok (Some e) (sa_require_tools a) then (result (id e) origin meta, true)
      else match match pol with Some p => optimizer_steers_tools p | None => false end, nonempty pick with
           | true, Some p => (result p (":benchmark_best:" +:+ cat) meta, false)
           | _, _ => (result (args_fallback a) ":tools_guard" meta, true)
           end
  | None =>
      let other_ok := match nonempty (bound_id pol "other") with
                      | Some o => tools_ok (catalog_get c o) (sa_require_tools a)
                      | None => false
                      end in
      match nonempty pick, category_for (sa_labels a) label, other_ok with
      | Some p, Some cat, false => (result p (":benchmark_best:" +:+ cat) (lb_meta lb), false)
      | _, _, _ => (result (args_fallback a) ":fallback" (lb_meta lb), false)
      end
  end.

(** [smart_route] *)
Definition smart_route (st : SmartState) (redis : option R) (a : SmartArgs) (clk : Clock)
    : SmartResult * SmartState * option R :=
  let '(lb, st, redis) := label_request st redis a clk in
  match lb_label lb with
  | None =>
      ({| sm_model_id := args_fallback a; route_reason := "smart:classify_failed";
          sm_label := None; classify_ms := lb_ms lb; label_metadata := None;
          data_label := lb_data lb |}, st, redis)
  | Some label =>
      let '(r, bound) := resolve_label a label lb in
      (if sa_warmth_routing a
       then warm_hold r (sa_catalog a) (warmth st) (sa_key a) (sa_require_tools a) (sa_policy a)
              bound (at_warm clk)
       else r, st, redis)
  end.

(** ** Facts about the tables *)

Definition smart_inv (st : SmartState) : Prop :=
  length (memo st) ≤ LABEL_CACHE_MAX ∧ NoDup (dkeys (memo st)) ∧
  length (warmth st) ≤ WARMTH_MAX ∧ NoDup (dkeys (warmth st)).

Lemma cache_get_inv m key now :
  length m ≤ LABEL_CACHE_MAX → NoDup (dkeys m) →
  length (cache_get m key now).2 ≤ LABEL_CACHE_MAX ∧ NoDup (dkeys (cache_get m key now).2).
Proof.
  intros Hl Hnd. unfold cache_get. destruct (dget m key) as [r|] eqn:E; [|done].
  destruct (Qltb (expiry r) now); cbn [snd].
  - split; [pose proof (length_dpop m key); lia|by apply NoDup_dpop].
  - split; [|by apply NoDup_dset]. rewrite length_dset. unfold dmem. by rewrite E.
Qed.

Lemma cache_put_inv m key l meta ttl d now :
  length m ≤ LABEL_CACHE_MAX → NoDup (dkeys m) →
  length (cache_put m key l meta ttl d now) ≤ LABEL_CACHE_MAX ∧
  NoDup (dkeys (cache_put m key l meta ttl d now)).
Proof.
  intros Hl Hnd. unfold cache_put. split.
  - apply length_evict_dset; [unfold LABEL_CACHE_MAX; lia|done].
  - apply NoDup_dset. case_match; [by apply NoDup_dpop_first|done].
Qed.

Lemma lookup_memo_inv st redis a now :
  smart_inv st → smart_inv (lookup_memo st redis a now).2 ∧
  warmth (lookup_memo st redis a now).2 = warmth st.
Proof.
  intros (Hl & Hnd & Hw). unfold lookup_memo.
  pose proof (cache_get_inv (memo st) (args_key a) now Hl Hnd) as [Hl' Hnd'].
  destruct (cache_get (memo st) (args_key a) now) as [hit m]. cbn [snd] in *.
  destruct hit as [h|]; [done|]. destruct (l2_get redis (args_key a)) as [h|]; [|done]. cbn [snd].
  split; [|done]. pose proof (cache_put_inv m (args_key a) (c_label h) (c_meta h) LABEL_TTL_S
    (c_data_label h) now Hl' Hnd') as [??]. done.
Qed.

Lemma label_request_inv st redis a clk :
  smart_inv st → smart_inv (label_request st redis a clk).1.2 ∧
  warmth (label_request st redis a clk).1.2 = warmth st.
Proof.
  intros Hinv. unfold label_request.
  pose proof (lookup_memo_inv st redis a (at_get clk) Hinv) as [Hi Hw].
  destruct (lookup_memo st redis a (at_get clk)) as [hit st']. cbn [snd] in *.
  destruct hit as [h|]; [done|]. destruct (catalog_get _ _); [|done].
  destruct (classify_call a) as [[[l|] meta] d]; [|done].
  destruct (decide_hold a (warmth st') l meta) as [ttl meta']. cbn. split; [|done].
  destruct Hi as (Hl & Hnd & Hws). pose proof (cache_put_inv (memo st') (args_key a) l meta' ttl d
    (at_put clk) Hl Hnd) as [??]. done.
Qed.

Lemma smart_route_state st redis a clk :
  (smart_route st redis a clk).1.2 = (label_request st redis a clk).1.2.
Proof.
  unfold smart_route. destruct (label_request st redis a clk) as [[lb st'] r].
  destruct (lb_label lb); [|done]. by destruct (resolve_label a s lb).
Qed.

(** ** Properties of the route *)

Lemma resolve_label_resolved a label lb :
  NoDup (id <$> sa_catalog a) → sa_catalog a ≠ [] →
  resolved (sa_catalog a) (sa_require_tools a) (sm_model_id (resolve_label a label lb).1).
Proof.
  intros Hnd Hc. pose proof (fallback_resolved (sa_catalog a) (sa_benchmarks a) (sa_policy a)
    (sa_require_tools a) (Some (sa_labels a)) Hnd Hc) as Hfb.
  unfold resolve_label. destruct (binding_entry _ _ _ _) as [[e|] o] eqn:Eb.
  - apply binding_entry_get in Eb; [|done].
    destruct (tools_ok (Some e) (sa_require_tools a)) eqn:Et.
    { apply tools_ok_resolved. cbn. by rewrite Eb. }
    destruct (match sa_policy a with Some p => optimizer_steers_tools p | None => false end),
      (nonempty (benchmark_pick_for label (sa_catalog a) (sa_labels a) (sa_benchmarks a)
         (sa_policy a) (sa_require_tools a))) as [p|] eqn:Ep; try exact Hfb.
    apply nonempty_some in Ep as [Ep _]. by eapply benchmark_pick_resolved.
  - destruct (nonempty (benchmark_pick_for _ _ _ _ _ _)) as [p|] eqn:Ep; [|exact Hfb].
    destruct (category_for _ _); [|exact Hfb]. case_match; [exact Hfb|].
    apply nonempty_some in Ep as [Ep _]. by eapply benchmark_pick_resolved.
Qed.

(** Smart routing always lands on a catalog entry, and a tools-bearing request on a
    tools-capable one whenever the catalog has any: whatever the classifier prints or
    fails to print, whatever is memoized, bound, benchmarked or held warm. *)
Theorem smart_route_resolves st redis a clk :
  NoDup (id <$> sa_catalog a) → sa_catalog a ≠ [] →
  resolved (sa_catalog a) (sa_require_tools a) (sm_model_id (smart_route st redis a clk).1.1).
Proof.
  intros Hnd Hc. unfold smart_route. destruct (label_request st redis a clk) as [[lb st'] r'].
  destruct (lb_label lb) as [label|]; [|by apply fallback_resolved].
  pose proof (resolve_label_resolved a label lb Hnd Hc) as Hr.
  destruct (resolve_label a label lb) as [r bound]. cbn [fst] in *.
  destruct (sa_warmth_routing a); [|done].
  destruct (warm_hold_cases r (sa_catalog a) (warmth st') (sa_key a) (sa_require_tools a) (sa_policy a)
    bound (at_warm clk)) as [->|(w & m & e & _ & _ & _ & -> & He & Ht & _)]; [done|].
  apply tools_ok_resolved. by rewrite He.
Qed.

(** An explicit binding is final: when the label of the request is bound to an entry
    that can serve it, that entry is the result — no benchmark score, no warm incumbent
    and no fallback displaces it. *)
Theorem binding_is_final st redis a clk label e origin :
  lb_label (label_request st redis a clk).1.1 = Some label →
  binding_entry label (sa_catalog a) (sa_labels a) (sa_policy a) = (Some e, origin) →
  tools_ok (Some e) (sa_require_tools a) = true →
  sm_model_id (smart_route st redis a clk).1.1 = id e ∧
  route_reason (smart_route st redis a clk).1.1 = "label:" +:+ label +:+ origin.
Proof.
  intros Hl Hb Ht. unfold smart_route. destruct (label_request st redis a clk) as [[lb st'] r'].
  cbn [fst] in Hl. rewrite Hl. unfold resolve_label. rewrite Hb, Ht.
  by destruct (sa_warmth_routing a).
Qed.

(** A row that holds until [t] answers every lookup up to [t], and slides. *)
Definition holds (m : list (string * MemoRow)) (key l : string) (d : option string) (ttl t : Q) : Prop :=
  ∃ r, dget m key = Some r ∧ row_label r = l ∧ row_data_label r = d ∧ row_ttl r = ttl ∧ expiry r = t.

Lemma holds_lookup st redis a clk l d ttl t :
  holds (memo st) (args_key a) l d ttl t → (at_get clk <= t)%Q →
  let out := label_request st redis a clk in
  lb_label out.1.1 = Some l ∧ lb_data out.1.1 = d ∧ lb_ms out.1.1 = None ∧
  holds (memo out.1.2) (args_key a) l d ttl (at_get clk + ttl).
Proof.
  intros (r & Hr & <- & <- & <- & <-) Ht. unfold label_request, lookup_memo, cache_get. rewrite Hr.
  assert (Qltb (expiry r) (at_get clk) = false) as -> by q_solve. cbn.
  do 3 (split; [done|]). eexists. rewrite dget_dset_eq. done.
Qed.

Lemma classified_holds st redis a clk l ms :
  lb_label (label_request st redis a clk).1.1 = Some l →
  lb_ms (label_request st redis a clk).1.1 = Some ms →
  ∃ ttl, holds (memo (label_request st redis a clk).1.2) (args_key a) l
           (lb_data (label_request st redis a clk).1.1) ttl (at_put clk + ttl) ∧
         (sa_stick a = None → ttl = LABEL_TTL_S).
Proof.
  unfold label_request. destruct (lookup_memo st redis a (at_get clk)) as [[h|] st']; [done|].
  destruct (catalog_get _ _); [|done]. destruct (classify_call a) as [[[l'|] meta] d]; [|done].
  destruct (decide_hold a (warmth st') l' meta) as [ttl meta'] eqn:Ed. cbn. intros [= ->] _.
  exists ttl. split.
  - eexists. unfold cache_put. rewrite dget_dset_eq. done.
  - intros Hs. unfold decide_hold in Ed. rewrite Hs in Ed. by injection Ed as <- _.
Qed.

(** The turns of one conversation, each with its own arguments and clock. *)
Fixpoint turns_run (st : SmartState) (redis : option R) (ts : list (SmartArgs * Clock))
    : list Labelled * SmartState :=
  match ts with
  | [] => ([], st)
  | (a, clk) :: ts =>
      let out := label_request st redis a clk in
      let '(ls, st) := turns_run out.1.2 out.2 ts in (out.1.1 :: ls, st)
  end.

(** Each turn comes within [ttl] of the previous one, which was at [t]. *)
Fixpoint within (ttl t : Q) (ts : list (SmartArgs * Clock)) : Prop :=
  match ts with
  | [] => True
  | (a, clk) :: ts => (at_get clk <= t + ttl)%Q ∧ within ttl (at_get clk) ts
  end.

Lemma sticky_from st redis key l d ttl t ts :
  holds (memo st) key l d ttl (t + ttl) → within ttl t ts →
  (∀ a clk, (a, clk) ∈ ts → args_key a = key) →
  ∀ lb, lb ∈ (turns_run st redis ts).1 → lb_label lb = Some l ∧ lb_data lb = d ∧ lb_ms lb = None.
Proof.
  revert st redis t. induction ts as [|[a clk] ts IH]; intros st redis t Hh Hw Hk lb.
  { by intros ?%elem_of_nil. }
  destruct Hw as [Ht Hw]. cbn [turns_run].
  rewrite <- (Hk a clk) in Hh by left.
  destruct (holds_lookup st redis a clk l d ttl (t + ttl) Hh Ht) as (H1 & H2 & H3 & H4).
  rewrite (Hk a clk) in H4 by left.
  specialize (IH (label_request st redis a clk).1.2 (label_request st redis a clk).2 (at_get clk) H4 Hw).
  destruct (turns_run _ _ ts) as [ls st']. cbn [fst] in *.
  intros [->|Hlb]%elem_of_cons; [done|]. apply IH; [|done].
  intros a' clk' Hin. apply (Hk a' clk'). by right.
Qed.

(** A conversation classifies once: after the classifying turn, every later turn with
    the same anchor and vocabulary that comes within the hold of the previous one reuses
    the label and the data classification without calling the classifier, and slides the
    hold — whatever it says, whatever policy or taxonomy it now carries. *)
Theorem conversation_is_sticky st redis a clk l ms ts :
  lb_label (label_request st redis a clk).1.1 = Some l →
  lb_ms (label_request st redis a clk).1.1 = Some ms →
  (∀ a' clk', (a', clk') ∈ ts → args_key a' = args_key a) →
  ∃ ttl, within ttl (at_put clk) ts →
    ∀ lb, lb ∈ (turns_run (label_request st redis a clk).1.2 (label_request st redis a clk).2 ts).1 →
      lb_label lb = Some l ∧ lb_data lb = lb_data (label_request st redis a clk).1.1 ∧ lb_ms lb = None.
Proof.
  intros Hl Hms Hk. destruct (classified_holds st redis a clk l ms Hl Hms) as (ttl & Hh & _). exists ttl.
  intros Hw. by eapply sticky_from.
Qed.

(** The memo does not separate callers by taxonomy: a conversation first classified
    for a caller without one is answered, for a caller who has one, from the memo and
    without a data classification, so the classifier never gets to see the second
    caller's sensitivity labels. *)
Theorem memo_skips_taxonomy st redis a clk l ms a' clk' :
  lb_label (label_request st redis a clk).1.1 = Some l →
  lb_ms (label_request st redis a clk).1.1 = Some ms →
  sa_stick a = None → sa_taxonomy a = None → args_key a' = args_key a →
  (at_get clk' <= at_put clk + LABEL_TTL_S)%Q →
  let out := label_request (label_request st redis a clk).1.2 (label_request st redis a clk).2 a' clk' in
  lb_label out.1.1 = Some l ∧ lb_data out.1.1 = None ∧ lb_ms out.1.1 = None.
Proof.
  intros Hl Hms Hst Htax Hk Ht out.
  destruct (classified_holds st redis a clk l ms Hl Hms) as (ttl & Hh & Httl).
  rewrite (Httl Hst) in Hh. rewrite <- Hk in Hh.
  destruct (holds_lookup _ (label_request st redis a clk).2 a' clk' _ _ _ _ Hh Ht) as (H1 & H2 & H3 & _).
  fold out in H1, H2, H3. split; [done|]. split; [|done]. rewrite H2. clear -Hms Hl Htax.
  unfold label_request in *. destruct (lookup_memo st redis a (at_get clk)) as [[h|] st']; [done|].
  destruct (catalog_get _ _); [|done]. unfold classify_call in *. rewrite Htax in *.
  destruct (classify_fn _ _) as [raw|]; [|done].
  destruct (parse_label _ _ _); [|done]. by destruct (decide_hold _ _ _ _).
Qed.

(** The tables evolve by routed requests and finalized turns. *)
Inductive smart_step (st : SmartState) : SmartState → Prop :=
  | StepRoute redis a clk : smart_step st (smart_route st redis a clk).1.2
  | StepServed key cached served now :
      smart_step st {| memo := memo st; warmth := record_warmth (warmth st) key cached served now |}.

Inductive smart_reachable : SmartState → Prop :=
  | ReachNew : smart_reachable new_smart_state
  | ReachStep st st' : smart_reachable st → smart_step st st' → smart_reachable st'.

Lemma record_warmth_inv w key cached served now :
  length w ≤ WARMTH_MAX → NoDup (dkeys w) →
  length (record_warmth w key cached served now) ≤ WARMTH_MAX ∧
  NoDup (dkeys (record_warmth w key cached served now)).
Proof.
  intros Hl Hnd. unfold record_warmth. destruct (nonempty key) as [k|]; [|done].
  destruct (dget w k) as [s|] eqn:E.
  - split; [|by apply NoDup_dset]. rewrite length_dset. unfold dmem. by rewrite E.
  - split; [|by repeat apply NoDup_dset; case_match; [apply NoDup_dpop_first|]].
    rewrite length_dset. unfold dmem at 1. rewrite dget_dset_eq.
    apply length_evict_dset; [unfold WARMTH_MAX; lia|done].
Qed.

(** However many conversations pass through, the two tables stay bounded: at most
    1024 memoized labels and 4096 warmth rows, each key once. *)
Theorem smart_tables_bounded st :
  smart_reachable st →
  length (memo st) ≤ LABEL_CACHE_MAX ∧ NoDup (dkeys (memo st)) ∧
  length (warmth st) ≤ WARMTH_MAX ∧ NoDup (dkeys (warmth st)).
Proof.
  induction 1 as [|st st' _ IH Hstep].
  { cbn. repeat split; try lia; apply NoDup_nil_2. }
  destruct Hstep as [redis a clk|key cached served now].
  - rewrite smart_route_state. by apply label_request_inv.
  - destruct IH as (Hl & Hnd & Hw & Hwd). cbn.
    pose proof (record_warmth_inv (warmth st) key cached served now Hw Hwd) as [??]. done.
Qed.
End route.

(** The production ladder: a declared session gets the four-hour identity hold;
    any other conversation gets its label's hold, raised — never lowered — to an hour
    exactly while the conversation is warm. *)
Theorem toto_ladder defaults w ctx :
  let d := toto_assess defaults w ctx in
  let l := label_ttl_assess defaults ctx in
  (is_declared (ctx_key ctx) = true → hold_ttl d = DECLARED_TTL_S) ∧
  (is_declared (ctx_key ctx) = false →
     (hold_ttl l <= hold_ttl d)%Q ∧ (hold_ttl d = hold_ttl l ∨ hold_ttl d = 3600%Q) ∧
     (stick_reason (warmth_assess LABEL_TTL_S 3600 3 w ctx) = "warmth_hold" → (3600 <= hold_ttl d)%Q) ∧
     (stick_reason (warmth_assess LABEL_TTL_S 3600 3 w ctx) = "warmth_cold" → hold_ttl d = hold_ttl l)).
Proof.
  cbn zeta. unfold toto_assess. split; [by intros ->|]. intros ->.
  set (l := label_ttl_assess defaults ctx). set (x := warmth_assess _ _ _ w ctx).
  assert (stick_reason x = "warmth_hold" ∧ hold_ttl x = 3600%Q ∨ stick_reason x = "warmth_cold") as Hx.
  { unfold x, warmth_assess. case_match; [by left|by right]. }
  clearbody l x. destruct Hx as [[-> Hh]| ->].
  - rewrite Hh, bool_decide_eq_true_2 by done. cbn [andb]. destruct (Qltb (hold_ttl l) 3600) eqn:E; cbn; q_to_prop.
    + split; [lra|]. split; [by right|]. split; [intros _; lra|done].
    + split; [lra|]. split; [by left|]. split; [intros _; lra|done].
  - rewrite bool_decide_eq_false_2 by done. cbn. split; [lra|]. split; [by left|done].
Qed.

(** ** Witnesses: one tools-capable catalog, a classifier that answers "code_generation" *)

Definition demo_label_loads (s : string) : option json :=
  Some (JObj [("label", JStr "code_generation")]).

Abbreviation demo_label := (label_request (λ s, s) demo_label_loads (X:=unit) c_label (λ _, None)
  "{label_block}" (λ _ _, Some "reply")).
Abbreviation demo_smart := (smart_route (λ s, s) demo_label_loads (X:=unit) c_label (λ _, None)
  "{label_block}" (λ _ _, Some "reply")).

Definition demo_args (key : string) (tax : option Taxonomy) : SmartArgs :=
  {| sa_text := "write a parser"; sa_catalog := demo_catalog; sa_labels := demo_labels;
     sa_benchmarks := Some demo_bench; sa_classifier := "local"; sa_policy := None;
     sa_require_tools := true; sa_key := Some key; sa_stick := None; sa_warmth_routing := true;
     sa_taxonomy := tax |}.

Definition demo_clock (t : Q) : Clock := {| at_get := t; at_put := t; at_warm := t; call_ms := 40 |}.

Definition demo_redis : option (list (string * string)) := Some [].

Lemma smart_route_resolves_witness :
  resolved demo_catalog true
    (sm_model_id (demo_smart new_smart_state demo_redis (demo_args "c" None) (demo_clock 0)).1.1).
Proof.
  apply (smart_route_resolves (λ s, s) demo_label_loads (X:=unit) c_label (λ _, None) "{label_block}"
    (λ _ _, Some "reply") new_smart_state demo_redis (demo_args "c" None) (demo_clock 0));
    [vm_decide|done].
Defined.

Lemma binding_is_final_witness :
  sm_model_id (demo_smart new_smart_state demo_redis (demo_args "c" None) (demo_clock 0)).1.1 = "gpt".
Proof.
  apply (binding_is_final (λ s, s) demo_label_loads (X:=unit) c_label (λ _, None) "{label_block}"
    (λ _ _, Some "reply") new_smart_state demo_redis (demo_args "c" None) (demo_clock 0)
    "code_generation" demo_cloud ""); vm_compute; reflexivity.
Defined.

Definition demo_fresh : SmartResult :=
  {| sm_model_id := "local"; route_reason := "label:other:fallback"; sm_label := Some "other";
     classify_ms := None; label_metadata := None; data_label := None |}.

Definition demo_warmth : list (string * Warmth) := record_warmth [] (Some "c") 512 (Some "gpt") 100.

Lemma warm_hold_sound_witness :
  ∃ st m e, false = false ∧ warmth_of demo_warmth (Some "c") = Some st ∧ last_model st = Some m ∧
    sm_model_id (warm_hold demo_fresh demo_catalog demo_warmth (Some "c") true None false 200) = m ∧
    catalog_get demo_catalog m = Some e ∧ tools_ok (Some e) true = true ∧
    (∀ p, (None : option Policy) = Some p → permits p e = true) ∧ (last_tokens_cached st ≠ 0)%Z ∧
    (200 - last_seen st < Qz (cache_ttl_window (Some e)))%Q.
Proof.
  apply (warm_hold_sound demo_fresh demo_catalog demo_warmth (Some "c") true None false 200).
  vm_compute. discriminate.
Defined.

Definition demo_state_1 : SmartState :=
  (demo_label new_smart_state demo_redis (demo_args "c" None) (demo_clock 0)).1.2.

Lemma conversation_is_sticky_witness :
  ∃ ttl, within ttl 0 [(demo_args "c" None, demo_clock 60)] →
    ∀ lb, lb ∈ (turns_run (λ s, s) demo_label_loads (X:=unit) c_label (λ _, None) "{label_block}"
                  (λ _ _, Some "reply") demo_state_1
                  (demo_label new_smart_state demo_redis (demo_args "c" None) (demo_clock 0)).2
                  [(demo_args "c" None, demo_clock 60)]).1 →
      lb_label lb = Some "code_generation" ∧
      lb_data lb = lb_data (demo_label new_smart_state demo_redis (demo_args "c" None) (demo_clock 0)).1.1 ∧
      lb_ms lb = None.
Proof.
  apply (conversation_is_sticky (λ s, s) demo_label_loads (X:=unit) c_label (λ _, None) "{label_block}"
    (λ _ _, Some "reply") new_smart_state demo_redis (demo_args "c" None) (demo_clock 0)
    "code_generation" 40 [(demo_args "c" None, demo_clock 60)]).
  - vm_compute. reflexivity.
  - vm_compute. reflexivity.
  - intros a clk [= -> ->]%list_elem_of_singleton. reflexivity.
Defined.

Definition demo_taxonomy : Taxonomy :=
  {| tax_labels := [("phi", {| tax_constraint := Some "deny"; tax_desc := None |})]; tax_default := None |}.

Lemma memo_skips_taxonomy_witness :
  lb_data (demo_label demo_state_1
             (demo_label new_smart_state demo_redis (demo_args "c" None) (demo_clock 0)).2
             (demo_args "c" (Some demo_taxonomy)) (demo_clock 60)).1.1 = None.
Proof.
  apply (memo_skips_taxonomy (λ s, s) demo_label_loads (X:=unit) c_label (λ _, None) "{label_block}"
    (λ _ _, Some "reply") new_smart_state demo_redis (demo_args "c" None) (demo_clock 0)
    "code_generation" 40 (demo_args "c" (Some demo_taxonomy)) (demo_clock 60)).
  - vm_compute. reflexivity.
  - vm_compute. reflexivity.
  - reflexivity.
  - reflexivity.
  - reflexivity.
  - unfold LABEL_TTL_S. cbn. lra.
Defined.

Lemma smart_tables_bounded_witness : length (memo demo_state_1) ≤ LABEL_CACHE_MAX.
Proof.
  apply (smart_tables_bounded (λ s, s) demo_label_loads (X:=unit) c_label (λ _, None) "{label_block}"
    (λ _ _, Some "reply") demo_state_1).
  unfold demo_state_1. rewrite <- smart_route_state. eapply ReachStep; [apply ReachNew|].
  apply StepRoute.
Defined.
