(* ===== verification/Candidates.v ===== *)
(** * Provider candidates ([routing/candidates.py])

    The immutable index of provider-inventory candidates, its scope-exact resolution, the
    listing of the entries a caller can route to, the partition swap, and the final
    eligibility of a discovered route. *)

From S2P Require Import Prelude PyStr PyDict Schemas Catalog Domain Identity Policy.

(** ** Data ([credentials.py]) *)

(** [PROVIDERS[name].api_key_env] *)
Definition provider_key_env (p : ProviderName) : string :=
  match p with
  | openrouter => "OPENROUTER_API_KEY" | fireworks => "FIREWORKS_API_KEY"
  end.

(** [candidate_partition_key] *)
Definition partition_key (c : RoutingCandidate) : ProviderName * CredentialScopeRef :=
  (c_provider c, c_scope c).

(** [_materialize] *)
Definition materialize (c : RoutingCandidate) : CatalogEntry :=
  let caps := capabilities c in
  {| id := route_id c; aliases := []; lane := provider_lane; endpoint := "openai";
     residency_class := cloud;
     price_usd_per_1k :=
       {| prompt := match offer_prompt (pricing c) with Some q => q | None => 0 end;
          completion := match offer_completion (pricing c) with Some q => q | None => 0 end;
          cache_read_multiplier := 1 # 10; cache_write_multiplier := 1 |};
     context_window := match cap_context_window caps with Some z => z | None => 0 end;
     cache_ttl_s := None;
     upstream_model := Some (upstream_model_id c); base_url := Some (c_base_url c);
     api_key_env := provider_key_env (c_provider c);
     tools := "tools" ∈? cap_supported caps;
     identity_id := Some (c_identity_id c); offer_id := Some (c_offer_id c);
     provider := Some (provider_str (c_provider c)); credential_scope := Some (c_scope c);
     modalities := cap_modalities caps; supported_parameters := cap_supported caps;
     max_output_tokens := cap_max_output_tokens caps;
     snapshot_completed_at := Some (c_completed_at c);
     snapshot_expires_at := Some (c_expires_at c);
     capability_residency := cap_residency caps; source := None; price_source := discovered |}.

(** ** The index *)

(** [CandidateCatalog._candidates]; [_by_route[r]] is its sublist of route [r]. *)
Abbreviation CandidateCatalog := (list RoutingCandidate).

Definition by_route (cc : CandidateCatalog) (model_id : string) : list RoutingCandidate :=
  List.filter (λ c, route_id c ≡? model_id) cc.

(** [_effective_scope]: the authenticated mapping only, coerced; never inferred. *)
Definition effective_scope (who : Identity) (p : ProviderName) : option CredentialScopeRef :=
  match provider_credential_scopes who with
  | None => None
  | Some m => match dget m (provider_str p) with Some s => s | None => None end
  end.

(** [CandidateCatalog.resolve]; [None] is [CandidateNotFound]. *)
Definition resolve_candidate (cc : CandidateCatalog) (base : Catalog) (who : Identity)
    (model_id : string) : option CatalogEntry :=
  match catalog_get base model_id with
  | Some e => Some e
  | None =>
      match by_route cc model_id with
      | [] => None
      | (c0 :: _) as routes =>
          match effective_scope who (c_provider c0) with
          | None => None
          | Some s =>
              materialize <$> max_by c_completed_at (List.filter (λ c, c_scope c ≡? s) routes)
          end
      end
  end.

Definition platform_scope : CredentialScopeRef := {| kind := platform; scope_id := "platform" |}.

(** The scope whose rows [entries_for] lists for a provider: the caller's own when it is
    not a platform scope. *)
Definition wanted_scope (who : Identity) (p : ProviderName) : CredentialScopeRef :=
  match effective_scope who p with
  | Some s => if kind s ≡? platform then platform_scope else s
  | None => platform_scope
  end.

Definition listable (base : Catalog) (who : Identity) (now : Q) (c : RoutingCandidate) : bool :=
  (c_scope c ≡? wanted_scope who (c_provider c)) && negb (Qltb (c_expires_at c) now)
  && match catalog_get base (route_id c) with Some _ => false | None => true end.

Definition latest_step (latest : list (string * RoutingCandidate)) (c : RoutingCandidate)
    : list (string * RoutingCandidate) :=
  match dget latest (route_id c) with
  | None => dset latest (route_id c) c
  | Some cur => if Qltb (c_completed_at cur) (c_completed_at c)
                then dset latest (route_id c) c else latest
  end.

(** [entries_for] *)
Definition entries_for (cc : CandidateCatalog) (base : Catalog) (who : Identity) (now : Q)
    : list CatalogEntry :=
  materialize <$> (foldl latest_step [] (List.filter (listable base who now) cc)).*2.

Definition platform_entries (cc : CandidateCatalog) (base : Catalog) (now : Q) : list CatalogEntry :=
  entries_for cc base no_identity now.

(** The sort key of [replace_scope_partitions]. *)
Definition candidate_leb (a b : RoutingCandidate) : bool :=
  let key c := [provider_str (c_provider c); kind_str (kind (c_scope c)); scope_id (c_scope c); route_id c] in
  let fix lex x y := match x, y with
                     | s :: x, t :: y => if s ≡? t then lex x y else str_leb s t
                     | [], _ => true
                     | _, [] => false
                     end in
  lex (key a) (key b).

(** [replace_scope_partitions] *)
Definition replace_scope_partitions (cc : CandidateCatalog)
    (rs : list (ProviderName * CredentialScopeRef * list RoutingCandidate)) : CandidateCatalog :=
  match rs with
  | [] => cc
  | _ => sort_by candidate_leb
           (List.filter (λ c, negb (partition_key c ∈? rs.*1)) cc ++ flat_map snd rs)
  end.

(** ** Eligibility *)

Record EligibilityContext := {
  ctx_tokens : Z;
  ctx_max_output : Z;
  ctx_has_tools : bool;
  ctx_modalities : list string;
  ctx_parameters : list string;
  ctx_user_envs : list string;
  ctx_platform_envs : list string;
  ctx_now : Q;
}.

Definition expired (e : CatalogEntry) (now : Q) : bool :=
  match snapshot_expires_at e with Some t => Qltb t now | None => false end.

(** [EligibilityEngine.evaluate]: the list of objections, empty when eligible. *)
Definition evaluate (e : CatalogEntry) (ctx : EligibilityContext) (pol : option Policy) : list string :=
  if negb (lane e ≡? provider_lane) then []
  else
    (if expired e (ctx_now ctx) then ["snapshot_expired"] else [])
    ++ (if (context_window e <=? 0)%Z || (context_window e <? ctx_tokens ctx + ctx_max_output ctx)%Z
        then ["context_window_exceeded"] else [])
    ++ (match max_output_tokens e with
        | Some m => if negb (ctx_max_output ctx =? 0)%Z && (m <? ctx_max_output ctx)%Z
                    then ["max_output_tokens_exceeded"] else []
        | None => []
        end)
    ++ (if ctx_has_tools ctx && negb (tools e) then ["tools_not_supported"] else [])
    ++ (let offered := match modalities e with [] => ["text"] | l => l end in
        (λ m, "modality_not_supported:" +:+ m) <$> List.filter (λ m, negb (m ∈? offered)) (ctx_modalities ctx))
    ++ ((λ p, "parameter_not_supported:" +:+ p) <$>
          List.filter (λ p, negb (p ≡? "tools") && negb (p ∈? supported_parameters e)) (ctx_parameters ctx))
    ++ (let byok := match credential_scope e with
                    | Some s => negb (kind s ≡? platform) | None => false end in
        if api_key_env e ∈? (if byok then ctx_user_envs ctx else ctx_platform_envs ctx)
        then [] else ["credential_unavailable"])
    ++ (match pol with
        | None => []
        | Some p =>
            if match residency_allow p with
               | Some l => negb (residency_str (residency_class e) ∈? l) | None => false end
            then ["residency_policy"]
            else if permits p e then [] else ["catalog_policy"]
        end).

(** ** Reading the request *)

Definition part_kind (part : list (string * json)) : string :=
  match dget part "type" with Some (JStr s) => s | _ => "" end.

(** [request_modalities] *)
Definition request_modalities (req : ChatCompletionRequest) : list string :=
  let kinds := flat_map (λ m, match content_of m with CParts ps => part_kind <$> ps | _ => [] end)
                        (messages req) in
  sorted_strs
    (["text"]
     ++ (if existsb (λ k, k ∈? ["image"; "image_url"; "input_image"]) kinds then ["image"] else [])
     ++ (if existsb (λ k, k ∈? ["audio"; "input_audio"]) kinds then ["audio"] else [])).

(** [requested_parameters] *)
Definition requested_parameters (req : ChatCompletionRequest) : list string :=
  sorted_strs (List.filter (λ k, negb (k ∈? ["model"; "messages"; "stream"; "stream_options"; "user";
                                            "conversation_key"; "cache_prefs"]))
                           (dump_keys req)).

(** ** Facts *)

(** Credentials are never blended: a dynamic route resolves only to a row of exactly
    the scope the caller's authenticated mapping names for its provider — the newest such
    row — and to nothing when the mapping names none or that scope has no row; a static
    entry always wins. *)
Theorem resolve_scope_exact cc base who i e :
  resolve_candidate cc base who i = Some e →
  catalog_get base i = Some e ∨
  (catalog_get base i = None ∧
   ∃ c s, c ∈ cc ∧ e = materialize c ∧ route_id c = i ∧ id e = i ∧ c_scope c = s ∧
     (∃ p, effective_scope who p = Some s ∧ ∃ c0, c0 ∈ cc ∧ route_id c0 = i ∧ c_provider c0 = p) ∧
     ∀ c', c' ∈ cc → route_id c' = i → c_scope c' = s → (c_completed_at c' <= c_completed_at c)%Q).
Proof.
  unfold resolve_candidate. destruct (catalog_get base i) as [b|] eqn:Eb; [by intros [= ->]; left|].
  destruct (by_route cc i) as [|c0 routes] eqn:Er; [done|].
  destruct (effective_scope who (c_provider c0)) as [s|] eqn:Es; [|done].
  intros (c & Hmax & ->)%fmap_Some. right. split; [done|].
  rewrite <- Er in Hmax.
  apply max_by_spec in Hmax as [[Hc Hsc]%elem_of_bfilter Hmax].
  apply elem_of_bfilter in Hc as [Hc Hri]. bool_to_prop. exists c, s.
  split; [done|]. split; [done|]. split; [done|]. split; [done|]. split; [done|]. split.
  - exists (c_provider c0). split; [done|]. exists c0.
    assert (c0 ∈ by_route cc i) as [? Hr]%elem_of_bfilter by (rewrite Er; left).
    bool_to_prop. done.
  - intros c' Hc' Hr' Hs'. apply Hmax. apply elem_of_bfilter.
    split; [apply elem_of_bfilter; split; [done|by apply bool_decide_eq_true]|by apply bool_decide_eq_true].
Qed.

Lemma latest_elem l latest k c :
  (k, c) ∈ foldl latest_step latest l → (k, c) ∈ latest ∨ (c ∈ l ∧ route_id c = k).
Proof.
  revert latest. induction l as [|c0 l IH]; intros latest; [by left|]. cbn.
  intros [Hin|[??]]%IH; [|right; split; [by right|done]].
  assert (∀ d, (k, c) ∈ dset d (route_id c0) c0 → (k, c) ∈ d ∨ (c = c0 ∧ k = route_id c0)) as Hset.
  { induction d as [|[k' v'] d IHd]; cbn.
    - intros [= -> ->]%list_elem_of_singleton. by right.
    - case_decide as H; intros [Heq|H']%elem_of_cons; simplify_eq.
      + by right.
      + left. by right.
      + left. left.
      + destruct (IHd H'); [left; by right|by right]. }
  unfold latest_step in Hin. destruct (dget latest (route_id c0)); [case_match|].
  - apply Hset in Hin as [?|[-> ->]]; [by left|right; split; [left|done]].
  - by left.
  - apply Hset in Hin as [?|[-> ->]]; [by left|right; split; [left|done]].
Qed.

(** The listing advertises only what resolves: every dynamic entry shown to a caller
    comes from an unexpired row of the caller's own scope for that provider (of the
    platform scope when the caller brings no key of its own) and shadows no static id. *)
Theorem entries_for_sound cc base who now e :
  e ∈ entries_for cc base who now →
  ∃ c, c ∈ cc ∧ e = materialize c ∧ c_scope c = wanted_scope who (c_provider c) ∧
    (now <= c_expires_at c)%Q ∧ catalog_get base (id e) = None.
Proof.
  intros (c & -> & ([k c'] & -> & Hin)%list_elem_of_fmap)%list_elem_of_fmap.
  apply latest_elem in Hin as [?%elem_of_nil|[Hin _]]; [done|].
  apply elem_of_bfilter in Hin as [Hc Hl]. unfold listable in Hl. bool_to_prop. q_to_prop.
  exists c'. cbn. split; [done|]. split; [done|]. split; [done|]. split; [done|].
  by destruct (catalog_get base (route_id c')).
Qed.

(** A partition swap replaces exactly the named provider/scope partitions: the new
    index holds the replacement rows and every old row outside them, and nothing else. *)
Theorem replace_exact cc rs c :
  rs ≠ [] →
  c ∈ replace_scope_partitions cc rs ↔
  (c ∈ cc ∧ partition_key c ∉ rs.*1) ∨ ∃ k l, (k, l) ∈ rs ∧ c ∈ l.
Proof.
  intros Hrs. unfold replace_scope_partitions. destruct rs as [|r rs']; [done|]. clear Hrs.
  rewrite elem_of_sort_by, elem_of_app, elem_of_bfilter, elem_of_flat_map, negb_true_iff,
    bool_decide_eq_false.
  split; (intros [?|H]; [by left|right]).
  - destruct H as ([k l] & ? & ?). eauto.
  - destruct H as (k & l & ? & ?). by exists (k, l).
Qed.

(** An eligible discovered route satisfies every condition of the request: a fresh
    snapshot, a window that fits prompt and output, the tools, modalities and parameters
    asked for, a credential in the caller's own class of keys, and the caller's policy. *)
Theorem evaluate_sound e ctx pol :
  lane e = provider_lane → evaluate e ctx pol = [] →
  (∀ t, snapshot_expires_at e = Some t → ctx_now ctx <= t)%Q ∧
  (0 < context_window e)%Z ∧ (ctx_tokens ctx + ctx_max_output ctx <= context_window e)%Z ∧
  (∀ m, max_output_tokens e = Some m → ctx_max_output ctx ≠ 0%Z → (ctx_max_output ctx <= m)%Z) ∧
  (ctx_has_tools ctx = true → tools e = true) ∧
  (∀ m, m ∈ ctx_modalities ctx → m ∈ modalities e ∨ (modalities e = [] ∧ m = "text")) ∧
  (∀ p, p ∈ ctx_parameters ctx → p = "tools" ∨ p ∈ supported_parameters e) ∧
  (∀ s, credential_scope e = Some s → kind s ≠ platform → api_key_env e ∈ ctx_user_envs ctx) ∧
  (∀ p, pol = Some p → permits p e = true).
Proof.
  intros Hl. unfold evaluate. rewrite bool_decide_eq_true_2 by done. cbn [negb].
  intros (H1 & (H2 & (H3 & (H4 & (H5 & (H6 & (H7 & H8)%app_nil)%app_nil)%app_nil)%app_nil)%app_nil)%app_nil)%app_nil.
  assert (∀ (A : Type) (f : A → bool) (g : A → string) l, g <$> List.filter f l = [] →
    ∀ x, x ∈ l → f x = false) as Hf.
  { intros A f g l Hnil x Hx. destruct (f x) eqn:E; [|done].
    assert (x ∈ List.filter f l) as Hin by (by apply elem_of_bfilter).
    destruct (List.filter f l); [by apply elem_of_nil in Hin|done]. }
  split; [|split; [|split; [|split; [|split; [|split; [|split; [|split]]]]]]].
  - intros t Ht. unfold expired in H1. rewrite Ht in H1. destruct (Qltb t (ctx_now ctx)) eqn:E; [done|].
    by q_to_prop.
  - destruct (Z.leb_spec (context_window e) 0); [done|lia].
  - destruct (Z.leb_spec (context_window e) 0); [done|].
    destruct (Z.ltb_spec (context_window e) (ctx_tokens ctx + ctx_max_output ctx)); [done|lia].
  - intros m Hm Hne. rewrite Hm in H3. destruct (Z.eqb_spec (ctx_max_output ctx) 0); [done|].
    destruct (Z.ltb_spec m (ctx_max_output ctx)); [done|lia].
  - intros Ht. rewrite Ht in H4. by destruct (tools e).
  - intros m Hm. pose proof (Hf _ _ _ _ H5 m Hm) as Hno. cbn beta in Hno. bool_to_prop.
    revert Hno. destruct (modalities e) as [|x l]; [intros ->%list_elem_of_singleton; by right|by left].
  - intros p Hp. pose proof (Hf _ _ _ _ H6 p Hp) as Hno. cbn beta in Hno.
    apply andb_false_iff in Hno as [Hno|Hno]; bool_to_prop; auto.
  - intros s Hs Hk. rewrite Hs in H7. cbn zeta in H7.
    rewrite (bool_decide_eq_false_2 (kind s = platform)) in H7 by done. cbn [negb] in H7.
    destruct (api_key_env e ∈? ctx_user_envs ctx) eqn:Ek; [|done]. by bool_to_prop.
  - intros p ->. case_match; [done|]. by destruct (permits p e).
Qed.

(** ** Witnesses *)

Definition demo_scope : CredentialScopeRef := {| kind := user_scope; scope_id := "u" |}.

Definition demo_candidate (r : string) (s : CredentialScopeRef) (t : Q) : RoutingCandidate :=
  {| c_snapshot := "s"; c_completed_at := t; c_expires_at := 1000; c_snapshot_offer_id := "so"; c_offer_id := "o"; c_identity_id := "i";
     route_id := r; c_provider := openrouter; upstream_model_id := "up"; c_base_url := "https://x";
     c_scope := s;
     capabilities := {| cap_context_window := Some 1000%Z; cap_max_output_tokens := None;
                        cap_modalities := []; cap_supported := ["tools"]; cap_residency := [] |};
     pricing := {| offer_prompt := None; offer_completion := None; offer_request := None; offer_image := None |};
     c_revision := "1"; c_raw := [] |}.

Definition demo_candidates : CandidateCatalog :=
  [demo_candidate "r" platform_scope 9; demo_candidate "r" demo_scope 1; demo_candidate "r" demo_scope 2].

Definition demo_byok : Identity :=
  {| org_id := None; team_id := None; user_id := Some "u"; catalog_policy := None;
     routing_policy := None; org_allowlist := None; catalog_adoptions := [];
     price_overrides := ∅; provider_credential_scopes := Some [("openrouter", Some demo_scope)];
     zero_retention := false |}.

Lemma resolve_scope_exact_witness :
  resolve_candidate demo_candidates demo_catalog demo_byok "r" = Some (materialize (demo_candidate "r" demo_scope 2)) ∧
  (catalog_get demo_catalog "r" = Some (materialize (demo_candidate "r" demo_scope 2)) ∨
   ∃ c s, c ∈ demo_candidates ∧ c_scope c = s ∧ effective_scope demo_byok openrouter = Some s).
Proof.
  split; [reflexivity|].
  destruct (resolve_scope_exact demo_candidates demo_catalog demo_byok "r"
    (materialize (demo_candidate "r" demo_scope 2))) as [?|(_ & c & s & Hc & _ & _ & _ & Hs & (p & Hp & _) & _)];
    [reflexivity|by left|].
  right. exists c, s. destruct p; [|by vm_compute in Hp].
  split; [exact Hc|]. split; [exact Hs|exact Hp].
Defined.

Lemma entries_for_sound_witness :
  ∃ c, c ∈ demo_candidates ∧ c_scope c = demo_scope.
Proof.
  destruct (entries_for_sound demo_candidates demo_catalog demo_byok 10
    (materialize (demo_candidate "r" demo_scope 2))) as (c & Hc & _ & Hs & _).
  - vm_compute. left.
  - exists c. split; [done|]. rewrite Hs. repeat (apply elem_of_cons in Hc as [->|Hc]; [done|]).
    by apply elem_of_nil in Hc.
Defined.

Lemma replace_exact_witness :
  demo_candidate "r" demo_scope 1 ∈
    replace_scope_partitions demo_candidates [((openrouter, platform_scope), [])] ↔
  (demo_candidate "r" demo_scope 1 ∈ demo_candidates ∧
   partition_key (demo_candidate "r" demo_scope 1) ∉ [(openrouter, platform_scope)]) ∨
  ∃ k l, (k, l) ∈ [((openrouter, platform_scope), [] : list RoutingCandidate)] ∧
    demo_candidate "r" demo_scope 1 ∈ l.
Proof. apply (replace_exact demo_candidates [((openrouter, platform_scope), [])]). done. Defined.

Definition demo_eligible : EligibilityContext :=
  {| ctx_tokens := 100; ctx_max_output := 200; ctx_has_tools := true; ctx_modalities := ["text"];
     ctx_parameters := ["tools"]; ctx_user_envs := ["OPENROUTER_API_KEY"]; ctx_platform_envs := [];
     ctx_now := 10 |}.

Lemma evaluate_sound_witness :
  (100 + 200 <= context_window (materialize (demo_candidate "r" demo_scope 2)))%Z.
Proof.
  apply (evaluate_sound (materialize (demo_candidate "r" demo_scope 2)) demo_eligible None);
    [reflexivity|vm_compute; reflexivity].
Defined.
