(* ===== verification/Hydration.v ===== *)
(** * Keeping the routing candidates in step ([BenchmarkPlatform._hydrate_candidates],
      [_sync_candidate_partitions])

    The candidate index that requests are routed on follows the store: a full load at the
    start, and an incremental one that fetches only the partitions (provider and credential
    scope) whose revision changed.  Between its three reads other tasks and other replicas
    may commit; a turn of the loop therefore takes the three stores it reads.

    The theorems: the incremental load refines the full one. *)

From S2P Require Import Prelude.
From S2P Require Import PyStr.
From S2P Require Import PyDict.
From S2P Require Import Schemas.
From S2P Require Import Catalog.
From S2P Require Import Domain.
From S2P Require Import Ledger.
From S2P Require Import InventoryStore.
From S2P Require Import InventoryReads.
From S2P Require Import Policy.
From S2P Require Import Candidates.

Abbreviation Partition := (ProviderName * CredentialScopeRef)%type.

(** ** State *)

(** The candidate index, the revision it holds of each partition, the generation of the
    loads, and what was published. *)
Record Hydrated := {
  hy_catalog : CandidateCatalog;
  hy_revisions : list (Partition * string);
  hy_generation : nat;
  hy_published : list CandidateCatalog;
}.

Definition new_hydrated : Hydrated := {| hy_catalog := []; hy_revisions := []; hy_generation := 0; hy_published := [] |}.

Definition next_generation (h : Hydrated) : Hydrated :=
  {| hy_catalog := hy_catalog h; hy_revisions := hy_revisions h; hy_generation := S (hy_generation h); hy_published := hy_published h |}.

Definition publish (c : CandidateCatalog) (r : list (Partition * string)) (h : Hydrated) : Hydrated :=
  {| hy_catalog := c; hy_revisions := r; hy_generation := hy_generation h; hy_published := hy_published h ++ [c] |}.

(** ** The full load *)

(** [{candidate_partition_key(c): c.snapshot_id for c in candidates}] *)
Definition revisions_of (cs : list RoutingCandidate) : list (Partition * string) :=
  dupdate [] ((λ c, (partition_key c, c_snapshot c)) <$> cs).

(** [_hydrate_candidates]; [superseded]: another load began meanwhile. *)
Definition hydrate (now : Q) (d : Db) (superseded : bool) (h : Hydrated) : Hydrated :=
  let h := next_generation h in
  let cs := all_routing_candidates now d in
  if superseded then h else publish cs (revisions_of cs) h.

(** ** The incremental load *)

(** One turn: the clock and the store at the read of the revisions, the store at the fetch,
    the clock and the store at the confirmation, and whether the load is still the newest
    after the first read and at the end. *)
Record Turn := {
  tn_now : Q;
  tn_read : Db;
  tn_fetch : Db;
  tn_confirm_now : Q;
  tn_confirm : Db;
  tn_current_read : bool;
  tn_current_end : bool;
}.

(** What a turn does: return, go round again, or raise [KeyError]. *)
Inductive SyncStep : Type := SyncReturn (changed : bool) | SyncAgain | SyncKeyError.

(** [d1 == d2] on dicts. *)
Definition dict_eqb (a b : list (Partition * string)) : bool :=
  (length a =? length b) && forallb (λ kv, dget b kv.1 ≡? Some kv.2) a.

Definition changed_keys (cur revisions : list (Partition * string)) : list Partition :=
  fst <$> List.filter (λ kv, negb (dget cur kv.1 ≡? Some kv.2)) revisions.

Definition removed_keys (cur revisions : list (Partition * string)) : list Partition :=
  List.filter (λ p, negb (p ∈? dkeys revisions)) (dkeys cur).

(** [replacements[key].append(candidate)] for each candidate. *)
Fixpoint distribute (rs : list (Partition * list RoutingCandidate)) (cs : list RoutingCandidate)
    : option (list (Partition * list RoutingCandidate)) :=
  match cs with
  | [] => Some rs
  | c :: cs => match dget rs (partition_key c) with
               | Some l => distribute (dset rs (partition_key c) (l ++ [c])) cs
               | None => None
               end
  end.

(** [dict.fromkeys(keys, [])], each with a list of its own. *)
Definition empty_lists (keys : list Partition) : list (Partition * list RoutingCandidate) :=
  dupdate [] ((λ k, (k, [])) <$> keys).

(** One turn of the loop of [_sync_candidate_partitions]. *)
Definition sync_turn (t : Turn) (h : Hydrated) : SyncStep * Hydrated :=
  let revisions := latest_revisions (tn_now t) (tn_read t) in
  if negb (tn_current_read t) then (SyncReturn false, h)
  else
    let changed := changed_keys (hy_revisions h) revisions in
    let removed := removed_keys (hy_revisions h) revisions in
    match changed, removed with
    | [], [] => (SyncReturn false, h)
    | _, _ =>
        let scopes := sort_by (λ a b, columns_leb (partition_columns a) (partition_columns b)) changed in
        let fetched := routing_candidates_for_scopes scopes (tn_now t) (tn_fetch t) in
        let confirmed := latest_revisions (tn_confirm_now t) (tn_confirm t) in
        if negb (dict_eqb confirmed revisions) then (SyncAgain, h)
        else
          match distribute (empty_lists (changed ++ removed)) fetched with
          | None => (SyncKeyError, h)
          | Some replacements =>
              let catalog := replace_scope_partitions (hy_catalog h) replacements in
              if negb (tn_current_end t) then (SyncReturn false, h)
              else (SyncReturn true, publish catalog revisions h)
          end
    end.

(** [_sync_candidate_partitions]: at most two turns; a contested load is left to the next. *)
Definition sync_candidate_partitions (first second : Turn) (h : Hydrated) : SyncStep * Hydrated :=
  match sync_turn first (next_generation h) with
  | (SyncAgain, h) => match sync_turn second h with (SyncAgain, h) => (SyncReturn false, h) | r => r end
  | r => r
  end.

(** ** The store only grows *)

Record grows (d d' : Db) : Prop := {
  gr_snapshot k s : dget (db_snapshots d) k = Some s → dget (db_snapshots d') k = Some s;
  gr_offer k v : dget (db_offers d) k = Some v → dget (db_offers d') k = Some v;
  gr_settled k sid o s : dget (db_snapshots d) sid = Some s → dget (db_offers d') k = Some (sid, o) → dget (db_offers d) k = Some (sid, o);
}.

#[export] Instance grows_preorder : PreOrder grows.
Proof.
  split; [by split|]. intros d1 d2 d3 [A1 A2 A3] [B1 B2 B3]. split; [eauto..|].
  intros k sid o s Hs Ho. eapply A3; [exact Hs|]. eapply B3; [|exact Ho]. eauto.
Qed.

Definition same_inventory (d d' : Db) : Prop := db_snapshots d' = db_snapshots d ∧ db_offers d' = db_offers d.

Lemma ensure_identities_frame ids d : same_inventory d (ensure_identities ids d).2.
Proof.
  unfold ensure_identities. destruct (each_check _ _ ids) as [ [|i v]|]; [done| |done].
  unfold transaction. destruct (each_stmt ensure_identity (i :: v) d) as [ [ns d']|] eqn:E; [|done]. cbn [snd].
  apply (each_stmt_inv (same_inventory d) ensure_identity (i :: v) d ns d'); [|done|exact E].
  intros j d1 n d2 _ [H1 H2] Hj. destruct (ensure_identity_spec _ _ _ _ Hj) as (_ & _ & _ & _ & Hf).
  rewrite <- Hf in H1, H2. done.
Qed.

Lemma replace_alias_frame a actor d : db_ok d → same_inventory d (replace_alias_decision a actor d).2.
Proof.
  intros Hd. unfold replace_alias_decision. destruct (validate_alias_decisions [a] actor) as [ds|] eqn:Ea; [|done].
  destruct (validate_alias_ok _ _ _ Ea) as (-> & Hact & _). unfold transaction.
  destruct (each_stmt _ _ d) as [ [ [|st sts] d']|] eqn:E; [done| |done].
  destruct (write_aliases_spec _ _ _ _ _ (dk_aliases d Hd) Hact E) as (_ & Hf & _). cbn [snd]. rewrite Hf. done.
Qed.

Lemma inserting_grows s offers d d' u :
  inventory_ok d → snapshot_ok s → (∀ o, o ∈ offers → belongs s o) → insert_inventory s offers d = Ok (u, d') → grows d d'.
Proof.
  intros Hok Hs Hb Hi. destruct (insert_inventory_spec _ _ _ _ _ Hok Hs Hb Hi) as (Hfree & [_ _ _ Hss _ Hoo Hon] & _).
  split; [auto..|]. intros k sid o s' Hs' Ho. destruct (Hon _ _ Ho) as [?|(o' & _ & [= -> ->])]; [done|congruence].
Qed.

(** No call takes a snapshot or an offer away, or adds offers to a stored snapshot. *)
Lemma run_call_grows digest24 ip_host d c : db_ok d → grows d (run_call digest24 ip_host d c).
Proof.
  intros Hd. assert (∀ d', db_snapshots d' = db_snapshots d → db_offers d' = db_offers d → grows d d') as Hsame.
  { intros d' Hs Ho. split; rewrite ?Hs, ?Ho; auto. }
  destruct c as [ids|a actor|s offers|s offers ds actor fence|e]; cbn [run_call].
  - pose proof (ensure_identities_frame ids d) as [? ?]. by apply Hsame.
  - pose proof (replace_alias_frame a actor d Hd) as [? ?]. by apply Hsame.
  - unfold commit_inventory. destruct (validate_inventory _ _ s offers) as [ [s' offers']|] eqn:Ev; [|by apply Hsame].
    apply validate_inventory_ok in Ev as (_ & Hs & Hb & _). unfold transaction.
    destruct (insert_inventory s' offers' d) as [ [u d']|] eqn:E; [|by apply Hsame].
    eapply inserting_grows; [apply Hd|done|done|exact E].
  - pose proof (commit_reconciled_spec digest24 ip_host s offers ds actor fence d Hd) as H.
    destruct (commit_reconciled _ _ _ _ _ _ _ d) as [ [stored|e] d']; cbn [snd]; [|destruct H as [_ ->]; by apply Hsame].
    destruct H as (_ & _ & _ & Hfree & (s' & offers' & _ & _ & _ & Hon) & _ & _ & Hoo & Hss & _).
    split; [auto..|]. intros k sid o s0 Hs0 Ho. destruct (Hon _ _ Ho) as [?|(o' & _ & [= -> ->])]; [done|congruence].
  - by apply Hsame.
Qed.

Lemma calls_grow digest24 ip_host calls d : db_ok d → grows d (fold_left (run_call digest24 ip_host) calls d).
Proof.
  revert d. induction calls as [|c calls IH]; intros d Hd; [done|]. cbn [fold_left].
  etrans; [by apply run_call_grows|]. apply IH. by apply run_call_ok.
Qed.

(** ** The index and its revisions agree *)

(** The candidates of one revision. *)
Definition of_revision (d : Db) (p : Partition) (r : string) (c : RoutingCandidate) : Prop :=
  ∃ s k o, dget (db_snapshots d) r = Some s ∧ sn_id s = r ∧ snapshot_partition s = p ∧ dget (db_offers d) k = Some (r, o) ∧ c = candidate_of s o.

(** The index holds exactly the candidates of the revisions it names. *)
Record reflects (h : Hydrated) (d : Db) : Prop := {
  rf_nodup : NoDup (dkeys (hy_revisions h));
  rf_stored p r : dget (hy_revisions h) p = Some r → ∃ s, dget (db_snapshots d) r = Some s ∧ snapshot_partition s = p;
  rf_exact c : c ∈ hy_catalog h ↔ ∃ p r, dget (hy_revisions h) p = Some r ∧ of_revision d p r c;
}.

Lemma reflects_new d : reflects new_hydrated d.
Proof. split; [constructor|done|]. intros c. split; [by intros ?%elem_of_nil|]. by intros (p & r & ? & _). Qed.

Lemma of_revision_grows d d' p r c s :
  grows d d' → dget (db_snapshots d) r = Some s → of_revision d' p r c ↔ of_revision d p r c.
Proof.
  intros [G1 G2 G3] Hs. split; intros (s' & k & o & Hs' & Hid & Hp & Ho & ->).
  - rewrite (G1 _ _ Hs) in Hs'. injection Hs' as <-. exists s, k, o. split_and!; eauto.
  - exists s', k, o. split_and!; eauto.
Qed.

(** What the store gains elsewhere does not disturb the index. *)
Lemma reflects_grows h d d' : reflects h d → grows d d' → reflects h d'.
Proof.
  intros [R1 R2 R3] G. split; [done| |].
  - intros p r Hr. destruct (R2 _ _ Hr) as (s & Hs & Hp). exists s. split; [by apply (gr_snapshot d d' G)|done].
  - intros c. rewrite R3. split; intros (p & r & Hr & Hc); exists p, r; (split; [done|]); destruct (R2 _ _ Hr) as (s & Hs & _);
      by apply (of_revision_grows d d' p r c s G Hs).
Qed.

Lemma of_revision_partition d p r c : inventory_ok d → of_revision d p r c → partition_key c = p ∧ c_snapshot c = r.
Proof.
  intros Hok (s & k & o & Hs & <- & <- & Ho & ->). split; [|done]. by apply (candidate_partition d s k o).
Qed.

(** Routable: of the current revision of its partition. *)
Lemma routable_revision d now c :
  inventory_ok d → routable d now c ↔ ∃ r, dget (latest_revisions now d) (partition_key c) = Some r ∧ of_revision d (partition_key c) r c.
Proof.
  intros Hok. split.
  - intros (s & k & o & Hl & Hf & Ho & ->). exists (sn_id s).
    pose proof (candidate_partition d s k o Hok (proj1 Hl) Ho) as Hp. unfold partition_key. rewrite Hp. split.
    + apply dget_revisions; [done|]. by exists s.
    + exists s, k, o. split_and!; try done. apply Hl.
  - intros (r & Hr & (s & k & o & Hs & Hid & Hp & Ho & ->)). apply dget_revisions in Hr as (s' & Hl & Hf & _ & Hid'); [|done].
    pose proof (proj1 Hl) as Hs'. rewrite Hid', Hs in Hs'. injection Hs' as <-. exists s, k, o. by rewrite Hid.
Qed.

(** ** Revisions that were confirmed *)

Lemma dict_eqb_spec (a b : list (Partition * string)) :
  NoDup (dkeys a) → NoDup (dkeys b) → dict_eqb a b = true → ∀ p, dget a p = dget b p.
Proof.
  intros Ha Hb [Hlen Hall]%andb_true_iff p. apply Nat.eqb_eq in Hlen.
  assert (∀ k v, (k, v) ∈ a → dget b k = Some v) as Hin.
  { intros k v Hk. rewrite forallb_forall in Hall. specialize (Hall (k, v) (proj1 (list_elem_of_In _ _) Hk)). by apply bool_decide_eq_true in Hall. }
  destruct (dget a p) as [v|] eqn:E; [symmetry; by apply Hin, dget_elem|]. destruct (dget b p) as [w|] eqn:Eb; [|done]. exfalso.
  assert (dkeys b ⊆ dkeys a) as Hsub.
  { assert (dkeys a ⊆+ dkeys b) as Hsm.
    { apply NoDup_submseteq; [done|]. intros k ([k' v'] & -> & Hk)%list_elem_of_fmap. apply Hin, dget_elem in Hk.
      by apply (list_elem_of_fmap_2 fst) in Hk. }
    apply submseteq_length_Permutation in Hsm; [by rewrite Hsm|]. unfold dkeys. rewrite !length_fmap. lia. }
  apply dget_none in E. apply E, Hsub. by apply dget_elem, (list_elem_of_fmap_2 fst) in Eb.
Qed.

Lemma revisions_nodup now d : NoDup (dkeys (latest_revisions now d)).
Proof.
  unfold latest_revisions, dkeys. rewrite <- list_fmap_compose. pose proof (NoDup_latest (λ _, true) d) as H. revert H.
  generalize (latest_successes (λ _, true) d). intros l H. induction l as [|s l IH]; [constructor|].
  rewrite fmap_cons in H. apply NoDup_cons in H as [Hs H]. cbn [List.filter]. destruct (fresh now s); [|auto].
  rewrite fmap_cons. constructor; [|auto]. intros (z & Hz & Hin)%list_elem_of_fmap. apply elem_of_bfilter in Hin as [Hin _].
  apply Hs, list_elem_of_fmap. eauto.
Qed.

(** A partition whose revision is the same before and after has it in between, too. *)
Lemma confirmed_between d1 d2 d3 now1 now3 p r :
  inventory_ok d1 → inventory_ok d2 → inventory_ok d3 → grows d1 d2 → grows d2 d3 →
  dget (latest_revisions now1 d1) p = Some r → dget (latest_revisions now3 d3) p = Some r →
  dget (latest_revisions now1 d2) p = Some r.
Proof.
  intros O1 O2 O3 G12 G23 H1 H3. apply dget_revisions in H1 as (s & Hl1 & Hf & Hp & Hid); [|done].
  apply dget_revisions in H3 as (s3 & Hl3 & _ & Hp3 & Hid3); [|done].
  assert (s3 = s) as ->.
  { pose proof (gr_snapshot _ _ (transitivity G12 G23) _ _ (proj1 Hl1)) as H. rewrite Hid in H.
    pose proof (proj1 Hl3) as H'. rewrite Hid3 in H'. congruence. }
  apply dget_revisions; [done|]. exists s. split_and!; try done. destruct Hl1 as (Hs1 & Hst & _). destruct Hl3 as (_ & _ & Hmax).
  split_and!; [by apply (gr_snapshot _ _ G12)|done|]. intros s' Hs' Hst' Hp'. apply Hmax; [|done|done]. by apply (gr_snapshot _ _ G23).
Qed.

(** ** The incremental load *)

Lemma distribute_spec rs cs :
  (∀ c, c ∈ cs → dmem rs (partition_key c) = true) →
  ∃ rs', distribute rs cs = Some rs' ∧ dkeys rs' = dkeys rs
         ∧ ∀ p, dget rs' p = (λ l, l ++ List.filter (λ c, partition_key c ≡? p) cs) <$> dget rs p.
Proof.
  revert rs. induction cs as [|c cs IH]; intros rs Hm; cbn [distribute].
  { exists rs. split_and!; [done..|]. intros p. destruct (dget rs p) as [l|]; [|done]. cbn. by rewrite app_nil_r. }
  pose proof (Hm c ltac:(left)) as Hc. unfold dmem in Hc. destruct (dget rs (partition_key c)) as [l|] eqn:E; [|done].
  assert (dkeys (dset rs (partition_key c) (l ++ [c])) = dkeys rs) as Hk by (rewrite dkeys_dset; unfold dmem; by rewrite E).
  destruct (IH (dset rs (partition_key c) (l ++ [c]))) as (rs' & -> & Hk' & Hd).
  { intros c' Hc'. apply dmem_spec. rewrite Hk. apply dmem_spec, Hm. by right. }
  exists rs'. split_and!; [done|by rewrite Hk', Hk|]. intros p. rewrite Hd. cbn [List.filter].
  destruct (bool_decide_reflect (partition_key c = p)) as [<-|Hne].
  - rewrite dget_dset_eq, E. cbn. by rewrite <- app_assoc.
  - by rewrite dget_dset_ne.
Qed.

Lemma dget_empty_lists keys p : dget (empty_lists keys) p = if p ∈? keys then Some [] else None.
Proof.
  unfold empty_lists. assert (∀ d : list (Partition * list RoutingCandidate),
    dget (dupdate d ((λ k, (k, [])) <$> keys)) p = if p ∈? keys then Some [] else dget d p) as H; [|apply H].
  unfold dupdate. induction keys as [|k keys IH]; intros d; cbn [fmap list_fmap fold_left]; [by rewrite bool_decide_eq_false_2 by apply not_elem_of_nil|].
  rewrite IH. cbn [fst snd]. destruct (bool_decide_reflect (p ∈ keys)); [by rewrite bool_decide_eq_true_2 by by right|].
  destruct (decide (p = k)) as [->|Hne]; [rewrite dget_dset_eq; by rewrite bool_decide_eq_true_2 by left|].
  rewrite dget_dset_ne by done. by rewrite bool_decide_eq_false_2 by (rewrite elem_of_cons; tauto).
Qed.

(** The replacements: the named partitions, with the fetched candidates and no others. *)
Lemma replacements_spec keys cs :
  (∀ c, c ∈ cs → partition_key c ∈ keys) →
  ∃ rs, distribute (empty_lists keys) cs = Some rs ∧ (∀ p, p ∈ rs.*1 ↔ p ∈ keys) ∧ (∀ c, (∃ k l, (k, l) ∈ rs ∧ c ∈ l) ↔ c ∈ cs).
Proof.
  intros Hc. destruct (distribute_spec (empty_lists keys) cs) as (rs & -> & Hk & Hd).
  { intros c Hin. unfold dmem. rewrite dget_empty_lists. by rewrite bool_decide_eq_true_2 by auto. }
  assert (NoDup (dkeys rs)) as Hnd by (rewrite Hk; apply NoDup_dupdate; constructor).
  exists rs. split_and!; [done|..].
  - intros p. fold (dkeys rs). rewrite Hk, <- dmem_spec. unfold dmem. rewrite dget_empty_lists.
    by destruct (bool_decide_reflect (p ∈ keys)).
  - intros c. split.
    + intros (k & l & Hin & Hcl). apply elem_dget in Hin; [|done]. rewrite Hd, dget_empty_lists in Hin.
      destruct (k ∈? keys); [|done]. cbn in Hin. injection Hin as <-. by apply elem_of_bfilter in Hcl as [? _].
    + intros Hin. exists (partition_key c), (List.filter (λ c', partition_key c' ≡? partition_key c) cs). split.
      * apply dget_elem. rewrite Hd, dget_empty_lists. by rewrite bool_decide_eq_true_2 by auto.
      * apply elem_of_bfilter. split; [done|]. by apply bool_decide_eq_true.
Qed.

Lemma elem_of_changed cur revisions p :
  NoDup (dkeys revisions) → p ∈ changed_keys cur revisions ↔ ∃ r, dget revisions p = Some r ∧ dget cur p ≠ Some r.
Proof.
  intros Hnd. unfold changed_keys. split.
  - intros ([k r] & -> & Hin)%list_elem_of_fmap. apply elem_of_bfilter in Hin as [Hin Hne]. cbn in Hne.
    apply elem_dget in Hin; [|done]. exists r. split; [done|]. by apply negb_true_iff, bool_decide_eq_false in Hne.
  - intros (r & Hr & Hne). apply list_elem_of_fmap. exists (p, r). split; [done|]. apply elem_of_bfilter. split; [by apply dget_elem|].
    cbn. by rewrite bool_decide_eq_false_2.
Qed.

Lemma elem_of_removed cur revisions p :
  p ∈ removed_keys cur revisions ↔ (∃ r, dget cur p = Some r) ∧ dget revisions p = None.
Proof.
  unfold removed_keys. rewrite elem_of_bfilter, negb_true_iff, bool_decide_eq_false, <- dget_none. split; intros [H1 H2]; (split; [|done]).
  - apply dmem_spec in H1. unfold dmem in H1. destruct (dget cur p); [by eexists|done].
  - apply dmem_spec. unfold dmem. by destruct H1 as [r ->].
Qed.

(** Neither changed nor removed: held at the store's revision. *)
Lemma untouched cur revisions p :
  NoDup (dkeys revisions) → p ∉ changed_keys cur revisions ++ removed_keys cur revisions → dget cur p = dget revisions p.
Proof.
  intros Hnd [Hc Hr]%not_elem_of_app. rewrite elem_of_changed in Hc by done. rewrite elem_of_removed in Hr.
  destruct (dget revisions p) as [r|] eqn:E.
  - destruct (decide (dget cur p = Some r)); [done|]. destruct Hc. eauto.
  - destruct (dget cur p); [|done]. destruct Hr. eauto.
Qed.

(** A turn reads three successive stores. *)
Record turn_ok (t : Turn) : Prop := {
  tk_read : inventory_ok (tn_read t);
  tk_fetch : inventory_ok (tn_fetch t);
  tk_confirm : inventory_ok (tn_confirm t);
  tk_first : grows (tn_read t) (tn_fetch t);
  tk_second : grows (tn_fetch t) (tn_confirm t);
}.

(** The index is what a full load would give. *)
Definition in_step (h : Hydrated) (now : Q) (d : Db) : Prop :=
  (∀ c, c ∈ hy_catalog h ↔ c ∈ all_routing_candidates now d) ∧ ∀ p, dget (hy_revisions h) p = dget (latest_revisions now d) p.

Lemma in_step_of h now d :
  inventory_ok d → reflects h d → (∀ p, dget (hy_revisions h) p = dget (latest_revisions now d) p) → in_step h now d.
Proof.
  intros Hok [_ _ R3] Hr. split; [|done]. intros c. rewrite elem_of_all_candidates, routable_revision, R3 by done. split.
  - intros (p & r & Hp & Hc). destruct (of_revision_partition d p r c Hok Hc) as [-> _]. exists r. by rewrite <- Hr.
  - intros (r & Hp & Hc). exists (partition_key c), r. by rewrite Hr.
Qed.

(** What a turn fetched and put in place of the changed partitions. *)
Lemma sync_catalog t h rs :
  turn_ok t → reflects h (tn_read t) →
  let revisions := latest_revisions (tn_now t) (tn_read t) in
  let keys := changed_keys (hy_revisions h) revisions ++ removed_keys (hy_revisions h) revisions in
  (∀ p, dget (latest_revisions (tn_confirm_now t) (tn_confirm t)) p = dget revisions p) →
  keys ≠ [] → (∀ p, p ∈ rs.*1 ↔ p ∈ keys) →
  (∀ c, (∃ k l, (k, l) ∈ rs ∧ c ∈ l) ↔ routable (tn_fetch t) (tn_now t) c ∧ partition_key c ∈ changed_keys (hy_revisions h) revisions) →
  reflects {| hy_catalog := replace_scope_partitions (hy_catalog h) rs; hy_revisions := revisions; hy_generation := hy_generation h;
              hy_published := hy_published h |} (tn_confirm t).
Proof.
  intros [O1 O2 O3 G12 G23] HR revisions keys Hconf Hne Hk Hfetch. pose proof (revisions_nodup (tn_now t) (tn_read t)) as Hnd.
  pose proof (reflects_grows _ _ _ HR (transitivity G12 G23)) as [_ _ R3].
  assert (Hstored : ∀ p r, dget revisions p = Some r → ∃ s, dget (db_snapshots (tn_read t)) r = Some s ∧ snapshot_partition s = p).
  { intros p r Hr. apply dget_revisions in Hr as (s & Hl & _ & Hp & <-); [|done]. exists s. split; [apply Hl|done]. }
  split; cbn [hy_revisions hy_catalog]; [done|..].
  { intros p r Hr. destruct (Hstored p r Hr) as (s & Hs & Hp). exists s. split; [|done]. by apply (gr_snapshot _ _ (transitivity G12 G23)). }
  intros c. assert (rs ≠ []) as Hrs.
  { intros ->. destruct keys as [|k keys]; [done|]. apply (elem_of_nil k), (Hk k). left. }
  rewrite replace_exact, Hk, Hfetch, routable_revision by done. split.
  - intros [ [Hc Hn]|[(r & Hr & Hc) Hch] ].
    + apply R3 in Hc as (p & r & Hp & Hc). destruct (of_revision_partition _ _ _ _ O3 Hc) as [E _]. rewrite E in Hn.
      exists p, r. split; [|done]. rewrite <- Hp. symmetry. exact (untouched (hy_revisions h) revisions p Hnd Hn).
    + apply elem_of_changed in Hch as (r1 & Hr1 & _); [|done].
      assert (dget (latest_revisions (tn_now t) (tn_fetch t)) (partition_key c) = Some r1) as Hr2.
      { eapply (confirmed_between (tn_read t) _ (tn_confirm t) (tn_now t) (tn_confirm_now t)); try done. by rewrite Hconf. }
      rewrite Hr in Hr2. injection Hr2 as <-. exists (partition_key c), r. split; [done|].
      destruct (Hstored _ _ Hr1) as (s & Hs & _). by apply (of_revision_grows _ _ _ _ _ s G23 (gr_snapshot _ _ G12 _ _ Hs)).
  - intros (p & r & Hr & Hc). destruct (of_revision_partition _ _ _ _ O3 Hc) as [E _].
    destruct (decide (p ∈ keys)) as [Hin|Hn].
    + right. rewrite E. assert (p ∈ changed_keys (hy_revisions h) revisions) as Hch.
      { apply elem_of_app in Hin as [?|Hin]; [done|]. apply elem_of_removed in Hin as [_ Hno]. congruence. }
      split; [|done]. exists r. destruct (Hstored _ _ Hr) as (s & Hs & _). split.
      * eapply (confirmed_between (tn_read t) _ (tn_confirm t) (tn_now t) (tn_confirm_now t)); try done. by rewrite Hconf.
      * by apply (of_revision_grows _ _ _ _ _ s G23 (gr_snapshot _ _ G12 _ _ Hs)).
    + left. rewrite E. split; [|done]. apply R3. exists p, r. split; [|done]. rewrite <- Hr. exact (untouched (hy_revisions h) revisions p Hnd Hn).
Qed.

Lemma reflects_ext h h' d : hy_catalog h = hy_catalog h' → hy_revisions h = hy_revisions h' → reflects h d → reflects h' d.
Proof. intros E1 E2 [R1 R2 R3]. rewrite E1 in R3. rewrite E2 in R1, R2, R3. by split. Qed.

(** One turn, on every branch. *)
Lemma sync_turn_spec t h :
  turn_ok t → reflects h (tn_read t) →
  let '(step, h') := sync_turn t h in
  reflects h' (tn_confirm t) ∧
  match step with
  | SyncReturn true => in_step h' (tn_confirm_now t) (tn_confirm t) ∧ last (hy_published h') = Some (hy_catalog h')
  | SyncReturn false => h' = h ∧ (tn_current_read t = true → tn_current_end t = true → in_step h (tn_now t) (tn_read t))
  | SyncAgain => h' = h
  | SyncKeyError => False
  end.
Proof.
  intros Ht HR. pose proof Ht as [O1 O2 O3 G12 G23]. pose proof (reflects_grows _ _ _ HR (transitivity G12 G23)) as HR3.
  unfold sync_turn. destruct (tn_current_read t); cbn [negb]; [|done].
  pose proof (revisions_nodup (tn_now t) (tn_read t)) as Hnd. set (revisions := latest_revisions (tn_now t) (tn_read t)) in *.
  pose proof (sync_catalog t h) as Hcat. cbv zeta in Hcat. fold revisions in Hcat.
  pose proof (untouched (hy_revisions h) revisions) as Hun.
  set (changed := changed_keys (hy_revisions h) revisions) in *. set (removed := removed_keys (hy_revisions h) revisions) in *.
  destruct (decide (changed ++ removed = [])) as [E|Hne].
  { apply app_nil in E as [Ec Er]. rewrite Ec, Er in *. split; [done|]. split; [done|]. intros _ _. apply in_step_of; [done|done|].
    intros p. apply Hun; [done|]. apply not_elem_of_nil. }
  assert (∀ A (x y : A), match changed, removed with [], [] => x | _, _ => y end = y) as Hm by (intros A x y; destruct changed, removed; done).
  rewrite Hm. destruct (dict_eqb _ revisions) eqn:Ed; cbn [negb]; [|done].
  pose proof (dict_eqb_spec _ _ (revisions_nodup _ _) Hnd Ed) as Hconf.
  set (fetched := routing_candidates_for_scopes _ _ _).
  assert (Hf : ∀ c, c ∈ fetched ↔ routable (tn_fetch t) (tn_now t) c ∧ partition_key c ∈ changed).
  { intros c. subst fetched. rewrite elem_of_scope_candidates, elem_of_sort_by by done. done. }
  destruct (replacements_spec (changed ++ removed) fetched) as (rs & -> & Hk & Hin).
  { intros c Hc. apply elem_of_app. left. by apply Hf. }
  destruct (tn_current_end t); cbn [negb]; [|split; [done|split; [done|by intros _ ?] ] ].
  assert (reflects (publish (replace_scope_partitions (hy_catalog h) rs) revisions h) (tn_confirm t)) as HR'.
  { eapply reflects_ext; [..|apply (Hcat rs Ht HR Hconf Hne Hk)]; [done|done|]. intros c. by rewrite Hin. }
  split; [done|]. split; [|cbn; apply last_snoc]. apply in_step_of; [done|done|]. intros p. cbn [publish hy_revisions]. by rewrite Hconf.
Qed.

(** ** Loads among commits *)

Section loads.
Context (digest24 : string → string) (ip_host : string → bool).

(** What happens during a turn: its clock readings, the calls others make between its reads,
    and whether it is still the newest load. *)
Record Meanwhile := {
  mw_now : Q;
  mw_before_fetch : list Call;
  mw_before_confirm : list Call;
  mw_confirm_now : Q;
  mw_current_read : bool;
  mw_current_end : bool;
}.

Definition after_calls (calls : list Call) (d : Db) : Db := fold_left (run_call digest24 ip_host) calls d.

Definition turn_at (m : Meanwhile) (d : Db) : Turn :=
  {| tn_now := mw_now m; tn_read := d; tn_fetch := after_calls (mw_before_fetch m) d; tn_confirm_now := mw_confirm_now m;
     tn_confirm := after_calls (mw_before_confirm m) (after_calls (mw_before_fetch m) d);
     tn_current_read := mw_current_read m; tn_current_end := mw_current_end m |}.

(** The life of a process: commits to the store by anyone, full loads, and incremental loads
    with what happens meanwhile in their one or two turns. *)
Inductive Activity : Type :=
  | Commits (calls : list Call)
  | FullLoad (now : Q) (superseded : bool)
  | SyncLoad (first second : Meanwhile).

Definition act (st : Db * Hydrated) (a : Activity) : Db * Hydrated :=
  let '(d, h) := st in
  match a with
  | Commits calls => (after_calls calls d, h)
  | FullLoad now superseded => (d, hydrate now d superseded h)
  | SyncLoad f s =>
      let t := turn_at f d in
      match sync_turn t (next_generation h) with
      | (SyncAgain, h) => let t' := turn_at s (tn_confirm t) in (tn_confirm t', (sync_turn t' h).2)
      | (_, h) => (tn_confirm t, h)
      end
  end.

Lemma turn_at_ok m d : db_ok d → turn_ok (turn_at m d) ∧ db_ok (tn_confirm (turn_at m d)).
Proof.
  intros Hd. pose proof (calls_ok digest24 ip_host (mw_before_fetch m) d Hd) as H2.
  pose proof (calls_ok digest24 ip_host (mw_before_confirm m) _ H2) as H3.
  split; [|exact H3]. split; cbn; [apply Hd|apply H2|apply H3|by apply calls_grow|by apply calls_grow].
Qed.

Lemma reflects_generation h d : reflects h d → reflects (next_generation h) d.
Proof. by apply reflects_ext. Qed.

Lemma revisions_of_spec cs p r :
  (∀ c c', c ∈ cs → c' ∈ cs → partition_key c = partition_key c' → c_snapshot c = c_snapshot c') →
  dget (revisions_of cs) p = Some r ↔ ∃ c, c ∈ cs ∧ partition_key c = p ∧ c_snapshot c = r.
Proof.
  intros Hu. assert (∀ d : list (Partition * string), dget (dupdate d ((λ c, (partition_key c, c_snapshot c)) <$> cs)) p = Some r ↔
    (∃ c, c ∈ cs ∧ partition_key c = p ∧ c_snapshot c = r) ∨ (dget d p = Some r ∧ ∀ c, c ∈ cs → partition_key c ≠ p)) as H.
  { unfold dupdate. induction cs as [|c cs IH]; intros d; cbn [fmap list_fmap fold_left].
    { split; [intros ?; right; split; [done|by intros c ?%elem_of_nil]|]. intros [(c & ?%elem_of_nil & _)|[? _] ]; done. }
    rewrite IH by (intros c1 c2 H1 H2; apply Hu; by right). cbn [fst snd]. setoid_rewrite elem_of_cons. split.
    - intros [(c' & Hc' & ?)|[Hd Hn] ]; [left; exists c'; auto|]. destruct (decide (p = partition_key c)) as [->|Hne].
      + rewrite dget_dset_eq in Hd. injection Hd as <-. left. exists c. auto.
      + rewrite dget_dset_ne in Hd by done. right. split; [done|]. intros c' [->|?]; [done|auto].
    - intros [(c' & [->|Hc'] & Hp & Hr)|[Hd Hn] ].
      + destruct (decide (Exists (λ x, partition_key x = p) cs)) as [Hex|Hno].
        * left. apply Exists_exists in Hex as (x & Hx & Hxp). exists x. split_and!; [done|done|]. rewrite <- Hr. apply Hu; [by right|by left|congruence].
        * right. rewrite <- Hp, dget_dset_eq, Hr. split; [done|]. intros x Hx Hxp. apply Hno, Exists_exists. exists x. by rewrite Hxp.
      + left. eauto.
      + right. rewrite dget_dset_ne by (intros ->; apply (Hn c); auto). split; [done|]. intros c' Hc'. apply Hn. by right. }
  unfold revisions_of. rewrite H. split; [intros [?|[? _] ]; done|]. by left.
Qed.

(** The full load gives the index of the routable candidates. *)
Lemma hydrate_reflects now d superseded h : inventory_ok d → reflects h d → reflects (hydrate now d superseded h) d.
Proof.
  intros Hok HR. unfold hydrate. destruct superseded; [by apply reflects_generation|].
  set (cs := all_routing_candidates now d).
  assert (Hrev : ∀ c, c ∈ cs → dget (latest_revisions now d) (partition_key c) = Some (c_snapshot c) ∧ of_revision d (partition_key c) (c_snapshot c) c).
  { intros c Hc. apply elem_of_all_candidates, routable_revision in Hc as (r & Hr & Hc); [|done..].
    destruct (of_revision_partition _ _ _ _ Hok Hc) as [_ ->]. done. }
  pose proof (revisions_of_spec cs) as Hspec.
  assert (∀ c c', c ∈ cs → c' ∈ cs → partition_key c = partition_key c' → c_snapshot c = c_snapshot c') as Hu.
  { intros c c' [Hc _]%Hrev [Hc' _]%Hrev E. rewrite E in Hc. congruence. }
  split; cbn [publish hy_revisions hy_catalog].
  - apply NoDup_dupdate. constructor.
  - intros p r (c & Hc & <- & <-)%Hspec; [|done]. destruct (Hrev c Hc) as [_ (s & k & o & Hs & _ & Hp & _)]. eauto.
  - intros c. split.
    + intros Hc. exists (partition_key c), (c_snapshot c). split; [apply Hspec; eauto|by apply Hrev].
    + intros (p & r & (c' & Hc' & <- & <-)%Hspec & Hof); [|done]. destruct (of_revision_partition _ _ _ _ Hok Hof) as [Hp Hr].
      apply elem_of_all_candidates, routable_revision; [done..|]. exists (c_snapshot c'). rewrite Hp. split; [|done]. by apply Hrev.
Qed.

Lemma act_ok st a : db_ok st.1 → reflects st.2 st.1 → db_ok (act st a).1 ∧ reflects (act st a).2 (act st a).1.
Proof.
  destruct st as [d h]. cbn [fst snd]. intros Hd HR. destruct a as [calls|now superseded|f s]; cbn [act].
  - split; [by apply calls_ok|]. eapply reflects_grows; [exact HR|by apply calls_grow].
  - split; [done|]. apply hydrate_reflects; [apply Hd|done].
  - destruct (turn_at_ok f d Hd) as [Hf Hd1]. pose proof (sync_turn_spec _ _ Hf (reflects_generation _ _ HR)) as Hspec.
    destruct (sync_turn (turn_at f d) (next_generation h)) as [step h']. destruct Hspec as [HR' _]. destruct step; [done| |done].
    destruct (turn_at_ok s _ Hd1) as [Hs Hd2]. pose proof (sync_turn_spec _ h' Hs HR') as Hspec.
    destruct (sync_turn (turn_at s _) h') as [step2 h2]. by destruct Hspec.
Qed.

(** C23: the incremental load refines the full one, under any interleaving: whatever commits,
    full loads and incremental loads happened before, and whatever is committed between the
    three reads of a turn, the index always holds exactly the offers of one stored snapshot
    per partition; a turn that reports a change leaves precisely the index a full load at
    its confirmation would give, and publishes it; one that was not overtaken and reports
    none found the index so already; a contested or overtaken turn changes nothing; and no
    turn raises. *)
Theorem index_refines_full_load acts m :
  let '(d, h) := fold_left act acts (new_db, new_hydrated) in
  reflects h d ∧
  let t := turn_at m d in
  let '(step, h') := sync_turn t (next_generation h) in
  reflects h' (tn_confirm t) ∧
  match step with
  | SyncReturn true => in_step h' (tn_confirm_now t) (tn_confirm t) ∧ last (hy_published h') = Some (hy_catalog h')
  | SyncReturn false => h' = next_generation h ∧ (mw_current_read m = true → mw_current_end m = true → in_step h' (tn_now t) d)
  | SyncAgain => h' = next_generation h
  | SyncKeyError => False
  end.
Proof.
  assert (∀ st, db_ok st.1 → reflects st.2 st.1 → let '(d, h) := fold_left act acts st in db_ok d ∧ reflects h d) as H.
  { induction acts as [|a acts IH]; intros st Hd HR; cbn [fold_left]; [by destruct st|]. apply IH; by apply act_ok. }
  specialize (H (new_db, new_hydrated) db_ok_new (reflects_new _)). destruct (fold_left act acts _) as [d h]. destruct H as [Hd HR].
  split; [done|]. destruct (turn_at_ok m d Hd) as [Hm _]. pose proof (sync_turn_spec _ _ Hm (reflects_generation _ _ HR)) as Hspec.
  cbv zeta. destruct (sync_turn (turn_at m d) (next_generation h)) as [step h']. destruct Hspec as [HR' Hstep]. split; [done|].
  destruct step as [ []| |]; [done| |done|done]. destruct Hstep as [-> Hin]. split; [done|]. exact Hin.
Qed.
End loads.

(** The first inventory: a turn loads it; a commit between the reads sends the turn round
    again, and the second turn loads it. *)
Example contested_turn :
  let first := Commits [CommitInventory demo_snapshot [demo_offer] ] in
  let quiet := {| mw_now := 5; mw_before_fetch := []; mw_before_confirm := []; mw_confirm_now := 6; mw_current_read := true; mw_current_end := true |} in
  let newer := {| sn_id := "s2"; sn_provider := openrouter; sn_scope := InventoryStore.demo_scope; sn_status := success; sn_started_at := 3;
                  sn_completed_at := 4; sn_expires_at := 200; sn_pagination_complete := true; sn_revision := "r";
                  sn_metadata := []; sn_error := None; sn_offers := [] |} in
  let busy := {| mw_now := 5; mw_before_fetch := []; mw_before_confirm := [CommitInventory newer []]; mw_confirm_now := 6;
                 mw_current_read := true; mw_current_end := true |} in
  let run := fold_left (act demo_digest (λ _, true)) in
  let sizes (st : Db * Hydrated) := (length (hy_catalog st.2), snd <$> hy_revisions st.2, length (hy_published st.2)) in
  sizes (run [first; SyncLoad quiet quiet] (new_db, new_hydrated)) = (1, ["s"], 1)
  ∧ sizes (run [first; SyncLoad busy quiet] (new_db, new_hydrated)) = (0, ["s2"], 1)
  ∧ sizes (run [first; SyncLoad quiet quiet; SyncLoad quiet quiet] (new_db, new_hydrated)) = (1, ["s"], 1)
  ∧ (sync_turn (turn_at demo_digest (λ _, true) busy (run [first] (new_db, new_hydrated)).1) new_hydrated).1 = SyncAgain.
Proof. vm_compute. split_and!; reflexivity. Qed.
