(* ===== verification/Budgets.v ===== *)
(** * Monthly budgets ([budgets.py])

    The over-budget decision with its member / team / org precedence, the short-lived
    decision cache, and the once-per-month threshold alerts.  The stored rows and the
    measured spend come from the auth store and the trace database, which are parameters;
    any of their calls may raise. *)

From S2P Require Import Prelude PyStr PyDict.

(** ** Data *)

Record BudgetRow := {
  monthly : option Q;
  row_thresholds : list Q;
  row_action : option string;
}.

Inductive BScope : Type := SMember | STeam | SOrg.

#[export] Instance BScope_eq_dec : EqDecision BScope.
Proof. solve_decision. Defined.

Record BudgetDecision := {
  b_action : string;
  b_over : bool;
  b_state : option string;
  b_pct : Q;
  b_spend : Q;
  b_monthly : Q;
  b_scope : BScope;
  b_scope_key : string;
}.

Definition DEFAULT_THRESHOLDS : list Q := [5 # 10; 8 # 10; 1%Q].

Definition member_budget_key (org user : string) : string := "member:" +:+ org +:+ ":" +:+ user.

Definition intended_state (action : string) (over : bool) : option string :=
  if negb over then None
  else if action ≡? "downgrade" then Some "downgraded"
  else if action ≡? "reject" then Some "rejected"
  else Some "over".

(** ** Alerts *)

(** One [budget:threshold] audit row. *)
Record Audit := { au_scope : string; au_period : string; au_threshold : Q }.

(** The alerts table and the audit log. *)
Record AlertStore := { fired : list (string * string * Q); audits : list Audit }.

(** The callers a decision is made for. *)
Record Caller := { cl_org : option string; cl_team : option string; cl_user : option string }.

#[export] Instance Caller_eq_dec : EqDecision Caller.
Proof. solve_decision. Defined.

Section budgets.
(** [auth.get_budget], [Err] when it raises. *)
Context (get_budget : string → res unit (option BudgetRow)).
(** [current_month_spend] over the scope's rows; the outer [None] is "no trace engine". *)
Context (month_spend : option (BScope → string → string → res unit Q)).
(** Whether the alert insert, and then the audit write, of a threshold go through. *)
Context (alert_ok audit_ok : Q → bool).

(** [period:scope:threshold] rows are unique: the insert reports whether it was new. *)
Definition alert_known (s : AlertStore) (k p : string) (t : Q) : bool :=
  existsb (λ x, (x.1.1 ≡? k) && (x.1.2 ≡? p) && Qeq_bool x.2 t) (fired s).

(** The body of the threshold loop: [budget_alert_fire_once], then the audit row. *)
Definition fire_one (s : AlertStore) (k p : string) (t : Q) : AlertStore :=
  if negb (alert_ok t) then s
  else if alert_known s k p t then s
  else {| fired := (k, p, t) :: fired s;
          audits := if audit_ok t
                    then {| au_scope := k; au_period := p; au_threshold := t |} :: audits s
                    else audits s |}.

Fixpoint fire_sorted (s : AlertStore) (k p : string) (pct : Q) (ts : list Q) : AlertStore :=
  match ts with
  | [] => s
  | t :: ts => if Qltb pct t then s else fire_sorted (fire_one s k p t) k p pct ts
  end.

(** [_fire_thresholds] *)
Definition fire_thresholds (s : AlertStore) (k p : string) (pct : Q) (ts : list Q) : AlertStore :=
  fire_sorted s k p pct (sort_by Qleb ts).

(** [_resolve_config]: the most specific stored row. *)
Definition resolve_config (org : string) (team user : option string)
    : res unit (option (BudgetRow * BScope * string)) :=
  let tagged (o : option BudgetRow) sc k := (λ r, (r, sc, k)) <$> o in
  let from_org := try! r := get_budget org in Ok (tagged r SOrg org) in
  let from_team :=
    match team with
    | Some t => if t ≡? "" then from_org
                else try! r := get_budget t in
                     match r with Some _ => Ok (tagged r STeam t) | None => from_org end
    | None => from_org
    end in
  match user with
  | Some u => if u ≡? "" then from_team
              else let k := member_budget_key org u in
                   try! r := get_budget k in
                   match r with Some _ => Ok (tagged r SMember k) | None => from_team end
  | None => from_team
  end.

Definition or_zero_q (o : option Q) : Q := match o with Some q => q | None => 0%Q end.

(** [_compute] *)
Definition compute (s : AlertStore) (org : string) (team user : option string) (period : string)
    : res unit (option BudgetDecision * AlertStore) :=
  try! cfg := resolve_config org team user in
  match cfg with
  | None => Ok (None, s)
  | Some (row, sc, key) =>
      let m := or_zero_q (monthly row) in
      if Qleb m 0 then Ok (None, s)
      else match month_spend with
      | None => Ok (None, s)
      | Some spend_of =>
          try! spend := spend_of sc key period in
          let pct := (spend / m)%Q in
          let ts := match row_thresholds row with [] => DEFAULT_THRESHOLDS | l => l end in
          let action := match row_action row with
                        | Some a => if a ≡? "" then "observe" else a
                        | None => "observe"
                        end in
          let over := Qleb 1 pct in
          Ok (Some {| b_action := action; b_over := over; b_state := intended_state action over;
                      b_pct := pct; b_spend := spend; b_monthly := m; b_scope := sc;
                      b_scope_key := key |},
              fire_thresholds s key period pct ts)
      end
  end.

(** ** The cached decision *)

Record Enforcer := {
  ttl : Q;
  decisions : list (Caller * (Q * option BudgetDecision));
  alerts : AlertStore;
}.

(** [decide], at time [now] in the calendar month [period]. *)
Definition decide_budget (e : Enforcer) (c : Caller) (now : Q) (period : string)
    : option BudgetDecision * Enforcer :=
  match cl_org c with
  | None => (None, e)
  | Some org =>
      if org ≡? "" then (None, e)
      else
        let fresh :=
          match compute (alerts e) org (cl_team c) (cl_user c) period with
          | Ok r => r
          | Err _ => (None, alerts e)
          end in
        let miss := (fresh.1, {| ttl := ttl e;
                                 decisions := dset (decisions e) c ((now + ttl e)%Q, fresh.1);
                                 alerts := fresh.2 |}) in
        match dget (decisions e) c with
        | Some (until, d) => if Qltb now until then (d, e) else miss
        | None => miss
        end
  end.

(** ** Facts *)

(** What a fresh decision says: it is made on the most specific row stored for the
    caller — the member's, else the team's, else the organization's — with a positive
    budget, and it is over exactly when the scope's spend has reached that budget. *)
Theorem compute_exact s org team user period d s' :
  compute s org team user period = Ok (Some d, s') →
  ∃ row spend_of, get_budget (b_scope_key d) = Ok (Some row) ∧
    month_spend = Some spend_of ∧ spend_of (b_scope d) (b_scope_key d) period = Ok (b_spend d) ∧
    (0 < b_monthly d)%Q ∧ monthly row = Some (b_monthly d) ∧
    (b_over d = true ↔ (b_monthly d <= b_spend d)%Q) ∧
    (b_state d = None ↔ (b_spend d < b_monthly d)%Q) ∧
    match b_scope d with
    | SMember => ∃ u, user = Some u ∧ b_scope_key d = member_budget_key org u
    | STeam => team = Some (b_scope_key d) ∧
               ∀ u, user = Some u → u ≠ "" → get_budget (member_budget_key org u) = Ok None
    | SOrg => b_scope_key d = org ∧
              (∀ u, user = Some u → u ≠ "" → get_budget (member_budget_key org u) = Ok None) ∧
              (∀ t, team = Some t → t ≠ "" → get_budget t = Ok None)
    end.
Proof.
  unfold compute. intros ([[[row sc] key]|] & Hcfg & H)%res_bind_ok; [|done].
  destruct (Qleb (or_zero_q (monthly row)) 0) eqn:Em; [done|]. q_to_prop.
  destruct month_spend as [spend_of|]; [|done].
  apply res_bind_ok in H as (spend & Hspend & [= <- <-]). cbn.
  assert (∀ a b : Q, (0 < b)%Q → Qleb 1 (a / b) = true ↔ (b <= a)%Q) as Hover.
  { intros a b Hb. rewrite Qleb_true. split; intros H.
    - apply (Qmult_le_r _ _ b) in H; [|done]. unfold Qdiv in H.
      rewrite <- Qmult_assoc, (Qmult_comm (/ b)), Qmult_inv_r in H by lra. lra.
    - apply (Qmult_le_r _ _ b); [done|]. unfold Qdiv.
      rewrite <- Qmult_assoc, (Qmult_comm (/ b)), Qmult_inv_r by lra. lra. }
  pose proof (Hover spend (or_zero_q (monthly row)) Em) as Ho.
  assert (∃ m, monthly row = Some m) as [m Hm].
  { destruct (monthly row); [eauto|]. cbn in Em. lra. }
  exists row, spend_of.
  assert (get_budget key = Ok (Some row) ∧ match sc with
    | SMember => ∃ u, user = Some u ∧ key = member_budget_key org u
    | STeam => team = Some key ∧
               ∀ u, user = Some u → u ≠ "" → get_budget (member_budget_key org u) = Ok None
    | SOrg => key = org ∧
              (∀ u, user = Some u → u ≠ "" → get_budget (member_budget_key org u) = Ok None) ∧
              (∀ t, team = Some t → t ≠ "" → get_budget t = Ok None)
    end) as [Hrow Hsc].
  { clear -Hcfg. unfold resolve_config in Hcfg.
    repeat first
      [ progress simplify_eq/=
      | match goal with
        | H : res_bind _ _ = Ok _ |- _ => apply res_bind_ok in H as (? & ? & ?)
        | H : context [bool_decide ?P] |- _ => destruct (bool_decide_reflect P)
        | H : match ?x with _ => _ end = Ok _ |- _ => destruct x eqn:?
        | H : _ <$> ?o = Some _ |- _ => destruct o eqn:?
        end ]; naive_solver. }
  split; [done|]. split; [done|]. split; [done|]. split; [done|]. rewrite Hm in *. cbn in *.
  split; [done|]. split; [done|]. split; [|done].
  unfold intended_state. destruct (Qleb 1 (spend / m)) eqn:E; cbn.
  - pose proof (proj1 Ho eq_refl). split; [repeat case_match; done|]. intros. lra.
  - split; [|done]. intros _. apply Qnot_le_lt. intros Hle%Ho. congruence.
Qed.
End budgets.

(** ** Runs *)

(** The outside world at one request: the stored rows, the spend, and which alert writes
    go through. *)
Record World := {
  w_budget : string → res unit (option BudgetRow);
  w_spend : option (BScope → string → string → res unit Q);
  w_alert : Q → bool;
  w_audit : Q → bool;
  w_caller : Caller;
  w_now : Q;
  w_period : string;
}.

Definition decide_in (e : Enforcer) (w : World) : option BudgetDecision * Enforcer :=
  decide_budget (w_budget w) (w_spend w) (w_alert w) (w_audit w) e (w_caller w) (w_now w) (w_period w).

(** The enforcer after the requests [ws], oldest first. *)
Definition run_budget (t : Q) (ws : list World) : Enforcer :=
  foldl (λ e w, (decide_in e w).2)
    {| ttl := t; decisions := []; alerts := {| fired := []; audits := [] |} |} ws.

(** A decision computed for this very caller when [w] was served. *)
Definition computed_at (w : World) (c : Caller) (d : option BudgetDecision) : Prop :=
  w_caller w = c ∧ ∃ org s, cl_org c = Some org ∧
    d = match compute (w_budget w) (w_spend w) (w_alert w) (w_audit w) s org (cl_team c) (cl_user c)
                (w_period w) with
        | Ok r => r.1
        | Err _ => None
        end.

Lemma decide_in_spec t e w ws :
  ttl e = t → NoDup (dkeys (decisions e)) →
  (∀ c u d, dget (decisions e) c = Some (u, d) →
     ∃ w', w' ∈ ws ∧ computed_at w' c d ∧ u = (w_now w' + t)%Q) →
  let e' := (decide_in e w).2 in
  ttl e' = t ∧ NoDup (dkeys (decisions e')) ∧
  (∀ c u d, dget (decisions e') c = Some (u, d) →
     ∃ w', w' ∈ ws ++ [w] ∧ computed_at w' c d ∧ u = (w_now w' + t)%Q) ∧
  (∀ d, (decide_in e w).1 = Some d →
     ∃ w', w' ∈ ws ++ [w] ∧ computed_at w' (w_caller w) (Some d) ∧
       (w' = w ∨ (w_now w < w_now w' + t)%Q)).
Proof.
  intros Ht Hnd Hinv. unfold decide_in, decide_budget.
  assert (∀ c u d, dget (decisions e) c = Some (u, d) →
     ∃ w', w' ∈ ws ++ [w] ∧ computed_at w' c d ∧ u = (w_now w' + t)%Q) as Hold.
  { intros c u d Hc. destruct (Hinv c u d Hc) as (w' & Hw & ?). exists w'.
    rewrite elem_of_app. naive_solver. }
  destruct (cl_org (w_caller w)) as [org|] eqn:Eorg; [|by cbn].
  destruct (org ≡? ""); [by cbn|].
  set (fresh := match compute _ _ _ _ _ _ _ _ _ with Ok r => r | Err _ => _ end).
  assert (computed_at w (w_caller w) fresh.1) as Hfresh.
  { split; [done|]. exists org, (alerts e). split; [done|]. unfold fresh. by destruct (compute _ _ _ _ _ _ _ _ _). }
  assert (w ∈ ws ++ [w]) as Hw by (rewrite elem_of_app; right; left).
  set (miss := (fresh.1, _)).
  assert (ttl miss.2 = t ∧ NoDup (dkeys (decisions miss.2)) ∧
    (∀ c u d, dget (decisions miss.2) c = Some (u, d) →
       ∃ w', w' ∈ ws ++ [w] ∧ computed_at w' c d ∧ u = (w_now w' + t)%Q) ∧
    (∀ d, miss.1 = Some d → ∃ w', w' ∈ ws ++ [w] ∧ computed_at w' (w_caller w) (Some d) ∧
       (w' = w ∨ (w_now w < w_now w' + t)%Q))) as Hmiss.
  { unfold miss. cbn. split; [done|]. split; [by apply NoDup_dset|]. split.
    - intros c u d Hc. destruct (decide (c = w_caller w)) as [->|Hne].
      + rewrite dget_dset_eq in Hc. injection Hc as <- <-. exists w. by rewrite Ht.
      + rewrite dget_dset_ne in Hc by done. by apply Hold.
    - intros d Hd. exists w. split; [done|]. rewrite <- Hd. split; [done|by left]. }
  destruct (dget (decisions e) (w_caller w)) as [[u d]|] eqn:Ed; [|exact Hmiss].
  destruct (Qltb (w_now w) u) eqn:Elt; [|exact Hmiss].
  cbn. split; [done|]. split; [done|]. split; [done|]. intros d' ->.
  destruct (Hold _ _ _ Ed) as (w' & Hin & Hc & Hu). exists w'. split; [done|]. split; [done|].
  right. q_to_prop. by rewrite <- Hu.
Qed.

Lemma run_budget_inv t ws :
  let e := run_budget t ws in
  ttl e = t ∧ NoDup (dkeys (decisions e)) ∧
  ∀ c u d, dget (decisions e) c = Some (u, d) →
    ∃ w', w' ∈ ws ∧ computed_at w' c d ∧ u = (w_now w' + t)%Q.
Proof.
  induction ws as [|w ws IH] using rev_ind; [split; [done|split; [apply NoDup_nil_2|done]]|].
  cbn in IH. destruct IH as (Ht & Hnd & Hinv). unfold run_budget in *. rewrite foldl_snoc. cbn.
  by destruct (decide_in_spec t _ w ws Ht Hnd Hinv) as (Ht' & Hnd' & Hinv' & _).
Qed.

(** A budget decision never leaks between callers and is never older than the TTL:
    whatever requests came before, the decision served to a caller was computed for that
    same organization, team and user, now or less than [t] seconds ago; with no
    organization there is none. *)
Theorem decisions_isolated t ws w d :
  (decide_in (run_budget t ws) w).1 = Some d →
  ∃ w', w' ∈ ws ++ [w] ∧ computed_at w' (w_caller w) (Some d) ∧
    (w' = w ∨ (w_now w < w_now w' + t)%Q).
Proof.
  destruct (run_budget_inv t ws) as (Ht & Hnd & Hinv).
  destruct (decide_in_spec t (run_budget t ws) w ws Ht Hnd Hinv) as (_ & _ & _ & Hd). apply Hd.
Qed.

(** ** Threshold alerts *)

Definition same_alert (a b : string * string * Q) : bool :=
  (a.1.1 ≡? b.1.1) && (a.1.2 ≡? b.1.2) && Qeq_bool a.2 b.2.

(** No two rows of the alerts table name the same scope, month and threshold, and every
    audit has its own row. *)
Fixpoint distinct_alerts (l : list (string * string * Q)) : Prop :=
  match l with
  | [] => True
  | a :: l => (∀ b, b ∈ l → same_alert b a = false) ∧ distinct_alerts l
  end.

Definition audit_row (a : Audit) : string * string * Q := (au_scope a, au_period a, au_threshold a).

Definition alerts_inv (s : AlertStore) : Prop :=
  distinct_alerts (fired s) ∧ sublist (audit_row <$> audits s) (fired s).

Lemma fire_one_inv ok aok s k p t : alerts_inv s → alerts_inv (fire_one ok aok s k p t).
Proof.
  intros [Hd Hs]. unfold fire_one. destruct (ok t); [|done]. cbn.
  destruct (alert_known s k p t) eqn:E; [done|]. split; cbn.
  - split; [|done]. intros b Hb. unfold alert_known in E. rewrite <- not_true_iff_false, existsb_exists in E.
    destruct (same_alert b (k, p, t)) eqn:Es; [|done]. destruct E. exists b.
    split; [by apply list_elem_of_In|exact Es].
  - destruct (aok t); [by constructor|]. by constructor.
Qed.

Lemma fire_sorted_inv ok aok s k p pct ts : alerts_inv s → alerts_inv (fire_sorted ok aok s k p pct ts).
Proof.
  revert s. induction ts as [|t ts IH]; intros s Hs; [done|]. cbn. case_match; [done|].
  by apply IH, fire_one_inv.
Qed.

Lemma alert_known_mono ok aok s k p t k' p' t' :
  alert_known s k' p' t' = true → alert_known (fire_one ok aok s k p t) k' p' t' = true.
Proof.
  intros H. unfold fire_one. destruct (ok t); [|done]. cbn. destruct (alert_known s k p t); [done|].
  unfold alert_known in *. cbn. rewrite H. apply orb_true_r.
Qed.

Lemma alert_known_sorted ok aok s k p pct ts k' p' t' :
  alert_known s k' p' t' = true → alert_known (fire_sorted ok aok s k p pct ts) k' p' t' = true.
Proof.
  revert s. induction ts as [|t ts IH]; intros s Hs; [done|]. cbn. case_match; [done|].
  by apply IH, alert_known_mono.
Qed.

Lemma fire_sorted_all ok aok s k p pct ts t :
  StronglySorted (λ x y, Qleb x y = true) ts → t ∈ ts → (t <= pct)%Q → ok t = true →
  alert_known (fire_sorted ok aok s k p pct ts) k p t = true.
Proof.
  intros Hsorted. revert s. induction Hsorted as [|u ts Hts IH Hu]; intros s Hin Hle Hok.
  { by apply elem_of_nil in Hin. }
  cbn. apply elem_of_cons in Hin as [->|Hin].
  - assert (Qltb pct u = false) as -> by q_solve. apply alert_known_sorted.
    unfold fire_one. rewrite Hok. cbn. destruct (alert_known s k p u) eqn:E; [done|].
    unfold alert_known. cbn. rewrite !bool_decide_eq_true_2 by done.
    rewrite (proj2 (Qeq_bool_iff u u)) by reflexivity. done.
  - assert (Qltb pct u = false) as ->; [|by apply IH].
    rewrite Forall_forall in Hu. specialize (Hu t Hin). q_solve.
Qed.

(** Threshold alerts fire once and completely: from any consistent store, a spend
    reading leaves every crossed threshold recorded (unless its insert itself failed), and
    no scope ever gets two audit rows for one threshold in one month. *)
Theorem thresholds_fire_once ok aok s k p pct ts :
  alerts_inv s →
  let s' := fire_thresholds ok aok s k p pct ts in
  alerts_inv s' ∧ distinct_alerts (fired s') ∧
  ∀ t, t ∈ ts → (t <= pct)%Q → ok t = true → alert_known s' k p t = true.
Proof.
  intros Hs s'. pose proof (fire_sorted_inv ok aok s k p pct (sort_by Qleb ts) Hs) as Hinv.
  split; [done|]. split; [apply Hinv|]. intros t Ht Hle Hok. apply fire_sorted_all; try done.
  - apply sort_by_sorted; [apply Qleb_total|apply Qleb_trans].
  - by apply elem_of_sort_by.
Qed.

(** ** Witnesses *)

Definition demo_row : BudgetRow :=
  {| monthly := Some 100%Q; row_thresholds := []; row_action := Some "downgrade" |}.

Definition demo_world (now : Q) : World :=
  {| w_budget := λ k, if k ≡? "team" then Ok (Some demo_row) else Ok None;
     w_spend := Some (λ _ _ _, Ok 120%Q); w_alert := λ _, true; w_audit := λ _, true;
     w_caller := {| cl_org := Some "org"; cl_team := Some "team"; cl_user := Some "u" |};
     w_now := now; w_period := "2026-07" |}.

Definition demo_decision : BudgetDecision :=
  {| b_action := "downgrade"; b_over := true; b_state := Some "downgraded"; b_pct := 120 # 100;
     b_spend := 120; b_monthly := 100; b_scope := STeam; b_scope_key := "team" |}.

Lemma compute_exact_witness :
  ∃ d s', compute (w_budget (demo_world 0)) (w_spend (demo_world 0)) (λ _, true) (λ _, true)
            {| fired := []; audits := [] |} "org" (Some "team") (Some "u") "2026-07" = Ok (Some d, s') ∧
    (b_over d = true ↔ (b_monthly d <= b_spend d)%Q).
Proof.
  eexists _, _. split; [reflexivity|].
  destruct (compute_exact (w_budget (demo_world 0)) (w_spend (demo_world 0)) (λ _, true) (λ _, true)
    {| fired := []; audits := [] |} "org" (Some "team") (Some "u") "2026-07" _ _ eq_refl)
    as (row & sp & _ & _ & _ & _ & _ & Ho & _).
  exact Ho.
Defined.

Lemma decisions_isolated_witness :
  ∃ d, (decide_in (run_budget 60 [demo_world 0]) (demo_world 30)).1 = Some d ∧
    ∃ w', w' ∈ [demo_world 0] ++ [demo_world 30] ∧
      computed_at w' (w_caller (demo_world 30)) (Some d) ∧
      (w' = demo_world 30 ∨ (w_now (demo_world 30) < w_now w' + 60)%Q).
Proof.
  eexists. split; [reflexivity|].
  apply (decisions_isolated 60 [demo_world 0] (demo_world 30)). reflexivity.
Defined.

Lemma thresholds_fire_once_witness :
  alert_known (fire_thresholds (λ _, true) (λ _, true) {| fired := []; audits := [] |} "team" "2026-07"
                 (9 # 10) DEFAULT_THRESHOLDS) "team" "2026-07" (8 # 10) = true.
Proof.
  apply (thresholds_fire_once (λ _, true) (λ _, true) {| fired := []; audits := [] |} "team" "2026-07"
           (9 # 10) DEFAULT_THRESHOLDS).
  - split; [done|constructor].
  - right. left.
  - lra.
  - reflexivity.
Defined.
