(* ===== verification/Trajectory.v ===== *)
(** * Trajectory signals of agentic conversations ([routing/trajectory.py])

    The projection of a conversation's tool results to raw counts and the weighted linear
    score the gateway stamps on the trace.  [math.exp] is irrational, so it is a parameter
    with the two facts the score relies on. *)

From S2P Require Import Prelude PyStr Regex PyDict Schemas.

Definition ERROR_SCALE : Q := 2.
Definition TOOL_OPS_SCALE : Q := 6.
Definition RECENT_WINDOW : nat := 6.
Definition STUCK_MIN_RESULTS : nat := 5.

Definition ERROR_PAT : re :=
  alts [lit_i "traceback"; RSeq (lit_i "error") (RChr (λ c, (c ≡? ":"%char) || is_space c));
        lit_i "exception"; lit_i "failed"; lit_i "FAILED"; lit_i "npm ERR"].

Definition TESTS_PASS_PAT : re := RSeq (rplus rdigit) (lit_i " passed").

Definition TESTS_FAIL_PAT : re := RAlt (RSeq (rplus rdigit) (lit_i " failed")) (lit_i "FAILED").

Definition MUTATION_PAT : re :=
  alts [lit_i "wrote"; lit_i "written"; lit_i "created"; lit_i "updated"; lit_i "edited";
        lit_i "applied"; lit_i "patched"].

Record TrajectorySignal := {
  tool_results : nat;
  error_count : nat;
  recent_error_count : nat;
  mutation_count : nat;
  recent_mutation_count : nat;
  tests_passed : bool;
  tests_failed : bool;
}.

Record TrajectoryScore := {
  ts_score : Q;
  confidence : Q;
  top_contribution : string;
}.

(** ** Extraction *)

(** The non-empty string contents of the tool-role messages. *)
Definition tool_texts (ms : list Message) : list string :=
  omap (λ m, if role m ≡? "tool" then
               match content_of m with
               | CText s => if s ≡? "" then None else Some s
               | _ => None
               end
             else None) ms.

(** Whether a text reads as a failed, and as a passed, test run. *)
Definition reads_failed (t : string) : bool :=
  search TESTS_FAIL_PAT t && negb (contains "0 failed" t).

Definition reads_passed (t : string) : bool := search TESTS_PASS_PAT t.

(** The loop over [reversed(texts)]: [(tests_passed, tests_failed)]. *)
Fixpoint verdict_of (rev_texts : list string) : bool * bool :=
  match rev_texts with
  | [] => (false, false)
  | t :: ts =>
      if reads_failed t then (false, true)
      else if reads_passed t then (true, false)
      else verdict_of ts
  end.

Definition count (r : re) (ts : list string) : nat := length (List.filter (search r) ts).

Definition extract_trajectory (ms : list Message) : option TrajectorySignal :=
  match tool_texts ms with
  | [] => None
  | (_ :: _) as texts =>
      let recent := take_last RECENT_WINDOW texts in
      let '(passed, failed) := verdict_of (rev texts) in
      Some {| tool_results := length texts;
              error_count := count ERROR_PAT texts;
              recent_error_count := count ERROR_PAT recent;
              mutation_count := count MUTATION_PAT texts;
              recent_mutation_count := count MUTATION_PAT recent;
              tests_passed := passed; tests_failed := failed |}
  end.

(** ** The score *)

Definition WEIGHTS : list (string * Q) :=
  [("error_intensity", 80 # 100); ("recent_error_intensity", 60 # 100);
   ("stuck_exploring", 70 # 100); ("tests_failed", 50 # 100); ("tests_passed", - (80 # 100));
   ("mutation_intensity", - (40 # 100)); ("recent_mutation_intensity", - (30 # 100))]%Q.

Definition Qabsb (q : Q) : Q := if Qltb q 0 then (- q)%Q else q.

Definition flag (b : bool) : Q := if b then 1%Q else 0%Q.

Fixpoint Qsum (l : list Q) : Q := match l with [] => 0%Q | q :: l => (q + Qsum l)%Q end.

(** What the score relies on of [math.exp] at the arguments it passes, all of the form
    [-x/scale] with [x >= 0]. *)
Class ExpLaws (exp : Q → Q) : Prop := {
  exp_range x : (x <= 0)%Q → (0 <= exp x <= 1)%Q;
  exp_mono x y : (x <= y)%Q → (exp x <= exp y)%Q;
}.

Section score.
Context (exp : Q → Q).

Definition saturating (x : nat) (scale : Q) : Q :=
  if x =? 0 then 0%Q else (1 - exp (- (Qz (Z.of_nat x) / scale)))%Q.

Definition dim (s : TrajectorySignal) (name : string) : Q :=
  match name with
  | "error_intensity" => saturating (error_count s) ERROR_SCALE
  | "recent_error_intensity" => saturating (recent_error_count s) ERROR_SCALE
  | "stuck_exploring" => flag ((STUCK_MIN_RESULTS <=? tool_results s) && (mutation_count s =? 0))
  | "tests_failed" => flag (tests_failed s)
  | "tests_passed" => flag (tests_passed s)
  | "mutation_intensity" => saturating (mutation_count s) TOOL_OPS_SCALE
  | "recent_mutation_intensity" => saturating (recent_mutation_count s) TOOL_OPS_SCALE
  | _ => 0%Q
  end.

Definition contributions (s : TrajectorySignal) : list (string * Q) :=
  map (λ kw, (kw.1, (dim s kw.1 * kw.2)%Q)) WEIGHTS.

Definition clip (raw : Q) : Q := Qmaxb (-1) (Qminb 1 raw).

Definition score_trajectory (s : TrajectorySignal) : TrajectoryScore :=
  let raw := Qsum (contributions s).*2 in
  let top := max_by (λ kc, Qabsb kc.2) (contributions s) in
  {| ts_score := clip raw; confidence := Qabsb (clip raw);
     top_contribution := match top with Some (k, _) => k | None => "" end |}.

(** ** Facts *)

Lemma clip_bounds q : (-1 <= clip q <= 1)%Q.
Proof. unfold clip, Qmaxb, Qminb. repeat case_match; q_to_prop; lra. Qed.

Lemma clip_mono p q : (p <= q)%Q → (clip p <= clip q)%Q.
Proof. intros H. unfold clip, Qmaxb, Qminb. repeat case_match; q_to_prop; lra. Qed.

Context `{!ExpLaws exp}.

Lemma scaled_neg x scale : (0 < scale)%Q → (- (Qz (Z.of_nat x) / scale) <= 0)%Q.
Proof using.
  intros Hs. assert (0 <= Qz (Z.of_nat x) / scale)%Q; [|lra]. apply Qle_shift_div_l; [done|].
  rewrite Qmult_0_l. unfold Qz. change 0%Q with (inject_Z 0). rewrite <- Zle_Qle. lia.
Qed.

Lemma saturating_bounds x scale : (0 < scale)%Q → (0 <= saturating x scale <= 1)%Q.
Proof using ExpLaws0.
  intros Hs. unfold saturating. case_match; [lra|].
  pose proof (exp_range _ (scaled_neg x scale Hs)). lra.
Qed.

Lemma saturating_mono x y scale :
  (0 < scale)%Q → x ≤ y → (saturating x scale <= saturating y scale)%Q.
Proof using ExpLaws0.
  intros Hs Hxy. pose proof (saturating_bounds y scale Hs) as Hy. unfold saturating in *.
  destruct (Nat.eqb_spec x 0); [lra|]. destruct (Nat.eqb_spec y 0); [lia|].
  assert (exp (- (Qz (Z.of_nat y) / scale)) <= exp (- (Qz (Z.of_nat x) / scale)))%Q; [|lra].
  apply exp_mono. assert (Qz (Z.of_nat x) / scale <= Qz (Z.of_nat y) / scale)%Q; [|lra].
  unfold Qdiv. apply Qmult_le_compat_r; [|apply Qlt_le_weak, Qinv_lt_0_compat, Hs].
  unfold Qz. rewrite <- Zle_Qle. lia.
Qed.
End score.

(** A signal with at least as much trouble: as many results or more, no fewer errors, no
    more mutations, and a test verdict that is no better. *)
Definition worse (s s' : TrajectorySignal) : Prop :=
  tool_results s ≤ tool_results s' ∧ error_count s ≤ error_count s' ∧
  recent_error_count s ≤ recent_error_count s' ∧ mutation_count s' ≤ mutation_count s ∧
  recent_mutation_count s' ≤ recent_mutation_count s ∧
  (tests_failed s = true → tests_failed s' = true) ∧ (tests_passed s' = true → tests_passed s = true).

(** The trajectory score is a bounded, monotone measure of trouble: it lies in
    [-1, 1], its confidence is its magnitude, and a conversation with more errors, fewer
    mutations and no better test verdict never scores lower. *)
Theorem trajectory_monotone exp `{!ExpLaws exp} s s' :
  worse s s' →
  (-1 <= ts_score (score_trajectory exp s))%Q ∧
  (ts_score (score_trajectory exp s) <= ts_score (score_trajectory exp s'))%Q ∧
  (ts_score (score_trajectory exp s') <= 1)%Q ∧
  (0 <= confidence (score_trajectory exp s') <= 1)%Q.
Proof.
  intros (Hr & He & Hre & Hm & Hrm & Hf & Hp). cbn -[clip contributions].
  split; [apply clip_bounds|]. split; [|split; [apply clip_bounds|]].
  - apply clip_mono. cbn -[saturating flag Nat.leb].
    pose proof (saturating_mono exp _ _ ERROR_SCALE ltac:(unfold ERROR_SCALE; lra) He).
    pose proof (saturating_mono exp _ _ ERROR_SCALE ltac:(unfold ERROR_SCALE; lra) Hre).
    pose proof (saturating_mono exp _ _ TOOL_OPS_SCALE ltac:(unfold TOOL_OPS_SCALE; lra) Hm).
    pose proof (saturating_mono exp _ _ TOOL_OPS_SCALE ltac:(unfold TOOL_OPS_SCALE; lra) Hrm).
    assert (flag ((STUCK_MIN_RESULTS <=? tool_results s) && (mutation_count s =? 0)) <=
            flag ((STUCK_MIN_RESULTS <=? tool_results s') && (mutation_count s' =? 0)))%Q.
    { unfold STUCK_MIN_RESULTS. destruct (Nat.leb_spec 5 (tool_results s)),
        (Nat.leb_spec 5 (tool_results s')), (Nat.eqb_spec (mutation_count s) 0),
        (Nat.eqb_spec (mutation_count s') 0); cbn; try lra; lia. }
    assert (flag (tests_failed s) <= flag (tests_failed s'))%Q.
    { destruct (tests_failed s) eqn:E; [rewrite Hf by done; lra|]. destruct (tests_failed s'); cbn; lra. }
    assert (flag (tests_passed s') <= flag (tests_passed s))%Q.
    { destruct (tests_passed s') eqn:E; [rewrite Hp by done; lra|]. destruct (tests_passed s); cbn; lra. }
    lra.
  - pose proof (clip_bounds (Qsum (contributions exp s').*2)).
    set (q := clip _) in *. clearbody q. unfold Qabsb. case_match; q_to_prop; lra.
Qed.

Lemma verdict_app l t r :
  (∀ x, x ∈ l → reads_failed x = false ∧ reads_passed x = false) →
  verdict_of (l ++ t :: r) = verdict_of (t :: r).
Proof.
  induction l as [|x l IH]; intros H; [done|].
  destruct (H x) as [Hf Hp]; [left|]. cbn. rewrite Hf, Hp. apply IH. intros y Hy. apply H. by right.
Qed.

(** The last test-shaped tool result decides: a run that failed and then passed is
    green, one that passed and then failed is red, and later results that mention no tests
    change nothing. *)
Theorem last_test_run_wins ms before t after sig :
  tool_texts ms = before ++ t :: after →
  (∀ x, x ∈ after → reads_failed x = false ∧ reads_passed x = false) →
  reads_failed t || reads_passed t = true →
  extract_trajectory ms = Some sig →
  tests_failed sig = reads_failed t ∧ tests_passed sig = negb (reads_failed t).
Proof.
  intros Hms Hafter Ht. unfold extract_trajectory. rewrite Hms.
  assert (verdict_of (rev (before ++ t :: after)) = (negb (reads_failed t), reads_failed t)) as Hv.
  { rewrite rev_app_distr. cbn [rev]. rewrite <- app_assoc. cbn [app]. rewrite verdict_app.
    - cbn [verdict_of]. destruct (reads_failed t); [done|]. cbn in *. by rewrite Ht.
    - intros x Hx. apply Hafter. by rewrite <- Permutation_rev in Hx. }
  destruct (before ++ t :: after) as [|y l] eqn:E; [by destruct before|].
  rewrite Hv. by intros [= <-].
Qed.

(** A failed run whose count ends in a zero is not read as failed: ["10 failed"] contains
    ["0 failed"]. *)
Lemma ten_failures_read_as_passed : ∀ sig,
  extract_trajectory [{| role := "tool"; content_of := CText "10 failed, 3 passed"; name := None |}] = Some sig →
  tests_failed sig = false ∧ tests_passed sig = true.
Proof.
  intros sig.
  assert (extract_trajectory [{| role := "tool"; content_of := CText "10 failed, 3 passed"; name := None |}]
    = Some {| tool_results := 1; error_count := 1; recent_error_count := 1; mutation_count := 0;
              recent_mutation_count := 0; tests_passed := true; tests_failed := false |}) as -> by
    (vm_compute; reflexivity).
  by intros [= <-].
Qed.

(** ** Witnesses *)

(** A rational stand-in for [exp] on the negatives: [1 / (1 - x)]. *)
Definition demo_exp (x : Q) : Q := if Qltb x 0 then (/ (1 - x))%Q else 1%Q.

#[export] Instance demo_exp_laws : ExpLaws demo_exp.
Proof.
  assert (∀ x, (x <= 0)%Q → (0 < / (1 - x) <= 1)%Q) as Hi.
  { intros x Hx. split; [apply Qinv_lt_0_compat; lra|].
    assert ((/ (1 - x)) == (1 / (1 - x)))%Q as -> by (unfold Qdiv; ring).
    apply Qle_shift_div_r; lra. }
  split.
  - intros x Hx. unfold demo_exp. case_match; [|lra]. pose proof (Hi x Hx). lra.
  - intros x y Hxy. unfold demo_exp. destruct (Qltb x 0) eqn:Ex, (Qltb y 0) eqn:Ey; q_to_prop; try lra.
    + assert ((/ (1 - y)) == (1 / (1 - y)))%Q as -> by (unfold Qdiv; ring).
      apply Qle_shift_div_l; [lra|]. rewrite Qmult_comm.
      assert (((1 - y) * / (1 - x)) == ((1 - y) / (1 - x)))%Q as -> by (unfold Qdiv; ring).
      apply Qle_shift_div_r; lra.
    + pose proof (Hi x ltac:(lra)). lra.
Qed.

Definition demo_calm : TrajectorySignal :=
  {| tool_results := 6; error_count := 1; recent_error_count := 1; mutation_count := 2;
     recent_mutation_count := 1; tests_passed := true; tests_failed := false |}.
Definition demo_trouble : TrajectorySignal :=
  {| tool_results := 6; error_count := 4; recent_error_count := 2; mutation_count := 0;
     recent_mutation_count := 0; tests_passed := false; tests_failed := true |}.

Lemma trajectory_monotone_witness :
  (ts_score (score_trajectory demo_exp demo_calm) <= ts_score (score_trajectory demo_exp demo_trouble))%Q.
Proof.
  destruct (trajectory_monotone demo_exp demo_calm demo_trouble) as (_ & H & _); [|exact H].
  repeat split; cbn; try lia; done.
Defined.

Definition tool_says (s : string) : Message := {| role := "tool"; content_of := CText s; name := None |}.

Lemma last_test_run_wins_witness :
  ∃ sig, extract_trajectory [tool_says "2 failed"; say "user" "again"; tool_says "7 passed"; tool_says "ok"]
         = Some sig ∧ tests_passed sig = true.
Proof.
  eexists. split; [vm_compute; reflexivity|].
  refine (proj2 (last_test_run_wins
    [tool_says "2 failed"; say "user" "again"; tool_says "7 passed"; tool_says "ok"]
    ["2 failed"] "7 passed" ["ok"] _ _ _ _ _)); [reflexivity| |vm_compute; reflexivity|vm_compute; reflexivity].
  intros x ->%list_elem_of_singleton. split; vm_compute; reflexivity.
Defined.
