(* ===== verification/Trace.v ===== *)
(** * The provenance record ([trace.py])

    One record per request: who asked, what it cost, why it was routed where it was.  The
    timestamps and the latency fields, which no decision reads, are left out, as are the
    three sinks the record is written to. *)

From S2P Require Import Prelude PyStr PyDict Schemas Catalog Identity Policy Trajectory Benchmarks Labels Classify Prompts.
From S2P Require Import Breaker Smart.

(** [_label_from_reason]: the text between the first two colons of a ["label:"] reason. *)
Definition label_from_reason (why : option string) : option string :=
  match why with
  | Some r => if startswith "label:" r then nonempty (split_on ":"%char r !! 1) else None
  | None => None
  end.

(** ** The record *)

(** The fields [TraceRecord.begin] sets, and [escalated_from]. *)
Record Origin := {
  o_request_id : string;
  o_conversation_key : option string;
  o_lane : Lane;
  o_runner_id : string;
  o_model : string;
  o_residency : Residency;
  o_stream : bool;
  o_harness : option string;
  o_task_id : option string;
  o_org : option string;
  o_team : option string;
  o_user : option string;
  o_identity_id : option string;
  o_offer_id : option string;
  o_provider : option string;
  o_upstream_model : option string;
  o_credential_scope : option string;
  o_escalated_from : option string;
}.

Record Ledger := {
  l_prompt : Z;
  l_completion : Z;
  l_cached : Z;
  l_cache_write : Z;
  l_cost : Q;
  l_estimated : bool;
  l_baseline : option Q;
}.

Record RouteStamp := {
  s_route_reason : option string;
  s_guard_action : option string;
  s_data_label : option string;
  s_intent : option string;
  s_complexity : option string;
  s_trajectory : option TrajectoryScore;
  s_label_metadata : option LabelMeta;
  s_cache_hit : bool;
  s_degraded : option string;
  s_budget : option string;
  s_classify_ms : option Q;
}.

Record TraceRecord := {
  t_origin : Origin;
  t_ledger : Ledger;
  t_stamp : RouteStamp;
  t_status : string;
  t_error : option string;
  t_label : option string;
}.

(** The declared defaults. *)
Definition no_ledger : Ledger :=
  {| l_prompt := 0; l_completion := 0; l_cached := 0; l_cache_write := 0; l_cost := 0;
     l_estimated := false; l_baseline := None |}.

Definition no_stamp : RouteStamp :=
  {| s_route_reason := None; s_guard_action := None; s_data_label := None; s_intent := None;
     s_complexity := None; s_trajectory := None; s_label_metadata := None; s_cache_hit := false;
     s_degraded := None; s_budget := None; s_classify_ms := None |}.

(** [TraceRecord.begin] *)
Definition begin_record (o : Origin) : TraceRecord :=
  {| t_origin := o; t_ledger := no_ledger; t_stamp := no_stamp; t_status := "ok"; t_error := None;
     t_label := None |}.

(** [TraceRecord.finish] *)
Definition finish (t : TraceRecord) : TraceRecord :=
  {| t_origin := t_origin t; t_ledger := t_ledger t; t_stamp := t_stamp t; t_status := t_status t;
     t_error := t_error t;
     t_label := t_label t orelse label_from_reason (s_route_reason (t_stamp t)) |}.

(** ** Field assignments *)

Definition set_status (st : string) (err : option string) (t : TraceRecord) : TraceRecord :=
  {| t_origin := t_origin t; t_ledger := t_ledger t; t_stamp := t_stamp t; t_status := st;
     t_error := err; t_label := t_label t |}.

(** [trace.status = "ok"] leaves the error as it was. *)
Definition set_ok (t : TraceRecord) : TraceRecord := set_status "ok" (t_error t) t.

Definition set_ledger (l : Ledger) (t : TraceRecord) : TraceRecord :=
  {| t_origin := t_origin t; t_ledger := l; t_stamp := t_stamp t; t_status := t_status t;
     t_error := t_error t; t_label := t_label t |}.

Definition on_stamp (f : RouteStamp → RouteStamp) (t : TraceRecord) : TraceRecord :=
  {| t_origin := t_origin t; t_ledger := t_ledger t; t_stamp := f (t_stamp t);
     t_status := t_status t; t_error := t_error t; t_label := t_label t |}.

Definition set_reason (x : option string) : TraceRecord → TraceRecord :=
  on_stamp (λ '(Build_RouteStamp r g d i c tr m h dg b k), Build_RouteStamp x g d i c tr m h dg b k).

Definition set_guard (x : string) : TraceRecord → TraceRecord :=
  on_stamp (λ '(Build_RouteStamp r g d i c tr m h dg b k), Build_RouteStamp r (Some x) d i c tr m h dg b k).

Definition set_data_label (x : option string) : TraceRecord → TraceRecord :=
  on_stamp (λ '(Build_RouteStamp r g d i c tr m h dg b k), Build_RouteStamp r g x i c tr m h dg b k).

Definition set_signal (x y : option string) : TraceRecord → TraceRecord :=
  on_stamp (λ '(Build_RouteStamp r g d i c tr m h dg b k), Build_RouteStamp r g d x y tr m h dg b k).

Definition set_trajectory (x : TrajectoryScore) : TraceRecord → TraceRecord :=
  on_stamp (λ '(Build_RouteStamp r g d i c tr m h dg b k), Build_RouteStamp r g d i c (Some x) m h dg b k).

Definition set_metadata (x : option LabelMeta) : TraceRecord → TraceRecord :=
  on_stamp (λ '(Build_RouteStamp r g d i c tr m h dg b k), Build_RouteStamp r g d i c tr x h dg b k).

Definition set_cache_hit : TraceRecord → TraceRecord :=
  on_stamp (λ '(Build_RouteStamp r g d i c tr m h dg b k), Build_RouteStamp r g d i c tr m true dg b k).

Definition set_degraded (x : option string) : TraceRecord → TraceRecord :=
  on_stamp (λ '(Build_RouteStamp r g d i c tr m h dg b k), Build_RouteStamp r g d i c tr m h x b k).

Definition set_budget (x : option string) : TraceRecord → TraceRecord :=
  on_stamp (λ '(Build_RouteStamp r g d i c tr m h dg b k), Build_RouteStamp r g d i c tr m h dg x k).

Definition set_classify_ms (x : option Q) : TraceRecord → TraceRecord :=
  on_stamp (λ '(Build_RouteStamp r g d i c tr m h dg b k), Build_RouteStamp r g d i c tr m h dg b x).

(** [_label_metadata_json], before [json.dumps]: an empty block is dropped. *)
Definition metadata_or_none (m : option LabelMeta) : option LabelMeta :=
  match m with
  | Some {| m_fields := []; m_stick := None; m_benchmark_pick := None; m_warm_hold := None |} => None
  | _ => m
  end.

(** ** Facts *)

Lemma split_on_prefix c s t :
  str_all (λ x, negb (x ≡? c)) s = true →
  split_on c (s +:+ String c t) = s :: split_on c t.
Proof.
  induction s as [|x s IH]; intros H.
  - simpl. by rewrite bool_decide_eq_true_2 by done.
  - simpl in *. apply andb_true_iff in H as [Hx Hs]. bool_to_prop.
    rewrite bool_decide_eq_false_2 by done. by rewrite (IH Hs).
Qed.

Lemma split_on_none c s : str_all (λ x, negb (x ≡? c)) s = true → split_on c s = [s].
Proof.
  induction s as [|x s IH]; intros H; simpl in *; [done|].
  apply andb_true_iff in H as [Hx Hs]. bool_to_prop.
  rewrite bool_decide_eq_false_2 by done. by rewrite (IH Hs).
Qed.

Definition no_colon (s : string) : bool := str_all (λ x, negb (x ≡? ":"%char)) s.

(** A reason that carries a label gives that label back, whatever follows it. *)
Lemma label_from_reason_label label rest :
  no_colon label = true → label ≠ "" → rest = "" ∨ (∃ r, rest = String ":" r) →
  label_from_reason (Some ("label:" +:+ label +:+ rest)) = Some label.
Proof.
  intros Hc Hne Hrest. unfold label_from_reason.
  assert (startswith "label:" ("label:" +:+ label +:+ rest) = true) as ->
    by (apply startswith_spec; eauto).
  change ("label:" +:+ label +:+ rest) with ("label" +:+ String ":" (label +:+ rest)).
  rewrite split_on_prefix by reflexivity.
  assert (nonempty ([label] !! 0) = Some label) as Hl by (cbn; by rewrite bool_decide_eq_false_2).
  destruct Hrest as [->|(r & ->)].
  - rewrite str_app_nil_r, split_on_none by done. exact Hl.
  - rewrite split_on_prefix by done. exact Hl.
Qed.

Lemma warm_hold_reason r c w key rt pol bound now :
  warm_hold r c w key rt pol bound now = r ∨
  (sm_label (warm_hold r c w key rt pol bound now) = sm_label r ∧
   route_reason (warm_hold r c w key rt pol bound now) =
     "label:" +:+ match sm_label r with Some l => l | None => "None" end +:+ ":warm-hold").
Proof.
  unfold warm_hold. destruct bound; [by left|]. destruct (warmth_of w key) as [st|]; [|by left].
  destruct (nonempty (last_model st)) as [m|]; [|by left]. destruct (m ≡? sm_model_id r); [by left|].
  destruct (catalog_get c m) as [e|]; [|by left]. destruct (negb (tools_ok (Some e) rt)); [by left|].
  destruct (match pol with Some p => negb (permits p e) | None => false end); [by left|].
  destruct (last_tokens_cached st =? 0)%Z; [by left|]. destruct (Qleb _ _); [by left|by right].
Qed.

Section recorded.
Context (sha1 : string → string) (loads : string → option json).
Context {R X : Type} `{!RedisClient R X}.
Context (row_text : Cached → string) (read_row : string → option Cached) (template : string).
Context (classify_fn : list PromptMsg → string → option string).

Lemma label_reasons a label lb :
  ∃ rest, route_reason (resolve_label a label lb).1 = "label:" +:+ label +:+ rest ∧
    (rest = "" ∨ ∃ r, rest = String ":" r).
Proof.
  unfold resolve_label.
  assert (∃ e o, binding_entry label (sa_catalog a) (sa_labels a) (sa_policy a) = (e, o) ∧
    (o = "" ∨ ∃ r, o = String ":" r)) as (e & o & -> & Ho).
  { unfold binding_entry. destruct (match sa_policy a with Some p => _ | None => None end).
    - do 2 eexists. split; [done|]. right. by eexists.
    - do 2 eexists. split; [done|]. by left. }
  repeat case_match; cbn; eexists; (split; [reflexivity|]); try done; right; by eexists.
Qed.

(** The task type of a trace is the label the classifier chose: for every label
    without a colon, whichever way the smart route resolved it — bound, benchmarked,
    guarded, held warm or fallen back — finishing the trace records exactly that label,
    and an unclassified request records none. *)
Theorem label_recorded st redis a clk t :
  let r := (smart_route sha1 loads row_text read_row template classify_fn st redis a clk).1.1 in
  (∀ l, sm_label r = Some l → no_colon l = true ∧ l ≠ "") → t_label t = None →
  t_label (finish (set_reason (Some (route_reason r)) t)) = sm_label r.
Proof.
  cbn zeta. intros Hl Ht. unfold finish, set_reason, on_stamp. cbn. destruct (t_stamp t). cbn.
  rewrite Ht. revert Hl. unfold smart_route.
  destruct (label_request _ _ _ _ _ _ _ _ _ _) as [[lb st'] r'].
  destruct (lb_label lb) as [label|]; [|done].
  destruct (label_reasons a label lb) as (rest & Hr & Hrest).
  assert (sm_label (resolve_label a label lb).1 = Some label) as Hlab.
  { unfold resolve_label. destruct (binding_entry _ _ _ _). by repeat case_match. }
  destruct (resolve_label a label lb) as [r bound]. cbn [fst] in *.
  assert (∀ r2, sm_label r2 = Some label →
    (route_reason r2 = "label:" +:+ label +:+ rest ∨
     route_reason r2 = "label:" +:+ label +:+ ":warm-hold") →
    (∀ l, sm_label r2 = Some l → no_colon l = true ∧ l ≠ "") →
    label_from_reason (Some (route_reason r2)) = sm_label r2) as Hgen.
  { intros r2 Hlab2 Hor Hl2. rewrite Hlab2. destruct (Hl2 label Hlab2) as [Hc Hne].
    destruct Hor as [->| ->]; apply label_from_reason_label; try done. right. by eexists. }
  destruct (sa_warmth_routing a); cbn [fst]; [|apply Hgen; [done|by left]].
  intros Hl. destruct (warm_hold_reason r (sa_catalog a) (warmth st') (sa_key a) (sa_require_tools a)
    (sa_policy a) bound (at_warm clk)) as [Heq|[Hl' Hr']].
  - apply Hgen; rewrite ?Heq; [done|by left|by rewrite Heq in Hl].
  - rewrite Hlab in *. apply Hgen; [done|by right|done].
Qed.
End recorded.

Definition demo_origin (m : string) : Origin :=
  {| o_request_id := "req-1"; o_conversation_key := None; o_lane := frontier; o_runner_id := "r";
     o_model := m; o_residency := cloud; o_stream := false; o_harness := None; o_task_id := None;
     o_org := None; o_team := None; o_user := None; o_identity_id := None; o_offer_id := None;
     o_provider := None; o_upstream_model := None; o_credential_scope := None;
     o_escalated_from := None |}.

Lemma label_recorded_witness :
  t_label (finish (set_reason (Some (route_reason
      (demo_smart new_smart_state demo_redis (demo_args "c" None) (demo_clock 0)).1.1))
    (begin_record (demo_origin "gpt")))) = Some "code_generation".
Proof.
  rewrite (label_recorded (λ s, s) demo_label_loads (X:=unit) c_label (λ _, None) "{label_block}"
    (λ _ _, Some "reply") new_smart_state demo_redis (demo_args "c" None) (demo_clock 0)
    (begin_record (demo_origin "gpt"))); [vm_compute; reflexivity| |reflexivity].
  intros l Hl. vm_compute in Hl. injection Hl as <-. split; [vm_compute; reflexivity|discriminate].
Defined.
