(* ===== verification/Effects.v ===== *)
(** * Effects: state and exceptions

    Stateful Python code that may raise is a function of its state which returns or fails,
    and in both cases gives the state it stopped in: what was written before a raise stays
    written.  [keeps Rel m] says what [m] does to the state whatever it returns. *)

From S2P Require Import Prelude.

Definition Eff (E S A : Type) : Type := S → res E A * S.

Definition mret {E S A} (a : A) : Eff E S A := λ s, (Ok a, s).
Definition throw {E S A} (e : E) : Eff E S A := λ s, (Err e, s).

Definition mbind {E S A B} (m : Eff E S A) (k : A → Eff E S B) : Eff E S B := λ s,
  match m s with
  | (Ok a, s') => k a s'
  | (Err e, s') => (Err e, s')
  end.

Notation "'do!' x ':=' m 'in' k" := (mbind m (λ x, k))
  (at level 10, x name, m at level 100, k at level 200) : py_scope.
Notation "m ';;' k" := (mbind m (λ _, k)) (at level 100, k at level 200, right associativity) : py_scope.

Lemma mbind_mret {E S A B} (a : A) (k : A → Eff E S B) : mbind (mret a) k = k a.
Proof. done. Qed.

(** Reads and assignments of the state. *)
Definition reads {E S A} (f : S → A) : Eff E S A := λ s, (Ok (f s), s).
Definition modify {E S} (f : S → S) : Eff E S unit := λ s, (Ok tt, f s).

Lemma mbind_reads {E S A B} (f : S → A) (k : A → Eff E S B) s : mbind (reads f) k s = k (f s) s.
Proof. done. Qed.

Lemma mbind_modify {E S B} (f : S → S) (k : unit → Eff E S B) s : mbind (modify f) k s = k tt (f s).
Proof. done. Qed.

(** A plain call that may raise; [wrap] makes the exception. *)
Definition lift_as {X E S A} (wrap : X → E) (r : res X A) : Eff E S A :=
  match r with Ok a => mret a | Err e => throw (wrap e) end.

(** What a computation does to the state whatever it returns, as a preorder [Rel] between
    the states before and after. *)
Definition keeps {E S A} (Rel : S → S → Prop) (m : Eff E S A) : Prop := ∀ s, Rel s (m s).2.

Section keeps.
Context {E S : Type} (Rel : S → S → Prop) `{!PreOrder Rel}.

Lemma keeps_ret {A} (a : A) : keeps Rel (mret a : Eff E S A).
Proof using PreOrder0. intros s. cbn. reflexivity. Qed.

Lemma keeps_throw {A} e : keeps Rel (throw e : Eff E S A).
Proof using PreOrder0. intros s. cbn. reflexivity. Qed.

Lemma keeps_reads {A} (f : S → A) : keeps Rel (reads f : Eff E S A).
Proof using PreOrder0. intros s. cbn. reflexivity. Qed.

Lemma keeps_lift {X A} (wrap : X → E) (r : res X A) : keeps Rel (lift_as wrap r : Eff E S A).
Proof using PreOrder0. destruct r; [apply keeps_ret|apply keeps_throw]. Qed.

Lemma keeps_modify f : (∀ s, Rel s (f s)) → keeps Rel (modify f : Eff E S unit).
Proof. intros H s. apply H. Qed.

Lemma keeps_bind {A B} (m : Eff E S A) (k : A → Eff E S B) :
  keeps Rel m → (∀ a, keeps Rel (k a)) → keeps Rel (mbind m k).
Proof using PreOrder0.
  intros Hm Hk s. unfold mbind. specialize (Hm s). destruct (m s) as [[a|e] s1]; [|done].
  etrans; [exact Hm|apply Hk].
Qed.
End keeps.

(** The relation at one run. *)
Lemma keeps_run {E S A} (Rel : S → S → Prop) (m : Eff E S A) s o s' : m s = (o, s') → keeps Rel m → Rel s s'.
Proof. intros H Hm. specialize (Hm s). by rewrite H in Hm. Qed.

(** Runs that return, taken apart. *)
Lemma mbind_ok {E S A B} (m : Eff E S A) (k : A → Eff E S B) s b s' :
  mbind m k s = (Ok b, s') ↔ ∃ a s1, m s = (Ok a, s1) ∧ k a s1 = (Ok b, s').
Proof.
  unfold mbind. destruct (m s) as [[a|e] s1]; split.
  - eauto.
  - by intros (a' & s2 & [= -> ->] & H).
  - done.
  - by intros (a' & s2 & [=] & _).
Qed.

Lemma mbind_err {E S A B} (m : Eff E S A) (k : A → Eff E S B) s e s' :
  mbind m k s = (Err e, s') ↔
  m s = (Err e, s') ∨ ∃ a s1, m s = (Ok a, s1) ∧ k a s1 = (Err e, s').
Proof.
  unfold mbind. destruct (m s) as [[a|x] s1]; split.
  - eauto.
  - by intros [[=]|(a' & s2 & [= -> ->] & H)].
  - intros [= -> ->]; by left.
  - by intros [[= -> ->]|(a2 & s2 & [=] & _)].
Qed.

Lemma lift_ok {X E S A} (wrap : X → E) (r : res X A) (s : S) a s' :
  lift_as wrap r s = (Ok a, s') ↔ r = Ok a ∧ s' = s.
Proof. destruct r; cbn; unfold mret, throw; naive_solver. Qed.

(** [try]: the outcome as a value. *)
Definition attempt {E X S A} (m : Eff E S A) : Eff X S (res E A) := λ s,
  let '(r, s') := m s in (Ok r, s').

Lemma keeps_attempt {E X S A} (Rel : S → S → Prop) (m : Eff E S A) :
  keeps Rel m → keeps Rel (attempt m : Eff X S (res E A)).
Proof. intros H s. unfold attempt. specialize (H s). by destruct (m s). Qed.

(** The lemmas that close a [keeps] goal about a named operation. *)
Create HintDb gw discriminated.

(** One step of a [keeps] proof on the syntax of a computation; [keeps] solves the ones
    that need no case analysis of their own. *)
Ltac keeps_step :=
  match goal with
  | |- keeps _ (mbind _ _) => apply keeps_bind; [apply _| |intros ?]
  | |- keeps _ (mret _) => apply keeps_ret; apply _
  | |- keeps _ (throw _) => apply keeps_throw; apply _
  | |- keeps _ (reads _) => apply keeps_reads; apply _
  | |- keeps _ (lift_as _ _) => apply keeps_lift; apply _
  | |- keeps _ (attempt _) => apply keeps_attempt
  | |- keeps _ (if ?b then _ else _) => destruct b
  | |- keeps _ (match ?x with _ => _ end) => destruct x
  | |- keeps _ _ => solve [eauto with gw nocore]
  end.
