(* ===== verification/TotoClient.v ===== *)
(** * The Toto client ([driver/toto_client.py])

    The driver's only conduit to Toto cloud: what each call puts on the wire, the mapping
    of created items back to the input, and the provenance allowlist of
    [write_execution].  The HTTP transport is the class [Transport]: what was sent is
    recorded in the caller's state, and a call answers a decoded body or raises. *)

From S2P Require Import Prelude PyStr PyDict Schemas Classify Resilience Effects.

(** One HTTP call as it leaves the process; a GET has no body. *)
Record HttpCall := { hc_path : string; hc_body : option json }.

(** The record of the calls made, and the server's answer, which may depend on all of them. *)
Class Transport (S : Type) := {
  tr_calls : S → list HttpCall;
  tr_push : HttpCall → S → S;
  tr_reply : S → HttpCall → res Exn json;
  tr_push_calls c s : tr_calls (tr_push c s) = tr_calls s ++ [c];
}.

Section http.
Context {S : Type} `{Transport S}.

Definition http_call (c : HttpCall) : Eff Exn S json :=
  modify (tr_push c) ;; λ s, (tr_reply s c, s).

(** [_post] and [_get]: the decoded JSON body, or the HTTP error. *)
Definition http_post (path : string) (body : json) : Eff Exn S json :=
  http_call {| hc_path := path; hc_body := Some body |}.

Definition http_get (path : string) : Eff Exn S json :=
  http_call {| hc_path := path; hc_body := None |}.
End http.

(** ** Reading response bodies *)



(** [v.get(k)]: [None] for an absent key, [AttributeError] on a value without [get]. *)
Definition json_get (v : json) (k : string) : res Exn (option json) :=
  match v with
  | JObj d => Ok (dget d k)
  | _ => Err (plain_exn "AttributeError")
  end.

(** [v[k]] for a string key. *)
Definition json_index (v : json) (k : string) : res Exn json :=
  match v with
  | JObj d => match dget d k with Some x => Ok x | None => Err (plain_exn "KeyError") end
  | _ => Err (plain_exn "TypeError")
  end.

(** [for x in v] where [v] is the value under a key with an empty-list default. *)
Definition json_items (o : option json) : res Exn (list json) :=
  match o with
  | None => Ok []
  | Some (JList l) => Ok l
  | Some (JObj d) => Ok (JStr ∘ fst <$> d)
  | Some (JStr s) => Ok (str_chars s)
  | Some _ => Err (plain_exn "TypeError")
  end.

(** ** Mapping created items back ([_align_ids]) *)

(** One created item: its title when it is text, and its id. *)
Definition title_and_id (it : json) : res Exn (option string * json) :=
  try! t := json_get it "task" in
  match t with
  | Some (JList _) | Some (JObj _) => Err (plain_exn "TypeError")
  | _ => try! i := json_index it "id" in
         Ok (match t with Some (JStr s) => Some s | _ => None end, i)
  end.

Fixpoint titles_and_ids (l : list json) : res Exn (list (option string * json)) :=
  match l with
  | [] => Ok []
  | it :: l => try! x := title_and_id it in try! xs := titles_and_ids l in Ok (x :: xs)
  end.

(** [by_title]: the queue of ids under each title; a title that is no text can match no
    input. *)
Definition push_title (q : list (string * list json)) (x : option string * json)
    : list (string * list json) :=
  match x.1 with
  | Some t => dset q t (match dget q t with Some l => l | None => [] end ++ [x.2])
  | None => q
  end.

Fixpoint pop_titles (q : list (string * list json)) (titles : list string) : option (list json) :=
  match titles with
  | [] => Some []
  | t :: titles =>
      match dget q t with
      | Some (i :: l) => (λ ids, i :: ids) <$> pop_titles (dset q t l) titles
      | _ => None
      end
  end.

Definition align_queues (titles : list string) (created : list (option string * json))
    : option (list json) :=
  pop_titles (foldl push_title [] created) titles.

Definition align_ids (titles : list string) (created : list json) : res Exn (option (list json)) :=
  try! xs := titles_and_ids created in Ok (align_queues titles xs).

(** ** The calls *)

(** One item of a batch: title, description and metadata. *)
Record Item := { it_task : string; it_description : string; it_metadata : list (string * json) }.

Definition item_json (i : Item) : json :=
  JObj [("task", JStr (it_task i)); ("description", JStr (it_description i));
        ("metadata", JObj (it_metadata i))].

(** [_EXECUTION_ALLOWLIST] *)
Definition EXECUTION_ALLOWLIST : list string :=
  ["runner"; "executor"; "model"; "lane"; "tokens_prompt"; "tokens_completion"; "cost_usd";
   "outcome"; "latency_ms"; "fallback_used"; "route_reason"; "artifact"; "rejected"].

Definition allowed (execution : list (string * json)) : list (string * json) :=
  List.filter (λ kv, kv.1 ∈? EXECUTION_ALLOWLIST) execution.

(** [dict(v)] on a mapping or a list of pairs with text keys. *)
Fixpoint dict_of_pairs (d : list (string * json)) (l : list json) : res Exn (list (string * json)) :=
  match l with
  | [] => Ok d
  | JList [JStr k; v] :: l => dict_of_pairs (dset d k v) l
  | _ => Err (plain_exn "TypeError")
  end.

(** [dict(item.get("metadata") or {})] *)
Definition item_metadata (item : json) : res Exn (list (string * json)) :=
  try! m := json_get item "metadata" in
  match m with
  | None => Ok []
  | Some v => if truthy v then
                match v with
                | JObj d => Ok d
                | JList l => dict_of_pairs [] l
                | _ => Err (plain_exn "TypeError")
                end
              else Ok []
  end.

(** [{**a, **b}] *)
Definition dmerge {V} (a b : list (string * V)) : list (string * V) :=
  foldl (λ d kv, dset d kv.1 kv.2) a b.

(** The metadata [write_execution] posts: the classified fields under the stored ones, and
    the filtered provenance. *)
Definition merged_metadata (stored : list (string * json)) (execution : list (string * json))
    (classified : option (list (string * json))) : list (string * json) :=
  let m := match classified with Some ((_ :: _) as c) => dmerge c stored | _ => stored end in
  dset m "execution" (JObj (allowed execution)).

Section client.
Context {S : Type} `{Transport S}.

Definition plain_lift {A} : res Exn A → Eff Exn S A := lift_as (λ e, e).

Definition create_list (name : string) (metadata : list (string * json)) : Eff Exn S json :=
  do! data := http_post "/api/lists" (JObj [("name", JStr name); ("metadata", JObj metadata)]) in
  plain_lift (json_index data "id").

Definition items_path (list_id : json) : string := "/api/lists/" +:+ json_str list_id +:+ "/items".

Definition batch_items (list_id : json) (items : list Item) : Eff Exn S (list json) :=
  do! resp := http_post (items_path list_id +:+ "/batch") (JObj [("items", JList (item_json <$> items))]) in
  do! ids := plain_lift (try! s := json_get resp "succeeded" in
                         try! l := json_items s in align_ids (it_task <$> items) l) in
  match ids with
  | Some ids => mret ids
  | None =>
      do! page := http_get (items_path list_id +:+ "?limit=200") in
      do! ids := plain_lift (try! s := json_get page "items" in
                             try! l := json_items s in align_ids (it_task <$> items) l) in
      match ids with
      | Some ids => mret ids
      | None => throw (plain_exn "RuntimeError")
      end
  end.

Definition set_status (item_id : json) (status : string) : Eff Exn S unit :=
  http_post ("/api/items/" +:+ json_str item_id +:+ "/status") (JObj [("status", JStr status)]) ;;
  mret tt.

(** The tolerant readers: an object's member, or a bare array. *)
Definition member_or_self (key : string) (data : json) : res Exn json :=
  match data with
  | JObj d => Ok (match dget d key with Some v => if truthy v then v else JList [] | None => JList [] end)
  | v => Ok (if truthy v then v else JList [])
  end.

Definition list_lists : Eff Exn S json :=
  do! data := http_get "/api/lists" in plain_lift (member_or_self "lists" data).

Definition list_items (list_id : json) : Eff Exn S json :=
  do! data := http_get (items_path list_id +:+ "?limit=200") in
  plain_lift (member_or_self "items" data).

Definition edit_item (item_id : json) (description : option string)
    (metadata : option (list (string * json))) : Eff Exn S unit :=
  http_post ("/api/items/" +:+ json_str item_id +:+ "/edit")
    (JObj (match description with Some d => [("description", JStr d)] | None => [] end
           ++ match metadata with Some m => [("metadata", JObj m)] | None => [] end)) ;;
  mret tt.

Definition write_execution (item_id : json) (execution : list (string * json))
    (classified : option (list (string * json))) : Eff Exn S unit :=
  do! item := http_get ("/api/items/" +:+ json_str item_id) in
  do! stored := plain_lift (item_metadata item) in
  http_post ("/api/items/" +:+ json_str item_id +:+ "/edit")
    (JObj [("metadata", JObj (merged_metadata stored execution classified))]) ;;
  mret tt.
End client.

(** ** Provisioning *)

(** [provision_toto_user]: [post] answers the status and the decoded body, if it is JSON. *)
Definition provision_toto_user (post : string → res Exn (Z * option json)) (secret toto_url : string)
    : option json :=
  if secret ≡? "" then None
  else match post (rstrip_char "/"%char toto_url +:+ "/api/internal/provision") with
       | Ok (status, Some body) =>
           if (status =? 200)%Z then
             match json_get body "api_key" with
             | Ok (Some k) => if truthy k then Some body else None
             | _ => None
             end
           else None
       | Ok (_, None) | Err _ => None
       end.

(** ** Facts *)

(** The ids created under a title, in order, and those given to the inputs of a title. *)
Definition under (t : string) (created : list (option string * json)) : list json :=
  omap (λ x, if decide (x.1 = Some t) then Some x.2 else None) created.

Definition given (t : string) (titles : list string) (ids : list json) : list json :=
  omap (λ x, if decide (x.1 = t) then Some x.2 else None) (zip titles ids).

Definition asked (t : string) (titles : list string) : nat := length (filter (.= t) titles).

Lemma asked_cons t t0 titles :
  asked t (t0 :: titles) = (if decide (t = t0) then 1 else 0) + asked t titles.
Proof. unfold asked. rewrite filter_cons. repeat case_decide; subst; done. Qed.

Lemma given_cons t t0 titles i ids :
  given t (t0 :: titles) (i :: ids) = (if decide (t = t0) then [i] else []) ++ given t titles ids.
Proof. unfold given. cbn. repeat case_decide; subst; done. Qed.

#[local] Arguments asked : simpl never.
#[local] Arguments given : simpl never.

Definition queue (q : list (string * list json)) (t : string) : list json :=
  match dget q t with Some l => l | None => [] end.

Lemma queue_dset q t l t' : queue (dset q t l) t' = if decide (t' = t) then l else queue q t'.
Proof.
  unfold queue. case_decide as H; [subst; by rewrite dget_dset_eq|by rewrite dget_dset_ne].
Qed.

Lemma queue_push q xs t : queue (foldl push_title q xs) t = queue q t ++ under t xs.
Proof.
  revert q. induction xs as [|[[t'|] i] xs IH]; intros q; cbn; [by rewrite app_nil_r|..];
    rewrite IH; [|done].
  unfold push_title. cbn. fold (queue q t'). rewrite queue_dset.
  case_decide as H; [subst; rewrite decide_True by done|rewrite decide_False by congruence].
  - by rewrite <- app_assoc.
  - done.
Qed.

Lemma pop_titles_some q titles ids :
  pop_titles q titles = Some ids →
  length ids = length titles ∧ ∀ t, queue q t = given t titles ids ++ drop (asked t titles) (queue q t).
Proof.
  revert q ids. induction titles as [|t0 titles IH]; intros q ids; cbn; [by intros [= <-]|].
  destruct (dget q t0) as [[|i l]|] eqn:E; [done| |done].
  intros (ids' & Hpop & ->)%fmap_Some. apply IH in Hpop as [Hlen Hq]. split; [cbn; by rewrite Hlen|].
  intros t. specialize (Hq t). rewrite queue_dset in Hq. rewrite asked_cons, given_cons.
  destruct (decide (t = t0)) as [->|Hne]; [|exact Hq].
  unfold queue. rewrite E. cbn. by rewrite Hq at 1.
Qed.

Lemma pop_titles_none q titles :
  pop_titles q titles = None ↔ ∃ t, length (queue q t) < asked t titles.
Proof.
  revert q. induction titles as [|t0 titles IH]; intros q; cbn.
  { split; [done|]. intros (t & Ht). unfold asked in Ht. cbn in Ht. lia. }
  setoid_rewrite asked_cons. destruct (dget q t0) as [[|i l]|] eqn:E.
  - split; [intros _|done]. exists t0. unfold queue. rewrite E, decide_True by done. cbn. lia.
  - rewrite fmap_None, IH. setoid_rewrite queue_dset.
    split; intros (t & Ht); exists t; destruct (decide (t = t0)) as [->|]; try done;
      unfold queue in *; rewrite ?E in *; cbn in *; lia.
  - split; [intros _|done]. exists t0. unfold queue. rewrite E, decide_True by done. cbn. lia.
Qed.

(** The ids of the created items go to the inputs of the same title, each used once and in
    the order they were created; the mapping fails exactly when some title was created
    fewer times than it was asked for. *)
Theorem align_exact titles created :
  match align_queues titles created with
  | Some ids => length ids = length titles ∧
      ∀ t, under t created = given t titles ids ++ drop (asked t titles) (under t created)
  | None => ∃ t, length (under t created) < asked t titles
  end.
Proof.
  assert (∀ t, queue (foldl push_title [] created) t = under t created) as Hq.
  { intros t. by rewrite queue_push. }
  unfold align_queues. destruct (pop_titles _ titles) as [ids|] eqn:E.
  - apply pop_titles_some in E as [Hlen Hids]. split; [done|].
    intros t. by rewrite <- Hq at 1 2.
  - apply pop_titles_none in E as (t & Ht). exists t. by rewrite <- Hq.
Qed.

(** A body that carries no execution key outside the allowlist. *)
Definition clean_body (body : json) : Prop :=
  ∀ d m e, body = JObj d → dget d "metadata" = Some (JObj m) →
    dget m "execution" = Some (JObj e) → ∀ k, k ∈ e.*1 → k ∈ EXECUTION_ALLOWLIST.

Lemma allowed_keys e k : k ∈ (allowed e).*1 → k ∈ EXECUTION_ALLOWLIST.
Proof.
  intros ([k' v] & -> & [_ H%bool_decide_eq_true]%elem_of_bfilter)%list_elem_of_fmap. exact H.
Qed.

Lemma merged_execution stored e c :
  dget (merged_metadata stored e c) "execution" = Some (JObj (allowed e)).
Proof. apply dget_dset_eq. Qed.

Lemma dget_dmerge {V} (a b : list (string * V)) k :
  NoDup b.*1 → dget (dmerge a b) k = match dget b k with Some v => Some v | None => dget a k end.
Proof.
  unfold dmerge. revert a. induction b as [|[k' v] b IH]; intros a; cbn; [done|].
  intros [Hk Hnd]%NoDup_cons. rewrite IH by done. destruct (decide (k = k')) as [->|Hne].
  - rewrite dget_dset_eq. destruct (dget b k') as [w|] eqn:E; [|done].
    exfalso. apply Hk. apply dget_elem in E. by apply (list_elem_of_fmap_2 fst) in E.
  - by rewrite dget_dset_ne.
Qed.

(** What a computation sends, whatever it returns: new calls only, all of a kind. *)
Definition sends_only {S} `{Transport S} (P : HttpCall → Prop) (s s' : S) : Prop :=
  ∃ l, tr_calls s' = tr_calls s ++ l ∧ Forall P l.

#[export] Instance sends_only_pre {S} `{Transport S} P : PreOrder (sends_only (S:=S) P).
Proof.
  split.
  - intros s. exists []. by rewrite app_nil_r.
  - intros s1 s2 s3 (l & Hl & HP) (l' & Hl' & HP'). exists (l ++ l').
    rewrite Hl', Hl, app_assoc. by rewrite Forall_app.
Qed.

Lemma http_call_sends {S} `{Transport S} (P : HttpCall → Prop) c :
  P c → keeps (sends_only P) (http_call (S:=S) c).
Proof.
  intros Hc. apply keeps_bind; [apply _| |].
  - intros s. exists [c]. cbn. rewrite tr_push_calls. split; [done|]. by constructor.
  - intros [] s. cbn. reflexivity.
Qed.

#[export] Hint Extern 1 (keeps (sends_only _) (http_post _ _)) => apply http_call_sends : gw.
#[export] Hint Extern 1 (keeps (sends_only _) (http_get _)) => apply http_call_sends : gw.
#[export] Hint Extern 1 (keeps (sends_only _) (plain_lift _)) => apply keeps_lift; apply _ : gw.

(** What crosses to Toto when an execution is written back: one read of the item, then one
    edit whose [execution] is the allowlisted part of the provenance and whose other
    fields are those already stored, the classified ones only filling the gaps. *)
Theorem write_execution_boundary {S} `{Transport S} i e c (s s' : S) :
  write_execution i e c s = (Ok tt, s') →
  ∃ item stored m,
    tr_calls s' = tr_calls s ++ [ {| hc_path := "/api/items/" +:+ json_str i; hc_body := None |};
      {| hc_path := "/api/items/" +:+ json_str i +:+ "/edit";
         hc_body := Some (JObj [("metadata", JObj m)]) |} ] ∧
    item_metadata item = Ok stored ∧ clean_body (JObj [("metadata", JObj m)]) ∧
    (NoDup stored.*1 → ∀ k, k ≠ "execution" →
       dget m k = match dget stored k with
                  | Some v => Some v
                  | None => match c with Some l => dget l k | None => None end
                  end).
Proof.
  intros (item & s1 & Hget & (stored & s2 & (Hst & ->)%lift_ok & (v & s3 & Hpost & H2)%mbind_ok)%mbind_ok)%mbind_ok.
  injection H2 as [= <-]. cbn in Hget, Hpost. injection Hget as Hr <-. injection Hpost as _ <-.
  exists item, stored, (merged_metadata stored e c). rewrite !tr_push_calls, <- app_assoc.
  split; [done|]. split; [done|]. split.
  - intros d m' e' [= <-] [= <-]. rewrite merged_execution. intros [= <-] k Hk. by eapply allowed_keys.
  - intros Hnd k Hk. unfold merged_metadata. rewrite dget_dset_ne by done.
    destruct c as [[|x c]|]; [cbn; by destruct (dget stored k)|rewrite dget_dmerge; [reflexivity|exact Hnd]|by destruct (dget stored k)].
Qed.

(** ** Concrete runs *)

(** A server that stores nothing: every list is ["L"] and every item keeps its scope. *)
Definition demo_reply (calls : list HttpCall) (c : HttpCall) : res Exn json :=
  Ok (JObj [("id", JStr "L"); ("metadata", JObj [("scope", JStr "qa")])]).

#[export] Instance demo_wire : Transport (list HttpCall) :=
  {| tr_calls l := l; tr_push c l := l ++ [c]; tr_reply := demo_reply;
     tr_push_calls c l := eq_refl |}.

Definition demo_execution : list (string * json) :=
  [("model", JStr "gpt"); ("tokens_cached", JInt 3); ("error", JStr "the answer was 42")].

Lemma write_execution_boundary_witness :
  ∃ s', write_execution (JStr "i1") demo_execution (Some [("intent", JStr "x")]) [] = (Ok tt, s') ∧
        length s' = 2.
Proof.
  eexists. split; [reflexivity|].
  destruct (write_execution_boundary (JStr "i1") demo_execution (Some [("intent", JStr "x")]) []
              (write_execution (JStr "i1") demo_execution (Some [("intent", JStr "x")]) []).2)
    as (item & stored & m & Hcalls & _); [reflexivity|].
  exact (f_equal length Hcalls).
Defined.

(** Two tasks of one title take the two items of that title, in order. *)
Example align_duplicates :
  align_queues ["a"; "b"; "a"] [(Some "a", JStr "1"); (None, JStr "x"); (Some "a", JStr "2"); (Some "b", JStr "3")]
  = Some [JStr "1"; JStr "3"; JStr "2"].
Proof. reflexivity. Qed.
