(* ===== verification/OpenAIWire.v ===== *)
(** * The OpenAI-compatible runner ([runners/openai.py], [runners/base.py])

    What the runner puts on the upstream wire (messages, tool traffic, cache breakpoints,
    affinity hints, parameters), which key it uses, and how it reads the answer and the
    stream back. *)

From S2P Require Import Prelude PyStr PyDict Schemas Catalog Identity Policy Resilience Classify Effects TotoClient.

(** ** Messages *)

(** A request message with the extra fields this runner reads. *)
Record WireMsg := {
  wm : Message;
  wm_tool_calls : list (list (string * json));
  wm_tool_call_id : json;
}.

(** [_wire_content] *)
Definition wire_content (m : Message) : res string json :=
  match content_of m with
  | CParts parts => Ok (JList (JObj <$> parts))
  | _ => try! t := text m in Ok (JStr t)
  end.

Definition nl : string := String (ascii_of_nat 10) "".

(** One line of [_textified_calls]. *)
Definition called (t : list (string * json)) : res string string :=
  try! fn := match dget t "function" with
             | Some (JObj f) => Ok f
             | Some v => if truthy v then Err "attribute" else Ok []
             | None => Ok []
             end in
  let field k d := match dget fn k with Some v => json_str v | None => d end in
  Ok ("[called " +:+ field "name" "?" +:+ "(" +:+ field "arguments" "" +:+ ")]").

Definition textified_calls (tc : list (list (string * json))) : res string string :=
  try! lines := map_res called tc in Ok (join nl lines).

(** One message of [_wire_messages]. *)
Definition wire_message (native : bool) (w : WireMsg) : res string (list (string * json)) :=
  let m := wm w in
  if role m ≡? "tool" then
    if native then
      try! c := wire_content m in
      Ok ([("role", JStr "tool"); ("content", c)]
          ++ if truthy (wm_tool_call_id w) then [("tool_call_id", wm_tool_call_id w)] else [])
    else try! t := text m in
         Ok [("role", JStr "user"); ("content", JStr ("[tool result]" +:+ nl +:+ t))]
  else
    try! c := wire_content m in
    let base c := [("role", JStr (role m)); ("content", c)]
                  ++ match nonempty (name m) with Some n => [("name", JStr n)] | None => [] end in
    match wm_tool_calls w with
    | [] => Ok (base c)
    | tc =>
        if native then
          Ok (base (match content_of m with CNone => JNull | _ => c end)
              ++ [("tool_calls", JList (JObj <$> tc))])
        else
          try! t := text m in try! calls := textified_calls tc in
          Ok (base (JStr (strip (t +:+ nl +:+ calls))))
    end.

Definition wire_messages (native : bool) : list WireMsg → res string (list (list (string * json))) :=
  map_res (wire_message native).

(** ** Parameters *)

(** The value [model_dump] gives a key of the request. *)
Definition request_value (req : ChatCompletionRequest) (k : string) : json :=
  let int o := match o with Some z => JInt z | None => JNull end in
  let flt o := match o with Some q => JFloat q "" | None => JNull end in
  let str o := match o with Some s => JStr s | None => JNull end in
  match k with
  | "temperature" => flt (temperature req)
  | "top_p" => flt (top_p req)
  | "max_tokens" => int (max_tokens req)
  | "stop" => match stop req with Some v => v | None => JNull end
  | "n" => int (n_choices req)
  | "user" => str (user req)
  | _ => match dget (model_extra req) k with Some v => v | None => JNull end
  end.

(** [passthrough_params], with the values. *)
Definition params_of (req : ChatCompletionRequest) : list (string * json) :=
  (λ k, (k, request_value req k)) <$> passthrough_params req.

Definition TOOL_PARAMS : list string :=
  ["tools"; "tool_choice"; "parallel_tool_calls"; "functions"; "function_call"].

(** [_strip_tool_params] *)
Definition strip_tool_params (params : list (string * json)) : list (string * json) :=
  foldl dpop params TOOL_PARAMS.

Definition base_of (e : CatalogEntry) : string := match base_url e with Some b => b | None => "" end.

(** [_usage_extra]: the contribution to [extra_body]. *)
Definition usage_extra (e : CatalogEntry) : list (string * json) :=
  if contains "openrouter.ai" (base_of e) then [("usage", JObj [("include", JBool true)])] else [].

Definition or_json (o : option json) (d : option string) : option json :=
  match o with
  | Some v => if truthy v then Some v else JStr <$> nonempty d
  | None => JStr <$> nonempty d
  end.

(** [_cache_affinity]: the hints as (top-level, [extra_body]). *)
Definition cache_affinity (e : CatalogEntry) (req : ChatCompletionRequest) (params : list (string * json))
    : list (string * json) * list (string * json) :=
  let conv := conversation_key req in
  if contains "openrouter.ai" (base_of e) then
    ([], match or_json (dget params "session_id") conv with Some v => [("session_id", v)] | None => [] end)
  else if (base_of e ≡? "") || contains "api.openai.com" (base_of e) then
    (match or_json (dget params "prompt_cache_key") conv with Some v => [("prompt_cache_key", v)] | None => [] end, [])
  else ([], []).

(** [_provider_extra]: the extra keywords, and the parameters without the clients' keys. *)
Definition provider_extra (e : CatalogEntry) (req : ChatCompletionRequest) (params : list (string * json))
    : list (string * json) * list (string * json) :=
  let '(top, body) := cache_affinity e req params in
  let extra_body := dmerge (usage_extra e) body in
  (top ++ match extra_body with [] => [] | _ => [("extra_body", JObj extra_body)] end,
   dpop (dpop params "prompt_cache_key") "session_id").

(** ** Cache breakpoints *)

(** [_is_anthropic_family] *)
Definition is_anthropic_family (model : string) : bool :=
  let m := lower model in
  contains "claude" m || contains "anthropic/" m || contains "qwen" m.

Definition part_has (p : json) (k : string) : bool :=
  match p with JObj d => dmem d k | _ => false end.

(** [_wire_has_breakpoint] *)
Definition has_breakpoint (msg : list (string * json)) : bool :=
  match dget msg "content" with
  | Some (JList parts) => existsb (λ p, part_has p "cache_control") parts
  | _ => false
  end.

Definition wire_has_breakpoint : list (list (string * json)) → bool := existsb has_breakpoint.

Definition is_text_dict (p : json) : bool :=
  match p with
  | JObj d => match dget d "type" with Some (JStr t) => t ≡? "text" | _ => false end
  | _ => false
  end.

Definition ephemeral : json := JObj [("type", JStr "ephemeral")].

(** The last text part of a list, marked. *)
Fixpoint mark_last_part (parts : list json) : option (list json) :=
  match parts with
  | [] => None
  | p :: parts =>
      match mark_last_part parts with
      | Some parts => Some (p :: parts)
      | None => if is_text_dict p
                then Some (match p with JObj d => JObj (dset d "cache_control" ephemeral) | v => v end :: parts)
                else None
      end
  end.

(** [_mark_last_text] *)
Definition mark_last_text (msg : list (string * json)) : list (string * json) :=
  match dget msg "content" with
  | Some (JStr s) =>
      if s ≡? "" then msg
      else dset msg "content"
             (JList [JObj [("type", JStr "text"); ("text", JStr s); ("cache_control", ephemeral)]])
  | Some (JList parts) =>
      match mark_last_part parts with
      | Some parts => dset msg "content" (JList parts)
      | None => msg
      end
  | _ => msg
  end.

Definition dict_role (msg : list (string * json)) (r : string) : bool :=
  match dget msg "role" with Some (JStr s) => s ≡? r | _ => false end.

Definition bears_text (msg : list (string * json)) : bool :=
  negb (dict_role msg "tool") &&
  match dget msg "content" with
  | Some (JStr s) => negb (s ≡? "")
  | Some (JList parts) => existsb is_text_dict parts
  | _ => false
  end.

(** [_last_text_bearing], marked in place; nothing when no message bears text. *)
Fixpoint mark_last_bearing (ms : list (list (string * json))) : option (list (list (string * json))) :=
  match ms with
  | [] => None
  | m :: ms =>
      match mark_last_bearing ms with
      | Some ms => Some (m :: ms)
      | None => if bears_text m then Some (mark_last_text m :: ms) else None
      end
  end.

(** [auto_cache_prefs]: the request's own preferences, else the settings'. *)
Definition auto_cache_prefs (req : ChatCompletionRequest) (dflt : CachePrefs) : CachePrefs :=
  match cache_prefs req with Some p => p | None => dflt end.

(** The two breakpoints: the leading system message and the last text-bearing turn. *)
Definition mark_system (ms : list (list (string * json))) : list (list (string * json)) :=
  match ms with
  | m :: ms => (if dict_role m "system" then mark_last_text m else m) :: ms
  | [] => []
  end.

Definition inject (ms : list (list (string * json))) : list (list (string * json)) :=
  let ms := mark_system ms in
  match mark_last_bearing ms with Some ms => ms | None => ms end.

(** [_openrouter_cache_inject] *)
Definition openrouter_cache_inject (dflt : CachePrefs) (e : CatalogEntry) (req : ChatCompletionRequest)
    (ms : list (list (string * json))) : list (list (string * json)) :=
  let prefs := auto_cache_prefs req dflt in
  if negb (auto_inject prefs) then ms
  else if negb (contains "openrouter.ai" (base_of e)) then ms
  else if negb (is_anthropic_family (effective_upstream_model e)) then ms
  else if wire_has_breakpoint ms then ms
  else if negb (has_tools_field req || (auto_inject_min_messages prefs <=? Z.of_nat (length (messages req)))%Z) then ms
  else inject ms.

(** ** The call *)

(** The keywords of the upstream call, in order; [msgs] are the request's messages with
    their extras. *)
Definition call_body (dflt : CachePrefs) (e : CatalogEntry) (req : ChatCompletionRequest)
    (msgs : list WireMsg) (streamed : list (string * json)) : res string (list (string * json)) :=
  let params := if tools e then params_of req else strip_tool_params (params_of req) in
  let '(extra, params) := provider_extra e req params in
  try! wire := wire_messages (tools e) msgs in
  Ok ([("model", JStr (effective_upstream_model e));
       ("messages", JList (JObj <$> openrouter_cache_inject dflt e req wire))]
      ++ streamed ++ extra ++ params).

Definition STREAM_KEYWORDS : list (string * json) :=
  [("stream", JBool true); ("stream_options", JObj [("include_usage", JBool true)])].

(** ** Keys ([_get_client]) *)

Inductive ClientKey : Type :=
  | ByokKey (key : string)
  | PlatformKey.

Definition KEY_UNAVAILABLE : Exn := plain_exn "ProviderCredentialUnavailable".

(** [unavailable] are the environment names whose configured key cannot be read, [byok] the
    caller's own keys by environment name. *)
Definition client_key (e : CatalogEntry) (unavailable : list string) (byok : list (string * string))
    : res Exn ClientKey :=
  if api_key_env e ∈? unavailable then Err KEY_UNAVAILABLE
  else
    let allow := match credential_scope e with
                 | None => true
                 | Some s => match kind s with platform => false | _ => true end
                 end in
    match (if allow then nonempty (dget byok (api_key_env e)) else None) with
    | Some key => Ok (ByokKey key)
    | None => Ok PlatformKey
    end.

(** ** The answer *)

(** An upstream usage object, its optional fields as they come. *)
Record UpUsage := {
  uu_prompt : Z;
  uu_completion : Z;
  uu_details_cached : json;
  uu_write : json;
  uu_details_write : json;
  uu_cost : json;
}.

(** [_int_attr]: a non-negative integer, or nothing. *)
Definition int_attr (v : json) : Z := match v with JInt z => if (0 <=? z)%Z then z else 0%Z | _ => 0%Z end.

(** [_cache_details]: cached tokens, written tokens, upstream cost. *)
Definition cache_details (u : UpUsage) : Z * Z * option Q :=
  let w := int_attr (uu_write u) in
  (int_attr (uu_details_cached u),
   if (w =? 0)%Z then int_attr (uu_details_write u) else w,
   match uu_cost u with JInt z => Some (Qz z) | JFloat q _ => Some q | _ => None end).

Definition usage_from (u : option UpUsage) : Usage :=
  match u with
  | Some u => let '(cached, write, cost) := cache_details u in
              usage_of (uu_prompt u) (uu_completion u) cached cost write
  | None => usage_of 0 0 0 None 0
  end.

(** An upstream completion: its first choice, when there is one. *)
Record UpChoice := { uc_content : option string; uc_tool_calls : list json; uc_finish : option string }.

Record UpResponse := {
  ur_choices : list UpChoice;
  ur_usage : option UpUsage;
  ur_model : json;
  ur_provider : json;
  ur_extra_provider : json;
  ur_id : json;
}.

(** [_str_or_none], [_upstream_provenance] *)
Definition str_or_none (v : json) : option string := match v with JStr s => nonempty (Some s) | _ => None end.

Definition upstream_provenance (r : UpResponse) : option string * option string * option string :=
  (str_or_none (ur_model r),
   match str_or_none (ur_provider r) with Some p => Some p | None => str_or_none (ur_extra_provider r) end,
   str_or_none (ur_id r)).

(** [_dump_tool_calls] of already dumped calls. *)
Definition dump_tool_calls (tc : list json) : option (list json) := match tc with [] => None | _ => Some tc end.

(** The answer, re-stamped with the catalog id, and the provenance kept beside it. *)
Record RunnerAnswer := {
  ra_response : ChatCompletionResponse;
  ra_upstream_model : option string;
  ra_provider : option string;
  ra_generation_id : option string;
}.

Definition or_text (o : option string) (d : string) : string := match nonempty o with Some s => s | None => d end.

Definition answer_of (e : CatalogEntry) (r : UpResponse) : RunnerAnswer :=
  let '(content, finish, calls) :=
    match ur_choices r with
    | c :: _ => (or_text (uc_content c) "", or_text (uc_finish c) "stop", dump_tool_calls (uc_tool_calls c))
    | [] => ("", "stop", None)
    end in
  let '(served, provider, gid) := upstream_provenance r in
  {| ra_response := {| resp_model := id e; usage := usage_from (ur_usage r);
                       choices := [ {| choice_index := 0; msg_content := Some content; msg_tool_calls := calls;
                                       finish_reason := Some finish |} ] |};
     ra_upstream_model := served; ra_provider := provider; ra_generation_id := gid |}.

(** A reply with something in it. *)
Definition substantial (r : UpResponse) : bool :=
  match ur_choices r with
  | c :: _ => negb (strip (or_text (uc_content c) "") ≡? "") || match uc_tool_calls c with [] => false | _ => true end
  | [] => false
  end.

Section upstream.
(** The provider: its state, and its answer to a call. *)
Context {W : Type} (create : W → list (string * json) → res Exn UpResponse * W).

(** The calls of [chat]: again while the body is empty, at most [n] more times. *)
Fixpoint create_retrying (n : nat) (body : list (string * json)) : Eff Exn W UpResponse :=
  do! r := (λ w, create w body) in
  match n with
  | O => mret r
  | S n => if substantial r then mret r else create_retrying n body
  end.

(** [OpenAIRunner.chat] *)
Definition EMPTY_BODY_RETRIES : nat := 2.

Definition chat (dflt : CachePrefs) (unavailable : list string) (byok : list (string * string))
    (e : CatalogEntry) (req : ChatCompletionRequest) (msgs : list WireMsg) : Eff Exn W RunnerAnswer :=
  do! key := plain_lift (client_key e unavailable byok) in
  do! body := lift_as (λ _, plain_exn "TypeError") (call_body dflt e req msgs []) in
  do! r := create_retrying EMPTY_BODY_RETRIES body in
  mret (answer_of e r).
End upstream.

(** ** The stream *)

(** One upstream chunk: usage, or deltas; [uk_now] is the clock when it arrives. *)
Record UpDelta := { ud_content : string; ud_tool_calls : list json; ud_reasoning : json; ud_finish : option string }.

Record UpChunk := { uk_usage : option UpUsage; uk_choices : list UpDelta; uk_now : Q }.

(** What the runner yields; every chunk carries the catalog id and the route's provenance. *)
Inductive OutChunk : Type :=
  | ORole
  | OContent (s : string)
  | OToolCalls (tc : list json)
  | OReasoning (s : string)
  | OKeepalive
  | OStop (finish : string)
  | OUsage (u : Usage).

Record StreamState := { ss_usage : option UpUsage; ss_finish : string; ss_last : Q }.

Definition stream_start (now : Q) : StreamState := {| ss_usage := None; ss_finish := "stop"; ss_last := now |}.

Definition delta_chunks (d : UpDelta) : list OutChunk :=
  (if ud_content d ≡? "" then [] else [OContent (ud_content d)])
  ++ (match ud_tool_calls d with [] => [] | tc => [OToolCalls tc] end)
  ++ match ud_reasoning d with JStr s => if s ≡? "" then [] else [OReasoning s] | _ => [] end.

Definition finish_of (f : string) (d : UpDelta) : string := or_text (ud_finish d) f.

(** The handling of one chunk. *)
Definition stream_chunk (st : StreamState) (c : UpChunk) : StreamState * list OutChunk :=
  match uk_usage c with
  | Some u => ({| ss_usage := Some u; ss_finish := ss_finish st; ss_last := ss_last st |}, [])
  | None =>
      let out := flat_map delta_chunks (uk_choices c) in
      let out := match out with
                 | [] => if Qle_bool 1 (uk_now c - ss_last st) then [OKeepalive] else []
                 | _ => out
                 end in
      ({| ss_usage := ss_usage st; ss_finish := foldl finish_of (ss_finish st) (uk_choices c);
          ss_last := match out with [] => ss_last st | _ => uk_now c end |}, out)
  end.

Fixpoint stream_body (st : StreamState) (l : list UpChunk) : StreamState * list OutChunk :=
  match l with
  | [] => (st, [])
  | c :: l => let '(st, out) := stream_chunk st c in
              let '(st, rest) := stream_body st l in (st, out ++ rest)
  end.

(** [OpenAIRunner.stream] over the chunks received; [failed] when the upstream raises after
    them, which the runner lets through. *)
Definition stream_out (now : Q) (l : list UpChunk) (failed : bool) : list OutChunk :=
  let '(st, out) := stream_body (stream_start now) l in
  ORole :: out ++ if failed then [] else [OStop (ss_finish st); OUsage (usage_from (ss_usage st))].

(** ** Facts *)

(** What the upstream is shown of a message when it speaks tools. *)
Definition shown_natively (w : WireMsg) (d : list (string * json)) : Prop :=
  dget d "role" = Some (JStr (role (wm w))) ∧
  (role (wm w) = "tool" → truthy (wm_tool_call_id w) = true → dget d "tool_call_id" = Some (wm_tool_call_id w)) ∧
  (role (wm w) ≠ "tool" → wm_tool_calls w ≠ [] → dget d "tool_calls" = Some (JList (JObj <$> wm_tool_calls w))) ∧
  (∀ parts, content_of (wm w) = CParts parts → dget d "content" = Some (JList (JObj <$> parts))).

(** What it is shown when it does not: no tool role and no tool field at all. *)
Definition shown_as_text (d : list (string * json)) : Prop :=
  dict_role d "tool" = false ∧ dget d "tool_calls" = None ∧ dget d "tool_call_id" = None.

Lemma wire_message_native w d : wire_message true w = Ok d → shown_natively w d.
Proof.
  unfold wire_message, shown_natively. case_bool_decide as Hr.
  - intros (c & Hc & [= <-])%res_bind_ok. rewrite Hr. split; [done|]. split; [intros _ ->; done|].
    split; [done|]. intros parts Hp. unfold wire_content in Hc. rewrite Hp in Hc. by injection Hc as <-.
  - intros (c & Hc & H)%res_bind_ok.
    assert (∀ parts, content_of (wm w) = CParts parts → c = JList (JObj <$> parts)) as Hparts.
    { intros parts Hp. unfold wire_content in Hc. rewrite Hp in Hc. by injection Hc as <-. }
    destruct (wm_tool_calls w) as [|t tc]; injection H as <-; destruct (nonempty (name (wm w)));
      (split; [done|]; split; [done|]; split; [done|]; intros parts Hp; cbn; by rewrite ?Hp, (Hparts _ Hp)).
Qed.

Lemma wire_message_text w d : wire_message false w = Ok d → shown_as_text d.
Proof.
  unfold wire_message, shown_as_text, dict_role. case_bool_decide as Hr.
  - intros (t & _ & [= <-])%res_bind_ok. done.
  - intros (c & Hc & H)%res_bind_ok. destruct (wm_tool_calls w) as [|t tc].
    + injection H as <-. split; [exact (bool_decide_eq_false_2 _ Hr)|]. by destruct (nonempty (name (wm w))).
    + apply res_bind_ok in H as (x & _ & (calls & _ & [= <-])%res_bind_ok).
      split; [exact (bool_decide_eq_false_2 _ Hr)|]. by destruct (nonempty (name (wm w))).
Qed.

(** The agentic shape on the wire: every message keeps its place and role and, for an
    entry that speaks tools, its tool calls, its tool-call id and its content parts
    verbatim; for one that does not, nothing of the tool protocol reaches the provider. *)
Theorem wire_messages_exact native ws out :
  wire_messages native ws = Ok out →
  length out = length ws ∧
  if native then Forall2 shown_natively ws out else Forall shown_as_text out.
Proof.
  intros H%map_res_forall. split; [symmetry; by eapply Forall2_length|]. destruct native.
  - eapply Forall2_impl; [exact H|]. intros. by apply wire_message_native.
  - apply Forall_forall. intros d Hd. apply list_elem_of_lookup in Hd as (i & Hi).
    apply (Forall2_lookup_r _ _ _ _ _ H) in Hi as (w & _ & Hw). by eapply wire_message_text.
Qed.

(** ** Breakpoints *)

(** The text a wire message carries. *)
Definition part_says (p : json) : string := if is_text_dict p then match p with JObj d => str_field d "text" | _ => "" end else "".

Definition msg_says (msg : list (string * json)) : string :=
  match dget msg "content" with
  | Some (JStr s) => s
  | Some (JList parts) => String.concat "" (part_says <$> parts)
  | _ => ""
  end.

(** Marking changes nothing but the breakpoint. *)
Definition says_same (a b : list (string * json)) : Prop :=
  msg_says b = msg_says a ∧ ∀ k, k ≠ "content" → dget b k = dget a k.

Lemma part_says_marked d : part_says (JObj (dset d "cache_control" ephemeral)) = part_says (JObj d).
Proof. unfold part_says, is_text_dict, str_field. by rewrite !dget_dset_ne by done. Qed.

Lemma mark_last_part_says ps ps' : mark_last_part ps = Some ps' → part_says <$> ps' = part_says <$> ps.
Proof.
  revert ps'. induction ps as [|p ps IH]; intros ps'; cbn; [done|].
  destruct (mark_last_part ps) as [qs|].
  - intros [= <-]. cbn. by rewrite (IH qs eq_refl).
  - destruct (is_text_dict p) eqn:E; [|done]. intros [= <-]. cbn.
    destruct p; try done. by rewrite part_says_marked.
Qed.

Lemma mark_last_text_same msg : says_same msg (mark_last_text msg).
Proof.
  unfold mark_last_text, says_same, msg_says.
  destruct (dget msg "content") as [v|] eqn:E; [destruct v|]; try by rewrite E.
  - case_bool_decide; [by rewrite E|]. rewrite dget_dset_eq. split; [|intros; by rewrite dget_dset_ne].
    done.
  - destruct (mark_last_part l) as [ps|] eqn:Hm; [|by rewrite E].
    rewrite dget_dset_eq. split; [by rewrite (mark_last_part_says _ _ Hm)|intros; by rewrite dget_dset_ne].
Qed.

#[export] Instance says_same_equiv : Equivalence says_same.
Proof.
  split; [done| |].
  - intros a b [H1 H2]. split; [done|]. intros k Hk. by rewrite H2.
  - intros a b c [H1 H2] [H3 H4]. split; [congruence|]. intros k Hk. rewrite H4, H2 by done. done.
Qed.

(** The number of messages that carry a breakpoint. *)
Definition marked_count (ms : list (list (string * json))) : nat := length (List.filter has_breakpoint ms).

Lemma marked_count_cons m ms : marked_count (m :: ms) = (if has_breakpoint m then 1 else 0) + marked_count ms.
Proof. unfold marked_count. cbn. by destruct (has_breakpoint m). Qed.

Lemma mark_last_bearing_spec ms ms' :
  mark_last_bearing ms = Some ms' → Forall2 says_same ms ms' ∧ marked_count ms' ≤ S (marked_count ms).
Proof.
  revert ms'. induction ms as [|m ms IH]; intros ms'; cbn [mark_last_bearing]; [done|].
  destruct (mark_last_bearing ms) as [qs|].
  - intros [= <-]. destruct (IH qs eq_refl) as [Hs Hc]. split; [by constructor|].
    rewrite !marked_count_cons. lia.
  - destruct (bears_text m); [|done]. intros [= <-].
    split; [constructor; [apply mark_last_text_same|]|rewrite !marked_count_cons; destruct (has_breakpoint (mark_last_text m)), (has_breakpoint m); lia].
    apply Forall_Forall2_diag, Forall_true. done.
Qed.

Lemma mark_system_spec ms :
  Forall2 says_same ms (mark_system ms) ∧ marked_count (mark_system ms) ≤ S (marked_count ms).
Proof.
  destruct ms as [|m ms]; cbn [mark_system]; [split; [constructor|unfold marked_count; cbn; lia]|].
  split.
  - constructor; [destruct (dict_role m "system"); [apply mark_last_text_same|done]|].
    apply Forall_Forall2_diag, Forall_true. done.
  - rewrite !marked_count_cons. destruct (has_breakpoint (if dict_role m "system" then _ else _)), (has_breakpoint m); lia.
Qed.

(** Cache breakpoints on the OpenRouter path: whatever is injected, every message keeps its
    place, its text and every other field; at most two messages are marked, and a request
    whose client placed a breakpoint itself, or that is not bound for OpenRouter, goes out
    as it came. *)
Theorem inject_only_marks dflt e req ms :
  let out := openrouter_cache_inject dflt e req ms in
  Forall2 says_same ms out ∧
  (wire_has_breakpoint ms = true ∨ contains "openrouter.ai" (base_of e) = false → out = ms) ∧
  (wire_has_breakpoint ms = false → marked_count out ≤ 2).
Proof.
  intros out. assert (Forall2 says_same ms ms) as Hrefl by (apply Forall_Forall2_diag, Forall_true; done).
  assert (wire_has_breakpoint ms = false → marked_count ms = 0) as H0.
  { unfold wire_has_breakpoint, marked_count. induction ms as [|m ms IH]; [done|]. cbn.
    destruct (has_breakpoint m); [done|]. cbn. intros H. apply IH; [|done].
    apply Forall_Forall2_diag, Forall_true. done. }
  subst out. unfold openrouter_cache_inject.
  destruct (negb (auto_inject _)); [split; [done|]; split; [done|]; intros H; rewrite H0 by done; lia|].
  destruct (contains "openrouter.ai" (base_of e)); cbn [negb];
    [|split; [done|]; split; [done|]; intros H; rewrite H0 by done; lia].
  destruct (negb (is_anthropic_family _)); [split; [done|]; split; [done|]; intros H; rewrite H0 by done; lia|].
  destruct (wire_has_breakpoint ms); [split; [done|]; split; [done|]; intros H; discriminate|].
  destruct (negb _); [split; [done|]; split; [done|]; intros H; rewrite H0 by done; lia|].
  specialize (H0 eq_refl). destruct (mark_system_spec ms) as [Hs Hc]. unfold inject.
  destruct (mark_last_bearing (mark_system ms)) as [qs|] eqn:E.
  - destruct (mark_last_bearing_spec _ _ E) as [Hs' Hc']. split; [by etrans|]. split; [by intros [?|?]|lia].
  - split; [done|]. split; [by intros [?|?]|lia].
Qed.

(** ** Keywords *)

(** What the request's construction guarantees of its extra fields: their names are
    distinct, and none is a declared field. *)
Definition DECLARED : list string :=
  ["model"; "messages"; "stream"; "stream_options"; "temperature"; "top_p"; "max_tokens"; "stop"; "n"; "user";
   "conversation_key"; "cache_prefs"].

Record well_formed (req : ChatCompletionRequest) : Prop := {
  wf_extra : NoDup (dkeys (model_extra req));
  wf_declared : ∀ k, k ∈ dkeys (model_extra req) → k ∉ DECLARED;
}.

Lemma dump_keys_nodup req : well_formed req → NoDup (dump_keys req).
Proof.
  intros [Hn Hd]. unfold dump_keys.
  set (mid := List.filter _ _). set (ext := _ <$> _).
  assert (∀ k, k ∈ ext → k ∈ dkeys (model_extra req)) as Hext.
  { intros k (kv & -> & [H _]%elem_of_bfilter)%list_elem_of_fmap. by apply list_elem_of_fmap_2. }
  assert (∀ k, k ∈ mid → k ∈ DECLARED ∧ k ∉ ["model"; "messages"; "stream"]) as Hmid.
  { intros k [H _]%elem_of_bfilter. each H by (split; literal). }
  apply NoDup_app. split; [apply (bool_decide_unpack _); by vm_compute|]. split.
  { intros k Hk [Hm|He]%elem_of_app; [by apply Hmid in Hm as [_ ?]|].
    apply Hext, Hd in He. each Hk by (apply He; literal). }
  apply NoDup_app. split; [apply NoDup_bfilter, (bool_decide_unpack _); by vm_compute|]. split.
  { intros k [Hm _]%Hmid He. by apply Hext, Hd in He. }
  subst ext. clear -Hn. unfold dkeys in Hn. induction (model_extra req) as [|[k v] l IH]; cbn; [constructor|].
  cbn in Hn. apply NoDup_cons in Hn as [Hk Hl]. destruct (negb _); [|by apply IH].
  cbn. constructor; [|by apply IH]. intros (kv & -> & [H _]%elem_of_bfilter)%list_elem_of_fmap.
  apply Hk. by apply list_elem_of_fmap_2.
Qed.

Lemma params_keys req : dkeys (params_of req) = passthrough_params req.
Proof. unfold params_of, dkeys. rewrite <- list_fmap_compose. by rewrite list_fmap_id. Qed.

Lemma elem_of_dkeys_dpop {V} (d : list (string * V)) k x : x ∈ dkeys (dpop d k) ↔ x ≠ k ∧ x ∈ dkeys d.
Proof. by rewrite dkeys_dpop, list_elem_of_filter. Qed.

Lemma strip_keys params :
  NoDup (dkeys params) →
  NoDup (dkeys (strip_tool_params params)) ∧
  ∀ x, x ∈ dkeys (strip_tool_params params) → x ∈ dkeys params ∧ x ∉ TOOL_PARAMS.
Proof.
  intros H. unfold strip_tool_params, TOOL_PARAMS. cbn [foldl]. split; [repeat apply NoDup_dpop; exact H|].
  intros x. rewrite !elem_of_dkeys_dpop. set_solver.
Qed.

(** The extra keywords of a provider: each hint only where it is understood. *)
Lemma provider_extra_spec e req params extra params' :
  provider_extra e req params = (extra, params') →
  NoDup (dkeys params) →
  NoDup (dkeys params') ∧ (∀ k, k ∈ dkeys params' → k ∈ dkeys params ∧ k ∉ ["prompt_cache_key"; "session_id"]) ∧
  NoDup (dkeys extra) ∧
  (∀ k, k ∈ dkeys extra →
     k = "prompt_cache_key" ∧ (base_of e = "" ∨ contains "api.openai.com" (base_of e) = true) ∧
       contains "openrouter.ai" (base_of e) = false
     ∨ k = "extra_body" ∧ contains "openrouter.ai" (base_of e) = true).
Proof.
  unfold provider_extra, cache_affinity, usage_extra. intros H Hn.
  assert (params' = dpop (dpop params "prompt_cache_key") "session_id") as ->.
  { destruct (contains "openrouter.ai" (base_of e)); [by injection H as _ <-|].
    destruct (_ || _); by injection H as _ <-. }
  split; [by do 2 apply NoDup_dpop|]. split; [intros k; rewrite !elem_of_dkeys_dpop; set_solver|].
  destruct (contains "openrouter.ai" (base_of e)) eqn:Eo.
  - injection H as <-. destruct (or_json (dget params "session_id") _) as [v|]; cbn;
      (split; [by apply NoDup_singleton|]; intros k ->%list_elem_of_singleton; by right).
  - destruct ((base_of e ≡? "") || contains "api.openai.com" (base_of e)) eqn:Eb.
    + injection H as <-. apply orb_true_iff in Eb. rewrite bool_decide_eq_true in Eb.
      destruct (or_json (dget params "prompt_cache_key") _) as [v|]; cbn; [|by split; [constructor|intros k ?%elem_of_nil] ].
      split; [by apply NoDup_singleton|]. intros k ->%list_elem_of_singleton. by left.
    + injection H as <-. cbn. by split; [constructor|intros k ?%elem_of_nil].
Qed.

(** The keywords of the upstream call.  They are distinct (the call cannot fail on a
    repeated keyword), the model is the entry's upstream model, no internal or
    request-control field of the client reaches the provider, each cache hint is sent only
    to the endpoint that understands it, and an entry that does not speak tools is sent no
    tool parameter. *)
Theorem call_body_keywords dflt e req msgs (streamed : bool) body :
  well_formed req → call_body dflt e req msgs (if streamed then STREAM_KEYWORDS else []) = Ok body →
  NoDup (dkeys body) ∧
  dget body "model" = Some (JStr (effective_upstream_model e)) ∧
  (∀ k, k ∈ dkeys body →
     k ∉ ["conversation_key"; "cache_prefs"; "extra_headers"; "extra_query"; "timeout"; "session_id"] ∧
     (k = "prompt_cache_key" → contains "openrouter.ai" (base_of e) = false ∧
                              (base_of e = "" ∨ contains "api.openai.com" (base_of e) = true)) ∧
     (k = "extra_body" → contains "openrouter.ai" (base_of e) = true) ∧
     (tools e = false → k ∉ TOOL_PARAMS)).
Proof.
  intros Hwf. unfold call_body. set (params := if tools e then params_of req else _).
  assert (NoDup (dkeys params) ∧ ∀ k, k ∈ dkeys params →
    (k ∉ control_fields) ∧ startswith "extra_" k = false ∧ (tools e = false → k ∉ TOOL_PARAMS)) as [Hnd Hp].
  { assert (NoDup (dkeys (params_of req))) as Hn0.
    { rewrite params_keys. unfold passthrough_params. by do 2 apply NoDup_bfilter; apply dump_keys_nodup. }
    assert (∀ k, k ∈ dkeys (params_of req) → (k ∉ control_fields) ∧ startswith "extra_" k = false) as H0.
    { intros k. rewrite params_keys. apply passthrough_params_strips. }
    subst params. destruct (tools e).
    - split; [done|]. intros k Hk. by destruct (H0 k Hk).
    - destruct (strip_keys _ Hn0) as [Hn1 H1]. split; [done|]. intros k Hk. destruct (H1 k Hk) as [Hk' ?].
      by destruct (H0 k Hk'). }
  destruct (provider_extra e req params) as [extra params'] eqn:Ex.
  apply provider_extra_spec in Ex as (Hn' & Hp' & Hne & He); [|done].
  intros (wire & _ & [= <-])%res_bind_ok.
  set (streamed_keys := dkeys (if streamed then STREAM_KEYWORDS else [])).
  assert (∀ k, k ∈ streamed_keys → k ∈ ["stream"; "stream_options"]) as Hs
    by (subst streamed_keys; destruct streamed; cbn; set_solver).
  assert (∀ k, k ∈ dkeys params' → (k ∉ control_fields) ∧ startswith "extra_" k = false ∧
    (tools e = false → k ∉ TOOL_PARAMS) ∧ k ∉ ["prompt_cache_key"; "session_id"]) as Hpp.
  { intros k [Hk Hk']%Hp'. by destruct (Hp k Hk) as (? & ? & ?). }
  set (rest := _ ++ extra ++ params').
  assert (∀ a b, dkeys (("model", a) :: ("messages", b) :: rest)
                 = ["model"; "messages"] ++ streamed_keys ++ dkeys extra ++ dkeys params') as Hkeys.
  { intros a b. subst rest. unfold dkeys. cbn [fmap list_fmap fst]. by rewrite !fmap_app. }
  rewrite Hkeys. split; [|split; [done|] ].
  - assert (NoDup streamed_keys) as Hns by (subst streamed_keys; destruct streamed; apply (bool_decide_unpack _); by vm_compute).
    apply NoDup_app. split; [apply (bool_decide_unpack _); by vm_compute|]. split.
    { intros k Hk [Hst|[Hex|Hpa]%elem_of_app]%elem_of_app.
      - apply Hs in Hst. revert Hst. each Hk by literal.
      - apply He in Hex as [[-> _]|[-> _]]; revert Hk; literal.
      - apply Hpp in Hpa as [Hc _]. each Hk by (apply Hc; literal). }
    apply NoDup_app. split; [done|]. split.
    { intros k Hst%Hs [Hex|Hpa]%elem_of_app.
      - apply He in Hex as [[-> _]|[-> _]]; revert Hst; literal.
      - apply Hpp in Hpa as [Hc _]. each Hst by (apply Hc; literal). }
    apply NoDup_app. split; [done|]. split; [|done].
    intros k [[-> _]|[-> _]]%He (Hc & Hx & _ & Hq)%Hpp; [apply Hq; literal|done].
  - intros k Hk. rewrite !elem_of_app in Hk. destruct Hk as [Hk|[Hk|[Hk|Hk] ] ].
    + each Hk by (split; [literal|]; split; [done|]; split; [done|]; intros _; literal).
    + apply Hs in Hk. each Hk by (split; [literal|]; split; [done|]; split; [done|]; intros _; literal).
    + apply He in Hk as [(-> & Hb & Ho)|[-> Ho]];
        (split; [literal|]; split; [done|]; split; [done|]; intros _; literal).
    + destruct (Hpp k Hk) as (Hc & Hx & Ht & Hq). split.
      { intros Hin. each Hin by (first [apply Hc; literal | apply Hq; literal]). }
      split; [intros ->; exfalso; apply Hq; literal|]. split; [intros ->; done|done].
Qed.

(** ** Keys *)

(** A platform route never spends a caller's key; a caller's route uses the caller's key
    when there is one; and a key that is configured but unreadable stops the call rather
    than fall back to another payer. *)
Lemma client_key_exact e unavailable byok :
  client_key e unavailable byok =
  if bool_decide (api_key_env e ∈ unavailable) then Err KEY_UNAVAILABLE
  else match (λ s, kind s) <$> credential_scope e, nonempty (dget byok (api_key_env e)) with
       | Some platform, _ | _, None => Ok PlatformKey
       | _, Some key => Ok (ByokKey key)
       end.
Proof.
  unfold client_key. destruct (bool_decide _); [done|].
  destruct (credential_scope e) as [s|]; cbn; [destruct (kind s)|]; cbn; try done;
    by destruct (nonempty (dget byok (api_key_env e))).
Qed.

(** ** The call and its answer *)

Section chat_facts.
Context {W : Type} (create : W → list (string * json) → res Exn UpResponse * W).

(** The bodies sent, from a world that records them. *)
Context (sent : W → list (list (string * json))).
Hypothesis create_sent : ∀ w body, sent (create w body).2 = sent w ++ [body].

Lemma create_retrying_sent n body w :
  ∃ k, sent (create_retrying create n body w).2 = sent w ++ replicate (S k) body ∧ k ≤ n.
Proof using create_sent.
  revert w. induction n as [|n IH]; intros w; cbn [create_retrying]; unfold mbind at 1;
    pose proof (create_sent w body) as Hs; destruct (create w body) as [[r|x] w1]; cbn [snd] in *;
    try (exists 0; split; [exact Hs|lia]).
  destruct (substantial r); [exists 0; split; [exact Hs|lia]|].
  destruct (IH w1) as (k & Hk & Hle). exists (S k). rewrite Hk, Hs, <- app_assoc. split; [done|lia].
Qed.

(** One completion asks the provider at most three times, always with the same body, and
    names the catalog entry, never the upstream model, as the model that answered. *)
Theorem chat_bounded dflt unavailable byok e req msgs w :
  let out := chat create dflt unavailable byok e req msgs w in
  (∃ k body, sent out.2 = sent w ++ replicate k body ∧ k ≤ 3 ∧
     (k ≠ 0 → call_body dflt e req msgs [] = Ok body)) ∧
  match out.1 with
  | Ok a => resp_model (ra_response a) = id e ∧ length (choices (ra_response a)) = 1
  | Err _ => True
  end.
Proof using create_sent.
  unfold chat. destruct (client_key e unavailable byok) as [key|x]; cbn [plain_lift lift_as];
    [|split; [exists 0, []; split; [cbn; by rewrite app_nil_r|split; [lia|done] ]|done] ].
  unfold plain_lift. cbn [lift_as]. rewrite mbind_mret.
  destruct (call_body dflt e req msgs []) as [body|x] eqn:Eb; cbn [lift_as];
    [rewrite mbind_mret|split; [exists 0, []; split; [cbn; by rewrite app_nil_r|split; [lia|done] ]|done] ].
  destruct (create_retrying_sent EMPTY_BODY_RETRIES body w) as (k & Hk & Hle).
  unfold EMPTY_BODY_RETRIES in *. unfold mbind at 1 2.
  destruct (create_retrying create 2 body w) as [[r|x] w1]; cbn [fst snd] in *.
  - split; [exists (S k), body; split; [done|]; split; [lia|done]|].
    cbn -[answer_of]. unfold answer_of. destruct (ur_choices r); by destruct (upstream_provenance r) as [[? ?] ?].
  - split; [exists (S k), body; split; [done|]; split; [lia|done]|done].
Qed.
End chat_facts.

(** ** The stream *)

Definition out_text (c : OutChunk) : string := match c with OContent s => s | _ => "" end.
Definition out_calls (c : OutChunk) : list json := match c with OToolCalls tc => tc | _ => [] end.

(** The deltas of the chunks that are not usage. *)
Definition deltas (l : list UpChunk) : list UpDelta :=
  flat_map (λ c, match uk_usage c with Some _ => [] | None => uk_choices c end) l.

Fixpoint last_usage (u : option UpUsage) (l : list UpChunk) : option UpUsage :=
  match l with
  | [] => u
  | c :: l => last_usage (match uk_usage c with Some v => Some v | None => u end) l
  end.

Lemma concat_map_app {A} (f : A → string) l1 l2 :
  String.concat "" (f <$> l1 ++ l2) = String.concat "" (f <$> l1) +:+ String.concat "" (f <$> l2).
Proof. by rewrite fmap_app, concat_app. Qed.

Lemma delta_chunks_text d :
  String.concat "" (out_text <$> delta_chunks d) = ud_content d ∧
  flat_map out_calls (delta_chunks d) = ud_tool_calls d.
Proof.
  unfold delta_chunks. case_bool_decide as H; [rewrite H|];
    destruct (ud_tool_calls d) as [|t tc], (ud_reasoning d); cbn; rewrite ?app_nil_r;
    try (case_bool_decide); cbn; rewrite ?app_nil_r, ?str_app_nil_r; done.
Qed.

Lemma chunks_text ds :
  String.concat "" (out_text <$> flat_map delta_chunks ds) = String.concat "" (ud_content <$> ds) ∧
  flat_map out_calls (flat_map delta_chunks ds) = flat_map ud_tool_calls ds.
Proof.
  induction ds as [|d ds [IH1 IH2]]; [done|]. cbn [flat_map]. destruct (delta_chunks_text d) as [H1 H2].
  split.
  - rewrite concat_map_app, H1, IH1. by rewrite fmap_cons, concat_cons.
  - by rewrite flat_map_app, H2, IH2.
Qed.

Lemma stream_body_relays st l :
  String.concat "" (out_text <$> (stream_body st l).2) = String.concat "" (ud_content <$> deltas l) ∧
  flat_map out_calls (stream_body st l).2 = flat_map ud_tool_calls (deltas l) ∧
  ss_usage (stream_body st l).1 = last_usage (ss_usage st) l ∧
  ss_finish (stream_body st l).1 = foldl finish_of (ss_finish st) (deltas l) ∧
  Forall (λ c, match c with OStop _ | OUsage _ | ORole => False | _ => True end) (stream_body st l).2.
Proof.
  revert st. induction l as [|c l IH]; intros st; [by split_and!|]. cbn [stream_body].
  destruct (stream_chunk st c) as [st1 out] eqn:E. specialize (IH st1).
  destruct (stream_body st1 l) as [st2 rest]. cbn [fst snd] in *. destruct IH as (H1 & H2 & H3 & H4 & H5).
  unfold stream_chunk in E. cbn [deltas flat_map last_usage]. fold (deltas l).
  destruct (uk_usage c) as [u|].
  { injection E as <- <-. cbn in *. by split_and!. }
  set (chunks := flat_map delta_chunks (uk_choices c)) in E.
  assert (out = chunks ∨ chunks = [] ∧ out = [OKeepalive]) as Hout.
  { destruct chunks; injection E as <- <-; [|by left]. destruct (Qle_bool _ _); auto. }
  destruct (chunks_text (uk_choices c)) as [Ht Hc].
  assert (String.concat "" (out_text <$> out) = String.concat "" (ud_content <$> uk_choices c)) as Ht'.
  { destruct Hout as [->|[Hn ->]]; [done|]. fold chunks in Ht. rewrite Hn in Ht. by rewrite <- Ht. }
  assert (flat_map out_calls out = flat_map ud_tool_calls (uk_choices c)) as Hc'.
  { destruct Hout as [->|[Hn ->]]; [done|]. fold chunks in Hc. rewrite Hn in Hc. by rewrite <- Hc. }
  split_and!.
  - rewrite concat_map_app, Ht', H1. by rewrite concat_map_app.
  - rewrite flat_map_app, Hc', H2. by rewrite flat_map_app.
  - rewrite H3. by injection E as <- _.
  - rewrite H4, foldl_app. f_equal. by injection E as <- _.
  - apply Forall_app. split; [|done]. destruct Hout as [->|[_ ->]]; [|by repeat constructor].
    subst chunks. clear. induction (uk_choices c) as [|d ds IH]; [constructor|]. cbn. apply Forall_app. split; [|done].
    unfold delta_chunks. case_bool_decide; destruct (ud_tool_calls d), (ud_reasoning d); try case_bool_decide;
      repeat constructor.
Qed.

(** The stream is relayed faithfully: the text the client reads is the text of the upstream
    deltas, the tool-call deltas arrive all and in order, keepalives add nothing; a stream
    that completes ends with the last finish reason and one usage chunk carrying the last
    usage reported (zeros when there was none), and one that fails has neither. *)
Theorem stream_relays now l failed :
  let out := stream_out now l failed in
  String.concat "" (out_text <$> out) = String.concat "" (ud_content <$> deltas l) ∧
  flat_map out_calls out = flat_map ud_tool_calls (deltas l) ∧
  ∃ body, out = ORole :: body ++ (if failed then [] else
            [OStop (foldl finish_of "stop" (deltas l)); OUsage (usage_from (last_usage None l))]) ∧
    Forall (λ c, match c with OStop _ | OUsage _ | ORole => False | _ => True end) body.
Proof.
  intros out. subst out. unfold stream_out.
  pose proof (stream_body_relays (stream_start now) l) as (H1 & H2 & H3 & H4 & H5).
  destruct (stream_body (stream_start now) l) as [st body]. cbn [fst snd] in *.
  rewrite H3, H4. cbn [ss_usage ss_finish stream_start]. split_and!.
  - rewrite fmap_cons, concat_cons. cbn [out_text]. rewrite concat_map_app, H1.
    destruct failed; cbn; by rewrite str_app_nil_r.
  - cbn [flat_map out_calls]. rewrite flat_map_app, H2. destruct failed; cbn; by rewrite app_nil_r.
  - by exists body.
Qed.
