(* ===== verification/Credentials.v ===== *)
(** * Bring-your-own keys ([credentials.py], [auth/provider_keys.py], [routes/credentials.py])

    The key tables, the at-rest encryption with its rotation window, the choice of one
    credential per provider, the request's overlay of the caller's own keys, and the vaulted
    Toto key.  The hash and the cipher are the class [Fernet] with its laws; Vault, the
    process environment and the tables' availability are arguments. *)

From S2P Require Import Prelude.
From S2P Require Import PyStr.
From S2P Require Import PyDict.
From S2P Require Import Regex.
From S2P Require Import Schemas.
From S2P Require Import Catalog.
From S2P Require Import ExactCache.
From S2P Require Import Policy.
From S2P Require Import Resilience.
From S2P Require Import Prompts.
From S2P Require Import Domain.
From S2P Require Import Ledger.
From S2P Require Import Json.
From S2P Require Import Base64.
From S2P Require Import OpenAIWire.

(** ** The known providers *)

Record Provider := { label : string; p_key_env : string; powers : string; account_env : option string }.

Definition simple_provider (l env pw : string) : Provider :=
  {| label := l; p_key_env := env; powers := pw; account_env := None |}.

Definition PROVIDERS : list (string * Provider) :=
  [("openrouter", simple_provider "OpenRouter" "OPENROUTER_API_KEY" "Economy-tier routing via OpenRouter");
   ("fireworks", simple_provider "Fireworks" "FIREWORKS_API_KEY" "Fireworks serverless inference + fine-tunes");
   ("cloudflare", {| label := "Cloudflare"; p_key_env := "CLOUDFLARE_API_TOKEN";
                     powers := "Workers AI models at the edge"; account_env := Some "CLOUDFLARE_ACCOUNT_ID" |});
   ("openai", simple_provider "OpenAI" "OPENAI_API_KEY" "GPT models via the direct OpenAI API");
   ("gemini", simple_provider "Gemini" "GEMINI_API_KEY" "Google Gemini via the direct API");
   ("anthropic", simple_provider "Anthropic" "ANTHROPIC_API_KEY" "Claude models via the direct API")].

(** ** The key tables ([ProviderKeysMixin]) *)

Record KeyRow := { kr_encrypted : string; kr_last4 : string; kr_created_at : Q }.

(** Rows by owner (a user or an organisation) and provider. *)
Definition KeyTable := list ((string * string) * KeyRow).

Record AuthKeys := { provider_keys : KeyTable; org_provider_keys : KeyTable }.

Definition no_keys : AuthKeys := {| provider_keys := []; org_provider_keys := [] |}.

Definition key_map (owner : string) (t : KeyTable) : list (string * string) :=
  omap (λ r, if r.1.1 ≡? owner then Some (r.1.2, kr_encrypted r.2) else None) t.

Definition set_provider_key (user_id provider encrypted last4 : string) (now : Q) (a : AuthKeys) : AuthKeys :=
  {| provider_keys := dset (provider_keys a) (user_id, provider)
                        {| kr_encrypted := encrypted; kr_last4 := last4; kr_created_at := now |};
     org_provider_keys := org_provider_keys a |}.

(** [ORDER BY provider] *)
Definition list_provider_keys (user_id : string) (a : AuthKeys) : list (string * string) :=
  sort_by (λ x y, str_leb x.1 y.1)
    (omap (λ r, if r.1.1 ≡? user_id then Some (r.1.2, kr_last4 r.2) else None) (provider_keys a)).

Definition get_provider_key_map (user_id : string) (a : AuthKeys) : list (string * string) :=
  key_map user_id (provider_keys a).

Definition delete_provider_key (user_id provider : string) (a : AuthKeys) : AuthKeys :=
  {| provider_keys := dpop (provider_keys a) (user_id, provider); org_provider_keys := org_provider_keys a |}.

Definition set_org_provider_key (org_id provider encrypted last4 : string) (now : Q) (a : AuthKeys) : AuthKeys :=
  {| provider_keys := provider_keys a;
     org_provider_keys := dset (org_provider_keys a) (org_id, provider)
                            {| kr_encrypted := encrypted; kr_last4 := last4; kr_created_at := now |} |}.

Definition list_org_provider_keys (org_id : string) (a : AuthKeys) : list (string * (string * Q)) :=
  sort_by (λ x y, str_leb x.1 y.1)
    (omap (λ r, if r.1.1 ≡? org_id then Some (r.1.2, (kr_last4 r.2, kr_created_at r.2)) else None) (org_provider_keys a)).

Definition get_org_provider_key_map (org_id : string) (a : AuthKeys) : list (string * string) :=
  key_map org_id (org_provider_keys a).

Definition delete_org_provider_key (org_id provider : string) (a : AuthKeys) : AuthKeys :=
  {| provider_keys := provider_keys a; org_provider_keys := dpop (org_provider_keys a) (org_id, provider) |}.

(** ** Plaintexts *)

(** [json.dumps] with its default separators, for a flat dict of texts. *)
Definition dumps_flat (d : list (string * string)) : string :=
  "{" +:+ join ", " ((λ kv, json_quote kv.1 +:+ ": " +:+ json_quote kv.2) <$> d) +:+ "}".

(** [KeyError] is [None]. *)
Definition pack_provider_key (provider key account_id : string) : option string :=
  match dget PROVIDERS provider with
  | Some d => Some (match account_env d with
                    | Some _ => dumps_flat [("api_key", key); ("account_id", account_id)]
                    | None => key
                    end)
  | None => None
  end.

(** [str(data.get(k) or "")] *)
Definition data_text (d : list (string * json)) (k : string) : string :=
  match dget d k with Some v => if truthy v then json_str v else "" | None => "" end.

Definition provider_env_map (fr : Q → string) (provider plaintext : string) : list (string * string) :=
  match dget PROVIDERS provider with
  | None => []
  | Some d =>
      match account_env d with
      | Some acc =>
          if startswith "{" plaintext then
            match loads fr plaintext with
            | Some (JObj data) =>
                let out := [(p_key_env d, data_text data "api_key")] in
                let account := data_text data "account_id" in
                let out := if account ≡? "" then out else dset out acc account in
                List.filter (λ kv, negb (kv.2 ≡? "")) out
            | _ => [(p_key_env d, plaintext)]
            end
          else [(p_key_env d, plaintext)]
      | None => [(p_key_env d, plaintext)]
      end
  end.

(** [key[-4:]] of a key long enough not to be given away by it. *)
Definition last4 (key : string) : string := if 8 <=? str_len key then str_drop (str_len key - 4) key else "".

(** ** The request's overlay *)

(** The two context variables. *)
Record Byok := { byok_keys : list (string * string); byok_unavailable_envs : list string }.

Definition no_byok : Byok := {| byok_keys := []; byok_unavailable_envs := [] |}.

(** [os.environ.get] *)
Definition Environ := string → option string.

Definition stored_or_env (b : Byok) (environ : Environ) (env : string) : option string :=
  nonempty (dget (byok_keys b) env) orelse nonempty (environ env).

(** [os.path.expandvars]: one pass from the left; an unknown name stays as it is, and what was
    put in is not looked at again. *)
Fixpoint take_word (s : string) : string :=
  match s with String c s' => if is_word c then String c (take_word s') else "" | EmptyString => "" end.

Fixpoint until_brace (s : string) : option string :=
  match s with
  | String c s' => if c ≡? "}"%char then Some ""
                   else match until_brace s' with Some t => Some (String c t) | None => None end
  | EmptyString => None
  end.

Definition var_at (s : string) : option (string * nat) :=
  match s with
  | String "{" s' => match until_brace s' with Some name => Some (name, str_len name + 2) | None => None end
  | _ => match take_word s with "" => None | name => Some (name, str_len name) end
  end.

Fixpoint expandvars_fuel (fuel : nat) (environ : Environ) (s : string) : string :=
  match fuel, s with
  | S fuel, String c s' =>
      if c ≡? "$"%char then
        match var_at s' with
        | Some (name, n) =>
            (match environ name with Some v => v | None => String c (str_take n s') end)
            +:+ expandvars_fuel fuel environ (str_drop n s')
        | None => String c (expandvars_fuel fuel environ s')
        end
      else String c (expandvars_fuel fuel environ s')
  | _, _ => s
  end.

Definition expandvars (environ : Environ) (s : string) : string := expandvars_fuel (str_len s) environ s.

Definition expand_env_refs (b : Byok) (environ : Environ) (t : string) : string :=
  if contains "$" t then
    expandvars environ (fold_left (λ t kv, replace_all ("${" +:+ kv.1 +:+ "}") kv.2 t) (byok_keys b) t)
  else t.

(** [CatalogEntry.resolved_base_url] *)
Definition resolved_base_url (b : Byok) (environ : Environ) (e : CatalogEntry) : option string :=
  match nonempty (base_url e) with Some u => Some (expand_env_refs b environ u) | None => None end.

(** ** Key material ([_kms_keys]) *)

Record KmsSettings := {
  credentials_secret_env : string;
  credentials_secret_old_env : string;
  kms_provider : string;
  vault_addr : string;
  vault_token : string;
  vault_kv_path : string;
}.

(** [_KMS_CACHE], and how many times Vault was asked. *)
Record Kms := { kc_cache : list ((string * string * string) * (string * string)); kc_reads : nat }.

Definition reset_kms_cache (k : Kms) : Kms := {| kc_cache := []; kc_reads := kc_reads k |}.

(** What Vault answers to a configuration at a reading: the secret's fields, or it raises. *)
Definition Vault := (string * string * string) → nat → option (list (string * string)).

Definition KmsM (A : Type) := Kms → res string A * Kms.

Section kms.
Context (vault : Vault) (settings : KmsSettings).

Definition vault_keys (data : option (list (string * string))) : res string (string * string) :=
  match data with
  | None => Err "VaultError"
  | Some data =>
      match nonempty (dget data "credentials_secret") with
      | None => Err "RuntimeError: empty credentials_secret"
      | Some primary => Ok (primary, match dget data "credentials_secret_old" with Some o => o | None => "" end)
      end
  end.

Definition kms_keys : KmsM (string * string) := λ k,
  if kms_provider settings ≡? "env" then (Ok (credentials_secret_env settings, credentials_secret_old_env settings), k)
  else if negb (kms_provider settings ≡? "vault") then (Err "RuntimeError: unknown TOTO_GW_KMS_PROVIDER", k)
  else
    let cache_key := (vault_addr settings, vault_token settings, vault_kv_path settings) in
    match dget (kc_cache k) cache_key with
    | Some keys => (Ok keys, k)
    | None =>
        match vault_keys (vault cache_key (kc_reads k)) with
        | Err e => (Err e, {| kc_cache := kc_cache k; kc_reads := S (kc_reads k) |})
        | Ok keys => (Ok keys, {| kc_cache := dset (kc_cache k) cache_key keys; kc_reads := S (kc_reads k) |})
        end
    end.

Definition credentials_secret : KmsM string := λ k,
  match kms_keys k with (Ok p, k) => (Ok p.1, k) | (Err e, k) => (Err e, k) end.

Definition credentials_secret_old : KmsM string := λ k,
  match kms_keys k with (Ok p, k) => (Ok p.2, k) | (Err e, k) => (Err e, k) end.

(** Both, as [resolve_provider_credentials] reads them. *)
Definition both_secrets : KmsM (string * string) := λ k,
  match credentials_secret k with
  | (Err e, k) => (Err e, k)
  | (Ok primary, k) => match credentials_secret_old k with
                       | (Err e, k) => (Err e, k)
                       | (Ok old, k) => (Ok (primary, old), k)
                       end
  end.
End kms.

(** ** Encryption at rest *)

(** SHA-256 on bytes and Fernet: what is encrypted also depends on the time and the random
    vector, the [nat]. *)
Class Fernet := {
  sha256 : string → string;
  fernet_encrypt : string → nat → string → string;
  fernet_decrypt : string → string → option string;
}.

(** A token opens with its key and with no other, and is ASCII and not empty. *)
Class FernetLaws `{Fernet} := {
  fernet_opens k n p : fernet_decrypt k (fernet_encrypt k n p) = Some p;
  fernet_authentic k k' n p : k ≠ k' → fernet_decrypt k' (fernet_encrypt k n p) = None;
  fernet_ascii k n p : ascii_text (fernet_encrypt k n p) = true;
  fernet_token k n p : fernet_encrypt k n p ≠ "";
}.

Section cipher.
Context `{Fernet}.

Definition fernet_key (secret : string) : string := urlsafe_b64encode (sha256 (utf8_encode secret)).

(** [MultiFernet]: the first key encrypts, each key in turn decrypts. *)
Definition fernet_keys (secret old : string) : list string :=
  fernet_key secret :: if old ≡? "" then [] else [fernet_key old].

Fixpoint multi_decrypt (keys : list string) (token : string) : option string :=
  match keys with
  | [] => None
  | k :: keys => match fernet_decrypt k token with Some p => Some p | None => multi_decrypt keys token end
  end.

Definition encrypt (secret : string) (nonce : nat) (plaintext : string) : option string :=
  utf8_decode (fernet_encrypt (fernet_key secret) nonce (utf8_encode plaintext)).

Definition decrypt (secret token old : string) : option string :=
  match multi_decrypt (fernet_keys secret old) (utf8_encode token) with
  | Some p => utf8_decode p
  | None => None
  end.
End cipher.

(** ** One credential per provider ([resolve_provider_credentials]) *)

Definition Selected := list (string * (string * CredentialScopeRef)).

Inductive ResolveError : Type :=
  | Unavailable (providers : list string) (reason : string) (selected : Selected)
  | UnknownProvider (p : string).

(** What reading the tables gives; [None] when the store raises. *)
Record KeyReader := {
  rd_org : string → option (list (string * string));
  rd_user : string → option (list (string * string));
}.

Definition reader_of (a : AuthKeys) : KeyReader :=
  {| rd_org := λ o, Some (get_org_provider_key_map o a); rd_user := λ u, Some (get_provider_key_map u a) |}.

Definition org_scope (o : string) : CredentialScopeRef := {| kind := organization; scope_id := o |}.
Definition user_scope_of (u : string) : CredentialScopeRef := {| kind := user_scope; scope_id := u |}.
Definition platform_scope : CredentialScopeRef := {| kind := platform; scope_id := "platform" |}.

Definition scoped (s : CredentialScopeRef) (m : list (string * string)) : Selected :=
  (λ kv, (kv.1, (kv.2, s))) <$> m.

(** The comprehension builds a [CredentialScopeRef] for each row. *)
Definition scoped_rows (s : CredentialScopeRef) (m : list (string * string)) : option Selected :=
  match m with [] => Some [] | _ => if check_scope s then Some (scoped s m) else None end.

(** The rows in their order of precedence: the user's over the organisation's. *)
Definition encrypted_rows (rd : KeyReader) (user_id org_id : option string) : option Selected :=
  let read (o : option (list (string * string))) s rows :=
    match o with
    | Some m => match scoped_rows s m with Some l => Some (dupdate rows l) | None => None end
    | None => None
    end in
  match (match org_id with Some o => read (rd_org rd o) (org_scope o) [] | None => Some [] end) with
  | None => None
  | Some rows => match user_id with Some u => read (rd_user rd u) (user_scope_of u) rows | None => Some rows end
  end.

Section resolve.
Context `{Fernet}.
Context (vault : Vault) (settings : KmsSettings) (environ : Environ).

(** The loop's two dicts. *)
Definition Progress : Type := Selected * list (string * string).

Definition resolve_one (primary old : string) (encrypted : Selected) (st : Progress) (provider : string) : res ResolveError Progress :=
  let '(selected, unavailable) := st in
  match dget PROVIDERS provider with
  | None => Err (UnknownProvider provider)
  | Some definition =>
      match dget encrypted provider with
      | Some (ciphertext, scope) =>
          if dmem unavailable provider then Ok st
          else if ciphertext ≡? "" then Ok (selected, dset unavailable provider "malformed_ciphertext")
          else match nonempty (decrypt primary ciphertext old) with
               | None => Ok (selected, dset unavailable provider "decrypt_failed")
               | Some plaintext => Ok (dset selected provider (plaintext, scope), unavailable)
               end
      | None =>
          match nonempty (strip <$> environ (p_key_env definition)) with
          | Some v => Ok (dset selected provider (v, platform_scope), unavailable)
          | None => Ok st
          end
      end
  end.

Fixpoint resolve_all (primary old : string) (encrypted : Selected) (st : Progress) (requested : list string) : res ResolveError Progress :=
  match requested with
  | [] => Ok st
  | p :: requested => try! st := resolve_one primary old encrypted st p in resolve_all primary old encrypted st requested
  end.

(** [reasons.pop() if len(reasons) == 1 else ...] *)
Definition reason_of (unavailable : list (string * string)) : string :=
  match remove_dups unavailable.*2 with [r] => r | _ => "credential_unavailable" end.

(** [dict.fromkeys(configured, "kms_unavailable")] *)
Definition kms_unavailable (configured : list string) : list (string * string) :=
  dupdate [] ((λ p, (p, "kms_unavailable")) <$> configured).

Definition resolve_provider_credentials (rd : KeyReader) (user_id : option string) (providers : list string)
    (org_id : option string) (k : Kms) : res ResolveError Selected * Kms :=
  let requested := match providers with [] => dkeys PROVIDERS | _ => providers end in
  match encrypted_rows rd user_id org_id with
  | None => (Err (Unavailable requested "store_unavailable" []), k)
  | Some encrypted =>
      let configured := List.filter (λ p, dmem encrypted p) requested in
      let '(secrets, k) := match configured with
                           | [] => (Ok ("", ""), k)
                           | _ => both_secrets vault settings k
                           end in
      let primary := match secrets with Ok s => s.1 | Err _ => "" end in
      let old := match secrets with Ok s => s.2 | Err _ => "" end in
      let unavailable := if primary ≡? "" then kms_unavailable configured else [] in
      match resolve_all primary old encrypted ([], unavailable) requested with
      | Err e => (Err e, k)
      | Ok (selected, unavailable) =>
          match unavailable with
          | [] => (Ok selected, k)
          | _ => (Err (Unavailable (List.filter (λ p, dmem unavailable p) requested) (reason_of unavailable) selected), k)
          end
      end
  end.

(** The overlay of [load_byok]. *)
Definition overlay (fr : Q → string) (selected : Selected) : list (string * string) :=
  dupdate [] (flat_map (λ s, match kind s.2.2 with platform => [] | _ => provider_env_map fr s.1 s.2.1 end) selected).

Definition env_of (provider : string) : string := match dget PROVIDERS provider with Some d => p_key_env d | None => "" end.

Definition load_byok (fr : Q → string) (rd : KeyReader) (user_id org_id : option string) (k : Kms)
    : list (string * CredentialScopeRef) * Byok * Kms :=
  let '(r, k) := resolve_provider_credentials rd user_id [] org_id k in
  let '(selected, broken) := match r with
                             | Ok selected => (selected, [])
                             | Err (Unavailable ps _ selected) => (selected, ps)
                             | Err (UnknownProvider _) => ([], [])
                             end in
  ((λ s, (s.1, s.2.2)) <$> selected,
   {| byok_keys := overlay fr selected; byok_unavailable_envs := env_of <$> broken |}, k).
End resolve.

(** ** The routes of a user's keys ([routes/credentials.py]) *)

(** The tables, the key material's cache, and the tokens made so far. *)
Record Vaulted := { v_keys : AuthKeys; v_kms : Kms; v_nonce : nat }.

Inductive Reply : Type :=
  | Refused (status : nat) (message type : string)
  | KeyState (provider : string) (configured : bool) (masked : option string)
  | Raised (e : string).

Definition with_kms (k : Kms) (v : Vaulted) : Vaulted := {| v_keys := v_keys v; v_kms := k; v_nonce := v_nonce v |}.

Section routes.
Context `{Fernet}.
Context (vault : Vault) (settings : KmsSettings) (environ : Environ).

Definition unknown_provider (provider : string) : Reply :=
  Refused 400 ("unknown provider " +:+ repr provider) "invalid_request_error".

(** What both routes check of the pasted key. *)
Definition check_key (key : string) : option Reply :=
  if key ≡? "" then Some (Refused 400 "key must be non-empty" "invalid_request_error")
  else if 1024 <? str_len key then Some (Refused 400 "key too long" "invalid_request_error")
  else None.

(** [encrypt] and the write, once the secret is known. *)
Definition seal (secret plaintext : string) (store : string → AuthKeys → AuthKeys) (done : Reply) (v : Vaulted) : Reply * Vaulted :=
  match encrypt secret (v_nonce v) plaintext with
  | None => (Raised "UnicodeDecodeError", v)
  | Some token => (done, {| v_keys := store token (v_keys v); v_kms := v_kms v; v_nonce := S (v_nonce v) |})
  end.

Definition with_secret (use : string → Vaulted → Reply * Vaulted) (v : Vaulted) : Reply * Vaulted :=
  match credentials_secret vault settings (v_kms v) with
  | (Err e, k) => (Raised e, with_kms k v)
  | (Ok secret, k) =>
      if secret ≡? "" then (Refused 503 "credential storage not configured" "config_error", with_kms k v)
      else use secret (with_kms k v)
  end.

Definition put_credential (user_id : option string) (provider key : string) (now : Q) (v : Vaulted) : Reply * Vaulted :=
  match user_id with
  | None => (Refused 401 "login required" "authentication_error", v)
  | Some u =>
      if negb (dmem PROVIDERS provider) then (unknown_provider provider, v)
      else
        let key := strip key in
        match check_key key with
        | Some r => (r, v)
        | None =>
            with_secret (λ secret, seal secret key (λ token, set_provider_key u provider token (last4 key) now)
                                     (KeyState provider true (Some (last4 key)))) v
        end
  end.

Definition delete_credential (user_id : option string) (provider : string) (v : Vaulted) : Reply * Vaulted :=
  match user_id with
  | None => (Refused 401 "login required" "authentication_error", v)
  | Some u =>
      if negb (dmem PROVIDERS provider) then (unknown_provider provider, v)
      else (KeyState provider false None,
            {| v_keys := delete_provider_key u provider (v_keys v); v_kms := v_kms v; v_nonce := v_nonce v |})
  end.

(** The rows of [GET /v1/credentials]: provider, label, configured, last4 and powers. *)
Definition list_credentials (user_id : option string) (v : Vaulted) : Reply + list (string * string * bool * option string * string) :=
  match user_id with
  | None => inl (Refused 401 "login required" "authentication_error")
  | Some u =>
      let configured := dupdate [] (list_provider_keys u (v_keys v)) in
      inr ((λ p, (p.1, label p.2, dmem configured p.1, dget configured p.1, powers p.2)) <$> PROVIDERS)
  end.

(** ** The operator's keys ([routes/provider_keys.py]), less the recomposed catalog *)

Definition gate (is_operator : bool) (org_id : option string) : option Reply :=
  if negb is_operator then Some (Refused 403 "operator credential required" "authorization_error")
  else match org_id with
       | None => Some (Refused 400 "provider key storage requires the single-tenant (oss) edition" "invalid_request_error")
       | Some _ => None
       end.

(** [re.fullmatch(r"[0-9a-fA-F]{32}", s)] *)
Definition account_id_ok (s : string) : bool :=
  (str_len s =? 32) && str_all (λ c, is_digit c || in_range "a" "f" c || in_range "A" "F" c) s.

Definition put_provider_key (is_operator : bool) (org_id : option string) (provider key account_id : string) (now : Q)
    (v : Vaulted) : Reply * Vaulted :=
  match gate is_operator org_id, org_id with
  | Some r, _ => (r, v)
  | None, None => (Raised "unreachable", v)
  | None, Some o =>
      match dget PROVIDERS provider with
      | None => (unknown_provider provider, v)
      | Some definition =>
          let key := strip key in
          match check_key key with
          | Some r => (r, v)
          | None =>
              let account_id := strip account_id in
              let two := match account_env definition with Some _ => true | None => false end in
              if two && (account_id ≡? "") then (Refused 400 (provider +:+ " needs an account_id as well") "invalid_request_error", v)
              else if two && negb (account_id_ok account_id)
              then (Refused 400 ("account_id must be the 32-character code from your Cloudflare dashboard URL "
                                   +:+ "(dash.cloudflare.com/<account-id>) — not an email or account name") "invalid_request_error", v)
              else
                match pack_provider_key provider key account_id with
                | None => (Raised "KeyError", v)
                | Some plaintext =>
                    with_secret (λ secret, seal secret plaintext (λ token, set_org_provider_key o provider token (last4 key) now)
                                             (KeyState provider true (nonempty (Some (last4 key))))) v
                end
          end
      end
  end.

(** [_row]: whether the provider is configured, the mask, the source. *)
Definition row (provider : string) (stored : option string) : option (bool * option string * option string) :=
  match dget PROVIDERS provider with
  | None => None
  | Some d =>
      Some (match stored with
            | Some l4 => (true, nonempty (Some l4), Some "stored")
            | None => match nonempty (strip <$> environ (p_key_env d)) with
                      | Some _ => (true, None, Some "environment")
                      | None => (false, None, None)
                      end
            end)
  end.

(** The rows of [GET /v1/admin/provider-keys]. *)
Definition list_provider_key_rows (is_operator : bool) (org_id : option string) (v : Vaulted)
    : Reply + list (string * option (bool * option string * option string)) :=
  match gate is_operator org_id, org_id with
  | Some r, _ => inl r
  | None, None => inl (Raised "unreachable")
  | None, Some o =>
      let stored := dupdate [] ((λ r, (r.1, r.2.1)) <$> list_org_provider_keys o (v_keys v)) in
      inr ((λ p, (p.1, row p.1 (dget stored p.1))) <$> PROVIDERS)
  end.

Definition delete_provider_key_row (is_operator : bool) (org_id : option string) (provider : string) (v : Vaulted)
    : (Reply + option (bool * option string * option string)) * Vaulted :=
  match gate is_operator org_id, org_id with
  | Some r, _ => (inl r, v)
  | None, None => (inl (Raised "unreachable"), v)
  | None, Some o =>
      if negb (dmem PROVIDERS provider) then (inl (unknown_provider provider), v)
      else (inr (row provider None),
            {| v_keys := delete_org_provider_key o provider (v_keys v); v_kms := v_kms v; v_nonce := v_nonce v |})
  end.

(** ** The vaulted Toto key *)

Definition TOTO_PROVIDER : string := "toto".

(** Raising is what [credentials_secret] raises. *)
Definition store_toto_key (user_id key : string) (now : Q) (v : Vaulted) : res string bool * Vaulted :=
  match credentials_secret vault settings (v_kms v) with
  | (Err e, k) => (Err e, with_kms k v)
  | (Ok secret, k) =>
      let v := with_kms k v in
      if secret ≡? "" then (Ok false, v)
      else match encrypt secret (v_nonce v) key with
           | None => (Err "UnicodeDecodeError", v)
           | Some token =>
               (Ok true, {| v_keys := set_provider_key user_id TOTO_PROVIDER token (last4 key) now (v_keys v);
                            v_kms := v_kms v; v_nonce := S (v_nonce v) |})
           end
  end.

(** [readable]: whether the table can be read now. *)
Definition get_toto_key (readable : bool) (user_id : string) (v : Vaulted) : res string (option string) * Vaulted :=
  match credentials_secret vault settings (v_kms v) with
  | (Err e, k) => (Err e, with_kms k v)
  | (Ok secret, k) =>
      if secret ≡? "" then (Ok None, with_kms k v)
      else match credentials_secret_old vault settings k with
           | (Err e, k) => (Err e, with_kms k v)
           | (Ok old, k) =>
               let v := with_kms k v in
               if negb readable then (Ok None, v)
               else match nonempty (dget (get_provider_key_map user_id (v_keys v)) TOTO_PROVIDER) with
                    | None => (Ok None, v)
                    | Some enc => (Ok (decrypt secret enc old), v)
                    end
           end
  end.

(** [provision] is [provision_toto_user]: the new key, or [None] on any failure. *)
Definition provision_and_store (provision : option string) (readable : bool) (user_id : string) (now : Q) (v : Vaulted)
    : res string (option string) * Vaulted :=
  match get_toto_key readable user_id v with
  | (Err e, v) => (Err e, v)
  | (Ok existing, v) =>
      match nonempty existing with
      | Some key => (Ok (Some key), v)
      | None =>
          match provision with
          | None => (Ok None, v)
          | Some key => match store_toto_key user_id key now v with
                        | (Err e, v) => (Err e, v)
                        | (Ok _, v) => (Ok (Some key), v)
                        end
          end
      end
  end.
End routes.

(** ** Zero-configuration boot *)

(** The file next to the database: unreadable, absent, or its text. *)
Inductive SecretFile : Type := FileAbsent | FileText (s : string) | FileBroken.

(** [bootstrap_local_secret]: [writable] tells whether the file can be written, [fresh] is
    [token_urlsafe(32)]. *)
Definition bootstrap_local_secret (db database_url : string) (writable : bool) (fresh : string) (f : SecretFile) : string * SecretFile :=
  if (db ≡? "") || (db ≡? ":memory:") || negb (database_url ≡? "") then ("", f)
  else
    let create := if writable then (fresh, FileText fresh) else ("", f) in
    match f with
    | FileBroken => ("", f)
    | FileText s => if strip s ≡? "" then create else (strip s, f)
    | FileAbsent => create
    end.

Definition PROVIDER_FRAGMENTS : list (string * string) :=
  [("openrouter", "catalog.openrouter.yaml"); ("fireworks", "catalog.fireworks.yaml"); ("cloudflare", "catalog.cloudflare.yaml")].

Definition compose_default_catalog (providers : list string) : string :=
  let base := if "openrouter" ∈? providers then "catalog.openrouter.yaml" else "catalog.yaml" in
  let overlays := snd <$> List.filter (λ f, negb (f.1 ≡? "openrouter") && (f.1 ∈? providers)) PROVIDER_FRAGMENTS in
  match overlays with [] => base | _ => join "," (base :: overlays) end.

(** [stored_org_key_providers]: [rows] is the table as the peek finds it, [None] on an error. *)
Definition stored_org_key_providers (db database_url org_id : string) (rows : option AuthKeys) : list string :=
  if (db ≡? "") || (db ≡? ":memory:") || negb (database_url ≡? "") then []
  else match rows with Some a => dkeys (get_org_provider_key_map org_id a) | None => [] end.

Definition configured_key_providers (environ : Environ) (db database_url org_id : string) (rows : option AuthKeys) : list string :=
  (fst <$> List.filter (λ p, match nonempty (strip <$> environ (p_key_env p.2)) with Some _ => true | None => false end) PROVIDERS)
  ++ stored_org_key_providers db database_url org_id rows.

(** ** What is chosen *)

(** The tables answer with dicts. *)
Definition reader_ok (rd : KeyReader) : Prop :=
  (∀ o m, rd_org rd o = Some m → NoDup (dkeys m)) ∧ (∀ u m, rd_user rd u = Some m → NoDup (dkeys m)).

(** The row that counts for a provider: the user's, else the organisation's. *)
Definition row_in (read : string → option (list (string * string))) (mk : string → CredentialScopeRef) (owner : option string)
    (p : string) : option (string * CredentialScopeRef) :=
  match owner with
  | Some o => match read o with
              | Some m => match dget m p with Some ct => Some (ct, mk o) | None => None end
              | None => None
              end
  | None => None
  end.

Definition the_row (rd : KeyReader) (user_id org_id : option string) (p : string) : option (string * CredentialScopeRef) :=
  row_in (rd_user rd) user_scope_of user_id p orelse row_in (rd_org rd) org_scope org_id p.

Lemma dkeys_scoped s m : dkeys (scoped s m) = dkeys m.
Proof. unfold dkeys, scoped. by rewrite <- list_fmap_compose. Qed.

Lemma dget_scoped s m p : dget (scoped s m) p = match dget m p with Some ct => Some (ct, s) | None => None end.
Proof. unfold scoped. induction m as [|[k v] m IH]; [done|]. cbn. by case_decide. Qed.

Lemma scoped_rows_spec s m l : scoped_rows s m = Some l → l = scoped s m.
Proof. unfold scoped_rows. destruct m as [|kv m]; [by intros [= <-]|]. destruct (check_scope s); [by intros [= <-]|done]. Qed.

Lemma encrypted_rows_spec rd user_id org_id enc p :
  reader_ok rd → encrypted_rows rd user_id org_id = Some enc → dget enc p = the_row rd user_id org_id p.
Proof.
  intros [Ho Hu]. unfold encrypted_rows, the_row.
  set (first := match org_id with Some _ => _ | None => _ end).
  assert (∀ rows, first = Some rows → dget rows p = row_in (rd_org rd) org_scope org_id p) as Hfirst.
  { subst first. unfold row_in. intros rows. destruct org_id as [o|]; [|by intros [= <-]].
    destruct (rd_org rd o) as [m|] eqn:E; [|done]. destruct (scoped_rows _ m) as [l|] eqn:El; [|done]. intros [= <-].
    apply scoped_rows_spec in El as ->. rewrite dget_dupdate by (rewrite dkeys_scoped; eauto). rewrite dget_scoped. by destruct (dget m p). }
  destruct first as [rows|]; [|done]. specialize (Hfirst rows eq_refl). unfold row_in at 1.
  destruct user_id as [u|]; [|by intros [= <-]]. destruct (rd_user rd u) as [m|] eqn:E; [|done].
  destruct (scoped_rows _ m) as [l|] eqn:El; [|done]. intros [= <-]. apply scoped_rows_spec in El as ->.
  rewrite dget_dupdate by (rewrite dkeys_scoped; eauto). rewrite dget_scoped. destruct (dget m p); [done|exact Hfirst].
Qed.

Section chosen.
Context `{Fernet}.
Context (vault : Vault) (settings : KmsSettings) (environ : Environ).

(** The platform's own key. *)
Definition platform_key (p : string) : option (string * CredentialScopeRef) :=
  match dget PROVIDERS p with
  | Some d => match nonempty (strip <$> environ (p_key_env d)) with Some v => Some (v, platform_scope) | None => None end
  | None => None
  end.

(** A row opens when the key material is there and the ciphertext gives a text. *)
Definition opened (primary old : string) (r : string * CredentialScopeRef) : option (string * CredentialScopeRef) :=
  if (primary ≡? "") || (r.1 ≡? "") then None
  else match nonempty (decrypt primary r.1 old) with Some pt => Some (pt, r.2) | None => None end.

Definition chosen (primary old : string) (encrypted : Selected) (p : string) : option (string * CredentialScopeRef) :=
  match dget encrypted p with Some r => opened primary old r | None => platform_key p end.

Definition unreadable (primary old : string) (encrypted : Selected) (p : string) : bool :=
  match dget encrypted p with Some r => match opened primary old r with Some _ => false | None => true end | None => false end.

Section loop.
Context (primary old : string) (enc : Selected) (unav0 : list (string * string)).
Context (Hunav0 : ∀ p, dmem unav0 p = true → unreadable primary old enc p = true).

Definition progressed (seen : list string) (st : Progress) : Prop :=
  (∀ p, dget st.1 p = if p ∈? seen then chosen primary old enc p else None)
  ∧ (∀ p, dmem st.2 p = dmem unav0 p || ((p ∈? seen) && unreadable primary old enc p)).

Lemma progressed_skip seen st q :
  progressed seen st → chosen primary old enc q = None → (unreadable primary old enc q = true → dmem st.2 q = true) → progressed (seen ++ [q]) st.
Proof.
  intros [H1 H2] Hc Hu. split; intros p.
  - rewrite H1. destruct (bool_decide_reflect (p ∈ seen)); destruct (bool_decide_reflect (p ∈ seen ++ [q])) as [Hin|Hn]; [done|set_solver| |done].
    apply elem_of_app in Hin as [?|Hin]; [done|]. apply list_elem_of_singleton in Hin as ->. done.
  - rewrite H2. destruct (bool_decide_reflect (p ∈ seen)); destruct (bool_decide_reflect (p ∈ seen ++ [q])) as [Hin|Hn]; [done|set_solver| |done].
    apply elem_of_app in Hin as [?|Hin]; [done|]. apply list_elem_of_singleton in Hin as ->.
    rewrite andb_true_l, andb_false_l, orb_false_r. destruct (unreadable primary old enc q) eqn:E; [|by rewrite orb_false_r].
    rewrite orb_true_r. specialize (Hu eq_refl). rewrite H2 in Hu. by rewrite bool_decide_eq_false_2, andb_false_l, orb_false_r in Hu.
Qed.

Lemma resolve_one_spec seen st q :
  progressed seen st → dmem PROVIDERS q = true → (primary = "" → dmem enc q = true → dmem unav0 q = true) →
  ∃ st', resolve_one environ primary old enc st q = Ok st' ∧ progressed (seen ++ [q]) st'.
Proof.
  intros Hp Hq Hpr. pose proof Hp as [H1 H2]. destruct st as [sel unav]. unfold resolve_one. cbn [fst snd] in *.
  unfold dmem in Hq. destruct (dget PROVIDERS q) as [d|] eqn:Ed; [|done]. clear Hq.
  assert (Hsplit : ∀ p, (p ∈? seen ++ [q]) = (p ∈? seen) || (p ≡? q)).
  { intros p. rewrite <- bool_decide_or. apply bool_decide_ext. rewrite elem_of_app, list_elem_of_singleton. done. }
  assert (Hadd : ∀ x, chosen primary old enc q = Some x → unreadable primary old enc q = false → progressed (seen ++ [q]) (dset sel q x, unav)).
  { intros x Hx Hu. split; intros p; cbn [fst snd]; rewrite Hsplit; destruct (bool_decide_reflect (p = q)) as [->|Hne]; rewrite ?orb_true_r, ?orb_false_r.
    - by rewrite dget_dset_eq.
    - by rewrite dget_dset_ne.
    - rewrite H2, Hu, !andb_false_r. done.
    - apply H2. }
  destruct (dget enc q) as [ [ct sc]|] eqn:Eq.
  - assert (chosen primary old enc q = opened primary old (ct, sc)) as Hc by (unfold chosen; by rewrite Eq).
    assert (unreadable primary old enc q = match opened primary old (ct, sc) with Some _ => false | None => true end) as Hu
      by (unfold unreadable; by rewrite Eq).
    destruct (dmem unav q) eqn:Em.
    { eexists; split; [reflexivity|]. apply progressed_skip; [done| |by intros _].
      rewrite H2 in Em. assert (unreadable primary old enc q = true) as Ht.
      { apply orb_true_iff in Em as [Em|Em]; [auto|]. by apply andb_true_iff in Em as [_ ?]. }
      rewrite Ht in Hu. rewrite Hc. by destruct (opened _ _ _). }
    assert (primary ≠ "") as Hne.
    { intros E. specialize (Hpr E). unfold dmem at 1 in Hpr. rewrite Eq in Hpr. specialize (Hpr eq_refl). rewrite H2, Hpr in Em. done. }
    unfold opened in Hc, Hu. rewrite (bool_decide_eq_false_2 _ Hne), orb_false_l in Hc, Hu. cbn [fst snd] in Hc, Hu.
    assert (Hbad : ∀ why, chosen primary old enc q = None → unreadable primary old enc q = true → progressed (seen ++ [q]) (sel, dset unav q why)).
    { intros why Hc' Hu'. split; intros p; cbn [fst snd]; rewrite Hsplit; destruct (bool_decide_reflect (p = q)) as [->|Hne']; rewrite ?orb_true_r, ?orb_false_r.
      - rewrite H1, Hc'. by destruct (_ ∈? _).
      - apply H1.
      - unfold dmem. rewrite dget_dset_eq, Hu'. by rewrite orb_true_r.
      - unfold dmem at 1. rewrite dget_dset_ne by done. apply H2. }
    destruct (bool_decide_reflect (ct = "")); [eexists; split; [reflexivity|auto]|].
    destruct (nonempty (decrypt primary ct old)) as [pt|]; eexists; (split; [reflexivity|auto]).
  - assert (chosen primary old enc q = match nonempty (strip <$> environ (p_key_env d)) with Some v => Some (v, platform_scope) | None => None end) as Hc
      by (unfold chosen, platform_key; by rewrite Eq, Ed).
    assert (unreadable primary old enc q = false) as Hu by (unfold unreadable; by rewrite Eq).
    destruct (nonempty _) as [v|]; eexists; (split; [reflexivity|]); [auto|]. apply progressed_skip; [done|done|]. rewrite Hu. done.
Qed.

Lemma resolve_all_spec requested seen st :
  progressed seen st → (∀ q, q ∈ requested → dmem PROVIDERS q = true ∧ (primary = "" → dmem enc q = true → dmem unav0 q = true)) →
  ∃ st', resolve_all environ primary old enc st requested = Ok st' ∧ progressed (seen ++ requested) st'.
Proof.
  revert seen st. induction requested as [|q requested IH]; intros seen st Hp Hq; cbn [resolve_all]; [exists st; by rewrite app_nil_r|].
  destruct (resolve_one_spec seen st q Hp) as (st1 & -> & Hp1); [apply Hq; left..|].
  cbn [res_bind]. destruct (IH (seen ++ [q]) st1 Hp1) as (st2 & -> & Hp2); [intros q' Hin; apply Hq; by right|].
  exists st2. split; [done|]. by rewrite <- app_assoc in Hp2.
Qed.
End loop.
End chosen.

Section precedence.
Context `{Fernet}.
Context (vault : Vault) (settings : KmsSettings) (environ : Environ).

(** The key material there is: none when the KMS fails. *)
Definition material (k : Kms) : string * string :=
  match (both_secrets vault settings k).1 with Ok s => s | Err _ => ("", "") end.

(** What a request gets for a provider. *)
Definition choice (s : string * string) (rd : KeyReader) (user_id org_id : option string) (p : string)
    : option (string * CredentialScopeRef) :=
  match the_row rd user_id org_id p with Some r => opened s.1 s.2 r | None => platform_key environ p end.

Definition broken_key (s : string * string) (rd : KeyReader) (user_id org_id : option string) (p : string) : bool :=
  match the_row rd user_id org_id p with
  | Some r => match opened s.1 s.2 r with Some _ => false | None => true end
  | None => false
  end.

Definition the_requested (providers : list string) : list string :=
  match providers with [] => dkeys PROVIDERS | _ => providers end.

Lemma reason_nil : reason_of [] = "credential_unavailable".
Proof. done. Qed.

Lemma dmem_kms_unavailable configured p : dmem (kms_unavailable configured) p = (p ∈? configured).
Proof.
  unfold kms_unavailable. assert (∀ d, dmem (dupdate d ((λ p, (p, "kms_unavailable")) <$> configured)) p = dmem d p || (p ∈? configured)) as Hd.
  { unfold dupdate. induction configured as [|q l IH]; intros d; cbn [fmap list_fmap fold_left]; [by rewrite orb_false_r|].
    rewrite IH. cbn [fst snd]. unfold dmem. destruct (bool_decide_reflect (p = q)) as [->|Hne].
    - rewrite dget_dset_eq. rewrite (bool_decide_eq_true_2 (q ∈ q :: l)) by left. by destruct (dget d q).
    - rewrite dget_dset_ne by done. f_equal. apply bool_decide_ext. rewrite elem_of_cons. tauto. }
  by rewrite Hd.
Qed.

(** The dict of the unavailable before the loop. *)
Definition start_unavailable (primary : string) (enc : Selected) (requested : list string) : list (string * string) :=
  if primary ≡? "" then kms_unavailable (List.filter (λ p, dmem enc p) requested) else [].

Lemma elem_of_filter_In {A} (f : A → bool) p l : p ∈ List.filter f l ↔ p ∈ l ∧ f p = true.
Proof. by rewrite list_elem_of_In, filter_In, <- list_elem_of_In. Qed.

Lemma dmem_start primary (enc : Selected) requested p :
  dmem (start_unavailable primary enc requested) p = (primary ≡? "") && ((p ∈? requested) && dmem enc p).
Proof.
  unfold start_unavailable. destruct (primary ≡? ""); [|done]. rewrite dmem_kms_unavailable, andb_true_l.
  apply eq_bool_prop_intro. rewrite bool_decide_spec, elem_of_filter_In, andb_True, bool_decide_spec, Is_true_true. done.
Qed.

Lemma start_unreadable primary old (enc : Selected) requested p :
  dmem (start_unavailable primary enc requested) p = true → unreadable primary old enc p = true.
Proof.
  rewrite dmem_start. unfold unreadable, dmem, opened. destruct (primary ≡? ""); [|done].
  destruct (dget enc p); [done|]. by rewrite andb_false_r.
Qed.

Lemma settled primary old (enc : Selected) requested sel unav :
  progressed environ primary old enc (start_unavailable primary enc requested) requested (sel, unav) →
  List.filter (λ p, dmem unav p) requested = List.filter (unreadable primary old enc) requested
  ∧ (unav ≠ [] → List.filter (unreadable primary old enc) requested ≠ []).
Proof.
  intros [_ Hun]. cbn [snd] in Hun.
  assert (∀ p, dmem unav p = (p ∈? requested) && unreadable primary old enc p) as Hm.
  { intros p. rewrite Hun. destruct (dmem (start_unavailable _ _ _) p) eqn:E; [|done].
    rewrite (start_unreadable _ old _ _ _ E). rewrite dmem_start in E. apply andb_true_iff in E as [_ E].
    apply andb_true_iff in E as [-> _]. done. }
  split.
  - apply filter_ext_in. intros p Hp. apply list_elem_of_In in Hp. rewrite Hm. by rewrite bool_decide_eq_true_2.
  - destruct unav as [|[u v] unav]; [done|]. intros _ E. specialize (Hm u). unfold dmem in Hm. cbn [dget] in Hm.
    rewrite decide_True in Hm by done. symmetry in Hm. apply andb_true_iff in Hm as [Hin Hu]. apply bool_decide_eq_true in Hin.
    assert (u ∈ List.filter (unreadable primary old enc) requested) as Hf by by apply elem_of_filter_In.
    rewrite E in Hf. by apply elem_of_nil in Hf.
Qed.

(** The secrets are read when a row asks for them. *)
Lemma secrets_read (enc : Selected) requested k p :
  p ∈ requested → dmem enc p = true →
  let secrets := match List.filter (λ p, dmem enc p) requested with [] => (Ok ("", ""), k) | _ => both_secrets vault settings k end in
  (match secrets.1 with Ok s => s.1 | Err _ => "" end, match secrets.1 with Ok s => s.2 | Err _ => "" end) = material k.
Proof.
  intros Hp Hm. assert (p ∈ List.filter (λ p, dmem enc p) requested) as Hin by by apply elem_of_filter_In.
  destruct (List.filter _ requested); [by apply elem_of_nil in Hin|]. cbv zeta. unfold material.
  by destruct (both_secrets _ _ k) as [ [ [primary old]|e] k'].
Qed.

Lemma resolve_spec rd user_id org_id providers k :
  reader_ok rd → (∀ p, p ∈ the_requested providers → dmem PROVIDERS p = true) →
  let s := material k in
  let broken := List.filter (broken_key s rd user_id org_id) (the_requested providers) in
  let exactly (sel : Selected) := ∀ p, dget sel p = if p ∈? the_requested providers then choice s rd user_id org_id p else None in
  match encrypted_rows rd user_id org_id, (resolve_provider_credentials vault settings environ rd user_id providers org_id k).1 with
  | None, r => r = Err (Unavailable (the_requested providers) "store_unavailable" [])
  | Some _, Ok sel => broken = [] ∧ exactly sel
  | Some _, Err (Unavailable ps _ sel) => broken ≠ [] ∧ ps = broken ∧ exactly sel
  | Some _, Err (UnknownProvider _) => False
  end.
Proof.
  intros Hrd Hk s broken exactly. unfold resolve_provider_credentials. fold (the_requested providers).
  destruct (encrypted_rows rd user_id org_id) as [enc|] eqn:Eenc; [|done]. set (requested := the_requested providers) in *.
  assert (Hrow : ∀ p, dget enc p = the_row rd user_id org_id p) by (intros p; by apply encrypted_rows_spec).
  pose proof (λ p, secrets_read enc requested k p) as Hs. cbv zeta in Hs. fold s in Hs.
  destruct (match List.filter (λ p, dmem enc p) requested with [] => _ | _ => _ end) as [secrets k']. cbn [fst] in Hs.
  set (primary := match secrets with Ok s => s.1 | Err _ => "" end) in *. set (old := match secrets with Ok s => s.2 | Err _ => "" end) in *.
  fold (start_unavailable primary enc requested).
  assert (Hch : ∀ p, p ∈ requested → chosen environ primary old enc p = choice s rd user_id org_id p
                                     ∧ unreadable primary old enc p = broken_key s rd user_id org_id p).
  { intros p Hp. unfold chosen, choice, unreadable, broken_key. rewrite <- Hrow. destruct (dget enc p) as [r|] eqn:Er; [|done].
    rewrite <- (Hs p Hp); [done|]. unfold dmem. by rewrite Er. }
  destruct (resolve_all_spec environ primary old enc (start_unavailable primary enc requested) (λ p, start_unreadable primary old enc requested p)
              requested [] ([], start_unavailable primary enc requested)) as ([sel unav] & -> & Hp).
  { split; intros p; [done|]. cbn [snd]. by rewrite bool_decide_eq_false_2, andb_false_l, orb_false_r by apply not_elem_of_nil. }
  { intros q Hq. split; [by apply Hk|]. intros -> Hm. rewrite dmem_start, Hm. by rewrite (bool_decide_eq_true_2 (q ∈ requested)). }
  cbn [app] in Hp. destruct (settled primary old enc requested sel unav Hp) as [Hf Hne].
  assert (Hb : List.filter (unreadable primary old enc) requested = broken).
  { apply filter_ext_in. intros p Hin. apply list_elem_of_In in Hin. by apply Hch. }
  assert (Hex : exactly sel).
  { intros p. pose proof (proj1 Hp p) as Hsel. cbn [fst] in Hsel. rewrite Hsel. destruct (bool_decide_reflect (p ∈ requested)); [|done]. by apply Hch. }
  rewrite Hb in *. destruct unav as [|uv unav]; cbn [fst].
  - split; [|done]. rewrite <- Hf. clear. by induction requested.
  - rewrite Hf. split_and!; [by apply Hne|done|done].
Qed.
End precedence.

(** ** From the tables to the key on the wire *)

Lemma dupdate_app {K V} `{EqDecision K} (d l1 l2 : list (K * V)) : dupdate d (l1 ++ l2) = dupdate (dupdate d l1) l2.
Proof. apply fold_left_app. Qed.

Lemma dget_dupdate_ne {K V} `{EqDecision K} (d l : list (K * V)) k : k ∉ dkeys l → dget (dupdate d l) k = dget d k.
Proof.
  unfold dupdate. revert d. induction l as [|[k' v] l IH]; intros d Hn; [done|]. cbn in Hn. apply not_elem_of_cons in Hn as [Hk Hn].
  cbn [fold_left fst snd]. rewrite IH by done. by apply dget_dset_ne.
Qed.

(** The environment names a provider's row can set. *)
Definition envs_of (p : string) : list string :=
  match dget PROVIDERS p with Some d => p_key_env d :: option_list (account_env d) | None => [] end.

Lemma filter_keys {K V} (f : K * V → bool) (l : list (K * V)) :
  dkeys (List.filter f l) ⊆ dkeys l ∧ (NoDup (dkeys l) → NoDup (dkeys (List.filter f l))).
Proof.
  induction l as [|x l [Hs Hn] ]; [done|]. cbn [List.filter]. split.
  - destruct (f x); cbn; set_solver.
  - intros [Hx Hl]%NoDup_cons. destruct (f x); [|auto]. cbn. constructor; [|auto]. intros Hin. by apply Hx, Hs.
Qed.

Lemma env_map_keys fr p pt : dkeys (provider_env_map fr p pt) ⊆ envs_of p ∧ NoDup (dkeys (provider_env_map fr p pt)).
Proof.
  unfold provider_env_map, envs_of. destruct (dget PROVIDERS p) as [d|] eqn:E; [|by split; [|constructor]].
  destruct (account_env d) as [acc|] eqn:Ea.
  2: { split; [cbn; set_solver|apply NoDup_singleton]. }
  assert (dkeys [(p_key_env d, pt)] ⊆ p_key_env d :: option_list (Some acc) ∧ NoDup (dkeys [(p_key_env d, pt)])) as Hbare.
  { split; [cbn; set_solver|apply NoDup_singleton]. }
  destruct (startswith "{" pt); [|done]. destruct (loads fr pt) as [ [| | | | | |data]|]; try done.
  set (out := if data_text data "account_id" ≡? "" then [(p_key_env d, data_text data "api_key")]
              else dset [(p_key_env d, data_text data "api_key")] acc (data_text data "account_id")).
  destruct (filter_keys (λ kv, negb (kv.2 ≡? "")) out) as [Hs Hn].
  assert (dkeys out ⊆ p_key_env d :: option_list (Some acc) ∧ NoDup (dkeys out)) as [H1 H2].
  { subst out. destruct (data_text data "account_id" ≡? ""); [split; [cbn; set_solver|apply NoDup_singleton]|].
    split; [|apply NoDup_dset, NoDup_singleton]. rewrite dkeys_dset. cbn. destruct (dmem _ _); set_solver. }
  split; [by trans (dkeys out)|auto].
Qed.

(** Each environment name belongs to one provider. *)
Lemma env_of_apart p q : dmem PROVIDERS p = true → p ≠ q → env_of p ∉ envs_of q.
Proof.
  intros Hp Hne. assert (Forall (λ p, Forall (λ q, p ≠ q → env_of p ∉ envs_of q) (dkeys PROVIDERS)) (dkeys PROVIDERS)) as H by vm_decide.
  apply dmem_spec in Hp. rewrite Forall_forall in H. specialize (H p Hp). rewrite Forall_forall in H.
  destruct (dmem PROVIDERS q) eqn:Eq; [apply H; [by apply dmem_spec|done]|].
  unfold envs_of. unfold dmem in Eq. destruct (dget PROVIDERS q); [done|]. apply not_elem_of_nil.
Qed.

Lemma env_of_inj p q : dmem PROVIDERS p = true → dmem PROVIDERS q = true → env_of p = env_of q → p = q.
Proof.
  intros Hp Hq E. destruct (decide (p = q)) as [|Hne]; [done|]. exfalso. apply (env_of_apart p q Hp Hne). rewrite E.
  unfold env_of, envs_of, dmem in *. destruct (dget PROVIDERS q); [left|done].
Qed.

(** The key of a provider's own name in a row's overlay. *)
Definition row_key (fr : Q → string) (p : string) (x : string * CredentialScopeRef) : option string :=
  match kind x.2 with platform => None | _ => dget (provider_env_map fr p x.1) (env_of p) end.

Lemma dget_overlay fr sel p :
  dmem PROVIDERS p = true → NoDup (dkeys sel) →
  dget (overlay fr sel) (env_of p) = match dget sel p with Some x => row_key fr p x | None => None end.
Proof.
  intros Hp. unfold overlay. set (f := λ s : string * (string * CredentialScopeRef), match kind s.2.2 with platform => [] | _ => provider_env_map fr s.1 s.2.1 end).
  assert (∀ d, NoDup (dkeys sel) → dget (dupdate d (flat_map f sel)) (env_of p)
            = match dget sel p with
              | Some x => match row_key fr p x with Some v => Some v | None => dget d (env_of p) end
              | None => dget d (env_of p)
              end) as Hd.
  { induction sel as [|[q x] sel IH]; intros d Hnd; [done|]. apply NoDup_cons in Hnd as [Hq Hnd].
    cbn [flat_map]. rewrite dupdate_app, IH by done. cbn [dget]. case_decide as E.
    - subst q. apply dget_none in Hq. cbn [fst] in Hq. rewrite Hq. unfold row_key, f. cbn [fst snd].
      destruct (kind x.2); [done|..]; (rewrite dget_dupdate; [done|apply env_map_keys]).
    - assert (dget (dupdate d (f (q, x))) (env_of p) = dget d (env_of p)) as ->; [|done].
      apply dget_dupdate_ne. unfold f. cbn [fst snd]. intros Hin. apply (env_of_apart p q Hp E).
      destruct (kind x.2); [by apply elem_of_nil in Hin|..]; by apply (proj1 (env_map_keys fr q x.1)). }
  intros Hnd. rewrite (Hd [] Hnd). destruct (dget sel p) as [x|]; [|done]. by destruct (row_key fr p x).
Qed.

Section wire.
Context `{Fernet}.
Context (vault : Vault) (settings : KmsSettings) (environ : Environ).

Lemma resolve_all_nodup primary old enc requested st st' :
  resolve_all environ primary old enc st requested = Ok st' → NoDup (dkeys st.1) → NoDup (dkeys st'.1).
Proof.
  revert st. induction requested as [|q l IH]; intros st; cbn [resolve_all]; [by intros [= <-]|].
  intros (st1 & E & Hr)%res_bind_ok Hnd. apply (IH st1 Hr). clear IH Hr. revert E. unfold resolve_one. destruct st as [sel un].
  destruct (dget PROVIDERS q) as [d|]; [|done]. cbn [fst] in *. destruct (dget enc q) as [ [ct sc]|].
  - destruct (dmem un q); [by intros [= <-]|]. destruct (ct ≡? ""); [by intros [= <-]|].
    destruct (nonempty _); intros [= <-]; [by apply NoDup_dset|done].
  - destruct (nonempty _); intros [= <-]; [by apply NoDup_dset|done].
Qed.

Lemma resolve_all_err primary old enc requested st e :
  resolve_all environ primary old enc st requested = Err e → ∃ p, e = UnknownProvider p.
Proof.
  revert st. induction requested as [|q l IH]; intros st; cbn [resolve_all]; [done|].
  destruct (resolve_one environ primary old enc st q) as [st1|e1] eqn:E1; [apply IH|]. intros [= <-]. revert E1.
  unfold resolve_one. destruct st as [s u]. destruct (dget PROVIDERS q); [|by intros [= <-]; eauto].
  destruct (dget enc q) as [ [? ?]|].
  - destruct (dmem u q); [done|]. destruct (_ ≡? _); [done|]. by destruct (nonempty _).
  - by destruct (nonempty _).
Qed.

Lemma resolve_nodup rd user_id org_id providers k :
  match (resolve_provider_credentials vault settings environ rd user_id providers org_id k).1 with
  | Ok sel | Err (Unavailable _ _ sel) => NoDup (dkeys sel)
  | _ => True
  end.
Proof.
  unfold resolve_provider_credentials. destruct (encrypted_rows _ _ _) as [enc|]; [|cbn; constructor].
  destruct (match List.filter _ _ with [] => _ | _ => _ end) as [secrets k'].
  destruct (resolve_all _ _ _ _ _ _) as [ [sel un]|e] eqn:E.
  - apply resolve_all_nodup in E; [|cbn; constructor]. cbn in E. destruct un; exact E.
  - apply resolve_all_err in E as [p ->]. done.
Qed.
End wire.

Section dispatch.
Context `{Fernet}.
Context (vault : Vault) (settings : KmsSettings) (environ : Environ).

Lemma the_row_scope rd user_id org_id p r : the_row rd user_id org_id p = Some r → kind r.2 ≠ platform.
Proof.
  unfold the_row, row_in. destruct user_id as [u|]; [destruct (rd_user rd u) as [m|]; [destruct (dget m p); [by intros [= <-]|]|]|];
    (destruct org_id as [o|]; [|done]; destruct (rd_org rd o) as [m'|]; [|done]; destruct (dget m' p); [by intros [= <-]|done]).
Qed.

Lemma dget_scopes (sel : Selected) p : dget ((λ s, (s.1, s.2.2)) <$> sel) p = match dget sel p with Some x => Some x.2 | None => None end.
Proof. induction sel as [|[q x] sel IH]; [done|]. cbn. by case_decide. Qed.

Lemma env_of_broken (l : list string) p :
  dmem PROVIDERS p = true → (∀ q, q ∈ l → dmem PROVIDERS q = true) → (env_of p ∈? (env_of <$> l)) = (p ∈? l).
Proof.
  intros Hp Hl. apply bool_decide_ext. rewrite list_elem_of_fmap. split; [|by exists p].
  intros (q & E & Hq). by rewrite (env_of_inj p q Hp (Hl q Hq) E).
Qed.

(** What the loop settled, as the overlay and the scopes of [load_byok] show it. *)
Lemma load_byok_settled fr rd user_id org_id k :
  reader_ok rd →
  let s := material vault settings k in
  let '(scopes, b, _) := load_byok vault settings environ fr rd user_id org_id k in
  match encrypted_rows rd user_id org_id with
  | None => scopes = [] ∧ byok_unavailable_envs b = env_of <$> dkeys PROVIDERS
  | Some _ =>
      ∃ sel, NoDup (dkeys sel) ∧ scopes = (λ s, (s.1, s.2.2)) <$> sel ∧ byok_keys b = overlay fr sel
      ∧ byok_unavailable_envs b = env_of <$> List.filter (broken_key s rd user_id org_id) (dkeys PROVIDERS)
      ∧ ∀ p, dmem PROVIDERS p = true → dget sel p = choice environ s rd user_id org_id p
  end.
Proof.
  intros Hrd s. unfold load_byok.
  assert (∀ q, q ∈ the_requested [] → dmem PROVIDERS q = true) as Hk by (intros q Hq; by apply dmem_spec).
  pose proof (resolve_spec vault settings environ rd user_id org_id [] k Hrd Hk) as Hspec. cbv zeta in Hspec.
  pose proof (resolve_nodup vault settings environ rd user_id org_id [] k) as Hnd.
  destruct (resolve_provider_credentials _ _ _ _ _ _ _ _) as [r k']; cbn [fst] in *.
  destruct (encrypted_rows rd user_id org_id) as [enc|]; [|by subst r].
  assert (∀ sel : Selected, (∀ q, dget sel q = if q ∈? the_requested [] then choice environ s rd user_id org_id q else None) →
            ∀ p, dmem PROVIDERS p = true → dget sel p = choice environ s rd user_id org_id p) as Hex.
  { intros sel Hs p Hp. rewrite Hs. by rewrite bool_decide_eq_true_2 by by apply dmem_spec. }
  destruct r as [sel|[ps why sel|q]]; [destruct Hspec as [Hb Hs]|destruct Hspec as (_ & -> & Hs)|done];
    exists sel; cbn [byok_keys byok_unavailable_envs]; split_and!; auto.
  fold s in Hb. unfold the_requested in Hb. by rewrite Hb.
Qed.

(** The key an entry of a known provider goes out with. *)
Lemma client_key_settled fr rd user_id org_id k p e :
  reader_ok rd → encrypted_rows rd user_id org_id ≠ None → dmem PROVIDERS p = true → api_key_env e = env_of p → credential_scope e = None →
  let s := material vault settings k in
  let '(scopes, b, _) := load_byok vault settings environ fr rd user_id org_id k in
  client_key e (byok_unavailable_envs b) (byok_keys b)
    = (if broken_key s rd user_id org_id p then Err KEY_UNAVAILABLE
       else match nonempty (match choice environ s rd user_id org_id p with Some x => row_key fr p x | None => None end) with
            | Some key => Ok (ByokKey key) | None => Ok PlatformKey end)
  ∧ dget scopes p = (match choice environ s rd user_id org_id p with Some x => Some x.2 | None => None end).
Proof.
  intros Hrd Henc Hp He Hsc s. pose proof (load_byok_settled fr rd user_id org_id k Hrd) as Hset. cbv zeta in Hset. fold s in Hset.
  destruct (load_byok _ _ _ _ _ _ _ _) as [ [scopes b] k']. destruct (encrypted_rows _ _ _); [|done].
  destruct Hset as (sel & Hnd & -> & -> & -> & Hsel). split; [|by rewrite dget_scopes, Hsel].
  unfold client_key. rewrite He, Hsc, dget_overlay, Hsel by done. rewrite env_of_broken; [|done|].
  - destruct (broken_key s rd user_id org_id p) eqn:Eb.
    + by rewrite bool_decide_eq_true_2 by (apply elem_of_filter_In; split; [by apply dmem_spec|done]).
    + rewrite bool_decide_eq_false_2; [done|]. rewrite elem_of_filter_In, Eb. by intros [_ ?].
  - intros q Hq. apply elem_of_filter_In in Hq as [Hq _]. by apply dmem_spec.
Qed.

(** The key a stored text stands for: the text itself, or the [api_key] of a JSON object for the
    one provider whose credential has a second field. *)
Definition key_of_text (fr : Q → string) (p text : string) : string :=
  if (p ≡? "cloudflare") && startswith "{" text
  then match loads fr text with Some (JObj data) => data_text data "api_key" | _ => text end
  else text.

Lemma row_key_text fr p x :
  dmem PROVIDERS p = true → kind x.2 ≠ platform →
  nonempty (row_key fr p x) = nonempty (Some (key_of_text fr p x.1)).
Proof.
  intros Hp Hk. unfold row_key.
  assert (p ∈ dkeys PROVIDERS) as Hin by by apply dmem_spec.
  transitivity (nonempty (dget (provider_env_map fr p x.1) (env_of p))); [by destruct (kind x.2)|]. clear Hp Hk.
  unfold key_of_text, provider_env_map. destruct (decide (p = "cloudflare")) as [->|Hne].
  2:{ rewrite (bool_decide_eq_false_2 (p = "cloudflare")) by done. cbn [andb]. cbn in Hin.
      repeat (apply elem_of_cons in Hin as [->|Hin]; [first [done|reflexivity]|]). by apply elem_of_nil in Hin. }
  assert (∃ d, dget PROVIDERS "cloudflare" = Some d ∧ p_key_env d = "CLOUDFLARE_API_TOKEN" ∧
    account_env d = Some "CLOUDFLARE_ACCOUNT_ID") as (d & -> & -> & ->) by (eexists; split; [reflexivity|]; by split).
  change (env_of "cloudflare") with "CLOUDFLARE_API_TOKEN".
  change ("cloudflare" ≡? "cloudflare") with true. cbn [andb].
  assert (∀ text : string, dget [("CLOUDFLARE_API_TOKEN", text)] "CLOUDFLARE_API_TOKEN" = Some text) as Hone by reflexivity.
  destruct (startswith "{" x.1); [|by rewrite Hone].
  destruct (loads fr x.1) as [[]|]; rewrite ?Hone; try done. cbv zeta.
  generalize (data_text d0 "account_id") (data_text d0 "api_key"). intros acc key.
  change (dset [("CLOUDFLARE_API_TOKEN", key)] "CLOUDFLARE_ACCOUNT_ID" acc)
    with [("CLOUDFLARE_API_TOKEN", key); ("CLOUDFLARE_ACCOUNT_ID", acc)].
  assert (∀ rest, dget (("CLOUDFLARE_API_TOKEN", key) :: rest) "CLOUDFLARE_API_TOKEN" = Some key) as Hhead by reflexivity.
  unfold nonempty. destruct (acc ≡? "") eqn:Ea, (key ≡? "") eqn:Ek; cbn [List.filter snd];
    rewrite ?Ea, Ek; cbn [negb]; rewrite ?Hhead, ?Ek; try done; by rewrite Ea.
Qed.

Lemma the_row_kind rd user_id org_id p r : the_row rd user_id org_id p = Some r → kind r.2 ≠ platform.
Proof.
  unfold the_row, row_in. repeat case_match; cbn; intros; simplify_eq; done.
Qed.

(** C24: the caller's own key wins and never leaks, for an entry that is not bound to one
    discovered credential scope: for every known provider, the key the runner puts on the wire
    after [load_byok] is the user's stored key, else the organisation's, else the platform's;
    where a stored key cannot be read (a KMS failure, a bad ciphertext, a failing store) the call
    is refused, it never falls back to the platform's key; and the scope reported is the row's
    whose key is used, or the platform's.  The one exception is a stored Cloudflare object without
    a key in it: it is reported under its row's scope while the platform's key goes out (see
    [empty_object_uses_platform_key]).  (The tables answer with at most one row for a provider.) *)
Theorem dispatch_precedence fr rd user_id org_id k p e :
  reader_ok rd → dmem PROVIDERS p = true → api_key_env e = env_of p → credential_scope e = None →
  let '(scopes, b, _) := load_byok vault settings environ fr rd user_id org_id k in
  let on_wire := client_key e (byok_unavailable_envs b) (byok_keys b) in
  match encrypted_rows rd user_id org_id with
  | None => on_wire = Err KEY_UNAVAILABLE ∧ scopes = []
  | Some _ =>
      match the_row rd user_id org_id p with
      | None => on_wire = Ok PlatformKey ∧ dget scopes p = (match platform_key environ p with Some x => Some x.2 | None => None end)
      | Some r =>
          match opened (material vault settings k).1 (material vault settings k).2 r with
          | None => on_wire = Err KEY_UNAVAILABLE ∧ dget scopes p = None
          | Some x =>
              dget scopes p = Some r.2 ∧
              (on_wire = Ok (ByokKey (key_of_text fr p x.1)) ∨
               (on_wire = Ok PlatformKey ∧ p = "cloudflare" ∧ startswith "{" x.1 = true ∧ key_of_text fr p x.1 = ""))
          end
      end
  end.
Proof.
  intros Hrd Hp He Hsc. pose proof (load_byok_settled fr rd user_id org_id k Hrd) as Hset. cbv zeta in Hset.
  pose proof (client_key_settled fr rd user_id org_id k p e Hrd) as Hkey. cbv zeta in Hkey. set (s := material vault settings k) in *.
  destruct (load_byok _ _ _ _ _ _ _ _) as [ [scopes b] k']. destruct (encrypted_rows rd user_id org_id) as [enc|].
  - destruct (Hkey ltac:(done) Hp He Hsc) as [-> ->]. unfold choice, broken_key.
    destruct (the_row rd user_id org_id p) as [row|] eqn:Erow.
    + apply the_row_kind in Erow.
      destruct (opened s.1 s.2 row) as [x|] eqn:Eo; [|done]. unfold opened in Eo. destruct (_ || _); [done|].
      destruct (nonempty (decrypt _ _ _)) as [pt|] eqn:Ept; [|done]. injection Eo as <-. split; [done|].
      rewrite row_key_text by done. cbn [fst snd].
      change (nonempty (Some (key_of_text fr p pt))) with (if key_of_text fr p pt ≡? "" then None else Some (key_of_text fr p pt)).
      destruct (key_of_text fr p pt ≡? "") eqn:Ek; [right|by left].
      bool_to_prop. split; [done|]. unfold key_of_text in Ek |- *.
      assert (pt ≠ "") as Hpt.
      { destruct (decrypt _ _ _) as [v|]; [|done]. unfold nonempty in Ept. destruct (v ≡? "") eqn:Ev; [done|].
        injection Ept as <-. by bool_to_prop. }
      destruct (p ≡? "cloudflare") eqn:Ep; [|done]. destruct (startswith "{" pt); [|done]. by bool_to_prop.
    + unfold platform_key. destruct (dget PROVIDERS p) as [d|]; [|done]. by destruct (nonempty (strip <$> _)).
  - destruct Hset as [-> Hun]. split; [|done]. unfold client_key. rewrite He, Hun, env_of_broken; [|done|by intros q ?%dmem_spec].
    by rewrite bool_decide_eq_true_2 by by apply dmem_spec.
Qed.
End dispatch.

(** ** A stored key comes back *)

Definition keys_ok (a : AuthKeys) : Prop := NoDup (dkeys (provider_keys a)) ∧ NoDup (dkeys (org_provider_keys a)).

Lemma dget_key_map owner (t : KeyTable) p :
  dget (key_map owner t) p = match dget t (owner, p) with Some r => Some (kr_encrypted r) | None => None end.
Proof.
  induction t as [|[ [o q] r] t IH]; [done|]. unfold key_map in *. cbn [omap list_omap fst snd dget].
  destruct (bool_decide_reflect (o = owner)) as [->|Hne].
  - cbn [dget]. case_decide as E; case_decide as E'; [done|congruence|congruence|exact IH].
  - case_decide as E'; [congruence|exact IH].
Qed.

Lemma key_map_nodup owner (t : KeyTable) : NoDup (dkeys t) → NoDup (dkeys (key_map owner t)).
Proof.
  induction t as [|[ [o q] r] t IH]; [constructor|]. intros [Hn Ht]%NoDup_cons. unfold key_map in *. cbn [omap list_omap fst snd].
  destruct (bool_decide_reflect (o = owner)) as [->|]; [|by apply IH]. cbn. constructor; [|by apply IH].
  intros Hin. apply Hn. clear - Hin. apply list_elem_of_fmap in Hin as ([q' ct] & E & Hin). cbn in E. subst q'.
  apply list_elem_of_omap in Hin as ([ [o' q'] r'] & Hin & E). cbn in E. destruct (bool_decide_reflect (o' = owner)) as [->|]; [|done].
  injection E as -> _. apply list_elem_of_fmap. exists ((owner, q), r'). done.
Qed.

Lemma reader_of_ok a : keys_ok a → reader_ok (reader_of a).
Proof. intros [Hu Ho]. split; intros o m [= <-]; by apply key_map_nodup. Qed.

Lemma reader_of_rows a (user_id org_id : option string) :
  user_id ≠ Some "" → org_id ≠ Some "" → encrypted_rows (reader_of a) user_id org_id ≠ None.
Proof.
  intros Hu Ho. assert (∀ s m, scope_id s ≠ "" → scoped_rows s m ≠ None) as Hs.
  { intros s m Hne. unfold scoped_rows, check_scope. destruct m; [done|]. by rewrite bool_decide_eq_false_2. }
  unfold encrypted_rows. cbn [rd_org rd_user reader_of].
  assert (∀ o m, org_id = Some o → scoped_rows (org_scope o) m ≠ None) as Ho' by (intros o m ->; apply Hs; cbn; congruence).
  assert (∀ u m, user_id = Some u → scoped_rows (user_scope_of u) m ≠ None) as Hu' by (intros u m ->; apply Hs; cbn; congruence).
  clear - Ho' Hu'. destruct org_id as [o|].
  - specialize (Ho' o (get_org_provider_key_map o a) eq_refl). destruct (scoped_rows (org_scope o) _); [|done].
    destruct user_id as [u|]; [|done]. specialize (Hu' u (get_provider_key_map u a) eq_refl). by destruct (scoped_rows (user_scope_of u) _).
  - destruct user_id as [u|]; [|done]. specialize (Hu' u (get_provider_key_map u a) eq_refl). by destruct (scoped_rows (user_scope_of u) _).
Qed.

Section stored.
Context `{FernetLaws}.

Lemma encrypt_token secret n plaintext :
  encrypt secret n plaintext = Some (fernet_encrypt (fernet_key secret) n (utf8_encode plaintext)).
Proof. unfold encrypt. apply utf8_ascii, fernet_ascii. Qed.

(** A rotation window: what was written under either secret opens. *)
Lemma decrypt_window secret n plaintext primary old token :
  encrypt secret n plaintext = Some token → secret = primary ∨ (secret = old ∧ secret ≠ "") → decrypt primary token old = Some plaintext.
Proof.
  rewrite encrypt_token. intros [= <-] Hs. unfold decrypt. rewrite (proj1 (utf8_ascii _ (fernet_ascii _ _ _))).
  assert (multi_decrypt (fernet_keys primary old) (fernet_encrypt (fernet_key secret) n (utf8_encode plaintext)) = Some (utf8_encode plaintext)) as ->.
  2: apply utf8_decode_encode.
  unfold fernet_keys. cbn [multi_decrypt]. destruct (decide (fernet_key secret = fernet_key primary)) as [E|Hne].
  - by rewrite E, fernet_opens.
  - rewrite fernet_authentic by done. destruct Hs as [->|[-> Hne']]; [done|]. rewrite bool_decide_eq_false_2 by done.
    cbn [multi_decrypt]. by rewrite fernet_opens.
Qed.

(** C25: rotation without downtime: a key of a provider with a single-field credential (every one
    but Cloudflare), saved by [PUT /v1/credentials], is the key the runner sends on the user's next
    request for an entry that is not bound to one discovered credential scope, also after the
    at-rest secret was rotated, as long as the secret it was saved under is the primary or the
    declared previous one; and the scope reported is the user's.  (The tables of keys are filed under
    their own keys, and the ids of the user and the organisation are not empty.) *)
Theorem saved_key_dispatched vault settings vault' settings' environ fr u org_id p d key now v m v' secret k e :
  keys_ok (v_keys v) → u ≠ "" → org_id ≠ Some "" →
  dget PROVIDERS p = Some d → account_env d = None → api_key_env e = p_key_env d → credential_scope e = None →
  put_credential vault settings (Some u) p key now v = (KeyState p true m, v') →
  (credentials_secret vault settings (v_kms v)).1 = Ok secret →
  let s := material vault' settings' k in
  s.1 ≠ "" → secret = s.1 ∨ secret = s.2 →
  let '(scopes, b, _) := load_byok vault' settings' environ fr (reader_of (v_keys v')) (Some u) org_id k in
  client_key e (byok_unavailable_envs b) (byok_keys b) = Ok (ByokKey (strip key)) ∧ dget scopes p = Some (user_scope_of u).
Proof.
  intros [Hku Hko] Hu Ho Hd Hacc He Hsc Hput Hsec s Hs Hrot. revert Hput. unfold put_credential.
  unfold dmem. rewrite Hd. cbn [negb]. destruct (check_key (strip key)) as [r|] eqn:Eck; [intros [= -> _]|].
  { unfold check_key in Eck. destruct (_ ≡? _); [done|]. by destruct (1024 <? _). }
  assert (strip key ≠ "") as Hkey by (intros E; rewrite E in Eck; done). clear Eck.
  unfold with_secret. destruct (credentials_secret vault settings (v_kms v)) as [ [sec|err] k1]; [|done]. injection Hsec as ->.
  destruct (bool_decide_reflect (secret = "")) as [|Hne]; [done|]. unfold seal. rewrite encrypt_token. intros [= _ <-].
  set (token := fernet_encrypt _ _ _).
  assert (encrypt secret (v_nonce (with_kms k1 v)) (strip key) = Some token) as Etok by apply encrypt_token.
  set (row := {| kr_encrypted := token; kr_last4 := last4 (strip key); kr_created_at := now |}).
  cbn [v_keys with_kms]. set (a' := set_provider_key u p token (last4 (strip key)) now (v_keys v)).
  assert (keys_ok a') as Hok by (split; [by apply NoDup_dset|done]).
  assert (the_row (reader_of a') (Some u) org_id p = Some (token, user_scope_of u)) as Hrow.
  { unfold the_row, row_in, reader_of. cbn [rd_user]. unfold get_provider_key_map. rewrite dget_key_map. unfold a', set_provider_key.
    cbn [provider_keys]. by rewrite dget_dset_eq. }
  assert (opened s.1 s.2 (token, user_scope_of u) = Some (strip key, user_scope_of u)) as Hop.
  { unfold opened. rewrite (bool_decide_eq_false_2 (s.1 = "")) by done. cbn [fst snd].
    rewrite bool_decide_eq_false_2 by apply fernet_token. cbn [orb].
    rewrite (decrypt_window _ _ _ s.1 s.2 _ Etok) by (destruct Hrot as [?|?]; auto). unfold nonempty. by rewrite bool_decide_eq_false_2. }
  pose proof (client_key_settled vault' settings' environ fr (reader_of a') (Some u) org_id k p e (reader_of_ok a' Hok)) as Hset.
  cbv zeta in Hset. fold s in Hset. destruct (load_byok _ _ _ _ _ _ _ _) as [ [scopes b] k'].
  destruct Hset as [-> ->]; [apply reader_of_rows; congruence|unfold dmem; by rewrite Hd|unfold env_of; by rewrite Hd|done|].
  unfold broken_key, choice. rewrite Hrow, Hop. unfold row_key, provider_env_map, env_of. rewrite Hd, Hacc. cbn.
  rewrite decide_True by done. unfold nonempty. rewrite bool_decide_eq_false_2 by done. done.
Qed.
End stored.

(** ** The vaulted Toto key *)

(** Key material that was read stays: Vault is not asked again until the cache is reset. *)
Lemma kms_stable vault settings k x k' : kms_keys vault settings k = (Ok x, k') → kms_keys vault settings k' = (Ok x, k').
Proof.
  unfold kms_keys. destruct (kms_provider settings ≡? "env"); [by intros [= <- <-]|].
  destruct (negb _); [done|]. destruct (dget (kc_cache k) _) as [keys|] eqn:E; [intros [= <- <-]; by rewrite E|].
  destruct (vault_keys _) as [keys|]; [|done]. intros [= <- <-]. cbn [kc_cache]. by rewrite dget_dset_eq.
Qed.

Lemma secret_stable vault settings k s k' :
  credentials_secret vault settings k = (Ok s, k') →
  credentials_secret vault settings k' = (Ok s, k') ∧ ∃ old, credentials_secret_old vault settings k' = (Ok old, k').
Proof.
  unfold credentials_secret, credentials_secret_old. destruct (kms_keys vault settings k) as [ [x|] k1] eqn:E; [|done].
  intros [= <- <-]. rewrite (kms_stable _ _ _ _ _ E). eauto.
Qed.

Section toto.
Context `{FernetLaws}.
Context (vault : Vault) (settings : KmsSettings).

(** The vaulted key, once the secrets are known. *)
Lemma get_toto_key_spec u v secret k old :
  credentials_secret vault settings (v_kms v) = (Ok secret, k) → secret ≠ "" → credentials_secret_old vault settings k = (Ok old, k) →
  get_toto_key vault settings true u v
  = (Ok (match nonempty (dget (get_provider_key_map u (v_keys v)) TOTO_PROVIDER) with Some enc => decrypt secret enc old | None => None end),
     with_kms k v).
Proof.
  intros Hs Hne Ho. unfold get_toto_key. rewrite Hs, Ho. rewrite bool_decide_eq_false_2 by done. cbn [negb v_keys with_kms].
  by destruct (nonempty _).
Qed.

(** provisioning is idempotent: once a call returned a key, with an at-rest secret set,
    every later call returns that key, asks for no new one and leaves the tables alone. *)
Theorem provision_once provision readable u now v key v' secret :
  (credentials_secret vault settings (v_kms v)).1 = Ok secret → secret ≠ "" → provision ≠ Some "" →
  provision_and_store vault settings provision readable u now v = (Ok (Some key), v') →
  ∀ provision' now', ∃ v'', provision_and_store vault settings provision' true u now' v' = (Ok (Some key), v'') ∧ v_keys v'' = v_keys v'.
Proof.
  intros Hs Hne Hpr Hcall. assert (Hdone : ∀ k, credentials_secret vault settings (v_kms v') = (Ok secret, k) → key ≠ "" →
      (∀ old, credentials_secret_old vault settings k = (Ok old, k) →
        match nonempty (dget (get_provider_key_map u (v_keys v')) TOTO_PROVIDER) with Some enc => decrypt secret enc old | None => None end = Some key) →
      ∀ provision' now', ∃ v'', provision_and_store vault settings provision' true u now' v' = (Ok (Some key), v'') ∧ v_keys v'' = v_keys v').
  { intros k Hk Hkey Hd provision' now'. destruct (secret_stable _ _ _ _ _ Hk) as [_ [old Ho] ].
    exists (with_kms k v'). unfold provision_and_store. rewrite (get_toto_key_spec u v' secret k old Hk Hne Ho), (Hd old Ho).
    unfold nonempty. by rewrite bool_decide_eq_false_2. }
  destruct (credentials_secret vault settings (v_kms v)) as [r k1] eqn:E1. cbn [fst] in Hs. subst r.
  destruct (secret_stable _ _ _ _ _ E1) as [Hk1 [old Ho] ]. unfold provision_and_store in Hcall.
  assert (Hget : (∃ found, get_toto_key vault settings readable u v = (Ok found, with_kms k1 v) ∧
            (∀ x, found = Some x → match nonempty (dget (get_provider_key_map u (v_keys v)) TOTO_PROVIDER) with Some enc => decrypt secret enc old | None => None end = Some x))).
  { destruct readable; [rewrite (get_toto_key_spec u v secret k1 old E1 Hne Ho); eauto|].
    unfold get_toto_key. rewrite E1, Ho. rewrite bool_decide_eq_false_2 by done. cbn [negb]. by eexists. }
  destruct Hget as (found & Hfound & Hx). rewrite Hfound in Hcall. destruct (nonempty found) as [x|] eqn:En.
  - injection Hcall as -> <-. unfold nonempty in En. destruct found as [y|]; [|done]. destruct (bool_decide_reflect (y = "")); [done|].
    injection En as ->. apply (Hdone k1); [done|done|]. intros old' Ho'. rewrite Ho in Ho'. injection Ho' as <-. by apply Hx.
  - destruct provision as [new|]; [|done]. unfold store_toto_key in Hcall. cbn [v_kms with_kms] in Hcall. rewrite Hk1 in Hcall.
    rewrite bool_decide_eq_false_2 in Hcall by done. rewrite encrypt_token in Hcall. injection Hcall as -> <-.
    apply (Hdone k1); cbn [v_kms v_keys with_kms]; [done|congruence|]. intros old' Ho'. unfold get_provider_key_map. rewrite dget_key_map.
    cbn [set_provider_key provider_keys]. rewrite dget_dset_eq. unfold nonempty. cbn [kr_encrypted].
    rewrite bool_decide_eq_false_2 by apply fernet_token. eapply decrypt_window; [apply encrypt_token|by left].
Qed.
End toto.

(** ** Demonstration *)

(** A cipher with the laws: a token carries its key and its text. *)
#[local] Instance demo_fernet : Fernet := {
  sha256 s := s;
  fernet_encrypt k _ p := dumps (JList [JStr k; JStr p]);
  fernet_decrypt k t := match loads (λ _, "") t with
                        | Some (JList [JStr k'; JStr p]) => if k ≡? k' then Some p else None
                        | _ => None
                        end;
}.

#[local] Instance demo_fernet_laws : FernetLaws.
Proof.
  split; intros; cbn [fernet_decrypt fernet_encrypt demo_fernet].
  - rewrite loads_dumps by done. cbn [stored_json map]. by rewrite bool_decide_eq_true_2.
  - rewrite loads_dumps by done. cbn [stored_json map]. by rewrite bool_decide_eq_false_2 by done.
  - by apply ascii_dumps.
  - done.
Defined.

Definition demo_settings (secret old : string) : KmsSettings :=
  {| credentials_secret_env := secret; credentials_secret_old_env := old; kms_provider := "env"; vault_addr := "";
     vault_token := ""; vault_kv_path := "" |}.

Definition demo_vault : Vault := λ _ _, None.
Definition demo_kms : Kms := {| kc_cache := []; kc_reads := 0 |}.
Definition demo_vaulted : Vaulted := {| v_keys := no_keys; v_kms := demo_kms; v_nonce := 0 |}.

Definition demo_environ : Environ := λ n,
  if n ≡? "CLOUDFLARE_API_TOKEN" then Some "cf-platform"
  else if n ≡? "OPENROUTER_API_KEY" then Some "sk-platform" else None.

Definition demo_entry (env url : string) : CatalogEntry :=
  {| id := "m"; aliases := []; lane := economy; endpoint := "openai"; residency_class := cloud;
     price_usd_per_1k := default_price; context_window := 8192; cache_ttl_s := None;
     upstream_model := None; base_url := Some url; api_key_env := env;
     tools := true; identity_id := None; offer_id := None; provider := None;
     credential_scope := None; modalities := []; supported_parameters := [];
     max_output_tokens := None; snapshot_completed_at := None; snapshot_expires_at := None;
     capability_residency := []; source := None; price_source := yaml |}.

(** What a user's [PUT] leaves, and the request after it. *)
Definition demo_put (provider key : string) : Reply * Vaulted :=
  put_credential demo_vault (demo_settings "s1" "") (Some "u") provider key 0 demo_vaulted.

Definition demo_load (settings : KmsSettings) (v : Vaulted) : list (string * CredentialScopeRef) * Byok * Kms :=
  load_byok demo_vault settings demo_environ (λ _, "") (reader_of (v_keys v)) (Some "u") (Some "o") (v_kms v).

(** A Cloudflare key that is a JSON object without a token is stored, reported as the user's
    own, and the call goes out with the platform's key. *)
Theorem empty_object_uses_platform_key :
  let '(reply, v) := demo_put "cloudflare" "{}" in
  let '(scopes, b, _) := demo_load (demo_settings "s1" "") v in
  reply = KeyState "cloudflare" true (Some "")
  ∧ dget scopes "cloudflare" = Some (user_scope_of "u")
  ∧ client_key (demo_entry "CLOUDFLARE_API_TOKEN" "") (byok_unavailable_envs b) (byok_keys b) = Ok PlatformKey
  ∧ stored_or_env b demo_environ "CLOUDFLARE_API_TOKEN" = Some "cf-platform".
Proof. vm_compute. split_and!; reflexivity. Qed.

(** The account id of a user's own row is put into the URL before the environment's names are
    expanded in it: an id that names a secret of the process sends it to the provider. *)
Theorem account_id_expands_environment :
  let '(_, v) := demo_put "cloudflare" (quoted "{~api_key~: ~k~, ~account_id~: ~${OPENROUTER_API_KEY}~}") in
  let '(_, b, _) := demo_load (demo_settings "s1" "") v in
  resolved_base_url b demo_environ (demo_entry "CLOUDFLARE_API_TOKEN" "https://api.cloudflare.com/accounts/${CLOUDFLARE_ACCOUNT_ID}/ai")
  = Some "https://api.cloudflare.com/accounts/sk-platform/ai".
Proof. vm_compute. reflexivity. Qed.

Example expandvars_cases :
  expandvars demo_environ <$> ["$OPENROUTER_API_KEY/x"; "${OPENROUTER_API_KEY}y"; "${NOPE} $"; "$$OPENROUTER_API_KEY"; "${OPENROUTER_API_KEY"; "a$-b"]
  = ["sk-platform/x"; "sk-platformy"; "${NOPE} $"; "$sk-platform"; "${OPENROUTER_API_KEY"; "a$-b"].
Proof. vm_compute. reflexivity. Qed.

(** The operator's two fields, as the runner gets them. *)
Example packed_account :
  (match pack_provider_key "cloudflare" (quoted "t~k") "0123" with Some pt => provider_env_map (λ _, "") "cloudflare" pt | None => [] end)
  = [("CLOUDFLARE_API_TOKEN", quoted "t~k"); ("CLOUDFLARE_ACCOUNT_ID", "0123")].
Proof. vm_compute. reflexivity. Qed.

Lemma demo_keys_ok : keys_ok (v_keys (demo_put "openrouter" "  sk-mine ").2).
Proof. split; vm_decide. Qed.

Lemma dispatch_precedence_witness :
  let '(_, v) := demo_put "openrouter" "  sk-mine " in
  let '(scopes, b, _) := load_byok demo_vault (demo_settings "s2" "s1") demo_environ (λ _, "") (reader_of (v_keys v)) (Some "u") None demo_kms in
  let on_wire := client_key (demo_entry "OPENROUTER_API_KEY" "") (byok_unavailable_envs b) (byok_keys b) in
  dget scopes "openrouter" = Some (user_scope_of "u") ∧
  (on_wire = Ok (ByokKey "sk-mine") ∨
   (on_wire = Ok PlatformKey ∧ "openrouter" = "cloudflare" ∧ startswith "{" "sk-mine" = true ∧ "sk-mine" = "")).
Proof.
  exact (dispatch_precedence demo_vault (demo_settings "s2" "s1") demo_environ (λ _, "") (reader_of (v_keys (demo_put "openrouter" "  sk-mine ").2))
           (Some "u") None demo_kms "openrouter" (demo_entry "OPENROUTER_API_KEY" "")
           (reader_of_ok _ demo_keys_ok) eq_refl eq_refl eq_refl).
Defined.

Lemma saved_key_dispatched_witness :
  let '(scopes, b, _) := load_byok demo_vault (demo_settings "s2" "s1") demo_environ (λ _, "")
                           (reader_of (v_keys (demo_put "openrouter" "  sk-mine ").2)) (Some "u") None demo_kms in
  client_key (demo_entry "OPENROUTER_API_KEY" "") (byok_unavailable_envs b) (byok_keys b) = Ok (ByokKey "sk-mine")
  ∧ dget scopes "openrouter" = Some (user_scope_of "u").
Proof.
  apply (saved_key_dispatched demo_vault (demo_settings "s1" "") demo_vault (demo_settings "s2" "s1") demo_environ (λ _, "") "u" None "openrouter"
           (simple_provider "OpenRouter" "OPENROUTER_API_KEY" "Economy-tier routing via OpenRouter") "  sk-mine " 0 demo_vaulted (Some "")
           (demo_put "openrouter" "  sk-mine ").2 "s1" demo_kms (demo_entry "OPENROUTER_API_KEY" "")).
  - split; apply NoDup_nil_2.
  - discriminate.
  - discriminate.
  - reflexivity.
  - reflexivity.
  - reflexivity.
  - reflexivity.
  - vm_compute. reflexivity.
  - reflexivity.
  - discriminate.
  - right. reflexivity.
Defined.

Lemma provision_once_witness :
  ∃ v'', provision_and_store demo_vault (demo_settings "s1" "") (Some "other") true "u" 1
           (provision_and_store demo_vault (demo_settings "s1" "") (Some "toto_k") true "u" 0 demo_vaulted).2
         = (Ok (Some "toto_k"), v'')
         ∧ v_keys v'' = v_keys (provision_and_store demo_vault (demo_settings "s1" "") (Some "toto_k") true "u" 0 demo_vaulted).2.
Proof.
  apply (provision_once demo_vault (demo_settings "s1" "") (Some "toto_k") true "u" 0 demo_vaulted "toto_k" _ "s1").
  - reflexivity.
  - discriminate.
  - discriminate.
  - vm_compute. reflexivity.
Defined.
