(* ===== verification/Platform.v ===== *)
(** * The inventory platform ([benchmarking/platform.py])

    Compile, submit and run: who may refresh or look at which credential scope, the plan and its
    durable form, idempotent submission, the execution of an operation under its lease, the life
    of the process, and the cursors of the paged inspection ([Inspect]).  It composes the credentials, the
    operation ledger, the inventory refresh and the candidate loads. *)

From S2P Require Import Prelude.
From S2P Require Import PyStr.
From S2P Require Import PyDict.
From S2P Require Import Schemas.
From S2P Require Import Catalog.
From S2P Require Import ExactCache.
From S2P Require Import Domain.
From S2P Require Import Reconcile.
From S2P Require Import Ledger.
From S2P Require Import Json.
From S2P Require Import Base64.
From S2P Require Import InventoryStore.
From S2P Require Import InventoryReads.
From S2P Require Import Policy.
From S2P Require Import Sanitize.
From S2P Require Import Inventory.
From S2P Require Import Candidates.
From S2P Require Import Hydration.
From S2P Require Import Credentials.

(** ** Errors, actors and intents *)

(** [PlatformAccessError], or another exception by its class. *)
Inductive PlatformError : Type :=
  | Access (status : nat) (message code : string)
  | Raise (cls : string).

Record PlatformActor := {
  pa_actor_id : string;
  pa_user_id : option string;
  pa_org_id : option string;
  pa_role : option string;
  pa_is_operator : bool;
  pa_kind : string;
}.

(** The fields of an identity that [from_identity] reads: its actor kind is its own unless it
    is the operator's. *)
Definition from_identity (user_id org_id role : option string) (is_operator : bool) (actor : string) : PlatformActor :=
  {| pa_actor_id := match nonempty user_id with Some u => u | None => "operator" end; pa_user_id := user_id; pa_org_id := org_id;
     pa_role := role; pa_is_operator := is_operator; pa_kind := if is_operator then "operator" else actor |}.

Inductive IntentScope : Type := SEffective | SPlatform | SUser | SOrganization.

#[export] Instance IntentScope_eq_dec : EqDecision IntentScope.
Proof. solve_decision. Defined.

Definition intent_scope_str (s : IntentScope) : string :=
  match s with SEffective => "effective" | SPlatform => "platform" | SUser => "user" | SOrganization => "organization" end.

Record InventoryRefreshIntent := {
  it_providers : list ProviderName;
  it_scope : IntentScope;
  it_user_id : option string;
  it_org_id : option string;
}.

(** The validators of the intent. *)
Definition check_intent (i : InventoryRefreshIntent) : bool :=
  negb (bool_decide (it_providers i = [])) && bool_decide (NoDup (it_providers i))
  && match it_scope i with
     | SUser => match nonempty (it_user_id i) with Some _ => true | None => false end
     | SOrganization => match nonempty (it_org_id i) with Some _ => true | None => false end
     | _ => true
     end.

Record ModelInventoryQuery := {
  mq_scope : IntentScope;
  mq_user_id : option string;
  mq_provider : option ProviderName;
  mq_availability : string;
  mq_identity_ref : option string;
  mq_cursor : option string;
  mq_limit : Z;
}.

(** The validators of the query, less those of its eligibility context, which nothing reads. *)
Definition check_query (q : ModelInventoryQuery) : bool :=
  match mq_scope q with
  | SOrganization => false
  | SUser => match nonempty (mq_user_id q) with Some _ => true | None => false end
  | _ => true
  end
  && (mq_availability q ∈? ["all"; "available"])
  && match mq_identity_ref q with Some r => (1 <=? str_len r) && (str_len r <=? 512) | None => true end
  && ((1 <=? mq_limit q)%Z && (mq_limit q <=? 200)%Z).

(** ** Authorization *)

(** What the auth store knows: whether a user exists, and a user's organisation. *)
Record AuthReader := { au_user : string → bool; au_membership : string → option string }.

Definition ADMIN_ROLES : list string := ["owner"; "admin"].

Definition privileged (a : PlatformActor) : bool :=
  pa_is_operator a || match pa_role a with Some r => r ∈? ADMIN_ROLES | None => false end.

Definition insufficient_role : PlatformError := Access 403 "admin role required" "insufficient_role".

Definition user_not_found : PlatformError := Access 404 "user not found" "user_not_found".

(** The target of a user or effective scope, once it is named. *)
Definition authorize_target (auth : AuthReader) (a : PlatformActor) (target : string) : res PlatformError (option string) :=
  let own := pa_user_id a ≡? Some target in
  if negb own && negb (pa_is_operator a) && negb (privileged a) then Err (Access 403 "cannot access another user" "cross_user_denied")
  else if negb (au_user auth target) then Err user_not_found
  else if negb own && negb (pa_is_operator a) then
    match au_membership auth target with
    | Some o => if pa_org_id a ≡? Some o then Ok (Some target) else Err user_not_found
    | None => Err user_not_found
    end
  else Ok (Some target).

(** [_authorize_scope] *)
Definition authorize_scope (auth : AuthReader) (scope : IntentScope) (requested_user : option string) (a : PlatformActor)
    (requested_org : option string) : res PlatformError (option string) :=
  match scope with
  | SPlatform => if privileged a then Ok None else Err insufficient_role
  | SOrganization =>
      if negb (privileged a) then Err insufficient_role
      else match nonempty requested_org orelse pa_org_id a with
           | None => Err (Access 400 "org_id is required" "org_id_required")
           | Some org =>
               if negb (pa_is_operator a) && negb (pa_org_id a ≡? Some org)
               then Err (Access 403 "cannot access another org" "cross_org_denied")
               else Ok (Some org)
           end
  | _ =>
      if (scope ≡? SUser) && negb (privileged a) then Err insufficient_role
      else match nonempty requested_user orelse pa_user_id a with
           | None => if pa_is_operator a && (scope ≡? SEffective) then Ok None
                     else Err (Access 400 "user_id is required" "user_id_required")
           | Some target => authorize_target auth a target
           end
  end.

(** ** The cursor *)

Definition encode_cursor (identity_id : string) : string :=
  rstrip_char "=" (urlsafe_b64encode (utf8_encode (dumps (JObj [("after", JStr identity_id)])))).

Definition invalid_cursor : PlatformError := Access 400 "invalid cursor" "invalid_cursor".

(** [cursor + "=" * (-len(cursor) % 4)] *)
Definition padded (cursor : string) : string := cursor +:+ str_repeat "=" ((4 - str_len cursor mod 4) mod 4).

Definition decode_cursor (fr : Q → string) (cursor : option string) : res PlatformError (option string) :=
  match cursor with
  | None => Ok None
  | Some c =>
      match urlsafe_b64decode (utf8_encode (padded c)) with
      | None => Err invalid_cursor
      | Some bytes =>
          match utf8_decode bytes with
          | None => Err invalid_cursor
          | Some t =>
              match loads fr t with
              | Some (JObj d) => match dget d "after" with
                                 | Some (JStr i) => if i ≡? "" then Err invalid_cursor else Ok (Some i)
                                 | _ => Err invalid_cursor
                                 end
              | _ => Err invalid_cursor
              end
          end
      end
  end.

Lemma cursor_decodes fr i : i ≠ "" → decode_cursor fr (Some (encode_cursor i)) = Ok (Some i).
Proof.
  intros Hi. unfold decode_cursor, encode_cursor, padded. set (v := JObj [("after", JStr i)]).
  assert (Json.printable v = true) as Hv by done. pose proof (ascii_dumps v Hv) as Ha.
  destruct (utf8_ascii (dumps v) Ha) as [-> Hd]. rewrite b64_unpadded, b64_repadded.
  rewrite (proj1 (utf8_ascii _ (b64_encode_ascii _))), b64_decode_encode, Hd, (loads_dumps fr v Hv).
  change (stored_json v) with v. unfold v. cbn [dget]. rewrite decide_True by done. by rewrite bool_decide_eq_false_2.
Qed.

(** paging resumes where it stopped: the cursor handed out for an identity decodes to that
    identity, whatever characters it has; and no cursor decodes to the empty identity. *)
Theorem cursor_roundtrip fr i :
  (i ≠ "" → decode_cursor fr (Some (encode_cursor i)) = Ok (Some i)) ∧ ∀ c, decode_cursor fr c ≠ Ok (Some "").
Proof.
  split.
  - apply cursor_decodes.
  - intros [c|]; [|done]. unfold decode_cursor. destruct (urlsafe_b64decode _) as [b|]; [|done]. destruct (utf8_decode b) as [t|]; [|done].
    destruct (loads fr t) as [ [| | | | | |d]|]; try done. destruct (dget d "after") as [ [| | | |s| |]|]; try done.
    by destruct (bool_decide_reflect (s = "")) as [|Hne]; [|intros [= ?] ].
Qed.

Lemma cursor_roundtrip_witness : decode_cursor (λ _, "") (Some (encode_cursor "mi_1")) = Ok (Some "mi_1").
Proof. apply (cursor_roundtrip (λ _, "") "mi_1"). discriminate. Defined.

Example cursors :
  encode_cursor "mi_1" = "eyJhZnRlciI6Im1pXzEifQ"
  ∧ decode_cursor (λ _, "") <$> [Some "not base64"; Some "e30"; Some "eyJhZnRlciI6IiJ9"; Some "bnVsbA"; Some "!!!"; None]
    = [Err invalid_cursor; Err invalid_cursor; Err invalid_cursor; Err invalid_cursor; Err invalid_cursor; Ok None].
Proof. vm_compute. split; reflexivity. Qed.

(** ** Who may act on what *)

(** A user the actor may act for: themselves, anyone for an operator, a member of their own
    organisation for an admin. *)
Definition may_act_for (auth : AuthReader) (a : PlatformActor) (u : string) : Prop :=
  au_user auth u = true
  ∧ (pa_user_id a = Some u ∨ pa_is_operator a = true
     ∨ (privileged a = true ∧ ∃ o, au_membership auth u = Some o ∧ pa_org_id a = Some o)).

(** C27: the authorization is exact: a platform scope is for operators and admins; an
    organisation's for operators and that organisation's own admins; a named user's own scope
    for operators and admins, and the effective one for the user, too, in each case only for a
    user that exists and that the actor may act for; and only an operator may look at the
    effective scope of nobody. *)
Theorem authorize_exact auth scope user_id a org_id t :
  authorize_scope auth scope user_id a org_id = Ok t ↔
  match scope with
  | SPlatform => privileged a = true ∧ t = None
  | SOrganization =>
      privileged a = true ∧ ∃ o, (nonempty org_id orelse pa_org_id a) = Some o ∧ t = Some o ∧ (pa_is_operator a = true ∨ pa_org_id a = Some o)
  | SEffective | SUser =>
      (scope = SUser → privileged a = true)
      ∧ match (nonempty user_id orelse pa_user_id a) with
        | Some u => t = Some u ∧ may_act_for auth a u
        | None => t = None ∧ pa_is_operator a = true ∧ scope = SEffective
        end
  end.
Proof.
  assert (Htarget : ∀ u, authorize_target auth a u = Ok t ↔ t = Some u ∧ may_act_for auth a u).
  { intros u. unfold authorize_target, may_act_for, privileged. destruct (bool_decide_reflect (pa_user_id a = Some u)) as [E|Hn]; cbn [negb andb].
    - destruct (au_user auth u); cbn [negb]; [|naive_solver]. split; [intros [= <-]; auto|by intros [-> _] ].
    - destruct (pa_is_operator a); cbn [negb andb orb].
      + destruct (au_user auth u); cbn [negb]; [|naive_solver]. split; [intros [= <-]; auto|by intros [-> _] ].
      + destruct (match pa_role a with Some r => _ | None => false end); cbn [negb]; [|naive_solver].
        destruct (au_user auth u); cbn [negb]; [|naive_solver]. destruct (au_membership auth u) as [o|]; [|naive_solver].
        destruct (bool_decide_reflect (pa_org_id a = Some o)); naive_solver. }
  unfold authorize_scope. destruct scope; cbn [negb andb].
  - rewrite bool_decide_eq_false_2, andb_false_l by done. destruct (nonempty user_id orelse pa_user_id a) as [u|].
    + rewrite Htarget. naive_solver.
    + rewrite bool_decide_eq_true_2, andb_true_r by done. destruct (pa_is_operator a); naive_solver.
  - destruct (privileged a); naive_solver.
  - rewrite bool_decide_eq_true_2, andb_true_l by done. destruct (privileged a); cbn [negb]; [|naive_solver].
    destruct (nonempty user_id orelse pa_user_id a) as [u|].
    + rewrite Htarget. naive_solver.
    + rewrite bool_decide_eq_false_2, andb_false_r by done. naive_solver.
  - destruct (privileged a); cbn [negb]; [|naive_solver]. destruct (nonempty org_id orelse pa_org_id a) as [o|]; [|naive_solver].
    destruct (pa_is_operator a); cbn [negb andb]; [naive_solver|]. destruct (bool_decide_reflect (pa_org_id a = Some o)); naive_solver.
Qed.

(** ** Compiling ([compile]) *)

(** The settings it reads. *)
Record PlatformSettings := {
  ps_kms : KmsSettings;
  ps_fireworks_account : string;
  ps_fireworks_deployments : bool;
  ps_max_staleness_hours : Q;
}.

Definition kind_json (k : ScopeKind) : json := JStr (kind_str k).

(** [scope.model_dump(mode="json")] *)
Definition scope_json (s : CredentialScopeRef) : json := JObj [("kind", kind_json (kind s)); ("scope_id", JStr (scope_id s))].

Definition opt_str (o : option string) : json := match o with Some s => JStr s | None => JNull end.

Definition scopes_json (scopes : list (ProviderName * CredentialScopeRef)) : json :=
  JObj ((λ ps, (provider_str ps.1, scope_json ps.2)) <$> scopes).

(** [intent.model_dump(mode="json")] *)
Definition intent_json (i : InventoryRefreshIntent) : json :=
  JObj [("kind", JStr "inventory_refresh"); ("providers", JList (JStr ∘ provider_str <$> it_providers i));
        ("scope", JStr (intent_scope_str (it_scope i))); ("user_id", opt_str (it_user_id i)); ("org_id", opt_str (it_org_id i))].

(** What [_fingerprint] hashes. *)
Definition fingerprint_text (i : InventoryRefreshIntent) (a : PlatformActor) (target : option string)
    (scopes : list (ProviderName * CredentialScopeRef)) : string :=
  dumps (JObj [("intent", intent_json i); ("actor_id", JStr (pa_actor_id a)); ("target_user_id", opt_str target);
               ("provider_scopes", scopes_json scopes)]).

Record CompiledInventoryPlan := {
  cp_plan_id : string;
  cp_intent : InventoryRefreshIntent;
  cp_actor_id : string;
  cp_target : option string;
  cp_scopes : list (ProviderName * CredentialScopeRef);
  cp_fingerprint : string;
  cp_requests : list RefreshRequest;
}.

(** [_discovery_config]; [None] is a [ValidationError]. *)
Definition discovery_config (st : PlatformSettings) (p : ProviderName) (scope : CredentialScopeRef) : option DiscoveryConfig :=
  let c := match p with
           | fireworks =>
               match kind scope with
               | platform => {| dc_scope := scope; dc_account_id := ps_fireworks_account st;
                                dc_deployments := ps_fireworks_deployments st; dc_accounts := false |}
               | _ => {| dc_scope := scope; dc_account_id := ""; dc_deployments := true; dc_accounts := true |}
               end
           | openrouter => {| dc_scope := scope; dc_account_id := ""; dc_deployments := false; dc_accounts := false |}
           end in
  if check_config c then Some c else None.

Definition unavailable_error : PlatformError := Access 409 "provider credential unavailable" "credential_unavailable".

(** The scope an intent insists on. *)
Definition wanted_kind (s : IntentScope) : option (ScopeKind * string) :=
  match s with
  | SEffective => None
  | SPlatform => Some (platform, "platform")
  | SUser => Some (user_scope, "user")
  | SOrganization => Some (organization, "organization")
  end.

Section platform.
Context `{Fernet}.
Context (vault : Vault) (environ : Environ) (st : PlatformSettings) (adapters : list (ProviderName * Adapter)).
Context (hexdigest : string → string) (uuid4 : nat → string).
Context (auth : AuthReader) (rd : KeyReader).

(** The request and the scope of one provider of the intent. *)
Definition compile_one (scope : IntentScope) (selected : Selected) (p : ProviderName)
    : res PlatformError (ProviderName * CredentialScopeRef * RefreshRequest) :=
  match dget selected (provider_str p) with
  | None => Err (Access 409 ("no " +:+ provider_str p +:+ " credential configured") "credential_unavailable")
  | Some (credential, s) =>
      let refused := match wanted_kind scope with
                     | Some (k, name) => if kind s ≡? k then None else Some name
                     | None => None
                     end in
      match refused with
      | Some name => Err (Access 409 ("no " +:+ name +:+ " " +:+ provider_str p +:+ " credential configured") "credential_unavailable")
      | None =>
          match dget adapters p with
          | None => Err (Access 400 ("unsupported provider " +:+ provider_str p) "bad_provider")
          | Some adapter =>
              match discovery_config st p s with
              | None => Err (Raise "ValidationError")
              | Some c => Ok (p, s, {| rr_adapter := adapter; rr_credential := credential; rr_config := c |})
              end
          end
      end
  end.

(** The user and the organisation whose keys an intent resolves. *)
Definition resolve_owners (scope : IntentScope) (target : option string) : option string * option string :=
  match scope with SOrganization => (None, target) | _ => (target, None) end.

Definition compile (closed : bool) (i : InventoryRefreshIntent) (a : PlatformActor) (uuids : nat) (k : Kms)
    : res PlatformError CompiledInventoryPlan * Kms :=
  if closed then (Err (Access 503 "benchmark platform is closed" "platform_closed"), k)
  else
    match authorize_scope auth (it_scope i) (it_user_id i) a (it_org_id i) with
    | Err e => (Err e, k)
    | Ok target =>
        let '(user, org) := resolve_owners (it_scope i) target in
        let '(r, k) := resolve_provider_credentials vault (ps_kms st) environ rd user (provider_str <$> it_providers i) org k in
        (match r with
         | Err (Unavailable _ _ _) => Err unavailable_error
         | Err (UnknownProvider _) => Err (Raise "KeyError")
         | Ok selected =>
             try! compiled := map_res (compile_one (it_scope i) selected) (it_providers i) in
             let scopes := fst <$> compiled in
             Ok {| cp_plan_id := "plan_" +:+ uuid4 uuids; cp_intent := i; cp_actor_id := pa_actor_id a; cp_target := target;
                   cp_scopes := scopes; cp_fingerprint := hexdigest (fingerprint_text i a target scopes);
                   cp_requests := snd <$> compiled |}
         end, k)
    end.

(** ** Submitting ([submit]) *)

Record OperationRef := {
  or_operation_id : string;
  or_status : OpStatus;
  or_created_at : Q;
  or_result : list (string * json);
  or_error : option string;
}.

Definition operation_ref (o : Op) : OperationRef :=
  {| or_operation_id := op_id o; or_status := op_status o; or_created_at := op_created_at o; or_result := op_result o; or_error := op_error o |}.

Definition durable_plan (p : CompiledInventoryPlan) : list (string * json) :=
  [("providers", JList (JStr ∘ provider_str <$> it_providers (cp_intent p))); ("target_user_id", opt_str (cp_target p));
   ("provider_scopes", scopes_json (cp_scopes p))].

Definition OPERATION_RETENTION_S : Q := 86400.
Definition OPERATION_LEASE_S : Q := 60.
Definition OPERATION_MAINTENANCE_BATCH : Z := 100.
Definition PRUNE_LIMIT : Z := 500.
End platform.

(** The process: the refresh service with the store, the key material's cache, the candidate
    index, the operations with a task of their own, and whether it is closed. *)
Record Platform := {
  pf_service : Service;
  pf_kms : Kms;
  pf_hydrated : Hydrated;
  pf_tasks : list string;
  pf_closed : bool;
  pf_uuids : nat;
}.

Definition pf_ops (p : Platform) : Ops := db_ops (sv_db (pf_service p)).

Definition with_service (s : Service) (p : Platform) : Platform :=
  {| pf_service := s; pf_kms := pf_kms p; pf_hydrated := pf_hydrated p; pf_tasks := pf_tasks p; pf_closed := pf_closed p; pf_uuids := pf_uuids p |}.
Definition with_pf_ops (t : Ops) (p : Platform) : Platform :=
  with_service (with_db (with_ops t (sv_db (pf_service p))) (pf_service p)) p.
Definition with_pf_kms (k : Kms) (p : Platform) : Platform :=
  {| pf_service := pf_service p; pf_kms := k; pf_hydrated := pf_hydrated p; pf_tasks := pf_tasks p; pf_closed := pf_closed p; pf_uuids := pf_uuids p |}.
Definition with_pf_hydrated (h : Hydrated) (p : Platform) : Platform :=
  {| pf_service := pf_service p; pf_kms := pf_kms p; pf_hydrated := h; pf_tasks := pf_tasks p; pf_closed := pf_closed p; pf_uuids := pf_uuids p |}.
Definition with_tasks (l : list string) (p : Platform) : Platform :=
  {| pf_service := pf_service p; pf_kms := pf_kms p; pf_hydrated := pf_hydrated p; pf_tasks := l; pf_closed := pf_closed p; pf_uuids := pf_uuids p |}.
Definition next_pf_uuid (p : Platform) : Platform :=
  {| pf_service := pf_service p; pf_kms := pf_kms p; pf_hydrated := pf_hydrated p; pf_tasks := pf_tasks p; pf_closed := pf_closed p;
     pf_uuids := S (pf_uuids p) |}.

(** [_schedule_operation] *)
Definition schedule_operation (id : string) (p : Platform) : Platform :=
  if pf_closed p || (id ∈? pf_tasks p) then p else with_tasks (pf_tasks p ++ [id]) p.

(** [_forget_task]: a done task is taken off. *)
Definition forget_task (id : string) (p : Platform) : Platform := with_tasks (List.filter (λ x, negb (x ≡? id)) (pf_tasks p)) p.

Section submit.
Context (uuid4 : nat → string).

(** What the store raises, as the caller of [submit] sees it. *)
Definition submit_error (e : StoreError) : PlatformError :=
  match e with
  | EValue _ => Access 409 "Idempotency-Key reused with different intent" "idempotency_conflict"
  | ERuntime _ => Raise "RuntimeError"
  | EIntegrity => Raise "IntegrityError"
  | EFence => Raise "InventoryExecutionFenceError"
  end.

Definition submit (plan : CompiledInventoryPlan) (a : PlatformActor) (idempotency_key : string) (now : Q) (p : Platform)
    : res PlatformError OperationRef * Platform :=
  if pf_closed p then (Err (Access 503 "benchmark platform is closed" "platform_closed"), p)
  else if negb (cp_actor_id plan ≡? pa_actor_id a) then (Err (Access 403 "compiled plan belongs to another actor" "plan_owner"), p)
  else
    let key := strip idempotency_key in
    if (key ≡? "") || (256 <? str_len key) then (Err (Access 400 "invalid Idempotency-Key" "invalid_idempotency_key"), p)
    else
      let p := with_pf_ops (prune now PRUNE_LIMIT (pf_ops p)).2 p in
      let request := {| rq_id := "op_" +:+ uuid4 (pf_uuids p); rq_actor := pa_actor_id a; rq_scope := intent_scope_str (it_scope (cp_intent plan));
                        rq_target := cp_target plan; rq_key := key; rq_fingerprint := cp_fingerprint plan; rq_now := now;
                        rq_expires_at := (now + OPERATION_RETENTION_S)%Q; rq_plan := durable_plan plan |} in
      let p := next_pf_uuid p in
      match claim_operation request (pf_ops p) with
      | Err e => (Err (submit_error e), p)
      | Ok (created, o, t) =>
          let p := with_pf_ops t p in
          let p := if (created || negb (terminal (op_status o))) && negb (op_id o ∈? pf_tasks p) then schedule_operation (op_id o) p else p in
          (Ok (operation_ref o), p)
      end.

(** [operation] *)
Definition operation (id : string) (p : Platform) : res PlatformError OperationRef :=
  match get_operation id (pf_ops p) with
  | None => Err (Access 404 "operation not found" "operation_not_found")
  | Some o => Ok (operation_ref o)
  end.
End submit.

(** ** Running an operation ([_run_refresh]) *)

Definition provider_named (v : json) : option ProviderName :=
  match v with
  | JStr "openrouter" => Some openrouter
  | JStr "fireworks" => Some fireworks
  | _ => None
  end.

(** [CredentialScopeRef.model_validate] of a stored scope. *)
Definition kind_named (v : json) : option ScopeKind :=
  match v with
  | JStr "platform" => Some platform
  | JStr "organization" => Some organization
  | JStr "user" => Some user_scope
  | _ => None
  end.

Definition scope_of_json (v : json) : option CredentialScopeRef :=
  match v with
  | JObj d =>
      match dget d "kind", dget d "scope_id" with
      | Some k, Some (JStr s) =>
          match kind_named k with
          | Some k => if (2 <? length (dkeys d)) || (s ≡? "") then None else Some {| kind := k; scope_id := s |}
          | None => None
          end
      | _, _ => None
      end
  | _ => None
  end.

Fixpoint map_option {A B} (f : A → option B) (l : list A) : option (list B) :=
  match l with
  | [] => Some []
  | x :: l => match f x, map_option f l with Some y, Some ys => Some (y :: ys) | _, _ => None end
  end.

Definition status_str (s : InventoryStatus) : string :=
  match s with success => "success" | partial => "partial" | failed => "failed" | stale => "stale" end.

(** The clock readings of a run, what other tasks and replicas do to the ledger before the
    result is written, and the two turns of the candidate load. *)
Record RunTimes := {
  rt_claim : Q;
  rt_refresh : Times;
  rt_fence : nat → Q;
  rt_others : list Event;
  rt_finish : Q;
  rt_first : Meanwhile;
  rt_second : Meanwhile;
}.

Section run.
Context `{Fernet}.
Context (vault : Vault) (environ : Environ) (st : PlatformSettings) (adapters : list (ProviderName * Adapter)).
Context (digest24 : string → string) (ip_host : string → bool) (uuid4 : nat → string) (uuid5 : string → string).
Context (rd : KeyReader) (worker : string).

(** The scope that a plan stores for a provider. *)
Definition scope_in (d : list (string * json)) (p : ProviderName) : option (ProviderName * CredentialScopeRef) :=
  match dget d (provider_str p) with
  | Some v => match scope_of_json v with Some s => Some (p, s) | None => None end
  | None => None
  end.

(** The plan of a stored operation: its providers, target and scopes. *)
Definition plan_of (plan : list (string * json)) : option (list ProviderName * option string * list (ProviderName * CredentialScopeRef)) :=
  match dget plan "providers", dget plan "provider_scopes" with
  | Some (JList (v :: vs)), Some (JObj scopes) =>
      match map_option provider_named (v :: vs) with
      | None => None
      | Some providers =>
          match map_option (scope_in scopes) providers with
          | None => None
          | Some expected =>
              Some (providers, match dget plan "target_user_id" with Some (JStr u) => Some u | _ => None end, expected)
          end
      end
  | _, _ => None
  end.

(** The request of a provider, when its credential still has the scope it was compiled for. *)
Definition request_again (expected : list (ProviderName * CredentialScopeRef)) (selected : Selected) (p : ProviderName) : option RefreshRequest :=
  match dget selected (provider_str p), dget expected p, dget adapters p with
  | Some (credential, s), Some s', Some adapter =>
      if s ≡? s' then match discovery_config st p s with
                      | Some c => Some {| rr_adapter := adapter; rr_credential := credential; rr_config := c |}
                      | None => None
                      end
      else None
  | _, _, _ => None
  end.

(** [_requests_from_operation]; every exception is [None], since its caller treats all alike. *)
Definition requests_from_operation (o : Op) (k : Kms) : option (list RefreshRequest) * Kms :=
  match plan_of (op_plan o) with
  | None => (None, k)
  | Some (providers, target, expected) =>
      let org := match List.filter (λ ps, kind ps.2 ≡? organization) expected with ps :: _ => Some (scope_id ps.2) | [] => None end in
      let user := match org with Some _ => None | None => target end in
      match resolve_provider_credentials vault (ps_kms st) environ rd user (provider_str <$> providers) org k with
      | (Ok selected, k) => (map_option (request_again expected selected) providers, k)
      | (Err _, k) => (None, k)
      end
  end.

(** The status of an operation from those of its snapshots. *)
Definition outcome_status (o : Outcome) : string :=
  let l := sn_status <$> oc_snapshots o in
  if negb (bool_decide (l = [])) && forallb (λ s, s ≡? success) l then "succeeded"
  else if negb (bool_decide (l = [])) && forallb (λ s, s ≡? failed) l then "failed"
  else "partial".

Definition outcome_result (o : Outcome) : list (string * json) :=
  [("providers", JObj (dupdate [] ((λ s, (provider_str (sn_provider s), JStr (status_str (sn_status s)))) <$> oc_snapshots o)))].

(** [_sync_candidate_partitions] among what others commit. *)
Definition sync (first second : Meanwhile) (p : Platform) : Platform :=
  let '(d, h) := act digest24 ip_host (sv_db (pf_service p), pf_hydrated p) (SyncLoad first second) in
  with_pf_hydrated h (with_service (with_db d (pf_service p)) p).

(** The body of the [try]: the requests, the context, the refresh under its fence. *)
Definition run_body (id : string) (o : Op) (t : RunTimes) (p : Platform) : option Outcome * Platform :=
  let '(requests, k) := requests_from_operation o (pf_kms p) in
  let p := with_pf_kms k p in
  match requests with
  | None => (None, p)
  | Some requests =>
      match reconciliation_context ((λ r, a_provider (rr_adapter r)) <$> requests) CONTEXT_LIMIT (sv_db (pf_service p)) with
      | Err _ => (None, p)
      | Ok (identities, aliases) =>
          let fence k := {| fe_operation := id; fe_owner := worker; fe_now := rt_fence t k |} in
          let '(r, sv) := refresh digest24 ip_host uuid4 uuid5 (ps_max_staleness_hours st * 3600)%Q (rt_refresh t) requests identities
                            (Some aliases) (Some fence) (pf_service p) in
          (match r with Ok outcome => Some outcome | Err _ => None end, with_service sv p)
      end
  end.

(** [finish_inventory_refresh_execution] by this worker; the statuses it is given are valid. *)
Definition finish (id status : string) (result : list (string * json)) (error : option string) (now : Q) (p : Platform) : option Op * Platform :=
  match finish_execution id worker status result error now (pf_ops p) with
  | Ok (o, t) => (o, with_pf_ops t p)
  | Err _ => (None, p)
  end.

(** The [try] and its [except], up to the result in the ledger: the outcome when it was
    persisted. *)
Definition run_settle (id : string) (t : RunTimes) (p : Platform) : option Outcome * Platform :=
  let '(claimed, ops) := claim_execution id worker (rt_claim t) (rt_claim t + OPERATION_LEASE_S)%Q (pf_ops p) in
  let p := with_pf_ops ops p in
  match claimed with
  | None => (None, p)
  | Some o =>
      let '(out, p) := run_body id o t p in
      let p := with_pf_ops (history (rt_others t) (pf_ops p)) p in
      match out with
      | None => (None, (finish id "failed" [] (Some "inventory refresh failed") (rt_finish t) p).2)
      | Some outcome =>
          match finish id (outcome_status outcome) (outcome_result outcome) None (rt_finish t) p with
          | (None, p) => (None, p)
          | (Some _, p) => (Some outcome, p)
          end
      end
  end.

Definition run_refresh (id : string) (t : RunTimes) (p : Platform) : Platform :=
  match run_settle id t p with
  | (Some outcome, p) => if existsb (λ s, sn_status s ≡? success) (oc_snapshots outcome) then sync (rt_first t) (rt_second t) p else p
  | (None, p) => p
  end.
End run.

(** ** Life of the process *)

Section life.
Context `{Fernet}.
Context (digest24 : string → string) (ip_host : string → bool).

(** [_recover_operations] *)
Definition recover_operations (now : Q) (p : Platform) : Platform :=
  fold_left (λ p o, schedule_operation (op_id o) p) (recoverable now OPERATION_MAINTENANCE_BATCH (pf_ops p)) p.

(** [start], after the migrations. *)
Definition start (prune_now load_now recover_now : Q) (first second : Meanwhile) (p : Platform) : Platform :=
  let p := with_pf_ops (prune prune_now PRUNE_LIMIT (pf_ops p)).2 p in
  let p := with_pf_hydrated (hydrate load_now (sv_db (pf_service p)) false (pf_hydrated p)) p in
  recover_operations recover_now (sync digest24 ip_host first second p).

(** One tick of [_maintain_operations]. *)
Definition maintain (now recover_now : Q) (first second : Meanwhile) (p : Platform) : Platform :=
  let p := with_pf_ops (prune now OPERATION_MAINTENANCE_BATCH (pf_ops p)).2 p in
  sync digest24 ip_host first second (recover_operations recover_now p).

(** [close]: no task is left and nothing is scheduled any more. *)
Definition close (p : Platform) : Platform :=
  if pf_closed p then p
  else {| pf_service := pf_service p; pf_kms := pf_kms p; pf_hydrated := pf_hydrated p; pf_tasks := []; pf_closed := true; pf_uuids := pf_uuids p |}.
End life.

(** ** A run settles *)

Lemma with_ops_ok d t : db_ok d → ledger_ok t → db_ok (with_ops t d).
Proof. intros [D1 D2 D3 D4 D5 D6] Ht. split; try done. destruct D5. by split. Qed.

Section settles.
Context `{Fernet}.
Context (vault : Vault) (environ : Environ) (st : PlatformSettings) (adapters : list (ProviderName * Adapter)).
Context (digest24 : string → string) (ip_host : string → bool) (uuid4 : nat → string) (uuid5 : string → string).
Context (rd : KeyReader) (worker : string).
Notation body := (run_body vault environ st adapters digest24 ip_host uuid4 uuid5 rd worker).
Notation settle := (run_settle vault environ st adapters digest24 ip_host uuid4 uuid5 rd worker).

(** The body leaves the ledger alone. *)
Lemma run_body_ops id o t p : db_ok (sv_db (pf_service p)) → pf_ops (body id o t p).2 = pf_ops p.
Proof.
  intros Hd. unfold run_body. destruct (requests_from_operation _ _ _ _ _ o (pf_kms p)) as [ [requests|] k]; [|done].
  cbn [pf_service with_pf_kms]. destruct (reconciliation_context _ _ _) as [ [ids aliases]|e]; [|done].
  pose proof (refresh_ops digest24 ip_host uuid4 uuid5 (ps_max_staleness_hours st * 3600)%Q (rt_refresh t) requests ids (Some aliases)
                (Some (λ k, {| fe_operation := id; fe_owner := worker; fe_now := rt_fence t k |})) (pf_service p) Hd) as Ho.
  destruct (refresh _ _ _ _ _ _ _ _ _ _ _) as [r sv]. exact Ho.
Qed.

Lemma outcome_status_terminal o : ∃ s, dget OPERATION_STATUSES (outcome_status o) = Some s ∧ terminal s = true.
Proof. unfold outcome_status. destruct (_ && _); [by eexists|]. destruct (_ && _); by eexists. Qed.

(** The holder writes its result. *)
Lemma finish_held id o status s result error now p T :
  leased id worker T (pf_ops p) o → dget OPERATION_STATUSES status = Some s → terminal s = true →
  let o' := with_lease None None s now (with_result s result error now o) in
  finish worker id status result error now p = (Some o', with_pf_ops (dset (pf_ops p) id o') p).
Proof.
  intros [Hrow Hst Ho _] Hs Ht. unfold finish, finish_execution. rewrite Hs, Ht. unfold update_where. rewrite Hrow.
  unfold held_by. rewrite Hst, Ho. rewrite !bool_decide_eq_true_2 by done. done.
Qed.

(** The state after a run that was claimed: the body's, with the row of the result. *)
Lemma settle_spec id t p o ops :
  db_ok (sv_db (pf_service p)) →
  claim_execution id worker (rt_claim t) (rt_claim t + OPERATION_LEASE_S)%Q (pf_ops p) = (Some o, ops) →
  Forall (others_before id worker (rt_claim t + OPERATION_LEASE_S)%Q) (rt_others t) →
  let '(out, p2) := body id o t (with_pf_ops ops p) in
  ∃ s result error,
    settle id t p = (out, with_pf_ops (dset (history (rt_others t) ops) id
                                         (with_lease None None s (rt_finish t) (with_result s result error (rt_finish t) o))) p2)
    ∧ terminal s = true ∧ ledger_ok ops
    ∧ match out with
      | Some outcome => dget OPERATION_STATUSES (outcome_status outcome) = Some s ∧ result = outcome_result outcome ∧ error = None
      | None => s = Failed ∧ result = [] ∧ error = Some "inventory refresh failed"
      end.
Proof.
  intros Hd Hclaim Hothers. pose proof (claim_leased _ _ _ _ _ _ _ Hclaim) as Hl.
  assert (Hok : ledger_ok ops).
  { pose proof (apply_ok (pf_ops p) (Claim id worker (rt_claim t) (rt_claim t + OPERATION_LEASE_S)%Q) (dk_ops _ Hd)) as Ha.
    cbn [apply] in Ha. unfold pf_ops in *. by rewrite Hclaim in Ha. }
  pose proof (with_ops_ok _ _ Hd Hok : db_ok (sv_db (pf_service (with_pf_ops ops p)))) as Hd1.
  pose proof (run_body_ops id o t (with_pf_ops ops p) Hd1) as Hbody. unfold run_settle. rewrite Hclaim.
  destruct (body id o t (with_pf_ops ops p)) as [out p2]. cbn [fst snd] in *. rewrite Hbody. change (pf_ops (with_pf_ops ops p)) with ops.
  set (p3 := with_pf_ops (history (rt_others t) ops) p2).
  assert (Hl2 : leased id worker (rt_claim t + OPERATION_LEASE_S)%Q (pf_ops p3) o) by by apply leased_history.
  destruct out as [outcome|].
  - destruct (outcome_status_terminal outcome) as (s & Hs & Ht). rewrite (finish_held id o _ s _ _ _ p3 _ Hl2 Hs Ht).
    by exists s, (outcome_result outcome), None.
  - rewrite (finish_held id o "failed" Failed _ _ _ p3 _ Hl2 eq_refl eq_refl). by exists Failed, [], (Some "inventory refresh failed").
Qed.


(** ** A run reaches routing *)

(** A refresh is a sequence of calls on the store. *)
Lemma refresh_calls max t requests known approved fence sv :
  ∃ calls, sv_db (refresh digest24 ip_host uuid4 uuid5 max t requests known approved fence sv).2
           = fold_left (run_call digest24 ip_host) calls (sv_db sv).
Proof.
  unfold refresh. case_bool_decide; [|by exists []]. destruct (reconcile _ _ _ _ _) as [ids offers].
  assert ((ensure_identities ids (sv_db sv)).2 = fold_left (run_call digest24 ip_host) [EnsureIdentities ids] (sv_db sv)) as He by done.
  destruct (ensure_identities ids (sv_db sv)) as [ [n|e] d]; cbn [snd] in He; [|by exists [EnsureIdentities ids] ].
  destruct (latest_aliases _ _ _) as [latest|e]; [|by exists [EnsureIdentities ids] ].
  assert (∀ l k sv1, ∃ calls, sv_db (commit_all digest24 ip_host uuid4 uuid5 max t (reconciled_by_source offers) latest fence k l sv1).2
                              = fold_left (run_call digest24 ip_host) calls (sv_db sv1)) as Hall.
  { induction l as [|[r result] l IH]; intros k sv1; cbn [commit_all]; [by exists []|].
    set (f := match fence with Some f => Some (f k) | None => None end).
    assert (∃ calls, sv_db (commit_one digest24 ip_host uuid4 uuid5 max t (reconciled_by_source offers) latest f r result sv1).2
                     = fold_left (run_call digest24 ip_host) calls (sv_db sv1)) as [c1 H1].
    { unfold commit_one. destruct (snapshot_of _ _ _ _ _ _ _ _) as [s|e]; [|by exists []].
      destruct (alias_decisions_from _ _ _ _ _ _ _) as [ds|e]; [|by exists []]. cbn [sv_db next_uuid].
      exists [CommitReconciled (without_offers s) (sn_offers s) ds AUDIT_ACTOR f]. cbn [fold_left run_call]. by destruct (commit_reconciled _ _ _ _ _ _ _ _). }
    destruct (commit_one _ _ _ _ _ _ _ _ _ _ _ sv1) as [ [s|e] sv2]; cbn [snd] in H1; [|by exists c1].
    destruct (IH (S k) sv2) as [c2 H2]. destruct (commit_all _ _ _ _ _ _ _ _ _ _ l sv2) as [ [ss|e] sv3]; cbn [snd] in *;
      exists (c1 ++ c2); by rewrite fold_left_app, <- H1. }
  destruct (Hall (zip requests (discover <$> requests)) 0 (with_known (by_id ids (sv_known sv)) (with_db d sv))) as [calls Hc].
  cbn [sv_db with_known with_db] in Hc. exists ([EnsureIdentities ids] ++ calls). rewrite fold_left_app, <- He, <- Hc.
  by destruct (commit_all _ _ _ _ _ _ _ _ _ _ _ _) as [ [ss|e] sv2].
Qed.

Lemma dict_eqb_refl (a : list (Partition * string)) : NoDup (dkeys a) → dict_eqb a a = true.
Proof.
  intros Hnd. unfold dict_eqb. rewrite Nat.eqb_refl. apply forallb_forall. intros [k v] Hin. apply bool_decide_eq_true.
  apply elem_dget; [done|]. by apply list_elem_of_In.
Qed.

(** A turn with nobody else about: the index follows. *)
Lemma quiet_turn m d h :
  inventory_ok d → reflects h d → mw_before_fetch m = [] → mw_before_confirm m = [] → mw_current_read m = true → mw_current_end m = true →
  latest_revisions (mw_confirm_now m) d = latest_revisions (mw_now m) d →
  ∀ m2, ∃ h', act digest24 ip_host (d, h) (SyncLoad m m2) = (d, h') ∧ ∃ now, now ∈ [mw_now m; mw_confirm_now m] ∧ in_step h' now d.
Proof.
  intros Hd HR Hf Hc Hr He Hrev m2. cbn [act].
  assert (tn_fetch (turn_at digest24 ip_host m d) = d) as Hf' by (cbn; by rewrite Hf).
  assert (tn_confirm (turn_at digest24 ip_host m d) = d) as Hd' by (cbn; by rewrite Hf, Hc).
  assert (turn_ok (turn_at digest24 ip_host m d)) as Ht by (split; rewrite ?Hd', ?Hf'; done).
  pose proof (sync_turn_spec (turn_at digest24 ip_host m d) (next_generation h) Ht (reflects_generation h d HR)) as Hspec.
  destruct (sync_turn (turn_at digest24 ip_host m d) (next_generation h)) as [step h'] eqn:E. destruct Hspec as [_ Hstep].
  destruct step as [ []| |].
  - rewrite Hd' in *. exists h'. split; [done|]. exists (mw_confirm_now m). split; [right; left|apply Hstep].
  - rewrite Hd'. exists h'. split; [done|]. exists (mw_now m). split; [left|]. destruct Hstep as [-> Hin]. by apply Hin.
  - exfalso. unfold sync_turn in E. cbn [turn_at tn_current_read tn_now tn_read tn_confirm_now] in E. rewrite Hr in E. cbn [negb] in E.
    destruct (changed_keys _ _) eqn:E1, (removed_keys _ _) eqn:E2; try done;
      (rewrite Hd', Hrev, dict_eqb_refl in E by apply revisions_nodup; cbn [negb] in E; destruct (distribute _ _); [|done];
       cbn [turn_at tn_current_end] in E; by rewrite He in E).
  - done.
Qed.

(** The ledger is no part of the inventory. *)
Lemma with_ops_inventory t d : inventory_ok d → inventory_ok (with_ops t d).
Proof. intros []. by split. Qed.

Lemma with_ops_latest t d s : latest_success d s → latest_success (with_ops t d) s.
Proof. done. Qed.

Lemma with_ops_reflects t h d : reflects h d → reflects h (with_ops t d).
Proof. intros []. by split. Qed.

(** What a body that returned did: the refresh of the requests it found again. *)
Lemma run_body_spec id o t p outcome p2 requests k :
  requests_from_operation vault environ st adapters rd o (pf_kms p) = (Some requests, k) →
  body id o t p = (Some outcome, p2) →
  ∃ known approved fence sv,
    refresh digest24 ip_host uuid4 uuid5 (ps_max_staleness_hours st * 3600)%Q (rt_refresh t) requests known approved fence (pf_service p)
    = (Ok outcome, sv) ∧ p2 = with_service sv (with_pf_kms k p).
Proof.
  intros Hreq. unfold run_body. rewrite Hreq. cbn [pf_service with_pf_kms].
  destruct (reconciliation_context _ _ _) as [ [ids aliases]|e]; [|done].
  destruct (refresh _ _ _ _ _ _ _ _ _ _ _) as [ [oc|e] sv] eqn:E; [|done]. intros [= -> <-].
  by eexists _, _, _, sv.
Qed.

Lemma success_discovered t requests known approved fence sv outcome sv' max r :
  db_ok (sv_db sv) → refresh digest24 ip_host uuid4 uuid5 max t requests known approved fence sv = (Ok outcome, sv') →
  r ∈ requests → dr_status (discover r) = success → existsb (λ s, sn_status s ≡? success) (oc_snapshots outcome) = true.
Proof.
  intros Hd Href Hr Hst. destruct (refresh_spec _ _ _ _ _ _ _ _ _ _ _ _ _ Hd Href) as (_ & HF & _).
  apply list_elem_of_lookup in Hr as [i Hi]. destruct (Forall2_lookup_l _ _ _ _ _ HF Hi) as (s & Hs & Hp).
  apply existsb_exists. exists s. split; [apply list_elem_of_In; by eapply list_elem_of_lookup_2|]. apply bool_decide_eq_true.
  by rewrite <- Hst; apply Hp.
Qed.

(** C22: a refresh reaches routing. When a scheduled run is claimed, keeps its lease and its
    refresh returns, then after the incremental load that follows, the index that candidates are
    chosen from holds, for every provider and scope discovered with success, exactly the models the
    provider listed: none is missing and none is left over from an earlier listing.  It is so
    provided that the store's rows are well formed, that the index reflected the store before the
    run, that every snapshot stored before was completed strictly earlier than this refresh
    completes, that the load is quiet (nobody writes between its reads, its reads succeed) and that
    it happens before the new snapshots expire. *)
Theorem refresh_reaches_routing id t p o ops outcome requests k r u :
  db_ok (sv_db (pf_service p)) → reflects (pf_hydrated p) (sv_db (pf_service p)) →
  (∀ i v, dget (db_snapshots (sv_db (pf_service p))) i = Some v → (sn_completed_at v < tm_completed (rt_refresh t))%Q) →
  claim_execution id worker (rt_claim t) (rt_claim t + OPERATION_LEASE_S)%Q (pf_ops p) = (Some o, ops) →
  Forall (others_before id worker (rt_claim t + OPERATION_LEASE_S)%Q) (rt_others t) →
  requests_from_operation vault environ st adapters rd o (pf_kms p) = (Some requests, k) →
  (settle id t p).1 = Some outcome →
  let m := rt_first t in
  let settled := sv_db (pf_service (settle id t p).2) in
  mw_before_fetch m = [] → mw_before_confirm m = [] → mw_current_read m = true → mw_current_end m = true →
  latest_revisions (mw_confirm_now m) settled = latest_revisions (mw_now m) settled →
  (∀ now, now ∈ [mw_now m; mw_confirm_now m] → now < tm_completed (rt_refresh t) + ps_max_staleness_hours st * 3600)%Q →
  r ∈ requests → dr_status (discover r) = success →
  u ∈ do_upstream <$> dr_offers (discover r)
  ↔ ∃ c, c ∈ hy_catalog (pf_hydrated (run_refresh vault environ st adapters digest24 ip_host uuid4 uuid5 rd worker id t p))
         ∧ partition_key c = (a_provider (rr_adapter r), dc_scope (rr_config r)) ∧ upstream_model_id c = u.
Proof.
  intros Hd HR Hold Hclaim Hothers Hreq Hrun m settled Hf Hc Hcr Hce Hrev Hnow Hr Hst.
  pose proof (settle_spec id t p o ops Hd Hclaim Hothers) as Hs.
  destruct (body id o t (with_pf_ops ops p)) as [out p2] eqn:Hb. destruct Hs as (s & result & error & Hset & _ & Hok & _).
  subst settled. unfold run_refresh in *. rewrite Hset in *. cbn [fst snd] in Hrun, Hrev. subst out.
  destruct (run_body_spec id o t (with_pf_ops ops p) outcome p2 requests k Hreq Hb) as (known & approved & fence & sv & Href & ->).
  assert (Hd1 : db_ok (sv_db (pf_service (with_pf_ops ops p)))) by (by apply with_ops_ok).
  rewrite (success_discovered _ _ _ _ _ _ _ _ _ r Hd1 Href Hr Hst).
  destruct (refresh_latest _ _ _ _ _ _ _ _ _ _ _ _ _ r Hd1 Hold Href Hr Hst) as (Hinv & row & Hl & Hpart & Hexp & Hall).
  unfold sync in *. cbn [pf_service pf_hydrated with_pf_ops with_service with_pf_kms sv_db with_db] in *.
  match goal with |- context [act _ _ (?d, ?h) _] => set (d' := d) in *; set (h0 := h) in * end.
  assert (Hinv' : inventory_ok d') by (by apply with_ops_inventory).
  assert (HR' : reflects h0 d').
  { apply with_ops_reflects. destruct (refresh_calls (ps_max_staleness_hours st * 3600) (rt_refresh t) requests known approved fence
      (with_db (with_ops ops (sv_db (pf_service p))) (pf_service p)))
      as [calls Hcalls]. rewrite Href in Hcalls. cbn [snd] in Hcalls. rewrite Hcalls. eapply reflects_grows; [|by apply calls_grow].
    by apply with_ops_reflects. }
  fold m. destruct (quiet_turn m d' h0 Hinv' HR' Hf Hc Hcr Hce Hrev (rt_second t)) as (h' & -> & now & Hin & [Hstep _]).
  cbn [pf_hydrated with_pf_hydrated]. rewrite Hall.
  assert (Hl' : latest_success d' row) by (by apply with_ops_latest).
  assert (now < sn_expires_at row)%Q as Hn by (rewrite Hexp; by apply Hnow).
  etransitivity; [exact (latest_routes d' row _ now u Hinv' Hl' Hpart Hn)|].
  setoid_rewrite Hstep. setoid_rewrite elem_of_scope_candidates; [|done]. setoid_rewrite elem_of_all_candidates; [|done].
  unfold partition_key. split; intros (c & H1 & H2).
  - destruct H1 as [H1 H3%list_elem_of_singleton]. by exists c.
  - destruct H2 as [H2 H3]. exists c. split; [split; [done|]|done]. rewrite H2. left.
Qed.
End settles.

(** ** A stored plan is recovered *)

Lemma two_providers (l : list ProviderName) :
  NoDup l → l ≠ [] → l ∈ [ [openrouter]; [fireworks]; [openrouter; fireworks]; [fireworks; openrouter] ].
Proof.
  intros Hnd Hne. destruct l as [|x [|y [|z l] ] ]; [done|destruct x; repeat (first [by left | right])|..];
    apply NoDup_cons in Hnd as [Hx Hnd].
  - destruct x, y; repeat (first [by left | right]); by exfalso; apply Hx; left.
  - exfalso. apply NoDup_cons in Hnd as [Hy _]. apply not_elem_of_cons in Hx as [H1 [H2 _]%not_elem_of_cons].
    apply not_elem_of_cons in Hy as [H3 _]. destruct x, y, z; congruence.
Qed.

Lemma providers_named (ps : list ProviderName) : map_option provider_named (map stored_json (JStr ∘ provider_str <$> ps)) = Some ps.
Proof. induction ps as [|p ps IH]; [done|]. cbn [fmap list_fmap map map_option]. rewrite IH. by destruct p. Qed.

Lemma plan_of_parts d ps target expected :
  ps ≠ [] → map_option (scope_in d) ps = Some expected →
  plan_of [("provider_scopes", JObj d); ("providers", JList (map stored_json (JStr ∘ provider_str <$> ps))); ("target_user_id", opt_str target)]
  = Some (ps, target, expected).
Proof.
  intros Hne Hs. pose proof (providers_named ps) as Hn. destruct ps as [|p ps]; [done|]. cbn [fmap list_fmap map] in *.
  transitivity (match map_option provider_named (stored_json ((JStr ∘ provider_str) p) :: map stored_json ((JStr ∘ provider_str) <$> ps)) with
                | None => None
                | Some providers => match map_option (scope_in d) providers with
                                    | None => None
                                    | Some expected => Some (providers, match opt_str target with JStr u => Some u | _ => None end, expected)
                                    end
                end); [reflexivity|]. rewrite Hn, Hs. by destruct target.
Qed.

(** What [plan_of] reads of what [durable_plan] wrote. *)
Lemma plan_of_durable plan :
  NoDup (it_providers (cp_intent plan)) → it_providers (cp_intent plan) ≠ [] →
  (cp_scopes plan).*1 = it_providers (cp_intent plan) → Forall (λ ps, check_scope ps.2 = true) (cp_scopes plan) →
  plan_of (stored_dict (durable_plan plan)) = Some (it_providers (cp_intent plan), cp_target plan, cp_scopes plan).
Proof.
  intros Hnd Hne Hfst Hok. unfold durable_plan. pose proof (two_providers _ Hnd Hne) as Hin. rewrite <- Hfst in *.
  destruct plan as [pid i actor target scopes fp rs]. cbn [cp_scopes cp_target cp_intent] in *. clear Hfst Hnd.
  assert (∀ s, check_scope s = true → scope_of_json (stored_json (scope_json s)) = Some s) as Hs.
  { intros [k s] Hc%negb_true_iff. cbn [scope_id] in Hc.
    transitivity (if s ≡? "" then None else Some {| kind := k; scope_id := s |}); [by destruct k|by rewrite Hc]. }
  assert (∀ ps d, stored_json (scopes_json scopes) = JObj d →
            stored_dict [("providers", JList ps); ("target_user_id", opt_str target); ("provider_scopes", scopes_json scopes)]
            = [("provider_scopes", JObj d); ("providers", JList (map stored_json ps)); ("target_user_id", opt_str target)]) as Hstored.
  { intros ps d E. unfold stored_dict. cbn [stored_json map fst snd]. rewrite E. by destruct target. }
  assert (∀ d, stored_json (scopes_json scopes) = JObj d → map_option (scope_in d) scopes.*1 = Some scopes →
            plan_of (stored_dict [("providers", JList (JStr ∘ provider_str <$> scopes.*1)); ("target_user_id", opt_str target);
                                  ("provider_scopes", scopes_json scopes)]) = Some (scopes.*1, target, scopes)) as Hplan.
  { intros d E Hd. rewrite (Hstored _ d E). by apply plan_of_parts. }
  destruct scopes as [|[p1 s1] [|[p2 s2] [|x l] ] ]; [done|..|exfalso; set_solver].
  - apply Forall_cons in Hok as [H _]. cbn [snd] in H. apply Hs in H. apply (Hplan [(provider_str p1, stored_json (scope_json s1))]).
    + by destruct p1.
    + cbn [fmap list_fmap map_option fst]. unfold scope_in. cbn [dget fst snd]. by rewrite decide_True, H by done.
  - apply Forall_cons in Hok as [Ha Hok]. apply Forall_cons in Hok as [Hb _]. cbn [snd] in Ha, Hb. apply Hs in Ha, Hb.
    destruct p1, p2; [exfalso; set_solver|..|exfalso; set_solver].
    + apply (Hplan [("fireworks", stored_json (scope_json s2)); ("openrouter", stored_json (scope_json s1))]); [done|].
      cbn [fmap list_fmap map_option fst]. unfold scope_in. cbn [dget fst snd provider_str]. by rewrite (decide_False (P := "openrouter" = "fireworks")), !decide_True, Ha, Hb by done.
    + apply (Hplan [("fireworks", stored_json (scope_json s1)); ("openrouter", stored_json (scope_json s2))]); [done|].
      cbn [fmap list_fmap map_option fst]. unfold scope_in. cbn [dget fst snd provider_str]. by rewrite (decide_False (P := "openrouter" = "fireworks")), !decide_True, Ha, Hb by done.
Qed.

Section recovered.
Context `{Fernet}.
Context (vault : Vault) (environ : Environ) (st : PlatformSettings) (adapters : list (ProviderName * Adapter)).
Context (hexdigest : string → string) (uuid4 : nat → string) (auth : AuthReader).

(** A credential comes from the platform, or from the owner it was looked up for. *)
Lemma resolved_scope rd user org providers k sel p x :
  reader_ok rd → (∀ q, q ∈ the_requested providers → dmem PROVIDERS q = true) →
  (resolve_provider_credentials vault (ps_kms st) environ rd user providers org k).1 = Ok sel → dget sel p = Some x →
  x.2 = platform_scope ∨ (∃ u, user = Some u ∧ x.2 = user_scope_of u) ∨ (∃ o, org = Some o ∧ x.2 = org_scope o).
Proof.
  intros Hrd Hk Hr Hx. pose proof (resolve_spec vault (ps_kms st) environ rd user org providers k Hrd Hk) as Hs. cbv zeta in Hs. rewrite Hr in Hs.
  destruct (encrypted_rows rd user org); [|done]. destruct Hs as [_ Hs]. rewrite Hs in Hx. case_bool_decide; [|done].
  unfold choice in Hx. destruct (the_row rd user org p) as [r|] eqn:Er.
  - unfold opened in Hx. destruct (_ || _); [done|]. destruct (nonempty _); [|done]. injection Hx as <-. cbn [snd].
    unfold the_row, row_in in Er. right.
    destruct user as [u|]; [destruct (rd_user rd u) as [m|]; [destruct (dget m p); [injection Er as <-; left; by exists u|]|]|];
      (destruct org as [o|]; [|done]; destruct (rd_org rd o) as [m'|]; [|done]; destruct (dget m' p); [injection Er as <-; right; by exists o|done]).
  - left. unfold platform_key in Hx. destruct (dget PROVIDERS p); [|done]. destruct (nonempty _); [|done]. by injection Hx as <-.
Qed.

(** What compiling a provider gives. *)
Lemma compile_one_spec scope sel p out :
  compile_one st adapters scope sel p = Ok out →
  ∃ credential s adapter c, dget sel (provider_str p) = Some (credential, s) ∧ dget adapters p = Some adapter ∧ discovery_config st p s = Some c
  ∧ out = (p, s, {| rr_adapter := adapter; rr_credential := credential; rr_config := c |})
  ∧ match wanted_kind scope with Some (k, _) => kind s = k | None => True end.
Proof.
  unfold compile_one. destruct (dget sel _) as [ [credential s]|]; [|done].
  assert (match wanted_kind scope with Some (k, name) => if kind s ≡? k then None else Some name | None => None end = None →
          match wanted_kind scope with Some (k, _) => kind s = k | None => True end) as Hw.
  { destruct (wanted_kind scope) as [ [k name]|]; [|done]. by case_bool_decide. }
  destruct (match wanted_kind scope with _ => _ end) as [name|]; [done|].
  destruct (dget adapters p) as [adapter|]; [|done]. destruct (discovery_config st p s) as [c|] eqn:Ec; [|done].
  intros [= <-]. exists credential, s, adapter, c. split_and!; [done|done|done|done|exact (Hw eq_refl)].
Qed.

Lemma discovery_scope p s c : discovery_config st p s = Some c → dc_scope c = s ∧ check_scope s = true.
Proof.
  unfold discovery_config. destruct p; [|destruct (kind s)];
    (match goal with |- (if check_config ?c then _ else _) = _ → _ => destruct (check_config c) eqn:E end; [|done]);
    intros [= <-]; apply andb_true_iff in E as [E _]; done.
Qed.

Lemma provider_known p : dmem PROVIDERS (provider_str p) = true.
Proof. by destruct p. Qed.

Notation resolved rd scope target ps k :=
  (resolve_provider_credentials vault (ps_kms st) environ rd (resolve_owners scope target).1 (provider_str <$> ps) (resolve_owners scope target).2 k).

Lemma compile_spec rd closed i a n k plan k' :
  compile vault environ st adapters hexdigest uuid4 auth rd closed i a n k = (Ok plan, k') →
  ∃ sel compiled, cp_intent plan = i ∧ (resolved rd (it_scope i) (cp_target plan) (it_providers i) k).1 = Ok sel
  ∧ Forall2 (λ p out, compile_one st adapters (it_scope i) sel p = Ok out) (it_providers i) compiled
  ∧ cp_scopes plan = fst <$> compiled ∧ cp_requests plan = snd <$> compiled.
Proof.
  unfold compile. destruct closed; [done|]. destruct (authorize_scope _ _ _ _ _) as [target|e]; [|done].
  destruct (resolve_owners (it_scope i) target) as [user org] eqn:Eo.
  destruct (resolve_provider_credentials _ _ _ _ _ _ _ _) as [ [sel|[ps rs sel|q] ] k1] eqn:Er; [|done|done].
  destruct (map_res _ _) as [compiled|e] eqn:Em; [|done]. cbn [res_bind]. intros [= <- <-].
  exists sel, compiled. cbn [cp_intent cp_target cp_scopes cp_requests]. rewrite Eo. cbn [fst snd]. rewrite Er. split_and!; try done.
  by apply map_res_forall.
Qed.

Lemma compiled_scopes scope sel ps compiled :
  Forall2 (λ p out, compile_one st adapters scope sel p = Ok out) ps compiled →
  (fst <$> compiled).*1 = ps ∧ Forall (λ x, check_scope x.2 = true) (fst <$> compiled)
  ∧ Forall (λ x, ∃ credential, dget sel (provider_str x.1) = Some (credential, x.2)
                 ∧ match wanted_kind scope with Some (k, _) => kind x.2 = k | None => True end) (fst <$> compiled).
Proof.
  induction 1 as [|p out ps compiled Hc _ (IH1 & IH2 & IH3)]; [done|].
  apply compile_one_spec in Hc as (credential & s & adapter & c & Hsel & _ & Hconf & -> & Hw).
  apply discovery_scope in Hconf as [_ Hs]. cbn [fmap list_fmap fst]. rewrite IH1. split_and!; [done|by constructor|constructor; [|done]; by exists credential].
Qed.

(** The owners that are read off the stored scopes are those the plan was compiled for. *)
Lemma owners_again rd i plan k sel compiled :
  reader_ok rd → it_providers i ≠ [] → cp_scopes plan = fst <$> compiled →
  (resolved rd (it_scope i) (cp_target plan) (it_providers i) k).1 = Ok sel →
  Forall2 (λ p out, compile_one st adapters (it_scope i) sel p = Ok out) (it_providers i) compiled →
  let org := match List.filter (λ ps : Partition, kind ps.2 ≡? organization) (cp_scopes plan) with ps :: _ => Some (scope_id ps.2) | [] => None end in
  (match org with Some _ => None | None => cp_target plan end, org) = resolve_owners (it_scope i) (cp_target plan).
Proof.
  intros Hrd Hne Hsc Hres HF. destruct (compiled_scopes _ _ _ _ HF) as (H1 & _ & H3). rewrite <- Hsc in H1, H3.
  assert (Hk : ∀ q, q ∈ the_requested (provider_str <$> it_providers i) → dmem PROVIDERS q = true).
  { intros q Hq. unfold the_requested in Hq. destruct (provider_str <$> it_providers i) eqn:E; [by destruct (it_providers i)|].
    rewrite <- E in Hq. apply list_elem_of_fmap in Hq as (p & -> & _). apply provider_known. }
  assert (Hwhere : ∀ x, x ∈ cp_scopes plan → x.2 = platform_scope
             ∨ (∃ u, (resolve_owners (it_scope i) (cp_target plan)).1 = Some u ∧ x.2 = user_scope_of u)
             ∨ (∃ o, (resolve_owners (it_scope i) (cp_target plan)).2 = Some o ∧ x.2 = org_scope o)).
  { intros x Hx. rewrite Forall_forall in H3. destruct (H3 x Hx) as (credential & Hsel & _).
    exact (resolved_scope rd _ _ _ k sel _ _ Hrd Hk Hres Hsel). }
  assert (Hnone : it_scope i ≠ SOrganization → List.filter (λ ps : Partition, kind ps.2 ≡? organization) (cp_scopes plan) = []).
  { intros Hn. assert ((resolve_owners (it_scope i) (cp_target plan)).2 = None) as Eo by by destruct (it_scope i).
    destruct (List.filter _ _) as [|x l] eqn:E; [done|]. exfalso.
    assert (x ∈ List.filter (λ ps : Partition, kind ps.2 ≡? organization) (cp_scopes plan)) as Hx by (rewrite E; left).
    apply elem_of_filter_In in Hx as [Hx Hkind%bool_decide_eq_true].
    destruct (Hwhere x Hx) as [Ex|[(u & _ & Ex)|(o & Ho & _)] ]; [by rewrite Ex in Hkind..|congruence]. }
  destruct (decide (it_scope i = SOrganization)) as [Es|Hn].
  - rewrite Es in *. cbn [wanted_kind resolve_owners fst snd] in *. destruct (cp_scopes plan) as [|x l]; [by rewrite <- H1 in Hne|].
    apply Forall_cons in H3 as [(credential & _ & Hx) _]. cbn [List.filter]. rewrite Hx, bool_decide_eq_true_2 by done.
    destruct (Hwhere x ltac:(left)) as [Ex|[(u & ? & _)|(o & -> & ->)] ]; [by rewrite Ex in Hx|done|done].
  - cbv zeta. rewrite Hnone by done. by destruct (it_scope i).
Qed.

Lemma requests_again expected sel scope ps compiled :
  NoDup (dkeys expected) → Forall2 (λ p out, compile_one st adapters scope sel p = Ok out) ps compiled → (fst <$> compiled) ⊆ expected →
  map_option (request_again st adapters expected sel) ps = Some (snd <$> compiled).
Proof.
  intros Hnd HF. induction HF as [|p out ps compiled Hc _ IH]; intros Hsub; [done|].
  apply compile_one_spec in Hc as (credential & s & adapter & c & Hsel & Ha & Hconf & -> & _). cbn [map_option fmap list_fmap fst snd] in *.
  rewrite IH by (intros x Hx; apply Hsub; by right). unfold request_again.
  assert (dget expected p = Some s) as Hs by (apply elem_dget; [done|apply Hsub; left]).
  rewrite Hsel, Hs, Ha, Hconf. by rewrite bool_decide_eq_true_2.
Qed.

Lemma again_scopes expected selected requests :
  NoDup (dkeys expected) → map_option (request_again st adapters expected selected) expected.*1 = Some requests →
  (λ r, dc_scope (rr_config r)) <$> requests = snd <$> expected.
Proof.
  intros Hnd. assert (∀ l requests, l ⊆ expected → map_option (request_again st adapters expected selected) l.*1 = Some requests →
    (λ r, dc_scope (rr_config r)) <$> requests = snd <$> l) as H'; [|by apply H'].
  clear requests. induction l as [|[p s] l IH]; intros requests Hsub; cbn [fmap list_fmap map_option fst snd]; [by intros [= <-]|].
  assert (dget expected p = Some s) as Hs by (apply elem_dget; [done|apply Hsub; left]).
  unfold request_again at 1. rewrite Hs. destruct (dget selected _) as [ [credential s']|]; [|done]. destruct (dget adapters p); [|done].
  case_bool_decide as E; [|done]. subst s'. destruct (discovery_config st p s) as [c|] eqn:Ec; [|done].
  destruct (map_option _ _) as [rest|] eqn:Er; [|done]. intros [= <-]. cbn [fmap list_fmap rr_config].
  f_equal; [exact (proj1 (discovery_scope _ _ _ Ec))|]. apply IH; [|done]. intros x Hx. apply Hsub. by right.
Qed.

(** an operation outlives the process that compiled it. Its stored plan names the providers
    and the scopes of the credentials it was compiled with, and a later process that finds them
    resolved to the same credentials rebuilds exactly the requests that were compiled; whatever
    keys it finds, every request it rebuilds is for its provider's stored scope: a run never
    uses another owner's credential than the one that was authorised. *)
Theorem plan_survives_restart rd closed i a n k plan k' o :
  check_intent i = true → reader_ok rd →
  compile vault environ st adapters hexdigest uuid4 auth rd closed i a n k = (Ok plan, k') →
  op_plan o = stored_dict (durable_plan plan) →
  (∀ rd2 k2, (resolved rd2 (it_scope i) (cp_target plan) (it_providers i) k2).1 = (resolved rd (it_scope i) (cp_target plan) (it_providers i) k).1 →
     (requests_from_operation vault environ st adapters rd2 o k2).1 = Some (cp_requests plan))
  ∧ ∀ rd2 k2 requests, (requests_from_operation vault environ st adapters rd2 o k2).1 = Some requests →
     (λ r, dc_scope (rr_config r)) <$> requests = snd <$> cp_scopes plan.
Proof.
  intros Hi Hrd Hcomp Hplan. apply compile_spec in Hcomp as (sel & compiled & Hin & Hres & HF & Hsc & Hrq).
  destruct (compiled_scopes _ _ _ _ HF) as (Hfst & Hok & Hsel). unfold check_intent in Hi. apply andb_true_iff in Hi as [Hi _].
  apply andb_true_iff in Hi as [Hne%negb_true_iff%bool_decide_eq_false Hnd%bool_decide_eq_true].
  pose proof (owners_again rd i plan k sel compiled Hrd Hne Hsc Hres HF) as Hown. cbv zeta in Hown.
  rewrite <- Hsc in Hfst, Hok, Hsel.
  assert (plan_of (op_plan o) = Some (it_providers i, cp_target plan, cp_scopes plan)) as Hp.
  { rewrite Hplan, <- Hin. apply plan_of_durable; rewrite ?Hin; done. }
  assert (Hreq : ∀ rd2 k2, requests_from_operation vault environ st adapters rd2 o k2 =
     match resolved rd2 (it_scope i) (cp_target plan) (it_providers i) k2 with
     | (Ok selected, k) => (map_option (request_again st adapters (cp_scopes plan) selected) (it_providers i), k)
     | (Err _, k) => (None, k)
     end).
  { intros rd2 k2. unfold requests_from_operation. rewrite Hp, <- Hown. done. }
  split.
  - intros rd2 k2 Hsame. rewrite Hreq. rewrite Hres in Hsame. revert Hsame.
    destruct (resolved rd2 (it_scope i) (cp_target plan) (it_providers i) k2) as [r2 k3]. cbn [fst]. intros ->. cbn [fst].
    rewrite Hrq. apply (requests_again _ _ (it_scope i)); [unfold dkeys; by rewrite Hfst|done|by rewrite <- Hsc].
  - intros rd2 k2 requests. rewrite Hreq.
    destruct (resolved rd2 (it_scope i) (cp_target plan) (it_providers i) k2) as [ [selected|e] k3]; [|done].
    cbn [fst]. rewrite <- Hfst in Hnd |- *. intros Hr. by apply (again_scopes (cp_scopes plan) selected).
Qed.
End recovered.

(** ** What submitting does *)

Lemma with_pf_ops_ok e p : db_ok (sv_db (pf_service p)) → db_ok (sv_db (pf_service (with_pf_ops (apply (pf_ops p) e) p))).
Proof. intros Hd. apply with_ops_ok; [done|]. apply apply_ok, Hd. Qed.

Lemma schedule_service id p : pf_service (schedule_operation id p) = pf_service p.
Proof. unfold schedule_operation. by destruct (_ || _). Qed.

Lemma submit_ok uuid4 plan a key now p : db_ok (sv_db (pf_service p)) → db_ok (sv_db (pf_service (submit uuid4 plan a key now p).2)).
Proof.
  intros Hd. unfold submit. destruct (pf_closed p); [done|]. destruct (negb _); [done|]. destruct (_ || _); [done|].
  pose proof (with_pf_ops_ok (Prune now PRUNE_LIMIT) p Hd) as Hp. cbn [apply] in Hp.
  match goal with |- context [claim_operation ?r _] => set (rq := r) end. set (p1 := next_pf_uuid (with_pf_ops _ _)).
  pose proof (with_pf_ops_ok (Submit rq) p1 Hp) as Hs. cbn [apply] in Hs.
  destruct (claim_operation rq (pf_ops p1)) as [ [ [created o] t]|e]; [|done]. cbn [snd].
  by destruct (_ && _); rewrite ?schedule_service.
Qed.

(** An accepted submission is in the ledger, and unless it has come to an end it has a task. *)
Lemma submit_scheduled uuid4 plan a key now p ref p' :
  ledger_ok (pf_ops p) → submit uuid4 plan a key now p = (Ok ref, p') →
  ∃ o, get_operation (or_operation_id ref) (pf_ops p') = Some o ∧ ref = operation_ref o ∧ (terminal (op_status o) = false → op_id o ∈ pf_tasks p').
Proof.
  intros Hok. unfold submit. destruct (pf_closed p) eqn:Ec; [done|]. destruct (negb _); [done|]. destruct (_ || _); [done|].
  match goal with |- context [claim_operation ?r _] => set (rq := r) end. set (p1 := next_pf_uuid (with_pf_ops _ _)).
  assert (Hok1 : ledger_ok (pf_ops p1)) by exact (apply_ok (pf_ops p) (Prune now PRUNE_LIMIT) Hok).
  destruct (claim_operation rq (pf_ops p1)) as [ [ [created o] t]|e] eqn:E; [|done]. intros [= <- <-].
  destruct (claim_operation_row _ _ _ _ _ Hok1 E) as (_ & Ho & _). exists o. cbn [or_operation_id operation_ref].
  set (p2 := with_pf_ops t p1). assert (pf_ops p2 = t) as E2 by done.
  assert (∀ b : bool, pf_ops (if b then schedule_operation (op_id o) p2 else p2) = t) as -> by (intros [|]; unfold pf_ops; by rewrite ?schedule_service).
  split_and!; [done|done|]. intros Ht. rewrite Ht, orb_true_r, andb_true_l.
  change (pf_tasks p) with (pf_tasks p2).
  destruct (bool_decide_reflect (op_id o ∈ pf_tasks p2)) as [Hin|Hn]; cbn [negb]; [done|].
  unfold schedule_operation. change (pf_closed p2) with (pf_closed p). rewrite Ec, bool_decide_eq_false_2 by done. cbn [orb with_tasks pf_tasks].
  apply elem_of_app. right. left.
Qed.

(** ** An operation from the intent to the index *)

#[local] Existing Instance demo_fernet.

Definition demo_platform_settings : PlatformSettings :=
  {| ps_kms := demo_settings "s1" ""; ps_fireworks_account := ""; ps_fireworks_deployments := false; ps_max_staleness_hours := 24 |}.
Definition demo_adapters : list (ProviderName * Adapter) :=
  [(openrouter, {| a_provider := openrouter; a_revision := "openrouter-user-models-v1"; a_discover := λ _ _, Ok (discover demo_request) |})].
Definition demo_intent : InventoryRefreshIntent := {| it_providers := [openrouter]; it_scope := SPlatform; it_user_id := None; it_org_id := None |}.
Definition demo_operator : PlatformActor :=
  {| pa_actor_id := "operator"; pa_user_id := None; pa_org_id := None; pa_role := None; pa_is_operator := true; pa_kind := "operator" |}.
Definition demo_auth : AuthReader := {| au_user := λ _, true; au_membership := λ _, None |}.
Definition demo_platform : Platform :=
  {| pf_service := new_service; pf_kms := demo_kms; pf_hydrated := new_hydrated; pf_tasks := []; pf_closed := false; pf_uuids := 0 |}.

Definition demo_compiled : res PlatformError CompiledInventoryPlan * Kms :=
  compile demo_vault demo_environ demo_platform_settings demo_adapters (λ s, s) str_of_nat demo_auth (reader_of no_keys) false demo_intent demo_operator 0
    demo_kms.

Definition demo_submitted : Platform :=
  match demo_compiled with
  | (Ok plan, _) => (submit str_of_nat plan demo_operator "k1" 1 demo_platform).2
  | _ => demo_platform
  end.

Definition quiet (now : Q) : Meanwhile :=
  {| mw_now := now; mw_before_fetch := []; mw_before_confirm := []; mw_confirm_now := now; mw_current_read := true; mw_current_end := true |}.
Definition demo_run : RunTimes :=
  {| rt_claim := 2; rt_refresh := demo_times; rt_fence := λ _, 11%Q; rt_others := [Claim "op_0" "other" 20 80]; rt_finish := 12; rt_first := quiet 13;
     rt_second := quiet 14 |}.

Lemma demo_claimed : ∃ o ops requests k outcome,
  claim_execution "op_0" "w" 2 (2 + OPERATION_LEASE_S)%Q (pf_ops demo_submitted) = (Some o, ops)
  ∧ requests_from_operation demo_vault demo_environ demo_platform_settings demo_adapters (reader_of no_keys) o (pf_kms demo_submitted) = (Some requests, k)
  ∧ (λ r, (dr_status (discover r), do_upstream <$> dr_offers (discover r))) <$> requests = [(success, ["a/m"])]
  ∧ (run_settle demo_vault demo_environ demo_platform_settings demo_adapters (λ s, s) demo_ip str_of_nat (λ s, s) (reader_of no_keys) "w" "op_0" demo_run
       demo_submitted).1 = Some outcome.
Proof. eexists _, _, _, _, _. split_and!; [vm_compute; reflexivity..]. Qed.

Lemma demo_submitted_ok : db_ok (sv_db (pf_service demo_submitted)).
Proof.
  unfold demo_submitted. destruct demo_compiled as [ [plan|e] k]; [|exact db_ok_new]. exact (submit_ok str_of_nat plan demo_operator "k1" 1 demo_platform db_ok_new).
Qed.

Lemma demo_others_before : Forall (others_before "op_0" "w" (2 + OPERATION_LEASE_S)%Q) (rt_others demo_run).
Proof. repeat constructor. Qed.

Lemma demo_start : pf_hydrated demo_submitted = new_hydrated ∧ db_snapshots (sv_db (pf_service demo_submitted)) = [].
Proof. split; vm_compute; reflexivity. Qed.

Lemma demo_reflects : reflects (pf_hydrated demo_submitted) (sv_db (pf_service demo_submitted)).
Proof. rewrite (proj1 demo_start). apply reflects_new. Qed.

Lemma demo_older i v : dget (db_snapshots (sv_db (pf_service demo_submitted))) i = Some v → (sn_completed_at v < tm_completed (rt_refresh demo_run))%Q.
Proof. by rewrite (proj2 demo_start). Qed.

Lemma demo_fresh now : now ∈ [mw_now (rt_first demo_run); mw_confirm_now (rt_first demo_run)] →
  (now < tm_completed (rt_refresh demo_run) + ps_max_staleness_hours demo_platform_settings * 3600)%Q.
Proof. intros [->|[->|?%elem_of_nil]%elem_of_cons]%elem_of_cons; [reflexivity..|done]. Qed.


Lemma refresh_reaches_routing_witness : ∃ c, c ∈ hy_catalog (pf_hydrated
    (run_refresh demo_vault demo_environ demo_platform_settings demo_adapters (λ s, s) demo_ip str_of_nat (λ s, s) (reader_of no_keys) "w" "op_0"
       demo_run demo_submitted)) ∧ upstream_model_id c = "a/m".
Proof.
  destruct demo_claimed as (o & ops & requests & k & outcome & Hc & Hr & Hd & Ho).
  destruct requests as [|r [|r2 requests] ]; [discriminate Hd| |discriminate Hd]. injection Hd as Hst Hup.
  destruct (proj1 (refresh_reaches_routing demo_vault demo_environ demo_platform_settings demo_adapters (λ s, s) demo_ip str_of_nat (λ s, s)
              (reader_of no_keys) "w" "op_0" demo_run demo_submitted o ops outcome [r] k r "a/m" demo_submitted_ok demo_reflects
              demo_older Hc demo_others_before Hr Ho eq_refl eq_refl eq_refl eq_refl (f_equal (λ q, latest_revisions q _) eq_refl) demo_fresh
              ltac:(left) Hst)) as (c & H1 & _ & H2).
  - rewrite Hup. left.
  - exists c. split; [exact H1|exact H2].
Defined.

Lemma plan_survives_restart_witness :
  match demo_compiled.1 with
  | Ok plan => ∃ o, (requests_from_operation demo_vault demo_environ demo_platform_settings demo_adapters (reader_of no_keys) o demo_kms).1 = Some (cp_requests plan)
  | Err _ => False
  end.
Proof.
  destruct demo_compiled as [ [plan|e] k'] eqn:E; [|vm_compute in E; discriminate E]. cbn [fst].
  exists {| op_id := ""; op_actor := ""; op_scope := ""; op_target := ""; op_key := ""; op_fingerprint := ""; op_status := Queued;
            op_plan := stored_dict (durable_plan plan); op_result := []; op_error := None; op_created_at := 0; op_updated_at := 0; op_expires_at := 0;
            op_lease_owner := None; op_lease_expires_at := None |}.
  apply (plan_survives_restart demo_vault demo_environ demo_platform_settings demo_adapters (λ s, s) str_of_nat demo_auth (reader_of no_keys) false
           demo_intent demo_operator 0 demo_kms plan k'); [reflexivity| |exact E|reflexivity|exact eq_refl].
  apply reader_of_ok. split; constructor.
Defined.
