(* ===== verification/Inspect.v ===== *)
(** * Inspecting the model inventory ([benchmarking/platform.py]: [BenchmarkPlatform.inspect])

    The scopes that a query looks at, the state of each provider, the page of identities with
    their offers, the cursor of the next page and the revision of the view; and that following
    the cursors shows every identity once. *)

From S2P Require Import Prelude.
From S2P Require Import PyStr.
From S2P Require Import PyDict.
From S2P Require Import Schemas.
From S2P Require Import Catalog.
From S2P Require Import ExactCache.
From S2P Require Import Domain.
From S2P Require Import Ledger.
From S2P Require Import Json.
From S2P Require Import InventoryStore.
From S2P Require Import InventoryReads.
From S2P Require Import Inventory.
From S2P Require Import Hydration.
From S2P Require Import Credentials.
From S2P Require Import Platform.

Local Open Scope py_scope.

Record ProviderInventoryState := {
  ps_credential_scope : CredentialScopeRef;
  ps_snapshot_status : option InventoryStatus;
  ps_last_attempt_status : option InventoryStatus;
  ps_stale : bool;
  ps_partial : bool;
  ps_completed_at : option Q;
  ps_expires_at : option Q;
  ps_last_attempt_at : option Q;
  ps_error_summary : option string;
}.

Record ModelInventoryItem := { mt_identity : ModelIdentity; mt_offers : list ProviderOffer }.

Record ModelInventoryResult := {
  mr_items : list ModelInventoryItem;
  mr_scopes : list (ProviderName * CredentialScopeRef);
  mr_providers : list (ProviderName * ProviderInventoryState);
  mr_next_cursor : option string;
  mr_revision : string;
}.

Definition ALL_PROVIDERS : list ProviderName := [openrouter; fireworks].

(** The state of a provider: of its newest success, and of its last attempt. *)
Definition provider_state (snapshots : list InventorySnapshot) (attempts : list (ProviderName * InventorySnapshot))
    (ps : ProviderName * CredentialScopeRef) : ProviderName * ProviderInventoryState :=
  let snapshot := dget (dupdate [] ((λ s, (sn_provider s, s)) <$> snapshots)) ps.1 in
  let attempt := dget attempts ps.1 in
  (ps.1,
   {| ps_credential_scope := ps.2; ps_snapshot_status := sn_status <$> snapshot; ps_last_attempt_status := sn_status <$> attempt;
      ps_stale := match snapshot with Some s => sn_status s ≡? stale | None => false end;
      ps_partial := match attempt with Some a => sn_status a ≡? partial | None => false end;
      ps_completed_at := sn_completed_at <$> snapshot; ps_expires_at := sn_expires_at <$> snapshot;
      ps_last_attempt_at := sn_completed_at <$> attempt;
      ps_error_summary := match attempt with Some a => sn_error a | None => None end |}).

(** The dict of the offers of a page by identity, each list in the order of the page. *)
Definition offers_by_identity (offers : list ProviderOffer) : list (string * list ProviderOffer) :=
  fold_left (λ d o, dset d (po_identity o) (default [] (dget d (po_identity o)) ++ [o])) offers [].

Definition item_of (by_identity : list (string * list ProviderOffer)) (i : ModelIdentity) : ModelInventoryItem :=
  {| mt_identity := i; mt_offers := sort_by (λ a b, str_leb (po_route a) (po_route b)) (default [] (dget by_identity (mi_id i))) |}.

Definition pair_leb (a b : string * string) : bool :=
  if a.1 ≡? b.1 then str_leb a.2 b.2 else str_leb a.1 b.1.

Definition pairs_json (l : list (string * string)) : json := JList ((λ p, JList [JStr p.1; JStr p.2]) <$> sort_by pair_leb l).

(** What the revision hashes. *)
Definition revision_text (selection : list (ProviderName * CredentialScopeRef)) (i : Inspection) : string :=
  dumps (JObj [("selection", scopes_json (sort_by (λ a b, str_leb (provider_str a.1) (provider_str b.1)) selection));
               ("snapshots", pairs_json ((λ s, (provider_str (sn_provider s), sn_id s)) <$> in_snapshots i));
               ("attempts", pairs_json ((λ a : ProviderName * InventorySnapshot, (provider_str a.1, sn_id a.2)) <$> in_attempts i))]).

Section inspect.
Context `{Fernet}.
Context (vault : Vault) (environ : Environ) (st : PlatformSettings) (auth : AuthReader) (rd : KeyReader).
Context (hexdigest : string → string) (fr : Q → string).

(** A selection of one scope; [None] is a [ValidationError] of the scope. *)
Definition uniform (s : CredentialScopeRef) (providers : list ProviderName) : res PlatformError (list (ProviderName * CredentialScopeRef)) :=
  if check_scope s then Ok ((λ p, (p, s)) <$> providers) else Err (Raise "ValidationError").

(** [_inspection_selection] *)
Definition inspection_selection (scope : IntentScope) (target : option string) (providers : list ProviderName) (k : Kms)
    : res PlatformError (list (ProviderName * CredentialScopeRef)) * Kms :=
  match scope, target with
  | SPlatform, _ | SEffective, None => (uniform platform_scope providers, k)
  | SUser, Some u => (uniform (user_scope_of u) providers, k)
  | SUser, None => (Err (Raise "ValidationError"), k)
  | _, _ =>
      let '(r, k) := resolve_provider_credentials vault (ps_kms st) environ rd target (provider_str <$> providers) None k in
      (match r with
       | Err (Unavailable _ _ _) => Err unavailable_error
       | Err (UnknownProvider _) => Err (Raise "KeyError")
       | Ok selected =>
           Ok (omap (λ s : string * (string * CredentialScopeRef),
                       match provider_named (JStr s.1) with Some p => Some (p, s.2.2) | None => None end) selected)
       end, k)
  end.

(** The answer, from the inspection of the store. *)
Definition result_of (selection : list (ProviderName * CredentialScopeRef)) (i : Inspection) : ModelInventoryResult :=
  let page := in_page i in
  {| mr_items := item_of (offers_by_identity (ip_offers page)) <$> ip_identities page;
     mr_scopes := selection;
     mr_providers := provider_state (in_snapshots i) (in_attempts i) <$> selection;
     mr_next_cursor := if ip_more page then encode_cursor ∘ mi_id <$> last (ip_identities page) else None;
     mr_revision := hexdigest (revision_text selection i) |}.

Definition query_providers (q : ModelInventoryQuery) : list ProviderName :=
  match mq_provider q with Some p => [p] | None => ALL_PROVIDERS end.

(** [inspect]; the scopes of a query are those of an intent less the organisation's. *)
Definition inspect (q : ModelInventoryQuery) (a : PlatformActor) (now : Q) (d : Db) (k : Kms) : res PlatformError ModelInventoryResult * Kms :=
  match authorize_scope auth (mq_scope q) (mq_user_id q) a None with
  | Err e => (Err e, k)
  | Ok target =>
      let '(r, k) := inspection_selection (mq_scope q) target (query_providers q) k in
      (try! selection := r in
       try! after := decode_cursor fr (mq_cursor q) in
       match inventory_inspection selection (ps_max_staleness_hours st * 3600)%Q now (mq_availability q) after (mq_limit q) (mq_identity_ref q) d with
       | Err _ => Err (Raise "ValueError")
       | Ok i => Ok (result_of selection i)
       end, k)
  end.

Definition at_cursor (c : option string) (q : ModelInventoryQuery) : ModelInventoryQuery :=
  {| mq_scope := mq_scope q; mq_user_id := mq_user_id q; mq_provider := mq_provider q; mq_availability := mq_availability q;
     mq_identity_ref := mq_identity_ref q; mq_cursor := c; mq_limit := mq_limit q |}.

(** The pages of a client that follows the cursors, at most [n] after the first. *)
Fixpoint pages (n : nat) (q : ModelInventoryQuery) (a : PlatformActor) (now : Q) (d : Db) (c : option string) (k : Kms) : list ModelInventoryResult :=
  match inspect (at_cursor c q) a now d k with
  | (Err _, _) => []
  | (Ok r, k) => r :: match mr_next_cursor r, n with
                      | Some c, S n => pages n q a now d (Some c) k
                      | _, _ => []
                      end
  end.
End inspect.

(** ** Sorting and filtering *)

Section commute.
Context {A : Type} (leb : A → A → bool).
Context (leb_total : ∀ x y, leb x y = true ∨ leb y x = true).
Context (leb_trans : ∀ x y z, leb x y = true → leb y z = true → leb x z = true).

Lemma insert_least x l : Forall (λ z, leb x z = true) l → insert_by leb x l = x :: l.
Proof. intros Hl. destruct Hl as [|y l Hy _]; [done|]. cbn. by rewrite Hy. Qed.

Lemma filter_insert (f : A → bool) x l :
  StronglySorted (λ x y, leb x y = true) l →
  List.filter f (insert_by leb x l) = if f x then insert_by leb x (List.filter f l) else List.filter f l.
Proof using leb_trans.
  induction 1 as [|y l Hl IH Hy]; [done|]. cbn [insert_by]. destruct (leb x y) eqn:E.
  - cbn [List.filter]. destruct (f x); [|done]. symmetry. apply (insert_least x (List.filter f (y :: l))).
    apply Forall_forall. intros z [Hz _]%elem_of_bfilter. apply elem_of_cons in Hz as [->|Hz]; [done|].
    rewrite Forall_forall in Hy. eapply leb_trans; [exact E|by apply Hy].
  - cbn [List.filter]. rewrite IH. destruct (f y), (f x); try done. cbn. by rewrite E.
Qed.

Lemma filter_sort (f : A → bool) l : List.filter f (sort_by leb l) = sort_by leb (List.filter f l).
Proof using leb_total leb_trans.
  induction l as [|x l IH]; [done|]. change (sort_by leb (x :: l)) with (insert_by leb x (sort_by leb l)).
  rewrite filter_insert by by apply sort_by_sorted. rewrite IH. cbn [List.filter]. by destruct (f x).
Qed.

Lemma filter_and (f g h : A → bool) l : (∀ x, h x = f x && g x) → List.filter h l = List.filter g (List.filter f l).
Proof using Type.
  intros Hh. induction l as [|x l IH]; [done|]. cbn [List.filter]. rewrite Hh, IH. destruct (f x); [|done]. cbn. by destruct (g x).
Qed.

(** The elements after one of them. *)
Lemma filter_after (l1 l2 : list A) x :
  StronglySorted (λ x y, leb x y = true) (l1 ++ x :: l2) → (∀ y, y ∈ l2 → leb y x = false) → leb x x = true →
  List.filter (λ y, negb (leb y x)) (l1 ++ x :: l2) = l2.
Proof using Type.
  intros Hs Hl2 Hx. rewrite List.filter_app. cbn [List.filter]. rewrite Hx. cbn [negb].
  assert (List.filter (λ y, negb (leb y x)) l1 = []) as ->.
  { induction l1 as [|y l1 IH]; [done|]. cbn in Hs. apply StronglySorted_inv in Hs as [Hs Hy]. cbn [List.filter].
    rewrite Forall_app, Forall_cons in Hy. destruct Hy as (_ & -> & _). by apply IH. }
  clear Hs. induction l2 as [|y l2 IH]; [done|]. cbn [List.filter app]. rewrite (Hl2 y) by left. cbn [negb]. f_equal.
  apply IH. intros z Hz. apply Hl2. by right.
Qed.
End commute.

(** ** The pages *)

Abbreviation id_leb := (λ a b : ModelIdentity, str_leb (mi_id a) (mi_id b)).

(** The identities that match a query, after a cursor. *)
Definition matching (q : ModelInventoryQuery) (sel : list (ProviderName * CredentialScopeRef)) (d : Db) (after : option string) : list ModelIdentity :=
  match sel with
  | [] => []
  | _ => sort_by id_leb (List.filter (identity_where sel (mq_availability q ≡? "all") (mq_identity_ref q) after (selected_offers sel None d) d)
                           (db_identities d).*2)
  end.

Lemma matching_all q sel d :
  sel ≠ [] → matching q sel d None = sort_by id_leb (List.filter (identity_where sel (mq_availability q ≡? "all") (mq_identity_ref q) None (selected_offers sel None d) d)
                           (db_identities d).*2).
Proof. by destruct sel. Qed.

Lemma matching_cursor q sel d c : matching q sel d (Some c) = List.filter (λ i, negb (str_leb (mi_id i) c)) (matching q sel d None).
Proof.
  unfold matching. destruct sel as [|p sel]; [done|]. rewrite filter_sort; [|intros; apply str_leb_total|intros x y z; apply str_leb_trans].
  f_equal. apply filter_and. intros i. unfold identity_where. by rewrite andb_true_r.
Qed.

Lemma identities_nodup d : db_ok d → NoDup (mi_id <$> (db_identities d).*2).
Proof.
  intros Hd. assert (mi_id <$> (db_identities d).*2 = dkeys (db_identities d)) as ->; [|apply Hd].
  pose proof (dk_ids d Hd) as Hnd. pose proof (λ k i, dk_identity d Hd k i) as Hk. unfold dkeys in *. rewrite <- list_fmap_compose.
  apply list_fmap_ext. intros j [k i] Hj. cbn. apply Hk. apply elem_dget; [done|]. by eapply list_elem_of_lookup_2.
Qed.

Lemma matching_nodup q sel d after : db_ok d → NoDup (mi_id <$> matching q sel d after).
Proof.
  intros Hd. unfold matching. destruct sel as [|p sel]; [constructor|]. rewrite sort_by_perm.
  pose proof (identities_nodup d Hd) as Hnd. induction (db_identities d).*2 as [|i l IH]; [constructor|].
  apply NoDup_cons in Hnd as [Hi Hnd]. cbn [List.filter]. destruct (identity_where _ _ _ _ _ _ i); [|by apply IH].
  cbn [fmap list_fmap]. apply NoDup_cons. split; [|by apply IH]. intros (j & Ej & [Hj _]%elem_of_bfilter)%list_elem_of_fmap.
  apply Hi, list_elem_of_fmap. by exists j.
Qed.

(** What follows the last identity of a page. *)
Lemma matching_after q sel d l1 x l2 : db_ok d → matching q sel d None = l1 ++ x :: l2 → matching q sel d (Some (mi_id x)) = l2.
Proof.
  intros Hd E. rewrite matching_cursor, E. pose proof (matching_nodup q sel d None Hd) as Hnd. rewrite E in Hnd.
  assert (StronglySorted (λ a b, id_leb a b = true) (matching q sel d None)) as Hs.
  { unfold matching. destruct sel; [constructor|]. apply sort_by_sorted; [intros; apply str_leb_total|intros ? ? ?; apply str_leb_trans]. }
  rewrite E in Hs. apply (filter_after id_leb l1 l2 x Hs).
  - intros y Hy. apply not_true_is_false. intros Hle. rewrite fmap_app in Hnd. apply NoDup_app in Hnd as (_ & _ & Hnd).
    cbn [fmap list_fmap] in Hnd. apply NoDup_cons in Hnd as [Hx _]. apply Hx, list_elem_of_fmap. exists y. split; [|done].
    apply str_leb_antisym; [|done]. clear -Hs Hy. induction l1 as [|z l1 IH]; cbn in Hs; apply StronglySorted_inv in Hs as [Hs Hf]; [|by apply IH].
    rewrite Forall_forall in Hf. by apply Hf.
  - by destruct (str_leb_total (mi_id x) (mi_id x)).
Qed.

Lemma offers_of_identity offers k :
  default [] (dget (offers_by_identity offers) k) = List.filter (λ o, po_identity o ≡? k) offers.
Proof.
  unfold offers_by_identity. assert (∀ d, default [] (dget (fold_left (λ d o, dset d (po_identity o) (default [] (dget d (po_identity o)) ++ [o])) offers d) k)
    = default [] (dget d k) ++ List.filter (λ o, po_identity o ≡? k) offers) as Hf; [|by rewrite Hf].
  induction offers as [|o offers IH]; intros d; cbn [fold_left List.filter]; [by rewrite app_nil_r|]. rewrite IH.
  destruct (bool_decide_reflect (po_identity o = k)) as [<-|Hne].
  - rewrite dget_dset_eq. cbn. by rewrite <- app_assoc.
  - by rewrite dget_dset_ne.
Qed.

(** A page, from the store. *)
Lemma inspection_page q sel max now after d :
  check_query q = true → (0 <= max)%Q →
  ∃ i, inventory_inspection sel max now (mq_availability q) after (mq_limit q) (mq_identity_ref q) d = Ok i
  ∧ ip_identities (in_page i) = take (Z.to_nat (mq_limit q)) (matching q sel d after)
  ∧ ip_more (in_page i) = (Z.to_nat (mq_limit q) <? length (matching q sel d after))
  ∧ ∀ o, o ∈ ip_offers (in_page i) ↔ o ∈ selected_offers sel None d ∧ sel ≠ [] ∧ po_identity o ∈ mi_id <$> ip_identities (in_page i).
Proof.
  intros Hq Hmax. unfold inventory_inspection, matching. rewrite (proj2 (Qltb_false max 0)) by done.
  destruct sel as [|p sel].
  { eexists. split; [reflexivity|]. cbn [in_page empty_page ip_identities ip_more ip_offers length]. rewrite take_nil. split_and!; [done|done|].
    intros o. split; [by intros ?%elem_of_nil|by intros (_ & ? & _)]. }
  unfold check_query in Hq. apply andb_true_iff in Hq as [Hq Hlim]. apply andb_true_iff in Hq as [Hq _]. apply andb_true_iff in Hq as [_ Hav].
  unfold identity_page. cbn [existsb] in *. rewrite Hav, Hlim. cbn [negb].
  assert (selected_offers (p :: sel) (Some (sn_id <$> ((λ s, snapshot_from_row s [] (is_stale (Some max) now s)) <$> latest_successes (selected (p :: sel)) d))) d
          = selected_offers (p :: sel) None d) as ->.
  { unfold selected_offers. do 2 f_equal. by rewrite <- list_fmap_compose. }
  eexists. split; [reflexivity|]. cbn [in_page ip_identities ip_more ip_offers].
  set (l := sort_by id_leb _). rewrite take_take, Nat.min_l by lia. split_and!; [done| |].
  - rewrite length_take. destruct (Nat.ltb_spec (Z.to_nat (mq_limit q)) (length l)); [apply Nat.ltb_lt|apply Nat.ltb_ge]; lia.
  - intros o. rewrite elem_of_sort_by, elem_of_bfilter, bool_decide_eq_true. naive_solver.
Qed.

Section follow.
Context `{Fernet}.
Context (vault : Vault) (environ : Environ) (st : PlatformSettings) (auth : AuthReader) (rd : KeyReader).
Context (hexdigest : string → string) (fr : Q → string).
Notation inspects := (inspect vault environ st auth rd hexdigest fr).
Notation follow := (pages vault environ st auth rd hexdigest fr).
Context (q : ModelInventoryQuery) (a : PlatformActor) (now : Q) (d : Db) (target : option string)
  (sel : list (ProviderName * CredentialScopeRef)).
Context (Hq : check_query q = true) (Hd : db_ok d) (Hids : ∀ k i, dget (db_identities d) k = Some i → check_identity i = true).
Context (Hst : (0 <= ps_max_staleness_hours st)%Q) (Hauth : authorize_scope auth (mq_scope q) (mq_user_id q) a None = Ok target).
Context (Hsel : ∀ k, (inspection_selection vault environ st rd (mq_scope q) target (query_providers q) k).1 = Ok sel).

(** One page. *)
Lemma answer_page_spec c after k :
  decode_cursor fr c = Ok after →
  ∃ r k', inspects (at_cursor c q) a now d k = (Ok r, k')
  ∧ (mt_identity <$> mr_items r) = take (Z.to_nat (mq_limit q)) (matching q sel d after)
  ∧ mr_next_cursor r = (if Z.to_nat (mq_limit q) <? length (matching q sel d after)
                        then encode_cursor ∘ mi_id <$> last (take (Z.to_nat (mq_limit q)) (matching q sel d after)) else None)
  ∧ ∀ it, it ∈ mr_items r → ∀ o, o ∈ mt_offers it ↔ o ∈ selected_offers sel None d ∧ sel ≠ [] ∧ po_identity o = mi_id (mt_identity it).
Proof using Hq Hst Hauth Hsel.
  intros Hc. unfold inspect. cbn [at_cursor mq_scope mq_user_id mq_availability mq_limit mq_identity_ref mq_cursor].
  change (query_providers (at_cursor c q)) with (query_providers q). rewrite Hauth. specialize (Hsel k).
  destruct (inspection_selection _ _ _ _ _ _ _ k) as [r k']. cbn [fst] in Hsel. subst r. cbn [res_bind]. rewrite Hc. cbn [res_bind].
  destruct (inspection_page q sel (ps_max_staleness_hours st * 3600)%Q now after d Hq) as (i & -> & Hi & Hm & Ho); [q_solve|].
  eexists _, k'. split; [reflexivity|]. cbn [result_of mr_items mr_next_cursor]. rewrite Hm, <- Hi. split_and!.
  - generalize (ip_identities (in_page i)) as l. intros l. induction l as [|j l IH]; [done|]. cbn [fmap list_fmap]. by rewrite IH.
  - done.
  - intros it (j & -> & Hj)%list_elem_of_fmap o. cbn [item_of mt_offers mt_identity].
    rewrite offers_of_identity, elem_of_sort_by, elem_of_bfilter, Ho, bool_decide_eq_true. split; [naive_solver|].
    intros (H1 & H2 & H3). split_and!; [done|done| |done]. rewrite H3. apply list_elem_of_fmap. by exists j.
Qed.

Notation limit := (Z.to_nat (mq_limit q)).

Definition page_ok (r : ModelInventoryResult) : Prop :=
  length (mr_items r) ≤ limit
  ∧ ∀ it, it ∈ mr_items r → ∀ o, o ∈ mt_offers it ↔ o ∈ selected_offers sel None d ∧ sel ≠ [] ∧ po_identity o = mi_id (mt_identity it).

Lemma follow_spec n : ∀ c after j k,
  decode_cursor fr c = Ok after → matching q sel d after = drop j (matching q sel d None) → length (drop j (matching q sel d None)) ≤ n →
  let l := follow n q a now d c k in
  flat_map (λ r, mt_identity <$> mr_items r) l = drop j (matching q sel d None) ∧ Forall page_ok l
  ∧ ∃ r, last l = Some r ∧ mr_next_cursor r = None.
Proof using Hq Hst Hauth Hsel Hd Hids.
  assert (1 ≤ limit) as Hlim.
  { unfold check_query in Hq. apply andb_true_iff in Hq as [_ [H1 _]%andb_true_iff]. apply Z.leb_le in H1. lia. }
  set (all := matching q sel d None). induction n as [|n IH]; intros c after j k Hc Hm Hn.
  all: destruct (answer_page_spec c after k Hc) as (r & k' & Hr & Hi & Hnext & Hoff); rewrite Hm in Hi, Hnext.
  all: assert (page_ok r) as Hok by (split; [|done]; rewrite <- (length_fmap mt_identity), Hi, length_take; lia).
  all: cbn [pages]; rewrite Hr, Hnext; destruct (Nat.ltb_spec limit (length (drop j all))) as [Hlt|Hge]; [|
    cbv zeta; cbn [flat_map last]; rewrite app_nil_r, Hi, take_ge by done; split_and!; [done|by constructor|by exists r] ].
  - lia.
  - destruct (last (take limit (drop j all))) as [x|] eqn:Ex.
    2: { apply last_None in Ex. apply (f_equal length) in Ex. rewrite length_take in Ex. cbn in Ex. lia. }
    cbn [fmap option_fmap option_map compose]. apply last_Some in Ex as [l1 El].
    assert (matching q sel d (Some (mi_id x)) = drop (j + limit) all) as Hrest.
    { apply (matching_after q sel d (take j all ++ l1) x); [done|]. rewrite <- app_assoc, <- drop_drop.
      change (x :: drop limit (drop j all)) with ([x] ++ drop limit (drop j all)). rewrite (app_assoc l1), <- El, take_drop.
      by rewrite take_drop. }
    assert (mi_id x ≠ "") as Hx.
    { assert (x ∈ all) as Hx. { rewrite <- (take_drop j all), <- (take_drop limit (drop j all)), El. rewrite !elem_of_app. right. left. right. left. }
      unfold all, matching in Hx. destruct sel; [by apply elem_of_nil in Hx|]. apply elem_of_sort_by, elem_of_bfilter in Hx as [Hx _].
      apply list_elem_of_fmap in Hx as ([k2 i] & -> & Hki). apply (elem_dget _ _ _ (dk_ids d Hd)) in Hki. apply Hids in Hki. cbn [snd].
      unfold check_identity in Hki. intros E. by rewrite E in Hki. }
    specialize (IH (Some (encode_cursor (mi_id x))) (Some (mi_id x)) (j + limit) k' (cursor_decodes fr _ Hx) Hrest).
    cbv zeta in IH |- *. rewrite <- drop_drop, length_drop in IH. destruct IH as (IH1 & IH2 & r' & IH3 & IH4); [lia|].
    cbn [flat_map]. rewrite IH1, Hi, take_drop. split_and!; [done|by constructor|]. exists r'. split; [|done].
    destruct (follow n q a now d _ k'); [done|]. exact IH3.
Qed.
End follow.

(** an inventory is seen whole. A client that starts without a cursor and follows the next
    cursors, over a store that does not change meanwhile, sees every identity that matches its
    query once and in order, in pages of at most the limit, and the pages come to an end; with
    each identity come exactly its offers in the newest complete success of each scope the
    query looks at. *)
Theorem inspect_pages_complete `{Fernet} vault environ st auth rd hexdigest fr q a now d target sel k :
  check_query q = true → db_ok d → (∀ k i, dget (db_identities d) k = Some i → check_identity i = true) →
  (0 <= ps_max_staleness_hours st)%Q → authorize_scope auth (mq_scope q) (mq_user_id q) a None = Ok target →
  (∀ k, (inspection_selection vault environ st rd (mq_scope q) target (query_providers q) k).1 = Ok sel) →
  let all := matching q sel d None in
  let l := pages vault environ st auth rd hexdigest fr (length all) q a now d None k in
  flat_map (λ r, mt_identity <$> mr_items r) l = all ∧ NoDup (mi_id <$> all)
  ∧ (∀ r, r ∈ l → length (mr_items r) ≤ Z.to_nat (mq_limit q)
       ∧ ∀ it o, it ∈ mr_items r → o ∈ mt_offers it ↔ o ∈ selected_offers sel None d ∧ sel ≠ [] ∧ po_identity o = mi_id (mt_identity it))
  ∧ ∃ r, last l = Some r ∧ mr_next_cursor r = None.
Proof.
  intros Hq Hd Hids Hst Hauth Hsel all l.
  destruct (follow_spec vault environ st auth rd hexdigest fr q a now d target sel Hq Hd Hids Hst Hauth Hsel (length all) None None 0 k eq_refl eq_refl
              ltac:(done)) as (H1 & H2 & H3).
  split_and!; [exact H1|by apply matching_nodup| |exact H3].
  intros r Hr. rewrite Forall_forall in H2. destruct (H2 r Hr) as [Hn Ho]. split; [done|]. intros it o Hit. by apply Ho.
Qed.

(** ** Two pages of one identity *)

#[local] Existing Instance demo_fernet.

Definition demo_inspect_query : ModelInventoryQuery :=
  {| mq_scope := SPlatform; mq_user_id := None; mq_provider := None; mq_availability := "available"; mq_identity_ref := None; mq_cursor := None; mq_limit := 1 |}.
Definition demo_selection : list (ProviderName * CredentialScopeRef) := [(openrouter, platform_scope); (fireworks, platform_scope)].

Lemma demo_two : ∃ o sv i j,
  refresh (λ s, s) demo_ip str_of_nat (λ s, s) 86400 demo_times [router_request [OpenRouter.demo_row "a/m" JNull; OpenRouter.demo_row "b/m" JNull] ]
    [] (Some []) None new_service = (Ok o, sv)
  ∧ forallb (λ ki : string * ModelIdentity, check_identity ki.2) (db_identities (sv_db sv)) = true
  ∧ matching demo_inspect_query demo_selection (sv_db sv) None = [i; j].
Proof. eexists _, _, _, _. split_and!; [vm_compute; reflexivity..]. Qed.

Lemma inspect_pages_complete_witness : ∃ d i j,
  flat_map (λ r, mt_identity <$> mr_items r)
    (pages demo_vault demo_environ demo_platform_settings demo_auth (reader_of no_keys) (λ s, s) (λ _, "") 2 demo_inspect_query demo_operator 12 d None demo_kms)
  = [i; j].
Proof.
  destruct demo_two as (o & sv & i & j & Hr & Hids & Hm). exists (sv_db sv), i, j.
  pose proof (inspect_pages_complete demo_vault demo_environ demo_platform_settings demo_auth (reader_of no_keys) (λ s, s) (λ _, "")
    demo_inspect_query demo_operator 12 (sv_db sv) None demo_selection demo_kms) as Hp. rewrite Hm in Hp. apply Hp.
  - reflexivity.
  - exact (proj1 (refresh_spec (λ s, s) demo_ip str_of_nat (λ s, s) 86400 demo_times _ [] (Some []) None new_service o sv db_ok_new Hr)).
  - intros k x Hx. rewrite forallb_forall in Hids. exact (Hids (k, x) (proj1 (list_elem_of_In _ _) (dget_elem _ _ _ Hx))).
  - done.
  - reflexivity.
  - intros k'. reflexivity.
Defined.
