(* ===== verification/Streaming.v ===== *)
(** * Streamed answers ([driver/streaming.py])

    One streamed attempt: deltas are batched by size and by time, a gate may hold or
    suppress the reply, and a reply that grows a tool call is frozen at its brace.  The
    clock is read once per chunk for the check and once per publication. *)

From S2P Require Import Prelude PyStr Regex.

(** [_TOOL_OBJ_RE]: an opening brace, spaces, and the quoted word tool. *)
Definition TOOL_WORD : string := String dquote ("tool" +:+ String dquote "").
Definition TOOL_OBJ_RE : re := RSeq (lit "{") (RSeq (RStar rspace) (lit TOOL_WORD)).

(** A chunk, the clock when it is weighed, and the clock after a publication it causes. *)
Record SChunk := { ck_text : string; ck_now : Q; ck_flushed : Q }.

(** The closure's variables, and what was published so far. *)
Record SState := {
  s_buf : list string;
  s_whole : string;
  s_last : Q;
  s_emit : bool;
  s_suppress : bool;
  s_frozen : bool;
  s_brace : bool;
  s_out : list string;
}.

(** The gate's verdict on the text held so far: stream it, suppress it, or hold on. *)
Definition Gate : Type := string → option bool.

Section stream.
Context (delta_chars : nat) (delta_secs : Q) (gate : option Gate).

Definition stream_begin (now : Q) : SState :=
  {| s_buf := []; s_whole := ""; s_last := now;
     s_emit := match gate with None => true | Some _ => false end;
     s_suppress := false; s_frozen := false; s_brace := false; s_out := [] |}.

(** [flush] *)
Definition flush (now : Q) (s : SState) : SState :=
  if negb (s_emit s) || s_suppress s then s
  else match s_buf s with
       | [] => s
       | buf => {| s_buf := []; s_whole := s_whole s; s_last := now; s_emit := s_emit s;
                   s_suppress := s_suppress s; s_frozen := s_frozen s; s_brace := s_brace s;
                   s_out := s_out s ++ [join "" buf] |}
       end.

Definition buffered (s : SState) : nat := sum_list (str_len <$> s_buf s).

(** The chunk joins the buffer. *)
Definition take_chunk (c : SChunk) (s : SState) : SState :=
  {| s_buf := s_buf s ++ [ck_text c]; s_whole := s_whole s +:+ ck_text c; s_last := s_last s;
     s_emit := s_emit s; s_suppress := s_suppress s; s_frozen := s_frozen s;
     s_brace := s_brace s; s_out := s_out s |}.

Definition suppressed (s : SState) : SState :=
  {| s_buf := []; s_whole := s_whole s; s_last := s_last s; s_emit := s_emit s;
     s_suppress := true; s_frozen := s_frozen s; s_brace := s_brace s; s_out := s_out s |}.

Definition released (s : SState) : SState :=
  {| s_buf := s_buf s; s_whole := s_whole s; s_last := s_last s; s_emit := true;
     s_suppress := s_suppress s; s_frozen := s_frozen s; s_brace := s_brace s; s_out := s_out s |}.

Definition braced (s : SState) : SState :=
  {| s_buf := s_buf s; s_whole := s_whole s; s_last := s_last s; s_emit := s_emit s;
     s_suppress := s_suppress s; s_frozen := s_frozen s; s_brace := true; s_out := s_out s |}.

(** The clean prose up to the brace at [start] is published, and the stream is frozen. *)
Definition freeze (start : nat) (now : Q) (s : SState) : SState :=
  let already := str_len (s_whole s) - buffered s in
  let s1 := flush now
    {| s_buf := if already <? start then [str_drop already (str_take start (s_whole s))] else [];
       s_whole := s_whole s; s_last := s_last s; s_emit := s_emit s;
       s_suppress := s_suppress s; s_frozen := s_frozen s; s_brace := s_brace s; s_out := s_out s |} in
  {| s_buf := s_buf s1; s_whole := s_whole s1; s_last := s_last s1; s_emit := s_emit s1;
     s_suppress := s_suppress s1; s_frozen := true; s_brace := s_brace s1; s_out := s_out s1 |}.

(** The size and time triggers. *)
Definition batch (c : SChunk) (s : SState) : SState :=
  if (delta_chars <=? buffered s) || Qleb delta_secs (ck_now c - s_last s)
  then flush (ck_flushed c) s else s.

(** The end of [on_delta], once the reply may be published. *)
Definition guard_and_batch (c : SChunk) (s : SState) : SState :=
  match gate with
  | Some _ =>
      if contains "{" (ck_text c) || s_brace s then
        match search_start TOOL_OBJ_RE (s_whole s) with
        | Some start => freeze start (ck_flushed c) (braced s)
        | None => batch c (braced s)
        end
      else batch c s
  | None => batch c s
  end.

Definition on_delta (s : SState) (c : SChunk) : SState :=
  if s_suppress s || s_frozen s then s
  else
    let s := take_chunk c s in
    if s_emit s then guard_and_batch c s
    else match gate with
         | None => s
         | Some g => match g (join "" (s_buf s)) with
                     | Some false => suppressed s
                     | None => s
                     | Some true => guard_and_batch c (released s)
                     end
         end.

(** The deltas published for a stream of [chunks]; the tail is flushed when the provider
    call returns, and not when it raises. *)
Definition stream_run (start : Q) (chunks : list SChunk) (returns : bool) (stop : Q) : list string :=
  let s := foldl on_delta (stream_begin start) chunks in
  s_out (if returns then flush stop s else s).
End stream.

Definition said (chunks : list SChunk) : string := join "" (ck_text <$> chunks).

(** ** Facts *)

Lemma buffered_len s : buffered s = str_len (join "" (s_buf s)).
Proof.
  unfold buffered. induction (s_buf s) as [|a l IH]; [done|].
  rewrite fmap_cons, concat_cons, str_len_app. cbn. by rewrite IH.
Qed.

(** Everything published and buffered, in order, is what was read. *)
Definition accounted_for (s : SState) : Prop := join "" (s_out s) +:+ join "" (s_buf s) = s_whole s.

Lemma flush_accounted now s : accounted_for s → accounted_for (flush now s).
Proof.
  unfold accounted_for, flush. destruct (_ || _); [done|]. destruct (s_buf s) as [|b l] eqn:E; [by rewrite E|].
  cbn [s_out s_buf s_whole]. intros <-. change (join "" []) with "".
  by rewrite concat_app, concat_singleton, str_app_nil_r.
Qed.

Lemma flush_whole now s : s_whole (flush now s) = s_whole s.
Proof. unfold flush. destruct (_ || _); [done|]. by destruct (s_buf s). Qed.

Lemma take_accounted c s : accounted_for s → accounted_for (take_chunk c s).
Proof.
  unfold accounted_for, take_chunk. cbn. intros <-.
  by rewrite concat_app, concat_singleton, str_app_assoc.
Qed.

Lemma batch_accounted n d c s : accounted_for s → accounted_for (batch n d c s).
Proof. unfold batch. case_match; auto using flush_accounted. Qed.

(** The state after reading [text]: while the reply is live the buffer completes what was
    published, published text is always a prefix, and a held or suppressed reply has
    published nothing. *)
Record stream_inv (gate : option Gate) (text : string) (s : SState) : Prop := {
  inv_live : s_suppress s = false → s_frozen s = false → s_whole s = text ∧ accounted_for s;
  inv_prefix : ∃ rest, text = join "" (s_out s) +:+ rest;
  inv_held : s_emit s = false ∨ s_suppress s = true → s_out s = [];
  inv_plain : gate = None → s_emit s = true ∧ s_suppress s = false ∧ s_frozen s = false;
}.

Lemma inv_of_accounted gate text s :
  s_whole s = text → accounted_for s → (s_emit s = false ∨ s_suppress s = true → s_out s = []) →
  (gate = None → s_emit s = true ∧ s_suppress s = false ∧ s_frozen s = false) →
  stream_inv gate text s.
Proof. intros <- Ha Hh Hp. split; [done| |done|done]. exists (join "" (s_buf s)). by rewrite Ha. Qed.

Lemma flush_frame now s :
  s_emit (flush now s) = s_emit s ∧ s_suppress (flush now s) = s_suppress s ∧
  s_frozen (flush now s) = s_frozen s ∧ s_brace (flush now s) = s_brace s ∧
  (s_emit s = false ∨ s_suppress s = true → s_out (flush now s) = s_out s).
Proof.
  unfold flush. destruct (s_emit s) eqn:He, (s_suppress s) eqn:Hs; cbn; try (by rewrite ?He, ?Hs);
    destruct (s_buf s); cbn; rewrite ?He, ?Hs; naive_solver.
Qed.

Lemma flush_inv gate text now s :
  stream_inv gate text s → s_suppress s = false → s_frozen s = false →
  stream_inv gate text (flush now s).
Proof.
  intros [Hl _ Hh Hp] Hs Hf. destruct (Hl Hs Hf) as [Hw Ha].
  destruct (flush_frame now s) as (He & Hs' & Hf' & _ & Ho).
  apply inv_of_accounted; rewrite ?flush_whole, ?He, ?Hs', ?Hf'; auto using flush_accounted.
  intros H. rewrite Ho by done. auto.
Qed.

Lemma batch_inv n d gate text c s :
  stream_inv gate text s → s_suppress s = false → s_frozen s = false →
  stream_inv gate text (batch n d c s).
Proof. unfold batch. case_match; auto using flush_inv. Qed.

(** What a freeze publishes: the text up to the brace, or nothing more than before. *)
Lemma freeze_out start now s :
  accounted_for s → s_emit s = true → s_suppress s = false →
  join "" (s_out (freeze start now s)) =
    if str_len (join "" (s_out s)) <? start then str_take start (s_whole s) else join "" (s_out s).
Proof.
  intros Ha He Hs. unfold freeze. cbn [s_out].
  assert (str_len (s_whole s) - buffered s = str_len (join "" (s_out s))) as ->.
  { rewrite buffered_len, <- Ha, str_len_app. lia. }
  case_match eqn:E; unfold flush; cbn [s_emit s_suppress s_buf s_out]; rewrite He, Hs; cbn; [|done].
  rewrite concat_app, concat_singleton. apply Nat.ltb_lt in E.
  rewrite <- (str_take_split (str_len (join "" (s_out s))) start (s_whole s)) at 2 by lia. f_equal.
  by rewrite <- Ha, str_take_app.
Qed.

Lemma freeze_buf start now s :
  s_emit s = true → s_suppress s = false → s_buf (freeze start now s) = [].
Proof.
  intros He Hs. unfold freeze. case_match; unfold flush; cbn [s_buf s_emit s_suppress]; by rewrite He, Hs.
Qed.

Lemma freeze_inv gate text start now s :
  stream_inv (Some gate) text s → s_emit s = true → s_suppress s = false → s_frozen s = false →
  stream_inv (Some gate) text (freeze start now s).
Proof.
  intros [Hl _ Hh Hp] He Hs Hf. destruct (Hl Hs Hf) as [Hw Ha]. split; [done| | |done].
  - rewrite freeze_out by done. rewrite <- Hw. case_match.
    + exists (str_drop start (s_whole s)). by rewrite str_take_drop.
    + exists (join "" (s_buf s)). by rewrite Ha.
  - unfold freeze. cbn [s_emit s_suppress].
    match goal with |- context [flush now ?x] => destruct (flush_frame now x) as (-> & -> & _) end.
    cbn. rewrite He, Hs. by intros [|].
Qed.

Lemma guard_inv n d gate text c s :
  stream_inv gate text s → s_emit s = true → s_suppress s = false → s_frozen s = false →
  stream_inv gate text (guard_and_batch n d gate c s).
Proof.
  intros Hi He Hs Hf. unfold guard_and_batch. destruct gate as [g|]; [|by apply batch_inv].
  destruct (_ || _); [|by apply batch_inv].
  assert (stream_inv (Some g) text (braced s)) as Hb by (by destruct Hi; split).
  destruct (search_start _ _) as [start|]; [by apply freeze_inv|by apply batch_inv].
Qed.

Lemma on_delta_inv n d gate text s c :
  stream_inv gate text s → stream_inv gate (text +:+ ck_text c) (on_delta n d gate s c).
Proof.
  intros Hi. pose proof Hi as [Hl [r Hr] Hh Hp]. unfold on_delta.
  destruct (s_suppress s) eqn:Hs; cbn [orb].
  { split; [by rewrite Hs| |by rewrite Hs|intros Hg; by apply Hp in Hg as (_ & ? & _)].
    exists (r +:+ ck_text c). by rewrite Hr, str_app_assoc. }
  destruct (s_frozen s) eqn:Hf.
  { split; [by rewrite Hf| |by rewrite Hs|intros Hg; by apply Hp in Hg as (_ & _ & ?)].
    exists (r +:+ ck_text c). by rewrite Hr, str_app_assoc. }
  destruct (Hl eq_refl eq_refl) as [Hw Ha]. apply (take_accounted c) in Ha as Ha'.
  assert (stream_inv gate (text +:+ ck_text c) (take_chunk c s)) as Ht.
  { apply inv_of_accounted; [by rewrite <- Hw|done|cbn; by rewrite Hs|cbn; by rewrite Hs, Hf]. }
  change (s_emit (take_chunk c s)) with (s_emit s). destruct (s_emit s) eqn:He; [by apply guard_inv|].
  destruct gate as [g|]; [|done]. destruct (g _) as [[]|]; [|..|done].
  - apply guard_inv; [|done..]. destruct Ht as [H1 H2 H3 H4].
    split; [exact H1|exact H2| |done]. intros [|]; [done|]. apply H3. by right.
  - split; [done| |intros _; apply Hh; by left|done]. destruct Ht as [_ H2 _ _]. exact H2.
Qed.

Lemma said_snoc cs c : said (cs ++ [c]) = said cs +:+ ck_text c.
Proof. unfold said. by rewrite fmap_app, concat_app. Qed.

Lemma stream_fold_inv n d gate start cs :
  stream_inv gate (said cs) (foldl (on_delta n d gate) (stream_begin gate start) cs).
Proof.
  induction cs as [|c cs IH] using rev_ind.
  - apply inv_of_accounted; [done|done|done|]. by destruct gate.
  - rewrite foldl_app, said_snoc. by apply on_delta_inv.
Qed.

(** A plain answer is published in full: whatever the batching triggers and the clock do,
    the published deltas put together are exactly the chunks put together; a provider that
    raises leaves a prefix. *)
Theorem stream_ungated_faithful n d start cs returns stop :
  (returns = true → join "" (stream_run n d None start cs returns stop) = said cs) ∧
  ∃ rest, said cs = join "" (stream_run n d None start cs returns stop) +:+ rest.
Proof.
  unfold stream_run. set (s := foldl _ _ _).
  assert (stream_inv None (said cs) s) as Hi by apply stream_fold_inv.
  destruct (inv_plain _ _ _ Hi eq_refl) as (He & Hs & Hf). destruct (inv_live _ _ _ Hi Hs Hf) as [Hw Ha].
  assert (returns = true → join "" (s_out (if returns then flush stop s else s)) = said cs) as Hfull.
  { intros ->. unfold flush. rewrite He, Hs. cbn. rewrite <- Hw, <- Ha.
    destruct (s_buf s); cbn [s_out]; [by rewrite str_app_nil_r|].
    by rewrite concat_app, concat_singleton. }
  split; [exact Hfull|]. destruct returns; [|exact (inv_prefix _ _ _ Hi)].
  exists "". by rewrite Hfull, str_app_nil_r.
Qed.

(** ** The gated reply never shows a tool call *)

Lemma contains_brace_app a b : contains "{" (a +:+ b) = contains "{" a || contains "{" b.
Proof.
  induction a as [|c a IH]; [done|]. rewrite str_app_cons. cbn [contains startswith].
  by rewrite IH, orb_assoc.
Qed.

Lemma tool_not_empty prev : ends TOOL_OBJ_RE (prev, "") = [].
Proof. done. Qed.

Lemma no_brace_no_tool t : contains "{" t = false → search TOOL_OBJ_RE t = false.
Proof.
  unfold search. generalize (@None ascii) as prev.
  induction t as [|c t IH]; intros prev; [done|]. cbn [contains startswith starts existsb].
  intros [Hc Ht]%orb_false_iff. rewrite (IH _ Ht), orb_false_r. rewrite andb_true_r in Hc.
  apply bool_decide_eq_false in Hc. unfold hits_at. cbn. by rewrite bool_decide_eq_false_2.
Qed.

Lemma no_tool_prefix t r : search TOOL_OBJ_RE (t +:+ r) = false → search TOOL_OBJ_RE t = false.
Proof. intros H. apply not_true_iff_false. intros Ht. by rewrite search_prefix in H. Qed.

Record no_tool (s : SState) : Prop := {
  nt_live : s_suppress s = false → s_frozen s = false →
    search TOOL_OBJ_RE (s_whole s) = false ∧ (s_brace s = false → contains "{" (s_whole s) = false);
  nt_out : search TOOL_OBJ_RE (join "" (s_out s)) = false;
  nt_frozen : s_frozen s = true → s_buf s = [];
}.

Lemma flush_no_tool now s :
  no_tool s → s_suppress s = false → s_frozen s = false → accounted_for s → no_tool (flush now s).
Proof.
  intros [Hl Ho _] Hs Hf Ha. destruct (Hl Hs Hf) as [Hw Hb].
  destruct (flush_frame now s) as (_ & _ & Hfr & Hbr & _). split; [| |by rewrite Hfr, Hf].
  - intros _ _. by rewrite flush_whole, Hbr.
  - apply (flush_accounted now) in Ha. apply (no_tool_prefix _ (join "" (s_buf (flush now s)))).
    by rewrite Ha, flush_whole.
Qed.

Lemma batch_no_tool n d c s :
  no_tool s → s_suppress s = false → s_frozen s = false → accounted_for s → no_tool (batch n d c s).
Proof. unfold batch. case_match; auto using flush_no_tool. Qed.

(** [guard_and_batch] on a state whose earlier text [w] had no tool call. *)
Lemma guard_no_tool n d g w c s :
  s_emit s = true → s_suppress s = false → s_frozen s = false → accounted_for s →
  s_whole s = w +:+ ck_text c → (s_brace s = false → contains "{" w = false) →
  search TOOL_OBJ_RE (join "" (s_out s)) = false → no_tool (guard_and_batch n d (Some g) c s).
Proof.
  intros He Hs Hf Ha Hw Hb Ho. unfold guard_and_batch.
  destruct (contains "{" (ck_text c) || s_brace s) eqn:Hc.
  - destruct (search_start _ _) as [start|] eqn:Hst.
    + split; [done| |intros _; by apply freeze_buf]. rewrite freeze_out by done.
      cbn [s_whole s_out braced]. case_match; [|done]. apply search_start_cut; [done|apply tool_not_empty|done].
    + apply search_start_none in Hst. apply batch_no_tool; [|done..].
      split; cbn [s_suppress s_frozen s_whole s_brace s_out braced]; [done|done|by rewrite Hf].
  - apply orb_false_iff in Hc as [Hc Hbr]. specialize (Hb Hbr).
    assert (contains "{" (s_whole s) = false) as Hno by (by rewrite Hw, contains_brace_app, Hb).
    apply batch_no_tool; [|done..]. split; [|done|by rewrite Hf]. intros _ _. auto using no_brace_no_tool.
Qed.

(** A gate that holds a text back only while it shows no brace. *)
Definition brace_decides (g : Gate) : Prop := ∀ t, g t = None → contains "{" t = false.

Lemma on_delta_no_tool n d g text s c :
  brace_decides g → stream_inv (Some g) text s → no_tool s → no_tool (on_delta n d (Some g) s c).
Proof.
  intros Hg Hi Hn. pose proof Hi as [Hl _ Hh _]. pose proof Hn as [Hlive Ho _]. unfold on_delta.
  destruct (s_suppress s) eqn:Hs; [done|]. destruct (s_frozen s) eqn:Hf; [done|]. cbn [orb].
  destruct (Hl eq_refl eq_refl) as [Hw Ha], (Hlive eq_refl eq_refl) as [Hnt Hb].
  apply (take_accounted c) in Ha as Ha'. change (s_emit (take_chunk c s)) with (s_emit s).
  destruct (s_emit s) eqn:He; [by apply (guard_no_tool _ _ _ (s_whole s))|].
  destruct (g _) as [[]|] eqn:Hv; [by apply (guard_no_tool _ _ _ (s_whole s))| |].
  - split; [done|exact Ho|done].
  - split; [|exact Ho|cbn; by rewrite Hf]. intros _ _. apply Hg in Hv. unfold accounted_for in Ha'. cbn [s_out take_chunk] in Ha'.
    rewrite (Hh (or_introl eq_refl)), str_app_nil_l in Ha'. rewrite Ha' in Hv. auto using no_brace_no_tool.
Qed.

(** C37: A reply streamed through a gate that never holds back a brace is published as a prefix
    of what the model said, not at all once the gate rules it a tool call, and never far
    enough to show a tool-call object. *)
Theorem stream_gated_safe n d g start cs returns stop :
  brace_decides g →
  let out := stream_run n d (Some g) start cs returns stop in
  (∃ rest, said cs = join "" out +:+ rest) ∧ search TOOL_OBJ_RE (join "" out) = false ∧
  (s_suppress (foldl (on_delta n d (Some g)) (stream_begin (Some g) start) cs) = true → out = []).
Proof.
  intros Hg. cbn zeta. unfold stream_run. set (s := foldl _ _ _).
  assert (stream_inv (Some g) (said cs) s) as Hi by apply stream_fold_inv.
  assert (no_tool s) as Hn.
  { unfold s. clear -Hg. induction cs as [|c cs IH] using rev_ind; [by split|]. rewrite foldl_app.
    eapply on_delta_no_tool; [done|apply stream_fold_inv|exact IH]. }
  destruct (s_suppress s) eqn:Hs.
  { assert (s_out s = []) as Ho by (apply (inv_held _ _ _ Hi); by right).
    assert (s_out (if returns then flush stop s else s) = []) as ->; [|by split; [exists (said cs)|]].
    destruct returns; [|done]. unfold flush. by rewrite Hs, orb_true_r. }
  assert (∀ s', stream_inv (Some g) (said cs) s' → no_tool s' →
    (∃ rest, said cs = join "" (s_out s') +:+ rest) ∧ search TOOL_OBJ_RE (join "" (s_out s')) = false ∧
    (false = true → s_out s' = [])) as Hend by (intros s' [? ? ? ?] [? ? ?]; done).
  destruct returns; [|by apply Hend]. destruct (s_frozen s) eqn:Hf.
  - assert (flush stop s = s) as ->; [|by apply Hend]. unfold flush. rewrite (nt_frozen _ Hn Hf).
    by case_match.
  - destruct (inv_live _ _ _ Hi Hs Hf) as [_ Ha]. apply Hend; auto using flush_inv, flush_no_tool.
Qed.

(** ** Concrete runs *)

Definition chunk_at (t : string) (now : Q) : SChunk := {| ck_text := t; ck_now := now; ck_flushed := now |}.

(** Rules a reply opening with a brace a tool call, holds blanks, streams the rest. *)
Definition demo_gate : Gate := λ t,
  match lstrip t with
  | EmptyString => None
  | String c _ => Some (negb (c ≡? "{"%char))
  end.

Lemma demo_gate_decides : brace_decides demo_gate.
Proof.
  intros t. unfold demo_gate. induction t as [|c t IH]; [done|]. cbn [lstrip contains startswith].
  destruct (is_space c) eqn:E; [|done]. intros H. rewrite (IH H), orb_false_r, andb_true_r.
  apply bool_decide_eq_false. by intros <-.
Qed.

Definition demo_call : string := "{ " +:+ TOOL_WORD +:+ ": 1}".

Definition demo_chunks : list SChunk :=
  [chunk_at "  " 0; chunk_at "Sure, " 0; chunk_at demo_call (1 # 10); chunk_at " done" (3 # 10)].

Example demo_stream : stream_run 120 (1 # 5) (Some demo_gate) 0 demo_chunks true 1 = ["  Sure, "].
Proof. reflexivity. Qed.

Lemma stream_gated_safe_witness :
  search TOOL_OBJ_RE (said demo_chunks) = true ∧
  search TOOL_OBJ_RE (join "" (stream_run 120 (1 # 5) (Some demo_gate) 0 demo_chunks true 1)) = false.
Proof.
  split; [reflexivity|].
  apply (stream_gated_safe 120 (1 # 5) demo_gate 0 demo_chunks true 1 demo_gate_decides).
Defined.

(** A brace that left with an earlier batch stays published when the tool call shows. *)
Lemma brace_already_out :
  stream_run 5 1 (Some demo_gate) 0 [chunk_at "Hello {" 0; chunk_at TOOL_WORD 0] true 0 = ["Hello {"].
Proof. reflexivity. Qed.

(** Once a gate has held back an opening brace, the scan for a tool call is not armed, and
    the whole object streams. *)
Lemma held_brace_streams :
  let g : Gate := λ t, if str_len t <? 6 then None else Some true in
  search TOOL_OBJ_RE (join "" (stream_run 5 1 (Some g) 0
    [chunk_at "Ok {" 0; chunk_at (TOOL_WORD +:+ ": 1}") 0] true 0)) = true.
Proof. reflexivity. Qed.
