(* ===== verification/Knn.v ===== *)
(** * Embeddings and the experience proposer ([embeddings.py], [driver/knn.py])

    The embedder's cache and nearest-centroid skill, and the proposer that lets similar
    past tasks choose a model inside the lane already decided.  The provider, the durable
    cache, the task store and [math.sqrt] are parameters. *)

From S2P Require Import Prelude PyStr PyDict Schemas Catalog Resilience Effects.

Abbreviation vec := (list Q).

(** ** Cosine *)

Definition dot (a b : vec) : Q := foldr (λ p acc, (p.1 * p.2 + acc)%Q) 0%Q (zip a b).

Section cosine.
Context (math_sqrt : Q → Q).

Definition norm (a : vec) : Q := math_sqrt (dot a a).

Definition cos (a b : vec) : Q := (dot a b / (norm a * norm b + (1 # 1000000000)))%Q.
End cosine.

(** ** The embedder *)

Record EmbState := {
  em_mem : list (string * vec);
  em_centroids : option (list (string * vec));
  em_wire : list (list string);
  em_puts : list (string * vec);
}.

Definition new_embedder : EmbState :=
  {| em_mem := []; em_centroids := None; em_wire := []; em_puts := [] |}.

Definition remember (t : string) (v : vec) (s : EmbState) : EmbState :=
  {| em_mem := dset (em_mem s) t v; em_centroids := em_centroids s; em_wire := em_wire s;
     em_puts := em_puts s |}.

(** [sum(col) / len(col)] for the columns of [vs]: [zip] stops at the shortest vector. *)
Fixpoint columns_sum (vs : list vec) : vec :=
  match vs with
  | [] => []
  | [v] => v
  | v :: vs => (λ p, (p.1 + p.2)%Q) <$> zip v (columns_sum vs)
  end.

Definition centroid (vs : list vec) : vec :=
  (λ x, (x / Qz (Z.of_nat (length vs)))%Q) <$> columns_sum vs.

Section embedder.
Context (math_sqrt : Q → Q).
(** The provider's answer to a batch, [None] on any failure, and the durable cache: a read
    may raise, a write is best effort. *)
Context (provider : list (list string) → list string → option (list vec)).
Context (stored : option (list (string * vec) → string → res Exn (option vec))).
Context (exemplars : list (string * list string)).

(** [_embed_raw] *)
Definition embed_raw (texts : list string) : Eff Exn EmbState (option (list vec)) :=
  do! past := reads em_wire in
  modify (λ s, {| em_mem := em_mem s; em_centroids := em_centroids s;
                  em_wire := em_wire s ++ [texts]; em_puts := em_puts s |}) ;;
  mret (provider past texts).

Definition put_cached (t : string) (v : vec) : Eff Exn EmbState unit :=
  match stored with
  | None => mret tt
  | Some _ => modify (λ s, {| em_mem := em_mem s; em_centroids := em_centroids s;
                              em_wire := em_wire s; em_puts := em_puts s ++ [(t, v)] |})
  end.

Definition get_cached (t : string) : Eff Exn EmbState (option vec) :=
  match stored with
  | None => mret None
  | Some get => do! puts := reads em_puts in lift_as (λ e, e) (get puts t)
  end.

Definition embed_one (t : string) : Eff Exn EmbState (option vec) :=
  do! mem := reads em_mem in
  match dget mem t with
  | Some v => mret (Some v)
  | None =>
      do! hit := get_cached t in
      match hit with
      | Some v => modify (remember t v) ;; mret (Some v)
      | None =>
          do! out := embed_raw [t] in
          match out with
          | None => mret None
          | Some [] => throw (plain_exn "IndexError")
          | Some (v :: _) => modify (remember t v) ;; put_cached t v ;; mret (Some v)
          end
      end
  end.

Fixpoint remember_all (l : list (string * vec)) : Eff Exn EmbState unit :=
  match l with
  | [] => mret tt
  | (t, v) :: l => modify (remember t v) ;; put_cached t v ;; remember_all l
  end.

Fixpoint recall (mem : list (string * vec)) (texts : list string) : res Exn (list vec) :=
  match texts with
  | [] => Ok []
  | t :: texts =>
      match dget mem t with
      | Some v => try! vs := recall mem texts in Ok (v :: vs)
      | None => Err (plain_exn "KeyError")
      end
  end.

Definition embed_texts (texts : list string) : Eff Exn EmbState (option (list vec)) :=
  match texts with
  | [] => mret (Some [])
  | _ =>
      do! mem := reads em_mem in
      let misses := List.filter (λ t, negb (dmem mem t)) texts in
      let finish :=
        do! mem := reads em_mem in do! vs := lift_as (λ e, e) (recall mem texts) in mret (Some vs) in
      match misses with
      | [] => finish
      | _ =>
          do! got := embed_raw misses in
          match got with
          | None => mret None
          | Some vs => remember_all (zip misses vs) ;; finish
          end
      end
  end.

Definition flat_exemplars : list (string * string) :=
  flat_map (λ kv, (λ x, (kv.1, x)) <$> kv.2) exemplars.

(** [[vecs[i] for i, s in enumerate(order) if s == skill]] *)
Fixpoint vecs_of (skill : string) (order : list string) (vecs : list vec) : res Exn (list vec) :=
  match order with
  | [] => Ok []
  | s :: order =>
      try! rest := vecs_of skill order (tail vecs) in
      if s ≡? skill then
        match vecs with v :: _ => Ok (v :: rest) | [] => Err (plain_exn "IndexError") end
      else Ok rest
  end.

Fixpoint centroids_of (skills : list string) (order : list string) (vecs : list vec)
    : res Exn (list (string * vec)) :=
  match skills with
  | [] => Ok []
  | s :: skills =>
      try! sv := vecs_of s order vecs in
      try! rest := centroids_of skills order vecs in Ok ((s, centroid sv) :: rest)
  end.

(** [_ensure_centroids] *)
Definition ensure_centroids : Eff Exn EmbState (option (list (string * vec))) :=
  do! known := reads em_centroids in
  match known with
  | Some c => mret (Some c)
  | None =>
      do! vecs := embed_raw (snd <$> flat_exemplars) in
      match vecs with
      | None => mret None
      | Some vecs =>
          do! cents := lift_as (λ e, e) (centroids_of (fst <$> exemplars) (fst <$> flat_exemplars) vecs) in
          modify (λ s, {| em_mem := em_mem s; em_centroids := Some cents; em_wire := em_wire s;
                          em_puts := em_puts s |}) ;;
          mret (Some cents)
      end
  end.

Definition infer_skill_embed (t : string) : Eff Exn EmbState (option string) :=
  do! cents := ensure_centroids in
  match cents with
  | None => mret None
  | Some cents =>
      do! v := embed_one t in
      match v with
      | None => mret None
      | Some v =>
          match max_by (λ kv, cos math_sqrt v kv.2) cents with
          | Some kv => mret (Some kv.1)
          | None => throw (plain_exn "ValueError")
          end
      end
  end.
End embedder.

(** ** The experience proposer *)

(** One row of [store.experience_rows]; the vector as [json.loads] reads it. *)
Record RawRow := {
  rw_vector : res Exn vec;
  rw_model : string;
  rw_verdict : option string;
  rw_outcome : option string;
  rw_cost : option Q;
}.

Record Row := {
  r_vector : vec;
  r_model : string;
  r_lane : Lane;
  r_verdict : option string;
  r_outcome : string;
  r_cost : Q;
}.

Record Proposal := { prop_model : string; prop_reason : string }.

Record KnnConfig := {
  knn_k : nat;
  knn_sim : Q;
  knn_refresh : Q;
  knn_cost_coeff : Q;
}.

(** The parsed corpus and when it was loaded. *)
Record KnnState := { knn_rows : list Row; knn_loaded_at : Q }.

(** The loop of [_ensure_rows]: a row whose model left the catalog is dropped. *)
Fixpoint parse_rows (c : Catalog) (raw : list RawRow) : res Exn (list Row) :=
  match raw with
  | [] => Ok []
  | r :: raw =>
      match catalog_get c (rw_model r) with
      | None => parse_rows c raw
      | Some e =>
          try! v := rw_vector r in
          try! rows := parse_rows c raw in
          Ok ({| r_vector := v; r_model := rw_model r; r_lane := lane e; r_verdict := rw_verdict r;
                 r_outcome := match rw_outcome r with Some o => o | None => "" end;
                 r_cost := match rw_cost r with Some q => q | None => 0%Q end |} :: rows)
      end
  end.

(** [_ensure_rows]: [store] is read at most once per refresh period. *)
Definition ensure_rows (cfg : KnnConfig) (c : Catalog) (store : res Exn (list RawRow)) (now : Q)
    : Eff Exn KnnState unit :=
  do! s := reads (λ s, s) in
  if match knn_rows s with [] => false | _ => true end
     && Qltb (now - knn_loaded_at s) (knn_refresh cfg) then mret tt
  else
    do! rows := lift_as (λ e, e) (try! raw := store in parse_rows c raw) in
    modify (λ _, {| knn_rows := rows; knn_loaded_at := now |}).

Definition neighbor_quality (cfg : KnnConfig) (r : Row) : Q :=
  (1 + match r_verdict r with
       | Some v => if v ≡? "up" then 1 else if v ≡? "down" then - (3 # 2) else 0
       | None => 0
       end
   - (if r_outcome r ≡? "failed" then 1 else 0)
   - knn_cost_coeff cfg * r_cost r)%Q.

Definition voted (v : string) (r : Row) : nat :=
  match r_verdict r with Some w => if w ≡? v then 1 else 0 | None => 0 end.

(** The two running tables: the weighted support of each model, and its votes. *)
Record Tally := { t_scores : list (string * Q); t_votes : list (string * (nat * nat * nat)) }.

Definition score_of (t : Tally) (m : string) : Q :=
  match dget (t_scores t) m with Some q => q | None => 0%Q end.

Definition votes_of (t : Tally) (m : string) : nat * nat * nat :=
  match dget (t_votes t) m with Some v => v | None => (0, 0, 0) end.

Definition tally_step (cfg : KnnConfig) (l : Lane) (t : Tally) (n : Q * Row) : Tally :=
  let r := n.2 in
  if r_lane r ≡? l then
    let m := r_model r in
    let '(up, down, total) := votes_of t m in
    {| t_scores := dset (t_scores t) m (score_of t m + n.1 * neighbor_quality cfg r)%Q;
       t_votes := dset (t_votes t) m (up + voted "up" r, down + voted "down" r, S total) |}
  else t.

Definition tally (cfg : KnnConfig) (l : Lane) (ns : list (Q * Row)) : Tally :=
  foldl (tally_step cfg l) {| t_scores := []; t_votes := [] |} ns.

Definition proposal_reason (m : string) (v : nat * nat * nat) : string :=
  let '(up, down, total) := v in
  "knn: " +:+ str_of_nat total +:+ " similar tasks favored " +:+ m +:+ " (" +:+ str_of_nat up
  +:+ " up, " +:+ str_of_nat down +:+ " down)".

Definition neighbors (math_sqrt : Q → Q) (cfg : KnnConfig) (rows : list Row) (v : vec) : list (Q * Row) :=
  List.filter (λ n, Qleb (knn_sim cfg) n.1) ((λ r, (cos math_sqrt v (r_vector r), r)) <$> rows).

(** The body of [propose] once the corpus and the vector are there. *)
Definition vote (cfg : KnnConfig) (l : Lane) (ns : list (Q * Row)) : option Proposal :=
  if length ns <? knn_k cfg then None
  else
    let t := tally cfg l ns in
    match max_by snd (t_scores t) with
    | Some (best, s) =>
        if Qleb s 0 then None
        else Some {| prop_model := best; prop_reason := proposal_reason best (votes_of t best) |}
    | None => None
    end.

(** [propose]; [embed] is the embedder, when one is wired. *)
Definition propose (math_sqrt : Q → Q) (cfg : KnnConfig) (c : Catalog) (store : res Exn (list RawRow))
    (now : Q) (embed : option (string → res Exn (option vec))) (t : string) (l : Lane)
    : Eff Exn KnnState (option Proposal) :=
  match embed with
  | None => mret None
  | Some embed =>
      ensure_rows cfg c store now ;;
      do! s := reads (λ s, s) in
      match knn_rows s with
      | [] => mret None
      | rows =>
          do! v := lift_as (λ e, e) (embed t) in
          match v with
          | None => mret None
          | Some v => mret (vote cfg l (neighbors math_sqrt cfg rows v))
          end
      end
  end.

(** ** The vote against its reference *)

(** The support of a model: the sum, over the in-lane neighbours it ran, of similarity
    times quality. *)
Definition support (cfg : KnnConfig) (l : Lane) (ns : list (Q * Row)) (m : string) : Q :=
  foldr (λ n acc, (if bool_decide (r_lane n.2 = l ∧ r_model n.2 = m)
                   then n.1 * neighbor_quality cfg n.2 else 0) + acc)%Q 0%Q ns.

(** A model ran some neighbour in the lane. *)
Definition ran_in_lane (l : Lane) (ns : list (Q * Row)) (m : string) : Prop :=
  ∃ n, n ∈ ns ∧ r_lane n.2 = l ∧ r_model n.2 = m.

Definition counted (l : Lane) (f : Row → nat) (ns : list (Q * Row)) (m : string) : nat :=
  sum_list ((λ n, if bool_decide (r_lane n.2 = l ∧ r_model n.2 = m) then f n.2 else 0) <$> ns).

Definition contribution (cfg : KnnConfig) (l : Lane) (m : string) (n : Q * Row) : Q :=
  if bool_decide (r_lane n.2 = l ∧ r_model n.2 = m) then (n.1 * neighbor_quality cfg n.2)%Q else 0%Q.

Lemma support_snoc cfg l ns n m :
  (support cfg l (ns ++ [n]) m == support cfg l ns m + contribution cfg l m n)%Q.
Proof.
  assert (∀ n ns, support cfg l (n :: ns) m = (contribution cfg l m n + support cfg l ns m)%Q) as Hc
    by done.
  induction ns as [|x ns IH]; cbn [app]; rewrite !Hc; [|rewrite IH; lra].
  change (support cfg l [] m) with 0%Q. lra.
Qed.

Lemma counted_snoc l f ns n m :
  counted l f (ns ++ [n]) m = counted l f ns m +
    (if bool_decide (r_lane n.2 = l ∧ r_model n.2 = m) then f n.2 else 0).
Proof. unfold counted. rewrite fmap_app, sum_list_with_app. cbn. lia. Qed.

(** What the loop has tallied after [ns]. *)
Record tallied (cfg : KnnConfig) (l : Lane) (ns : list (Q * Row)) (t : Tally) : Prop := {
  tl_score m : (score_of t m == support cfg l ns m)%Q;
  tl_keys m : m ∈ dkeys (t_scores t) ↔ ran_in_lane l ns m;
  tl_votes m : votes_of t m = (counted l (voted "up") ns m, counted l (voted "down") ns m,
                               counted l (λ _, 1) ns m);
}.

Lemma ran_snoc l ns n m :
  ran_in_lane l (ns ++ [n]) m ↔ ran_in_lane l ns m ∨ (r_lane n.2 = l ∧ r_model n.2 = m).
Proof.
  unfold ran_in_lane. setoid_rewrite elem_of_app. setoid_rewrite list_elem_of_singleton.
  split; [intros (x & [?| ->] & ?)|intros [(x & ? & ?)|?]]; eauto.
Qed.

Lemma tally_spec cfg l ns : tallied cfg l ns (tally cfg l ns).
Proof.
  induction ns as [|n ns IH] using rev_ind.
  { split; [done| |done]. intros m. split; [by intros ?%elem_of_nil|]. by intros (? & ?%elem_of_nil & _). }
  unfold tally. rewrite foldl_app. fold (tally cfg l ns). cbn [foldl]. set (t := tally cfg l ns) in *.
  destruct IH as [Hs Hk Hv]. unfold tally_step.
  case_bool_decide as Hl.
  - rewrite (Hv (r_model n.2)). split; intros m.
    + rewrite support_snoc, <- Hs. unfold score_of at 1, contribution. cbn [t_scores].
      destruct (decide (m = r_model n.2)) as [->|Hne].
      * rewrite dget_dset_eq, bool_decide_eq_true_2 by done. reflexivity.
      * rewrite dget_dset_ne, bool_decide_eq_false_2 by naive_solver. fold (score_of t m). lra.
    + cbn [t_scores]. rewrite dkeys_dset, ran_snoc, <- Hk.
      destruct (dmem (t_scores t) (r_model n.2)) eqn:E.
      * apply dmem_spec in E. split; [by left|]. by intros [?|[_ Heq] ]; [|rewrite <- Heq].
      * rewrite elem_of_app, list_elem_of_singleton. naive_solver.
    + unfold votes_of. cbn [t_votes]. rewrite !counted_snoc.
      destruct (decide (m = r_model n.2)) as [->|Hne].
      * rewrite dget_dset_eq, !bool_decide_eq_true_2 by done. f_equal. lia.
      * rewrite dget_dset_ne, !bool_decide_eq_false_2 by naive_solver. fold (votes_of t m).
        rewrite Hv. by rewrite !Nat.add_0_r.
  - split; intros m.
    + rewrite support_snoc, <- Hs. unfold contribution. rewrite bool_decide_eq_false_2 by naive_solver. lra.
    + rewrite ran_snoc, <- Hk. naive_solver.
    + rewrite !counted_snoc, !bool_decide_eq_false_2, !Nat.add_0_r by naive_solver. apply Hv.
Qed.

Lemma tally_nodup cfg l ns : NoDup (dkeys (t_scores (tally cfg l ns))).
Proof.
  induction ns as [|n ns IH] using rev_ind; [constructor|].
  unfold tally. rewrite foldl_app. fold (tally cfg l ns). cbn [foldl]. unfold tally_step.
  case_bool_decide; [|done]. destruct (votes_of _ _) as [[??]?]. by apply NoDup_dset.
Qed.

Lemma vote_spec cfg l ns :
  match vote cfg l ns with
  | Some p => knn_k cfg ≤ length ns ∧ ran_in_lane l ns (prop_model p) ∧
      (0 < support cfg l ns (prop_model p))%Q ∧
      (∀ m, ran_in_lane l ns m → support cfg l ns m <= support cfg l ns (prop_model p))%Q ∧
      prop_reason p = proposal_reason (prop_model p)
        (counted l (voted "up") ns (prop_model p), counted l (voted "down") ns (prop_model p),
         counted l (λ _, 1) ns (prop_model p))
  | None => length ns < knn_k cfg ∨ ∀ m, ran_in_lane l ns m → (support cfg l ns m <= 0)%Q
  end.
Proof.
  pose proof (tally_spec cfg l ns) as [Hs Hk Hv]. pose proof (tally_nodup cfg l ns) as Hnd.
  assert (∀ m, ran_in_lane l ns m → (m, score_of (tally cfg l ns) m) ∈ t_scores (tally cfg l ns)) as Hin.
  { intros m Hm%Hk%dmem_spec. unfold dmem in Hm. unfold score_of.
    destruct (dget _ m) eqn:E; [by apply dget_elem|done]. }
  unfold vote. destruct (length ns <? knn_k cfg) eqn:Hlen; [left; by apply Nat.ltb_lt|].
  apply Nat.ltb_ge in Hlen. destruct (max_by snd _) as [[best s]|] eqn:E.
  - apply max_by_spec in E as [Hbest Hmax].
    assert (s == support cfg l ns best)%Q as Hsb.
    { rewrite <- Hs. unfold score_of. by rewrite (elem_dget _ _ _ Hnd Hbest). }
    assert (∀ m, ran_in_lane l ns m → support cfg l ns m <= support cfg l ns best)%Q as Hle.
    { intros m Hm. rewrite <- Hsb, <- Hs. exact (Hmax _ (Hin m Hm)). }
    destruct (Qleb s 0) eqn:Hpos; q_to_prop.
    + right. intros m Hm. apply Hle in Hm. lra.
    + cbn [prop_model prop_reason]. rewrite Hv. split; [done|]. split; [|split; [lra|done]].
      apply Hk. by apply (list_elem_of_fmap_2 fst) in Hbest.
  - right. intros m Hm%Hin. apply pick_first_none in E. rewrite E in Hm. by apply elem_of_nil in Hm.
Qed.

(** The vote against its reference.  It proposes a model exactly when there are [k]
    neighbours and some model has positive support in the lane; the model proposed is one
    a neighbour ran in that lane, none has more support, and the receipt counts its
    neighbours and their verdicts. *)
Theorem vote_exact cfg l ns :
  match vote cfg l ns with
  | Some p => knn_k cfg ≤ length ns ∧ ran_in_lane l ns (prop_model p) ∧
      (0 < support cfg l ns (prop_model p))%Q ∧
      (∀ m, ran_in_lane l ns m → support cfg l ns m <= support cfg l ns (prop_model p))%Q ∧
      prop_reason p = proposal_reason (prop_model p)
        (counted l (voted "up") ns (prop_model p), counted l (voted "down") ns (prop_model p),
         counted l (λ _, 1) ns (prop_model p))
  | None => length ns < knn_k cfg ∨ ∀ m, ran_in_lane l ns m → (support cfg l ns m <= 0)%Q
  end.
Proof. exact (vote_spec cfg l ns). Qed.

(** ** The corpus and the proposal *)

Lemma parse_rows_spec c raw rows r :
  parse_rows c raw = Ok rows → r ∈ rows →
  ∃ e, catalog_get c (r_model r) = Some e ∧ lane e = r_lane r.
Proof.
  revert rows. induction raw as [|x raw IH]; cbn; intros rows; [intros [= <-]; by intros ?%elem_of_nil|].
  destruct (catalog_get c (rw_model x)) as [e|] eqn:E; [|by apply IH].
  intros (v & _ & (rest & Hrest & [= <-])%res_bind_ok)%res_bind_ok. intros [->|Hr]%elem_of_cons; [|by eapply IH].
  by exists e.
Qed.

#[local] Arguments neighbors : simpl never.

Definition corpus_ok (c : Catalog) (s : KnnState) : Prop :=
  ∀ r, r ∈ knn_rows s → ∃ e, catalog_get c (r_model r) = Some e ∧ lane e = r_lane r.

(** A proposal never moves the task out of the lane the classifier decided, and names a
    model of the catalog; the corpus it votes over keeps that invariant. *)
Theorem propose_in_lane math_sqrt cfg c store now embed t l s p s' :
  corpus_ok c s → propose math_sqrt cfg c store now embed t l s = (p, s') →
  corpus_ok c s' ∧
  ∀ x, p = Ok (Some x) → ∃ e, catalog_get c (prop_model x) = Some e ∧ lane e = l.
Proof.
  intros Hc. unfold propose. destruct embed as [embed|]; [|by intros [= <- <-]].
  assert (∀ r s1, ensure_rows cfg c store now s = (r, s1) → corpus_ok c s1) as Hens.
  { unfold ensure_rows. intros r s1. cbn. case_match; [by intros [= <- <-]|].
    destruct store as [raw|e]; cbn; [|by intros [= <- <-]].
    destruct (parse_rows c raw) as [rows|e] eqn:E; cbn; intros [= <- <-]; [|done].
    intros r Hr. by eapply parse_rows_spec. }
  unfold mbind at 1. destruct (ensure_rows _ _ _ _ s) as [[[]|e] s1] eqn:E1; [|intros [= <- <-]; split; [by eapply Hens|done] ].
  specialize (Hens _ _ eq_refl). cbn. destruct (knn_rows s1) as [|r0 rows] eqn:Er; [by intros [= <- <-]|].
  destruct (embed t) as [ [v|]|e]; cbn; intros [= <- <-]; (split; [exact Hens|try done]).
  intros x [= Hx]. pose proof (vote_spec cfg l (neighbors math_sqrt cfg (r0 :: rows) v)) as Hv.
  rewrite Hx in Hv. destruct Hv as (_ & (n & Hn & Hl & Hm) & _).
  apply elem_of_bfilter in Hn as [(r & -> & Hr)%list_elem_of_fmap _]. cbn in Hl, Hm.
  rewrite <- Er in Hr. apply Hens in Hr as (e & He & Hlane). exists e. by rewrite <- Hm, <- Hl.
Qed.

(** ** The embedder *)

Section embedder_facts.
Context (math_sqrt : Q → Q) (provider : list (list string) → list string → option (list vec)).
Context (stored : option (list (string * vec) → string → res Exn (option vec))).
Context (exemplars : list (string * list string)).

Lemma embed_one_spec t s v s' :
  embed_one provider stored t s = (Ok (Some v), s') →
  dget (em_mem s') t = Some v ∧ em_centroids s' = em_centroids s ∧
  (∀ t', t' ≠ t → dget (em_mem s') t' = dget (em_mem s) t') ∧
  (em_wire s' = em_wire s ∨ em_wire s' = em_wire s ++ [[t]] ∧ dget (em_mem s) t = None).
Proof.
  unfold embed_one. cbn. destruct (dget (em_mem s) t) as [w|] eqn:E; [intros [= -> <-]; by auto|].
  unfold mbind, get_cached. destruct stored as [get|]; cbn.
  - destruct (get (em_puts s) t) as [[w|]|]; cbn; [intros [= -> <-]| |done].
    + cbn. rewrite dget_dset_eq. split_and!; [done..|intros; by apply dget_dset_ne|by left].
    + destruct (provider _ _) as [[|w ws]|]; cbn; [done| |done]. intros [= -> <-]. cbn.
      rewrite dget_dset_eq. split_and!; [done..|intros; by apply dget_dset_ne|by right].
  - destruct (provider _ _) as [[|w ws]|]; cbn; [done| |done]. intros [= -> <-]. cbn.
    rewrite dget_dset_eq. split_and!; [done..|intros; by apply dget_dset_ne|by right].
Qed.

(** A vector once learnt is served from memory: the provider is not asked again, and the
    vectors of other texts are untouched. *)
Theorem embed_one_memo t s v s' :
  embed_one provider stored t s = (Ok (Some v), s') →
  embed_one provider stored t s' = (Ok (Some v), s') ∧
  (∀ t', t' ≠ t → dget (em_mem s') t' = dget (em_mem s) t') ∧
  (em_wire s' = em_wire s ∨ em_wire s' = em_wire s ++ [[t]] ∧ dget (em_mem s) t = None).
Proof.
  intros (Hv & _ & Ho & Hw)%embed_one_spec. split; [|done]. unfold embed_one. cbn. by rewrite Hv.
Qed.

Lemma recall_aligned mem ts vs :
  recall mem ts = Ok vs → Forall2 (λ t v, dget mem t = Some v) ts vs.
Proof.
  revert vs. induction ts as [|t ts IH]; cbn; intros vs; [intros [= <-]; constructor|].
  destruct (dget mem t) as [v|] eqn:E; [|done]. intros (l & Hl & [= <-])%res_bind_ok. constructor; auto.
Qed.

(** A batch comes back aligned with its texts, each vector the one in memory afterwards;
    the provider was asked at most once, and only for texts that were not known. *)
Theorem embed_texts_aligned ts s vs s' :
  embed_texts provider stored ts s = (Ok (Some vs), s') →
  Forall2 (λ t v, dget (em_mem s') t = Some v) ts vs ∧
  (em_wire s' = em_wire s ∨ ∃ misses, em_wire s' = em_wire s ++ [misses] ∧
     ∀ t, t ∈ misses → t ∈ ts ∧ dget (em_mem s) t = None).
Proof.
  unfold embed_texts. destruct ts as [|t0 ts0]; [intros [= <- <-]; split; [constructor|by left]|].
  set (ts := t0 :: ts0). cbn -[ts]. set (misses := List.filter _ _).
  assert (∀ s1, (do! mem := reads em_mem in do! vs := lift_as (λ e, e) (recall mem ts) in mret (Some vs)) s1
    = (Ok (Some vs), s') → Forall2 (λ t v, dget (em_mem s') t = Some v) ts vs ∧ s' = s1) as Hfin.
  { intros s1 H. unfold mbind in H. cbn -[ts] in H. destruct (recall (em_mem s1) ts) as [l|] eqn:E; [|done].
    injection H as -> ->. split; [by apply recall_aligned|done]. }
  assert (∀ l s1, em_wire (remember_all stored l s1).2 = em_wire s1 ∧ is_ok (remember_all stored l s1).1 = true) as Hrem.
  { induction l as [|[t v] l IH]; intros s1; [done|]. cbn. destruct stored; cbn;
      match goal with |- context [remember_all _ l ?x] => exact (IH x) end. }
  destruct misses as [|m ms] eqn:Em; [intros [H ->]%Hfin; by auto|]. cbn -[ts].
  destruct (provider (em_wire s) (m :: ms)) as [got|]; [|done]. unfold mbind at 1.
  specialize (Hrem (zip (m :: ms) got) {| em_mem := em_mem s; em_centroids := em_centroids s;
    em_wire := em_wire s ++ [m :: ms]; em_puts := em_puts s |}).
  destruct (remember_all _ _ _) as [[[]|e] s2]; [|done]. destruct Hrem as [Hw _].
  intros [H ->]%Hfin. split; [done|]. right. exists (m :: ms). split; [exact Hw|].
  intros t Ht. rewrite <- Em in Ht. apply elem_of_bfilter in Ht as [Ht Hn]. split; [done|].
  unfold dmem in Hn. by destruct (dget (em_mem s) t).
Qed.

(** The skill inferred is the nearest of the centroids. *)
Theorem infer_skill_nearest t s k s' :
  infer_skill_embed math_sqrt provider stored exemplars t s = (Ok (Some k), s') →
  ∃ cents v c, dget (em_mem s') t = Some v ∧ em_centroids s' = Some cents ∧ (k, c) ∈ cents ∧
    ∀ k' c', (k', c') ∈ cents → (cos math_sqrt v c' <= cos math_sqrt v c)%Q.
Proof.
  unfold infer_skill_embed. intros (cents & s1 & Hens & H)%mbind_ok.
  destruct cents as [cents|]; [|done]. apply mbind_ok in H as (v & s2 & Hv & H). destruct v as [v|]; [|done].
  destruct (max_by _ cents) as [[k' c]|] eqn:E; [|done]. injection H as -> ->.
  apply max_by_spec in E as [Hin Hmax]. exists cents, v, c.
  assert (em_centroids s1 = Some cents) as Hc1.
  { unfold ensure_centroids in Hens. cbn in Hens. destruct (em_centroids s) eqn:Es; [by injection Hens as -> <-|].
    cbn in Hens. destruct (provider _ _) as [vs|]; [|done]. unfold mbind in Hens. cbn in Hens.
    destruct (centroids_of _ _ _) as [cs|]; [|done]. by injection Hens as -> <-. }
  apply embed_one_spec in Hv as (Hv & Hc & _). rewrite Hc. split_and!; [done..|].
  intros k'' c' Hk. exact (Hmax _ Hk).
Qed.
End embedder_facts.

(** ** Concrete runs *)

Definition demo_row (m : string) (v : option string) : RawRow :=
  {| rw_vector := Ok [1; 0]%Q; rw_model := m; rw_verdict := v; rw_outcome := Some "completed"; rw_cost := None |}.

Definition demo_knn : KnnConfig := {| knn_k := 2; knn_sim := 1 # 2; knn_refresh := 300; knn_cost_coeff := 0 |}.

Definition demo_corpus : res Exn (list RawRow) :=
  Ok [demo_row "gpt" (Some "up"); demo_row "gone" None; demo_row "gpt" (Some "down"); demo_row "local" (Some "up")].

Definition demo_propose (l : Lane) : res Exn (option Proposal) * KnnState :=
  propose (λ q, q) demo_knn demo_catalog demo_corpus 0 (Some (λ _, Ok (Some [1; 0]%Q))) "a task" l
    {| knn_rows := []; knn_loaded_at := 0 |}.

Example demo_proposal :
  (demo_propose frontier).1
  = Ok (Some {| prop_model := "gpt"; prop_reason := "knn: 2 similar tasks favored gpt (1 up, 1 down)" |}).
Proof. reflexivity. Qed.

Lemma propose_in_lane_witness :
  ∃ x, (demo_propose frontier).1 = Ok (Some x) ∧
    ∃ e, catalog_get demo_catalog (prop_model x) = Some e ∧ lane e = frontier.
Proof.
  eexists. split; [reflexivity|].
  eapply (propose_in_lane (λ q, q) demo_knn demo_catalog demo_corpus 0 (Some (λ _, Ok (Some [1; 0]%Q)))
            "a task" frontier {| knn_rows := []; knn_loaded_at := 0 |}); [|reflexivity..].
  by intros r ?%elem_of_nil.
Defined.

Lemma embed_texts_aligned_witness :
  ∃ vs s', embed_texts (λ _ ts, Some ((λ _, [1]%Q) <$> ts)) None ["a"; "b"; "a"] new_embedder = (Ok (Some vs), s') ∧
    length vs = 3.
Proof.
  eexists [[1]; [1]; [1]]%Q, _. split; [vm_compute; reflexivity|].
  destruct (embed_texts_aligned (λ _ ts, Some ((λ _, [1]%Q) <$> ts)) None ["a"; "b"; "a"] new_embedder
    [[1]; [1]; [1]]%Q
    (embed_texts (λ _ ts, Some ((λ _, [1]%Q) <$> ts)) None ["a"; "b"; "a"] new_embedder).2) as [H _];
    [reflexivity|].
  by apply Forall2_length in H.
Defined.
