(* ===== verification/Driver.v ===== *)
(** * The driver: contracts, executors and LLM calls ([driver/contracts.py], [driver/adapters.py], [driver/core.py])

    What the driver holds, what it sends out, and how one completion is made: the executor
    adapters, the retries and same-residency fallbacks of [_call], and the streamed answer.
    Everything that leaves the process is recorded in [DvState]: completion requests, texts
    handed to an embedder, proposer, corpus or tracer, subprocesses, HTTP calls to Toto. *)

From S2P Require Import Prelude PyStr PyDict Schemas Catalog Identity Policy Resilience Benchmarks Labels.
From S2P Require Import Classify Prompts Effects TotoClient Streaming Knn.

(** ** Contracts *)

Record Exec := {
  ex_text : string;
  ex_model : string;
  ex_lane : string;
  ex_tokens_prompt : Z;
  ex_tokens_completion : Z;
  ex_tokens_cached : Z;
  ex_cost_usd : option Q;
  ex_latency_ms : Z;
  ex_adapter : string;
  ex_upstream_model : string;
  ex_provider : string;
  ex_generation_id : string;
}.

Definition with_adapter (a : string) (x : Exec) : Exec :=
  {| ex_text := ex_text x; ex_model := ex_model x; ex_lane := ex_lane x;
     ex_tokens_prompt := ex_tokens_prompt x; ex_tokens_completion := ex_tokens_completion x;
     ex_tokens_cached := ex_tokens_cached x; ex_cost_usd := ex_cost_usd x;
     ex_latency_ms := ex_latency_ms x; ex_adapter := a; ex_upstream_model := ex_upstream_model x;
     ex_provider := ex_provider x; ex_generation_id := ex_generation_id x |}.

(** One task of a run.  [tk_local] is the residency mark [decide_one] leaves on it. *)
Record Task := {
  tk_task : string;
  tk_description : string;
  tk_metadata : list (string * json);
  tk_item_id : option json;
  tk_authored : bool;
  tk_local : bool;
  tk_blocked : bool;
  tk_lane : option string;
  tk_model : option string;
  tk_tools : list string;
  tk_skill : option string;
  tk_residency : option string;
  tk_result : option string;
  tk_execution : option (list (string * json));
}.

Definition new_task (task description : string) (metadata : list (string * json)) : Task :=
  {| tk_task := task; tk_description := description; tk_metadata := metadata; tk_item_id := None;
     tk_authored := false; tk_local := false; tk_blocked := false; tk_lane := None; tk_model := None;
     tk_tools := []; tk_skill := None; tk_residency := None; tk_result := None; tk_execution := None |}.

Definition set_item (i : option json) (t : Task) : Task :=
  {| tk_task := tk_task t; tk_description := tk_description t; tk_metadata := tk_metadata t;
     tk_item_id := i; tk_authored := tk_authored t; tk_local := tk_local t; tk_blocked := tk_blocked t;
     tk_lane := tk_lane t; tk_model := tk_model t; tk_tools := tk_tools t; tk_skill := tk_skill t;
     tk_residency := tk_residency t; tk_result := tk_result t; tk_execution := tk_execution t |}.

Definition set_authored (t : Task) : Task :=
  {| tk_task := tk_task t; tk_description := tk_description t; tk_metadata := tk_metadata t;
     tk_item_id := tk_item_id t; tk_authored := true; tk_local := tk_local t; tk_blocked := tk_blocked t;
     tk_lane := tk_lane t; tk_model := tk_model t; tk_tools := tk_tools t; tk_skill := tk_skill t;
     tk_residency := tk_residency t; tk_result := tk_result t; tk_execution := tk_execution t |}.

Definition set_local (b : bool) (t : Task) : Task :=
  {| tk_task := tk_task t; tk_description := tk_description t; tk_metadata := tk_metadata t;
     tk_item_id := tk_item_id t; tk_authored := tk_authored t; tk_local := b; tk_blocked := tk_blocked t;
     tk_lane := tk_lane t; tk_model := tk_model t; tk_tools := tk_tools t; tk_skill := tk_skill t;
     tk_residency := tk_residency t; tk_result := tk_result t; tk_execution := tk_execution t |}.

(** The fields an execution, a block or a failure writes. *)
Record Outcome := {
  o_blocked : bool;
  o_lane : option string;
  o_model : option string;
  o_tools : option (list string);
  o_skill : option string;
  o_residency : option string;
  o_result : option string;
  o_execution : list (string * json);
}.

Definition or_keep {A} (o k : option A) : option A := match o with Some x => Some x | None => k end.

Definition settle_task (o : Outcome) (t : Task) : Task :=
  {| tk_task := tk_task t; tk_description := tk_description t; tk_metadata := tk_metadata t;
     tk_item_id := tk_item_id t; tk_authored := tk_authored t; tk_local := tk_local t;
     tk_blocked := o_blocked o || tk_blocked t; tk_lane := o_lane o; tk_model := o_model o;
     tk_tools := match o_tools o with Some l => l | None => tk_tools t end;
     tk_skill := or_keep (o_skill o) (tk_skill t);
     tk_residency := or_keep (o_residency o) (tk_residency t);
     tk_result := o_result o; tk_execution := Some (o_execution o) |}.

(** [f"{t.get('task', '')}\n\n{t.get('description', '')}"] *)
Definition task_text (t : Task) : string := tk_task t +:+ newline +:+ newline +:+ tk_description t.

Record Span := { sp_node : string; sp_data : list (string * json) }.

(** [_privacy_pinned] *)
Definition privacy_pinned (reason : string) : bool :=
  startswith "privacy" reason || contains "downgrade_local" reason.

(** [_first_in_perimeter_model] *)
Definition first_in_perimeter_model (c : Catalog) : option string :=
  match first_such (λ e, (residency_class e ≡? in_perimeter) && negb (endpoint e ≡? "fake")) c
        orelse first_such (λ e, residency_class e ≡? in_perimeter) c with
  | Some e => Some (id e)
  | None => None
  end.

(** [query.split()] joined by single spaces. *)
Fixpoint split_space (cur : string) (s : string) : list string :=
  match s with
  | EmptyString => if cur ≡? "" then [] else [cur]
  | String c s =>
      if is_space c then if cur ≡? "" then split_space "" s else cur :: split_space "" s
      else split_space (cur +:+ String c "") s
  end.

(** [_list_name] *)
Definition list_name (query : string) : string :=
  let q := join " " (split_space "" query) in
  if 58 <? str_len q then str_take 57 q +:+ "…" else if q ≡? "" then "toto session" else q.

Definition MAX_DECOMPOSE_TASKS : nat := 4.

Record RouteDecision := {
  rd_dec : option TaskDecision;
  rd_rejected : list Rejected;
  rd_label : option string;
  rd_label_metadata : option (list (string * json));
  rd_local_pinned : bool;
  rd_blocked : bool;
  rd_block_reasons : list string;
  rd_spans : list Span;
}.

(** ** What leaves the process *)

(** Where a text is handed to: the embedder, the experience proposer, the corpus writer,
    the customer's own tracer. *)
Inductive Sink : Type := SEmbedder | SKnn | SCorpus | STracer.

(** One completion asked of the gateway. *)
Record LlmCall := { lc_name : string; lc_req : ChatCompletionRequest }.

(** One subprocess: its arguments, its standard input, the variables added to its
    environment. *)
Record Proc := { pr_runner : string; pr_argv : list string; pr_stdin : string; pr_env : list string }.

(** The state of a run, or of one task of it: [dv_scope] is 0 for the run and [S i] for
    task [i], whose record is [dv_task]. *)
Record DvState := {
  dv_scope : nat;
  dv_task : Task;
  dv_http : list HttpCall;
  dv_llm : list LlmCall;
  dv_texts : list (Sink * string);
  dv_procs : list Proc;
  dv_deltas : list (string * string);
  dv_spans : list Span;
}.

Definition push_http (x : HttpCall) '(Build_DvState a b c d e f g h) : DvState :=
  Build_DvState a b (c ++ [x]) d e f g h.
Definition push_llm (x : LlmCall) '(Build_DvState a b c d e f g h) : DvState :=
  Build_DvState a b c (d ++ [x]) e f g h.
Definition push_text (x : Sink * string) '(Build_DvState a b c d e f g h) : DvState :=
  Build_DvState a b c d (e ++ [x]) f g h.
Definition push_proc (x : Proc) '(Build_DvState a b c d e f g h) : DvState :=
  Build_DvState a b c d e (f ++ [x]) g h.
Definition push_deltas (x : list (string * string)) '(Build_DvState a b c d e f g h) : DvState :=
  Build_DvState a b c d e f (g ++ x) h.
Definition push_span (x : Span) '(Build_DvState a b c d e f g h) : DvState :=
  Build_DvState a b c d e f g (h ++ [x]).
Definition put_task (x : Task) '(Build_DvState a b c d e f g h) : DvState :=
  Build_DvState a x c d e f g h.

(** The logs of a task joined to those of the run that dispatched it. *)
Definition absorb (s t : DvState) : DvState :=
  {| dv_scope := dv_scope s; dv_task := dv_task s; dv_http := dv_http s ++ dv_http t;
     dv_llm := dv_llm s ++ dv_llm t; dv_texts := dv_texts s ++ dv_texts t;
     dv_procs := dv_procs s ++ dv_procs t; dv_deltas := dv_deltas s ++ dv_deltas t;
     dv_spans := dv_spans s ++ dv_spans t |}.

Definition fresh_state (scope : nat) (t : Task) : DvState :=
  {| dv_scope := scope; dv_task := t; dv_http := []; dv_llm := []; dv_texts := []; dv_procs := [];
     dv_deltas := []; dv_spans := [] |}.

(** ** The driver *)

(** [store.get_preferences]. *)
Record Prefs := {
  pf_optimize : option string;
  pf_pins : list (string * string);
  pf_label_models : list (string * string);
}.

Definition no_prefs : Prefs := {| pf_optimize := None; pf_pins := []; pf_label_models := [] |}.

(** A provider stream: the clock when it opens, its chunks, its result or exception, and the
    clock at the last flush. *)
Record StreamAnswer := {
  sa_start : Q;
  sa_chunks : list SChunk;
  sa_result : res Exn Exec;
  sa_stop : Q;
}.

(** The constructor's arguments and the outside world; an answer may depend on everything
    the run or the task has done so far. *)
Record Driver := {
  dr_catalog : Catalog;
  dr_who : Identity;
  dr_benchmarks : Benchmarks;
  dr_driver_model : string;
  dr_triage_model : string;
  dr_guard : list Message → GuardVerdict;
  dr_max_tokens : list (string * Z);
  dr_retries : nat;
  dr_labels : option LabelBindings;
  dr_label_model : string;
  dr_embed_routing : bool;
  dr_corpus : bool;
  dr_subagents : bool;
  dr_has_toto : bool;
  dr_tracing : bool;
  dr_has_openai : bool;
  dr_delta_chars : nat;
  dr_delta_secs : Q;
  dr_claude_bin : string;
  dr_pi_bin : string;
  complete_fn : DvState → ChatCompletionRequest → res Exn Exec;
  stream_fn : option (DvState → ChatCompletionRequest → StreamAnswer);
  label_in_time : DvState → bool;
  embedder : option (DvState → string → res Exn (option string));
  experience : option (DvState → string → Lane → res Exn (option Proposal));
  preferences : option string → res Exn Prefs;
  dr_policy : res string (option Policy);
  toto_reply : DvState → HttpCall → res Exn json;
  which : string → option string;
  run_subagent : DvState → Proc → res Exn (string * string * Z);
  elapsed_ms : DvState → Z;
  py_int : json → res Exn Z;
  loads : string → option json;
  sha256 : string → string;
  now_of : DvState → json;
  exn_text : Exn → string;
  triage_prompt : string;
  decompose_prompt : string;
  decompose_nudge : string;
  label_prompt : string;
  direct_prompt : string;
  synthesize_prompt : string;
  revise_prompt : string;
  executor_prompt : string;
}.

Abbreviation D := (Eff Exn DvState).

Definition jopt (o : option string) : json := match o with Some s => JStr s | None => JNull end.
Definition jcost (o : option Q) : json := match o with Some q => JFloat q "" | None => JNull end.

(** The executor adapters and the calls of one driver. *)
Section calls.
Context (d : Driver).

#[local] Instance driver_transport : Transport DvState.
Proof.
  refine {| tr_calls := dv_http; tr_push := push_http; tr_reply := toto_reply d |}. by intros c [].
Defined.

(** [_emit] *)
Definition emit (node : string) (data : list (string * json)) : D Span :=
  let sp := {| sp_node := node; sp_data := data |} in modify (push_span sp) ;; mret sp.

Lemma mbind_emit {A} node data (k : Span → D A) s :
  mbind (emit node data) k s = k {| sp_node := node; sp_data := data |} (push_span {| sp_node := node; sp_data := data |} s).
Proof. done. Qed.

Definition error_text (e : Exn) : string := exn_type e +:+ ": " +:+ exn_text d e.

(** [_toto]: best effort, a failure is a span. *)
Definition toto {A} (call : D A) (op : string) : D (option A * list Span) :=
  if dr_has_toto d then
    do! r := attempt call in
    match r with
    | Ok a => mret (Some a, [])
    | Err e =>
        do! sp := emit "toto_error" [("op", JStr op); ("error", JStr (error_text e))] in
        mret (None, [sp])
    end
  else mret (None, []).

(** ** Requests *)

Definition message_of (m : PromptMsg) : Message :=
  {| role := pm_role m; name := None;
     content_of := if pm_cached m
                   then CParts [ [("type", JStr "text"); ("text", JStr (pm_content m));
                                  ("cache_control", JObj [("type", JStr "ephemeral")])] ]
                   else CText (pm_content m) |}.

Definition with_limits (r : ChatCompletionRequest) (mt : option Z) (temp : option Q) : ChatCompletionRequest :=
  {| model := model r; messages := messages r; stream := stream r; stream_options := stream_options r;
     temperature := temp; top_p := top_p r; max_tokens := mt; stop := stop r; n_choices := n_choices r;
     user := user r; conversation_key := conversation_key r; cache_prefs := cache_prefs r;
     model_extra := model_extra r |}.

Definition request (m : string) (ms : list PromptMsg) (mt : option Z) (temp : option Q) : ChatCompletionRequest :=
  with_limits (request_of m (message_of <$> ms)) mt temp.

Definition cap (role : string) : option Z := dget (dr_max_tokens d) role.

(** The text of a request's messages, as a tracer or a subagent is given it. *)
Definition message_text (m : Message) : string := match text m with Ok t => t | Err _ => "" end.

(** ** Executor adapters *)

Definition subagent_error : Exn :=
  {| exn_type := "SubagentError"; exn_mro := ["SubagentError"; "RuntimeError"; "Exception"];
     status_code := None; retry_after_header := None |}.

(** [(metadata.get("requires") or {}).get(k)] *)
Definition requires_get (md : list (string * json)) (k : string) : res Exn (option json) :=
  match dget md "requires" with
  | Some v => if truthy v then json_get v k else Ok None
  | None => Ok None
  end.

(** [_prompt_parts] *)
Definition prompt_parts (r : ChatCompletionRequest) : string * string :=
  let part f := strip (join (newline +:+ newline) (message_text <$> List.filter f (messages r))) in
  (part (λ m, role m ≡? "system"), part (λ m, negb (role m ≡? "system"))).

Definition resolve_bin (bin : string) : res Exn string :=
  match which d bin with Some b => Ok b | None => Err subagent_error end.

Definition OUTPUT_CAP : nat := Z.to_nat 65536.

Definition launch (p : Proc) : D (string * string * Z) :=
  modify (push_proc p) ;;
  λ s, match run_subagent d s p with
       | Ok (out, err, rc) => (Ok (str_take OUTPUT_CAP out, str_take OUTPUT_CAP err, rc), s)
       | Err e => (Err e, s)
       end.

(** [GatewayAdapter.run] *)
Definition complete (name : string) (r : ChatCompletionRequest) : D Exec :=
  modify (push_llm {| lc_name := name; lc_req := r |}) ;; λ s, (complete_fn d s r, s).

Definition gateway_run (name : string) (r : ChatCompletionRequest) : D Exec :=
  do! x := complete name r in mret (with_adapter "gateway" x).

Definition system_args (system : string) : list string :=
  if system ≡? "" then [] else ["--append-system-prompt"; system].

(** [int(usage.get(k) or 0)] *)
Definition usage_int (usage : json) (k : string) : res Exn Z :=
  try! v := json_get usage k in
  match v with Some v => if truthy v then py_int d v else Ok 0%Z | None => Ok 0%Z end.

Definition or_object (o : option json) : json :=
  match o with Some v => if truthy v then v else JObj [] | None => JObj [] end.

(** The JSON result of a headless run, as an [Exec]. *)
Definition claude_exec (m : string) (elapsed : Z) (data : json) : res Exn Exec :=
  try! is_error := json_get data "is_error" in
  try! subtype := json_get data "subtype" in
  if match is_error with Some v => truthy v | None => false end
     || negb match subtype with Some (JStr s) => s ≡? "success" | _ => false end
  then Err subagent_error
  else
    try! usage := json_get data "usage" in
    let usage := or_object usage in
    try! result := json_get data "result" in
    try! tin := usage_int usage "input_tokens" in
    try! tout := usage_int usage "output_tokens" in
    try! tc := usage_int usage "cache_read_input_tokens" in
    try! cost := json_get data "total_cost_usd" in
    try! dur := json_get data "duration_ms" in
    try! latency := match dur with Some v => if truthy v then py_int d v else Ok elapsed | None => Ok elapsed end in
    Ok {| ex_text := match result with Some v => if truthy v then json_str v else "" | None => "" end;
          ex_model := m; ex_lane := ""; ex_tokens_prompt := tin; ex_tokens_completion := tout;
          ex_tokens_cached := tc;
          ex_cost_usd := match cost with Some (JFloat q _) => Some q | Some (JInt z) => Some (Qz z) | _ => None end;
          ex_latency_ms := latency; ex_adapter := "claude_code"; ex_upstream_model := "";
          ex_provider := ""; ex_generation_id := "" |}.

(** [ClaudeCodeAdapter.run] *)
Definition claude_run (r : ChatCompletionRequest) : D Exec :=
  do! bin := plain_lift (resolve_bin (dr_claude_bin d)) in
  let '(system, task) := prompt_parts r in
  do! o := launch {| pr_runner := "claude_code"; pr_stdin := task; pr_env := [];
                     pr_argv := [bin; "-p"; "--output-format"; "json"] ++ system_args system |} in
  let '(out, err, rc) := o in
  if negb (rc =? 0)%Z then throw subagent_error
  else match loads d out with
       | None => throw subagent_error
       | Some data =>
           do! ms := reads (elapsed_ms d) in plain_lift (claude_exec (model r) ms data)
       end.

(** [PiAdapter.run] *)
Definition pi_run (r : ChatCompletionRequest) : D Exec :=
  do! bin := plain_lift (resolve_bin (dr_pi_bin d)) in
  let '(system, task) := prompt_parts r in
  do! o := launch {| pr_runner := "pi"; pr_stdin := task; pr_env := ["PI_CODING_AGENT_DIR"];
                     pr_argv := [bin; "-p"; "--no-session"; "--no-extensions"; "--no-skills";
                                 "--no-prompt-templates"; "--no-context-files"; "--provider";
                                 "toto-gateway"; "--model"; model r] ++ system_args system |} in
  let '(out, err, rc) := o in
  if negb (rc =? 0)%Z then throw subagent_error
  else
    do! ms := reads (elapsed_ms d) in
    mret {| ex_text := strip out; ex_model := model r; ex_lane := ""; ex_tokens_prompt := 0;
            ex_tokens_completion := 0; ex_tokens_cached := 0; ex_cost_usd := None;
            ex_latency_ms := ms; ex_adapter := "pi"; ex_upstream_model := ""; ex_provider := "";
            ex_generation_id := "" |}.

Inductive Harness : Type := HPi | HClaude | HGateway.

(** [AdapterRegistry.select]: the first adapter that handles the task. *)
Definition select (md : list (string * json)) : res Exn Harness :=
  if dr_subagents d then
    try! r := requires_get md "runner" in
    Ok (match r with
        | Some (JStr s) => if s ≡? "pi" then HPi else if s ≡? "claude_code" then HClaude else HGateway
        | _ => HGateway
        end)
  else Ok HGateway.

Definition adapters_run (name : string) (md : list (string * json)) (r : ChatCompletionRequest) : D Exec :=
  do! h := plain_lift (select md) in
  match h with
  | HPi => pi_run r
  | HClaude => claude_run r
  | HGateway => gateway_run name r
  end.

(** ** One call with its retries and fallbacks ([_call]) *)

Definition llm_span (name : string) (x : Exec) : list (string * json) :=
  [("model", JStr (ex_model x)); ("upstream_model", JStr (ex_upstream_model x));
   ("provider", JStr (ex_provider x)); ("generation_id", JStr (ex_generation_id x));
   ("tokens_prompt", JInt (ex_tokens_prompt x)); ("tokens_completion", JInt (ex_tokens_completion x));
   ("tokens_cached", JInt (ex_tokens_cached x)); ("cost_usd", jcost (ex_cost_usd x));
   ("latency_ms", JInt (ex_latency_ms x)); ("name", JStr name)].

(** [_run_traced] *)
Definition run_traced (name : string) (run : ChatCompletionRequest → D Exec) (r : ChatCompletionRequest) : D Exec :=
  (if dr_tracing d
   then modify (push_text (STracer, join newline (message_text <$> messages r))) else mret tt) ;;
  do! x := run r in
  emit "llm_call" (llm_span name x) ;; mret x.

(** The retries of one model: its answer, or the first failure seen so far. *)
Fixpoint try_model (n : nat) (name : string) (run : ChatCompletionRequest → D Exec)
    (r : ChatCompletionRequest) (first : option Exn) : D (res Exn Exec) :=
  do! o := attempt (run_traced name run r) in
  match o with
  | Ok x => mret (Ok x)
  | Err e =>
      if negb (is_retryable (dr_has_openai d) e) then throw e
      else
        let first := match first with Some f => f | None => e end in
        match n with
        | O => mret (Err first)
        | S n => try_model n name run r (Some first)
        end
  end.

Definition fallback_note (from to : string) (first : option Exn) : string :=
  "fallback: " +:+ from +:+ " " +:+ err_label first +:+ " → " +:+ to.

Fixpoint try_models (i : nat) (head : string) (ms : list string) (name : string)
    (run : ChatCompletionRequest → D Exec) (req : ChatCompletionRequest) (first : option Exn)
    : D (Exec * string * option string) :=
  match ms with
  | [] => throw (match first with Some e => e | None => plain_exn "TypeError" end)
  | m :: ms =>
      do! o := try_model (dr_retries d) name run (if m ≡? model req then req else with_model req m) first in
      match o with
      | Ok x => mret (x, m, if i =? 0 then None else Some (fallback_note head m first))
      | Err first =>
          match ms with
          | [] => throw first
          | next :: _ =>
              emit "model_fallback" [("from", JStr m); ("to", JStr next);
                                     ("reason", JStr (err_label (Some first)));
                                     ("attempt", JInt (Z.of_nat (S i)))] ;;
              try_models (S i) head ms name run req (Some first)
          end
      end
  end.

(** [_call] *)
Definition call (req : ChatCompletionRequest) (run : ChatCompletionRequest → D Exec) (name : string)
    (privacy : bool) : D (Exec * string * option string) :=
  try_models 0 (model req) (model req :: fallbacks (dr_catalog d) (model req) privacy) name run req None.

(** [_llm] *)
Definition llm (m : string) (ms : list PromptMsg) (name : string) (mt : option Z) (temp : option Q) : D Exec :=
  do! r := call (request m ms mt temp) (complete name) name false in mret r.1.1.

(** One streamed attempt. *)
Definition run_stream (f : DvState → ChatCompletionRequest → StreamAnswer) (name node : string)
    (r : ChatCompletionRequest) : D Exec :=
  modify (push_llm {| lc_name := name; lc_req := r |}) ;;
  do! a := reads (λ s, f s r) in
  modify (push_deltas (pair node <$>
    stream_run (dr_delta_chars d) (dr_delta_secs d) None (sa_start a) (sa_chunks a) (is_ok (sa_result a)) (sa_stop a))) ;;
  plain_lift (sa_result a).

(** [_answer] *)
Definition answer (m : string) (ms : list PromptMsg) (name node : string) (mt : option Z) : D Exec :=
  match stream_fn d with
  | None => llm m ms name mt None
  | Some f => do! r := call (request m ms mt None) (run_stream f name node) name false in mret r.1.1
  end.
End calls.

(** ** What a computation sends out *)

(** Everything new that leaves between two states: completions of a kind [P], texts of a
    kind [T], subprocesses of a kind [R].  HTTP calls to Toto are [TotoClient]'s concern. *)
Record egress (P : LlmCall → Prop) (T : Sink * string → Prop) (R : Proc → Prop) (s s' : DvState) : Prop := {
  eg_llm : ∃ l, dv_llm s' = dv_llm s ++ l ∧ Forall P l;
  eg_texts : ∃ l, dv_texts s' = dv_texts s ++ l ∧ Forall T l;
  eg_procs : ∃ l, dv_procs s' = dv_procs s ++ l ∧ Forall R l;
}.

Lemma grows_refl {A} (P : A → Prop) (l : list A) : ∃ x, l = l ++ x ∧ Forall P x.
Proof. exists []. by rewrite app_nil_r. Qed.

Lemma grows_trans {A} (P : A → Prop) (l1 l2 l3 : list A) :
  (∃ x, l2 = l1 ++ x ∧ Forall P x) → (∃ x, l3 = l2 ++ x ∧ Forall P x) → ∃ x, l3 = l1 ++ x ∧ Forall P x.
Proof.
  intros (x & -> & Hx) (y & -> & Hy). exists (x ++ y). rewrite app_assoc. split; [done|].
  by apply Forall_app.
Qed.

Lemma grows_one {A} (P : A → Prop) (l : list A) a : P a → ∃ x, l ++ [a] = l ++ x ∧ Forall P x.
Proof. intros Ha. exists [a]. split; [done|]. by constructor. Qed.

#[export] Instance egress_pre P T R : PreOrder (egress P T R).
Proof.
  split; [intros s; split; apply grows_refl|].
  intros s1 s2 s3 [???] [???]; split; by eapply grows_trans.
Qed.

Lemma grows_impl {A} (P Q : A → Prop) (l l' : list A) :
  (∀ x, P x → Q x) → (∃ x, l' = l ++ x ∧ Forall P x) → ∃ x, l' = l ++ x ∧ Forall Q x.
Proof. intros H (x & -> & Hx). exists x. split; [done|]. by eapply Forall_impl. Qed.

Lemma egress_impl (P P' : LlmCall → Prop) (T T' : Sink * string → Prop) (R R' : Proc → Prop) s s' :
  (∀ x, P x → P' x) → (∀ x, T x → T' x) → (∀ x, R x → R' x) → egress P T R s s' → egress P' T' R' s s'.
Proof. intros ??? [???]; split; by eapply grows_impl. Qed.

(** Nothing at all. *)
Definition never {A} (_ : A) : Prop := False.
Abbreviation silent := (egress never never never).

Lemma silent_egress P T R s s' : silent s s' → egress P T R s s'.
Proof. apply egress_impl; by intros ? []. Qed.

Lemma keeps_silent {A} P T R (m : D A) : keeps silent m → keeps (egress P T R) m.
Proof. intros H s. apply silent_egress, H. Qed.

(** What every operation of the driver does to a relation between states: it may log calls
    to Toto, spans and deltas, completions of a kind [P], texts of a kind [T] and
    subprocesses of a kind [R]. *)
Class Logs (Rel : DvState → DvState → Prop) := {
  lg_pre :: PreOrder Rel;
  may_llm : LlmCall → Prop;
  may_text : Sink * string → Prop;
  may_proc : Proc → Prop;
  lg_http c s : Rel s (push_http c s);
  lg_span x s : Rel s (push_span x s);
  lg_deltas l s : Rel s (push_deltas l s);
  lg_llm x s : may_llm x → Rel s (push_llm x s);
  lg_text x s : may_text x → Rel s (push_text x s);
  lg_proc x s : may_proc x → Rel s (push_proc x s);
}.

#[export] Instance egress_logs P T R : Logs (egress P T R).
Proof.
  refine {| may_llm := P; may_text := T; may_proc := R |};
    abstract (intros ? []; intros; split; cbn; first [apply grows_refl | by apply grows_one]).
Defined.

(** The task of the scope is the same. *)
Definition same_task (s s' : DvState) : Prop := dv_task s' = dv_task s.

#[export] Instance same_task_pre : PreOrder same_task.
Proof. split; [done|]. intros s1 s2 s3 H1 H2. unfold same_task in *. congruence. Qed.

Definition always {A} (_ : A) : Prop := True.

#[export] Instance same_task_logs : Logs same_task.
Proof. refine {| may_llm := always; may_text := always; may_proc := always |}; abstract (by intros ? []). Defined.

(** [apply] of a lemma over a [Logs] relation. *)
Tactic Notation "logs" uconstr(l) := unshelve (eapply l); try match goal with |- Logs _ => apply _ end.

Section send.
Context (d : Driver) (Rel : DvState → DvState → Prop) `{!Logs Rel}.
#[local] Instance send_transport : Transport DvState := driver_transport d.
Abbreviation sends := (keeps (E := Exn) Rel).

Lemma emit_sends node data : sends (emit node data).
Proof.
  apply keeps_bind; [apply _| |intros ?; apply keeps_ret; apply _].
  intros s. apply lg_span.
Qed.

Lemma http_sends (c : HttpCall) : sends (http_call c).
Proof.
  apply keeps_bind; [apply _| |].
  - intros s. apply lg_http.
  - intros ? []. cbn. reflexivity.
Qed.

Lemma set_status_sends i st : sends (set_status i st).
Proof. unfold set_status, http_post. repeat first [logs http_sends | keeps_step]. Qed.

Lemma write_execution_sends i e c : sends (write_execution i e c).
Proof. unfold write_execution, http_post, http_get, plain_lift. repeat first [logs http_sends | keeps_step]. Qed.

Lemma create_list_sends n m : sends (create_list n m).
Proof. unfold create_list, http_post, plain_lift. repeat first [logs http_sends | keeps_step]. Qed.

Lemma batch_items_sends l i : sends (batch_items l i).
Proof. unfold batch_items, http_post, http_get, plain_lift. repeat first [logs http_sends | keeps_step]. Qed.

Lemma toto_sends {A} (m : D A) op : sends m → sends (toto d m op).
Proof.
  intros Hm. unfold toto. case_match; [|apply keeps_ret; apply _].
  repeat first [exact Hm | logs emit_sends | keeps_step].
Qed.

Lemma deltas_sends l : sends (modify (push_deltas l)).
Proof. intros s. apply lg_deltas. Qed.

Lemma text_sends x : may_text x → sends (modify (push_text x)).
Proof. intros H s. by apply lg_text. Qed.

Lemma llm_sends x : may_llm x → sends (modify (push_llm x)).
Proof. intros H s. by apply lg_llm. Qed.

Lemma launch_sends p : may_proc p → sends (launch d p).
Proof.
  intros H. apply keeps_bind; [apply _| |].
  - intros s. by apply lg_proc.
  - intros ? s. cbn. destruct (run_subagent d s p) as [[[??]?]|]; reflexivity.
Qed.

Lemma oracle_sends {A} (f : DvState → res Exn A) : sends (λ s, (f s, s)).
Proof. intros s. cbn. reflexivity. Qed.

Lemma complete_sends name r : may_llm {| lc_name := name; lc_req := r |} → sends (complete d name r).
Proof.
  intros H. apply keeps_bind; [apply _|by logs llm_sends|intros ?; logs oracle_sends].
Qed.

Lemma run_traced_sends name run r :
  (dr_tracing d = true → ∀ t, may_text (STracer, t)) → sends (run r) → sends (run_traced d name run r).
Proof.
  intros Ht Hr. unfold run_traced. apply keeps_bind; [apply _| |intros []].
  - destruct (dr_tracing d); [logs text_sends; by apply Ht|apply keeps_ret; apply _].
  - repeat first [apply Hr | logs emit_sends | keeps_step].
Qed.

Lemma try_model_sends n name run r first :
  (dr_tracing d = true → ∀ t, may_text (STracer, t)) → sends (run r) → sends (try_model d n name run r first).
Proof.
  intros Ht Hr. revert first. induction n as [|n IH]; intros first; cbn [try_model];
    (apply keeps_bind; [apply _|apply keeps_attempt; by logs run_traced_sends|intros [x|e]]);
    repeat first [apply IH | keeps_step].
Qed.

Lemma try_models_sends i head ms name run req first :
  (dr_tracing d = true → ∀ t, may_text (STracer, t)) →
  (∀ m, m ∈ ms → sends (run (if m ≡? model req then req else with_model req m))) →
  sends (try_models d i head ms name run req first).
Proof.
  intros Ht. revert i first. induction ms as [|m ms IH]; intros i first Hr; cbn [try_models].
  { apply keeps_throw; apply _. }
  apply keeps_bind; [apply _| |intros [x|e]; [apply keeps_ret; apply _|]].
  { logs try_model_sends; [done|]. apply Hr. left. }
  destruct ms as [|next ms']; [apply keeps_throw; apply _|].
  apply keeps_bind; [apply _|logs emit_sends|intros ?]. apply IH. intros m' Hm'. apply Hr. by right.
Qed.
End send.

Lemma put_task_sends P T R (f : DvState → Task) :
  keeps (E := Exn) (egress P T R) (modify (λ s, put_task (f s) s)).
Proof. intros []. split; cbn; apply grows_refl. Qed.

#[export] Hint Resolve emit_sends put_task_sends deltas_sends oracle_sends : gw.

(** ** The trace of one call *)

Section trace.
Context (d : Driver).
#[local] Instance trace_transport : Transport DvState := driver_transport d.

Lemma run_traced_complete name r s o s' :
  run_traced d name (complete d name) r s = (o, s') →
  dv_llm s' = dv_llm s ++ [ {| lc_name := name; lc_req := r |} ].
Proof.
  unfold run_traced, complete, mbind, emit. destruct s as [a b c e f g h i].
  destruct (dr_tracing d); cbn; destruct (complete_fn _ _ _) as [x|x]; cbn; by intros [= _ <-].
Qed.

Definition sent_models (l : list LlmCall) : list string := (λ c, model (lc_req c)) <$> l.

Section spec.
Context (name : string) (req : ChatCompletionRequest).

(** What is asked of a candidate, once. *)
Definition asked (m : string) : LlmCall := {| lc_name := name; lc_req := with_model req m |}.
Definition ask (m : string) : D Exec := run_traced d name (complete d name) (with_model req m).

(** [n] attempts of one candidate, one after the other, each a failure that may be retried. *)
Inductive failed (m : string) : nat → DvState → list Exn → DvState → Prop :=
  | failed_none s : failed m 0 s [] s
  | failed_more n s e s1 es s2 :
      ask m s = (Err e, s1) → is_retryable (dr_has_openai d) e = true →
      failed m n s1 es s2 → failed m (S n) s (e :: es) s2.

(** Candidates given up in turn: each failed as often as the retries allow, and the move to
    the next was noted. *)
Inductive given_up : list string → DvState → list Exn → DvState → Prop :=
  | given_up_none s : given_up [] s [] s
  | given_up_more m ms s es s1 note es' s2 :
      failed m (S (dr_retries d)) s es s1 →
      given_up ms (emit "model_fallback" note s1).2 es' s2 → given_up (m :: ms) s (es ++ es') s2.

Lemma ask_sends m s : dv_llm (ask m s).2 = dv_llm s ++ [asked m].
Proof.
  unfold ask. destruct (run_traced _ _ _ _ s) as [o s'] eqn:E. by apply run_traced_complete in E.
Qed.

Lemma failed_sends m n s es s' : failed m n s es s' → dv_llm s' = dv_llm s ++ replicate n (asked m).
Proof.
  induction 1 as [s|n s e s1 es s2 Hs _ _ IH]; [by rewrite app_nil_r|].
  pose proof (ask_sends m s) as H1. rewrite Hs in H1. cbn in H1. by rewrite IH, H1, <- app_assoc.
Qed.

Lemma given_up_sends ms s es s' :
  given_up ms s es s' →
  dv_llm s' = dv_llm s ++ flat_map (λ m, replicate (S (dr_retries d)) (asked m)) ms.
Proof.
  induction 1 as [s|m ms s es s1 note es' s2 Hf _ IH]; [by rewrite app_nil_r|].
  apply failed_sends in Hf. rewrite IH. cbn [flat_map]. rewrite app_assoc, <- Hf.
  f_equal. by destruct s1.
Qed.

(** The failure to blame: the first of all. *)
Definition blamed (first : option Exn) (es : list Exn) : option Exn := first orelse head es.

(** The attempts of one candidate. *)
Lemma try_model_trace n m first s o s' :
  try_model d n name (complete d name) (with_model req m) first s = (o, s') →
  ∃ k es s2, failed m k s es s2 ∧
    match o with
    | Ok (Ok x) => k ≤ n ∧ ask m s2 = (Ok x, s')
    | Ok (Err f) => k = S n ∧ s2 = s' ∧ blamed first es = Some f
    | Err e => k ≤ n ∧ ask m s2 = (Err e, s') ∧ is_retryable (dr_has_openai d) e = false
    end.
Proof.
  revert first s. induction n as [|n IH]; intros first s; cbn [try_model]; unfold mbind at 1, attempt;
    fold (ask m); destruct (ask m s) as [[x|e] s1] eqn:E;
    try (by intros [= <- <-]; exists 0, [], s; split; [constructor|]; split; [lia|]);
    destruct (is_retryable _ e) eqn:Hr; cbn [negb];
    try (by intros [= <- <-]; exists 0, [], s; split; [constructor|]; split; [lia|]).
  - intros [= <- <-]. exists 1, [e], s1. split; [by eapply failed_more; [..|constructor]|].
    split; [done|]. split; [done|]. by destruct first.
  - intros (k & es & s2 & Hf & Ho)%IH. exists (S k), (e :: es), s2. split; [by eapply failed_more|].
    destruct o as [[x|f]|f]; [split; [lia|by apply Ho]| |split; [lia|by apply Ho]].
    destruct Ho as (-> & -> & Hb). split; [done|]. split; [done|]. by destruct first.
Qed.

(** How a call ends after the candidates [before] and the attempts of [m] that led to [s2]. *)
Definition call_ends (first : option Exn) (ms : list string) (s s' : DvState)
    (o : res Exn (Exec * string * option string)) : Prop :=
  ∃ before m after es s1 k es' s2,
    ms = before ++ m :: after ∧ given_up before s es s1 ∧ failed m k s1 es' s2 ∧
    match o with
    | Ok (x, m', note) => m' = m ∧ k ≤ dr_retries d ∧ ask m s2 = (Ok x, s')
    | Err e => (k ≤ dr_retries d ∧ ask m s2 = (Err e, s') ∧ is_retryable (dr_has_openai d) e = false) ∨
               (k = S (dr_retries d) ∧ after = [] ∧ s2 = s' ∧ blamed first (es ++ es') = Some e)
    end.

Lemma with_own_model m : (if m ≡? model req then req else with_model req m) = with_model req m.
Proof. case_bool_decide as H; [|done]. subst m. by destruct req. Qed.

Lemma blamed_app first f es es' : blamed first es = Some f → blamed first (es ++ es') = Some f.
Proof. unfold blamed. destruct first, es; done. Qed.

Lemma try_models_trace i from ms first s o s' :
  ms ≠ [] → try_models d i from ms name (complete d name) req first s = (o, s') →
  call_ends first ms s s' o ∧
  match o with Ok (_, m, note) => note = None → i = 0 ∧ head ms = Some m | Err _ => True end.
Proof.
  revert i first s. induction ms as [|m ms IH]; intros i first s Hne; [done|].
  cbn [try_models]. unfold mbind at 1. rewrite with_own_model.
  destruct (try_model _ _ _ _ (with_model req m) first s) as [[[x|f]|e] s1] eqn:E;
    apply try_model_trace in E as (k & es & s2 & Hf & Ho).
  - intros [= <- <-]. split; [|by destruct (Nat.eqb_spec i 0)].
    exists [], m, ms, [], s, k, es, s2. split; [done|]. split; [constructor|]. split; [done|]. by split.
  - destruct Ho as (-> & -> & Hb). destruct ms as [|next ms].
    + intros [= <- <-]. split; [|done]. exists [], m, [], [], s, (S (dr_retries d)), es, s1.
      split; [done|]. split; [constructor|]. split; [done|]. by right.
    + unfold mbind at 1. match goal with |- context [emit _ ?n s1] => set (note := n) end.
      assert (∃ sp s3, emit "model_fallback" note s1 = (Ok sp, s3)) as (sp & s3 & Hs3) by (eexists _, _; by destruct s1).
      rewrite Hs3. intros ((before & m' & after & es1 & s4 & k & es' & s5 & Hms & Hgu & Hf' & Hend) & Hnote)%IH; [|done].
      split.
      * exists (m :: before), m', after, (es ++ es1), s4, k, es', s5. rewrite Hms. split; [done|].
        split; [eapply given_up_more; [exact Hf|by rewrite Hs3]|]. split; [done|].
        destruct o as [ [ [x m2] nt]|e]; [done|]. destruct Hend as [?|(Hk & Ha & Hs & Hbl)]; [by left|right].
        cbn in Hbl. injection Hbl as <-. rewrite <- app_assoc. auto using blamed_app.
      * destruct o as [ [ [x m2] nt]|e]; [|done]. intros Hn. by apply Hnote in Hn as [? _].
  - intros [= <- <-]. split; [|done]. exists [], m, ms, [], s, k, es, s2.
    split; [done|]. split; [constructor|]. split; [done|]. by left.
Qed.
End spec.

(** C11: How one completion is made.  The candidates are the requested model and its
    same-residency fallbacks, in catalog order, each asked the same but for the model.  Those
    before the one that decides were given up in turn, every one of their attempts, one more
    than the retries, having failed in a way that may be retried; and so did the [k] attempts of
    the deciding one before the last.  The call then ends with that one's answer, named, and
    noted as a fallback unless it is the model asked for; or at once with its failure that must
    not be retried; or, when it was the last candidate and used up its attempts too, with the
    first failure of all.  The completions sent are exactly these attempts. *)
Theorem call_exact req name privacy s o s' :
  call d req (complete d name) name privacy s = (o, s') →
  let ms := model req :: fallbacks (dr_catalog d) (model req) privacy in
  ∃ before m after es s1 k es' s2,
    ms = before ++ m :: after ∧ given_up name req before s es s1 ∧ failed name req m k s1 es' s2 ∧
    dv_llm s2 = dv_llm s ++ flat_map (λ m, replicate (S (dr_retries d)) (asked name req m)) before
                ++ replicate k (asked name req m) ∧
    match o with
    | Ok (x, m', note) => m' = m ∧ (note = None → m = model req) ∧ k ≤ dr_retries d ∧
        ask name req m s2 = (Ok x, s') ∧ dv_llm s' = dv_llm s2 ++ [asked name req m]
    | Err e =>
        (k ≤ dr_retries d ∧ ask name req m s2 = (Err e, s') ∧ is_retryable (dr_has_openai d) e = false ∧
           dv_llm s' = dv_llm s2 ++ [asked name req m]) ∨
        (k = S (dr_retries d) ∧ after = [] ∧ s2 = s' ∧ head (es ++ es') = Some e)
    end.
Proof.
  intros ((before & m & after & es & s1 & k & es' & s2 & Hms & Hgu & Hf & Hend) & Hnote)%try_models_trace; [|done].
  intros ms. exists before, m, after, es, s1, k, es', s2. do 3 (split; [done|]).
  pose proof (ask_sends name req m s2) as Hsend. split.
  { by rewrite (failed_sends _ _ _ _ _ _ _ Hf), (given_up_sends _ _ _ _ _ _ Hgu), <- app_assoc. }
  destruct o as [ [ [x m'] note]|e].
  - destruct Hend as (-> & Hk & Ha). rewrite Ha in Hsend. split; [done|].
    split; [intros Hn; by apply Hnote in Hn as [_ [= <-]]|done].
  - destruct Hend as [(Hk & Ha & Hr)|?]; [left|by right]. by rewrite Ha in Hsend.
Qed.
End trace.

(** ** Witnesses *)

(** The answer of a model to itself. *)
Definition demo_exec (r : ChatCompletionRequest) : Exec :=
  {| ex_text := "42"; ex_model := model r; ex_lane := "economy"; ex_tokens_prompt := 3; ex_tokens_completion := 1;
     ex_tokens_cached := 0; ex_cost_usd := Some 0%Q; ex_latency_ms := 5; ex_adapter := ""; ex_upstream_model := "";
     ex_provider := ""; ex_generation_id := "" |}.

Definition demo_timeout : Exn :=
  {| exn_type := "TimeoutError"; exn_mro := ["TimeoutError"; "OSError"; "Exception"]; status_code := None;
     retry_after_header := None |}.

(** Text that names an ssn must stay; text that names mnpi must not be routed. *)
Definition demo_guard (ms : list Message) : GuardVerdict :=
  let t := join " " (message_text <$> ms) in
  if contains "mnpi" t then {| action := BLOCK; reasons := ["mnpi"] |}
  else if contains "ssn" t then {| action := DOWNGRADE_LOCAL; reasons := ["ssn"] |}
  else allow_verdict.

(** A cloud model that times out, and its in-perimeter neighbour that answers. *)
Definition demo_driver : Driver :=
  {| dr_catalog := demo_catalog; dr_who := no_identity; dr_benchmarks := demo_bench; dr_driver_model := "gpt";
     dr_triage_model := "gpt"; dr_guard := demo_guard; dr_max_tokens := [("answer", 100%Z)]; dr_retries := 1;
     dr_labels := None; dr_label_model := "gpt"; dr_embed_routing := false; dr_corpus := true;
     dr_subagents := false; dr_has_toto := true; dr_tracing := false; dr_has_openai := false;
     dr_delta_chars := 40; dr_delta_secs := 1 # 4; dr_claude_bin := "claude"; dr_pi_bin := "pi";
     complete_fn := λ _ r, if model r ≡? "gpt" then Err demo_timeout else Ok (demo_exec r);
     stream_fn := None; label_in_time := λ _, true; embedder := None; experience := None;
     preferences := λ _, Ok no_prefs; dr_policy := Ok None;
     toto_reply := λ _ _, Err (plain_exn "ConnectError"); which := λ _, None;
     run_subagent := λ _ _, Err demo_timeout; elapsed_ms := λ _, 0%Z; py_int := λ _, Ok 0%Z; loads := λ _, None;
     sha256 := λ s, s; now_of := λ _, JNull; exn_text := λ _, "timed out"; triage_prompt := "triage";
     decompose_prompt := "decompose"; decompose_nudge := "strict json"; label_prompt := "label";
     direct_prompt := "answer"; synthesize_prompt := "weave"; revise_prompt := "revise";
     executor_prompt := "execute" |}.

Definition demo_task (text : string) : Task := new_task text "a step" [].
Definition demo_state (text : string) : DvState := fresh_state 0 (demo_task text).

(** The cloud model times out, is retried once, and has no cloud neighbour to fall back on. *)
Lemma call_exact_witness :
  let req := request_of "gpt" [say "user" "hi"] in
  let out := call demo_driver req (complete demo_driver "t") "t" false (demo_state "hi") in
  sent_models (dv_llm out.2) = ["gpt"; "gpt"] ∧ out.1 = Err demo_timeout ∧
  ∃ before m after es s1 k es' s2,
    model req :: fallbacks (dr_catalog demo_driver) (model req) false = before ++ m :: after ∧
    given_up demo_driver "t" req before (demo_state "hi") es s1 ∧ failed demo_driver "t" req m k s1 es' s2.
Proof.
  intros req out. destruct (call_exact demo_driver req "t" false (demo_state "hi") out.1 out.2 eq_refl)
    as (before & m & after & es & s1 & k & es' & s2 & Hms & Hgu & Hf & _).
  split; [reflexivity|]. split; [reflexivity|]. by exists before, m, after, es, s1, k, es', s2.
Defined.
