(* ===== verification/TaskRouting.v ===== *)
(** * Routing and executing one task ([driver/dispatch.py])

    [decide_one] is the routing decision of a task: guard, residency, classify, label,
    experience, pin, residency again.  [dispatch_one] executes it through the adapters and
    writes the provenance back. *)

From S2P Require Import Prelude PyStr PyDict Schemas Catalog Identity Policy Resilience Benchmarks Labels.
From S2P Require Import Classify Prompts Effects TotoClient Streaming Knn Driver.

(** The raise behind a [res string]: an index past the end, or a value of the wrong type. *)
Definition raised (what : string) : Exn :=
  plain_exn (if what ≡? "list index out of range" then "IndexError" else "TypeError").

Definition no_local_lane : string :=
  "privacy: in-perimeter handling required, no in-perimeter model available".

Definition claude_refused : string :=
  "privacy: in-perimeter handling required; runner claude_code egresses to Anthropic".

(** What a run passes to each of its tasks. *)
Record RunKnobs := {
  rk_optimize : option string;
  rk_pins : list (string * string);
  rk_pinned : bool;
  rk_label_pins : list (string * string);
  rk_bindings : list (string * string);
  rk_custom : list CustomLabel;
}.

Definition rejected_json (r : Rejected) : json :=
  JObj [("model_id", JStr (rej_model r)); ("reason", JStr (rej_reason r))].

Section task.
Context (d : Driver).

#[local] Instance task_transport : Transport DvState := driver_transport d.

(** [effective_catalog_for] *)
Definition effective_catalog_for : Catalog := catalog_for (dr_catalog d) (dr_who d).

(** ** The label call *)

(** [{**labels, **{c["name"]: {"desc": ...}}}] *)
Definition custom_rows (custom : list CustomLabel) : list (string * option LabelRow) :=
  omap (λ c, (λ n, (n, Some {| l_model := None;
                               l_desc := Some (match cl_desc c with Some t => t | None => "" end);
                               l_category := None |})) <$> nonempty (cl_name c)) custom.

Definition request_labels (labels : LabelBindings) (custom : list CustomLabel) : LabelBindings :=
  dmerge labels (custom_rows custom).

(** [classify_label]: nothing on any failure, the wall-clock cap included. *)
Definition classify_label (labels : LabelBindings) (text : string) (custom : list CustomLabel)
    : D (option string * option (list (string * json))) :=
  let labels := request_labels labels custom in
  do! o := attempt (llm d (dr_label_model d) (build_label_messages (label_prompt d) text labels None)
                        "label.classify" (cap d "triage") (Some 0%Q)) in
  do! in_time := reads (label_in_time d) in
  match o with
  | Ok x => if in_time
            then mret (parse_label (loads d) (ex_text x) (sorted_strs (dkeys labels)),
                       parse_label_metadata (loads d) (ex_text x))
            else mret (None, None)
  | Err _ => mret (None, None)
  end.

(** ** The decision *)

Definition blocked_decision (pinned : bool) (reasons : list string) (spans : list Span) : RouteDecision :=
  {| rd_dec := None; rd_rejected := []; rd_label := None; rd_label_metadata := None;
     rd_local_pinned := pinned; rd_blocked := true; rd_block_reasons := reasons; rd_spans := spans |}.

Definition redirect (t : TaskDecision) (l : Lane) (m why : string) : TaskDecision :=
  {| td_lane := l; tools_required := tools_required t; td_model_id := m; td_reason := why;
     td_skill := td_skill t; rejected := [] |}.

Definition displaced (t : TaskDecision) (why : string) : Rejected :=
  {| rej_model := td_model_id t; rej_reason := why |}.

(** The decision as the stages pass it on. *)
Record Routed := {
  ro_dec : TaskDecision;
  ro_rejected : list Rejected;
  ro_label : option string;
  ro_metadata : option (list (string * json));
  ro_bound : bool;
  ro_spans : list Span;
}.

(** CLASSIFY, with the skill of the embedder when it may be asked. *)
Definition classify_stage (k : RunKnobs) (t : Task) (prompt : string) (pinned : bool) : D Routed :=
  do! skill := (if dr_embed_routing d && negb pinned then
                  match embedder d with
                  | None => mret None
                  | Some f => modify (push_text (SEmbedder, prompt)) ;; λ s, (f s prompt, s)
                  end
                else mret None) in
  do! dec := lift_as raised (classify (tk_metadata t) effective_catalog_for (dr_benchmarks d) (rk_optimize k) skill) in
  let dec' := if dr_embed_routing d
              then redirect dec (td_lane dec) (td_model_id dec)
                     (td_reason dec +:+ "; skill:" +:+ match skill with Some s => if s ≡? "" then "keyword" else "embed" | None => "keyword" end)
              else dec in
  mret {| ro_dec := dec'; ro_rejected := rejected dec; ro_label := None; ro_metadata := None;
          ro_bound := false; ro_spans := [] |}.

Definition bound_entry (table : list (string * string)) (label : string) : option CatalogEntry :=
  catalog_get effective_catalog_for (match dget table label with Some m => m | None => "" end).

Definition table_entry (labels : LabelBindings) (label : string) : option CatalogEntry :=
  catalog_get effective_catalog_for (match model_for labels label with Some m => m | None => "" end).

(** LABEL ROUTING: the user's binding, then the team's, then the table's. *)
Definition label_stage (k : RunKnobs) (t : Task) (prompt : string) (pinned : bool) (r : Routed) : D Routed :=
  match dr_labels d with
  | None => mret r
  | Some labels =>
      if pinned then mret r
      else
        do! lm := classify_label labels prompt (rk_custom k) in
        let '(label, metadata) := lm in
        let user := nonempty label ≫= bound_entry (rk_label_pins k) in
        let team := nonempty label ≫= bound_entry (rk_bindings k) in
        let bound := user orelse team orelse (nonempty label ≫= table_entry labels) in
        let dec := ro_dec r in
        let l := match nonempty label with Some l => l | None => "none" end in
        let '(dec', rej) :=
          match bound with
          | Some e =>
              (redirect dec (lane e) (id e)
                 ("label:" +:+ l +:+ match user with Some _ => ":user" | None => match team with Some _ => ":team" | None => "" end end),
               [displaced dec "label binding outbid benchmarks"])
          | None => (redirect dec (td_lane dec) (td_model_id dec) (td_reason dec +:+ "; label:" +:+ l +:+ ":fallback"), [])
          end in
        do! sp := emit "label" [("task", JStr (tk_task t)); ("label", jopt label);
                                ("model", JStr (dr_label_model d)); ("bound", jopt (id <$> bound))] in
        mret {| ro_dec := dec'; ro_rejected := ro_rejected r ++ rej; ro_label := label;
                ro_metadata := metadata;
                ro_bound := match user, team with None, None => false | _, _ => true end;
                ro_spans := ro_spans r ++ [sp] |}
  end.

Definition with_dec (r : Routed) (dec : TaskDecision) (rej : Rejected) : Routed :=
  {| ro_dec := dec; ro_rejected := ro_rejected r ++ [rej]; ro_label := ro_label r;
     ro_metadata := ro_metadata r; ro_bound := ro_bound r; ro_spans := ro_spans r |}.

(** EXPERIENCE: within the lane, and never over an explicit binding. *)
Definition knn_stage (prompt : string) (pinned : bool) (r : Routed) : D Routed :=
  match experience d with
  | None => mret r
  | Some f =>
      if pinned || ro_bound r then mret r
      else
        let dec := ro_dec r in
        modify (push_text (SKnn, prompt)) ;;
        do! p := (λ s, (f s prompt (td_lane dec), s)) in
        match p with
        | Some p => mret (with_dec r (redirect dec (td_lane dec) (prop_model p) (td_reason dec +:+ "; " +:+ prop_reason p))
                                   (displaced dec "knn outvoted"))
        | None => mret r
        end
  end.

(** The user's pin for the skill. *)
Definition pin_stage (k : RunKnobs) (pinned : bool) (r : Routed) : Routed :=
  let dec := ro_dec r in
  match nonempty (dget (rk_pins k) (td_skill dec)) with
  | Some pin =>
      if pinned then r
      else match catalog_get effective_catalog_for pin with
           | Some e => with_dec r (redirect dec (lane e) (id e) (td_reason dec +:+ "; pin:user"))
                                (displaced dec "pin override")
           | None => r
           end
  | None => r
  end.

(** The residency re-check: pinned work lands in-perimeter. *)
Definition residency_stage (pinned : bool) (r : Routed) : res Exn Routed :=
  let dec := ro_dec r in
  let inside := match catalog_get effective_catalog_for (td_model_id dec) with
                | Some e => residency_class e ≡? in_perimeter
                | None => false
                end in
  if pinned && negb inside then
    match nonempty (first_in_perimeter_model (dr_catalog d)) with
    | Some perim =>
        match catalog_get effective_catalog_for perim with
        | Some e => Ok (with_dec r (redirect dec (lane e) perim (td_reason dec +:+ "; guard: downgrade_local"))
                                 (displaced dec "privacy guard: downgrade_local"))
        | None => Err (plain_exn "AttributeError")
        end
    | None => Ok r
    end
  else Ok r.

Definition verdict_of (t : Task) : GuardVerdict := dr_guard d [say "user" (strip (task_text t))].

(** RESIDENCY, on the raw task before any call: the data policy, a guard downgrade, or the
    run's own pin. *)
Definition residency_pin (k : RunKnobs) (t : Task) : res Exn bool :=
  try! policy := requires_get (tk_metadata t) "data_policy" in
  match is_private (match policy with Some v => v | None => JNull end) with
  | Ok private => Ok (private || (action (verdict_of t) ≡? DOWNGRADE_LOCAL) || rk_pinned k)
  | Err what => Err (raised what)
  end.

(** The stages of the decision of a task that may run. *)
Definition route_stages (k : RunKnobs) (t : Task) (pinned : bool) : D Routed :=
  let prompt := strip (task_text t) in
  do! r := classify_stage k t prompt pinned in
  do! r := label_stage k t prompt pinned r in
  do! r := knn_stage prompt pinned r in
  plain_lift (residency_stage pinned (pin_stage k pinned r)).

(** [decide_one] *)
Definition decide_one (k : RunKnobs) : D RouteDecision :=
  do! t := reads dv_task in
  if action (verdict_of t) ≡? BLOCK then mret (blocked_decision false (reasons (verdict_of t)) [])
  else
    do! pinned := plain_lift (residency_pin k t) in
    if pinned && negb (present (first_in_perimeter_model (dr_catalog d)))
    then mret (blocked_decision true [no_local_lane] [])
    else
      modify (put_task (set_local pinned t)) ;;
      do! r := route_stages k t pinned in
      mret {| rd_dec := Some (ro_dec r); rd_rejected := ro_rejected r; rd_label := ro_label r;
              rd_label_metadata := ro_metadata r; rd_local_pinned := pinned; rd_blocked := false;
              rd_block_reasons := []; rd_spans := ro_spans r |}.

(** ** Execution *)

Definition change_task (f : Task → Task) : D unit := modify (λ s, put_task (f (dv_task s)) s).

(** The item's status and provenance written to Toto, when the task has an item. *)
Definition write_back (execution : list (string * json)) (classified : option (list (string * json)))
    : D (list Span) :=
  do! t := reads dv_task in
  match tk_item_id t with
  | Some i =>
      if truthy i then
        do! s1 := toto d (set_status i "done") "status" in
        do! s2 := toto d (write_execution i execution classified) "exec" in
        mret (s1.2 ++ s2.2)
      else mret []
  | None => mret []
  end.

(** [emit_task_block] *)
Definition emit_task_block (reasons : list string) : D (list Span) :=
  do! t := reads dv_task in
  let execution := [("outcome", JStr "blocked_constraints"); ("route_reason", JStr (join "; " reasons))] in
  change_task (settle_task {| o_blocked := true; o_lane := None; o_model := None; o_tools := None;
                              o_skill := None; o_residency := None; o_result := None; o_execution := execution |}) ;;
  do! sp := emit "guard_block" [("task", JStr (tk_task t)); ("reasons", JList (JStr <$> reasons))] in
  do! ws := write_back execution None in mret (sp :: ws).

(** [make_artifact] *)
Definition make_artifact (now : json) (kind content produced_by : string) (evidence : list string) : json :=
  JObj [("type", JStr kind); ("sha256", JStr (sha256 d content)); ("confidence", JNull);
        ("evidence", JList (JStr <$> evidence)); ("produced_by", JStr produced_by); ("ts", now)].

(** The execution record of a completed task. *)
Definition completed (x : Exec) (dec : TaskDecision) (final lane reason : string) (rej : list Rejected)
    (artifact : json) : list (string * json) :=
  [("runner", JStr (if ex_adapter x ≡? "" then "gateway" else ex_adapter x)); ("executor", JStr (ex_model x));
   ("lane", JStr lane); ("model", JStr final); ("tokens_prompt", JInt (ex_tokens_prompt x));
   ("tokens_completion", JInt (ex_tokens_completion x)); ("tokens_cached", JInt (ex_tokens_cached x));
   ("cost_usd", jcost (ex_cost_usd x)); ("outcome", JStr "completed"); ("latency_ms", JInt (ex_latency_ms x));
   ("route_reason", JStr reason); ("artifact", artifact); ("rejected", JList (rejected_json <$> rej))].

(** What a died executor leaves. *)
Definition task_failed (dec : TaskDecision) (classified : option (list (string * json))) (e : Exn)
    : D (list Span) :=
  do! t := reads dv_task in
  let err := error_text d e in
  let execution := [("outcome", JStr "failed"); ("lane", JStr (lane_str (td_lane dec)));
                    ("model", JStr (td_model_id dec)); ("route_reason", JStr (td_reason dec)); ("error", JStr err)] in
  change_task (settle_task {| o_blocked := false; o_lane := Some (lane_str (td_lane dec));
                              o_model := Some (td_model_id dec); o_tools := Some (tools_required dec);
                              o_skill := None; o_residency := None; o_result := None; o_execution := execution |}) ;;
  do! sp := emit "dispatch_error" [("task", JStr (tk_task t)); ("model", JStr (td_model_id dec)); ("error", JStr err)] in
  do! ws := write_back execution classified in mret (sp :: ws).

(** What a completed one leaves. *)
Definition task_done (dec : TaskDecision) (rej : list Rejected) (classified : option (list (string * json)))
    (pinned : bool) (prompt : string) (x : Exec) (final : string) (note : option string) : D (list Span) :=
  do! t := reads dv_task in
  do! now := reads (now_of d) in
  let entry := catalog_get effective_catalog_for final in
  let lane := match entry with Some e => lane_str (lane e) | None => lane_str (td_lane dec) end in
  let reason := td_reason dec +:+ match note with Some n => "; " +:+ n | None => "" end in
  let artifact := make_artifact now "task_result" (ex_text x) final [lane; td_skill dec] in
  let execution := completed x dec final lane reason rej artifact in
  let residency := match entry with Some e => residency_str (residency_class e) | None => "frontier" end in
  change_task (settle_task {| o_blocked := false; o_lane := Some lane; o_model := Some final;
                              o_tools := Some (tools_required dec); o_skill := Some (td_skill dec);
                              o_residency := Some residency; o_result := Some (ex_text x);
                              o_execution := execution |}) ;;
  do! sp := emit "dispatch" [("task", JStr (tk_task t)); ("lane", JStr lane); ("model", JStr final);
                             ("cost", jcost (ex_cost_usd x)); ("reason", JStr reason);
                             ("skill", JStr (td_skill dec)); ("residency", JStr residency);
                             ("tokens_prompt", JInt (ex_tokens_prompt x));
                             ("tokens_cached", JInt (ex_tokens_cached x));
                             ("sha256", JStr (sha256 d (ex_text x)));
                             ("n_rejected", JInt (Z.of_nat (length rej)))] in
  do! ws := write_back execution classified in
  (if dr_corpus d && negb pinned then modify (push_text (SCorpus, prompt)) else mret tt) ;;
  mret (sp :: ws).

(** The request an executor is given. *)
Definition executor_request (m prompt : string) : ChatCompletionRequest :=
  with_limits (request_of m [say "system" (executor_prompt d); say "user" prompt]) (cap d "dispatch") None.

Definition authored_reason (t : Task) (dec : TaskDecision) : TaskDecision :=
  if tk_authored t
  then {| td_lane := td_lane dec; tools_required := tools_required dec; td_model_id := td_model_id dec;
          td_reason := td_reason dec +:+ "; orchestrator:authored"; td_skill := td_skill dec;
          rejected := rejected dec |}
  else dec.

(** The part of [dispatch_one] after the decision. *)
Definition execute (rd : RouteDecision) (dec : TaskDecision) : D (list Span) :=
  do! t := reads dv_task in
  do! runner := plain_lift (if rd_local_pinned rd then requires_get (tk_metadata t) "runner" else Ok None) in
  if match runner with Some (JStr r) => r ≡? "claude_code" | _ => false end
  then emit_task_block [claude_refused]
  else
    let prompt := strip (task_text t) in
    do! s0 := match tk_item_id t with
              | Some i => if truthy i then do! r := toto d (set_status i "in_progress") "status" in mret r.2
                          else mret []
              | None => mret []
              end in
    do! o := attempt (call d (executor_request (td_model_id dec) prompt)
                           (adapters_run d ("dispatch:" +:+ td_model_id dec) (tk_metadata t))
                           ("dispatch:" +:+ td_model_id dec) (privacy_pinned (td_reason dec))) in
    do! s1 := match o with
              | Ok (x, final, note) =>
                  task_done dec (rd_rejected rd) (rd_label_metadata rd) (rd_local_pinned rd) prompt x final note
              | Err e => task_failed dec (rd_label_metadata rd) e
              end in
    mret (s0 ++ s1).

(** [dispatch_one] *)
Definition dispatch_one (k : RunKnobs) : D (list Span) :=
  do! rd := decide_one k in
  do! t := reads dv_task in
  match rd_dec rd with
  | Some dec => do! sp := execute rd (authored_reason t dec) in mret (rd_spans rd ++ sp)
  | None => do! sp := emit_task_block (rd_block_reasons rd) in mret (rd_spans rd ++ sp)
  end.
End task.

(** ** Residency *)

Section confinement.
Context (d : Driver).
Hypothesis ids_distinct : NoDup (id <$> dr_catalog d).
Hypothesis ids_named : ∀ e, e ∈ dr_catalog d → id e ≠ "".

#[local] Instance confinement_transport : Transport DvState := driver_transport d.

(** A model the caller's catalog keeps in-perimeter. *)
Definition inside (m : string) : Prop :=
  ∃ e, catalog_get (effective_catalog_for d) m = Some e ∧ residency_class e = in_perimeter.

Lemma base_residency m e :
  catalog_get (dr_catalog d) m = Some e →
  ∃ e', catalog_get (effective_catalog_for d) m = Some e' ∧ residency_class e' = residency_class e.
Proof.
  intros He. unfold effective_catalog_for, catalog_for, effective_catalog.
  rewrite catalog_get_override, catalog_get_app, He. cbn. eexists. split; [done|].
  by destruct (apply_override_keeps (price_overrides (dr_who d)) e).
Qed.

Lemma base_inside e : e ∈ dr_catalog d → residency_class e = in_perimeter → inside (id e).
Proof using ids_distinct.
  intros He Hr. destruct (base_residency (id e) e) as (e' & He' & Hr'); [by apply catalog_get_nodup|].
  exists e'. split; [done|congruence].
Qed.

Lemma first_in_perimeter_inside m : first_in_perimeter_model (dr_catalog d) = Some m → inside m.
Proof using ids_distinct.
  unfold first_in_perimeter_model.
  destruct (first_such (λ e, (residency_class e ≡? in_perimeter) && negb (endpoint e ≡? "fake")) _) as [e|] eqn:E.
  - intros [= <-]. apply first_such_some in E as [He H]. bool_to_prop. by apply base_inside.
  - destruct (first_such (λ e, residency_class e ≡? in_perimeter) _) as [e|] eqn:F; [|done]. intros [= <-].
    apply first_such_some in F as [He H]. bool_to_prop. by apply base_inside.
Qed.

Lemma first_in_perimeter_named m : first_in_perimeter_model (dr_catalog d) = Some m → m ≠ "".
Proof using ids_named.
  unfold first_in_perimeter_model.
  destruct (first_such (λ e, (residency_class e ≡? in_perimeter) && _) _) as [e|] eqn:E.
  - intros [= <-]. apply ids_named. by apply first_such_some in E as [? _].
  - destruct (first_such (λ e, residency_class e ≡? in_perimeter) _) as [e|] eqn:F; [|done].
    intros [= <-]. apply ids_named. by apply first_such_some in F as [? _].
Qed.

(** The same-residency fallbacks of an in-perimeter model are in-perimeter. *)
Lemma fallbacks_inside m privacy x : inside m → x ∈ fallbacks (dr_catalog d) m privacy → inside x.
Proof using ids_distinct.
  intros (e & He & Hr). unfold fallbacks.
  destruct (catalog_get (dr_catalog d) m) as [b|] eqn:Eb; [|by intros ?%elem_of_nil].
  destruct (base_residency m b Eb) as (e' & He' & Hr'). rewrite He in He'. injection He' as <-.
  intros (f & -> & [Hf Hok]%elem_of_bfilter)%list_elem_of_fmap.
  apply base_inside; [done|]. apply fallback_ok_spec in Hok. destruct Hok as (_ & _ & Hres & _). congruence.
Qed.

(** What may leave for pinned work: completions of in-perimeter models, the customer's own
    trace, and no subagent that egresses on its own. *)
Definition inside_call (c : LlmCall) : Prop := inside (model (lc_req c)).
Definition tracer_only (x : Sink * string) : Prop := x.1 = STracer ∧ dr_tracing d = true.
Definition gateway_proc (p : Proc) : Prop := pr_runner p = "pi" ∧ ∃ m, m ∈ pr_argv p ∧ inside m.

Abbreviation confined := (egress inside_call tracer_only gateway_proc).

Lemma present_some {A} (o : option A) : present o = true → ∃ x, o = Some x.
Proof. destruct o; [by eauto|done]. Qed.

Lemma residency_stage_inside r r' :
  present (first_in_perimeter_model (dr_catalog d)) = true →
  residency_stage d true r = Ok r' → inside (td_model_id (ro_dec r')).
Proof using ids_distinct ids_named.
  intros (perim & Hp)%present_some. unfold residency_stage. cbn [andb]. rewrite Hp.
  apply first_in_perimeter_inside in Hp as Hin. destruct Hin as (e' & He' & Hr').
  apply first_in_perimeter_named in Hp as Hne.
  unfold nonempty. rewrite bool_decide_eq_false_2 by done.
  destruct (catalog_get (effective_catalog_for d) (td_model_id (ro_dec r))) as [e|] eqn:E.
  - case_bool_decide as Hr; cbn [negb]; [intros [= <-]; by exists e|].
    rewrite He'. intros [= <-]. by exists e'.
  - cbn [negb]. rewrite He'. intros [= <-]. by exists e'.
Qed.

(** The stages of a pinned task send nothing. *)
Lemma route_stages_pinned k t : keeps silent (route_stages d k t true).
Proof.
  unfold route_stages, classify_stage. rewrite andb_false_r.
  apply keeps_bind; [apply _|repeat keeps_step|intros r].
  assert (label_stage d k t (strip (task_text t)) true r = mret r) as ->.
  { unfold label_stage. by destruct (dr_labels d). }
  apply keeps_bind; [apply _|apply keeps_ret; apply _|intros r'].
  assert (knn_stage d (strip (task_text t)) true r' = mret r') as ->.
  { unfold knn_stage. by destruct (experience d). }
  apply keeps_bind; [apply _|apply keeps_ret; apply _|intros r'']. apply keeps_lift; apply _.
Qed.

Lemma write_back_silent e c : keeps silent (write_back d e c).
Proof.
  unfold write_back. apply keeps_bind; [apply _|apply keeps_reads; apply _|intros t].
  destruct (tk_item_id t) as [i|]; [|apply keeps_ret; apply _].
  destruct (truthy i); [|apply keeps_ret; apply _].
  repeat first [logs toto_sends | logs set_status_sends | logs write_execution_sends | keeps_step].
Qed.

Lemma emit_task_block_silent rs : keeps silent (emit_task_block d rs).
Proof.
  unfold emit_task_block. repeat first [apply write_back_silent | logs put_task_sends | logs emit_sends | keeps_step].
Qed.

Lemma task_failed_silent dec c e : keeps silent (task_failed d dec c e).
Proof.
  unfold task_failed. repeat first [apply write_back_silent | logs put_task_sends | logs emit_sends | keeps_step].
Qed.

Lemma task_done_pinned dec rej c p x f n : keeps silent (task_done d dec rej c true p x f n).
Proof.
  unfold task_done. rewrite andb_false_r.
  repeat first [apply write_back_silent | logs put_task_sends | logs emit_sends | keeps_step].
Qed.

Lemma adapters_run_confined name md r :
  inside (model r) → requires_get md "runner" ≠ Ok (Some (JStr "claude_code")) →
  keeps confined (adapters_run d name md r).
Proof.
  intros Hin Hrun. assert (keeps confined (gateway_run d name r)) as Hg.
  { unfold gateway_run. repeat first [(logs complete_sends; exact Hin) | keeps_step]. }
  unfold adapters_run, select, plain_lift.
  destruct (dr_subagents d); cbn [lift_as]; [|by rewrite mbind_mret].
  destruct (requires_get md "runner") as [v|e]; cbn [res_bind lift_as];
    [rewrite mbind_mret|intros ?; cbn; reflexivity].
  assert (keeps confined (pi_run d r)) as Hpi.
  { unfold pi_run, plain_lift. destruct (prompt_parts r) as [system task].
    apply keeps_bind; [apply _|apply keeps_lift; apply _|intros bin].
    apply keeps_bind; [apply _| |intros [[? ?] ?]; repeat keeps_step].
    logs launch_sends. split; [done|]. exists (model r). split; [|done]. cbn. set_solver. }
  destruct v as [[]|]; try done. case_bool_decide; [done|]. case_bool_decide as Hc; [|done].
  by subst.
Qed.

(** The execution of a pinned decision. *)
Lemma execute_confined rd dec :
  rd_local_pinned rd = true → inside (td_model_id dec) → keeps confined (execute d rd dec).
Proof using ids_distinct ids_named.
  intros Hp Hin. unfold execute, plain_lift.
  apply keeps_bind; [apply _|apply keeps_reads; apply _|intros t]. rewrite Hp.
  destruct (requires_get (tk_metadata t) "runner") as [runner|e] eqn:Er; cbn [lift_as];
    [rewrite mbind_mret|intros ?; cbn; reflexivity].
  destruct (match runner with Some (JStr r) => r ≡? "claude_code" | _ => false end) eqn:Hc.
  { apply keeps_silent, emit_task_block_silent. }
  apply keeps_bind; [apply _| |intros s0].
  { repeat first [logs toto_sends | logs set_status_sends | keeps_step]. }
  apply keeps_bind; [apply _|apply keeps_attempt|intros o].
  - unfold call. logs try_models_sends; [by split|]. intros m Hm. apply adapters_run_confined.
    + cbn [model with_model]. assert (inside m) as Hm'.
      { apply elem_of_cons in Hm as [->|Hm]; [exact Hin|by eapply fallbacks_inside]. }
      by case_bool_decide as Hreq; [rewrite <- Hreq|].
    + rewrite Er. intros [= ->]. by rewrite bool_decide_eq_true_2 in Hc.
  - apply keeps_bind; [apply _| |intros ?; apply keeps_ret; apply _].
    destruct o as [[[x f] n]|e]; apply keeps_silent; [apply task_done_pinned|apply task_failed_silent].
Qed.
(** The decision of a pinned task is made without sending anything, and picks an
    in-perimeter model. *)
Lemma decide_one_pinned k s :
  residency_pin d k (dv_task s) = Ok true →
  silent s (decide_one d k s).2 ∧
  ∀ rd dec, (decide_one d k s).1 = Ok rd → rd_dec rd = Some dec →
    rd_local_pinned rd = true ∧ inside (td_model_id dec).
Proof using ids_distinct ids_named.
  intros Hpin. unfold decide_one. rewrite mbind_reads.
  destruct (action _ ≡? BLOCK); [split; [cbn; reflexivity|by intros rd dec [= <-] ]|].
  unfold plain_lift. rewrite Hpin. cbn [lift_as]. rewrite mbind_mret. cbn [andb].
  destruct (present (first_in_perimeter_model (dr_catalog d))) eqn:Hf; cbn [negb];
    [|split; [cbn; reflexivity|by intros rd dec [= <-] ] ].
  set (t := dv_task s). rewrite mbind_modify.
  pose proof (route_stages_pinned k t (put_task (set_local true t) s)) as Hs.
  assert (silent s (put_task (set_local true t) s)) as H0 by (destruct s; split; cbn; apply grows_refl).
  unfold mbind. destruct (route_stages d k t true _) as [[r|e] s1] eqn:E.
  - split; [by etrans|]. intros rd dec [= <-] [= <-]. split; [done|]. cbn [ro_dec].
    unfold route_stages in E. apply mbind_ok in E as (r1 & s2 & _ & E).
    apply mbind_ok in E as (r2 & s3 & _ & E). apply mbind_ok in E as (r3 & s4 & _ & E).
    apply lift_ok in E as [E _]. by eapply residency_stage_inside.
  - split; [by etrans|done].
Qed.

(** A task the guard blocks, or pinned work without a lane: the decision says so. *)
Lemma decide_one_blocked k s :
  action (verdict_of d (dv_task s)) = BLOCK →
  decide_one d k s = (Ok (blocked_decision false (reasons (verdict_of d (dv_task s))) []), s).
Proof. intros Hb. unfold decide_one. rewrite mbind_reads. by rewrite bool_decide_eq_true_2. Qed.
End confinement.

(** What may leave for a task that must stay in-perimeter. *)
Abbreviation confined d := (egress (inside_call d) (tracer_only d) (gateway_proc d)).

Section one_task.
Context (d : Driver) (k : RunKnobs).
Hypothesis ids_distinct : NoDup (id <$> dr_catalog d).
Hypothesis ids_named : ∀ e, e ∈ dr_catalog d → id e ≠ "".

Lemma dispatch_one_blocked s :
  action (verdict_of d (dv_task s)) = BLOCK → silent s (dispatch_one d k s).2.
Proof.
  intros Hb. unfold dispatch_one. unfold mbind at 1. rewrite decide_one_blocked by done.
  unfold mbind at 1. cbn [reads rd_dec blocked_decision].
  apply (keeps_bind silent _ _ (emit_task_block_silent d _)). intros ?. apply keeps_ret; apply _.
Qed.

Lemma dispatch_one_pinned s :
  residency_pin d k (dv_task s) = Ok true → confined d s (dispatch_one d k s).2.
Proof using ids_distinct ids_named.
  intros Hpin. destruct (decide_one_pinned d ids_distinct ids_named k s Hpin) as [Hs Hdec].
  unfold dispatch_one. unfold mbind at 1. destruct (decide_one d k s) as [[rd|e] s1];
    [|by apply silent_egress]. etrans; [apply silent_egress, Hs|].
  unfold mbind at 1. cbn [reads]. destruct (rd_dec rd) as [dec|] eqn:Ed.
  + destruct (Hdec rd dec eq_refl Ed) as [Hp Hin].
    apply (keeps_bind (confined d)); [apply execute_confined; try done|intros ?; apply keeps_ret; apply _].
    unfold authored_reason. by case_match.
  + apply (keeps_bind (confined d)); [apply keeps_silent, emit_task_block_silent|intros ?; apply keeps_ret; apply _].
Qed.

(** What pins a task local: its own data policy, the guard on its text, or the run. *)
Definition pinned_local (t : Task) : Prop :=
  (∃ requires policy, dget (tk_metadata t) "requires" = Some (JObj requires) ∧
     dget requires "data_policy" = Some (JStr policy) ∧ policy ∈ ["local_only"; "local"]) ∨
  action (dr_guard d [say "user" (strip (task_text t))]) = DOWNGRADE_LOCAL ∨
  rk_pinned k = true.

Lemma pinned_local_residency t b : pinned_local t → residency_pin d k t = Ok b → b = true.
Proof.
  unfold residency_pin. intros Hpin (policy & Hreq & H)%res_bind_ok.
  destruct (is_private _) as [private|] eqn:Epriv; [|done]. injection H as <-.
  destruct Hpin as [(md & p & Hmd & Hp & Hin)|[Hact|Hrun]].
  - unfold requires_get in Hreq. rewrite Hmd in Hreq. destruct (truthy (JObj md)) eqn:Et.
    + cbn in Hreq. injection Hreq as <-. rewrite Hp in Epriv. cbn in Epriv. injection Epriv as <-.
      apply elem_of_cons in Hin as [->|Hin]; [done|]. by apply list_elem_of_singleton in Hin as ->.
    + by destruct md.
  - unfold verdict_of. rewrite Hact. cbn. by rewrite orb_true_r.
  - rewrite Hrun. apply orb_true_r.
Qed.

(** A pinned task: nothing leaves the perimeter, whatever becomes of it. *)
Lemma dispatch_one_pinned_local s : pinned_local (dv_task s) → confined d s (dispatch_one d k s).2.
Proof using ids_distinct ids_named.
  intros Hp. destruct (residency_pin d k (dv_task s)) as [b|e] eqn:Hpin.
  - apply dispatch_one_pinned. rewrite Hpin. f_equal. by eapply pinned_local_residency.
  - destruct (decide (action (verdict_of d (dv_task s)) = BLOCK)) as [Hb|Hb].
    { apply silent_egress, dispatch_one_blocked, Hb. }
    assert (dispatch_one d k s = (Err e, s)) as ->; [|cbn; reflexivity].
    unfold dispatch_one. unfold mbind at 1. unfold decide_one. rewrite mbind_reads.
    rewrite bool_decide_eq_false_2 by done. unfold plain_lift. rewrite Hpin. done.
Qed.

(** A task of a pinned run. *)
Lemma dispatch_one_run_pinned s : rk_pinned k = true → confined d s (dispatch_one d k s).2.
Proof using ids_distinct ids_named. intros Hk. apply dispatch_one_pinned_local. right. by right. Qed.
End one_task.

(** C9: Residency of one task, in a catalog whose ids are distinct and not empty.  A task the
    guard blocks asks no completion, hands no text to the embedder, the retrieval, the corpus
    or the tracer, and launches no subprocess.  A task pinned local — by a [data_policy] of
    [local] or [local_only] in its requirements, by the guard on its text, or by the run — asks
    completions of in-perimeter models only, launches only subagents that complete through
    them and never the claude_code runner, and hands its text to no embedder, retrieval or
    corpus; the deploy's own tracer, when it is on, still receives it.  Whatever the provider,
    the embedder and the store answer, and whether or not the task then raises.  (The calls to
    the Toto backend, which holds the run, are not among these.) *)
Theorem task_confined d k s :
  NoDup (id <$> dr_catalog d) → (∀ e, e ∈ dr_catalog d → id e ≠ "") →
  (action (dr_guard d [say "user" (strip (task_text (dv_task s)))]) = BLOCK → silent s (dispatch_one d k s).2) ∧
  (pinned_local d k (dv_task s) → confined d s (dispatch_one d k s).2).
Proof. intros. split; [apply dispatch_one_blocked|by apply dispatch_one_pinned_local]. Qed.

(** ** Who decides the model of a task that may leave *)

Section authority.
Context (d : Driver) (k : RunKnobs).
#[local] Instance authority_transport : Transport DvState := driver_transport d.

Definition pinned_entry (skill : string) : option CatalogEntry :=
  nonempty (dget (rk_pins k) skill) ≫= catalog_get (effective_catalog_for d).

(** The entry an explicit binding of the label names: the user's, then the team's. *)
Definition explicit_entry (label : option string) : option CatalogEntry :=
  (nonempty label ≫= bound_entry d (rk_label_pins k)) orelse (nonempty label ≫= bound_entry d (rk_bindings k)).

Lemma label_stage_inv t prompt r s r' s' :
  label_stage d k t prompt false r s = (Ok r', s') →
  match dr_labels d with
  | None => r' = r
  | Some labels =>
      td_skill (ro_dec r') = td_skill (ro_dec r) ∧
      match explicit_entry (ro_label r') with
      | Some e => td_model_id (ro_dec r') = id e ∧ td_lane (ro_dec r') = lane e ∧ ro_bound r' = true
      | None =>
          match nonempty (ro_label r') ≫= table_entry d labels with
          | Some e => td_model_id (ro_dec r') = id e ∧ td_lane (ro_dec r') = lane e
          | None => td_model_id (ro_dec r') = td_model_id (ro_dec r) ∧ td_lane (ro_dec r') = td_lane (ro_dec r)
          end ∧ ro_bound r' = false
      end
  end.
Proof.
  unfold label_stage. destruct (dr_labels d) as [labels|]; [|by intros [= -> _]].
  intros ([label md] & s1 & _ & H)%mbind_ok. unfold explicit_entry.
  destruct (nonempty label ≫= bound_entry d (rk_label_pins k)) as [u|] eqn:Eu;
    [|destruct (nonempty label ≫= bound_entry d (rk_bindings k)) as [t'|] eqn:Et;
      [|destruct (nonempty label ≫= table_entry d labels) as [e|] eqn:Ee] ];
    cbn -[nonempty] in H; injection H as <- _; cbn [ro_label ro_dec ro_bound td_skill redirect td_model_id td_lane];
    rewrite ?Eu, ?Et, ?Ee; done.
Qed.
Lemma knn_stage_inv prompt r s r' s' :
  knn_stage d prompt false r s = (Ok r', s') →
  td_skill (ro_dec r') = td_skill (ro_dec r) ∧ ro_label r' = ro_label r ∧
  td_lane (ro_dec r') = td_lane (ro_dec r) ∧
  (td_model_id (ro_dec r') = td_model_id (ro_dec r) ∨
   ro_bound r = false ∧ ∃ f st p, experience d = Some f ∧
     f st prompt (td_lane (ro_dec r)) = Ok (Some p) ∧ td_model_id (ro_dec r') = prop_model p).
Proof.
  unfold knn_stage. destruct (experience d) as [f|] eqn:Ef; [|intros [= -> _]; by auto].
  cbn [orb]. destruct (ro_bound r); [intros [= -> _]; by auto|].
  rewrite mbind_modify. unfold mbind. set (st := push_text _ s).
  destruct (f st prompt (td_lane (ro_dec r))) as [[p|]|e] eqn:E; cbn; [|intros [= <- _]; by auto|done].
  intros [= <- _]. cbn. split_and!; [done..|]. right. split; [done|]. by exists f, st, p.
Qed.

Lemma pin_stage_inv r :
  td_skill (ro_dec (pin_stage d k false r)) = td_skill (ro_dec r) ∧
  ro_label (pin_stage d k false r) = ro_label r ∧
  match pinned_entry (td_skill (ro_dec r)) with
  | Some e => td_model_id (ro_dec (pin_stage d k false r)) = id e ∧ td_lane (ro_dec (pin_stage d k false r)) = lane e
  | None => ro_dec (pin_stage d k false r) = ro_dec r
  end.
Proof.
  unfold pin_stage, pinned_entry. destruct (nonempty (dget (rk_pins k) (td_skill (ro_dec r)))) as [pin|]; cbn; [|done].
  destruct (catalog_get _ pin) as [e|] eqn:E; done.
Qed.

Lemma classify_stage_inv t prompt s r s' :
  classify_stage d k t prompt false s = (Ok r, s') →
  ro_label r = None ∧ ∃ skill c, classify (tk_metadata t) (effective_catalog_for d) (dr_benchmarks d) (rk_optimize k) skill = Ok c ∧
    td_lane (ro_dec r) = td_lane c ∧ td_model_id (ro_dec r) = td_model_id c.
Proof.
  unfold classify_stage. intros (skill & s1 & _ & H)%mbind_ok.
  apply mbind_ok in H as (c & s2 & [Hc _]%lift_ok & H).
  injection H as <- _. cbn. split; [done|]. exists skill, c. by destruct (dr_embed_routing d).
Qed.

(** Where the model comes from when neither the table nor an explicit choice binds it. *)
Definition proposed_by_policy (t : Task) (label : option string) (l : Lane) (m : string) : Prop :=
  match match dr_labels d with Some labels => nonempty label ≫= table_entry d labels | None => None end with
  | Some e => l = lane e ∧ m = id e
  | None => ∃ skill c, classify (tk_metadata t) (effective_catalog_for d) (dr_benchmarks d) (rk_optimize k) skill = Ok c ∧
      l = td_lane c ∧ m = td_model_id c
  end.

(** Who decides the model of a task free to leave: the user's pin for its skill; else the
    user's, then the team's binding of its label; else the label table, or without a
    binding the benchmark classifier, in both of which similar past tasks may replace the
    model but never the lane. *)
Theorem decision_authority s rd dec s' :
  decide_one d k s = (Ok rd, s') → rd_dec rd = Some dec → rd_local_pinned rd = false →
  match pinned_entry (td_skill dec), explicit_entry (if dr_labels d then rd_label rd else None) with
  | Some e, _ | None, Some e => td_model_id dec = id e ∧ td_lane dec = lane e
  | None, None => ∃ m, proposed_by_policy (dv_task s) (rd_label rd) (td_lane dec) m ∧
      (td_model_id dec = m ∨ ∃ f st p, experience d = Some f ∧
         f st (strip (task_text (dv_task s))) (td_lane dec) = Ok (Some p) ∧ td_model_id dec = prop_model p)
  end.
Proof.
  unfold decide_one. rewrite mbind_reads. destruct (action _ ≡? BLOCK); [by intros [= <- _]|].
  intros (pinned & s1 & _ & H)%mbind_ok.
  destruct (pinned && _); [cbn in H; by injection H as <- _|].
  rewrite mbind_modify in H. apply mbind_ok in H as (r & s2 & Hr & H). injection H as <- _. cbn.
  intros [= <-] ->. unfold route_stages in Hr.
  apply mbind_ok in Hr as (r1 & s3 & (Hl1 & skill & c & Hc & Hlane1 & Hm1)%classify_stage_inv & Hr).
  apply mbind_ok in Hr as (r2 & s4 & H2%label_stage_inv & Hr).
  apply mbind_ok in Hr as (r3 & s5 & (Hsk3 & Hlb3 & Hln3 & Hm3)%knn_stage_inv & Hr).
  apply lift_ok in Hr as [Hr _]. unfold residency_stage in Hr. cbn [andb] in Hr. injection Hr as <-.
  destruct (pin_stage_inv r3) as (Hsk & Hlb & Hpin). rewrite Hsk, Hlb, Hlb3.
  destruct (pinned_entry (td_skill (ro_dec r3))) as [e|]; [done|]. rewrite Hpin.
  unfold proposed_by_policy. destruct (dr_labels d) as [labels|].
  - destruct H2 as [_ H2]. destruct (explicit_entry (ro_label r2)) as [e|].
    + destruct H2 as (Hm & Hln & Hb). destruct Hm3 as [Hm3|[? _]]; [|congruence]. split; congruence.
    + destruct H2 as [H2 _]. exists (td_model_id (ro_dec r2)). rewrite Hln3. split.
      * destruct (nonempty (ro_label r2) ≫= table_entry d labels) as [e|]; [by destruct H2 as [-> ->]|].
        exists skill, c. destruct H2 as [-> ->]. auto.
      * destruct Hm3 as [Hm3|(_ & f & st & p & ?)]; [by left|right; by eauto].
  - subst r2. cbn. exists (td_model_id (ro_dec r1)). rewrite Hln3. split; [by eauto|].
    destruct Hm3 as [Hm3|(_ & f & st & p & ?)]; [by left|right; by eauto].
Qed.
End authority.

(** ** Witnesses *)

Lemma demo_ids_distinct : NoDup (id <$> dr_catalog demo_driver).
Proof. apply (bool_decide_unpack _). vm_compute. done. Qed.

Lemma demo_ids_named e : e ∈ dr_catalog demo_driver → id e ≠ "".
Proof. intros [->|[->|[]%elem_of_nil]%elem_of_cons]%elem_of_cons; done. Qed.

Definition demo_knobs (pinned : bool) : RunKnobs :=
  {| rk_optimize := None; rk_pins := [("general", "local")]; rk_pinned := pinned; rk_label_pins := [];
     rk_bindings := []; rk_custom := [] |}.

(** A task of a pinned run is executed by the in-perimeter model. *)
Lemma task_confined_witness :
  let out := dispatch_one demo_driver (demo_knobs true) (demo_state "add the numbers") in
  confined demo_driver (demo_state "add the numbers") out.2 ∧
  sent_models (dv_llm out.2) = ["local"] ∧ dv_texts out.2 = [].
Proof.
  intros out. split; [|split; reflexivity].
  apply (task_confined demo_driver (demo_knobs true) (demo_state "add the numbers")
           demo_ids_distinct demo_ids_named). right. right. reflexivity.
Defined.

(** The user's pin of the skill decides. *)
Lemma decision_authority_witness :
  ∃ rd dec s', decide_one demo_driver (demo_knobs false) (demo_state "add the numbers") = (Ok rd, s') ∧
    rd_dec rd = Some dec ∧ td_model_id dec = "local" ∧ td_lane dec = economy.
Proof.
  destruct (decide_one demo_driver (demo_knobs false) (demo_state "add the numbers")) as [[rd|e] s'] eqn:E;
    [|discriminate].
  destruct (rd_dec rd) as [dec|] eqn:Ed; [|vm_compute in E; injection E as <- _; discriminate].
  exists rd, dec, s'. split; [reflexivity|]. split; [exact Ed|].
  pose proof (decision_authority demo_driver (demo_knobs false) (demo_state "add the numbers") rd dec s' E Ed) as H.
  vm_compute in E. injection E as <- _. cbn in Ed. injection Ed as <-. specialize (H eq_refl). exact H.
Defined.
