(* ===== verification/DriverRun.v ===== *)
(** * The driver graph ([driver/core.py], [driver/graph.py], [persona.py])

    The nodes of the graph over the run state, the graph that walks them, and [run]: the
    egress gate on the raw query and on every authored task, then the walk.  A node returns
    the keys it updates, which [merge] folds into the state. *)

From S2P Require Import Prelude PyStr PyDict Schemas Catalog Identity Policy Resilience Benchmarks Labels.
From S2P Require Import Classify Prompts Effects TotoClient Streaming Knn Driver TaskRouting.

(** ** The persona's message builders *)

(** [get_persona]: [choice] is the configured value, [read_file] the stripped contents of
    a path that names a readable file. *)
Definition get_persona (TOTO_SYSTEM NEUTRAL_PERSONA : string) (read_file : string → option string)
    (persona : string) : string :=
  let choice := strip (if persona ≡? "" then "toto" else persona) in
  if choice ≡? "toto" then TOTO_SYSTEM
  else if choice ≡? "neutral" then NEUTRAL_PERSONA
  else if str_len choice <? 4096 then
         match read_file choice with Some t => t | None => choice end
       else choice.

Definition blank_line : string := newline +:+ newline.

(** One sub-task and its result, as the weaving call reads it. *)
Definition result_block (i : nat) (task result : string) : string :=
  "### Task " +:+ str_of_nat i +:+ ": " +:+ strip task +:+ newline +:+ strip result.

Definition build_synthesize_messages (prompt query : string) (results : list (string * string))
    (history : list Turn) : list PromptMsg :=
  let blocks := imap (λ i tr, result_block (S i) tr.1 tr.2) results in
  let joined := match blocks with [] => "(no sub-task results)" | _ => join blank_line blocks end in
  let user := "Original request:" +:+ newline +:+ query +:+ blank_line +:+
              "Sub-task results:" +:+ newline +:+ joined in
  add_cache_breakpoints ([pm "system" prompt] ++ history_messages history ++ [pm "user" user]).

Definition build_revise_messages (prompt prev_summary new_result : string) : list PromptMsg :=
  let prev := strip prev_summary in
  [pm "system" prompt;
   pm "user" ("Previous summary:" +:+ newline +:+ (if prev ≡? "" then "(none yet)" else prev) +:+
              blank_line +:+ "Latest turn result:" +:+ newline +:+ strip new_result)].

Definition build_direct_messages (prompt query : string) (history : list Turn) : list PromptMsg :=
  add_cache_breakpoints ([pm "system" prompt] ++ history_messages history ++ [pm "user" query]).

(** ** The state of a run ([RouteState]) *)

Record RunState := {
  rs_query : string;
  rs_kind : option string;
  rs_tasks : list Task;
  rs_list_id : option json;
  rs_answer : option string;
  rs_local : bool;
  rs_user_id : option string;
  rs_optimize : option string;
  rs_history : list Turn;
  rs_spans : list Span;
}.

(** The keys a node returns; [up_local] only ever raises the flag. *)
Record Update := {
  up_kind : option string;
  up_tasks : option (list Task);
  up_list_id : option (option json);
  up_answer : option string;
  up_local : bool;
  up_spans : list Span;
}.

(** The graph's channels: the last value wins, spans are appended. *)
Definition merge (st : RunState) (u : Update) : RunState :=
  {| rs_query := rs_query st; rs_kind := or_keep (up_kind u) (rs_kind st);
     rs_tasks := match up_tasks u with Some l => l | None => rs_tasks st end;
     rs_list_id := match up_list_id u with Some l => l | None => rs_list_id st end;
     rs_answer := or_keep (up_answer u) (rs_answer st);
     rs_local := up_local u || rs_local st; rs_user_id := rs_user_id st;
     rs_optimize := rs_optimize st; rs_history := rs_history st;
     rs_spans := rs_spans st ++ up_spans u |}.

Definition triaged (kind : string) (spans : list Span) : Update :=
  {| up_kind := Some kind; up_tasks := None; up_list_id := None; up_answer := None; up_local := false;
     up_spans := spans |}.

Definition planned (tasks : list Task) (l : option json) (spans : list Span) : Update :=
  {| up_kind := None; up_tasks := Some tasks; up_list_id := Some l; up_answer := None; up_local := false;
     up_spans := spans |}.

Definition answered (a : string) (spans : list Span) : Update :=
  {| up_kind := None; up_tasks := None; up_list_id := None; up_answer := Some a; up_local := false;
     up_spans := spans |}.

(** A parsed task as a record of the run. *)
Definition task_of_dict (t : list (string * json)) : Task :=
  new_task (str_field t "task") (str_field t "description")
           (match dget t "metadata" with Some (JObj m) => m | _ => [] end).

(** [for t, iid in zip(tasks, ids or [None] * len(tasks)): t["item_id"] = iid] *)
Fixpoint assign_items (tasks : list Task) (ids : list json) : list Task :=
  match tasks, ids with
  | t :: tasks, i :: ids => set_item (Some i) t :: assign_items tasks ids
  | _, _ => tasks
  end.

Definition with_items (tasks : list Task) (ids : option (list json)) : list Task :=
  match ids with
  | Some ((_ :: _) as ids) => assign_items tasks ids
  | _ => set_item None <$> tasks
  end.

Definition exec_tokens (x : Exec) : list (string * json) :=
  [("tokens_prompt", JInt (ex_tokens_prompt x)); ("tokens_cached", JInt (ex_tokens_cached x))].

Section nodes.
Context (d : Driver).

#[local] Instance nodes_transport : Transport DvState := driver_transport d.

(** [_reasoning_model] *)
Definition reasoning_model (pinned : bool) (configured : string) : string :=
  if negb pinned then configured
  else
    let inside := match catalog_get (dr_catalog d) configured with
                  | Some e => residency_class e ≡? in_perimeter
                  | None => false
                  end in
    if inside then configured
    else match nonempty (first_in_perimeter_model (dr_catalog d)) with Some m => m | None => configured end.

(** ** Toto persistence *)

Definition list_meta (kind : string) : list (string * json) :=
  [("purpose", JStr ("Driver session (" +:+ kind +:+ "): routed decomposition of a user request."));
   ("scope", JStr "backend"); ("component", JStr "toto-gateway/driver");
   ("intent", JStr "Each task is routed to an executor by its metadata; provenance written back.")].

Definition task_item (t : Task) : Item :=
  {| it_task := tk_task t; it_description := tk_description t; it_metadata := tk_metadata t |}.

(** [_create_tasks] *)
Definition create_tasks (query : string) (tasks : list Task) (kind : string)
    : D (option json * option (list json) * list Span) :=
  if dr_has_toto d then
    do! l := toto d (create_list (list_name query) (list_meta kind)) "create_list" in
    match l.1 with
    | Some i =>
        if truthy i then
          do! ids := toto d (batch_items i (task_item <$> tasks)) "batch_items" in
          mret (Some i, ids.1, l.2 ++ ids.2)
        else mret (None, None, l.2)
    | None => mret (None, None, l.2)
    end
  else mret (None, None, []).

(** ** Triage and the trivial answer *)

Definition triage (st : RunState) : D Update :=
  match nonempty (rs_kind st) with
  | Some kind =>
      do! sp := emit "triage" [("kind", JStr kind); ("model", JStr "");
                               ("reason", JStr "pre-triaged: spawned by companion")] in
      mret (triaged kind [sp])
  | None =>
      do! x := llm d (reasoning_model (rs_local st) (dr_triage_model d))
                   (build_triage_messages (triage_prompt d) (rs_query st) (rs_history st))
                   "triage.llm" (cap d "triage") None in
      let parsed := parse_triage (loads d) (ex_text x) in
      let kind := if t_kind parsed ≡? "trivial" then "trivial" else "multistep" in
      do! sp := emit "triage" ([("kind", JStr kind); ("model", JStr (ex_model x));
                                ("reason", JStr (t_reason parsed)); ("cost", jcost (ex_cost_usd x))]
                               ++ exec_tokens x) in
      mret (triaged kind [sp])
  end.

(** The provenance of a trivial answer. *)
Definition trivial_execution (now : json) (x : Exec) : list (string * json) :=
  [("runner", JStr "gateway"); ("executor", JStr (ex_model x)); ("lane", JStr (ex_lane x));
   ("model", JStr (ex_model x)); ("tokens_prompt", JInt (ex_tokens_prompt x));
   ("tokens_completion", JInt (ex_tokens_completion x)); ("tokens_cached", JInt (ex_tokens_cached x));
   ("cost_usd", jcost (ex_cost_usd x)); ("outcome", JStr "completed"); ("latency_ms", JInt (ex_latency_ms x));
   ("route_reason", JStr "trivial: direct answer by driver model");
   ("artifact", make_artifact d now "task_result" (ex_text x) (ex_model x) [ex_lane x])].

Definition trivial_item (query : string) : Task :=
  new_task (list_name query) "Direct trivial answer by driver model" [("scope", JStr "qa")].

(** A call on the item, when there is one. *)
Definition on_item (item : option json) (f : json → D unit) (op : string) : D (list Span) :=
  match item with
  | Some i => if truthy i then do! r := toto d (f i) op in mret r.2 else mret []
  | None => mret []
  end.

Definition answer_trivial (st : RunState) : D Update :=
  let q := rs_query st in
  let item := trivial_item q in
  do! created := create_tasks q [item] "trivial" in
  let '(list_id, ids, s0) := created in
  let item_id := match ids with Some (i :: _) => Some i | _ => None end in
  do! s1 := on_item item_id (λ i, set_status i "in_progress") "status" in
  do! x := answer d (reasoning_model (rs_local st) (dr_driver_model d))
                  (build_direct_messages (direct_prompt d) q (rs_history st))
                  "answer.llm" "answer_trivial" (cap d "answer") in
  do! sp := emit "answer_trivial" ([("model", JStr (ex_model x)); ("cost", jcost (ex_cost_usd x))] ++ exec_tokens x) in
  do! now := reads (now_of d) in
  let execution := trivial_execution now x in
  let done := settle_task {| o_blocked := false; o_lane := Some (ex_lane x); o_model := Some (ex_model x);
                             o_tools := Some []; o_skill := None; o_residency := None; o_result := None;
                             o_execution := execution |} (set_item item_id item) in
  do! s2 := on_item item_id (λ i, set_status i "done") "status" in
  do! s3 := on_item item_id (λ i, write_execution i execution None) "exec" in
  mret {| up_kind := None; up_tasks := Some [done]; up_list_id := Some list_id; up_answer := Some (ex_text x);
          up_local := false; up_spans := s0 ++ s1 ++ [sp] ++ s2 ++ s3 |}.

(** ** Decomposition *)

Definition clamp_span (tasks : list Task) : D (list Span) :=
  if MAX_DECOMPOSE_TASKS <? length tasks then
    do! sp := emit "decompose_clamp" [("kept", JInt (Z.of_nat MAX_DECOMPOSE_TASKS));
                                      ("dropped", JInt (Z.of_nat (length tasks - MAX_DECOMPOSE_TASKS)))] in
    mret [sp]
  else mret [].

Definition escalated (query : string) : Task :=
  new_task (list_name query) "Escalated single task (decomposition unparseable)" [("complexity", JStr "high")].

Definition parsed_tasks (t : string) : res Exn (list Task) :=
  match parse_tasks (loads d) (set_subagent_runners (dr_subagents d)) t with
  | Ok l => Ok (task_of_dict <$> l)
  | Err what => Err (raised what)
  end.

(** Persists the plan and hands it to dispatch. *)
Definition plan (q : string) (tasks : list Task) (s0 : list Span) (span : option json → list (string * json))
    : D Update :=
  do! created := create_tasks q tasks "multistep" in
  let '(list_id, ids, s1) := created in
  do! sp := emit "decompose" (("n_tasks", JInt (Z.of_nat (length tasks))) :: span list_id) in
  mret (planned (with_items tasks ids) list_id (s0 ++ s1 ++ [sp])).

Definition jlist_id (l : option json) : json := match l with Some i => i | None => JNull end.

(** The tasks of a request nobody authored: parsed, parsed once more after the nudge, or
    the whole request as one escalated task. *)
Definition decomposed (st : RunState) : D (list Task * Exec * list Span) :=
  let q := rs_query st in
  let m := reasoning_model (rs_local st) (dr_driver_model d) in
  do! x := llm d m (build_decompose_messages (decompose_prompt d) q (rs_history st))
               "decompose.llm" (cap d "decompose") None in
  do! first := plain_lift (parsed_tasks (ex_text x)) in
  match first with
  | _ :: _ => mret (first, x, [])
  | [] =>
      do! y := llm d m (build_decompose_retry_messages (decompose_prompt d) (decompose_nudge d) q (ex_text x) (rs_history st))
                   "decompose.retry.llm" (cap d "decompose") None in
      do! again := plain_lift (parsed_tasks (ex_text y)) in
      do! sp := emit "decompose_retry"
                  [("outcome", JStr (match again with [] => "unparseable" | _ => "recovered" end))] in
      match again with
      | _ :: _ => mret (again, x, [sp])
      | [] => do! sp' := emit "decompose_fallback" [("reason", JStr "unparseable decomposition")] in
              mret ([escalated q], x, [sp; sp'])
      end
  end.

Definition decompose (st : RunState) : D Update :=
  let q := rs_query st in
  match rs_tasks st with
  | (_ :: _) as pre =>
      do! s0 := clamp_span pre in
      plan q (set_authored <$> firstn MAX_DECOMPOSE_TASKS pre) s0
           (λ l, [("list_id", jlist_id l); ("model", JStr ""); ("authored", JBool true)])
  | [] =>
      do! r := decomposed st in
      let '(tasks, x, s0) := r in
      do! s1 := clamp_span tasks in
      plan q (firstn MAX_DECOMPOSE_TASKS tasks) (s0 ++ s1)
           (λ l, [("list_id", jlist_id l); ("model", JStr (ex_model x)); ("cost", jcost (ex_cost_usd x))] ++ exec_tokens x)
  end.

(** ** Dispatch *)

(** The team overlay: label bindings with the custom labels folded in, the optimize preset,
    the custom labels; nothing when the policy cannot be resolved. *)
Definition custom_binding (b : list (string * string)) (c : CustomLabel) : list (string * string) :=
  match nonempty (cl_name c), nonempty (cl_model c) with
  | Some n, Some m => dsetdefault b n m
  | _, _ => b
  end.

Definition team_overlay : list (string * string) * option string * list CustomLabel :=
  match dr_policy d with
  | Ok (Some p) => (foldl custom_binding (label_bindings p) (custom_labels p), optimize p, custom_labels p)
  | _ => ([], None, [])
  end.

Definition prefs_for (st : RunState) : Prefs :=
  match preferences d (rs_user_id st) with Ok p => p | Err _ => no_prefs end.

Definition knobs_for (st : RunState) : RunKnobs :=
  let prefs := prefs_for st in
  let '(bindings, team_optimize, custom) := team_overlay in
  {| rk_optimize := nonempty (rs_optimize st) orelse nonempty (pf_optimize prefs) orelse team_optimize;
     rk_pins := pf_pins prefs; rk_pinned := rs_local st; rk_label_pins := pf_label_models prefs;
     rk_bindings := bindings; rk_custom := custom |}.

(** One task of the gather, in a scope of its own: what it returned, and where it stopped. *)
Definition run_task (k : RunKnobs) (i : nat) (t : Task) : res Exn (list Span) * DvState :=
  dispatch_one d k (fresh_state (S i) t).

Definition crashed (e : Exn) (t : Task) : Task :=
  settle_task {| o_blocked := false; o_lane := tk_lane t; o_model := tk_model t; o_tools := None;
                 o_skill := None; o_residency := None; o_result := None;
                 o_execution := [("outcome", JStr "failed");
                                 ("route_reason", JStr ("dispatch crashed: " +:+ error_text d e))] |} t.

(** After the gather: the spans in task order; a task that raised is failed in place. *)
Fixpoint settle (l : list (res Exn (list Span) * Task)) : D (list Task * list Span) :=
  match l with
  | [] => mret ([], [])
  | (Ok group, t) :: l => do! r := settle l in mret (t :: r.1, group ++ r.2)
  | (Err e, t) :: l =>
      do! sp := emit "dispatch_error" [("task", JStr (tk_task t)); ("error", JStr (error_text d e))] in
      do! r := settle l in mret (crashed e t :: r.1, sp :: r.2)
  end.

Definition dispatch (st : RunState) : D Update :=
  let k := knobs_for st in
  let runs := imap (run_task k) (rs_tasks st) in
  modify (λ s, foldl absorb s runs.*2) ;;
  do! r := settle ((λ x, (x.1, dv_task x.2)) <$> runs) in
  mret {| up_kind := None; up_tasks := Some r.1; up_list_id := None; up_answer := None;
          up_local := existsb tk_local r.1; up_spans := r.2 |}.

(** ** Synthesis *)

Definition has_result (t : Task) : bool :=
  match tk_result t with Some r => negb (strip r ≡? "") | None => false end.

Definition result_of (t : Task) : string := match tk_result t with Some r => r | None => "" end.

Definition woven (t : Task) : string * string :=
  (tk_task t, if result_of t ≡? "" then "(no result / blocked)" else result_of t).

Definition synthesize (st : RunState) : D Update :=
  match List.filter has_result (rs_tasks st) with
  | _ :: _ :: _ =>
      do! x := answer d (reasoning_model (rs_local st) (dr_driver_model d))
                      (build_synthesize_messages (synthesize_prompt d) (rs_query st) (woven <$> rs_tasks st) (rs_history st))
                      "synthesize.llm" "synthesize" (cap d "synthesize") in
      do! sp := emit "synthesize" ([("model", JStr (ex_model x)); ("cost", jcost (ex_cost_usd x))] ++ exec_tokens x) in
      mret (answered (ex_text x) [sp])
  | few =>
      do! sp := emit "synthesize" [("model", JStr ""); ("cost", JFloat 0 ""); ("skipped", JBool true)] in
      mret (answered (match few with t :: _ => result_of t | [] => "" end) [sp])
  end.

(** [revise_card] *)
Definition revise_card (prev_summary new_result : string) : D string :=
  do! x := llm d (dr_driver_model d) (build_revise_messages (revise_prompt d) prev_summary new_result)
               "revise.llm" (cap d "synthesize") None in
  mret (ex_text x).

(** ** The graph ([driver/graph.py]) *)

Inductive Node : Type := NTriage | NAnswerTrivial | NDecompose | NDispatch | NSynthesize.

Definition run_node (n : Node) : RunState → D Update :=
  match n with
  | NTriage => triage
  | NAnswerTrivial => answer_trivial
  | NDecompose => decompose
  | NDispatch => dispatch
  | NSynthesize => synthesize
  end.

(** The edges, with [_route_after_triage] for the conditional one; [None] is [END]. *)
Definition next_node (n : Node) (st : RunState) : option Node :=
  match n with
  | NTriage => Some (match rs_kind st with
                     | Some k => if k ≡? "trivial" then NAnswerTrivial else NDecompose
                     | None => NDecompose
                     end)
  | NDecompose => Some NDispatch
  | NDispatch => Some NSynthesize
  | NAnswerTrivial | NSynthesize => None
  end.

(** [ainvoke]; [fuel] bounds the nodes visited. *)
Fixpoint walk (fuel : nat) (n : Node) (st : RunState) : D (option RunState) :=
  match fuel with
  | O => mret None
  | S fuel =>
      do! u := run_node n st in
      let st := merge st u in
      match next_node n st with
      | Some n => walk fuel n st
      | None => mret (Some st)
      end
  end.

(** The longest path of the graph. *)
Definition GRAPH_FUEL : nat := 4.

(** ** The run *)

Record DriverResult := {
  res_query : string;
  res_kind : string;
  res_answer : string;
  res_tasks : list Task;
  res_list_id : option json;
  res_spans : list Span;
}.

(** [_blocked_result] *)
Definition blocked_result (query : string) (reasons : list string) : D DriverResult :=
  do! sp := emit "guard_block" [("reasons", JList (JStr <$> reasons))] in
  let item := settle_task {| o_blocked := true; o_lane := None; o_model := None; o_tools := None; o_skill := None;
                             o_residency := None; o_result := None;
                             o_execution := [("outcome", JStr "blocked_constraints");
                                             ("route_reason", JStr (join "; " reasons))] |}
                          (new_task (list_name query) "Blocked by egress guard" []) in
  mret {| res_query := query; res_kind := "blocked";
          res_answer := "This request was blocked by the safety guard and not routed.";
          res_tasks := [item]; res_list_id := None; res_spans := [sp] |}.

(** The verdicts of the gate, in order: the raw query's, then each authored task's. *)
Definition gate_verdicts (query : string) (tasks : list Task) : list GuardVerdict :=
  (λ c, dr_guard d [say "user" c]) <$> query :: (task_text <$> tasks).

(** The egress gate: the reasons of the first block, or whether the run is pinned local. *)
Fixpoint gate (vs : list GuardVerdict) : list string + bool :=
  match vs with
  | [] => inr false
  | v :: vs =>
      if action v ≡? BLOCK then inl (reasons v)
      else match gate vs with
           | inl r => inl r
           | inr b => inr ((action v ≡? DOWNGRADE_LOCAL) || b)
           end
  end.

Definition initial (query : string) (opt : option string) (history : list Turn) (kind user_id : option string)
    (tasks : list Task) (pinned : bool) : RunState :=
  {| rs_query := query;
     rs_kind := match tasks with [] => nonempty kind | _ => Some "multistep" end;
     rs_tasks := tasks; rs_list_id := None; rs_answer := None; rs_local := pinned; rs_user_id := user_id;
     rs_optimize := nonempty opt; rs_history := history; rs_spans := [] |}.

Definition final_result (query : string) (st : RunState) : DriverResult :=
  {| res_query := query; res_kind := match rs_kind st with Some k => k | None => "unknown" end;
     res_answer := match rs_answer st with Some a => a | None => "" end; res_tasks := rs_tasks st;
     res_list_id := rs_list_id st; res_spans := rs_spans st |}.

Definition run (query : string) (opt : option string) (history : list Turn) (kind user_id : option string)
    (tasks : list Task) : D (option DriverResult) :=
  match gate (gate_verdicts query tasks) with
  | inl reasons => do! r := blocked_result query reasons in mret (Some r)
  | inr pinned =>
      if pinned && negb (present (first_in_perimeter_model (dr_catalog d)))
      then do! r := blocked_result query [no_local_lane] in mret (Some r)
      else
        do! final := walk GRAPH_FUEL NTriage (initial query opt history kind user_id tasks pinned) in
        mret (final_result query <$> final)
  end.
End nodes.

(** [DriverResult.provenance] *)
Definition exec_field (t : Task) (k : string) : json :=
  match tk_execution t with
  | Some e => match dget e k with Some v => v | None => JNull end
  | None => JNull
  end.

Definition task_cost (t : Task) : Q :=
  match exec_field t "cost_usd" with JFloat q _ => q | JInt z => Qz z | _ => 0 end.

Definition provenance (r : DriverResult) : json :=
  JObj [("kind", JStr (res_kind r)); ("list_id", jlist_id (res_list_id r));
        ("n_tasks", JInt (Z.of_nat (length (res_tasks r))));
        ("cost_usd", JFloat (py_round 6 (foldl (λ a t, (a + task_cost t)%Q) 0%Q (res_tasks r))) "");
        ("tasks", JList ((λ t, JObj [("task", JStr (tk_task t)); ("lane", jopt (tk_lane t));
                                     ("model", jopt (tk_model t)); ("tools_required", JList (JStr <$> tk_tools t));
                                     ("route_reason", exec_field t "route_reason");
                                     ("outcome", exec_field t "outcome");
                                     ("item_id", jlist_id (tk_item_id t))]) <$> res_tasks r))].

(** ** What a run sends out *)

#[export] Hint Resolve toto_sends create_list_sends batch_items_sends set_status_sends write_execution_sends : gw.

Section run_sends.
Context (d : Driver) (Rel : DvState → DvState → Prop) `{!Logs Rel}.
#[local] Instance run_sends_transport : Transport DvState := driver_transport d.
Abbreviation sends := (keeps (E := Exn) Rel).

Lemma create_tasks_sends q ts kind : sends (create_tasks d q ts kind).
Proof. unfold create_tasks. repeat first [logs toto_sends | logs create_list_sends | logs batch_items_sends | keeps_step]. Qed.

Lemma on_item_sends i f op : (∀ i, sends (f i)) → sends (on_item d i f op).
Proof. intros Hf. unfold on_item. repeat first [logs toto_sends | apply Hf | keeps_step]. Qed.

Lemma clamp_span_sends ts : sends (clamp_span ts).
Proof. unfold clamp_span. repeat first [logs emit_sends | keeps_step]. Qed.

Lemma plan_sends q ts s0 f : sends (plan d q ts s0 f).
Proof. unfold plan. repeat first [logs create_tasks_sends | logs emit_sends | keeps_step]. Qed.

Lemma settle_sends l : sends (settle d l).
Proof. induction l as [|[[?|?] ?] l IH]; cbn; repeat first [apply IH | logs emit_sends | keeps_step]. Qed.

Lemma blocked_result_sends q rs : sends (blocked_result q rs).
Proof. unfold blocked_result. repeat first [logs emit_sends | keeps_step]. Qed.

(** Completions of a model whose fallbacks, too, may be called. *)
Lemma llm_call_sends m ms name mt temp :
  (dr_tracing d = true → ∀ t, may_text (STracer, t)) →
  (∀ x r, x ∈ m :: fallbacks (dr_catalog d) m false → model r = x → may_llm {| lc_name := name; lc_req := r |}) →
  sends (llm d m ms name mt temp).
Proof.
  intros Ht HP. unfold llm, call. apply keeps_bind; [apply _| |intros ?; apply keeps_ret; apply _].
  logs try_models_sends; [done|]. intros x Hx. logs complete_sends. apply (HP x); [exact Hx|].
  by case_bool_decide as Heq; [rewrite Heq|].
Qed.

Lemma answer_sends m ms name node mt :
  (dr_tracing d = true → ∀ t, may_text (STracer, t)) →
  (∀ x r, x ∈ m :: fallbacks (dr_catalog d) m false → model r = x → may_llm {| lc_name := name; lc_req := r |}) →
  sends (answer d m ms name node mt).
Proof.
  intros Ht HP. unfold answer. destruct (stream_fn d) as [f|]; [|by logs llm_call_sends].
  apply keeps_bind; [apply _| |intros ?; apply keeps_ret; apply _].
  unfold call. logs try_models_sends; [done|]. intros x Hx. unfold run_stream, plain_lift.
  apply keeps_bind; [apply _|logs llm_sends; apply (HP x); [exact Hx|by case_bool_decide as Heq; [rewrite Heq|] ]|intros ?].
  repeat first [logs deltas_sends | keeps_step].
Qed.
End run_sends.

Lemma absorb_egress P T R s i t0 t : egress P T R (fresh_state i t0) t → egress P T R s (absorb s t).
Proof. intros [(?&H1&?) (?&H2&?) (?&H3&?)]. split; cbn; [rewrite H1|rewrite H2|rewrite H3]; eauto. Qed.

Lemma foldl_absorb_egress P T R s l :
  (∀ x, x ∈ l → ∃ i t, egress P T R (fresh_state i t) x) → egress P T R s (foldl absorb s l).
Proof.
  revert s. induction l as [|x l IH]; intros s H; [cbn; reflexivity|]. cbn.
  destruct (H x) as (i & t & Hx); [left|]. etrans; [by eapply absorb_egress|].
  apply IH. intros y Hy. apply H. by right.
Qed.

Section run_confinement.
Context (d : Driver).
Hypothesis ids_distinct : NoDup (id <$> dr_catalog d).
Hypothesis ids_named : ∀ e, e ∈ dr_catalog d → id e ≠ "".
Hypothesis has_lane : present (first_in_perimeter_model (dr_catalog d)) = true.

Lemma reasoning_model_inside configured : inside d (reasoning_model d true configured).
Proof using ids_distinct ids_named has_lane.
  destruct (present_some _ has_lane) as (perim & Hp). unfold reasoning_model. cbn [negb].
  destruct (catalog_get (dr_catalog d) configured) as [e|] eqn:E; [case_bool_decide as Hr|].
  - destruct (base_residency d configured e E) as (e' & He' & Hr'). exists e'. split; [done|congruence].
  - rewrite Hp. apply first_in_perimeter_inside in Hp as Hin; [|done].
    unfold nonempty. case_bool_decide as He; [|done].
    by destruct (first_in_perimeter_named d ids_named perim Hp).
  - rewrite Hp. apply first_in_perimeter_inside in Hp as Hin; [|done].
    unfold nonempty. case_bool_decide as He; [|done].
    by destruct (first_in_perimeter_named d ids_named perim Hp).
Qed.

(** The calls of a pinned reasoning node. *)
Lemma pinned_calls m name : inside d m →
  ∀ x r, x ∈ m :: fallbacks (dr_catalog d) m false → model r = x → inside_call d {| lc_name := name; lc_req := r |}.
Proof using ids_distinct.
  intros Hin x r [->|Hx]%elem_of_cons <-; [exact Hin|]. by eapply fallbacks_inside.
Qed.

Lemma triage_confined st : rs_local st = true → keeps (confined d) (triage d st).
Proof using ids_distinct ids_named has_lane.
  intros Hl. unfold triage. rewrite Hl. destruct (nonempty (rs_kind st)).
  - repeat first [logs emit_sends | keeps_step].
  - apply keeps_bind; [apply _| |intros ?; repeat first [logs emit_sends | keeps_step] ].
    logs llm_call_sends; [by split|]. apply pinned_calls, reasoning_model_inside.
Qed.

Lemma answer_trivial_confined st : rs_local st = true → keeps (confined d) (answer_trivial d st).
Proof using ids_distinct ids_named has_lane.
  intros Hl. unfold answer_trivial. rewrite Hl.
  apply keeps_bind; [apply _|logs create_tasks_sends|intros [[l ids] s0] ].
  apply keeps_bind; [apply _|logs on_item_sends; intros; logs set_status_sends|intros s1].
  apply keeps_bind; [apply _| |intros x].
  { logs answer_sends; [by split|]. apply pinned_calls, reasoning_model_inside. }
  repeat first [logs emit_sends | (logs on_item_sends; intros; first [logs set_status_sends | logs write_execution_sends])
               | keeps_step].
Qed.

Lemma decomposed_confined st : rs_local st = true → keeps (confined d) (decomposed d st).
Proof using ids_distinct ids_named has_lane.
  intros Hl. unfold decomposed, plain_lift. rewrite Hl.
  repeat first [logs emit_sends | (logs llm_call_sends; [by split|apply pinned_calls, reasoning_model_inside]) | keeps_step].
Qed.

Lemma decompose_confined st : rs_local st = true → keeps (confined d) (decompose d st).
Proof using ids_distinct ids_named has_lane.
  intros Hl. unfold decompose.
  repeat first [logs clamp_span_sends | logs plan_sends | by apply decomposed_confined | keeps_step].
Qed.

Lemma dispatch_node_confined st : rs_local st = true → keeps (confined d) (dispatch d st).
Proof using ids_distinct ids_named.
  intros Hl. unfold dispatch. apply keeps_bind; [apply _| |intros ?; repeat first [logs settle_sends | keeps_step] ].
  apply keeps_modify. intros s. apply foldl_absorb_egress.
  intros x (y & -> & (i & t & -> & _)%elem_of_lookup_imap)%list_elem_of_fmap.
  exists (S i), t. apply dispatch_one_run_pinned; [done..|].
  unfold knobs_for. by destruct (team_overlay d) as [[? ?] ?].
Qed.

Lemma synthesize_confined st : rs_local st = true → keeps (confined d) (synthesize d st).
Proof using ids_distinct ids_named has_lane.
  intros Hl. unfold synthesize. rewrite Hl.
  repeat first [logs emit_sends | (logs answer_sends; [by split|apply pinned_calls, reasoning_model_inside]) | keeps_step].
Qed.

Lemma merge_local st u : rs_local st = true → rs_local (merge st u) = true.
Proof. cbn. intros ->. apply orb_true_r. Qed.

Lemma walk_confined fuel n st : rs_local st = true → keeps (confined d) (walk d fuel n st).
Proof using ids_distinct ids_named has_lane.
  revert n st. induction fuel as [|fuel IH]; intros n st Hl; [apply keeps_ret; apply _|].
  cbn [walk]. apply keeps_bind; [apply _| |intros u].
  - destruct n; [by apply triage_confined|by apply answer_trivial_confined|by apply decompose_confined
                |by apply dispatch_node_confined|by apply synthesize_confined].
  - destruct (next_node n (merge st u)); [by apply IH, merge_local|apply keeps_ret; apply _].
Qed.
End run_confinement.

(** ** How a dispatched task ends *)

(** What the caller asked: everything the routing and the execution leave alone. *)
Definition work (t : Task) : string * string * list (string * json) * option json * bool :=
  (tk_task t, tk_description t, tk_metadata t, tk_item_id t, tk_authored t).

Definition outcome_of (t : Task) : option json := tk_execution t ≫= λ e, dget e "outcome".

(** The task has an execution record, and a result exactly when it completed. *)
Definition ended (t : Task) : Prop :=
  (outcome_of t = Some (JStr "completed") ∧ tk_result t ≠ None) ∨
  (outcome_of t ∈ [Some (JStr "failed"); Some (JStr "blocked_constraints")] ∧ tk_result t = None).

Definition same_work (s s' : DvState) : Prop := work (dv_task s') = work (dv_task s).

#[export] Instance same_work_logs : Logs same_work.
Proof.
  refine {| may_llm := always; may_text := always; may_proc := always |}; try abstract (by intros ? []).
  abstract (split; [done|]; intros s1 s2 s3 H1 H2; unfold same_work in *; congruence).
Defined.

Section any_log.
Context (d : Driver) (Rel : DvState → DvState → Prop) `{!Logs Rel}.
#[local] Instance any_log_transport : Transport DvState := driver_transport d.
Hypothesis any_llm : ∀ x, may_llm x.
Hypothesis any_text : ∀ x, may_text x.
Hypothesis any_proc : ∀ x, may_proc x.
Abbreviation sends := (keeps (E := Exn) Rel).

Lemma any_adapters_run name md r : sends (adapters_run d name md r).
Proof using any_llm any_proc.
  unfold adapters_run, gateway_run, pi_run, claude_run, plain_lift.
  repeat first [(logs complete_sends; apply any_llm) | (logs launch_sends; apply any_proc) | keeps_step].
Qed.

Lemma any_call req name md p : sends (call d req (adapters_run d name md) name p).
Proof using any_llm any_proc any_text.
  unfold call. logs try_models_sends; [intros; apply any_text|intros; apply any_adapters_run].
Qed.

Lemma any_label labels text custom : sends (classify_label d labels text custom).
Proof using any_llm any_text.
  unfold classify_label. apply keeps_bind; [apply _|apply keeps_attempt|intros o; repeat keeps_step].
  logs llm_call_sends; [intros; apply any_text|intros; apply any_llm].
Qed.

Lemma any_write_back e c : sends (write_back d e c).
Proof.
  unfold write_back.
  repeat first [logs toto_sends | logs set_status_sends | logs write_execution_sends | keeps_step].
Qed.

Lemma any_route_stages k t p : sends (route_stages d k t p).
Proof using any_llm any_text.
  unfold route_stages, classify_stage, label_stage, knn_stage, plain_lift.
  repeat first [(logs text_sends; apply any_text) | logs emit_sends | apply any_label
               | logs oracle_sends | keeps_step].
Qed.
End any_log.

Section ends.
Context (d : Driver).
#[local] Instance ends_transport : Transport DvState := driver_transport d.

Lemma change_task_then {A} (f : Task → Task) (m : D A) s :
  keeps same_task m → dv_task (mbind (change_task f) (λ _, m) s).2 = f (dv_task s).
Proof. intros Hm. unfold change_task. rewrite mbind_modify. rewrite (Hm _). by destruct s. Qed.

Lemma settle_work o : keeps (E := Exn) same_work (change_task (settle_task o)).
Proof. intros []. unfold same_work. cbn. by destruct dv_task. Qed.

Lemma emit_task_block_ends rs s : ended (dv_task (emit_task_block d rs s).2).
Proof.
  unfold emit_task_block. rewrite mbind_reads, change_task_then.
  - right. split; [right; left|done].
  - repeat first [logs emit_sends | logs any_write_back | keeps_step].
Qed.

Lemma task_failed_ends dec c e s : ended (dv_task (task_failed d dec c e s).2).
Proof.
  unfold task_failed. rewrite mbind_reads, change_task_then.
  - right. split; [left|done].
  - repeat first [logs emit_sends | logs any_write_back | keeps_step].
Qed.

Lemma task_done_ends dec rej c p prompt x f n s : ended (dv_task (task_done d dec rej c p prompt x f n s).2).
Proof.
  unfold task_done. rewrite !mbind_reads, change_task_then.
  - by left.
  - repeat first [logs emit_sends | logs any_write_back | (logs text_sends; done) | keeps_step].
Qed.

Lemma execute_work rd dec : keeps same_work (execute d rd dec).
Proof.
  unfold execute, emit_task_block, task_done, task_failed, plain_lift.
  repeat first [apply settle_work | logs emit_sends | logs any_write_back | (logs text_sends; done)
               | logs toto_sends | logs set_status_sends | (logs any_call; done) | keeps_step].
Qed.

Lemma execute_ends rd dec s sp s' : execute d rd dec s = (Ok sp, s') → ended (dv_task s').
Proof.
  unfold execute. rewrite mbind_reads. intros (runner & s1 & _ & H)%mbind_ok.
  destruct (match runner with Some (JStr r) => r ≡? "claude_code" | _ => false end).
  { pose proof (emit_task_block_ends [claude_refused] s1) as He. by rewrite H in He. }
  apply mbind_ok in H as (s0 & s2 & _ & H). apply mbind_ok in H as (o & s3 & _ & H).
  apply mbind_ok in H as (sp1 & s4 & H & [= _ <-]). destruct o as [[[x f] n]|e].
  - pose proof (task_done_ends dec (rd_rejected rd) (rd_label_metadata rd) (rd_local_pinned rd)
                  (strip (task_text (dv_task s))) x f n s3) as He. by rewrite H in He.
  - pose proof (task_failed_ends dec (rd_label_metadata rd) e s3) as He. by rewrite H in He.
Qed.

Lemma decide_one_work k s : same_work s (decide_one d k s).2.
Proof.
  unfold decide_one, plain_lift. rewrite mbind_reads. destruct (action _ ≡? BLOCK); [done|].
  destruct (residency_pin d k (dv_task s)) as [p|e]; cbn [lift_as]; [rewrite mbind_mret|done].
  destruct (p && _); [done|]. rewrite mbind_modify.
  transitivity (put_task (set_local p (dv_task s)) s).
  - unfold same_work. destruct s. cbn. by destruct dv_task.
  - match goal with |- same_work ?x (?m ?x).2 => enough (keeps same_work m) as K by apply K end.
    repeat first [logs any_route_stages; done | keeps_step].
Qed.

Lemma dispatch_one_work k s : same_work s (dispatch_one d k s).2.
Proof.
  unfold dispatch_one. pose proof (decide_one_work k s) as H1. unfold mbind at 1.
  destruct (decide_one d k s) as [[rd|e] s1]; [|done]. etrans; [exact H1|]. rewrite mbind_reads.
  cbn [snd]. match goal with |- same_work ?x (?m ?x).2 => enough (keeps same_work m) as K by apply K end.
  unfold emit_task_block.
  repeat first [apply execute_work | apply settle_work | logs emit_sends | logs any_write_back | keeps_step].
Qed.

Lemma dispatch_one_ends k s sp s' : dispatch_one d k s = (Ok sp, s') → ended (dv_task s').
Proof.
  unfold dispatch_one. intros (rd & s1 & _ & H)%mbind_ok. rewrite mbind_reads in H.
  destruct (rd_dec rd) as [dec|]; apply mbind_ok in H as (sp1 & s2 & H & [= _ <-]).
  - by apply execute_ends in H.
  - pose proof (emit_task_block_ends (rd_block_reasons rd) s1) as He. by rewrite H in He.
Qed.

(** The gather settled: as many tasks, each the work it was and ended. *)
Lemma settle_ends (l : list (res Exn (list Span) * Task)) (ts : list Task) s :
  Forall2 (λ x t, work x.2 = work t ∧ (is_ok x.1 = true → ended x.2)) l ts →
  ∃ r s', settle d l s = (Ok r, s') ∧ Forall2 (λ t' t, work t' = work t ∧ ended t') r.1 ts.
Proof.
  intros H. revert s. induction H as [|[[g|e] t'] t l ts [Hw He] Hl IH]; intros s; cbn [settle].
  - eexists _, _. by split.
  - destruct (IH s) as (r & s1 & Hr & Hf). unfold mbind. rewrite Hr. eexists _, _. split; [done|].
    constructor; [|done]. split; [done|by apply He].
  - rewrite mbind_emit. match goal with |- context [mbind (settle d l) _ ?x] => destruct (IH x) as (r & s1 & Hr & Hf) end.
    unfold mbind. rewrite Hr. eexists _, _. split; [done|]. constructor; [|done]. cbn.
    split; [by destruct t'|]. right. split; [left|done].
Qed.
End ends.

Lemma dispatch_ends d st s :
  ∃ u s' ts, dispatch d st s = (Ok u, s') ∧ up_tasks u = Some ts ∧
    Forall2 (λ t' t, work t' = work t ∧ ended t') ts (rs_tasks st).
Proof.
  unfold dispatch. rewrite mbind_modify. unfold mbind. set (k := knobs_for d st).
  match goal with |- context [settle d ?l ?x] =>
    destruct (settle_ends d l (rs_tasks st) x) as (r & s' & Hr & Hf) end.
  - apply Forall2_fmap_l, Forall2_same_length_lookup. split; [by rewrite length_imap|].
    intros i y t Hy Ht. rewrite list_lookup_imap, Ht in Hy. injection Hy as <-. cbn.
    unfold run_task. pose proof (dispatch_one_work d k (fresh_state (S i) t)) as Hw.
    destruct (dispatch_one d k (fresh_state (S i) t)) as [[sp|e] s1] eqn:E; cbn in *; [|done].
    apply dispatch_one_ends in E. by split.
  - rewrite Hr. eexists _, _, _. split; [done|]. by split.
Qed.

(** C10: Dispatch never fails and never loses a task: whatever the executors, the guard and the
    stores do (any of its tasks may raise), every task of the plan comes back in its place,
    the same work, with an execution record, and carries a result exactly when its
    execution completed. *)
Theorem dispatch_settles d st s :
  ∃ u s' ts, dispatch d st s = (Ok u, s') ∧ up_tasks u = Some ts ∧
    Forall2 (λ t' t, work t' = work t ∧ ended t') ts (rs_tasks st).
Proof. apply dispatch_ends. Qed.

(** ** The egress gate *)

Lemma gate_spec vs :
  match gate vs with
  | inl _ => ∃ v, v ∈ vs ∧ action v = BLOCK
  | inr b => (∀ v, v ∈ vs → action v ≠ BLOCK) ∧ (b = true ↔ ∃ v, v ∈ vs ∧ action v = DOWNGRADE_LOCAL)
  end.
Proof.
  induction vs as [|v vs IH]; cbn; [split; [by intros v ?%elem_of_nil|split; [done|by intros (v & ?%elem_of_nil & _)] ]|].
  case_bool_decide as Hv; [exists v; split; [left|done]|].
  destruct (gate vs) as [rs|b]; [destruct IH as (w & ? & ?); exists w; split; [by right|done]|].
  destruct IH as [Hn Hb]. split.
  - intros w [->|Hw]%elem_of_cons; [done|by apply Hn].
  - rewrite orb_true_iff, bool_decide_eq_true, Hb. split.
    + intros [?|(w & ? & ?)]; [exists v; split; [left|done]|exists w; split; [by right|done] ].
    + intros (w & [->|Hw]%elem_of_cons & Ha); [by left|right; eauto].
Qed.

(** A refusal: the answer is the refusal, and nothing was sent, not even to Toto. *)
Definition refused (o : res Exn (option DriverResult)) (s s' : DvState) : Prop :=
  silent s s' ∧ dv_http s' = dv_http s ∧
  ∃ r, o = Ok (Some r) ∧ res_kind r = "blocked" ∧ Forall (λ t, tk_result t = None) (res_tasks r).

Lemma blocked_result_refused query rs s :
  refused ((do! r := blocked_result query rs in mret (Some r)) s).1 s ((do! r := blocked_result query rs in mret (Some r)) s).2.
Proof.
  unfold refused, blocked_result, mbind, emit. cbn. destruct s. split; [split; cbn; apply grows_refl|].
  split; [done|]. eexists. split; [done|]. split; [done|]. by constructor.
Qed.

(** C8: The egress gate.  A run whose query or whose authored task the guard blocks is refused:
    no completion, no embedding, no call to Toto.  If the guard wants one of them
    in-perimeter, every completion of the whole run (triage, decomposition and its retry,
    each task, synthesis, the trivial answer, and all their fallbacks) is asked of an
    in-perimeter model, nothing goes to the embedder, the proposer, the label classifier,
    the corpus or the claude_code runner, and without an in-perimeter model the run is
    refused. *)
Theorem run_confined d query opt history kind user_id tasks s :
  NoDup (id <$> dr_catalog d) → (∀ e, e ∈ dr_catalog d → id e ≠ "") →
  let out := run d query opt history kind user_id tasks s in
  let wants a := ∃ v, v ∈ gate_verdicts d query tasks ∧ action v = a in
  (wants BLOCK → refused out.1 s out.2) ∧
  (wants DOWNGRADE_LOCAL → confined d s out.2 ∧
     (present (first_in_perimeter_model (dr_catalog d)) = false → refused out.1 s out.2)).
Proof.
  intros Hnd Hnamed out wants. subst out. unfold run.
  pose proof (gate_spec (gate_verdicts d query tasks)) as Hg.
  destruct (gate _) as [rs|pinned].
  - pose proof (blocked_result_refused query rs s) as Hr.
    split; [done|]. intros _. split; [apply silent_egress, Hr|done].
  - destruct Hg as [Hno Hpin]. split; [intros (v & Hv & Ha); by destruct (Hno v Hv)|].
    intros Hw. apply Hpin in Hw as ->. cbn [andb].
    destruct (present _) eqn:Hlane; cbn [negb].
    + split; [|done]. match goal with |- confined d s (?m s).2 => enough (keeps (confined d) m) as K by apply K end.
      apply keeps_bind; [apply _|by apply walk_confined|intros ?; apply keeps_ret; apply _].
    + pose proof (blocked_result_refused query [no_local_lane] s) as Hr.
      split; [apply silent_egress, Hr|done].
Qed.

(** ** Pinned results stay inside *)

(** The residency mark, once set, stays. *)
Definition marked (s s' : DvState) : Prop := tk_local (dv_task s) = true → tk_local (dv_task s') = true.

#[export] Instance marked_logs : Logs marked.
Proof.
  refine {| may_llm := always; may_text := always; may_proc := always |}; unfold marked; try abstract (by intros ? []).
  abstract (split; [by intros ?|]; intros s1 s2 s3 H1 H2 H; by apply H2, H1).
Defined.

Lemma execute_marked d rd dec : keeps marked (execute d rd dec).
Proof.
  unfold execute, emit_task_block, task_done, task_failed, change_task, plain_lift.
  repeat first [logs emit_sends | logs any_write_back | (logs text_sends; done) | logs toto_sends
               | logs set_status_sends | (logs any_call; done) | keeps_step]; unfold marked; by intros [].
Qed.

(** A pinned task that is not refused is marked, however it ends. *)
Lemma dispatch_one_marks d k s :
  present (first_in_perimeter_model (dr_catalog d)) = true → action (verdict_of d (dv_task s)) ≠ BLOCK →
  residency_pin d k (dv_task s) = Ok true → tk_local (dv_task (dispatch_one d k s).2) = true.
Proof.
  intros Hlane Hb Hp. unfold dispatch_one. unfold mbind at 1. unfold decide_one.
  rewrite mbind_reads, bool_decide_eq_false_2 by done. unfold plain_lift. rewrite Hp. cbn [lift_as].
  rewrite mbind_mret, Hlane. cbn [negb andb]. rewrite mbind_modify.
  assert (tk_local (dv_task (put_task (set_local true (dv_task s)) s)) = true) as H1 by (by destruct s).
  revert H1. generalize (put_task (set_local true (dv_task s)) s). intros s1 H1.
  match goal with |- context [(?m s1)] => assert (keeps marked m) as Hm end.
  { repeat first [logs any_route_stages; done | keeps_step]. }
  specialize (Hm s1). unfold marked in Hm. specialize (Hm H1). revert Hm.
  match goal with |- context [(?m s1)] => destruct (m s1) as [[rd|e] s2] end; cbn [snd]; [|done].
  intros Hm. rewrite mbind_reads. revert s2 Hm.
  match goal with |- ∀ s2, _ → tk_local (dv_task (_ s2).2) = true => idtac end.
  intros s2 Hm. destruct (rd_dec rd) as [dec|].
  - apply (keeps_bind marked _ _ (execute_marked d rd _)); [intros ?; apply keeps_ret; apply _|done].
  - apply (keeps_bind marked); [|intros ?; apply keeps_ret; apply _|done].
    unfold emit_task_block, change_task.
    repeat first [logs emit_sends | logs any_write_back | keeps_step]; unfold marked; by intros [].
Qed.

Lemma settle_local d l s r s' :
  settle d l s = (Ok r, s') → existsb tk_local r.1 = existsb tk_local l.*2.
Proof.
  revert s r s'. induction l as [|[[g|e] t] l IH]; intros s r s'; cbn [settle].
  - by intros [= <- <-].
  - intros (r1 & s1 & H%IH & [= <- <-])%mbind_ok. cbn. by rewrite H.
  - rewrite mbind_emit. intros (r1 & s1 & H%IH & [= <- <-])%mbind_ok. cbn. rewrite H. by destruct t.
Qed.

(** Once a task that had to stay in-perimeter has been dispatched, the results are woven by
    in-perimeter models only. *)
Theorem synthesis_confined d st t s u s' :
  NoDup (id <$> dr_catalog d) → (∀ e, e ∈ dr_catalog d → id e ≠ "") →
  present (first_in_perimeter_model (dr_catalog d)) = true →
  t ∈ rs_tasks st → action (verdict_of d t) ≠ BLOCK → residency_pin d (knobs_for d st) t = Ok true →
  dispatch d st s = (Ok u, s') → keeps (confined d) (synthesize d (merge st u)).
Proof.
  intros Hnd Hnamed Hlane Ht Hb Hp Hdis. apply synthesize_confined; [done..|].
  revert Hdis. unfold dispatch. rewrite mbind_modify.
  intros (r & s1 & Hs & [= <- <-])%mbind_ok. cbn. apply settle_local in Hs as ->.
  apply orb_true_iff. left. apply list_elem_of_lookup in Ht as (i & Hi).
  apply existsb_exists. eexists. rewrite <- list_elem_of_In, <- list_fmap_compose. split.
  - apply list_elem_of_fmap. eexists. split; [reflexivity|].
    apply elem_of_lookup_imap. exists i, t. by split.
  - cbn. by apply dispatch_one_marks.
Qed.

(** ** The walk ends, with a bounded plan *)

(** Four nodes are enough from the start, and no further fuel changes the run. *)
Definition path_length (n : Node) : nat :=
  match n with NTriage => 4 | NDecompose => 3 | NDispatch => 2 | NAnswerTrivial | NSynthesize => 1 end.

Lemma next_node_shorter n st m : next_node n st = Some m → path_length m < path_length n.
Proof. destruct n; cbn; [|done| |..]; [repeat case_match|..]; intros [= <-]; cbn; lia. Qed.

Lemma walk_ends d n st fuel s :
  path_length n ≤ fuel →
  walk d fuel n st s = walk d (path_length n) n st s ∧ ∀ s', walk d fuel n st s ≠ (Ok None, s').
Proof.
  revert n st s. induction fuel as [fuel IH] using lt_wf_ind. intros n st s Hle.
  destruct fuel as [|fuel]; [destruct n; cbn in Hle; lia|].
  assert (∃ p, path_length n = S p) as (p & Hp) by (destruct n; cbn; eauto). rewrite Hp.
  cbn [walk]. unfold mbind. destruct (run_node d n st s) as [[u|e] s1]; [|done].
  destruct (next_node n (merge st u)) as [m|] eqn:Em; [|done].
  apply next_node_shorter in Em.
  destruct (IH fuel ltac:(lia) m (merge st u) s1 ltac:(lia)) as [-> Hne].
  destruct (IH p ltac:(lia) m (merge st u) s1 ltac:(lia)) as [-> _]. split; [done|].
  destruct (IH (path_length m) ltac:(lia) m (merge st u) s1 ltac:(lia)) as [_ H]. exact H.
Qed.

Lemma assign_items_length ts ids : length (assign_items ts ids) = length ts.
Proof. revert ids. induction ts as [|t ts IH]; intros [|i ids]; cbn; [done..|]. by rewrite IH. Qed.

Lemma with_items_length ts ids : length (with_items ts ids) = length ts.
Proof. destruct ids as [[|i ids]|]; cbn; [apply length_fmap|apply assign_items_length|apply length_fmap]. Qed.

Lemma plan_tasks d q ts s0 f s u s' :
  plan d q ts s0 f s = (Ok u, s') → ∃ ts', up_tasks u = Some ts' ∧ length ts' = length ts.
Proof.
  unfold plan. intros ([[l ids] s1] & s2 & _ & H)%mbind_ok. rewrite mbind_emit in H. injection H as <- _.
  eexists. split; [done|]. apply with_items_length.
Qed.

Lemma decomposed_some d st s r s' : decomposed d st s = (Ok r, s') → r.1.1 ≠ [].
Proof.
  unfold decomposed. intros (x & s1 & _ & H)%mbind_ok. apply mbind_ok in H as (first & s2 & _ & H).
  destruct first as [|t ts]; [|by injection H as <- _].
  apply mbind_ok in H as (y & s3 & _ & H). apply mbind_ok in H as (again & s4 & _ & H).
  rewrite mbind_emit in H. destruct again as [|t ts]; [rewrite mbind_emit in H|]; by injection H as <- _.
Qed.

Lemma decompose_bounded d st s u s' :
  decompose d st s = (Ok u, s') → ∃ ts, up_tasks u = Some ts ∧ 1 ≤ length ts ≤ MAX_DECOMPOSE_TASKS.
Proof.
  unfold decompose. destruct (rs_tasks st) as [|t pre] eqn:E.
  - intros ([[ts x] s0] & s1 & Hd & H)%mbind_ok. apply decomposed_some in Hd. cbn in Hd.
    apply mbind_ok in H as (c & s2 & _ & H). apply plan_tasks in H as (ts' & -> & Hl).
    exists ts'. split; [done|]. rewrite Hl, length_take. destruct ts; [done|]. cbn [length]. unfold MAX_DECOMPOSE_TASKS. lia.
  - intros (c & s2 & _ & H)%mbind_ok. apply plan_tasks in H as (ts' & -> & Hl).
    exists ts'. split; [done|]. rewrite Hl, length_fmap, length_take. cbn [length]. unfold MAX_DECOMPOSE_TASKS. lia.
Qed.

(** The record of how a task ended. *)
Definition recorded (t : Task) : Prop :=
  outcome_of t ∈ [Some (JStr "completed"); Some (JStr "failed"); Some (JStr "blocked_constraints")].

Lemma ended_recorded t : ended t → recorded t.
Proof. unfold recorded. intros [[-> _]|[H _]]; [left|by right]. Qed.

Lemma settle_ok_ends d st s u s' :
  dispatch d st s = (Ok u, s') → ∃ ts, up_tasks u = Some ts ∧ length ts = length (rs_tasks st) ∧ Forall recorded ts.
Proof.
  destruct (dispatch_ends d st s) as (u' & s1 & ts & -> & Hu & Hf). intros [= <- <-].
  exists ts. split; [done|]. split; [by eapply Forall2_length|].
  clear Hu. induction Hf as [|t' t ts l [_ H] _ IH]; constructor; [by apply ended_recorded|done].
Qed.

(** What a finished walk leaves. *)
Definition well_ended (st : RunState) : Prop :=
  1 ≤ length (rs_tasks st) ≤ MAX_DECOMPOSE_TASKS ∧ Forall recorded (rs_tasks st).

Lemma synthesize_tasks d st s u s' : synthesize d st s = (Ok u, s') → up_tasks u = None.
Proof.
  unfold synthesize. destruct (List.filter has_result (rs_tasks st)) as [|t [|t' l]];
    [rewrite mbind_emit; by intros [= <- _]..|].
  intros (x & s1 & _ & H)%mbind_ok. rewrite mbind_emit in H. by injection H as <- _.
Qed.

Lemma triage_tasks d st s u s' : triage d st s = (Ok u, s') → up_tasks u = None.
Proof.
  unfold triage. destruct (nonempty (rs_kind st)); [rewrite mbind_emit; by intros [= <- _]|].
  intros (x & s1 & _ & H)%mbind_ok. rewrite mbind_emit in H. by injection H as <- _.
Qed.

Lemma answer_trivial_tasks d st s u s' :
  answer_trivial d st s = (Ok u, s') → ∃ t, up_tasks u = Some [t] ∧ recorded t ∧ tk_result t = None.
Proof.
  unfold answer_trivial. intros ([[l ids] s0] & s1 & _ & H)%mbind_ok.
  apply mbind_ok in H as (a & s2 & _ & H). apply mbind_ok in H as (x & s3 & _ & H). rewrite mbind_emit, mbind_reads in H.
  apply mbind_ok in H as (b & s4 & _ & H). apply mbind_ok in H as (c & s5 & _ & H). injection H as <- _.
  eexists. split; [done|]. split; [left|done].
Qed.

Lemma walk_synthesize d st s o s' :
  well_ended st → walk d 1 NSynthesize st s = (Ok o, s') → ∃ st', o = Some st' ∧ well_ended st'.
Proof.
  intros Hw (u & s1 & H%synthesize_tasks & [= <- <-])%mbind_ok. eexists. split; [done|].
  unfold well_ended. cbn. by rewrite H.
Qed.

Lemma walk_dispatch d st s o s' :
  1 ≤ length (rs_tasks st) ≤ MAX_DECOMPOSE_TASKS →
  walk d 2 NDispatch st s = (Ok o, s') → ∃ st', o = Some st' ∧ well_ended st'.
Proof.
  intros Hw (u & s1 & (ts & Hu & Hl & Hf)%settle_ok_ends & H)%mbind_ok. apply walk_synthesize in H; [done|].
  unfold well_ended. cbn. rewrite Hu. by rewrite Hl.
Qed.

Lemma walk_decompose d st s o s' : walk d 3 NDecompose st s = (Ok o, s') → ∃ st', o = Some st' ∧ well_ended st'.
Proof.
  intros (u & s1 & (ts & Hu & Hl)%decompose_bounded & H)%mbind_ok. apply walk_dispatch in H; [done|].
  cbn. by rewrite Hu.
Qed.

Lemma walk_result d st s o s' : walk d GRAPH_FUEL NTriage st s = (Ok o, s') → ∃ st', o = Some st' ∧ well_ended st'.
Proof.
  intros (u & s1 & _ & H)%mbind_ok. cbn [next_node] in H.
  assert (∀ n, n = NAnswerTrivial ∨ n = NDecompose → walk d 3 n (merge st u) s1 = (Ok o, s') →
    ∃ st', o = Some st' ∧ well_ended st') as Hboth.
  { intros n [->| ->]; [|apply walk_decompose].
    intros (v & s2 & (t & Ht & Hr & _)%answer_trivial_tasks & [= <- <-])%mbind_ok. eexists. split; [done|].
    unfold well_ended. cbn. rewrite Ht. cbn. unfold MAX_DECOMPOSE_TASKS. split; [lia|]. by constructor. }
  eapply Hboth; [|exact H]. destruct (rs_kind (merge st u)); [case_bool_decide|]; auto.
Qed.

(** C34: A run ends and accounts for itself.  The graph reaches its end within four nodes, more
    fuel changes nothing; and a run that returns, returns a result with one to four tasks
    (the clamp of the plan), each with a record of how it ended, whatever the models
    printed when asked to plan. *)
Theorem run_complete d query opt history kind user_id tasks s :
  (∀ fuel st, GRAPH_FUEL ≤ fuel → walk d fuel NTriage st s = walk d GRAPH_FUEL NTriage st s) ∧
  match run d query opt history kind user_id tasks s with
  | (Ok o, _) => ∃ r, o = Some r ∧ 1 ≤ length (res_tasks r) ≤ MAX_DECOMPOSE_TASKS ∧ Forall recorded (res_tasks r)
  | (Err _, _) => True
  end.
Proof.
  split; [intros fuel st Hle; by apply (walk_ends d NTriage st fuel s)|].
  destruct (run d query opt history kind user_id tasks s) as [[o|e] s'] eqn:E; [|done].
  assert (∀ rs, (do! r := blocked_result query rs in mret (Some r) : D _) s = (Ok o, s') →
    ∃ r, o = Some r ∧ 1 ≤ length (res_tasks r) ≤ MAX_DECOMPOSE_TASKS ∧ Forall recorded (res_tasks r)) as Hblk.
  { intros rs. unfold blocked_result, mbind, emit. cbn. intros [= <- _]. eexists. split; [done|]. cbn.
    unfold MAX_DECOMPOSE_TASKS. split; [lia|]. constructor; [right; right; left|done]. }
  revert E. unfold run. destruct (gate _) as [rs|pinned]; [apply Hblk|].
  destruct (pinned && _); [apply Hblk|].
  intros (o' & s1 & (st' & -> & Hw)%walk_result & [= <- <-])%mbind_ok. eexists. split; [done|]. exact Hw.
Qed.

(** ** What the nodes do *)

(** At most one sub-task with something to say: its result is the answer, word for word,
    and no model is asked; the trivial answer never becomes a task result. *)
Lemma synthesize_single d st s u s' :
  length (List.filter has_result (rs_tasks st)) ≤ 1 → synthesize d st s = (Ok u, s') →
  dv_llm s' = dv_llm s ∧
  up_answer u = Some (match List.filter has_result (rs_tasks st) with t :: _ => result_of t | [] => "" end).
Proof.
  unfold synthesize. destruct (List.filter has_result (rs_tasks st)) as [|t [|t' l]]; cbn [length]; [..|lia];
    intros _; rewrite mbind_emit; intros [= <- <-]; by destruct s.
Qed.

(** The team's binding of a label: its own table first, then the custom labels, the first
    one of a name winning. *)
Lemma custom_bindings_get b cs n :
  dget (foldl custom_binding b cs) n =
  match dget b n with
  | Some m => Some m
  | None => head (omap (λ c, match nonempty (cl_name c), nonempty (cl_model c) with
                             | Some n', Some m => if decide (n' = n) then Some m else None
                             | _, _ => None end) cs)
  end.
Proof.
  revert b. induction cs as [|c cs IH]; intros b; cbn; [by destruct (dget b n)|].
  rewrite IH. unfold custom_binding. destruct (nonempty (cl_name c)) as [n'|]; [|done].
  destruct (nonempty (cl_model c)) as [m|]; [|done]. unfold dsetdefault, dmem.
  case_decide as Hn; [subst n'|]; destruct (dget b _) as [x|] eqn:Ex.
  - by rewrite Ex.
  - by rewrite dget_dset_eq.
  - done.
  - by rewrite dget_dset_ne.
Qed.

(** ** Witnesses *)

(** A query the guard keeps in-perimeter: the whole run is the in-perimeter model's. *)
Lemma run_confined_witness :
  let out := run demo_driver "what is this ssn" None [] None None [] (demo_state "") in
  confined demo_driver (demo_state "") out.2 ∧
  sent_models (dv_llm out.2) = ["local"; "local"; "local"; "local"] ∧
  refused (run demo_driver "send the mnpi" None [] None None [] (demo_state "")).1 (demo_state "")
          (run demo_driver "send the mnpi" None [] None None [] (demo_state "")).2.
Proof.
  intros out. split; [|split; [vm_compute; reflexivity|] ].
  - apply (run_confined demo_driver "what is this ssn" None [] None None [] (demo_state "")
             demo_ids_distinct demo_ids_named).
    eexists. split; [left; reflexivity|reflexivity].
  - apply (proj1 (run_confined demo_driver "send the mnpi" None [] None None [] (demo_state "")
             demo_ids_distinct demo_ids_named)).
    eexists. split; [left; reflexivity|reflexivity].
Defined.

Definition demo_run (tasks : list Task) : RunState := initial "q" None [] None None tasks false.

(** One task names an ssn: the results are woven inside. *)
Lemma synthesis_confined_witness :
  ∃ u s', dispatch demo_driver (demo_run [demo_task "a"; demo_task "the ssn"]) (demo_state "") = (Ok u, s') ∧
    keeps (confined demo_driver) (synthesize demo_driver (merge (demo_run [demo_task "a"; demo_task "the ssn"]) u)).
Proof.
  destruct (dispatch_ends demo_driver (demo_run [demo_task "a"; demo_task "the ssn"]) (demo_state ""))
    as (u & s' & ts & E & _).
  exists u, s'. split; [exact E|].
  apply (synthesis_confined demo_driver (demo_run [demo_task "a"; demo_task "the ssn"]) (demo_task "the ssn")
           (demo_state "") u s' demo_ids_distinct demo_ids_named); [reflexivity| |discriminate|reflexivity|exact E].
  right. left.
Defined.

Lemma run_complete_witness :
  ∃ r s', run demo_driver "the ssn" None [] None None [] (demo_state "") = (Ok (Some r), s') ∧
    1 ≤ length (res_tasks r) ≤ MAX_DECOMPOSE_TASKS ∧ Forall recorded (res_tasks r).
Proof.
  pose proof (run_complete demo_driver "the ssn" None [] None None [] (demo_state "")) as [_ H].
  destruct (run demo_driver "the ssn" None [] None None [] (demo_state "")) as [[o|e] s'] eqn:E;
    [|exfalso; vm_compute in E; discriminate].
  destruct H as (r & -> & Hr). exists r, s'. split; [reflexivity|exact Hr].
Defined.
