(* ===== verification/Gateway.v ===== *)
(** * The gateway: state, planning and accounting ([gateway.py])

    Everything [Gateway.complete] and [Gateway.stream] do before and around the dispatch:
    the conversation key, smart resolution, the data policy, the decision pipeline, the
    budget, the trace rows.  A method that reads or changes the gateway is a function of
    [GwState] in the monad [M]; a raised exception is an [Err] that keeps the state it was
    raised in, so the rows written before it stay written. *)

From S2P Require Import Prelude PyStr PyDict Schemas Catalog Identity Policy Guards Extractor Breaker Resilience Pricing.
From S2P Require Import ExactCache Benchmarks Labels Classify Prompts Smart Candidates Budgets Trajectory Trace Effects.

(** ** Interfaces *)

(** The [ResponseCache] protocol. *)
Class ResponseCache (C : Type) := {
  rc_get : C → ChatCompletionRequest → res string (option ChatCompletionResponse * C);
  rc_put : C → ChatCompletionRequest → ChatCompletionResponse → res string C;
}.

(** [NoCache] *)
#[export] Instance no_cache : ResponseCache unit :=
  {| rc_get c req := Ok (no_cache_get req, c); rc_put c req r := Ok (no_cache_put req r) |}.

(** [ExactCache] *)
Definition exact_cache (sha256 : string → string) (float_repr : Q → string)
    (dump_json : ChatCompletionResponse → string)
    (validate_json : string → res string ChatCompletionResponse) : ResponseCache ExactCache :=
  {| rc_get := ExactCache.get sha256 float_repr validate_json;
     rc_put := ExactCache.put sha256 float_repr dump_json |}.

(** The [SignalExtractor], [Guard] and [Router] protocols. *)
Record Pipeline := {
  p_extract : ChatCompletionRequest → res string Signal;
  p_check : ChatCompletionRequest → Signal → GuardVerdict;
  p_decide : ChatCompletionRequest → Signal → GuardVerdict → Catalog → option Policy →
             res string RouterDecision;
}.

(** [NoExtractor], [AllowGuard] and [CatalogRouter]: the plain proxy. *)
Definition passthrough_pipeline : Pipeline :=
  {| p_extract := no_extract; p_check := allow_guard;
     p_decide req _ _ _ _ := Ok (catalog_router req) |}.

(** [HeuristicExtractor], [RuleGuard] and [GuardRouter]. *)
Definition guarded_pipeline : Pipeline :=
  {| p_extract := extract; p_check req _ := check (messages req);
     p_decide req s v c p := guard_decide base_policy (model req) s v c p |}.

(** ** Streamed chunks *)

Record ChunkChoice := { delta_content : option string; delta_tool_calls : option (list json) }.

Record Chunk := { chunk_choices : list ChunkChoice; chunk_usage : option Usage }.

(** ** Configuration and surroundings *)

(** The constructor's arguments, the settings and process environment the methods read,
    and the outside world they call. *)
Record Gateway := {
  base_catalog : Catalog;
  candidate_catalog : CandidateCatalog;
  pipeline : Pipeline;
  retries : nat;
  passthrough_fallback : bool;
  log_content : bool;
  label_table : option LabelBindings;
  bench_table : option Benchmarks;
  default_classifier : string;
  stick_policy_of : option Stick;
  warmth_on : bool;
  default_prefs : CachePrefs;
  env_set : string → bool;
  sql_sink : bool;
  tracing_on : bool;
  (** What reading the caller's stored overlays raises, when it does. *)
  policy_fault : Identity → option string;
  (** The provider: the answer to the [n]-th call, the chunks of the [n]-th stream (then
      its exception, if any), and what an exception prints. *)
  chat : nat → ChatCompletionRequest → CatalogEntry → res Exn ChatCompletionResponse;
  open_stream : nat → ChatCompletionRequest → CatalogEntry → list Chunk * option Exn;
  exn_str : Exn → string;
  runner_id : CatalogEntry → string;
  has_openai : bool;
  (** The [n]-th clock reading, and the readings of the [n]-th smart route. *)
  time_at : nat → Q;
  clock_at : nat → Clock;
  sha256_hex : string → string;
  sha1_hex : string → string;
  json_loads : string → option json;
  memo_text : Cached → string;
  memo_read : string → option Cached;
  label_template : string;
  math_exp : Q → Q;
  (** The budget store. *)
  budget_row : string → res unit (option BudgetRow);
  budget_spend : option (BScope → string → string → res unit Q);
  budget_alert_ok : Q → bool;
  budget_audit_ok : Q → bool;
  budget_period : string;
}.

(** One call of [complete] or [stream], with the request-scoped context variables. *)
Record Call := {
  request_id : string;
  harness : option string;
  task_id : option string;
  resilient : bool;
  allow_fallback : option bool;
  who : Identity;
  declared_session : option string;
  byok_envs : list string;
  escalated_from : option string;
}.

(** ** Errors *)

Inductive GwError : Type :=
  | EBlocked (reasons : list string)
  | ENotPermitted (model_id : string) (allowlist : bool)
  | EIneligible (entry : CatalogEntry) (objections : list string)
  | EUnknownModel (u : UnknownModel)
  | EDataDenied (data_label : option string)
  | EDegraded (why : string)
  | EBudget (d : BudgetDecision)
  | ECircuitOpen (key : string)
  | EUpstream (e : Exn)
  | EStall
  | EDisconnected
  | ERaised (what : string).

(** [type(exc).__name__], [str(exc)] and the rest of what the resilience policy reads. *)
Definition exn_of (e : GwError) : Exn :=
  match e with
  | EUpstream x => x
  | ECircuitOpen _ => {| exn_type := "CircuitOpen"; exn_mro := ["CircuitOpen"; "Exception"];
                         status_code := None; retry_after_header := None |}
  | _ => {| exn_type := "TypeError"; exn_mro := ["TypeError"; "Exception"];
            status_code := None; retry_after_header := None |}
  end.

(** ** State *)

Inductive Purpose : Type := Classifying | Completing | Streaming.

#[export] Instance Purpose_eq_dec : EqDecision Purpose.
Proof. solve_decision. Defined.

(** One request put on the wire. *)
Record WireCall := { wc_purpose : Purpose; wc_entry : CatalogEntry }.

(** A payload handed to a durable store: the content table, or the telemetry mirror. *)
Record Payload := { pl_mirror : bool; pl_request_id : string; pl_answer : string }.

Section state.
Context {R C : Type}.

Record GwState := {
  gw_smart : SmartState;
  gw_redis : option R;
  gw_breaker : CircuitBreaker;
  gw_cache : C;
  gw_enforcer : option Enforcer;
  gw_traces : list TraceRecord;
  gw_wire : list WireCall;
  gw_payloads : list Payload;
  gw_spans : list (string * string);
  gw_chunks : list Chunk;
  gw_ticks : nat;
}.

Definition put_smart (x : SmartState) '(Build_GwState a b c d e f g h i j k) : GwState :=
  Build_GwState x b c d e f g h i j k.
Definition put_redis (x : option R) '(Build_GwState a b c d e f g h i j k) : GwState :=
  Build_GwState a x c d e f g h i j k.
Definition put_breaker (x : CircuitBreaker) '(Build_GwState a b c d e f g h i j k) : GwState :=
  Build_GwState a b x d e f g h i j k.
Definition put_cache (x : C) '(Build_GwState a b c d e f g h i j k) : GwState :=
  Build_GwState a b c x e f g h i j k.
Definition put_enforcer (x : option Enforcer) '(Build_GwState a b c d e f g h i j k) : GwState :=
  Build_GwState a b c d x f g h i j k.
Definition add_trace (x : TraceRecord) '(Build_GwState a b c d e f g h i j k) : GwState :=
  Build_GwState a b c d e (f ++ [x]) g h i j k.
Definition add_wire (x : WireCall) '(Build_GwState a b c d e f g h i j k) : GwState :=
  Build_GwState a b c d e f (g ++ [x]) h i j k.
Definition add_payload (x : Payload) '(Build_GwState a b c d e f g h i j k) : GwState :=
  Build_GwState a b c d e f g (h ++ [x]) i j k.
Definition add_span (x : string * string) '(Build_GwState a b c d e f g h i j k) : GwState :=
  Build_GwState a b c d e f g h (i ++ [x]) j k.
Definition add_chunks (x : list Chunk) '(Build_GwState a b c d e f g h i j k) : GwState :=
  Build_GwState a b c d e f g h i (j ++ x) k.
Definition tick '(Build_GwState a b c d e f g h i j k) : GwState :=
  Build_GwState a b c d e f g h i j (S k).
End state.
Arguments GwState : clear implicits.

(** ** The monad *)

Abbreviation M := (Eff GwError).
Abbreviation lift := (lift_as ERaised).

(** ** Small helpers *)

Section helpers.
Context (g : Gateway).

Definition hex16 (s : string) : string := str_take 16 (sha256_hex g s).

Definition first_text (r : string) (ms : list Message) : res string (option string) :=
  match first_such (λ m, role m ≡? r) ms with
  | Some m => try! t := text m in Ok (Some t)
  | None => Ok None
  end.

(** [_conversation_key] *)
Definition conversation_key_of (ms : list Message) : res string (option string) :=
  try! system := first_text "system" ms in
  try! first_user := first_text "user" ms in
  Ok ((λ u, hex16 (match system with Some s => s | None => "" end +:+ String "000" u)) <$> first_user).

(** [_declared_key] *)
Definition declared_key (v : option string) : option string :=
  (λ s, "declared:" +:+ hex16 s) <$> nonempty v.

Definition effective (w : Identity) : res string (option Policy) :=
  match policy_fault g w with Some e => Err e | None => Ok (effective_policy w None) end.

Definition catalog_of (w : Identity) : Catalog := catalog_for (base_catalog g) w.

Definition smart_enabled : bool :=
  match label_table g with
  | Some _ => match catalog_get (base_catalog g) (default_classifier g) with Some _ => true | None => false end
  | None => false
  end.

Definition overrides_of (pol : option Policy) : CacheOverrides :=
  match pol with Some p => cache p | None => no_overrides end.

Definition or_default {A} (o : option A) (d : A) : A := match o with Some x => x | None => d end.

(** [_cache_prefs] *)
Definition cache_prefs_of (w : Identity) : res string CachePrefs :=
  try! pol := effective w in
  let ov := overrides_of pol in
  Ok {| auto_inject := or_default (ov_auto_inject ov) (auto_inject (default_prefs g));
        auto_inject_min_messages :=
          or_default (ov_min_messages ov) (auto_inject_min_messages (default_prefs g)) |}.

(** [_fail_policy] *)
Definition fail_policy_of (w : Identity) : FailPolicy :=
  match effective w with
  | Ok (Some p) => fail_policy p
  | Ok None | Err _ => FPScalar "open"
  end.

(** [_smart_degraded] *)
Definition smart_degraded (smart : option SmartResult) : option string :=
  match smart with
  | None => None
  | Some r =>
      if route_reason r ≡? "smart:policy_error" then Some "policy_error"
      else if (route_reason r ≡? "smart:classify_failed") && smart_enabled then Some "classify_failed"
      else None
  end.

(** [_baseline] *)
Definition baseline (u : Usage) : option Q :=
  (λ e, compute_cost_usd e u) <$> frontier_reference (base_catalog g).

(** [_classify_text], the [n]-th call on the wire: [None] is any exception, which
    [smart_route] catches. *)
Definition classify_request (msgs : list PromptMsg) (mid : string) : ChatCompletionRequest :=
  {| model := mid; messages := (λ m, say (pm_role m) (pm_content m)) <$> msgs; stream := false;
     stream_options := None; temperature := Some 0%Q; top_p := None; max_tokens := Some 200%Z;
     stop := None; n_choices := None; user := None; conversation_key := None;
     cache_prefs := None; model_extra := [] |}.

Definition classify_text (w : Identity) (n : nat) (msgs : list PromptMsg) (mid : string)
    : option string :=
  match require (catalog_of w) mid with
  | Err _ => None
  | Ok e => match chat g n (classify_request msgs mid) e with
            | Ok r => Some (first_content r)
            | Err _ => None
            end
  end.

(** [_price] in [_cheapest_permitted], which is [None] on an empty selection. *)
Definition price_sum (e : CatalogEntry) : Q :=
  (prompt (price_usd_per_1k e) + completion (price_usd_per_1k e))%Q.

Definition permitted (pol : option Policy) (e : CatalogEntry) : bool :=
  match pol with Some p => permits p e | None => true end.

Definition cheapest_permitted (w : Identity) : res string (option CatalogEntry) :=
  try! pol := effective w in
  Ok (min_by price_sum (List.filter (permitted pol) (catalog_of w))).

(** The runner classes of [default_factory]. *)
Inductive RunnerKind : Type := FakeRunner | OpenAIRunner | FrontierRunner | MLXRunner.

Definition for_entry (e : CatalogEntry) : res string RunnerKind :=
  if lane e ≡? fake then Ok FakeRunner
  else if endpoint e ≡? "openai" then Ok OpenAIRunner
  else if endpoint e ≡? "anthropic" then Ok FrontierRunner
  else match lane e with
       | economy => Ok MLXRunner
       | frontier => Ok FrontierRunner
       | fake | provider_lane =>
           Err ("no runner for lane '" +:+ lane_str (lane e) +:+ "' (model " +:+ id e +:+ ")")
       end.

(** [_begin_trace] *)
Definition begin_trace (k : Call) (strm : bool) (key : option string) (e : CatalogEntry)
    : res string TraceRecord :=
  try! _ := for_entry e in
  Ok (begin_record
        {| o_request_id := request_id k; o_conversation_key := key; o_lane := lane e;
           o_runner_id := runner_id g e; o_model := id e; o_residency := residency_class e;
           o_stream := strm; o_harness := harness k; o_task_id := task_id k;
           o_org := org_id (who k); o_team := team_id (who k); o_user := user_id (who k);
           o_identity_id := identity_id e; o_offer_id := offer_id e; o_provider := provider e;
           o_upstream_model := if lane e ≡? provider_lane
                               then Some (effective_upstream_model e) else None;
           o_credential_scope := credential_scope_label e;
           o_escalated_from := escalated_from k |}).

Definition known_or_none (s : string) : option string := if s ≡? "unknown" then None else Some s.

(** [_stamp_decision] *)
Definition stamp_decision (t : TraceRecord) (s : Signal) (d : RouterDecision) (a : Action)
    (label : option string) (req : ChatCompletionRequest) : TraceRecord :=
  let t := set_reason (Some (reason d)) t in
  let t := set_guard (action_str a) t in
  let t := set_data_label label t in
  let t := set_signal (known_or_none (intent s)) (known_or_none (complexity s)) t in
  match extract_trajectory (messages req) with
  | Some sig => set_trajectory (score_trajectory (math_exp g) sig) t
  | None => t
  end.
End helpers.

(** ** Planning and stamping *)

Record Plan := {
  pn_entry : CatalogEntry;
  pn_signal : Signal;
  pn_decision : RouterDecision;
  pn_action : Action;
  pn_req : ChatCompletionRequest;
}.

Section methods.
Context {R X C : Type} `{!RedisClient R X} `{!ResponseCache C} (g : Gateway).
Implicit Types (req : ChatCompletionRequest) (k : Call) (t : TraceRecord).

Notation M := (M (GwState R C)).

Definition now : M Q := do! n := reads gw_ticks in modify tick ;; mret (time_at g n).

Definition effective_m (w : Identity) : M (option Policy) := lift (effective g w).

(** [Gateway.resolve] *)
Definition resolve (mid : string) (w : Identity) : M CatalogEntry :=
  let c := catalog_of g w in
  match resolve_candidate (candidate_catalog g) c w mid with
  | Some e => mret e
  | None =>
      do! t := now in
      throw (EUnknownModel
        {| unknown_id := mid;
           known_ids := join ", " ((id <$> c) ++
                                   (id <$> platform_entries (candidate_catalog g) c t)) |})
  end.

(** A call of [smart_route]: its classifier call, when it made one, is on the wire. *)
Definition run_smart (a : SmartArgs) (w : Identity) : M SmartResult := λ s,
  let '(r, st, redis) :=
    smart_route (sha1_hex g) (json_loads g) (memo_text g) (memo_read g) (label_template g)
      (classify_text g w (length (gw_wire s))) (gw_smart s) (gw_redis s) a (clock_at g (gw_ticks s)) in
  let s := tick (put_redis redis (put_smart st s)) in
  match classify_ms r, catalog_get (sa_catalog a) (sa_classifier a) with
  | Some _, Some e => (Ok r, add_wire {| wc_purpose := Classifying; wc_entry := e |} s)
  | _, _ => (Ok r, s)
  end.

Definition classifier_for (pol : option Policy) : string :=
  match nonempty (match pol with Some p => classifier_model p | None => None end) with
  | Some m => m
  | None => default_classifier g
  end.

(** [taxonomy or None]: an org without one has the empty mapping. *)
Definition taxonomy_of (pol : option Policy) : option Taxonomy :=
  match pol with
  | Some p => match tax_labels (taxonomy p), tax_default (taxonomy p) with
              | [], None => None
              | _, _ => Some (taxonomy p)
              end
  | None => None
  end.

(** [_resolve_smart] *)
Definition resolve_smart (req : ChatCompletionRequest) (w : Identity)
    : M (ChatCompletionRequest * option SmartResult) :=
  if negb (is_smart (Some (model req))) then mret (req, None)
  else
    do! text := lift (last_user_text (messages req)) in
    let c := catalog_of g w in
    let rt := has_tools_field req in
    let floor pol why := {| sm_model_id := fallback_model c (bench_table g) pol rt None;
                            route_reason := why; sm_label := None; classify_ms := None;
                            label_metadata := None; data_label := None |} in
    do! r := match effective g w with
             | Err _ => mret (floor None "smart:policy_error")
             | Ok pol =>
                 match label_table g with
                 | None => mret (floor pol "smart:labels_off")
                 | Some labels =>
                     run_smart
                       {| sa_text := text; sa_catalog := c; sa_labels := labels;
                          sa_benchmarks := bench_table g; sa_classifier := classifier_for pol;
                          sa_policy := pol; sa_require_tools := rt;
                          sa_key := conversation_key req; sa_stick := stick_policy_of g;
                          sa_warmth_routing := or_default (ov_warmth_routing (overrides_of pol)) (warmth_on g);
                          sa_taxonomy := taxonomy_of pol |} w
                 end
             end in
    mret (with_model req (sm_model_id r), Some r).

(** [_resolve_data_policy] *)
Definition resolve_data_policy (req : ChatCompletionRequest) (w : Identity)
    (smart : option SmartResult) : M (option string * option Constraint) :=
  match effective g w with
  | Err _ | Ok None => mret (None, None)
  | Ok (Some p) =>
      match tax_labels (taxonomy p) with
      | [] => mret (None, None)
      | _ :: _ =>
          do! label :=
            match smart, label_table g, smart_enabled g with
            | Some r, _, _ => mret (data_label r)
            | None, Some labels, true =>
                do! text := lift (last_user_text (messages req)) in
                do! r := run_smart
                  {| sa_text := text; sa_catalog := catalog_of g w; sa_labels := labels;
                     sa_benchmarks := bench_table g; sa_classifier := classifier_for (Some p);
                     sa_policy := Some p; sa_require_tools := false;
                     sa_key := conversation_key req; sa_stick := None;
                     sa_warmth_routing := false; sa_taxonomy := taxonomy_of (Some p) |} w in
                mret (data_label r)
            | None, _, _ => mret None
            end in
          mret (label, taxonomy_constraint p label)
      end
  end.

(** [req.max_tokens or getattr(req, "max_completion_tokens", None) or 0]; a value that is
    not a number raises where it is added to the token estimate. *)
Definition max_output (req : ChatCompletionRequest) : res string Z :=
  let extra := match dget (model_extra req) "max_completion_tokens" with
               | None => Ok 0%Z
               | Some v => if negb (truthy v) then Ok 0%Z
                           else match v with
                                | JInt z => Ok z
                                | JFloat q _ => Ok (Qceiling q)
                                | JBool _ => Ok 1%Z
                                | _ => Err "unsupported operand type"
                                end
               end in
  match max_tokens req with
  | Some z => if (z =? 0)%Z then extra else Ok z
  | None => extra
  end.

Definition eligibility_of (e : CatalogEntry) (k : Call) (s : Signal) (req : ChatCompletionRequest)
    (out : Z) (t : Q) : EligibilityContext :=
  {| ctx_tokens := token_estimate s; ctx_max_output := out; ctx_has_tools := has_tools s;
     ctx_modalities := request_modalities req; ctx_parameters := requested_parameters req;
     ctx_user_envs := byok_envs k;
     ctx_platform_envs := if env_set g (api_key_env e) then [api_key_env e] else [];
     ctx_now := t |}.

(** The checks of [_plan] on the resolved entry. *)
Definition admit_entry (e : CatalogEntry) (k : Call) (pol : option Policy) (s : Signal)
    (req : ChatCompletionRequest) : M unit :=
  if match pol with
     | Some p => match p_org_allowlist p with Some l => negb (id e ∈? l) | None => false end
     | None => false
     end then throw (ENotPermitted (id e) true)
  else if lane e ≡? provider_lane then
    do! out := lift (max_output req) in
    do! t := now in
    match evaluate e (eligibility_of e k s req out t) pol with
    | [] => mret tt
    | (_ :: _) as objections => throw (EIneligible e objections)
    end
  else if negb (permitted pol e) then throw (ENotPermitted (id e) false)
  else mret tt.

(** [_plan] *)
Definition plan (req : ChatCompletionRequest) (k : Call) (label : option string)
    (constraint : option Constraint) : M Plan :=
  do! pol := effective_m (who k) in
  let c := catalog_of g (who k) in
  let req := match nonempty (match pol with Some p => default_model p | None => None end) with
             | Some d => if strip (model req) ≡? "" then with_model req d else req
             | None => req
             end in
  do! s := lift (p_extract (pipeline g) req) in
  let v := p_check (pipeline g) req s in
  if action v ≡? BLOCK then throw (EBlocked (reasons v))
  else
    let v := if (constraint ≡? Some LocalOnly) && (action v ≡? ALLOW)
             then {| action := DOWNGRADE_LOCAL;
                     reasons := ["data_policy:local_only:" +:+
                                 match label with Some l => l | None => "None" end] |}
             else v in
    do! d := lift (p_decide (pipeline g) req s v c pol) in
    do! e := resolve (model_id d) (who k) in
    admit_entry e k pol s req ;;
    mret {| pn_entry := e; pn_signal := s; pn_decision := d; pn_action := action v; pn_req := req |}.

(** ** Accounting, and the rows of a refused request *)

(** [_account] *)
Definition account (t : TraceRecord) (e : CatalogEntry) (u : Usage) (estimated : bool) : M TraceRecord :=
  do! tm := now in
  modify (λ s, put_smart {| memo := memo (gw_smart s);
                            warmth := record_warmth (warmth (gw_smart s))
                                        (o_conversation_key (t_origin t)) (tokens_cached u)
                                        (Some (id e)) tm |} s) ;;
  mret (set_ledger {| l_prompt := prompt_tokens u; l_completion := completion_tokens u;
                      l_cached := tokens_cached u; l_cache_write := tokens_cache_write u;
                      l_cost := compute_cost_usd e u; l_estimated := estimated;
                      l_baseline := baseline g u |} t).

(** [_finalize]: the finished record is written to the sinks. *)
Definition finalize (t : TraceRecord) : M TraceRecord :=
  modify (add_trace (finish t)) ;; mret (finish t).

(** The rows of a request refused before dispatch: [stamp] is what the method assigns. *)
Definition refused_trace (k : Call) (strm : bool) (e : CatalogEntry)
    (stamp : TraceRecord → TraceRecord) : M unit :=
  do! t := lift (begin_trace g k strm None e) in
  finalize (stamp t) ;; mret tt.

(** [_blocked_trace] *)
Definition blocked_trace (req : ChatCompletionRequest) (k : Call) (strm : bool) (rs : list string) : M unit :=
  do! e := resolve (model req) (who k) in
  refused_trace k strm e (λ t, set_guard "block" (set_status "blocked" (Some ("blocked: " +:+ join "; " rs)) t)).

(** [str(exc)] of a [ModelNotPermittedError] *)
Definition not_permitted_text (mid : string) (allowlist : bool) : string :=
  "model " +:+ repr mid +:+ " is not permitted for " +:+
  (if allowlist then "your organization's allowlist" else "this team").

(** [_denied_trace] *)
Definition denied_trace (mid : string) (k : Call) (strm allowlist : bool) : M unit :=
  do! e := resolve mid (who k) in
  refused_trace k strm e
    (λ t, set_guard "deny" (set_reason (Some "policy:model_not_permitted")
            (set_status "denied" (Some (not_permitted_text mid allowlist)) t))).

(** [_ineligible_trace]; the exception prints the entry and its objections. *)
Definition ineligible_trace (e : CatalogEntry) (rs : list string) (k : Call) (strm : bool) : M unit :=
  refused_trace k strm e
    (λ t, set_guard "deny"
            (set_reason (Some ("candidate:" +:+ match rs with r :: _ => r | [] => "" end))
              (set_status "denied" (Some ("model " +:+ repr (id e) +:+ " is ineligible: " +:+ join ", " rs)) t))).

(** [_data_denied_trace] *)
Definition data_denied_trace (req : ChatCompletionRequest) (k : Call) (strm : bool)
    (label : option string) : M unit :=
  do! e := resolve (model req) (who k) in
  refused_trace k strm e
    (λ t, set_data_label label (set_guard "block" (set_reason (Some "policy:data_policy_denied")
            (set_status "denied" (Some "data_policy_denied") t)))).

(** [_degraded_trace] *)
Definition degraded_trace (req : ChatCompletionRequest) (k : Call) (strm : bool) (why : string)
    (route : string) (label : option string) : M unit :=
  do! e := resolve (model req) (who k) in
  refused_trace k strm e
    (λ t, set_data_label label
            (set_reason (Some (match nonempty (Some route) with Some r => r | None => "smart:" +:+ why end))
              (set_degraded (Some why)
                (set_status "error" (Some ("gateway_degraded:" +:+ why)) t)))).

(** ** The budget *)

(** [_apply_budget] *)
Definition apply_budget (req : ChatCompletionRequest) (k : Call) (strm : bool)
    : M (ChatCompletionRequest * option string) :=
  do! enf := reads gw_enforcer in
  match enf with
  | None => mret (req, None)
  | Some e =>
      do! tm := now in
      let '(d, e) := decide_budget (budget_row g) (budget_spend g) (budget_alert_ok g)
                       (budget_audit_ok g) e
                       {| cl_org := org_id (who k); cl_team := team_id (who k);
                          cl_user := user_id (who k) |} tm (budget_period g) in
      modify (put_enforcer (Some e)) ;;
      match d with
      | None => mret (req, None)
      | Some d =>
          if negb (b_over d) then mret (req, None)
          else if b_action d ≡? "reject" then
            do! e := resolve (model req) (who k) in
            refused_trace k strm e
              (λ t, set_reason (Some "budget:rejected") (set_budget (Some "rejected")
                      (set_status "error" (Some "budget_exceeded") t))) ;;
            throw (EBudget d)
          else if b_action d ≡? "downgrade" then
            do! cheap := lift (cheapest_permitted g (who k)) in
            match cheap with
            | Some c => if negb (id c ≡? model req) then mret (with_model req (id c), Some "downgraded")
                        else mret (req, Some "downgraded")
            | None => mret (req, Some "over")
            end
          else mret (req, Some "over")
      end
  end.

(** ** Durable payloads *)

(** [_capture_content] *)
Definition capture_content (k : Call) (answer : string) : M unit :=
  if zero_retention (who k) || negb (log_content g) then mret tt
  else if negb (sql_sink g) then mret tt
  else modify (add_payload {| pl_mirror := false; pl_request_id := request_id k; pl_answer := answer |}).

(** [_trace_smart_ls]: the mirrored messages are read with [m.text()]. *)
Definition trace_smart_ls (smart : option SmartResult) (req : ChatCompletionRequest) (k : Call)
    (answer : string) : M unit :=
  match smart with
  | None => mret tt
  | Some _ =>
      if zero_retention (who k) || negb (tracing_on g) then mret tt
      else
        do! ts := lift (texts (messages req)) in
        modify (add_payload {| pl_mirror := true; pl_request_id := request_id k; pl_answer := answer |})
  end.

(** ** The stages before the cache *)

(** What the rest of a request needs of them. *)
Record Intake := {
  in_req : ChatCompletionRequest;
  in_key : option string;
  in_smart : option SmartResult;
  in_label : option string;
  in_constraint : option Constraint;
  in_degraded : option string;
  in_budget : option string;
}.

(** [complete] and [stream] up to and including the budget. *)
Definition intake (req : ChatCompletionRequest) (k : Call) (strm : bool) : M Intake :=
  do! key := match declared_key g (declared_session k) with
             | Some d => mret (Some d)
             | None => lift (conversation_key_of g (messages req))
             end in
  do! prefs := lift (cache_prefs_of g (who k)) in
  let req := with_stamps req key prefs in
  do! rs := resolve_smart req (who k) in
  let '(req, smart) := rs in
  do! lc := resolve_data_policy req (who k) smart in
  let '(label, constraint) := lc in
  let degraded := smart_degraded g smart in
  match degraded, smart with
  | Some why, Some r =>
      if resolve_fail_policy (fail_policy_of g (who k)) why then
        degraded_trace req k strm why (route_reason r) label ;; throw (EDegraded why)
      else mret tt
  | _, _ => mret tt
  end ;;
  (if constraint ≡? Some Deny
   then data_denied_trace req k strm label ;; throw (EDataDenied label)
   else mret tt) ;;
  do! rb := apply_budget req k strm in
  mret {| in_req := rb.1; in_key := key; in_smart := smart; in_label := label;
          in_constraint := constraint; in_degraded := degraded; in_budget := rb.2 |}.

(** [_plan] with the rows of its refusals. *)
Definition plan_or_refuse (i : Intake) (k : Call) (strm : bool) : M Plan := λ s,
  match plan (in_req i) k (in_label i) (in_constraint i) s with
  | (Err (EBlocked rs), s) =>
      (blocked_trace (in_req i) k strm rs ;; throw (EBlocked rs)) s
  | (Err (ENotPermitted mid al), s) =>
      (denied_trace mid k strm al ;; throw (ENotPermitted mid al)) s
  | (Err (EIneligible e os), s) =>
      (ineligible_trace e os k strm ;; throw (EIneligible e os)) s
  | r => r
  end.
End methods.

(** ** What the stages before dispatch leave alone *)

(** The calls on the wire other than the classifier's own. *)
Definition dispatched (l : list WireCall) : list WireCall :=
  List.filter (λ w, negb (wc_purpose w ≡? Classifying)) l.

Definition same {S T} (f : S → T) (s s' : S) : Prop := f s' = f s.

#[export] Instance same_preorder {S T} (f : S → T) : PreOrder (same f).
Proof. split; [done|]. intros x y z. unfold same. congruence. Qed.

(** The served state: what was sent upstream, and every durable effect but the traces. *)
Definition served {R C} (s : GwState R C) :=
  (dispatched (gw_wire s), gw_cache s, gw_payloads s, gw_chunks s, (gw_breaker s, gw_spans s)).

Lemma dispatched_app l l' : dispatched (l ++ l') = dispatched l ++ dispatched l'.
Proof. apply List.filter_app. Qed.

Section frames.
Context {R X C : Type} `{!RedisClient R X} `{!ResponseCache C} (g : Gateway).

(** A projection of the state that smart routing, the clock and the budget's own cache
    do not reach: [served], and the trace rows. *)
Class Aloof {T} (f : GwState R C → T) : Prop := {
  aloof_smart x s : f (put_smart x s) = f s;
  aloof_redis x s : f (put_redis x s) = f s;
  aloof_enforcer x s : f (put_enforcer x s) = f s;
  aloof_tick s : f (tick s) = f s;
  aloof_classify e s : f (add_wire {| wc_purpose := Classifying; wc_entry := e |} s) = f s;
}.

#[export] Instance served_aloof : Aloof served.
Proof. split; intros; destruct s; cbn; unfold served; cbn; rewrite ?dispatched_app, ?app_nil_r; done. Qed.

#[export] Instance traces_aloof : Aloof gw_traces.
Proof. split; intros; by destruct s. Qed.

Section aloof.
Context {T : Type} (f : GwState R C → T) `{!Aloof f}.

Lemma now_keeps : keeps (same f) (now g).
Proof using Aloof0. intros s. cbn. apply aloof_tick. Qed.
#[local] Hint Resolve now_keeps : gw.

Lemma resolve_keeps mid w : keeps (same f) (resolve g mid w).
Proof using Aloof0. unfold resolve. repeat keeps_step. Qed.
#[local] Hint Resolve resolve_keeps : gw.

Lemma run_smart_keeps a w : keeps (same f) (run_smart g a w).
Proof using Aloof0.
  intros s. unfold run_smart, same. destruct (smart_route _ _ _ _ _ _ _ _ _ _) as [[r st] rd].
  repeat case_match; cbn; by rewrite ?aloof_classify, ?aloof_tick, ?aloof_redis, ?aloof_smart.
Qed.
#[local] Hint Resolve run_smart_keeps : gw.

Lemma resolve_smart_keeps req w : keeps (same f) (resolve_smart g req w).
Proof using Aloof0. unfold resolve_smart. repeat keeps_step. Qed.

Lemma resolve_data_policy_keeps req w smart : keeps (same f) (resolve_data_policy g req w smart).
Proof using Aloof0. unfold resolve_data_policy. repeat keeps_step. Qed.

Lemma admit_entry_keeps e k pol s req : keeps (same f) (admit_entry g e k pol s req).
Proof using Aloof0. unfold admit_entry. repeat keeps_step. Qed.
#[local] Hint Resolve admit_entry_keeps : gw.

Lemma plan_keeps req k l c : keeps (same f) (plan g req k l c).
Proof using Aloof0. unfold plan, effective_m. repeat keeps_step. Qed.

(** A budget that does not reject changes nothing but the clock and its own cache. *)
Lemma apply_budget_ok req k strm s r s' : apply_budget g req k strm s = (Ok r, s') → f s' = f s.
Proof using Aloof0.
  unfold apply_budget. intros (enf & s1 & [= <- <-] & H)%mbind_ok.
  destruct (gw_enforcer s) as [e|]; [|by injection H as _ <-].
  apply mbind_ok in H as (tm & s1 & Hnow & H).
  destruct (decide_budget _ _ _ _ _ _ _ _) as [d e'].
  apply mbind_ok in H as (u & s2 & [= <- <-] & H).
  pose proof (now_keeps s) as Hs1. rewrite Hnow in Hs1. cbn in Hs1.
  assert (f s' = f (put_enforcer (Some e') s1)) as ->.
  { destruct d as [d|]; [|by injection H as _ <-].
    destruct (negb (b_over d)); [by injection H as _ <-|].
    destruct (b_action d ≡? "reject").
    { apply mbind_ok in H as (en & s3 & _ & H). by apply mbind_ok in H as (? & ? & _ & ?). }
    destruct (b_action d ≡? "downgrade"); [|by injection H as _ <-].
    apply mbind_ok in H as (c & s3 & [_ ->]%lift_ok & H).
    destruct c as [c|]; [|by injection H as _ <-]. by destruct (negb _); injection H as _ <-. }
  rewrite aloof_enforcer. exact Hs1.
Qed.
End aloof.

#[local] Hint Resolve served_aloof traces_aloof : gw.
#[local] Hint Resolve now_keeps resolve_keeps run_smart_keeps resolve_smart_keeps
  resolve_data_policy_keeps admit_entry_keeps plan_keeps : gw.

Lemma served_add_trace t (s : GwState R C) : served (add_trace t s) = served s.
Proof. by destruct s. Qed.

Lemma traces_add_trace t (s : GwState R C) : gw_traces (add_trace t s) = gw_traces s ++ [t].
Proof. by destruct s. Qed.

Lemma finalize_served t : keeps (same (@served R C)) (finalize t).
Proof. intros s. apply served_add_trace. Qed.
#[local] Hint Resolve finalize_served : gw.

Lemma refused_trace_served k strm e f : keeps (same (@served R C)) (refused_trace g k strm e f).
Proof. unfold refused_trace. repeat keeps_step. Qed.
#[local] Hint Resolve refused_trace_served : gw.

Lemma apply_budget_served req k strm : keeps (same (@served R C)) (apply_budget g req k strm).
Proof.
  unfold apply_budget. apply keeps_bind; [apply _|apply keeps_reads, _|intros [e|]]; [|apply keeps_ret, _].
  apply keeps_bind; [apply _|apply now_keeps, _|intros tm]. destruct (decide_budget _ _ _ _ _ _ _ _) as [d e'].
  apply keeps_bind; [apply _|apply keeps_modify; intros s; apply aloof_enforcer|intros _].
  repeat keeps_step.
Qed.
#[local] Hint Resolve apply_budget_served : gw.

(** Nothing before dispatch sends a completion, touches the cache, the breaker or a
    payload store, or yields a chunk. *)
Lemma intake_served req k strm : keeps (same (@served R C)) (intake g req k strm).
Proof. unfold intake, degraded_trace, data_denied_trace. repeat keeps_step. Qed.

Lemma plan_or_refuse_served i k strm : keeps (same (@served R C)) (plan_or_refuse g i k strm).
Proof.
  intros s. unfold plan_or_refuse.
  pose proof (plan_keeps served (in_req i) k (in_label i) (in_constraint i) s) as Hp.
  destruct (plan g (in_req i) k (in_label i) (in_constraint i) s) as [[p|e] s1]; cbn in Hp; [done|].
  assert (∀ (m : M (GwState R C) Plan), keeps (same served) m → same served s (m s1).2) as Hk.
  { intros m Hm. etrans; [exact Hp|apply Hm]. }
  destruct e; try exact Hp; apply Hk; unfold blocked_trace, denied_trace, ineligible_trace;
    repeat keeps_step.
Qed.
End frames.

(** ** Properties *)

Section planning.
Context {R X C : Type} `{!RedisClient R X} `{!ResponseCache C} (g : Gateway).
Implicit Types s : GwState R C.

Lemma effective_m_ok w s pol s' : effective_m g w s = (Ok pol, s') ↔ effective g w = Ok pol ∧ s' = s.
Proof. apply lift_ok. Qed.

Lemma resolve_ok mid w s e s' :
  resolve g mid w s = (Ok e, s') →
  resolve_candidate (candidate_catalog g) (catalog_of g w) w mid = Some e ∧ s' = s.
Proof.
  unfold resolve. destruct (resolve_candidate _ _ _ _); [by intros [= -> ->]|].
  by intros (? & ? & _ & ?)%mbind_ok.
Qed.

Lemma admit_entry_ok e k pol sg req s s' :
  admit_entry g e k pol sg req s = (Ok tt, s') → permitted pol e = true.
Proof.
  unfold admit_entry. destruct (match pol with Some p => _ | None => false end); [done|].
  destruct (lane e ≡? provider_lane) eqn:El.
  - intros (out & s1 & _ & (t & s2 & _ & H)%mbind_ok)%mbind_ok. bool_to_prop.
    destruct (evaluate _ _ _) eqn:Ev; [|done]. revert Ev. unfold evaluate.
    rewrite bool_decide_eq_true_2 by done. cbn [negb].
    intros (_ & (_ & (_ & (_ & (_ & (_ & (_ & Hp)%app_nil)%app_nil)%app_nil)%app_nil)%app_nil)%app_nil)%app_nil.
    destruct pol as [p|]; [|done]. cbn.
    destruct (match residency_allow p with Some l => _ | None => _ end); [done|]. by destruct (permits p e).
  - by destruct (permitted pol e).
Qed.

(** The text-level verdict [_plan] acts on, and the decision it takes. *)
Lemma plan_ok req k label constraint s p s' :
  plan g req k label constraint s = (Ok p, s') →
  ∃ pol v, effective g (who k) = Ok pol ∧ permitted pol (pn_entry p) = true ∧
    p_extract (pipeline g) (pn_req p) = Ok (pn_signal p) ∧
    action (p_check (pipeline g) (pn_req p) (pn_signal p)) ≠ BLOCK ∧
    action v = pn_action p ∧ pn_action p ≠ BLOCK ∧
    (constraint = Some LocalOnly → pn_action p = DOWNGRADE_LOCAL) ∧
    (constraint ≠ Some LocalOnly → v = p_check (pipeline g) (pn_req p) (pn_signal p)) ∧
    p_decide (pipeline g) (pn_req p) (pn_signal p) v (catalog_of g (who k)) pol = Ok (pn_decision p) ∧
    resolve_candidate (candidate_catalog g) (catalog_of g (who k)) (who k)
      (model_id (pn_decision p)) = Some (pn_entry p) ∧
    messages (pn_req p) = messages req.
Proof.
  unfold plan. intros (pol & s1 & [Hpol ->]%effective_m_ok & H)%mbind_ok.
  set (rq := match nonempty _ with Some d => _ | None => req end) in *.
  assert (messages rq = messages req) as Hms.
  { unfold rq. by repeat case_match. }
  clearbody rq. apply mbind_ok in H as (sg & s2 & [Hsg ->]%lift_ok & H).
  destruct (action (p_check (pipeline g) rq sg) ≡? BLOCK) eqn:Eb; [done|]. bool_to_prop.
  set (v := if _ && _ then _ else _) in H.
  apply mbind_ok in H as (d & s3 & [Hd ->]%lift_ok & H).
  apply mbind_ok in H as (e & s4 & [He ->]%resolve_ok & H).
  apply mbind_ok in H as ([] & s5 & Ha%admit_entry_ok & [= <- <-]).
  exists pol, v. cbn. split; [done|]. split; [done|]. split; [done|]. split; [done|]. split; [done|].
  assert ((constraint = Some LocalOnly → action v = DOWNGRADE_LOCAL) ∧
          (constraint ≠ Some LocalOnly → v = p_check (pipeline g) rq sg) ∧ action v ≠ BLOCK) as (H1 & H2 & H3).
  { unfold v. destruct (constraint ≡? Some LocalOnly) eqn:Ec; bool_to_prop; cbn [andb].
    - destruct (bool_decide_reflect (action (p_check (pipeline g) rq sg) = ALLOW)) as [Ea|Ea]; cbn; [done|].
      split; [|done]. intros _. by destruct (action _).
    - done. }
  done.
Qed.

(** C4: The plan is the single choke point: a planned entry is permitted by the caller's
    policy — catalog mode, residency and organization allowlist, static and discovered
    routes alike — the guard did not block the request, and the entry is exactly the
    router's decision resolved for this caller. *)
Theorem plan_permits req k label constraint s p s' :
  plan g req k label constraint s = (Ok p, s') →
  (∀ pol, effective g (who k) = Ok (Some pol) → permits pol (pn_entry p) = true) ∧
  pn_action p ≠ BLOCK ∧ action (p_check (pipeline g) (pn_req p) (pn_signal p)) ≠ BLOCK ∧
  resolve_candidate (candidate_catalog g) (catalog_of g (who k)) (who k)
    (model_id (pn_decision p)) = Some (pn_entry p) ∧
  served s' = served s.
Proof.
  intros H. pose proof (plan_keeps g served req k label constraint s) as Hs. rewrite H in Hs.
  destruct (plan_ok _ _ _ _ _ _ _ H) as (pol & v & Hpol & Hp & _ & Hb & _ & Ha & _ & _ & _ & Hr & _).
  split; [|done]. intros pol' Heq. rewrite Hpol in Heq. by injection Heq as ->.
Qed.

(** C5: Restricted data stays inside: under a [local_only] classification the guarded
    pipeline plans only a model of the private perimeter, whatever model the request
    names, as long as the caller's catalog has one. *)
Theorem local_only_stays_local req k label s p s' e :
  pipeline g = guarded_pipeline → NoDup (id <$> catalog_of g (who k)) →
  e ∈ catalog_of g (who k) → residency_class e = in_perimeter →
  plan g req k label (Some LocalOnly) s = (Ok p, s') →
  residency_class (pn_entry p) = in_perimeter ∧ pn_entry p ∈ catalog_of g (who k) ∧
  pn_action p = DOWNGRADE_LOCAL ∧ reason (pn_decision p) = "guard:downgrade_local".
Proof.
  intros Hg Hnd He Hloc H.
  destruct (plan_ok _ _ _ _ _ _ _ H) as (pol & v & _ & _ & _ & _ & Hv & _ & Hc & _ & Hd & Hr & _).
  specialize (Hc eq_refl). rewrite Hc in Hv. rewrite Hg in Hd. cbn in Hd. unfold guard_decide in Hd.
  rewrite Hv, bool_decide_eq_true_2 in Hd by done.
  destruct (first_in_perimeter (catalog_of g (who k))) as [x|] eqn:Ex;
    [|rewrite first_in_perimeter_none in Ex; by rewrite (Ex e He) in Hloc].
  apply (inj Ok) in Hd. rewrite <- Hd in *. cbn in Hr. apply first_in_perimeter_some in Ex as [Hx Hres].
  unfold resolve_candidate in Hr. rewrite catalog_get_nodup in Hr by done. injection Hr as <-. done.
Qed.

(** ** The budget *)

(** A cheapest model the caller's policy permits. *)
Definition cheapest (w : Identity) (pol : option Policy) (c : CatalogEntry) : Prop :=
  c ∈ catalog_of g w ∧ permitted pol c = true ∧
  ∀ e, e ∈ catalog_of g w → permitted pol e = true → (price_sum c <= price_sum e)%Q.

Lemma cheapest_permitted_spec w pol c :
  effective g w = Ok pol → cheapest_permitted g w = Ok c →
  match c with Some c => cheapest w pol c | None => ∀ e, e ∈ catalog_of g w → permitted pol e = false end.
Proof.
  intros Hpol. unfold cheapest_permitted. rewrite Hpol. cbn [res_bind]. intros [= <-].
  destruct (min_by _ _) as [c|] eqn:Hmin.
  - apply min_by_spec in Hmin as [[Hin Hp]%elem_of_bfilter Hle]. split; [done|]. split; [done|].
    intros e He Hpe. apply Hle. by apply elem_of_bfilter.
  - intros e He. destruct (permitted pol e) eqn:Hp; [|done].
    apply pick_first_none in Hmin. assert (e ∈ List.filter (permitted pol) (catalog_of g w)) as Hin by by apply elem_of_bfilter.
    rewrite Hmin in Hin. by apply elem_of_nil in Hin.
Qed.

(** A refusal that ends in its row. *)
Lemma refused_row {A} k strm e f (x : GwError) s (r : res GwError A) s' :
  (refused_trace g k strm e f ;; throw x) s = (r, s') →
  match for_entry e with
  | Err w => r = Err (ERaised w) ∧ s' = s
  | Ok _ => r = Err x ∧ ∃ t, begin_trace g k strm None e = Ok t ∧ gw_traces s' = gw_traces s ++ [finish (f t)]
  end.
Proof.
  unfold refused_trace, finalize, mbind, modify, mret, throw, lift. unfold begin_trace.
  destruct (for_entry e); cbn [res_bind]; intros [= <- <-]; [|done].
  split; [done|]. eexists. split; [done|]. by destruct s.
Qed.

(** C32: What the decision [d] of the budget enforcer does to a request.  Under its budget it
    is untouched.  Over it: with [reject] the request never goes on, and is refused with one row
    that says so (or, when its model has no entry with a runner, with that error); with
    [downgrade] it always goes on as the cheapest model the caller's policy permits, stamped
    [downgraded], and only if the policy permits no model at all as itself, stamped [over] (a
    policy that cannot be read raises); with any other action it goes on as itself, stamped
    [over]. *)
Theorem budget_enforced req k strm s r s' enf d enf' :
  gw_enforcer s = Some enf →
  decide_budget (budget_row g) (budget_spend g) (budget_alert_ok g) (budget_audit_ok g) enf
    {| cl_org := org_id (who k); cl_team := team_id (who k); cl_user := user_id (who k) |}
    (time_at g (gw_ticks s)) (budget_period g) = (Some d, enf') →
  apply_budget g req k strm s = (r, s') →
  if negb (b_over d) then r = Ok (req, None)
  else if b_action d ≡? "reject" then
    match resolve_candidate (candidate_catalog g) (catalog_of g (who k)) (who k) (model req) with
    | None => ∃ u, r = Err (EUnknownModel u)
    | Some e => match for_entry e with
                | Err w => r = Err (ERaised w)
                | Ok _ => r = Err (EBudget d) ∧ ∃ t, gw_traces s' = gw_traces s ++ [t] ∧
                    t_status t = "error" ∧ s_budget (t_stamp t) = Some "rejected" ∧ o_model (t_origin t) = id e
                end
    end
  else if b_action d ≡? "downgrade" then
    match effective g (who k) with
    | Err w => r = Err (ERaised w)
    | Ok pol => (∃ c, cheapest (who k) pol c ∧ r = Ok (with_model req (id c), Some "downgraded")) ∨
        ((∀ e, e ∈ catalog_of g (who k) → permitted pol e = false) ∧ r = Ok (req, Some "over"))
    end
  else r = Ok (req, Some "over").
Proof.
  intros Henf Hd. unfold apply_budget. unfold mbind at 1, reads. cbn [mret]. rewrite Henf.
  unfold mbind at 1, now, mbind at 1, reads, modify, mret. cbn [fst snd]. unfold mbind at 1. rewrite Hd.
  unfold mbind at 1, modify.
  set (s1 := put_enforcer (Some enf') (tick s)).
  assert (gw_traces s1 = gw_traces s) as Hrows by by destruct s.
  destruct (b_over d); cbn [negb]; [|by intros [= <- _]].
  destruct (b_action d ≡? "reject").
  { unfold mbind at 1, resolve. destruct (resolve_candidate _ _ _ _) as [e|].
    - intros H. apply refused_row in H. destruct (for_entry e); [|by destruct H].
      destruct H as (-> & t & Ht & Hr). split; [done|]. eexists. rewrite Hr, Hrows. split; [done|].
      unfold begin_trace in Ht. apply res_bind_ok in Ht as (u & _ & [= <-]). done.
    - unfold mbind, now, reads, modify, mret, throw. intros [= <- _]. by eexists. }
  destruct (b_action d ≡? "downgrade"); [|by intros [= <- _]].
  unfold mbind. destruct (effective g (who k)) as [pol|w] eqn:Hpol.
  2:{ unfold cheapest_permitted. rewrite Hpol. by intros [= <- _]. }
  destruct (cheapest_permitted g (who k)) as [c|w] eqn:Hc;
    [|unfold cheapest_permitted in Hc; by rewrite Hpol in Hc].
  pose proof (cheapest_permitted_spec _ _ _ Hpol Hc) as Hspec. cbn. destruct c as [c|].
  - intros H. left. exists c. split; [done|]. destruct (id c ≡? model req) eqn:Ei; injection H as <- _; [|done].
    bool_to_prop. rewrite Ei. by destruct req.
  - intros [= <- _]. by right.
Qed.
End planning.

(** ** Witnesses: the guarded pipeline over a cloud and an in-perimeter model *)

Definition demo_answer (e : CatalogEntry) : ChatCompletionResponse :=
  {| resp_model := id e;
     choices := [ {| choice_index := 0; msg_content := Some "hello"; msg_tool_calls := None;
                     finish_reason := Some "stop" |} ];
     usage := usage_of 12 3 0 None 0 |}.

(** A deploy whose provider answers as [answer] says. *)
Definition demo_gateway (cat : Catalog)
    (answer : nat → ChatCompletionRequest → CatalogEntry → res Exn ChatCompletionResponse)
    (chunks : list Chunk * option Exn) : Gateway :=
  {| base_catalog := cat; candidate_catalog := []; pipeline := guarded_pipeline; retries := 1;
     passthrough_fallback := true; log_content := true; label_table := None; bench_table := None;
     default_classifier := "local"; stick_policy_of := None; warmth_on := false;
     default_prefs := {| auto_inject := true; auto_inject_min_messages := 4 |};
     env_set := λ _, true; sql_sink := true; tracing_on := false; policy_fault := λ _, None;
     chat := answer; open_stream := λ _ _ _, chunks; exn_str := λ _, "failed"; runner_id := λ e, id e;
     has_openai := true; time_at := λ n, Qz (Z.of_nat n); clock_at := λ n, demo_clock (Qz (Z.of_nat n));
     sha256_hex := λ s, s; sha1_hex := λ s, s; json_loads := λ _, None; memo_text := c_label;
     memo_read := λ _, None; label_template := "{label_block}"; math_exp := demo_exp;
     budget_row := λ k, if k ≡? "team" then Ok (Some demo_row) else Ok None;
     budget_spend := Some (λ _ _ _, Ok 120%Q); budget_alert_ok := λ _, true;
     budget_audit_ok := λ _, true; budget_period := "2026-07" |}.

Abbreviation demo_gw := (demo_gateway demo_catalog (λ _ _ e, Ok (demo_answer e)) ([], None)).

Definition demo_gw_state {C} (c : C) (e : option Enforcer) : GwState (list (string * string)) C :=
  {| gw_smart := new_smart_state; gw_redis := Some []; gw_breaker := new_breaker 5 30; gw_cache := c;
     gw_enforcer := e; gw_traces := []; gw_wire := []; gw_payloads := []; gw_spans := [];
     gw_chunks := []; gw_ticks := 0 |}.

Definition demo_call (w : Identity) : Call :=
  {| request_id := "req-1"; harness := None; task_id := None; resilient := true; allow_fallback := None;
     who := w; declared_session := None; byok_envs := []; escalated_from := None |}.

Definition demo_req : ChatCompletionRequest := request_of "gpt" [say "user" "hello"].

(** The state a run ends in, and what it returned. *)
Definition final {S A} (r : res GwError A * S) : S := r.2.
Definition result {S A} (r : res GwError A * S) (d : A) : A := match r.1 with Ok a => a | Err _ => d end.

Definition demo_plan : Plan :=
  {| pn_entry := demo_cloud; pn_signal := {| intent := ""; complexity := ""; token_estimate := 0; has_tools := false |};
     pn_decision := {| model_id := ""; reason := "" |}; pn_action := ALLOW; pn_req := demo_req |}.

Abbreviation demo_planned w c :=
  (plan demo_gw demo_req (demo_call w) None c (demo_gw_state tt None)).

Definition demo_p : Plan := Eval vm_compute in result (demo_planned demo_identity None) demo_plan.
Definition demo_p_local : Plan :=
  Eval vm_compute in result (demo_planned no_identity (Some LocalOnly)) demo_plan.

Lemma plan_permits_witness :
  demo_planned demo_identity None = (Ok demo_p, final (demo_planned demo_identity None)) ∧
  permits demo_policy (pn_entry demo_p) = true.
Proof.
  assert (demo_planned demo_identity None = (Ok demo_p, final (demo_planned demo_identity None))) as H
    by (vm_compute; reflexivity).
  split; [exact H|].
  apply (plan_permits demo_gw demo_req (demo_call demo_identity) None None (demo_gw_state tt None)
    demo_p _ H). reflexivity.
Defined.

Lemma local_only_stays_local_witness : residency_class (pn_entry demo_p_local) = in_perimeter.
Proof.
  apply (local_only_stays_local demo_gw demo_req (demo_call no_identity) None (demo_gw_state tt None)
    demo_p_local (final (demo_planned no_identity (Some LocalOnly))) demo_local).
  - reflexivity.
  - vm_decide.
  - right. left.
  - reflexivity.
  - vm_compute. reflexivity.
Defined.

Definition demo_enforcer : Enforcer :=
  {| ttl := 60; decisions := []; alerts := {| fired := []; audits := [] |} |}.

Definition demo_member : Identity :=
  {| org_id := Some "acme"; team_id := Some "team"; user_id := Some "u"; catalog_policy := None;
     routing_policy := None; org_allowlist := None; catalog_adoptions := []; price_overrides := ∅;
     provider_credential_scopes := None; zero_retention := false |}.

Definition demo_prices : Catalog :=
  [demo_priced "gpt" (3 # 1000) (15 # 1000); demo_priced "mini" (1 # 10000) (4 # 10000)].

Abbreviation demo_budgeted :=
  (apply_budget (demo_gateway demo_prices (λ _ _ e, Ok (demo_answer e)) ([], None)) demo_req
     (demo_call demo_member) false (demo_gw_state tt (Some demo_enforcer))).

Lemma budget_enforced_witness :
  demo_budgeted.1 = Ok (with_model demo_req "mini", Some "downgraded") ∧
  ((∃ c, cheapest (demo_gateway demo_prices (λ _ _ e, Ok (demo_answer e)) ([], None)) demo_member None c ∧
      demo_budgeted.1 = Ok (with_model demo_req (id c), Some "downgraded")) ∨
   ((∀ e, e ∈ demo_prices → permitted None e = false) ∧ demo_budgeted.1 = Ok (demo_req, Some "over"))).
Proof.
  split; [vm_compute; reflexivity|].
  eapply (budget_enforced (demo_gateway demo_prices (λ _ _ e, Ok (demo_answer e)) ([], None)) demo_req
    (demo_call demo_member) false (demo_gw_state tt (Some demo_enforcer)) demo_budgeted.1 demo_budgeted.2
    demo_enforcer demo_decision); [reflexivity|reflexivity|by destruct demo_budgeted].
Defined.
