(* ===== verification/Dispatch.v ===== *)
(** * Dispatch: [Gateway.complete] and [Gateway.stream] ([gateway.py])

    The exact cache, the candidate loop with its retries, breaker and residency-bounded
    fallbacks, and the hand-driven stream. *)

From S2P Require Import Prelude PyStr PyDict Schemas Catalog Identity Policy Breaker Resilience Benchmarks Labels Pricing.
From S2P Require Import Smart Candidates Budgets Trajectory Trace Effects Gateway.

(** A non-streaming result. *)
Record GatewayResult := { gr_response : ChatCompletionResponse; gr_trace : TraceRecord }.

(** Where a stream stopped: the client left, the upstream raised, or it was read to the end. *)
Inductive StreamEnd : Type := Exhausted | Raised (e : Exn) | Disconnected.

(** What one opening of the upstream stream gave: the chunks passed on, the text and the
    usage seen, and whether any chunk arrived. *)
Record Consumed := {
  co_chunks : list Chunk;
  co_text : list string;
  co_usage : option Usage;
  co_started : bool;
  co_end : StreamEnd;
}.

Definition chunk_text (c : Chunk) : list string :=
  omap (λ ch, nonempty (delta_content ch)) (chunk_choices c).

Definition ended (e : option Exn) : StreamEnd :=
  match e with Some e => Raised e | None => Exhausted end.

(** The [while] loop over the upstream's chunks; the client closes the stream
    when it has received [leaves + 1] chunks.  A chunk with usage is captured out of band: its
    text is not accumulated, and it is passed on only when usage was asked for. *)
Fixpoint consume (want_usage : bool) (leaves : option nat) (cs : list Chunk) (e : option Exn) : Consumed :=
  match cs with
  | [] => {| co_chunks := []; co_text := []; co_usage := None; co_started := false; co_end := ended e |}
  | c :: cs =>
      let keep (r : Consumed) (shown : list Chunk) (txt : list string) :=
        {| co_chunks := shown ++ co_chunks r; co_text := txt ++ co_text r;
           co_usage := match co_usage r with Some u => Some u | None => chunk_usage c end;
           co_started := true; co_end := co_end r |} in
      let stop := {| co_chunks := []; co_text := []; co_usage := None; co_started := true;
                     co_end := Disconnected |} in
      let txt := match chunk_usage c with Some _ => [] | None => chunk_text c end in
      match chunk_usage c, want_usage with
      | Some _, false => keep (consume want_usage leaves cs e) [] []
      | _, _ =>
          match leaves with
          | Some O => keep stop [c] txt
          | Some (S n) => keep (consume want_usage (Some n) cs e) [c] txt
          | None => keep (consume want_usage None cs e) [c] txt
          end
      end
  end.

Section dispatch.
Context {R X C : Type} `{!RedisClient R X} `{!ResponseCache C} (g : Gateway).
Implicit Types (req : ChatCompletionRequest) (k : Call) (t : TraceRecord).

Notation M := (M (GwState R C)).

Definition emit_span (node key : string) : M unit := modify (add_span (node, key)).

(** [self._breaker.allow(key)] and the two verdicts, at the current clock. *)
Definition breaker_allow (key : string) : M bool :=
  do! tm := now g in
  do! b := reads gw_breaker in
  modify (put_breaker (allow b key tm).2) ;; mret (allow b key tm).1.

(** [if self._breaker.on_success(key): ...] *)
Definition breaker_success (key : string) : M unit :=
  do! b := reads gw_breaker in
  modify (put_breaker (on_success b key).2) ;;
  if (on_success b key).1
  then emit_span "circuit_close" key ;;
       do! r := reads gw_redis in modify (put_redis (clear_open r key))
  else mret tt.

(** [if self._breaker.on_failure(key): ...] *)
Definition breaker_failure (key : string) : M unit :=
  do! tm := now g in
  do! b := reads gw_breaker in
  modify (put_breaker (on_failure b key tm).2) ;;
  if (on_failure b key tm).1
  then emit_span "circuit_open" key ;;
       do! r := reads gw_redis in modify (put_redis (record_open (on_failure b key tm).2 r key))
  else mret tt.

Definition retryable (e : GwError) : bool := is_retryable (has_openai g) (exn_of e).

(** [runner.chat] on the wire. *)
Definition call_runner (req : ChatCompletionRequest) (e : CatalogEntry)
    : M (res Exn ChatCompletionResponse) :=
  do! n := reads (λ s, length (gw_wire s)) in
  modify (add_wire {| wc_purpose := Completing; wc_entry := e |}) ;;
  mret (chat g n req e).

(** The usage of a response, estimated when the upstream gave none. *)
Definition usage_or_estimate (req : ChatCompletionRequest) (r : ChatCompletionResponse)
    : res string (Usage * bool) :=
  if (total_tokens (usage r) =? 0)%Z
  then try! p := estimate_prompt_tokens (messages req) in
       Ok (usage_of p (estimate_tokens (first_content r)) 0 None 0, true)
  else Ok (usage r, false).

(** One dispatch of a request: the constants of [complete] its attempts read. *)
Record Dispatch := {
  d_call : Call;
  d_intake : Intake;
  d_plan : Plan;
  d_retries : nat;
  d_fail_policy : FailPolicy;
  d_no_store : bool;
}.

Definition d_req (d : Dispatch) : ChatCompletionRequest := pn_req (d_plan d).

(** The end of a served attempt: its row, then its payloads. *)
Definition publish (d : Dispatch) (t : TraceRecord) (r : ChatCompletionResponse)
    : M (TraceRecord * res GwError ChatCompletionResponse) :=
  do! t := finalize t in
  capture_content g (d_call d) (first_content r) ;;
  λ s, match trace_smart_ls g (in_smart (d_intake d)) (d_req d) (d_call d) (first_content r) s with
       | (Ok _, s) => (Ok (t, Ok r), s)
       | (Err x, s) => (Ok (t, Err x), s)
       end.

(** The body of the [try] in the attempt loop after the upstream call: the trace as it was
    last assigned, and the response or the exception. *)
Definition settle (d : Dispatch) (e : CatalogEntry) (t : TraceRecord)
    (answer : res Exn ChatCompletionResponse)
    : M (TraceRecord * res GwError ChatCompletionResponse) :=
  let k := d_call d in
  match answer with
  | Err x => mret (t, Err (EUpstream x))
  | Ok r =>
      match usage_or_estimate (d_req d) r with
      | Err x => mret (t, Err (ERaised x))
      | Ok (u, est) =>
          let r := if est then with_usage r u else r in
          do! t := account g t e u est in
          let t := set_ok t in
          (if resilient k then breaker_success (provider_key (base_url e)) else mret tt) ;;
          do! c := reads gw_cache in
          match (if d_no_store d || (lane (pn_entry (d_plan d)) ≡? provider_lane)
                 then Ok c else rc_put c (d_req d) r) with
          | Err x => mret (t, Err (ERaised x))
          | Ok c =>
              modify (put_cache c) ;; publish d t r
          end
      end
  end.

(** [cand_req] *)
Definition candidate_req (d : Dispatch) (e : CatalogEntry) : ChatCompletionRequest :=
  if id e ≡? model (d_req d) then d_req d else with_model (d_req d) (id e).

Definition attempt_once (d : Dispatch) (e : CatalogEntry) (t : TraceRecord)
    : M (TraceRecord * res GwError ChatCompletionResponse) :=
  do! answer := call_runner (candidate_req d e) e in settle d e t answer.

(** [for attempt in range(retries + 1)], with [left] attempts after this one. *)
Fixpoint attempts (d : Dispatch) (e : CatalogEntry) (t : TraceRecord) (first : option GwError)
    (left : nat) : M (TraceRecord * option GwError * res GwError ChatCompletionResponse) :=
  do! out := attempt_once d e t in
  let '(t, r) := out in
  match r with
  | Ok r => mret (t, first, Ok r)
  | Err x =>
      if isinstance (exn_of x) ["UnknownModelError"] then throw x
      else
        let res := resilient (d_call d) && retryable x in
        (if res then breaker_failure (provider_key (base_url e)) else mret tt) ;;
        match left with
        | O => mret (t, first, Err x)
        | S n =>
            if negb res then mret (t, first, Err x)
            else
              do! ok := breaker_allow (provider_key (base_url e)) in
              if ok then attempts d e t (first orelse Some x) n
              else mret (t, first, Err x)
        end
  end.

(** The stamps of candidate number [i], before it is tried. *)
Definition candidate_trace (d : Dispatch) (e : CatalogEntry) (i : nat) (first : option GwError)
    (forced : bool) (t : TraceRecord) : TraceRecord :=
  let p := d_plan d in
  let inn := d_intake d in
  let t := stamp_decision g t (pn_signal p) (pn_decision p) (pn_action p) (in_label inn) (pn_req p) in
  let t := set_classify_ms (match in_smart inn with Some r => classify_ms r | None => None end) t in
  let t := set_budget (in_budget inn) t in
  let t := set_degraded (if forced then Some "breaker_open" else in_degraded inn) t in
  let t := match in_smart inn, i with
           | Some r, O => set_metadata (metadata_or_none (label_metadata r))
                            (set_reason (Some (route_reason r)) t)
           | _, _ => t
           end in
  match i with
  | O => t
  | S _ => set_reason (Some ("fallback: " +:+ id (pn_entry p) +:+ " " +:+
                             err_label (exn_of <$> first) +:+ " → " +:+ id e)) t
  end.

(** The breaker's gate on a candidate. *)
Definition gate (k : Call) (key : string) : M bool :=
  if negb (resilient k) then mret true
  else
    do! ok := breaker_allow key in
    if ok then do! r := reads gw_redis in mret (negb (peer_open r key)) else mret false.

(** [for i, cand_entry in enumerate(candidate_entries)] *)
Fixpoint candidates (d : Dispatch) (i : nat) (first : option GwError) (forced : bool)
    (cs : list CatalogEntry) : M GatewayResult :=
  match cs with
  | [] => throw (match first with Some x => x | None => ERaised "exceptions must derive from BaseException" end)
  | e :: cs =>
      let k := d_call d in
      let key := provider_key (base_url e) in
      do! t := lift (begin_trace g k false (in_key (d_intake d)) e) in
      let t := candidate_trace d e i first forced t in
      do! ok := gate k key in
      if negb ok then
        let first := first orelse Some (ECircuitOpen key) in
        let t := set_status "error" (Some ("circuit_open:" +:+ key)) t in
        if resolve_fail_policy (d_fail_policy d) "breaker_open" then
          finalize (set_degraded (Some "breaker_open") t) ;; throw (EDegraded "breaker_open")
        else finalize t ;; candidates d (S i) first true cs
      else
        do! out := attempts d e t first (d_retries d) in
        let '(t, first, r) := out in
        match r with
        | Ok r => mret {| gr_response := r; gr_trace := t |}
        | Err x =>
            finalize (set_status "error"
              (Some (exn_type (exn_of x) +:+ ": " +:+
                     match x with EUpstream y => exn_str g y | ERaised w => w | _ => "" end)) t) ;;
            match cs with
            | _ :: _ => if resilient k && retryable x
                        then candidates d (S i) (first orelse Some x) forced cs
                        else throw x
            | [] => throw x
            end
        end
  end.

(** The answer from the exact cache. *)
Definition serve_cached (i : Intake) (k : Call) (r : ChatCompletionResponse) : M GatewayResult :=
  do! e := resolve g (if present (catalog_get (catalog_of g (who k)) (resp_model r)) then resp_model r
                      else model (in_req i)) (who k) in
  do! t := lift (begin_trace g k false (in_key i) e) in
  let t := set_cache_hit (set_reason (Some "cache") (set_ok t)) in
  let t := set_data_label (in_label i)
             (set_classify_ms (match in_smart i with Some r => classify_ms r | None => None end)
               (set_budget (in_budget i) t)) in
  let t := set_ledger {| l_prompt := prompt_tokens (usage r); l_completion := completion_tokens (usage r);
                         l_cached := 0; l_cache_write := 0; l_cost := 0; l_estimated := false;
                         l_baseline := baseline g (usage r) |} t in
  do! t := finalize t in
  capture_content g k (first_content r) ;;
  trace_smart_ls g (in_smart i) (in_req i) k (first_content r) ;;
  mret {| gr_response := r; gr_trace := t |}.

(** BYOK requests and zero-retention organizations neither read nor seed the cache. *)
Definition no_store (k : Call) : bool :=
  match byok_envs k with [] => zero_retention (who k) | _ :: _ => true end.

Definition cache_lookup (i : Intake) (k : Call) : M (option ChatCompletionResponse) :=
  if no_store k || negb (present (catalog_get (catalog_of g (who k)) (model (in_req i)))) then mret None
  else
    do! c := reads gw_cache in
    do! hit := lift (rc_get c (in_req i)) in
    modify (put_cache hit.2) ;; mret hit.1.

Fixpoint require_all (c : Catalog) (ids : list string) : M (list CatalogEntry) :=
  match ids with
  | [] => mret []
  | i :: ids =>
      match require c i with
      | Ok e => do! es := require_all c ids in mret (e :: es)
      | Err u => throw (EUnknownModel u)
      end
  end.

(** The candidate entries of a plan: its own, then its fallbacks. *)
Definition candidate_entries (p : Plan) (k : Call) : M (list CatalogEntry) :=
  let c := catalog_of g (who k) in
  if resilient k && or_default (allow_fallback k) (passthrough_fallback g)
     && negb (lane (pn_entry p) ≡? provider_lane)
  then do! es := require_all c (fallbacks c (id (pn_entry p)) false) in mret (pn_entry p :: es)
  else mret [pn_entry p].

(** [Gateway.complete] *)
Definition complete (req : ChatCompletionRequest) (k : Call) : M GatewayResult :=
  do! i := intake g req k false in
  do! hit := cache_lookup i k in
  match hit with
  | Some r => serve_cached i k r
  | None =>
      do! p := plan_or_refuse g i k false in
      do! cs := candidate_entries p k in
      candidates {| d_call := k; d_intake := i; d_plan := p;
                    d_retries := if resilient k then retries g else 0;
                    d_fail_policy := fail_policy_of g (who k); d_no_store := no_store k |}
                 0 None false cs
  end.

(** ** Streaming *)

(** Opening the stream, and the retries before the first chunk that only a discovered
    route makes; the chunks it yields go to [gw_chunks]. *)
Fixpoint read_stream (req : ChatCompletionRequest) (e : CatalogEntry) (want_usage : bool)
    (leaves : option nat) (left : nat) : M Consumed :=
  do! n := reads (λ s, length (gw_wire s)) in
  modify (add_wire {| wc_purpose := Streaming; wc_entry := e |}) ;;
  let '(cs, x) := open_stream g n req e in
  let r := consume want_usage leaves cs x in
  modify (add_chunks (co_chunks r)) ;;
  match left, co_end r with
  | S left', Raised x =>
      if (lane e ≡? provider_lane) && negb (co_started r) && is_retryable (has_openai g) x
      then read_stream req e want_usage leaves left'
      else mret r
  | _, _ => mret r
  end.

(** The status a stream ends with, and the exception it raises. *)
Definition stream_outcome (r : StreamEnd) : (TraceRecord → TraceRecord) * option GwError :=
  match r with
  | Exhausted => (set_ok, None)
  | Disconnected => (set_status "error" (Some "client_disconnected"), Some EDisconnected)
  | Raised x =>
      if isinstance x ["TimeoutError"]
      then (set_status "error" (Some "stream_stall"), Some EStall)
      else (set_status "error" (Some (exn_type x +:+ ": " +:+ exn_str g x)), Some (EUpstream x))
  end.

(** What the [finally] block accounts: the reported usage, or an estimate. *)
Definition stream_usage (req : ChatCompletionRequest) (r : Consumed) : res string (Usage * bool) :=
  let estimate :=
    try! p := estimate_prompt_tokens (messages req) in
    Ok (usage_of p (estimate_tokens (join "" (co_text r))) 0 None 0, true) in
  match co_usage r with
  | Some u => if (0 <? total_tokens u)%Z then Ok (u, false) else estimate
  | None => estimate
  end.

(** The stamps of a streamed request. *)
Definition stream_trace (i : Intake) (p : Plan) (t : TraceRecord) : TraceRecord :=
  let t := stamp_decision g t (pn_signal p) (pn_decision p) (pn_action p) (in_label i) (pn_req p) in
  let t := set_degraded (in_degraded i)
             (set_budget (in_budget i)
               (set_classify_ms (match in_smart i with Some r => classify_ms r | None => None end) t)) in
  match in_smart i with
  | Some r => set_metadata (metadata_or_none (label_metadata r)) (set_reason (Some (route_reason r)) t)
  | None => t
  end.

Definition wants_usage (req : ChatCompletionRequest) : bool :=
  match stream_options req with Some o => include_usage o | None => false end.

(** The end of a stream, however it came: the [except] clauses, then [finally]. *)
Definition stream_close (i : Intake) (p : Plan) (k : Call) (t : TraceRecord) (r : Consumed) : M TraceRecord :=
  let '(status, failure) := stream_outcome (co_end r) in
  do! ue := lift (stream_usage (pn_req p) r) in
  do! t := account g (status t) (pn_entry p) ue.1 ue.2 in
  do! t := finalize t in
  capture_content g k (join "" (co_text r)) ;;
  trace_smart_ls g (in_smart i) (pn_req p) k (join "" (co_text r)) ;;
  match failure with Some x => throw x | None => mret t end.

(** [Gateway.stream] once the plan stands; its record is what [on_trace] receives. *)
Definition stream_planned (i : Intake) (p : Plan) (k : Call) (leaves : option nat) : M TraceRecord :=
  do! t := lift (begin_trace g k true (in_key i) (pn_entry p)) in
  do! r := read_stream (pn_req p) (pn_entry p) (wants_usage (pn_req p)) leaves (retries g) in
  stream_close i p k (stream_trace i p t) r.

(** [Gateway.stream], read until the client leaves. *)
Definition stream_request (req : ChatCompletionRequest) (k : Call) (leaves : option nat) : M TraceRecord :=
  do! i := intake g req k true in
  do! p := plan_or_refuse g i k true in
  stream_planned i p k leaves.
End dispatch.

(** ** What each stage does to the wire *)

Definition wire_of {R C} (s : GwState R C) : list WireCall := dispatched (gw_wire s).

Section wire.
Context {R X C : Type} `{!RedisClient R X} `{!ResponseCache C} (g : Gateway).
Implicit Types (s : GwState R C) (d : Dispatch) (k : Call) (t : TraceRecord).

#[local] Instance wire_aloof : Aloof (C:=C) (R:=R) wire_of.
Proof. split; intros; destruct s; cbn; unfold wire_of; cbn; rewrite ?dispatched_app, ?app_nil_r; done. Qed.

#[local] Hint Resolve wire_aloof : gw.
#[local] Hint Resolve now_keeps resolve_keeps : gw.

Notation quiet := (keeps (E := GwError) (same (@wire_of R C))).

Lemma modify_quiet f : (∀ s, wire_of (f s) = wire_of s) → quiet (modify f).
Proof. intros H. by apply keeps_modify. Qed.

#[local] Hint Extern 1 (keeps (same wire_of) (modify _)) =>
  apply modify_quiet; intros []; reflexivity : gw.

Lemma breaker_allow_quiet key : quiet (breaker_allow g key).
Proof. unfold breaker_allow. repeat keeps_step. Qed.

Lemma breaker_success_quiet key : quiet (breaker_success key).
Proof. unfold breaker_success, emit_span. repeat keeps_step. Qed.

Lemma breaker_failure_quiet key : quiet (breaker_failure g key).
Proof. unfold breaker_failure, emit_span. repeat keeps_step. Qed.
#[local] Hint Resolve breaker_allow_quiet breaker_success_quiet breaker_failure_quiet : gw.

Lemma gate_quiet k key : quiet (gate g k key).
Proof. unfold gate. repeat keeps_step. Qed.

Lemma account_quiet t e u est : quiet (account g t e u est).
Proof. unfold account. repeat keeps_step. Qed.

Lemma finalize_quiet t : quiet (finalize t).
Proof. unfold finalize. repeat keeps_step. Qed.

Lemma capture_quiet k a : quiet (capture_content g k a).
Proof. unfold capture_content. repeat keeps_step. Qed.

Lemma mirror_quiet sm req k a : quiet (trace_smart_ls g sm req k a).
Proof. unfold trace_smart_ls. repeat keeps_step. Qed.
#[local] Hint Resolve gate_quiet account_quiet finalize_quiet capture_quiet mirror_quiet : gw.

Lemma publish_keeps {T} (f : GwState R C → T) d t r :
  keeps (same f) (finalize t) → keeps (same f) (capture_content g (d_call d) (first_content r)) →
  keeps (same f) (trace_smart_ls g (in_smart (d_intake d)) (d_req d) (d_call d) (first_content r)) →
  keeps (same f) (publish g d t r).
Proof.
  intros Hf Hc Hm. unfold publish. apply keeps_bind; [apply _|done|intros t2].
  apply keeps_bind; [apply _|done|intros _]. intros s. specialize (Hm s). unfold same in *.
  by destruct (trace_smart_ls _ _ _ _ _ _) as [[]].
Qed.

Lemma settle_quiet d e t a : quiet (settle g d e t a).
Proof. unfold settle. repeat keeps_step. apply publish_keeps; eauto with gw nocore. Qed.

(** Runs of at most [n] calls, one run per candidate, in the candidates' order. *)
Inductive bursts (n : nat) : list CatalogEntry → list CatalogEntry → Prop :=
  | bursts_nil : bursts n [] []
  | bursts_cons e cs m l : m ≤ n → bursts n cs l → bursts n (e :: cs) (replicate m e ++ l).

Lemma bursts_none n cs : bursts n cs [].
Proof. induction cs as [|e cs IH]; [constructor|]. apply (bursts_cons n e cs 0); [lia|done]. Qed.

Lemma bursts_skip n e cs l : bursts n cs l → bursts n (e :: cs) l.
Proof. intros H. apply (bursts_cons n e cs 0); [lia|done]. Qed.

Lemma bursts_one n e l : bursts n [e] l ↔ ∃ m, m ≤ n ∧ l = replicate m e.
Proof.
  split.
  - intros H. inversion H as [|? ? m l' Hm Hl]; subst. inversion Hl; subst. exists m. by rewrite app_nil_r.
  - intros (m & Hm & ->). rewrite <- (app_nil_r (replicate m e)). constructor; [done|constructor].
Qed.

Lemma bursts_add n1 n2 e l1 l2 : bursts n1 [e] l1 → bursts n2 [e] l2 → bursts (n1 + n2) [e] (l1 ++ l2).
Proof.
  rewrite !bursts_one. intros (m1 & H1 & ->) (m2 & H2 & ->). exists (m1 + m2).
  split; [lia|]. by rewrite replicate_add.
Qed.

Lemma bursts_app n e cs l1 l2 : bursts n [e] l1 → bursts n cs l2 → bursts n (e :: cs) (l1 ++ l2).
Proof. rewrite bursts_one. intros (m & Hm & ->). by constructor. Qed.

Lemma bursts_elem n cs l e : bursts n cs l → e ∈ l → e ∈ cs.
Proof.
  induction 1 as [|x cs m l _ _ IH]; [done|]. rewrite elem_of_app.
  intros [[-> _]%elem_of_replicate|H]; [left|right; auto].
Qed.

(** Only completions are sent between two states: at most [n] to each of [cs] in turn. *)
Definition sent (n : nat) (cs : list CatalogEntry) (s s' : GwState R C) : Prop :=
  ∃ l, wire_of s' = wire_of s ++ l ∧ (∀ w, w ∈ l → wc_purpose w = Completing) ∧
    bursts n cs (wc_entry <$> l).

Definition sends {A} (n : nat) (cs : list CatalogEntry) (m : M (GwState R C) A) : Prop :=
  ∀ s, sent n cs s (m s).2.

Lemma sent_quiet n cs s s' : same wire_of s s' → sent n cs s s'.
Proof.
  intros H. exists []. rewrite app_nil_r. split; [done|]. split; [by intros w ?%elem_of_nil|apply bursts_none].
Qed.

(** Two stretches of calls, the one after the other. *)
Lemma sent_app n1 cs1 n2 cs2 n cs s1 s2 s3 :
  (∀ l1 l2, bursts n1 cs1 l1 → bursts n2 cs2 l2 → bursts n cs (l1 ++ l2)) →
  sent n1 cs1 s1 s2 → sent n2 cs2 s2 s3 → sent n cs s1 s3.
Proof.
  intros Hb (l1 & H1 & P1 & B1) (l2 & H2 & P2 & B2). exists (l1 ++ l2).
  split; [by rewrite H2, H1, app_assoc|]. split; [intros w [?|?]%elem_of_app; auto|].
  rewrite fmap_app. auto.
Qed.

Lemma sends_quiet {A} n cs (m : M (GwState R C) A) : quiet m → sends n cs m.
Proof. intros H s. apply sent_quiet, H. Qed.

Lemma sends_skip {A} n e cs (m : M (GwState R C) A) : sends n cs m → sends n (e :: cs) m.
Proof. intros H s. destruct (H s) as (l & Hl & Hp & Hb). exists l. auto using bursts_skip. Qed.

Lemma sends_bind {A B} n1 cs1 n2 cs2 n cs (m : M (GwState R C) A) (f : A → M (GwState R C) B) :
  (∀ l1 l2, bursts n1 cs1 l1 → bursts n2 cs2 l2 → bursts n cs (l1 ++ l2)) →
  sends n1 cs1 m → (∀ a, sends n2 cs2 (f a)) → sends n cs (mbind m f).
Proof.
  intros Hb Hm Hf s. unfold mbind. specialize (Hm s). destruct (m s) as [[a|x] s1]; cbn in *.
  - eapply sent_app; [exact Hb|exact Hm|apply Hf].
  - eapply sent_app; [exact Hb|exact Hm|by apply sent_quiet].
Qed.

(** A quiet step in front costs nothing. *)
Lemma sends_after {A B} n cs (m : M (GwState R C) A) (f : A → M (GwState R C) B) :
  quiet m → (∀ a, sends n cs (f a)) → sends n cs (mbind m f).
Proof.
  intros Hm Hf s. unfold mbind. specialize (Hm s). unfold same in Hm.
  destruct (m s) as [[a|x] s1]; cbn in *; [|by apply sent_quiet].
  specialize (Hf a s1). unfold sent in *. by rewrite <- Hm.
Qed.

Lemma attempt_once_sends d e t : sends 1 [e] (attempt_once g d e t).
Proof.
  intros s. unfold attempt_once, call_runner, mbind, reads, modify, mret. cbn.
  match goal with |- sent _ _ _ (settle g d e t ?a ?x).2 => pose proof (settle_quiet d e t a x) as H end.
  unfold same in H. exists [ {| wc_purpose := Completing; wc_entry := e |} ].
  split; [|split].
  - rewrite H. unfold wire_of. by destruct s; cbn; rewrite dispatched_app.
  - by intros w ->%list_elem_of_singleton.
  - apply bursts_one. by exists 1.
Qed.

Lemma attempts_sends d e t first n : sends (S n) [e] (attempts g d e t first n).
Proof.
  revert t first. induction n as [|n IH]; intros t first; cbn [attempts].
  - apply (sends_bind 1 [e] 0 [e]); [apply bursts_add|apply attempt_once_sends|].
    intros [t1 r]. apply sends_quiet. repeat keeps_step.
  - apply (sends_bind 1 [e] (S n) [e]); [apply bursts_add|apply attempt_once_sends|].
    intros [t1 [r|x]]; [by apply sends_quiet; repeat keeps_step|].
    destruct (isinstance _ _); [by apply sends_quiet; repeat keeps_step|].
    apply sends_after; [repeat keeps_step|]. intros _.
    destruct (negb _); [by apply sends_quiet; repeat keeps_step|].
    apply sends_after; [repeat keeps_step|]. intros [].
    + apply IH.
    + apply sends_quiet; repeat keeps_step.
Qed.

Lemma candidates_sends d i first forced cs :
  sends (S (d_retries d)) cs (candidates g d i first forced cs).
Proof.
  revert i first forced. induction cs as [|e cs IH]; intros i first forced; cbn [candidates].
  { apply sends_quiet. repeat keeps_step. }
  apply sends_after; [repeat keeps_step|]. intros t0.
  apply sends_after; [repeat keeps_step|]. intros [].
  - cbn [negb].
    apply (sends_bind (S (d_retries d)) [e] (S (d_retries d)) cs); [apply bursts_app|apply attempts_sends|].
    intros [[t1 f1] [r|x]]; [by apply sends_quiet; repeat keeps_step|].
    apply sends_after; [repeat keeps_step|]. intros _.
    destruct cs as [|e' cs]; [by apply sends_quiet; repeat keeps_step|].
    destruct (_ && _); [apply IH|by apply sends_quiet; repeat keeps_step].
  - cbn [negb]. destruct (resolve_fail_policy _ _); [by apply sends_quiet; repeat keeps_step|].
    apply sends_after; [repeat keeps_step|]. intros _. apply sends_skip, IH.
Qed.

Lemma cache_lookup_quiet i k : quiet (cache_lookup g i k).
Proof. unfold cache_lookup. repeat keeps_step. Qed.

Lemma serve_cached_quiet i k r : quiet (serve_cached g i k r).
Proof. unfold serve_cached. repeat keeps_step. Qed.

Lemma require_all_ok c ids s es s' :
  require_all (R:=R) (C:=C) c ids s = (Ok es, s') →
  s' = s ∧ id <$> es = ids ∧ ∀ e, e ∈ es → catalog_get c (id e) = Some e.
Proof.
  revert es s'. induction ids as [|i ids IH]; intros es s' H; cbn in H.
  { injection H as <- <-. split; [done|]. split; [done|]. by intros e ?%elem_of_nil. }
  destruct (require c i) as [e|u] eqn:He; [|done]. apply require_ok in He.
  apply mbind_ok in H as (es' & s1 & H & [= <- <-]). destruct (IH _ _ H) as (-> & Hids & Hget).
  pose proof (catalog_get_some _ _ _ He) as [_ Hid].
  split; [done|]. split; [by cbn; rewrite Hid, Hids|].
  intros x [->|Hx]%elem_of_cons; [by rewrite Hid|auto].
Qed.

(** Every candidate is the planned entry, or a real entry of its residency class that
    the caller's catalog holds. *)
Definition confined (p : Plan) (k : Call) (e : CatalogEntry) : Prop :=
  e = pn_entry p ∨
  (resilient k = true ∧ or_default (allow_fallback k) (passthrough_fallback g) = true ∧
   lane (pn_entry p) ≠ provider_lane ∧ e ∈ catalog_of g (who k) ∧ id e ≠ id (pn_entry p) ∧
   endpoint e ≠ "fake" ∧ residency_class e = residency_class (pn_entry p)).

Definition planned_in_catalog (p : Plan) (k : Call) : Prop :=
  lane (pn_entry p) = provider_lane ∨
  catalog_get (catalog_of g (who k)) (id (pn_entry p)) = Some (pn_entry p).

Lemma candidate_entries_ok p k s cs s' :
  NoDup (id <$> catalog_of g (who k)) → planned_in_catalog p k →
  candidate_entries g p k s = (Ok cs, s') →
  s' = s ∧ head cs = Some (pn_entry p) ∧ (resilient k = false → cs = [pn_entry p]) ∧
  NoDup (id <$> cs) ∧ ∀ e, e ∈ cs → confined p k e.
Proof.
  intros Hnd Hp. unfold candidate_entries.
  destruct (resilient k && _ && _) eqn:Eb.
  - apply andb_true_iff in Eb as [[Er Ef]%andb_true_iff El]. bool_to_prop.
    intros (es & s1 & (-> & Hids & Hget)%require_all_ok & [= <- <-])%mbind_ok.
    split; [done|]. split; [done|]. split; [congruence|]. split.
    + cbn. rewrite Hids. constructor.
      * intros (? & x & Hg & _ & Hid0 & Hx)%elem_of_fallbacks.
        apply fallback_ok_spec in Hx as [Hne _]. apply catalog_get_some in Hg as [_ Hid']. congruence.
      * by apply fallbacks_nodup.
    + intros e [->|He]%elem_of_cons; [by left|]. right.
      assert (id e ∈ fallbacks (catalog_of g (who k)) (id (pn_entry p)) false) as Hf.
      { rewrite <- Hids. by apply list_elem_of_fmap_2. }
      apply elem_of_fallbacks in Hf as (entry & x & Hentry & Hx & Hid & Hok).
      apply fallback_ok_spec in Hok as (Hne & Hfk & Hres & _).
      assert (x = e) as ->.
      { specialize (Hget e He). rewrite <- Hid in Hget. rewrite catalog_get_nodup in Hget by done. congruence. }
      destruct Hp as [|Hp]; [done|]. rewrite Hp in Hentry. injection Hentry as <-. done.
  - intros [= <- <-]. split; [done|]. split; [done|]. split; [done|]. split.
    + apply NoDup_singleton.
    + intros e ->%list_elem_of_singleton. by left.
Qed.

Lemma plan_in_catalog req k label constraint s p s' :
  plan g req k label constraint s = (Ok p, s') → planned_in_catalog p k.
Proof.
  intros H. destruct (plan_ok g _ _ _ _ _ _ _ H) as (pol & v & _ & _ & _ & _ & _ & _ & _ & _ & _ & Hr & _).
  unfold planned_in_catalog. unfold resolve_candidate in Hr. destruct (catalog_get _ _) as [b|] eqn:Eb.
  - injection Hr as <-. pose proof (catalog_get_some _ _ _ Eb) as [_ Hid]. right. by rewrite Hid.
  - destruct (by_route _ _) as [|c0 routes]; [done|]. destruct (effective_scope _ _); [|done].
    apply fmap_Some in Hr as (rc & _ & ->). by left.
Qed.

Lemma plan_or_refuse_ok i k strm s p s' :
  plan_or_refuse g i k strm s = (Ok p, s') →
  plan g (in_req i) k (in_label i) (in_constraint i) s = (Ok p, s').
Proof.
  unfold plan_or_refuse. destruct (plan g _ _ _ _ s) as [[p'|[]] s1]; try done;
    by intros (? & ? & _ & ?)%mbind_ok.
Qed.

(** The attempts one candidate may get. *)
Definition max_attempts (k : Call) : nat := if resilient k then S (retries g) else 1.

(** What was sent between two states: completions only, to distinct permitted candidates the
    first of which is the planned entry, to each of them in turn and at most [max_attempts]
    times; to the planned entry alone for a caller that owns its own retries. *)
Definition confined_calls (p : Plan) (k : Call) (s s' : GwState R C) : Prop :=
  ∃ l cs, wire_of s' = wire_of s ++ l ∧ (∀ w, w ∈ l → wc_purpose w = Completing) ∧
    bursts (max_attempts k) cs (wc_entry <$> l) ∧
    head cs = Some (pn_entry p) ∧ NoDup (id <$> cs) ∧
    (resilient k = false → cs = [pn_entry p]) ∧
    ∀ e, e ∈ cs → confined p k e.

Lemma dispatch_confined d cs k p s1 s2 :
  k = d_call d → d_retries d = (if resilient k then retries g else 0) →
  NoDup (id <$> catalog_of g (who k)) → planned_in_catalog p k →
  candidate_entries g p k s1 = (Ok cs, s2) →
  ∀ i first forced, confined_calls p k s1 (candidates g d i first forced cs s2).2.
Proof.
  intros -> Hr Hnd Hp Hc i first forced.
  destruct (candidate_entries_ok _ _ _ _ _ Hnd Hp Hc) as (-> & Hhead & Hone & Hids & Hconf).
  destruct (candidates_sends d i first forced cs s1) as (l & Hl & Hpur & Hb).
  exists l, cs. repeat (split; [done|]). split; [|done].
  unfold max_attempts. rewrite Hr in Hb. by destruct (resilient (d_call d)).
Qed.

(** C1: Where a request can go, and how often: whatever the providers answer, a request
    that is not planned sends no completion at all, and one that is planned sends them
    only to distinct candidates, one after the other and never back to an earlier one: first
    its planned entry and then, when fallback is on for it, real entries of the same residency
    class in the caller's catalog — at most [retries + 1] to each single candidate, and one
    in all for a caller that owns its own retries.  (The ids of the caller's catalog are
    distinct.) *)
Theorem wire_calls_confined req k s r s' :
  NoDup (id <$> catalog_of g (who k)) → complete g req k s = (r, s') →
  wire_of s' = wire_of s ∨
  ∃ i s1 p s2 s3, intake g req k false s = (Ok i, s1) ∧
    plan g (in_req i) k (in_label i) (in_constraint i) s2 = (Ok p, s3) ∧
    confined_calls p k s s'.
Proof.
  intros Hnd. unfold complete, mbind.
  pose proof (intake_served g req k false s) as Hi.
  assert (∀ x y : GwState R C, same served x y → same wire_of x y) as Hs by (by intros x y [=]).
  apply Hs in Hi. destruct (intake g req k false s) as [[i|x] s1]; cbn in Hi; [|intros [= _ <-]; by left].
  pose proof (cache_lookup_quiet i k s1) as Hc.
  destruct (cache_lookup g i k s1) as [[[hit|]|x] s2]; cbn in Hc.
  - pose proof (serve_cached_quiet i k hit s2) as Hv. intros H. rewrite H in Hv. cbn in Hv.
    left. unfold same in *. congruence.
  - pose proof (plan_or_refuse_served g i k false s2) as Hp. apply Hs in Hp.
    destruct (plan_or_refuse g i k false s2) as [[p|x] s3] eqn:Ep; cbn in Hp;
      [|intros [= _ <-]; left; unfold same in *; congruence].
    apply plan_or_refuse_ok in Ep as Ep'. pose proof (plan_in_catalog _ _ _ _ _ _ _ Ep') as Hcat.
    destruct (candidate_entries g p k s3) as [[cs|x] s4] eqn:Ec.
    + intros H. right. exists i, s1, p, s2, s3. split; [done|]. split; [done|].
      match goal with H : candidates g ?d _ _ _ _ _ = _ |- _ =>
        pose proof (dispatch_confined d cs k p s3 s4 eq_refl eq_refl Hnd Hcat Ec 0 None false) as (l & cs' & Hl & Hrest)
      end.
      rewrite H in Hl. cbn in Hl. exists l, cs'. split; [|done]. unfold same in *. congruence.
    + intros [= _ <-]. left. revert Ec. unfold candidate_entries.
      destruct (_ && _ && _); [|done]. intros [H|(? & ? & _ & [=])]%mbind_err.
      assert (∀ c ids (s0 : GwState R C) x s', require_all c ids s0 = (Err x, s') → s' = s0) as Hreq.
      { clear. intros c ids. induction ids as [|j ids IH]; intros s0 x s'; cbn; [done|].
        destruct (require c j); [|by intros [= _ ->]]. intros [?|(? & ? & _ & [=])]%mbind_err. by eapply IH. }
      apply Hreq in H as ->. unfold same in *. congruence.
  - intros [= _ <-]. left. unfold same in *. congruence.
Qed.
End wire.

(** ** What is stored of a request *)

Section stores.
Context {R X C : Type} `{!RedisClient R X} `{!ResponseCache C} (g : Gateway).
Implicit Types (s : GwState R C) (d : Dispatch) (k : Call) (t : TraceRecord).

(** A projection only [put_cache] and [add_payload] reach. *)
Class Store {T} (f : GwState R C → T) : Prop := {
  store_aloof :: Aloof f;
  store_breaker x s : f (put_breaker x s) = f s;
  store_trace x s : f (add_trace x s) = f s;
  store_wire x s : f (add_wire x s) = f s;
  store_span x s : f (add_span x s) = f s;
  store_chunks x s : f (add_chunks x s) = f s;
}.

#[local] Instance cache_store : Store gw_cache.
Proof. split; [split|..]; intros; by destruct s. Qed.

#[local] Instance payload_store : Store gw_payloads.
Proof. split; [split|..]; intros; by destruct s. Qed.

Section store.
Context {T : Type} (f : GwState R C → T) `{Hf : !Store f}.
Notation still := (keeps (same f)).

#[local] Hint Resolve store_aloof : gw.
#[local] Hint Resolve now_keeps resolve_keeps resolve_smart_keeps resolve_data_policy_keeps plan_keeps : gw.
#[local] Hint Extern 1 (keeps (same f) (modify _)) =>
  apply keeps_modify; intros ?; first [apply aloof_smart|apply aloof_redis|apply aloof_enforcer
    |apply store_breaker|apply store_trace|apply store_wire|apply store_span|apply store_chunks] : gw.

Lemma finalize_still t : still (finalize t).
Proof using Hf. unfold finalize. repeat keeps_step. Qed.
#[local] Hint Resolve finalize_still : gw.

Lemma refused_still k strm e fn : still (refused_trace g k strm e fn).
Proof using Hf. unfold refused_trace. repeat keeps_step. Qed.
#[local] Hint Resolve refused_still : gw.

Lemma apply_budget_still req k strm : still (apply_budget g req k strm).
Proof using Hf.
  unfold apply_budget. apply keeps_bind; [apply _|apply keeps_reads, _|intros [e|]]; [|apply keeps_ret, _].
  apply keeps_bind; [apply _|apply now_keeps, _|intros tm]. destruct (decide_budget _ _ _ _ _ _ _ _) as [d e'].
  repeat keeps_step.
Qed.
#[local] Hint Resolve apply_budget_still : gw.

Lemma intake_still req k strm : still (intake g req k strm).
Proof using Hf. unfold intake, degraded_trace, data_denied_trace. repeat keeps_step. Qed.

Lemma plan_or_refuse_still i k strm : still (plan_or_refuse g i k strm).
Proof using Hf.
  intros s. unfold plan_or_refuse.
  pose proof (plan_keeps g f (in_req i) k (in_label i) (in_constraint i) s) as Hp.
  destruct (plan g (in_req i) k (in_label i) (in_constraint i) s) as [[p|e] s1]; cbn in Hp; [done|].
  assert (∀ (m : M (GwState R C) Plan), still m → same f s (m s1).2) as Hk.
  { intros m Hm. etrans; [exact Hp|apply Hm]. }
  destruct e; try exact Hp; apply Hk; unfold blocked_trace, denied_trace, ineligible_trace;
    repeat keeps_step.
Qed.

Lemma breaker_still key :
  still (breaker_allow g key) ∧ still (breaker_success key) ∧ still (breaker_failure g key) ∧
  ∀ k, still (gate g k key).
Proof using Hf.
  assert (still (breaker_allow g key)) by (unfold breaker_allow; repeat keeps_step).
  split; [done|]. split; [|split; [|intros k]]; unfold breaker_success, breaker_failure, gate, emit_span;
    repeat keeps_step.
Qed.

Lemma account_still t e u est : still (account g t e u est).
Proof using Hf. unfold account. repeat keeps_step. Qed.

Lemma require_all_still c ids : still (require_all c ids).
Proof using Hf. induction ids; cbn; repeat keeps_step. Qed.

(** The candidate loop stores what its attempts store. *)
Lemma candidates_still d i first forced cs :
  (∀ e t a, still (settle g d e t a)) → still (candidates g d i first forced cs).
Proof using Hf.
  intros Hs.
  assert (∀ key, still (breaker_allow g key)) by apply breaker_still.
  assert (∀ key, still (breaker_failure g key)) by apply breaker_still.
  assert (∀ k key, still (gate g k key)) by (intros; apply breaker_still).
  assert (∀ e t first n, still (attempts g d e t first n)) as Ha.
  { intros e t f0 n. revert t f0.
    induction n; intros t f0; cbn [attempts]; unfold attempt_once, call_runner; repeat keeps_step. }
  revert i first forced. induction cs as [|e cs IH]; intros i first forced; cbn [candidates];
    [repeat keeps_step|].
  apply keeps_bind; [apply _|repeat keeps_step|intros t0].
  apply keeps_bind; [apply _|repeat keeps_step|intros []]; cbn [negb]; [|repeat keeps_step].
  apply keeps_bind; [apply _|apply Ha|intros [[t1 f1] [r|x]]]; [repeat keeps_step|].
  apply keeps_bind; [apply _|repeat keeps_step|intros _].
  destruct cs as [|e' cs]; [repeat keeps_step|]. destruct (_ && _); [apply IH|repeat keeps_step].
Qed.
End store.

#[local] Hint Resolve store_aloof cache_store payload_store : gw.
#[local] Hint Resolve now_keeps resolve_keeps finalize_still intake_still plan_or_refuse_still
  account_still require_all_still : gw.

Lemma capture_cache k a : keeps (same (@gw_cache R C)) (capture_content g k a).
Proof. unfold capture_content. repeat keeps_step. apply keeps_modify. by intros []. Qed.

Lemma mirror_cache sm req k a : keeps (same (@gw_cache R C)) (trace_smart_ls g sm req k a).
Proof. unfold trace_smart_ls. repeat keeps_step. apply keeps_modify. by intros []. Qed.

Lemma capture_payloads k a :
  zero_retention (who k) = true → keeps (same (@gw_payloads R C)) (capture_content g k a).
Proof. intros H. unfold capture_content. rewrite H. cbn [orb]. repeat keeps_step. Qed.

Lemma mirror_payloads sm req k a :
  zero_retention (who k) = true → keeps (same (@gw_payloads R C)) (trace_smart_ls g sm req k a).
Proof. intros H. unfold trace_smart_ls. rewrite H. cbn [orb]. repeat keeps_step. Qed.
#[local] Hint Resolve capture_cache mirror_cache capture_payloads mirror_payloads : gw.

Lemma settle_payloads d e t a :
  zero_retention (who (d_call d)) = true → keeps (same (@gw_payloads R C)) (settle g d e t a).
Proof.
  intros Hz. unfold settle. destruct a as [r|x]; [|repeat keeps_step].
  destruct (usage_or_estimate _ _) as [[u est]|x]; [|repeat keeps_step].
  apply keeps_bind; [apply _|apply account_still, _|intros t'].
  apply keeps_bind; [apply _|destruct (resilient _); [apply breaker_still, _|repeat keeps_step]|intros _].
  apply keeps_bind; [apply _|repeat keeps_step|intros c].
  destruct (if _ || _ then _ else _); [|repeat keeps_step].
  apply keeps_bind; [apply _|apply keeps_modify; by intros []|intros _].
  apply publish_keeps; [apply finalize_still, _|by apply capture_payloads|by apply mirror_payloads].
Qed.

Lemma settle_cache d e t a :
  d_no_store d = true → keeps (same (@gw_cache R C)) (settle g d e t a).
Proof.
  intros Hn. unfold settle. rewrite Hn. cbn [orb]. destruct a as [r|x]; [|repeat keeps_step].
  destruct (usage_or_estimate _ _) as [[u est]|x]; [|repeat keeps_step].
  apply keeps_bind; [apply _|apply account_still, _|intros t'].
  apply keeps_bind; [apply _|destruct (resilient _); [apply breaker_still, _|repeat keeps_step]|intros _].
  intros s. etrans; [|apply publish_keeps; [apply finalize_still, _|apply capture_cache|apply mirror_cache]].
  by destruct s.
Qed.

Lemma complete_still {T} (f : GwState R C → T) `{!Store f} req k :
  (∀ i, keeps (same f) (cache_lookup g i k)) → (∀ i r, keeps (same f) (serve_cached g i k r)) →
  (∀ d, d_call d = k → d_no_store d = no_store k → ∀ e t a, keeps (same f) (settle g d e t a)) →
  keeps (same f) (complete g req k).
Proof.
  intros Hl Hv Hs. unfold complete, candidate_entries.
  apply keeps_bind; [apply _|apply intake_still, _|intros i].
  apply keeps_bind; [apply _|apply Hl|intros [r|]]; [apply Hv|].
  apply keeps_bind; [apply _|apply plan_or_refuse_still, _|intros p].
  apply keeps_bind; [apply _|destruct (_ && _ && _); repeat keeps_step; by apply require_all_still|intros cs].
  apply candidates_still; [done|]. by apply Hs.
Qed.

Lemma read_stream_still {T} (f : GwState R C → T) `{!Store f} req e w leaves left :
  keeps (same f) (read_stream g req e w leaves left).
Proof.
  induction left as [|left IH]; cbn [read_stream];
    (apply keeps_bind; [apply _|repeat keeps_step|intros n]);
    (apply keeps_bind; [apply _|apply keeps_modify; intros; apply store_wire|intros _]);
    destruct (open_stream g n req e) as [cs x];
    (apply keeps_bind; [apply _|apply keeps_modify; intros; apply store_chunks|intros _]);
    repeat keeps_step; apply IH.
Qed.

Lemma stream_still {T} (f : GwState R C → T) `{!Store f} req k leaves :
  (∀ a, keeps (same f) (capture_content g k a)) →
  (∀ sm rq a, keeps (same f) (trace_smart_ls g sm rq k a)) →
  keeps (same f) (stream_request g req k leaves).
Proof.
  intros Hc Hm. unfold stream_request, stream_planned, stream_close.
  apply keeps_bind; [apply _|apply intake_still, _|intros i].
  apply keeps_bind; [apply _|apply plan_or_refuse_still, _|intros p].
  apply keeps_bind; [apply _|repeat keeps_step|intros t].
  apply keeps_bind; [apply _|apply read_stream_still, _|intros co].
  destruct (stream_outcome g (co_end co)) as [st failure].
  apply keeps_bind; [apply _|repeat keeps_step|intros ue].
  apply keeps_bind; [apply _|apply account_still, _|intros t1].
  apply keeps_bind; [apply _|apply finalize_still, _|intros t2].
  apply keeps_bind; [apply _|apply Hc|intros _]. apply keeps_bind; [apply _|apply Hm|intros _].
  repeat keeps_step.
Qed.

(** C20: BYOK requests never touch the shared cache, and a zero-retention
    organization leaves nothing durable: not in the cache, not in the content table, not
    in the telemetry mirror — whatever the request is, whoever answers it, streamed or
    not. *)
Theorem nothing_stored req k s r s' :
  byok_envs k ≠ [] ∨ zero_retention (who k) = true →
  complete g req k s = (r, s') ∨ (∃ leaves r', stream_request g req k leaves s = (r', s')) →
  gw_cache s' = gw_cache s ∧
  (zero_retention (who k) = true → gw_payloads s' = gw_payloads s).
Proof.
  intros Hor [H|(leaves & r' & H)].
  2:{ split; [|intros Hz].
      - enough (keeps (same (@gw_cache R C)) (stream_request g req k leaves)) as Hk
          by (specialize (Hk s); by rewrite H in Hk).
        apply stream_still; [apply _|apply capture_cache|intros; apply mirror_cache].
      - enough (keeps (same (@gw_payloads R C)) (stream_request g req k leaves)) as Hk
          by (specialize (Hk s); by rewrite H in Hk).
        apply stream_still; [apply _|intros; by apply capture_payloads|intros; by apply mirror_payloads]. }
  assert (no_store k = true) as Hn.
  { unfold no_store. by destruct (byok_envs k), Hor. }
  assert (∀ i, cache_lookup g i k = (mret None : M (GwState R C) _)) as Hl.
  { intros i. unfold cache_lookup. by rewrite Hn. }
  split.
  - enough (keeps (same (@gw_cache R C)) (complete g req k)) as Hk by (specialize (Hk s); by rewrite H in Hk).
    apply complete_still; [apply _|intros i; rewrite Hl; repeat keeps_step| |].
    + intros i r0. unfold serve_cached. repeat keeps_step.
    + intros d _ Hd e t a. apply settle_cache. by rewrite Hd.
  - intros Hz.
    enough (keeps (same (@gw_payloads R C)) (complete g req k)) as Hk by (specialize (Hk s); by rewrite H in Hk).
    apply complete_still; [apply _|intros i; rewrite Hl; repeat keeps_step| |].
    + intros i r0. unfold serve_cached. repeat keeps_step.
    + intros d Hd _ e t a. apply settle_payloads. by rewrite Hd.
Qed.
End stores.

(** ** What a served request returns *)

Section answered.
Context {R X C : Type} `{!RedisClient R X} `{!ResponseCache C} (g : Gateway).
Implicit Types (s : GwState R C) (d : Dispatch) (k : Call) (t : TraceRecord).

#[local] Hint Extern 1 (keeps (same _) (modify _)) => apply keeps_modify; by intros [] : gw.

Lemma capture_rows k a : keeps (same (@gw_traces R C)) (capture_content g k a).
Proof. unfold capture_content. repeat keeps_step. Qed.

Lemma mirror_rows sm req k a : keeps (same (@gw_traces R C)) (trace_smart_ls g sm req k a).
Proof. unfold trace_smart_ls. repeat keeps_step. Qed.

Lemma publish_ok d t r s t' r' s' :
  publish g d t r s = (Ok (t', Ok r'), s') →
  t' = finish t ∧ r' = r ∧ gw_traces s' = gw_traces s ++ [finish t].
Proof.
  unfold publish, finalize. intros (t1 & s1 & (u & s2 & [= _ <-] & [= <- <-])%mbind_ok & H)%mbind_ok.
  apply mbind_ok in H as (u' & s3 & Hc & H).
  pose proof (capture_rows (d_call d) (first_content r) (add_trace (finish t) s)) as H1.
  pose proof (mirror_rows (in_smart (d_intake d)) (d_req d) (d_call d) (first_content r) s3) as H2.
  rewrite Hc in H1. destruct (trace_smart_ls _ _ _ _ _ s3) as [[]]; [|done]. injection H as <- <- <-.
  split; [done|]. split; [done|]. unfold same in *. cbn in *. rewrite H2, H1. by destruct s.
Qed.

(** The record of a served attempt: its status, its model, and its cost. *)
Definition accounted (e : CatalogEntry) (t : TraceRecord) (u : Usage) (est : bool) (t' : TraceRecord) : Prop :=
  t_origin t' = t_origin t ∧ t_stamp t' = t_stamp t ∧ t_status t' = "ok" ∧ t_error t' = t_error t ∧
  t_ledger t' = {| l_prompt := prompt_tokens u; l_completion := completion_tokens u;
                   l_cached := tokens_cached u; l_cache_write := tokens_cache_write u;
                   l_cost := compute_cost_usd e u; l_estimated := est; l_baseline := baseline g u |}.

Lemma settle_ok d e t a s t' r s' :
  settle g d e t a s = (Ok (t', Ok r), s') →
  ∃ resp u est, a = Ok resp ∧ usage_or_estimate (d_req d) resp = Ok (u, est) ∧
    r = (if est then with_usage resp u else resp) ∧ accounted e t u est t' ∧
    last (gw_traces s') = Some t'.
Proof.
  unfold settle. destruct a as [resp|x]; [|done].
  destruct (usage_or_estimate (d_req d) resp) as [[u est]|x] eqn:Eu; [|done].
  unfold account. intros (t1 & s1 & Ha & (u1 & s2 & _ & (c & s3 & [= <- <-] & H)%mbind_ok)%mbind_ok)%mbind_ok.
  apply mbind_ok in Ha as (tm & sa & _ & (u2 & sb & _ & [= <- _])%mbind_ok).
  destruct (if _ || _ then _ else _); [|done].
  apply mbind_ok in H as (u3 & s4 & _ & (-> & -> & Hrows)%publish_ok).
  exists resp, u, est. split; [done|]. split; [done|]. split; [done|]. split; [by repeat split|].
  by rewrite Hrows, last_snoc.
Qed.

(** What a failed attempt leaves of the record it was given. *)
Definition same_head (t t' : TraceRecord) : Prop :=
  t_origin t' = t_origin t ∧ t_stamp t' = t_stamp t ∧ t_error t' = t_error t.

Lemma settle_err d e t a s t' x s' :
  settle g d e t a s = (Ok (t', Err x), s') → same_head t t'.
Proof.
  unfold settle. destruct a as [resp|y]; [|by intros [= <- _ _]].
  destruct (usage_or_estimate (d_req d) resp) as [[u est]|y]; [|by intros [= <- _ _]].
  unfold account. intros (t1 & s1 & Ha & (u1 & s2 & _ & (c & s3 & [= <- <-] & H)%mbind_ok)%mbind_ok)%mbind_ok.
  apply mbind_ok in Ha as (tm & sa & _ & (u2 & sb & _ & [= <- _])%mbind_ok).
  destruct (if _ || _ then _ else _); [|by injection H as <- _ _].
  apply mbind_ok in H as (u3 & s4 & _ & H). unfold publish in H.
  apply mbind_ok in H as (t2 & s5 & (u4 & s6 & _ & [= <- _])%mbind_ok & H).
  apply mbind_ok in H as (u5 & s7 & _ & H).
  destruct (trace_smart_ls _ _ _ _ _ s7) as [[]]; [done|]. by injection H as <- _ _.
Qed.

Lemma attempt_once_cases d e t s t' r s' :
  attempt_once g d e t s = (Ok (t', r), s') →
  match r with
  | Ok r => ∃ m resp u est, chat g m (candidate_req d e) e = Ok resp ∧
      usage_or_estimate (d_req d) resp = Ok (u, est) ∧
      r = (if est then with_usage resp u else resp) ∧ accounted e t u est t' ∧
      last (gw_traces s') = Some t'
  | Err _ => same_head t t'
  end.
Proof.
  unfold attempt_once, call_runner.
  intros (a & sa & (m & sb & _ & (u0 & sc & _ & [= <- _])%mbind_ok)%mbind_ok & H)%mbind_ok.
  destruct r as [r|x]; [|by eapply settle_err].
  apply settle_ok in H as (resp & u & est & Ha & H). by exists m, resp, u, est.
Qed.

Lemma attempts_ok d e t first n s t' f r s' :
  attempts g d e t first n s = (Ok (t', f, Ok r), s') →
  ∃ m resp u est, chat g m (candidate_req d e) e = Ok resp ∧
    usage_or_estimate (d_req d) resp = Ok (u, est) ∧
    r = (if est then with_usage resp u else resp) ∧ accounted e t u est t' ∧
    last (gw_traces s') = Some t'.
Proof.
  revert t first s. induction n as [|n IH]; intros t first s; cbn [attempts];
    intros ([t1 [r1|x]] & s1 & H1%attempt_once_cases & H)%mbind_ok.
  1,3: injection H as <- _ <- <-; exact H1.
  - destruct (isinstance _ _); [done|]. by apply mbind_ok in H as (? & ? & _ & ?).
  - destruct (isinstance _ _); [done|]. apply mbind_ok in H as (u0 & s2 & _ & H).
    destruct (negb _); [done|]. apply mbind_ok in H as ([] & s3 & _ & H); [|done].
    apply IH in H as (m & resp & u & est & Hc & Hu & Hr & (Ho & Hs & Hst & He & Hl) & Hrows).
    destruct H1 as (Ho1 & Hs1 & He1). exists m, resp, u, est. do 3 (split; [done|]).
    split; [|done]. repeat split; congruence.
Qed.

(** A result of the candidate loop. *)
Lemma candidates_ok d i first forced cs s r s' :
  candidates g d i first forced cs s = (Ok r, s') →
  ∃ e j fst frc t0 m resp u est, e ∈ cs ∧ begin_trace g (d_call d) false (in_key (d_intake d)) e = Ok t0 ∧
    chat g m (candidate_req d e) e = Ok resp ∧
    usage_or_estimate (d_req d) resp = Ok (u, est) ∧
    gr_response r = (if est then with_usage resp u else resp) ∧
    accounted e (candidate_trace g d e j fst frc t0) u est (gr_trace r) ∧
    last (gw_traces s') = Some (gr_trace r).
Proof.
  revert i first forced s. induction cs as [|e cs IH]; intros i first forced s; cbn [candidates]; [done|].
  intros (t0 & s1 & [Ht ->]%lift_ok & (ok & s2 & _ & H)%mbind_ok)%mbind_ok.
  assert (∀ i first forced s, candidates g d i first forced cs s = (Ok r, s') →
    ∃ e0 j fst frc t0 m resp u est, e0 ∈ e :: cs ∧
      begin_trace g (d_call d) false (in_key (d_intake d)) e0 = Ok t0 ∧
      chat g m (candidate_req d e0) e0 = Ok resp ∧
      usage_or_estimate (d_req d) resp = Ok (u, est) ∧
      gr_response r = (if est then with_usage resp u else resp) ∧
      accounted e0 (candidate_trace g d e0 j fst frc t0) u est (gr_trace r) ∧
      last (gw_traces s') = Some (gr_trace r)) as IH'.
  { intros i' f' c' s0 (e0 & j & fst & frc & t1 & m & resp & u & est & He & Hrest)%IH.
    exists e0, j, fst, frc, t1, m, resp, u, est. split; [by right|done]. }
  destruct ok; cbn [negb] in H.
  - apply mbind_ok in H as ([[t1 f1] [r1|x]] & s3 & H1 & H).
    + injection H as <- <-. apply attempts_ok in H1 as (m & resp & u & est & H1).
      exists e, i, first, forced, t0, m, resp, u, est. split; [left|]. split; [done|]. done.
    + apply mbind_ok in H as (t2 & s4 & _ & H). destruct cs as [|e' cs']; [done|].
      destruct (_ && _); [by eapply IH'|done].
  - destruct (resolve_fail_policy _ _); apply mbind_ok in H as (t2 & s4 & _ & H); [done|by eapply IH'].
Qed.

(** Stamping changes neither the origin, nor the error, nor the cache mark. *)
Definition stamped (t t' : TraceRecord) : Prop :=
  t_origin t' = t_origin t ∧ t_error t' = t_error t ∧
  s_cache_hit (t_stamp t') = s_cache_hit (t_stamp t).

Lemma stamped_trans t1 t2 t3 : stamped t1 t2 → stamped t2 t3 → stamped t1 t3.
Proof. unfold stamped. intuition congruence. Qed.

Lemma stamped_set t :
  (∀ x, stamped t (set_reason x t)) ∧ (∀ x, stamped t (set_guard x t)) ∧
  (∀ x, stamped t (set_data_label x t)) ∧ (∀ x y, stamped t (set_signal x y t)) ∧
  (∀ x, stamped t (set_trajectory x t)) ∧ (∀ x, stamped t (set_metadata x t)) ∧
  (∀ x, stamped t (set_degraded x t)) ∧ (∀ x, stamped t (set_budget x t)) ∧
  (∀ x, stamped t (set_classify_ms x t)).
Proof. destruct t as [o l [] st err lab]. by repeat split. Qed.

Lemma candidate_trace_head d e i first forced t : stamped t (candidate_trace g d e i first forced t).
Proof.
  unfold candidate_trace, stamp_decision.
  destruct (extract_trajectory _), (in_smart _), i;
    repeat (eapply stamped_trans; [|apply stamped_set]); done.
Qed.

Lemma begin_trace_ok k strm key e t :
  begin_trace g k strm key e = Ok t →
  o_model (t_origin t) = id e ∧ o_residency (t_origin t) = residency_class e ∧
  o_request_id (t_origin t) = request_id k ∧ o_org (t_origin t) = org_id (who k) ∧
  t_error t = None ∧ t_stamp t = no_stamp.
Proof. unfold begin_trace. by intros (u & _ & [= <-])%res_bind_ok. Qed.

Lemma serve_cached_ok i k resp s r s' :
  serve_cached g i k resp s = (Ok r, s') →
  gr_response r = resp ∧ last (gw_traces s') = Some (gr_trace r) ∧ t_status (gr_trace r) = "ok" ∧
  s_cache_hit (t_stamp (gr_trace r)) = true ∧ l_cost (t_ledger (gr_trace r)) = 0%Q ∧
  o_request_id (t_origin (gr_trace r)) = request_id k ∧ o_org (t_origin (gr_trace r)) = org_id (who k).
Proof.
  unfold serve_cached. intros (e & s1 & _ & (t & s2 & [Ht ->]%lift_ok & H)%mbind_ok)%mbind_ok.
  apply begin_trace_ok in Ht as (_ & _ & Hid & Horg & _ & Hst).
  apply mbind_ok in H as (t1 & s3 & (u & s4 & [= _ <-] & [= <- <-])%mbind_ok & H).
  apply mbind_ok in H as (u1 & s5 & Hc & H). apply mbind_ok in H as (u2 & s6 & Hm & [= <- <-]).
  pose proof (capture_rows k (first_content resp)) as H1.
  pose proof (mirror_rows (in_smart i) (in_req i) k (first_content resp) s5) as H2.
  rewrite Hm in H2. match type of Hc with _ ?x = _ => specialize (H1 x) end. rewrite Hc in H1.
  unfold same in *. cbn [snd] in *. cbn [gr_response gr_trace].
  destruct t as [o l st status err lab]. cbn in Hst. subst st.
  split; [done|]. split; [|by repeat split].
  rewrite H2, H1, traces_add_trace. by rewrite last_snoc.
Qed.

(** C3: Every answer comes with an honest record: it is the last row written, its status
    is ok, it names the caller's organization; a cached answer is marked as such, costs
    nothing and sends nothing; any other names the model that really answered — the
    planned one or a fallback of its residency class — and is charged that model's price
    for the usage the response carries. *)
Theorem served_honestly req k s r s' :
  NoDup (id <$> catalog_of g (who k)) → complete g req k s = (Ok r, s') →
  let t := gr_trace r in
  last (gw_traces s') = Some t ∧ t_status t = "ok" ∧ o_request_id (t_origin t) = request_id k ∧
  o_org (t_origin t) = org_id (who k) ∧
  ((s_cache_hit (t_stamp t) = true ∧ l_cost (t_ledger t) = 0%Q ∧ no_store k = false ∧
    wire_of s' = wire_of s) ∨
   (s_cache_hit (t_stamp t) = false ∧ t_error t = None ∧
    ∃ i p s1 s2 e m rq resp, plan g (in_req i) k (in_label i) (in_constraint i) s1 = (Ok p, s2) ∧
      confined g p k e ∧ chat g m rq e = Ok resp ∧ model rq = id e ∧
      choices (gr_response r) = choices resp ∧
      o_model (t_origin t) = id e ∧ o_residency (t_origin t) = residency_class (pn_entry p) ∧
      l_cost (t_ledger t) = compute_cost_usd e (usage (gr_response r)))).
Proof.
  intros Hnd H. unfold complete in H. apply mbind_ok in H as (i & s1 & Hi & H).
  pose proof (intake_served g req k false s) as Hw1. rewrite Hi in Hw1.
  apply mbind_ok in H as (hit & s2 & Hhit & H).
  pose proof (cache_lookup_quiet g i k s1) as Hw2. rewrite Hhit in Hw2.
  destruct hit as [resp|].
  - pose proof (serve_cached_quiet g i k resp s2) as Hw3. rewrite H in Hw3.
    apply serve_cached_ok in H as (_ & Hl & Hst & Hc & Hcost & Hid & Horg).
    cbn zeta. do 4 (split; [done|]). left. split; [done|]. split; [done|]. split.
    + revert Hhit. unfold cache_lookup. by destruct (no_store k).
    + unfold same, served in *. cbn in *. injection Hw1 as Hw1 _ _ _ _ _. unfold wire_of in *. congruence.
  - apply mbind_ok in H as (p & s3 & Hp%plan_or_refuse_ok & (cs & s4 & Hcs & H)%mbind_ok).
    pose proof (plan_in_catalog _ _ _ _ _ _ _ _ Hp) as Hcat.
    destruct (candidate_entries_ok g _ _ _ _ _ Hnd Hcat Hcs) as (_ & _ & _ & _ & Hconf).
    apply candidates_ok in H as (e & j & fst & frc & t0 & m & resp & u & est & He & Ht & Hchat & Hu & Hr & Ha & Hl).
    apply begin_trace_ok in Ht as (Hm & Hres & Hid & Horg & Herr & Hst).
    destruct (candidate_trace_head {| d_call := k; d_intake := i; d_plan := p;
      d_retries := if resilient k then retries g else 0; d_fail_policy := fail_policy_of g (who k);
      d_no_store := no_store k |} e j fst frc t0) as (Ho & Hte & Hch).
    destruct Ha as (Hao & Has & Haok & Hae & Hal). cbn zeta.
    split; [done|]. split; [done|]. split; [by rewrite Hao, Ho|]. split; [by rewrite Hao, Ho|].
    right. split; [by rewrite Has, Hch, Hst|]. split; [by rewrite Hae, Hte|].
    exists i, p, s2, s3, e, m. eexists _, resp. split; [done|]. split; [by apply Hconf|].
    split; [exact Hchat|]. split; [unfold candidate_req; case_bool_decide; [by symmetry|done]|].
    assert (residency_class e = residency_class (pn_entry p)) as Hre.
    { destruct (Hconf e He) as [->|(_ & _ & _ & _ & _ & _ & ?)]; done. }
    split; [rewrite Hr; by destruct est|]. split; [by rewrite Hao, Ho|].
    split; [by rewrite Hao, Ho, Hres|]. rewrite Hal. cbn. f_equal. rewrite Hr.
    revert Hu. unfold usage_or_estimate. destruct (total_tokens (usage resp) =? 0)%Z.
    + by intros (z & _ & [= <- <-])%res_bind_ok.
    + by intros [= <- <-].
Qed.
End answered.

(** ** Refusals *)

Section refusals.
Context {R X C : Type} `{!RedisClient R X} `{!ResponseCache C} (g : Gateway).
Implicit Types (s : GwState R C) (d : Dispatch) (k : Call) (t : TraceRecord).

(** The errors by which the gateway itself refuses a request. *)
Definition policy_refusal (x : GwError) : bool :=
  match x with
  | EBlocked _ | ENotPermitted _ _ | EIneligible _ _ | EDataDenied _ | EBudget _ => true
  | EDegraded why => negb (why ≡? "breaker_open")
  | _ => false
  end.

(** A computation that never refuses. *)
Definition neutral {A} (m : M (GwState R C) A) : Prop :=
  ∀ s x s', m s = (Err x, s') → policy_refusal x = false.

Lemma neutral_ret {A} (a : A) : neutral (mret a).
Proof. by intros s x s'. Qed.
Lemma neutral_reads {A} (f : GwState R C → A) : neutral (reads f).
Proof. by intros s x s'. Qed.
Lemma neutral_modify f : neutral (modify f).
Proof. by intros s x s'. Qed.
Lemma neutral_lift {A} (r : res string A) : neutral (lift r).
Proof. destruct r; [apply neutral_ret|]. by intros s x s' [= <- _]. Qed.
Lemma neutral_throw {A} x : policy_refusal x = false → neutral (throw x : M _ A).
Proof. by intros H s y s' [= <- _]. Qed.
Lemma neutral_bind {A B} (m : M (GwState R C) A) (f : A → M (GwState R C) B) :
  neutral m → (∀ a, neutral (f a)) → neutral (mbind m f).
Proof. intros Hm Hf s x s' [H|(a & s1 & _ & H)]%mbind_err; [by eapply Hm|by eapply Hf]. Qed.

Ltac neutral_step :=
  match goal with
  | |- neutral (mbind _ _) => apply neutral_bind; [|intros ?]
  | |- neutral (mret _) => apply neutral_ret
  | |- neutral (reads _) => apply neutral_reads
  | |- neutral (modify _) => apply neutral_modify
  | |- neutral (lift _) => apply neutral_lift
  | |- neutral (throw _) => apply neutral_throw; reflexivity
  | |- neutral (if ?b then _ else _) => destruct b
  | |- neutral (match ?x with _ => _ end) => destruct x
  | |- neutral _ => solve [eauto with gw nocore]
  end.

Lemma now_neutral : neutral (now g).
Proof. unfold now. repeat neutral_step. Qed.
#[local] Hint Resolve now_neutral : gw.

Lemma resolve_neutral mid w : neutral (resolve g mid w).
Proof. unfold resolve. repeat neutral_step. Qed.

Lemma run_smart_neutral a w : neutral (run_smart g a w).
Proof.
  intros s x s'. unfold run_smart. destruct (smart_route _ _ _ _ _ _ _ _ _ _) as [[r st] rd].
  by repeat case_match.
Qed.
#[local] Hint Resolve resolve_neutral run_smart_neutral : gw.

Lemma resolve_smart_neutral req w : neutral (resolve_smart g req w).
Proof. unfold resolve_smart. repeat neutral_step. Qed.

Lemma data_policy_neutral req w sm : neutral (resolve_data_policy g req w sm).
Proof. unfold resolve_data_policy. repeat neutral_step. Qed.

Lemma finalize_neutral t : neutral (finalize (R:=R) (C:=C) t).
Proof. unfold finalize. repeat neutral_step. Qed.
#[local] Hint Resolve finalize_neutral : gw.

Lemma refused_trace_neutral k strm e f : neutral (refused_trace g k strm e f).
Proof. unfold refused_trace. repeat neutral_step. Qed.
#[local] Hint Resolve resolve_smart_neutral data_policy_neutral refused_trace_neutral : gw.

Lemma refused_trace_ok k strm e f s u s' :
  refused_trace g k strm e f s = (Ok u, s') →
  ∃ t, begin_trace g k strm None e = Ok t ∧ gw_traces s' = gw_traces s ++ [finish (f t)].
Proof.
  unfold refused_trace, finalize.
  intros (t & s1 & [Ht ->]%lift_ok & (t1 & s2 & (u1 & s3 & [= _ <-] & [= _ <-])%mbind_ok & [= _ <-])%mbind_ok)%mbind_ok.
  exists t. split; [done|]. apply traces_add_trace.
Qed.

(** Exactly one row more, and not of a served request. *)
Definition audited s s' : Prop :=
  ∃ t, gw_traces s' = gw_traces s ++ [t] ∧ t_status t ≠ "ok".

(** A refusal that resolves an entry, writes its row and raises. *)
Lemma refusal_audited {A} mid k strm f (x : GwError) s r s' :
  (∀ t, t_status (finish (f t)) ≠ "ok") →
  ((do! e := resolve g mid (who k) in refused_trace g k strm e f) ;; (throw x : M _ A)) s = (r, s') →
  ∃ y, r = Err y ∧ (policy_refusal y = true → y = x ∧ audited s s').
Proof.
  intros Hf. destruct r as [a|y]; [by intros (? & ? & _ & [=])%mbind_ok|]. intros H. exists y. split; [done|].
  intros Hy. apply mbind_err in H as [H|(u & s1 & H & [= <- <-])].
  - assert (neutral (do! e := resolve g mid (who k) in refused_trace g k strm e f)) as Hn
      by repeat neutral_step.
    rewrite (Hn _ _ _ H) in Hy. done.
  - split; [done|]. apply mbind_ok in H as (e & s2 & [_ ->]%resolve_ok & (t & _ & Hrows)%refused_trace_ok).
    exists (finish (f t)). split; [done|apply Hf].
Qed.

Lemma apply_budget_audited req k strm s x s' :
  apply_budget g req k strm s = (Err x, s') → policy_refusal x = true → audited s s'.
Proof.
  intros H Hx. unfold apply_budget in H. apply mbind_err in H as [[=]|(en & s1 & [= <- <-] & H)].
  destruct (gw_enforcer s) as [e|]; [|done].
  apply mbind_err in H as [H|(tm & s1 & Hnow & H)]; [by rewrite (now_neutral _ _ _ H) in Hx|].
  destruct (decide_budget _ _ _ _ _ _ _ _) as [d e'].
  apply mbind_err in H as [[=]|(u & s2 & [= <- <-] & H)].
  assert (gw_traces (put_enforcer (Some e') s1) = gw_traces s) as Hrows.
  { pose proof (now_keeps g gw_traces s) as Hk. rewrite Hnow in Hk. unfold same in Hk. cbn in Hk.
    by rewrite aloof_enforcer. }
  destruct d as [d|]; [|done]. destruct (negb (b_over d)); [done|].
  destruct (b_action d ≡? "reject") eqn:Er.
  - apply mbind_err in H as [H|(en & s3 & [_ ->]%resolve_ok & H)].
    + by rewrite (resolve_neutral _ _ _ _ _ H) in Hx.
    + apply mbind_err in H as [H|(u3 & s4 & (t & _ & Ht)%refused_trace_ok & [= _ <-])].
      * by rewrite (refused_trace_neutral _ _ _ _ _ _ _ H) in Hx.
      * eexists. rewrite Ht, Hrows. split; [done|]. by destruct t as [? ? []].
  - destruct (b_action d ≡? "downgrade"); [|done].
    apply mbind_err in H as [H|(c & s3 & _ & H)]; [by rewrite (neutral_lift _ _ _ _ H) in Hx|].
    destruct c as [c|]; [|done]. by destruct (negb _).
Qed.

Lemma audited_after s s1 s' : gw_traces s1 = gw_traces s → audited s1 s' → audited s s'.
Proof. intros H (t & Ht & Hst). exists t. by rewrite Ht, H. Qed.

(** A stage that keeps the rows and never refuses, before the rest. *)
Lemma neutral_first {A B} (m : M (GwState R C) A) (f : A → M (GwState R C) B) s r s' :
  neutral m → keeps (same gw_traces) m → mbind m f s = (r, s') →
  (∃ x, r = Err x ∧ policy_refusal x = false) ∨
  ∃ a s1, m s = (Ok a, s1) ∧ gw_traces s1 = gw_traces s ∧ f a s1 = (r, s').
Proof.
  intros Hn Hk H. specialize (Hk s). unfold mbind in H. specialize (Hn s).
  destruct (m s) as [[a|x] s1]; [right; by exists a, s1|left]. injection H as <- _. eauto.
Qed.

(** What the intake of a request guarantees of the requests it lets through, and of the
    ones it refuses. *)
Definition intake_post k s s' (r : res GwError Intake) : Prop :=
  match r with
  | Ok i => gw_traces s' = gw_traces s ∧ in_constraint i ≠ Some Deny ∧
      in_degraded i = smart_degraded g (in_smart i) ∧
      (∀ why, in_degraded i = Some why → resolve_fail_policy (fail_policy_of g (who k)) why = false)
  | Err x => policy_refusal x = true → audited s s'
  end.

Lemma intake_outcome req k strm s r s' : intake g req k strm s = (r, s') → intake_post k s s' r.
Proof.
  intros H. unfold intake in H.
  assert (∀ x, r = Err x → policy_refusal x = false → intake_post k s s' r)
    as Hno by (intros x -> Hx ?; congruence).
  apply neutral_first in H as [(x & Hr & Hx)|(key & s1 & _ & Ht1 & H)];
    [by eapply Hno| |repeat neutral_step|repeat keeps_step].
  apply neutral_first in H as [(x & Hr & Hx)|(prefs & s2 & _ & Ht2 & H)];
    [by eapply Hno| |repeat neutral_step|repeat keeps_step].
  apply neutral_first in H as [(x & Hr & Hx)|([rq smart] & s3 & _ & Ht3 & H)];
    [by eapply Hno| |apply resolve_smart_neutral|apply resolve_smart_keeps, _].
  apply neutral_first in H as [(x & Hr & Hx)|([label constraint] & s4 & _ & Ht4 & H)];
    [by eapply Hno| |apply data_policy_neutral|apply resolve_data_policy_keeps, _].
  assert (gw_traces s4 = gw_traces s) as Ht by congruence. clear s1 s2 s3 Ht1 Ht2 Ht3 Ht4.
  set (deg := smart_degraded g smart) in *.
  match type of H with mbind ?m ?f s4 = _ => destruct (m s4) as [[u|x] s5] eqn:Egate;
    unfold mbind at 1 in H; rewrite Egate in H end.
  2:{ injection H as <- <-. intros Hx. destruct deg as [why|], smart as [rs|]; try done.
      destruct (resolve_fail_policy _ _); [|done]. apply (audited_after _ s4); [done|].
      unfold degraded_trace in Egate. eapply refusal_audited in Egate as (y & [= <-] & Hy); [by apply Hy|].
      by intros [? ? []]. }
  assert (s5 = s4 ∧ ∀ why, deg = Some why → resolve_fail_policy (fail_policy_of g (who k)) why = false) as [-> Hdeg].
  { unfold deg in *. destruct (smart_degraded g smart) as [why|] eqn:Ed, smart as [rs|]; try done.
    - destruct (resolve_fail_policy _ _) eqn:Ef; [by apply mbind_ok in Egate as (? & ? & _ & ?)|].
      injection Egate as _ <-. split; [done|]. by intros w [= <-].
    - injection Egate as _ <-. done.
    - injection Egate as _ <-. done. }
  match type of H with mbind ?m ?f s4 = _ => destruct (m s4) as [[u2|x] s5] eqn:Edeny;
    unfold mbind at 1 in H; rewrite Edeny in H end.
  2:{ injection H as <- <-. intros Hx. destruct (constraint ≡? Some Deny); [|done].
      apply (audited_after _ s4); [done|]. unfold data_denied_trace in Edeny.
      eapply refusal_audited in Edeny as (y & [= <-] & Hy); [by apply Hy|]. by intros [? ? []]. }
  destruct (constraint ≡? Some Deny) eqn:Ec; [by apply mbind_ok in Edeny as (? & ? & _ & ?)|].
  injection Edeny as _ <-. bool_to_prop.
  destruct r as [i|x].
  - apply mbind_ok in H as ([rq' st] & s5 & Hb & [= <- <-]). cbn.
    apply (apply_budget_ok g gw_traces) in Hb. split; [congruence|]. done.
  - intros Hx. apply mbind_err in H as [H|(? & ? & _ & [=])].
    apply (audited_after _ s4); [done|]. by eapply apply_budget_audited.
Qed.

Lemma cache_lookup_rows i k : keeps (same (@gw_traces R C)) (cache_lookup g i k) ∧ neutral (cache_lookup g i k).
Proof.
  unfold cache_lookup. split; [|repeat neutral_step].
  destruct (_ || _); repeat keeps_step; apply keeps_modify; by intros [].
Qed.

(** [_plan] refuses in three ways only. *)
Lemma plan_err req k label constraint s y s' :
  plan g req k label constraint s = (Err y, s') →
  match y with
  | EBlocked _ | ENotPermitted _ _ | EIneligible _ _ => True
  | _ => policy_refusal y = false
  end.
Proof.
  assert (∀ z, policy_refusal z = false → match z with
    | EBlocked _ | ENotPermitted _ _ | EIneligible _ _ => True | _ => policy_refusal z = false end) as Hz
    by (by intros []).
  unfold plan, effective_m. intros [H|(pol & s1 & _ & H)]%mbind_err; [by eapply Hz, neutral_lift|].
  apply mbind_err in H as [H|(sg & s2 & _ & H)]; [by eapply Hz, neutral_lift|].
  destruct (action _ ≡? BLOCK); [by injection H as <- _|].
  apply mbind_err in H as [H|(d & s3 & _ & H)]; [by eapply Hz, neutral_lift|].
  apply mbind_err in H as [H|(e & s4 & _ & H)]; [by eapply Hz, resolve_neutral|].
  apply mbind_err in H as [H|(u & s5 & _ & [=])]. unfold admit_entry in H.
  destruct (match pol with Some p => _ | None => false end); [by injection H as <- _|].
  destruct (lane e ≡? provider_lane).
  - apply mbind_err in H as [H|(out & s6 & _ & H)]; [by eapply Hz, neutral_lift|].
    apply mbind_err in H as [H|(t & s7 & _ & H)]; [by eapply Hz, now_neutral|].
    destruct (evaluate _ _ _); [done|]. by injection H as <- _.
  - destruct (negb _); [by injection H as <- _|done].
Qed.

Lemma plan_or_refuse_audited i k strm s x s' :
  plan_or_refuse g i k strm s = (Err x, s') → policy_refusal x = true → audited s s'.
Proof.
  unfold plan_or_refuse. pose proof (plan_keeps g gw_traces (in_req i) k (in_label i) (in_constraint i) s) as Hk.
  destruct (plan g _ _ _ _ s) as [[p|y] s1] eqn:Ep; [done|]. cbn in Hk. intros H Hx.
  apply (audited_after _ s1); [done|].
  apply plan_err in Ep. destruct y; try (injection H as <- <-; congruence).
  - eapply refusal_audited in H as (z & [= <-] & Hz); [by apply Hz|]. by intros [? ? []].
  - eapply refusal_audited in H as (z & [= <-] & Hz); [by apply Hz|]. by intros [? ? []].
  - unfold ineligible_trace in H. apply mbind_err in H as [H|(u & s2 & (t & _ & Ht)%refused_trace_ok & [= _ <-])].
    + by rewrite (refused_trace_neutral _ _ _ _ _ _ _ H) in Hx.
    + eexists. split; [exact Ht|]. by destruct t as [? ? []].
Qed.

(** The exceptions of the dispatch loop are the upstream's or the runtime's. *)
Definition mild (x : GwError) : Prop := policy_refusal x = false.
Definition mild_opt (o : option GwError) : Prop := ∀ x, o = Some x → mild x.

Lemma attempt_once_mild d e t s :
  neutral (attempt_once g d e t) ∧
  ∀ t' x s', attempt_once g d e t s = (Ok (t', Err x), s') → mild x.
Proof.
  assert (∀ a, neutral (settle g d e t a) ∧ ∀ s t' x s', settle g d e t a s = (Ok (t', Err x), s') → mild x) as Hs.
  { intros a. unfold settle. destruct a as [r|y]; [|split; [repeat neutral_step|by intros s0 t' x s' [= _ <- _]]].
    destruct (usage_or_estimate _ _) as [[u est]|y]; [|split; [repeat neutral_step|by intros s0 t' x s' [= _ <- _]]].
    assert (∀ key, neutral (breaker_success (R:=R) (C:=C) key)) as Hbs by
      (intros; unfold breaker_success, emit_span; repeat neutral_step).
    assert (∀ t r, neutral (publish g d t r)) as Hp.
    { intros t1 r1. unfold publish, capture_content, finalize. repeat neutral_step.
      intros s1 x s2. by destruct (trace_smart_ls _ _ _ _ _ _) as [[]]. }
    split; [unfold account; repeat neutral_step; apply Hp|]. intros s0 t' x s' H.
    apply mbind_ok in H as (t1 & s1 & _ & H). apply mbind_ok in H as (u1 & s2 & _ & H).
    apply mbind_ok in H as (c & s3 & _ & H). destruct (if _ || _ then _ else _); [|by injection H as _ <- _].
    apply mbind_ok in H as (u2 & s4 & _ & H). unfold publish in H.
    apply mbind_ok in H as (t2 & s5 & _ & H). apply mbind_ok in H as (u3 & s6 & _ & H).
    destruct (trace_smart_ls _ _ _ _ _ _) as [[z|z] s7] eqn:Em; [done|]. injection H as _ <- _.
    revert Em. assert (neutral (trace_smart_ls g (in_smart (d_intake d)) (d_req d) (d_call d)
      (first_content (if est then with_usage r u else r)))) as Hn
      by (unfold trace_smart_ls; repeat neutral_step). apply Hn. }
  split.
  - unfold attempt_once, call_runner. repeat neutral_step. apply Hs.
  - unfold attempt_once. intros t' x s' (a & s1 & _ & H)%mbind_ok. by eapply Hs.
Qed.

Lemma attempts_mild d e t first n :
  mild_opt first →
  neutral (attempts g d e t first n) ∧
  ∀ s t' f r s', attempts g d e t first n s = (Ok (t', f, r), s') →
    mild_opt f ∧ ∀ x, r = Err x → mild x.
Proof.
  assert (∀ key, neutral (breaker_failure (R:=R) (C:=C) g key)) as Hbf by
    (intros; unfold breaker_failure, emit_span; repeat neutral_step).
  assert (∀ key, neutral (breaker_allow (R:=R) (C:=C) g key)) as Hba by
    (intros; unfold breaker_allow; repeat neutral_step).
  revert t first. induction n as [|n IH]; intros t first Hf; (split;
    [intros s x s' H; cbn [attempts] in H;
     apply mbind_err in H as [H|([t1 [r1|x1]] & s1 & Ha & H)];
       [by eapply (proj1 (attempt_once_mild d e t s))|done|]
    |intros s t' f r s' H; cbn [attempts] in H;
     apply mbind_ok in H as ([t1 [r1|x1]] & s1 & Ha & H);
       [by injection H as <- <- <- <-|]]);
    pose proof (proj2 (attempt_once_mild d e t s) _ _ _ Ha) as Hx;
    (destruct (isinstance _ _); [try done; by injection H as <- _|]).
  - apply mbind_err in H as [H|(u & s2 & _ & H)]; [|done]. revert H. destruct (_ && _); [apply Hbf|done].
  - apply mbind_ok in H as (u & s2 & _ & H). injection H as <- <- <- <-.
    split; [done|]. by intros x [= <-].
  - apply mbind_err in H as [H|(u & s2 & _ & H)]; [revert H; destruct (_ && _); [apply Hbf|done]|].
    destruct (negb _); [done|]. apply mbind_err in H as [H|([] & s3 & _ & H)]; [by eapply Hba| |done].
    eapply (proj1 (IH _ _ _)); exact H.
  - apply mbind_ok in H as (u & s2 & _ & H).
    assert (mild_opt first ∧ ∀ x, @Err _ ChatCompletionResponse x1 = Err x → mild x) as Hend by
      (split; [done|]; by intros x [= <-]).
    destruct (negb _); [by injection H as <- <- <- <-|].
    apply mbind_ok in H as ([] & s3 & _ & H); [|by injection H as <- <- <- <-].
    eapply (proj2 (IH _ _ _)); exact H.
Unshelve. all: intros z Hz; destruct first; [by apply Hf|by injection Hz as <-].
Qed.

Lemma candidates_neutral d i first forced cs :
  mild_opt first → neutral (candidates g d i first forced cs).
Proof.
  assert (∀ key, neutral (breaker_allow (R:=R) (C:=C) g key)) as Hba by
    (intros; unfold breaker_allow; repeat neutral_step).
  assert (∀ k key, neutral (gate (R:=R) (C:=C) g k key)) as Hg by (intros; unfold gate; repeat neutral_step).
  revert i first forced. induction cs as [|e cs IH]; intros i first forced Hf; cbn [candidates].
  { apply neutral_throw. destruct first as [x|]; [by apply Hf|done]. }
  apply neutral_bind; [repeat neutral_step|intros t0].
  apply neutral_bind; [apply Hg|intros []]; cbn [negb].
  - intros s x s' [H|([[t1 f1] [r|y]] & s1 & Ha & H)]%mbind_err.
    + by eapply (proj1 (attempts_mild d e _ first (d_retries d) Hf)).
    + done.
    + destruct (proj2 (attempts_mild d e _ first (d_retries d) Hf) _ _ _ _ _ Ha) as [Hf1 Hy].
      specialize (Hy y eq_refl). apply mbind_err in H as [H|(u & s2 & _ & H)]; [by eapply finalize_neutral|].
      destruct cs as [|e' cs']; [by injection H as <- _|]. destruct (_ && _); [|by injection H as <- _].
      eapply IH; [|exact H]. intros z Hz. destruct f1; [by apply Hf1|]. by injection Hz as <-.
  - destruct (resolve_fail_policy _ _); [repeat neutral_step|].
    apply neutral_bind; [apply finalize_neutral|intros _]. apply IH.
    intros z Hz. destruct first; [by apply Hf|]. by injection Hz as <-.
Qed.

Lemma require_all_neutral c ids : neutral (require_all c ids).
Proof. induction ids as [|j ids IH]; cbn; repeat neutral_step. Qed.

End refusals.

(** ** Streams *)

(** The chunks a client may see: all, or those without usage when it did not ask for it. *)
Definition visible (want_usage : bool) (c : Chunk) : bool := want_usage || negb (present (chunk_usage c)).

(** What is read of the chunks [cs] an upstream sends: all of them, by a client that stays
    for every visible one; or, for a client that leaves after [n + 1] chunks, the part that
    ends with the last one it receives. *)
Definition read_part (want_usage : bool) (leaves : option nat) (cs rd : list Chunk) (left : bool) : Prop :=
  if left
  then ∃ n before c rest, leaves = Some n ∧ rd = before ++ [c] ∧ cs = rd ++ rest ∧
    visible want_usage c = true ∧ length (List.filter (visible want_usage) before) = n
  else rd = cs ∧ ∀ n, leaves = Some n → length (List.filter (visible want_usage) cs) ≤ n.

(** The text and the usage of what was read: a chunk with usage has its text left out. *)
Definition read_text (rd : list Chunk) : list string :=
  concat (chunk_text <$> List.filter (λ c, negb (present (chunk_usage c))) rd).

Definition read_usage (rd : list Chunk) : option Usage := last (omap chunk_usage rd).

Lemma read_usage_cons c rd :
  read_usage (c :: rd) = match read_usage rd with Some u => Some u | None => chunk_usage c end.
Proof.
  unfold read_usage. cbn. destruct (chunk_usage c) as [u|]; [rewrite last_cons|]; by destruct (last _).
Qed.

(** [consume] reads that part. *)
Definition consumed_of (want_usage : bool) (e : option Exn) (rd : list Chunk) (left : bool) (co : Consumed) : Prop :=
  co_chunks co = List.filter (visible want_usage) rd ∧
  co_text co = read_text rd ∧ co_usage co = read_usage rd ∧
  co_end co = (if left then Disconnected else ended e).

(** One more chunk in front: hidden, it leaves the client's count alone. *)
Lemma read_part_hidden w leaves c cs rd left :
  visible w c = false → read_part w leaves cs rd left → read_part w leaves (c :: cs) (c :: rd) left.
Proof.
  unfold read_part. intros Hv. destruct left.
  - intros (n & before & c' & rest & -> & -> & -> & Hc & Hn). exists n, (c :: before), c', rest.
    cbn. by rewrite Hv.
  - intros [-> H]. split; [done|]. cbn. by rewrite Hv.
Qed.

Lemma read_part_visible w c cs rd left (leaves : option nat) :
  visible w c = true → read_part w leaves cs rd left →
  read_part w (S <$> leaves) (c :: cs) (c :: rd) left.
Proof.
  unfold read_part. intros Hv. destruct left.
  - intros (n & before & c' & rest & -> & -> & -> & Hc & Hn). exists (S n), (c :: before), c', rest.
    cbn. rewrite Hv. cbn. by rewrite Hn.
  - intros [-> H]. split; [done|]. cbn. rewrite Hv. cbn. intros [|n] Hn; destruct leaves; try done.
    injection Hn as ->. specialize (H n eq_refl). lia.
Qed.

Lemma consume_read w leaves cs e :
  ∃ rd left, read_part w leaves cs rd left ∧ consumed_of w e rd left (consume w leaves cs e).
Proof.
  revert leaves. induction cs as [|c cs IH]; intros leaves.
  { exists [], false. split; [|done]. split; [done|]. intros n _. cbn. lia. }
  destruct (visible w c) eqn:Ev.
  - destruct leaves as [[|n]|].
    + exists [c], true. split; [by exists 0, [], c, cs|].
      revert Ev. unfold consumed_of, visible, read_text, read_usage. cbn.
      destruct (chunk_usage c), w; cbn; rewrite ?app_nil_r; done.
    + destruct (IH (Some n)) as (rd & left & Hr & Hc & Ht & Hu & He). exists (c :: rd), left.
      split; [by apply (read_part_visible w c cs rd left (Some n))|]. unfold consumed_of. rewrite read_usage_cons.
      revert Ev. unfold visible, read_text in *. cbn.
      destruct (chunk_usage c), w; cbn; rewrite ?Hc, ?Ht, ?Hu, ?He; done.
    + destruct (IH None) as (rd & left & Hr & Hc & Ht & Hu & He). exists (c :: rd), left.
      split; [by apply (read_part_visible w c cs rd left None)|]. unfold consumed_of. rewrite read_usage_cons.
      revert Ev. unfold visible, read_text in *. cbn.
      destruct (chunk_usage c), w; cbn; rewrite ?Hc, ?Ht, ?Hu, ?He; done.
  - destruct (IH leaves) as (rd & left & Hr & Hc & Ht & Hu & He). exists (c :: rd), left.
    split; [by apply read_part_hidden|]. unfold consumed_of. rewrite read_usage_cons.
    revert Ev. unfold visible, read_text in *. cbn.
    destruct (chunk_usage c), w; cbn; rewrite ?Hc, ?Ht, ?Hu, ?He; done.
Qed.

(** A chunk that carries both text and usage is dropped, text included, unless the client
    asked for usage; the estimate does not count it either. *)
Lemma usage_chunk_text_dropped leaves c cs e u :
  chunk_usage c = Some u →
  co_chunks (consume false leaves (c :: cs) e) = co_chunks (consume false leaves cs e) ∧
  co_text (consume false leaves (c :: cs) e) = co_text (consume false leaves cs e).
Proof. intros H. cbn [consume]. by rewrite H. Qed.

Section streams.
Context {R X C : Type} `{!RedisClient R X} `{!ResponseCache C} (g : Gateway).
Implicit Types (s : GwState R C) (k : Call) (t : TraceRecord).

#[local] Hint Extern 1 (keeps (same _) (modify _)) => apply keeps_modify; by intros [] : gw.

Definition opening (e : CatalogEntry) : WireCall := {| wc_purpose := Streaming; wc_entry := e |}.

Lemma not_started w leaves cs x : co_started (consume w leaves cs x) = false → cs = [].
Proof.
  destruct cs as [|c cs]; [done|]. cbn [consume].
  by destruct (chunk_usage c), w, leaves as [[|n]|].
Qed.

(** The [m] openings from the [n]-th call on each broke, retryably, before any chunk. *)
Definition broke_unread (req : ChatCompletionRequest) (e : CatalogEntry) (n m : nat) : Prop :=
  ∀ j, j < m → ∃ x, open_stream g (n + j) req e = ([], Some x) ∧ is_retryable (has_openai g) x = true.

(** The state after [m] unread openings and one more that gave [shown]. *)
Definition opened (e : CatalogEntry) (m : nat) (shown : list Chunk) s s' : Prop :=
  wire_of s' = wire_of s ++ replicate (S m) (opening e) ∧
  gw_chunks s' = gw_chunks s ++ shown ∧ gw_traces s' = gw_traces s.

Lemma add_chunks_nil s : add_chunks [] s = s.
Proof. destruct s; cbn. by rewrite app_nil_r. Qed.

Lemma opened_once e shown s : opened e 0 shown s (add_chunks shown (add_wire (opening e) s)).
Proof. unfold opened, wire_of. destruct s; cbn. by rewrite dispatched_app. Qed.

(** How [read_stream] ends. *)
Definition stream_read req e w leaves left s (r : res GwError Consumed) s' : Prop :=
  ∃ cs x m, open_stream g (length (gw_wire s) + m) req e = (cs, x) ∧ r = Ok (consume w leaves cs x) ∧
    m ≤ left ∧ (lane e ≠ provider_lane → m = 0) ∧ broke_unread req e (length (gw_wire s)) m ∧
    opened e m (co_chunks (consume w leaves cs x)) s s'.

Lemma stream_read_once req e w leaves left s cs x :
  open_stream g (length (gw_wire s)) req e = (cs, x) →
  stream_read req e w leaves left s (Ok (consume w leaves cs x))
    (add_chunks (co_chunks (consume w leaves cs x)) (add_wire (opening e) s)).
Proof.
  intros Ho. exists cs, x, 0. rewrite Nat.add_0_r. do 2 (split; [done|]). split; [lia|]. split; [done|].
  split; [intros j Hj; lia|apply opened_once].
Qed.

Lemma stream_read_again req e w leaves left s y r s' :
  open_stream g (length (gw_wire s)) req e = ([], Some y) → is_retryable (has_openai g) y = true →
  lane e = provider_lane → stream_read req e w leaves left (add_wire (opening e) s) r s' →
  stream_read req e w leaves (S left) s r s'.
Proof.
  intros Ho Hy Hl (cs & x & m & Hx & -> & Hm & _ & Hb & Hw & Hc & Ht).
  assert (length (gw_wire (add_wire (opening e) s)) = S (length (gw_wire s))) as Hn.
  { destruct s; cbn. rewrite length_app. cbn. lia. }
  destruct (opened_once e [] s) as (Hw1 & Hc1 & Ht1).
  rewrite Hn in Hx, Hb. exists cs, x, (S m). split; [by rewrite Nat.add_succ_r|]. split; [done|].
  split; [lia|]. split; [done|]. split.
  - intros [|j] Hj; [exists y; by rewrite Nat.add_0_r|]. destruct (Hb j) as (z & Hz); [lia|].
    exists z. by rewrite Nat.add_succ_r.
  - rewrite add_chunks_nil in Hw1, Hc1, Ht1.
    split; [rewrite Hw, Hw1, <- app_assoc; done|]. split; [rewrite Hc, Hc1, app_nil_r; done|congruence].
Qed.

Lemma read_stream_spec req e w leaves left s r s' :
  read_stream g req e w leaves left s = (r, s') → stream_read req e w leaves left s r s'.
Proof.
  revert s. induction left as [|left IH]; intros s; cbn [read_stream]; unfold mbind, reads, modify;
    destruct (open_stream g (length (gw_wire s)) req e) as [cs x] eqn:Eo; fold (opening e);
    [by intros [= <- <-]; apply stream_read_once|].
  pose proof (stream_read_once req e w leaves (S left) s cs x Eo) as Hone.
  destruct (co_end (consume w leaves cs x)) as [|y|] eqn:Ee; [by intros [= <- <-]| |by intros [= <- <-]].
  destruct (_ && _ && _) eqn:Er; [|by intros [= <- <-]].
  apply andb_true_iff in Er as [[El Es]%andb_true_iff Ey]. bool_to_prop.
  apply not_started in Es as ->. cbn in Ee |- *. destruct x as [x|]; [injection Ee as <-|done].
  intros H. apply (stream_read_again _ _ _ _ _ _ x); [done..|]. apply IH. by rewrite add_chunks_nil in H.
Qed.

#[local] Hint Resolve now_keeps account_quiet finalize_quiet capture_quiet mirror_quiet : gw.

Lemma stream_close_quiet i p k t r : keeps (same (@wire_of R C)) (stream_close g i p k t r).
Proof. unfold stream_close. destruct (stream_outcome g (co_end r)). repeat keeps_step. Qed.

#[local] Instance chunks_aloof : Aloof (R:=R) (C:=C) gw_chunks.
Proof. split; intros; by destruct s. Qed.
#[local] Hint Resolve chunks_aloof : gw.

Lemma stream_close_chunks i p k t r : keeps (same (@gw_chunks R C)) (stream_close g i p k t r).
Proof.
  unfold stream_close, account, finalize, capture_content, trace_smart_ls.
  destruct (stream_outcome g (co_end r)). repeat keeps_step.
Qed.

Lemma account_ok t e u est s t' s' :
  account g t e u est s = (Ok t', s') → accounted g e (set_ok t) u est (set_ok t') ∧
    t_status t' = t_status t ∧ gw_traces s' = gw_traces s.
Proof.
  unfold account. intros (tm & s1 & Hn & (v & s2 & [= _ <-] & [= <- <-])%mbind_ok)%mbind_ok.
  pose proof (now_keeps g gw_traces s) as Hk. rewrite Hn in Hk. unfold same in Hk. cbn in Hk.
  split; [by repeat split|]. split; [done|]. by rewrite aloof_smart.
Qed.

(** The prompt estimate of messages whose texts are [ts]. *)
Definition prompt_estimate (ms : list Message) (ts : list string) : Z :=
  foldr (λ mt z, estimate_tokens mt.2 + estimate_tokens (role mt.1) + 3 + z)%Z 0%Z (zip ms ts).

Lemma texts_prompt_estimate ms ts : texts ms = Ok ts → estimate_prompt_tokens ms = Ok (prompt_estimate ms ts).
Proof.
  revert ts. induction ms as [|m ms IH]; intros ts; cbn; [by intros [= <-]|].
  intros (x & Hx & (l & Hl & [= <-])%res_bind_ok)%res_bind_ok. by rewrite Hx, (IH l Hl).
Qed.

(** What a stream is charged for, to the planned entry: the last usage the upstream reported
    in what was read, if it counts any token, else an estimate of the messages and of the
    text read. *)
Definition charged (p : Plan) (ts : list string) (rd : list Chunk) (t : TraceRecord) : Prop :=
  let e := pn_entry p in
  (∃ u, read_usage rd = Some u ∧ (0 < total_tokens u)%Z ∧
    t_ledger t = {| l_prompt := prompt_tokens u; l_completion := completion_tokens u;
      l_cached := tokens_cached u; l_cache_write := tokens_cache_write u;
      l_cost := compute_cost_usd e u; l_estimated := false; l_baseline := baseline g u |}) ∨
  ((∀ u, read_usage rd = Some u → (total_tokens u <= 0)%Z) ∧
    let prompt := prompt_estimate (messages (pn_req p)) ts in
    let completion := estimate_tokens (join "" (read_text rd)) in
    let u := usage_of prompt completion 0 None 0 in
    t_ledger t = {| l_prompt := prompt; l_completion := completion; l_cached := 0; l_cache_write := 0;
      l_cost := compute_cost_usd e u; l_estimated := true; l_baseline := baseline g u |}).

(** How the row and the caller learn of the stream's end. *)
Definition stream_end (x : option Exn) (left : bool) (r : res GwError TraceRecord) (t : TraceRecord) : Prop :=
  if left then r = Err EDisconnected ∧ t_status t = "error" ∧ t_error t = Some "client_disconnected"
  else match x with
       | None => r = Ok t ∧ t_status t = "ok" ∧ t_error t = None
       | Some y => t_status t = "error" ∧
           if isinstance y ["TimeoutError"] then r = Err EStall ∧ t_error t = Some "stream_stall"
           else r = Err (EUpstream y) ∧ t_error t = Some (exn_type y +:+ ": " +:+ exn_str g y)
       end.

Lemma stream_usage_charged p ts rd w x (left : bool) co :
  texts (messages (pn_req p)) = Ok ts → consumed_of w x rd left co →
  ∃ u est, stream_usage (pn_req p) co = Ok (u, est) ∧
    ∀ t, t_ledger t = {| l_prompt := prompt_tokens u; l_completion := completion_tokens u;
      l_cached := tokens_cached u; l_cache_write := tokens_cache_write u;
      l_cost := compute_cost_usd (pn_entry p) u; l_estimated := est; l_baseline := baseline g u |} →
    charged p ts rd t.
Proof.
  intros Hts (_ & Ht & Hu & _). unfold stream_usage, charged. rewrite (texts_prompt_estimate _ _ Hts), Ht, Hu.
  cbn [res_bind]. destruct (read_usage rd) as [u|].
  - destruct (Z.ltb_spec 0 (total_tokens u)).
    + exists u, false. split; [done|]. intros t Hl. left. by exists u.
    + eexists _, true. split; [done|]. intros t Hl. right. split; [by intros u' [= <-]|exact Hl].
  - eexists _, true. split; [done|]. intros t Hl. by right.
Qed.

Lemma stream_outcome_end co x (left : bool) (r : res GwError TraceRecord) (t0 t : TraceRecord) :
  co_end co = (if left then Disconnected else ended x) → t_error t0 = None →
  t_status t = t_status ((stream_outcome g (co_end co)).1 t0) →
  t_error t = t_error ((stream_outcome g (co_end co)).1 t0) →
  r = match (stream_outcome g (co_end co)).2 with Some y => Err y | None => Ok t end →
  stream_end x left r t.
Proof.
  intros -> H0 Hst Her ->. unfold stream_end, stream_outcome in *. destruct left; [done|].
  destruct x as [y|]; cbn [ended] in *; [|split; [done|split; [done|cbn in Her; congruence]]].
  destruct (isinstance y ["TimeoutError"]); done.
Qed.

Lemma stream_trace_head i p t : stamped t (stream_trace g i p t).
Proof.
  unfold stream_trace, stamp_decision. destruct (extract_trajectory _), (in_smart _);
    repeat (eapply stamped_trans; [|apply stamped_set]); done.
Qed.

Lemma account_returns t e u est s : ∃ t' s', account g t e u est s = (Ok t', s').
Proof. unfold account, now, mbind, reads, modify, mret. by eexists _, _. Qed.

Lemma capture_returns k a s : ∃ s', capture_content g k a s = (Ok tt, s') ∧ gw_traces s' = gw_traces s.
Proof.
  pose proof (capture_rows g k a s) as Hc. unfold same in Hc. revert Hc. unfold capture_content.
  repeat case_match; by eexists.
Qed.

Lemma mirror_returns sm req k a ts s :
  texts (messages req) = Ok ts →
  ∃ s', trace_smart_ls g sm req k a s = (Ok tt, s') ∧ gw_traces s' = gw_traces s.
Proof.
  intros Hts. pose proof (mirror_rows g sm req k a s) as Hc. unfold same in Hc. revert Hc.
  unfold trace_smart_ls. rewrite Hts. repeat case_match; by eexists.
Qed.

Lemma stream_close_spec i p k t0 w x rd (left : bool) co s r s' ts :
  texts (messages (pn_req p)) = Ok ts → consumed_of w x rd left co →
  begin_trace g k true (in_key i) (pn_entry p) = Ok t0 →
  stream_close g i p k (stream_trace g i p t0) co s = (r, s') →
  ∃ t, gw_traces s' = gw_traces s ++ [t] ∧ o_model (t_origin t) = id (pn_entry p) ∧
    o_residency (t_origin t) = residency_class (pn_entry p) ∧ charged p ts rd t ∧ stream_end x left r t.
Proof.
  intros Hts Hco Ht0 H. pose proof (begin_trace_ok _ _ _ _ _ _ Ht0) as (Hm & Hres & _ & _ & Herr & _).
  destruct (stream_trace_head i p t0) as (Ho & He & _).
  destruct (stream_usage_charged _ _ _ _ _ _ _ Hts Hco) as (u & est & Hu & Hch).
  pose proof (λ r t, stream_outcome_end co x left r (stream_trace g i p t0) t) as Hend.
  destruct Hco as (_ & _ & _ & Hce). unfold stream_close in H.
  assert (t_origin ((stream_outcome g (co_end co)).1 (stream_trace g i p t0)) = t_origin t0) as Hso.
  { rewrite <- Ho. unfold stream_outcome. destruct (co_end co); [done| |done]. by destruct (isinstance _ _). }
  destruct (stream_outcome g (co_end co)) as [st failure]. cbn [fst snd] in *.
  unfold mbind at 1 in H. rewrite Hu in H. cbn [lift mret fst snd] in H.
  unfold mbind at 1 in H.
  destruct (account_returns (st (stream_trace g i p t0)) (pn_entry p) u est s) as (t1 & s1 & Ha).
  rewrite Ha in H. apply account_ok in Ha as ((Hao & _ & _ & Hae & Hal) & Hst & Hr1). cbn in Hao, Hae, Hal.
  unfold finalize in H. unfold mbind at 1, mbind at 1, modify, mret in H.
  set (s2 := add_trace (finish t1) s1) in *.
  assert (gw_traces s2 = gw_traces s ++ [finish t1]) as Hr2 by (unfold s2; by rewrite traces_add_trace, Hr1).
  unfold mbind at 1 in H. destruct (capture_returns k (join "" (co_text co)) s2) as (s3 & Hc & Hr3).
  rewrite Hc in H. unfold mbind at 1 in H.
  destruct (mirror_returns (in_smart i) (pn_req p) k (join "" (co_text co)) ts s3 Hts) as (s4 & Hmr & Hr4).
  rewrite Hmr in H. exists (finish t1).
  assert (s' = s4 ∧ r = match failure with Some y => Err y | None => Ok (finish t1) end) as [-> ->]
    by (by destruct failure; injection H as <- <-).
  split; [congruence|]. split; [cbn; congruence|]. split; [cbn; congruence|]. split; [by apply Hch|].
  apply Hend; [done|congruence|done|done|done].
Qed.

End streams.

(** ** Failing closed *)

Section closed.
Context {R X C : Type} `{!RedisClient R X} `{!ResponseCache C} (g : Gateway).
Implicit Types (s : GwState R C) (d : Dispatch) (k : Call) (t : TraceRecord).

(** Under a [breaker_open: closed] fail policy an open breaker is the end of the
    request: the candidate behind it is not tried, no fallback is, nothing is sent, and
    the single row written says why. *)
Theorem open_breaker_fails_closed d i first forced e cs s t0 :
  resilient (d_call d) = true → resolve_fail_policy (d_fail_policy d) "breaker_open" = true →
  begin_trace g (d_call d) false (in_key (d_intake d)) e = Ok t0 →
  (allow (gw_breaker s) (provider_key (base_url e)) (time_at g (gw_ticks s))).1 = false ∨
  peer_open (gw_redis s) (provider_key (base_url e)) = true →
  ∃ s' t, candidates g d i first forced (e :: cs) s = (Err (EDegraded "breaker_open"), s') ∧
    gw_wire s' = gw_wire s ∧ gw_traces s' = gw_traces s ++ [t] ∧ t_status t = "error" ∧
    s_degraded (t_stamp t) = Some "breaker_open" ∧ o_model (t_origin t) = id e.
Proof.
  intros Hr Hf Ht Hb. cbn [candidates]. unfold mbind at 1. rewrite Ht. cbn [lift mret].
  assert (∃ s1, gate g (d_call d) (provider_key (base_url e)) s = (Ok false, s1) ∧
    gw_wire s1 = gw_wire s ∧ gw_traces s1 = gw_traces s) as (s1 & Hg & Hw & Hrows).
  { unfold gate. rewrite Hr. cbn [negb]. unfold breaker_allow, now, mbind, reads, modify, mret. cbn.
    assert (gw_breaker (tick s) = gw_breaker s) as -> by by destruct s.
    destruct (allow (gw_breaker s) _ _) as [[] b] eqn:Ea; cbn in *.
    - destruct Hb as [?|Hp]; [done|]. eexists. split.
      + f_equal. f_equal. assert (∀ b, gw_redis (put_breaker b (tick s)) = gw_redis s) as -> by by destruct s.
        by rewrite Hp.
      + by destruct s.
    - eexists. split; [done|]. by destruct s. }
  unfold mbind at 1. rewrite Hg. cbn [negb]. rewrite Hf. unfold mbind, finalize, modify, mret, throw. cbn.
  eexists _, _. split; [done|]. rewrite traces_add_trace, Hrows. split; [by destruct s1|].
  split; [done|]. apply begin_trace_ok in Ht as (Hm & _).
  pose proof (candidate_trace_head g d e i first forced t0) as (Ho & _).
  generalize dependent (candidate_trace g d e i first forced t0). intros t Ho.
  destruct t as [o l [] st err lab]. cbn in *. split; [done|]. split; [done|]. congruence.
Qed.

(** Nothing known of the conversation: no live memo row, here or in the shared tier. *)
Definition unlabelled s : Prop := memo (gw_smart s) = [] ∧ gw_redis s = None.

(** The classifier of a caller cannot be reached; every other model may well answer. *)
Definition classifier_down k : Prop :=
  ∀ pol e, effective g (who k) = Ok pol →
    catalog_get (catalog_of g (who k)) (classifier_for g pol) = Some e → ∀ n rq, ∃ x, chat g n rq e = Err x.

Lemma classify_failed req k s rq smart s' labels :
  is_smart (Some (model req)) = true → label_table g = Some labels → unlabelled s → classifier_down k →
  (∃ pol, effective g (who k) = Ok pol) → resolve_smart g req (who k) s = (Ok (rq, smart), s') →
  ∃ r, smart = Some r ∧ route_reason r = "smart:classify_failed".
Proof.
  intros Hsmart Hlab [Hmemo Hredis] Hdown [pol Hpol]. unfold resolve_smart. rewrite Hsmart. cbn [negb].
  intros (text & s4 & [_ ->]%lift_ok & (r & s5 & Hrun & [= <- <- _])%mbind_ok)%mbind_ok.
  exists r. split; [done|]. rewrite Hpol, Hlab in Hrun. unfold run_smart in Hrun. rewrite Hredis in Hrun.
  match type of Hrun with context [smart_route ?a ?b ?c ?d ?e ?f ?st ?rd ?ar ?cl] =>
    assert (route_reason (smart_route a b c d e f st rd ar cl).1.1 = "smart:classify_failed") as Hroute end.
  { unfold smart_route, label_request, lookup_memo, cache_get. rewrite Hmemo. cbn [dget l2_get sa_catalog sa_classifier].
    destruct (catalog_get _ _) as [e|] eqn:Ee; [|done]. unfold classify_call, classify_text. cbn [sa_classifier].
    unfold require. cbn [sa_catalog sa_classifier] in Ee. rewrite Ee.
    match goal with |- context [chat g ?n ?rq0 e] => destruct (Hdown pol e Hpol Ee n rq0) as [x ->] end. done. }
  destruct (smart_route _ _ _ _ _ _ _ _ _ _) as [[r0 st] rd]. cbn [fst] in Hroute.
  assert (r = r0) as -> by (repeat case_match; by injection Hrun as <-). done.
Qed.

End closed.

(** ** Witnesses: a provider that fails and one of its class that answers *)

Definition demo_503 : Exn :=
  {| exn_type := "InternalServerError"; exn_mro := ["openai.InternalServerError"; "openai.APIStatusError"; "Exception"];
     status_code := Some 503%Z; retry_after_header := None |}.

Definition demo_flaky (n : nat) (req : ChatCompletionRequest) (e : CatalogEntry)
    : res Exn ChatCompletionResponse :=
  if id e ≡? "gpt" then Err demo_503 else Ok (demo_answer e).

Abbreviation demo_pair := (demo_gateway (demo_cloud :: demo_cloud_2 :: [demo_local]) demo_flaky
  ([ {| chunk_choices := [ {| delta_content := Some "hi"; delta_tool_calls := None |} ]; chunk_usage := None |};
     {| chunk_choices := []; chunk_usage := Some (usage_of 12 3 0 None 0) |} ], None)).

Abbreviation demo_run w := (complete demo_pair demo_req (demo_call w) (demo_gw_state tt None)).

Lemma wire_calls_confined_witness :
  wire_of (final (demo_run no_identity)) = wire_of (demo_gw_state (C:=unit) tt None) ∨
  ∃ i s1 p (s2 s3 : GwState (list (string * string)) unit),
    intake demo_pair demo_req (demo_call no_identity) false (demo_gw_state tt None) = (Ok i, s1) ∧
    plan demo_pair (in_req i) (demo_call no_identity) (in_label i) (in_constraint i) s2 = (Ok p, s3) ∧
    confined_calls demo_pair p (demo_call no_identity) (demo_gw_state tt None) (final (demo_run no_identity)).
Proof.
  apply (wire_calls_confined demo_pair demo_req (demo_call no_identity) (demo_gw_state tt None)
    (demo_run no_identity).1 (final (demo_run no_identity))).
  - vm_decide.
  - vm_compute. reflexivity.
Defined.

Definition demo_private : Identity :=
  {| org_id := Some "acme"; team_id := None; user_id := Some "u"; catalog_policy := None;
     routing_policy := None; org_allowlist := None; catalog_adoptions := []; price_overrides := ∅;
     provider_credential_scopes := None; zero_retention := true |}.

Lemma nothing_stored_witness :
  gw_payloads (final (demo_run demo_private)) = [] ∧ length (gw_payloads (final (demo_run no_identity))) = 1.
Proof.
  split; [|vm_compute; reflexivity].
  apply (nothing_stored demo_pair demo_req (demo_call demo_private) (demo_gw_state tt None)
    (demo_run demo_private).1 (final (demo_run demo_private)));
    [right; reflexivity|left; vm_compute; reflexivity|reflexivity].
Defined.

Definition demo_served : GatewayResult :=
  Eval vm_compute in result (demo_run no_identity)
    {| gr_response := demo_answer demo_local; gr_trace := begin_record (demo_origin "") |}.

Lemma served_honestly_witness :
  last (gw_traces (final (demo_run no_identity))) = Some (gr_trace demo_served) ∧
  o_model (t_origin (gr_trace demo_served)) = "claude".
Proof.
  split; [|reflexivity].
  apply (served_honestly demo_pair demo_req (demo_call no_identity) (demo_gw_state tt None) demo_served
    (final (demo_run no_identity))).
  - vm_decide.
  - vm_compute. reflexivity.
Defined.

Definition demo_secret : ChatCompletionRequest :=
  request_of "gpt" [say "user" "forward this MNPI to the model"].

Abbreviation demo_refused :=
  (complete demo_pair demo_secret (demo_call no_identity) (demo_gw_state tt None)).

Definition demo_refusal : GwError :=
  Eval vm_compute in match demo_refused.1 with Err x => x | Ok _ => EStall end.


Definition demo_intake : Intake :=
  {| in_req := demo_req; in_key := None; in_smart := None; in_label := None; in_constraint := None;
     in_degraded := None; in_budget := None |}.

Abbreviation demo_streamed :=
  (stream_planned demo_pair demo_intake demo_p (demo_call no_identity) None (demo_gw_state tt None)).


Definition demo_closed_dispatch : Dispatch :=
  {| d_call := demo_call no_identity; d_intake := demo_intake; d_plan := demo_p; d_retries := 1;
     d_fail_policy := FPScalar "closed"; d_no_store := false |}.

(** The provider of the planned entry failed a moment ago. *)
Definition demo_tripped : GwState (list (string * string)) unit :=
  put_breaker (on_failure (new_breaker 1 30) (provider_key (base_url demo_cloud)) 0).2 (demo_gw_state tt None).

Lemma open_breaker_fails_closed_witness :
  ∃ s' t, candidates demo_pair demo_closed_dispatch 0 None false (demo_cloud :: [demo_cloud_2]) demo_tripped
      = (Err (EDegraded "breaker_open"), s') ∧
    gw_wire s' = gw_wire demo_tripped ∧ gw_traces s' = gw_traces demo_tripped ++ [t] ∧ t_status t = "error" ∧
    s_degraded (t_stamp t) = Some "breaker_open" ∧ o_model (t_origin t) = id demo_cloud.
Proof.
  eapply (open_breaker_fails_closed demo_pair demo_closed_dispatch 0 None false demo_cloud [demo_cloud_2]
    demo_tripped); [reflexivity|reflexivity|reflexivity|].
  left. vm_compute. reflexivity.
Defined.

(** A labelled deploy in which only the classifier is down, and an organization that fails closed. *)
Definition demo_down : Gateway :=
  {| base_catalog := demo_catalog; candidate_catalog := []; pipeline := guarded_pipeline; retries := 1;
     passthrough_fallback := true; log_content := true; label_table := Some demo_labels;
     bench_table := Some demo_bench; default_classifier := "gpt"; stick_policy_of := None; warmth_on := true;
     default_prefs := {| auto_inject := true; auto_inject_min_messages := 4 |};
     env_set := λ _, true; sql_sink := true; tracing_on := false; policy_fault := λ _, None;
     chat := λ _ _ e, if id e ≡? "gpt" then Err demo_503 else Ok (demo_answer e); open_stream := λ _ _ _, ([], None); exn_str := λ _, "failed";
     runner_id := λ e, id e; has_openai := true; time_at := λ n, Qz (Z.of_nat n);
     clock_at := λ n, demo_clock (Qz (Z.of_nat n)); sha256_hex := λ s, s; sha1_hex := λ s, s;
     json_loads := λ _, None; memo_text := c_label; memo_read := λ _, None;
     label_template := "{label_block}"; math_exp := demo_exp; budget_row := λ _, Ok None;
     budget_spend := None; budget_alert_ok := λ _, true; budget_audit_ok := λ _, true;
     budget_period := "2026-07" |}.

Definition demo_strict : Identity :=
  {| org_id := Some "acme"; team_id := None; user_id := None; catalog_policy := None;
     routing_policy :=
       Some {| bindings := []; blob_optimize := None; blob_custom_labels := []; blob_stick_ttls := [];
               blob_cache := no_overrides; blob_fail_policy := Some (FPScalar "closed");
               blob_taxonomy := no_taxonomy; blob_classifier_model := None;
               blob_optimizer_steers_tools := false |};
     org_allowlist := None; catalog_adoptions := []; price_overrides := ∅;
     provider_credential_scopes := None; zero_retention := false |}.

Abbreviation demo_smart w :=
  (complete demo_down (with_model demo_req "smart") (demo_call w) (put_redis None (demo_gw_state tt None))).

