(* ===== verification/AuthPolicies.v ===== *)
(** * The stored overlays of a scope ([auth/policies.py])

    Catalog policies, routing overlays, budgets, catalog adoptions and price overrides, as tables
    keyed by their scope: a team, an organisation (its default, under its own id) or a member.  A
    JSON column holds the value that is read back from it.  An upsert bumps the version of the row
    it replaces.  Timestamps, authors and the pre-warm flag, which nothing that routes a
    request reads, are left out. *)

From S2P Require Import Prelude.
From S2P Require Import PyStr.
From S2P Require Import PyDict.
From S2P Require Import Catalog.
From S2P Require Import Identity.
From S2P Require Import Policy.
From S2P Require Import Budgets.

Local Open Scope py_scope.

(** ** Tables *)

(** [ValueError], or a violated key. *)
Inductive AuthError : Type := AValue (msg : string) | AIntegrity.

Definition CATALOG_MODES : list string := ["allow"; "deny"; "allow_all"; "allowlist"].
Definition ROUTING_OPTIMIZE : list string := ["quality"; "balanced"; "cost"].
Definition BUDGET_ACTIONS : list string := ["observe"; "downgrade"; "reject"].

(** A row of [catalog_policies], [routing_policies] or [budgets]. *)
Record Scoped (V : Type) := { sc_org : string; sc_version : Z; sc_by : option string; sc_value : V }.
Arguments sc_org {V} _.
Arguments sc_version {V} _.
Arguments sc_by {V} _.
Arguments sc_value {V} _.

(** A row of [catalog_adoptions]; its entry is [None] when it is not a mapping. *)
Record Adoption := { ap_entry : option CatalogEntry; ap_upstream : string; ap_provider : string; ap_by : option string }.

Record SnapshotRow := { ss_price_in : option Q; ss_price_out : option Q; ss_first_seen : Q; ss_last_seen : Q }.

Record Overlays := {
  catalog_policies : list (string * Scoped CatalogBlob);
  routing_policies : list (string * Scoped RoutingBlob);
  budgets : list (string * Scoped BudgetRow);
  budget_alerts : list (string * string * Q);
  adoptions : list (string * string * Adoption);
  overrides : list (string * string * PriceRow);
  catalog_snapshots : list (string * string * SnapshotRow);
  provider_prefs : list (string * bool);
}.

Definition no_overlays : Overlays :=
  {| catalog_policies := []; routing_policies := []; budgets := []; budget_alerts := []; adoptions := []; overrides := [];
     catalog_snapshots := []; provider_prefs := [] |}.

Definition set_catalogs t (o : Overlays) : Overlays :=
  {| catalog_policies := t; routing_policies := routing_policies o; budgets := budgets o; budget_alerts := budget_alerts o;
     adoptions := adoptions o; overrides := overrides o; catalog_snapshots := catalog_snapshots o; provider_prefs := provider_prefs o |}.
Definition set_routings t (o : Overlays) : Overlays :=
  {| catalog_policies := catalog_policies o; routing_policies := t; budgets := budgets o; budget_alerts := budget_alerts o;
     adoptions := adoptions o; overrides := overrides o; catalog_snapshots := catalog_snapshots o; provider_prefs := provider_prefs o |}.
Definition set_budgets t (o : Overlays) : Overlays :=
  {| catalog_policies := catalog_policies o; routing_policies := routing_policies o; budgets := t; budget_alerts := budget_alerts o;
     adoptions := adoptions o; overrides := overrides o; catalog_snapshots := catalog_snapshots o; provider_prefs := provider_prefs o |}.
Definition set_alerts t (o : Overlays) : Overlays :=
  {| catalog_policies := catalog_policies o; routing_policies := routing_policies o; budgets := budgets o; budget_alerts := t;
     adoptions := adoptions o; overrides := overrides o; catalog_snapshots := catalog_snapshots o; provider_prefs := provider_prefs o |}.
Definition set_adoptions t (o : Overlays) : Overlays :=
  {| catalog_policies := catalog_policies o; routing_policies := routing_policies o; budgets := budgets o; budget_alerts := budget_alerts o;
     adoptions := t; overrides := overrides o; catalog_snapshots := catalog_snapshots o; provider_prefs := provider_prefs o |}.
Definition set_overrides t (o : Overlays) : Overlays :=
  {| catalog_policies := catalog_policies o; routing_policies := routing_policies o; budgets := budgets o; budget_alerts := budget_alerts o;
     adoptions := adoptions o; overrides := t; catalog_snapshots := catalog_snapshots o; provider_prefs := provider_prefs o |}.
Definition set_snapshots t (o : Overlays) : Overlays :=
  {| catalog_policies := catalog_policies o; routing_policies := routing_policies o; budgets := budgets o; budget_alerts := budget_alerts o;
     adoptions := adoptions o; overrides := overrides o; catalog_snapshots := t; provider_prefs := provider_prefs o |}.
Definition set_prefs t (o : Overlays) : Overlays :=
  {| catalog_policies := catalog_policies o; routing_policies := routing_policies o; budgets := budgets o; budget_alerts := budget_alerts o;
     adoptions := adoptions o; overrides := overrides o; catalog_snapshots := catalog_snapshots o; provider_prefs := t |}.

(** ** Policies and budgets *)

(** [SELECT * ... WHERE team_id = ?], nothing for an empty key. *)
Definition scoped_get {V} (t : list (string * Scoped V)) (key : string) : option (Scoped V) :=
  if key ≡? "" then None else dget t key.

(** [INSERT ... ON CONFLICT (team_id) DO UPDATE ... version = version + 1] *)
Definition upsert_scoped {V} (t : list (string * Scoped V)) (key org : string) (by_ : option string) (v : V) : list (string * Scoped V) :=
  dset t key {| sc_org := org;
                sc_version := match dget t key with Some old => sc_version old + 1 | None => 1 end;
                sc_by := by_; sc_value := v |}.

Definition get_catalog_policy (team : string) (o : Overlays) : option (Scoped CatalogBlob) := scoped_get (catalog_policies o) team.

(** The blob carries the mode that is asked for; ["allow"] is the default of the keyword. *)
Definition set_catalog_policy (team org : string) (by_ : option string) (b : CatalogBlob) (o : Overlays)
    : res AuthError (option (Scoped CatalogBlob) * Overlays) :=
  if negb (default "allow" (mode b) ∈? CATALOG_MODES) then Err (AValue "unknown catalog-policy mode")
  else let b := {| mode := Some (default "allow" (mode b)); models := models b; residency := residency b; blob_default_model := blob_default_model b |} in
       let o := set_catalogs (upsert_scoped (catalog_policies o) team org by_ b) o in
       Ok (get_catalog_policy team o, o).

(** What [set_routing_policy] stores of its keywords and [get_routing_policy] reads back. *)
Definition stored_routing (b : RoutingBlob) : RoutingBlob :=
  {| bindings := bindings b; blob_optimize := blob_optimize b; blob_custom_labels := blob_custom_labels b; blob_stick_ttls := blob_stick_ttls b;
     blob_cache := blob_cache b; blob_fail_policy := Some (normal_fail_policy (blob_fail_policy b)); blob_taxonomy := blob_taxonomy b;
     blob_classifier_model := nonempty (blob_classifier_model b); blob_optimizer_steers_tools := blob_optimizer_steers_tools b |}.

Definition get_routing_policy (team : string) (o : Overlays) : option (Scoped RoutingBlob) := scoped_get (routing_policies o) team.

Definition set_routing_policy (team org : string) (by_ : option string) (b : RoutingBlob) (o : Overlays)
    : res AuthError (option (Scoped RoutingBlob) * Overlays) :=
  if match blob_optimize b with Some p => negb (p ∈? ROUTING_OPTIMIZE) | None => false end then Err (AValue "unknown optimize preset")
  else let o := set_routings (upsert_scoped (routing_policies o) team org by_ (stored_routing b)) o in
       Ok (get_routing_policy team o, o).

Definition get_budget (team : string) (o : Overlays) : option (Scoped BudgetRow) := scoped_get (budgets o) team.

Definition list_budgets (org : string) (o : Overlays) : list (string * Scoped BudgetRow) :=
  sort_by (λ x y, str_leb x.1 y.1) (List.filter (λ kr : string * Scoped BudgetRow, sc_org kr.2 ≡? org) (budgets o)).

Definition set_budget (team org : string) (by_ : option string) (monthly_usd : Q) (act : string) (thresholds : option (list Q)) (o : Overlays)
    : res AuthError (option (Scoped BudgetRow) * Overlays) :=
  if negb (act ∈? BUDGET_ACTIONS) then Err (AValue "unknown budget action")
  else let o := set_budgets (upsert_scoped (budgets o) team org by_
                  {| monthly := Some monthly_usd; row_thresholds := default [5 # 10; 8 # 10; 1%Q] thresholds; row_action := Some act |}) o in
       Ok (get_budget team o, o).

Definition delete_budget (key : string) (o : Overlays) : bool * Overlays :=
  match get_budget key o with Some _ => (true, set_budgets (dpop (budgets o) key) o) | None => (false, o) end.

(** [budget_alert_fire_once]; [up]: the statement does not fail. *)
Definition budget_alert_fire_once (up : bool) (scope period : string) (threshold : Q) (o : Overlays) : bool * Overlays :=
  if negb up || existsb (λ x : string * string * Q, (x.1.1 ≡? scope) && (x.1.2 ≡? period) && Qeq_bool x.2 threshold) (budget_alerts o) then (false, o)
  else (true, set_alerts (budget_alerts o ++ [(scope, period, threshold)]) o).

(** ** Adoptions *)

(** The rows of a scope, by their second key. *)
Definition rows_of {V} (scope : string) (t : list (string * string * V)) : list (string * V) :=
  sort_by (λ x y, str_leb x.1 y.1) (omap (λ r : string * string * V, if r.1.1 ≡? scope then Some (r.1.2, r.2) else None) t).

Definition list_adoptions (scope : string) (o : Overlays) : list (string * Adoption) :=
  if scope ≡? "" then [] else rows_of scope (adoptions o).

Definition get_adoption (scope i : string) (o : Overlays) : option Adoption :=
  if scope ≡? "" then None else dget (adoptions o) (scope, i).

Definition add_adoption (scope i : string) (ad : Adoption) (o : Overlays) : option Adoption * Overlays :=
  let o := set_adoptions (dset (adoptions o) (scope, i) ad) o in (get_adoption scope i o, o).

Definition remove_adoption (scope i : string) (o : Overlays) : bool * Overlays :=
  if scope ≡? "" then (false, o)
  else match dget (adoptions o) (scope, i) with
       | Some _ => (true, set_adoptions (dpop (adoptions o) (scope, i)) o)
       | None => (false, o)
       end.

(** ** Snapshots and the auto-adopt preference *)

Definition snapshot_rows (provider : string) (o : Overlays) : list (string * SnapshotRow) := rows_of provider (catalog_snapshots o).

Definition upsert_snapshot (provider slug : string) (price_in price_out : option Q) (now : Q) (o : Overlays) : Overlays :=
  set_snapshots (dset (catalog_snapshots o) (provider, slug)
    {| ss_price_in := price_in; ss_price_out := price_out;
       ss_first_seen := match dget (catalog_snapshots o) (provider, slug) with Some r => ss_first_seen r | None => now end;
       ss_last_seen := now |}) o.

Definition get_auto_adopt (provider : string) (o : Overlays) : bool := default false (dget (provider_prefs o) provider).
Definition set_auto_adopt (provider : string) (enabled : bool) (o : Overlays) : Overlays := set_prefs (dset (provider_prefs o) provider enabled) o.

(** ** Price overrides *)

Definition PriceOverride : Type := string * string * PriceRow.

(** The rows of any of the scopes, by model; falsy scopes are dropped. *)
Definition list_price_overrides (scopes : list string) (o : Overlays) : list PriceOverride :=
  let keys := List.filter (λ k, negb (k ≡? "")) scopes in
  sort_by (λ x y : PriceOverride, str_leb x.1.2 y.1.2) (List.filter (λ r : PriceOverride, r.1.1 ∈? keys) (overrides o)).

(** The stored row; reading it back under an empty scope finds none, and the code's [next] raises. *)
Definition set_price_override (scope model : string) (row : PriceRow) (o : Overlays) : option PriceOverride * Overlays :=
  let o := set_overrides (dset (overrides o) (scope, model) row) o in
  (List.find (λ r : PriceOverride, r.1.2 ≡? model) (list_price_overrides [scope] o), o).

Definition remove_price_override (scope model : string) (o : Overlays) : bool * Overlays :=
  if scope ≡? "" then (false, o)
  else match dget (overrides o) (scope, model) with
       | Some _ => (true, set_overrides (dpop (overrides o) (scope, model)) o)
       | None => (false, o)
       end.
