(* ===== verification/AuthStore.v ===== *)
(** * The auth store ([auth/users.py], [auth/tokens.py], [auth/tenancy.py])

    Users, opaque credentials, organisations with their members and invitations, as tables keyed by
    their primary keys.  A method is a function on the tables; fresh random strings and clock
    readings are arguments, the SHA-256 digest is a parameter.  Both database dialects run the same
    statements. *)

From S2P Require Import Prelude.
From S2P Require Import PyStr.
From S2P Require Import PyDict.
From S2P Require Import Schemas.
From S2P Require Import Policy.
From S2P Require Import AuthPolicies.

Local Open Scope py_scope.

(** ** Tables *)

Record User := {
  us_id : string;
  us_email : string;
  us_password : option string;
  us_verified : bool;
  us_issuer : option string;
  us_sub : option string;
  us_conv : option string;
  us_model : option string;
}.

Record Token := {
  tk_hash : string;
  tk_user : string;
  tk_purpose : string;
  tk_expires : Q;
  tk_created : Q;
  tk_label : option string;
  tk_org : option string;
  tk_last_used : option Q;
  tk_rotated : option Q;
}.

(** [og_retention]: the JSON column, [None] when it is empty. *)
Record Org := {
  og_id : string;
  og_name : string;
  og_created : Q;
  og_zero_retention : bool;
  og_max_days : option Z;
  og_grace : option Z;
  og_retention : option json;
}.

Record Team := { te_id : string; te_org : string; te_name : string; te_created : Q; te_status : string }.

Record Member := { mb_org : string; mb_user : string; mb_team : option string; mb_role : string; mb_created : Q }.

Record Invitation := {
  iv_id : string;
  iv_org : string;
  iv_email : string;
  iv_role : string;
  iv_token : string;
  iv_created : Q;
  iv_accepted : option Q;
}.

Record Auth := {
  a_users : list (string * User);
  a_tokens : list (string * Token);
  a_orgs : list (string * Org);
  a_teams : list (string * Team);
  a_members : list (string * string * Member);
  a_invites : list (string * Invitation);
  a_overlays : Overlays;
}.

Definition no_auth : Auth :=
  {| a_users := []; a_tokens := []; a_orgs := []; a_teams := []; a_members := []; a_invites := []; a_overlays := no_overlays |}.

Definition with_users (t : list (string * User)) (a : Auth) : Auth :=
  {| a_users := t; a_tokens := a_tokens a; a_orgs := a_orgs a; a_teams := a_teams a; a_members := a_members a; a_invites := a_invites a; a_overlays := a_overlays a |}.
Definition with_tokens (t : list (string * Token)) (a : Auth) : Auth :=
  {| a_users := a_users a; a_tokens := t; a_orgs := a_orgs a; a_teams := a_teams a; a_members := a_members a; a_invites := a_invites a; a_overlays := a_overlays a |}.
Definition with_orgs (t : list (string * Org)) (a : Auth) : Auth :=
  {| a_users := a_users a; a_tokens := a_tokens a; a_orgs := t; a_teams := a_teams a; a_members := a_members a; a_invites := a_invites a; a_overlays := a_overlays a |}.
Definition with_teams (t : list (string * Team)) (a : Auth) : Auth :=
  {| a_users := a_users a; a_tokens := a_tokens a; a_orgs := a_orgs a; a_teams := t; a_members := a_members a; a_invites := a_invites a; a_overlays := a_overlays a |}.
Definition with_members (t : list (string * string * Member)) (a : Auth) : Auth :=
  {| a_users := a_users a; a_tokens := a_tokens a; a_orgs := a_orgs a; a_teams := a_teams a; a_members := t; a_invites := a_invites a; a_overlays := a_overlays a |}.
Definition with_invites (t : list (string * Invitation)) (a : Auth) : Auth :=
  {| a_users := a_users a; a_tokens := a_tokens a; a_orgs := a_orgs a; a_teams := a_teams a; a_members := a_members a; a_invites := t; a_overlays := a_overlays a |}.
Definition with_overlays (t : Overlays) (a : Auth) : Auth :=
  {| a_users := a_users a; a_tokens := a_tokens a; a_orgs := a_orgs a; a_teams := a_teams a; a_members := a_members a; a_invites := a_invites a; a_overlays := t |}.

(** [INSERT ... ON CONFLICT DO NOTHING] *)
Definition insert_ignore {K V} `{EqDecision K} (d : list (K * V)) (k : K) (v : V) : list (K * V) := if dmem d k then d else dset d k v.

Definition by_created {V} (created : V → Q) (l : list V) : list V := sort_by (λ x y, Qleb (created x) (created y)) l.

(** ** Organisations, teams and members ([TenancyMixin]) *)

Definition ROLES : list string := ["owner"; "admin"; "member"; "auditor"].

Definition get_user (u : string) (a : Auth) : option User := dget (a_users a) u.
Definition get_org (o : string) (a : Auth) : option Org := dget (a_orgs a) o.
Definition get_team (t : string) (a : Auth) : option Team := dget (a_teams a) t.

Definition create_org (o name : string) (now : Q) (a : Auth) : Auth :=
  with_orgs (insert_ignore (a_orgs a) o
    {| og_id := o; og_name := name; og_created := now; og_zero_retention := false; og_max_days := Some 0%Z; og_grace := Some 60%Z;
       og_retention := None |}) a.

Definition create_team (t o name : string) (now : Q) (a : Auth) : Auth :=
  with_teams (insert_ignore (a_teams a) t {| te_id := t; te_org := o; te_name := name; te_created := now; te_status := "active" |}) a.

Definition add_membership (o u role : string) (team : option string) (now : Q) (a : Auth) : res AuthError Auth :=
  if negb (role ∈? ROLES) then Err (AValue "unknown role")
  else Ok (with_members (insert_ignore (a_members a) (o, u)
             {| mb_org := o; mb_user := u; mb_team := team; mb_role := role; mb_created := now |}) a).

Definition memberships_of (u : string) (a : Auth) : list Member :=
  by_created mb_created (List.filter (λ m, mb_user m ≡? u) (a_members a).*2).

(** [ORDER BY created_at LIMIT 1]; of two rows of one instant, the one inserted first. *)
Definition get_membership (u : string) (a : Auth) : option Member := head (memberships_of u a).

Definition get_membership_in (u o : string) (a : Auth) : option Member := dget (a_members a) (o, u).

Definition list_user_memberships (u : string) (a : Auth) : list (string * string * string) :=
  omap (λ m, match get_org (mb_org m) a with Some o => Some (mb_org m, og_name o, mb_role m) | None => None end) (memberships_of u a).

(** [email.split("@")[0]] when there is an address, else the default *)
Definition personal_name (user : option User) : string :=
  match user with
  | Some us => if us_email us ≡? "" then "Personal" else match split_on "@" (us_email us) with n :: _ => n | [] => "Personal" end
  | None => "Personal"
  end.

(** [resolve_membership] *)
Definition resolve_membership (u : string) (preferred : option string) (now : Q) (a : Auth) : Member * Auth :=
  match (match nonempty preferred with Some o => get_membership_in u o a | None => None end) with
  | Some m => (m, a)
  | None =>
      match get_membership u a with
      | Some m => (m, a)
      | None =>
          let o := "o_" +:+ u in
          let a := create_org o (personal_name (get_user u a) +:+ "'s org") now a in
          ({| mb_org := o; mb_user := u; mb_team := None; mb_role := "owner"; mb_created := now |},
           match add_membership o u "owner" None now a with Ok a => a | Err _ => a end)
      end
  end.

(** A personal organisation for every user without a membership. *)
Definition backfill_personal_orgs (now : Q) (a : Auth) : nat * Auth :=
  let lacking := List.filter (λ u, negb (existsb (λ m, mb_user m ≡? u) (a_members a).*2)) (us_id <$> (a_users a).*2) in
  (length lacking, foldl (λ a u, (resolve_membership u None now a).2) a lacking).

Definition owner_count (o : string) (a : Auth) : nat :=
  length (List.filter (λ m, (mb_org m ≡? o) && (mb_role m ≡? "owner")) (a_members a).*2).

Definition with_role (r : string) (m : Member) : Member :=
  {| mb_org := mb_org m; mb_user := mb_user m; mb_team := mb_team m; mb_role := r; mb_created := mb_created m |}.

(** What [set_role] decides on what it read; [None]: not a member. *)
Definition role_decision (o u role : string) (a : Auth) : res AuthError bool :=
  if negb (role ∈? ROLES) then Err (AValue "unknown role")
  else match get_membership_in u o a with
       | None => Ok false
       | Some m => if (mb_role m ≡? "owner") && negb (role ≡? "owner") && (owner_count o a <=? 1) then Err (AValue "cannot demote the last owner")
                   else Ok true
       end.

(** The [UPDATE] of [set_role]. *)
Definition update_role (o u role : string) (a : Auth) : Auth :=
  match get_membership_in u o a with Some m => with_members (dset (a_members a) (o, u) (with_role role m)) a | None => a end.

Definition set_role (o u role : string) (a : Auth) : res AuthError (bool * Auth) :=
  try! b := role_decision o u role a in Ok (b, if b then update_role o u role a else a).

(** What [remove_membership] decides, and its [DELETE]. *)
Definition removal_decision (o u : string) (a : Auth) : res AuthError bool :=
  match get_membership_in u o a with
  | None => Ok false
  | Some m => if (mb_role m ≡? "owner") && (owner_count o a <=? 1) then Err (AValue "cannot remove the last owner") else Ok true
  end.

Definition delete_member (o u : string) (a : Auth) : Auth := with_members (dpop (a_members a) (o, u)) a.

Definition remove_membership (o u : string) (a : Auth) : res AuthError (bool * Auth) :=
  try! b := removal_decision o u a in Ok (b, if b then delete_member o u a else a).

Definition list_teams (o : string) (a : Auth) : list Team :=
  by_created te_created (List.filter (λ t, (te_org t ≡? o) && (te_status t ≡? "active")) (a_teams a).*2).

(** An active team of the organisation. *)
Definition team_in (o t : string) (a : Auth) : option Team :=
  match get_team t a with
  | Some x => if (te_org x ≡? o) && (te_status x ≡? "active") then Some x else None
  | None => None
  end.

Definition rename_team (o t name : string) (a : Auth) : bool * Auth :=
  match team_in o t a with
  | Some x => (true, with_teams (dset (a_teams a) t {| te_id := te_id x; te_org := te_org x; te_name := name; te_created := te_created x;
                                                      te_status := te_status x |}) a)
  | None => (false, a)
  end.

Definition delete_team (o t : string) (a : Auth) : bool * Auth :=
  match team_in o t a with
  | Some x => (true, with_teams (dset (a_teams a) t {| te_id := te_id x; te_org := te_org x; te_name := te_name x; te_created := te_created x;
                                                      te_status := "deleted" |}) a)
  | None => (false, a)
  end.

Definition list_members (o : string) (a : Auth) : list (Member * string) :=
  omap (λ m, match get_user (mb_user m) a with Some u => Some (m, us_email u) | None => None end)
    (by_created mb_created (List.filter (λ m, mb_org m ≡? o) (a_members a).*2)).

Definition list_org_user_ids (o : string) (a : Auth) : list string :=
  mb_user <$> List.filter (λ m, mb_org m ≡? o) (a_members a).*2.

Definition update_org (o : string) (f : Org → Org) (a : Auth) : Auth :=
  match get_org o a with Some x => with_orgs (dset (a_orgs a) o (f x)) a | None => a end.

Definition rename_org (o name : string) : Auth → Auth :=
  update_org o (λ x, {| og_id := og_id x; og_name := name; og_created := og_created x; og_zero_retention := og_zero_retention x;
                        og_max_days := og_max_days x; og_grace := og_grace x; og_retention := og_retention x |}).

Definition set_zero_retention (o : string) (on : bool) : Auth → Auth :=
  update_org o (λ x, {| og_id := og_id x; og_name := og_name x; og_created := og_created x; og_zero_retention := on;
                        og_max_days := og_max_days x; og_grace := og_grace x; og_retention := og_retention x |}).

(** [_parse_retention] of the stored value: positive integers only. *)
Definition parse_retention (raw : option json) : list (string * Z) :=
  match raw with
  | Some (JObj d) => omap (λ kv : string * json, match kv.2 with JInt n => if (0 <? n)%Z then Some (kv.1, n) else None | _ => None end) d
  | _ => []
  end.

Definition set_retention_policy (o : string) (policy : list (string * json)) : Auth → Auth :=
  update_org o (λ x, {| og_id := og_id x; og_name := og_name x; og_created := og_created x; og_zero_retention := og_zero_retention x;
                        og_max_days := og_max_days x; og_grace := og_grace x;
                        og_retention := match policy with [] => None | _ => Some (JObj policy) end |}).

Definition get_retention_policy (o : string) (a : Auth) : list (string * Z) :=
  match get_org o a with Some x => parse_retention (og_retention x) | None => [] end.

Definition list_retention_orgs (a : Auth) : list (string * list (string * Z)) :=
  omap (λ x, match parse_retention (og_retention x) with [] => None | p => Some (og_id x, p) end) (a_orgs a).*2.

(** Invitations: the id and the token are fresh. *)
Definition create_invitation (id token o email role : string) (now : Q) (a : Auth) : res AuthError (Invitation * Auth) :=
  if negb (role ∈? ROLES) then Err (AValue "unknown role")
  else if dmem (a_invites a) id || existsb (λ i, iv_token i ≡? token) (a_invites a).*2 then Err AIntegrity
  else let i := {| iv_id := id; iv_org := o; iv_email := lower (strip email); iv_role := role; iv_token := token; iv_created := now; iv_accepted := None |} in
       Ok (i, with_invites (dset (a_invites a) id i) a).

Definition list_invitations (o : string) (pending_only : bool) (a : Auth) : list Invitation :=
  rev (by_created iv_created (List.filter (λ i, (iv_org i ≡? o) && (negb pending_only || (iv_accepted i ≡? None))) (a_invites a).*2)).

Definition pending (token : string) (a : Auth) : option Invitation :=
  List.find (λ i, (iv_token i ≡? token) && (iv_accepted i ≡? None)) (a_invites a).*2.

Definition stamp_accepted (i : Invitation) (now : Q) (a : Auth) : Auth :=
  with_invites (dset (a_invites a) (iv_id i)
    {| iv_id := iv_id i; iv_org := iv_org i; iv_email := iv_email i; iv_role := iv_role i; iv_token := iv_token i; iv_created := iv_created i;
       iv_accepted := Some now |}) a.

Definition accept_invitation (token u : string) (now : Q) (a : Auth) : res AuthError (option Invitation * Auth) :=
  match pending token a with
  | None => Ok (None, a)
  | Some i => try! a := add_membership (iv_org i) u (iv_role i) None now a in Ok (Some i, stamp_accepted i now a)
  end.

(** ** Users ([UsersMixin]) *)

Definition get_user_by_email (email : string) (a : Auth) : option User :=
  List.find (λ u, us_email u ≡? lower (strip email)) (a_users a).*2.

(** The row of a new user, without an address of its own yet. *)
Definition new_user (u email : string) (password : option string) (verified : bool) (issuer sub : option string) : User :=
  {| us_id := u; us_email := lower (strip email); us_password := password; us_verified := verified; us_issuer := issuer; us_sub := sub;
     us_conv := None; us_model := None |}.

(** Another row with the same issuer and subject, both present. *)
Definition same_oidc (issuer sub : option string) (y : User) : bool :=
  match issuer, sub with Some i, Some s => (us_issuer y ≡? Some i) && (us_sub y ≡? Some s) | _, _ => false end.

(** The [INSERT] into [users], where the id, the address and the OIDC identity are unique. *)
Definition insert_user (x : User) (a : Auth) : res AuthError Auth :=
  if dmem (a_users a) (us_id x) || existsb (λ y, (us_email y ≡? us_email x) || same_oidc (us_issuer x) (us_sub x) y) (a_users a).*2
  then Err AIntegrity
  else Ok (with_users (dset (a_users a) (us_id x) x) a).

Definition create_user (u email : string) (password : option string) (verified : bool) (now : Q) (a : Auth) : res AuthError Auth :=
  try! a := insert_user (new_user u email password verified None None) a in Ok (resolve_membership u None now a).2.

Definition update_user (u : string) (f : User → User) (a : Auth) : Auth :=
  match get_user u a with Some x => with_users (dset (a_users a) u (f x)) a | None => a end.

Definition mark_verified (u : string) : Auth → Auth :=
  update_user u (λ x, {| us_id := us_id x; us_email := us_email x; us_password := us_password x; us_verified := true; us_issuer := us_issuer x;
                         us_sub := us_sub x; us_conv := us_conv x; us_model := us_model x |}).

Definition has_users (a : Auth) : bool := match a_users a with [] => false | _ => true end.

Definition set_companion_conv (u conv : string) : Auth → Auth :=
  update_user u (λ x, {| us_id := us_id x; us_email := us_email x; us_password := us_password x; us_verified := us_verified x;
                         us_issuer := us_issuer x; us_sub := us_sub x; us_conv := Some conv; us_model := us_model x |}).
Definition companion_conv (u : string) (a : Auth) : option string := match get_user u a with Some x => us_conv x | None => None end.

Definition set_companion_model (u : string) (m : option string) : Auth → Auth :=
  update_user u (λ x, {| us_id := us_id x; us_email := us_email x; us_password := us_password x; us_verified := us_verified x;
                         us_issuer := us_issuer x; us_sub := us_sub x; us_conv := us_conv x; us_model := m |}).
Definition companion_model (u : string) (a : Auth) : option string := match get_user u a with Some x => us_model x | None => None end.

(** ** Credentials ([TokensMixin]) *)

Definition API_TOKEN_TTL : Q := 100 * 365 * 86400.
Definition LAST_USED_THROTTLE : Q := 15 * 60.
Definition VERIFY_TTL : Q := 24 * 3600.

Definition with_expiry (e : Q) (t : Token) : Token :=
  {| tk_hash := tk_hash t; tk_user := tk_user t; tk_purpose := tk_purpose t; tk_expires := e; tk_created := tk_created t; tk_label := tk_label t;
     tk_org := tk_org t; tk_last_used := tk_last_used t; tk_rotated := tk_rotated t |}.
Definition with_last_used (now : Q) (t : Token) : Token :=
  {| tk_hash := tk_hash t; tk_user := tk_user t; tk_purpose := tk_purpose t; tk_expires := tk_expires t; tk_created := tk_created t; tk_label := tk_label t;
     tk_org := tk_org t; tk_last_used := Some now; tk_rotated := tk_rotated t |}.
Definition with_rotated (now : Q) (t : Token) : Token :=
  {| tk_hash := tk_hash t; tk_user := tk_user t; tk_purpose := tk_purpose t; tk_expires := tk_expires t; tk_created := tk_created t; tk_label := tk_label t;
     tk_org := tk_org t; tk_last_used := tk_last_used t; tk_rotated := Some now |}.
Definition with_token_org (o : option string) (t : Token) : Token :=
  {| tk_hash := tk_hash t; tk_user := tk_user t; tk_purpose := tk_purpose t; tk_expires := tk_expires t; tk_created := tk_created t; tk_label := tk_label t;
     tk_org := o; tk_last_used := tk_last_used t; tk_rotated := tk_rotated t |}.

Section tokens.
Context (sha : string → string).

(** [_token_hash(raw)[:12]] of a digest *)
Definition token_id (h : string) : string := str_take 12 h.

(** The row of a raw token with a purpose. *)
Definition token_row (raw purpose : string) (a : Auth) : option Token :=
  match dget (a_tokens a) (sha raw) with Some t => if tk_purpose t ≡? purpose then Some t else None | None => None end.

Definition drop_tokens (f : Token → bool) (a : Auth) : Auth :=
  with_tokens (List.filter (λ kt : string * Token, negb (f kt.2)) (a_tokens a)) a.

Definition update_token (h : string) (f : Token → Token) (a : Auth) : Auth :=
  match dget (a_tokens a) h with Some t => with_tokens (dset (a_tokens a) h (f t)) a | None => a end.

(** [mint_token] of a fresh secret *)
Definition mint_token (raw u purpose : string) (ttl : Q) (supersede : bool) (label org : option string) (now : Q) (a : Auth) : res AuthError Auth :=
  let a := if supersede then drop_tokens (λ t, (tk_user t ≡? u) && (tk_purpose t ≡? purpose)) a else a in
  if dmem (a_tokens a) (sha raw) then Err AIntegrity
  else Ok (with_tokens (dset (a_tokens a) (sha raw)
             {| tk_hash := sha raw; tk_user := u; tk_purpose := purpose; tk_expires := (now + ttl)%Q; tk_created := now; tk_label := label;
                tk_org := org; tk_last_used := None; tk_rotated := None |}) a).

Definition token_org (raw purpose : string) (a : Auth) : option string :=
  match token_row raw purpose a with Some t => nonempty (tk_org t) | None => None end.

Definition set_session_org (raw : string) (o : option string) (a : Auth) : Auth :=
  match token_row raw "session" a with Some _ => update_token (sha raw) (with_token_org o) a | None => a end.

Definition lookup_token (raw purpose : string) (now : Q) (a : Auth) : option string :=
  match token_row raw purpose a with
  | Some t => if Qltb (tk_expires t) now then None else Some (tk_user t)
  | None => None
  end.

Definition delete_token (h : string) (a : Auth) : Auth := with_tokens (dpop (a_tokens a) h) a.

(** [consume_token]: one statement on Postgres, two without a suspension between them on SQLite. *)
Definition consume_token (raw purpose : string) (now : Q) (a : Auth) : option string * Auth :=
  match token_row raw purpose a with
  | Some t => (if Qleb now (tk_expires t) then Some (tk_user t) else None, delete_token (sha raw) a)
  | None => (None, a)
  end.

Definition revoke_token (raw : string) (a : Auth) : Auth := delete_token (sha raw) a.

(** [_org_token_policy] *)
Definition org_token_policy (o : option string) (a : Auth) : Z * Z :=
  match nonempty o with
  | None => (0, 60)%Z
  | Some o => match get_org o a with
              | None => (0, 60)%Z
              | Some x => (default 0%Z (og_max_days x), default 60%Z (og_grace x))
              end
  end.

(** The lifetime that is asked for, capped; a falsy one is no expiry. *)
Definition capped_ttl (cap : Z) (expires_in_days : option Q) : Q :=
  let days := if (0 <? cap)%Z then Some (match expires_in_days with None => Qz cap | Some d => Qminb d (Qz cap) end) else expires_in_days in
  match days with Some d => if Qeq_bool d 0 then API_TOKEN_TTL else (d * 86400)%Q | None => API_TOKEN_TTL end.

Definition member_org (u : string) (a : Auth) : option string := mb_org <$> get_membership u a.

Definition mint_api_token (raw u : string) (label org : option string) (expires_in_days : option Q) (now : Q) (a : Auth) : res AuthError (string * Auth) :=
  let eff := nonempty org orelse member_org u a in
  try! a := mint_token raw u "api" (capped_ttl (org_token_policy eff a).1 expires_in_days) false label org now a in
  Ok (token_id (sha raw), a).

Definition mint_service_token (raw o : string) (label : option string) (expires_in_days : option Q) (now : Q) (a : Auth) : res AuthError (string * Auth) :=
  try! a := mint_token raw o "service" (capped_ttl (org_token_policy (Some o) a).1 expires_in_days) false label (Some o) now a in
  Ok (token_id (sha raw), a).

(** What a listing shows of a token. *)
Record TokenInfo := { ti_id : string; ti_label : option string; ti_created : Q; ti_last_used : option Q; ti_expires : Q; ti_rotated : option Q; ti_org : option string }.

Definition info_of (t : Token) : TokenInfo :=
  {| ti_id := token_id (tk_hash t); ti_label := tk_label t; ti_created := tk_created t; ti_last_used := tk_last_used t; ti_expires := tk_expires t;
     ti_rotated := tk_rotated t; ti_org := tk_org t |}.

Definition list_api_tokens (u : string) (a : Auth) : list (TokenInfo * option string) :=
  (λ t, (info_of t, match tk_org t with Some o => og_name <$> get_org o a | None => None end))
    <$> by_created tk_created (List.filter (λ t, (tk_user t ≡? u) && (tk_purpose t ≡? "api")) (a_tokens a).*2).

Definition list_service_tokens (o : string) (a : Auth) : list TokenInfo :=
  info_of <$> by_created tk_created (List.filter (λ t, (tk_org t ≡? Some o) && (tk_purpose t ≡? "service")) (a_tokens a).*2).

(** The token of an id among those that [mine] admits. *)
Definition find_token (mine : Token → bool) (tid : string) (a : Auth) : option Token :=
  List.find (λ t, mine t && (token_id (tk_hash t) ≡? tid)) (a_tokens a).*2.

Definition api_token_of (u : string) (t : Token) : bool := (tk_user t ≡? u) && (tk_purpose t ≡? "api").
Definition service_token_of (o : string) (t : Token) : bool := (tk_org t ≡? Some o) && (tk_purpose t ≡? "service").

Definition revoke_found (t : option Token) (a : Auth) : bool * Auth :=
  match t with Some t => (true, delete_token (tk_hash t) a) | None => (false, a) end.

Definition revoke_api_token (u tid : string) (a : Auth) : bool * Auth := revoke_found (find_token (api_token_of u) tid a) a.
Definition revoke_service_token (o tid : string) (a : Auth) : bool * Auth := revoke_found (find_token (service_token_of o) tid a) a.

(** [rotate_api_token], with a fresh secret: its id, and when the old one dies, if it lives on. *)
Definition rotate_api_token (raw u tid : string) (grace_minutes : option Z) (now : Q) (a : Auth) : res AuthError (option (string * option Q) * Auth) :=
  match find_token (api_token_of u) tid a with
  | None => Ok (None, a)
  | Some t =>
      let grace := match grace_minutes with Some g => g | None => (org_token_policy (nonempty (tk_org t) orelse member_org u a) a).2 end in
      try! minted := mint_api_token raw u (tk_label t) (tk_org t) None now a in
      let '(new_id, a) := minted in
      let a := update_token (sha raw) (with_rotated now) a in
      if (grace <=? 0)%Z then Ok (Some (new_id, None), delete_token (tk_hash t) a)
      else let e := (now + Qz grace * 60)%Q in
           Ok (Some (new_id, Some e), update_token (tk_hash t) (with_expiry e) a)
  end.

Record Bearer := { be_user : string; be_purpose : string; be_org : option string; be_expired : bool }.

(** [resolve_bearer] *)
Definition resolve_bearer (raw : string) (now : Q) (a : Auth) : option Bearer * Auth :=
  match dget (a_tokens a) (sha raw) with
  | Some t =>
      if tk_purpose t ∈? ["api"; "service"] then
        let b e := {| be_user := tk_user t; be_purpose := tk_purpose t; be_org := tk_org t; be_expired := e |} in
        if Qltb (tk_expires t) now then (Some (b true), a)
        else (Some (b false),
              if match tk_last_used t with None => true | Some l => Qleb LAST_USED_THROTTLE (now - l) end
              then update_token (sha raw) (with_last_used now) a else a)
      else (None, a)
  | None => (None, a)
  end.

(** [revoke_org_credentials]: how many rows of each purpose went. *)
Definition revoke_org_credentials (o : string) (user : option string) (include_sessions include_service : bool) (a : Auth) : list (string * nat) * Auth :=
  let purposes := ["api"] ++ (if include_sessions then ["session"] else [])
                  ++ (if include_service && (user ≡? None) then ["service"] else []) in
  let gone p t := (tk_org t ≡? Some o) && match user with Some u => tk_user t ≡? u | None => true end && (tk_purpose t ≡? p) in
  let '(counts, a) :=
    foldl (λ (s : list (string * nat) * Auth) p, (dset s.1 p (length (List.filter (gone p) (a_tokens s.2).*2)), drop_tokens (gone p) s.2))
      ([], a) purposes in
  (dset counts "total" (sum_list counts.*2), a).

(** Every api and service token of the organisation: bound to it, or a member's own. *)
Definition list_org_credentials (o : string) (a : Auth) : list (TokenInfo * (string * string) * option string) :=
  (λ t, (info_of t, (tk_purpose t, tk_user t), match get_user (tk_user t) a with Some x => Some (us_email x) | None => None end))
    <$> rev (by_created tk_created
          (List.filter (λ t, (tk_purpose t ∈? ["api"; "service"]) && ((tk_org t ≡? Some o) || (tk_user t ∈? list_org_user_ids o a))) (a_tokens a).*2)).

Definition set_token_policy (o : string) (max_days grace : Z) : Auth → Auth :=
  update_org o (λ x, {| og_id := og_id x; og_name := og_name x; og_created := og_created x; og_zero_retention := og_zero_retention x;
                        og_max_days := Some (Z.max 0 max_days); og_grace := Some (Z.max 0 grace); og_retention := og_retention x |}).

Definition create_session (raw u : string) (ttl : Q) (org : option string) (now : Q) (a : Auth) : res AuthError Auth :=
  mint_token raw u "session" ttl false None org now a.

Definition revoke_session (raw : string) (a : Auth) : Auth := revoke_token raw a.

Definition session_user (raw : string) (require_verified : bool) (now : Q) (a : Auth) : option User :=
  match lookup_token raw "session" now a with
  | None => None
  | Some u => match get_user u a with
              | Some x => if require_verified && negb (us_verified x) then None else Some x
              | None => None
              end
  end.
End tokens.
