(* ===== verification/AuthSso.v ===== *)
(** * Single sign-on and SCIM ([auth/sso.py], [auth/vocab.py])

    The relying-party configuration of an organisation with its domains, single-use login states,
    provisioning at login, and the SCIM bearer, group map, provisioning and deprovisioning. *)

From S2P Require Import Prelude.
From S2P Require Import PyStr.
From S2P Require Import PyDict.
From S2P Require Import Policy.
From S2P Require Import AuthPolicies.
From S2P Require Import AuthStore.

Local Open Scope py_scope.

(** ** Tables *)

Record SsoConfig := { so_issuer : string; so_client : string; so_secret_enc : string; so_required : bool; so_created : Q; so_updated : Q }.

Record LoginState := { lo_org : string; lo_nonce : string; lo_verifier : string; lo_redirect : string; lo_expires : Q }.

Record ScimConfig := { sm_token : option string; sm_map : list (string * string); sm_enabled : bool }.

Record Sso := {
  sso_configs : list (string * SsoConfig);
  sso_domains : list (string * string);
  sso_logins : list (string * LoginState);
  scim_configs : list (string * ScimConfig);
}.

Definition no_sso : Sso := {| sso_configs := []; sso_domains := []; sso_logins := []; scim_configs := [] |}.

(** ** Configuration and login states *)

(** [sorted({d.strip().lower() for d in domains if d.strip()})] *)
Definition clean_domains (domains : list string) : list string :=
  sort_by str_leb (remove_dups (lower <$> List.filter (λ d, negb (d ≡? "")) (strip <$> domains))).

Definition set_sso_config (o : string) (cfg : SsoConfig) (domains : list string) (now : Q) (t : Sso) : res AuthError Sso :=
  let clean := clean_domains domains in
  if existsb (λ d, match dget (sso_domains t) d with Some owner => negb (owner ≡? o) | None => false end) clean then Err (AValue "domain_taken")
  else Ok {| sso_configs := dset (sso_configs t) o
               {| so_issuer := so_issuer cfg; so_client := so_client cfg; so_secret_enc := so_secret_enc cfg; so_required := so_required cfg;
                  so_created := match dget (sso_configs t) o with Some old => so_created old | None => now end; so_updated := now |};
             sso_domains := List.filter (λ kv : string * string, negb (kv.2 ≡? o)) (sso_domains t) ++ ((λ d, (d, o)) <$> clean);
             sso_logins := sso_logins t; scim_configs := scim_configs t |}.

Definition domains_of (o : string) (t : Sso) : list string :=
  sort_by str_leb (omap (λ kv : string * string, if kv.2 ≡? o then Some kv.1 else None) (sso_domains t)).

Definition get_sso_config (o : string) (t : Sso) : option (SsoConfig * list string) :=
  match dget (sso_configs t) o with Some c => Some (c, domains_of o t) | None => None end.

Definition get_sso_config_by_domain (domain : string) (t : Sso) : option (string * SsoConfig) :=
  if domain ≡? "" then None
  else match dget (sso_domains t) (lower (strip domain)) with
       | Some o => match dget (sso_configs t) o with Some c => Some (o, c) | None => None end
       | None => None
       end.

Definition all_sso_issuers (t : Sso) : list string :=
  List.filter (λ i, negb (i ≡? "")) (remove_dups (so_issuer <$> (sso_configs t).*2)).

Definition create_login_state (state : string) (l : LoginState) (t : Sso) : res AuthError Sso :=
  if dmem (sso_logins t) state then Err AIntegrity
  else Ok {| sso_configs := sso_configs t; sso_domains := sso_domains t; sso_logins := dset (sso_logins t) state l; scim_configs := scim_configs t |}.

Definition consume_login_state (state : string) (now : Q) (t : Sso) : option LoginState * Sso :=
  match dget (sso_logins t) state with
  | Some l => (if Qltb (lo_expires l) now then None else Some l,
               {| sso_configs := sso_configs t; sso_domains := sso_domains t; sso_logins := dpop (sso_logins t) state; scim_configs := scim_configs t |})
  | None => (None, t)
  end.

(** ** Provisioning at login *)

Definition get_user_by_oidc (issuer sub : string) (a : Auth) : option User :=
  List.find (λ u, (us_issuer u ≡? Some issuer) && (us_sub u ≡? Some sub)) (a_users a).*2.

Definition with_oidc (issuer sub : string) (x : User) : User :=
  {| us_id := us_id x; us_email := us_email x; us_password := us_password x; us_verified := us_verified x; us_issuer := Some issuer;
     us_sub := Some sub; us_conv := us_conv x; us_model := us_model x |}.

(** [_set_user_oidc]: the pair is unique. *)
Definition set_user_oidc (u issuer sub : string) (a : Auth) : res AuthError Auth :=
  if existsb (λ y, negb (us_id y ≡? u) && same_oidc (Some issuer) (Some sub) y) (a_users a).*2 then Err AIntegrity
  else Ok (update_user u (with_oidc issuer sub) a).

(** [provision_sso_login]; [fresh] is the id of a user it has to create. *)
Definition provision_sso_login (fresh issuer sub email o : string) (now : Q) (a : Auth) : res AuthError (string * bool * Auth) :=
  match get_user_by_oidc issuer sub a with
  | Some u => Ok (us_id u, false, a)
  | None =>
      match get_user_by_email email a with
      | Some u =>
          try! a := set_user_oidc (us_id u) issuer sub a in
          try! a := add_membership o (us_id u) "member" None now a in
          Ok (us_id u, false, a)
      | None =>
          try! a := insert_user (new_user fresh email None true (Some issuer) (Some sub)) a in
          try! a := add_membership o fresh "member" None now a in
          Ok (fresh, true, a)
      end
  end.

(** ** SCIM *)

(** [_SCIM_ROLE_RANK] *)
Definition scim_rank (role : string) : option nat := dget [("auditor", 1); ("member", 2); ("admin", 3)] role.

Definition scim_step (m : list (string * string)) (best : string * nat) (g : string) : string * nat :=
  match dget m g with
  | Some role =>
      if role ≡? "owner" then best
      else match scim_rank role with
           | Some r => if best.2 <? r then (role, r) else best
           | None => best
           end
  | None => best
  end.

Definition resolve_scim_role (groups : list string) (m : list (string * string)) : string := (foldl (scim_step m) ("member", 2) groups).1.

Definition put_scim (o : string) (c : ScimConfig) (t : Sso) : Sso :=
  {| sso_configs := sso_configs t; sso_domains := sso_domains t; sso_logins := sso_logins t; scim_configs := dset (scim_configs t) o c |}.

(** Enabled, the map, and whether there is a token. *)
Definition get_scim_config (o : string) (t : Sso) : bool * list (string * string) * bool :=
  match dget (scim_configs t) o with
  | None => (false, [], false)
  | Some c => (sm_enabled c, sm_map c, match nonempty (sm_token c) with Some _ => true | None => false end)
  end.

(** A new row has the defaults of the schema: no token, an empty map. *)
Definition set_scim_config (o : string) (m : list (string * string)) (enabled : bool) (t : Sso) : Sso :=
  let clean := List.filter (λ kv : string * string, (kv.2 ∈? ROLES) && negb (kv.2 ≡? "owner")) m in
  put_scim o {| sm_token := match dget (scim_configs t) o with Some c => sm_token c | None => None end; sm_map := clean; sm_enabled := enabled |} t.

Definition generate_scim_token (sha : string → string) (raw o : string) (t : Sso) : Sso :=
  put_scim o {| sm_token := Some (sha raw); sm_map := match dget (scim_configs t) o with Some c => sm_map c | None => [] end; sm_enabled := true |} t.

Definition revoke_scim_token (o : string) (t : Sso) : Sso :=
  match dget (scim_configs t) o with
  | Some c => put_scim o {| sm_token := None; sm_map := sm_map c; sm_enabled := sm_enabled c |} t
  | None => t
  end.

(** The first row of that token: two organisations never share a fresh one. *)
Definition org_by_scim_token (sha : string → string) (raw : string) (t : Sso) : option string :=
  if raw ≡? "" then None
  else fst <$> List.find (λ kc : string * ScimConfig, (sm_token kc.2 ≡? Some (sha raw)) && sm_enabled kc.2) (scim_configs t).

Definition granted (role : string) : string := if role ≡? "owner" then "member" else role.

Definition scim_provision (fresh o email role : string) (external_id issuer : option string) (now : Q) (a : Auth) : res AuthError (string * bool * Auth) :=
  match get_user_by_email email a with
  | Some u =>
      try! a := match nonempty external_id, nonempty issuer, nonempty (us_sub u) with
                | Some e, Some i, None => set_user_oidc (us_id u) i e a
                | _, _, _ => Ok a
                end in
      try! a := add_membership o (us_id u) (granted role) None now a in
      Ok (us_id u, false, a)
  | None =>
      try! a := insert_user (new_user fresh email None true issuer external_id) a in
      try! a := add_membership o fresh (granted role) None now a in
      Ok (fresh, true, a)
  end.

Record Deactivated := { de_removed : bool; de_revoked : nat; de_last : bool }.

Definition count_tokens (f : Token → bool) (a : Auth) : nat := length (List.filter f (a_tokens a).*2).

(** [scim_deactivate]; an owner who is the last one is refused before a credential is touched. *)
Definition scim_deactivate (o u : string) (a : Auth) : res AuthError (Deactivated * Auth) :=
  try! removed := remove_membership o u a in
  let '(was, a) := removed in
  let bound t := (tk_user t ≡? u) && (tk_org t ≡? Some o) in
  let unbound t := (tk_user t ≡? u) && (tk_org t ≡? None) in
  let killed := count_tokens bound a in
  let a := drop_tokens bound a in
  match list_user_memberships u a with
  | [] => Ok ({| de_removed := was; de_revoked := killed + count_tokens unbound a; de_last := true |}, drop_tokens unbound a)
  | _ => Ok ({| de_removed := was; de_revoked := killed; de_last := false |}, a)
  end.
