(* ===== verification/AuthHistory.v ===== *)
(** * Histories of the auth store

    What holds over any sequence of calls of the store: keys and rows agree, an organisation that
    has an owner keeps one, a token keeps its user and purpose and a secret that is gone stays
    gone, and what one organisation's administration changes no other one sees. *)

From S2P Require Import Prelude.
From S2P Require Import PyStr.
From S2P Require Import PyDict.
From S2P Require Import Schemas.
From S2P Require Import Catalog.
From S2P Require Import Identity.
From S2P Require Import Policy.
From S2P Require Import Budgets.
From S2P Require Import AuthPolicies.
From S2P Require Import AuthStore.
From S2P Require Import AuthSso.

Local Open Scope py_scope.

(** ** Calls as steps *)

Section steps.
Context (sha : string → string).
(** The digests of the secrets that are minted. *)
Context (minted : string → Prop).

(** A call of the store that writes, with whatever arguments, and returns. *)
Inductive store_step (a : Auth) : Auth → Prop :=
  | step_create_org o name now : store_step a (create_org o name now a)
  | step_create_team t o name now : store_step a (create_team t o name now a)
  | step_add_membership o u role team now a' : add_membership o u role team now a = Ok a' → store_step a a'
  | step_resolve u preferred now : store_step a (resolve_membership u preferred now a).2
  | step_backfill now : store_step a (backfill_personal_orgs now a).2
  | step_set_role o u role r a' : set_role o u role a = Ok (r, a') → store_step a a'
  | step_remove o u r a' : remove_membership o u a = Ok (r, a') → store_step a a'
  | step_rename_team o t name : store_step a (rename_team o t name a).2
  | step_delete_team o t : store_step a (delete_team o t a).2
  | step_update_org o f : store_step a (update_org o f a)
  | step_invite i t o email role now r a' : create_invitation i t o email role now a = Ok (r, a') → store_step a a'
  | step_accept t u now r a' : accept_invitation t u now a = Ok (r, a') → store_step a a'
  | step_create_user u email pw v now a' : create_user u email pw v now a = Ok a' → store_step a a'
  | step_update_user u f : store_step a (update_user u f a)
  | step_overlays o : store_step a (with_overlays o a)
  | step_login fresh issuer sub email o now r a' : provision_sso_login fresh issuer sub email o now a = Ok (r, a') → store_step a a'
  | step_scim fresh o email role e i now r a' : scim_provision fresh o email role e i now a = Ok (r, a') → store_step a a'
  | step_deactivate o u r a' : scim_deactivate o u a = Ok (r, a') → store_step a a'
  | step_mint raw u p ttl sup label org now a' :
      minted (sha raw) → mint_token sha raw u p ttl sup label org now a = Ok a' → store_step a a'
  | step_mint_api raw u label org days now r a' :
      minted (sha raw) → mint_api_token sha raw u label org days now a = Ok (r, a') → store_step a a'
  | step_mint_service raw o label days now r a' :
      minted (sha raw) → mint_service_token sha raw o label days now a = Ok (r, a') → store_step a a'
  | step_set_session_org raw o : store_step a (set_session_org sha raw o a)
  | step_consume raw p now : store_step a (consume_token sha raw p now a).2
  | step_revoke raw : store_step a (revoke_token sha raw a)
  | step_revoke_api u tid : store_step a (revoke_api_token u tid a).2
  | step_revoke_service o tid : store_step a (revoke_service_token o tid a).2
  | step_rotate raw u tid grace now r a' :
      minted (sha raw) → rotate_api_token sha raw u tid grace now a = Ok (r, a') → store_step a a'
  | step_bearer raw now : store_step a (resolve_bearer sha raw now a).2
  | step_revoke_org o user ses svc : store_step a (revoke_org_credentials o user ses svc a).2.

Definition history : Auth → Auth → Prop := rtc store_step.

(** ** What every call keeps *)

(** A membership row sits under its own organisation and user. *)
Definition members_ok (a : Auth) : Prop :=
  NoDup (dkeys (a_members a)) ∧ ∀ k m, (k, m) ∈ a_members a → k = (mb_org m, mb_user m).

(** A token sits under its own digest. *)
Definition tokens_ok (a : Auth) : Prop := NoDup (dkeys (a_tokens a)) ∧ ∀ h t, (h, t) ∈ a_tokens a → tk_hash t = h.

Definition has_owner (o : string) (a : Auth) : Prop := ∃ k m, (k, m) ∈ a_members a ∧ mb_org m = o ∧ mb_role m = "owner".

(** Whose a token is and what it is for. *)
Definition same_bearer (t t' : Token) : Prop := tk_user t' = tk_user t ∧ tk_purpose t' = tk_purpose t.

Record evolves (a a' : Auth) : Prop := {
  ev_members : members_ok a → members_ok a';
  ev_owner : members_ok a → ∀ o, has_owner o a → has_owner o a';
  ev_keys : tokens_ok a → tokens_ok a';
  ev_tokens : ∀ h t', (h, t') ∈ a_tokens a' → (∃ t, (h, t) ∈ a_tokens a ∧ same_bearer t t') ∨ minted h;
}.

#[global] Instance evolves_preorder : PreOrder evolves.
Proof.
  split.
  - intros a. split; [done..|]. intros h t' Ht. left. by exists t'.
  - intros a b c [Hm Ho Hk Ht] [Hm' Ho' Hk' Ht']. split; [auto..|].
    intros h t' [(t & Hg & [Hu Hp])|Hx]%Ht'; [|by right].
    apply Ht in Hg as [(t0 & Hg0 & [Hu0 Hp0])|Hx]; [left|by right].
    exists t0. split; [done|]. split; congruence.
Qed.

(** Calls that write neither memberships nor tokens. *)
Lemma evolves_frame a a' : a_members a' = a_members a → a_tokens a' = a_tokens a → evolves a a'.
Proof.
  intros Hm Ht. split; unfold members_ok, has_owner, tokens_ok; rewrite ?Hm, ?Ht; [done..|].
  intros h t' Hg. left. by exists t'.
Qed.

(** A call that writes memberships alone. *)
Lemma evolves_members a l :
  (members_ok a → members_ok (with_members l a)) → (members_ok a → ∀ o, has_owner o a → has_owner o (with_members l a)) →
  evolves a (with_members l a).
Proof. intros H1 H2. split; [done..|]. intros h t' Hg. left. by exists t'. Qed.

(** A call that writes tokens alone. *)
Lemma evolves_tokens a l :
  (tokens_ok a → tokens_ok (with_tokens l a)) →
  (∀ h t', (h, t') ∈ l → (∃ t, (h, t) ∈ a_tokens a ∧ same_bearer t t') ∨ minted h) → evolves a (with_tokens l a).
Proof. intros H1 H2. split; [done..|exact H2]. Qed.

Lemma with_members_same a : with_members (a_members a) a = a.
Proof. by destruct a. Qed.

Lemma add_membership_evolves o u role team now a a' : add_membership o u role team now a = Ok a' → evolves a a'.
Proof.
  unfold add_membership, insert_ignore. destruct (negb _); [done|]. intros [= <-].
  destruct (dmem (a_members a) (o, u)) eqn:E; [by rewrite with_members_same|].
  assert (dget (a_members a) (o, u) = None) as Hn by (unfold dmem in E; by destruct (dget _ _)).
  apply evolves_members; rewrite dset_fresh by done.
  - intros [Hnd Hk]. split; cbn.
    + unfold dkeys. rewrite fmap_app. apply NoDup_app. split; [done|]. split; [|apply NoDup_singleton].
      intros x Hx ->%list_elem_of_singleton. by apply dget_none in Hn.
    + intros k m [Hin|[= -> ->]%list_elem_of_singleton]%elem_of_app; [by apply Hk|done].
  - intros _ o' (k & m & Hin & Hm). exists k, m. split; [apply elem_of_app; by left|done].
Qed.

(** Of two rows that pass a test, one is under another key than a given one. *)
Lemma filter_none_fmap {K V} (f : V → bool) (d : list (K * V)) :
  (∀ k v, (k, v) ∈ d → f v = false) → List.filter f d.*2 = [].
Proof.
  intros H. apply elem_of_nil_inv. intros x [([k v] & -> & Hin)%list_elem_of_fmap Hf]%elem_of_bfilter.
  cbn in Hf. by rewrite (H k v Hin) in Hf.
Qed.

Lemma other_of_two {K V} `{EqDecision K} (f : V → bool) (d : list (K * V)) k :
  NoDup (dkeys d) → 1 < length (List.filter f d.*2) → ∃ k' v, (k', v) ∈ d ∧ k' ≠ k ∧ f v = true.
Proof.
  induction d as [|[k0 v0] d IH]; [cbn; lia|]. intros [Hk0 Hnd]%NoDup_cons Hlen.
  cbn in Hlen. destruct (f v0) eqn:Ef.
  - destruct (decide (k0 = k)) as [->|Hne]; [|exists k0, v0; split; [left|done]].
    destruct (List.filter f d.*2) as [|x l] eqn:El; [cbn in Hlen; lia|].
    assert (x ∈ List.filter f d.*2) as [([k' v] & -> & Hin)%list_elem_of_fmap Hf]%elem_of_bfilter by (rewrite El; left).
    exists k', v. split; [by right|]. split; [|done]. intros ->. apply Hk0. by apply (list_elem_of_fmap_2 fst) in Hin.
  - destruct (IH Hnd Hlen) as (k' & v & Hin & ?). exists k', v. split; [by right|done].
Qed.

(** Two owners, when the count says more than one. *)
Lemma another_owner o u a :
  members_ok a → owner_count o a <=? 1 = false →
  ∃ k m, (k, m) ∈ a_members a ∧ k ≠ (o, u) ∧ mb_org m = o ∧ mb_role m = "owner".
Proof.
  intros [Hnd _] Hc%Nat.leb_gt. destruct (other_of_two _ _ (o, u) Hnd Hc) as (k & m & Hin & Hk & Hf).
  bool_to_prop. by exists k, m.
Qed.

Lemma update_role_evolves o u role m a :
  get_membership_in u o a = Some m → (mb_role m = "owner" → role ≠ "owner" → owner_count o a <=? 1 = false) →
  evolves a (with_members (dset (a_members a) (o, u) (with_role role m)) a).
Proof.
  unfold get_membership_in. intros Hg Hc. assert (members_ok a → (o, u) = (mb_org m, mb_user m)) as Hkey by (intros [_ Hk]; apply Hk; by apply dget_elem).
  apply evolves_members.
  - intros Hok. pose proof (Hkey Hok) as Heq. destruct Hok as [Hnd Hk]. split; [by apply NoDup_dset|].
    intros k x [ [-> ->]|Hin]%elem_of_dset; [done|by apply Hk].
  - intros Hok o' (k & x & Hin & Ho & Hr). destruct (decide (k = (o, u))) as [->|Hne].
    + assert (x = m) as -> by (apply (elem_dget (a_members a)) in Hin; [congruence|apply Hok]).
      destruct (decide (role = "owner")) as [->|Hrole].
      * exists (o, u), (with_role "owner" m). split; [apply dget_elem, dget_dset_eq|]. by split.
      * destruct (another_owner o u a Hok (Hc Hr Hrole)) as (k' & m' & Hin' & Hk' & Ho' & Hr').
        exists k', m'. split; [apply dget_elem; cbn; rewrite dget_dset_ne by done; by apply elem_dget; [apply Hok|]|].
        split; [|done]. injection (Hkey Hok) as Hq _. congruence.
    + exists k, x. split; [|done]. apply dget_elem. cbn. rewrite dget_dset_ne by done. apply elem_dget; [apply Hok|done].
Qed.

Lemma delete_member_evolves o u m a :
  get_membership_in u o a = Some m → (mb_role m = "owner" → owner_count o a <=? 1 = false) → evolves a (delete_member o u a).
Proof.
  unfold get_membership_in. intros Hg Hc. apply evolves_members.
  - intros [Hnd Hk]. split; [by apply NoDup_dpop|]. intros k x [_ Hin]%list_elem_of_filter. by apply Hk.
  - intros Hok o' (k & x & Hin & Ho & Hr). destruct (decide (k = (o, u))) as [->|Hne].
    + assert (x = m) as -> by (apply (elem_dget (a_members a)) in Hin; [congruence|apply Hok]).
      destruct (another_owner o u a Hok (Hc Hr)) as (k' & m' & Hin' & Hk' & Ho' & Hr').
      exists k', m'. split; [by apply list_elem_of_filter|]. split; [|done].
      apply Hok in Hin as [= -> _]. congruence.
    + exists k, x. split; [by apply list_elem_of_filter|done].
Qed.

Lemma set_role_evolves o u role r a a' : set_role o u role a = Ok (r, a') → evolves a a'.
Proof.
  unfold set_role, role_decision, update_role. destruct (negb (role ∈? ROLES)); [done|].
  destruct (get_membership_in u o a) as [m|] eqn:Hg; cbn; [|by intros [= <- <-]].
  destruct (_ && _ && _) eqn:E; [done|]. cbn. intros [= <- <-]. eapply update_role_evolves; [exact Hg|].
  intros Hm Hr. rewrite Hm, !bool_decide_eq_true_2, bool_decide_eq_false_2 in E by done. exact E.
Qed.

Lemma remove_membership_evolves o u r a a' : remove_membership o u a = Ok (r, a') → evolves a a'.
Proof.
  unfold remove_membership, removal_decision. destruct (get_membership_in u o a) as [m|] eqn:Hg; cbn; [|by intros [= <- <-]].
  destruct (_ && _) eqn:E; cbn; [done|]. intros [= <- <-]. eapply delete_member_evolves; [exact Hg|].
  intros Hm. rewrite Hm, bool_decide_eq_true_2 in E by done. exact E.
Qed.

Lemma resolve_evolves u preferred now a : evolves a (resolve_membership u preferred now a).2.
Proof.
  unfold resolve_membership. set (a1 := create_org _ _ now a). assert (evolves a a1) as H1 by by apply evolves_frame.
  pose proof (add_membership_evolves ("o_" +:+ u) u "owner" None now a1) as H2.
  destruct (match nonempty preferred with Some _ => _ | None => None end); [reflexivity|].
  destruct (get_membership u a); [reflexivity|]. cbn [snd].
  destruct (add_membership _ u "owner" None now a1) as [a2|e]; [|done]. etrans; [exact H1|by apply H2].
Qed.

Lemma insert_user_evolves x a a' : insert_user x a = Ok a' → evolves a a'.
Proof. unfold insert_user. destruct (_ || _); [done|]. intros [= <-]. by apply evolves_frame. Qed.

Lemma update_user_evolves u f a : evolves a (update_user u f a).
Proof. unfold update_user. destruct (get_user u a); by apply evolves_frame. Qed.

Lemma set_user_oidc_evolves u i s a a' : set_user_oidc u i s a = Ok a' → evolves a a'.
Proof. unfold set_user_oidc. destruct (existsb _ _); [done|]. intros [= <-]. apply update_user_evolves. Qed.

(** *** Tokens *)

(** Fewer tokens. *)
Lemma sub_tokens_evolves a (l : list (string * Token)) :
  (NoDup (dkeys (a_tokens a)) → NoDup (dkeys l)) → (∀ x, x ∈ l → x ∈ a_tokens a) → evolves a (with_tokens l a).
Proof.
  intros Hnd Hsub. apply evolves_tokens.
  - intros [Hd Hk]. split; [by apply Hnd|]. intros h t Hin. by apply Hk, Hsub.
  - intros h t' Hin. left. exists t'. split; [by apply Hsub|done].
Qed.

Lemma drop_tokens_evolves f a : evolves a (drop_tokens f a).
Proof.
  apply sub_tokens_evolves; [|by intros x [? _]%elem_of_bfilter].
  induction (a_tokens a) as [|[h t] l IH]; cbn; [done|]. intros [Hn Hd]%NoDup_cons.
  destruct (negb (f t)); [|by apply IH]. apply NoDup_cons. split; [|by apply IH].
  intros Hin. apply Hn. apply list_elem_of_fmap in Hin as (x & Hx & [Hin _]%elem_of_bfilter). apply list_elem_of_fmap. by exists x.
Qed.

Lemma delete_token_evolves h a : evolves a (delete_token h a).
Proof. apply sub_tokens_evolves; [apply NoDup_dpop|]. by intros x [_ ?]%list_elem_of_filter. Qed.

Lemma update_token_evolves h f a :
  (∀ t, same_bearer t (f t) ∧ tk_hash (f t) = tk_hash t) → evolves a (update_token h f a).
Proof.
  intros Hf. unfold update_token. destruct (dget (a_tokens a) h) as [t|] eqn:Hg; [|reflexivity].
  apply dget_elem in Hg. apply evolves_tokens.
  - intros [Hnd Hk]. split; [by apply NoDup_dset|]. intros h' t' [ [-> ->]|Hin]%elem_of_dset; [|by apply Hk].
    rewrite (proj2 (Hf t)). by apply Hk.
  - intros h' t' [ [-> ->]|Hin]%elem_of_dset; left; [exists t|exists t']; (split; [done|]); [apply Hf|done].
Qed.

Lemma mint_token_evolves raw u p ttl sup label org now a a' :
  minted (sha raw) → mint_token sha raw u p ttl sup label org now a = Ok a' → evolves a a'.
Proof.
  intros Hm. unfold mint_token. set (a1 := if sup then _ else a). assert (evolves a a1) as H1.
  { unfold a1. destruct sup; [apply drop_tokens_evolves|reflexivity]. }
  destruct (dmem (a_tokens a1) (sha raw)); [done|]. intros [= <-]. etrans; [exact H1|]. apply evolves_tokens.
  - intros [Hnd Hk]. split; [by apply NoDup_dset|]. intros h t [ [-> ->]|Hin]%elem_of_dset; [done|by apply Hk].
  - intros h t [ [-> ->]|Hin]%elem_of_dset; [by right|]. left. by exists t.
Qed.

Lemma mint_api_evolves raw u label org days now r a a' :
  minted (sha raw) → mint_api_token sha raw u label org days now a = Ok (r, a') → evolves a a'.
Proof.
  intros Hm. unfold mint_api_token. destruct (mint_token _ _ _ _ _ _ _ _ _ _) as [a1|] eqn:E; cbn; [|done].
  intros [= _ <-]. by eapply mint_token_evolves.
Qed.

Lemma rotate_evolves raw u tid grace now r a a' :
  minted (sha raw) → rotate_api_token sha raw u tid grace now a = Ok (r, a') → evolves a a'.
Proof.
  intros Hm. unfold rotate_api_token. destruct (find_token _ tid a) as [t|]; [|by intros [= _ <-]].
  destruct (mint_api_token _ _ _ _ _ _ _ _) as [[i a1]|] eqn:E; cbn; [|done].
  assert (evolves a (update_token (sha raw) (with_rotated now) a1)) as H1.
  { etrans; [by eapply mint_api_evolves|]. by apply update_token_evolves. }
  case_match; intros [= _ <-]; (etrans; [exact H1|]); [apply delete_token_evolves|by apply update_token_evolves].
Qed.

Lemma foldl_evolves {B} (f : Auth → B → Auth) l a : (∀ a b, evolves a (f a b)) → evolves a (foldl f a l).
Proof. intros Hf. revert a. induction l as [|b l IH]; intros a; cbn; [reflexivity|]. etrans; [apply Hf|apply IH]. Qed.

Lemma revoke_org_evolves o user ses svc a : evolves a (revoke_org_credentials o user ses svc a).2.
Proof.
  unfold revoke_org_credentials.
  set (ps := _ ++ _ ++ _). set (f := foldl _).
  assert (∀ s, evolves s.2 (f s ps).2) as H.
  { unfold f. induction ps as [|p l IH]; intros s; cbn; [reflexivity|]. etrans; [|apply IH]. apply drop_tokens_evolves. }
  specialize (H ([], a)). by destruct (f ([], a) ps).
Qed.

Lemma consume_evolves raw p now a : evolves a (consume_token sha raw p now a).2.
Proof. unfold consume_token. destruct (token_row _ _ _ _); [apply delete_token_evolves|reflexivity]. Qed.

Lemma revoke_found_evolves t a : evolves a (revoke_found t a).2.
Proof. destruct t; [apply delete_token_evolves|reflexivity]. Qed.

Lemma bearer_evolves raw now a : evolves a (resolve_bearer sha raw now a).2.
Proof.
  unfold resolve_bearer. destruct (dget _ _) as [t|]; [|reflexivity]. destruct (_ ∈? _); [|reflexivity].
  destruct (Qltb _ _); [reflexivity|]. cbn [snd]. case_match; [by apply update_token_evolves|reflexivity].
Qed.

Lemma login_evolves fresh issuer sub email o now r a a' :
  provision_sso_login fresh issuer sub email o now a = Ok (r, a') → evolves a a'.
Proof.
  unfold provision_sso_login. destruct (get_user_by_oidc issuer sub a) as [u|]; [by intros [= _ <-]|].
  destruct (get_user_by_email email a) as [u|].
  - destruct (set_user_oidc _ _ _ a) as [a1|] eqn:E1; cbn [res_bind]; [|done].
    destruct (add_membership _ _ _ _ _ a1) as [a2|] eqn:E2; cbn [res_bind]; [|done]. intros [= _ <-].
    etrans; [by eapply set_user_oidc_evolves|by eapply add_membership_evolves].
  - destruct (insert_user _ a) as [a1|] eqn:E1; cbn [res_bind]; [|done].
    destruct (add_membership _ _ _ _ _ a1) as [a2|] eqn:E2; cbn [res_bind]; [|done]. intros [= _ <-].
    etrans; [by eapply insert_user_evolves|by eapply add_membership_evolves].
Qed.

Lemma scim_evolves fresh o email role e i now r a a' :
  scim_provision fresh o email role e i now a = Ok (r, a') → evolves a a'.
Proof.
  unfold scim_provision. destruct (get_user_by_email email a) as [u|].
  - set (m := match nonempty e with Some _ => _ | None => Ok a end).
    assert (∀ a1, m = Ok a1 → evolves a a1) as Hm.
    { unfold m. intros a1. repeat case_match; try (by intros [= <-]); apply set_user_oidc_evolves. }
    destruct m as [a1|]; cbn [res_bind]; [|done].
    destruct (add_membership _ _ _ _ _ a1) as [a2|] eqn:E2; cbn [res_bind]; [|done]. intros [= _ <-].
    etrans; [by apply Hm|by eapply add_membership_evolves].
  - destruct (insert_user _ a) as [a1|] eqn:E1; cbn [res_bind]; [|done].
    destruct (add_membership _ _ _ _ _ a1) as [a2|] eqn:E2; cbn [res_bind]; [|done]. intros [= _ <-].
    etrans; [by eapply insert_user_evolves|by eapply add_membership_evolves].
Qed.

Lemma deactivate_evolves o u r a a' : scim_deactivate o u a = Ok (r, a') → evolves a a'.
Proof.
  unfold scim_deactivate. destruct (remove_membership o u a) as [[w a1]|] eqn:E; cbn [res_bind]; [|done].
  apply remove_membership_evolves in E. case_match; intros [= _ <-]; (etrans; [exact E|]);
    [etrans; apply drop_tokens_evolves|apply drop_tokens_evolves].
Qed.

Lemma accept_evolves t u now r a a' : accept_invitation t u now a = Ok (r, a') → evolves a a'.
Proof.
  unfold accept_invitation. destruct (pending t a) as [i|]; [|by intros [= _ <-]].
  destruct (add_membership _ _ _ _ _ a) as [a1|] eqn:E; cbn [res_bind]; [|done]. intros [= _ <-].
  etrans; [by eapply add_membership_evolves|by apply evolves_frame].
Qed.

Lemma create_user_evolves u email pw v now a a' : create_user u email pw v now a = Ok a' → evolves a a'.
Proof.
  unfold create_user. destruct (insert_user _ a) as [a1|] eqn:E; cbn [res_bind]; [|done]. intros [= <-].
  etrans; [by eapply insert_user_evolves|apply resolve_evolves].
Qed.

Lemma backfill_evolves now a : evolves a (backfill_personal_orgs now a).2.
Proof. apply foldl_evolves. intros b u. apply resolve_evolves. Qed.

Lemma rename_team_evolves o t name a : evolves a (rename_team o t name a).2.
Proof. unfold rename_team. destruct (team_in o t a); by apply evolves_frame. Qed.

Lemma delete_team_evolves o t a : evolves a (delete_team o t a).2.
Proof. unfold delete_team. destruct (team_in o t a); by apply evolves_frame. Qed.

Lemma update_org_evolves o f a : evolves a (update_org o f a).
Proof. unfold update_org. destruct (get_org o a); by apply evolves_frame. Qed.

Lemma invite_evolves i t o email role now r a a' : create_invitation i t o email role now a = Ok (r, a') → evolves a a'.
Proof.
  unfold create_invitation. destruct (negb _); [done|]. destruct (_ || _); [done|]. intros [= _ <-]. by apply evolves_frame.
Qed.

Lemma mint_service_evolves raw o label days now r a a' :
  minted (sha raw) → mint_service_token sha raw o label days now a = Ok (r, a') → evolves a a'.
Proof.
  intros Hm. unfold mint_service_token. destruct (mint_token _ _ _ _ _ _ _ _ _ _) as [a1|] eqn:E; cbn; [|done].
  intros [= _ <-]. by eapply mint_token_evolves.
Qed.

Lemma set_session_org_evolves raw o a : evolves a (set_session_org sha raw o a).
Proof. unfold set_session_org. destruct (token_row _ _ _ _); [by apply update_token_evolves|reflexivity]. Qed.

Create HintDb evolution.
Hint Resolve add_membership_evolves resolve_evolves backfill_evolves set_role_evolves remove_membership_evolves accept_evolves
  create_user_evolves update_user_evolves login_evolves scim_evolves deactivate_evolves mint_token_evolves mint_api_evolves
  rotate_evolves consume_evolves delete_token_evolves revoke_found_evolves bearer_evolves revoke_org_evolves rename_team_evolves
  delete_team_evolves update_org_evolves invite_evolves mint_service_evolves set_session_org_evolves : evolution.

Lemma step_evolves a a' : store_step a a' → evolves a a'.
Proof. destruct 1; first [by apply evolves_frame|solve [eauto with evolution]|apply delete_token_evolves|apply revoke_found_evolves]. Qed.

Lemma history_evolves a a' : history a a' → evolves a a'.
Proof. induction 1; [reflexivity|]. etrans; [by apply step_evolves|done]. Qed.

(** C12: Whatever calls follow each other, an organisation that has an owner keeps one, and every
    membership row stays the single one of its organisation and user. *)
Theorem owner_remains a a' o :
  members_ok a → history a a' → has_owner o a → has_owner o a' ∧ 1 ≤ owner_count o a' ∧ members_ok a'.
Proof.
  intros Hok [Hm Ho _ _]%history_evolves Hown. specialize (Ho Hok o Hown). split; [done|]. split; [|by apply Hm].
  destruct Ho as (k & m & Hin & Hmo & Hr). unfold owner_count.
  assert (m ∈ List.filter (λ m, (mb_org m ≡? o) && (mb_role m ≡? "owner")) (a_members a').*2) as Hf.
  { apply elem_of_bfilter. split; [by apply (list_elem_of_fmap_2 snd) in Hin|]. by rewrite !bool_decide_eq_true_2. }
  destruct (List.filter _ _); [by apply elem_of_nil in Hf|cbn; lia].
Qed.

(** A secret whose row is gone, and what the three readers answer to it. *)
Definition refused (raw : string) (a : Auth) : Prop :=
  ∀ p now, lookup_token sha raw p now a = None ∧ consume_token sha raw p now a = (None, a) ∧ token_org sha raw p a = None
    ∧ resolve_bearer sha raw now a = (None, a).

Lemma refused_iff raw a : dget (a_tokens a) (sha raw) = None → refused raw a.
Proof.
  intros Hn p now. unfold lookup_token, consume_token, token_org, token_row, resolve_bearer. by rewrite Hn.
Qed.

Lemma gone_stays_gone raw a a' :
  dget (a_tokens a) (sha raw) = None → ¬ minted (sha raw) → history a a' → refused raw a'.
Proof.
  intros Hn Hm [_ _ _ Ht]%history_evolves. apply refused_iff. destruct (dget (a_tokens a') (sha raw)) as [t|] eqn:E; [|done].
  exfalso. apply dget_elem, Ht in E as [(t0 & Hin & _)|?]; [|done]. apply dget_none in Hn. apply Hn.
  by apply (list_elem_of_fmap_2 fst) in Hin.
Qed.

(** C13: A single-use secret works once and a revoked one never again: after it was consumed (even
    when it had expired) or revoked, no reader accepts it after any sequence of calls that does not
    mint the same secret. *)
Theorem dead_secret_stays_dead raw a a1 a' :
  (∃ p now u, consume_token sha raw p now a = (Some u, a1)) ∨ a1 = revoke_token sha raw a ∨
    (∃ p now, token_row sha raw p a ≠ None ∧ a1 = (consume_token sha raw p now a).2) →
  ¬ minted (sha raw) → history a1 a' → refused raw a'.
Proof.
  intros Hk Hm Hh. refine (gone_stays_gone raw a1 a' _ Hm Hh). clear Hm Hh. unfold consume_token in Hk.
  destruct Hk as [(p & now & u & Hc)|[->|(p & now & Hr & ->)] ].
  - destruct (token_row sha raw p a); [|done]. injection Hc as _ <-. apply dget_dpop_eq.
  - apply dget_dpop_eq.
  - destruct (token_row sha raw p a); [|done]. apply dget_dpop_eq.
Qed.

(** A token never changes hands: whoever a reader names as its user was its user when the
    history began, for the same purpose, unless it was minted in between. *)
Theorem token_keeps_user raw p now u a a' :
  tokens_ok a → ¬ minted (sha raw) → history a a' → lookup_token sha raw p now a' = Some u →
  ∃ t, dget (a_tokens a) (sha raw) = Some t ∧ tk_user t = u ∧ tk_purpose t = p.
Proof.
  intros Hok Hm [_ _ _ Ht]%history_evolves. unfold lookup_token, token_row.
  destruct (dget (a_tokens a') (sha raw)) as [t'|] eqn:E; [|done].
  destruct (tk_purpose t' ≡? p) eqn:Ep; [|done]. destruct (Qltb _ _); [done|]. intros [= <-]. bool_to_prop.
  apply dget_elem, Ht in E as [(t & Hin & Hu & Hp)|?]; [|done]. exists t.
  split; [apply elem_dget; [apply Hok|done]|]. split; congruence.
Qed.
End steps.

(** ** The organisation a user acts in *)

Lemma memberships_of_elem u m a : members_ok a → m ∈ memberships_of u a ↔ dget (a_members a) (mb_org m, u) = Some m ∧ mb_user m = u.
Proof.
  intros [Hnd Hk]. unfold memberships_of, by_created. rewrite elem_of_sort_by, elem_of_bfilter, list_elem_of_fmap. split.
  - intros [([k x] & -> & Hin) Hu]. bool_to_prop. cbn in *. split; [|done]. apply elem_dget; [done|]. rewrite <- Hu.
    by rewrite <- (Hk k x Hin).
  - intros [Hg <-]. split; [exists ((mb_org m, mb_user m), m); split; [done|by apply dget_elem]|by apply bool_decide_eq_true_2].
Qed.

Lemma no_membership u o a : members_ok a → get_membership u a = None → dget (a_members a) (o, u) = None.
Proof.
  intros Hok Hn. destruct (dget (a_members a) (o, u)) as [m|] eqn:E; [|done]. exfalso.
  assert (m ∈ memberships_of u a) as Hin.
  { apply memberships_of_elem; [done|]. pose proof (proj2 Hok _ _ (dget_elem _ _ _ E)) as [= -> ->]. done. }
  unfold get_membership in Hn. destruct (memberships_of u a); [by apply elem_of_nil in Hin|done].
Qed.

(** The organisation a caller acts in is always one they hold a membership of, with the role
    and team of that row: the one their credential names while they still hold it, else their
    oldest, else the personal one that is then created; asking again, at any later time, answers
    the same. *)
Theorem resolve_membership_sound u preferred now later a m a' :
  members_ok a → resolve_membership u preferred now a = (m, a') →
  get_membership_in u (mb_org m) a' = Some m ∧ mb_user m = u ∧
  (∀ o m', preferred = Some o → o ≠ "" → get_membership_in u o a = Some m' → m = m' ∧ mb_org m = o) ∧
  (∀ m', get_membership u a = Some m' → a' = a) ∧
  (get_membership u a = None → mb_org m = "o_" +:+ u ∧ mb_role m = "owner") ∧
  resolve_membership u preferred later a' = (m, a').
Proof.
  intros Hok. unfold resolve_membership.
  destruct (match nonempty preferred with Some o => get_membership_in u o a | None => None end) as [m0|] eqn:Ep.
  { destruct (nonempty preferred) as [o|] eqn:En; [|done]. intros [= <- <-].
    pose proof (proj2 Hok _ _ (dget_elem _ _ _ Ep)) as Hkey. injection Hkey as Ho Hu.
    split; [by rewrite <- Ho|]. split; [done|]. split.
    { intros o' m' -> Hne Hm'. cbn in En. rewrite bool_decide_eq_false_2 in En by done. injection En as ->. split; congruence. }
    split; [done|]. split; [|by rewrite Ep].
    intros Hn. by rewrite (no_membership u o a Hok Hn : get_membership_in u o a = None) in Ep. }
  assert (∀ o m', preferred = Some o → o ≠ "" → get_membership_in u o a = Some m' → False) as Hpref.
  { intros o m' -> Hne Hm'. cbn in Ep. rewrite bool_decide_eq_false_2 in Ep by done. congruence. }
  destruct (get_membership u a) as [m0|] eqn:Em.
  { intros [= <- <-]. assert (m0 ∈ memberships_of u a) as Hin.
    { unfold get_membership in Em. apply head_Some_elem_of. exact Em. }
    apply (memberships_of_elem u m0 a Hok) in Hin as [Hg Hu].
    split; [done|]. split; [done|]. split; [intros; exfalso; by eapply Hpref|]. split; [done|]. split; [done|]. by rewrite Ep, Em. }
  set (o := "o_" +:+ u). set (m1 := {| mb_org := o; mb_user := u; mb_team := None; mb_role := "owner"; mb_created := now |}).
  set (a1 := create_org o _ now a).
  assert (dget (a_members a) (o, u) = None) as Hno by by apply no_membership.
  assert (add_membership o u "owner" None now a1 = Ok (with_members (dset (a_members a) (o, u) m1) a1)) as ->.
  { unfold add_membership, insert_ignore, dmem. change (a_members a1) with (a_members a). by rewrite Hno. }
  intros [= <- <-]. set (a2 := with_members _ a1).
  assert (get_membership_in u o a2 = Some m1) as Hg by apply dget_dset_eq.
  assert (get_membership u a2 = Some m1) as Hm.
  { unfold get_membership, memberships_of. change (a_members a2) with (dset (a_members a) (o, u) m1).
    rewrite (dset_fresh _ _ _ Hno), fmap_app, List.filter_app. cbn. rewrite bool_decide_eq_true_2 by done.
    assert (List.filter (λ m, mb_user m ≡? u) (a_members a).*2 = []) as ->; [|done].
    apply filter_none_fmap. intros [o' u'] x Hin. apply bool_decide_eq_false_2. intros <-.
    pose proof (proj2 Hok _ _ Hin) as [= -> ->]. apply (elem_dget (a_members a)) in Hin; [|apply Hok].
    by rewrite (no_membership (mb_user x) (mb_org x) a Hok Em) in Hin. }
  split; [done|]. split; [done|]. split; [intros; exfalso; by eapply Hpref|]. split; [done|]. split; [done|].
  destruct (nonempty preferred) as [p|] eqn:Ep'; [|by rewrite Hm].
  destruct (get_membership_in u p a2) as [m2|] eqn:E2; [|by rewrite Hm].
  destruct (decide (p = o)) as [->|Hne]; [by rewrite Hg in E2; injection E2 as <-|].
  unfold get_membership_in in E2, Ep. cbn in E2. rewrite dget_dset_ne in E2 by congruence. congruence.
Qed.

(** ** Deprovisioning *)

Lemma elem_of_drop f a x : x ∈ a_tokens (drop_tokens f a) ↔ x ∈ a_tokens a ∧ f x.2 = false.
Proof. unfold drop_tokens. cbn. rewrite elem_of_bfilter, negb_true_iff. done. Qed.

Lemma removed_member o u a w a1 :
  remove_membership o u a = Ok (w, a1) →
  a_tokens a1 = a_tokens a ∧ (∀ k, dget (a_members a1) k = if decide (k = (o, u)) then None else dget (a_members a) k).
Proof.
  unfold remove_membership, removal_decision. destruct (get_membership_in u o a) as [m|] eqn:E; cbn.
  - destruct (_ && _); cbn; [done|]. intros [= <- <-]. split; [done|]. intros k. cbn.
    case_decide as H; [subst; apply dget_dpop_eq|by apply dget_dpop_ne].
  - intros [= <- <-]. split; [done|]. intros k. case_decide as H; [by subst|done].
Qed.

(** Deprovisioning a user from an organisation removes that membership and no other, revokes
    every credential of theirs that is bound to it, their unbound ones exactly when they have no
    organisation left, and nobody else's. *)
Theorem deactivate_exact o u a d a' :
  scim_deactivate o u a = Ok (d, a') →
  (∀ k, dget (a_members a') k = if decide (k = (o, u)) then None else dget (a_members a) k) ∧
  (de_last d = true ↔ list_user_memberships u a' = []) ∧
  (∀ h t, (h, t) ∈ a_tokens a' ↔ (h, t) ∈ a_tokens a ∧
     (tk_user t ≠ u ∨ (tk_org t ≠ Some o ∧ (de_last d = true → tk_org t ≠ None)))).
Proof.
  unfold scim_deactivate. destruct (remove_membership o u a) as [[w a1]|] eqn:E; cbn [res_bind]; [|done].
  apply removed_member in E as [Ht Hm]. set (bound := λ t, _ && _). set (unbound := λ t, (tk_user t ≡? u) && (tk_org t ≡? None)).
  set (a2 := drop_tokens bound a1).
  assert (∀ t, bound t = false ↔ tk_user t ≠ u ∨ tk_org t ≠ Some o) as Hb.
  { intros t. unfold bound. rewrite andb_false_iff, !bool_decide_eq_false. done. }
  assert (∀ t, unbound t = false ↔ tk_user t ≠ u ∨ tk_org t ≠ None) as Hub.
  { intros t. unfold unbound. rewrite andb_false_iff, !bool_decide_eq_false. done. }
  destruct (list_user_memberships u a2) as [|x l] eqn:El; intros [= <- <-]; (split; [exact Hm|]); cbn [de_last].
  - split; [done|]. intros h t. rewrite elem_of_drop. unfold a2. rewrite elem_of_drop, Ht. cbn [snd]. rewrite Hb, Hub.
    destruct (decide (tk_user t = u)); naive_solver.
  - split; [split; [done|]; rewrite El; done|]. intros h t. unfold a2. rewrite elem_of_drop, Ht. cbn [snd]. rewrite Hb.
    destruct (decide (tk_user t = u)); naive_solver.
Qed.

(** The groups of a user never make them an owner, and never less than a member. *)
Lemma scim_role_foldl m gs best :
  best = ("member", 2) ∨ best = ("admin", 3) →
  foldl (scim_step m) best gs =
    if (best.1 ≡? "admin") || existsb (λ g, match dget m g with Some r => r ≡? "admin" | None => false end) gs then ("admin", 3) else ("member", 2).
Proof.
  revert best. induction gs as [|g gs IH]; intros best Hb; cbn [foldl existsb].
  { destruct Hb as [-> | ->]; reflexivity. }
  assert (scim_step m best g = if (best.1 ≡? "admin") || match dget m g with Some r => r ≡? "admin" | None => false end then ("admin", 3) else ("member", 2)) as Hs.
  { unfold scim_step. destruct (dget m g) as [r|]; [|by destruct Hb as [-> | ->]].
    destruct (decide (r = "owner")) as [->|Ho]; [by destruct Hb as [-> | ->]|]. rewrite bool_decide_eq_false_2 by done.
    unfold scim_rank. cbn. destruct (decide (r = "auditor")) as [->|]; [by destruct Hb as [-> | ->]|].
    destruct (decide (r = "member")) as [->|]; [by destruct Hb as [-> | ->]|].
    destruct (decide (r = "admin")) as [->|]; [by destruct Hb as [-> | ->]|].
    rewrite (bool_decide_eq_false_2 (r = "admin")) by done. by destruct Hb as [-> | ->]. }
  rewrite Hs. rewrite IH.
  - destruct (best.1 ≡? "admin"), (match dget m g with Some r => r ≡? "admin" | None => false end), (existsb _ gs); reflexivity.
  - destruct (_ || _); auto.
Qed.

(** The role of a provisioned user is admin when one of their groups maps to it and member in every
    other case: a group that maps to the read-only auditor makes its users members. *)
Theorem scim_role_exact gs m :
  resolve_scim_role gs m = if existsb (λ g, match dget m g with Some r => r ≡? "admin" | None => false end) gs then "admin" else "member".
Proof.
  unfold resolve_scim_role. rewrite scim_role_foldl by auto. cbn. by destruct (existsb _ gs).
Qed.

Example auditor_group_grants_member : resolve_scim_role ["compliance"] [("compliance", "auditor")] = "member".
Proof. reflexivity. Qed.

(** ** Isolation of organisations *)

(** What the overlays hold for one scope, an organisation's or a team's. *)
Definition scope_view (t : Overlays) (k : string) :=
  (get_catalog_policy k t, get_routing_policy k t, get_budget k t, list_adoptions k t, list_price_overrides [k] t).

(** The teams of an organisation, the deleted ones included, and its scopes. *)
Definition teams_of (o : string) (a : Auth) : list (string * Team) :=
  List.filter (λ kt : string * Team, te_org kt.2 ≡? o) (a_teams a).

Definition scopes_of (o : string) (a : Auth) : list string := o :: dkeys (teams_of o a).

(** What the store keeps for an organisation. *)
Record OrgView := {
  ow_org : option Org;
  ow_teams : list (string * Team);
  ow_members : list Member;
  ow_invites : list Invitation;
  ow_tokens : list Token;
  ow_overlays : list (option (Scoped CatalogBlob) * option (Scoped RoutingBlob) * option (Scoped BudgetRow) *
                      list (string * Adoption) * list PriceOverride);
}.

Definition org_view (o : string) (a : Auth) : OrgView :=
  {| ow_org := get_org o a;
     ow_teams := teams_of o a;
     ow_members := List.filter (λ m, mb_org m ≡? o) (a_members a).*2;
     ow_invites := List.filter (λ i, iv_org i ≡? o) (a_invites a).*2;
     ow_tokens := List.filter (λ t, tk_org t ≡? Some o) (a_tokens a).*2;
     ow_overlays := scope_view (a_overlays a) <$> scopes_of o a |}.

(** The calls that write the overlays of the scope [k] for the organisation [o]. *)
Inductive scope_write (k o : string) (t : Overlays) : Overlays → Prop :=
  | write_catalog by_ b r t' : set_catalog_policy k o by_ b t = Ok (r, t') → scope_write k o t t'
  | write_routing by_ b r t' : set_routing_policy k o by_ b t = Ok (r, t') → scope_write k o t t'
  | write_budget by_ usd act ts r t' : set_budget k o by_ usd act ts t = Ok (r, t') → scope_write k o t t'
  | write_no_budget : scope_write k o t (delete_budget k t).2
  | write_adoption i ad : scope_write k o t (add_adoption k i ad t).2
  | write_unadoption i : scope_write k o t (remove_adoption k i t).2
  | write_price m row : scope_write k o t (set_price_override k m row t).2
  | write_no_price m : scope_write k o t (remove_price_override k m t).2.

(** The calls of an administrator of [o]: the organisation is the first argument, and a scope is
    the organisation's or one of its teams'.  The id a team is created with is nobody's yet. *)
Inductive org_step (sha : string → string) (o : string) (a : Auth) : Auth → Prop :=
  | org_team t name now : dget (a_teams a) t = None → get_org t a = None → org_step sha o a (create_team t o name now a)
  | org_rename_team t name : org_step sha o a (rename_team o t name a).2
  | org_delete_team t : org_step sha o a (delete_team o t a).2
  | org_add u role team now a' : add_membership o u role team now a = Ok a' → org_step sha o a a'
  | org_set_role u role r a' : set_role o u role a = Ok (r, a') → org_step sha o a a'
  | org_remove u r a' : remove_membership o u a = Ok (r, a') → org_step sha o a a'
  | org_rename name : org_step sha o a (rename_org o name a)
  | org_zero on : org_step sha o a (set_zero_retention o on a)
  | org_retention p : org_step sha o a (set_retention_policy o p a)
  | org_tokens cap grace : org_step sha o a (set_token_policy o cap grace a)
  | org_invite i t email role now r a' : create_invitation i t o email role now a = Ok (r, a') → org_step sha o a a'
  | org_mint raw label days now r a' : mint_service_token sha raw o label days now a = Ok (r, a') → org_step sha o a a'
  | org_revoke tid : org_step sha o a (revoke_service_token o tid a).2
  | org_revoke_all user ses svc : org_step sha o a (revoke_org_credentials o user ses svc a).2
  | org_deactivate u r a' : scim_deactivate o u a = Ok (r, a') → org_step sha o a a'
  | org_scope k t' : k ∈ scopes_of o a → scope_write k o (a_overlays a) t' → org_step sha o a (with_overlays t' a).

(** The organisation [o] exists, and no team goes by its id, nor two teams by one. *)
Definition apart (o : string) (a : Auth) : Prop :=
  NoDup (dkeys (a_teams a)) ∧ dget (a_teams a) o = None ∧ get_org o a ≠ None.

Lemma filter_dset_other {K V} `{EqDecision K} (f : V → bool) (d : list (K * V)) k v :
  f v = false → (∀ w, dget d k = Some w → f w = false) → List.filter f (dset d k v).*2 = List.filter f d.*2.
Proof.
  intros Hv. induction d as [|[k' w] d IH]; cbn; intros Hw; [by rewrite Hv|].
  case_decide as E; cbn; [by rewrite Hv, (Hw w eq_refl)|]. by rewrite IH.
Qed.

Lemma filter_dpop_other {K V} `{EqDecision K} (f : V → bool) (d : list (K * V)) k :
  (∀ w, (k, w) ∈ d → f w = false) → List.filter f (dpop d k).*2 = List.filter f d.*2.
Proof.
  unfold dpop. induction d as [|[k' w] d IH]; intros Hw; [done|]. rewrite filter_cons. cbn in *. case_decide as E; cbn.
  - rewrite IH; [done|]. intros w' Hin. apply Hw. by right.
  - destruct (decide (k' = k)) as [->|]; [|tauto]. rewrite (Hw w) by left. apply IH. intros w' Hin. apply Hw. by right.
Qed.

Lemma filter_bfilter_other {K V} (f : V → bool) (g : K * V → bool) (d : list (K * V)) :
  (∀ k v, g (k, v) = false → f v = false) → List.filter f (List.filter g d).*2 = List.filter f d.*2.
Proof.
  intros H. induction d as [|[k v] d IH]; cbn; [done|]. destruct (g (k, v)) eqn:E; cbn; [by rewrite IH|].
  by rewrite IH, (H k v E).
Qed.

Lemma omap_filter {A B} (g : A → option B) (l : list A) : omap g l = omap g (List.filter (λ x, present (g x)) l).
Proof.
  induction l as [|x l IH]; [done|]. cbn. destruct (g x) eqn:E; cbn; [by rewrite E, IH|done].
Qed.

(** The rows of a scope are those of the filtered table. *)
Lemma rows_of_filter {V} (k : string) (t t' : list (string * string * V)) :
  List.filter (λ r : string * string * V, r.1.1 ≡? k) t' = List.filter (λ r : string * string * V, r.1.1 ≡? k) t →
  rows_of k t' = rows_of k t.
Proof.
  intros H. unfold rows_of. f_equal. rewrite (omap_filter _ t'), (omap_filter _ t). f_equal.
  assert (∀ l : list (string * string * V), List.filter (λ r, present (if r.1.1 ≡? k then Some (r.1.2, r.2) else None)) l
    = List.filter (λ r, r.1.1 ≡? k) l) as Hf.
  { intros l. apply List.filter_ext. intros r. by destruct (r.1.1 ≡? k). }
  by rewrite !Hf.
Qed.

Lemma scoped_get_dset_other {V} (t : list (string * Scoped V)) k k' v : k' ≠ k → scoped_get (dset t k v) k' = scoped_get t k'.
Proof. intros H. unfold scoped_get. destruct (k' ≡? ""); [done|]. by rewrite dget_dset_ne. Qed.

(** A write in one scope is not seen in another. *)
Lemma scope_write_other k o t t' k' : scope_write k o t t' → k' ≠ k → scope_view t' k' = scope_view t k'.
Proof.
  intros Hw Hne. assert ((k ≡? k') = false) as Hkk by (apply bool_decide_eq_false_2; congruence).
  set (seen_in := λ r : PriceOverride, r.1.1 ∈? List.filter (λ s, negb (s ≡? "")) [k']).
  assert (∀ r : PriceOverride, r.1.1 = k → seen_in r = false) as Hscope.
  { intros r Hr. apply bool_decide_eq_false_2. rewrite Hr. cbn. destruct (negb _); [|apply not_elem_of_nil].
    intros ->%list_elem_of_singleton. done. }
  destruct Hw as [by_ b r t' H|by_ b r t' H|by_ usd act ts r t' H| |i ad|i|m row|m].
  - unfold set_catalog_policy in H. destruct (negb _); [done|]. injection H as _ <-.
    unfold scope_view, get_catalog_policy. cbn. unfold upsert_scoped. by rewrite scoped_get_dset_other.
  - assert (t' = set_routings (upsert_scoped (routing_policies t) k o by_ (stored_routing b)) t) as ->
      by (unfold set_routing_policy in H; repeat case_match; by simplify_eq).
    unfold scope_view, get_routing_policy. cbn. unfold upsert_scoped. by rewrite scoped_get_dset_other.
  - unfold set_budget in H. destruct (negb _); [done|]. injection H as _ <-.
    unfold scope_view, get_budget. cbn. unfold upsert_scoped. by rewrite scoped_get_dset_other.
  - unfold delete_budget. destruct (get_budget k t); [|done].
    assert (get_budget k' (set_budgets (dpop (budgets t) k) t) = get_budget k' t) as Hb.
    { unfold get_budget, scoped_get. cbn. destruct (k' ≡? ""); [done|]. by rewrite dget_dpop_ne. }
    unfold scope_view. cbn [snd]. by rewrite Hb.
  - assert (list_adoptions k' (add_adoption k i ad t).2 = list_adoptions k' t) as Hl.
    { unfold list_adoptions. cbn. destruct (k' ≡? ""); [done|]. apply rows_of_filter, bfilter_dset_other; by intros. }
    unfold scope_view. by rewrite Hl.
  - unfold remove_adoption. destruct (k ≡? ""); [done|]. destruct (dget _ _); [|done].
    assert (list_adoptions k' (set_adoptions (dpop (adoptions t) (k, i)) t) = list_adoptions k' t) as Hl.
    { unfold list_adoptions. cbn. destruct (k' ≡? ""); [done|]. apply rows_of_filter, bfilter_dpop_other. by intros. }
    unfold scope_view. cbn [snd]. by rewrite Hl.
  - assert (list_price_overrides [k'] (set_price_override k m row t).2 = list_price_overrides [k'] t) as Hl.
    { unfold list_price_overrides. f_equal. apply (bfilter_dset_other seen_in); intros; by apply Hscope. }
    unfold scope_view. by rewrite Hl.
  - unfold remove_price_override. destruct (k ≡? ""); [done|]. destruct (dget _ _); [|done].
    assert (list_price_overrides [k'] (set_overrides (dpop (overrides t) (k, m)) t) = list_price_overrides [k'] t) as Hl.
    { unfold list_price_overrides. f_equal. apply (bfilter_dpop_other seen_in). intros. by apply Hscope. }
    unfold scope_view. cbn [snd]. by rewrite Hl.
Qed.

Lemma other_org (o o' : string) : o' ≠ o → (o ≡? o') = false.
Proof. intros. apply bool_decide_eq_false_2. congruence. Qed.

Lemma other_some (o o' : string) : o' ≠ o → (Some o ≡? Some o') = false.
Proof. intros. apply bool_decide_eq_false_2. congruence. Qed.

Section isolation.
Context (sha : string → string) (o o' : string).
Hypothesis Hne : o' ≠ o.

Lemma view_teams l a :
  List.filter (λ kt : string * Team, te_org kt.2 ≡? o') l = teams_of o' a → org_view o' (with_teams l a) = org_view o' a.
Proof. intros H. unfold org_view, scopes_of, teams_of in *. cbn. by rewrite H. Qed.

Lemma view_members l a :
  List.filter (λ m, mb_org m ≡? o') l.*2 = List.filter (λ m, mb_org m ≡? o') (a_members a).*2 → org_view o' (with_members l a) = org_view o' a.
Proof. intros H. unfold org_view, scopes_of, teams_of. cbn. by rewrite H. Qed.

Lemma view_tokens l a :
  List.filter (λ t, tk_org t ≡? Some o') l.*2 = List.filter (λ t, tk_org t ≡? Some o') (a_tokens a).*2 →
  org_view o' (with_tokens l a) = org_view o' a.
Proof. intros H. unfold org_view, scopes_of, teams_of. cbn. by rewrite H. Qed.

Lemma view_update_org f a : org_view o' (update_org o f a) = org_view o' a.
Proof.
  unfold update_org. destruct (get_org o a); [|done]. unfold org_view, scopes_of, teams_of, get_org. cbn. by rewrite dget_dset_ne.
Qed.

Lemma view_team_set t x y a :
  team_in o t a = Some x → te_org y = o → org_view o' (with_teams (dset (a_teams a) t y) a) = org_view o' a.
Proof.
  unfold team_in, get_team. destruct (dget (a_teams a) t) as [z|] eqn:E; [|done]. destruct (_ && _) eqn:Eb; [|done]. intros [= ->] Hy.
  bool_to_prop. apply view_teams, bfilter_dset_other; [cbn; rewrite Hy; by apply other_org|].
  intros w Hw. rewrite E in Hw. injection Hw as <-. subst o. by apply other_org.
Qed.

Lemma view_drop f a : (∀ t, f t = true → tk_org t = Some o) → org_view o' (drop_tokens f a) = org_view o' a.
Proof.
  intros Hf. apply view_tokens, filter_bfilter_other. cbn. intros _ t Ht%negb_false_iff%Hf. rewrite Ht. by apply other_some.
Qed.

Lemma view_revoke_org user ses svc a : org_view o' (revoke_org_credentials o user ses svc a).2 = org_view o' a.
Proof.
  unfold revoke_org_credentials. set (ps := _ ++ _ ++ _). set (f := foldl _).
  assert (∀ s, org_view o' (f s ps).2 = org_view o' s.2) as H.
  { unfold f. induction ps as [|p l IH]; intros s; cbn [foldl]; [done|]. rewrite IH. cbn [snd]. apply view_drop.
    intros t Ht. by bool_to_prop. }
  specialize (H ([], a)). by destruct (f ([], a) ps).
Qed.

Lemma view_mint raw u p ttl label now a a' :
  mint_token sha raw u p ttl false label (Some o) now a = Ok a' → org_view o' a' = org_view o' a.
Proof.
  unfold mint_token. destruct (dmem (a_tokens a) (sha raw)) eqn:E; [done|]. intros [= <-].
  apply view_tokens, filter_dset_other; [by apply other_some|]. unfold dmem in E. by destruct (dget _ _).
Qed.

Lemma view_member_row k m a : members_ok a → (k, m) ∈ a_members a → k.1 = o → (mb_org m ≡? o') = false.
Proof. intros [_ Hk] Hin Ho. apply Hk in Hin as ->. cbn in Ho. rewrite Ho. by apply other_org. Qed.

Lemma view_remove u r a a' : members_ok a → remove_membership o u a = Ok (r, a') → org_view o' a' = org_view o' a.
Proof.
  intros Hm E. unfold remove_membership in E. destruct (removal_decision o u a) as [b|]; cbn in E; [|done].
  destruct b; [|by injection E as _ <-]. injection E as _ <-. apply view_members, filter_dpop_other. intros w Hw. by eapply view_member_row.
Qed.

(** Deprovisioning drops credentials bound to the organisation, and to none when the user is left
    without one: never those bound to another. *)
Lemma view_deactivate u r a a' : members_ok a → scim_deactivate o u a = Ok (r, a') → org_view o' a' = org_view o' a.
Proof.
  intros Hm E. unfold scim_deactivate in E. destruct (remove_membership o u a) as [[was a1]|] eqn:Er; cbn [res_bind] in E; [|done].
  rewrite <- (view_remove _ _ _ _ Hm Er).
  assert (∀ f a0, (∀ t, f t = true → tk_org t ≠ Some o') → org_view o' (drop_tokens f a0) = org_view o' a0) as Hdrop.
  { intros f a0 Hf. apply view_tokens, filter_bfilter_other. cbn. intros _ t Ht%negb_false_iff%Hf. by apply bool_decide_eq_false_2. }
  cbv zeta in E. match type of E with context [match ?l with [] => _ | _ :: _ => _ end] => destruct l end; injection E as _ <-.
  - rewrite !Hdrop; [done|..]; intros t Ht; bool_to_prop; congruence.
  - rewrite Hdrop; [done|]. intros t Ht; bool_to_prop; congruence.
Qed.

Lemma apart_scope k a : apart o a → apart o' a → k ∈ scopes_of o a → k ∉ scopes_of o' a.
Proof.
  intros (Hnd & Hown & _) (_ & Hfree & _) Hk Hk'. unfold scopes_of in *.
  assert (∀ p, k ∈ dkeys (teams_of p a) → ∃ x, dget (a_teams a) k = Some x ∧ te_org x = p) as Hteam.
  { intros p ((k1 & x) & -> & [Hin Hp]%elem_of_bfilter)%list_elem_of_fmap. bool_to_prop. exists x.
    split; [by apply elem_dget|done]. }
  apply elem_of_cons in Hk as [->|Hk]; apply elem_of_cons in Hk' as [Heq|Hk'].
  - by apply Hne.
  - apply Hteam in Hk' as (x & Hx & _). congruence.
  - subst k. apply Hteam in Hk as (x & Hx & _). congruence.
  - apply Hteam in Hk as (x & Hx & <-). apply Hteam in Hk' as (y & Hy & <-). apply Hne. congruence.
Qed.

Lemma view_scope k t' a :
  apart o a → apart o' a → k ∈ scopes_of o a → scope_write k o (a_overlays a) t' → org_view o' (with_overlays t' a) = org_view o' a.
Proof.
  intros Ho Ha Hk Hw. pose proof (apart_scope k a Ho Ha Hk) as Hk'. unfold org_view, scopes_of, teams_of in *. cbn in *.
  f_equal. f_equal; [eapply scope_write_other; [done|]; intros ->; apply Hk'; by left|].
  apply list_fmap_ext. intros i x Hx%list_elem_of_lookup_2. eapply scope_write_other; [done|].
  intros ->. apply Hk'. by right.
Qed.

Lemma org_step_view a a' :
  members_ok a → tokens_ok a → apart o a → apart o' a → org_step sha o a a' → org_view o' a' = org_view o' a.
Proof.
  intros Hm Ht Hao Hao' Hs. destruct Hs as
    [t n now Hn Hfresh|t n|t|u role team now a' E|u role r a' E|u r a' E|n|on|p|cap gr|i t em role now r a' E|raw l d now r a' E|tid|us ses svc
    |u r a' E|k t' Hk E].
  - unfold create_team, insert_ignore, dmem. rewrite Hn. apply view_teams, bfilter_dset_other; [by apply other_org|]. by rewrite Hn.
  - unfold rename_team. destruct (team_in o t a) as [x|] eqn:E; [|done]. eapply view_team_set; [exact E|].
    unfold team_in in E. repeat case_match; simplify_eq; bool_to_prop; done.
  - unfold delete_team. destruct (team_in o t a) as [x|] eqn:E; [|done]. eapply view_team_set; [exact E|].
    unfold team_in in E. repeat case_match; simplify_eq; bool_to_prop; done.
  - unfold add_membership, insert_ignore in E. destruct (negb _); [done|]. injection E as <-. apply view_members.
    destruct (dmem _ _) eqn:Ed; [done|]. apply filter_dset_other; [by apply other_org|]. unfold dmem in Ed. by destruct (dget _ _).
  - unfold set_role, update_role in E. destruct (role_decision o u role a) as [b|]; cbn in E; [|done].
    destruct b; [|by injection E as _ <-]. destruct (get_membership_in u o a) as [m|] eqn:Eg; [|by injection E as _ <-]. injection E as _ <-.
    assert ((mb_org m ≡? o') = false) as Hmo by (eapply view_member_row; [done|by apply dget_elem|done]).
    apply view_members, filter_dset_other; [done|]. intros w Hw. unfold get_membership_in in Eg. rewrite Eg in Hw. by injection Hw as <-.
  - by eapply view_remove.
  - apply view_update_org.
  - apply view_update_org.
  - apply view_update_org.
  - apply view_update_org.
  - unfold create_invitation in E. destruct (negb _); [done|]. destruct (_ || _) eqn:Ed; [done|]. injection E as _ <-.
    unfold org_view, scopes_of, teams_of. cbn. bool_to_prop. unfold dmem in *. destruct (dget (a_invites a) i) eqn:Eg; [done|].
    rewrite filter_dset_other; [done|by apply other_org|by rewrite Eg].
  - unfold mint_service_token in E. destruct (mint_token _ _ _ _ _ _ _ _ _ _) as [a1|] eqn:Em; cbn in E; [|done].
    injection E as _ <-. by eapply view_mint.
  - unfold revoke_service_token, find_token. destruct (List.find _ _) as [t|] eqn:E; [|done]. cbn.
    apply find_some in E as [Hin Hb]. bool_to_prop. unfold service_token_of in *. bool_to_prop.
    apply view_tokens, filter_dpop_other. intros w Hw. apply list_elem_of_In, list_elem_of_fmap in Hin as ([h t'] & -> & Hin). cbn in *.
    pose proof (proj2 Ht _ _ Hin) as Hh. rewrite Hh in Hw. apply (elem_dget (a_tokens a)) in Hin; [|apply Ht].
    apply (elem_dget (a_tokens a)) in Hw; [|apply Ht]. assert (w = t') as -> by congruence.
    match goal with H : tk_org t' = _ |- _ => rewrite H end. by apply other_some.
  - apply view_revoke_org.
  - by eapply view_deactivate.
  - by eapply view_scope.
Qed.

(** The calls of an administrator are calls of the store. *)
Lemma org_step_store a a' : org_step sha o a a' → store_step sha (λ _, True) a a'.
Proof.
  destruct 1;
    [apply step_create_team|apply step_rename_team|apply step_delete_team|by eapply step_add_membership|by eapply step_set_role
    |by eapply step_remove|apply step_update_org|apply step_update_org|apply step_update_org|apply step_update_org
    |by eapply step_invite|by eapply step_mint_service|apply step_revoke_service|apply step_revoke_org|by eapply step_deactivate
    |apply step_overlays].
Qed.

(** Calls that leave the tables of teams and organisations alone. *)
Definition same_orgs (a a' : Auth) : Prop := a_teams a' = a_teams a ∧ a_orgs a' = a_orgs a.

Lemma same_orgs_remove u r a a' : remove_membership o u a = Ok (r, a') → same_orgs a a'.
Proof. unfold remove_membership. destruct (removal_decision _ _ _) as [[]|]; cbn; [..|done]; by intros [= _ <-]. Qed.

Lemma same_orgs_revoke user ses svc a : same_orgs a (revoke_org_credentials o user ses svc a).2.
Proof.
  unfold revoke_org_credentials. set (ps := _ ++ _ ++ _). set (f := foldl _).
  assert (∀ s, same_orgs s.2 (f s ps).2) as H.
  { unfold f. induction ps as [|p l IH]; intros s; cbn [foldl]; [done|].
    match goal with |- same_orgs _ (foldl _ ?x l).2 => destruct (IH x) as [H1 H2] end.
    split; [by rewrite H1|by rewrite H2]. }
  specialize (H ([], a)). by destruct (f ([], a) ps).
Qed.

Lemma same_orgs_deactivate u r a a' : scim_deactivate o u a = Ok (r, a') → same_orgs a a'.
Proof.
  unfold scim_deactivate. destruct (remove_membership o u a) as [[was a1]|] eqn:Er; cbn [res_bind]; [|done].
  apply same_orgs_remove in Er as [H1 H2]. cbv zeta.
  match goal with |- context [match ?l with [] => _ | _ :: _ => _ end] => destruct l end; by intros [= _ <-].
Qed.

Lemma same_orgs_apart p a a' : same_orgs a a' → apart p a → apart p a'.
Proof. unfold apart, get_org. intros [-> ->]. done. Qed.

Lemma update_org_apart p q f a : apart p a → apart p (update_org q f a).
Proof.
  unfold apart, update_org. intros (H1 & H2 & H3). destruct (get_org q a) as [x|] eqn:E; [|done].
  split; [done|]. split; [done|]. unfold get_org in *. cbn.
  destruct (decide (p = q)) as [->|]; [by rewrite dget_dset_eq|by rewrite dget_dset_ne].
Qed.

(** A team written under an id that is a team's already, or no organisation's. *)
Lemma team_apart p t x a :
  dget (a_teams a) t ≠ None ∨ get_org t a = None → apart p a → apart p (with_teams (dset (a_teams a) t x) a).
Proof.
  intros Ht (H1 & H2 & H3). split; [by apply NoDup_dset|]. split; [|done].
  cbn. rewrite dget_dset_ne; [done|]. intros ->. by destruct Ht.
Qed.

Lemma team_in_known t x a : team_in o t a = Some x → dget (a_teams a) t ≠ None.
Proof. unfold team_in, get_team. by destruct (dget _ _). Qed.

Lemma org_step_apart p a a' : org_step sha o a a' → apart p a → apart p a'.
Proof.
  intros Hs Ha. destruct Hs as
    [t n now Hn Hfresh|t n|t|u role team now a' E|u role r a' E|u r a' E|n|on|q|cap gr|i t em role now r a' E|raw l d now r a' E|tid|us ses svc
    |u r a' E|k t' Hk E]; try by apply update_org_apart.
  - unfold create_team, insert_ignore, dmem. rewrite Hn. apply team_apart; [by right|done].
  - unfold rename_team. destruct (team_in o t a) as [x|] eqn:E; [|done]. apply team_apart; [left; by eapply team_in_known|done].
  - unfold delete_team. destruct (team_in o t a) as [x|] eqn:E; [|done]. apply team_apart; [left; by eapply team_in_known|done].
  - unfold add_membership in E. destruct (negb _); [done|]. by injection E as <-.
  - unfold set_role, update_role in E. destruct (role_decision _ _ _ _) as [[]|]; cbn in E; [..|done]; injection E as _ <-; [|done].
    by destruct (get_membership_in _ _ _).
  - by eapply same_orgs_apart; [eapply same_orgs_remove|].
  - unfold create_invitation in E. destruct (negb _); [done|]. destruct (_ || _); [done|]. by injection E as _ <-.
  - unfold mint_service_token, mint_token in E. destruct (dmem _ _); cbn in E; [done|]. by injection E as _ <-.
  - unfold revoke_service_token. by destruct (find_token _ _ _).
  - by eapply same_orgs_apart; [apply same_orgs_revoke|].
  - by eapply same_orgs_apart; [eapply same_orgs_deactivate|].
  - done.
Qed.

(** C14: The calls of one organisation's administration — of its settings, teams, members,
    invitations and credentials, the deprovisioning of a user, and the catalog, routing and budget
    policies, adoptions and price overrides of the organisation and its teams — leave, in any order
    and number, every other organisation's settings, teams, members, invitations and bound
    credentials, and those policies of it and of its teams, exactly as they were.  (Ids of
    organisations and of teams are drawn apart, and rows are filed under their own keys.) *)
Theorem organisations_isolated a a' :
  members_ok a → tokens_ok a → apart o a → apart o' a → rtc (org_step sha o) a a' → org_view o' a' = org_view o' a.
Proof.
  intros Hm Ht Ho Ho' Hs. induction Hs as [|a a1 a2 H1 _ IH]; [done|].
  pose proof (step_evolves sha (λ _, True) _ _ (org_step_store _ _ H1)) as [H2 _ H3 _].
  rewrite IH by eauto using org_step_apart. by apply org_step_view.
Qed.
End isolation.

(** ** Instances *)

(** Two organisations: [o1] with its owner [u1], a member [u2] and a team, [o2] with its owner [u3]. *)
Definition demo_user (u email : string) : User := new_user u email None true None None.

Definition demo_token (h u p : string) (o : option string) (expires : Q) : Token :=
  {| tk_hash := h; tk_user := u; tk_purpose := p; tk_expires := expires; tk_created := 0; tk_label := None; tk_org := o; tk_last_used := None;
     tk_rotated := None |}.

Definition demo_org (o : string) : Org :=
  {| og_id := o; og_name := o; og_created := 0; og_zero_retention := false; og_max_days := Some 30%Z; og_grace := Some 60%Z; og_retention := None |}.

Definition demo_member (o u r : string) : Member := {| mb_org := o; mb_user := u; mb_team := None; mb_role := r; mb_created := 1 |}.

Definition demo_auth : Auth :=
  {| a_users := [("u1", demo_user "u1" "a@x.org"); ("u2", demo_user "u2" "b@x.org"); ("u3", demo_user "u3" "c@y.org")];
     a_tokens := [("k1", demo_token "k1" "u1" "api" None 100); ("k2", demo_token "k2" "u2" "api" (Some "o1") 100);
                  ("k3", demo_token "k3" "u2" "api" (Some "o2") 100); ("v1", demo_token "v1" "u1" "verify" None 100);
                  ("k4", demo_token "k4" "u2" "session" None 100)];
     a_orgs := [("o1", demo_org "o1"); ("o2", demo_org "o2")];
     a_teams := [];
     a_members := [(("o1", "u1"), demo_member "o1" "u1" "owner"); (("o1", "u2"), demo_member "o1" "u2" "member");
                   (("o2", "u3"), demo_member "o2" "u3" "owner")];
     a_invites := [];
     a_overlays := no_overlays |}.

Definition demo_sha : string → string := λ s, s.

Lemma demo_members_ok : members_ok demo_auth.
Proof. split; [vm_decide|]. intros k m H. cbn in H. repeat (apply elem_of_cons in H as [ [= -> ->]|H]; [done|]). by apply elem_of_nil in H. Qed.

Lemma demo_tokens_ok : tokens_ok demo_auth.
Proof. split; [vm_decide|]. intros k m H. cbn in H. repeat (apply elem_of_cons in H as [ [= -> ->]|H]; [done|]). by apply elem_of_nil in H. Qed.

(** What a call leaves. *)
Definition left_by {E R} (r : res E (R * Auth)) : Auth := match r with Ok x => x.2 | Err _ => no_auth end.

(** [u2] is made an owner of [o1], and [u1] leaves it. *)
Definition demo_promoted : Auth := left_by (set_role "o1" "u2" "owner" demo_auth).
Definition demo_handed : Auth := left_by (remove_membership "o1" "u1" demo_promoted).

Lemma demo_handed_history : history demo_sha (λ _, False) demo_auth demo_handed.
Proof.
  eapply rtc_l; [by apply (step_set_role _ _ _ "o1" "u2" "owner" true demo_promoted)|].
  eapply rtc_l; [by apply (step_remove _ _ _ "o1" "u1" true demo_handed)|]. apply rtc_refl.
Qed.

Lemma owner_remains_witness :
  members_ok demo_auth ∧ get_membership_in "u1" "o1" demo_handed = None
  ∧ (has_owner "o1" demo_handed ∧ 1 ≤ owner_count "o1" demo_handed ∧ members_ok demo_handed)
  ∧ remove_membership "o1" "u2" demo_handed = Err (AValue "cannot remove the last owner").
Proof.
  split; [exact demo_members_ok|]. split; [reflexivity|]. split; [|reflexivity].
  apply (owner_remains demo_sha (λ _, False) demo_auth demo_handed "o1" demo_members_ok demo_handed_history).
  exists ("o1", "u1"), (demo_member "o1" "u1" "owner"). split; [left|done].
Defined.

(** Two demotions whose checks both run before either of their updates leave no owner: the check
    and the update are two statements. *)
Theorem interleaved_demotions_orphan :
  role_decision "o1" "u1" "member" demo_promoted = Ok true ∧ role_decision "o1" "u2" "member" demo_promoted = Ok true ∧
  owner_count "o1" (update_role "o1" "u2" "member" (update_role "o1" "u1" "member" demo_promoted)) = 0.
Proof. split_and!; reflexivity. Qed.

Lemma dead_secret_stays_dead_witness :
  let a1 := (consume_token demo_sha "v1" "verify" 50 demo_auth).2 in
  (consume_token demo_sha "v1" "verify" 50 demo_auth).1 = Some "u1"
  ∧ refused demo_sha "v1" (mark_verified "u1" a1) ∧ us_verified <$> get_user "u1" (mark_verified "u1" a1) = Some true.
Proof.
  intros a1. split; [reflexivity|]. split; [|reflexivity].
  apply (dead_secret_stays_dead demo_sha (λ _, False) "v1" demo_auth a1); [|by intros []|].
  - left. exists "verify", 50%Q, "u1". reflexivity.
  - eapply rtc_l; [apply step_update_user|apply rtc_refl].
Defined.

Lemma token_keeps_user_witness :
  ∃ t, dget (a_tokens demo_auth) (demo_sha "k2") = Some t ∧ tk_user t = "u2" ∧ tk_purpose t = "api".
Proof.
  apply (token_keeps_user demo_sha (λ _, False) "k2" "api" 50 "u2" demo_auth demo_handed demo_tokens_ok); [by intros []| |reflexivity].
  exact demo_handed_history.
Defined.

Lemma resolve_membership_sound_witness :
  let r := resolve_membership "u2" (Some "o1") 5 demo_auth in
  members_ok demo_auth ∧ get_membership_in "u2" (mb_org r.1) r.2 = Some r.1 ∧ mb_org r.1 = "o1"
  ∧ resolve_membership "u2" (Some "o1") 9 r.2 = r.
Proof.
  intros r. destruct (resolve_membership_sound "u2" (Some "o1") 5 9 demo_auth r.1 r.2 demo_members_ok (surjective_pairing r))
    as (H1 & _ & _ & _ & _ & H6).
  split; [exact demo_members_ok|]. split; [exact H1|]. split; [reflexivity|]. rewrite H6. symmetry. apply surjective_pairing.
Defined.

(** [u2] is deprovisioned from [o1], their last organisation. *)
Definition demo_deprovisioned : Auth := left_by (scim_deactivate "o1" "u2" demo_auth).

Lemma deactivate_exact_witness :
  scim_deactivate "o1" "u2" demo_auth = Ok ({| de_removed := true; de_revoked := 2; de_last := true |}, demo_deprovisioned)
  ∧ list_user_memberships "u2" demo_deprovisioned = [] ∧ get_membership_in "u2" "o1" demo_deprovisioned = None.
Proof.
  split; [reflexivity|].
  destruct (deactivate_exact "o1" "u2" demo_auth {| de_removed := true; de_revoked := 2; de_last := true |} demo_deprovisioned eq_refl) as (H1 & H2 & _).
  split; [by apply H2|]. unfold get_membership_in. by rewrite H1.
Defined.

(** A credential bound to an organisation its user has already left is neither bound to this one
    nor unbound: it survives the deprovisioning from the last organisation, and its bearer is then
    given a new personal organisation and owns it. *)
Theorem deprovisioned_user_returns :
  de_last <$> (match scim_deactivate "o1" "u2" demo_auth with Ok x => Some x.1 | Err _ => None end) = Some true ∧
  resolve_bearer demo_sha "k3" 50 demo_deprovisioned
    = (Some {| be_user := "u2"; be_purpose := "api"; be_org := Some "o2"; be_expired := false |},
       update_token "k3" (with_last_used 50) demo_deprovisioned) ∧
  mb_role (resolve_membership "u2" (Some "o2") 50 demo_deprovisioned).1 = "owner".
Proof. split_and!; reflexivity. Qed.

(** Rotating an expired token gives it another grace period; the new one has the longest life the
    organisation allows, whatever the old one had. *)
Definition demo_rotated : Auth := left_by (rotate_api_token demo_sha "k9" "u2" "k2" None 500 demo_auth).

Theorem rotation_revives_expired :
  lookup_token demo_sha "k2" "api" 500 demo_auth = None ∧ lookup_token demo_sha "k2" "api" 501 demo_rotated = Some "u2" ∧
  tk_expires <$> dget (a_tokens demo_rotated) "k9" = Some (500 + 30 * 86400)%Q.
Proof. split_and!; reflexivity. Qed.

(** The administration of [o1] then limits the models of the organisation. *)
Definition demo_blob : CatalogBlob :=
  {| mode := Some "allowlist"; models := ["gpt"]; residency := []; blob_default_model := None |}.
Definition demo_limited : Auth :=
  with_overlays (match set_catalog_policy "o1" "o1" None demo_blob (a_overlays demo_handed) with Ok x => x.2 | Err _ => no_overlays end)
    demo_handed.

Lemma demo_apart o : o ∈ ["o1"; "o2"] → apart o demo_auth.
Proof. intros [->|[->|[]%elem_of_nil]%elem_of_cons]%elem_of_cons; (split; [constructor|]; split; [reflexivity|discriminate]). Qed.

Lemma organisations_isolated_witness :
  members_ok demo_auth ∧ tokens_ok demo_auth ∧ org_view "o2" demo_limited = org_view "o2" demo_auth ∧
  ow_members (org_view "o1" demo_limited) ≠ ow_members (org_view "o1" demo_auth) ∧
  ow_overlays (org_view "o1" demo_limited) ≠ ow_overlays (org_view "o1" demo_auth).
Proof.
  split; [exact demo_members_ok|]. split; [exact demo_tokens_ok|]. split; [|split; discriminate].
  apply (organisations_isolated demo_sha "o1" "o2" ltac:(discriminate) demo_auth demo_limited demo_members_ok demo_tokens_ok
    (demo_apart "o1" ltac:(by left)) (demo_apart "o2" ltac:(right; by left))).
  eapply rtc_l; [by apply (org_set_role _ _ _ "u2" "owner" true demo_promoted)|].
  eapply rtc_l; [apply (org_remove _ _ _ "u1" true demo_handed); reflexivity|].
  eapply rtc_l; [|apply rtc_refl].
  apply (org_scope _ _ _ "o1"); [by left|]. eapply (write_catalog "o1" "o1" _ None demo_blob); reflexivity.
Defined.
