(* ===== verification/RequireAuth.v ===== *)
(** * Who is calling ([routes/deps.py])

    From a request's headers and cookies to the identity the gateway reads: the credentials in
    their order, the organisation and the overlays the caller acts under, the application's gate,
    and the gates on a role. *)

From S2P Require Import Prelude.
From S2P Require Import PyStr.
From S2P Require Import PyDict.
From S2P Require Import Catalog.
From S2P Require Import Domain.
From S2P Require Import Identity.
From S2P Require Import Policy.
From S2P Require Import Json.
From S2P Require Import Credentials.
From S2P Require Import AuthPolicies.
From S2P Require Import AuthStore.
From S2P Require Import AuthSso.
From S2P Require Import AuthHistory.

Local Open Scope py_scope.

(** ** Data *)

(** [deps.Identity]: [ai_who] are the attributes the gateway reads. *)
Record AuthIdentity := {
  ai_who : Identity;
  ai_email : option string;
  ai_operator : bool;
  ai_authenticated : bool;
  ai_tenant : option string;
  ai_role : option string;
  ai_unavailable : list string;
  ai_actor : string;
}.

Definition ANONYMOUS : AuthIdentity :=
  {| ai_who := no_identity; ai_email := None; ai_operator := false; ai_authenticated := false; ai_tenant := None; ai_role := None;
     ai_unavailable := []; ai_actor := "user" |}.

Definition OPERATOR : AuthIdentity :=
  {| ai_who := no_identity; ai_email := None; ai_operator := true; ai_authenticated := true; ai_tenant := None; ai_role := None;
     ai_unavailable := []; ai_actor := "operator" |}.

Definition OSS_LOCAL_ORG : string := "local".

Record AuthSettings := { auth_token : string; edition : string; require_email_verify : bool }.

Record Request := {
  rq_method : string;
  rq_authorization : string;
  rq_api_key : string;
  rq_operator_cookie : string;
  rq_session_cookie : option string;
  rq_origin : option string;
  rq_host : string;
}.

(** The status and code of an [HTTPException], or an exception that no handler expects. *)
Inductive Denied : Type := HTTP (status : Z) (code : string) | Crash (what : string).

(** ** The resolvers *)

(** The reads of the store that a resolver survives. *)
Inductive Lookup : Type := LOrg | LZero | LCatalog | LAllowlist | LRouting | LAdoptions | LPrices.

Section resolvers.
(** Whether the reads of a resolver go through. *)
Context (up : Lookup → bool).

(** [_resolve_org]: organisation, team and role. *)
Definition resolve_org (u : string) (preferred : option string) (now : Q) (a : Auth)
    : (option string * option string * option string) * Auth :=
  if up LOrg then let '(m, a) := resolve_membership u preferred now a in ((Some (mb_org m), mb_team m, Some (mb_role m)), a)
  else ((None, None, None), a).

Definition resolve_zero_retention (o : option string) (a : Auth) : bool :=
  match o with
  | None => false
  | Some o => if up LZero then match get_org o a with Some x => og_zero_retention x | None => false end else true
  end.

Definition resolve_catalog_policy (team : option string) (a : Auth) : option CatalogBlob :=
  match nonempty team with
  | None => None
  | Some t => if up LCatalog then sc_value <$> get_catalog_policy t (a_overlays a) else None
  end.

(** The approved models of an organisation in allowlist mode. *)
Definition approved (o : string) (b : CatalogBlob) (a : Auth) : gset string :=
  list_to_set (models b) ∪ list_to_set (list_adoptions o (a_overlays a)).*1.

Definition resolve_org_allowlist (o : option string) (a : Auth) : option (gset string) :=
  match nonempty o with
  | None => None
  | Some o =>
      if up LAllowlist then
        match get_catalog_policy o (a_overlays a) with
        | Some row => if mode (sc_value row) ≡? Some "allowlist" then Some (approved o (sc_value row) a) else None
        | None => None
        end
      else None
  end.

Definition resolve_routing_policy (o team : option string) (a : Auth) : option RoutingBlob :=
  if negb (up LRouting) then None
  else sc_value <$> ((match nonempty team with Some t => get_routing_policy t (a_overlays a) | None => None end)
                     orelse match nonempty o with Some o => get_routing_policy o (a_overlays a) | None => None end).

Definition resolve_adoptions (o team : option string) (a : Auth) : list (option CatalogEntry) :=
  match nonempty team orelse nonempty o with
  | None => []
  | Some k => if up LAdoptions then (ap_entry ∘ snd) <$> list_adoptions k (a_overlays a) else []
  end.

(** The rows of one scope over what is merged so far. *)
Definition merge_scope (rows : list PriceOverride) (m : gmap string PriceRow) (scope : option string) : gmap string PriceRow :=
  match nonempty scope with
  | None => m
  | Some s => foldl (λ m (r : PriceOverride), if r.1.1 ≡? s then <[r.1.2 := r.2]> m else m) m rows
  end.

Definition resolve_price_overrides (o team : option string) (a : Auth) : gmap string PriceRow :=
  if up LPrices then
    let rows := list_price_overrides ["platform"; default "" o; default "" team] (a_overlays a) in
    foldl (merge_scope rows) ∅ [Some "platform"; o; team]
  else ∅.

(** The attributes of a caller in an organisation and a team. *)
Definition governed (u o team : option string) (catalog : option CatalogBlob) (a : Auth) : Identity :=
  {| org_id := o; team_id := team; user_id := u; catalog_policy := catalog; routing_policy := resolve_routing_policy o team a;
     org_allowlist := resolve_org_allowlist o a; catalog_adoptions := resolve_adoptions o team a;
     price_overrides := resolve_price_overrides o team a; provider_credential_scopes := Some [];
     zero_retention := resolve_zero_retention o a |}.

(** [_operator_identity] *)
Definition operator_identity (s : AuthSettings) (a : Auth) : AuthIdentity :=
  if negb (lower (strip (edition s)) ≡? "oss") then OPERATOR
  else let o := Some OSS_LOCAL_ORG in
       {| ai_who := {| org_id := o; team_id := None; user_id := None; catalog_policy := None;
                       routing_policy := resolve_routing_policy o None a; org_allowlist := None; catalog_adoptions := resolve_adoptions o None a;
                       price_overrides := resolve_price_overrides o None a; provider_credential_scopes := None; zero_retention := false |};
          ai_email := None; ai_operator := true; ai_authenticated := true; ai_tenant := None; ai_role := None; ai_unavailable := [];
          ai_actor := "operator" |}.

(** ** Credentials *)

Context (sha : string → string) (s : AuthSettings).

(** [hmac.compare_digest] of two [str]: it raises when one is not ASCII. *)
Definition compare_digest (x y : string) : res Denied bool :=
  if ascii_text x && ascii_text y then Ok (x ≡? y) else Err (Crash "TypeError").

(** The [Authorization] header, or the [x-api-key] as a bearer. *)
Definition bearer_header (rq : Request) : string :=
  if negb (rq_authorization rq ≡? "") then rq_authorization rq
  else if rq_api_key rq ≡? "" then "" else "Bearer " +:+ rq_api_key rq.

(** Whether the request carries the operator's token. *)
Definition is_operator_request (rq : Request) : res Denied bool :=
  if auth_token s ≡? "" then Ok false
  else try! b := compare_digest (bearer_header rq) ("Bearer " +:+ auth_token s) in
       Ok (b || (negb (rq_operator_cookie rq ≡? "") && (rq_operator_cookie rq ≡? auth_token s))).

(** The identity of a user who acts in the organisation their credential prefers. *)
Definition user_identity (x : User) (preferred : option string) (actor : string) (now : Q) (a : Auth) : AuthIdentity * Auth :=
  let '((o, team, role), a) := resolve_org (us_id x) preferred now a in
  ({| ai_who := governed (Some (us_id x)) o team (resolve_catalog_policy team a) a; ai_email := Some (us_email x); ai_operator := false;
      ai_authenticated := true; ai_tenant := Some (us_id x); ai_role := role; ai_unavailable := []; ai_actor := actor |}, a).

Definition service_identity (o : option string) (a : Auth) : AuthIdentity :=
  {| ai_who := governed o o None None a; ai_email := None; ai_operator := false; ai_authenticated := true; ai_tenant := o;
     ai_role := Some "member"; ai_unavailable := []; ai_actor := "service" |}.

(** The session cookie's caller. *)
Definition session_identity (rq : Request) (now : Q) (a : Auth) : AuthIdentity * Auth :=
  match nonempty (rq_session_cookie rq) with
  | None => (ANONYMOUS, a)
  | Some raw => match session_user sha raw (require_email_verify s) now a with
                | Some x => user_identity x (token_org sha raw "session" a) "user" now a
                | None => (ANONYMOUS, a)
                end
  end.

(** [_resolve_identity] *)
Definition resolve_identity (rq : Request) (now : Q) (a : Auth) : res Denied (AuthIdentity * Auth) :=
  try! op := is_operator_request rq in
  if op then Ok (operator_identity s a, a)
  else if negb (startswith "Bearer " (bearer_header rq)) then Ok (session_identity rq now a)
  else
    let '(found, a) := resolve_bearer sha (str_drop (str_len "Bearer ") (bearer_header rq)) now a in
    match found with
    | None => Ok (session_identity rq now a)
    | Some b =>
        if be_expired b then Err (HTTP 401 "token_expired")
        else if be_purpose b ≡? "service" then Ok (service_identity (be_org b) a, a)
        else match get_user (be_user b) a with
             | Some x => if require_email_verify s && negb (us_verified x) then Ok (session_identity rq now a)
                         else Ok (user_identity x (be_org b) "agent" now a)
             | None => Ok (session_identity rq now a)
             end
    end.

Definition UNSAFE_METHODS : list string := ["POST"; "PUT"; "PATCH"; "DELETE"].

(** [_origin_ok]; [ip_host] says whether a bracketed host is an IP address. *)
Definition origin_ok (ip_host : string → bool) (rq : Request) : res Denied bool :=
  if negb (rq_method rq ∈? UNSAFE_METHODS) then Ok true
  else match nonempty (rq_origin rq) with
       | None => Ok true
       | Some o => match urlsplit ip_host o with
                   | Some u => Ok (u_netloc u ≡? rq_host rq)
                   | None => Err (Crash "ValueError")
                   end
       end.

(** ** The gate *)

Context `{Fernet}.
Context (vault : Vault) (kms : KmsSettings) (environ : Environ) (fr : Q → string) (rd : KeyReader).

(** The caller with the credential scopes of their providers. *)
Definition with_scopes (scopes : list (string * CredentialScopeRef)) (envs : list string) (i : AuthIdentity) : AuthIdentity :=
  let w := ai_who i in
  {| ai_who := {| org_id := org_id w; team_id := team_id w; user_id := user_id w; catalog_policy := catalog_policy w;
                  routing_policy := routing_policy w; org_allowlist := org_allowlist w; catalog_adoptions := catalog_adoptions w;
                  price_overrides := price_overrides w; provider_credential_scopes := Some (prod_map (λ p, p) Some <$> scopes);
                  zero_retention := zero_retention w |};
     ai_email := ai_email i; ai_operator := ai_operator i; ai_authenticated := ai_authenticated i; ai_tenant := ai_tenant i; ai_role := ai_role i;
     ai_unavailable := fst <$> List.filter (λ pd : string * Provider, p_key_env pd.2 ∈? envs) PROVIDERS; ai_actor := ai_actor i |}.

(** [require_auth], with the request's keys for dispatch. *)
Definition require_auth (ip_host : string → bool) (rq : Request) (now : Q) (a : Auth) (k : Kms)
    : res Denied (AuthIdentity * Byok * Auth * Kms) :=
  try! ok := origin_ok ip_host rq in
  if negb ok then Err (HTTP 403 "origin_mismatch")
  else try! r := resolve_identity rq now a in
       let '(i, a) := r in
       if negb (ai_authenticated i) then Err (HTTP 401 "invalid_token")
       else let '(scopes, byok, k) := load_byok vault kms environ fr rd (user_id (ai_who i)) (org_id (ai_who i)) k in
            Ok (with_scopes scopes (byok_unavailable_envs byok) i, byok, a, k).
End resolvers.

(** ** Role gates *)

(** [_ROLE_RANK] *)
Definition role_rank (role : string) : nat := default 0 (dget [("member", 1); ("admin", 2); ("owner", 3)] role).

(** [require_role(min_role, allow=...)] of a known role, on the identity of [require_auth]. *)
Definition require_role (min_role : string) (allow : list string) (i : AuthIdentity) : res Denied AuthIdentity :=
  if ai_operator i then Ok i
  else if match ai_role i with Some r => r ∈? allow | None => false end then Ok i
  else if role_rank (default "" (ai_role i)) <? role_rank min_role then Err (HTTP 403 "insufficient_role")
  else Ok i.

Definition require_read_role (min_role : string) (i : AuthIdentity) : res Denied AuthIdentity := require_role min_role ["auditor"] i.

(** ** The credential behind a caller *)

(** A user row sits under its own id. *)
Definition users_ok (a : Auth) : Prop := ∀ k x, (k, x) ∈ a_users a → us_id x = k.

Section sound.
Context (up : Lookup → bool) (sha : string → string) (s : AuthSettings).

Lemma resolve_bearer_state raw now a :
  (resolve_bearer sha raw now a).2 = a ∨ (resolve_bearer sha raw now a).2 = update_token (sha raw) (with_last_used now) a.
Proof. unfold resolve_bearer. repeat case_match; auto. Qed.

(** What a resolved bearer says is what its row says. *)
Lemma resolve_bearer_row raw now a b a1 :
  resolve_bearer sha raw now a = (Some b, a1) →
  ∃ t, dget (a_tokens a) (sha raw) = Some t ∧ be_user b = tk_user t ∧ be_purpose b = tk_purpose t ∧ be_org b = tk_org t ∧
    tk_purpose t ∈ ["api"; "service"] ∧ (be_expired b = false → (now <= tk_expires t)%Q).
Proof.
  unfold resolve_bearer. destruct (dget (a_tokens a) (sha raw)) as [t|]; [|done].
  destruct (tk_purpose t ∈? ["api"; "service"]) eqn:Ep; [|done]. bool_to_prop. exists t. split; [done|].
  destruct (Qltb (tk_expires t) now) eqn:Ex; simplify_eq/=; (split_and!; [done..|]); [done|]. intros _. by q_to_prop.
Qed.

(** A row after a bearer was resolved: only its last use can differ. *)
Lemma bearer_rows raw now a h t1 :
  dget (a_tokens (resolve_bearer sha raw now a).2) h = Some t1 →
  ∃ t, dget (a_tokens a) h = Some t ∧ tk_user t1 = tk_user t ∧ tk_purpose t1 = tk_purpose t ∧ tk_expires t1 = tk_expires t.
Proof.
  destruct (resolve_bearer_state raw now a) as [-> | ->]; [by exists t1|].
  unfold update_token. destruct (dget (a_tokens a) (sha raw)) as [t|] eqn:E; [|by exists t1]. cbn.
  destruct (decide (h = sha raw)) as [->|Hne]; [rewrite dget_dset_eq; intros [= <-]; by exists t|].
  rewrite dget_dset_ne by done. by exists t1.
Qed.

Lemma bearer_same_users raw now a :
  a_users (resolve_bearer sha raw now a).2 = a_users a ∧ a_members (resolve_bearer sha raw now a).2 = a_members a
  ∧ a_overlays (resolve_bearer sha raw now a).2 = a_overlays a ∧ a_orgs (resolve_bearer sha raw now a).2 = a_orgs a.
Proof.
  destruct (resolve_bearer_state raw now a) as [-> | ->]; [done|]. unfold update_token. by destruct (dget _ _).
Qed.

(** Where a credential sits in a request, the purpose it has, and the actor it stands for. *)
Definition bears (rq : Request) (raw : string) : Prop :=
  rq_authorization rq = "Bearer " +:+ raw ∨ (rq_authorization rq = "" ∧ rq_api_key rq = raw ∧ raw ≠ "").

Lemma bearer_bears rq raw : bearer_header rq = "Bearer " +:+ raw → bears rq raw.
Proof.
  unfold bearer_header, bears. case_bool_decide as Ha; cbn [negb]; [|by left].
  case_bool_decide as Hk; [done|]. intros H. right. split; [done|]. cbn in H. by simplify_eq.
Qed.

Inductive carried (rq : Request) (raw : string) : string → string → Prop :=
  | by_bearer : bears rq raw → carried rq raw "api" "agent"
  | by_cookie : rq_session_cookie rq = Some raw → carried rq raw "session" "user".

(** Stores that differ at most in when a token was last used. *)
Definition seen (a a1 : Auth) : Prop :=
  a_users a1 = a_users a ∧ a_members a1 = a_members a ∧ a_overlays a1 = a_overlays a ∧ a_orgs a1 = a_orgs a ∧
  ∀ h t1, dget (a_tokens a1) h = Some t1 →
    ∃ t, dget (a_tokens a) h = Some t ∧ tk_user t1 = tk_user t ∧ tk_purpose t1 = tk_purpose t ∧ tk_expires t1 = tk_expires t.

Lemma seen_refl a : seen a a.
Proof. split_and!; [done..|]. intros h t1 Ht. by exists t1. Qed.

Lemma seen_bearer raw now a : seen a (resolve_bearer sha raw now a).2.
Proof. destruct (bearer_same_users raw now a) as (? & ? & ? & ?). split_and!; [done..|]. apply bearer_rows. Qed.

(** What the identity of a request comes from. *)
Inductive origin (rq : Request) (now : Q) (a : Auth) : AuthIdentity → Auth → Prop :=
  | from_operator : is_operator_request s rq = Ok true → origin rq now a (operator_identity up s a) a
  | from_service raw t a1 :
      bears rq raw → dget (a_tokens a) (sha raw) = Some t → (now <= tk_expires t)%Q → tk_purpose t = "service" →
      seen a a1 → origin rq now a (service_identity up (tk_org t) a1) a1
  | from_user raw t x pref purpose actor a1 i a' :
      carried rq raw purpose actor → dget (a_tokens a) (sha raw) = Some t → (now <= tk_expires t)%Q → tk_purpose t = purpose →
      get_user (tk_user t) a = Some x → (require_email_verify s = true → us_verified x = true) → seen a a1 →
      user_identity up x pref actor now a1 = (i, a') → origin rq now a i a'
  | from_nobody a1 : seen a a1 → origin rq now a ANONYMOUS a1.

Lemma session_origin rq now a a1 i a' :
  seen a a1 → session_identity up sha s rq now a1 = (i, a') → origin rq now a i a'.
Proof.
  intros Hs. unfold session_identity. destruct (nonempty (rq_session_cookie rq)) as [raw|] eqn:Ec; [|intros [= <- <-]; by apply from_nobody].
  assert (rq_session_cookie rq = Some raw) as Hc.
  { destruct (rq_session_cookie rq) as [c|]; [|done]. cbn in Ec. by destruct (c ≡? ""); simplify_eq. }
  destruct (session_user sha raw _ now a1) as [x|] eqn:Eu; [|intros [= <- <-]; by apply from_nobody].
  intros Hi. unfold session_user, lookup_token, token_row in Eu.
  destruct (dget (a_tokens a1) (sha raw)) as [t1|] eqn:Et; [|done].
  destruct (tk_purpose t1 ≡? "session") eqn:Ep; [|done]. destruct (Qltb (tk_expires t1) now) eqn:Ex; [done|].
  destruct (get_user (tk_user t1) a1) as [y|] eqn:Ey; [|done]. destruct (_ && _) eqn:Ev; [done|]. injection Eu as ->.
  pose proof Hs as (Hu & _ & _ & _ & Hrows). destruct (Hrows _ _ Et) as (t & Ht & H1 & H2 & H3). bool_to_prop. q_to_prop.
  eapply (from_user rq now a raw t x (token_org sha raw "session" a1) "session" "user" a1); [by apply by_cookie|done| | | | |done|done].
  - by rewrite <- H3.
  - congruence.
  - rewrite <- H1. unfold get_user in *. by rewrite <- Hu.
  - intros Hv. rewrite Hv in Ev. cbn in Ev. by apply negb_false_iff in Ev.
Qed.

Lemma startswith_drop p t : startswith p t = true → t = p +:+ str_drop (str_len p) t.
Proof. intros (u & ->)%startswith_spec. by rewrite str_drop_app. Qed.

Lemma resolve_identity_origin rq now a i a' : resolve_identity up sha s rq now a = Ok (i, a') → origin rq now a i a'.
Proof.
  unfold resolve_identity. destruct (is_operator_request s rq) as [op|] eqn:Eo; cbn [res_bind]; [|done].
  destruct op; [intros [= <- <-]; by apply from_operator|].
  destruct (startswith "Bearer " (bearer_header rq)) eqn:Eb; cbn [negb];
    [|intros [= Hi]; by apply (session_origin rq now a a); [apply seen_refl|]].
  apply startswith_drop in Eb. set (raw := str_drop _ (bearer_header rq)) in *.
  pose proof (seen_bearer raw now a) as Hs. destruct (resolve_bearer sha raw now a) as [found a1] eqn:Er. cbn [snd] in Hs.
  destruct found as [b|]; [|intros [= Hi]; by apply (session_origin rq now a a1)].
  destruct (resolve_bearer_row raw now a b a1 Er) as (t & Ht & Hu & Hp & Ho & Hin & Hx).
  destruct (be_expired b) eqn:Ex; [done|]. specialize (Hx eq_refl).
  destruct (be_purpose b ≡? "service") eqn:Es.
  { intros [= <- <-]. bool_to_prop. rewrite Ho. eapply from_service; [exact (bearer_bears _ _ Eb)|done|done|congruence|done]. }
  assert (tk_purpose t = "api") as Hapi.
  { bool_to_prop. rewrite Hp in Es. apply elem_of_cons in Hin as [?|[?|[]%elem_of_nil]%elem_of_cons]; congruence. }
  destruct (get_user (be_user b) a1) as [x|] eqn:Ex'; [|intros [= Hi]; by apply (session_origin rq now a a1)].
  destruct (require_email_verify s && negb (us_verified x)) eqn:Ev; intros [= Hi]; [by apply (session_origin rq now a a1)|].
  eapply (from_user rq now a raw t x (be_org b) "api" "agent" a1); [by apply by_bearer, bearer_bears|done|done|done| | |done|done].
  - rewrite <- Hu. unfold get_user in *. by rewrite <- (proj1 Hs).
  - intros Hv. rewrite Hv in Ev. cbn in Ev. by apply negb_false_iff in Ev.
Qed.
End sound.

(** ** What the gate lets through *)

(** The part of an identity that says who the caller is. *)
Definition face (i : AuthIdentity) : option string * option string * bool * bool * option string * string :=
  (user_id (ai_who i), ai_email i, ai_operator i, ai_authenticated i, ai_tenant i, ai_actor i).

Definition face_of (r : res Denied (AuthIdentity * Auth)) : res Denied (option string * option string * bool * bool * option string * string) :=
  match r with Ok x => Ok (face x.1) | Err e => Err e end.

Lemma user_identity_spec up x pref actor now a i a' :
  user_identity up x pref actor now a = (i, a') →
  face i = (Some (us_id x), Some (us_email x), false, true, Some (us_id x), actor) ∧
  a' = (if up LOrg then (resolve_membership (us_id x) pref now a).2 else a) ∧
  (∃ o team, ai_who i = governed up (Some (us_id x)) o team (resolve_catalog_policy up team a') a') ∧
  (if up LOrg then let m := (resolve_membership (us_id x) pref now a).1 in
     org_id (ai_who i) = Some (mb_org m) ∧ team_id (ai_who i) = mb_team m ∧ ai_role i = Some (mb_role m)
   else org_id (ai_who i) = None ∧ team_id (ai_who i) = None ∧ ai_role i = None).
Proof.
  unfold user_identity, resolve_org. destruct (up LOrg).
  - destruct (resolve_membership (us_id x) pref now a) as [m a1]. intros [= <- <-]. split_and!; try done. by eexists _, _.
  - intros [= <- <-]. split_and!; try done. by eexists _, _.
Qed.

Lemma face_user up x pref actor now a :
  face (user_identity up x pref actor now a).1 = (Some (us_id x), Some (us_email x), false, true, Some (us_id x), actor).
Proof. destruct (user_identity up x pref actor now a) as [i a'] eqn:E. by apply user_identity_spec in E as [? _]. Qed.

Lemma face_session up up' sha s rq now a :
  face (session_identity up sha s rq now a).1 = face (session_identity up' sha s rq now a).1.
Proof. unfold session_identity. repeat case_match; [by rewrite !face_user|done..]. Qed.

(** C31: Whatever reads of the tenancy tables fail while a request is authenticated, the caller is the
    same: an outage makes nobody a caller, nobody another caller and nobody the operator, and turns
    nobody away. *)
Theorem outages_never_authenticate up up' sha s rq now a :
  face_of (resolve_identity up sha s rq now a) = face_of (resolve_identity up' sha s rq now a).
Proof.
  assert (∀ a, face_of (Ok (session_identity up sha s rq now a)) = face_of (Ok (session_identity up' sha s rq now a))) as Hs.
  { intros b. unfold face_of. f_equal. apply face_session. }
  unfold resolve_identity. destruct (is_operator_request s rq) as [op|]; cbn [res_bind]; [|done].
  destruct op; [unfold operator_identity; by destruct (negb _)|]. destruct (negb (startswith _ _)); [apply Hs|].
  destruct (resolve_bearer _ _ _ _) as [[b|] a1]; [|apply Hs]. destruct (be_expired b); [done|].
  destruct (be_purpose b ≡? "service"); [done|]. destruct (get_user (be_user b) a1) as [x|]; [|apply Hs].
  destruct (_ && _); [apply Hs|]. unfold face_of. by rewrite !face_user.
Qed.

Section gate.
Context (up : Lookup → bool) (sha : string → string) (s : AuthSettings) `{Fernet}.
Context (vault : Vault) (kms : KmsSettings) (environ : Environ) (fr : Q → string) (rd : KeyReader).

(** What passes the gate is the identity of the request, with the scopes of its keys. *)
Lemma require_auth_origin ip rq now a k i byok a' k' :
  require_auth up sha s vault kms environ fr rd ip rq now a k = Ok (i, byok, a', k') →
  ∃ i0 scopes envs, origin up sha s rq now a i0 a' ∧ ai_authenticated i0 = true ∧ i = with_scopes scopes envs i0.
Proof.
  unfold require_auth. destruct (origin_ok ip rq) as [ok|]; cbn [res_bind]; [|done]. destruct (negb ok); [done|].
  destruct (resolve_identity up sha s rq now a) as [[i0 a1]|] eqn:E; cbn [res_bind]; [|done].
  destruct (ai_authenticated i0) eqn:Ea; cbn [negb]; [|done].
  destruct (load_byok _ _ _ _ _ _ _ _) as [[scopes b] k1]. intros [= <- <- <- <-].
  eexists i0, _, _. split; [by apply resolve_identity_origin|]. by split.
Qed.

(** The request presents the operator's token, as a bearer or in the operator's cookie; a
    deploy without a token has no operator. *)
Definition presents_operator_token (s : AuthSettings) (rq : Request) : Prop :=
  auth_token s ≠ "" ∧ (bears rq (auth_token s) ∨ rq_operator_cookie rq = auth_token s).

Lemma operator_presents rq : is_operator_request s rq = Ok true → presents_operator_token s rq.
Proof.
  unfold is_operator_request, presents_operator_token, compare_digest.
  destruct (auth_token s ≡? "") eqn:Et; [done|]. destruct (_ && _); [cbn [res_bind]|done]. intros [= Hb].
  bool_to_prop. split; [done|]. apply orb_true_iff in Hb as [Hb|[_ Hb]%andb_true_iff]; bool_to_prop; [|by right].
  left. by apply bearer_bears.
Qed.

(** C6: Who passes the gate is the operator, by presenting the deploy's token, which is not
    empty; or the owner of a live credential the request carries, a service's organisation or a
    user whose address is verified where that is required.  A user acts in an organisation they
    are a member of, with the team and the role of that membership, or, while the memberships
    cannot be read, in no organisation and with no team and no role.  (The rows of the tables of
    users and memberships are filed under their own keys, as every operation of the store keeps
    them.) *)
Theorem authenticated_by_credential ip rq now a k i byok a' k' :
  users_ok a → members_ok a → require_auth up sha s vault kms environ fr rd ip rq now a k = Ok (i, byok, a', k') →
  (ai_operator i = true ∧ presents_operator_token s rq ∧ user_id (ai_who i) = None) ∨
  (ai_operator i = false ∧ ∃ raw t, dget (a_tokens a) (sha raw) = Some t ∧ (now <= tk_expires t)%Q ∧
     ((bears rq raw ∧ tk_purpose t = "service" ∧ user_id (ai_who i) = tk_org t ∧ org_id (ai_who i) = tk_org t
       ∧ ai_role i = Some "member") ∨
      (carried rq raw (tk_purpose t) (ai_actor i) ∧ user_id (ai_who i) = Some (tk_user t) ∧
       (∃ x, get_user (tk_user t) a = Some x ∧ (require_email_verify s = true → us_verified x = true)) ∧
       if up LOrg
       then ∃ m, get_membership_in (tk_user t) (mb_org m) a' = Some m ∧ org_id (ai_who i) = Some (mb_org m) ∧
              team_id (ai_who i) = mb_team m ∧ ai_role i = Some (mb_role m)
       else org_id (ai_who i) = None ∧ team_id (ai_who i) = None ∧ ai_role i = None))).
Proof.
  intros Hu Hm (i0 & scopes & envs & Ho & Ha & ->)%require_auth_origin. destruct Ho as [Hop|raw t a1 Hb Ht Hx Hp Hs|raw t x pref p actor a1 i0 a' Hc Ht Hx Hp Hg Hv Hs Hi|a1 Hs].
  - left. split_and!; [unfold operator_identity; by destruct (negb _)|by apply operator_presents|unfold operator_identity; by destruct (negb _)].
  - right. split; [done|]. exists raw, t. split; [done|]. split; [done|]. by left.
  - right. destruct (user_identity_spec _ _ _ _ _ _ _ _ Hi) as (Hf & Ha' & _ & Horg). injection Hf as Hf1 Hf2 Hf3 Hf4 Hf5 Hf6.
    split; [done|]. exists raw, t. split; [done|]. split; [done|]. right.
    assert (us_id x = tk_user t) as Hid by (apply (Hu (tk_user t) x); by apply dget_elem).
    split; [cbn; by rewrite Hf6, Hp|]. split; [cbn; by rewrite Hf1, Hid|]. split; [by exists x|].
    destruct (up LOrg); [|done]. destruct Horg as (H1 & H2 & H3).
    destruct (resolve_membership (us_id x) pref now a1) as [m a2] eqn:Er. cbn in Ha'. subst a'.
    exists m. split; [|done]. rewrite <- Hid.
    assert (members_ok a1) as Hm1 by (unfold members_ok in *; by rewrite (proj1 (proj2 Hs))).
    by destruct (resolve_membership_sound (us_id x) pref now now a1 m a2 Hm1 Er) as (? & _).
  - done.
Qed.

Lemma org_overlays u pref now a : a_overlays (resolve_membership u pref now a).2 = a_overlays a.
Proof.
  unfold resolve_membership, add_membership. repeat case_match; simplify_eq; done.
Qed.

(** The overlays a caller other than the operator is given are those the store keeps. *)
Lemma governed_by rq now a i a' :
  origin up sha s rq now a i a' → ai_authenticated i = true → ai_operator i = false →
  a_overlays a' = a_overlays a ∧ ∃ u o team c, ai_who i = governed up u o team c a' ∧ (team = None ∨ c = resolve_catalog_policy up team a').
Proof.
  intros [Hop|raw t a1 Hb Ht Hx Hp Hs|raw t x pref p actor a1 i0 a0 Hc Ht Hx Hp Hg Hv Hs Hi|a1 Hs] Ha Hn; [| | |done].
  - unfold operator_identity in Hn. by destruct (negb _).
  - destruct Hs as (_ & _ & Hov & _). split; [done|]. eexists _, _, _, _. split; [reflexivity|]. by left.
  - destruct (user_identity_spec _ _ _ _ _ _ _ _ Hi) as (_ & -> & (o & team & Hw) & _). destruct Hs as (_ & _ & Hov & _). split.
    + destruct (up LOrg); [by rewrite org_overlays|done].
    + eexists _, _, _, _. split; [exact Hw|]. by right.
Qed.

(** A caller with an approved set or a catalog policy has an effective policy made of them. *)
Lemma effective_policy_governed who d :
  org_allowlist who ≠ None ∨ catalog_policy who ≠ None →
  let base := match d with Some b => b | None => base_policy end in
  ∃ p, effective_policy who d = Some p ∧ p_org_allowlist p = org_allowlist who ∧
    catalog_mode p = catalog_mode (from_catalog_scope (catalog_policy who) (Some base)) ∧
    catalog_models p = catalog_models (from_catalog_scope (catalog_policy who) (Some base)) ∧
    residency_allow p = residency_allow (from_catalog_scope (catalog_policy who) (Some base)).
Proof.
  unfold effective_policy.
  destruct (catalog_policy who), (routing_policy who), (org_allowlist who); intros Hset;
    try (eexists; split; [reflexivity|]; by repeat split).
  all: by destruct Hset.
Qed.

Lemma scoped_nonempty {V} (t : list (string * Scoped V)) k row : scoped_get t k = Some row → nonempty (Some k) = Some k.
Proof. unfold scoped_get. cbn. by destruct (k ≡? ""). Qed.

End gate.

(** A role that passes a gate passes every lower one; the auditor passes the read gates and no other,
    whatever the floor. *)
Theorem role_gates low high i :
  role_rank low ≤ role_rank high → is_ok (require_role high [] i) = true →
  require_role low [] i = Ok i ∧ require_read_role low i = Ok i.
Proof.
  unfold require_role, require_read_role, require_role. intros Hle. destruct (ai_operator i); [done|].
  assert (match ai_role i with Some r => r ∈? [] | None => false end = false) as ->.
  { destruct (ai_role i); [|done]. apply bool_decide_eq_false_2. apply not_elem_of_nil. }
  destruct (Nat.ltb_spec (role_rank (default "" (ai_role i))) (role_rank high)); [done|]. intros _.
  destruct (Nat.ltb_spec (role_rank (default "" (ai_role i))) (role_rank low)); [lia|]. split; [done|]. by repeat case_match.
Qed.

Theorem auditor_reads_only min i :
  ai_operator i = false → ai_role i = Some "auditor" → 0 < role_rank min →
  require_role min [] i = Err (HTTP 403 "insufficient_role") ∧ require_read_role min i = Ok i.
Proof.
  intros Ho Hr Hm. unfold require_role, require_read_role, require_role. rewrite Ho, Hr. split; [|reflexivity].
  change (role_rank (default "" (Some "auditor"))) with 0. rewrite (proj2 (Nat.ltb_lt 0 (role_rank min)) Hm). reflexivity.
Qed.

(** ** Instances *)

#[local] Existing Instance demo_fernet.

Definition demo_auth_settings : AuthSettings := {| auth_token := "op"; edition := "enterprise"; require_email_verify := true |}.

Definition demo_request (header : string) (cookie : option string) : Request :=
  {| rq_method := "POST"; rq_authorization := header; rq_api_key := ""; rq_operator_cookie := ""; rq_session_cookie := cookie;
     rq_origin := Some "https://console.example"; rq_host := "console.example" |}.

Definition allow_only (ms : list string) : CatalogBlob :=
  {| mode := Some "allowlist"; models := ms; residency := []; blob_default_model := None |}.

(** [o1] has approved one model and opted out of retention. *)
Definition demo_governed : Auth :=
  set_zero_retention "o1" true
    (match set_catalog_policy "o1" "o1" None (allow_only ["gpt"]) no_overlays with
     | Ok x => with_overlays x.2 demo_auth
     | Err _ => demo_auth
     end).

Definition all_up : Lookup → bool := λ _, true.

Definition demo_gate (up : Lookup → bool) (rq : Request) : res Denied (AuthIdentity * Byok * Auth * Kms) :=
  require_auth up demo_sha demo_auth_settings demo_vault (demo_settings "s1" "") demo_environ (λ _, "") (reader_of no_keys) (λ _, false) rq 50
    demo_governed demo_kms.

Lemma demo_users_ok : users_ok demo_governed.
Proof. intros k m H. cbn in H. repeat (apply elem_of_cons in H as [ [= -> ->]|H]; [done|]). by apply elem_of_nil in H. Qed.

(** [u2]'s token lets them in, as a member of [o1]. *)
Lemma demo_passes :
  ∃ i byok a' k', demo_gate all_up (demo_request "Bearer k2" None) = Ok (i, byok, a', k') ∧ ai_operator i = false
    ∧ org_id (ai_who i) = Some "o1" ∧ ai_role i = Some "member" ∧ zero_retention (ai_who i) = true.
Proof. eexists _, _, _, _. split; [vm_compute; reflexivity|]. split_and!; vm_compute; reflexivity. Qed.

Lemma authenticated_by_credential_witness :
  ∃ i raw t, dget (a_tokens demo_governed) (demo_sha raw) = Some t ∧ (50 <= tk_expires t)%Q ∧ ai_operator i = false ∧ org_id (ai_who i) = Some "o1".
Proof.
  destruct demo_passes as (i & byok & a' & k' & E & Hop & Ho & _).
  destruct (authenticated_by_credential all_up demo_sha demo_auth_settings demo_vault (demo_settings "s1" "") demo_environ (λ _, "") (reader_of no_keys)
    (λ _, false) (demo_request "Bearer k2" None) 50 demo_governed demo_kms i byok a' k' demo_users_ok demo_members_ok E) as [(H & _)|H].
  - rewrite Hop in H. discriminate.
  - destruct H as (_ & raw & t & H1 & H2 & _). exists i, raw, t. split_and!; [exact H1|exact H2|exact Hop|exact Ho].
Defined.

Lemma demo_enforces :
  ∃ i byok a' k' p, demo_gate all_up (demo_request "Bearer k2" None) = Ok (i, byok, a', k') ∧ ai_operator i = false
    ∧ org_id (ai_who i) = Some "o1" ∧ effective_policy (ai_who i) None = Some p ∧ permits p demo_cloud = true ∧ permits p demo_local = false.
Proof. eexists _, _, _, _, _. split; [vm_compute; reflexivity|]. split_and!; vm_compute; reflexivity. Qed.


(** While memberships cannot be read, a member of an organisation that approves its models and
    retains nothing is served without either: no organisation, no approved set, retention allowed. *)
Theorem membership_outage_opens :
  ∃ i byok a' k', demo_gate (λ l, match l with LOrg => false | _ => true end) (demo_request "Bearer k2" None) = Ok (i, byok, a', k')
    ∧ user_id (ai_who i) = Some "u2" ∧ org_id (ai_who i) = None ∧ org_allowlist (ai_who i) = None ∧ zero_retention (ai_who i) = false.
Proof. eexists _, _, _, _. split; [vm_compute; reflexivity|]. split_and!; vm_compute; reflexivity. Qed.

(** A header with a character outside ASCII makes the comparison raise: an error of the server, not
    a refusal. *)
Theorem non_ascii_header_crashes up rq now a k :
  rq_method rq = "GET" → ascii_text (bearer_header rq) = false →
  require_auth up demo_sha demo_auth_settings demo_vault (demo_settings "s1" "") demo_environ (λ _, "") (reader_of no_keys) (λ _, false) rq now a k
    = Err (Crash "TypeError").
Proof.
  intros Hm Ha. unfold require_auth, origin_ok. rewrite Hm. cbn. unfold resolve_identity, is_operator_request, compare_digest. rewrite Ha. reflexivity.
Qed.
