(* ===== verification/Claims.v ===== *)
(** * Claims across replicas ([runs/claims.py], the [Idem] guard of [routes/deps.py])

    The nightly pass of a tenant and a client's idempotency key are won by one insert.  The guard
    of a create request claims its key, runs the handler, and seals the key with the response that
    retries replay. *)

From S2P Require Import Prelude.
From S2P Require Import PyStr.
From S2P Require Import PyDict.

Local Open Scope py_scope.

(** ** Tables *)

Record Dream := { dr_status : string; dr_merged : Z; dr_archived : Z; dr_cost : Q; dr_shown : bool; dr_started : Q; dr_finished : option Q }.

(** A key's row: its response once there is one. *)
Record IdemRow := { ir_method : string; ir_path : string; ir_created : Q; ir_response : option (Z * string) }.

Record ClaimTables := { dreams : list (string * string * Dream); idem_keys : list (string * string * IdemRow) }.

Definition no_claims : ClaimTables := {| dreams := []; idem_keys := [] |}.

(** ** The nightly pass *)

(** [active_tenants] over the owners and start times of the sessions. *)
Definition active_tenants (sessions : list (option string * Q)) (since : Q) : list string :=
  remove_dups (omap (λ s : option string * Q, if Qleb since s.2 then s.1 else None) sessions).

Definition claim_dream_run (tenant date : string) (now : Q) (t : ClaimTables) : bool * ClaimTables :=
  if dmem (dreams t) (tenant, date) then (false, t)
  else (true, {| dreams := dset (dreams t) (tenant, date)
                   {| dr_status := "running"; dr_merged := 0; dr_archived := 0; dr_cost := 0; dr_shown := false; dr_started := now;
                      dr_finished := None |};
                 idem_keys := idem_keys t |}).

Definition update_dream (k : string * string) (f : Dream → Dream) (t : ClaimTables) : ClaimTables :=
  match dget (dreams t) k with
  | Some d => {| dreams := dset (dreams t) k (f d); idem_keys := idem_keys t |}
  | None => t
  end.

Definition finish_dream_run (tenant date : string) (merged archived : Z) (cost : Q) (status : string) (now : Q) : ClaimTables → ClaimTables :=
  update_dream (tenant, date) (λ d, {| dr_status := status; dr_merged := merged; dr_archived := archived; dr_cost := cost; dr_shown := dr_shown d;
                                       dr_started := dr_started d; dr_finished := Some now |}).

(** The rows a hint may come from, the latest date first. *)
Definition hint_rows (u : string) (t : ClaimTables) : list (string * Dream) :=
  rev (sort_by (λ x y, str_leb x.1 y.1)
    (omap (λ r : string * string * Dream,
       if (r.1.1 ≡? u) && negb (dr_shown r.2) && (dr_status r.2 ≡? "done") && ((0 <? dr_merged r.2)%Z || (0 <? dr_archived r.2)%Z)
       then Some (r.1.2, r.2) else None) (dreams t))).

Definition plural (n : Z) : string := if (n =? 1)%Z then "" else "s".

Definition hint_text (d : Dream) : string :=
  let parts := (if (dr_merged d =? 0)%Z then [] else ["merged " +:+ str_of_Z (dr_merged d) +:+ " cluster" +:+ plural (dr_merged d) +:+ " of related notes"])
            ++ (if (dr_archived d =? 0)%Z then [] else ["archived " +:+ str_of_Z (dr_archived d) +:+ " stale one" +:+ plural (dr_archived d)]) in
  "While you were away, I tidied your memory: " +:+ join " and " parts +:+ ".".

Definition take_dream_hint (user : option string) (t : ClaimTables) : option string * ClaimTables :=
  match user with
  | None => (None, t)
  | Some u =>
      if u ≡? "" then (None, t)
      else match hint_rows u t with
           | [] => (None, t)
           | (date, d) :: _ =>
               (Some (hint_text d),
                update_dream (u, date) (λ d, {| dr_status := dr_status d; dr_merged := dr_merged d; dr_archived := dr_archived d; dr_cost := dr_cost d;
                                                dr_shown := true; dr_started := dr_started d; dr_finished := dr_finished d |}) t)
           end
  end.

(** ** Idempotency keys *)

Inductive Claim : Type := Won | Existing (row : option IdemRow).

Definition get_idempotency_result (user : option string) (key : string) (t : ClaimTables) : option IdemRow :=
  dget (idem_keys t) (default "" user, key).

(** One statement decides who won; the row of a lost claim is read by a second one. *)
Definition claim_idempotency (user : option string) (key method path : string) (now : Q) (t : ClaimTables) : Claim * ClaimTables :=
  if dmem (idem_keys t) (default "" user, key) then (Existing (get_idempotency_result user key t), t)
  else (Won, {| dreams := dreams t;
                idem_keys := dset (idem_keys t) (default "" user, key)
                  {| ir_method := method; ir_path := path; ir_created := now; ir_response := None |} |}).

Definition store_idempotency_result (user : option string) (key : string) (status : Z) (response : string) (t : ClaimTables) : ClaimTables :=
  match dget (idem_keys t) (default "" user, key) with
  | Some r => {| dreams := dreams t;
                 idem_keys := dset (idem_keys t) (default "" user, key)
                   {| ir_method := ir_method r; ir_path := ir_path r; ir_created := ir_created r; ir_response := Some (status, response) |} |}
  | None => t
  end.

(** ** The guard *)

(** [Idem]; [id_key] is the header, [id_on] whether there is a store. *)
Record Idem := { id_on : bool; id_user : option string; id_key : option string; id_method : string; id_path : string }.

Definition active_key (i : Idem) : option string := if id_on i then id_key i else None.

(** [Idem.replay]: proceed, answer with the stored response, or 409. *)
Inductive Replay : Type := Proceed | Respond (status : Z) (body : string) | InFlight.

Definition replay (i : Idem) (now : Q) (t : ClaimTables) : Replay * ClaimTables :=
  match active_key i with
  | None => (Proceed, t)
  | Some k =>
      match claim_idempotency (id_user i) k (id_method i) (id_path i) now t with
      | (Won, t) => (Proceed, t)
      | (Existing (Some r), t) => match ir_response r with Some (st, body) => (Respond st body, t) | None => (InFlight, t) end
      | (Existing None, t) => (InFlight, t)
      end
  end.

(** [Idem.store], of the response as it is encoded *)
Definition store (i : Idem) (status : Z) (body : string) (t : ClaimTables) : ClaimTables :=
  match active_key i with Some k => store_idempotency_result (id_user i) k status body t | None => t end.

(** ** Requests that race *)

(** Where a request is: its claim is next, its handler runs, or it has answered; [PFailed] is a
    handler that raised. *)
Inductive Phase : Type := PFresh | PRunning | PServed (status : Z) (body : string) | PReplayed (status : Z) (body : string) | PRefused | PFailed.

Section race.
(** The requests, by number, and their guards. *)
Context (guard : nat → Idem).

Record World := { wo_tables : ClaimTables; wo_phase : nat → Phase; wo_effects : list nat }.

Definition set_phase (n : nat) (p : Phase) (f : nat → Phase) : nat → Phase := λ m, if decide (m = n) then p else f m.

(** One step of one request: its claim, the side effect and the seal of its handler, or a handler
    that raises after its effect or before. *)
Inductive race_step (w : World) : World → Prop :=
  | race_claim n now r t :
      wo_phase w n = PFresh → replay (guard n) now (wo_tables w) = (r, t) →
      race_step w {| wo_tables := t; wo_effects := wo_effects w;
                     wo_phase := set_phase n (match r with Proceed => PRunning | Respond s b => PReplayed s b | InFlight => PRefused end) (wo_phase w) |}
  | race_serve n status body :
      wo_phase w n = PRunning →
      race_step w {| wo_tables := store (guard n) status body (wo_tables w); wo_effects := n :: wo_effects w;
                     wo_phase := set_phase n (PServed status body) (wo_phase w) |}
  | race_fail n (did : bool) :
      wo_phase w n = PRunning →
      race_step w {| wo_tables := wo_tables w; wo_effects := (if did then [n] else []) ++ wo_effects w; wo_phase := set_phase n PFailed (wo_phase w) |}.

Definition start : World := {| wo_tables := no_claims; wo_phase := λ _, PFresh; wo_effects := [] |}.

(** The table key of a request that sends one. *)
Definition key_of (n : nat) : option (string * string) := (λ k, (default "" (id_user (guard n)), k)) <$> active_key (guard n).

(** The phase of a request that has won its claim. *)
Definition won (p : Phase) : bool := match p with PRunning | PServed _ _ | PFailed => true | _ => false end.

(** The row of a key, and the request that holds it. *)
Definition holds (w : World) (k : string * string) (r : IdemRow) (n : nat) : Prop :=
  key_of n = Some k ∧
  match ir_response r with
  | None => wo_phase w n = PRunning ∨ wo_phase w n = PFailed
  | Some (s, b) => wo_phase w n = PServed s b
  end.

Record consistent (w : World) : Prop := {
  co_row : ∀ n k, key_of n = Some k → won (wo_phase w n) = true → ∃ r, dget (idem_keys (wo_tables w)) k = Some r ∧ holds w k r n;
  co_one : ∀ n m k, key_of n = Some k → key_of m = Some k → won (wo_phase w n) = true → won (wo_phase w m) = true → n = m;
  co_held : ∀ k r, dget (idem_keys (wo_tables w)) k = Some r → ∃ n, holds w k r n;
  co_replayed : ∀ n k s b, key_of n = Some k → wo_phase w n = PReplayed s b →
    ∃ r, dget (idem_keys (wo_tables w)) k = Some r ∧ ir_response r = Some (s, b);
  co_keyed : ∀ n s b, wo_phase w n = PReplayed s b → ∃ k, key_of n = Some k;
  co_effects : NoDup (wo_effects w) ∧ ∀ n, n ∈ wo_effects w → wo_phase w n = PFailed ∨ ∃ s b, wo_phase w n = PServed s b;
  co_served : ∀ n s b, wo_phase w n = PServed s b → n ∈ wo_effects w;
}.

Lemma holds_won w k r n : holds w k r n → won (wo_phase w n) = true.
Proof. intros [_ H]. destruct (ir_response r) as [[s b]|]; [by rewrite H|by destruct H as [-> | ->]]. Qed.

Lemma start_consistent : consistent start.
Proof. split; cbn; try (intros; discriminate). split; [apply NoDup_nil_2|]. intros n H. by apply elem_of_nil in H. Qed.

(** What a claim of a request in its first phase comes to. *)
Lemma replay_cases n now t r t' :
  replay (guard n) now t = (r, t') →
  (key_of n = None ∧ r = Proceed ∧ t' = t) ∨
  ∃ k, key_of n = Some k ∧
    ((dget (idem_keys t) k = None ∧ r = Proceed ∧ ∃ row, ir_response row = None ∧ idem_keys t' = dset (idem_keys t) k row) ∨
     (∃ row, dget (idem_keys t) k = Some row ∧ t' = t ∧ r = match ir_response row with Some (s, b) => Respond s b | None => InFlight end)).
Proof.
  unfold replay, key_of. destruct (active_key (guard n)) as [k|]; cbn; [|intros [= <- <-]; by left].
  intros Hr. right. eexists. split; [reflexivity|]. revert Hr. unfold claim_idempotency, get_idempotency_result, dmem.
  destruct (dget (idem_keys t) (default "" (id_user (guard n)), k)) as [row|] eqn:E.
  - intros Hr. right. exists row. destruct (ir_response row) as [[s b]|]; injection Hr as <- <-; done.
  - intros [= <- <-]. left. split; [done|]. split; [done|]. eexists. split; [|reflexivity]. done.
Qed.

Lemma set_phase_eq n p f : set_phase n p f n = p.
Proof. unfold set_phase. by rewrite decide_True. Qed.

Lemma set_phase_ne n m p f : m ≠ n → set_phase n p f m = f m.
Proof. intros. unfold set_phase. by rewrite decide_False. Qed.

(** A request that moves without winning or leaving a claim, and the rows as they were. *)
Lemma move_consistent w n p :
  consistent w → wo_phase w n = PFresh → won p = false →
  (∀ s b, p = PReplayed s b → ∃ k r, key_of n = Some k ∧ dget (idem_keys (wo_tables w)) k = Some r ∧ ir_response r = Some (s, b)) →
  consistent {| wo_tables := wo_tables w; wo_effects := wo_effects w; wo_phase := set_phase n p (wo_phase w) |}.
Proof.
  intros [Hrow Hone Hheld Hrep Hkeyed [Hnd Heff] Hserved] Hn Hp Hk.
  assert (∀ m, won (set_phase n p (wo_phase w) m) = true → m ≠ n ∧ won (wo_phase w m) = true) as Hw.
  { intros m. unfold set_phase. case_decide; [by rewrite Hp|done]. }
  assert (∀ k r m, holds w k r m → holds {| wo_tables := wo_tables w; wo_effects := wo_effects w; wo_phase := set_phase n p (wo_phase w) |} k r m) as Hh.
  { intros k r m H. pose proof (holds_won _ _ _ _ H) as Hwm. destruct H as [H1 H2]. split; [done|]. cbn.
    rewrite set_phase_ne; [done|]. intros ->. by rewrite Hn in Hwm. }
  split; cbn.
  - intros m k Hkm [_ Hwm]%Hw. destruct (Hrow m k Hkm Hwm) as (r & ? & ?). exists r. auto.
  - intros m1 m2 k H1 H2 [_ Hw1]%Hw [_ Hw2]%Hw. eauto.
  - intros k r Hr. destruct (Hheld k r Hr) as [m Hm]. eauto.
  - intros m k s b Hkm Hm. destruct (decide (m = n)) as [->|Hne]; [|rewrite set_phase_ne in Hm by done; eauto].
    rewrite set_phase_eq in Hm. destruct (Hk s b Hm) as (k' & r & Hk' & ? & ?). exists r. by simplify_eq.
  - intros m s b Hm. destruct (decide (m = n)) as [->|Hne]; [|rewrite set_phase_ne in Hm by done; eauto].
    rewrite set_phase_eq in Hm. destruct (Hk s b Hm) as (k' & r & Hk' & _). by exists k'.
  - split; [done|]. intros m Hm. pose proof (Heff m Hm) as H. rewrite set_phase_ne; [done|]. intros ->. rewrite Hn in H. naive_solver.
  - intros m s b Hm. destruct (decide (m = n)) as [->|Hne]; [|rewrite set_phase_ne in Hm by done; eauto].
    rewrite set_phase_eq in Hm. by rewrite Hm in Hp.
Qed.

(** A request that holds the row of its key, or sends none, after a step of its own. *)
Lemma own_step_consistent w n p tables effects :
  consistent w →
  (∀ k, key_of n = Some k → ∃ r, dget (idem_keys tables) k = Some r ∧
     match ir_response r with None => p = PRunning ∨ p = PFailed | Some (s, b) => p = PServed s b end) →
  (∀ k, key_of n ≠ Some k → dget (idem_keys tables) k = dget (idem_keys (wo_tables w)) k) →
  (∀ m k, m ≠ n → key_of n = Some k → key_of m = Some k → won (wo_phase w m) = false ∧ ∀ s b, wo_phase w m ≠ PReplayed s b) →
  won p = true → NoDup effects → (∀ m, m ∈ effects → m ∈ wo_effects w ∨ m = n) → (∀ m, m ∈ wo_effects w → m ∈ effects) →
  (n ∈ effects → p = PFailed ∨ ∃ s b, p = PServed s b) → (∀ s b, p = PServed s b → n ∈ effects) →
  consistent {| wo_tables := tables; wo_effects := effects; wo_phase := set_phase n p (wo_phase w) |}.
Proof.
  intros [Hrow Hone Hheld Hrep Hkeyed [Hnd Heff] Hserved] Hown Hother Halone Hp Hnd' Heff1 Heff2 Hne Hsv.
  assert (∀ k r m, m ≠ n → holds w k r m → holds {| wo_tables := tables; wo_effects := effects; wo_phase := set_phase n p (wo_phase w) |} k r m) as Hh.
  { intros k r m Hmn [H1 H2]. split; [done|]. cbn. by rewrite set_phase_ne. }
  assert (∀ m, m ≠ n → won (set_phase n p (wo_phase w) m) = won (wo_phase w m)) as Hwm by (intros; by rewrite set_phase_ne).
  split; cbn.
  - intros m k Hkm Hw. destruct (decide (m = n)) as [->|Hmn].
    { destruct (Hown k Hkm) as (r & Hr & Hph). exists r. split; [done|]. split; [done|]. cbn. by rewrite set_phase_eq. }
    rewrite Hwm in Hw by done. assert (key_of n ≠ Some k) as Hk.
    { intros Hk. destruct (Halone m k Hmn Hk Hkm) as [H _]. congruence. }
    rewrite Hother by done. destruct (Hrow m k Hkm Hw) as (r & ? & ?). exists r. split; [done|]. by apply Hh.
  - intros m1 m2 k H1 H2 Hw1 Hw2. destruct (decide (m1 = n)) as [->|Hm1], (decide (m2 = n)) as [->|Hm2]; [done| | |].
    + rewrite Hwm in Hw2 by done. destruct (Halone m2 k Hm2 H1 H2). congruence.
    + rewrite Hwm in Hw1 by done. destruct (Halone m1 k Hm1 H2 H1). congruence.
    + rewrite Hwm in Hw1, Hw2 by done. eauto.
  - intros k r Hr. destruct (decide (key_of n = Some k)) as [Hk|Hk].
    { destruct (Hown k Hk) as (r' & Hr' & Hph). assert (r' = r) as -> by congruence. exists n. split; [done|]. cbn. by rewrite set_phase_eq. }
    rewrite Hother in Hr by done. destruct (Hheld k r Hr) as [m Hm]. exists m. apply Hh; [|done]. intros ->. by destruct Hm as [? _].
  - intros m k s b Hkm Hm. destruct (decide (m = n)) as [->|Hmn]; [rewrite set_phase_eq in Hm; by rewrite Hm in Hp|].
    rewrite set_phase_ne in Hm by done. rewrite Hother; [eauto|]. intros Hk. destruct (Halone m k Hmn Hk Hkm) as [_ H]. by eapply H.
  - intros m s b Hm. destruct (decide (m = n)) as [->|Hmn]; [rewrite set_phase_eq in Hm; by rewrite Hm in Hp|].
    rewrite set_phase_ne in Hm by done. eauto.
  - split; [done|]. intros m Hm. destruct (decide (m = n)) as [->|Hmn]; [rewrite set_phase_eq; auto|].
    rewrite set_phase_ne by done. destruct (Heff1 m Hm); [auto|done].
  - intros m s b Hm. destruct (decide (m = n)) as [->|Hmn]; [rewrite set_phase_eq in Hm; eauto|].
    rewrite set_phase_ne in Hm by done. eauto.
Qed.

(** Nobody else has won or replayed a key that a running request holds, or that has no row. *)
Lemma alone_running w n m k :
  consistent w → wo_phase w n = PRunning → m ≠ n → key_of n = Some k → key_of m = Some k →
  won (wo_phase w m) = false ∧ ∀ s b, wo_phase w m ≠ PReplayed s b.
Proof.
  intros Hc Hn Hmn Hk Hkm. destruct (co_row w Hc n k Hk) as (r & Hr & _ & Hh); [by rewrite Hn|]. split.
  - destruct (won (wo_phase w m)) eqn:E; [|done]. exfalso. apply Hmn. eapply (co_one w Hc m n k); [done..|by rewrite Hn].
  - intros s b Hm. destruct (co_replayed w Hc m k s b Hkm Hm) as (r' & Hr' & Hs). assert (r' = r) as -> by congruence.
    rewrite Hs, Hn in Hh. done.
Qed.

Lemma alone_absent w m k :
  consistent w → dget (idem_keys (wo_tables w)) k = None → key_of m = Some k →
  won (wo_phase w m) = false ∧ ∀ s b, wo_phase w m ≠ PReplayed s b.
Proof.
  intros Hc Hn Hkm. split.
  - destruct (won (wo_phase w m)) eqn:E; [|done]. destruct (co_row w Hc m k Hkm E) as (r & ? & _). congruence.
  - intros s b Hm. destruct (co_replayed w Hc m k s b Hkm Hm) as (r & ? & _). congruence.
Qed.

Lemma not_yet w n : consistent w → wo_phase w n = PRunning ∨ wo_phase w n = PFresh → n ∉ wo_effects w.
Proof. intros Hc Hn Hin. apply (co_effects w Hc) in Hin. destruct Hn as [E|E]; rewrite E in Hin; naive_solver. Qed.

Lemma step_consistent w w' : consistent w → race_step w w' → consistent w'.
Proof.
  intros Hc Hs. destruct Hs as [n now r t Hn Hr|n status body Hn|n did Hn].
  - destruct (replay_cases n now _ r t Hr) as [(Hk & -> & ->)|(k & Hk & [(Hno & -> & row & Hrow & Ht)|(row & Hrow & -> & ->)])].
    + apply (own_step_consistent w n PRunning); try done; try (intros; congruence); [apply (co_effects w Hc)|by left|].
      intros Hin. exfalso. by apply (not_yet w n Hc); [right|].
    + apply (own_step_consistent w n PRunning); try done; try (intros; congruence).
      * intros k' Hk'. simplify_eq. exists row. rewrite Ht, dget_dset_eq. split; [done|]. rewrite Hrow. by left.
      * intros k' Hk'. rewrite Ht. apply dget_dset_ne. congruence.
      * intros m k' _ Hk' Hm. simplify_eq. by apply (alone_absent w m k Hc).
      * apply (co_effects w Hc).
      * by left.
      * intros Hin. exfalso. by apply (not_yet w n Hc); [right|].
    + destruct (ir_response row) as [[s b]|] eqn:Es; apply move_consistent; try done. intros s' b' [= <- <-]. by exists k, row.
  - assert (n ∉ wo_effects w) as Hnew by (apply not_yet; [done|by left]).
    unfold store. apply (own_step_consistent w n (PServed status body)); try done.
    + unfold key_of. destruct (active_key (guard n)) as [key|] eqn:Ek; [|done]. intros k [= <-].
      destruct (co_row w Hc n (default "" (id_user (guard n)), key)) as (r & Hr & _); [unfold key_of; by rewrite Ek|by rewrite Hn|].
      unfold store_idempotency_result. rewrite Hr. cbn. rewrite dget_dset_eq. by eexists.
    + unfold key_of. destruct (active_key (guard n)) as [key|] eqn:Ek; [|done]. intros k Hk. cbn in Hk.
      unfold store_idempotency_result. destruct (dget (idem_keys (wo_tables w)) (default "" (id_user (guard n)), key)) as [r|]; [|done]. cbn. apply dget_dset_ne. intros ->. by apply Hk.
    + intros m k Hmn Hk Hkm. by eapply alone_running.
    + constructor; [done|apply (co_effects w Hc)].
    + intros m [->|Hm]%elem_of_cons; auto.
    + intros m Hm. by right.
    + intros _. right. by eexists _, _.
    + intros s b _. left.
  - assert (n ∉ wo_effects w) as Hnew by (apply not_yet; [done|by left]).
    apply (own_step_consistent w n PFailed); try done.
    + intros k Hk. destruct (co_row w Hc n k Hk) as (r & Hr & _ & Hh); [by rewrite Hn|]. exists r. split; [done|].
      destruct (ir_response r) as [[s b]|]; [congruence|by right].
    + intros m k Hmn Hk Hkm. by eapply alone_running.
    + destruct did; cbn; [constructor; [done|]|]; apply (co_effects w Hc).
    + intros m Hm. destruct did; cbn in Hm; [|by left]. apply elem_of_cons in Hm as [->|Hm]; auto.
    + intros m Hm. destruct did; [by right|done].
    + intros _. by left.
Qed.

Lemma reachable_consistent w : rtc race_step start w → consistent w.
Proof. intros H. eapply (rtc_ind_r consistent start); [apply start_consistent| |exact H]. intros; by eapply step_consistent. Qed.

(** C15: However many requests with one key race, across replicas and retries, at most one runs its
    side effect and none twice; and whatever a retry is answered with is the very response of the
    request that ran. *)
Theorem one_effect_per_key w :
  rtc race_step start w →
  NoDup (wo_effects w) ∧
  (∀ n m k, key_of n = Some k → key_of m = Some k → n ∈ wo_effects w → m ∈ wo_effects w → n = m) ∧
  (∀ n s b, wo_phase w n = PReplayed s b → ∃ m, key_of m = key_of n ∧ m ∈ wo_effects w ∧ wo_phase w m = PServed s b).
Proof.
  intros Hc%reachable_consistent. destruct (co_effects w Hc) as [Hnd Heff]. split; [done|]. split.
  - intros n m k Hn Hm Hin Him. apply (co_one w Hc n m k Hn Hm).
    + by destruct (Heff n Hin) as [-> |(s & b & ->)].
    + by destruct (Heff m Him) as [-> |(s & b & ->)].
  - intros n s b Hn. destruct (co_keyed w Hc n s b Hn) as [k Hk]. destruct (co_replayed w Hc n k s b Hk Hn) as (r & Hr & Hs).
    destruct (co_held w Hc k r Hr) as (m & Hm & Hh). rewrite Hs in Hh. exists m. split; [congruence|]. split; [|done].
    by eapply (co_served w Hc).
Qed.

(** The key of a handler that raised after its claim stays in flight: no later request that sends
    it is ever served, whatever happens. *)
Theorem failed_key_refused w n m k now r t :
  rtc race_step start w → wo_phase w n = PFailed → key_of n = Some k → key_of m = Some k →
  replay (guard m) now (wo_tables w) = (r, t) → r = InFlight ∧ t = wo_tables w.
Proof.
  intros Hc%reachable_consistent Hn Hk Hm Hr. destruct (co_row w Hc n k Hk) as (row & Hrow & _ & Hh); [by rewrite Hn|].
  rewrite Hn in Hh. destruct (replay_cases m now _ r t Hr) as [(? & _)|(k' & Hk' & [(Hno & _)|(row' & Hrow' & -> & ->)])]; [congruence| |].
  - assert (k' = k) as -> by congruence. congruence.
  - assert (k' = k) as -> by congruence. assert (row' = row) as -> by congruence. split; [|done].
    by destruct (ir_response row) as [[s b]|].
Qed.
End race.

(** ** Instances *)

Definition demo_guard : nat → Idem := λ _, {| id_on := true; id_user := None; id_key := Some "k"; id_method := "POST"; id_path := "/v1/sessions" |}.

(** The first request is served; the second one, a retry, is answered. *)
Definition demo_tables : ClaimTables := store (demo_guard 0) 202 "run" (replay (demo_guard 0) 0 no_claims).2.

Definition demo_world : World :=
  {| wo_tables := demo_tables; wo_effects := [0];
     wo_phase := set_phase 1 (PReplayed 202 "run") (set_phase 0 (PServed 202 "run") (set_phase 0 PRunning (λ _, PFresh))) |}.

Lemma demo_reachable : rtc (race_step demo_guard) start demo_world.
Proof.
  eapply rtc_l; [by apply (race_claim demo_guard start 0 0 Proceed)|].
  eapply rtc_l; [by apply (race_serve demo_guard _ 0 202 "run")|].
  eapply rtc_l; [by apply (race_claim demo_guard _ 1 5 (Respond 202 "run") demo_tables)|]. apply rtc_refl.
Qed.

Lemma one_effect_per_key_witness :
  wo_phase demo_world 1 = PReplayed 202 "run"
  ∧ ∃ m, key_of demo_guard m = key_of demo_guard 1 ∧ m ∈ wo_effects demo_world ∧ wo_phase demo_world m = PServed 202 "run".
Proof.
  split; [reflexivity|]. destruct (one_effect_per_key demo_guard demo_world demo_reachable) as (_ & _ & H). by apply (H 1).
Defined.

(** A key is one per user whatever it is sent for: the method and the path are kept and not
    compared, so another endpoint answers with the first one's response. *)
Theorem key_ignores_endpoint :
  replay {| id_on := true; id_user := None; id_key := Some "k"; id_method := "POST"; id_path := "/v1/sessions/r1/turns" |} 9 demo_tables
  = (Respond 202 "run", demo_tables).
Proof. reflexivity. Qed.

(** A pass is won once a day, by one of the replicas that ask. *)
Theorem dream_won_once tenant date now later t :
  (claim_dream_run tenant date later (claim_dream_run tenant date now t).2).1 = false.
Proof.
  unfold claim_dream_run. destruct (dmem (dreams t) (tenant, date)) eqn:E; cbn; [by rewrite E|].
  assert (dmem (dset (dreams t) (tenant, date) {| dr_status := "running"; dr_merged := 0; dr_archived := 0; dr_cost := 0; dr_shown := false;
    dr_started := now; dr_finished := None |}) (tenant, date) = true) as ->; [|done].
  unfold dmem. by rewrite dget_dset_eq.
Qed.

Example hint_says_both :
  hint_text {| dr_status := "done"; dr_merged := 2; dr_archived := 1; dr_cost := 0; dr_shown := false; dr_started := 0; dr_finished := None |}
  = "While you were away, I tidied your memory: merged 2 clusters of related notes and archived 1 stale one.".
Proof. reflexivity. Qed.
