(* ===== verification/Runs.v ===== *)
(** * Runs: sessions, their events and their leases ([runs/sessions.py], [runs/events.py], [runs/scoping.py], [sessions_service.py])

    A run is a row that holds a lease, renewed by every event it publishes; its events are numbered
    per run and subscribers read them back from the table.  A conversation is the runs that share a
    conversation id.  The launcher drives a run to a terminal event, the reaper fails the runs whose
    lease has expired.  Wakes carry no data: a subscriber re-reads the table at whatever moments it
    is woken. *)

From stdpp Require Import sorting.
From S2P Require Import Prelude.
From S2P Require Import PyStr.
From S2P Require Import PyDict.
From S2P Require Import Schemas.
From S2P Require Import Policy.

Local Open Scope py_scope.

(** ** Tables *)

Record Session := {
  se_run : string;
  se_query : string;
  se_status : string;
  se_answer : string;
  se_error : string;
  se_tasks : list json;
  se_cost : Q;
  se_created : Q;
  se_conv : option string;
  se_turn : option Z;
  se_user : option string;
  se_lane : option string;
  se_model : option string;
  se_holder : option string;
  se_lease : option Q;
}.

Record Event := { ev_seq : Z; ev_ts : Q; ev_kind : string; ev_data : list (string * json) }.

(** The events carry their run; [rate_limits] counts per scope and window. *)
Record Runs := {
  rs_sessions : list (string * Session);
  rs_events : list (string * Event);
  rs_limits : list (string * Z * Z);
}.

Definition no_runs : Runs := {| rs_sessions := []; rs_events := []; rs_limits := [] |}.

Definition TERMINAL_KINDS : list string := ["run_done"; "run_failed"; "run_cancelled"].
Definition TERMINAL_STATUSES : list string := ["done"; "failed"; "cancelled"].

Definition with_sessions (t : list (string * Session)) (r : Runs) : Runs :=
  {| rs_sessions := t; rs_events := rs_events r; rs_limits := rs_limits r |}.

Definition update_session (run : string) (f : Session → Session) (r : Runs) : Runs :=
  match dget (rs_sessions r) run with Some s => with_sessions (dset (rs_sessions r) run (f s)) r | None => r end.

(** ** Scoping *)

(** [_scope]: an operator, who has no id, sees every row; a user their own. *)
Definition in_scope (user owner : option string) : bool := match user with None => true | Some u => owner ≡? Some u end.

(** [_mem_scope]: nobody sees another's row. *)
Definition in_mem_scope (user owner : option string) : bool := owner ≡? user.

(** ** Events *)

Definition events_of (run : string) (r : Runs) : list Event := (List.filter (λ e : string * Event, e.1 ≡? run) (rs_events r)).*2.

(** [COALESCE(MAX(seq), 0)] *)
Definition max_seq (es : list Event) : Z := foldr (λ e m, Z.max (ev_seq e) m) 0%Z es.

(** A number of the payload: a [bool] is one, too. *)
Definition cost_of (payload : list (string * json)) : option Q :=
  match dget payload "cost" with
  | Some (JInt z) => Some (Qz z)
  | Some (JFloat q _) => Some q
  | Some (JBool b) => Some (if b then 1 else 0)%Q
  | _ => None
  end.

Definition with_lease (holder : string) (until : Q) (bump : Q) (s : Session) : Session :=
  {| se_run := se_run s; se_query := se_query s; se_status := se_status s; se_answer := se_answer s; se_error := se_error s; se_tasks := se_tasks s;
     se_cost := (se_cost s + bump)%Q; se_created := se_created s; se_conv := se_conv s; se_turn := se_turn s; se_user := se_user s;
     se_lane := se_lane s; se_model := se_model s; se_holder := Some holder; se_lease := Some until |}.

Section replica.
(** The replica's holder id, and how long a lease lives. *)
Context (holder : string) (ttl : Q).

(** [publish]: the event gets the next number of its run, the run its lease again. *)
Definition publish (run kind : string) (payload : list (string * json)) (ts : Q) (r : Runs) : Event * Runs :=
  let e := {| ev_seq := max_seq (events_of run r) + 1; ev_ts := ts; ev_kind := kind; ev_data := payload |} in
  let bump := if kind ∈? TERMINAL_KINDS then 0%Q else default 0%Q (cost_of payload) in
  (e, update_session run (with_lease holder (ts + ttl) bump)
        {| rs_sessions := rs_sessions r; rs_events := rs_events r ++ [(run, e)]; rs_limits := rs_limits r |}).

Definition publish_board (user : option string) (kind : string) (payload : list (string * json)) (ts : Q) (r : Runs) : Event * Runs :=
  publish ("board:" +:+ default "anon" (nonempty user)) kind payload ts r.

(** [span_observer]: a span goes to the current run, under its node's name. *)
Definition span_observer (current : option string) (span : list (string * json)) (ts : Q) (r : Runs) : Runs :=
  match nonempty current with
  | None => r
  | Some run =>
      let kind := match dget span "node" with Some (JStr k) => k | _ => "span" end in
      (publish run kind (dpop (dpop span "node") "ts") ts r).2
  end.

Definition publish_delta (current : option string) (node text : string) (ts : Q) (r : Runs) : Runs :=
  match nonempty current with
  | None => r
  | Some run => (publish run "answer_delta" [("node", JStr node); ("text", JStr text)] ts r).2
  end.

(** ** Sessions *)

(** [create]: a new run is its own conversation unless it continues one. *)
Definition create (run query : string) (conv : option string) (turn : Z) (user : option string) (run_lane : string) (now : Q) (r : Runs) : option Runs :=
  if dmem (rs_sessions r) run then None
  else Some (with_sessions (dset (rs_sessions r) run
    {| se_run := run; se_query := query; se_status := "running"; se_answer := ""; se_error := ""; se_tasks := []; se_cost := 0; se_created := now;
       se_conv := Some (default run (nonempty conv)); se_turn := Some turn; se_user := user; se_lane := Some run_lane; se_model := None;
       se_holder := Some holder; se_lease := Some (now + ttl)%Q |}) r).

Definition terminal_kind (status : string) : string :=
  if status ≡? "done" then "run_done" else if status ≡? "cancelled" then "run_cancelled" else "run_failed".

(** What [finish] is called with, beside the status. *)
Record Outcome := { ou_answer : string; ou_error : string; ou_tasks : list json; ou_cost : option Q; ou_model : option string }.

Definition no_outcome : Outcome := {| ou_answer := ""; ou_error := ""; ou_tasks := []; ou_cost := None; ou_model := None |}.

Definition finished (status : string) (o : Outcome) (s : Session) : Session :=
  {| se_run := se_run s; se_query := se_query s; se_status := status; se_answer := ou_answer o; se_error := ou_error o; se_tasks := ou_tasks o;
     se_cost := default (se_cost s) (ou_cost o); se_created := se_created s; se_conv := se_conv s; se_turn := se_turn s; se_user := se_user s;
     se_lane := se_lane s; se_model := match ou_model o with Some m => Some m | None => se_model s end; se_holder := se_holder s;
     se_lease := se_lease s |}.

(** [printed] is the text of the cost. *)
Definition finish (printed : Q → string) (run status : string) (o : Outcome) (ts : Q) (r : Runs) : Runs :=
  (publish run (terminal_kind status)
     [("status", JStr status); ("error", JStr (ou_error o)); ("cost_total", match ou_cost o with Some c => JFloat c (printed c) | None => JNull end)]
     ts (update_session run (finished status o) r)).2.

(** [reclaim_expired_leases]: this replica takes every running run whose lease is over, or missing. *)
Definition expired (now : Q) (s : Session) : bool :=
  (se_status s ≡? "running") && match se_lease s with Some e => Qltb e now | None => true end.

Definition reclaim_expired_leases (now : Q) (r : Runs) : list string * Runs :=
  (fst <$> List.filter (λ kv : string * Session, expired now kv.2) (rs_sessions r),
   with_sessions ((λ kv : string * Session, if expired now kv.2 then (kv.1, with_lease holder (now + ttl) 0 kv.2) else kv) <$> rs_sessions r) r).

(** The reaper's tick: what it takes, it fails. *)
Definition reap (printed : Q → string) (now : Q) (r : Runs) : list string * Runs :=
  let '(won, r) := reclaim_expired_leases now r in
  (won, foldl (λ r run, finish printed run "failed" {| ou_answer := ""; ou_error := "run timed out (reaped)"; ou_tasks := []; ou_cost := None;
                                                       ou_model := None |} now r) r won).
End replica.

(** ** Reads *)

Definition board_latest_seq (key : string) (r : Runs) : Z := max_seq (events_of key r).

Definition seq_leb (x y : Event) : bool := (ev_seq x <=? ev_seq y)%Z.

Definition events_after (run : string) (after : Z) (r : Runs) : list Event :=
  sort_by seq_leb (List.filter (λ e, (after <? ev_seq e)%Z) (events_of run r)).

(** What one reading yields: its events up to the first terminal one, where to go on, and whether it
    was reached. *)
Fixpoint yields (es : list Event) (last : Z) : list Event * Z * bool :=
  match es with
  | [] => ([], last, false)
  | e :: es =>
      if ev_kind e ∈? TERMINAL_KINDS then ([e], ev_seq e, true)
      else let '(out, l, stop) := yields es (ev_seq e) in (e :: out, l, stop)
  end.

(** [subscribe], whose readings find the given states: the replay, then one per wake or timeout. *)
Fixpoint subscribe (run : string) (last : Z) (states : list Runs) : list Event :=
  match states with
  | [] => []
  | r :: states => let '(out, l, stop) := yields (events_after run last r) last in out ++ if stop then [] else subscribe run l states
  end.

Definition conv_key (s : Session) : string := default (se_run s) (nonempty (se_conv s)).

(** [or 1] *)
Definition turn_of (s : Session) : Z := match se_turn s with Some 0%Z | None => 1 | Some t => t end.

(** [_session_dict]: a row of before the columns were added gets their defaults. *)
Definition session_dict (s : Session) : Session :=
  {| se_run := se_run s; se_query := se_query s; se_status := se_status s; se_answer := se_answer s; se_error := se_error s; se_tasks := se_tasks s;
     se_cost := se_cost s; se_created := se_created s; se_conv := Some (conv_key s); se_turn := Some (turn_of s); se_user := se_user s;
     se_lane := Some (default "work" (nonempty (se_lane s))); se_model := se_model s; se_holder := se_holder s; se_lease := se_lease s |}.

Definition get_session (run : string) (user : option string) (r : Runs) : option Session :=
  match dget (rs_sessions r) run with
  | Some s => if in_scope user (se_user s) then Some (session_dict s) else None
  | None => None
  end.

(** A conversation in the list. *)
Record Conv := { cv_conv : string; cv_query : string; cv_turns : Z; cv_cost : Q; cv_last : Q; cv_status : string }.

Definition list_step (d : list (string * Conv)) (s : Session) : list (string * Conv) :=
  let k := conv_key s in
  let c := match dget d k with
           | Some c => c
           | None => {| cv_conv := k; cv_query := se_query s; cv_turns := 0; cv_cost := 0; cv_last := se_created s; cv_status := se_status s |}
           end in
  dset d k {| cv_conv := cv_conv c; cv_query := if (turn_of s =? 1)%Z then se_query s else cv_query c; cv_turns := cv_turns c + 1;
              cv_cost := (cv_cost c + se_cost s)%Q; cv_last := se_created s; cv_status := se_status s |}.

Definition sessions_by_time (user : option string) (r : Runs) : list Session :=
  sort_by (λ x y, Qleb (se_created x) (se_created y)) (List.filter (λ s, in_scope user (se_user s)) (rs_sessions r).*2).

Definition list_sessions (user : option string) (r : Runs) : list Conv :=
  sort_by (λ x y, Qleb (cv_last y) (cv_last x)) (foldl list_step [] (sessions_by_time user r)).*2.

Definition stale_running_sessions (cutoff : Q) (r : Runs) : list string :=
  omap (λ s, let es := events_of (se_run s) r in
             let latest := match es with [] => se_created s | e :: es => foldl (λ m x, Qmaxb m (ev_ts x)) (ev_ts e) es end in
             if (se_status s ≡? "running") && Qltb latest cutoff then Some (se_run s) else None) (rs_sessions r).*2.

Definition jget (v : json) (k : string) : json := match v with JObj d => default JNull (dget d k) | _ => JNull end.

(** A session's tasks all ran on a lane, and there was one. *)
Definition stayed_on (lane_name : string) (tasks : list json) : bool :=
  let executed := List.filter (λ t, negb (truthy (jget t "blocked"))) tasks in
  match executed with [] => false | _ => true end && forallb (λ t, match jget t "lane" with JStr l => l ≡? lane_name | v => negb (truthy v) && (lane_name ≡? "") end) executed.

Definition sft_pairs (lane_name : string) (limit : Z) (r : Runs) : list (string * string) :=
  let rows := rev (sort_by (λ x y, Qleb (se_created x) (se_created y))
                (List.filter (λ s, (se_status s ≡? "done") && negb (se_answer s ≡? "") && negb (se_query s ≡? "")) (rs_sessions r).*2)) in
  let pairs := (λ s, (se_query s, se_answer s)) <$> List.filter (λ s, stayed_on lane_name (se_tasks s)) rows in
  if (limit =? 0)%Z then pairs else take (Z.to_nat (Z.max 1 limit)) pairs.

(** ** Conversations *)

Definition conv_of (run : string) (r : Runs) : option string := conv_key <$> dget (rs_sessions r) run.

Definition in_conv (conv : string) (user : option string) (s : Session) : bool := (conv_key s ≡? conv) && in_scope user (se_user s).

(** [COALESCE(turn, 1)] *)
Definition turn_leb (x y : Session) : bool := (default 1 (se_turn x) <=? default 1 (se_turn y))%Z.

Definition get_turns (run : string) (user : option string) (r : Runs) : list Session :=
  match conv_of run r with
  | None => []
  | Some conv => session_dict <$> sort_by turn_leb (List.filter (in_conv conv user) (rs_sessions r).*2)
  end.

Definition pair_size (p : string * string) : Z := Z.of_nat (str_len p.1 + str_len p.2).
Definition total_size (l : list (string * string)) : Z := foldr (λ p n, pair_size p + n)%Z 0%Z l.

(** [while len(kept) > 1 and total > max_chars // 2: ...] *)
Fixpoint evict (half total : Z) (kept : list (string * string)) : list (string * string) * Z :=
  match kept with
  | [] => (kept, total)
  | p :: rest => match rest with
                 | [] => (kept, total)
                 | _ => if (half <? total)%Z then evict half (total - pair_size p) rest else (kept, total)
                 end
  end.

(** One turn of the eviction walk. *)
Definition keep_turn (cap : Z) (st : list (string * string) * Z) (p : string * string) : list (string * string) * Z :=
  let kept := st.1 ++ [p] in
  let total := (st.2 + pair_size p)%Z in
  if (cap <? total)%Z then evict (cap / 2) total kept else (kept, total).

Definition window (cap : option Z) (pairs : list (string * string)) : list (string * string) :=
  match cap with None => pairs | Some c => (foldl (keep_turn c) ([], 0%Z) pairs).1 end.

Definition done_pairs (conv : string) (before : Z) (user : option string) (r : Runs) : list (string * string) :=
  (λ s, (se_query s, se_answer s)) <$> sort_by turn_leb
    (List.filter (λ s, in_conv conv user s && (default 1 (se_turn s) <? before)%Z && (se_status s ≡? "done")) (rs_sessions r).*2).

Definition get_history (run : string) (before : Z) (cap : option Z) (user : option string) (r : Runs) : list (string * string) :=
  match conv_of run r with None => [] | Some conv => window cap (done_pairs conv before user r) end.

(** ** Retention and limits *)

(** [int(q)] *)
Definition Qtrunc (q : Q) : Z := if Qltb q 0 then (- Qfloor (- q))%Z else Qfloor q.

Definition prunable (cutoff : Q) (r : Runs) (run : string) : bool :=
  match dget (rs_sessions r) run with
  | Some s => (se_status s ∈? ["done"; "failed"]) && Qltb (se_created s) cutoff
  | None => false
  end.

Definition prune_deltas (older_than_days now : Q) (r : Runs) : nat * Runs :=
  let cutoff := (now - older_than_days * 86400)%Q in
  let gone (e : string * Event) := (ev_kind e.2 ≡? "answer_delta") && prunable cutoff r e.1 in
  (length (List.filter gone (rs_events r)),
   {| rs_sessions := rs_sessions r; rs_events := List.filter (λ e, negb (gone e)) (rs_events r);
      rs_limits := List.filter (λ l : string * Z * Z, negb (l.1.2 <? Qtrunc cutoff)%Z) (rs_limits r) |}).

(** [check_rate_limit]: one atomic counter per scope and window. *)
Definition check_rate_limit (scope : string) (limit window_seconds : Z) (now : Q) (r : Runs) : bool * Runs :=
  let start := (Qfloor (now / Qz window_seconds) * window_seconds)%Z in
  let count := match dget (rs_limits r) (scope, start) with Some n => n + 1 | None => 1 end%Z in
  ((count <=? limit)%Z, {| rs_sessions := rs_sessions r; rs_events := rs_events r; rs_limits := dset (rs_limits r) (scope, start) count |}).

(** ** The launcher *)

(** What the driver's run and the sinks after it do: a result with its answer, or an exception;
    whether writing the card goes through. *)
Record Ran := { ra_result : option (string * list json * Q); ra_error : string; ra_card_ok : bool; ra_card_error : string }.

(** [execute_run]: the driver runs while [during] happens to the store, the outcome is recorded and
    the sinks follow; what raises up to and with the card fails the run. *)
Definition execute_run (holder : string) (ttl : Q) (printed : Q → string) (run : string) (x : Ran) (during : Runs → Runs) (ts : Q) (r : Runs) : Runs :=
  let r := during r in
  let fail error r := finish holder ttl printed run "failed" {| ou_answer := ""; ou_error := error; ou_tasks := []; ou_cost := None; ou_model := None |} ts r in
  match ra_result x with
  | None => fail (ra_error x) r
  | Some (answer, tasks, cost) =>
      let r := finish holder ttl printed run "done"
                 {| ou_answer := answer; ou_error := ""; ou_tasks := tasks; ou_cost := if Qeq_bool cost 0 then None else Some cost; ou_model := None |} ts r in
      if negb (answer ≡? "") && match get_session run None r with Some _ => true | None => false end && negb (ra_card_ok x) then fail (ra_card_error x) r else r
  end.

(** ** Event numbers *)

Definition before (x y : Event) : Prop := (ev_seq x < ev_seq y)%Z.

(** The events of every run are in the order of their numbers. *)
Definition runs_ok (r : Runs) : Prop := ∀ run, StronglySorted before (events_of run r).

Lemma sort_by_id {A} (leb : A → A → bool) l : StronglySorted (λ x y, leb x y = true) l → sort_by leb l = l.
Proof.
  induction l as [|x l IH]; [done|]. intros [Hx Hl]%StronglySorted_cons. change (insert_by leb x (sort_by leb l) = x :: l).
  rewrite IH by done. destruct l as [|y l]; [done|]. cbn. apply Forall_cons in Hx as [-> _]. done.
Qed.

Lemma sorted_bfilter {A} (R : A → A → Prop) (f : A → bool) l : StronglySorted R l → StronglySorted R (List.filter f l).
Proof.
  induction l as [|x l IH]; [done|]. intros [Hx Hl]%StronglySorted_cons. cbn. destruct (f x); [|by apply IH].
  apply StronglySorted_cons. split; [|by apply IH]. apply Forall_forall. intros y [Hy _]%elem_of_bfilter.
  rewrite Forall_forall in Hx. by apply Hx.
Qed.

Lemma sorted_impl {A} (R S : A → A → Prop) l : (∀ x y, R x y → S x y) → StronglySorted R l → StronglySorted S l.
Proof. intros H. induction 1; constructor; [done|]. eapply Forall_impl; [done|]. auto. Qed.

Lemma events_after_filter run after r : runs_ok r → events_after run after r = List.filter (λ e, (after <? ev_seq e)%Z) (events_of run r).
Proof.
  intros Hok. apply sort_by_id. apply (sorted_impl before); [|by apply sorted_bfilter, Hok]. intros x y H. unfold before in H. apply Z.leb_le. lia.
Qed.

Lemma max_seq_ub es e : e ∈ es → (ev_seq e <= max_seq es)%Z.
Proof. induction es as [|x es IH]; [by intros ?%elem_of_nil|].
  change (max_seq (x :: es)) with (Z.max (ev_seq x) (max_seq es)). intros [->|H%IH]%elem_of_cons; lia. Qed.

(** A call of the store, of whichever replica, that the retention of deltas is not. *)
Inductive run_step (r : Runs) : Runs → Prop :=
  | run_publish holder ttl run kind payload ts : run_step r (publish holder ttl run kind payload ts r).2
  | run_create holder ttl run query conv turn user l now r' : create holder ttl run query conv turn user l now r = Some r' → run_step r r'
  | run_finish holder ttl printed run status o ts : run_step r (finish holder ttl printed run status o ts r)
  | run_reclaim holder ttl now : run_step r (reclaim_expired_leases holder ttl now r).2
  | run_limit scope limit w now : run_step r (check_rate_limit scope limit w now r).2.

(** The events of every run are those from before and then more. *)
Definition grows (r r' : Runs) : Prop := ∀ run, ∃ more, events_of run r' = events_of run r ++ more.

#[export] Instance grows_preorder : PreOrder grows.
Proof.
  split; [intros r run; exists []; by rewrite app_nil_r|]. intros r1 r2 r3 H1 H2 run.
  destruct (H1 run) as [m1 E1], (H2 run) as [m2 E2]. exists (m1 ++ m2). by rewrite E2, E1, app_assoc.
Qed.

Lemma grows_same r r' : rs_events r' = rs_events r → grows r r'.
Proof. intros H run. exists []. unfold events_of. by rewrite H, app_nil_r. Qed.

Lemma update_session_events run f r : rs_events (update_session run f r) = rs_events r.
Proof. unfold update_session. by destruct (dget _ _). Qed.

Lemma publish_events holder ttl run kind payload ts r run' :
  let p := publish holder ttl run kind payload ts r in
  events_of run' p.2 = events_of run' r ++ (if run ≡? run' then [p.1] else []) ∧ ev_seq p.1 = (max_seq (events_of run r) + 1)%Z.
Proof.
  cbn. split; [|done]. unfold events_of. rewrite update_session_events. cbn. rewrite List.filter_app, fmap_app. f_equal. cbn.
  by destruct (run ≡? run').
Qed.

Lemma publish_keeps_ok holder ttl run kind payload ts r :
  grows r (publish holder ttl run kind payload ts r).2 ∧ (runs_ok r → runs_ok (publish holder ttl run kind payload ts r).2).
Proof.
  split.
  - intros run'. eexists. apply publish_events.
  - intros Hok run'. destruct (publish_events holder ttl run kind payload ts r run') as [-> Hs]. destruct (run ≡? run') eqn:E; [|by rewrite app_nil_r].
    bool_to_prop. subst run'. apply StronglySorted_app. split; [|split; [apply Hok|repeat constructor]].
    intros x y Hx ->%list_elem_of_singleton. unfold before. rewrite Hs. pose proof (max_seq_ub _ _ Hx). lia.
Qed.

Lemma same_events_ok r r' : rs_events r' = rs_events r → grows r r' ∧ (runs_ok r → runs_ok r').
Proof. intros H. split; [by apply grows_same|]. unfold runs_ok, events_of. by rewrite H. Qed.

Lemma run_step_ok r r' : run_step r r' → grows r r' ∧ (runs_ok r → runs_ok r').
Proof.
  destruct 1 as [| |holder ttl printed run status o ts| |]; [apply publish_keeps_ok| | | |].
  - unfold create in *. destruct (dmem _ _); simplify_eq. by apply same_events_ok.
  - unfold finish. destruct (same_events_ok r (update_session run (finished status o) r)) as [H1 H2]; [apply update_session_events|].
    destruct (publish_keeps_ok holder ttl run (terminal_kind status) [("status", JStr status); ("error", JStr (ou_error o));
      ("cost_total", match ou_cost o with Some c => JFloat c (printed c) | None => JNull end)] ts (update_session run (finished status o) r)) as [H3 H4].
    split; [by etrans|auto].
  - by apply same_events_ok.
  - by apply same_events_ok.
Qed.

Lemma run_history_ok r r' : rtc run_step r r' → grows r r' ∧ (runs_ok r → runs_ok r').
Proof.
  induction 1 as [r|r1 r2 r3 H1 _ [H2 H3]]; [split; [reflexivity|done]|]. destruct (run_step_ok _ _ H1) as [H4 H5]. split; [by etrans|auto].
Qed.

(** ** Subscribers *)

Definition after (l : Z) (es : list Event) : list Event := List.filter (λ e, (l <? ev_seq e)%Z) es.

Lemma yields_app a b l :
  yields (a ++ b) l = let '(out, l', stop) := yields a l in
                      if stop then (out, l', true) else let '(out', l'', stop') := yields b l' in (out ++ out', l'', stop').
Proof.
  revert l. induction a as [|e a IH]; intros l; cbn [app yields]; [by destruct (yields b l) as [[? ?] ?]|].
  destruct (ev_kind e ∈? TERMINAL_KINDS); [done|]. rewrite IH. destruct (yields a (ev_seq e)) as [[out l'] stop]. destruct stop; [done|].
  by destruct (yields b l') as [[out' l''] stop'].
Qed.

(** A reading that meets no terminal event yields all it found and goes on after the last of it. *)
Lemma yields_all es l out l' : yields es l = (out, l', false) → out = es ∧ l' = match last es with Some e => ev_seq e | None => l end.
Proof.
  revert l out. induction es as [|e es IH]; intros l out; cbn [yields]; [by intros [= <- <-]|].
  destruct (ev_kind e ∈? TERMINAL_KINDS); [done|]. destruct (yields es (ev_seq e)) as [[o l2] stop] eqn:E. intros [= <- <- ->].
  destruct (IH _ _ E) as [-> ->]. split; [done|]. rewrite last_cons. by destruct (last es).
Qed.

Lemma after_none l es : (∀ e, e ∈ es → (ev_seq e <= l)%Z) → after l es = [].
Proof. intros H. apply elem_of_nil_inv. intros e [He Hl]%elem_of_bfilter. specialize (H e He). lia. Qed.

Lemma after_all l es : (∀ e, e ∈ es → (l < ev_seq e)%Z) → after l es = es.
Proof.
  induction es as [|e es IH]; [done|]. intros H. unfold after. cbn. rewrite (proj2 (Z.ltb_lt l (ev_seq e))) by (apply H; left).
  f_equal. apply IH. intros x Hx. apply H. by right.
Qed.

(** What is after [l] in a longer log: what was after it, then what is after the last of that. *)
Lemma after_grown l es more :
  StronglySorted before (es ++ more) →
  after l (es ++ more) = after l es ++ after (match last (after l es) with Some e => ev_seq e | None => l end) (es ++ more).
Proof.
  intros Hs. destruct (last (after l es)) as [x|] eqn:E.
  - assert (x ∈ after l es) as Hx by by apply last_Some_elem_of. apply elem_of_bfilter in Hx as [Hx Hl]. apply Z.ltb_lt in Hl.
    assert (∀ e, e ∈ more → (ev_seq x < ev_seq e)%Z) as Hm by (intros e He; by apply (StronglySorted_app_1_elem_of _ _ _ _ _ Hs)).
    assert (∀ e, e ∈ es → (ev_seq e <= ev_seq x)%Z) as He.
    { intros e Hin. destruct (Z.ltb_spec l (ev_seq e)); [|lia].
      assert (e ∈ after l es) as Hin' by (apply elem_of_bfilter; split; [done|by apply Z.ltb_lt]).
      apply last_Some in E as (pre & E). rewrite E in Hin'. apply elem_of_app in Hin' as [Hin'| ->%list_elem_of_singleton]; [|lia].
      apply StronglySorted_app_1_l, (sorted_bfilter _ (λ e, (l <? ev_seq e)%Z)) in Hs. fold (after l es) in Hs. rewrite E in Hs.
      assert (before e x) as Hb by (apply (StronglySorted_app_1_elem_of _ _ _ _ _ Hs Hin'); by apply list_elem_of_singleton). unfold before in Hb. lia. }
    unfold after at 1 3. rewrite !List.filter_app. fold (after l es) (after l more) (after (ev_seq x) es) (after (ev_seq x) more).
    rewrite (after_none (ev_seq x) es He), (after_all (ev_seq x) more Hm), (after_all l more); [done|].
    intros e Hin. specialize (Hm e Hin). lia.
  - apply last_None in E. by rewrite E.
Qed.

(** Each state follows from the one before by calls of whatever replicas. *)
Fixpoint chain (r : Runs) (states : list Runs) : Prop :=
  match states with [] => True | s :: states => rtc run_step r s ∧ chain s states end.

(** The last of them. *)
Definition final (r : Runs) (states : list Runs) : Runs := foldl (λ _ s, s) r states.

Lemma chain_last r states : chain r states → rtc run_step r (final r states).
Proof.
  revert r. induction states as [|s states IH]; intros r; cbn; [reflexivity|]. intros [H1 H2]. etrans; [exact H1|by apply IH].
Qed.

Lemma subscribe_cut run l r states :
  runs_ok r → chain r states → states ≠ [] →
  subscribe run l states = (yields (after l (events_of run (final r states))) l).1.1.
Proof.
  revert r l. induction states as [|s states IH]; [done|]. intros r l Hok [Hrs Hch] _.
  destruct (run_history_ok _ _ Hrs) as [_ Hok']. specialize (Hok' Hok). cbn [subscribe]. rewrite events_after_filter by done. fold (after l (events_of run s)).
  destruct states as [|s2 states]; [cbn; destruct (yields _ l) as [[out l'] []]; cbn; by rewrite app_nil_r|].
  change (final r (s :: s2 :: states)) with (final s (s2 :: states)).
  pose proof (chain_last _ _ Hch) as Hfin. destruct (run_history_ok _ _ Hfin) as [Hg Hokf]. specialize (Hokf Hok').
  destruct (Hg run) as [more Hmore]. pose proof (Hokf run) as Hsort. rewrite Hmore in Hsort.
  destruct (yields (after l (events_of run s)) l) as [[out l'] stop] eqn:E.
  rewrite Hmore, (after_grown l _ _ Hsort), yields_app, E. destruct stop; [cbn; by rewrite app_nil_r|].
  destruct (yields_all _ _ _ _ E) as [-> ->]. rewrite (IH s _ Hok' Hch) by done. rewrite <- Hmore.
  set (rest := yields (after _ (events_of run (final s _))) _). by destruct rest as [[o' k'] stop'].
Qed.

(** C17: A subscriber gets the events of its run after the number it resumes from exactly once each
    and in order, up to and with the first terminal one, whenever it is woken and whatever the
    replicas write between its readings: what it was given is the log its last reading found, cut
    there. *)
Theorem subscribe_exact run l r states :
  runs_ok r → chain r states → states ≠ [] →
  let log := events_after run l (final r states) in
  subscribe run l states = (yields log l).1.1 ∧ StronglySorted before log ∧
  (Forall (λ e, ev_kind e ∉ TERMINAL_KINDS) log → subscribe run l states = log) ∧
  (∀ pre e post, log = pre ++ e :: post → Forall (λ e, ev_kind e ∉ TERMINAL_KINDS) pre → ev_kind e ∈ TERMINAL_KINDS →
     subscribe run l states = pre ++ [e]).
Proof.
  intros Hok Hch Hne log. destruct (run_history_ok _ _ (chain_last _ _ Hch)) as [_ Hokf]. specialize (Hokf Hok).
  assert (subscribe run l states = (yields log l).1.1) as Hsub.
  { unfold log. rewrite events_after_filter by done. by apply subscribe_cut. }
  assert (∀ pre k, Forall (λ e, ev_kind e ∉ TERMINAL_KINDS) pre → ∃ l', yields pre k = (pre, l', false)) as Hpre.
  { induction pre as [|x pre IH]; intros k Hp; [by exists k|]. apply Forall_cons in Hp as [Hx Hp]. cbn [yields].
    rewrite bool_decide_eq_false_2 by done. destruct (IH (ev_seq x) Hp) as [l' ->]. by exists l'. }
  split; [done|]. split; [unfold log; rewrite events_after_filter by done; apply sorted_bfilter, Hokf|]. rewrite Hsub. split.
  - intros Hall. by destruct (Hpre _ l Hall) as [l' ->].
  - intros pre e post -> Hp He. destruct (Hpre pre l Hp) as [l' E]. rewrite yields_app, E. cbn [yields]. by rewrite bool_decide_eq_true_2.
Qed.

(** ** Histories *)

Lemma total_size_app a b : total_size (a ++ b) = (total_size a + total_size b)%Z.
Proof. unfold total_size. induction a as [|p a IH]; cbn; [lia|]. rewrite IH. lia. Qed.

Lemma pair_size_nonneg p : (0 <= pair_size p)%Z.
Proof. unfold pair_size. lia. Qed.

(** Evicting keeps the latest turns, the last one always, and stops within the half or at it. *)
Lemma evict_spec half kept k t :
  evict half (total_size kept) kept = (k, t) →
  t = total_size k ∧ k `suffix_of` kept ∧ (kept ≠ [] → k ≠ []) ∧ ((t <= half)%Z ∨ length k ≤ 1).
Proof.
  induction kept as [|p kept IH]; [cbn; intros [= <- <-]; split_and!; [done..|right; cbn; lia]|].
  cbn [evict]. destruct kept as [|q kept]; [intros [= <- <-]; split_and!; [done..|right; cbn; lia]|].
  destruct (Z.ltb_spec half (total_size (p :: q :: kept))) as [H|H]; [|intros [= <- <-]; split_and!; [done..|by left]].
  assert (total_size (p :: q :: kept) - pair_size p = total_size (q :: kept))%Z as ->.
  { change (total_size (p :: q :: kept)) with (pair_size p + total_size (q :: kept))%Z. lia. }
  intros (Ht & Hs & Hn & Hl)%IH. split_and!; [done|by apply suffix_cons_r|intros _; by apply Hn|done].
Qed.

Lemma window_step cap pairs p :
  (0 <= cap)%Z →
  let st := foldl (keep_turn cap) ([], 0%Z) pairs in
  st.2 = total_size st.1 →
  let st' := keep_turn cap st p in
  st'.2 = total_size st'.1 ∧ st'.1 `suffix_of` st.1 ++ [p] ∧ last st'.1 = Some p ∧ ((st'.2 <= cap)%Z ∨ length st'.1 ≤ 1) ∧
  ((cap < st.2 + pair_size p)%Z → (st'.2 <= cap / 2)%Z ∨ length st'.1 ≤ 1) ∧ ((st.2 + pair_size p <= cap)%Z → st'.1 = st.1 ++ [p]).
Proof.
  intros Hcap st Hst. cbn. unfold keep_turn. rewrite Hst.
  assert (total_size st.1 + pair_size p = total_size (st.1 ++ [p]))%Z as -> by (rewrite total_size_app; cbn; lia).
  destruct (Z.ltb_spec cap (total_size (st.1 ++ [p]))) as [H|H]; cbn.
  - destruct (evict (cap / 2) (total_size (st.1 ++ [p])) (st.1 ++ [p])) as [k t] eqn:E. apply evict_spec in E as (-> & Hs & Hn & Hl). cbn.
    split; [done|]. split; [done|]. split.
    { destruct Hs as [pre Hs]. assert (last (st.1 ++ [p]) = Some p) as Hp by apply last_snoc. rewrite Hs, last_app in Hp.
      destruct (last k) as [x|] eqn:Ek; [done|]. apply last_None in Ek. exfalso. apply Hn; [by destruct st.1|done]. }
    split; [destruct Hl as [Hl|Hl]; [left|by right]; pose proof (Z.div_le_upper_bound cap 2 cap); lia|]. split; [done|]. intros. lia.
  - split; [done|]. split; [done|]. split; [apply last_snoc|]. split; [by left|]. split; [intros; lia|done].
Qed.

Lemma window_total cap pairs : (0 <= cap)%Z → (foldl (keep_turn cap) ([], 0%Z) pairs).2 = total_size (foldl (keep_turn cap) ([], 0%Z) pairs).1.
Proof.
  intros Hcap. induction pairs as [|p pairs IH] using rev_ind; [done|]. rewrite foldl_app. cbn [foldl]. by destruct (window_step cap pairs p Hcap IH).
Qed.

(** C19: The turns a continued conversation hands the model are its latest ones in their order, the
    last one always among them, within the cap unless that one alone exceeds it; a further turn
    that fits is appended to exactly the window before it, so the prefix a provider has cached
    stays the same, and one that does not brings the window down to half the cap. *)
Theorem window_stable cap pairs p :
  (0 <= cap)%Z →
  let w := window (Some cap) pairs in let w' := window (Some cap) (pairs ++ [p]) in
  w' `suffix_of` pairs ++ [p] ∧ last w' = Some p ∧ ((total_size w' <= cap)%Z ∨ w' = [p]) ∧
  ((total_size w + pair_size p <= cap)%Z → w' = w ++ [p]) ∧
  ((cap < total_size w + pair_size p)%Z → (total_size w' <= cap / 2)%Z ∨ w' = [p]).
Proof.
  intros Hcap. cbv zeta. unfold window. rewrite foldl_app. cbn [foldl]. pose proof (window_total cap pairs Hcap) as Ht.
  destruct (window_step cap pairs p Hcap Ht) as (H1 & H2 & H3 & H4 & H5 & H6).
  assert ((foldl (keep_turn cap) ([], 0%Z) pairs).1 `suffix_of` pairs) as Hsuf.
  { clear -Hcap. induction pairs as [|q pairs IH] using rev_ind; [done|]. rewrite foldl_app. cbn [foldl].
    destruct (window_step cap pairs q Hcap (window_total cap pairs Hcap)) as (_ & H & _). etrans; [exact H|]. by apply suffix_app. }
  set (st := foldl (keep_turn cap) ([], 0%Z) pairs) in *. set (st' := keep_turn cap st p) in *.
  assert (length st'.1 ≤ 1 → st'.1 = [p]) as Hone.
  { destruct st'.1 as [|x [|y l]]; cbn in *; [done|intros _; congruence|lia]. }
  rewrite <- Ht, <- H1. split; [etrans; [exact H2|by apply suffix_app]|]. split; [done|]. split; [naive_solver|]. split; [exact H6|]. naive_solver.
Qed.

(** ** Isolation of users *)

(** A store that holds one user's sessions and nobody else's. *)
Definition own (u : string) (r : Runs) : Runs :=
  with_sessions (List.filter (λ kv : string * Session, se_user kv.2 ≡? Some u) (rs_sessions r)) r.

Lemma filter_snd {K V} (f : V → bool) (d : list (K * V)) : (List.filter (λ kv : K * V, f kv.2) d).*2 = List.filter f d.*2.
Proof. induction d as [|[k v] d IH]; [done|]. cbn. by destruct (f v); cbn; rewrite IH. Qed.

Lemma filter_filter_and {A} (f g : A → bool) l : List.filter g (List.filter f l) = List.filter (λ x, f x && g x) l.
Proof. induction l as [|x l IH]; [done|]. cbn. by destruct (f x); cbn; [destruct (g x)|]; rewrite IH. Qed.

Lemma filter_same {A} (f g : A → bool) l : (∀ x, f x = g x) → List.filter f l = List.filter g l.
Proof. intros H. induction l as [|x l IH]; [done|]. cbn. by rewrite H, IH. Qed.

Lemma dget_own u run r :
  NoDup (dkeys (rs_sessions r)) →
  dget (rs_sessions (own u r)) run = match dget (rs_sessions r) run with Some s => if se_user s ≡? Some u then Some s else None | None => None end.
Proof.
  unfold own. cbn. induction (rs_sessions r) as [|[k s] l IH]; [done|]. intros [Hk Hnd]%NoDup_cons. cbn. destruct (decide (run = k)) as [->|Hne].
  - destruct (se_user s ≡? Some u) eqn:E; [cbn; by rewrite decide_True|]. rewrite IH by done.
    destruct (dget l k) eqn:Ed; [|done]. exfalso. apply Hk. apply dget_elem in Ed. by apply (list_elem_of_fmap_2 fst) in Ed.
  - destruct (se_user s ≡? Some u); [cbn; rewrite decide_False by done|]; by apply IH.
Qed.

Lemma own_rows u r : (rs_sessions (own u r)).*2 = List.filter (λ s, se_user s ≡? Some u) (rs_sessions r).*2.
Proof. exact (filter_snd (λ s : Session, se_user s ≡? Some u) (rs_sessions r)). Qed.

(** The turns and the history of a conversation, in a store of one user's rows. *)
Definition conv_turns (conv : option string) (r : Runs) : list Session :=
  match conv with
  | None => []
  | Some c => session_dict <$> sort_by turn_leb (List.filter (λ s, conv_key s ≡? c) (rs_sessions r).*2)
  end.

Definition conv_history (conv : option string) (before : Z) (cap : option Z) (r : Runs) : list (string * string) :=
  match conv with
  | None => []
  | Some c => window cap ((λ s, (se_query s, se_answer s)) <$> sort_by turn_leb
      (List.filter (λ s, (conv_key s ≡? c) && (default 1 (se_turn s) <? before)%Z && (se_status s ≡? "done")) (rs_sessions r).*2))
  end.

Lemma get_turns_own u run r : get_turns run (Some u) r = conv_turns (conv_of run r) (own u r).
Proof.
  unfold get_turns, conv_turns. destruct (conv_of run r) as [c|]; [|done]. rewrite own_rows, filter_filter_and.
  by rewrite (filter_same (in_conv c (Some u)) (λ s, (se_user s ≡? Some u) && (conv_key s ≡? c)))
    by (intros x; apply andb_comm).
Qed.

Lemma get_history_own u run before cap r :
  get_history run before cap (Some u) r = conv_history (conv_of run r) before cap (own u r).
Proof.
  unfold get_history, conv_history, done_pairs. destruct (conv_of run r) as [c|]; [|done]. rewrite own_rows, filter_filter_and.
  rewrite (filter_same (λ s, in_conv c (Some u) s && _ && _)
    (λ s, (se_user s ≡? Some u) && ((conv_key s ≡? c) && (default 1 (se_turn s) <? before)%Z && (se_status s ≡? "done")))); [done|].
  intros x. unfold in_conv, in_scope. destruct (se_user x ≡? Some u), (conv_key x ≡? c); done.
Qed.

Lemma conv_of_own u run r :
  NoDup (dkeys (rs_sessions r)) → get_session run (Some u) r ≠ None → conv_of run (own u r) = conv_of run r.
Proof.
  intros Hnd. unfold get_session, conv_of. rewrite dget_own by done. destruct (dget (rs_sessions r) run) as [s|]; [|done].
  cbn [in_scope]. by destruct (se_user s ≡? Some u).
Qed.

(** C18: What a user reads is what they would read of a store with their own sessions alone: no row
    of another user, and none without an owner, changes the session they read or their list; and
    the turns and the history handed to the model, asked for under any run's id, are those of the
    user's own rows of that run's conversation.  Of the row that names the conversation (which
    [create_turn] may read history through although it is another user's, the conversation's root)
    nothing but the conversation is used, and for a run the user can see that one is found in their
    own rows too.  (Rows are filed under distinct run ids.) *)
Theorem user_reads_own u run before cap r :
  NoDup (dkeys (rs_sessions r)) →
  get_session run (Some u) r = get_session run None (own u r) ∧
  list_sessions (Some u) r = list_sessions None (own u r) ∧
  get_turns run (Some u) r = conv_turns (conv_of run r) (own u r) ∧
  get_history run before cap (Some u) r = conv_history (conv_of run r) before cap (own u r) ∧
  (get_session run (Some u) r ≠ None → conv_of run r = conv_of run (own u r)).
Proof.
  intros Hnd. pose proof (dget_own u run r Hnd) as Hg. split; [|split; [|split; [|split] ] ].
  - unfold get_session. rewrite Hg. destruct (dget (rs_sessions r) run) as [s|]; [|done]. cbn. by destruct (se_user s ≡? Some u).
  - unfold list_sessions, sessions_by_time. rewrite own_rows, filter_filter_and.
    by rewrite (filter_same (λ s : Session, in_scope (Some u) (se_user s)) (λ s, (se_user s ≡? Some u) && in_scope None (se_user s)))
      by (intros x; by rewrite andb_true_r).
  - apply get_turns_own.
  - apply get_history_own.
  - intros H. symmetry. by apply conv_of_own.
Qed.

(** ** Runs come to an end *)

Lemma publish_session holder ttl run kind payload ts r run' s :
  dget (rs_sessions r) run' = Some s →
  ∃ s', dget (rs_sessions (publish holder ttl run kind payload ts r).2) run' = Some s' ∧ se_status s' = se_status s ∧ se_answer s' = se_answer s
    ∧ se_error s' = se_error s.
Proof.
  intros Hs. unfold publish, update_session. cbn. destruct (dget (rs_sessions r) run) as [s0|] eqn:E0; cbn; [|by exists s].
  destruct (decide (run' = run)) as [->|Hne]; [|rewrite dget_dset_ne by done; by exists s].
  rewrite dget_dset_eq. assert (s0 = s) as -> by congruence. by eexists.
Qed.

Lemma finish_spec holder ttl printed run status o ts r s :
  dget (rs_sessions r) run = Some s →
  let r' := finish holder ttl printed run status o ts r in
  (∃ s', dget (rs_sessions r') run = Some s' ∧ se_status s' = status ∧ se_answer s' = ou_answer o ∧ se_error s' = ou_error o) ∧
  ∃ e, events_of run r' = events_of run r ++ [e] ∧ ev_kind e = terminal_kind status.
Proof.
  intros Hs. unfold finish. set (r1 := update_session run (finished status o) r).
  assert (dget (rs_sessions r1) run = Some (finished status o s)) as H1.
  { unfold r1, update_session. rewrite Hs. cbn. apply dget_dset_eq. }
  split.
  - eapply publish_session in H1. destruct H1 as (s' & H1 & H2 & H3 & H4). exists s'. split; [exact H1|]. by rewrite H2, H3, H4.
  - set (payload := [("status", JStr status); _; _]). exists (publish holder ttl run (terminal_kind status) payload ts r1).1. split; [|reflexivity].
    destruct (publish_events holder ttl run (terminal_kind status) payload ts r1 run) as [-> _].
    rewrite bool_decide_eq_true_2 by done. unfold events_of at 1. unfold r1. by rewrite update_session_events.
Qed.

Lemma terminal_kind_terminal status : terminal_kind status ∈ TERMINAL_KINDS.
Proof. unfold terminal_kind. repeat case_match; by apply (bool_decide_unpack _); vm_compute. Qed.

(** C16: A launched run always comes to an end, whatever the driver, the sinks and the other calls
    do: its row is terminal, its log ends in a terminal event so every subscriber is let go, and
    no reaper takes it; with the driver's answer, unless a sink failed. *)
Theorem run_always_ends holder ttl printed run x during ts r s :
  dget (rs_sessions (during r)) run = Some s →
  let r' := execute_run holder ttl printed run x during ts r in
  ∃ s' e, dget (rs_sessions r') run = Some s' ∧ se_status s' ∈ TERMINAL_STATUSES ∧
    last (events_of run r') = Some e ∧ ev_kind e ∈ TERMINAL_KINDS ∧ (∀ now, expired now s' = false) ∧
    (∀ answer tasks cost, ra_result x = Some (answer, tasks, cost) → ra_card_ok x = true → se_status s' = "done" ∧ se_answer s' = answer) ∧
    (ra_result x = None → se_status s' = "failed" ∧ se_error s' = ra_error x).
Proof.
  intros Hs. cbv zeta. unfold execute_run. set (r0 := during r) in *.
  assert (∀ st o r1 s1, dget (rs_sessions r1) run = Some s1 → st = "done" ∨ st = "failed" →
    ∃ s' e, dget (rs_sessions (finish holder ttl printed run st o ts r1)) run = Some s' ∧ se_status s' ∈ TERMINAL_STATUSES ∧
      last (events_of run (finish holder ttl printed run st o ts r1)) = Some e ∧ ev_kind e ∈ TERMINAL_KINDS ∧ (∀ now, expired now s' = false) ∧
      se_status s' = st ∧ se_answer s' = ou_answer o ∧ se_error s' = ou_error o) as Hfin.
  { intros st o r1 s1 H1 Hst. destruct (finish_spec holder ttl printed run st o ts r1 s1 H1) as ((s' & H2 & H3 & H4 & H5) & e & He & Hk).
    exists s', e. split; [done|]. split; [rewrite H3; destruct Hst as [-> | ->]; by apply (bool_decide_unpack _); vm_compute|].
    split; [rewrite He; apply last_snoc|]. split; [rewrite Hk; apply terminal_kind_terminal|]. split; [|done].
    intros now. unfold expired. rewrite H3. by destruct Hst as [-> | ->]. }
  destruct (ra_result x) as [[[answer tasks] cost]|].
  - set (o := {| ou_answer := answer; ou_error := ""; ou_tasks := tasks; ou_cost := _; ou_model := None |}).
    destruct (Hfin "done" o r0 s Hs (or_introl eq_refl)) as (s1 & e1 & H1 & H2 & H3 & H4 & H5 & H6 & H7 & H8).
    destruct (_ && _ && _) eqn:Ec.
    + destruct (Hfin "failed" {| ou_answer := ""; ou_error := ra_card_error x; ou_tasks := []; ou_cost := None; ou_model := None |} _ s1 H1 (or_intror eq_refl))
        as (s2 & e2 & K1 & K2 & K3 & K4 & K5 & K6 & K7 & K8).
      exists s2, e2. split_and!; try done. intros a t c [= <- <- <-] Hok. rewrite Hok in Ec. by rewrite andb_false_r in Ec.
    + exists s1, e1. split_and!; try done. by intros a t c [= <- <- <-] _.
  - destruct (Hfin "failed" {| ou_answer := ""; ou_error := ra_error x; ou_tasks := []; ou_cost := None; ou_model := None |} r0 s Hs (or_intror eq_refl))
      as (s1 & e1 & H1 & H2 & H3 & H4 & H5 & H6 & H7 & H8).
    exists s1, e1. split_and!; done.
Qed.

(** A lease that was renewed, or taken, within its lifetime is not taken again. *)
Theorem reclaimed_once holder ttl holder' ttl' now later r run :
  NoDup (dkeys (rs_sessions r)) → (later <= now + ttl)%Q → run ∈ (reclaim_expired_leases holder ttl now r).1 →
  run ∉ (reclaim_expired_leases holder' ttl' later (reclaim_expired_leases holder ttl now r).2).1.
Proof.
  intros Hnd Hl H1 H2. apply list_elem_of_fmap in H1 as ([k s] & -> & [Hin He]%elem_of_bfilter).
  apply list_elem_of_fmap in H2 as ([k' s'] & Hk & [Hin' He']%elem_of_bfilter). cbn in Hk, He, He', Hin'. subst k'.
  apply list_elem_of_fmap in Hin' as ([k2 s2] & Heq & Hin2). cbn in Heq. assert (k2 = k ∧ s2 = s) as [-> ->].
  { assert (k2 = k) as -> by (destruct (expired now s2); by injection Heq). split; [done|].
    apply (elem_dget _ _ _ Hnd) in Hin, Hin2. congruence. }
  rewrite He in Heq. injection Heq as ->. unfold expired in He'. cbn in He'. bool_to_prop. q_to_prop.
  lra.
Qed.

(** ** Instances *)

Definition demo_payload : list (string * json) := [("node", JStr "t1"); ("text", JStr "hi")].
Definition demo_printed : Q → string := λ _, "".

(** A run of [u] that has published one chunk. *)
Definition demo_created : Runs := default no_runs (create "h1" 600 "r1" "hello" None 1 (Some "u") "work" 0 no_runs).
Definition demo_running : Runs := (publish "h1" 600 "r1" "answer_delta" demo_payload 5 demo_created).2.
Definition demo_answer : Outcome := {| ou_answer := "yes"; ou_error := ""; ou_tasks := []; ou_cost := Some 1%Q; ou_model := None |}.
Definition demo_done : Runs := finish "h1" 600 demo_printed "r1" "done" demo_answer 9 demo_running.

Lemma demo_created_ok : runs_ok demo_created.
Proof. intros run. apply SSorted_nil. Qed.

Lemma subscribe_exact_witness :
  subscribe "r1" 0 [demo_running; demo_running; demo_done] = events_of "r1" demo_done
  ∧ ev_kind <$> subscribe "r1" 0 [demo_running; demo_running; demo_done] = ["answer_delta"; "run_done"].
Proof.
  split; [|reflexivity].
  destruct (subscribe_exact "r1" 0 demo_created [demo_running; demo_running; demo_done] demo_created_ok) as (H & _).
  - split; [|split; [|split; [|exact I]]]; [|reflexivity|]; (eapply rtc_l; [|apply rtc_refl]).
    + apply (run_publish demo_created "h1" 600 "r1" "answer_delta" demo_payload 5).
    + apply (run_finish demo_running "h1" 600 demo_printed "r1" "done" demo_answer 9).
  - discriminate.
  - rewrite H. reflexivity.
Defined.

Lemma window_stable_witness :
  let w := window (Some 10%Z) [("ab", "cd"); ("ef", "gh")] in
  window (Some 10%Z) ([("ab", "cd"); ("ef", "gh")] ++ [("i", "j")]) = w ++ [("i", "j")]
  ∧ window (Some 10%Z) ([("ab", "cd"); ("ef", "gh"); ("i", "j")] ++ [("k", "l")]) = [("i", "j"); ("k", "l")].
Proof.
  intros w. destruct (window_stable 10 [("ab", "cd"); ("ef", "gh")] ("i", "j") ltac:(lia)) as (_ & _ & _ & H & _).
  split; [|reflexivity]. apply H. vm_compute. discriminate.
Defined.

Lemma user_reads_own_witness :
  get_session "r1" (Some "u") demo_done = get_session "r1" None (own "u" demo_done) ∧ get_session "r1" (Some "v") demo_done = None
  ∧ get_history "r1" 2 None (Some "u") demo_done = [("hello", "yes")].
Proof.
  assert (NoDup (dkeys (rs_sessions demo_done))) as Hnd by vm_decide.
  destruct (user_reads_own "u" "r1" 2 None demo_done Hnd) as (H & _). split; [exact H|]. split; reflexivity.
Defined.

Definition demo_ran (ok : bool) : Ran := {| ra_result := Some ("yes", [], 1%Q); ra_error := ""; ra_card_ok := ok; ra_card_error := "TimeoutError: revise" |}.

Lemma run_always_ends_witness :
  ∃ s', dget (rs_sessions (execute_run "h1" 600 demo_printed "r1" (demo_ran true) (λ r, r) 9 demo_running)) "r1" = Some s' ∧ se_answer s' = "yes".
Proof.
  destruct (dget (rs_sessions demo_running) "r1") as [s|] eqn:E; [|discriminate E].
  destruct (run_always_ends "h1" 600 demo_printed "r1" (demo_ran true) (λ r, r) 9 demo_running s E) as (s' & e & H & _ & _ & _ & _ & Ha & _).
  exists s'. split; [exact H|]. exact (proj2 (Ha "yes" [] 1%Q eq_refl eq_refl)).
Defined.

(** When the card of a finished conversation cannot be written, the run is failed after it was done:
    its answer is gone from the row, and the log has both terminal events. *)
Theorem card_failure_wipes_answer :
  let r := execute_run "h1" 600 demo_printed "r1" (demo_ran false) (λ r, r) 9 demo_running in
  (λ s, (se_status s, se_answer s)) <$> dget (rs_sessions r) "r1" = Some ("failed", "") ∧
  ev_kind <$> events_of "r1" r = ["answer_delta"; "run_done"; "run_failed"].
Proof. split; reflexivity. Qed.

(** A run that was silent past its lease and reaped, and then ends: the row says done, the stream said
    failed. *)
Theorem reaped_run_comes_back :
  let r := finish "h1" 600 demo_printed "r1" "done" demo_answer 1001 (reap "h2" 600 demo_printed 1000 demo_running).2 in
  (reap "h2" 600 demo_printed 1000 demo_running).1 = ["r1"] ∧
  se_status <$> dget (rs_sessions r) "r1" = Some "done" ∧ ev_kind <$> subscribe "r1" 0 [r] = ["answer_delta"; "run_failed"].
Proof. split_and!; reflexivity. Qed.

(** The chunks of a cancelled run are never pruned. *)
Theorem cancelled_not_pruned :
  let r := finish "h1" 600 demo_printed "r1" "cancelled" demo_answer 9 demo_running in
  (prune_deltas 30 100000000 r).1 = 0 ∧ (prune_deltas 30 100000000 demo_done).1 = 1.
Proof. split; reflexivity. Qed.
