(* ===== verification/Egress.v ===== *)
(** * The egress allowlist ([egress.py])

    The hosts the process may reach are derived from the configuration when it starts; one check in
    front of every outbound request refuses, or only reports, any other host. *)

From S2P Require Import Prelude.
From S2P Require Import PyStr.
From S2P Require Import PyDict.
From S2P Require Import Catalog.
From S2P Require Import Domain.
From S2P Require Import Policy.
From S2P Require Import AuthPolicies.
From S2P Require Import AuthStore.
From S2P Require Import AuthSso.

Local Open Scope py_scope.

(** ** Hosts *)

(** [ValueError] of [urlparse], or a refused connection. *)
Inductive EgressError : Type := EMalformed | EgressBlocked (host subsystem : string).

(** [netloc.split("@")[-1]] *)
Definition after_at (netloc : string) : string := rev_str (span (λ c, negb (c ≡? "@"%char)) (rev_str netloc "")).1 "".

(** [s.rsplit(":", 1)[0]] *)
Definition drop_port (s : string) : string :=
  match (span (λ c, negb (c ≡? ":"%char)) (rev_str s "")).2 with
  | String _ r => rev_str r ""
  | EmptyString => s
  end.

Section egress.
(** The check of a bracketed host. *)
Context (ip_host : string → bool).

Definition host_of (url_or_host : option string) : res EgressError string :=
  match nonempty url_or_host with
  | None => Ok ""
  | Some u =>
      let s := strip u in
      match urlsplit ip_host (if contains "//" s then s else "//" +:+ s) with
      | None => Err EMalformed
      | Some p => Ok (if u_netloc p ≡? "" then "" else lower (drop_port (after_at (u_netloc p))))
      end
  end.

(** ** The derived set *)

(** The settings that name hosts. *)
Record EgressSettings := {
  toto_url : string; smtp_host : string; s3_endpoint : string; sentry_dsn : string;
  pipedream : bool; companion_tts : bool; egress_extra : string; egress_enforce : bool;
}.

Definition DISCOVERY_HOSTS : list string :=
  ["openrouter.ai"; "api.fireworks.ai"; "epoch.ai"; "datasets-server.huggingface.co"; "gorilla.cs.berkeley.edu";
   "artificialanalysis.ai"].

Definition KEY_HOSTS : list (string * string) :=
  [("OPENAI_API_KEY", "api.openai.com"); ("OPENROUTER_API_KEY", "openrouter.ai"); ("FIREWORKS_API_KEY", "api.fireworks.ai");
   ("ANTHROPIC_API_KEY", "api.anthropic.com"); ("ELEVENLABS_API_KEY", "api.elevenlabs.io")].

Definition is_set (environ : string → option string) (name : string) : bool :=
  match nonempty (environ name) with Some _ => true | None => false end.

Definition catalog_source (e : CatalogEntry) : list (option string * string) :=
  match nonempty (base_url e) with
  | Some u => [(Some u, "catalog:" +:+ id e)]
  | None => if endpoint e ≡? "anthropic" then [(Some "api.anthropic.com", "catalog:" +:+ id e)]
            else if endpoint e ≡? "openai" then [(Some "api.openai.com", "catalog:" +:+ id e)] else []
  end.

Definition key_sources (environ : string → option string) : list (option string * string) :=
  (λ kh : string * string, (Some kh.2, "key:" +:+ kh.1)) <$> List.filter (λ kh, is_set environ kh.1) KEY_HOSTS.

Definition unless_empty (s label : string) : list (option string * string) := if s ≡? "" then [] else [(Some s, label)].

Definition config_sources (s : EgressSettings) (environ : string → option string) : list (option string * string) :=
  [(Some (toto_url s), "config:toto_url")] ++
  unless_empty (smtp_host s) "config:smtp_host" ++
  unless_empty (s3_endpoint s) "config:s3_endpoint" ++
  match nonempty (environ "OTEL_EXPORTER_OTLP_ENDPOINT") with Some u => [(Some u, "config:otlp")] | None => [] end ++
  unless_empty (sentry_dsn s) "config:sentry_dsn" ++
  (if is_set environ "LANGSMITH_API_KEY" || is_set environ "LANGSMITH_TRACING"
   then [(Some (default "https://smith.langchain.com" (nonempty (environ "LANGSMITH_ENDPOINT"))), "config:langsmith")] else []) ++
  (if pipedream s then [(Some "api.pipedream.com", "config:pipedream")] else []) ++
  (if companion_tts s then [(Some "api.elevenlabs.io", "config:companion_tts")] else []).

Definition extra_hosts (s : EgressSettings) : res EgressError (list string) :=
  map_res (λ h, host_of (Some h)) (List.filter (λ h, negb (strip h ≡? "")) (split_on "," (egress_extra s))).

(** [derive_hosts]' [add] *)
Definition add (hosts : list (string * string)) (src : option string * string) : res EgressError (list (string * string)) :=
  try! h := host_of src.1 in Ok (if h ≡? "" then hosts else dsetdefault hosts h src.2).

Fixpoint add_all (hosts : list (string * string)) (l : list (option string * string)) : res EgressError (list (string * string)) :=
  match l with
  | [] => Ok hosts
  | src :: l => try! hosts := add hosts src in add_all hosts l
  end.

Definition static_sources (s : EgressSettings) (environ : string → option string) (catalog : list CatalogEntry) (issuers : list string) :
    list (option string * string) :=
  flat_map catalog_source catalog ++ key_sources environ ++ ((λ h, (Some h, "discovery")) <$> DISCOVERY_HOSTS) ++
  config_sources s environ ++ ((λ i, (Some i, "sso:issuer")) <$> issuers).

Definition extra_sources (extra : list string) : list (option string * string) := (λ h, (Some h, "env:TOTO_GW_EGRESS_EXTRA")) <$> extra.

Definition derive_hosts (s : EgressSettings) (environ : string → option string) (catalog : list CatalogEntry) (issuers : list string) :
    res EgressError (list (string * string)) :=
  try! hosts := add_all [] (static_sources s environ catalog issuers) in
  try! extra := extra_hosts s in add_all hosts (extra_sources extra).

(** ** The guard *)

Record Guard := { g_hosts : list (string * string); g_enforce : bool; g_seen : list ((string * string) * Q) }.

(** What is handed to the audit writer: the action, the host and the subsystem. *)
Definition Emission : Type := string * string * string.

Definition allowed (host : option string) (g : Guard) : res EgressError bool :=
  try! h := host_of host in Ok (dmem (g_hosts g) h).

Definition guard_add_issuer (issuer : option string) (g : Guard) : res EgressError Guard :=
  try! h := host_of issuer in
  Ok (if h ≡? "" then g else {| g_hosts := dsetdefault (g_hosts g) h "sso:issuer"; g_enforce := g_enforce g; g_seen := g_seen g |}).

Definition DEDUPE_SECONDS : Q := 3600.

Definition should_emit (host subsystem : string) (now : Q) (g : Guard) : bool * Guard :=
  if Qltb (now - default 0%Q (dget (g_seen g) (host, subsystem))) DEDUPE_SECONDS then (false, g)
  else (true, {| g_hosts := g_hosts g; g_enforce := g_enforce g; g_seen := dset (g_seen g) (host, subsystem) now |}).

Definition action_of (g : Guard) : string := if g_enforce g then "egress.blocked" else "egress.observed".

Definition check (host : option string) (subsystem : string) (now : Q) (g : Guard) : res EgressError unit * list Emission * Guard :=
  match host_of host with
  | Err e => (Err e, [], g)
  | Ok h =>
      if (h ≡? "") || dmem (g_hosts g) h then (Ok (), [], g)
      else
        let '(emit, g') := should_emit h subsystem now g in
        (if g_enforce g then Err (EgressBlocked h subsystem) else Ok (),
         if emit then [(action_of g, h, subsystem)] else [], g')
  end.

(** ** The process *)

(** [_GUARD]: no guard before [install]. *)
Definition check_host (host : option string) (subsystem : string) (now : Q) (g : option Guard) : res EgressError unit * list Emission * option Guard :=
  match g with
  | None => (Ok (), [], None)
  | Some g => let '(r, out, g) := check host subsystem now g in (r, out, Some g)
  end.

Definition install (s : EgressSettings) (environ : string → option string) (catalog : list CatalogEntry) (issuers : list string) :
    res EgressError Guard :=
  try! hosts := derive_hosts s environ catalog issuers in Ok {| g_hosts := hosts; g_enforce := egress_enforce s; g_seen := [] |}.

(** The installation at startup: a failure is logged and leaves no guard.  [issuers] is [None] when
    the read of the issuers raises. *)
Definition startup (s : EgressSettings) (environ : string → option string) (catalog : list CatalogEntry) (issuers : option (list string)) :
    option Guard :=
  match issuers with
  | None => None
  | Some issuers => match install s environ catalog issuers with Ok g => Some g | Err _ => None end
  end.
End egress.

(** ** The derived set is exact *)

Section exact.
Context (ip_host : string → bool).

Definition names (h : string) (src : option string * string) : bool :=
  match host_of ip_host src.1 with Ok x => (x ≡? h) && negb (h ≡? "") | Err _ => false end.

(** The label of the first source that names a host. *)
Definition first_label (h : string) (l : list (option string * string)) : option string := snd <$> List.find (names h) l.

Lemma first_label_app h l1 l2 : first_label h (l1 ++ l2) = first_label h l1 orelse first_label h l2.
Proof. unfold first_label. induction l1 as [|x l1 IH]; [done|]. cbn. by destruct (names h x). Qed.

Lemma first_label_some h l : first_label h l ≠ None ↔ h ≠ "" ∧ ∃ src, src ∈ l ∧ host_of ip_host src.1 = Ok h.
Proof.
  unfold first_label. destruct (List.find (names h) l) as [src|] eqn:E; cbn.
  - apply List.find_some in E as [Hin Hn]. split; [intros _|done]. unfold names in Hn.
    destruct (host_of ip_host src.1) as [x|] eqn:Eh; [|done]. bool_to_prop. subst x.
    split; [done|]. exists src. by rewrite list_elem_of_In.
  - split; [done|]. intros (Hne & src & Hin & Hs). exfalso. apply list_elem_of_In in Hin.
    eapply List.find_none in E; [|done]. unfold names in E. rewrite Hs in E. by rewrite bool_decide_eq_true_2, bool_decide_eq_false_2 in E.
Qed.

Lemma add_get hosts src hosts' h : add ip_host hosts src = Ok hosts' → dget hosts' h = dget hosts h orelse first_label h [src].
Proof.
  unfold add, first_label, names. cbn [List.find]. destruct (host_of ip_host src.1) as [x|]; cbn [res_bind]; [|done].
  intros [= <-]. destruct (decide (x = "")) as [->|Hx].
  - rewrite bool_decide_eq_true_2 by done. destruct (bool_decide_reflect ("" = h)) as [<-|]; cbn; by destruct (dget hosts _).
  - rewrite bool_decide_eq_false_2 by done. unfold dsetdefault, dmem. destruct (bool_decide_reflect (x = h)) as [->|Hne].
    + rewrite bool_decide_eq_false_2 by done. cbn. destruct (dget hosts h) eqn:E; [by rewrite E|apply dget_dset_eq].
    + cbn. assert (dget (if match dget hosts x with Some _ => true | None => false end then hosts else dset hosts x src.2) h = dget hosts h) as ->.
      { destruct (dget hosts x); [done|]. by apply dget_dset_ne. }
      by destruct (dget hosts h).
Qed.

Lemma add_all_get l hosts hosts' h : add_all ip_host hosts l = Ok hosts' → dget hosts' h = dget hosts h orelse first_label h l.
Proof.
  revert hosts. induction l as [|src l IH]; intros hosts; cbn [add_all].
  - intros [= <-]. by destruct (dget hosts h).
  - intros (hosts1 & H1%(add_get _ _ _ h) & ->%IH)%res_bind_ok. rewrite H1. change (src :: l) with ([src] ++ l). rewrite first_label_app. by destruct (dget hosts h).
Qed.

(** Every host is allowed for the first of the sources that name it, and no other host is. *)
Lemma derive_hosts_exact s environ catalog issuers hosts :
  derive_hosts ip_host s environ catalog issuers = Ok hosts →
  ∃ extra, extra_hosts ip_host s = Ok extra ∧
    ∀ h, dget hosts h = first_label h (static_sources s environ catalog issuers ++ extra_sources extra).
Proof.
  intros (hosts1 & H1 & (extra & He & H2)%res_bind_ok)%res_bind_ok. exists extra. split; [done|]. intros h.
  by rewrite (add_all_get _ _ _ h H2), (add_all_get _ _ _ h H1), first_label_app.
Qed.

(** ** Sequences of calls *)

Inductive Op : Type := OIssuer (issuer : option string) | OCheck (host : option string) (subsystem : string) (now : Q).

(** A row with the time it was written. *)
Definition Row : Type := Q * Emission.

Definition apply_op (op : Op) (g : Guard) : list Row * Guard :=
  match op with
  | OIssuer i => ([], match guard_add_issuer ip_host i g with Ok g => g | Err _ => g end)
  | OCheck host subsystem now => let '(_, out, g) := check ip_host host subsystem now g in (pair now <$> out, g)
  end.

Fixpoint replay (ops : list Op) (g : Guard) : list Row * Guard :=
  match ops with
  | [] => ([], g)
  | op :: ops => let '(rows, g) := apply_op op g in let '(rows', g) := replay ops g in (rows ++ rows', g)
  end.

Definition issuer_sources (ops : list Op) : list (option string * string) :=
  flat_map (λ op, match op with OIssuer i => [(i, "sso:issuer")] | OCheck _ _ _ => [] end) ops.

Lemma check_hosts host subsystem now g : g_hosts (check ip_host host subsystem now g).2 = g_hosts g ∧ g_enforce (check ip_host host subsystem now g).2 = g_enforce g.
Proof. unfold check, should_emit. destruct (host_of _ _); [|done]. destruct (_ || _); [done|]. by destruct (Qltb _ _). Qed.

(** Issuers that do not parse add nothing, so that they may be left out. *)
Lemma issuer_get i g h : dget (g_hosts (apply_op (OIssuer i) g).2) h = dget (g_hosts g) h orelse first_label h [(i, "sso:issuer")].
Proof.
  unfold apply_op, guard_add_issuer. cbn [snd]. pose proof (add_get (g_hosts g) (i, "sso:issuer")) as Ha. unfold add in Ha. cbn [fst snd] in Ha.
  destruct (host_of ip_host i) as [x|] eqn:Ei; cbn [res_bind] in *.
  - rewrite <- (Ha _ h eq_refl). by destruct (x ≡? "").
  - unfold first_label, names. cbn. rewrite Ei. cbn. by destruct (dget _ h).
Qed.

Lemma replay_get ops g h :
  dget (g_hosts (replay ops g).2) h = (dget (g_hosts g) h orelse first_label h (issuer_sources ops)) ∧
  g_enforce (replay ops g).2 = g_enforce g.
Proof.
  revert g. induction ops as [|op ops IH]; intros g; [cbn; by destruct (dget _ h)|]. cbn [replay].
  destruct (apply_op op g) as [rows g1] eqn:E1. destruct (replay ops g1) as [rows' g2] eqn:E2. cbn [snd].
  destruct (IH g1) as [Hg He]. rewrite E2 in Hg, He. cbn [snd] in Hg, He. rewrite Hg, He.
  destruct op as [i|host sub now].
  - pose proof (issuer_get i g h) as Hi. rewrite E1 in Hi. cbn [snd] in Hi. split.
    + rewrite Hi. change (issuer_sources (OIssuer i :: ops)) with ([(i, "sso:issuer")] ++ issuer_sources ops).
      rewrite first_label_app. by destruct (dget (g_hosts g) h).
    + unfold apply_op, guard_add_issuer in E1. destruct (host_of ip_host i); cbn in E1; injection E1 as _ <-; [|done]. by destruct (_ ≡? _).
  - pose proof (check_hosts host sub now g) as [H1 H2]. unfold apply_op in E1. destruct (check ip_host host sub now g) as [[r out] g'].
    injection E1 as _ <-. cbn [snd] in H1, H2. by rewrite H1, H2.
Qed.
End exact.

(** ** What passes *)

Section enforcement.
Context (ip_host : string → bool) (s : EgressSettings) (environ : string → option string) (catalog : list CatalogEntry).

(** The hosts the configuration, and the issuers added since, name. *)
Definition configured (issuers : list string) (ops : list Op) (h : string) : Prop :=
  ∃ src extra, extra_hosts ip_host s = Ok extra ∧ host_of ip_host src.1 = Ok h ∧
    src ∈ static_sources s environ catalog issuers ++ extra_sources extra ++ issuer_sources ops.

(** Whatever was checked and whichever issuers were added since the guard was installed, a
    connection passes silently exactly when the configuration or one of those issuers names its
    host; every other one is refused when the allowlist is enforced and let through otherwise, and
    the guard never forgets a host. *)
Theorem egress_exact issuers g ops host subsystem now h :
  install ip_host s environ catalog issuers = Ok g → host_of ip_host host = Ok h → h ≠ "" →
  let g' := (replay ip_host ops g).2 in
  let verdict := check ip_host host subsystem now g' in
  (configured issuers ops h → verdict = (Ok (), [], g')) ∧
  (¬ configured issuers ops h → verdict.1.1 = if egress_enforce s then Err (EgressBlocked h subsystem) else Ok ()).
Proof.
  intros (hosts & Hd & Hg)%res_bind_ok Hh Hne g' verdict. destruct (derive_hosts_exact _ _ _ _ _ _ Hd) as (extra & He & Hex).
  pose proof (replay_get ip_host ops g h) as [Hget Henf]. fold g' in Hget, Henf.
  assert (configured issuers ops h ↔ dget (g_hosts g') h ≠ None) as Hc.
  { injection Hg as <-. cbn [g_hosts] in Hget. rewrite Hget, Hex, <- first_label_app, first_label_some. unfold configured. split.
    - intros (src & extra' & He' & Hs & Hin). rewrite He in He'. injection He' as <-. rewrite app_assoc in Hin. eauto.
    - intros (_ & src & Hin & Hs). rewrite <- app_assoc in Hin. eauto 6. }
  assert (g_enforce g' = egress_enforce s) as He2 by (rewrite Henf; by injection Hg as <-).
  subst verdict. unfold check. rewrite Hh, (bool_decide_eq_false_2 (h = "")) by done. cbn [orb]. unfold dmem. rewrite Hc.
  destruct (dget (g_hosts g') h); [split; [done|intros []; done]|]. split; [done|intros _].
  destruct (should_emit h subsystem now g') as [em g2]. cbn. by rewrite He2.
Qed.
End enforcement.

(** ** Audit rows *)

Section rows.
Context (ip_host : string → bool).

Definition row_key (r : Row) : string * string := (r.2.1.2, r.2.2).

(** Two rows of one host and subsystem are an hour apart. *)
Definition spaced (r r' : Row) : Prop := row_key r = row_key r' → (r.1 + DEDUPE_SECONDS <= r'.1)%Q.

Lemma check_rows host subsystem now g rows g' :
  apply_op ip_host (OCheck host subsystem now) g = (rows, g') →
  (rows = [] ∧ g_seen g' = g_seen g) ∨
  (∃ h, host_of ip_host host = Ok h ∧ rows = [(now, (action_of g, h, subsystem))] ∧ g_seen g' = dset (g_seen g) (h, subsystem) now ∧
    (default 0%Q (dget (g_seen g) (h, subsystem)) + DEDUPE_SECONDS <= now)%Q).
Proof.
  unfold apply_op, check. destruct (host_of ip_host host) as [h|]; [|intros [= <- <-]; by left].
  destruct (_ || _); [intros [= <- <-]; by left|]. unfold should_emit.
  destruct (Qltb _ _) eqn:E; [intros [= <- <-]; by left|]. intros [= <- <-]. right. exists h. split_and!; [done..|].
  apply Qltb_false in E. lra.
Qed.

Lemma issuer_rows i g : (apply_op ip_host (OIssuer i) g).1 = [] ∧ g_seen (apply_op ip_host (OIssuer i) g).2 = g_seen g.
Proof.
  unfold apply_op, guard_add_issuer. split; [done|]. cbn [snd]. destruct (host_of ip_host i); [cbn|done]. by destruct (_ ≡? _).
Qed.

Lemma replay_spaced ops g :
  StronglySorted spaced (replay ip_host ops g).1 ∧
  ∀ r t, r ∈ (replay ip_host ops g).1 → dget (g_seen g) (row_key r) = Some t → (t + DEDUPE_SECONDS <= r.1)%Q.
Proof.
  revert g. induction ops as [|op ops IH]; intros g; [split; [constructor|]; intros r t []%elem_of_nil|]. cbn [replay].
  destruct (apply_op ip_host op g) as [rows g1] eqn:E1. destruct (IH g1) as [Hs Hk]. destruct (replay ip_host ops g1) as [rows' g2]. cbn [fst] in *.
  assert ((rows = [] ∧ g_seen g1 = g_seen g) ∨ ∃ r0, rows = [r0] ∧ g_seen g1 = dset (g_seen g) (row_key r0) r0.1 ∧
      (default 0%Q (dget (g_seen g) (row_key r0)) + DEDUPE_SECONDS <= r0.1)%Q) as [[-> Hg]|(r0 & -> & Hg & Hle)].
  { destruct op as [i|host sub now].
    - left. pose proof (issuer_rows i g) as Hi. by rewrite E1 in Hi.
    - destruct (check_rows _ _ _ _ _ _ E1) as [?|(h & _ & -> & Hg & Hle)]; [by left|]. right. eexists. by split_and!. }
  - cbn [app]. split; [done|]. intros r t Hr. rewrite <- Hg. by apply Hk.
  - cbn [app]. rewrite Hg in Hk. split.
    + constructor; [done|]. rewrite List.Forall_forall. intros r Hr%list_elem_of_In Heq. apply (Hk r r0.1 Hr). rewrite Heq. apply dget_dset_eq.
    + intros r t [->|Hr]%elem_of_cons Ht; [by rewrite Ht in Hle|]. destruct (decide (row_key r = row_key r0)) as [Heq|Hne].
      * rewrite Heq in Ht. rewrite Ht in Hle. cbn in Hle. assert (r0.1 + DEDUPE_SECONDS <= r.1)%Q as H2.
        { apply (Hk r r0.1 Hr). rewrite Heq. apply dget_dset_eq. }
        unfold DEDUPE_SECONDS in *. lra.
      * apply (Hk r t Hr). by rewrite dget_dset_ne.
Qed.

(** What the guard remembers is a row that was written. *)
Lemma replay_seen ops g k t :
  dget (g_seen (replay ip_host ops g).2) k = Some t →
  dget (g_seen g) k = Some t ∨ ∃ r, r ∈ (replay ip_host ops g).1 ∧ row_key r = k ∧ r.1 = t.
Proof.
  revert g. induction ops as [|op ops IH]; intros g; [by left|]. cbn [replay].
  destruct (apply_op ip_host op g) as [rows g1] eqn:E1. specialize (IH g1). destruct (replay ip_host ops g1) as [rows' g2]. cbn [fst snd] in *.
  intros [H|(r & Hr & Hk & Ht)]%IH; [|right; exists r; rewrite elem_of_app; eauto].
  destruct op as [i|host sub now].
  - pose proof (issuer_rows i g) as [_ Hi]. rewrite E1 in Hi. cbn [snd] in Hi. left. by rewrite <- Hi.
  - destruct (check_rows _ _ _ _ _ _ E1) as [(-> & Hg)|(h & _ & -> & Hg & _)]; rewrite Hg in H; [by left|].
    destruct (decide (k = (h, sub))) as [->|Hne]; [|left; by rewrite dget_dset_ne in H].
    rewrite dget_dset_eq in H. injection H as <-. right. eexists. split; [by left|]. done.
Qed.

(** The audit trail has at most one row for a host and subsystem in any hour, and misses no hour:
    a connection that is not on the list writes a row or follows one by less than an hour, whatever
    else was checked and added before it. *)
Theorem one_row_per_hour ops ops' host subsystem now g h :
  g_seen g = [] → (DEDUPE_SECONDS <= now)%Q → host_of ip_host host = Ok h → h ≠ "" →
  dget (g_hosts (replay ip_host ops g).2) h = None →
  let rows := (replay ip_host (ops ++ OCheck host subsystem now :: ops') g).1 in
  StronglySorted spaced rows ∧
  ∃ r, r ∈ rows ∧ row_key r = (h, subsystem) ∧ (now < r.1 + DEDUPE_SECONDS)%Q.
Proof.
  intros H0 Hnow Hh Hne Hout rows. split; [apply replay_spaced|].
  assert (∀ ops1 ops2 g, (replay ip_host (ops1 ++ ops2) g).1 = (replay ip_host ops1 g).1 ++ (replay ip_host ops2 (replay ip_host ops1 g).2).1) as Happ.
  { clear. induction ops1 as [|op ops1 IH]; intros ops2 g; [done|]. cbn [app replay]. destruct (apply_op ip_host op g) as [r1 g1].
    specialize (IH ops2 g1). destruct (replay ip_host (ops1 ++ ops2) g1), (replay ip_host ops1 g1) as [r2 g2]. cbn in *. by rewrite IH, app_assoc. }
  subst rows. rewrite Happ. set (g1 := (replay ip_host ops g).2) in *. cbn [replay].
  destruct (apply_op ip_host (OCheck host subsystem now) g1) as [rows g2] eqn:E. destruct (replay ip_host ops' g2) as [rows' g3]. cbn [fst].
  unfold apply_op, check in E. rewrite Hh, (bool_decide_eq_false_2 (h = "")) in E by done. unfold dmem in E. rewrite Hout in E. cbn [orb] in E.
  unfold should_emit in E. destruct (Qltb _ _) eqn:El; injection E as <- <-.
  - apply Qltb_true in El. destruct (dget (g_seen g1) (h, subsystem)) as [t|] eqn:Es; cbn in El; unfold DEDUPE_SECONDS in *; [|lra].
    apply replay_seen in Es as [Es|(r & Hr & Hk & <-)]; [by rewrite H0 in Es|]. exists r. rewrite elem_of_app. split_and!; [by left|done|lra].
  - exists (now, (action_of g1, h, subsystem)). rewrite !elem_of_app. split_and!; [right; left; by left|done|]. cbn. unfold DEDUPE_SECONDS. lra.
Qed.
End rows.

(** ** Instances *)

Section instances.
Let any : string → bool := λ _, true.
Let nothing_set : string → option string := λ _, None.

Definition demo_settings_smtp (smtp extra : string) : EgressSettings :=
  {| toto_url := "https://toto.tech"; smtp_host := smtp; s3_endpoint := ""; sentry_dsn := ""; pipedream := false;
     companion_tts := false; egress_extra := extra; egress_enforce := true |}.

Definition demo_settings : string → EgressSettings := demo_settings_smtp "smtp.acme.com".

Lemma egress_exact_witness :
  ∃ g, install any (demo_settings "https://Proxy.example:8443, x.example") nothing_set [] [] = Ok g ∧
    let g' := (replay any [OCheck (Some "evil.example") "httpx" 5000; OIssuer (Some "https://idp.acme.com/oidc")] g).2 in
    check any (Some "proxy.example") "httpx" 5001 g' = (Ok (), [], g') ∧
    check any (Some "idp.acme.com") "httpx" 5001 g' = (Ok (), [], g').
Proof.
  destruct (install any (demo_settings "https://Proxy.example:8443, x.example") nothing_set [] []) as [g|] eqn:E; [|vm_compute in E; discriminate].
  exists g. split; [done|]. split.
  - refine (proj1 (egress_exact any _ nothing_set [] [] g _ (Some "proxy.example") "httpx" 5001 "proxy.example" E _ _) _);
      [vm_compute; reflexivity|discriminate|].
    exists (Some "proxy.example", "env:TOTO_GW_EGRESS_EXTRA"), ["proxy.example"; "x.example"]. split_and!; [vm_compute; reflexivity..|].
    apply elem_of_app. right. left.
  - refine (proj1 (egress_exact any _ nothing_set [] [] g _ (Some "idp.acme.com") "httpx" 5001 "idp.acme.com" E _ _) _);
      [vm_compute; reflexivity|discriminate|].
    exists (Some "https://idp.acme.com/oidc", "sso:issuer"), ["proxy.example"; "x.example"]. split_and!; [vm_compute; reflexivity..|].
    apply elem_of_app. right. right. right. left.
Defined.

Lemma one_row_per_hour_witness :
  ∃ g, install any (demo_settings "") nothing_set [] [] = Ok g ∧
    ∃ r, r ∈ (replay any ([OCheck (Some "evil.example") "httpx" 5000] ++ OCheck (Some "evil.example") "httpx" 6000 :: []) g).1 ∧
      row_key r = ("evil.example", "httpx") ∧ (6000 < r.1 + DEDUPE_SECONDS)%Q.
Proof.
  destruct (install any (demo_settings "") nothing_set [] []) as [g|] eqn:E; [|vm_compute in E; discriminate].
  exists g. split; [done|]. vm_compute in E. injection E as <-.
  refine (proj2 (one_row_per_hour any [OCheck (Some "evil.example") "httpx" 5000] [] (Some "evil.example") "httpx" 6000 _ "evil.example" _ _ _ _ _));
    [reflexivity|apply Qle_bool_iff; reflexivity|reflexivity|discriminate|vm_compute; reflexivity].
Defined.

(** An IPv6 address that the configuration names is refused: the transport passes it without its
    brackets, and what follows its last colon is taken for a port. *)
Theorem ipv6_literal_refused :
  ∃ g, install any (demo_settings "http://[2001:db8::1]:8080/v1") nothing_set [] [] = Ok g ∧
    (check any (Some "2001:db8::1") "httpx" 5000 g).1.1 = Err (EgressBlocked "2001:db8:" "httpx").
Proof. eexists. split; vm_compute; reflexivity. Qed.

(** A mail host given as an IPv6 address lets its whole neighbourhood through. *)
Theorem ipv6_neighbour_passes :
  ∃ g, install any (demo_settings_smtp "2001:db8::1" "") nothing_set [] [] = Ok g ∧
    (check any (Some "2001:db8::bad") "httpx" 5000 g).1.1 = Ok ().
Proof. eexists. split; vm_compute; reflexivity. Qed.

(** One malformed host in the configuration, or issuers that cannot be read, and the process runs
    without a guard although the settings enforce one. *)
Theorem malformed_host_disarms issuers :
  startup any (demo_settings "[proxy") nothing_set [] issuers = None ∧
  (∀ s, startup any s nothing_set [] None = None) ∧
  ∀ host subsystem now, check_host any host subsystem now None = (Ok (), [], None).
Proof. split; [|by split]. destruct issuers as [l|]; [|done]. unfold startup, install, derive_hosts.
  destruct (add_all _ _ _); [|done]. by vm_compute.
Qed.
End instances.
