(* ===== verification/Canvas.v ===== *)
(** * The canvas ([runs/canvas.py])

    Lists with their items, positions of objects on surfaces, desks, bindles, documents and generic
    objects: tables whose rows carry their owner, read and written under the scope of the caller.
    Every change is published on the live board of its caller.  Rows of one instant are listed in
    the order of the table. *)

From S2P Require Import Prelude.
From S2P Require Import PyStr.
From S2P Require Import PyDict.
From S2P Require Import Schemas.
From S2P Require Import Policy.
From S2P Require Import Runs.

Local Open Scope py_scope.

(** ** Tables *)

Record ListRow := { li_name : string; li_created : Q; li_user : option string }.

Record Item := {
  it_task : string; it_description : string; it_metadata : json; it_enriched : string; it_status : string; it_position : Z; it_created : Q;
}.

Record Position := {
  po_x : Q; po_y : Q; po_z : Z; po_parent : string; po_w : option Q; po_h : option Q; po_updated : Q; po_user : option string;
  po_actor : option string;
}.

Record Desk := { de_user : option string; de_parent : string; de_tier : string; de_w : option Q; de_h : option Q; de_material : string; de_updated : Q }.

Record Bindle := { bi_edition : string; bi_subtitle : string; bi_pages : Z; bi_html : string; bi_created : Q; bi_user : option string }.

Record Document := { dc_user : option string; dc_run : string; dc_title : string; dc_key : string; dc_sha : string; dc_bytes : Z; dc_created : Q }.

Record Object := { ob_payload : json; ob_created : Q; ob_updated : Q; ob_user : option string; ob_actor : option string }.

(** Items, positions and objects are keyed by pairs; desks have no key that binds the operator. *)
Record Canvas := {
  cv_runs : Runs;
  cv_lists : list (string * ListRow);
  cv_items : list (string * string * Item);
  cv_positions : list (string * string * Position);
  cv_desks : list Desk;
  cv_bindles : list (string * Bindle);
  cv_documents : list (string * Document);
  cv_objects : list (string * string * Object);
}.

Definition with_runs (t : Runs) (c : Canvas) : Canvas :=
  {| cv_runs := t; cv_lists := cv_lists c; cv_items := cv_items c; cv_positions := cv_positions c; cv_desks := cv_desks c;
     cv_bindles := cv_bindles c; cv_documents := cv_documents c; cv_objects := cv_objects c |}.
Definition with_lists (t : list (string * ListRow)) (c : Canvas) : Canvas :=
  {| cv_runs := cv_runs c; cv_lists := t; cv_items := cv_items c; cv_positions := cv_positions c; cv_desks := cv_desks c;
     cv_bindles := cv_bindles c; cv_documents := cv_documents c; cv_objects := cv_objects c |}.
Definition with_items (t : list (string * string * Item)) (c : Canvas) : Canvas :=
  {| cv_runs := cv_runs c; cv_lists := cv_lists c; cv_items := t; cv_positions := cv_positions c; cv_desks := cv_desks c;
     cv_bindles := cv_bindles c; cv_documents := cv_documents c; cv_objects := cv_objects c |}.
Definition with_positions (t : list (string * string * Position)) (c : Canvas) : Canvas :=
  {| cv_runs := cv_runs c; cv_lists := cv_lists c; cv_items := cv_items c; cv_positions := t; cv_desks := cv_desks c;
     cv_bindles := cv_bindles c; cv_documents := cv_documents c; cv_objects := cv_objects c |}.
Definition with_desks (t : list Desk) (c : Canvas) : Canvas :=
  {| cv_runs := cv_runs c; cv_lists := cv_lists c; cv_items := cv_items c; cv_positions := cv_positions c; cv_desks := t;
     cv_bindles := cv_bindles c; cv_documents := cv_documents c; cv_objects := cv_objects c |}.
Definition with_bindles (t : list (string * Bindle)) (c : Canvas) : Canvas :=
  {| cv_runs := cv_runs c; cv_lists := cv_lists c; cv_items := cv_items c; cv_positions := cv_positions c; cv_desks := cv_desks c;
     cv_bindles := t; cv_documents := cv_documents c; cv_objects := cv_objects c |}.
Definition with_documents (t : list (string * Document)) (c : Canvas) : Canvas :=
  {| cv_runs := cv_runs c; cv_lists := cv_lists c; cv_items := cv_items c; cv_positions := cv_positions c; cv_desks := cv_desks c;
     cv_bindles := cv_bindles c; cv_documents := t; cv_objects := cv_objects c |}.
Definition with_objects (t : list (string * string * Object)) (c : Canvas) : Canvas :=
  {| cv_runs := cv_runs c; cv_lists := cv_lists c; cv_items := cv_items c; cv_positions := cv_positions c; cv_desks := cv_desks c;
     cv_bindles := cv_bindles c; cv_documents := cv_documents c; cv_objects := t |}.

(** An insert that may meet its own key: [ON CONFLICT DO UPDATE ... WHERE] the row is the caller's. *)
Definition guarded_upsert {K V} `{EqDecision K} (owner : V → option string) (user : option string) (k : K) (new : V) (merge : V → V)
    (t : list (K * V)) : list (K * V) :=
  match dget t k with
  | None => dset t k new
  | Some old => if owner old ≡? user then dset t k (merge old) else t
  end.

(** [ORDER BY created_at DESC] *)
Definition newest {V} (created : V → Q) (l : list V) : list V := sort_by (λ x y, Qleb (created y) (created x)) l.

Section canvas.
(** The replica and the lease of the run store, and the text of a number. *)
Context (holder : string) (ttl : Q) (printed : Q → string).

(** [now] is the time of the row, [ts] that of the event. *)
Definition announce (user : option string) (kind : string) (payload : list (string * json)) (ts : Q) (c : Canvas) : Canvas :=
  with_runs (publish_board holder ttl user kind payload ts (cv_runs c)).2 c.

(** ** Lists *)

(** [None]: the key is taken. *)
Definition create_list (l name : string) (user : option string) (now ts : Q) (c : Canvas) : option Canvas :=
  if dmem (cv_lists c) l then None
  else Some (announce user "list_created" [("list_id", JStr l); ("name", JStr name)] ts
               (with_lists (dset (cv_lists c) l {| li_name := name; li_created := now; li_user := user |}) c)).

Definition items_of (l : string) (c : Canvas) : list (string * Item) :=
  (λ kv : string * string * Item, (kv.1.2, kv.2)) <$> List.filter (λ kv : string * string * Item, kv.1.1 ≡? l) (cv_items c).

(** [COALESCE(MAX(position), 0) + 1] *)
Definition next_position (l : string) (c : Canvas) : Z :=
  match (λ kv : string * Item, it_position kv.2) <$> items_of l c with
  | [] => 1
  | p :: ps => foldl Z.max p ps + 1
  end.

Definition add_item (l i task : string) (user : option string) (now ts : Q) (c : Canvas) : option Canvas :=
  if dmem (cv_items c) (l, i) then None
  else Some (announce user "item_added" [("list_id", JStr l); ("item_id", JStr i); ("task", JStr task)] ts
               (with_items (dset (cv_items c) (l, i)
                  {| it_task := task; it_description := ""; it_metadata := JObj []; it_enriched := ""; it_status := "";
                     it_position := next_position l c; it_created := now |}) c)).

Definition change_item (l i : string) (f : Item → Item) (c : Canvas) : Canvas :=
  match dget (cv_items c) (l, i) with Some x => with_items (dset (cv_items c) (l, i) (f x)) c | None => c end.

Definition enrich_item (l i description : string) (metadata : json) (model : string) (c : Canvas) : Canvas :=
  change_item l i (λ x, {| it_task := it_task x; it_description := description; it_metadata := metadata; it_enriched := model;
                           it_status := it_status x; it_position := it_position x; it_created := it_created x |}) c.

Definition set_item_status (l i status : string) (user : option string) (ts : Q) (c : Canvas) : Canvas :=
  announce user "item_status" [("list_id", JStr l); ("item_id", JStr i); ("status", JStr status)] ts
    (change_item l i (λ x, {| it_task := it_task x; it_description := it_description x; it_metadata := it_metadata x;
                              it_enriched := it_enriched x; it_status := status; it_position := it_position x; it_created := it_created x |}) c).

Definition delete_item (l i : string) (user : option string) (ts : Q) (c : Canvas) : Canvas :=
  announce user "item_deleted" [("list_id", JStr l); ("item_id", JStr i)] ts (with_items (dpop (cv_items c) (l, i)) c).

(** The list goes first, under the caller's scope; its items and its position follow. *)
Definition delete_list (l : string) (user : option string) (ts : Q) (c : Canvas) : bool * Canvas :=
  match dget (cv_lists c) l with
  | Some x =>
      if in_scope user (li_user x) then
        let c := with_lists (dpop (cv_lists c) l) c in
        let c := with_items (List.filter (λ kv : string * string * Item, negb (kv.1.1 ≡? l)) (cv_items c)) c in
        let c := with_positions (dpop (cv_positions c) ("list", l)) c in
        (true, announce user "list_deleted" [("list_id", JStr l)] ts c)
      else (false, c)
  | None => (false, c)
  end.

(** The caller's lists, in which alone items are edited; the operator's scope needs no list. *)
Definition list_in_scope (l : string) (user : option string) (c : Canvas) : bool :=
  match user with
  | None => true
  | Some _ => match dget (cv_lists c) l with Some x => in_scope user (li_user x) | None => false end
  end.

Definition update_item (l i : string) (task description : option string) (metadata : option json) (user : option string) (ts : Q) (c : Canvas) :
    bool * Canvas :=
  match task, description, metadata with
  | None, None, None => (false, c)
  | _, _, _ =>
      if dmem (cv_items c) (l, i) && list_in_scope l user c then
        (true, announce user "item_updated" [("list_id", JStr l); ("item_id", JStr i)] ts
           (change_item l i (λ x, {| it_task := default (it_task x) task; it_description := default (it_description x) description;
                                     it_metadata := default (it_metadata x) metadata; it_enriched := it_enriched x; it_status := it_status x;
                                     it_position := it_position x; it_created := it_created x |}) c))
      else (false, c)
  end.

Definition get_list (l : string) (user : option string) (c : Canvas) : option (ListRow * list (string * Item)) :=
  match dget (cv_lists c) l with
  | Some x => if in_scope user (li_user x)
              then Some (x, sort_by (λ a b : string * Item, (it_position a.2 <=? it_position b.2)%Z) (items_of l c)) else None
  | None => None
  end.

(** A row with how many items it has and how many of them were enriched. *)
Definition list_lists (user : option string) (c : Canvas) : list (string * ListRow * nat * nat) :=
  (λ kv : string * ListRow, (kv.1, kv.2, length (items_of kv.1 c),
                             length (List.filter (λ i : string * Item, negb (it_enriched i.2 ≡? "")) (items_of kv.1 c))))
  <$> newest (λ kv, li_created kv.2) (List.filter (λ kv : string * ListRow, in_scope user (li_user kv.2)) (cv_lists c)).

(** ** Positions *)

Definition get_positions (user : option string) (parent : option string) (c : Canvas) : list (string * string * Position) :=
  List.filter (λ kv : string * string * Position, in_scope user (po_user kv.2) && match parent with Some p => po_parent kv.2 ≡? p | None => true end)
    (cv_positions c).

(** A row of a batch. *)
Record Placement := {
  pl_kind : string; pl_object : string; pl_x : Q; pl_y : Q; pl_z : Z; pl_parent : option string; pl_w : option Q; pl_h : option Q;
}.

Definition place (user actor : option string) (now : Q) (t : list (string * string * Position)) (r : Placement) : list (string * string * Position) :=
  let new := {| po_x := pl_x r; po_y := pl_y r; po_z := pl_z r; po_parent := default "" (pl_parent r); po_w := pl_w r; po_h := pl_h r;
                po_updated := now; po_user := user; po_actor := actor |} in
  guarded_upsert po_user user (pl_kind r, pl_object r) new
    (λ old, {| po_x := po_x new; po_y := po_y new; po_z := po_z new; po_parent := po_parent new;
               po_w := po_w new orelse po_w old; po_h := po_h new orelse po_h old;
               po_updated := now; po_user := po_user old; po_actor := actor |}) t.

Definition json_opt (o : option Q) : json := match o with Some q => JFloat q (printed q) | None => JNull end.

Definition placement_json (actor : option string) (r : Placement) : json :=
  JObj [("kind", JStr (pl_kind r)); ("object_id", JStr (pl_object r)); ("x", JFloat (pl_x r) (printed (pl_x r)));
        ("y", JFloat (pl_y r) (printed (pl_y r))); ("z", JInt (pl_z r)); ("parent", JStr (default "" (pl_parent r)));
        ("w", json_opt (pl_w r)); ("h", json_opt (pl_h r)); ("actor", match actor with Some a => JStr a | None => JNull end)].

Definition set_positions (rows : list Placement) (user actor : option string) (now ts : Q) (c : Canvas) : Canvas :=
  announce user "positions_set" [("rows", JList (placement_json actor <$> rows))] ts
    (with_positions (foldl (place user actor now) (cv_positions c) rows) c).

Definition count_children (parent : string) (user : option string) (c : Canvas) : nat := length (get_positions user (Some parent) c).

(** [_OWN_TABLE_KINDS] *)
Definition OWN_TABLE_KINDS : list string := ["list"; "session"; "bindle"].

(** The owner of the row behind a key, in the table of its kind. *)
Definition backing (key : string * string) (c : Canvas) : option (option string) :=
  let '(kind, oid) := key in
  if kind ≡? "list" then li_user <$> dget (cv_lists c) oid
  else if kind ≡? "session" then se_user <$> dget (rs_sessions (cv_runs c)) oid
  else if kind ≡? "bindle" then bi_user <$> dget (cv_bindles c) oid
  else ob_user <$> dget (cv_objects c) key.

Definition exists_for (user : option string) (c : Canvas) (key : string * string) : bool :=
  match backing key c with Some owner => in_scope user owner | None => false end.

Definition existing_keys (pairs : list (string * string)) (user : option string) (c : Canvas) : gset (string * string) :=
  list_to_set (List.filter (exists_for user c) pairs).

(** ** Desks *)

Definition DESK_TIERS : list (string * (Q * Q)) := [("small", (1920, 1200)); ("medium", (2560, 1600)); ("large", (4096, 2560))]%Q.
Definition DEFAULT_DESK_TIER : string := "medium".
Definition DEFAULT_DESK_MATERIAL : string := "guilloche".

(** A dimension that is missing, or zero. *)
Definition dim (o : option Q) : option Q := match o with Some q => if Qeq_bool q 0 then None else Some q | None => None end.

Definition desk_dims (tier : string) (w h : option Q) : Q * Q :=
  match (if tier ≡? "custom" then match dim w, dim h with Some w, Some h => Some (w, h) | _, _ => None end else None) with
  | Some d => d
  | None => default (2560, 1600)%Q (dget DESK_TIERS tier)
  end.

(** The tier, the dimensions and the material of a surface. *)
Definition get_desk (user : option string) (parent : string) (c : Canvas) : string * (Q * Q) * string :=
  match head (List.filter (λ d, (de_parent d ≡? parent) && in_scope user (de_user d)) (cv_desks c)) with
  | Some d => (de_tier d, desk_dims (de_tier d) (de_w d) (de_h d), de_material d)
  | None => (DEFAULT_DESK_TIER, desk_dims DEFAULT_DESK_TIER None None, DEFAULT_DESK_MATERIAL)
  end.

Definition set_desk (user : option string) (parent tier : string) (w h : option Q) (material : string) (now ts : Q) (c : Canvas) : Canvas :=
  let kept := List.filter (λ d, negb ((de_parent d ≡? parent) && (de_user d ≡? user))) (cv_desks c) in
  let d := {| de_user := user; de_parent := parent; de_tier := tier; de_w := w; de_h := h; de_material := material; de_updated := now |} in
  let '(eff_w, eff_h) := desk_dims tier w h in
  announce user "desk_set" [("parent", JStr parent); ("tier", JStr tier); ("w", JFloat eff_w (printed eff_w)); ("h", JFloat eff_h (printed eff_h));
                            ("material", JStr material)] ts
    (with_desks (kept ++ [d]) c).

(** ** Bindles and documents *)

Definition put_bindle (b edition subtitle : string) (pages : Z) (html : string) (created : option Q) (user : option string) (now : Q) (c : Canvas) : Canvas :=
  with_bindles
    (guarded_upsert bi_user user b
       {| bi_edition := edition; bi_subtitle := subtitle; bi_pages := pages; bi_html := html; bi_created := default now created; bi_user := user |}
       (λ old, {| bi_edition := edition; bi_subtitle := subtitle; bi_pages := pages; bi_html := html;
                  bi_created := default (bi_created old) created; bi_user := bi_user old |}) (cv_bindles c)) c.

Definition get_bindles (user : option string) (c : Canvas) : list (string * Bindle) :=
  newest (λ kv, bi_created kv.2) (List.filter (λ kv : string * Bindle, in_scope user (bi_user kv.2)) (cv_bindles c)).

Definition get_bindle_html (b : string) (user : option string) (c : Canvas) : option string :=
  match dget (cv_bindles c) b with Some x => if in_scope user (bi_user x) then Some (bi_html x) else None | None => None end.

Definition document_create (d : string) (user : option string) (run title key sha : string) (bytes : Z) (now : Q) (c : Canvas) : option Canvas :=
  if dmem (cv_documents c) d then None
  else Some (with_documents (dset (cv_documents c) d {| dc_user := user; dc_run := run; dc_title := title; dc_key := key; dc_sha := sha;
                                                        dc_bytes := bytes; dc_created := now |}) c).

Definition documents_for (user : option string) (limit : nat) (before : option Q) (c : Canvas) : list (string * Document) :=
  take limit (newest (λ kv, dc_created kv.2)
    (List.filter (λ kv : string * Document, in_scope user (dc_user kv.2) && match before with Some t => Qltb (dc_created kv.2) t | None => true end)
       (cv_documents c))).

Definition document (user : option string) (d : string) (c : Canvas) : option Document :=
  match dget (cv_documents c) d with Some x => if in_scope user (dc_user x) then Some x else None | None => None end.

(** ** Objects *)

Definition put_object (kind o : string) (payload : json) (user actor : option string) (now ts : Q) (c : Canvas) : Canvas :=
  announce user "object_put" [("kind", JStr kind); ("object_id", JStr o); ("actor", match actor with Some a => JStr a | None => JNull end)] ts
    (with_objects
       (guarded_upsert ob_user user (kind, o)
          {| ob_payload := payload; ob_created := now; ob_updated := now; ob_user := user; ob_actor := actor |}
          (λ old, {| ob_payload := payload; ob_created := ob_created old; ob_updated := now; ob_user := ob_user old; ob_actor := actor |})
          (cv_objects c)) c).

Definition get_objects (kind : option string) (user : option string) (c : Canvas) : list (string * string * Object) :=
  newest (λ kv, ob_created kv.2)
    (List.filter (λ kv : string * string * Object, in_scope user (ob_user kv.2) && match kind with Some k => kv.1.1 ≡? k | None => true end) (cv_objects c)).

Definition all_objects_of_kind (kind : string) (c : Canvas) : list (string * string * Object) := get_objects (Some kind) None c.

(** The object's position goes with it, under the same scope. *)
Definition delete_object (kind o : string) (user : option string) (ts : Q) (c : Canvas) : bool * Canvas :=
  match dget (cv_objects c) (kind, o) with
  | Some x =>
      if in_scope user (ob_user x) then
        let c := with_objects (dpop (cv_objects c) (kind, o)) c in
        let c := match dget (cv_positions c) (kind, o) with
                 | Some p => if in_scope user (po_user p) then with_positions (dpop (cv_positions c) (kind, o)) c else c
                 | None => c
                 end in
        (true, announce user "object_deleted" [("kind", JStr kind); ("object_id", JStr o)] ts c)
      else (false, c)
  | None => (false, c)
  end.
End canvas.

(** [_cleanup_orphan_positions], at every start *)
Definition cleanup_orphan_positions (c : Canvas) : Canvas :=
  with_positions (List.filter (λ kv : string * string * Position, (kv.1.1 ∈? OWN_TABLE_KINDS) || dmem (cv_objects c) kv.1) (cv_positions c)) c.

(** ** Rows of others *)

Section filters.
Context {K V : Type} `{EqDecision K} (f : K * V → bool).

Lemma bfilter_bfilter_other (g : K * V → bool) (d : list (K * V)) : (∀ x, g x = false → f x = false) → List.filter f (List.filter g d) = List.filter f d.
Proof.
  intros H. induction d as [|x d IH]; cbn; [done|]. destruct (g x) eqn:E; cbn; [by rewrite IH|]. by rewrite IH, (H x E).
Qed.
End filters.

Lemma bfilter_ext {A} (f g : A → bool) l : (∀ x, x ∈ l → f x = g x) → List.filter f l = List.filter g l.
Proof.
  induction l as [|x l IH]; intros H; [done|]. cbn. rewrite (H x) by left. rewrite IH; [done|]. intros y Hy. apply H. by right.
Qed.

Section upsert.
Context {K V : Type} `{EqDecision K} (owner : V → option string) (k : K) (new : V) (merge : V → V).
Hypothesis merge_owner : ∀ old, owner (merge old) = owner old.

Lemma NoDup_guarded user t : NoDup (dkeys t) → NoDup (dkeys (guarded_upsert owner user k new merge t)).
Proof. intros Hnd. unfold guarded_upsert. destruct (dget t k); [case_match|]; auto using NoDup_dset. Qed.

(** The owner of every key that was there stays its owner. *)
Lemma guarded_owner user t k' x : dget t k' = Some x → owner <$> dget (guarded_upsert owner user k new merge t) k' = Some (owner x).
Proof.
  intros Hx. unfold guarded_upsert. destruct (decide (k' = k)) as [->|Hne].
  - rewrite Hx. case_match; [rewrite dget_dset_eq; cbn; by rewrite merge_owner|by rewrite Hx].
  - destruct (dget t k); [case_match|]; rewrite ?dget_dset_ne by done; by rewrite Hx.
Qed.

Lemma guarded_get_ne user t k' : k' ≠ k → dget (guarded_upsert owner user k new merge t) k' = dget t k'.
Proof. intros Hne. unfold guarded_upsert. destruct (dget t k); [case_match|]; by rewrite ?dget_dset_ne by done. Qed.

(** The rows of a user are not touched by the upsert of another one. *)
Lemma guarded_other user u t (g : K → bool) :
  NoDup (dkeys t) → owner new = user → user ≠ Some u →
  List.filter (λ kv : K * V, (owner kv.2 ≡? Some u) && g kv.1) (guarded_upsert owner user k new merge t)
  = List.filter (λ kv : K * V, (owner kv.2 ≡? Some u) && g kv.1) t.
Proof.
  intros Hnd Hn Hu. unfold guarded_upsert. destruct (dget t k) as [old|] eqn:E.
  - destruct (owner old ≡? user) eqn:Eo; [|done]. bool_to_prop. apply bfilter_dset_other; cbn.
    + rewrite merge_owner, Eo. by rewrite bool_decide_eq_false_2.
    + intros w Hw. rewrite E in Hw. injection Hw as <-. rewrite Eo. by rewrite bool_decide_eq_false_2.
  - apply bfilter_dset_other; [cbn|]; [rewrite Hn; by rewrite bool_decide_eq_false_2|]. intros w Hw. by rewrite E in Hw.
Qed.
End upsert.

(** ** The calls of a user *)

Section calls.
Context (holder : string) (ttl : Q) (printed : Q → string).

(** The calls that change the canvas under an owner's scope.  [checked]: positions are set of what
    [existing_keys] found only. *)
Inductive user_call (checked : bool) (v : string) (c : Canvas) : Canvas → Prop :=
  | call_create_list l name now ts c' : create_list holder ttl l name (Some v) now ts c = Some c' → user_call checked v c c'
  | call_delete_list l ts : user_call checked v c (delete_list holder ttl l (Some v) ts c).2
  | call_update_item l i task description metadata ts : user_call checked v c (update_item holder ttl l i task description metadata (Some v) ts c).2
  | call_set_positions rows actor now ts :
      (checked = true → ∀ r, r ∈ rows → (pl_kind r, pl_object r) ∈ existing_keys ((λ r, (pl_kind r, pl_object r)) <$> rows) (Some v) c) →
      user_call checked v c (set_positions holder ttl printed rows (Some v) actor now ts c)
  | call_set_desk parent tier w h material now ts : user_call checked v c (set_desk holder ttl printed (Some v) parent tier w h material now ts c)
  | call_put_bindle b edition subtitle pages html created now : user_call checked v c (put_bindle b edition subtitle pages html created (Some v) now c)
  | call_document d run title key sha bytes now c' :
      document_create d (Some v) run title key sha bytes now c = Some c' → user_call checked v c c'
  | call_put_object kind o payload actor now ts : user_call checked v c (put_object holder ttl kind o payload (Some v) actor now ts c)
  | call_delete_object kind o ts : user_call checked v c (delete_object holder ttl kind o (Some v) ts c).2.

Record canvas_ok (c : Canvas) : Prop := {
  ck_lists : NoDup (dkeys (cv_lists c));
  ck_items : NoDup (dkeys (cv_items c));
  ck_positions : NoDup (dkeys (cv_positions c));
  ck_bindles : NoDup (dkeys (cv_bindles c));
  ck_documents : NoDup (dkeys (cv_documents c));
  ck_objects : NoDup (dkeys (cv_objects c));
}.

(** What a user owns: their rows, the items of their lists, their positions of what is theirs, and
    the events of their board. *)
Record View := {
  vw_lists : list (string * ListRow); vw_items : list (string * string * Item); vw_positions : list (string * string * Position);
  vw_desks : list Desk; vw_bindles : list (string * Bindle); vw_documents : list (string * Document);
  vw_objects : list (string * string * Object); vw_board : list Event;
}.

Definition list_owner (c : Canvas) (l : string) : option string := match dget (cv_lists c) l with Some x => li_user x | None => None end.

Definition own_view (u : string) (c : Canvas) : View :=
  {| vw_lists := List.filter (λ kv : string * ListRow, (li_user kv.2 ≡? Some u) && true) (cv_lists c);
     vw_items := List.filter (λ kv : string * string * Item, list_owner c kv.1.1 ≡? Some u) (cv_items c);
     vw_positions := List.filter (λ kv : string * string * Position, (po_user kv.2 ≡? Some u) && exists_for (Some u) c kv.1) (cv_positions c);
     vw_desks := List.filter (λ d, de_user d ≡? Some u) (cv_desks c);
     vw_bindles := List.filter (λ kv : string * Bindle, (bi_user kv.2 ≡? Some u) && true) (cv_bindles c);
     vw_documents := List.filter (λ kv : string * Document, (dc_user kv.2 ≡? Some u) && true) (cv_documents c);
     vw_objects := List.filter (λ kv : string * string * Object, (ob_user kv.2 ≡? Some u) && true) (cv_objects c);
     vw_board := events_of ("board:" +:+ u) (cv_runs c) |}.

Lemma view_eq u c c' :
  vw_lists (own_view u c') = vw_lists (own_view u c) → vw_items (own_view u c') = vw_items (own_view u c) →
  vw_positions (own_view u c') = vw_positions (own_view u c) → vw_desks (own_view u c') = vw_desks (own_view u c) →
  vw_bindles (own_view u c') = vw_bindles (own_view u c) → vw_documents (own_view u c') = vw_documents (own_view u c) →
  vw_objects (own_view u c') = vw_objects (own_view u c) → vw_board (own_view u c') = vw_board (own_view u c) →
  own_view u c' = own_view u c.
Proof. unfold own_view. cbn. congruence. Qed.

(** Publishing changes no owner of a session, and only the board of the caller. *)
Lemma publish_owner run kind payload ts r s :
  se_user <$> dget (rs_sessions (publish holder ttl run kind payload ts r).2) s = se_user <$> dget (rs_sessions r) s.
Proof.
  unfold publish, update_session. cbn. destruct (dget (rs_sessions r) run) as [x|] eqn:E; [|done]. cbn.
  destruct (decide (s = run)) as [->|Hne]; [|by rewrite dget_dset_ne]. by rewrite dget_dset_eq, E.
Qed.

Lemma announce_backing user kind payload ts c key : backing key (announce holder ttl user kind payload ts c) = backing key c.
Proof. destruct key as [k o]. unfold backing, announce, publish_board. cbn [cv_runs with_runs cv_lists cv_bindles cv_objects]. by rewrite publish_owner. Qed.

Lemma announce_exists user u kind payload ts c key : exists_for u (announce holder ttl user kind payload ts c) key = exists_for u c key.
Proof. unfold exists_for. by rewrite announce_backing. Qed.

Lemma announce_view v u kind payload ts c :
  v ≠ u → v ≠ "" → own_view u (announce holder ttl (Some v) kind payload ts c) = own_view u c.
Proof.
  intros Hvu Hv. apply view_eq; try reflexivity.
  - cbn. apply bfilter_ext. intros x _. by rewrite announce_exists.
  - cbn [vw_board own_view announce with_runs cv_runs]. unfold publish_board. rewrite (proj1 (publish_events _ _ _ _ _ _ _ _)).
    replace (default "anon" (nonempty (Some v))) with v by (unfold nonempty; by destruct v).
    rewrite bool_decide_eq_false_2, app_nil_r; [done|]. by intros [= ?].
Qed.

Lemma exists_owned u c key : exists_for (Some u) c key = (backing key c ≡? Some (Some u)).
Proof.
  unfold exists_for. destruct (backing key c) as [o|]; cbn; [|by rewrite bool_decide_eq_false_2].
  apply bool_decide_ext. split; [by intros ->|by intros [= ->]].
Qed.

(** Whether a user owns the row of a key. *)
Definition owned {K V} `{EqDecision K} (owner : V → option string) (u : string) (t : list (K * V)) (k : K) : bool :=
  (owner <$> dget t k) ≡? Some (Some u).

Lemma backing_lists u t c key :
  (∀ l, owned li_user u t l = owned li_user u (cv_lists c) l) → exists_for (Some u) (with_lists t c) key = exists_for (Some u) c key.
Proof. intros Ht. rewrite !exists_owned. destruct key as [k o]. unfold backing. destruct (k ≡? "list"); [|done]. apply Ht. Qed.

Lemma backing_bindles u t c key :
  (∀ b, owned bi_user u t b = owned bi_user u (cv_bindles c) b) → exists_for (Some u) (with_bindles t c) key = exists_for (Some u) c key.
Proof.
  intros Ht. rewrite !exists_owned. destruct key as [k o]. unfold backing. destruct (k ≡? "list"); [done|]. destruct (k ≡? "session"); [done|].
  destruct (k ≡? "bindle"); [|done]. apply Ht.
Qed.

Lemma backing_objects u t c key :
  (∀ k, owned ob_user u t k = owned ob_user u (cv_objects c) k) → exists_for (Some u) (with_objects t c) key = exists_for (Some u) c key.
Proof.
  intros Ht. rewrite !exists_owned. destruct key as [k o]. unfold backing. destruct (k ≡? "list"); [done|]. destruct (k ≡? "session"); [done|].
  destruct (k ≡? "bindle"); [done|]. apply Ht.
Qed.

Lemma list_owner_owned u c l : (list_owner c l ≡? Some u) = owned li_user u (cv_lists c) l.
Proof.
  unfold list_owner, owned. destruct (dget (cv_lists c) l) as [x|]; cbn; [|by rewrite !bool_decide_eq_false_2].
  apply bool_decide_ext. split; [by intros ->|by intros [= ->]].
Qed.

Lemma view_lists u t c :
  List.filter (λ kv : string * ListRow, (li_user kv.2 ≡? Some u) && true) t
    = List.filter (λ kv : string * ListRow, (li_user kv.2 ≡? Some u) && true) (cv_lists c) →
  (∀ l, owned li_user u t l = owned li_user u (cv_lists c) l) → own_view u (with_lists t c) = own_view u c.
Proof.
  intros Hf Ht. apply view_eq; try done; cbn; apply bfilter_ext; intros x _; [by rewrite !list_owner_owned, Ht|by rewrite backing_lists].
Qed.

Lemma view_bindles u t c :
  List.filter (λ kv : string * Bindle, (bi_user kv.2 ≡? Some u) && true) t
    = List.filter (λ kv : string * Bindle, (bi_user kv.2 ≡? Some u) && true) (cv_bindles c) →
  (∀ b, owned bi_user u t b = owned bi_user u (cv_bindles c) b) → own_view u (with_bindles t c) = own_view u c.
Proof. intros Hf Ht. apply view_eq; try done; cbn. apply bfilter_ext. intros x _. by rewrite backing_bindles. Qed.

Lemma view_objects u t c :
  List.filter (λ kv : string * string * Object, (ob_user kv.2 ≡? Some u) && true) t
    = List.filter (λ kv : string * string * Object, (ob_user kv.2 ≡? Some u) && true) (cv_objects c) →
  (∀ k, owned ob_user u t k = owned ob_user u (cv_objects c) k) → own_view u (with_objects t c) = own_view u c.
Proof. intros Hf Ht. apply view_eq; try done; cbn. apply bfilter_ext. intros x _. by rewrite backing_objects. Qed.

Lemma view_positions u t c :
  List.filter (λ kv : string * string * Position, (po_user kv.2 ≡? Some u) && exists_for (Some u) c kv.1) t
    = List.filter (λ kv : string * string * Position, (po_user kv.2 ≡? Some u) && exists_for (Some u) c kv.1) (cv_positions c) →
  own_view u (with_positions t c) = own_view u c.
Proof. intros Hf. by apply view_eq. Qed.

(** What others upsert or delete leaves a user's ownership alone. *)
Lemma owned_guarded {K V} `{EqDecision K} (owner : V → option string) u v k new merge (t : list (K * V)) k' :
  v ≠ u → owner new = Some v → (∀ old, owner (merge old) = owner old) →
  owned owner u (guarded_upsert owner (Some v) k new merge t) k' = owned owner u t k'.
Proof.
  intros Hvu Hn Hm. unfold owned. destruct (decide (k' = k)) as [->|Hne]; [|by rewrite guarded_get_ne].
  destruct (dget t k) as [x|] eqn:E; [by rewrite (guarded_owner owner k new merge Hm _ _ _ _ E)|]. unfold guarded_upsert. rewrite E, dget_dset_eq. cbn.
  rewrite Hn. rewrite !bool_decide_eq_false_2; congruence.
Qed.

Lemma owned_dpop {K V} `{EqDecision K} (owner : V → option string) u v k (t : list (K * V)) x k' :
  v ≠ u → dget t k = Some x → owner x = Some v → owned owner u (dpop t k) k' = owned owner u t k'.
Proof.
  intros Hvu Hx Ho. unfold owned. destruct (decide (k' = k)) as [->|Hne]; [|by rewrite dget_dpop_ne].
  rewrite dget_dpop_eq, Hx. cbn. rewrite Ho. rewrite !bool_decide_eq_false_2; congruence.
Qed.

Lemma filter_dpop_owner {K V} `{EqDecision K} (owner : V → option string) u v k (t : list (K * V)) x (g : K → bool) :
  NoDup (dkeys t) → v ≠ u → dget t k = Some x → owner x = Some v →
  List.filter (λ kv : K * V, (owner kv.2 ≡? Some u) && g kv.1) (dpop t k) = List.filter (λ kv : K * V, (owner kv.2 ≡? Some u) && g kv.1) t.
Proof.
  intros Hnd Hvu Hx Ho. apply bfilter_dpop_other. intros w Hw. apply elem_dget in Hw; [|done]. assert (w = x) as -> by congruence. cbn.
  rewrite Ho. rewrite bool_decide_eq_false_2; [done|congruence].
Qed.

(** A fresh row is its creator's. *)
Lemma filter_fresh {K V} `{EqDecision K} (owner : V → option string) u v k new (t : list (K * V)) (g : K → bool) :
  v ≠ u → dmem t k = false → owner new = Some v →
  List.filter (λ kv : K * V, (owner kv.2 ≡? Some u) && g kv.1) (dset t k new) = List.filter (λ kv : K * V, (owner kv.2 ≡? Some u) && g kv.1) t.
Proof.
  intros Hvu Hk Ho. unfold dmem in Hk. destruct (dget t k) eqn:E; [done|]. rewrite dset_fresh by done. rewrite List.filter_app. cbn.
  rewrite Ho, bool_decide_eq_false_2 by congruence. apply app_nil_r.
Qed.

Lemma owned_fresh {K V} `{EqDecision K} (owner : V → option string) u v k new (t : list (K * V)) k' :
  v ≠ u → dmem t k = false → owner new = Some v → owned owner u (dset t k new) k' = owned owner u t k'.
Proof.
  intros Hvu Hk Ho. unfold owned. destruct (decide (k' = k)) as [->|Hne]; [|by rewrite dget_dset_ne].
  unfold dmem in Hk. destruct (dget t k); [done|]. rewrite dget_dset_eq. cbn. rewrite Ho. rewrite !bool_decide_eq_false_2; congruence.
Qed.

Lemma view_items u t c :
  List.filter (λ kv : string * string * Item, list_owner c kv.1.1 ≡? Some u) t
    = List.filter (λ kv : string * string * Item, list_owner c kv.1.1 ≡? Some u) (cv_items c) →
  own_view u (with_items t c) = own_view u c.
Proof. intros Hf. by apply view_eq. Qed.

Lemma change_item_view u v l i f c :
  NoDup (dkeys (cv_items c)) → v ≠ u → list_in_scope l (Some v) c = true → own_view u (change_item l i f c) = own_view u c.
Proof.
  intros Hnd Hvu Hl. unfold change_item. destruct (dget (cv_items c) (l, i)) as [x|]; [|done]. apply view_items.
  assert (list_owner c l ≠ Some u) as Ho.
  { unfold list_in_scope, list_owner in *. destruct (dget (cv_lists c) l) as [y|]; [|done]. cbn in Hl. bool_to_prop. congruence. }
  apply bfilter_dset_other; cbn; [|intros w _]; by apply bool_decide_eq_false_2.
Qed.

Lemma delete_list_view u v l ts c :
  canvas_ok c → v ≠ u → v ≠ "" → own_view u (delete_list holder ttl l (Some v) ts c).2 = own_view u c.
Proof.
  intros Hok Hvu Hv. unfold delete_list. destruct (dget (cv_lists c) l) as [x|] eqn:E; [|done]. cbn [in_scope].
  destruct (li_user x ≡? Some v) eqn:Ex; [|done]. bool_to_prop. cbv zeta. cbn [snd]. rewrite announce_view by done.
  rewrite view_positions; [rewrite view_items; [apply view_lists|]|].
  - apply (filter_dpop_owner li_user u v l _ x (λ _, true)); [apply Hok|done..].
  - intros l'. by apply (owned_dpop li_user u v l _ x).
  - cbn [cv_items with_lists]. apply bfilter_bfilter_other. intros [ [l' i] y] Hf. cbn [fst] in *. apply negb_false_iff in Hf. bool_to_prop. subst l'.
    unfold list_owner. cbn. by rewrite dget_dpop_eq.
  - cbn [cv_positions with_items with_lists]. apply bfilter_dpop_other. intros w _. cbn [fst snd]. rewrite exists_owned. unfold backing.
    rewrite (bool_decide_eq_true_2 ("list" = "list")) by done. cbn [cv_lists with_items with_lists]. rewrite dget_dpop_eq. cbn. by rewrite andb_false_r.
Qed.

Lemma delete_object_view u v k o ts c :
  canvas_ok c → v ≠ u → v ≠ "" → own_view u (delete_object holder ttl k o (Some v) ts c).2 = own_view u c.
Proof.
  intros Hok Hvu Hv. unfold delete_object. destruct (dget (cv_objects c) (k, o)) as [x|] eqn:E; [|done]. cbn [in_scope].
  destruct (ob_user x ≡? Some v) eqn:Ex; [|done]. bool_to_prop. cbv zeta. cbn [snd]. rewrite announce_view by done.
  assert (own_view u (with_objects (dpop (cv_objects c) (k, o)) c) = own_view u c) as Ho.
  { apply view_objects; [apply (filter_dpop_owner ob_user u v (k, o) _ x (λ _, true)); [apply Hok|done..]|].
    intros k'. by apply (owned_dpop ob_user u v (k, o) _ x). }
  cbn [cv_positions with_objects]. destruct (dget (cv_positions c) (k, o)) as [p|] eqn:Ep; [|done]. destruct (po_user p ≡? Some v) eqn:Eu; [|done].
  bool_to_prop. rewrite view_positions; [done|]. cbn [cv_positions with_objects].
  eapply (filter_dpop_owner po_user u v); [apply Hok|done..].
Qed.

Lemma place_view u v actor now rows t (g : string * string → bool) :
  NoDup (dkeys t) → v ≠ u →
  NoDup (dkeys (foldl (place (Some v) actor now) t rows)) ∧
  List.filter (λ kv : string * string * Position, (po_user kv.2 ≡? Some u) && g kv.1) (foldl (place (Some v) actor now) t rows)
  = List.filter (λ kv : string * string * Position, (po_user kv.2 ≡? Some u) && g kv.1) t.
Proof.
  revert t. induction rows as [|r rows IH]; intros t Hnd Hvu; [done|]. cbn [foldl].
  destruct (IH (place (Some v) actor now t r)) as [H1 H2]; [by apply NoDup_guarded|done|]. split; [done|]. rewrite H2.
  unfold place. apply guarded_other; [done..|]. congruence.
Qed.

Lemma user_call_view u v checked c c' : canvas_ok c → v ≠ u → v ≠ "" → user_call checked v c c' → own_view u c' = own_view u c.
Proof.
  intros Hok Hvu Hv [l name now ts c1 H|l ts|l i task description metadata ts|rows actor now ts _|parent tier w h material now ts
    |b edition subtitle pages html created now|d run title key sha bytes now c1 H|k o payload actor now ts|k o ts].
  - unfold create_list in H. destruct (dmem (cv_lists c) l) eqn:E; [done|]. injection H as <-. rewrite announce_view by done.
    apply view_lists; [by apply (filter_fresh li_user u v l _ _ (λ _, true))|]. intros l'. by apply (owned_fresh li_user u v).
  - by apply delete_list_view.
  - unfold update_item. destruct task, description, metadata; try done; destruct (dmem _ _ && _) eqn:E; try done; apply andb_true_iff in E as [_ E];
      cbn [snd]; rewrite announce_view by done; apply (change_item_view u v); done || apply Hok.
  - unfold set_positions. rewrite announce_view by done. apply view_positions, place_view; [apply Hok|done].
  - unfold set_desk. destruct (desk_dims tier w h) as [ew eh]. rewrite announce_view by done. apply view_eq; try done. cbn.
    rewrite List.filter_app. cbn. rewrite bool_decide_eq_false_2, app_nil_r by congruence.
    induction (cv_desks c) as [|d l IH]; [done|]. cbn. destruct (bool_decide_reflect (de_user d = Some u)) as [Hd|Hd].
    + rewrite (bool_decide_eq_false_2 (de_user d = Some v)) by congruence. rewrite andb_false_r. cbn. rewrite bool_decide_eq_true_2 by done. by rewrite IH.
    + destruct (negb _); cbn; [|done]. by rewrite bool_decide_eq_false_2.
  - unfold put_bindle. apply view_bindles.
    + refine (guarded_other bi_user b _ _ _ (Some v) u _ (λ _, true) _ _ _); [done|apply Hok|done|congruence].
    + intros k. by apply owned_guarded.
  - unfold document_create in H. destruct (dmem (cv_documents c) d) eqn:E; [done|]. injection H as <-. apply view_eq; try done.
    by apply (filter_fresh dc_user u v d _ _ (λ _, true)).
  - unfold put_object. rewrite announce_view by done. apply view_objects.
    + refine (guarded_other ob_user (k, o) _ _ _ (Some v) u _ (λ _, true) _ _ _); [done|apply Hok|done|congruence].
    + intros k'. by apply owned_guarded.
  - by apply delete_object_view.
Qed.

Lemma announce_ok user kind payload ts c : canvas_ok c → canvas_ok (announce holder ttl user kind payload ts c).
Proof. by intros []. Qed.

Lemma user_call_ok v checked c c' : canvas_ok c → user_call checked v c c' → canvas_ok c'.
Proof.
  intros [H1 H2 H3 H4 H5 H6] [l name now ts c1 H|l ts|l i task description metadata ts|rows actor now ts _|parent tier w h material now ts
    |b edition subtitle pages html created now|d run title key sha bytes now c1 H|k o payload actor now ts|k o ts].
  - unfold create_list in H. destruct (dmem _ _); [done|]. injection H as <-. split; try done; by apply NoDup_dset.
  - unfold delete_list. destruct (dget _ _); [|done]. destruct (in_scope _ _); [|done]. split; try done; (by apply NoDup_dpop) || by apply dkeys_bfilter.
  - assert (∀ f, canvas_ok (change_item l i f c)) as Hc.
    { intros f. unfold change_item. destruct (dget _ _); [|done]. split; try done; by apply NoDup_dset. }
    unfold update_item. destruct task, description, metadata; try done; destruct (_ && _); try done; apply announce_ok, Hc.
  - split; try done. cbn. clear - H3. revert H3. generalize (cv_positions c). induction rows as [|r rows IH]; intros t Ht; [done|]. by apply IH, NoDup_guarded.
  - unfold set_desk. by destruct (desk_dims tier w h).
  - split; try done. by apply NoDup_guarded.
  - unfold document_create in H. destruct (dmem _ _); [done|]. injection H as <-. split; try done; by apply NoDup_dset.
  - split; try done. by apply NoDup_guarded.
  - unfold delete_object. destruct (dget (cv_objects c) _); [|done]. destruct (in_scope _ _); [|done]. apply announce_ok.
    cbn [cv_positions with_objects]. destruct (dget (cv_positions c) _); [destruct (in_scope _ _)|]; split; try done; by apply NoDup_dpop.
Qed.

(** Whatever the other users of the store do, and however often, what a user owns stays exactly as
    it was: lists and their items, positions, desks, bindles, documents and objects; and their board
    hears of none of it. *)
Theorem canvas_isolated u c c' :
  canvas_ok c → rtc (λ c c', ∃ v, v ≠ u ∧ v ≠ "" ∧ user_call false v c c') c c' → own_view u c' = own_view u c.
Proof.
  intros Hok Hs. induction Hs as [|c c1 c2 (v & Hvu & Hv & H1) _ IH]; [done|].
  rewrite IH by by eapply user_call_ok. by eapply user_call_view.
Qed.

(** ** Positions of what is there *)

(** Every position is a user's, of a thing that is theirs. *)
Definition backed (c : Canvas) : Prop :=
  ∀ key p, (key, p) ∈ cv_positions c → ∃ w, po_user p = Some w ∧ exists_for (Some w) c key = true.

Lemma backed_more c c' :
  cv_positions c' ⊆ cv_positions c → (∀ w key, exists_for (Some w) c key = true → key ∈ dkeys (cv_positions c') → exists_for (Some w) c' key = true) →
  backed c → backed c'.
Proof.
  intros Hp He Hb key p Hin. destruct (Hb key p) as (w & Hw & Hk); [by apply Hp|]. exists w. split; [done|]. apply He; [done|].
  by apply (list_elem_of_fmap_2 fst) in Hin.
Qed.

Lemma backed_announce user kind payload ts c : backed c → backed (announce holder ttl user kind payload ts c).
Proof. apply backed_more; [done|]. intros w key Hk _. by rewrite announce_exists. Qed.

Lemma exists_list w l c : exists_for (Some w) c ("list", l) = owned li_user w (cv_lists c) l.
Proof. by rewrite exists_owned. Qed.

(** A row that is added, or changed without its owner, leaves what is there. *)
Lemma owned_upsert {K V} `{EqDecision K} (owner : V → option string) w user k new merge (t : list (K * V)) k' :
  (∀ old, owner (merge old) = owner old) →
  owned owner w t k' = true → owned owner w (guarded_upsert owner user k new merge t) k' = true.
Proof.
  intros Hm Ho. unfold owned in *. bool_to_prop. destruct (dget t k') as [x|] eqn:E; [|done]. cbn in Ho. apply bool_decide_eq_true_2.
  rewrite (guarded_owner owner k new merge Hm user t k' x E). congruence.
Qed.

Lemma owned_new {K V} `{EqDecision K} (owner : V → option string) w k new (t : list (K * V)) k' :
  dmem t k = false → owned owner w t k' = true → owned owner w (dset t k new) k' = true.
Proof.
  intros Hk Ho. unfold owned in *. bool_to_prop. destruct (decide (k' = k)) as [->|Hne]; [|by rewrite dget_dset_ne, bool_decide_eq_true_2].
  unfold dmem in Hk. by destruct (dget t k).
Qed.

Lemma exists_tables w c c' key :
  rs_sessions (cv_runs c') = rs_sessions (cv_runs c) →
  (∀ l, key = ("list", l) → owned li_user w (cv_lists c) l = true → owned li_user w (cv_lists c') l = true) →
  (∀ b, owned bi_user w (cv_bindles c) b = true → owned bi_user w (cv_bindles c') b = true) →
  (key.1 ∉ OWN_TABLE_KINDS → owned ob_user w (cv_objects c) key = true → owned ob_user w (cv_objects c') key = true) →
  exists_for (Some w) c key = true → exists_for (Some w) c' key = true.
Proof.
  intros Hr Hl Hb Ho. rewrite !exists_owned. destruct key as [k o]. unfold backing. destruct (bool_decide_reflect (k = "list")) as [->|]; [by apply Hl|].
  destruct (bool_decide_reflect (k = "session")); [by rewrite Hr|]. destruct (bool_decide_reflect (k = "bindle")); [apply Hb|]. apply Ho.
  unfold OWN_TABLE_KINDS. cbn. set_solver.
Qed.

Lemma placed_backed v actor now rows t c :
  (∀ key p, (key, p) ∈ t → ∃ w, po_user p = Some w ∧ exists_for (Some w) c key = true) →
  (∀ r, r ∈ rows → exists_for (Some v) c (pl_kind r, pl_object r) = true) →
  ∀ key p, (key, p) ∈ foldl (place (Some v) actor now) t rows → ∃ w, po_user p = Some w ∧ exists_for (Some w) c key = true.
Proof.
  revert t. induction rows as [|r rows IH]; intros t Ht Hr; [done|]. cbn [foldl]. apply IH; [|intros; apply Hr; by right].
  intros key p. unfold place, guarded_upsert. destruct (dget t (pl_kind r, pl_object r)) as [old|] eqn:E.
  - destruct (po_user old ≡? Some v) eqn:Eo; [|apply Ht]. bool_to_prop. intros [ [-> ->]|Hin]%elem_of_dset; [|by apply Ht]. exists v.
    split; [done|]. apply Hr. by left.
  - intros [ [-> ->]|Hin]%elem_of_dset; [|by apply Ht]. exists v. split; [done|]. apply Hr. by left.
Qed.

Lemma dpop_sub {K V} `{EqDecision K} (d : list (K * V)) k : dpop d k ⊆ d.
Proof. intros x. unfold dpop. rewrite list_elem_of_filter. tauto. Qed.

Lemma delete_object_backed v k o ts c : canvas_ok c → backed c → backed (delete_object holder ttl k o (Some v) ts c).2.
Proof.
  intros Hok Hb. unfold delete_object. destruct (dget (cv_objects c) (k, o)) as [x|] eqn:E; [|done]. cbn [in_scope].
  destruct (ob_user x ≡? Some v) eqn:Ex; [|done]. bool_to_prop. cbv zeta. cbn [snd]. apply backed_announce. cbn [cv_positions with_objects].
  assert (∀ w key c', cv_runs c' = cv_runs c → cv_lists c' = cv_lists c → cv_bindles c' = cv_bindles c → cv_objects c' = dpop (cv_objects c) (k, o) →
    (key.1 ∉ OWN_TABLE_KINDS → key ≠ (k, o)) → exists_for (Some w) c key = true → exists_for (Some w) c' key = true) as Hk.
  { intros w key c' Hr Hl Hbi Hob Hne. apply exists_tables; rewrite ?Hr, ?Hl, ?Hbi, ?Hob; auto. intros Hown. unfold owned. rewrite dget_dpop_ne; auto. }
  destruct (dget (cv_positions c) (k, o)) as [p|] eqn:Ep.
  - destruct (decide (po_user p = Some v)) as [Eu|Eu].
    + rewrite bool_decide_eq_true_2 by done. revert Hb. apply backed_more; [apply dpop_sub|]. intros w key He Hin.
      cbn [cv_positions with_positions] in Hin. rewrite dkeys_dpop, list_elem_of_filter in Hin. apply Hk; done || tauto.
    + rewrite bool_decide_eq_false_2 by done. destruct (Hb (k, o) p) as (w & Hw & He); [by apply dget_elem|].
      revert Hb. apply backed_more; [done|]. intros w' key He' Hin. apply Hk; try done. intros Hown ->.
      rewrite exists_owned in He. unfold backing in He. cbn in Hown. unfold OWN_TABLE_KINDS in Hown.
      rewrite !(bool_decide_eq_false_2 (k = _)) in He by set_solver. rewrite E in He. cbn in He. bool_to_prop. congruence.
  - revert Hb. apply backed_more; [done|]. intros w key He Hin. apply Hk; try done. intros _ ->. by apply dget_none in Ep.
Qed.

Lemma delete_list_backed v l ts c : backed c → backed (delete_list holder ttl l (Some v) ts c).2.
Proof.
  intros Hb. unfold delete_list. destruct (dget (cv_lists c) l) as [x|] eqn:E; [|done]. destruct (in_scope _ _); [|done].
  cbv zeta. cbn [snd]. apply backed_announce. revert Hb. apply backed_more; [apply dpop_sub|]. intros w key He Hin.
  cbn [cv_positions with_positions with_items with_lists] in Hin. rewrite dkeys_dpop, list_elem_of_filter in Hin.
  revert He. apply exists_tables; try done. intros l' ->. unfold owned. cbn. rewrite dget_dpop_ne; [done|]. intros ->. tauto.
Qed.

Lemma user_call_backed v c c' : canvas_ok c → backed c → user_call true v c c' → backed c'.
Proof.
  intros Hok Hb [l name now ts c1 H|l ts|l i task description metadata ts|rows actor now ts Hr|parent tier w h material now ts
    |b edition subtitle pages html created now|d run title key sha bytes now c1 H|k o payload actor now ts|k o ts].
  - unfold create_list in H. destruct (dmem (cv_lists c) l) eqn:E; [done|]. injection H as <-. apply backed_announce. revert Hb. apply backed_more; [done|].
    intros w key He _. revert He. apply exists_tables; try done. intros l' _. by apply owned_new.
  - by apply delete_list_backed.
  - unfold update_item. assert (∀ f, backed (change_item l i f c)) as Hc.
    { intros f. unfold change_item. by destruct (dget _ _). }
    destruct task, description, metadata; try done; destruct (_ && _); try done; apply backed_announce, Hc.
  - apply backed_announce. intros key p Hin. specialize (Hr eq_refl). cbn [cv_positions with_positions] in Hin.
    eapply placed_backed in Hin; [exact Hin|exact Hb|]. intros r Hin'. specialize (Hr r Hin'). unfold existing_keys in Hr.
    apply elem_of_list_to_set, elem_of_bfilter in Hr. tauto.
  - unfold set_desk. destruct (desk_dims tier w h). by apply backed_announce.
  - revert Hb. apply backed_more; [done|]. intros w key He _. revert He. apply exists_tables; try done. intros b'. by apply owned_upsert.
  - unfold document_create in H. destruct (dmem _ _); [done|]. by injection H as <-.
  - apply backed_announce. revert Hb. apply backed_more; [done|]. intros w key He _. revert He. apply exists_tables; try done. intros _. by apply owned_upsert.
  - by apply delete_object_backed.
Qed.

(** While users place only what [existing_keys] finds for them, every position is its owner's and
    of a thing of theirs that is there, whatever is created, replaced and deleted: the cleanup of the
    next start finds nothing. *)
Theorem positions_backed c c' :
  canvas_ok c → backed c → rtc (λ c c', ∃ v, user_call true v c c') c c' → backed c' ∧ cleanup_orphan_positions c' = c'.
Proof.
  intros Hok Hb Hs. assert (backed c') as Hb'.
  { induction Hs as [|c c1 c2 (v & H1) _ IH]; [done|]. apply IH; [by eapply user_call_ok|by eapply user_call_backed]. }
  split; [done|]. unfold cleanup_orphan_positions. rewrite (bfilter_ext _ (λ _, true)); [by rewrite List.filter_true; destruct c'|].
  intros [key p] Hin. destruct (Hb' key p Hin) as (w & _ & He). cbn. destruct (bool_decide_reflect (key.1 ∈ OWN_TABLE_KINDS)) as [|Hown]; [done|].
  rewrite exists_owned in He. destruct key as [k o]. unfold backing in He. cbn in Hown. unfold OWN_TABLE_KINDS in Hown.
  rewrite !(bool_decide_eq_false_2 (k = _)) in He by set_solver. unfold dmem. destruct (dget (cv_objects c') (k, o)); [done|].
  by rewrite bool_decide_eq_false_2 in He.
Qed.
End calls.

(** ** Desks read back *)

Lemma filter_head_app {A} (f : A → bool) l x : head (List.filter f (l ++ [x])) = (head (List.filter f l) orelse if f x then Some x else None).
Proof. rewrite List.filter_app. cbn. by destruct (List.filter f l), (f x). Qed.

(** A user reads back the desk they set, with the dimensions its tier gives it; every other surface,
    and every other user, keeps the desk it had. *)
Theorem desk_read_back holder ttl printed u parent tier w h material now ts c :
  let c' := set_desk holder ttl printed (Some u) parent tier w h material now ts c in
  get_desk (Some u) parent c' = (tier, desk_dims tier w h, material) ∧
  ∀ v p, v ≠ u ∨ p ≠ parent → get_desk (Some v) p c' = get_desk (Some v) p c.
Proof.
  intros c'. subst c'. unfold set_desk, get_desk. destruct (desk_dims tier w h) as [ew eh] eqn:Ed. cbn [cv_desks announce with_runs with_desks]. split.
  - rewrite filter_head_app. assert (∀ l : list Desk, List.filter (λ d, (de_parent d ≡? parent) && in_scope (Some u) (de_user d))
      (List.filter (λ d, negb ((de_parent d ≡? parent) && (de_user d ≡? Some u))) l) = []) as ->.
    { induction l as [|d l IH]; [done|]. cbn. destruct (negb _) eqn:E; [|done]. cbn. by rewrite (proj1 (negb_true_iff _) E). }
    cbn [head de_parent de_user in_scope]. rewrite !bool_decide_eq_true_2 by done. cbn [andb de_tier de_w de_h de_material]. by rewrite Ed.
  - intros v p Hne. rewrite filter_head_app. cbn [in_scope de_parent de_user]. replace ((parent ≡? p) && (Some u ≡? Some v)) with false.
    + replace (List.filter (λ d, (de_parent d ≡? p) && (de_user d ≡? Some v)) _) with (List.filter (λ d, (de_parent d ≡? p) && (de_user d ≡? Some v)) (cv_desks c)).
      * by destruct (head _).
      * induction (cv_desks c) as [|d l IH]; [done|]. cbn.
        destruct (bool_decide_reflect (de_parent d = p)), (bool_decide_reflect (de_user d = Some v)), (bool_decide_reflect (de_parent d = parent)),
          (bool_decide_reflect (de_user d = Some u)); cbn; rewrite ?IH, ?(bool_decide_eq_true_2 (de_parent d = p)), ?(bool_decide_eq_true_2 (de_user d = Some v)),
          ?(bool_decide_eq_false_2 (de_parent d = p)), ?(bool_decide_eq_false_2 (de_user d = Some v)) by done; try done. naive_solver.
    + symmetry. apply andb_false_iff. destruct Hne; [right|left]; apply bool_decide_eq_false_2; congruence.
Qed.

(** ** Instances *)

Section instances.
Let text : Q → string := λ _, "0".
Let set (u o : option string) (k i : string) : Canvas → Canvas :=
  set_positions "r1" 60 text [{| pl_kind := k; pl_object := i; pl_x := 1; pl_y := 2; pl_z := 0; pl_parent := o; pl_w := None; pl_h := None |}] u None 5 6.

Definition no_canvas : Canvas :=
  {| cv_runs := no_runs; cv_lists := []; cv_items := []; cv_positions := []; cv_desks := []; cv_bindles := []; cv_documents := []; cv_objects := [] |}.

(** Ann has a note on her canvas. *)
Definition demo_canvas : Canvas := set (Some "ann") None "note" "n1" (put_object "r1" 60 "note" "n1" (JStr "hi") (Some "ann") None 1 2 no_canvas).

Lemma demo_ok : canvas_ok demo_canvas ∧ backed demo_canvas.
Proof.
  split; [split; vm_compute; repeat constructor; by intros ?%elem_of_nil|].
  intros key p [= -> ->]%list_elem_of_singleton. exists "ann". by split; vm_compute.
Qed.

Lemma canvas_isolated_witness :
  canvas_ok demo_canvas ∧ own_view "ann" (set (Some "bob") None "note" "n1" demo_canvas) = own_view "ann" demo_canvas.
Proof.
  split; [apply demo_ok|]. apply canvas_isolated with (holder := "r1") (ttl := 60%Q) (printed := text); [apply demo_ok|].
  apply rtc_once. exists "bob". split_and!; [discriminate..|]. by apply call_set_positions.
Defined.

Lemma positions_backed_witness :
  let c := (delete_object "r1" 60 "note" "n1" (Some "ann") 9 demo_canvas).2 in backed c ∧ cleanup_orphan_positions c = c.
Proof.
  cbv zeta. apply positions_backed with (holder := "r1") (ttl := 60%Q) (printed := text) (c := demo_canvas); [apply demo_ok..|].
  apply rtc_once. exists "ann". by apply call_delete_object.
Defined.

(** When the operator is the first to place a user's object, the position is the operator's: the
    user can neither move it, nor does it go when they delete the object. *)
Theorem operator_position_sticks :
  let c := put_object "r1" 60 "note" "n1" (JStr "hi") (Some "ann") None 1 2 no_canvas in
  let c := set None None "note" "n1" c in
  ("note", "n1") ∈ existing_keys [("note", "n1")] None c ∧
  cv_positions (set (Some "ann") (Some "p") "note" "n1" c) = cv_positions c ∧
  cv_positions (delete_object "r1" 60 "note" "n1" (Some "ann") 9 c).2 = cv_positions c ∧ cv_positions c ≠ [].
Proof. cbv zeta. split_and!; [apply (bool_decide_unpack _); by vm_compute|by vm_compute..]. Qed.

(** The operator's scope has every row, so that the desk the operator sets is not the one they read
    when somebody else set a desk for a surface of the same name before. *)
Theorem operator_desk_shadowed :
  let c := set_desk "r1" 60 text (Some "ann") "" "large" None None "oak" 1 2 no_canvas in
  let c := set_desk "r1" 60 text None "" "small" None None "slate" 3 4 c in
  get_desk None "" c = ("large", (4096, 2560)%Q, "oak").
Proof. by vm_compute. Qed.

(** The calls on items other than [update_item] do not look at the owner of the list. *)
Theorem item_calls_unscoped c0 :
  create_list "r1" 60 "l1" "mine" (Some "ann") 1 2 no_canvas = Some c0 →
  ∃ c, add_item "r1" 60 "l1" "i1" "buy milk" (Some "ann") 3 4 c0 = Some c ∧
    vw_items (own_view "ann" (delete_item "r1" 60 "l1" "i1" (Some "bob") 5 c)) ≠ vw_items (own_view "ann" c).
Proof. intros [= <-]. eexists. split; [vm_compute; reflexivity|]. by vm_compute. Qed.
End instances.
