(* ===== verification/Adoption.v ===== *)
(** * Adopted models ([routes/admin_catalog_adoptions.py], [freshness.py], [runners/registry.py])

    An administrator adopts a model of a provider's library, or registers a server of their own,
    into the catalog of their scope; a daily pass keeps a snapshot of what the providers list, flags
    what drifted and may adopt what is new.  The runner of an entry is cached by a key.

    A listing is what the fetchers of [catalog_sync.py] return: its rows, mapped and typed, or the
    error they report.  Bodies of requests carry texts or nothing in their text fields; the texts of
    error messages and the audit rows are left out. *)

From S2P Require Import Prelude.
From S2P Require Import PyStr.
From S2P Require Import PyDict.
From S2P Require Import Schemas.
From S2P Require Import Catalog.
From S2P Require Import Domain.
From S2P Require Import Identity.
From S2P Require Import Policy.
From S2P Require Import Json.
From S2P Require Import Credentials.
From S2P Require Import AuthPolicies.
From S2P Require Import AuthStore.
From S2P Require Import RequireAuth.

Local Open Scope py_scope.

(** ** Listings *)

(** A row of a library; a price is [None] when the provider gives none. *)
Record LibraryRow := {
  lb_slug : string; lb_name : string; lb_context : Z; lb_price_in : option Q; lb_price_out : option Q; lb_tools : bool; lb_vision : bool;
}.

(** [{models, error}] *)
Record Library := { lb_models : list LibraryRow; lb_error : option string }.

Definition empty_library : Library := {| lb_models := []; lb_error := None |}.

(** ** The providers that can be adopted from *)

Record AdoptProvider := { ad_prefix : string; ad_base_url : option string; ad_endpoint : string; ad_key_env : string; ad_key_required : bool }.

Definition PROVIDERS : list (string * AdoptProvider) :=
  [("openrouter", {| ad_prefix := "or"; ad_base_url := Some "https://openrouter.ai/api/v1"; ad_endpoint := "openai";
                     ad_key_env := "OPENROUTER_API_KEY"; ad_key_required := false |});
   ("fireworks", {| ad_prefix := "fw"; ad_base_url := Some "https://api.fireworks.ai/inference/v1"; ad_endpoint := "openai";
                    ad_key_env := "FIREWORKS_API_KEY"; ad_key_required := true |});
   ("cloudflare", {| ad_prefix := "cf"; ad_base_url := Some "https://api.cloudflare.com/client/v4/accounts/${CLOUDFLARE_ACCOUNT_ID}/ai/v1";
                     ad_endpoint := "openai"; ad_key_env := "CLOUDFLARE_API_TOKEN"; ad_key_required := true |});
   ("anthropic", {| ad_prefix := "an"; ad_base_url := None; ad_endpoint := "anthropic"; ad_key_env := "ANTHROPIC_API_KEY";
                    ad_key_required := true |})].

(** What a handler answers when it refuses. *)
Record Refusal := { rf_status : Z; rf_type : string; rf_code : option string }.

Definition refuse (status : Z) (type : string) (code : option string) : Refusal := {| rf_status := status; rf_type := type; rf_code := code |}.

Definition invalid (code : string) : Refusal := refuse 400 "invalid_request_error" (Some code).

(** [_scope_key]: [identity.team_id or identity.org_id] *)
Definition scope_key (w : Identity) : option string := match nonempty (team_id w) with Some t => Some t | None => org_id w end.

(** [_last_seg] *)
Definition last_seg (slug : string) : string := List.last (List.filter (λ p, negb (p ≡? "")) (split_on "/" slug)) "model".

(** The loop of [_suggested_id]: a number that is not taken is among the first ones. *)
Fixpoint bump (fuel n : nat) (base : string) (taken : list string) : option string :=
  match fuel with
  | 0 => None
  | S fuel => let i := base +:+ "-" +:+ str_of_nat n in if i ∈? taken then bump fuel (S n) base taken else Some i
  end.

Definition suggested_id (slug : string) (taken : list string) (prefix : string) : option string :=
  let base := prefix +:+ "-" +:+ last_seg slug in
  if negb (base ∈? taken) then Some base else bump (S (length taken)) 2 base taken.

(** [_materialize] *)
Definition materialize (source : string) (cfg : AdoptProvider) (row : LibraryRow) (i : string) : CatalogEntry :=
  {| id := i; aliases := []; lane := economy; endpoint := ad_endpoint cfg; residency_class := cloud;
     price_usd_per_1k := {| prompt := default 0%Q (lb_price_in row); completion := default 0%Q (lb_price_out row);
                            cache_read_multiplier := cache_read_multiplier default_price; cache_write_multiplier := cache_write_multiplier default_price |};
     context_window := lb_context row; cache_ttl_s := None; upstream_model := Some (lb_slug row); base_url := ad_base_url cfg;
     api_key_env := ad_key_env cfg; tools := lb_tools row; identity_id := None; offer_id := None; provider := Some source;
     credential_scope := None; modalities := if lb_vision row then ["text"; "image"] else ["text"];
     supported_parameters := if lb_tools row then ["tools"] else []; max_output_tokens := None; snapshot_completed_at := None;
     snapshot_expires_at := None; capability_residency := []; source := None; price_source := yaml |}.

Section adoption.
(** The shipped catalog, what a provider lists with a key, and the environment. *)
Context (base : list CatalogEntry) (fetch : string → Library) (environ : Environ).

(** [_discovery_row] *)
Definition discovery_row (byok : Byok) (src slug : string) (cfg : AdoptProvider) : res Refusal LibraryRow :=
  let key := stored_or_env byok environ (ad_key_env cfg) in
  if ad_key_required cfg && negb (present key) then Err (refuse 503 "config_error" None)
  else if (src ≡? "cloudflare") && negb (present (stored_or_env byok environ "CLOUDFLARE_ACCOUNT_ID")) then Err (refuse 503 "config_error" None)
  else match nonempty (lb_error (fetch src)) with
       | Some _ => Err (refuse 502 "provider_error" None)
       | None => match List.find (λ m, lb_slug m ≡? slug) (lb_models (fetch src)) with
                 | Some row => Ok row
                 | None => Err (invalid "unknown_slug")
                 end
       end.

(** A stored row, [200] when it was there before. *)
Inductive Adopted : Type := Created (i : string) (ad : Adoption) | Already (i : string) (ad : Adoption).

Definition base_ids : list string := id <$> base.

(** The naming checks, in their order. *)
Definition naming (i prefix : string) (existing : list string) : res Refusal unit :=
  if i ∈? base_ids then Err (invalid "id_collision")
  else if i ∈? existing then Err (invalid "id_collision")
  else if dmem LEGACY_MODEL_IDS i then Err (invalid "legacy_id")
  else if negb (bool_decide (id_tier_words i = ∅)) then Err (invalid "tier_word_id")
  else if negb (startswith (prefix +:+ "-") i) then Err (invalid "prefix_mismatch")
  else Ok ().

(** [adopt]; the id is [None] only when no number is free, which [suggested_id_fresh] excludes. *)
Definition adopt (w : Identity) (byok : Byok) (src slug requested : option string) (o : Overlays) : res Refusal (Adopted * Overlays) :=
  match scope_key w with
  | None => Err (invalid "no_scope")
  | Some scope =>
      let slug := strip (default "" slug) in
      match match src with Some p => (pair p) <$> dget PROVIDERS p | None => None end with
      | None => Err (invalid "invalid_source")
      | Some (p, cfg) =>
          if slug ≡? "" then Err (invalid "missing_slug")
          else try! row := discovery_row byok p slug cfg in
               let existing := list_adoptions scope o in
               let requested := strip (default "" requested) in
               match List.find (λ r : string * Adoption, (ap_upstream r.2 ≡? slug) && (ap_provider r.2 ≡? p)) existing with
               | Some (i, ad) =>
                   if (requested ≡? "") || (requested ≡? i) then Ok (Already i ad, o)
                   else try! _ := naming requested (ad_prefix cfg) existing.*1 in
                        let ad := {| ap_entry := Some (materialize p cfg row requested); ap_upstream := slug; ap_provider := p; ap_by := user_id w |} in
                        Ok (Created requested ad, (add_adoption scope requested ad o).2)
               | None =>
                   match (if requested ≡? "" then suggested_id slug (base_ids ++ existing.*1) (ad_prefix cfg) else Some requested) with
                   | None => Err (refuse 500 "internal" None)
                   | Some i =>
                       try! _ := naming i (ad_prefix cfg) existing.*1 in
                       let ad := {| ap_entry := Some (materialize p cfg row i); ap_upstream := slug; ap_provider := p; ap_by := user_id w |} in
                       Ok (Created i ad, (add_adoption scope i ad o).2)
                   end
               end
      end
  end.

(** The price that is accepted; the multipliers are those of a new price. *)
Definition accepted_entry (r : SnapshotRow) (e : CatalogEntry) : CatalogEntry :=
  with_price e {| prompt := default 0%Q (ss_price_in r); completion := default 0%Q (ss_price_out r);
                  cache_read_multiplier := cache_read_multiplier default_price; cache_write_multiplier := cache_write_multiplier default_price |}
             (price_source e).

(** [accept_price]; an entry that is not a mapping does not validate. *)
Definition accept_price (w : Identity) (i : string) (o : Overlays) : res Refusal (Adoption * Overlays) :=
  match match scope_key w with Some s => if s ≡? "" then None else (pair s) <$> get_adoption s i o | None => None end with
  | None => Err (refuse 404 "invalid_request_error" (Some "not_found"))
  | Some (scope, ad) =>
      match List.find (λ r : string * SnapshotRow, r.1 ≡? ap_upstream ad) (snapshot_rows (ap_provider ad) o) with
      | None => Err (invalid "no_snapshot_price")
      | Some (_, r) =>
          match ss_price_in r, ss_price_out r with
          | None, None => Err (invalid "no_snapshot_price")
          | _, _ =>
              match ap_entry ad with
              | None => Err (refuse 500 "internal" None)
              | Some e =>
                  let ad := {| ap_entry := Some (accepted_entry r e); ap_upstream := ap_upstream ad; ap_provider := ap_provider ad; ap_by := ap_by ad |} in
                  Ok (ad, (add_adoption scope i ad o).2)
              end
          end
      end
  end.

Definition unadopt (w : Identity) (i : string) (o : Overlays) : res Refusal Overlays :=
  match scope_key w with
  | None => Err (refuse 404 "invalid_request_error" (Some "not_found"))
  | Some scope => let '(removed, o) := remove_adoption scope i o in
                  if removed then Ok o else Err (refuse 404 "invalid_request_error" (Some "not_found"))
  end.

(** ** Servers of one's own *)

Definition name_char (c : ascii) : bool := is_lower c || is_digit c || (c ≡? "."%char).

(** [re.sub(r"[^a-z0-9.]+", "-", s)]: every longest run of other characters becomes one dash. *)
Fixpoint dashed (inside : bool) (s : string) : string :=
  match s with
  | EmptyString => ""
  | String c s => if name_char c then String c (dashed false s) else if inside then dashed true s else String "-"%char (dashed true s)
  end.

(** [urlparse(url).hostname]: without user and port, [""] for none. *)
Definition hostname (netloc : string) : string :=
  let host := rev_str (span (λ c, negb (c ≡? "@"%char)) (rev_str netloc "")).1 "" in
  if startswith "[" host then (span (λ c, negb (c ≡? "]"%char)) (str_drop 1 host)).1 else (span (λ c, negb (c ≡? ":"%char)) host).1.

Definition local_entry (i url model : string) (window : Z) : CatalogEntry :=
  {| id := i; aliases := []; lane := economy; endpoint := url; residency_class := in_perimeter; price_usd_per_1k := default_price;
     context_window := if (window =? 0)%Z then 8192 else window; cache_ttl_s := None; upstream_model := Some model; base_url := None;
     api_key_env := "OPENAI_API_KEY"; tools := true; identity_id := None; offer_id := None; provider := Some "local"; credential_scope := None;
     modalities := []; supported_parameters := []; max_output_tokens := None; snapshot_completed_at := None; snapshot_expires_at := None;
     capability_residency := []; source := None; price_source := yaml |}.

(** [add_local_model]; [window] is the number of the body, 0 for none. *)
Definition add_local_model (ip_host : string → bool) (w : Identity) (name url model : option string) (window : Z) (o : Overlays) :
    res Refusal (Adopted * Overlays) :=
  match scope_key w with
  | None => Err (invalid "no_scope")
  | Some scope =>
      let url := rstrip_char "/" (strip (default "" url)) in
      let model := strip (default "" model) in
      match urlsplit ip_host url with
      | None => Err (refuse 500 "internal" None)
      | Some u =>
          if negb (u_scheme u ∈? ["http"; "https"]) || (hostname (u_netloc u) ≡? "") then Err (invalid "invalid_base_url")
          else if model ≡? "" then Err (invalid "missing_model")
          else
            let existing := list_adoptions scope o in
            let slug := strip_of ["-"%char] (dashed false (lower (match nonempty name with Some n => n | None => last_seg model end))) in
            if slug ≡? "" then Err (invalid "invalid_name")
            else match suggested_id slug (base_ids ++ existing.*1) "local" with
                 | None => Err (refuse 500 "internal" None)
                 | Some i =>
                     if negb (bool_decide (id_tier_words i = ∅)) then Err (invalid "tier_word_id")
                     else let ad := {| ap_entry := Some (local_entry i url model window); ap_upstream := model; ap_provider := "local"; ap_by := user_id w |} in
                          Ok (Created i ad, (add_adoption scope i ad o).2)
                 end
      end
  end.

(** ** Prices set by hand *)

(** [isinstance(v, (int, float))], not a [bool], and at least 0. *)
Definition price_number (v : json) : option Q :=
  match v with
  | JInt z => if (0 <=? z)%Z then Some (Qz z) else None
  | JFloat q _ => if Qleb 0 q then Some q else None
  | _ => None
  end.

Definition override_scope (w : Identity) : string := default "platform" (nonempty (scope_key w)).

(** [scope_effective_catalog] *)
Definition scope_effective_catalog (scope : option string) (o : Overlays) : list CatalogEntry :=
  match nonempty scope with
  | None => base
  | Some s => match list_adoptions s o with [] => base | rows => effective_catalog base ((ap_entry ∘ snd) <$> rows) ∅ end
  end.

(** The stored row, and whether the caller's catalog has the model. *)
Definition set_override (w : Identity) (model : string) (p c mult free : json) (o : Overlays) : res Refusal (option PriceOverride * bool * Overlays) :=
  match price_number p, price_number c with
  | Some p, Some c =>
      if Qeq_bool p 0 && Qeq_bool c 0 && negb (match free with JBool b => b | _ => false end) then Err (invalid "zero_price_unconfirmed")
      else match (match mult with JNull => Some None | _ => Some <$> price_number mult end) with
           | None => Err (invalid "invalid_multiplier")
           | Some m =>
               let '(stored, o) := set_price_override (override_scope w) model
                 {| prompt_usd_per_1k := p / 1000; completion_usd_per_1k := c / 1000; row_cache_read_multiplier := m |}%Q o in
               Ok (stored, present (catalog_get (scope_effective_catalog (scope_key w) o) model), o)
           end
  | _, _ => Err (invalid "invalid_price")
  end.

Definition remove_override (w : Identity) (model : string) (o : Overlays) : res Refusal Overlays :=
  let '(removed, o) := remove_price_override (override_scope w) model o in
  if removed then Ok o else Err (refuse 404 "invalid_request_error" (Some "not_found")).
End adoption.

(** ** Freshness *)

Record ProviderDiff := { pd_added : list string; pd_removed : list string; pd_priced : list string; pd_error : option string }.

(** A fetched price that is there and not the stored one. *)
Definition repriced (fetched stored : option Q) : bool :=
  match fetched, stored with
  | None, _ => false
  | Some p, Some q => negb (Qeq_bool p q)
  | Some _, None => true
  end.

(** [{m["slug"]: m for m in fetched if m.get("slug")}] *)
Definition by_slug (fetched : list LibraryRow) : list (string * LibraryRow) :=
  foldl (λ d m, if lb_slug m ≡? "" then d else dset d (lb_slug m) m) [] fetched.

Definition snapshot_diff (existing : list (string * SnapshotRow)) (fetched : list LibraryRow) : ProviderDiff :=
  let fetched := by_slug fetched in
  {| pd_added := sorted_strs (dkeys (List.filter (λ kv : string * LibraryRow, negb (dmem existing kv.1)) fetched));
     pd_removed := sorted_strs (dkeys (List.filter (λ kv : string * SnapshotRow, negb (dmem fetched kv.1)) existing));
     pd_priced := sorted_strs (dkeys (List.filter (λ kv : string * LibraryRow,
       match dget existing kv.1 with
       | Some prior => repriced (lb_price_in kv.2) (ss_price_in prior) || repriced (lb_price_out kv.2) (ss_price_out prior)
       | None => false
       end) fetched));
     pd_error := None |}.

Definition is_new (first_seen : option Q) (now window_days : Q) : bool :=
  match first_seen with Some t => Qleb (now - t) (window_days * 86400) | None => false end.

(** The old and the new price of an adopted model, when they differ. *)
Definition price_drift (price_in price_out : Q) (snap : option SnapshotRow) : option ((Q * Q) * (option Q * option Q)) :=
  match snap with
  | None => None
  | Some r =>
      match ss_price_in r, ss_price_out r with
      | None, None => None
      | i, o => if Qeq_bool (default 0%Q i) price_in && Qeq_bool (default 0%Q o) price_out then None else Some ((price_in, price_out), (i, o))
      end
  end.

Definition provider_checked_at (rows : list SnapshotRow) : option Q :=
  match rows with [] => None | r :: rs => Some (foldl (λ m r, Qmaxb m (ss_last_seen r)) (ss_last_seen r) rs) end.

(** [upstream_removed] and [price_drift] *)
Definition adopted_flags (upstream : string) (price_in price_out : Q) (snaps : list (string * SnapshotRow)) (checked_at : option Q) :
    bool * option ((Q * Q) * (option Q * option Q)) :=
  let snap := dget snaps upstream in
  let removed := match snap, checked_at with Some r, Some t => Qltb (ss_last_seen r) t | _, _ => false end in
  (removed, if removed then None else price_drift price_in price_out snap).

Section freshness.
Context (base : list CatalogEntry) (environ : Environ).

(** [_fetch_provider]; the fetch may raise. *)
Definition fetch_provider (fetch : string → res string Library) (provider : string) : res string Library :=
  if provider ≡? "openrouter" then fetch provider
  else if provider ≡? "fireworks" then
    match nonempty (environ "FIREWORKS_API_KEY") with Some _ => fetch provider | None => Ok empty_library end
  else if provider ≡? "cloudflare" then
    match nonempty (environ "CLOUDFLARE_API_TOKEN"), nonempty (environ "CLOUDFLARE_ACCOUNT_ID") with
    | Some _, Some _ => fetch provider
    | _, _ => Ok empty_library
    end
  else Ok empty_library.

(** One model of [_auto_adopt]: the slugs adopted before the pass, the ids taken so far. *)
Definition auto_adopt_one (provider : string) (cfg : AdoptProvider) (adopted_slugs : list string) (st : list string * Overlays) (m : LibraryRow) :
    list string * Overlays :=
  let '(taken, o) := st in
  if lb_slug m ∈? adopted_slugs then st
  else match suggested_id (lb_slug m) taken (ad_prefix cfg) with
       | None => st
       | Some i =>
           if (i ∈? taken) || dmem LEGACY_MODEL_IDS i || negb (bool_decide (id_tier_words i = ∅)) || negb (startswith (ad_prefix cfg +:+ "-") i) then st
           else (taken ++ [i],
                 (add_adoption OSS_LOCAL_ORG i {| ap_entry := Some (materialize provider cfg m i); ap_upstream := lb_slug m; ap_provider := provider;
                                                  ap_by := Some "auto:freshness" |} o).2)
       end.

Definition auto_adopt (provider : string) (new_models : list LibraryRow) (o : Overlays) : Overlays :=
  match dget PROVIDERS provider with
  | None => o
  | Some cfg =>
      let existing := list_adoptions OSS_LOCAL_ORG o in
      (foldl (auto_adopt_one provider cfg ((λ r : string * Adoption, ap_upstream r.2) <$> existing)) (base_ids base ++ existing.*1, o) new_models).2
  end.

Definition keep_snapshot (provider : string) (now : Q) (o : Overlays) (m : LibraryRow) : Overlays :=
  upsert_snapshot provider (lb_slug m) (lb_price_in m) (lb_price_out m) now o.

Definition no_diff (error : option string) : ProviderDiff := {| pd_added := []; pd_removed := []; pd_priced := []; pd_error := error |}.

Definition refresh_provider (fetch : string → res string Library) (provider : string) (now : Q) (o : Overlays) : res string (ProviderDiff * Overlays) :=
  try! fetched := fetch_provider fetch provider in
  match nonempty (lb_error fetched) with
  | Some e => Ok (no_diff (Some e), o)
  | None =>
      match lb_models fetched with
      | [] => Ok (no_diff None, o)
      | models =>
          let diff := snapshot_diff (snapshot_rows provider o) models in
          let o := foldl (keep_snapshot provider now) o models in
          Ok (diff,
              match pd_added diff with
              | [] => o
              | _ => if get_auto_adopt provider o then auto_adopt provider (List.filter (λ m, lb_slug m ∈? pd_added diff) models) o else o
              end)
      end
  end.

Definition FRESHNESS_PROVIDERS : list string := ["openrouter"; "fireworks"; "cloudflare"].

(** A provider that raises never sinks the pass. *)
Definition run_freshness (fetch : string → res string Library) (now : Q) (o : Overlays) : list (string * ProviderDiff) * Overlays :=
  foldl (λ st provider,
    let '(out, o) := st in
    match refresh_provider fetch provider now o with
    | Ok (d, o) => (out ++ [(provider, d)], o)
    | Err e => (out ++ [(provider, no_diff (Some e))], o)
    end) ([], o) FRESHNESS_PROVIDERS.
End freshness.

(** ** The runner of an entry *)

Definition RunnerKey : Type := string * option string * option string * string * string.

Definition runner_key (e : CatalogEntry) : RunnerKey := (id e, provider e, base_url e, effective_upstream_model e, api_key_env e).

(** A runner is built of the entry that was the first to ask for its key: its client talks to that
    entry's endpoint. *)
Definition RunnerCache : Type := list (RunnerKey * CatalogEntry).

Definition runner_for (e : CatalogEntry) (cache : RunnerCache) : CatalogEntry * RunnerCache :=
  match dget cache (runner_key e) with
  | Some built_of => (built_of, cache)
  | None => (e, dset cache (runner_key e) e)
  end.

(** ** Suggested ids *)

Lemma str_of_nat_inj n m : str_of_nat n = str_of_nat m → n = m.
Proof.
  intros H. destruct (str_of_nat_spec n) as (c & w & En & _ & Hn & _). destruct (str_of_nat_spec m) as (c' & w' & Em & _ & Hm & _).
  rewrite H, Em in En. injection En as -> ->. lia.
Qed.

Lemma str_app_inj (p s t : string) : p +:+ s = p +:+ t → s = t.
Proof. induction p as [|c p IH]; [done|]. intros H. injection H. apply IH. Qed.

Lemma bump_spec fuel n base taken : 
  match bump fuel n base taken with
  | Some i => i ∉ taken ∧ ∃ k, i = base +:+ "-" +:+ str_of_nat k
  | None => ((λ k, base +:+ "-" +:+ str_of_nat k) <$> seq n fuel) ⊆ taken
  end.
Proof.
  revert n. induction fuel as [|fuel IH]; intros n; cbn [bump seq fmap list_fmap]; [set_solver|]. cbv zeta.
  case_bool_decide as Hin; [|by split; [|exists n]]. specialize (IH (S n)). destruct (bump fuel (S n) base taken); [done|]. set_solver.
Qed.

(** A suggestion is always found, is free, and carries the prefix. *)
Lemma suggested_id_fresh slug taken prefix : ∃ i, suggested_id slug taken prefix = Some i ∧ i ∉ taken ∧ startswith (prefix +:+ "-") i = true.
Proof.
  unfold suggested_id. destruct (bool_decide_reflect (prefix +:+ "-" +:+ last_seg slug ∈ taken)) as [Hin|Hin]; cbn [negb].
  - pose proof (bump_spec (S (length taken)) 2 (prefix +:+ "-" +:+ last_seg slug) taken) as Hb. destruct (bump _ _ _ _) as [i|].
    + destruct Hb as (Hn & k & ->). eexists. split_and!; [done..|]. apply startswith_spec. exists (last_seg slug +:+ "-" +:+ str_of_nat k). by rewrite !str_app_assoc.
    + exfalso. assert (NoDup ((λ k, (prefix +:+ "-" +:+ last_seg slug) +:+ "-" +:+ str_of_nat k) <$> seq 2 (S (length taken)))) as Hnd.
      { apply NoDup_fmap_2; [|apply NoDup_ListNoDup, seq_NoDup]. intros a b Hab%str_app_inj%str_app_inj. by apply str_of_nat_inj. }
      apply NoDup_submseteq in Hb; [|done]. apply submseteq_length in Hb. rewrite length_fmap, length_seq in Hb. lia.
  - eexists. split_and!; [done..|]. apply startswith_spec. exists (last_seg slug). by rewrite str_app_assoc.
Qed.

(** ** The rows of a scope *)

Lemma elem_of_rows_of {V} scope (t : list (string * string * V)) i v : (i, v) ∈ rows_of scope t ↔ ((scope, i), v) ∈ t.
Proof.
  unfold rows_of. rewrite elem_of_sort_by, list_elem_of_omap. split.
  - intros ([ [s j] w] & Hin & H). cbn in H. destruct (bool_decide_reflect (s = scope)) as [->|]; [|done]. by injection H as -> ->.
  - intros Hin. eexists. split; [done|]. cbn. by rewrite bool_decide_eq_true_2.
Qed.

Lemma elem_of_list_adoptions scope o i ad : scope ≠ "" → (i, ad) ∈ list_adoptions scope o ↔ ((scope, i), ad) ∈ adoptions o.
Proof. intros Hs. unfold list_adoptions. rewrite bool_decide_eq_false_2 by done. apply elem_of_rows_of. Qed.

Lemma elem_of_adopted_ids scope o i : scope ≠ "" → i ∈ (list_adoptions scope o).*1 ↔ (scope, i) ∈ dkeys (adoptions o).
Proof.
  intros Hs. unfold dkeys. rewrite !list_elem_of_fmap. split.
  - intros ([j ad] & -> & H%elem_of_list_adoptions); [|done]. eexists. by split; [|exact H].
  - intros ([ [s j] ad] & [= <- <-] & H). exists (i, ad). split; [done|]. by apply elem_of_list_adoptions.
Qed.

(** ** Honest adoptions *)

Section honest.
Context (base : list CatalogEntry).

(** The name of a row is nobody else's, and its entry dispatches to the model and the provider that
    the row names. *)
Definition honest (r : string * string * Adoption) : Prop :=
  let '((_, i), ad) := r in
  i ∉ base_ids base ∧ dget LEGACY_MODEL_IDS i = None ∧ id_tier_words i = ∅ ∧
  ∃ e, ap_entry ad = Some e ∧ id e = i ∧ upstream_model e = Some (ap_upstream ad) ∧ provider e = Some (ap_provider ad) ∧
    ((∃ cfg, dget PROVIDERS (ap_provider ad) = Some cfg ∧ startswith (ad_prefix cfg +:+ "-") i = true ∧ residency_class e = cloud ∧
        base_url e = ad_base_url cfg ∧ endpoint e = ad_endpoint cfg ∧ api_key_env e = ad_key_env cfg) ∨
     (ap_provider ad = "local" ∧ startswith "local-" i = true ∧ residency_class e = in_perimeter ∧ base_url e = None)).

Definition all_honest (o : Overlays) : Prop := ∀ r, r ∈ adoptions o → honest r.

Lemma honest_add scope i ad o : all_honest o → honest ((scope, i), ad) → all_honest (add_adoption scope i ad o).2.
Proof. intros Ho Hn [k v] Hin. cbn in Hin. apply elem_of_dset in Hin as [ [-> ->]|Hin]; [done|by apply Ho]. Qed.

Lemma naming_ok i prefix existing :
  naming base i prefix existing = Ok () ↔
  i ∉ base_ids base ∧ i ∉ existing ∧ dget LEGACY_MODEL_IDS i = None ∧ id_tier_words i = ∅ ∧ startswith (prefix +:+ "-") i = true.
Proof.
  unfold naming, dmem. destruct (bool_decide_reflect (i ∈ base_ids base)); [naive_solver|]. destruct (bool_decide_reflect (i ∈ existing)); [naive_solver|].
  destruct (dget LEGACY_MODEL_IDS i); [naive_solver|]. destruct (bool_decide_reflect (id_tier_words i = ∅)); [|naive_solver]. cbn [negb].
  destruct (startswith _ _); naive_solver.
Qed.

Lemma materialize_honest scope p cfg row i existing by_ :
  dget PROVIDERS p = Some cfg → naming base i (ad_prefix cfg) existing = Ok () →
  honest ((scope, i), {| ap_entry := Some (materialize p cfg row i); ap_upstream := lb_slug row; ap_provider := p; ap_by := by_ |}).
Proof.
  intros Hp (Hb & _ & Hl & Ht & Hs)%naming_ok. split_and!; [done..|]. eexists. split_and!; [done..|]. left. exists cfg. by split_and!.
Qed.

(** What [adopt] answers when it creates a row. *)
Lemma adopt_created fetch environ w byok src slug requested o i ad o' :
  adopt base fetch environ w byok src slug requested o = Ok (Created i ad, o') →
  ∃ scope p cfg row, scope_key w = Some scope ∧ src = Some p ∧ dget PROVIDERS p = Some cfg ∧ row ∈ lb_models (fetch p) ∧
    lb_slug row = strip (default "" slug) ∧ lb_slug row ≠ "" ∧ naming base i (ad_prefix cfg) (list_adoptions scope o).*1 = Ok () ∧
    ad = {| ap_entry := Some (materialize p cfg row i); ap_upstream := lb_slug row; ap_provider := p; ap_by := user_id w |} ∧
    o' = (add_adoption scope i ad o).2.
Proof.
  unfold adopt. destruct (scope_key w) as [scope|]; [|done]. destruct src as [p|]; [|done]. destruct (dget PROVIDERS p) as [cfg|] eqn:Ep; [|done]. cbn [fmap option_fmap option_map].
  destruct (bool_decide_reflect (strip (default "" slug) = "")) as [|Hslug]; [done|].
  destruct (discovery_row _ _ _ _ _ _) as [row|] eqn:Er; cbn [res_bind]; [|done].
  assert (row ∈ lb_models (fetch p) ∧ lb_slug row = strip (default "" slug)) as [Hin Hs].
  { unfold discovery_row in Er. destruct (_ && _); [done|]. destruct (_ && _); [done|]. destruct (nonempty _); [done|].
    destruct (List.find _ _) eqn:Ef; [|done]. injection Er as ->. apply List.find_some in Ef as [? Hs]. bool_to_prop. by rewrite list_elem_of_In. }
  rewrite <- Hs in *. set (requested' := strip (default "" requested)).
  destruct (List.find _ (list_adoptions scope o)) as [[j ad0]|].
  - destruct (_ || _); [done|]. destruct (naming _ _ _ _) as [[]|] eqn:En; cbn [res_bind]; [|done]. intros [= <- <- <-]. exists scope, p, cfg, row. by split_and!.
  - destruct (if requested' ≡? "" then _ else _) as [j|]; [|done]. destruct (naming _ _ _ _) as [[]|] eqn:En; cbn [res_bind]; [|done].
    intros [= <- <- <-]. exists scope, p, cfg, row. by split_and!.
Qed.

Lemma local_not_legacy i : startswith "local-" i = true → dget LEGACY_MODEL_IDS i = None.
Proof.
  intros Hi. apply dget_none. intros Hin. assert (Forall (λ k, startswith "local-" k = false) (dkeys LEGACY_MODEL_IDS)) as Hf by (repeat constructor).
  rewrite Forall_forall in Hf. apply Hf in Hin. congruence.
Qed.

(** What every call keeps of the rows; without removals, each names what it always named. *)
Record keeps (removes : bool) (o o' : Overlays) : Prop := {
  kp_honest : all_honest o → all_honest o';
  kp_keys : NoDup (dkeys (adoptions o)) → NoDup (dkeys (adoptions o'));
  kp_same : removes = false → ∀ s i ad, s ≠ "" → dget (adoptions o) (s, i) = Some ad →
    ∃ ad', dget (adoptions o') (s, i) = Some ad' ∧ ap_upstream ad' = ap_upstream ad ∧ ap_provider ad' = ap_provider ad;
}.

#[local] Instance keeps_preorder removes : PreOrder (keeps removes).
Proof.
  split.
  - intros o. split; [done..|]. eauto.
  - intros a b c [H1 H2 H3] [H4 H5 H6]. split; [auto..|]. intros Hr s i ad Hs Hg.
    destruct (H3 Hr s i ad Hs Hg) as (ad1 & Hg1 & Hu1 & Hp1). destruct (H6 Hr s i ad1 Hs Hg1) as (ad2 & Hg2 & Hu2 & Hp2).
    exists ad2. split; [done|]. by rewrite Hu2, Hp2.
Qed.

Lemma keeps_frame removes o o' : adoptions o' = adoptions o → keeps removes o o'.
Proof. intros He. split; unfold all_honest; rewrite He; [done..|]. eauto. Qed.

(** A row under a free name. *)
Lemma keeps_add removes scope i ad o :
  honest ((scope, i), ad) → i ∉ (list_adoptions scope o).*1 → keeps removes o (add_adoption scope i ad o).2.
Proof.
  intros Hh Hi. split; [intros Ho; by apply honest_add|by apply NoDup_dset|]. intros _ s j ad0 Hs Hg. exists ad0. split; [|done].
  cbn. rewrite dget_dset_ne; [done|]. intros [= <- <-]. apply Hi. apply elem_of_adopted_ids; [done|].
  apply dget_elem in Hg. by apply (list_elem_of_fmap_2 fst) in Hg.
Qed.

Lemma adopt_keeps removes fetch environ w byok src slug requested o r o' :
  adopt base fetch environ w byok src slug requested o = Ok (r, o') → keeps removes o o'.
Proof.
  destruct r as [i ad|i ad].
  - intros (scope & p & cfg & row & _ & _ & Hp & _ & _ & _ & Hn & -> & ->)%adopt_created. apply keeps_add; [by eapply materialize_honest|].
    apply naming_ok in Hn. tauto.
  - unfold adopt. destruct (scope_key w) as [scope|]; [|done]. destruct (match src with Some p => _ | None => _ end) as [ [p cfg]|]; [|done].
    destruct (_ ≡? ""); [done|]. destruct (discovery_row _ _ _ _ _ _); cbn [res_bind]; [|done].
    cbv zeta. destruct (List.find _ _) as [ [j ad0]|].
    + destruct (_ || _); [intros [= _ _ <-]; reflexivity|]. destruct (naming _ _ _ _); cbn [res_bind]; discriminate.
    + match goal with |- context [match (if ?b then ?x else ?y) with Some _ => _ | None => _ end] => destruct (if b then x else y) as [j|] end; [|discriminate].
      destruct (naming _ _ _ _); cbn [res_bind]; discriminate.
Qed.

Lemma local_keeps removes ip_host w name url model window o r o' :
  add_local_model base ip_host w name url model window o = Ok (r, o') → keeps removes o o'.
Proof.
  unfold add_local_model. destruct (scope_key w) as [scope|]; [|done]. cbv zeta. destruct (urlsplit _ _); [|done]. destruct (_ || _); [done|].
  destruct (_ ≡? ""); [done|]. destruct (_ ≡? ""); [done|].
  set (slug := strip_of _ _). destruct (suggested_id_fresh slug (base_ids base ++ (list_adoptions scope o).*1) "local") as (i & -> & Hf & Hs).
  destruct (bool_decide_reflect (id_tier_words i = ∅)) as [Ht|]; [|done]. cbn [negb]. intros [= _ <-]. rewrite elem_of_app in Hf.
  apply keeps_add; [|tauto]. split_and!; [tauto|by apply local_not_legacy|done|]. eexists. split_and!; [done..|]. by right.
Qed.

Lemma accept_keeps removes w i o r o' : accept_price w i o = Ok (r, o') → keeps removes o o'.
Proof.
  unfold accept_price. destruct (scope_key w) as [scope|]; [|done]. destruct (bool_decide_reflect (scope = "")) as [|Hne]; [done|].
  destruct (get_adoption scope i o) as [ad|] eqn:Eg; [|done]. cbn [fmap option_fmap option_map]. unfold get_adoption in Eg. rewrite bool_decide_eq_false_2 in Eg by done.
  destruct (List.find _ _) as [ [slug row]|]; [|done].
  assert (∀ e o'', ap_entry ad = Some e →
    o'' = (add_adoption scope i {| ap_entry := Some (accepted_entry row e); ap_upstream := ap_upstream ad; ap_provider := ap_provider ad; ap_by := ap_by ad |} o).2 →
    keeps removes o o'') as Hk.
  { intros e o'' He ->. split.
    - intros Ho. apply honest_add; [done|]. destruct (Ho _ (dget_elem _ _ _ Eg)) as (H1 & H2 & H3 & e' & He' & Hi & Hu & Hpr & Hc).
      rewrite He in He'. injection He' as <-. split_and!; [done..|]. exists (accepted_entry row e). by split_and!.
    - by apply NoDup_dset.
    - intros _ s j ad0 Hs Hg. cbn. destruct (decide ((s, j) = (scope, i))) as [ [= -> ->]|Hd]; [|exists ad0; by rewrite dget_dset_ne].
      rewrite dget_dset_eq. eexists. split; [done|]. cbn. rewrite Eg in Hg. by injection Hg as <-. }
  destruct (ss_price_in row), (ss_price_out row); try done; (destruct (ap_entry ad) as [e|] eqn:He; [|done]); intros [= _ <-]; by eapply Hk.
Qed.

Lemma unadopt_keeps w i o o' : unadopt w i o = Ok o' → keeps true o o'.
Proof.
  unfold unadopt. destruct (scope_key w) as [scope|]; [|done]. unfold remove_adoption. destruct (scope ≡? ""); [done|].
  destruct (dget _ _); [|done]. intros [= <-]. split; [|by apply NoDup_dpop|done].
  intros Ho r Hr. apply Ho. cbn in Hr. unfold dpop in Hr. by apply list_elem_of_filter in Hr as [_ Hr].
Qed.

Lemma snapshot_frame provider now models o : adoptions (foldl (keep_snapshot provider now) o models) = adoptions o.
Proof. revert o. induction models as [|m models IH]; intros o; [done|]. cbn [foldl]. by rewrite IH. Qed.

(** The names taken cover the base catalog and the local scope while a pass adopts. *)
Lemma auto_adopt_keeps removes provider models o : keeps removes o (auto_adopt base provider models o).
Proof.
  unfold auto_adopt. destruct (dget PROVIDERS provider) as [cfg|] eqn:Ep; [|reflexivity]. cbv zeta.
  set (slugs := _ <$> list_adoptions OSS_LOCAL_ORG o). set (taken := base_ids base ++ (list_adoptions OSS_LOCAL_ORG o).*1).
  assert (∀ i, i ∈ base_ids base ∨ i ∈ (list_adoptions OSS_LOCAL_ORG o).*1 → i ∈ taken) as Ht.
  { intros i. unfold taken. by rewrite elem_of_app. }
  clearbody taken slugs. revert o taken Ht. induction models as [|m models IH]; intros o1 taken Ht; [reflexivity|]. cbn [foldl].
  unfold auto_adopt_one at 2. destruct (lb_slug m ∈? slugs); [by apply IH|].
  destruct (suggested_id (lb_slug m) taken (ad_prefix cfg)) as [i|] eqn:Ei; [|by apply IH].
  destruct (bool_decide_reflect (i ∈ taken)) as [|Hi]; [by apply IH|]. cbn [orb]. unfold dmem. destruct (dget LEGACY_MODEL_IDS i) eqn:El; [by apply IH|].
  destruct (bool_decide_reflect (id_tier_words i = ∅)) as [Hw|]; [|by apply IH]. cbn [negb orb].
  destruct (startswith _ i) eqn:Es; [|by apply IH]. cbn [negb].
  set (ad := {| ap_entry := _; ap_upstream := _; ap_provider := _; ap_by := _ |}).
  assert (i ∉ (list_adoptions OSS_LOCAL_ORG o1).*1) as Hfree by (intros Hin; apply Hi, Ht; by right).
  transitivity (add_adoption OSS_LOCAL_ORG i ad o1).2.
  - apply keeps_add; [|done]. apply (materialize_honest OSS_LOCAL_ORG provider cfg m i []); [done|]. apply naming_ok. split_and!; try done; [|by apply not_elem_of_nil].
    intros Hin. apply Hi, Ht. by left.
  - apply IH. intros j [Hj|Hj]; rewrite elem_of_app; [left; apply Ht; by left|].
    apply elem_of_adopted_ids in Hj; [|done].
    change (adoptions (add_adoption OSS_LOCAL_ORG i ad o1).2) with (dset (adoptions o1) (OSS_LOCAL_ORG, i) ad) in Hj. rewrite dkeys_dset in Hj.
    destruct (dmem (adoptions o1) (OSS_LOCAL_ORG, i)); [left; apply Ht; right; by apply elem_of_adopted_ids|].
    apply elem_of_app in Hj as [Hj|[= ->]%list_elem_of_singleton]; [left; apply Ht; right; by apply elem_of_adopted_ids|right; by left].
Qed.

Lemma refresh_keeps removes environ fetch provider now o d o' : refresh_provider base environ fetch provider now o = Ok (d, o') → keeps removes o o'.
Proof.
  unfold refresh_provider. destruct (fetch_provider _ _ _) as [l|]; cbn [res_bind]; [|done]. destruct (nonempty (lb_error l)); [by intros [= _ <-]|].
  destruct (lb_models l) as [|m ms] eqn:El; [by intros [= _ <-]|]. rewrite <- El. cbv zeta. intros [= _ <-].
  set (o1 := foldl _ o _). transitivity o1; [apply keeps_frame, snapshot_frame|].
  match goal with |- context [match ?x with [] => _ | _ :: _ => _ end] => destruct x end; [reflexivity|]. destruct (get_auto_adopt provider o1); [apply auto_adopt_keeps|reflexivity].
Qed.

(** The calls on the adoptions, the prices and the snapshots; [removes]: rows may be removed. *)
Inductive admin_step (removes : bool) (o : Overlays) : Overlays → Prop :=
  | step_adopt fetch environ w byok src slug requested r o' :
      adopt base fetch environ w byok src slug requested o = Ok (r, o') → admin_step removes o o'
  | step_local ip_host w name url model window r o' : add_local_model base ip_host w name url model window o = Ok (r, o') → admin_step removes o o'
  | step_accept w i r o' : accept_price w i o = Ok (r, o') → admin_step removes o o'
  | step_unadopt w i o' : removes = true → unadopt w i o = Ok o' → admin_step removes o o'
  | step_override w model p c mult free r o' : set_override base w model p c mult free o = Ok (r, o') → admin_step removes o o'
  | step_remove_override w model o' : remove_override w model o = Ok o' → admin_step removes o o'
  | step_refresh environ fetch provider now d o' : refresh_provider base environ fetch provider now o = Ok (d, o') → admin_step removes o o'
  | step_auto provider enabled : admin_step removes o (set_auto_adopt provider enabled o).

Lemma admin_step_keeps removes o o' : admin_step removes o o' → keeps removes o o'.
Proof.
  intros [fetch environ w byok src slug requested r o1 H|ip_host w name url model window r o1 H|w i r o1 H|w i o1 -> H|w model p c mult free r o1 H
    |w model o1 H|environ fetch provider now d o1 H|provider enabled].
  - by eapply adopt_keeps.
  - by eapply local_keeps.
  - by eapply accept_keeps.
  - by eapply unadopt_keeps.
  - unfold set_override in H. destruct (price_number p), (price_number c); try done. destruct (_ && _); [done|].
    destruct (match mult with JNull => _ | _ => _ end); [|done]. apply keeps_frame. cbn in H. by injection H as _ <-.
  - unfold remove_override, remove_price_override in H. destruct (_ ≡? ""); [done|]. destruct (dget _ _); [|done]. apply keeps_frame. by injection H as <-.
  - by eapply refresh_keeps.
  - by apply keeps_frame.
Qed.

(** Whatever administrators and the daily pass do, in any order: every adopted id is no id of the
    shipped catalog, no retired one and names no tier; its entry dispatches to the very model of the
    row, in the cloud with the host and the key of the provider whose prefix the id has, or is a
    server of one's own under [local-].  And until somebody removes it, an adopted id never comes to
    mean another model or another provider. *)
Theorem adoptions_honest removes o o' :
  all_honest o → rtc (admin_step removes) o o' →
  (∀ r, r ∈ adoptions o' → honest r) ∧
  (removes = false → ∀ s i ad, s ≠ "" → dget (adoptions o) (s, i) = Some ad →
     ∃ ad', dget (adoptions o') (s, i) = Some ad' ∧ ap_upstream ad' = ap_upstream ad ∧ ap_provider ad' = ap_provider ad).
Proof.
  intros Ho Hs. assert (keeps removes o o') as [Hh _ Hsame].
  { induction Hs as [|a b c H1 _ IH]; [reflexivity|]. transitivity b; [by apply admin_step_keeps|]. apply IH. by apply (admin_step_keeps _ _ _ H1). }
  split; [by apply Hh|done].
Qed.
End honest.

(** ** What is adopted can be routed to *)

Lemma NoDup_rows_of {V} scope (t : list (string * string * V)) : NoDup (dkeys t) → NoDup (rows_of scope t).*1.
Proof.
  intros Hnd. assert (NoDup (omap (λ r : string * string * V, if r.1.1 ≡? scope then Some (r.1.2, r.2) else None) t).*1) as Hn.
  { induction t as [|[ [s i] v] t IH]; [constructor|]. cbn in *. inversion_clear Hnd as [|? ? Hk Hd]. destruct (bool_decide_reflect (s = scope)) as [->|]; [|auto].
    cbn. constructor; [|auto]. intros ([j x] & -> & Hin)%list_elem_of_fmap. apply list_elem_of_omap in Hin as ([ [s' j'] y] & Hin & Hy). cbn in Hy.
    destruct (bool_decide_reflect (s' = scope)) as [->|]; [|done]. injection Hy as -> ->. apply Hk. by apply (list_elem_of_fmap_2 fst) in Hin. }
  unfold rows_of. by rewrite (sort_by_perm _ _).
Qed.

Lemma get_adopted base l i ad e :
  NoDup l.*1 → (∀ j x e, (j, x) ∈ l → ap_entry x = Some e → id e = j) → (i, ad) ∈ l → ap_entry ad = Some e → i ∉ base_ids base →
  catalog_get (adopted_entries base ((ap_entry ∘ snd) <$> l)) i = Some (with_source e "adopted").
Proof.
  induction l as [|[j x] l IH]; intros Hnd Hid Hin He Hb; [by apply elem_of_nil in Hin|]. cbn in Hnd. inversion_clear Hnd as [|? ? Hj Hl].
  assert (id e = i) as Hi by by eapply Hid. unfold adopted_entries. cbn.
  destruct (decide (j = i)) as [->|Hne].
  - assert (x = ad) as ->.
    { apply elem_of_cons in Hin as [ [= ->]|Hin]; [done|]. exfalso. apply Hj. by apply (list_elem_of_fmap_2 fst) in Hin. }
    rewrite He, Hi. rewrite bool_decide_eq_false_2 by done. cbn. by rewrite Hi, bool_decide_eq_true_2.
  - apply elem_of_cons in Hin as [ [= ->]|Hin]; [done|].
    assert (catalog_get (adopted_entries base ((ap_entry ∘ snd) <$> l)) i = Some (with_source e "adopted")) as Hg.
    { apply IH; try done. intros j' x' e' Hx. apply Hid. by right. }
    destruct (ap_entry x) as [e'|] eqn:Ex; [|exact Hg]. assert (id e' = j) as Hj' by (eapply Hid; [by left|done]).
    destruct (id e' ∈? _); [exact Hg|]. cbn. rewrite Hj', bool_decide_eq_false_2 by done. exact Hg.
Qed.

(** What an administrator adopts is at once routable by the callers of their scope under its id,
    as the model of that slug with the price, the window and the abilities its provider lists; and
    the shipped models stay what they are. *)
Theorem adopted_routable base fetch environ w byok src slug requested o i ad o' scope overrides :
  all_honest base o → NoDup (dkeys (adoptions o)) → scope_key w = Some scope → scope ≠ "" →
  adopt base fetch environ w byok src slug requested o = Ok (Created i ad, o') →
  let c := effective_catalog base ((ap_entry ∘ snd) <$> list_adoptions scope o') overrides in
  (∃ p row e, src = Some p ∧ row ∈ lb_models (fetch p) ∧ lb_slug row = strip (default "" slug) ∧
     catalog_get c i = Some (apply_override overrides (with_source e "adopted")) ∧
     effective_upstream_model e = lb_slug row ∧ provider e = Some p ∧
     prompt (price_usd_per_1k e) = default 0%Q (lb_price_in row) ∧ completion (price_usd_per_1k e) = default 0%Q (lb_price_out row) ∧
     context_window e = lb_context row ∧ tools e = lb_tools row) ∧
  ∀ j b, catalog_get base j = Some b → catalog_get c j = Some (apply_override overrides b).
Proof.
  intros Ho Hnd Hsc Hne Ha c. split; [|intros j b; apply effective_catalog_base_wins].
  pose proof (adopt_keeps base false _ _ _ _ _ _ _ _ _ _ Ha) as [Hh Hk _]. specialize (Hh Ho). specialize (Hk Hnd).
  destruct (adopt_created _ _ _ _ _ _ _ _ _ _ _ _ Ha) as (s & p & cfg & row & Hs & -> & Hp & Hin & Hsl & Hnil & Hn & -> & ->).
  rewrite Hsc in Hs. injection Hs as <-. exists p, row, (materialize p cfg row i).
  split_and!; try done; [|unfold effective_upstream_model; cbn; by rewrite bool_decide_eq_false_2].
  unfold c, effective_catalog. rewrite catalog_get_override, catalog_get_app. apply naming_ok in Hn as (Hb & _).
  rewrite (proj2 (catalog_get_none base i)) by done. set (ad := {| ap_entry := _; ap_upstream := _; ap_provider := _; ap_by := _ |}) in *.
  rewrite (get_adopted base _ i ad (materialize p cfg row i)); [done|..|done|done].
  - unfold list_adoptions. rewrite bool_decide_eq_false_2 by done. by apply NoDup_rows_of.
  - intros j x e Hx He. apply elem_of_list_adoptions, Hh in Hx; [|done]. destruct Hx as (_ & _ & _ & e' & He' & Hid & _). congruence.
  - apply elem_of_list_adoptions; [done|]. cbn. apply dget_elem, dget_dset_eq.
Qed.

(** ** Snapshots *)

(** The last of the rows that a listing has for a slug. *)
Definition listed (l : list LibraryRow) (slug : string) : option LibraryRow := last (List.filter (λ m, lb_slug m ≡? slug) l).

Lemma listed_snoc l m slug : listed (l ++ [m]) slug = if lb_slug m ≡? slug then Some m else listed l slug.
Proof. unfold listed. rewrite List.filter_app. cbn. destruct (lb_slug m ≡? slug); [apply last_snoc|by rewrite app_nil_r]. Qed.

Lemma listed_some l slug : listed l slug ≠ None ↔ slug ∈ lb_slug <$> l.
Proof.
  induction l as [|m l IH] using rev_ind; [split; [done|by intros ?%elem_of_nil]|]. rewrite listed_snoc, fmap_app, elem_of_app. cbn. rewrite list_elem_of_singleton.
  destruct (bool_decide_reflect (lb_slug m = slug)) as [<-|Hne]; [naive_solver|]. rewrite IH. naive_solver.
Qed.

Lemma by_slug_get l slug : dget (by_slug l) slug = if slug ≡? "" then None else listed l slug.
Proof.
  unfold by_slug. induction l as [|m l IH] using rev_ind; [by destruct (slug ≡? "")|]. rewrite foldl_app, listed_snoc. cbn [foldl].
  destruct (bool_decide_reflect (lb_slug m = "")) as [He|He].
  - rewrite IH. destruct (bool_decide_reflect (slug = "")) as [|Hs]; [done|]. rewrite bool_decide_eq_false_2; [done|congruence].
  - destruct (bool_decide_reflect (lb_slug m = slug)) as [<-|Hne]; [by rewrite dget_dset_eq, bool_decide_eq_false_2|]. by rewrite dget_dset_ne.
Qed.

(** What the pass makes of a provider's row. *)
Definition snapshot_after (l : list LibraryRow) (now : Q) (old : option SnapshotRow) (slug : string) : option SnapshotRow :=
  match listed l slug with
  | Some m => Some {| ss_price_in := lb_price_in m; ss_price_out := lb_price_out m; ss_first_seen := match old with Some r => ss_first_seen r | None => now end;
                      ss_last_seen := now |}
  | None => old
  end.

Lemma keep_snapshots_get provider now l o p slug :
  dget (catalog_snapshots (foldl (keep_snapshot provider now) o l)) (p, slug)
  = if p ≡? provider then snapshot_after l now (dget (catalog_snapshots o) (p, slug)) slug else dget (catalog_snapshots o) (p, slug).
Proof.
  induction l as [|m l IH] using rev_ind; [by destruct (p ≡? provider)|]. rewrite foldl_app. cbn [foldl].
  unfold keep_snapshot at 1, upsert_snapshot. cbn [catalog_snapshots set_snapshots]. unfold snapshot_after. rewrite listed_snoc.
  destruct (bool_decide_reflect (p = provider)) as [->|Hp].
  - destruct (bool_decide_reflect (lb_slug m = slug)) as [<-|Hs].
    + rewrite dget_dset_eq. do 2 f_equal. rewrite IH. unfold snapshot_after. destruct (listed l (lb_slug m)); [|done]. by destruct (dget _ _).
    + rewrite dget_dset_ne by congruence. by rewrite IH.
  - rewrite dget_dset_ne by congruence. by rewrite IH.
Qed.

Lemma auto_adopt_snapshots base provider models o : catalog_snapshots (auto_adopt base provider models o) = catalog_snapshots o.
Proof.
  unfold auto_adopt. destruct (dget _ _) as [cfg|]; [|done]. cbv zeta. set (slugs := _ <$> _). generalize (base_ids base ++ (list_adoptions OSS_LOCAL_ORG o).*1).
  clearbody slugs. revert o. induction models as [|m models IH]; intros o taken; [done|]. cbn [foldl]. unfold auto_adopt_one at 2. cbv beta iota.
  destruct (_ ∈? slugs); [apply IH|]. destruct (suggested_id _ _ _); [|apply IH]. destruct (_ || _); [apply IH|]. by rewrite IH.
Qed.

Lemma snapshot_rows_get provider o slug : NoDup (dkeys (catalog_snapshots o)) → dget (snapshot_rows provider o) slug = dget (catalog_snapshots o) (provider, slug).
Proof.
  intros Hnd. destruct (dget (catalog_snapshots o) (provider, slug)) as [r|] eqn:E.
  - apply elem_dget; [by apply NoDup_rows_of|]. apply elem_of_rows_of. by apply dget_elem.
  - apply dget_none. intros ([s r] & -> & Hin%elem_of_rows_of)%list_elem_of_fmap. apply dget_none in E. apply E.
    by apply (list_elem_of_fmap_2 fst) in Hin.
Qed.

Lemma elem_of_sorted_keys {V} (f : string * V → bool) (d : list (string * V)) x :
  NoDup (dkeys d) → x ∈ sorted_strs (dkeys (List.filter f d)) ↔ ∃ v, dget d x = Some v ∧ f (x, v) = true.
Proof.
  intros Hnd. rewrite elem_of_sorted_strs. unfold dkeys. rewrite list_elem_of_fmap. split.
  - intros ([k v] & -> & [Hin Hf]%elem_of_bfilter). exists v. split; [by apply elem_dget|done].
  - intros (v & Hg & Hf). exists (x, v). split; [done|]. apply elem_of_bfilter. split; [by apply dget_elem|done].
Qed.

Lemma by_slug_keys l : NoDup (dkeys (by_slug l)).
Proof.
  unfold by_slug. induction l as [|m l IH] using rev_ind; [constructor|]. rewrite foldl_app. cbn. destruct (_ ≡? ""); [done|by apply NoDup_dset].
Qed.

(** A pass over a provider that answers brings its snapshot to what is listed, keeps when a model
    was first seen and the rows that are gone, and touches no other provider; what it reports as
    new and as removed is the difference of the two; and the flag of an adopted model is then raised
    exactly when its slug was listed once and is not any more. *)
Theorem refresh_exact base environ fetch provider now o d o' l :
  NoDup (dkeys (catalog_snapshots o)) →
  fetch_provider environ fetch provider = Ok l → nonempty (lb_error l) = None → lb_models l ≠ [] →
  refresh_provider base environ fetch provider now o = Ok (d, o') →
  (∀ p slug, dget (catalog_snapshots o') (p, slug)
     = if p ≡? provider then snapshot_after (lb_models l) now (dget (catalog_snapshots o) (p, slug)) slug else dget (catalog_snapshots o) (p, slug)) ∧
  (∀ x, x ∈ pd_added d ↔ x ≠ "" ∧ x ∈ lb_slug <$> lb_models l ∧ dget (catalog_snapshots o) (provider, x) = None) ∧
  (∀ x, x ∈ pd_removed d ↔ (x = "" ∨ x ∉ lb_slug <$> lb_models l) ∧ dget (catalog_snapshots o) (provider, x) ≠ None) ∧
  (∀ x pin pout, (∀ s r, dget (catalog_snapshots o) (provider, s) = Some r → (ss_last_seen r < now)%Q) →
     (adopted_flags x pin pout (snapshot_rows provider o') (Some now)).1 = true ↔
     x ∉ lb_slug <$> lb_models l ∧ dget (catalog_snapshots o) (provider, x) ≠ None).
Proof.
  intros Hnd Hf He Hm Hr. unfold refresh_provider in Hr. rewrite Hf in Hr. cbn [res_bind] in Hr. rewrite He in Hr.
  destruct (lb_models l) as [|m0 ms] eqn:El; [done|]. rewrite <- El in *. cbv zeta in Hr. injection Hr as <- Ho'.
  set (o1 := foldl _ o _) in Ho'.
  assert (catalog_snapshots o' = catalog_snapshots o1) as Hsn.
  { rewrite <- Ho'. match goal with |- context [match ?x with [] => _ | _ :: _ => _ end] => destruct x end; [done|].
    destruct (get_auto_adopt _ _); [apply auto_adopt_snapshots|done]. }
  assert (∀ p slug, dget (catalog_snapshots o') (p, slug) = if p ≡? provider then
    snapshot_after (lb_models l) now (dget (catalog_snapshots o) (p, slug)) slug else dget (catalog_snapshots o) (p, slug)) as Hget.
  { intros p slug. rewrite Hsn. apply keep_snapshots_get. }
  split; [done|]. cbn [pd_added pd_removed snapshot_diff]. split_and!.
  - intros x. rewrite elem_of_sorted_keys by apply by_slug_keys. cbn [fst]. unfold dmem. rewrite snapshot_rows_get, by_slug_get by done.
    rewrite <- listed_some. destruct (bool_decide_reflect (x = "")) as [->|]; [naive_solver|].
    destruct (listed (lb_models l) x), (dget (catalog_snapshots o) (provider, x)); naive_solver.
  - intros x. rewrite elem_of_sorted_keys by by apply NoDup_rows_of. cbn [fst]. unfold dmem. rewrite snapshot_rows_get, by_slug_get by done.
    rewrite <- listed_some. destruct (bool_decide_reflect (x = "")) as [->|]; [|destruct (listed (lb_models l) x)];
      destruct (dget (catalog_snapshots o) (provider, _)); naive_solver.
  - intros x pin pout Hold. unfold adopted_flags. cbn [fst]. rewrite snapshot_rows_get.
    + rewrite Hget, bool_decide_eq_true_2 by done. unfold snapshot_after. rewrite <- listed_some.
      destruct (listed (lb_models l) x) as [m|]; [cbn; unfold Qltb; rewrite (proj2 (Qle_bool_iff now now)) by apply Qle_refl; naive_solver|].
      destruct (dget (catalog_snapshots o) (provider, x)) as [r|] eqn:E; [|naive_solver]. apply Hold in E.
      rewrite (proj2 (Qltb_true _ _)) by done. naive_solver.
    + rewrite Hsn. unfold o1. clear - Hnd. revert o Hnd. induction (lb_models l) as [|m ls IH]; intros o Hnd; [done|]. cbn [foldl]. apply IH. by apply NoDup_dset.
Qed.

(** ** Instances *)

Section instances.
Let admin : Identity :=
  {| org_id := Some "o1"; team_id := None; user_id := Some "u1"; catalog_policy := None; routing_policy := None; org_allowlist := None;
     catalog_adoptions := []; price_overrides := ∅; provider_credential_scopes := None; zero_retention := false |}.
Let other : Identity :=
  {| org_id := Some "o2"; team_id := None; user_id := Some "u2"; catalog_policy := None; routing_policy := None; org_allowlist := None;
     catalog_adoptions := []; price_overrides := ∅; provider_credential_scopes := None; zero_retention := false |}.
Let unset : Environ := λ _, None.
Let row (slug : string) : LibraryRow :=
  {| lb_slug := slug; lb_name := slug; lb_context := 1000; lb_price_in := Some (1 # 100); lb_price_out := Some (2 # 100); lb_tools := true; lb_vision := false |}.
Let library (slugs : list string) : Library := {| lb_models := row <$> slugs; lb_error := None |}.
Let fetch (p : string) : Library := library ["qwen/qwen3"; "z-ai/glm-5.2"].
Let any : string → bool := λ _, true.

Definition no_overlays_yet : Overlays := no_overlays.

Lemma adoptions_honest_witness :
  ∃ o', adopt demo_catalog fetch unset admin no_byok (Some "openrouter") (Some " qwen/qwen3 ") None no_overlays = Ok (Created "or-qwen3" (default
      {| ap_entry := None; ap_upstream := ""; ap_provider := ""; ap_by := None |} (get_adoption "o1" "or-qwen3" o')), o') ∧
    ∀ r, r ∈ adoptions o' → honest demo_catalog r.
Proof.
  destruct (adopt demo_catalog fetch unset admin no_byok (Some "openrouter") (Some " qwen/qwen3 ") None no_overlays) as [ [r o']|] eqn:E;
    [|vm_compute in E; discriminate].
  exists o'. split; [vm_compute in E; injection E as <- <-; vm_compute; reflexivity|].
  refine (proj1 (adoptions_honest demo_catalog false no_overlays o' _ _)); [intros x Hx; by apply elem_of_nil in Hx|].
  apply rtc_once. by eapply step_adopt.
Defined.

Lemma adopted_routable_witness :
  ∃ ad o', adopt demo_catalog fetch unset admin no_byok (Some "openrouter") (Some "qwen/qwen3") None no_overlays = Ok (Created "or-qwen3" ad, o') ∧
    catalog_get (effective_catalog demo_catalog ((ap_entry ∘ snd) <$> list_adoptions "o1" o') ∅) "gpt" = Some (apply_override ∅ demo_cloud).
Proof.
  destruct (adopt demo_catalog fetch unset admin no_byok (Some "openrouter") (Some "qwen/qwen3") None no_overlays) as [ [r o']|] eqn:E;
    [|vm_compute in E; discriminate].
  assert (∃ ad, r = Created "or-qwen3" ad) as [ad ->] by (vm_compute in E; injection E as <- <-; eexists; reflexivity).
  exists ad, o'. split; [done|].
  refine (proj2 (adopted_routable demo_catalog _ _ _ _ _ _ _ no_overlays _ ad o' "o1" ∅ _ _ _ _ E) "gpt" demo_cloud _);
    [intros x Hx; by apply elem_of_nil in Hx|constructor|reflexivity|discriminate|vm_compute; reflexivity].
Defined.

Lemma refresh_exact_witness :
  ∃ d o', refresh_provider demo_catalog unset (λ _, Ok (library ["qwen/qwen3"])) "openrouter" 5 no_overlays = Ok (d, o') ∧ "qwen/qwen3" ∈ pd_added d.
Proof.
  destruct (refresh_provider demo_catalog unset (λ _, Ok (library ["qwen/qwen3"])) "openrouter" 5 no_overlays) as [ [d o']|] eqn:E; [|vm_compute in E; discriminate].
  exists d, o'. split; [done|].
  refine (proj2 (proj1 (proj2 (refresh_exact demo_catalog unset _ "openrouter" 5 no_overlays d o' (library ["qwen/qwen3"]) _ _ _ _ E)) "qwen/qwen3") _);
    [constructor|reflexivity|reflexivity|discriminate|]. split_and!; [discriminate|by left|reflexivity].
Defined.

(** A model that a provider lists twice is adopted twice by the daily pass. *)
Theorem listed_twice_adopted_twice :
  ∃ d o', refresh_provider demo_catalog unset (λ _, Ok (library ["qwen/qwen3"; "qwen/qwen3"])) "openrouter" 5
            (set_auto_adopt "openrouter" true no_overlays) = Ok (d, o') ∧
    (λ r : string * Adoption, (r.1, ap_upstream r.2)) <$> list_adoptions OSS_LOCAL_ORG o' = [("or-qwen3", "qwen/qwen3"); ("or-qwen3-2", "qwen/qwen3")].
Proof. do 2 eexists. split; vm_compute; reflexivity. Qed.

(** A row without a slug is stored, never reported as new, and reported as removed from the next pass
    on although the provider still lists it. *)
Theorem nameless_row_reported_removed :
  ∃ d o1 d' o2, refresh_provider demo_catalog unset (λ _, Ok (library [""; "qwen/qwen3"])) "openrouter" 5 no_overlays = Ok (d, o1) ∧
    refresh_provider demo_catalog unset (λ _, Ok (library [""; "qwen/qwen3"])) "openrouter" 6 o1 = Ok (d', o2) ∧
    pd_added d = ["qwen/qwen3"] ∧ pd_removed d' = [""].
Proof. do 4 eexists. split_and!; vm_compute; reflexivity. Qed.

(** Any server of the internet can be registered as one of one's own: the entry counts as in the
    perimeter, where guarded texts may go. *)
Theorem public_server_in_perimeter :
  ∃ i ad o' e, add_local_model demo_catalog any admin None (Some "https://api.example.com/v1") (Some "gpt-4o") 0 no_overlays = Ok (Created i ad, o') ∧
    ap_entry ad = Some e ∧ residency_class e = in_perimeter ∧ endpoint e = "https://api.example.com/v1".
Proof. do 4 eexists. split_and!; vm_compute; reflexivity. Qed.

(** Two organisations register servers of their own under one name: the second one's requests go to
    the first one's server, whose client the cached runner holds. *)
Theorem second_server_never_called :
  ∃ i ad ad' o1 o2 e e', add_local_model demo_catalog any admin None (Some "http://a.internal:11434/v1") (Some "llama3.1") 0 no_overlays = Ok (Created i ad, o1) ∧
    add_local_model demo_catalog any other None (Some "http://b.internal:11434/v1") (Some "llama3.1") 0 o1 = Ok (Created i ad', o2) ∧
    ap_entry ad = Some e ∧ ap_entry ad' = Some e' ∧ endpoint e' = "http://b.internal:11434/v1" ∧
    endpoint (runner_for e' (runner_for e []).2).1 = "http://a.internal:11434/v1".
Proof. do 7 eexists. split_and!; vm_compute; reflexivity. Qed.
End instances.

(** A cached runner was built for an entry with the same id, provider, host, upstream model and key. *)
Theorem runner_agrees e cache :
  (∀ k b, (k, b) ∈ cache → runner_key b = k) →
  let '(b, cache') := runner_for e cache in runner_key b = runner_key e ∧ ∀ k b, (k, b) ∈ cache' → runner_key b = k.
Proof.
  intros Hc. unfold runner_for. destruct (dget cache (runner_key e)) as [b|] eqn:E; [split; [|done]; by apply Hc, dget_elem|].
  split; [done|]. intros k b [ [-> ->]|Hin]%elem_of_dset; [done|by apply Hc].
Qed.
